(* ===== verification/_CoqProject ===== *)
-Q . S2P
Prelude.v
Netip.v
Tlv.v
Field.v
Control.v
MessageData.v
DurableWire.v
Message.v
MessageProps.v
Sha256.v
NetipText.v
Link.v
Engine.v
Negotiation.v
Inference.v
Search.v
SearchProps.v
PeerSearch.v
Ports.v
Spec.v
SpecProps.v
Desired.v
DesiredProps.v
AtomicFile.v
PolicyRevision.v
Recovery.v
DynamicPolicy.v
DynamicPolicyProps.v
Durable.v
DurableProps.v
Agreement.v
GiveUp.v
Interfaces.v
Attempts.v
AttemptsProps.v
AttemptsSafety.v
AttemptsRun.v
LinkSafety.v
Crossing.v
Netlink.v
Routes.v
RoutesProps.v
Backend.v
RunKernel.v
RoutesCompiled.v
BackendProps.v
Untouched.v
Reconciled.v
ReconciledRun.v
GoText.v
NetipPrint.v
Validate.v
BuildProps.v
SpecifiedNode.v
SpecifiedRun.v
Babel.v
BabelProps.v
LinkHealth.v
LinkHealthProps.v
LinkRoutes.v
LinkRoutesProps.v
WarmFile.v
WarmLinks.v
WarmLinksProps.v
WarmLinksRun.v
Probe.v
ProbeProps.v
Udp.v
UdpProps.v
Daemon.v
DaemonProps.v
DaemonRun.v
StaticPorts.v
StaticPortsProps.v
Datagrams.v
Discovery.v
PolicySocket.v
DatagramsProps.v
Observe.v
ObserveProps.v
