(* ===== verification/Prelude.v ===== *)
(** * Velvet Fabric: a verification development

    Velvet Fabric is a daemon that connects nodes by WireGuard Links and routes
    over them.  A node has a specification (static Links, routing domains,
    address pools).  Two nodes negotiate a Link over VFP, a TLV protocol with a
    TCP session and UDP datagrams; nodes that have routes to each other
    may open automatic Links, for which they search working endpoint pairs
    behind NATs; and pairs that keep a Link for long agree on fixed endpoints,
    so that they can restore it without a search.

    The development is a shallow embedding: a Go function is a Coq function, a
    method that changes its receiver returns the new state, an error is a value
    of [result] (below), and a panic is its own constructor, so that theorems say
    that none occurs.  The indices and slices of the decoders and of the probe
    receiver are checked operations ([Index], [Octet], [Slice], [SliceFrom],
    [Uint16] ...) that panic out of bounds, and a nil pointer is [None].  What lies
    outside src/ is a parameter (HKDF, the kernel, the network, clocks, random
    numbers) or an environment whose every answer the theorems quantify over.  Go's own standard library is modelled where the
    code relies on it: net/netip in Netip.v and NetipText.v, SHA-256 and HMAC in
    Sha256.v, the sorts of package slices by insertion sort or by their contract.

    ** Parts and files

    The wire (internal/tlv, internal/vfp/message).
    - Tlv.v: [Cursor], [Next], [Append] and the decoding loop [scan].
    - Field.v: the field codecs, instances of the class [Codec] (a canonical
      encoding with its parser); Control.v: the control blob, another instance.
    - MessageData.v, DurableWire.v, Message.v: the message struct, and
      [Encode], [Decode], [Read], [Write] of message.go and durable.go.
    - MessageProps.v: round trips, canonicity and totality of the decoder,
      forward compatibility, framing over TCP.
    A definition that indexes has a lemma [..._eq] that gives it by position,
    proved from its length checks; the other proofs use that lemma.

    Links (internal/link, internal/vfp/engine).
    - Link.v: the addresses, prefixes and ports of a Link as functions of the
      pre-shared key and the two identities; both ends compute the same.
    - Engine.v: the state machines [sessionFSM] and [staticLinkFSM] and the event
      loop [Run] as a step function; Negotiation.v: two engines on one
      connection, every interleaving, failure and cancellation.  Each side has a
      log of what it sent, what it committed, and what its [Accept] accepted.

    Finding endpoints (internal/inference, internal/linkdiscovery).
    - Inference.v: evidence, [Store], [Infer] and the measurement plan.
    - Search.v, SearchProps.v: the centralized search over any network.
    - PeerSearch.v: the search of one node with a remote peer, and the choice of
      a path that both make.

    Configuration (internal/spec, internal/reconcile).
    - Spec.v, SpecProps.v: the specification and its routing validation, with the
      declarative notion [routing_valid] it decides.
    - GoText.v: base64, host and port, white space and runes, as Go's standard
      library reads them.  Validate.v: [Validate] and [BuildDesiredState];
      BuildProps.v: the second fails only where the first does.
    - Desired.v, DesiredProps.v: routing compilation, the routes and rules it is
      to yield ([entry_route], [entry_rule]), and what they say about traffic.
    - Ports.v: port choices, and the pool of leases that keeps WireGuard and probe
      sockets apart.

    State that outlives a process (internal/recovery, internal/runtime).
    - AtomicFile.v: a file system whose calls fail, stop, and lose unsynced
      changes; the replacement of a file, used by the next three.
    - PolicyRevision.v: the counter of policy revisions.
    - Recovery.v: the failure episode of the service and the retirement of a node
      whose daemon does not come back.
    - Durable.v: the agreements on fixed endpoints; DurableProps.v: the invariant
      of a node; Agreement.v: a network of nodes; GiveUp.v: when a check gives
      an agreement up.

    Automatic Links (internal/runtime, internal/linux).
    - DynamicPolicy.v, DynamicPolicyProps.v: what a node remembers of the
      loopbacks it has routes to, the policy exchange and the budgets.
    - Interfaces.v: the interface of an automatic Link in the kernel and its
      owner (linux/dynamic.go), in a monad of kernel calls of which any can
      fail, with a triple [kspec] for each procedure.
    - Attempts.v: the attempts from the proposal to the removal of the interface
      (dynamic_engine, dynamic_negotiation, dynamic_lifecycle, link_manager, and
      the handoff, restoring and state changes of the neighbouring files).  An
      attempt is a cell of a heap that goroutines may keep after it was replaced.
    - AttemptsProps.v: the invariant [inv]; AttemptsSafety.v: owning, preparing
      and adopting an interface; AttemptsRun.v: every operation keeps [inv].
    - LinkSafety.v: the operations as a transition relation [step], what holds
      in every reachable state, and a run; Crossing.v: simultaneous proposals.

    - LinkHealth.v, LinkHealthProps.v: the loop that supervises a Link
      ([manageLink]): every case of its select, its closures and the workers it
      starts, as transitions on a Link and what its loop holds.
    - Probe.v, ProbeProps.v: the probes of vfp/probe, sealed with a cipher that is
      a class with laws, and the receiver that opens each once.
    - Datagrams.v, Discovery.v, PolicySocket.v, DatagramsProps.v: the sockets for
      single datagrams, on the device of a Link (vfp/discovery) and on the loopback
      of the node (vfp/policy), over what the kernel delivers.
    - Udp.v, UdpProps.v: the network of an attempt's search (dynamic_probe.go, and
      the client of dynamic_observe.go): batches, probes, reports, agreement and
      observers over sockets and a control session.  What the environment does is
      a list of actions; [runProbe] runs the search of PeerSearch.v on it.
    - Observe.v, ObserveProps.v: the side of dynamic_observe.go that serves
      observers to peers: the workers as state machines whose turns interleave
      freely, the sessions that hold one, and the ports they take from Ports.v.

    The kernel of a node (internal/linux, internal/reconcile).
    - Netlink.v: the calls of netlink, wgctrl and the file system as a class
      [Kernel], each of which can fail; what their documentation says of them as
      the class [KernelLaws]; and triples [sspec] for procedures over them.
      RunKernel.v: an instance of both, on which examples are evaluated.
    - Routes.v, RoutesProps.v, RoutesCompiled.v: reconciling and verifying routes
      and policy rules, and its composition with the compiler of Desired.v.
    - Backend.v, BackendProps.v: the pass [Backend_Reconcile] and its
      verification, the interfaces, addresses and WireGuard state of Links, the
      choice of an endpoint, materialization, readiness, adoption, retirement.
    - Untouched.v: what no procedure touches.  Reconciled.v, ReconciledRun.v: what
      a pass establishes, and examples.
    - SpecifiedNode.v, SpecifiedRun.v: from the text of a specification to the
      kernel, by the parts above.
    - LinkRoutes.v, LinkRoutesProps.v: the routes of all Links over Backend.v:
      the election of the output of a peer's loopback, the maintenance pass, and
      the status report (link_routes.go, link_status.go, runtime.go).
    - WarmFile.v, WarmLinks.v: the receipts of committed Links, and what a
      process that starts makes of them (warm_links.go); WarmLinksProps.v joins
      the kernel of Backend.v, the leases of Ports.v and the engine of Attempts.v
      in one start; WarmLinksRun.v: a start on the kernel of RunKernel.v.

    - StaticPorts.v, StaticPortsProps.v: the ports of configured Links, from the
      reservation at the start to the retries of a Link that waits (ports.go,
      link_manager.go, link_discovery.go), over the pool of Ports.v and the kernel
      of Interfaces.v.

    The process of a node (cmd/velvetd).
    - Daemon.v: from the configuration to the exit status: starting a generation of
      the runtime, the loop, reloading with rollback, stopping.  A run is a
      function of the list of what happens to it, and of a number of rounds of the
      loop; the recovery record is the file of Recovery.v.  DaemonProps.v: the
      invariant of the loop; DaemonRun.v: runs.

    Managed routing (internal/babel).
    - NetipPrint.v: the texts of addresses and prefixes are read back.  Babel.v:
      the manager, its configuration text and its loop, with the daemon as an
      environment; BabelProps.v.

    A definition has the name of the function, method or type it models; parts
    of a long function (a loop body, a guard, a closure) have names of their own
    and a comment.  Field updates of a struct are [set_...] functions.

    ** Theorems

    The principal theorems carry a number C<n> in their comments.
    - The codec (C1, C3, C6, C7, C12 to C15): what [Encode] accepts, [Decode]
      returns unchanged, provided the message is [sendable] (VFP 8.2.2), and
      refuses otherwise; what [Decode] accepts is well formed; it panics on no
      input; and optional unknown fields do not matter.
    - The negotiation (C2, C4, C5): two peers that both commit a Link agree on it;
      the exchange is bounded and consults [Accept]; the engine never panics.
    - The derivations (C8 to C11, C16, C17) are symmetric and stay in their pools.
    - Inference and the searches (C18 to C28): inference covers the NAT mapping
      that its evidence determines; a reported path was confirmed in both
      directions; the searches stay within their budgets and return what they
      opened; both peers choose the same path, if no two paths of the window have
      one key.
    - Agreements (C29, [durable_given_up]): a confirmed agreement was saved by both
      nodes; a check gives one up exactly after thirty minutes in which it could
      not be used.
    - Automatic Links (C30, [nothing_left_behind], [crossing_proposals]): no
      interface is forgotten, whatever fails and in whatever order operations
      run, the limit of 128 holds, and nothing is left once the attempts have
      ended; simultaneous proposals end in one attempt on the reserved
      interface.  The relation [step] excludes one behaviour of the code, a PONG
      handled after its Link was removed: [late_pong_leaks] is the run in which
      it makes the engine forget an interface.
    - The kernel of a node (C31, C33, [reconcile_settles], [specified_node]): a pass
      that succeeds leaves the interfaces, keys, addresses, routes, rules and
      settings that were planned, and its verification then finds no fault;
      interfaces that are not Velvet's are never changed, whatever fails.
    - Configuration (C32, C37, [validateRouting_iff], [compileRouting_isolated],
      [compileRouting_guarded]): a specification that validates can be built;
      validation decides [routing_valid]; compilation yields the intended routes
      and rules and no others; domains stay apart and their tables fail closed.
    - The process (C34, [record_covers]): one generation of the runtime at a time,
      reloads that commit or leave the configuration as it was, and a recovery
      record that holds the tables of the generation that runs.
    - Supervision (C35): the adjacency of a Link is up exactly while its loop holds
      it healthy, with what was negotiated last and with addresses in the kernel.
    - The UDP search (C36, [probes_delivered_once]): an endpoint that it returns is
      allowed, was probed and reported, sent a probe itself and was agreed on;
      packets are numbered without repetition and no probe counts twice.
    - Observers (C39, [observers_report]): no session, socket or port is lost or used
      twice, and an observer reports exactly what came to its sockets.
    - Babel (C38, [Render_deterministic]): the configuration is a function of the
      plan and the Links, and the file follows them.
    - Persistence (C40, [retire_sound]): revisions are fresh; retirement happens
      only after the window.
    - Warm starts ([warm_start]): a receipt is read as the Link it was written for,
      and what a start adopts is in the kernel as the receipt says.
    - Datagrams ([link_socket], [policy_socket]): each socket admits exactly what it
      is for, and everything that its peer sends to it.
    - Ports ([static_ports]) and routes of Links ([one_loopback_output]): two Links
      never have one port; a loopback has one output, whatever the order of a pass.
    - Policy ([policy_state_invariant], [flushPolicy_fair]): what is remembered of a
      peer does not go back; messages stay within budgets, no peer is starved.

    ** Recursion and bounds

    Loops over a slice recurse on it.  The decoding loop has one more step than
    the body has bytes ([scan_cases]: it never runs out).  The loops of Search.v,
    PeerSearch.v and Engine.v that count iterations, rounds or attempts have as
    much fuel as the count has left, so that the code's own condition ends them;
    the event loop of Engine.v recurses on the events it receives.
    [replace] and the other file procedures are finite sequences of calls.
    Integers are Z: those of the wire carry their width in the well-formedness
    predicates and are taken modulo it where the code converts; instants are
    nanoseconds, and [Sub] saturates as time.Time.Sub does.

    ** Not modelled

    - Goroutines and mutexes: an operation under one mutex is one step; where
      the code releases a mutex in between, the model has separate steps.
    - JSON and its decoder: internal/linejson, the JSON forms of the
      specification (and reading and writing its file), of the recovery file, of
      durable.json and of the receipts, whose contents are the values they stand
      for; the digest of a configuration, and the boot and namespace it is kept
      with, are parameters.
    - Processes: the launch of babeld and its control socket (service.go and
      control.go of internal/babel), systemd, the flags and the lock of
      cmd/velvetd, cmd/velvetctl and internal/control; inside Daemon.v a
      generation of the runtime is its end and its answers to the daemon.
    - Sockets: the system calls that open and configure them, and the goroutine
      that reads those of internal/vfp/probe.
    - In internal/runtime: the goroutines that read the sockets of a Link, and
      the workers of the durable manager that dial.
    - The discovery between ACCEPT and handoff is the search of Udp.v; it is not
      composed with the attempts, which may be handed any endpoint. *)

From Stdlib Require Export ZArith Lia.
From Stdlib Require Export Init.Byte Strings.Byte.
From stdpp Require Export base tactics numbers list gmap strings sorting.
Open Scope Z_scope.

(** * Notations and automation *)

(** Well-formedness facts that [eauto with velvet] chains. *)
Create HintDb velvet.
(** The calls known not to panic. *)
Create HintDb returns.

Declare Scope velvet_scope.
Delimit Scope velvet_scope with velvet.
Open Scope velvet_scope.

(** Go's [len] on slices. *)
Definition len {A} (l : list A) : Z := Z.of_nat (length l).

(** The octets of Go's [b[i:j]] for [0 <= i <= j <= len(b)]; the checked
    operation is [Slice] below. *)
Definition slice {A} (b : list A) (i j : nat) : list A := take (j - i) (drop i b).
Notation "b .[ i : j ]" := (slice b i j)
  (at level 1, i at level 50, j at level 50, left associativity,
   format "b .[ i : j ]") : velvet_scope.

(** * Errors and results *)

(** Go errors, by the sentinel that [errors.Is] finds in them.  The text is the
    constant part of the message; formatted arguments are left out. *)
Inductive error :=
  | ErrFrame (text : string)
  | ErrConnection (text : string)
  | ErrMalformed
  | Errno (number : Z)                 (* what a system call returns *)
  | errors_New (text : string).

#[global] Instance error_eq_dec : EqDecision error.
Proof. solve_decision. Defined.

Definition Error (e : error) : string :=
  match e with
  | ErrFrame s | ErrConnection s | errors_New s => s
  | ErrMalformed => "malformed TLV body"
  | Errno _ => "errno"
  end.

(** A Go call that returns [(value, error)], or panics. *)
Inductive result (A : Type) :=
  | Ok (a : A)
  | Err (e : error)
  | Panic.
Arguments Ok {A} _.
Arguments Err {A} _.
Arguments Panic {A}.

#[global] Instance result_eq_dec `{EqDecision A} : EqDecision (result A).
Proof. solve_decision. Defined.

#[global] Instance result_ret : MRet result := @Ok.
#[global] Instance result_bind : MBind result := λ A B k r,
  match r with Ok a => k a | Err e => Err e | Panic => Panic end.

Definition is_ok {A} (r : result A) : bool :=
  match r with Ok _ => true | _ => false end.

(** [if err != nil { return ..., f(err) }]: rewrap the error of a call. *)
Definition map_err {A} (f : error → error) (r : result A) : result A :=
  match r with Err e => Err (f e) | _ => r end.

(** [if !cond { return ..., err }]. *)
Definition guard_ok (b : bool) (e : error) : result unit :=
  if b then Ok tt else Err e.

(** Go's slices and indexing check their bounds when they run: [b[i:j]],
    [b[i:]] and [b[i]] panic outside [len(b)].  (Go lets [b[i:j]] reach the
    capacity; no code here relies on octets beyond the length.) *)
Definition Slice {A} (b : list A) (i j : nat) : result (list A) :=
  if bool_decide (i <= j <= length b)%nat then Ok b.[i:j] else Panic.
Definition SliceFrom {A} (b : list A) (i : nat) : result (list A) :=
  if bool_decide (i <= length b)%nat then Ok (drop i b) else Panic.
Definition Index {A} (b : list A) (i : nat) : result A :=
  match b !! i with Some x => Ok x | None => Panic end.

(** [x || y], where evaluating [x] or [y] may panic. *)
Definition or_else (x y : result bool) : result bool :=
  match x with Ok false => y | x => x end.
Notation "x ||! y" := (or_else x y) (at level 50, left associativity) : velvet_scope.

Lemma bind_ok {A B} (r : result A) (k : A → result B) b :
  r ≫= k = Ok b ↔ ∃ a, r = Ok a ∧ k a = Ok b.
Proof. destruct r; naive_solver. Qed.

Lemma bind_Ok {A B} (a : A) (k : A → result B) : Ok a ≫= k = k a.
Proof. done. Qed.

Lemma map_err_ok {A} f (r : result A) a : map_err f r = Ok a ↔ r = Ok a.
Proof. by destruct r. Qed.

Lemma guard_ok_ok b e u : guard_ok b e = Ok u ↔ b = true.
Proof. destruct b, u; naive_solver. Qed.

(** A call that returns, with a value or an error. *)
Definition returns {A} (r : result A) : Prop := r ≠ Panic.

Lemma returns_bind {A B} (r : result A) (k : A → result B) :
  returns r → (∀ a, r = Ok a → returns (k a)) → returns (r ≫= k).
Proof. unfold returns. destruct r; naive_solver. Qed.
Lemma returns_map_err {A} f (r : result A) : returns r → returns (map_err f r).
Proof. unfold returns. by destruct r. Qed.
Lemma returns_Ok {A} (a : A) : returns (Ok a).
Proof. done. Qed.
Lemma returns_Err {A} e : returns (@Err A e).
Proof. done. Qed.

Lemma Slice_ok {A} (b : list A) i j :
  (i <= j <= length b)%nat → Slice b i j = Ok b.[i:j].
Proof. intros. unfold Slice. by rewrite bool_decide_eq_true_2. Qed.
Lemma SliceFrom_ok {A} (b : list A) i : (i <= length b)%nat → SliceFrom b i = Ok (drop i b).
Proof. intros. unfold SliceFrom. by rewrite bool_decide_eq_true_2. Qed.
Lemma Index_ok {A} (b : list A) i x : b !! i = Some x → Index b i = Ok x.
Proof. unfold Index. by intros ->. Qed.
Lemma or_else_Ok b y : Ok b ||! y = if b then Ok true else y.
Proof. by destruct b. Qed.

(** Prove [returns] by following the code's binds and branches. *)
Ltac returns_tac :=
  repeat first
    [ apply returns_Ok | apply returns_Err | assumption | solve [eauto 2 with returns]
    | apply returns_bind; [|intros ? ?] | apply returns_map_err
    | match goal with |- returns (if ?b then _ else _) => destruct b eqn:? end
    | match goal with |- returns (match ?x with _ => _ end) => destruct x eqn:? end ].

(** Take apart a chain of binds, guards and case splits known to be [Ok]. *)
Ltac inv_ok :=
  repeat match goal with
  | H : (_ ≫= _) = Ok _ |- _ => apply bind_ok in H as (? & ? & H)
  | H : map_err _ _ = Ok _ |- _ => apply map_err_ok in H
  | H : guard_ok _ _ = Ok _ |- _ => apply guard_ok_ok in H
  | H : Ok _ = Ok _ |- _ => apply (inj Ok) in H
  | H : Err _ = Ok _ |- _ => discriminate H
  | H : Panic = Ok _ |- _ => discriminate H
  | H : (if ?b then _ else _) = Ok _ |- _ => destruct b eqn:?; [|discriminate H]
  | H : (if ?b then _ else _) = Ok _ |- _ => destruct b eqn:?; [discriminate H|]
  end.

#[global] Instance Ok_inj {A} : Inj (=) (=) (@Ok A).
Proof. by intros ?? [= ->]. Qed.

(** Turn boolean tests of the code into propositions. *)
Ltac bool_to_prop :=
  repeat match goal with
  | H : _ && _ = true |- _ => apply andb_prop in H as [? ?]
  | H : _ || _ = false |- _ => apply orb_false_elim in H as [? ?]
  | H : negb _ = true |- _ => apply negb_true_iff in H
  | H : negb _ = false |- _ => apply negb_false_iff in H
  | H : (_ =? _) = true |- _ => apply Z.eqb_eq in H
  | H : (_ =? _) = false |- _ => apply Z.eqb_neq in H
  | H : (_ <? _) = true |- _ => apply Z.ltb_lt in H
  | H : (_ <? _) = false |- _ => apply Z.ltb_ge in H
  | H : (_ <=? _) = true |- _ => apply Z.leb_le in H
  | H : (_ <=? _) = false |- _ => apply Z.leb_gt in H
  | H : bool_decide _ = true |- _ => apply bool_decide_eq_true in H
  | H : bool_decide _ = false |- _ => apply bool_decide_eq_false in H
  end.

(** * Bytes and big-endian integers *)

#[global] Instance byte_eq_dec : EqDecision byte := Byte.byte_eq_dec.
#[global] Instance byte_inhabited : Inhabited byte := populate x00.

Definition b2z (b : byte) : Z := Z.of_N (Byte.to_N b).
Definition z2b (z : Z) : byte :=
  default x00 (Byte.of_N (Z.to_N (z mod 256))).

Lemma b2z_range b : 0 <= b2z b < 256.
Proof. unfold b2z. pose proof (Byte.to_N_bounded b). lia. Qed.

Lemma b2z_z2b z : b2z (z2b z) = z mod 256.
Proof.
  unfold b2z, z2b. pose proof (Z.mod_pos_bound z 256 ltac:(lia)).
  destruct (Byte.of_N (Z.to_N (z mod 256))) as [b|] eqn:E; simpl.
  - apply Byte.to_of_N in E. rewrite E. lia.
  - apply Byte.of_N_None_iff in E. lia.
Qed.

Lemma z2b_b2z b : z2b (b2z b) = b.
Proof.
  unfold b2z, z2b. pose proof (Byte.to_N_bounded b).
  rewrite Z.mod_small by lia. rewrite N2Z.id, Byte.of_to_N. done.
Qed.

#[global] Instance b2z_inj : Inj (=) (=) b2z.
Proof. intros a b E. by rewrite <-(z2b_b2z a), E, z2b_b2z. Qed.

#[global] Instance byte_countable : Countable byte.
Proof. apply (inj_countable' Byte.to_N (λ n, default x00 (Byte.of_N n))).
  intros b. by rewrite Byte.of_to_N. Defined.

(** [binary.BigEndian.UintN] and [PutUintN] ([n] octets, truncating). *)
Fixpoint be_get (bs : list byte) : Z :=
  match bs with
  | [] => 0
  | b :: bs => b2z b * 256 ^ len bs + be_get bs
  end.

Fixpoint be_put (n : nat) (z : Z) : list byte :=
  match n with
  | O => []
  | S n => z2b (z / 256 ^ Z.of_nat n) :: be_put n z
  end.

Lemma pow256_pos n : 0 <= n → 0 < 256 ^ n.
Proof. intros. by apply Z.pow_pos_nonneg. Qed.

Lemma len_nonneg {A} (l : list A) : 0 <= len l.
Proof. unfold len. lia. Qed.

Lemma length_be_put n z : length (be_put n z) = n.
Proof. induction n; simpl; auto. Qed.

Lemma len_be_put n z : len (be_put n z) = Z.of_nat n.
Proof. unfold len. by rewrite length_be_put. Qed.

Lemma be_get_range bs : 0 <= be_get bs < 256 ^ len bs.
Proof.
  induction bs as [|b bs IH]; [simpl; unfold len; simpl; lia|].
  replace (len (b :: bs)) with (len bs + 1) by (unfold len; simpl; lia).
  simpl. rewrite Z.pow_add_r, Z.pow_1_r by (try apply len_nonneg; lia).
  pose proof (b2z_range b). pose proof (pow256_pos _ (len_nonneg bs)). nia.
Qed.

Lemma be_get_put n z : be_get (be_put n z) = z mod 256 ^ Z.of_nat n.
Proof.
  induction n as [|n IH]; simpl; [by rewrite Z.mod_1_r|].
  rewrite len_be_put, b2z_z2b, IH.
  rewrite Nat2Z.inj_succ, <-Z.add_1_r, Z.pow_add_r, Z.pow_1_r by lia.
  rewrite Z.rem_mul_r; [ring|..]; pose proof (pow256_pos (Z.of_nat n)); lia.
Qed.

Lemma be_get_put_small n z :
  0 <= z < 256 ^ Z.of_nat n → be_get (be_put n z) = z.
Proof. intros. by rewrite be_get_put, Z.mod_small. Qed.

Lemma mod_mul_div z a b : 0 < a → 0 < b → (z mod (a * b)) / a = (z / a) mod b.
Proof.
  intros. rewrite Z.rem_mul_r by lia.
  rewrite (Z.mul_comm a), Z.div_add by lia.
  rewrite (Z.div_small (z mod a)) by (apply Z.mod_pos_bound; lia). lia.
Qed.

Lemma be_put_mod n m z :
  (m <= n)%nat → be_put m (z mod 256 ^ Z.of_nat n) = be_put m z.
Proof.
  induction m as [|m IH]; intros Hle; simpl; [done|].
  rewrite IH by lia. f_equal. apply b2z_inj. rewrite !b2z_z2b.
  set (k := Z.of_nat n - Z.of_nat m - 1).
  replace (Z.of_nat n) with (Z.of_nat m + (1 + k)) by lia.
  rewrite Z.pow_add_r by lia.
  rewrite mod_mul_div by (apply pow256_pos; lia).
  rewrite Z.pow_add_r, Z.pow_1_r by lia.
  rewrite Z.rem_mul_r by (try apply pow256_pos; lia).
  generalize (z `div` 256 ^ Z.of_nat m) => y. generalize ((y `div` 256) `mod` 256 ^ k).
  intros. Z.div_mod_to_equations. lia.
Qed.

Lemma be_put_get bs : be_put (length bs) (be_get bs) = bs.
Proof.
  induction bs as [|b bs IH]; simpl; [done|].
  pose proof (be_get_range bs). pose proof (pow256_pos _ (len_nonneg bs)).
  fold (len bs). rewrite Z.div_add_l by lia.
  rewrite (Z.div_small (be_get bs)) by lia. rewrite Z.add_0_r, z2b_b2z.
  f_equal. trans (be_put (length bs) (be_get bs)); [|done].
  rewrite <-(be_put_mod (length bs) _ (_ + _)) by lia. fold (len bs).
  rewrite Z.add_comm, Z.mod_add, Z.mod_small; lia || done.
Qed.

Lemma be_put_get_n n bs : length bs = n → be_put n (be_get bs) = bs.
Proof. intros <-. apply be_put_get. Qed.

Lemma be_get_inj bs cs : length bs = length cs → be_get bs = be_get cs → bs = cs.
Proof. intros L E. by rewrite <-(be_put_get bs), L, E, be_put_get. Qed.

Lemma be_get_app bs cs : be_get (bs ++ cs) = be_get bs * 256 ^ len cs + be_get cs.
Proof.
  induction bs as [|b bs IH]; simpl; [done|]. rewrite IH.
  unfold len. rewrite length_app, Nat2Z.inj_add, Z.pow_add_r by lia. ring.
Qed.

(** [binary.BigEndian.UintN(b)] reads the first octets of [b], and panics when
    there are too few. *)
Definition UintBE (n : nat) (b : list byte) : result Z := p ← Slice b 0 n; Ok (be_get p).
Definition Uint16 := UintBE 2.
Definition Uint32 := UintBE 4.
Definition Uint64 := UintBE 8.

(** [int(b[i])]. *)
Definition Octet (b : list byte) (i : nat) : result Z := x ← Index b i; Ok (b2z x).

Definition zeros (n : nat) : list byte := replicate n x00.

Lemma be_get_one b : be_get [b] = b2z b.
Proof. unfold be_get, len. simpl. lia. Qed.

(** [var a [n]byte; copy(a[:], v)]. *)
Definition Copy (n : nat) (v : list byte) : list byte := take n v ++ zeros (n - length v).

Lemma Copy_id n v : length v = n → Copy n v = v.
Proof. intros <-. unfold Copy. by rewrite Nat.sub_diag, take_ge, app_nil_r. Qed.
Lemma length_Copy n v : length (Copy n v) = n.
Proof. unfold Copy, zeros. rewrite length_app, length_take, length_replicate. lia. Qed.

#[global] Opaque be_put be_get.

(** * Slices *)

Lemma slice_app_l {A} (a b : list A) n : n = length a → (a ++ b).[0:n] = a.
Proof. intros ->. unfold slice. by rewrite drop_0, Nat.sub_0_r, take_app_length. Qed.

Lemma slice_app_r {A} (a b : list A) i j n :
  n = length a → (n <= i)%nat → (a ++ b).[i:j] = b.[i - n:j - n].
Proof.
  intros -> ?. unfold slice. rewrite drop_app_ge by lia. f_equal. lia.
Qed.

Lemma slice_full {A} (a : list A) n : n = length a → a.[0:n] = a.
Proof. intros ->. unfold slice. by rewrite drop_0, Nat.sub_0_r, take_ge by lia. Qed.

Lemma length_slice {A} (b : list A) i j :
  (i <= j <= length b)%nat → length b.[i:j] = (j - i)%nat.
Proof. intros. unfold slice. rewrite length_take, length_drop. lia. Qed.

Lemma slice_single (b : list byte) i x : b !! i = Some x → b.[i:S i] = [x].
Proof.
  intros L. unfold slice. rewrite (drop_S _ _ _ L).
  by replace (S i - i)%nat with 1%nat by lia.
Qed.

(** Within their bounds the checked reads give the octets. *)
Lemma Octet_ok b i : (i < length b)%nat → Octet b i = Ok (be_get b.[i:S i]).
Proof.
  intros [x L]%lookup_lt_is_Some. unfold Octet.
  by rewrite (Index_ok _ _ _ L), bind_Ok, (slice_single _ _ _ L), be_get_one.
Qed.
Lemma UintBE_slice n b i j :
  (j = i + n)%nat → (j <= length b)%nat →
  Slice b i j ≫= UintBE n = Ok (be_get b.[i:j]).
Proof.
  intros -> ?. rewrite Slice_ok, bind_Ok by lia. unfold UintBE.
  rewrite Slice_ok, bind_Ok by (rewrite length_slice; lia).
  by rewrite slice_full by (rewrite length_slice; lia).
Qed.
Lemma UintBE_all n b : length b = n → UintBE n b = Ok (be_get b).
Proof. intros <-. unfold UintBE. by rewrite Slice_ok, bind_Ok, slice_full by lia. Qed.

Lemma slice_split {A} (b : list A) i j k :
  (i <= j <= k)%nat → b.[i:j] ++ b.[j:k] = b.[i:k].
Proof.
  intros. unfold slice. replace (drop j b) with (drop (j - i) (drop i b))
    by (rewrite drop_drop; f_equal; lia).
  rewrite take_take_drop. f_equal. lia.
Qed.

Lemma slice_take {A} (b : list A) i j n :
  (i <= j <= n)%nat → (take n b).[i:j] = b.[i:j].
Proof.
  intros. unfold slice. rewrite !take_drop_commute, take_take. do 2 f_equal. lia.
Qed.

(** * Lexicographic comparison of octets ([bytes.Compare]) *)

Fixpoint bytes_Compare (a b : list byte) : comparison :=
  match a, b with
  | [], [] => Eq
  | [], _ => Lt
  | _, [] => Gt
  | x :: a, y :: b =>
    match b2z x ?= b2z y with Eq => bytes_Compare a b | c => c end
  end.

Lemma bytes_Compare_eq a b : bytes_Compare a b = Eq ↔ a = b.
Proof.
  revert b; induction a as [|x a IH]; intros [|y b]; simpl; try done.
  destruct (b2z x ?= b2z y) eqn:E.
  - apply Z.compare_eq, (inj b2z) in E as ->. rewrite IH. naive_solver.
  - split; [done|]. intros [= -> ->]. by rewrite Z.compare_refl in E.
  - split; [done|]. intros [= -> ->]. by rewrite Z.compare_refl in E.
Qed.

Lemma bytes_Compare_antisym a b : bytes_Compare b a = CompOpp (bytes_Compare a b).
Proof.
  revert b; induction a as [|x a IH]; intros [|y b]; simpl; try done.
  rewrite (Z.compare_antisym (b2z x) (b2z y)), IH. by destruct (b2z x ?= b2z y).
Qed.

Lemma bytes_Compare_refl a : bytes_Compare a a = Eq.
Proof. by apply bytes_Compare_eq. Qed.

(** * Bits of a big-endian integer *)

Lemma testbit_add_mul a b n i :
  0 <= n → 0 <= b < 2 ^ n → 0 <= i →
  Z.testbit (a * 2 ^ n + b) i = if i <? n then Z.testbit b i else Z.testbit a (i - n).
Proof.
  intros Hn Hb Hi. destruct (Z.ltb_spec i n).
  - apply Z.b2z_inj. rewrite !Z.testbit_spec' by done.
    replace n with (i + 1 + (n - i - 1)) at 1 by lia.
    rewrite !Z.pow_add_r, Z.pow_1_r by lia.
    replace (a * (2 ^ i * 2 * 2 ^ (n - i - 1)) + b)
      with (b + a * 2 ^ (n - i - 1) * 2 * 2 ^ i) by ring.
    rewrite Z.div_add by (apply Z.pow_nonzero; lia).
    by rewrite Z.mod_add by lia.
  - apply Z.b2z_inj. rewrite !Z.testbit_spec' by lia.
    replace i with (n + (i - n)) at 1 by lia. rewrite Z.pow_add_r by lia.
    rewrite <-Z.div_div by (try apply Z.pow_nonzero; try apply Z.pow_pos_nonneg; lia).
    rewrite Z.div_add_l by (apply Z.pow_nonzero; lia).
    by rewrite (Z.div_small b), Z.add_0_r by lia.
Qed.

Lemma be_get_cons b bs : be_get (b :: bs) = b2z b * 2 ^ (8 * len bs) + be_get bs.
Proof.
  change (b :: bs) with ([b] ++ bs). rewrite be_get_app, be_get_one.
  by rewrite Z.pow_mul_r by (pose proof (len_nonneg bs); lia).
Qed.

(** Bit [i] (from the least significant) of octet [n] (from the last). *)
Lemma testbit_be_get bs i :
  0 <= i →
  Z.testbit (be_get bs) i =
  match bs !! (length bs - 1 - Z.to_nat (i / 8))%nat with
  | Some b => (i <? 8 * len bs) && Z.testbit (b2z b) (i mod 8)
  | None => false
  end.
Proof.
  intros Hi. induction bs as [|b bs IH].
  { by rewrite Z.testbit_0_l. }
  rewrite be_get_cons.
  assert (R : 0 <= be_get bs < 2 ^ (8 * len bs)).
  { rewrite Z.pow_mul_r by (pose proof (len_nonneg bs); lia). apply be_get_range. }
  pose proof (len_nonneg bs). pose proof (b2z_range b).
  rewrite testbit_add_mul by lia. unfold len in *. cbn [length].
  destruct (Z.ltb_spec i (8 * Z.of_nat (length bs))) as [L|G].
  - rewrite IH. assert (0 <= i / 8 < Z.of_nat (length bs)) by (Z.div_mod_to_equations; lia).
    replace (S (length bs) - 1 - Z.to_nat (i / 8))%nat
      with (S (length bs - 1 - Z.to_nat (i / 8))) by lia.
    cbn [lookup list_lookup]. rewrite (proj2 (Z.ltb_lt i _)) by lia. done.
  - assert (Z.of_nat (length bs) <= i / 8) by (Z.div_mod_to_equations; lia).
    replace (S (length bs) - 1 - Z.to_nat (i / 8))%nat with 0%nat by lia.
    cbn [lookup list_lookup].
    destruct (Z.ltb_spec i (8 * Z.of_nat (S (length bs)))) as [L'|G']; cbn [andb].
    + f_equal. Z.div_mod_to_equations. lia.
    + apply Z.bits_above_log2; [lia|]. destruct (decide (b2z b = 0)) as [->|N]; [simpl; lia|].
      apply Z.lt_le_trans with 8; [|lia]. apply Z.log2_lt_pow2; lia.
Qed.

(** Numbers that agree above bit [n] have the same quotient by [2^n]. *)
Lemma div_pow2_ext x y n :
  0 <= n → (∀ i, n <= i → Z.testbit x i = Z.testbit y i) → x / 2 ^ n = y / 2 ^ n.
Proof.
  intros Hn H. rewrite <-!Z.shiftr_div_pow2 by done. apply Z.bits_inj'. intros i Hi.
  rewrite !Z.shiftr_spec by done. apply H. lia.
Qed.

(** Splits the conditions of the code into their conjuncts. *)
Ltac split_bools :=
  repeat match goal with
  | H : _ && _ = true |- _ => apply andb_prop in H as [? ?]
  | |- _ && _ = true => apply andb_true_intro; split
  end.

(** * Loops over slices *)

(** An invariant of a loop body holds after the loop. *)
Lemma foldl_inv {A B} (P : B → Prop) (f : B → A → B) l b :
  P b → (∀ b x, x ∈ l → P b → P (f b x)) → P (foldl f b l).
Proof.
  revert b. induction l as [|x l IH]; intros b Hb Hf; cbn; [done|].
  apply IH; [by apply Hf; [left|]|]. intros ????. by apply Hf; [right|].
Qed.

(** A loop that only appends keeps what it had. *)
Lemma foldl_prefix {A B} (f : list B → A → list B) l b :
  (∀ b x, x ∈ l → b `prefix_of` f b x) → b `prefix_of` foldl f b l.
Proof.
  intros Hf. apply (foldl_inv (λ b', b `prefix_of` b')); [done|].
  intros b' x Hx Hp. etrans; [exact Hp|]. by apply Hf.
Qed.

Lemma foldl_app_split {A B} (f : B → A → B) l b x :
  x ∈ l → ∃ l1 l2, l = l1 ++ x :: l2 ∧ foldl f b l = foldl f (f (foldl f b l1) x) l2.
Proof.
  intros (l1 & l2 & ->)%list_elem_of_split. exists l1, l2. by rewrite foldl_app.
Qed.

(** Go's [slices.SortStableFunc]: insertion keeps equal elements in order. *)
Fixpoint sort_insert {A} (cmp : A → A → Z) (x : A) (l : list A) : list A :=
  match l with
  | [] => [x]
  | y :: l' => if cmp x y <=? 0 then x :: l else y :: sort_insert cmp x l'
  end.
Definition SortStableFunc {A} (cmp : A → A → Z) (l : list A) : list A :=
  foldr (sort_insert cmp) [] l.

Lemma sort_insert_perm {A} (cmp : A → A → Z) x l : sort_insert cmp x l ≡ₚ x :: l.
Proof.
  induction l as [|y l IH]; cbn; [done|]. destruct (cmp x y <=? 0); [done|].
  rewrite IH. apply Permutation_swap.
Qed.
Lemma SortStableFunc_perm {A} (cmp : A → A → Z) l : SortStableFunc cmp l ≡ₚ l.
Proof. induction l as [|x l IH]; cbn; [done|]. by rewrite sort_insert_perm, IH. Qed.

Lemma Forall_filter_none {A} (P : A → Prop) `{∀ x, Decision (P x)} l :
  Forall (λ x, ¬ P x) l → filter P l = [].
Proof. induction 1; [done|]. by rewrite filter_cons, decide_False. Qed.
