(* ===== verification/Netip.v ===== *)
(** The part of Go's [net/netip] that Velvet uses: addresses, prefixes and
    address-port pairs as values with their predicates, ordering, masking and
    text form (standard library of Go 1.26; nothing here maps to a file of the
    repository).  An address is its 32- or 128-bit value; an IPv6 address also
    carries its zone.  The well-formedness predicates say that values are in
    range; every operation preserves them. *)

From S2P Require Import Prelude.
From stdpp Require Import pretty.
Open Scope Z_scope.
Open Scope velvet_scope.

(** * Addresses *)

Inductive Addr :=
  | AddrInvalid                        (* the zero [netip.Addr] *)
  | Addr4 (v : Z)
  | Addr6 (v : Z) (zone : string).

#[global] Instance Addr_eq_dec : EqDecision Addr.
Proof. solve_decision. Defined.

#[global] Instance Addr_countable : Countable Addr.
Proof.
  refine (inj_countable'
    (λ a, match a with
          | AddrInvalid => inl ()
          | Addr4 v => inr (inl v)
          | Addr6 v z => inr (inr (v, z)) end)
    (λ x, match x with
          | inl _ => AddrInvalid
          | inr (inl v) => Addr4 v
          | inr (inr (v, z)) => Addr6 v z end) _).
  by intros [].
Defined.

Definition wf_addr (a : Addr) : Prop :=
  match a with
  | AddrInvalid => True
  | Addr4 v => 0 <= v < 2 ^ 32
  | Addr6 v _ => 0 <= v < 2 ^ 128
  end.

Definition Addr_IsValid (a : Addr) : bool :=
  match a with AddrInvalid => false | _ => true end.
Definition Is4 (a : Addr) : bool := match a with Addr4 _ => true | _ => false end.
Definition Is6 (a : Addr) : bool := match a with Addr6 _ _ => true | _ => false end.
Definition Zone (a : Addr) : string := match a with Addr6 _ z => z | _ => "" end.
Definition Addr_value (a : Addr) : Z :=
  match a with AddrInvalid => 0 | Addr4 v => v | Addr6 v _ => v end.

(** [::ffff:0:0/96]. *)
Definition Is4In6 (a : Addr) : bool :=
  match a with Addr6 v _ => Z.shiftr v 32 =? 0xffff | _ => false end.
Definition Unmap (a : Addr) : Addr :=
  match a with
  | Addr6 v _ => if Is4In6 a then Addr4 (v mod 2 ^ 32) else a
  | _ => a
  end.
Definition WithoutZone (a : Addr) : Addr :=
  match a with Addr6 v _ => Addr6 v "" | _ => a end.
Definition BitLen (a : Addr) : Z :=
  match a with AddrInvalid => 0 | Addr4 _ => 32 | Addr6 _ _ => 128 end.

Definition IsUnspecified (a : Addr) : bool :=
  match a with
  | AddrInvalid => false
  | Addr4 v => v =? 0
  | Addr6 v z => (v =? 0) && bool_decide (z = "")
  end.

(** Since Go 1.22.4 these two look through an IPv4-mapped address. *)
Definition IsMulticast (a : Addr) : bool :=
  match Unmap a with
  | AddrInvalid => false
  | Addr4 v => Z.shiftr v 28 =? 0xe
  | Addr6 v _ => Z.shiftr v 120 =? 0xff
  end.
Definition IsLinkLocalUnicast (a : Addr) : bool :=
  match Unmap a with
  | AddrInvalid => false
  | Addr4 v => Z.shiftr v 16 =? 0xa9fe
  | Addr6 v _ => Z.shiftr v 118 =? Z.shiftr 0xfe80 6
  end.

(** [a.String() == "255.255.255.255"]: only the plain IPv4 address prints so. *)
Definition IsBroadcast4 (a : Addr) : bool :=
  match a with Addr4 v => v =? 0xffffffff | _ => false end.

Definition AddrFrom4 (raw : list byte) : Addr := Addr4 (be_get raw).
Definition AddrFrom16 (raw : list byte) : Addr := Addr6 (be_get raw) "".

(** [As4] panics on an address that is neither IPv4 nor IPv4-mapped. *)
Definition As4 (a : Addr) : result (list byte) :=
  match Unmap a with Addr4 v => Ok (be_put 4 v) | _ => Panic end.
(** [As16] maps an IPv4 address into [::ffff:0:0/96]; it panics on the zero Addr. *)
Definition As16 (a : Addr) : result (list byte) :=
  match a with
  | AddrInvalid => Panic
  | Addr4 v => Ok (be_put 16 (0xffff * 2 ^ 32 + v))
  | Addr6 v _ => Ok (be_put 16 v)
  end.
Definition AsSlice (a : Addr) : list byte :=
  match a with
  | AddrInvalid => []
  | Addr4 v => be_put 4 v
  | Addr6 v _ => be_put 16 v
  end.
(** [AddrFromSlice] accepts exactly four or sixteen octets. *)
Definition AddrFromSlice (raw : list byte) : option Addr :=
  if decide (length raw = 4%nat) then Some (AddrFrom4 raw)
  else if decide (length raw = 16%nat) then Some (AddrFrom16 raw)
  else None.

(** Lexicographic order of zones, as Go compares strings (bytewise). *)
Fixpoint string_compare (s t : string) : comparison :=
  match s, t with
  | EmptyString, EmptyString => Eq
  | EmptyString, String _ _ => Lt
  | String _ _, EmptyString => Gt
  | String a s, String b t =>
    match Ascii.compare a b with Eq => string_compare s t | c => c end
  end.
Definition string_ltb (s t : string) : bool :=
  match string_compare s t with Lt => true | _ => false end.

Lemma string_compare_refl s : string_compare s s = Eq.
Proof.
  induction s as [|a s IH]; cbn; [done|]. unfold Ascii.compare. by rewrite N.compare_refl.
Qed.
Lemma string_compare_eq s t : string_compare s t = Eq → s = t.
Proof.
  revert t. induction s as [|a s IH]; intros [|b t]; cbn; try done.
  destruct (Ascii.compare a b) eqn:C; try done. intros ->%IH.
  unfold Ascii.compare in C. apply N.compare_eq in C.
  f_equal. rewrite <-(Ascii.ascii_N_embedding a), <-(Ascii.ascii_N_embedding b). by rewrite C.
Qed.
Lemma string_compare_antisym s t : string_compare t s = CompOpp (string_compare s t).
Proof.
  revert t. induction s as [|a s IH]; intros [|b t]; cbn; try done.
  unfold Ascii.compare. rewrite N.compare_antisym. destruct (N.compare _ _); cbn; [apply IH|done..].
Qed.
Lemma string_ltb_antisym s t : string_ltb s t = true → string_ltb t s = false.
Proof. unfold string_ltb. rewrite (string_compare_antisym s t). by destruct (string_compare s t). Qed.
Lemma string_ltb_total s t : string_ltb s t = false → string_ltb t s = false → s = t.
Proof.
  unfold string_ltb. rewrite (string_compare_antisym s t).
  destruct (string_compare s t) eqn:C; try done. intros _ _. by apply string_compare_eq.
Qed.
Lemma string_ltb_trans s t u : string_ltb s t = true → string_ltb t u = true → string_ltb s u = true.
Proof.
  unfold string_ltb. revert t u. induction s as [|a s IH]; intros [|b t] [|c u]; cbn; try done.
  unfold Ascii.compare. destruct (N.compare_spec (Ascii.N_of_ascii a) (Ascii.N_of_ascii b)) as [E1|L1|L1]; try done;
    destruct (N.compare_spec (Ascii.N_of_ascii b) (Ascii.N_of_ascii c)) as [E2|L2|L2]; try done; intros H1 H2.
  - rewrite E1, E2, N.compare_refl. by apply (IH t u).
  - rewrite E1. by rewrite (proj2 (N.compare_lt_iff _ _)).
  - rewrite <-E2. by rewrite (proj2 (N.compare_lt_iff _ _)).
  - rewrite (proj2 (N.compare_lt_iff _ _)); [done|]. by etrans.
Qed.

Definition Compare (a b : Addr) : comparison :=
  match BitLen a ?= BitLen b with
  | Eq => match Addr_value a ?= Addr_value b with
          | Eq => string_compare (Zone a) (Zone b)
          | c => c end
  | c => c
  end.

(** [Next] is the zero Addr after the last address of the family. *)
Definition Next (a : Addr) : Addr :=
  match a with
  | AddrInvalid => AddrInvalid
  | Addr4 v => if v + 1 =? 2 ^ 32 then AddrInvalid else Addr4 (v + 1)
  | Addr6 v z => if v + 1 =? 2 ^ 128 then AddrInvalid else Addr6 (v + 1) z
  end.

(** * Prefixes.  [Bits] is [-1] for an invalid prefix, as [Prefix.Bits] says. *)

Record Prefix := mkPrefix { Prefix_Addr : Addr; Bits : Z }.

#[global] Instance Prefix_eq_dec : EqDecision Prefix.
Proof. solve_decision. Defined.
#[global] Instance Prefix_countable : Countable Prefix.
Proof.
  refine (inj_countable' (λ p, (Prefix_Addr p, Bits p)) (λ x, mkPrefix x.1 x.2) _).
  by intros [].
Defined.

Definition Prefix_zero : Prefix := mkPrefix AddrInvalid (-1).

Definition Prefix_IsValid (p : Prefix) : bool := 0 <=? Bits p.

Definition PrefixFrom (ip : Addr) (bits : Z) : Prefix :=
  mkPrefix (WithoutZone ip)
    (if Addr_IsValid ip && (0 <=? bits) && (bits <=? BitLen ip) then bits else -1).

(** [Addr.Prefix]: clear the bits below the prefix length. *)
Definition mask_value (v width bits : Z) : Z :=
  v / 2 ^ (width - bits) * 2 ^ (width - bits).
Definition Masked (p : Prefix) : Prefix :=
  let b := Bits p in
  if b <? 0 then Prefix_zero else
  match Prefix_Addr p with
  | AddrInvalid => Prefix_zero
  | Addr4 v => if 32 <? b then Prefix_zero
               else PrefixFrom (Addr4 (mask_value v 32 b)) b
  | Addr6 v _ => if 128 <? b then Prefix_zero
                 else PrefixFrom (Addr6 (mask_value v 128 b) "") b
  end.

Definition Contains (p : Prefix) (ip : Addr) : bool :=
  if negb (Prefix_IsValid p) || negb (bool_decide (Zone ip = "")) then false else
  match Prefix_Addr p, ip with
  | Addr4 pv, Addr4 v => v / 2 ^ (32 - Bits p) =? pv / 2 ^ (32 - Bits p)
  | Addr6 pv _, Addr6 v _ => v / 2 ^ (128 - Bits p) =? pv / 2 ^ (128 - Bits p)
  | _, _ => false
  end.

(** A prefix as [PrefixFrom] builds it: no zone, and a length its family has. *)
Definition wf_prefix (p : Prefix) : Prop :=
  wf_addr (Prefix_Addr p) ∧ Zone (Prefix_Addr p) = "" ∧
  (Bits p = -1 ∨
   Addr_IsValid (Prefix_Addr p) = true ∧ 0 <= Bits p <= BitLen (Prefix_Addr p)).

(** * Address and port *)

Record AddrPort := AddrPortFrom { AddrPort_Addr : Addr; Port : Z }.

#[global] Instance AddrPort_eq_dec : EqDecision AddrPort.
Proof. solve_decision. Defined.
#[global] Instance AddrPort_countable : Countable AddrPort.
Proof.
  refine (inj_countable' (λ p, (AddrPort_Addr p, Port p)) (λ x, AddrPortFrom x.1 x.2) _).
  by intros [].
Defined.

Definition AddrPort_zero : AddrPort := AddrPortFrom AddrInvalid 0.
Definition AddrPort_IsValid (p : AddrPort) : bool := Addr_IsValid (AddrPort_Addr p).
Definition wf_addrport (p : AddrPort) : Prop :=
  wf_addr (AddrPort_Addr p) ∧ 0 <= Port p < 2 ^ 16.

(** * Text *)

Definition dec (z : Z) : string := pretty (Z.to_N z).

Definition hex_digit (z : Z) : string :=
  match z with
  | 0 => "0" | 1 => "1" | 2 => "2" | 3 => "3" | 4 => "4" | 5 => "5"
  | 6 => "6" | 7 => "7" | 8 => "8" | 9 => "9" | 10 => "a" | 11 => "b"
  | 12 => "c" | 13 => "d" | 14 => "e" | _ => "f"
  end.
(** [appendHex]: a 16-bit group without leading zeros. *)
Definition hex16 (x : Z) : string :=
  (if 0x1000 <=? x then hex_digit (x / 4096) else "") +:+
  (if 0x100 <=? x then hex_digit (x / 256 mod 16) else "") +:+
  (if 0x10 <=? x then hex_digit (x / 16 mod 16) else "") +:+
  hex_digit (x mod 16).

Definition string4 (v : Z) : string :=
  dec (v / 2 ^ 24) +:+ "." +:+ dec (v / 2 ^ 16 mod 256) +:+ "." +:+
  dec (v / 2 ^ 8 mod 256) +:+ "." +:+ dec (v mod 256).

Definition v6u16 (v : Z) (i : nat) : Z := v / 2 ^ (16 * (7 - Z.of_nat i)) mod 65536.

Fixpoint zero_run (v : Z) (i fuel : nat) : nat :=
  match fuel with
  | O => O
  | S f => if v6u16 v i =? 0 then S (zero_run v (S i) f) else O
  end.
(** [appendTo6]: the first longest run of at least two zero groups. *)
Definition zero_span (v : Z) : nat * nat :=
  fold_left (λ best i,
    let l := zero_run v i (8 - i) in
    if (2 <=? l)%nat && (snd best - fst best <? l)%nat then (i, (i + l)%nat) else best)
    (seq 0 8) (255%nat, 255%nat).
Fixpoint groups6 (v : Z) (zs ze : nat) (i fuel : nat) : string :=
  match fuel with
  | O => ""
  | S f =>
    if (8 <=? i)%nat then "" else
    if (i =? zs)%nat then
      "::" +:+ (if (8 <=? ze)%nat then ""
                else hex16 (v6u16 v ze) +:+ groups6 v zs ze (S ze) f)
    else (if (0 <? i)%nat then ":" else "") +:+ hex16 (v6u16 v i) +:+
         groups6 v zs ze (S i) f
  end.
Definition string6 (v : Z) : string :=
  let '(zs, ze) := zero_span v in groups6 v zs ze 0 9.

Definition zone_suffix (z : string) : string :=
  if bool_decide (z = "") then "" else "%" +:+ z.

Definition Addr_String (a : Addr) : string :=
  match a with
  | AddrInvalid => "invalid IP"
  | Addr4 v => string4 v
  | Addr6 v z =>
    (if Is4In6 a then "::ffff:" +:+ string4 (v mod 2 ^ 32) else string6 v) +:+
    zone_suffix z
  end.
Definition Prefix_String (p : Prefix) : string :=
  if Prefix_IsValid p then Addr_String (Prefix_Addr p) +:+ "/" +:+ dec (Bits p)
  else "invalid Prefix".
Definition AddrPort_String (p : AddrPort) : string :=
  match AddrPort_Addr p with
  | AddrInvalid => "invalid AddrPort"
  | Addr4 v => string4 v +:+ ":" +:+ dec (Port p)
  | a => "[" +:+ Addr_String a +:+ "]:" +:+ dec (Port p)
  end.

Example string_examples :
  Addr_String (Addr4 0xc0000201) = "192.0.2.1" ∧
  Addr_String (Addr6 0x20010db8000000000000000000000001 "") = "2001:db8::1" ∧
  Addr_String (Addr6 0 "") = "::" ∧
  Addr_String (Addr6 0xfe800000000000010000000000000002 "eth0") =
    "fe80:0:0:1::2%eth0" ∧
  Addr_String (Addr6 0xffff0a000001 "") = "::ffff:10.0.0.1" ∧
  Prefix_String (PrefixFrom (Addr6 (Z.shiftl 0xfd78 112) "") 48) = "fd78::/48" ∧
  AddrPort_String (AddrPortFrom (Addr6 1 "") 58420) = "[::1]:58420".
Proof. by vm_compute. Qed.

(** * Lemmas *)

Lemma wf_AddrFrom4 raw : length raw = 4%nat → wf_addr (AddrFrom4 raw).
Proof. intros L. simpl. pose proof (be_get_range raw) as H. unfold len in H.
  rewrite L in H. exact H. Qed.
Lemma wf_AddrFrom16 raw : length raw = 16%nat → wf_addr (AddrFrom16 raw).
Proof. intros L. simpl. pose proof (be_get_range raw) as H. unfold len in H.
  rewrite L in H. exact H. Qed.

Lemma mask_value_range v w b :
  0 <= v < 2 ^ w → 0 <= b <= w → 0 <= mask_value v w b < 2 ^ w.
Proof.
  intros. unfold mask_value.
  assert (0 < 2 ^ (w - b)) by (apply Z.pow_pos_nonneg; lia).
  pose proof (Z.mul_div_le v (2 ^ (w - b)) ltac:(lia)).
  assert (0 <= v / 2 ^ (w - b)) by (apply Z.div_pos; lia). nia.
Qed.

Lemma mask_value_div v w b c :
  0 <= b <= c → c <= w → mask_value v w c / 2 ^ (w - b) = v / 2 ^ (w - b).
Proof.
  intros. unfold mask_value.
  replace (w - b) with ((w - c) + (c - b)) by lia.
  rewrite Z.pow_add_r by lia.
  assert (0 < 2 ^ (w - c)) by (apply Z.pow_pos_nonneg; lia).
  assert (0 < 2 ^ (c - b)) by (apply Z.pow_pos_nonneg; lia).
  rewrite <-!Z.div_div by lia. by rewrite Z.div_mul by lia.
Qed.

Lemma mask_value_idem v w b :
  0 <= b <= w → mask_value (mask_value v w b) w b = mask_value v w b.
Proof. intros. unfold mask_value at 1. by rewrite mask_value_div by lia. Qed.

Lemma PrefixFrom_valid ip bits :
  Addr_IsValid ip = true → 0 <= bits <= BitLen ip →
  PrefixFrom ip bits = mkPrefix (WithoutZone ip) bits.
Proof.
  intros V [? ?]. unfold PrefixFrom. rewrite V.
  by rewrite (proj2 (Z.leb_le 0 bits)), (proj2 (Z.leb_le bits _)) by lia.
Qed.

Lemma wf_PrefixFrom ip bits : wf_addr ip → wf_prefix (PrefixFrom ip bits).
Proof.
  intros W. unfold wf_prefix, PrefixFrom; simpl.
  split_and!; [by destruct ip..|].
  destruct (Addr_IsValid ip && _ && _) eqn:E; [|by left].
  bool_to_prop. right. split; [by destruct ip|]. by destruct ip.
Qed.

(** Masking a valid prefix keeps its family and length. *)
Lemma Masked_valid p :
  wf_prefix p → Prefix_IsValid p = true →
  Masked p = mkPrefix
    (match Prefix_Addr p with
     | AddrInvalid => AddrInvalid
     | Addr4 v => Addr4 (mask_value v 32 (Bits p))
     | Addr6 v _ => Addr6 (mask_value v 128 (Bits p)) ""
     end) (Bits p).
Proof.
  destruct p as [a b]. unfold wf_prefix, Prefix_IsValid, Masked; simpl.
  intros (? & ? & H) V. apply Z.leb_le in V. destruct H as [?|[? ?]]; [lia|].
  rewrite (proj2 (Z.ltb_ge b 0)) by lia.
  destruct a; simpl in *; try done.
  - rewrite (proj2 (Z.ltb_ge 32 b)) by lia. by rewrite PrefixFrom_valid by (simpl; lia || done).
  - rewrite (proj2 (Z.ltb_ge 128 b)) by lia. by rewrite PrefixFrom_valid by (simpl; lia || done).
Qed.

Lemma wf_Masked p : wf_prefix p → wf_prefix (Masked p).
Proof.
  intros W. destruct (Prefix_IsValid p) eqn:V.
  - rewrite Masked_valid by done. destruct W as (W & ? & H).
    unfold Prefix_IsValid in V. apply Z.leb_le in V. destruct H as [?|[H ?]]; [lia|].
    destruct p as [[] b]; simpl in *; try done;
      (split_and!; [by apply mask_value_range|done|by right]).
  - unfold Masked. unfold Prefix_IsValid in V. apply Z.leb_gt in V.
    rewrite (proj2 (Z.ltb_lt _ _)) by lia. split_and!; [done..|by left].
Qed.

(** A prefix contains its own (zone-free) address, and masking does not change
    what a prefix contains. *)
Lemma Contains_self p :
  wf_prefix p → Prefix_IsValid p = true → Contains p (Prefix_Addr p) = true.
Proof.
  destruct p as [a b]. intros (W & Zn & H) V. unfold Contains. simpl in *. rewrite V, Zn.
  unfold Prefix_IsValid in V; simpl in V. apply Z.leb_le in V.
  destruct H as [?|[H ?]]; [lia|]. destruct a; [done|by apply Z.eqb_eq..].
Qed.

Lemma Masked_idem p : wf_prefix p → Masked (Masked p) = Masked p.
Proof.
  intros W. destruct (Prefix_IsValid p) eqn:V.
  - pose proof (wf_Masked p W) as W'. rewrite (Masked_valid (Masked p)); [|done|].
    + rewrite Masked_valid by done. destruct W as (? & ? & H).
      unfold Prefix_IsValid in V. apply Z.leb_le in V. destruct H as [?|[H ?]]; [lia|].
      destruct p as [[] b]; simpl in *; try done; by rewrite mask_value_idem.
    + rewrite Masked_valid by done. done.
  - unfold Prefix_IsValid in V. apply Z.leb_gt in V.
    assert (Masked p = Prefix_zero) as ->.
    { unfold Masked. by rewrite (proj2 (Z.ltb_lt _ _)) by lia. }
    done.
Qed.

#[global] Arguments Is4In6 : simpl never.
#[global] Arguments Unmap : simpl never.
#[global] Arguments IsUnspecified : simpl never.
#[global] Arguments IsMulticast : simpl never.
#[global] Arguments IsLinkLocalUnicast : simpl never.
#[global] Arguments IsBroadcast4 : simpl never.
#[global] Arguments PrefixFrom : simpl never.
#[global] Arguments Masked : simpl never.
#[global] Arguments Contains : simpl never.
#[global] Arguments mask_value : simpl never.
