(* ===== verification/Tlv.v ===== *)
(** internal/tlv: the TLV cursor and encoder, and the loop every VFP decoder
    runs over a message body.  The cursor is the code's (body, offset) pair;
    [Next] is the code's method, returning the moved cursor.  [scan] is the
    shape of the callers' [for] loops. *)

From S2P Require Import Prelude.
Open Scope Z_scope.
Open Scope velvet_scope.

Record View := mkView { View_Type : Z; View_Offset : nat; View_Value : list byte }.

Record Cursor := mkCursor { body : list byte; off : nat }.

Definition NewCursor (b : list byte) : Cursor := mkCursor b 0.

(** [Ok None] is the code's [(View{}, false, nil)]. *)
Definition Next (c : Cursor) : Cursor * result (option View) :=
  if decide (off c = length (body c)) then (c, Ok None)
  else if len (body c) - Z.of_nat (off c) <? 4 then (c, Err ErrMalformed)
  else
    let start := off c in
    match (typeCode ← Slice (body c) start (start + 2) ≫= Uint16;
           length_ ← Slice (body c) (start + 2) (start + 4) ≫= Uint16;
           Ok (typeCode, length_)) with
    | Ok (typeCode, length_) =>
      if len (body c) - (Z.of_nat start + 4) <? length_ then (c, Err ErrMalformed)
      else
        let off' := (start + 4 + Z.to_nat length_)%nat in
        (mkCursor (body c) off',
         value ← Slice (body c) (start + 4) off';
         Ok (Some (mkView typeCode start value)))
    | Err e => (c, Err e)
    | Panic => (c, Panic)
    end.

(** [uint16(len(value))] truncates; [typeCode] is a uint16. *)
Definition Append (dst : list byte) (typeCode : Z) (value : list byte) : list byte :=
  dst ++ be_put 2 typeCode ++ be_put 2 (len value) ++ value.

Section Scan.
Context {S : Type} (step : S → View → S).

(** [for { v, ok, err := cursor.Next(); if err ...; if !ok {break}; step }].
    Running out of fuel is reported as [Panic]; [scan_total] excludes it. *)
Fixpoint scan_from (fuel : nat) (c : Cursor) (s : S) : result S :=
  match fuel with
  | O => Panic
  | Datatypes.S fuel =>
    match Next c with
    | (c', Ok (Some v)) => scan_from fuel c' (step s v)
    | (_, Ok None) => Ok s
    | (_, Err e) => Err e
    | (_, Panic) => Panic
    end
  end.

Definition scan (b : list byte) (s : S) : result S :=
  scan_from (Datatypes.S (length b)) (NewCursor b) s.
End Scan.

(** The views of a body in order. *)
Definition views (b : list byte) : result (list View) :=
  scan (λ vs v, vs ++ [v]) b [].

(** [Next] stays within the body: every slice it takes is in bounds. *)
Lemma Next_eq c :
  Next c =
  if decide (off c = length (body c)) then (c, Ok None)
  else if len (body c) - Z.of_nat (off c) <? 4 then (c, Err ErrMalformed)
  else
    let start := off c in
    let typeCode := be_get (body c).[start : start + 2] in
    let length_ := be_get (body c).[start + 2 : start + 4] in
    if len (body c) - (Z.of_nat start + 4) <? length_ then (c, Err ErrMalformed)
    else
      let off' := (start + 4 + Z.to_nat length_)%nat in
      (mkCursor (body c) off',
       Ok (Some (mkView typeCode start (body c).[start + 4 : off']))).
Proof.
  unfold Next. destruct (decide _); [done|]. destruct (_ <? 4) eqn:E; [done|].
  bool_to_prop. unfold len in E. cbv zeta.
  unfold Uint16. rewrite !(UintBE_slice 2), !bind_Ok by lia.
  destruct (_ <? be_get _) eqn:L; [done|]. bool_to_prop. unfold len in L.
  pose proof (be_get_range (body c).[off c + 2:off c + 4]).
  by rewrite Slice_ok by lia.
Qed.

(** * A TLV body as a sequence of fields *)

Notation field := (Z * list byte)%type.
Definition wf_field (f : field) : Prop := 0 <= f.1 < 2 ^ 16 ∧ len f.2 < 2 ^ 16.
Definition field_bytes (f : field) : list byte := Append [] f.1 f.2.
Definition fields_bytes (fs : list field) : list byte := concat (map field_bytes fs).
Definition strip (v : View) : field := (View_Type v, View_Value v).

Lemma Append_app dst t v : Append dst t v = dst ++ Append [] t v.
Proof. done. Qed.

Lemma length_field_bytes f : length (field_bytes f) = (4 + length f.2)%nat.
Proof. unfold field_bytes, Append. rewrite !length_app, !length_be_put. simpl. lia. Qed.

Lemma field_bytes_eq f :
  field_bytes f = be_put 2 f.1 ++ be_put 2 (len f.2) ++ f.2.
Proof. done. Qed.

#[global] Opaque field_bytes.

Lemma fields_bytes_app fs gs :
  fields_bytes (fs ++ gs) = fields_bytes fs ++ fields_bytes gs.
Proof. unfold fields_bytes. by rewrite map_app, concat_app. Qed.

Lemma fields_bytes_cons f fs :
  fields_bytes (f :: fs) = field_bytes f ++ fields_bytes fs.
Proof. done. Qed.

(** One step over a complete field at the cursor. *)
Lemma Next_field pre f rest :
  wf_field f →
  Next (mkCursor (pre ++ field_bytes f ++ rest) (length pre)) =
  (mkCursor (pre ++ field_bytes f ++ rest) (length pre + length (field_bytes f)),
   Ok (Some (mkView f.1 (length pre) f.2))).
Proof.
  intros [Ht Hl]. destruct f as [t v]; simpl in *.
  set (b := pre ++ _). rewrite Next_eq; cbn [off body].
  assert (Hb : length b = (length pre + (4 + length v) + length rest)%nat).
  { unfold b. rewrite !length_app, length_field_bytes. simpl. lia. }
  rewrite decide_False by lia.
  rewrite (proj2 (Z.ltb_ge _ 4)) by (unfold len; lia).
  assert (Hty : be_get b.[length pre : length pre + 2] = t).
  { unfold b. rewrite field_bytes_eq; cbn [fst snd].
    rewrite (slice_app_r _ _ _ _ (length pre)) by lia.
    rewrite <-!app_assoc.
    replace (length pre - length pre)%nat with 0%nat by lia.
    rewrite (slice_app_l (be_put 2 t)) by (rewrite length_be_put; lia).
    by apply be_get_put_small. }
  assert (Hln : be_get b.[length pre + 2 : length pre + 4] = len v).
  { unfold b. rewrite field_bytes_eq; cbn [fst snd].
    rewrite (slice_app_r _ _ _ _ (length pre)) by lia. rewrite <-!app_assoc.
    rewrite (slice_app_r _ _ _ _ 2) by (rewrite ?length_be_put; lia).
    replace (length pre + 2 - length pre - 2)%nat with 0%nat by lia.
    rewrite (slice_app_l (be_put 2 (len v))) by (rewrite length_be_put; lia).
    apply be_get_put_small. pose proof (len_nonneg v). simpl. lia. }
  rewrite Hty, Hln.
  rewrite (proj2 (Z.ltb_ge _ (len v))) by (unfold len in *; lia).
  rewrite length_field_bytes. simpl.
  assert (Z.to_nat (len v) = length v) as -> by (unfold len; lia).
  replace (length pre + 4 + length v)%nat with (length pre + (4 + length v))%nat by lia.
  do 4 f_equal.
  unfold b. rewrite field_bytes_eq; cbn [fst snd].
  rewrite (slice_app_r _ _ _ _ (length pre)) by lia. rewrite <-!app_assoc.
  rewrite (slice_app_r _ _ _ _ 2) by (rewrite ?length_be_put; lia).
  rewrite (slice_app_r _ _ _ _ 2) by (rewrite ?length_be_put; lia).
  replace (length pre + 4 - length pre - 2 - 2)%nat with 0%nat by lia.
  by rewrite slice_app_l by lia.
Qed.

Lemma Next_end b : Next (mkCursor b (length b)) = (mkCursor b (length b), Ok None).
Proof. rewrite Next_eq; cbn. by rewrite decide_True. Qed.

(** The offset of each field of a sequence laid out from position [o]. *)
Fixpoint place (o : nat) (fs : list field) : list View :=
  match fs with
  | [] => []
  | f :: fs => mkView f.1 o f.2 :: place (o + length (field_bytes f)) fs
  end.

Lemma strip_place o fs : map strip (place o fs) = fs.
Proof. revert o; induction fs as [|[] fs IH]; intros; simpl; by rewrite ?IH. Qed.

Lemma scan_fields_from {S} (step : S → View → S) pre fs s fuel :
  Forall wf_field fs → (length fs < fuel)%nat →
  scan_from step fuel (mkCursor (pre ++ fields_bytes fs) (length pre)) s =
  Ok (foldl step s (place (length pre) fs)).
Proof.
  revert pre s fuel; induction fs as [|f fs IH]; intros pre s [|fuel] W L;
    simpl in L; try lia; cbn [scan_from place foldl].
  - unfold fields_bytes; simpl. rewrite app_nil_r. by rewrite Next_end.
  - inversion W; subst. rewrite fields_bytes_cons, Next_field by done.
    rewrite <-length_app, app_assoc. apply IH; [done|lia].
Qed.

Lemma length_fields_bytes fs : (length fs <= length (fields_bytes fs))%nat.
Proof.
  induction fs as [|f fs IH]; [done|]. rewrite fields_bytes_cons, length_app.
  rewrite length_field_bytes. simpl. lia.
Qed.

(** Scanning a concatenation of fields folds over exactly those fields. *)
Lemma scan_fields {S} (step : S → View → S) fs s :
  Forall wf_field fs → scan step (fields_bytes fs) s = Ok (foldl step s (place 0 fs)).
Proof.
  intros W. unfold scan, NewCursor. pose proof (length_fields_bytes fs).
  apply (scan_fields_from step [] fs); [done|lia].
Qed.

(** What [Next] does away from the end: it fails, or it consumes one complete
    field. *)
Lemma Next_inv c :
  (off c <= length (body c))%nat →
  match Next c with
  | (c', Ok None) => off c = length (body c) ∧ c' = c
  | (c', Ok (Some v)) =>
      ∃ f, wf_field f ∧ strip v = f ∧ View_Offset v = off c ∧
        body c' = body c ∧ off c' = (off c + length (field_bytes f))%nat ∧
        (off c' <= length (body c))%nat ∧
        (body c).[off c : off c'] = field_bytes f
  | (c', Err e) => e = ErrMalformed ∧ c' = c ∧ (off c < length (body c))%nat
  | (_, Panic) => False
  end.
Proof.
  destruct c as [b o]; rewrite Next_eq; cbn [body off]. intros Ho.
  destruct (decide _); [done|].
  destruct (len b - Z.of_nat o <? 4) eqn:E1; [unfold len in *; bool_to_prop; split_and!; lia || done|].
  destruct (_ <? be_get _) eqn:E2; [unfold len in *; bool_to_prop; split_and!; lia || done|].
  bool_to_prop. unfold len in *.
  set (l2 := be_get b.[o + 2 : o + 4]) in *.
  assert (L1 : length b.[o : o + 2] = 2%nat) by (rewrite length_slice; lia).
  assert (L2 : length b.[o + 2 : o + 4] = 2%nat) by (rewrite length_slice; lia).
  pose proof (be_get_range b.[o : o + 2]) as R1.
  pose proof (be_get_range b.[o + 2 : o + 4]) as R2.
  unfold len in R1, R2. rewrite L1 in R1. rewrite L2 in R2.
  fold l2 in R2. cbn in R1, R2.
  assert (L3 : length b.[o + 4 : o + 4 + Z.to_nat l2] = Z.to_nat l2)
    by (rewrite length_slice; lia).
  exists (be_get b.[o : o + 2], b.[o + 4 : o + 4 + Z.to_nat l2]).
  unfold strip; cbn [View_Type View_Value View_Offset body off].
  rewrite length_field_bytes; cbn [fst snd]. rewrite L3.
  split_and!; [|done|done|done|lia|lia|].
  - split; simpl; [lia|]. unfold len. rewrite L3. lia.
  - rewrite field_bytes_eq; cbn [fst snd]. rewrite be_put_get_n by done.
    assert (len b.[o + 4 : o + 4 + Z.to_nat l2] = l2) as -> by (unfold len; lia).
    assert (be_put 2 l2 = b.[o + 2 : o + 4]) as -> by (by apply be_put_get_n).
    rewrite <-(slice_split b o (o + 2)) by lia. f_equal.
    rewrite <-(slice_split b (o + 2) (o + 4)) by lia. done.
Qed.

Lemma drop_slice {A} (l : list A) i j :
  (i <= j)%nat → drop i l = l.[i:j] ++ drop j l.
Proof.
  intros. unfold slice. replace (drop j l) with (drop (j - i) (drop i l)).
  - by rewrite take_drop.
  - rewrite drop_drop. f_equal. lia.
Qed.

(** Every scan ends: with the fold over the fields the body consists of, or with
    [ErrMalformed] when the body is not a sequence of complete fields. *)
Lemma scan_inv_from {S} (step : S → View → S) fuel b o s :
  (o <= length b)%nat → (length b - o < fuel)%nat →
  (∃ fs, Forall wf_field fs ∧ drop o b = fields_bytes fs ∧
     scan_from step fuel (mkCursor b o) s = Ok (foldl step s (place o fs)))
  ∨ scan_from step fuel (mkCursor b o) s = Err ErrMalformed.
Proof.
  revert o s; induction fuel as [|fuel IH]; intros o s Ho L; [lia|].
  cbn [scan_from]. pose proof (Next_inv (mkCursor b o) Ho) as N. cbn [body off] in N.
  destruct (Next (mkCursor b o)) as [[b' o'] [[v|]|e|]]; cbn [body off] in N; [| | |done].
  - destruct N as (f & Wf & <- & Ov & -> & -> & Le & Sl).
    pose proof (length_field_bytes (strip v)).
    destruct (IH (o + length (field_bytes (strip v)))%nat (step s v) Le ltac:(lia))
      as [(fs & W & D & E)|E]; rewrite E; [left|by right].
    exists (strip v :: fs). split_and!; [by constructor| |].
    + rewrite (drop_slice b o (o + length (field_bytes (strip v)))), Sl, D by lia.
      by rewrite fields_bytes_cons.
    + simpl. unfold strip; simpl. rewrite <-Ov. by destruct v.
  - destruct N as [-> _]. left. exists []. split_and!; [done| |done].
    by rewrite drop_all.
  - destruct N as (-> & _). by right.
Qed.

(** [scan] is total: its fuel always suffices. *)
Lemma scan_cases {S} (step : S → View → S) b s :
  (∃ fs, Forall wf_field fs ∧ b = fields_bytes fs ∧
     scan step b s = Ok (foldl step s (place 0 fs)))
  ∨ scan step b s = Err ErrMalformed.
Proof. unfold scan. apply (scan_inv_from step _ b 0 s); lia. Qed.

Lemma foldl_snoc_place (vs : list View) (acc : list View) :
  foldl (λ vs v, vs ++ [v]) acc vs = acc ++ vs.
Proof.
  revert acc; induction vs as [|v vs IH]; intros acc; simpl.
  - by rewrite app_nil_r.
  - by rewrite IH, <-app_assoc.
Qed.

(** The loop of every decoder is a fold over [views]. *)
Lemma scan_views {S} (step : S → View → S) b s :
  scan step b s = (vs ← views b; Ok (foldl step s vs)).
Proof.
  unfold views. destruct (scan_cases (λ vs v, vs ++ [v]) b []) as [(fs & W & -> & E)|E].
  - rewrite E, bind_Ok, scan_fields by done. by rewrite foldl_snoc_place.
  - rewrite E. destruct (scan_cases step b s) as [(fs & W & -> & E')|E']; [|done].
    rewrite scan_fields in E by done. done.
Qed.

(** A step that only looks at a field's type and value: fold over the fields. *)
Lemma foldl_place {S} (g : S → field → S) o fs s :
  foldl (λ s v, g s (strip v)) s (place o fs) = foldl g s fs.
Proof. revert o s; induction fs as [|[] fs IH]; intros; simpl; by rewrite ?IH. Qed.

Lemma returns_scan {S} (step : S → View → S) b s : returns (scan step b s).
Proof. destruct (scan_cases step b s) as [(fs & _ & _ & ->)| ->]; done. Qed.
#[export] Hint Resolve returns_scan : returns.
