(* ===== verification/Field.v ===== *)
(** internal/vfp/message/message.go, the field codecs: NODE_UID, addresses and
    prefixes, OPERATION_ID, WG_PUBLIC_KEY, WG_ENDPOINT and DYNAMIC_LINK_POLICY.
    [Codec] is the interface the message codecs rely on: a canonical encoding,
    decoded exactly by its parser. *)

From S2P Require Import Prelude Netip.
From Stdlib Require String.
Open Scope Z_scope.
Open Scope velvet_scope.

(** * Interface of a canonical wire codec *)

Class Codec {A} (wf : A → Prop)
    (enc : A → result (list byte)) (dec : list byte → result A) := {
  dec_enc a b : wf a → enc a = Ok b → dec b = Ok a;
  enc_dec a b : dec b = Ok a → wf a ∧ enc a = Ok b;
}.

(** * Data *)

Record UID := mkUID { UUID : list byte; Name : string }.
#[global] Instance UID_eq_dec : EqDecision UID.
Proof. solve_decision. Defined.

Definition DeclineReason := Z.
Definition DeclineOrdinary : DeclineReason := 0.
Definition DeclinePolicy : DeclineReason := 1.

Record DynamicLinkPolicy := mkPolicy { Revision : Z; Accept : bool }.
#[global] Instance DynamicLinkPolicy_eq_dec : EqDecision DynamicLinkPolicy.
Proof. solve_decision. Defined.

Definition wf_uid (u : UID) : Prop := length (UUID u) = 16%nat.
Definition wf_policy (p : DynamicLinkPolicy) : Prop := 0 <= Revision p < 2 ^ 64.

Definition uuid_Nil : list byte := zeros 16.

(** * Operations *)

Definition allZero (value : list byte) : bool :=
  forallb (λ item, bool_decide (item = x00)) value.

(** ['a' <= b <= 'z' || '0' <= b <= '9']. *)
Definition name_byte (b : byte) : bool :=
  ((97 <=? b2z b) && (b2z b <=? 122)) || ((48 <=? b2z b) && (b2z b <=? 57)).

Definition parseUID (value : list byte) : result UID :=
  if (len value <? 16) || (21 <? len value) then
    Err (errors_New "NODE_UID length must be 16..21")
  else
    parsed ← Slice value 0 16;
    if bool_decide (parsed = uuid_Nil) then
      Err (errors_New "NODE_UID UUID is invalid")
    else
      name ← SliceFrom value 16;
      if negb (forallb name_byte name) then Err (errors_New "NODE_UID name is invalid")
      else Ok (mkUID parsed (String.string_of_list_byte name)).

Definition encodeUID (value : UID) : result (list byte) :=
  if bool_decide (UUID value = uuid_Nil) || (5 <? len (String.list_byte_of_string (Name value)))
  then Err (errors_New "invalid UID")
  else if negb (forallb name_byte (String.list_byte_of_string (Name value))) then
    Err (errors_New "invalid UID name")
  else Ok (UUID value ++ String.list_byte_of_string (Name value)).

Definition validAddress (addr : Addr) : bool :=
  negb (IsUnspecified addr) && negb (IsMulticast addr) &&
  negb (IsLinkLocalUnicast addr) && negb (IsBroadcast4 addr).

(** A nil slice (the field is absent) gives the zero [netip.Addr]. *)
Definition parseAddress (value : option (list byte)) (ipv4 : bool) : result Addr :=
  match value with
  | None => Ok AddrInvalid
  | Some value =>
    if ipv4 then
      if negb (len value =? 4) then Err (errors_New "IPv4 address length is not 4")
      else
        let addr := AddrFrom4 (Copy 4 value) in
        if negb (validAddress addr) then Err (errors_New "invalid IPv4 address")
        else Ok addr
    else if negb (len value =? 16) then
      Err (errors_New "IPv6 address length is not 16")
    else
      let addr := AddrFrom16 (Copy 16 value) in
      if negb (validAddress addr) then Err (errors_New "invalid IPv6 address")
      else Ok addr
  end.

Definition parsePrefix (value : option (list byte)) (ipv4 : bool) : result Prefix :=
  addr ← parseAddress value ipv4;
  if negb (Addr_IsValid addr) then Ok Prefix_zero else
  let bits := if ipv4 then 30 else 126 in
  let prefix := PrefixFrom addr bits in
  if negb (bool_decide (prefix = Masked prefix)) then
    Err (errors_New "link prefix has host bits set")
  else Ok prefix.

(** The array the code fills through its output pointer. *)
Definition parseOperationID (value : list byte) : result (list byte) :=
  if negb (len value =? 16) then Err (errors_New "OPERATION_ID length must be 16")
  else Ok (Copy 16 value).

Definition parsePublicKey (value : list byte) : result (list byte) :=
  if negb (len value =? 32) || allZero value then
    Err (errors_New "WG_PUBLIC_KEY must be 32 non-zero octets")
  else Ok (Copy 32 value).

Definition validEndpointAddress (addr : Addr) : bool :=
  Addr_IsValid addr && negb (Is4In6 addr) && negb (IsUnspecified addr) &&
  negb (IsMulticast addr) && negb (IsLinkLocalUnicast addr) &&
  negb (IsBroadcast4 addr).

Definition parseEndpoint (value : list byte) : result AddrPort :=
  if negb (len value =? 8) && negb (len value =? 20) then
    Err (errors_New "IP endpoint length must be 8 or 20")
  else
    afi ← Slice value 0 2 ≫= Uint16;
    port ← Slice value 2 4 ≫= Uint16;
    if port =? 0 then Err (errors_New "IP endpoint port must be non-zero") else
    addr ←
      (if afi =? 1 then
         if negb (len value =? 8) then
           Err (errors_New "IPv4 endpoint length must be 8")
         else raw ← SliceFrom value 4; Ok (AddrFrom4 (Copy 4 raw))
       else if afi =? 2 then
         if negb (len value =? 20) then
           Err (errors_New "IPv6 endpoint length must be 20")
         else raw ← SliceFrom value 4; Ok (AddrFrom16 (Copy 16 raw))
       else Err (errors_New "IP endpoint address family is unknown"));
    if negb (validEndpointAddress addr) then
      Err (errors_New "IP endpoint address is invalid")
    else Ok (AddrPortFrom addr port).

Definition encodeEndpoint (value : AddrPort) : result (list byte) :=
  let addr := AddrPort_Addr value in
  if negb (AddrPort_IsValid value) || (Port value =? 0) ||
     negb (validEndpointAddress addr)
  then Err (errors_New "invalid IP endpoint")
  else
    let afi := if Is4 addr then 1 else 2 in
    raw ← (if Is4 addr then As4 addr else As16 addr);
    Ok (be_put 2 afi ++ be_put 2 (Port value) ++ raw).

Definition parseDynamicLinkPolicy (value : list byte) : result DynamicLinkPolicy :=
  bad ← Ok (negb (len value =? 9)) ||! (accept ← Octet value 8; Ok (1 <? accept))
        ||! (revision ← Slice value 0 8 ≫= Uint64; Ok (revision =? 0));
  if bad : bool then Err (ErrFrame "") else
  revision ← Slice value 0 8 ≫= Uint64;
  accept ← Octet value 8;
  Ok (mkPolicy revision (accept =? 1)).

Definition encodeDynamicLinkPolicy (p : option DynamicLinkPolicy) : result (list byte) :=
  match p with
  | None => Err (ErrFrame "")
  | Some p =>
    if Revision p =? 0 then Err (ErrFrame "")
    else Ok (be_put 8 (Revision p) ++ [if Accept p then x01 else x00])
  end.

(** * Lemmas *)

Lemma len_length {A} (l : list A) n : len l = Z.of_nat n ↔ length l = n.
Proof. unfold len. lia. Qed.

Lemma be_get_bound bs n : length bs = n → 0 <= be_get bs < 256 ^ Z.of_nat n.
Proof. intros <-. apply be_get_range. Qed.

(** The length checks keep every slice and index of the parsers in bounds:
    each parser equals its reading by position. *)
Lemma parseUID_eq value :
  parseUID value =
  if (len value <? 16) || (21 <? len value) then
    Err (errors_New "NODE_UID length must be 16..21")
  else if bool_decide (value.[0:16] = uuid_Nil) then
    Err (errors_New "NODE_UID UUID is invalid")
  else if negb (forallb name_byte (drop 16 value)) then
    Err (errors_New "NODE_UID name is invalid")
  else Ok (mkUID value.[0:16] (String.string_of_list_byte (drop 16 value))).
Proof.
  unfold parseUID. destruct (_ || _) eqn:L; [done|]. bool_to_prop. unfold len in *.
  rewrite Slice_ok, bind_Ok by lia. by rewrite SliceFrom_ok, bind_Ok by lia.
Qed.

Lemma parseAddress_eq value (ipv4 : bool) :
  parseAddress (Some value) ipv4 =
  let n := if ipv4 then 4 else 16 in
  let addr := if ipv4 then AddrFrom4 value else AddrFrom16 value in
  if negb (len value =? n) then
    Err (errors_New (if ipv4 then "IPv4 address length is not 4"
                     else "IPv6 address length is not 16"))
  else if negb (validAddress addr) then
    Err (errors_New (if ipv4 then "invalid IPv4 address" else "invalid IPv6 address"))
  else Ok addr.
Proof.
  unfold parseAddress. destruct ipv4; cbn zeta; destruct (_ =? _) eqn:L; try done;
    bool_to_prop; by rewrite Copy_id by (unfold len in *; lia).
Qed.

Lemma parseOperationID_eq value :
  parseOperationID value =
  if negb (len value =? 16) then Err (errors_New "OPERATION_ID length must be 16")
  else Ok value.
Proof.
  unfold parseOperationID. destruct (_ =? _) eqn:L; [|done].
  bool_to_prop. by rewrite Copy_id by (unfold len in *; lia).
Qed.

Lemma parsePublicKey_eq value :
  parsePublicKey value =
  if negb (len value =? 32) || allZero value then
    Err (errors_New "WG_PUBLIC_KEY must be 32 non-zero octets")
  else Ok value.
Proof.
  unfold parsePublicKey. destruct (_ =? _) eqn:L, (allZero _); try done.
  bool_to_prop. by rewrite Copy_id by (unfold len in *; lia).
Qed.

Lemma parseEndpoint_eq value :
  parseEndpoint value =
  if negb (len value =? 8) && negb (len value =? 20) then
    Err (errors_New "IP endpoint length must be 8 or 20")
  else
    let afi := be_get value.[0:2] in
    let port := be_get value.[2:4] in
    if port =? 0 then Err (errors_New "IP endpoint port must be non-zero") else
    addr ←
      (if afi =? 1 then
         if negb (len value =? 8) then
           Err (errors_New "IPv4 endpoint length must be 8")
         else Ok (AddrFrom4 (drop 4 value))
       else if afi =? 2 then
         if negb (len value =? 20) then
           Err (errors_New "IPv6 endpoint length must be 20")
         else Ok (AddrFrom16 (drop 4 value))
       else Err (errors_New "IP endpoint address family is unknown"));
    if negb (validEndpointAddress addr) then
      Err (errors_New "IP endpoint address is invalid")
    else Ok (AddrPortFrom addr port).
Proof.
  unfold parseEndpoint. destruct (_ && _) eqn:L; [done|].
  assert (8 <= length value)%nat as L8.
  { apply andb_false_iff in L as [L|L]; bool_to_prop; unfold len in *; lia. }
  unfold Uint16. rewrite !(UintBE_slice 2), !bind_Ok by lia. cbv zeta.
  destruct (_ =? 0); [done|]. rewrite SliceFrom_ok, !bind_Ok by lia.
  destruct (_ =? 1); [|destruct (_ =? 2); [|done]].
  - destruct (len value =? 8) eqn:E; [|done]. bool_to_prop.
    by rewrite Copy_id by (rewrite length_drop; unfold len in *; lia).
  - destruct (len value =? 20) eqn:E; [|done]. bool_to_prop.
    by rewrite Copy_id by (rewrite length_drop; unfold len in *; lia).
Qed.

Lemma parseDynamicLinkPolicy_eq value :
  parseDynamicLinkPolicy value =
  if negb (len value =? 9) || (1 <? be_get value.[8:9]) || (be_get value.[0:8] =? 0)
  then Err (ErrFrame "")
  else Ok (mkPolicy (be_get value.[0:8]) (be_get value.[8:9] =? 1)).
Proof.
  unfold parseDynamicLinkPolicy. destruct (len value =? 9) eqn:L; [|done].
  bool_to_prop. assert (length value = 9%nat) by (unfold len in *; lia).
  rewrite !Octet_ok, !bind_Ok by lia. unfold Uint64.
  rewrite !(UintBE_slice 8), !bind_Ok by lia. cbn [negb].
  rewrite !or_else_Ok. by destruct (1 <? _), (_ =? 0).
Qed.

(** Endpoints survive the codec when they are in range and carry no zone. *)
Definition wf_endpoint (e : AddrPort) : Prop :=
  wf_addrport e ∧ Zone (AddrPort_Addr e) = "".

Lemma encodeEndpoint_ok e v :
  encodeEndpoint e = Ok v →
  validEndpointAddress (AddrPort_Addr e) = true ∧ Port e ≠ 0 ∧
  ((∃ a, AddrPort_Addr e = Addr4 a ∧ v = be_put 2 1 ++ be_put 2 (Port e) ++ be_put 4 a) ∨
   (∃ a z, AddrPort_Addr e = Addr6 a z ∧
      v = be_put 2 2 ++ be_put 2 (Port e) ++ be_put 16 a)).
Proof.
  unfold encodeEndpoint. destruct e as [a p]; simpl. intros H.
  destruct (_ || _) eqn:E in H; [done|]. bool_to_prop. split_and!; [done..|].
  destruct a; simpl in H; [done| |].
  - injection H as <-. left. eauto.
  - unfold As16 in H. injection H as <-. right. eauto.
Qed.

Lemma split_endpoint p raw n afi :
  0 <= p < 2 ^ 16 → length raw = n → 0 <= afi < 2 ^ 16 →
  len (be_put 2 afi ++ be_put 2 p ++ raw) = Z.of_nat (4 + n) ∧
  be_get (be_put 2 afi ++ be_put 2 p ++ raw).[0:2] = afi ∧
  be_get (be_put 2 afi ++ be_put 2 p ++ raw).[2:4] = p ∧
  drop 4 (be_put 2 afi ++ be_put 2 p ++ raw) = raw.
Proof.
  intros Hp L Ha. split_and!.
  - unfold len. rewrite !length_app, !length_be_put. lia.
  - rewrite slice_app_l by (by rewrite length_be_put). by apply be_get_put_small.
  - rewrite (slice_app_r _ _ _ _ 2) by (rewrite ?length_be_put; lia).
    rewrite slice_app_l by (rewrite length_be_put; lia). by apply be_get_put_small.
  - by rewrite app_assoc, drop_app_length' by (by rewrite length_app, !length_be_put).
Qed.

Lemma join_endpoint v n :
  len v = Z.of_nat (4 + n) →
  v = be_put 2 (be_get v.[0:2]) ++ be_put 2 (be_get v.[2:4]) ++ drop 4 v ∧
  length (drop 4 v) = n ∧ 0 <= be_get v.[2:4] < 2 ^ 16.
Proof.
  intros L%len_length. split_and!.
  - rewrite !be_put_get_n by (rewrite length_slice; lia).
    rewrite app_assoc, slice_split by lia. unfold slice.
    by rewrite drop_0, take_drop.
  - rewrite length_drop. lia.
  - apply (be_get_bound _ 2). rewrite length_slice; lia.
  - apply (be_get_bound _ 2). rewrite length_slice; lia.
Qed.

#[global] Instance endpoint_codec : Codec wf_endpoint encodeEndpoint parseEndpoint.
Proof.
  split.
  - intros [a p] v [[Wa Wp] Zn] (V & P & [(x & Ea & ->)|(x & z & Ea & ->)])%encodeEndpoint_ok;
      simpl in *; subst a; simpl in *.
    + destruct (split_endpoint p (be_put 4 x) 4 1 Wp eq_refl ltac:(lia)) as (L & A & B & D).
      change (Z.of_nat (4 + 4)) with 8 in L.
      rewrite parseEndpoint_eq; cbv zeta. rewrite L, A, B, D. cbn [Z.eqb Pos.eqb negb andb].
      rewrite (proj2 (Z.eqb_neq p 0)) by done. unfold AddrFrom4.
      rewrite be_get_put_small by done. rewrite bind_Ok. by rewrite V.
    + subst z. destruct (split_endpoint p (be_put 16 x) 16 2 Wp eq_refl ltac:(lia))
        as (L & A & B & D). change (Z.of_nat (4 + 16)) with 20 in L.
      rewrite parseEndpoint_eq; cbv zeta. rewrite L, A, B, D. cbn [Z.eqb Pos.eqb negb andb].
      rewrite (proj2 (Z.eqb_neq p 0)) by done. unfold AddrFrom16.
      rewrite be_get_put_small by done. rewrite bind_Ok. by rewrite V.
  - intros e v. rewrite parseEndpoint_eq; cbv zeta.
    destruct (_ && _) eqn:L; [done|]. destruct (_ =? 0) eqn:P; [done|]. bool_to_prop.
    intros H. apply bind_ok in H as (a & A & H).
    destruct (validEndpointAddress a) eqn:V; simpl in H; [|done].
    injection H as <-.
    destruct (be_get v.[0:2] =? 1) eqn:F1; [|destruct (be_get v.[0:2] =? 2) eqn:F2; [|done]].
    + destruct (len v =? 8) eqn:L8; simpl in A; [|done]. injection A as <-. bool_to_prop.
      destruct (join_endpoint v 4 L8) as (J & D & R). split.
      * split; [split; [by apply wf_AddrFrom4|done]|done].
      * unfold encodeEndpoint; simpl. rewrite V, (proj2 (Z.eqb_neq _ 0)) by done; simpl.
        rewrite (be_put_get_n 4) by done.
        f_equal. symmetry. rewrite F1 in J. exact J.
    + destruct (len v =? 20) eqn:L20; simpl in A; [|done]. injection A as <-. bool_to_prop.
      destruct (join_endpoint v 16 L20) as (J & D & R). split.
      * split; [split; [by apply wf_AddrFrom16|done]|done].
      * unfold encodeEndpoint, AddrPort_IsValid. cbn [AddrPort_Addr Port].
        rewrite V, (proj2 (Z.eqb_neq _ 0)) by done. unfold AddrFrom16.
        cbn [Addr_IsValid Is4 As16 negb orb]. rewrite bind_Ok, (be_put_get_n 16) by done.
        f_equal. symmetry. rewrite F2 in J. exact J.
Qed.

#[global] Instance uid_codec : Codec wf_uid encodeUID parseUID.
Proof.
  split.
  - intros [u n] v L. unfold encodeUID, wf_uid in *; simpl in *.
    destruct (_ || _) eqn:E; [done|]. destruct (forallb _ _) eqn:F; [|done]. simpl.
    intros [= <-]. bool_to_prop. rewrite parseUID_eq.
    assert (len (u ++ String.list_byte_of_string n) = 16 + len (String.list_byte_of_string n)) as ->
      by (unfold len; rewrite length_app; lia).
    pose proof (len_nonneg (String.list_byte_of_string n)).
    rewrite (proj2 (Z.ltb_ge _ 16)), (proj2 (Z.ltb_ge 21 _)) by lia. simpl.
    rewrite slice_app_l, drop_app_length' by done.
    rewrite bool_decide_eq_false_2, F by done. simpl.
    by rewrite String.string_of_list_byte_of_string.
  - intros u v. rewrite parseUID_eq.
    destruct (_ || _) eqn:E; [done|]. destruct (bool_decide _) eqn:N; [done|].
    destruct (forallb _ _) eqn:F; [|done]. simpl. intros [= <-]. bool_to_prop.
    unfold len in *. split; [apply length_slice; lia|].
    unfold encodeUID; simpl. rewrite String.list_byte_of_string_of_list_byte, F.
    rewrite bool_decide_eq_false_2 by done. simpl. unfold len.
    rewrite length_drop, (proj2 (Z.ltb_ge 5 _)) by lia. simpl.
    unfold slice. by rewrite drop_0, take_drop.
Qed.

#[global] Instance policy_codec :
  Codec wf_policy (λ p, encodeDynamicLinkPolicy (Some p)) parseDynamicLinkPolicy.
Proof.
  split.
  - intros [r a] v W. unfold wf_policy, encodeDynamicLinkPolicy in *; simpl in *.
    destruct (r =? 0) eqn:R; [done|]. intros [= <-]. rewrite parseDynamicLinkPolicy_eq.
    rewrite slice_app_l by (by rewrite length_be_put).
    rewrite (slice_app_r _ _ _ _ 8) by (rewrite ?length_be_put; lia).
    rewrite be_get_put_small by done. rewrite R.
    replace (len _) with 9 by (unfold len; rewrite length_app, length_be_put; done).
    by destruct a.
  - intros p v. rewrite parseDynamicLinkPolicy_eq.
    destruct (_ || _) eqn:E; [done|]. intros [= <-]. bool_to_prop.
    assert (L : length v = 9%nat) by (by apply len_length).
    pose proof (be_get_bound v.[0:8] 8 ltac:(rewrite length_slice; lia)).
    split; [done|]. unfold encodeDynamicLinkPolicy; simpl.
    rewrite (proj2 (Z.eqb_neq _ 0)) by done.
    rewrite be_put_get_n by (rewrite length_slice; lia). f_equal.
    transitivity (v.[0:8] ++ v.[8:9]); [|rewrite slice_split by lia; by rewrite slice_full].
    f_equal. assert (length v.[8:9] = 1%nat) as L1 by (rewrite length_slice; lia).
    destruct v.[8:9] as [|b [|]]; try done. rewrite be_get_one in *. pose proof (b2z_range b).
    destruct (b2z b =? 1) eqn:B; bool_to_prop; f_equal; apply b2z_inj.
    + change (b2z x01) with 1. lia.
    + change (b2z x00) with 0. lia.
Qed.

Lemma parseOperationID_ok v w : parseOperationID v = Ok w ↔ w = v ∧ length v = 16%nat.
Proof.
  rewrite parseOperationID_eq. destruct (len v =? 16) eqn:E; simpl; bool_to_prop.
  - apply (len_length v 16) in E. naive_solver.
  - split; [done|]. intros [_ L]. destruct E. by apply (len_length v 16).
Qed.

Lemma parsePublicKey_ok v w :
  parsePublicKey v = Ok w ↔ w = v ∧ length v = 32%nat ∧ allZero v = false.
Proof.
  rewrite parsePublicKey_eq. destruct (len v =? 32) eqn:E, (allZero v); simpl; bool_to_prop.
  all: try apply (len_length v 32) in E; split; try naive_solver.
  intros (_ & L & _). destruct E. by apply (len_length v 32).
Qed.

(** A parsed address is in range, of the asked family and zone-free. *)
Lemma parseAddress_ok v ipv4 a :
  parseAddress v ipv4 = Ok a →
  (v = None ∧ a = AddrInvalid) ∨
  (∃ raw, v = Some raw ∧ validAddress a = true ∧ wf_addr a ∧
     if ipv4 then length raw = 4%nat ∧ a = AddrFrom4 raw
     else length raw = 16%nat ∧ a = AddrFrom16 raw).
Proof.
  destruct v as [raw|]; [rewrite parseAddress_eq; cbv zeta|intros [= <-]; by left].
  destruct ipv4.
  - destruct (len raw =? 4) eqn:L; simpl; [|done]. destruct (validAddress _) eqn:V; [|done].
    intros [= <-]. apply Z.eqb_eq, (len_length raw 4) in L.
    right. exists raw. split_and!; try done. by apply wf_AddrFrom4.
  - destruct (len raw =? 16) eqn:L; simpl; [|done]. destruct (validAddress _) eqn:V; [|done].
    intros [= <-]. apply Z.eqb_eq, (len_length raw 16) in L.
    right. exists raw. split_and!; try done. by apply wf_AddrFrom16.
Qed.

Lemma parseAddress_Some (raw : list byte) (ipv4 : bool) :
  length raw = (if ipv4 then 4%nat else 16%nat) →
  let a := if ipv4 then AddrFrom4 raw else AddrFrom16 raw in
  validAddress a = true → parseAddress (Some raw) ipv4 = Ok a.
Proof.
  rewrite parseAddress_eq. destruct ipv4; simpl; intros L V.
  - apply (len_length raw 4) in L. rewrite L. simpl. by rewrite V.
  - apply (len_length raw 16) in L. rewrite L. simpl. by rewrite V.
Qed.

(** The canonical direction of the codecs, by parser. *)
Lemma parseUID_ok v u : parseUID v = Ok u → wf_uid u ∧ encodeUID u = Ok v.
Proof. apply enc_dec. Qed.
Lemma parseEndpoint_ok v e : parseEndpoint v = Ok e → wf_endpoint e ∧ encodeEndpoint e = Ok v.
Proof. apply enc_dec. Qed.
Lemma parsePolicy_ok v p :
  parseDynamicLinkPolicy v = Ok p → wf_policy p ∧ encodeDynamicLinkPolicy (Some p) = Ok v.
Proof. apply (enc_dec (enc := λ p, encodeDynamicLinkPolicy (Some p))). Qed.

(** No parser panics, whatever the octets. *)
Lemma returns_parseUID v : returns (parseUID v).
Proof. rewrite parseUID_eq. returns_tac. Qed.
Lemma returns_parseAddress v b : returns (parseAddress v b).
Proof. unfold parseAddress. returns_tac. Qed.
#[export] Hint Resolve returns_parseUID returns_parseAddress : returns.
Lemma returns_parsePrefix v b : returns (parsePrefix v b).
Proof. unfold parsePrefix. returns_tac. Qed.
Lemma returns_parseOperationID v : returns (parseOperationID v).
Proof. rewrite parseOperationID_eq. returns_tac. Qed.
Lemma returns_parsePublicKey v : returns (parsePublicKey v).
Proof. rewrite parsePublicKey_eq. returns_tac. Qed.
Lemma returns_parseEndpoint v : returns (parseEndpoint v).
Proof. rewrite parseEndpoint_eq; cbv zeta. returns_tac. Qed.
Lemma returns_parseDynamicLinkPolicy v : returns (parseDynamicLinkPolicy v).
Proof. rewrite parseDynamicLinkPolicy_eq. returns_tac. Qed.
#[export] Hint Resolve returns_parsePrefix returns_parseOperationID returns_parsePublicKey
  returns_parseEndpoint returns_parseDynamicLinkPolicy : returns.
