(* ===== verification/Control.v ===== *)
(** internal/vfp/message/control.go: the control blob of a DISCOVERY_CONTROL
    message (candidates, probe reports, round barriers, WG readiness, observer
    leases).  The blob is a canonical codec: see [control_codec]. *)

From S2P Require Import Prelude Netip Field.
Open Scope Z_scope.
Open Scope velvet_scope.

Inductive ControlCode :=
  | Candidates | ProbeReport | RoundDone | WGReady | DiscoveryEnd
  | ObserveOpen | ObserveReady
  | ControlUnassigned (b : byte).
#[global] Instance ControlCode_eq_dec : EqDecision ControlCode.
Proof. solve_decision. Defined.

(** [Candidates ControlCode = 1 + iota]. *)
Definition code_byte (c : ControlCode) : byte :=
  match c with
  | Candidates => x01 | ProbeReport => x02 | RoundDone => x03 | WGReady => x04
  | DiscoveryEnd => x05 | ObserveOpen => x06 | ObserveReady => x07
  | ControlUnassigned b => b
  end.
Definition byte_code (b : byte) : ControlCode :=
  match b with
  | x01 => Candidates | x02 => ProbeReport | x03 => RoundDone | x04 => WGReady
  | x05 => DiscoveryEnd | x06 => ObserveOpen | x07 => ObserveReady
  | b => ControlUnassigned b
  end.

Record Control := mkControl {
  Code : ControlCode;
  Round : Z;
  Sequence : Z;
  Changed : bool;
  Key : list byte;
  Endpoints : list AddrPort;
}.
#[global] Instance Control_eq_dec : EqDecision Control.
Proof. solve_decision. Defined.

Definition keyZero (c : Control) : bool := bool_decide (Key c = zeros 32).

(** The per-code table at the end of [DecodeControl]. *)
Definition validControl (c : Control) : bool :=
  let count := len (Endpoints c) in
  match Code c with
  | Candidates =>
    (1 <=? Round c) && (Round c <=? 16) && (Sequence c =? 0) && keyZero c
  | ProbeReport =>
    (Round c <=? 16) && (0 <? Sequence c) && (Sequence c <=? 12000) &&
    (count =? 1) && negb (Changed c) && keyZero c
  | RoundDone =>
    (1 <=? Round c) && (Round c <=? 16) && (Sequence c =? 0) &&
    ((count =? 0) || (count =? 2)) && negb (Changed c) && keyZero c
  | WGReady | DiscoveryEnd =>
    (Round c =? 0) && (Sequence c =? 0) && (count =? 0) && negb (Changed c) && keyZero c
  | ObserveOpen =>
    (Round c =? 0) && (Sequence c =? 0) && (count =? 1) && negb (Changed c) && keyZero c
  | ObserveReady =>
    (Round c =? 0) && (Sequence c =? 0) && (1 <=? count) && (count <=? 2) &&
    negb (Changed c) && negb (keyZero c)
  | ControlUnassigned _ => false
  end.

(** [for range count { ... }]: the endpoints and what is left of the blob. *)
Fixpoint decodeEndpoints (count : nat) (b : list byte) : result (list AddrPort * list byte) :=
  match count with
  | O => Ok ([], b)
  | S count =>
    short ← Ok (len b <? 1) ||! (l ← Octet b 0; Ok (len b <? 1 + l));
    if short : bool then Err (ErrFrame "") else
    l ← Octet b 0;
    let n := Z.to_nat l in
    v ← Slice b 1 (1 + n);
    ep ← parseEndpoint v;
    b ← SliceFrom b (1 + n);
    '(eps, rest) ← decodeEndpoints count b;
    Ok (ep :: eps, rest)
  end.

Definition DecodeControl (b : list byte) : result Control :=
  bad ← Ok (len b <? 45) ||! (changed ← Octet b 11; Ok (1 <? changed))
        ||! (count ← Octet b 44; Ok (32 <? count));
  if bad : bool then Err (ErrFrame "") else
  code ← Octet b 0;
  round ← Slice b 1 3 ≫= Uint16;
  sequence ← Slice b 3 11 ≫= Uint64;
  changed ← Octet b 11;
  key ← Slice b 12 44;
  count ← Octet b 44;
  blob ← SliceFrom b 45;
  '(eps, rest) ← decodeEndpoints (Z.to_nat count) blob;
  if negb (len rest =? 0) then Err (ErrFrame "") else
  let c := mkControl (byte_code (z2b code)) round sequence (changed =? 1) (Copy 32 key) eps in
  if negb (validControl c) then Err (ErrFrame "") else Ok c.

Fixpoint encodeEndpoints (eps : list AddrPort) : result (list byte) :=
  match eps with
  | [] => Ok []
  | ep :: eps =>
    v ← encodeEndpoint ep;
    rest ← encodeEndpoints eps;
    Ok (z2b (len v) :: v ++ rest)
  end.

Definition controlHeader (c : Control) : list byte :=
  [code_byte (Code c)] ++ be_put 2 (Round c) ++ be_put 8 (Sequence c) ++
  [if Changed c then x01 else x00] ++ Key c ++ [z2b (len (Endpoints c))].

(** [Control.Encode]; it checks its own output with [DecodeControl]. *)
Definition Control_Encode (c : Control) : result (list byte) :=
  if 32 <? len (Endpoints c) then Err (ErrFrame "") else
  v ← encodeEndpoints (Endpoints c);
  let b := controlHeader c ++ v in
  _ ← DecodeControl b;
  Ok b.

Definition EndpointValue := encodeEndpoint.
Definition ParseEndpointValue := parseEndpoint.

(** * The blob is canonical *)

Definition wf_control (c : Control) : Prop :=
  0 <= Round c < 2 ^ 16 ∧ 0 <= Sequence c < 2 ^ 64 ∧ length (Key c) = 32%nat ∧
  Forall wf_endpoint (Endpoints c) ∧ byte_code (code_byte (Code c)) = Code c.

Lemma byte_code_byte b : code_byte (byte_code b) = b.
Proof. by destruct b. Qed.

Lemma encodeEndpoint_length e v :
  encodeEndpoint e = Ok v → length v = 8%nat ∨ length v = 20%nat.
Proof.
  intros (_ & _ & [(a & _ & ->)|(a & z & _ & ->)])%encodeEndpoint_ok;
    rewrite !length_app, !length_be_put; auto.
Qed.

(** The length checks keep the reads of an endpoint in bounds. *)
Lemma decodeEndpoints_S count b :
  decodeEndpoints (S count) b =
  match b with
  | [] => Err (ErrFrame "")
  | l :: b =>
    if len b <? b2z l then Err (ErrFrame "") else
    let n := Z.to_nat (b2z l) in
    ep ← parseEndpoint b.[0:n];
    '(eps, rest) ← decodeEndpoints count (drop n b);
    Ok (ep :: eps, rest)
  end.
Proof.
  cbn [decodeEndpoints]. destruct b as [|l b]; [done|].
  pose proof (b2z_range l). change (Octet (l :: b) 0) with (Ok (b2z l)).
  rewrite !bind_Ok, !or_else_Ok. unfold len. cbn [length].
  rewrite (proj2 (Z.ltb_ge _ 1)), bind_Ok by lia.
  destruct (_ <? b2z l) eqn:L; bool_to_prop.
  { by rewrite (proj2 (Z.ltb_lt _ _)) by lia. }
  rewrite (proj2 (Z.ltb_ge _ _)) by lia. cbv zeta.
  rewrite Slice_ok, bind_Ok by (simpl; lia). rewrite SliceFrom_ok by (simpl; lia).
  unfold slice. cbn [drop Nat.add]. by rewrite Nat.sub_0_r, Nat.sub_succ, Nat.sub_0_r, drop_0.
Qed.

(** The header check keeps every read of the blob in bounds. *)
Lemma DecodeControl_eq b :
  DecodeControl b =
  if (len b <? 45) || (1 <? be_get b.[11:12]) || (32 <? be_get b.[44:45])
  then Err (ErrFrame "")
  else
    '(eps, rest) ← decodeEndpoints (Z.to_nat (be_get b.[44:45])) (drop 45 b);
    if negb (len rest =? 0) then Err (ErrFrame "") else
    let c := mkControl (byte_code (z2b (be_get b.[0:1]))) (be_get b.[1:3])
               (be_get b.[3:11]) (be_get b.[11:12] =? 1) b.[12:44] eps in
    if negb (validControl c) then Err (ErrFrame "") else Ok c.
Proof.
  unfold DecodeControl. destruct (len b <? 45) eqn:L; [done|].
  bool_to_prop. unfold len in L.
  rewrite !Octet_ok, !bind_Ok, !or_else_Ok by lia. cbn [orb].
  destruct (1 <? _); [done|]. destruct (32 <? _); [done|]. rewrite bind_Ok.
  unfold Uint16, Uint64. rewrite (UintBE_slice 2), (UintBE_slice 8), !bind_Ok by lia.
  rewrite Slice_ok, bind_Ok, SliceFrom_ok, !bind_Ok by lia.
  by rewrite Copy_id by (rewrite length_slice; lia).
Qed.

Lemma decodeEndpoints_encode eps v rest :
  Forall wf_endpoint eps → encodeEndpoints eps = Ok v →
  decodeEndpoints (length eps) (v ++ rest) = Ok (eps, rest).
Proof.
  intros W; revert v; induction W as [|e eps We W IH]; intros v E; simpl in E.
  - by injection E as <-.
  - inv_ok. subst v. rename x into w, x0 into ws.
    assert (len w = 8 ∨ len w = 20) as L
      by (destruct (encodeEndpoint_length _ _ H); unfold len; lia).
    cbn [length app]. rewrite decodeEndpoints_S; cbv zeta. rewrite b2z_z2b, Z.mod_small by lia.
    rewrite <-app_assoc. rewrite (proj2 (Z.ltb_ge _ _)).
    2: { unfold len. rewrite length_app. lia. }
    rewrite slice_app_l by (unfold len; lia).
    rewrite (dec_enc e w We H), bind_Ok. rewrite drop_app_length' by (unfold len; lia).
    by rewrite IH.
Qed.

Lemma decodeEndpoints_ok n b eps rest :
  decodeEndpoints n b = Ok (eps, rest) →
  length eps = n ∧ Forall wf_endpoint eps ∧
  ∃ v, encodeEndpoints eps = Ok v ∧ b = v ++ rest.
Proof.
  revert b eps; induction n as [|n IH]; intros b eps.
  - intros [= <- <-]. split_and!; [done..|]. by exists [].
  - rewrite decodeEndpoints_S; cbv zeta. destruct b as [|l b]; [done|]. intros H. inv_ok. subst.
    destruct x0 as [eps' rest']. inv_ok. simplify_eq. bool_to_prop.
    destruct (IH _ _ ltac:(eassumption)) as (<- & W & v & E & D).
    destruct (enc_dec x _ ltac:(eassumption)) as (Wx & Ex).
    split_and!; [done|by constructor|].
    pose proof (b2z_range l).
    assert (len b.[0:Z.to_nat (b2z l)] = b2z l) as Ln
      by (unfold len in *; rewrite length_slice; lia).
    exists (l :: b.[0:Z.to_nat (b2z l)] ++ v). split.
    + simpl. rewrite Ex, bind_Ok, E, bind_Ok, Ln. by rewrite z2b_b2z.
    + simpl. f_equal. rewrite <-app_assoc, <-D. unfold slice.
      by rewrite drop_0, Nat.sub_0_r, take_drop.
Qed.

Lemma length_controlHeader c : wf_control c → length (controlHeader c) = 45%nat.
Proof.
  intros (_ & _ & K & _ & _). unfold controlHeader.
  rewrite !length_app, !length_be_put, K. done.
Qed.

(** The fields of a header, read back by position. *)
Lemma controlHeader_fields c v :
  wf_control c → len (Endpoints c) <= 32 →
  let b := controlHeader c ++ v in
  be_get b.[0:1] = b2z (code_byte (Code c)) ∧ be_get b.[1:3] = Round c ∧
  be_get b.[3:11] = Sequence c ∧ be_get b.[11:12] = (if Changed c then 1 else 0) ∧
  b.[12:44] = Key c ∧ be_get b.[44:45] = len (Endpoints c) ∧ drop 45 b = v.
Proof.
  intros W Le b. pose proof (length_controlHeader c W) as LH.
  destruct W as (R & Sq & K & _). subst b.
  assert (H45 : ∀ i j, (j <= 45)%nat →
    (controlHeader c ++ v).[i:j] = (controlHeader c).[i:j]).
  { intros i j ?. unfold slice. destruct (decide (i <= 45)%nat).
    - rewrite drop_app_le, take_app_le by (rewrite ?length_drop; lia). done.
    - replace (j - i)%nat with 0%nat by lia. done. }
  rewrite !H45 by lia. rewrite drop_app_length' by done. clear H45 LH.
  unfold controlHeader. split_and!; [| | | | | |done].
  - rewrite slice_app_l by done. apply be_get_one.
  - rewrite (slice_app_r _ _ _ _ 1) by (done || lia).
    rewrite slice_app_l by (by rewrite length_be_put). by apply be_get_put_small.
  - rewrite (slice_app_r _ _ _ _ 1) by (done || lia).
    rewrite (slice_app_r _ _ _ _ 2) by (rewrite ?length_be_put; done || lia).
    rewrite slice_app_l by (by rewrite length_be_put). by apply be_get_put_small.
  - rewrite (slice_app_r _ _ _ _ 1) by (done || lia).
    rewrite (slice_app_r _ _ _ _ 2) by (rewrite ?length_be_put; done || lia).
    rewrite (slice_app_r _ _ _ _ 8) by (rewrite ?length_be_put; done || lia).
    rewrite slice_app_l by done. rewrite be_get_one. by destruct (Changed c).
  - rewrite (slice_app_r _ _ _ _ 1) by (done || lia).
    rewrite (slice_app_r _ _ _ _ 2) by (rewrite ?length_be_put; done || lia).
    rewrite (slice_app_r _ _ _ _ 8) by (rewrite ?length_be_put; done || lia).
    rewrite (slice_app_r _ _ _ _ 1) by (done || lia).
    by rewrite slice_app_l by (rewrite K; done).
  - rewrite (slice_app_r _ _ _ _ 1) by (done || lia).
    rewrite (slice_app_r _ _ _ _ 2) by (rewrite ?length_be_put; done || lia).
    rewrite (slice_app_r _ _ _ _ 8) by (rewrite ?length_be_put; done || lia).
    rewrite (slice_app_r _ _ _ _ 1) by (done || lia).
    rewrite (slice_app_r _ _ _ _ 32) by (rewrite ?K; done || lia).
    rewrite slice_full by done. rewrite be_get_one, b2z_z2b, Z.mod_small; [done|].
    pose proof (len_nonneg (Endpoints c)). lia.
Qed.

(** A blob of at least 45 octets is its header fields and the rest. *)
Lemma control_blob_split (b : list byte) :
  (45 <= length b)%nat →
  b = b.[0:1] ++ b.[1:3] ++ b.[3:11] ++ b.[11:12] ++ b.[12:44] ++ b.[44:45] ++ drop 45 b.
Proof.
  intros L. rewrite !app_assoc, !slice_split by lia. unfold slice.
  by rewrite drop_0, take_drop.
Qed.

Lemma slice_one (b : list byte) i :
  (i < length b)%nat → ∃ x, b.[i:S i] = [x] ∧ be_get b.[i:S i] = b2z x.
Proof.
  intros L. assert (length b.[i:S i] = 1%nat) as E by (rewrite length_slice; lia).
  destruct b.[i:S i] as [|x [|]] eqn:S; try done. exists x. by rewrite be_get_one.
Qed.

Lemma DecodeControl_ok b c :
  DecodeControl b = Ok c →
  (45 <= length b)%nat ∧ validControl c = true ∧ wf_control c ∧
  len (Endpoints c) <= 32 ∧
  ∃ v, encodeEndpoints (Endpoints c) = Ok v ∧ b = controlHeader c ++ v.
Proof.
  rewrite DecodeControl_eq; cbv zeta. intros H. inv_ok. bool_to_prop.
  destruct x as [eps rest]. inv_ok. bool_to_prop. subst c.
  match goal with H : decodeEndpoints _ _ = _ |- _ => rename H into E end.
  destruct (decodeEndpoints_ok _ _ _ _ E) as (Ln & W & v & Ev & D).
  assert (45 <= length b)%nat as L by (unfold len in *; lia).
  assert (rest = []) as -> by (destruct rest; [done|unfold len in *; simpl in *; lia]).
  rewrite app_nil_r in D.
  pose proof (be_get_bound b.[1:3] 2 ltac:(rewrite length_slice; lia)).
  pose proof (be_get_bound b.[3:11] 8 ltac:(rewrite length_slice; lia)).
  destruct (slice_one b 0 ltac:(lia)) as (x0 & S0 & G0).
  destruct (slice_one b 11 ltac:(lia)) as (x11 & S11 & G11).
  destruct (slice_one b 44 ltac:(lia)) as (x44 & S44 & G44).
  pose proof (b2z_range x44). pose proof (b2z_range x11).
  assert (Le : len eps = b2z x44) by (unfold len; rewrite Ln, G44; lia).
  split_and!; [done|done| |cbn [Endpoints]; lia|].
  - unfold wf_control; cbn [Code Round Sequence Key Endpoints].
    split_and!; [lia..|by rewrite length_slice by lia|done|].
    by rewrite byte_code_byte.
  - exists v. split; [done|]. rewrite (control_blob_split b L) at 1.
    unfold controlHeader; cbn [Code Round Sequence Changed Key Endpoints].
    rewrite byte_code_byte, G0, z2b_b2z, S0, D, <-!app_assoc.
    rewrite !be_put_get_n by (rewrite length_slice; lia).
    rewrite G11, S44, S11, Le, z2b_b2z. do 4 f_equal.
    destruct (b2z x11 =? 1) eqn:B; bool_to_prop; f_equal; apply b2z_inj.
    + change (b2z x01) with 1. lia.
    + change (b2z x00) with 0. lia.
Qed.

Lemma DecodeControl_header c v :
  wf_control c → len (Endpoints c) <= 32 → encodeEndpoints (Endpoints c) = Ok v →
  DecodeControl (controlHeader c ++ v) =
    if negb (validControl c) then Err (ErrFrame "") else Ok c.
Proof.
  intros W Le Ev.
  destruct (controlHeader_fields c v W Le) as (F0 & F1 & F3 & F11 & F12 & F44 & F45).
  rewrite DecodeControl_eq; cbv zeta. rewrite F0, F1, F3, F11, F12, F44, F45.
  rewrite (proj2 (Z.ltb_ge _ 45)).
  2: { unfold len. rewrite length_app, length_controlHeader by done. lia. }
  rewrite (proj2 (Z.ltb_ge 32 _)) by lia.
  assert (Hc : (1 <? (if Changed c then 1 else 0)) = false) by (by destruct (Changed c)).
  rewrite Hc. cbn [orb]. replace (Z.to_nat (len (Endpoints c))) with (length (Endpoints c))
    by (unfold len; lia).
  rewrite <-(app_nil_r v). destruct W as (? & ? & ? & We & Cc).
  rewrite (decodeEndpoints_encode _ _ [] We Ev), bind_Ok. change (len [] =? 0) with true.
  cbn [negb]. rewrite z2b_b2z, Cc.
  replace (mkControl _ _ _ _ _ _) with c; [done|].
  destruct c as [? ? ? [] ? ?]; done.
Qed.

#[global] Instance control_codec : Codec wf_control Control_Encode DecodeControl.
Proof.
  split.
  - intros c b W. unfold Control_Encode. intros H. inv_ok. subst b. bool_to_prop.
    match goal with
    | H : encodeEndpoints _ = _, D : DecodeControl _ = _ |- _ =>
      rewrite (DecodeControl_header c _ W ltac:(lia) H) in D |- *
    end.
    by destruct (validControl c).
  - intros b c D. pose proof D as (_ & _ & W & Le & v & Ev & Eb)%DecodeControl_ok.
    split; [done|]. unfold Control_Encode.
    rewrite (proj2 (Z.ltb_ge 32 _)) by lia. rewrite Ev, bind_Ok, <-Eb.
    by rewrite D, bind_Ok.
Qed.

(** A control blob is at most 45 octets and 32 endpoints of at most 21. *)
Lemma DecodeControl_len b c : DecodeControl b = Ok c → len b <= 45 + 32 * 21.
Proof.
  intros (_ & _ & W & Le & v & Ev & ->)%DecodeControl_ok.
  unfold len. rewrite length_app, length_controlHeader by done.
  enough (len v <= 21 * len (Endpoints c)) by (unfold len in *; lia). clear W Le.
  revert v Ev; induction (Endpoints c) as [|e eps IH]; intros v Ev; simpl in Ev.
  - injection Ev as <-. unfold len; simpl; lia.
  - inv_ok. subst v.
    match goal with H : encodeEndpoint _ = Ok _, H' : encodeEndpoints _ = Ok _ |- _ =>
      apply encodeEndpoint_length in H; apply IH in H' end.
    unfold len in *. cbn [length]. rewrite length_app. lia.
Qed.

Lemma returns_decodeEndpoints n b : returns (decodeEndpoints n b).
Proof. revert b; induction n as [|n IH]; intros b; [done|].
  rewrite decodeEndpoints_S. returns_tac; apply IH. Qed.
#[export] Hint Resolve returns_decodeEndpoints : returns.
Lemma returns_DecodeControl b : returns (DecodeControl b).
Proof. rewrite DecodeControl_eq; cbv zeta. returns_tac. Qed.
#[export] Hint Resolve returns_DecodeControl : returns.

(** C15: the control blob is canonical.  A well-formed control message that
    [Control.Encode] accepts is read back by [DecodeControl]; and every blob
    [DecodeControl] accepts is the one encoding of a well-formed, permitted
    control message. *)
Theorem Control_canonical b c :
  (wf_control c → Control_Encode c = Ok b → DecodeControl b = Ok c) ∧
  (DecodeControl b = Ok c → wf_control c ∧ validControl c = true ∧ Control_Encode c = Ok b).
Proof.
  split; [apply dec_enc|]. intros D. pose proof (DecodeControl_ok b c D) as (_ & V & _).
  by destruct (enc_dec (enc := Control_Encode) c b D).
Qed.

Lemma Control_canonical_witness :
  let c := mkControl ProbeReport 3 77 false (zeros 32)
             [AddrPortFrom (Addr4 0xc0000201) 51820] in
  ∃ b, Control_Encode c = Ok b ∧ DecodeControl b = Ok c.
Proof.
  intros c. destruct (Control_Encode c) as [b|e|] eqn:E; [|by vm_compute in E..].
  exists b. split; [done|]. apply (Control_canonical b c); [|done].
  split_and!; try done. constructor; [|constructor]. done.
Defined.
