(* ===== verification/MessageData.v ===== *)
(** internal/vfp/message: the [Message] struct, message types, flags and
    statuses shared by the ordinary and the durable decoder. *)

From S2P Require Import Prelude Netip Tlv Field.
Open Scope Z_scope.
Open Scope velvet_scope.

Definition Magic : Z := 0x56465000.
Definition Version : Z := 1.
Definition HeaderLength : Z := 8.
Definition MaxFrameLength : Z := 4096.
Definition MaxDatagramLength : Z := 1200.

(** [Type]; a [uint8], of which 0x05 and everything above 0x15 is unassigned. *)
Inductive MsgType :=
  | Open | NodeState | LinkPropose | LinkAccept
  | DynamicLinkPropose | DynamicLinkAccept | DynamicLinkDecline
  | DiscoveryHello | DiscoveryHelloAck | DiscoveryControl | PublicProbe
  | LinkPing | LinkPong | PolicyQuery | PolicyUpdate
  | DurablePropose | DurableSaved | DurableDecline | DurableCheck | DurableStatus
  | TypeUnassigned (b : byte).
#[global] Instance MsgType_eq_dec : EqDecision MsgType.
Proof. solve_decision. Defined.

Definition type_byte (t : MsgType) : byte :=
  match t with
  | Open => x01 | NodeState => x02 | LinkPropose => x03 | LinkAccept => x04
  | DynamicLinkPropose => x06 | DynamicLinkAccept => x07 | DynamicLinkDecline => x08
  | DiscoveryHello => x09 | DiscoveryHelloAck => x0a | DiscoveryControl => x0b
  | PublicProbe => x0c | LinkPing => x0d | LinkPong => x0e
  | PolicyQuery => x0f | PolicyUpdate => x10
  | DurablePropose => x11 | DurableSaved => x12 | DurableDecline => x13
  | DurableCheck => x14 | DurableStatus => x15
  | TypeUnassigned b => b
  end.
Definition byte_type (b : byte) : MsgType :=
  match b with
  | x01 => Open | x02 => NodeState | x03 => LinkPropose | x04 => LinkAccept
  | x06 => DynamicLinkPropose | x07 => DynamicLinkAccept | x08 => DynamicLinkDecline
  | x09 => DiscoveryHello | x0a => DiscoveryHelloAck | x0b => DiscoveryControl
  | x0c => PublicProbe | x0d => LinkPing | x0e => LinkPong
  | x0f => PolicyQuery | x10 => PolicyUpdate
  | x11 => DurablePropose | x12 => DurableSaved | x13 => DurableDecline
  | x14 => DurableCheck | x15 => DurableStatus
  | b => TypeUnassigned b
  end.

(** [t == u] on the source's [uint8]s. *)
Definition is_type (t u : MsgType) : bool := bool_decide (t = u).

Definition IsPolicy (t : MsgType) : bool := is_type t PolicyQuery || is_type t PolicyUpdate.
Definition IsLinkProbe (t : MsgType) : bool := is_type t LinkPing || is_type t LinkPong.
Definition IsDiscovery (t : MsgType) : bool :=
  is_type t DiscoveryHello || is_type t DiscoveryHelloAck.
Definition IsDurable (t : MsgType) : bool :=
  (b2z (type_byte DurablePropose) <=? b2z (type_byte t)) &&
  (b2z (type_byte t) <=? b2z (type_byte DurableStatus)).

(** The check on [frame[5]] in [Decode]. *)
Definition unknownType (t : MsgType) : bool :=
  (b2z (type_byte t) <? b2z (type_byte Open)) ||
  (b2z (type_byte DurableStatus) <? b2z (type_byte t)) || (b2z (type_byte t) =? 0x05).

Definition NodeUIDTLV : Z := 0x0001.
Definition LoopbackV6TLV : Z := 0x0003.
Definition LinkPrefixV4TLV : Z := 0x0004.
Definition LinkPrefixV6TLV : Z := 0x0005.
Definition OperationIDTLV : Z := 0x0006.
Definition WGPublicKeyTLV : Z := 0x0007.
Definition WGEndpointTLV : Z := 0x0008.
Definition ProbeKeyTLV : Z := 0x0009.
Definition DiscoveryDataTLV : Z := 0x000a.
Definition SealedProbeTLV : Z := 0x000b.
Definition DeclineReasonTLV : Z := 0x000c.
Definition DynamicLinkPolicyTLV : Z := 0x000d.
Definition FlagsTLV : Z := 0x000e.
Definition StatusTLV : Z := 0x000f.

Definition Flags := Z.
Definition NoDurable : Flags := 1.

Definition Status := Z.
Definition Ready : Status := 0.
Definition NotReady : Status := 1.
Definition Absent : Status := 2.

Record FixedEndpoint := mkFixedEndpoint { Fixed_UID : UID; Fixed_Endpoint : AddrPort }.
#[global] Instance FixedEndpoint_eq_dec : EqDecision FixedEndpoint.
Proof. solve_decision. Defined.

Record Message := mkMessage {
  FixedEndpoints : list FixedEndpoint;
  AgreementID : list byte;
  Msg_Flags : Flags;
  Msg_Status : Status;
  Msg_DeclineReason : DeclineReason;
  Msg_Policy : option DynamicLinkPolicy;
  Type_ : MsgType;
  ProbeKey : list byte;
  Data : list byte;
  Msg_UID : option UID;
  LoopbackV6 : Addr;
  LinkPrefixV4 : Prefix;
  LinkPrefixV6 : Prefix;
  OperationID : list byte;
  WGPublicKey : list byte;
  Endpoint : AddrPort;
}.
#[global] Instance Message_eq_dec : EqDecision Message.
Proof. solve_decision. Defined.

(** [Message{Type: t}]. *)
Definition newMessage (t : MsgType) : Message := {|
  FixedEndpoints := []; AgreementID := zeros 16; Msg_Flags := 0; Msg_Status := 0;
  Msg_DeclineReason := 0; Msg_Policy := None; Type_ := t; ProbeKey := zeros 32;
  Data := []; Msg_UID := None; LoopbackV6 := AddrInvalid; LinkPrefixV4 := Prefix_zero;
  LinkPrefixV6 := Prefix_zero; OperationID := zeros 16; WGPublicKey := zeros 32;
  Endpoint := AddrPort_zero |}.

(** Field assignments [m.F = v]. *)
Definition set_FixedEndpoints v m := {|
  FixedEndpoints := v; AgreementID := AgreementID m; Msg_Flags := Msg_Flags m;
  Msg_Status := Msg_Status m; Msg_DeclineReason := Msg_DeclineReason m;
  Msg_Policy := Msg_Policy m; Type_ := Type_ m; ProbeKey := ProbeKey m; Data := Data m;
  Msg_UID := Msg_UID m; LoopbackV6 := LoopbackV6 m; LinkPrefixV4 := LinkPrefixV4 m;
  LinkPrefixV6 := LinkPrefixV6 m; OperationID := OperationID m;
  WGPublicKey := WGPublicKey m; Endpoint := Endpoint m |}.
Definition set_AgreementID v m := {|
  FixedEndpoints := FixedEndpoints m; AgreementID := v; Msg_Flags := Msg_Flags m;
  Msg_Status := Msg_Status m; Msg_DeclineReason := Msg_DeclineReason m;
  Msg_Policy := Msg_Policy m; Type_ := Type_ m; ProbeKey := ProbeKey m; Data := Data m;
  Msg_UID := Msg_UID m; LoopbackV6 := LoopbackV6 m; LinkPrefixV4 := LinkPrefixV4 m;
  LinkPrefixV6 := LinkPrefixV6 m; OperationID := OperationID m;
  WGPublicKey := WGPublicKey m; Endpoint := Endpoint m |}.
Definition set_Flags v m := {|
  FixedEndpoints := FixedEndpoints m; AgreementID := AgreementID m; Msg_Flags := v;
  Msg_Status := Msg_Status m; Msg_DeclineReason := Msg_DeclineReason m;
  Msg_Policy := Msg_Policy m; Type_ := Type_ m; ProbeKey := ProbeKey m; Data := Data m;
  Msg_UID := Msg_UID m; LoopbackV6 := LoopbackV6 m; LinkPrefixV4 := LinkPrefixV4 m;
  LinkPrefixV6 := LinkPrefixV6 m; OperationID := OperationID m;
  WGPublicKey := WGPublicKey m; Endpoint := Endpoint m |}.
Definition set_Status v m := {|
  FixedEndpoints := FixedEndpoints m; AgreementID := AgreementID m;
  Msg_Flags := Msg_Flags m; Msg_Status := v; Msg_DeclineReason := Msg_DeclineReason m;
  Msg_Policy := Msg_Policy m; Type_ := Type_ m; ProbeKey := ProbeKey m; Data := Data m;
  Msg_UID := Msg_UID m; LoopbackV6 := LoopbackV6 m; LinkPrefixV4 := LinkPrefixV4 m;
  LinkPrefixV6 := LinkPrefixV6 m; OperationID := OperationID m;
  WGPublicKey := WGPublicKey m; Endpoint := Endpoint m |}.
(** [m.DeclineReason = reason; m.Policy = policy], always assigned together. *)
Definition set_Decline reason policy m := {|
  FixedEndpoints := FixedEndpoints m; AgreementID := AgreementID m;
  Msg_Flags := Msg_Flags m; Msg_Status := Msg_Status m; Msg_DeclineReason := reason;
  Msg_Policy := policy; Type_ := Type_ m; ProbeKey := ProbeKey m; Data := Data m;
  Msg_UID := Msg_UID m; LoopbackV6 := LoopbackV6 m; LinkPrefixV4 := LinkPrefixV4 m;
  LinkPrefixV6 := LinkPrefixV6 m; OperationID := OperationID m;
  WGPublicKey := WGPublicKey m; Endpoint := Endpoint m |}.
Definition set_UID v policy m := {|
  FixedEndpoints := FixedEndpoints m; AgreementID := AgreementID m;
  Msg_Flags := Msg_Flags m; Msg_Status := Msg_Status m;
  Msg_DeclineReason := Msg_DeclineReason m; Msg_Policy := policy; Type_ := Type_ m;
  ProbeKey := ProbeKey m; Data := Data m; Msg_UID := v; LoopbackV6 := LoopbackV6 m;
  LinkPrefixV4 := LinkPrefixV4 m; LinkPrefixV6 := LinkPrefixV6 m;
  OperationID := OperationID m; WGPublicKey := WGPublicKey m; Endpoint := Endpoint m |}.
Definition set_LoopbackV6 v m := {|
  FixedEndpoints := FixedEndpoints m; AgreementID := AgreementID m;
  Msg_Flags := Msg_Flags m; Msg_Status := Msg_Status m;
  Msg_DeclineReason := Msg_DeclineReason m; Msg_Policy := Msg_Policy m; Type_ := Type_ m;
  ProbeKey := ProbeKey m; Data := Data m; Msg_UID := Msg_UID m; LoopbackV6 := v;
  LinkPrefixV4 := LinkPrefixV4 m; LinkPrefixV6 := LinkPrefixV6 m;
  OperationID := OperationID m; WGPublicKey := WGPublicKey m; Endpoint := Endpoint m |}.
Definition set_LinkPrefixes v4 v6 m := {|
  FixedEndpoints := FixedEndpoints m; AgreementID := AgreementID m;
  Msg_Flags := Msg_Flags m; Msg_Status := Msg_Status m;
  Msg_DeclineReason := Msg_DeclineReason m; Msg_Policy := Msg_Policy m; Type_ := Type_ m;
  ProbeKey := ProbeKey m; Data := Data m; Msg_UID := Msg_UID m;
  LoopbackV6 := LoopbackV6 m; LinkPrefixV4 := v4; LinkPrefixV6 := v6;
  OperationID := OperationID m; WGPublicKey := WGPublicKey m; Endpoint := Endpoint m |}.
(** [m.OperationID = id; m.Data = data]. *)
Definition set_OperationID v m := {|
  FixedEndpoints := FixedEndpoints m; AgreementID := AgreementID m;
  Msg_Flags := Msg_Flags m; Msg_Status := Msg_Status m;
  Msg_DeclineReason := Msg_DeclineReason m; Msg_Policy := Msg_Policy m; Type_ := Type_ m;
  ProbeKey := ProbeKey m; Data := Data m; Msg_UID := Msg_UID m;
  LoopbackV6 := LoopbackV6 m; LinkPrefixV4 := LinkPrefixV4 m;
  LinkPrefixV6 := LinkPrefixV6 m; OperationID := v; WGPublicKey := WGPublicKey m;
  Endpoint := Endpoint m |}.
Definition set_Data v m := {|
  FixedEndpoints := FixedEndpoints m; AgreementID := AgreementID m;
  Msg_Flags := Msg_Flags m; Msg_Status := Msg_Status m;
  Msg_DeclineReason := Msg_DeclineReason m; Msg_Policy := Msg_Policy m; Type_ := Type_ m;
  ProbeKey := ProbeKey m; Data := v; Msg_UID := Msg_UID m;
  LoopbackV6 := LoopbackV6 m; LinkPrefixV4 := LinkPrefixV4 m;
  LinkPrefixV6 := LinkPrefixV6 m; OperationID := OperationID m;
  WGPublicKey := WGPublicKey m; Endpoint := Endpoint m |}.
Definition set_Endpoint v m := {|
  FixedEndpoints := FixedEndpoints m; AgreementID := AgreementID m;
  Msg_Flags := Msg_Flags m; Msg_Status := Msg_Status m;
  Msg_DeclineReason := Msg_DeclineReason m; Msg_Policy := Msg_Policy m; Type_ := Type_ m;
  ProbeKey := ProbeKey m; Data := Data m; Msg_UID := Msg_UID m;
  LoopbackV6 := LoopbackV6 m; LinkPrefixV4 := LinkPrefixV4 m;
  LinkPrefixV6 := LinkPrefixV6 m; OperationID := OperationID m;
  WGPublicKey := WGPublicKey m; Endpoint := v |}.
(** [m.ProbeKey = probe; m.WGPublicKey = key]. *)
Definition set_Keys probe key m := {|
  FixedEndpoints := FixedEndpoints m; AgreementID := AgreementID m;
  Msg_Flags := Msg_Flags m; Msg_Status := Msg_Status m;
  Msg_DeclineReason := Msg_DeclineReason m; Msg_Policy := Msg_Policy m; Type_ := Type_ m;
  ProbeKey := probe; Data := Data m; Msg_UID := Msg_UID m;
  LoopbackV6 := LoopbackV6 m; LinkPrefixV4 := LinkPrefixV4 m;
  LinkPrefixV6 := LinkPrefixV6 m; OperationID := OperationID m; WGPublicKey := key;
  Endpoint := Endpoint m |}.

(** Every value of the Go type: arrays of their length, integers of their
    width, and addresses without a zone (no message address carries one). *)
Record wf_message (m : Message) : Prop := {
  wf_Fixed : Forall (λ f, wf_uid (Fixed_UID f) ∧ wf_endpoint (Fixed_Endpoint f))
               (FixedEndpoints m);
  wf_AgreementID : length (AgreementID m) = 16%nat;
  wf_Flags : 0 <= Msg_Flags m < 2 ^ 32;
  wf_Status : 0 <= Msg_Status m < 256;
  wf_Decline : 0 <= Msg_DeclineReason m < 256;
  wf_Policy : ∀ p, Msg_Policy m = Some p → wf_policy p;
  wf_Type : byte_type (type_byte (Type_ m)) = Type_ m;
  wf_ProbeKey : length (ProbeKey m) = 32%nat;
  wf_UID : ∀ u, Msg_UID m = Some u → wf_uid u;
  wf_Loopback : wf_addr (LoopbackV6 m) ∧ Zone (LoopbackV6 m) = "";
  wf_LinkPrefixes : wf_prefix (LinkPrefixV4 m) ∧ wf_prefix (LinkPrefixV6 m);
  wf_OperationID : length (OperationID m) = 16%nat;
  wf_WGPublicKey : length (WGPublicKey m) = 32%nat;
  wf_Endpoint : wf_endpoint (Endpoint m);
}.

Lemma byte_type_byte b : type_byte (byte_type b) = b.
Proof. by destruct b. Qed.

Lemma byte_type_canonical b : byte_type (type_byte (byte_type b)) = byte_type b.
Proof. by rewrite byte_type_byte. Qed.

Lemma unknownType_assigned t :
  unknownType t = false → byte_type (type_byte t) = t →
  ∀ b, t ≠ TypeUnassigned b.
Proof. intros U C b ->. simpl in C. destruct b; simpl in *; discriminate. Qed.

Lemma wf_newMessage t : byte_type (type_byte t) = t → wf_message (newMessage t).
Proof.
  split; simpl; try done; repeat split; try done; try lia; by left.
Qed.

#[global] Hint Resolve wf_newMessage byte_type_canonical : velvet.

(** Decide the tests on concrete message types. *)
Ltac reduce_types :=
  repeat match goal with
  | |- context [is_type ?a ?b] =>
      let r := eval vm_compute in (is_type a b) in
      first [constr_eq r true | constr_eq r false]; change (is_type a b) with r
  | H : context [is_type ?a ?b] |- _ =>
      let r := eval vm_compute in (is_type a b) in
      first [constr_eq r true | constr_eq r false]; change (is_type a b) with r in H
  end; cbn [orb andb negb] in *.

(** Every assignment of a well-formed value keeps the message well formed. *)
Lemma wf_set_FixedEndpoints v m :
  Forall (λ f, wf_uid (Fixed_UID f) ∧ wf_endpoint (Fixed_Endpoint f)) v →
  wf_message m → wf_message (set_FixedEndpoints v m).
Proof. by intros ? []; split. Qed.
Lemma wf_set_AgreementID v m :
  length v = 16%nat → wf_message m → wf_message (set_AgreementID v m).
Proof. by intros ? []; split. Qed.
Lemma wf_set_Flags v m : 0 <= v < 2 ^ 32 → wf_message m → wf_message (set_Flags v m).
Proof. by intros ? []; split. Qed.
Lemma wf_set_Status v m : 0 <= v < 256 → wf_message m → wf_message (set_Status v m).
Proof. by intros ? []; split. Qed.
Lemma wf_set_Decline r p m :
  0 <= r < 256 → (∀ p', p = Some p' → wf_policy p') →
  wf_message m → wf_message (set_Decline r p m).
Proof. by intros ?? []; split. Qed.
Lemma wf_set_UID u p m :
  (∀ u', u = Some u' → wf_uid u') → (∀ p', p = Some p' → wf_policy p') →
  wf_message m → wf_message (set_UID u p m).
Proof. by intros ?? []; split. Qed.
Lemma wf_set_LoopbackV6 v m :
  wf_addr v ∧ Zone v = "" → wf_message m → wf_message (set_LoopbackV6 v m).
Proof. by intros ? []; split. Qed.
Lemma wf_set_LinkPrefixes v4 v6 m :
  wf_prefix v4 → wf_prefix v6 → wf_message m → wf_message (set_LinkPrefixes v4 v6 m).
Proof. by intros ?? []; split. Qed.
Lemma wf_set_OperationID v m :
  length v = 16%nat → wf_message m → wf_message (set_OperationID v m).
Proof. by intros ? []; split. Qed.
Lemma wf_set_Data v m : wf_message m → wf_message (set_Data v m).
Proof. by intros []; split. Qed.
Lemma wf_set_Endpoint v m : wf_endpoint v → wf_message m → wf_message (set_Endpoint v m).
Proof. by intros ? []; split. Qed.
Lemma wf_set_Keys p k m :
  length p = 32%nat → length k = 32%nat → wf_message m → wf_message (set_Keys p k m).
Proof. by intros ?? []; split. Qed.

#[global] Hint Resolve wf_set_FixedEndpoints wf_set_AgreementID wf_set_Flags wf_set_Status
  wf_set_Decline wf_set_UID wf_set_LoopbackV6 wf_set_LinkPrefixes wf_set_OperationID
  wf_set_Data wf_set_Endpoint wf_set_Keys : velvet.
