(* ===== verification/DurableWire.v ===== *)
(** internal/vfp/message/durable.go: the body of the five durable messages,
    where a field may be used twice, in order. *)

From S2P Require Import Prelude Netip Tlv Field MessageData.
Open Scope Z_scope.
Open Scope velvet_scope.

Definition durableOccurrences (t : MsgType) (field : Z) : nat :=
  if field =? OperationIDTLV then
    if is_type t DurableCheck || is_type t DurableStatus then 2%nat else 1%nat
  else if (field =? NodeUIDTLV) || (field =? WGEndpointTLV) then
    if is_type t DurablePropose then 2%nat else 0%nat
  else if field =? FlagsTLV then if is_type t DurablePropose then 1%nat else 0%nat
  else if field =? StatusTLV then if is_type t DurableStatus then 1%nat else 0%nat
  else if (field =? DeclineReasonTLV) || (field =? DynamicLinkPolicyTLV) then
    if is_type t DurableDecline then 1%nat else 0%nat
  else 0%nat.

(** [fields[k]] of a [map[uint16][][]byte]. *)
Definition values (fields : gmap Z (list (list byte))) (k : Z) : list (list byte) :=
  default [] (fields !! k).

(** The loop body of [decodeDurable]. *)
Definition collect (kind : MsgType) (fields : gmap Z (list (list byte))) (v : View) :
    gmap Z (list (list byte)) :=
  if decide (length (values fields (View_Type v)) < durableOccurrences kind (View_Type v))%nat
  then <[View_Type v := values fields (View_Type v) ++ [View_Value v]]> fields
  else fields.

(** [bytes.Compare(a, b) >= 0]. *)
Definition bytes_ge (a b : list byte) : bool :=
  match bytes_Compare a b with Lt => false | _ => true end.

(** [for i := range uids]; [acc] is [m.FixedEndpoints]. *)
Fixpoint decodeFixed (uids endpoints : list (list byte)) (acc : list FixedEndpoint) :
    result (list FixedEndpoint) :=
  match uids, endpoints with
  | u :: uids, e :: endpoints =>
    uid ← map_err (λ _, ErrFrame "") (parseUID u);
    ep ← map_err (λ _, ErrFrame "") (parseEndpoint e);
    match last acc with
    | Some prev =>
      if bytes_ge (UUID (Fixed_UID prev)) (UUID uid) then Err (ErrFrame "")
      else decodeFixed uids endpoints (acc ++ [mkFixedEndpoint uid ep])
    | None => decodeFixed uids endpoints (acc ++ [mkFixedEndpoint uid ep])
    end
  | [], _ => Ok acc
  | _ :: _, [] => Panic
  end.

(** [len(v) != 1 || len(v[0]) != 1 || v[0][0] > max], else [v[0][0]]. *)
Definition single_octet (v : list (list byte)) (max : Z) : result Z :=
  bad ← Ok (negb (len v =? 1)) ||! (x ← Index v 0; Ok (negb (len x =? 1)))
        ||! (x ← Index v 0; x ← Octet x 0; Ok (max <? x));
  if bad : bool then Err (ErrFrame "") else
  x ← Index v 0;
  Octet x 0.

Definition decodeDurableID (v : list byte) : result (list byte) :=
  id ← map_err (λ _, ErrFrame "") (parseOperationID v);
  if allZero id then Err (ErrFrame "") else Ok id.

Definition declinePolicyMissing (reason : Z) (p : option DynamicLinkPolicy) : bool :=
  (reason =? DeclinePolicy) && match p with None => true | Some p => Accept p end.

Definition decodeDurableFields (kind : MsgType) (fields : gmap Z (list (list byte))) :
    result Message :=
  let ids := values fields OperationIDTLV in
  if negb (bool_decide (length ids = durableOccurrences kind OperationIDTLV))
  then Err (ErrFrame "") else
  id ← (match ids with [] => Panic | v :: _ => decodeDurableID v end);
  let m := set_OperationID id (newMessage kind) in
  m ← (match ids with
       | [_; v] => id ← decodeDurableID v; Ok (set_AgreementID id m)
       | _ => Ok m
       end);
  match kind with
  | DurablePropose =>
    let uids := values fields NodeUIDTLV in
    let endpoints := values fields WGEndpointTLV in
    if bool_decide (length uids = 0%nat) ||
       negb (bool_decide (length uids = length endpoints))
    then Err (ErrFrame "") else
    fixed ← decodeFixed uids endpoints [];
    let m := set_FixedEndpoints fixed m in
    match values fields FlagsTLV with
    | [] => Ok m
    | f :: _ =>
      if negb (len f =? 4) then Err (ErrFrame "") else
      flags ← Uint32 f;
      Ok (set_Flags flags m)
    end
  | DurableStatus =>
    s ← single_octet (values fields StatusTLV) Absent;
    Ok (set_Status s m)
  | DurableDecline =>
    reason ← single_octet (values fields DeclineReasonTLV) DeclinePolicy;
    policy ← (match values fields DynamicLinkPolicyTLV with
              | [] => Ok None
              | p :: _ => p ← parseDynamicLinkPolicy p; Ok (Some p)
              end);
    if declinePolicyMissing reason policy then Err (ErrFrame "")
    else Ok (set_Decline reason policy m)
  | _ => Ok m
  end.

Definition decodeDurable (kind : MsgType) (body : list byte) : result Message :=
  fields ← map_err (λ _, ErrFrame "") (scan (collect kind) body ∅);
  decodeDurableFields kind fields.

Fixpoint encodeFixed (b : list byte) (l : list FixedEndpoint) : result (list byte) :=
  match l with
  | [] => Ok b
  | fixed :: l =>
    uid ← encodeUID (Fixed_UID fixed);
    ep ← encodeEndpoint (Fixed_Endpoint fixed);
    encodeFixed (Append (Append b NodeUIDTLV uid) WGEndpointTLV ep) l
  end.

Definition encodeDurable (m : Message) : result (list byte) :=
  let b := Append [] OperationIDTLV (OperationID m) in
  let b := if is_type (Type_ m) DurableCheck || is_type (Type_ m) DurableStatus
           then Append b OperationIDTLV (AgreementID m) else b in
  b ← (match Type_ m with
       | DurablePropose =>
         if (len (FixedEndpoints m) <? 1) || (2 <? len (FixedEndpoints m))
         then Err (ErrFrame "") else
         b ← encodeFixed b (FixedEndpoints m);
         if negb (Msg_Flags m =? 0) then Ok (Append b FlagsTLV (be_put 4 (Msg_Flags m)))
         else Ok b
       | DurableStatus => Ok (Append b StatusTLV [z2b (Msg_Status m)])
       | DurableDecline =>
         let b := Append b DeclineReasonTLV [z2b (Msg_DeclineReason m)] in
         match Msg_Policy m with
         | None => Ok b
         | Some _ =>
           v ← encodeDynamicLinkPolicy (Msg_Policy m);
           Ok (Append b DynamicLinkPolicyTLV v)
         end
       | _ => Ok b
       end);
  _ ← decodeDurable (Type_ m) b;
  Ok b.

(** * What the loop collects *)

(** The values of every occurrence of [k], in order. *)
Fixpoint field_all (k : Z) (fs : list field) : list (list byte) :=
  match fs with
  | [] => []
  | f :: fs => if f.1 =? k then f.2 :: field_all k fs else field_all k fs
  end.

Definition collect_fields (kind : MsgType) (fs : list field) :
    gmap Z (list (list byte)) :=
  foldl (λ s f, collect kind s (mkView f.1 0 f.2)) ∅ fs.

(** The length checks keep [v[0][0]] and the octets of the flags in bounds. *)
Lemma single_octet_eq v max :
  single_octet v max =
  match v with
  | [[x]] => if max <? b2z x then Err (ErrFrame "") else Ok (b2z x)
  | _ => Err (ErrFrame "")
  end.
Proof.
  assert (N : ∀ {A} (a b : A) l, (len (a :: b :: l) =? 1) = false).
  { intros. apply Z.eqb_neq. unfold len. cbn [length]. lia. }
  unfold single_octet. destruct v as [|x [|y v]]; [done| |].
  - destruct x as [|o [|o' x]]; [done| |].
    + cbn. by destruct (max <? b2z o).
    + change (Index [o :: o' :: x] 0) with (Ok (o :: o' :: x)).
      change (len [o :: o' :: x] =? 1) with true. by rewrite !bind_Ok, N.
  - rewrite N. by destruct x as [|? [|]].
Qed.

Lemma Uint32_put z : Uint32 (be_put 4 z) = Ok (be_get (be_put 4 z)).
Proof. by apply (UintBE_all 4), length_be_put. Qed.

Lemma values_insert fields k v k' :
  values (<[k := v]> fields) k' = if k =? k' then v else values fields k'.
Proof.
  unfold values. destruct (Z.eqb_spec k k') as [->|N].
  - by rewrite lookup_insert_eq.
  - by rewrite lookup_insert_ne.
Qed.

Lemma values_collect_from kind fs s k :
  (length (values s k) <= durableOccurrences kind k)%nat →
  values (foldl (λ s f, collect kind s (mkView f.1 0 f.2)) s fs) k =
  take (durableOccurrences kind k) (values s k ++ field_all k fs).
Proof.
  revert s; induction fs as [|[k' v] fs IH]; intros s L; cbn [foldl field_all].
  - by rewrite app_nil_r, take_ge.
  - unfold collect at 2; cbn [View_Type View_Value fst snd].
    destruct (decide _) as [Lt|Ge].
    + rewrite IH; rewrite values_insert; destruct (Z.eqb_spec k' k) as [->|N]; try done.
      * by rewrite <-app_assoc.
      * rewrite length_app. simpl. lia.
    + rewrite IH by done. destruct (Z.eqb_spec k' k) as [->|N]; [|done].
      rewrite !take_app_ge by lia.
      replace (_ - _)%nat with 0%nat by lia. done.
Qed.

(** A field reads as its first occurrences, as many as the message uses. *)
Lemma values_collect kind fs k :
  values (collect_fields kind fs) k = take (durableOccurrences kind k) (field_all k fs).
Proof. apply values_collect_from. unfold values. rewrite lookup_empty. simpl. lia. Qed.

Lemma scan_collect kind fs :
  Forall wf_field fs →
  decodeDurable kind (fields_bytes fs) = decodeDurableFields kind (collect_fields kind fs).
Proof.
  intros W. unfold decodeDurable. rewrite scan_fields by done. cbn [map_err].
  rewrite bind_Ok. f_equal.
  exact (foldl_place (λ s f, collect kind s (mkView f.1 0 f.2)) 0 fs ∅).
Qed.
