(* ===== verification/Message.v ===== *)
(** internal/vfp/message/message.go: the frame header, [Read], [Decode],
    [Encode], the UDP binding and [Write]. *)

From S2P Require Import Prelude Netip Tlv Field Control MessageData DurableWire.
Open Scope Z_scope.
Open Scope velvet_scope.

(** * Definitions *)

Definition frameLength (frame : list byte) : result Z :=
  if len frame <? HeaderLength then Err (ErrFrame "short header")
  else
    magic ← Slice frame 0 4 ≫= Uint32;
    if negb (magic =? Magic) then Err (ErrFrame "invalid magic") else
    version ← Octet frame 4;
    if negb (version =? Version) then Err (ErrFrame "unsupported version") else
    length_ ← Slice frame 6 8 ≫= Uint16;
    if (length_ <? HeaderLength) || (MaxFrameLength <? length_)
    then Err (ErrFrame "declared length")
    else Ok length_.

(** [Read] on a connection whose remaining octets are [r]; [io.ReadFull] fails
    when the stream ends first.  The octets left are returned. *)
Definition Read (r : list byte) : result (list byte) * list byte :=
  if len r <? HeaderLength then (Err (ErrConnection "read header"), [])
  else
    let header := take 8 r in
    let r := drop 8 r in
    match frameLength header with
    | Err _ => (Err (ErrConnection "frame"), r)
    | Panic => (Panic, r)
    | Ok length_ =>
      let frame := Copy (Z.to_nat length_) header in
      match SliceFrom frame 8 with
      | Ok body =>
        if len r <? len body then (Err (ErrConnection "read body"), [])
        else (Ok (take 8 frame ++ take (length body) r), drop (length body) r)
      | Err e => (Err e, r)
      | Panic => (Panic, r)
      end
    end.

Definition usedBy (messageType : MsgType) (tlvType : Z) : bool :=
  match messageType with
  | Open | PolicyQuery => tlvType =? NodeUIDTLV
  | PolicyUpdate => (tlvType =? NodeUIDTLV) || (tlvType =? DynamicLinkPolicyTLV)
  | NodeState => tlvType =? LoopbackV6TLV
  | LinkPropose => (tlvType =? LinkPrefixV4TLV) || (tlvType =? LinkPrefixV6TLV)
  | LinkAccept => false
  | LinkPing => tlvType =? OperationIDTLV
  | LinkPong => (tlvType =? OperationIDTLV) || (tlvType =? WGEndpointTLV)
  | DynamicLinkPropose | DynamicLinkAccept =>
    (tlvType =? OperationIDTLV) || (tlvType =? WGPublicKeyTLV) ||
    (tlvType =? WGEndpointTLV) || (tlvType =? ProbeKeyTLV)
  | DiscoveryControl => (tlvType =? OperationIDTLV) || (tlvType =? DiscoveryDataTLV)
  | PublicProbe => tlvType =? SealedProbeTLV
  | DynamicLinkDecline =>
    (tlvType =? OperationIDTLV) || (tlvType =? DeclineReasonTLV) ||
    (tlvType =? DynamicLinkPolicyTLV)
  | _ => false
  end.

(** The loop body of [Decode]: keep the first value of each used field. *)
Definition select (t : MsgType) (selected : gmap Z (list byte)) (view : View) :
    gmap Z (list byte) :=
  if negb (usedBy t (View_Type view)) then selected
  else match selected !! View_Type view with
       | Some _ => selected
       | None => <[View_Type view := View_Value view]> selected
       end.

(** [fmt.Errorf("%w: %v", ErrFrame, err)]. *)
Definition frame_err {A} : result A → result A := map_err (λ e, ErrFrame (Error e)).
(** [if err != nil { return Message{}, ErrFrame }]. *)
Definition bare_err {A} : result A → result A := map_err (λ _, ErrFrame "").

(** The [switch result.Type] of [Decode].  A missing field reads as a nil slice. *)
Definition decodeSelected (t : MsgType) (selected : gmap Z (list byte)) : result Message :=
  let raw k := default [] (selected !! k) in
  let result := newMessage t in
  match t with
  | Open | PolicyQuery | PolicyUpdate =>
    match selected !! NodeUIDTLV with
    | None => Err (ErrFrame "message requires NODE_UID")
    | Some value =>
      uid ← frame_err (parseUID value);
      let uid := if IsPolicy t then mkUID (UUID uid) "" else uid in
      if is_type t PolicyUpdate then
        policy ← parseDynamicLinkPolicy (raw DynamicLinkPolicyTLV);
        Ok (set_UID (Some uid) (Some policy) result)
      else Ok (set_UID (Some uid) None result)
    end
  | NodeState =>
    addr ← frame_err (parseAddress (selected !! LoopbackV6TLV) false);
    if negb (Addr_IsValid addr) then Err (ErrFrame "NODE_STATE requires LOOPBACK_V6")
    else Ok (set_LoopbackV6 addr result)
  | LinkPropose =>
    v4 ← frame_err (parsePrefix (selected !! LinkPrefixV4TLV) true);
    v6 ← frame_err (parsePrefix (selected !! LinkPrefixV6TLV) false);
    Ok (set_LinkPrefixes v4 v6 result)
  | LinkAccept | DiscoveryHello | DiscoveryHelloAck => Ok result
  | LinkPing | LinkPong =>
    id ← bare_err (parseOperationID (raw OperationIDTLV));
    if allZero id then Err (ErrFrame "") else
    let result := set_OperationID id result in
    match selected !! WGEndpointTLV with
    | Some value =>
      if is_type t LinkPong then
        ep ← bare_err (parseEndpoint value);
        if negb (AddrPort_IsValid ep) then Err (ErrFrame "")
        else Ok (set_Endpoint ep result)
      else Ok result
    | None => Ok result
    end
  | DynamicLinkPropose | DynamicLinkAccept =>
    if negb (len (raw ProbeKeyTLV) =? 32) then Err (ErrFrame "") else
    id ← frame_err (parseOperationID (raw OperationIDTLV));
    key ← frame_err (parsePublicKey (raw WGPublicKeyTLV));
    ep ← map_err (λ _, ErrFrame "dynamic Link message requires a valid WG_ENDPOINT")
           (parseEndpoint (raw WGEndpointTLV));
    if negb (AddrPort_IsValid ep) then
      Err (ErrFrame "dynamic Link message requires a valid WG_ENDPOINT")
    else
      let probe := Copy 32 (raw ProbeKeyTLV) in
      Ok (set_Endpoint ep (set_Keys probe key (set_OperationID id result)))
  | DiscoveryControl =>
    id ← bare_err (parseOperationID (raw OperationIDTLV));
    _ ← DecodeControl (raw DiscoveryDataTLV);
    Ok (set_Data (raw DiscoveryDataTLV) (set_OperationID id result))
  | PublicProbe =>
    let data := raw SealedProbeTLV in
    if negb (len data =? 50) && negb (len data =? 62) then Err (ErrFrame "")
    else Ok (set_Data data result)
  | DynamicLinkDecline =>
    reason ← single_octet [raw DeclineReasonTLV] DeclinePolicy;
    policy ← (match selected !! DynamicLinkPolicyTLV with
              | None => Ok None
              | Some value => p ← parseDynamicLinkPolicy value; Ok (Some p)
              end);
    if declinePolicyMissing reason policy then Err (ErrFrame "") else
    id ← frame_err (parseOperationID (raw OperationIDTLV));
    Ok (set_OperationID id (set_Decline reason policy result))
  | _ => Ok result
  end.

Definition Decode (frame : list byte) : result Message :=
  length_ ← bare_err (frameLength frame);
  if negb (length_ =? len frame) then Err (ErrFrame "") else
  t ← Octet frame 5;
  let t := byte_type (z2b t) in
  if unknownType t then Err (ErrFrame "unknown message type") else
  body ← SliceFrom frame 8;
  if IsDurable t then decodeDurable t body else
  selected ← frame_err (scan (select t) body ∅);
  decodeSelected t selected.

(** The [switch m.Type] of [Encode]. *)
Definition encodeBody (m : Message) : result (list byte) :=
  let body := [] in
  match Type_ m with
  | DurablePropose | DurableSaved | DurableDecline | DurableCheck | DurableStatus =>
    encodeDurable m
  | Open | PolicyQuery | PolicyUpdate =>
    match Msg_UID m with
    | None => Err (errors_New "message requires NODE_UID")
    | Some uid =>
      let uid := if IsPolicy (Type_ m) then mkUID (UUID uid) "" else uid in
      value ← encodeUID uid;
      let body := Append body NodeUIDTLV value in
      if is_type (Type_ m) PolicyUpdate then
        value ← encodeDynamicLinkPolicy (Msg_Policy m);
        Ok (Append body DynamicLinkPolicyTLV value)
      else Ok body
    end
  | NodeState =>
    if Addr_IsValid (LoopbackV6 m) then
      if negb (Is6 (LoopbackV6 m)) then Err (errors_New "invalid IPv6 loopback") else
      value ← As16 (LoopbackV6 m);
      Ok (Append body LoopbackV6TLV value)
    else Err (errors_New "NODE_STATE requires an IPv6 loopback")
  | LinkPropose =>
    body ←
      (if Prefix_IsValid (LinkPrefixV4 m) then
         if negb (Bits (LinkPrefixV4 m) =? 30) ||
            negb (bool_decide (LinkPrefixV4 m = Masked (LinkPrefixV4 m)))
         then Err (errors_New "invalid IPv4 link prefix") else
         value ← As4 (Prefix_Addr (LinkPrefixV4 m));
         Ok (Append body LinkPrefixV4TLV value)
       else Ok body);
    if Prefix_IsValid (LinkPrefixV6 m) then
      if negb (Bits (LinkPrefixV6 m) =? 126) ||
         negb (bool_decide (LinkPrefixV6 m = Masked (LinkPrefixV6 m)))
      then Err (errors_New "invalid IPv6 link prefix") else
      value ← As16 (Prefix_Addr (LinkPrefixV6 m));
      Ok (Append body LinkPrefixV6TLV value)
    else Ok body
  | LinkAccept | DiscoveryHello | DiscoveryHelloAck => Ok body
  | LinkPing | LinkPong =>
    if allZero (OperationID m) then Err (errors_New "Link probe requires nonzero challenge")
    else
      let body := Append body OperationIDTLV (OperationID m) in
      if is_type (Type_ m) LinkPong && AddrPort_IsValid (Endpoint m) then
        value ← encodeEndpoint (Endpoint m);
        Ok (Append body WGEndpointTLV value)
      else Ok body
  | DynamicLinkPropose | DynamicLinkAccept =>
    let body := Append body OperationIDTLV (OperationID m) in
    if allZero (WGPublicKey m) then
      Err (errors_New "dynamic Link message requires a non-zero WireGuard public key")
    else
      let body := Append body WGPublicKeyTLV (WGPublicKey m) in
      value ← encodeEndpoint (Endpoint m);
      let body := Append body WGEndpointTLV value in
      Ok (Append body ProbeKeyTLV (ProbeKey m))
  | DiscoveryControl =>
    _ ← DecodeControl (Data m);
    Ok (Append (Append body OperationIDTLV (OperationID m)) DiscoveryDataTLV (Data m))
  | PublicProbe =>
    if negb (len (Data m) =? 50) && negb (len (Data m) =? 62) then Err (ErrFrame "")
    else Ok (Append body SealedProbeTLV (Data m))
  | DynamicLinkDecline =>
    if (DeclinePolicy <? Msg_DeclineReason m) ||
       declinePolicyMissing (Msg_DeclineReason m) (Msg_Policy m)
    then Err (ErrFrame "") else
    let body := Append (Append body OperationIDTLV (OperationID m))
                  DeclineReasonTLV [z2b (Msg_DeclineReason m)] in
    match Msg_Policy m with
    | None => Ok body
    | Some _ =>
      value ← encodeDynamicLinkPolicy (Msg_Policy m);
      Ok (Append body DynamicLinkPolicyTLV value)
    end
  | TypeUnassigned _ => Err (errors_New "unknown message type")
  end.

Definition frame_of (t : MsgType) (body : list byte) : list byte :=
  be_put 4 Magic ++ [z2b Version; type_byte t] ++ be_put 2 (HeaderLength + len body) ++ body.

Definition Encode (m : Message) : result (list byte) :=
  body ← encodeBody m;
  let length_ := HeaderLength + len body in
  if MaxFrameLength <? length_ then Err (errors_New "frame too large")
  else Ok (frame_of (Type_ m) body).

Definition udp_type (t : MsgType) : bool :=
  IsDiscovery t || IsLinkProbe t || IsPolicy t || is_type t PublicProbe.

Definition DecodeDatagram (packet : list byte) : result Message :=
  if MaxDatagramLength <? len packet then Err (ErrFrame "datagram too large") else
  m ← Decode packet;
  if negb (IsDiscovery (Type_ m)) && negb (IsLinkProbe (Type_ m)) &&
     negb (IsPolicy (Type_ m)) && negb (is_type (Type_ m) PublicProbe)
  then Err (ErrFrame "message is not valid over UDP") else Ok m.

Definition EncodeDatagram (m : Message) : result (list byte) :=
  if negb (IsDiscovery (Type_ m)) && negb (IsLinkProbe (Type_ m)) &&
     negb (IsPolicy (Type_ m)) && negb (is_type (Type_ m) PublicProbe)
  then Err (ErrFrame "message is not valid over UDP") else
  frame ← Encode m;
  if MaxDatagramLength <? len frame then Err (ErrFrame "") else Ok frame.

(** What a call of [w.Write(frame)] answers: octets taken and an error. *)
Record write_answer := mkAnswer { taken : nat; failure : option error }.

(** [for len(frame) > 0]: the octets written so far in [out]; [None] while the
    writer has not answered. *)
Fixpoint writeLoop (w : list write_answer) (frame out : list byte) :
    option (list byte * result unit) :=
  match frame with
  | [] => Some (out, Ok tt)
  | _ =>
    match w with
    | [] => None
    | mkAnswer n e :: w =>
      match e with
      | Some e => Some (out ++ take n frame, Err e)
      | None =>
        if bool_decide (length frame < n)%nat then Some (out, Panic)
        else writeLoop w (drop n frame) (out ++ take n frame)
      end
    end
  end.

Definition Write (w : list write_answer) (m : Message) : option (list byte * result unit) :=
  if IsDiscovery (Type_ m) || IsLinkProbe (Type_ m) || IsPolicy (Type_ m) ||
     is_type (Type_ m) PublicProbe
  then Some ([], Err (ErrFrame "discovery is not valid over TCP")) else
  match Encode m with
  | Err e => Some ([], Err e)
  | Panic => Some ([], Panic)
  | Ok frame => writeLoop w frame []
  end.

(** * What a message carries *)

(** The fields of [m] that its type puts on the wire. *)
Definition bare_uid (u : UID) : UID := mkUID (UUID u) "".
Definition carried_prefix (p : Prefix) : Prefix :=
  if Prefix_IsValid p then p else Prefix_zero.
Definition carried (m : Message) : Message :=
  let n := newMessage (Type_ m) in
  match Type_ m with
  | Open => set_UID (Msg_UID m) None n
  | PolicyQuery => set_UID (option_map bare_uid (Msg_UID m)) None n
  | PolicyUpdate => set_UID (option_map bare_uid (Msg_UID m)) (Msg_Policy m) n
  | NodeState => set_LoopbackV6 (LoopbackV6 m) n
  | LinkPropose =>
    set_LinkPrefixes (carried_prefix (LinkPrefixV4 m)) (carried_prefix (LinkPrefixV6 m)) n
  | LinkAccept | DiscoveryHello | DiscoveryHelloAck | TypeUnassigned _ => n
  | LinkPing | DurableSaved => set_OperationID (OperationID m) n
  | LinkPong =>
    set_Endpoint (if AddrPort_IsValid (Endpoint m) then Endpoint m else AddrPort_zero)
      (set_OperationID (OperationID m) n)
  | DynamicLinkPropose | DynamicLinkAccept =>
    set_Endpoint (Endpoint m)
      (set_Keys (ProbeKey m) (WGPublicKey m) (set_OperationID (OperationID m) n))
  | DiscoveryControl => set_Data (Data m) (set_OperationID (OperationID m) n)
  | PublicProbe => set_Data (Data m) n
  | DynamicLinkDecline | DurableDecline =>
    set_Decline (Msg_DeclineReason m) (Msg_Policy m) (set_OperationID (OperationID m) n)
  | DurablePropose =>
    set_Flags (Msg_Flags m)
      (set_FixedEndpoints (FixedEndpoints m) (set_OperationID (OperationID m) n))
  | DurableCheck => set_AgreementID (AgreementID m) (set_OperationID (OperationID m) n)
  | DurableStatus =>
    set_Status (Msg_Status m)
      (set_AgreementID (AgreementID m) (set_OperationID (OperationID m) n))
  end.

(** [Encode] checks neither a loopback nor a link prefix with [validAddress];
    [Decode] does. *)
Definition sendable (m : Message) : Prop :=
  match Type_ m with
  | NodeState => validAddress (LoopbackV6 m) = true
  | LinkPropose =>
    (Prefix_IsValid (LinkPrefixV4 m) = true →
       validAddress (Prefix_Addr (LinkPrefixV4 m)) = true) ∧
    (Prefix_IsValid (LinkPrefixV6 m) = true →
       validAddress (Prefix_Addr (LinkPrefixV6 m)) = true)
  | _ => True
  end.

(** * Frames *)

Lemma frame_of_fields t body :
  0 <= HeaderLength + len body < 2 ^ 16 →
  let f := frame_of t body in
  len f = HeaderLength + len body ∧ be_get f.[0:4] = Magic ∧ be_get f.[4:5] = Version ∧
  be_get f.[5:6] = b2z (type_byte t) ∧ be_get f.[6:8] = HeaderLength + len body ∧
  drop 8 f = body.
Proof.
  intros R f. subst f. unfold frame_of. split_and!.
  - unfold len. rewrite !length_app, !length_be_put. unfold HeaderLength. simpl. lia.
  - rewrite slice_app_l by (by rewrite length_be_put). by apply be_get_put_small.
  - rewrite (slice_app_r _ _ _ _ 4) by (rewrite ?length_be_put; lia).
    change (_ ++ ?x) with ([z2b Version] ++ [type_byte t] ++ x).
    rewrite slice_app_l by done. by rewrite be_get_one.
  - rewrite (slice_app_r _ _ _ _ 4) by (rewrite ?length_be_put; lia).
    change (_ ++ ?x) with ([z2b Version] ++ [type_byte t] ++ x).
    rewrite (slice_app_r _ _ _ _ 1) by (simpl; lia). rewrite slice_app_l by done.
    by rewrite be_get_one.
  - rewrite (slice_app_r _ _ _ _ 4) by (rewrite ?length_be_put; lia).
    rewrite (slice_app_r _ _ _ _ 2) by (simpl; lia).
    rewrite slice_app_l by (by rewrite length_be_put). by apply be_get_put_small.
  - rewrite app_assoc, app_assoc. rewrite drop_app_length'; [done|].
    by rewrite !length_app, !length_be_put.
Qed.

(** The header checks keep every read of the frame in bounds. *)
Lemma frameLength_eq frame :
  frameLength frame =
  if len frame <? HeaderLength then Err (ErrFrame "short header")
  else if negb (be_get frame.[0:4] =? Magic) then Err (ErrFrame "invalid magic")
  else if negb (be_get frame.[4:5] =? Version) then Err (ErrFrame "unsupported version")
  else
    let length_ := be_get frame.[6:8] in
    if (length_ <? HeaderLength) || (MaxFrameLength <? length_)
    then Err (ErrFrame "declared length")
    else Ok length_.
Proof.
  unfold frameLength. destruct (len frame <? HeaderLength) eqn:L; [done|].
  bool_to_prop. unfold len, HeaderLength in L. unfold Uint32, Uint16.
  rewrite (UintBE_slice 4), (UintBE_slice 2), !bind_Ok by lia.
  by rewrite Octet_ok, bind_Ok by lia.
Qed.

Lemma frameLength_ok f n :
  frameLength f = Ok n →
  HeaderLength <= len f ∧ be_get f.[0:4] = Magic ∧ be_get f.[4:5] = Version ∧
  n = be_get f.[6:8] ∧ HeaderLength <= n <= MaxFrameLength.
Proof. rewrite frameLength_eq; cbv zeta. intros H. inv_ok. bool_to_prop. subst n. split_and!; done. Qed.

Lemma frameLength_frame_of t body :
  HeaderLength + len body <= MaxFrameLength →
  frameLength (frame_of t body) = Ok (HeaderLength + len body).
Proof.
  intros L. pose proof (len_nonneg body). unfold MaxFrameLength, HeaderLength in *.
  destruct (frame_of_fields t body) as (F1 & F2 & F3 & _ & F5 & _);
    unfold HeaderLength in *; [lia|].
  rewrite frameLength_eq; cbv zeta. unfold HeaderLength, MaxFrameLength.
  rewrite F1, F2, F3, F5.
  rewrite (proj2 (Z.ltb_ge _ _)), (proj2 (Z.ltb_ge 4096 _)) by lia. done.
Qed.

Lemma Decode_eq frame :
  Decode frame =
  (length_ ← bare_err (frameLength frame);
   if negb (length_ =? len frame) then Err (ErrFrame "") else
   let t := byte_type (z2b (be_get frame.[5:6])) in
   if unknownType t then Err (ErrFrame "unknown message type") else
   if IsDurable t then decodeDurable t (drop 8 frame) else
   selected ← frame_err (scan (select t) (drop 8 frame) ∅);
   decodeSelected t selected).
Proof.
  unfold Decode. destruct (frameLength frame) as [n|e|] eqn:F; [|done..].
  apply frameLength_ok in F as (L & _). unfold len, HeaderLength in L.
  unfold bare_err. cbn [map_err]. rewrite !bind_Ok. destruct (negb _); [done|].
  rewrite Octet_ok, bind_Ok by lia. cbv zeta. destruct (unknownType _); [done|].
  by rewrite SliceFrom_ok, bind_Ok by lia.
Qed.

(** An accepted header frames the rest. *)
Lemma frame_split f n :
  frameLength f = Ok n → n = len f →
  f = frame_of (byte_type (f !!! 5%nat)) (drop 8 f) ∧
  z2b (be_get f.[5:6]) = f !!! 5%nat.
Proof.
  intros (L & M & V & N & R)%frameLength_ok E. unfold HeaderLength, MaxFrameLength in *.
  assert (8 <= length f)%nat by (unfold len in *; lia).
  assert (f.[5:6] = [f !!! 5%nat]) as S5.
  { unfold slice. destruct (lookup_lt_is_Some_2 f 5 ltac:(lia)) as [x X].
    rewrite (list_lookup_total_correct _ _ _ X). rewrite (drop_S f x 5 X). done. }
  split; [|by rewrite S5, be_get_one, z2b_b2z].
  unfold frame_of. rewrite byte_type_byte.
  assert (HeaderLength + len (drop 8 f) = be_get f.[6:8]) as ->
    by (unfold HeaderLength, len in *; rewrite length_drop; lia).
  rewrite be_put_get_n by (rewrite length_slice; lia). rewrite <-M.
  rewrite be_put_get_n by (rewrite length_slice; lia).
  assert (f.[4:6] = [z2b Version; f !!! 5%nat]) as <-.
  { rewrite <-(slice_split f 4 5 6), S5 by lia.
    change [z2b Version; f !!! 5%nat] with ([z2b Version] ++ [f !!! 5%nat]). f_equal.
    apply be_get_inj; [by rewrite length_slice by lia|]. by rewrite V, be_get_one. }
  rewrite !app_assoc, !slice_split by lia. unfold slice. by rewrite drop_0, take_drop.
Qed.

(** * The selected fields *)

Definition select_fields (t : MsgType) (fs : list field) : gmap Z (list byte) :=
  foldl (λ s f, select t s (mkView f.1 0 f.2)) ∅ fs.

Fixpoint field_first (k : Z) (fs : list field) : option (list byte) :=
  match fs with
  | [] => None
  | f :: fs => if f.1 =? k then Some f.2 else field_first k fs
  end.

Lemma lookup_select_from t fs s k :
  foldl (λ s f, select t s (mkView f.1 0 f.2)) s fs !! k =
  match s !! k with
  | Some v => Some v
  | None => if usedBy t k then field_first k fs else None
  end.
Proof.
  revert s; induction fs as [|[k' v] fs IH]; intros s; cbn [foldl].
  - cbn. by destruct (s !! k), (usedBy t k).
  - rewrite IH. unfold select; cbn [View_Type View_Value fst snd field_first].
    destruct (Z.eqb_spec k' k) as [->|N].
    + destruct (usedBy t k) eqn:U; cbn [negb]; [|done].
      destruct (s !! k) eqn:E; [by rewrite E|]. by rewrite lookup_insert_eq.
    + destruct (usedBy t k') eqn:U; cbn [negb]; [|done].
      destruct (s !! k') eqn:E; [done|]. by rewrite lookup_insert_ne.
Qed.

(** A used field reads as its first occurrence, any other as absent. *)
Lemma lookup_select_fields t fs k :
  select_fields t fs !! k = if usedBy t k then field_first k fs else None.
Proof. unfold select_fields. by rewrite lookup_select_from, lookup_empty. Qed.

Lemma scan_select t fs :
  Forall wf_field fs → scan (select t) (fields_bytes fs) ∅ = Ok (select_fields t fs).
Proof.
  intros W. rewrite scan_fields by done. f_equal.
  exact (foldl_place (λ s f, select t s (mkView f.1 0 f.2)) 0 fs ∅).
Qed.

Lemma unknown_frame_type t b : byte_type b = t → byte_type (type_byte t) = t.
Proof. intros <-. by rewrite byte_type_byte. Qed.

(** [Decode] on a laid-out frame. *)
Lemma Decode_frame t fs :
  byte_type (type_byte t) = t → Forall wf_field fs →
  HeaderLength + len (fields_bytes fs) <= MaxFrameLength →
  Decode (frame_of t (fields_bytes fs)) =
    if unknownType t then Err (ErrFrame "unknown message type") else
    if IsDurable t then decodeDurable t (fields_bytes fs)
    else decodeSelected t (select_fields t fs).
Proof.
  intros C W L. rewrite Decode_eq; cbv zeta. unfold bare_err. rewrite frameLength_frame_of by done.
  cbn [map_err]. rewrite bind_Ok.
  destruct (frame_of_fields t (fields_bytes fs)) as (F1 & _ & _ & F4 & _ & F6).
  { unfold HeaderLength, MaxFrameLength, len in *. lia. }
  rewrite F1, F4, F6, Z.eqb_refl. cbn [negb]. rewrite z2b_b2z, C.
  destruct (unknownType t); [done|]. destruct (IsDurable t); [done|].
  rewrite scan_select by done. cbn [frame_err map_err]. by rewrite bind_Ok.
Qed.

Lemma Decode_inv f m :
  Decode f = Ok m →
  ∃ t fs, f = frame_of t (fields_bytes fs) ∧ byte_type (type_byte t) = t ∧
    Forall wf_field fs ∧ HeaderLength + len (fields_bytes fs) <= MaxFrameLength ∧
    unknownType t = false ∧
    (if IsDurable t then decodeDurable t (fields_bytes fs)
     else decodeSelected t (select_fields t fs)) = Ok m.
Proof.
  intros D. pose proof D as D'. rewrite Decode_eq in D'; cbv zeta in D'; unfold bare_err in D'. inv_ok.
  match goal with H : frameLength _ = Ok _ |- _ => rename H into FL end.
  bool_to_prop. destruct (frame_split f _ FL ltac:(done)) as [E E5].
  rewrite E5 in *. set (t := byte_type (f !!! 5%nat)) in *.
  assert (C : byte_type (type_byte t) = t) by apply byte_type_canonical.
  apply frameLength_ok in FL as (L & _ & _ & _ & R).
  destruct (scan_cases (select t) (drop 8 f) ∅) as [(fs & W & Eb & S)|S].
  - exists t, fs. rewrite Eb in E.
    assert (HeaderLength + len (fields_bytes fs) <= MaxFrameLength).
    { rewrite <-Eb. unfold HeaderLength, len in *. rewrite length_drop. lia. }
    split_and!; try done. rewrite E, Decode_frame in D by done.
    by destruct (unknownType t).
  - exfalso. destruct (IsDurable t); [|by rewrite S in D'].
    unfold decodeDurable in D'. inv_ok.
    destruct (scan_cases (collect t) (drop 8 f) ∅) as [(fs & W & Eb & _)|S'];
      [|congruence].
    rewrite Eb, scan_select in S by done. done.
Qed.

(** * Encoding lays out fields *)

Lemma Append_nil t v : Append [] t v = fields_bytes [(t, v)].
Proof.
  unfold fields_bytes; simpl. rewrite app_nil_r, field_bytes_eq. done.
Qed.

Lemma Append_fields fs t v : Append (fields_bytes fs) t v = fields_bytes (fs ++ [(t, v)]).
Proof. by rewrite Append_app, Append_nil, fields_bytes_app. Qed.

(** Write a body built with [Append] as the fields it consists of. *)
Ltac body_fields :=
  repeat first [rewrite Append_nil in * | rewrite Append_fields in *]; cbn [app] in *.

Definition typed_fields (fs : list field) : Prop := Forall (λ f, 0 <= f.1 < 2 ^ 16) fs.

(** A frame that fits bounds the length of each of its values. *)
Lemma fields_fit fs :
  typed_fields fs → HeaderLength + len (fields_bytes fs) <= MaxFrameLength →
  Forall wf_field fs.
Proof.
  unfold HeaderLength, MaxFrameLength.
  induction 1 as [|f fs T _ IH]; intros L; [done|].
  rewrite fields_bytes_cons in L. unfold len in *. rewrite length_app, length_field_bytes in L.
  constructor; [split; [done|]; unfold len; lia|]. apply IH. lia.
Qed.

Lemma raw16_wf a v :
  wf_addr a → Zone a = "" → Is6 a = true → As16 a = Ok v →
  length v = 16%nat ∧ AddrFrom16 v = a.
Proof.
  destruct a as [| |x z]; try done. simpl. intros W -> _ E. unfold As16 in E.
  injection E as <-. rewrite length_be_put. split; [done|]. unfold AddrFrom16.
  by rewrite be_get_put_small.
Qed.

Lemma raw4_wf a v :
  wf_addr a → As4 a = Ok v →
  (Is4 a = true ∧ length v = 4%nat ∧ AddrFrom4 v = a) ∨ Is6 a = true.
Proof.
  destruct a as [|x|x z]; try done; simpl; intros W E; [|by right]. injection E as <-.
  left. rewrite length_be_put. split_and!; [done..|]. unfold AddrFrom4.
  by rewrite be_get_put_small.
Qed.

(** The address octets of a link prefix [Encode] accepts. *)
Lemma As4_prefix p v :
  wf_prefix p → Bits p = 30 → p = Masked p → As4 (Prefix_Addr p) = Ok v →
  ∃ x, p = mkPrefix (Addr4 x) 30 ∧ v = be_put 4 x ∧ 0 <= x < 2 ^ 32.
Proof.
  intros (W & Zn & B) E M. destruct p as [a b]; cbn [Prefix_Addr Bits] in *. subst b.
  destruct a as [|x|x z]; [done| |].
  - intros [= <-]. by exists x.
  - intros A. exfalso. simpl in Zn; subst z.
    destruct (Is4In6 (Addr6 x "")) eqn:I4.
    2: { unfold As4, Unmap in A. rewrite I4 in A. discriminate A. }
    rewrite Masked_valid in M; [|by split_and!|done].
    cbn [Prefix_Addr Bits] in M. injection M as M. unfold mask_value in M.
    unfold Is4In6 in I4. rewrite Z.shiftr_div_pow2 in I4 by lia.
    simpl in W. bool_to_prop. change (2 ^ 32) with 4294967296 in I4.
    change (2 ^ (128 - 30)) with 316912650057057350374175801344 in M.
    Z.div_mod_to_equations. lia.
Qed.

Lemma As16_prefix p v :
  wf_prefix p → Bits p = 126 → As16 (Prefix_Addr p) = Ok v →
  ∃ x, p = mkPrefix (Addr6 x "") 126 ∧ v = be_put 16 x ∧ 0 <= x < 2 ^ 128.
Proof.
  intros (W & Zn & B) E. destruct p as [a b]; cbn [Prefix_Addr Bits] in *. subst b.
  destruct a as [|x|x z]; [done| |].
  - destruct B as [B|[_ B]]; [done|]. cbn [BitLen] in B. lia.
  - simpl in Zn; subst z. unfold As16. intros [= <-]. by exists x.
Qed.

Lemma parsePrefix_None ipv4 : parsePrefix None ipv4 = Ok Prefix_zero.
Proof. done. Qed.

Lemma parsePrefix_Some raw (ipv4 : bool) p :
  length raw = (if ipv4 then 4%nat else 16%nat) →
  p = PrefixFrom (if ipv4 then AddrFrom4 raw else AddrFrom16 raw)
        (if ipv4 then 30 else 126) →
  validAddress (Prefix_Addr p) = true → p = Masked p →
  parsePrefix (Some raw) ipv4 = Ok p.
Proof.
  intros L E V M. unfold parsePrefix.
  rewrite (parseAddress_Some raw ipv4 L); [|by rewrite E in V; destruct ipv4].
  rewrite bind_Ok. replace (Addr_IsValid _) with true by (by destruct ipv4).
  cbn [negb]. rewrite <-E. by rewrite bool_decide_eq_true_2.
Qed.

(** Link prefixes, field by field: what [Encode] appends, [parsePrefix] reads. *)
Lemma prefix_v4_fields p v :
  wf_prefix p → (Prefix_IsValid p = true → validAddress (Prefix_Addr p) = true) →
  Prefix_IsValid p = true → Bits p = 30 → p = Masked p → As4 (Prefix_Addr p) = Ok v →
  parsePrefix (Some v) true = Ok p.
Proof.
  intros W V Vp B M A. destruct (As4_prefix p v W B M A) as (x & E & -> & R).
  apply parsePrefix_Some; [apply length_be_put| |auto|done].
  unfold AddrFrom4. rewrite be_get_put_small by done. by rewrite E.
Qed.

Lemma prefix_v6_fields p v :
  wf_prefix p → (Prefix_IsValid p = true → validAddress (Prefix_Addr p) = true) →
  Prefix_IsValid p = true → Bits p = 126 → p = Masked p → As16 (Prefix_Addr p) = Ok v →
  parsePrefix (Some v) false = Ok p.
Proof.
  intros W V Vp B M A. destruct (As16_prefix p v W B A) as (x & E & -> & R).
  apply parsePrefix_Some; [apply length_be_put| |auto|done].
  unfold AddrFrom16. rewrite be_get_put_small by done. by rewrite E.
Qed.

(** Read the selected fields of a concrete field list. *)
Ltac read_fields :=
  unfold decodeSelected; rewrite ?lookup_select_fields;
  cbn [usedBy field_first fst snd orb Z.eqb Pos.eqb default id
       NodeUIDTLV LoopbackV6TLV LinkPrefixV4TLV LinkPrefixV6TLV OperationIDTLV
       WGPublicKeyTLV WGEndpointTLV ProbeKeyTLV DiscoveryDataTLV SealedProbeTLV
       DeclineReasonTLV DynamicLinkPolicyTLV FlagsTLV StatusTLV].

Lemma typed_cons t v fs : 0 <= t < 2 ^ 16 → typed_fields fs → typed_fields ((t, v) :: fs).
Proof. by constructor. Qed.
Lemma typed_nil : typed_fields [].
Proof. constructor. Qed.
#[global] Hint Resolve typed_cons typed_nil : velvet.
#[global] Hint Extern 1 (0 <= _ < 2 ^ 16) => by vm_compute : velvet.

Lemma wf_bare_uid u : wf_uid u → wf_uid (bare_uid u).
Proof. done. Qed.

Lemma single_octet_put z max :
  0 <= z < 256 → single_octet [[z2b z]] max = if max <? z then Err (ErrFrame "") else Ok z.
Proof. intros. rewrite single_octet_eq. by rewrite b2z_z2b, Z.mod_small. Qed.

(** [b] is laid out as [fs], which [Decode] reads as [r]. *)
Definition laid_out (t : MsgType) (b : list byte) (r : Message) : Prop :=
  ∃ fs, b = fields_bytes fs ∧ typed_fields fs ∧
    decodeSelected t (select_fields t fs) = Ok r.

Ltac lay_out :=
  body_fields; first [eexists; split; [reflexivity|] | exists []; split; [reflexivity|]];
  split; [eauto with velvet|];
  read_fields; unfold IsPolicy; reduce_types.

Lemma laid_out_identity m b :
  wf_message m → Type_ m = Open ∨ Type_ m = PolicyQuery ∨ Type_ m = PolicyUpdate →
  encodeBody m = Ok b → laid_out (Type_ m) b (carried m).
Proof.
  intros W T E. unfold encodeBody, carried, IsPolicy in *.
  destruct (Msg_UID m) as [u|] eqn:U; [|by destruct T as [T|[T|T]]; rewrite T in E].
  pose proof (wf_UID m W u U) as Wu.
  destruct T as [T|[T|T]]; rewrite T in *; reduce_types; inv_ok; subst b; lay_out.
  - rewrite (dec_enc u) by done. done.
  - rewrite (dec_enc (mkUID (UUID u) "")) by done. done.
  - rewrite (dec_enc (mkUID (UUID u) "")) by done. cbn [frame_err map_err]. rewrite bind_Ok.
    destruct (Msg_Policy m) as [p|] eqn:P; [|done].
    rewrite (dec_enc p) by (try done; by apply (wf_Policy m)). done.
Qed.

Lemma laid_out_NodeState m b :
  wf_message m → sendable m → Type_ m = NodeState →
  encodeBody m = Ok b → laid_out (Type_ m) b (carried m).
Proof.
  intros W V T E. unfold encodeBody, carried, sendable in *. rewrite T in *. inv_ok.
  subst b. bool_to_prop. destruct (wf_Loopback m W) as [Wa Wz].
  destruct (raw16_wf _ _ Wa Wz ltac:(done) ltac:(eassumption)) as [L A]. lay_out.
  rewrite (parseAddress_Some _ false) by (rewrite ?A; done).
  cbn [frame_err map_err]. rewrite bind_Ok, A.
  match goal with H : Addr_IsValid _ = true |- _ => by rewrite H end.
Qed.

Lemma laid_out_LinkPropose m b :
  wf_message m → sendable m → Type_ m = LinkPropose →
  encodeBody m = Ok b → laid_out (Type_ m) b (carried m).
Proof.
  intros W V T E. unfold encodeBody, carried, sendable, carried_prefix in *.
  rewrite T in *. destruct V as [V4 V6], (wf_LinkPrefixes m W) as [W4 W6].
  destruct (Prefix_IsValid (LinkPrefixV4 m)) eqn:I4, (Prefix_IsValid (LinkPrefixV6 m)) eqn:I6;
    inv_ok; bool_to_prop; subst; lay_out;
    rewrite ?parsePrefix_None;
    repeat match goal with
    | A : As4 _ = Ok ?v |- _ => rewrite (prefix_v4_fields _ v W4) by eauto; clear A
    | A : As16 _ = Ok ?v |- _ => rewrite (prefix_v6_fields _ v W6) by eauto; clear A
    end; done.
Qed.

Lemma parseOperationID_put v : length v = 16%nat → parseOperationID v = Ok v.
Proof. intros. by apply parseOperationID_ok. Qed.

Lemma encodeEndpoint_valid e v : encodeEndpoint e = Ok v → AddrPort_IsValid e = true.
Proof.
  intros (_ & _ & [(a & E & _)|(a & z & E & _)])%encodeEndpoint_ok;
    unfold AddrPort_IsValid; by rewrite E.
Qed.

Lemma laid_out_probe m b :
  wf_message m → IsLinkProbe (Type_ m) = true →
  encodeBody m = Ok b → laid_out (Type_ m) b (carried m).
Proof.
  intros W T E. unfold encodeBody, carried, IsLinkProbe in *.
  pose proof (wf_OperationID m W) as Wo.
  destruct (Type_ m); try discriminate T; reduce_types; inv_ok;
    [subst b|destruct (AddrPort_IsValid (Endpoint m)) eqn:V; inv_ok; subst b]; lay_out;
    rewrite parseOperationID_put by done; cbn [bare_err map_err]; rewrite bind_Ok;
    repeat match goal with
    | H : allZero _ = false |- _ => rewrite H
    | H : encodeEndpoint _ = Ok _ |- _ =>
      rewrite (dec_enc _ _ (wf_Endpoint m W) H); cbn [bare_err map_err]; rewrite bind_Ok;
      rewrite (encodeEndpoint_valid _ _ H); clear H
    end; done.
Qed.

Lemma laid_out_dynamic m b :
  wf_message m → Type_ m = DynamicLinkPropose ∨ Type_ m = DynamicLinkAccept →
  encodeBody m = Ok b → laid_out (Type_ m) b (carried m).
Proof.
  intros W T E. unfold encodeBody, carried in *.
  pose proof (wf_OperationID m W) as Wo. pose proof (wf_WGPublicKey m W) as Wk.
  pose proof (wf_ProbeKey m W) as Wp.
  assert (len (ProbeKey m) = 32) as Lp by (unfold len; by rewrite Wp).
  destruct T as [T|T]; rewrite T in *; inv_ok; subst b; lay_out;
    rewrite Lp, Copy_id by done; cbn [Z.eqb Pos.eqb negb];
    rewrite parseOperationID_put by done; cbn [frame_err map_err]; rewrite bind_Ok;
    rewrite (proj2 (parsePublicKey_ok _ _)) by done; cbn [frame_err bare_err map_err]; rewrite bind_Ok;
    match goal with H : encodeEndpoint _ = Ok _ |- _ =>
      rewrite (dec_enc _ _ (wf_Endpoint m W) H); cbn [bare_err map_err]; rewrite bind_Ok;
      by rewrite (encodeEndpoint_valid _ _ H) end.
Qed.

Lemma laid_out_data m b :
  wf_message m → Type_ m = DiscoveryControl ∨ Type_ m = PublicProbe →
  encodeBody m = Ok b → laid_out (Type_ m) b (carried m).
Proof.
  intros W T E. unfold encodeBody, carried in *.
  destruct T as [T|T]; rewrite T in *; inv_ok; subst b; lay_out.
  - rewrite (parseOperationID_put _ (wf_OperationID m W)). cbn [bare_err map_err].
    rewrite bind_Ok. match goal with H : DecodeControl _ = Ok _ |- _ => by rewrite H end.
  - match goal with H : _ && _ = false |- _ => by rewrite H end.
Qed.

(** Decline fields, shared with the durable decline. *)
Lemma encodePolicy_Some p v :
  encodeDynamicLinkPolicy (Some p) = Ok v → wf_policy p → parseDynamicLinkPolicy v = Ok p.
Proof. intros E W. by apply (dec_enc p). Qed.

Lemma laid_out_decline m b :
  wf_message m → Type_ m = DynamicLinkDecline →
  encodeBody m = Ok b → laid_out (Type_ m) b (carried m).
Proof.
  intros W T E. unfold encodeBody, carried in *. rewrite T in *. inv_ok.
  pose proof (wf_OperationID m W) as Wo. bool_to_prop.
  assert (R : (DeclinePolicy <? Msg_DeclineReason m) = false) by (apply Z.ltb_ge; lia).
  destruct (Msg_Policy m) as [p|] eqn:P; inv_ok; subst b; lay_out;
    rewrite single_octet_put, R, bind_Ok by apply (wf_Decline m W).
  - match goal with H : encodeDynamicLinkPolicy _ = Ok _ |- _ =>
      rewrite (encodePolicy_Some _ _ H) by (by apply (wf_Policy m)) end.
    rewrite !bind_Ok. rewrite parseOperationID_put by done.
    match goal with H : declinePolicyMissing _ _ = false |- _ => by rewrite H end.
  - rewrite bind_Ok. rewrite parseOperationID_put by done.
    match goal with H : declinePolicyMissing _ _ = false |- _ => by rewrite H end.
Qed.

Lemma encodeBody_laid_out m b :
  wf_message m → sendable m → IsDurable (Type_ m) = false →
  encodeBody m = Ok b → laid_out (Type_ m) b (carried m).
Proof.
  intros W S D E. destruct (Type_ m) eqn:T; try discriminate D;
    try (rewrite <-T; first [ by apply laid_out_identity; auto | by apply laid_out_NodeState
    | by apply laid_out_LinkPropose | by apply laid_out_dynamic; auto
    | by apply laid_out_decline | by apply laid_out_data; auto
    | by apply laid_out_probe; rewrite ?T ]);
    unfold encodeBody, carried in *; rewrite T in *; inv_ok; subst b;
    by (exists []; eauto with velvet).
Qed.

(** * The durable messages *)

Ltac read_durable :=
  unfold decodeDurableFields; rewrite ?values_collect; unfold durableOccurrences;
  cbn [field_all fst snd orb Z.eqb Pos.eqb
       NodeUIDTLV LoopbackV6TLV LinkPrefixV4TLV LinkPrefixV6TLV OperationIDTLV
       WGPublicKeyTLV WGEndpointTLV ProbeKeyTLV DiscoveryDataTLV SealedProbeTLV
       DeclineReasonTLV DynamicLinkPolicyTLV FlagsTLV StatusTLV];
  reduce_types; cbn [take firstn length].

Lemma decodeDurableID_ok v w :
  decodeDurableID v = Ok w ↔ w = v ∧ length v = 16%nat ∧ allZero v = false.
Proof.
  unfold decodeDurableID. destruct (parseOperationID v) as [x|e|] eqn:P; cbn [map_err].
  - apply parseOperationID_ok in P as [-> L]. rewrite bind_Ok.
    destruct (allZero v) eqn:Z; [by split; [|intros (_ & _ & ?)]|].
    split; [by intros [= <-]|by intros (-> & _)].
  - split; [done|]. intros (-> & L & _). by rewrite parseOperationID_put in P.
  - split; [done|]. intros (-> & L & _). by rewrite parseOperationID_put in P.
Qed.

(** The fields of the fixed endpoints. *)
Fixpoint fixed_fields (l : list (list byte * list byte)) : list field :=
  match l with
  | [] => []
  | (u, e) :: l => (NodeUIDTLV, u) :: (WGEndpointTLV, e) :: fixed_fields l
  end.

Lemma encodeFixed_fields b fs l b' :
  b = fields_bytes fs → encodeFixed b l = Ok b' →
  ∃ raws, b' = fields_bytes (fs ++ fixed_fields raws) ∧
    Forall2 (λ f r, encodeUID (Fixed_UID f) = Ok r.1 ∧
                    encodeEndpoint (Fixed_Endpoint f) = Ok r.2) l raws.
Proof.
  revert b fs; induction l as [|f l IH]; intros b fs -> H; cbn [encodeFixed] in H.
  - injection H as <-. exists []. cbn [fixed_fields]. rewrite app_nil_r. auto.
  - inv_ok. rewrite !Append_fields in H. apply (IH _ _ eq_refl) in H as (raws & -> & F).
    eexists ((_, _) :: raws). split; [|constructor; [split; eassumption|done]].
    cbn [fixed_fields]. by rewrite <-!app_assoc.
Qed.

Lemma typed_app fs gs : typed_fields fs → typed_fields gs → typed_fields (fs ++ gs).
Proof. apply Forall_app_2. Qed.
Lemma typed_fixed raws : typed_fields (fixed_fields raws).
Proof. induction raws as [|[u e] raws IH]; cbn; eauto with velvet. Qed.
#[global] Hint Resolve typed_app typed_fixed : velvet.

Lemma encodeDurable_fields m b :
  encodeDurable m = Ok b →
  (∃ m', decodeDurable (Type_ m) b = Ok m') ∧
  ∃ fs, b = fields_bytes fs ∧ typed_fields fs ∧
    match Type_ m with
    | DurablePropose => ∃ raws,
        1 <= len raws <= 2 ∧
        Forall2 (λ f r, encodeUID (Fixed_UID f) = Ok r.1 ∧
                        encodeEndpoint (Fixed_Endpoint f) = Ok r.2)
          (FixedEndpoints m) raws ∧
        fs = ((OperationIDTLV, OperationID m) :: fixed_fields raws) ++
          (if Msg_Flags m =? 0 then [] else [(FlagsTLV, be_put 4 (Msg_Flags m))])
    | DurableStatus => fs = [(OperationIDTLV, OperationID m);
        (OperationIDTLV, AgreementID m); (StatusTLV, [z2b (Msg_Status m)])]
    | DurableCheck => fs = [(OperationIDTLV, OperationID m);
        (OperationIDTLV, AgreementID m)]
    | DurableDecline => ∃ ps,
        match Msg_Policy m with
        | None => ps = []
        | Some _ => ∃ v, encodeDynamicLinkPolicy (Msg_Policy m) = Ok v ∧
                         ps = [(DynamicLinkPolicyTLV, v)]
        end ∧
        fs = [(OperationIDTLV, OperationID m);
              (DeclineReasonTLV, [z2b (Msg_DeclineReason m)])] ++ ps
    | _ => fs = [(OperationIDTLV, OperationID m)]
    end.
Proof.
  unfold encodeDurable. intros H. apply bind_ok in H as (b' & E & H).
  apply bind_ok in H as (m' & D & [= ->]). split; [eauto|]. clear D m'.
  destruct (Type_ m); reduce_types; inv_ok; body_fields;
    try (subst b; eexists; split_and!; [done|eauto with velvet|done]).
  - (* propose *)
    bool_to_prop.
    destruct (encodeFixed_fields _ _ _ _ eq_refl ltac:(eassumption)) as (raws & -> & F).
    pose proof (Forall2_length _ _ _ F) as L. unfold len in *.
    destruct (Msg_Flags m =? 0) eqn:Z; cbn [negb] in *; inv_ok; body_fields; subst b;
      eexists; (split_and!; [reflexivity| |exists raws; split_and!; [lia|lia|done|]]);
      rewrite ?app_nil_r; cbn [app]; eauto 6 with velvet.
  - (* decline *)
    destruct (Msg_Policy m) as [p|] eqn:P; inv_ok; body_fields; subst b;
      eexists; (split_and!; [reflexivity|eauto with velvet|eexists; split; eauto; done]).
Qed.

Lemma field_all_app k fs gs : field_all k (fs ++ gs) = field_all k fs ++ field_all k gs.
Proof.
  induction fs as [|f fs IH]; cbn [app field_all]; [done|]. rewrite IH.
  by destruct (f.1 =? k).
Qed.

Lemma field_all_fixed raws :
  field_all NodeUIDTLV (fixed_fields raws) = map fst raws ∧
  field_all WGEndpointTLV (fixed_fields raws) = map snd raws ∧
  ∀ k, k ≠ NodeUIDTLV → k ≠ WGEndpointTLV → field_all k (fixed_fields raws) = [].
Proof.
  induction raws as [|[u e] raws (IH1 & IH2 & IH3)]; [done|]. split_and!.
  - cbn. by rewrite <-IH1.
  - cbn. by rewrite <-IH2.
  - intros k N1 N2. cbn [fixed_fields field_all fst snd].
    rewrite !(proj2 (Z.eqb_neq _ _)) by done. auto.
Qed.

(** Reading back fixed endpoints gives them, when it succeeds at all. *)
Lemma decodeFixed_encode l raws acc r :
  Forall2 (λ f r, encodeUID (Fixed_UID f) = Ok r.1 ∧
                  encodeEndpoint (Fixed_Endpoint f) = Ok r.2) l raws →
  Forall (λ f, wf_uid (Fixed_UID f) ∧ wf_endpoint (Fixed_Endpoint f)) l →
  decodeFixed (map fst raws) (map snd raws) acc = Ok r → r = acc ++ l.
Proof.
  intros F; revert acc; induction F as [|f raw l raws [Eu Ee] F IH];
    intros acc W H; cbn [map decodeFixed] in H.
  - injection H as <-. by rewrite app_nil_r.
  - inversion W as [|? ? [Wu We] W']; subst.
    rewrite (dec_enc _ _ Wu Eu), (dec_enc _ _ We Ee) in H. cbn [map_err] in H.
    rewrite !bind_Ok in H.
    assert (E : mkFixedEndpoint (Fixed_UID f) (Fixed_Endpoint f) = f) by by destruct f.
    rewrite E in H. rewrite cons_middle, app_assoc.
    destruct (last acc); [destruct (bytes_ge _ _); [discriminate H|]|]; by apply IH.
Qed.

Lemma be4_put z : 0 <= z < 2 ^ 32 → len (be_put 4 z) = 4 ∧ be_get (be_put 4 z) = z.
Proof. intros. by rewrite len_be_put, be_get_put_small. Qed.

(** The tail of [decodeDurableFields] for a proposal. *)
Lemma propose_fields m raws (fs := ((OperationIDTLV, OperationID m) :: fixed_fields raws) ++
    (if Msg_Flags m =? 0 then [] else [(FlagsTLV, be_put 4 (Msg_Flags m))])) :
  1 <= len raws <= 2 →
  values (collect_fields DurablePropose fs) OperationIDTLV = [OperationID m] ∧
  values (collect_fields DurablePropose fs) NodeUIDTLV = map fst raws ∧
  values (collect_fields DurablePropose fs) WGEndpointTLV = map snd raws ∧
  values (collect_fields DurablePropose fs) FlagsTLV =
    (if Msg_Flags m =? 0 then [] else [be_put 4 (Msg_Flags m)]).
Proof.
  intros L. subst fs. rewrite !values_collect.
  change (durableOccurrences DurablePropose OperationIDTLV) with 1%nat.
  change (durableOccurrences DurablePropose NodeUIDTLV) with 2%nat.
  change (durableOccurrences DurablePropose WGEndpointTLV) with 2%nat.
  change (durableOccurrences DurablePropose FlagsTLV) with 1%nat.
  rewrite !field_all_app. destruct (field_all_fixed raws) as (F1 & F2 & F3).
  cbn [field_all fst snd]. change (OperationIDTLV =? OperationIDTLV) with true.
  change (OperationIDTLV =? NodeUIDTLV) with false.
  change (OperationIDTLV =? WGEndpointTLV) with false.
  change (OperationIDTLV =? FlagsTLV) with false. cbv iota.
  rewrite F1, F2, (F3 OperationIDTLV), (F3 FlagsTLV) by done. unfold len in L.
  split_and!; [done| | |].
  - destruct (Msg_Flags m =? 0); cbn [field_all fst];
      rewrite ?app_nil_r; apply take_ge; rewrite length_map; lia.
  - destruct (Msg_Flags m =? 0); cbn [field_all fst];
      rewrite ?app_nil_r; apply take_ge; rewrite length_map; lia.
  - by destruct (Msg_Flags m =? 0).
Qed.

Lemma decode_propose m raws m' :
  wf_message m → Type_ m = DurablePropose → 1 <= len raws <= 2 →
  Forall2 (λ f r, encodeUID (Fixed_UID f) = Ok r.1 ∧
                  encodeEndpoint (Fixed_Endpoint f) = Ok r.2) (FixedEndpoints m) raws →
  decodeDurableFields DurablePropose (collect_fields DurablePropose
    (((OperationIDTLV, OperationID m) :: fixed_fields raws) ++
     (if Msg_Flags m =? 0 then [] else [(FlagsTLV, be_put 4 (Msg_Flags m))]))) = Ok m' →
  m' = carried m.
Proof.
  intros W T L F H. destruct (propose_fields m raws L) as (V1 & V2 & V3 & V4).
  unfold decodeDurableFields in H. rewrite V1, V2, V3, V4 in H. clear V1 V2 V3 V4.
  inv_ok. cbv iota in *. inv_ok.
  repeat match goal with H : decodeDurableID _ = Ok _ |- _ =>
    apply decodeDurableID_ok in H as (-> & _) end.
  match goal with H : decodeFixed _ _ _ = Ok _ |- _ =>
    apply (decodeFixed_encode _ _ _ _ F (wf_Fixed m W)) in H as -> end.
  unfold carried. rewrite T. subst. destruct (Msg_Flags m =? 0) eqn:Z.
  - inv_ok. subst m'. bool_to_prop. by rewrite Z.
  - destruct (be4_put _ (wf_Flags m W)) as [L4 G4].
    rewrite L4, Uint32_put, bind_Ok, G4 in H. by inv_ok.
Qed.

Ltac finish_durable :=
  inv_ok; cbv iota in *; inv_ok;
  repeat match goal with
  | H : decodeDurableID _ = Ok _ |- _ => apply decodeDurableID_ok in H as (-> & _)
  end; subst; inv_ok; subst; try done.

(** The self-check of [encodeDurable] read back what the message carries. *)
Lemma decodeDurable_encode m b :
  wf_message m → IsDurable (Type_ m) = true → encodeDurable m = Ok b →
  HeaderLength + len b <= MaxFrameLength →
  ∃ fs, b = fields_bytes fs ∧ typed_fields fs ∧
    decodeDurable (Type_ m) (fields_bytes fs) = Ok (carried m).
Proof.
  intros W D E L. destruct (encodeDurable_fields m b E) as ((m' & Dm) & fs & -> & Ty & K).
  exists fs. split_and!; [done..|]. rewrite Dm. f_equal.
  rewrite scan_collect in Dm by (by apply fields_fit).
  pose proof (wf_Decline m W). pose proof (wf_Status m W).
  unfold carried. destruct (Type_ m) eqn:T; try discriminate D.
  { destruct K as (raws & Lr & F & ->). apply decode_propose in Dm; try done.
    by rewrite Dm; unfold carried; rewrite T. }
  2: { destruct K as (ps & P & ->). destruct (Msg_Policy m) as [p|] eqn:Mp.
    - destruct P as (v & Ev & ->). revert Dm; read_durable; cbn [app]; read_durable.
      intros Dm. rewrite single_octet_put, (encodePolicy_Some _ _ Ev) in Dm
        by (done || by apply (wf_Policy m)). finish_durable.
    - subst ps. revert Dm; cbn [app]; read_durable. intros Dm.
      rewrite single_octet_put in Dm by done. finish_durable. }
  4: { pose proof (wf_Type m W) as C. rewrite T in C. destruct b; discriminate. }
  all: subst fs; revert Dm; read_durable; intros Dm;
    rewrite ?single_octet_put in Dm by done; finish_durable.
Qed.

(** * Round trips *)

(** What [Encode] builds, [Decode] reads back field by field. *)
Lemma Encode_Decode m f :
  wf_message m → sendable m → Encode m = Ok f → Decode f = Ok (carried m).
Proof.
  unfold Encode. intros W S E. inv_ok. subst f. bool_to_prop.
  match goal with H : encodeBody m = Ok ?v |- _ => rename H into E; set (b := v) in * end.
  pose proof (wf_Type m W) as C.
  assert (U : unknownType (Type_ m) = false).
  { unfold encodeBody in E. destruct (Type_ m) as [| | | | | | | | | | | | | | | | | | | |y];
      try done; discriminate E. }
  destruct (IsDurable (Type_ m)) eqn:D.
  - assert (encodeDurable m = Ok b) as E'.
    { unfold encodeBody in E. destruct (Type_ m); done. }
    destruct (decodeDurable_encode m b W D E' ltac:(done)) as (fs & -> & Ty & Dd).
    rewrite Decode_frame, U, D by (done || by apply fields_fit). done.
  - destruct (encodeBody_laid_out m b W S D E) as (fs & -> & Ty & Ds).
    rewrite Decode_frame, U, D by (done || by apply fields_fit). done.
Qed.

Lemma len_Append d t v : len (Append d t v) = len d + 4 + len v.
Proof. unfold Append, len. rewrite !length_app, !length_be_put. lia. Qed.

Lemma len_nil {A} : len ([] : list A) = 0.
Proof. done. Qed.

Lemma encodeUID_len u v : wf_uid u → encodeUID u = Ok v → len v <= 21.
Proof.
  unfold encodeUID, wf_uid. intros L H. inv_ok. bool_to_prop. subst v.
  unfold len in *. rewrite length_app. lia.
Qed.

Lemma encodeEndpoint_len e v : encodeEndpoint e = Ok v → len v <= 20.
Proof. intros [L|L]%encodeEndpoint_length; unfold len; lia. Qed.

Lemma encodePolicy_len p v : encodeDynamicLinkPolicy p = Ok v → len v = 9.
Proof.
  destruct p as [p|]; [|done]. unfold encodeDynamicLinkPolicy. intros H. inv_ok. subst v.
  unfold len. by rewrite length_app, length_be_put.
Qed.

(** A message the decoder builds can be sent again. *)
Definition encodable (m : Message) : Prop :=
  ∃ b, encodeBody m = Ok b ∧ HeaderLength + len b <= MaxFrameLength.

Record decoded (t : MsgType) (m : Message) : Prop := {
  decoded_type : Type_ m = t;
  decoded_wf : wf_message m;
  decoded_sendable : sendable m;
  decoded_carried : carried m = m;
  decoded_encodable : encodable m;
}.

Lemma frame_err_ok {A} (r : result A) a : frame_err r = Ok a → r = Ok a.
Proof. apply map_err_ok. Qed.
Lemma bare_err_ok {A} (r : result A) a : bare_err r = Ok a → r = Ok a.
Proof. apply map_err_ok. Qed.

(** Turn the parsers that succeeded into the encoders that succeed. *)
Ltac parsed :=
  repeat match goal with
  | H : frame_err _ = Ok _ |- _ => apply frame_err_ok in H
  | H : bare_err _ = Ok _ |- _ => apply bare_err_ok in H
  | H : map_err _ _ = Ok _ |- _ => apply map_err_ok in H
  | H : parseOperationID _ = Ok _ |- _ => apply parseOperationID_ok in H as [-> ?]
  | H : parsePublicKey _ = Ok _ |- _ => apply parsePublicKey_ok in H as (-> & ? & ?)
  | H : parseUID _ = Ok _ |- _ => apply parseUID_ok in H as [? ?]
  | H : parseEndpoint _ = Ok _ |- _ => apply parseEndpoint_ok in H as [? ?]
  | H : parseDynamicLinkPolicy _ = Ok _ |- _ => apply parsePolicy_ok in H as [? ?]
  end; inv_ok; subst.

Ltac len_simpl :=
  rewrite ?len_Append, ?len_nil; unfold HeaderLength, MaxFrameLength;
  repeat match goal with
  | H : encodeEndpoint _ = Ok _ |- _ => apply encodeEndpoint_len in H
  | H : encodeUID _ = Ok _, W : wf_uid _ |- _ => apply (encodeUID_len _ _ W) in H
  | H : encodeDynamicLinkPolicy _ = Ok _ |- _ => apply encodePolicy_len in H
  | H : DecodeControl _ = Ok _ |- _ => apply DecodeControl_len in H
  end; unfold len in *; cbn [length] in *; lia.

Lemma wf_policy_Some p : wf_policy p → ∀ p', Some p = Some p' → wf_policy p'.
Proof. by intros ?? [= <-]. Qed.
Lemma wf_policy_None : ∀ p', None = Some p' → wf_policy p'.
Proof. done. Qed.
Lemma wf_uid_Some u : wf_uid u → ∀ u', Some u = Some u' → wf_uid u'.
Proof. by intros ?? [= <-]. Qed.
#[global] Hint Resolve wf_policy_Some wf_policy_None wf_uid_Some wf_bare_uid : velvet.

Lemma encodeUID_bare u v :
  encodeUID u = Ok v → wf_uid u → ∃ v', encodeUID (bare_uid u) = Ok v' ∧ len v' <= 21.
Proof.
  unfold encodeUID, bare_uid, wf_uid; cbn [UUID Name]. intros H W. inv_ok. bool_to_prop.
  rewrite bool_decide_eq_false_2 by done. eexists; split; [done|].
  unfold len in *. rewrite length_app. simpl. lia.
Qed.

Lemma decoded_identity t sel m :
  t = Open ∨ t = PolicyQuery ∨ t = PolicyUpdate →
  decodeSelected t sel = Ok m → decoded t m.
Proof.
  intros T H. unfold decodeSelected, IsPolicy in H.
  destruct T as [->|[->| ->]]; reduce_types; destruct (sel !! NodeUIDTLV); inv_ok; parsed.
  all: match goal with E : encodeUID _ = Ok _ |- _ =>
    destruct (encodeUID_bare _ _ E ltac:(done)) as (v' & Eb & Lb); unfold bare_uid in Eb end.
  all: split; [done|eauto 6 with velvet|done|done|]; unfold encodable, encodeBody, IsPolicy;
    cbn [Type_ set_UID newMessage Msg_UID Msg_Policy UUID]; reduce_types.
  all: first [rewrite Eb | match goal with E : encodeUID _ = Ok _ |- _ => rewrite E end];
    rewrite bind_Ok.
  all: try match goal with E : encodeDynamicLinkPolicy _ = Ok _ |- _ =>
    rewrite E, bind_Ok end.
  all: eexists; split; [done|len_simpl].
Qed.

Lemma decoded_NodeState sel m : decodeSelected NodeState sel = Ok m → decoded NodeState m.
Proof.
  intros H. unfold decodeSelected in H. inv_ok. parsed. bool_to_prop.
  match goal with P : parseAddress _ _ = Ok _ |- _ =>
    apply parseAddress_ok in P as [[_ ->]|(raw & _ & V & Wa & L & ->)]; [done|] end.
  split; [done|apply wf_set_LoopbackV6; eauto with velvet|done|done|].
  unfold encodable, encodeBody, AddrFrom16 in *. cbn [Type_ set_LoopbackV6 newMessage LoopbackV6].
  cbn [Addr_IsValid Is6 negb As16]. rewrite bind_Ok. eexists; split; [done|].
  rewrite len_Append, len_nil, len_be_put. unfold HeaderLength, MaxFrameLength. lia.
Qed.

Lemma parsePrefix_ok value ipv4 p :
  parsePrefix value ipv4 = Ok p →
  wf_prefix p ∧ (Prefix_IsValid p = true → validAddress (Prefix_Addr p) = true) ∧
  carried_prefix p = p ∧
  (p = Prefix_zero ∨
   Bits p = (if ipv4 then 30 else 126) ∧ p = Masked p ∧
   ∃ x, Prefix_Addr p = if ipv4 then Addr4 x else Addr6 x "").
Proof.
  unfold parsePrefix. intros H. inv_ok.
  match goal with P : parseAddress _ _ = Ok ?a |- _ =>
    apply parseAddress_ok in P as [[_ ->]|(raw & _ & V & Wa & L)] end.
  - cbn [Addr_IsValid negb] in H. injection H as <-.
    split_and!; [|done|done|by left]. split; [done|]. split; [done|by left].
  - destruct ipv4; destruct L as [L ->]; cbn [AddrFrom4 AddrFrom16 Addr_IsValid negb] in H;
      inv_ok; bool_to_prop; subst p; (split_and!; [by apply wf_PrefixFrom|done|done|right]);
      (split_and!; [done|done|eexists; done]).
Qed.

Lemma decoded_LinkPropose sel m :
  decodeSelected LinkPropose sel = Ok m → decoded LinkPropose m.
Proof.
  intros H. unfold decodeSelected in H. inv_ok. parsed.
  repeat match goal with P : parsePrefix _ _ = Ok _ |- _ =>
    apply parsePrefix_ok in P as (? & ? & ? & ?) end.
  split; [done|by eauto with velvet|done| |].
  - unfold carried. cbn [Type_ set_LinkPrefixes newMessage LinkPrefixV4 LinkPrefixV6].
    by repeat match goal with E : carried_prefix _ = _ |- _ => rewrite E; clear E end.
  - unfold encodable, encodeBody.
    cbn [Type_ set_LinkPrefixes newMessage LinkPrefixV4 LinkPrefixV6].
    repeat match goal with E : _ = Prefix_zero ∨ _ |- _ =>
      destruct E as [->|(? & ? & ? & ?)] end;
    change (Prefix_IsValid Prefix_zero) with false; cbv iota;
    repeat match goal with B : Bits ?p = _, M : ?p = Masked ?p, A : Prefix_Addr ?p = _ |- _ =>
      unfold Prefix_IsValid at 1; rewrite B, A, bool_decide_eq_true_2 by done; clear B M A
    end;
    cbn [Z.leb Z.compare Z.eqb Pos.eqb negb orb As16];
    repeat match goal with |- context [As4 (Addr4 ?a)] =>
      change (As4 (Addr4 a)) with (Ok (be_put 4 a)) end; rewrite ?bind_Ok.
    all: eexists; split; [done|]; rewrite ?len_Append, ?len_nil, ?len_be_put;
      unfold HeaderLength, MaxFrameLength; lia.
Qed.

Lemma single_octet_ok v max z :
  single_octet v max = Ok z → v = [[z2b z]] ∧ 0 <= z < 256 ∧ z <= max.
Proof.
  rewrite single_octet_eq. destruct v as [|[|x [|]] [|]]; try done. intros H. inv_ok.
  bool_to_prop. subst z. rewrite z2b_b2z. pose proof (b2z_range x). split_and!; [done|lia..].
Qed.

Ltac encode_now :=
  unfold encodable, encodeBody;
  cbn [Type_ set_FixedEndpoints set_AgreementID set_Flags set_Status set_Decline set_UID
       set_LoopbackV6 set_LinkPrefixes set_OperationID set_Data set_Endpoint set_Keys
       newMessage OperationID WGPublicKey ProbeKey Endpoint Data Msg_Policy
       Msg_DeclineReason Msg_UID];
  repeat match goal with
  | H : allZero _ = false |- _ => rewrite H
  | H : encodeEndpoint _ = Ok _ |- context [encodeEndpoint _] => rewrite H, bind_Ok
  | H : DecodeControl _ = Ok _ |- context [DecodeControl _] => rewrite H, bind_Ok
  | H : encodeDynamicLinkPolicy _ = Ok _ |- context [encodeDynamicLinkPolicy _] =>
      rewrite H, bind_Ok
  | H : negb _ && negb _ = false |- _ => rewrite H
  end.

Lemma decoded_probe t sel m :
  IsLinkProbe t = true → decodeSelected t sel = Ok m → decoded t m.
Proof.
  intros T H. unfold decodeSelected, IsLinkProbe in *.
  destruct t; try discriminate T; reduce_types; inv_ok; parsed;
    (destruct (sel !! WGEndpointTLV); inv_ok; parsed);
    (split; [done|eauto 6 with velvet|done| |]);
    try (unfold carried; cbn [Type_ set_OperationID set_Endpoint newMessage Endpoint];
         bool_to_prop; try (match goal with V : AddrPort_IsValid _ = true |- _ =>
           rewrite V end); done);
    encode_now; reduce_types; cbn [andb];
    try (match goal with E : encodeEndpoint _ = Ok _ |- _ =>
      rewrite (encodeEndpoint_valid _ _ E) end);
    change (AddrPort_IsValid AddrPort_zero) with false; cbv iota;
    eexists; (split; [done|len_simpl]).
Qed.

Lemma decoded_dynamic t sel m :
  t = DynamicLinkPropose ∨ t = DynamicLinkAccept →
  decodeSelected t sel = Ok m → decoded t m.
Proof.
  intros T H. unfold decodeSelected in H.
  assert (L32 : ∀ v : list byte, len v = 32 → length v = 32%nat)
    by (unfold len; intros; lia).
  destruct T as [-> | ->]; inv_ok; parsed; bool_to_prop; rewrite Copy_id by (by apply L32);
    (split; [done|eauto 8 with velvet|done|done|]);
    encode_now; eexists; (split; [done|len_simpl]).
Qed.

Lemma decoded_data t sel m :
  t = DiscoveryControl ∨ t = PublicProbe →
  decodeSelected t sel = Ok m → decoded t m.
Proof.
  intros T H. unfold decodeSelected in H.
  destruct T as [-> | ->]; inv_ok; parsed;
    (split; [done|eauto 8 with velvet|done|done|]); encode_now.
  - eexists; split; [done|len_simpl].
  - eexists; split; [done|]. apply andb_false_iff in Heqb as [L|L]; bool_to_prop; len_simpl.
Qed.

Lemma decoded_decline sel m :
  decodeSelected DynamicLinkDecline sel = Ok m → decoded DynamicLinkDecline m.
Proof.
  intros H. unfold decodeSelected in H. inv_ok. parsed.
  match goal with S : single_octet _ _ = Ok _ |- _ =>
    apply single_octet_ok in S as (_ & R & M) end.
  apply Z.ltb_ge in M.
  match goal with S : declinePolicyMissing _ _ = false |- _ => rename S into Dp end.
  destruct (sel !! DynamicLinkPolicyTLV); inv_ok; parsed;
    (split; [done|eauto 8 with velvet|done|done|]); encode_now;
    rewrite M, Dp; cbn [orb]; rewrite ?bind_Ok;
    eexists; (split; [done|len_simpl]).
Qed.

(** What [decodeSelected] accepts, from any selection, is well formed, carries
    nothing but its fields and can be encoded. *)
Lemma decodeSelected_decoded t sel m :
  byte_type (type_byte t) = t → unknownType t = false → IsDurable t = false →
  decodeSelected t sel = Ok m → decoded t m.
Proof.
  intros C U D H. destruct t; try discriminate D;
    first [ apply (decoded_identity _ sel); by auto | by apply (decoded_NodeState sel)
    | by apply (decoded_LinkPropose sel) | apply (decoded_dynamic _ sel); by auto
    | by apply (decoded_decline sel) | apply (decoded_data _ sel); by auto
    | by apply (decoded_probe _ sel) | idtac ].
  4: { exfalso. by apply (unknownType_assigned _ U C b). }
  all: unfold decodeSelected in H; inv_ok; subst m;
    (split; [done|eauto with velvet|done|done|eexists; split; done]).
Qed.

(** * What the durable decoder accepts *)

Lemma decodeFixed_ok uids eps acc r :
  length uids = length eps → decodeFixed uids eps acc = Ok r →
  ∃ l, r = acc ++ l ∧
    Forall (λ f, wf_uid (Fixed_UID f) ∧ wf_endpoint (Fixed_Endpoint f)) l ∧
    Forall2 (λ f r, encodeUID (Fixed_UID f) = Ok r.1 ∧
                    encodeEndpoint (Fixed_Endpoint f) = Ok r.2) l (zip uids eps).
Proof.
  revert eps acc; induction uids as [|u uids IH]; intros [|e eps] acc L H; try done;
    cbn [decodeFixed] in H.
  - injection H as <-. exists []. rewrite app_nil_r. split_and!; constructor.
  - inv_ok. parsed. injection L as L.
    match goal with
    | E : encodeUID ?a = Ok _, E' : encodeEndpoint ?b = Ok _ |- _ =>
      assert (decodeFixed uids eps (acc ++ [mkFixedEndpoint a b]) = Ok r) as H'
        by (destruct (last acc); inv_ok; exact H)
    end.
    apply (IH _ _ L) in H' as (l & -> & W & F). eexists (_ :: l).
    split_and!; [by rewrite <-app_assoc|by constructor|by constructor].
Qed.

Lemma encodeFixed_ok fs l raws :
  Forall2 (λ f r, encodeUID (Fixed_UID f) = Ok r.1 ∧
                  encodeEndpoint (Fixed_Endpoint f) = Ok r.2) l raws →
  encodeFixed (fields_bytes fs) l = Ok (fields_bytes (fs ++ fixed_fields raws)).
Proof.
  intros F; revert fs; induction F as [|f [u e] l raws [Eu Ee] F IH]; intros fs;
    cbn [encodeFixed fixed_fields].
  - by rewrite app_nil_r.
  - cbn [fst snd] in *. rewrite Eu, Ee, !bind_Ok, !Append_fields, IH. by rewrite <-!app_assoc.
Qed.

Lemma map_zip {A B} (l : list A) (k : list B) :
  length l = length k → map fst (zip l k) = l ∧ map snd (zip l k) = k.
Proof.
  revert k; induction l as [|a l IH]; intros [|b k] L; try done.
  injection L as L. destruct (IH k L) as [E1 E2]. simpl. by rewrite E1, E2.
Qed.

Lemma len_fields fs : len (fields_bytes fs) = foldr (λ f n, 4 + len f.2 + n) 0 fs.
Proof.
  induction fs as [|f fs IH]; [done|]. rewrite fields_bytes_cons. cbn [foldr]. rewrite <-IH.
  unfold len. rewrite length_app, length_field_bytes. lia.
Qed.

(** A durable body decodes to [m] when its laid-out encoding does. *)
Lemma durable_encodable m fs :
  typed_fields fs → HeaderLength + len (fields_bytes fs) <= MaxFrameLength →
  IsDurable (Type_ m) = true → byte_type (type_byte (Type_ m)) = Type_ m →
  decodeDurableFields (Type_ m) (collect_fields (Type_ m) fs) = Ok m →
  (decodeDurable (Type_ m) (fields_bytes fs) = Ok m →
   encodeDurable m = Ok (fields_bytes fs)) →
  encodable m.
Proof.
  intros T L D C H E. exists (fields_bytes fs). split; [|done].
  unfold encodeBody.
  destruct (Type_ m) as [| | | | | | | | | | | | | | | | | | | |y] eqn:Y; try discriminate D.
  6: destruct y; discriminate.
  all: by rewrite E; [|rewrite scan_collect by (by apply fields_fit)].
Qed.

Ltac finish_decode :=
  inv_ok; cbv iota in *; inv_ok;
  repeat match goal with
  | H : decodeDurableID _ = Ok _ |- _ => apply decodeDurableID_ok in H as (-> & ? & ?)
  | H : single_octet _ _ = Ok _ |- _ =>
      apply single_octet_ok in H as (-> & ? & ?)
  end; inv_ok; subst.

(** The identifiers of a durable body, as the decoder uses them. *)
Lemma one_value {A} (l : list A) : length l = 1%nat → ∃ a, l = [a].
Proof. destruct l as [|a [|]]; naive_solver. Qed.
Lemma two_values {A} (l : list A) : length l = 2%nat → ∃ a b, l = [a; b].
Proof. destruct l as [|a [|b [|]]]; naive_solver. Qed.

Lemma allZero_id v : length v = 16%nat → allZero v = false → decodeDurableID v = Ok v.
Proof. intros. by apply decodeDurableID_ok. Qed.

Ltac encode_durable :=
  unfold encodeDurable;
  cbn [Type_ set_FixedEndpoints set_AgreementID set_Flags set_Status set_Decline
       set_OperationID newMessage OperationID AgreementID Msg_Policy Msg_Status
       Msg_DeclineReason Msg_Flags FixedEndpoints];
  reduce_types.

Lemma decoded_saved fields m :
  decodeDurableFields DurableSaved fields = Ok m → decoded DurableSaved m.
Proof.
  intros H. unfold decodeDurableFields in H.
  change (durableOccurrences DurableSaved OperationIDTLV) with 1%nat in H.
  inv_ok. bool_to_prop.
  match goal with L : length _ = 1%nat |- _ => apply one_value in L as (v & V) end.
  rewrite V in *. finish_decode.
  split; [done|eauto with velvet|done|done|].
  apply (durable_encodable _ [(OperationIDTLV, v)]); eauto with velvet.
  - rewrite len_fields. cbn [foldr fst snd]. len_simpl.
  - read_durable. cbn. rewrite allZero_id by done. done.
  - cbn [Type_ set_OperationID newMessage]. intros D. encode_durable.
    body_fields. rewrite bind_Ok, D. done.
Qed.

Lemma decoded_check fields m :
  decodeDurableFields DurableCheck fields = Ok m → decoded DurableCheck m.
Proof.
  intros H. unfold decodeDurableFields in H.
  change (durableOccurrences DurableCheck OperationIDTLV) with 2%nat in H.
  inv_ok. bool_to_prop.
  match goal with L : length _ = 2%nat |- _ => apply two_values in L as (v & w & V) end.
  rewrite V in *. finish_decode.
  split; [done|eauto with velvet|done|done|].
  apply (durable_encodable _ [(OperationIDTLV, v); (OperationIDTLV, w)]); eauto with velvet.
  - rewrite len_fields. cbn [foldr fst snd]. len_simpl.
  - read_durable. cbn. rewrite !allZero_id by done. done.
  - cbn [Type_ set_OperationID set_AgreementID newMessage]. intros D. encode_durable.
    body_fields. rewrite bind_Ok, D. done.
Qed.

Lemma decoded_status fields m :
  decodeDurableFields DurableStatus fields = Ok m → decoded DurableStatus m.
Proof.
  intros H. unfold decodeDurableFields in H.
  change (durableOccurrences DurableStatus OperationIDTLV) with 2%nat in H.
  inv_ok. bool_to_prop.
  match goal with L : length _ = 2%nat |- _ => apply two_values in L as (v & w & V) end.
  rewrite V in *.
  match goal with H : single_octet _ _ = Ok ?s |- _ =>
    apply single_octet_ok in H as (_ & R & M); apply Z.ltb_ge in M end.
  finish_decode.
  split; [done|eauto with velvet|done|done|].
  eapply (durable_encodable _ [(OperationIDTLV, v); (OperationIDTLV, w); (StatusTLV, [_])]);
    eauto with velvet.
  - rewrite len_fields. cbn [foldr fst snd]. len_simpl.
  - read_durable. cbn [length bool_decide negb]. rewrite !allZero_id, !bind_Ok by done.
    rewrite single_octet_put, M by done. done.
  - cbn [Type_ set_OperationID set_AgreementID set_Status newMessage]. intros D. encode_durable.
    body_fields. rewrite bind_Ok, D. done.
Qed.

Lemma decoded_durable_decline fields m :
  decodeDurableFields DurableDecline fields = Ok m → decoded DurableDecline m.
Proof.
  intros H. unfold decodeDurableFields in H.
  change (durableOccurrences DurableDecline OperationIDTLV) with 1%nat in H.
  inv_ok. bool_to_prop.
  match goal with L : length _ = 1%nat |- _ => apply one_value in L as (v & V) end.
  rewrite V in *.
  match goal with H : single_octet _ _ = Ok ?s |- _ =>
    apply single_octet_ok in H as (_ & R & M); apply Z.ltb_ge in M end.
  match goal with S : declinePolicyMissing _ _ = false |- _ => rename S into Dp end.
  destruct (values fields DynamicLinkPolicyTLV) as [|p ps]; finish_decode; parsed;
    (split; [done|eauto 8 with velvet|done|done|]).
  - eapply (durable_encodable _ [(OperationIDTLV, v); (DeclineReasonTLV, [_])]);
      eauto with velvet.
    + rewrite len_fields. cbn [foldr fst snd]. len_simpl.
    + read_durable. cbn [length bool_decide negb]. rewrite !allZero_id, !bind_Ok by done.
      rewrite single_octet_put, M, !bind_Ok, Dp by done. done.
    + cbn [Type_ set_OperationID set_Decline newMessage]. intros D. encode_durable.
      body_fields. rewrite bind_Ok, D. done.
  - eapply (durable_encodable _ [(OperationIDTLV, v); (DeclineReasonTLV, [_]);
      (DynamicLinkPolicyTLV, p)]); eauto with velvet.
    + rewrite len_fields. cbn [foldr fst snd]. len_simpl.
    + read_durable. cbn [length bool_decide negb]. rewrite !allZero_id, !bind_Ok by done.
      rewrite single_octet_put, M, !bind_Ok by done.
      match goal with E : encodeDynamicLinkPolicy _ = Ok p |- _ =>
        rewrite (encodePolicy_Some _ _ E) by done end.
      rewrite !bind_Ok, Dp. done.
    + cbn [Type_ set_OperationID set_Decline newMessage]. intros D. encode_durable.
      match goal with E : encodeDynamicLinkPolicy _ = Ok p |- _ => rewrite E end.
      rewrite bind_Ok. body_fields. rewrite bind_Ok, D. done.
Qed.

Lemma raws_len l raws :
  Forall2 (λ f r, encodeUID (Fixed_UID f) = Ok r.1 ∧
                  encodeEndpoint (Fixed_Endpoint f) = Ok r.2) l raws →
  Forall (λ f, wf_uid (Fixed_UID f) ∧ wf_endpoint (Fixed_Endpoint f)) l →
  len (fields_bytes (fixed_fields raws)) <= 49 * len raws.
Proof.
  intros F W. induction F as [|f [u e] l raws [Eu Ee] F IH]; [done|].
  inversion W as [|? ? [Wu _] W']; subst. specialize (IH W').
  cbn [fixed_fields fst snd] in *. rewrite len_fields in *. cbn [foldr fst snd].
  apply (encodeUID_len _ _ Wu) in Eu. apply encodeEndpoint_len in Ee.
  unfold len in *. cbn [length]. lia.
Qed.

(** The encoding of a proposal that passes its self-check. *)
Lemma encode_propose m raws :
  Type_ m = DurablePropose → 1 <= len raws <= 2 →
  Forall2 (λ f r, encodeUID (Fixed_UID f) = Ok r.1 ∧
                  encodeEndpoint (Fixed_Endpoint f) = Ok r.2) (FixedEndpoints m) raws →
  let fs := ((OperationIDTLV, OperationID m) :: fixed_fields raws) ++
    (if Msg_Flags m =? 0 then [] else [(FlagsTLV, be_put 4 (Msg_Flags m))]) in
  decodeDurable DurablePropose (fields_bytes fs) = Ok m →
  encodeDurable m = Ok (fields_bytes fs).
Proof.
  intros T L F fs D. unfold encodeDurable. rewrite T. reduce_types.
  pose proof (Forall2_length _ _ _ F) as LF.
  rewrite (proj2 (Z.ltb_ge _ 1)), (proj2 (Z.ltb_ge 2 _)) by (unfold len in *; lia).
  rewrite Append_nil, (encodeFixed_ok _ _ _ F). cbn [orb]. rewrite bind_Ok.
  rewrite Append_fields. subst fs.
  destruct (Msg_Flags m =? 0); cbn [negb]; rewrite bind_Ok;
    rewrite ?app_nil_r in D |- *; cbn [app] in *; rewrite D; done.
Qed.

Lemma decode_propose_inv fs m :
  decodeDurableFields DurablePropose (collect_fields DurablePropose fs) = Ok m →
  ∃ v raws l fl,
    m = set_Flags fl (set_FixedEndpoints l (set_OperationID v (newMessage DurablePropose))) ∧
    length v = 16%nat ∧ allZero v = false ∧ 0 <= fl < 2 ^ 32 ∧ 1 <= len raws <= 2 ∧
    decodeFixed (map fst raws) (map snd raws) [] = Ok l ∧
    Forall (λ f, wf_uid (Fixed_UID f) ∧ wf_endpoint (Fixed_Endpoint f)) l ∧
    Forall2 (λ f r, encodeUID (Fixed_UID f) = Ok r.1 ∧
                    encodeEndpoint (Fixed_Endpoint f) = Ok r.2) l raws.
Proof.
  intros H. unfold decodeDurableFields in H.
  assert (L2 : (length (values (collect_fields DurablePropose fs) NodeUIDTLV) <= 2)%nat).
  { rewrite values_collect. rewrite length_take.
    change (durableOccurrences DurablePropose NodeUIDTLV) with 2%nat. lia. }
  change (durableOccurrences DurablePropose OperationIDTLV) with 1%nat in H.
  inv_ok. bool_to_prop.
  match goal with L : length _ = 1%nat |- _ => apply one_value in L as (v & V) end.
  rewrite V in *.
  set (us := values _ NodeUIDTLV) in *. set (es := values _ WGEndpointTLV) in *.
  match goal with D : decodeFixed _ _ _ = Ok ?l', L : length us = length es |- _ =>
    pose proof D as Df; rename L into Les;
    destruct (decodeFixed_ok _ _ _ _ Les D) as (l & Ea & Wl & F); cbn [app] in Ea;
    destruct (map_zip us es Les) as [M1 M2]
  end.
  assert (Hid : length v = 16%nat ∧ allZero v = false) by (clear H; by finish_decode).
  assert (∃ fl, 0 <= fl < 2 ^ 32 ∧
    m = set_Flags fl (set_FixedEndpoints l (set_OperationID v (newMessage DurablePropose))))
    as (fl & Rf & ->).
  { destruct (values _ FlagsTLV) as [|f fs']; finish_decode.
    - by exists 0.
    - bool_to_prop. assert (length f = 4%nat) as L4 by (unfold len in *; lia).
      unfold Uint32 in *. rewrite UintBE_all in * by done. simplify_eq.
      exists (be_get f). split; [by apply (be_get_bound f 4)|done]. }
  exists v, (zip us es), l, fl. destruct Hid. rewrite M1, M2. rewrite Ea in Df.
  split_and!; try done; try lia; unfold len; rewrite length_zip; lia.
Qed.

Lemma decoded_propose fs m :
  decodeDurableFields DurablePropose (collect_fields DurablePropose fs) = Ok m →
  decoded DurablePropose m.
Proof.
  intros (v & raws & l & fl & E & Lv & Zv & Rf & Lr & Df & Wl & F)%decode_propose_inv.
  destruct (propose_fields m raws Lr) as (P1 & P2 & P3 & P4).
  assert (W : wf_message m) by (rewrite E; eauto 8 with velvet).
  assert (EO : OperationID m = v ∧ Type_ m = DurablePropose ∧ FixedEndpoints m = l ∧
    Msg_Flags m = fl) by by rewrite E.
  destruct EO as (EO & ET & EF & EL).
  assert (D : decodeDurableFields DurablePropose (collect_fields DurablePropose
    (((OperationIDTLV, OperationID m) :: fixed_fields raws) ++
      (if Msg_Flags m =? 0 then [] else [(FlagsTLV, be_put 4 (Msg_Flags m))]))) = Ok m).
  { unfold decodeDurableFields. rewrite P1, P2, P3, P4, EO, EL, Df.
    rewrite bool_decide_eq_true_2 by done. cbn [negb]. rewrite allZero_id, !bind_Ok by done.
    rewrite !length_map, bool_decide_eq_false_2 by (unfold len in *; lia).
    rewrite bool_decide_eq_true_2 by done. cbn [negb orb]. rewrite ?bind_Ok, E.
    destruct (Z.eqb_spec fl 0) as [->|N]; [done|].
    destruct (be4_put _ Rf) as [L4 G4]. by rewrite L4, Uint32_put, bind_Ok, G4. }
  split; [done|done|by unfold sendable; rewrite ET|by unfold carried; rewrite E|].
  eapply (durable_encodable m (((OperationIDTLV, OperationID m) :: fixed_fields raws) ++
    (if Msg_Flags m =? 0 then [] else [(FlagsTLV, be_put 4 (Msg_Flags m))])));
    rewrite ?ET; try done.
  - destruct (_ =? 0); eauto with velvet.
  - pose proof (raws_len _ _ F Wl) as Lraw. rewrite fields_bytes_app, fields_bytes_cons.
    clear - Lraw Lr Lv EO. unfold len in *.
    rewrite !length_app, length_field_bytes. cbn [fst snd]. rewrite EO, Lv.
    assert (length (fields_bytes (if (Msg_Flags m =? 0)%Z then [] else
      [(FlagsTLV, be_put 4 (Msg_Flags m))])) <= 8)%nat.
    { destruct (_ =? 0); [simpl; lia|]. rewrite fields_bytes_cons, length_app, length_field_bytes.
      cbn [snd]. rewrite length_be_put. simpl. lia. }
    unfold HeaderLength, MaxFrameLength. lia.
  - apply encode_propose; [done..|by rewrite EF].
Qed.

(** * The decoder is sound *)

Lemma Decode_decoded f m : Decode f = Ok m → decoded (Type_ m) m.
Proof.
  intros (t & fs & -> & C & W & L & U & D)%Decode_inv.
  enough (decoded t m) as H by (by rewrite (decoded_type _ _ H)).
  destruct (IsDurable t) eqn:ID.
  - rewrite scan_collect in D by done. destruct t; try discriminate ID.
    + by apply (decoded_propose fs).
    + by eapply decoded_saved.
    + by eapply decoded_durable_decline.
    + by eapply decoded_check.
    + by eapply decoded_status.
    + exfalso. by apply (unknownType_assigned _ U C b).
  - by apply (decodeSelected_decoded t _ m C U ID D).
Qed.

Lemma Encode_ok m f :
  Encode m = Ok f ↔
  ∃ b, encodeBody m = Ok b ∧ HeaderLength + len b <= MaxFrameLength ∧ f = frame_of (Type_ m) b.
Proof.
  unfold Encode. split.
  - intros H. inv_ok. bool_to_prop. eauto.
  - intros (b & -> & L & ->). rewrite bind_Ok. by rewrite (proj2 (Z.ltb_ge _ _)).
Qed.

(** * Totality *)

Lemma returns_decodeFixed uids eps acc :
  length uids = length eps → returns (decodeFixed uids eps acc).
Proof.
  revert eps acc; induction uids as [|u uids IH]; intros [|e eps] acc L; try done.
  injection L as L. cbn [decodeFixed]. returns_tac; by apply IH.
Qed.

Lemma returns_single_octet v max : returns (single_octet v max).
Proof. rewrite single_octet_eq. returns_tac. Qed.
Lemma returns_decodeDurableID v : returns (decodeDurableID v).
Proof. unfold decodeDurableID. returns_tac. Qed.
#[export] Hint Resolve returns_single_octet returns_decodeDurableID : returns.

Lemma durableOccurrences_id t :
  durableOccurrences t OperationIDTLV = 1%nat ∨ durableOccurrences t OperationIDTLV = 2%nat.
Proof. unfold durableOccurrences; cbn [Z.eqb Pos.eqb OperationIDTLV].
  destruct (_ || _); auto. Qed.

Lemma returns_decodeDurableFields t fields : returns (decodeDurableFields t fields).
Proof.
  unfold decodeDurableFields. destruct (negb (bool_decide _)) eqn:L; [done|]. bool_to_prop.
  destruct (values fields OperationIDTLV) as [|v ids].
  { pose proof (durableOccurrences_id t). simpl in L. lia. }
  returns_tac; bool_to_prop; [by apply returns_decodeFixed|].
  by rewrite Slice_ok by (unfold len in *; lia).
Qed.
#[export] Hint Resolve returns_decodeDurableFields : returns.

Lemma returns_frameLength f : returns (frameLength f).
Proof. rewrite frameLength_eq; cbv zeta. returns_tac. Qed.
#[export] Hint Resolve returns_frameLength : returns.

Lemma returns_decodeSelected t sel : returns (decodeSelected t sel).
Proof. unfold decodeSelected, frame_err, bare_err. returns_tac. Qed.
#[export] Hint Resolve returns_decodeSelected : returns.

Lemma returns_Decode f : returns (Decode f).
Proof. rewrite Decode_eq; cbv zeta.
  unfold decodeDurable, frame_err, bare_err. returns_tac. Qed.
#[export] Hint Resolve returns_Decode : returns.
