(* ===== verification/MessageProps.v ===== *)
(** The contract of the VFP wire codec: round trips, soundness and totality of
    the decoder, forward compatibility, the split between the UDP and the TCP
    binding, and the framing of a TCP stream. *)

From S2P Require Import Prelude Netip Tlv Field Control MessageData DurableWire Message.
Open Scope Z_scope.
Open Scope velvet_scope.

(** A field [Decode] skips: its type does not use [k], or uses no further
    occurrence of it after the fields [before]. *)
Definition redundant (t : MsgType) (before : list field) (k : Z) : Prop :=
  if IsDurable t then (durableOccurrences t k <= length (field_all k before))%nat
  else usedBy t k = false ∨ is_Some (field_first k before).

(** The error, if any, wraps [ErrFrame]. *)
Definition frame_error {A} (r : result A) : Prop :=
  ∀ e, r = Err e → ∃ text, e = ErrFrame text.

(** A message of each kind the examples below use. *)
Definition examplePing : Message :=
  set_OperationID (replicate 16 x07) (newMessage LinkPing).
Definition examplePropose : Message :=
  set_Flags NoDurable (set_FixedEndpoints
    [mkFixedEndpoint (mkUID (replicate 16 x01) "a1") (AddrPortFrom (Addr4 0xc0000201) 51820);
     mkFixedEndpoint (mkUID (replicate 16 x02) "") (AddrPortFrom (Addr6 (0x20010db8 * 2 ^ 96 + 1) "") 51821)]
    (set_OperationID (replicate 16 x07) (newMessage DurablePropose))).

(** A NODE_STATE for the multicast address ff02::1: encoded, and refused. *)
Definition exampleMulticast : Message :=
  set_LoopbackV6 (Addr6 (0xff02 * 2 ^ 112 + 1) "") (newMessage NodeState).

(** [b] is laid out as fields that [Decode] refuses. *)
Definition refused (t : MsgType) (b : list byte) : Prop :=
  ∃ fs, b = fields_bytes fs ∧ typed_fields fs ∧
    ∃ text, decodeSelected t (select_fields t fs) = Err (ErrFrame text).

Lemma wf_examplePing : wf_message examplePing.
Proof. unfold examplePing. by eauto with velvet. Qed.
Lemma wf_examplePropose : wf_message examplePropose.
Proof.
  unfold examplePropose. apply wf_set_Flags; [done|]. apply wf_set_FixedEndpoints.
  - repeat constructor; done.
  - eauto with velvet.
Qed.

(** ** What [Encode] accepts and [Decode] refuses

    [Encode] does not apply [validAddress] to a loopback or a link prefix. *)

Lemma parseAddress_refused (raw : list byte) (ipv4 : bool) :
  validAddress (if ipv4 then AddrFrom4 raw else AddrFrom16 raw) = false →
  ∃ e, parseAddress (Some raw) ipv4 = Err e.
Proof.
  rewrite parseAddress_eq; cbv zeta. intros V. rewrite V.
  destruct (negb (_ =? _)); eauto.
Qed.

Lemma parsePrefix_refused (raw : list byte) (ipv4 : bool) :
  validAddress (if ipv4 then AddrFrom4 raw else AddrFrom16 raw) = false →
  ∃ e, parsePrefix (Some raw) ipv4 = Err e.
Proof.
  intros [e E]%parseAddress_refused. exists e. unfold parsePrefix. by rewrite E.
Qed.

Lemma refused_NodeState m b :
  wf_message m → Type_ m = NodeState → ¬ sendable m → encodeBody m = Ok b →
  refused (Type_ m) b.
Proof.
  intros W T V E. unfold encodeBody, sendable in *. rewrite T in *. inv_ok.
  subst b. bool_to_prop. apply not_true_is_false in V.
  destruct (wf_Loopback m W) as [Wa Wz].
  destruct (raw16_wf _ _ Wa Wz ltac:(done) ltac:(eassumption)) as [L A]. lay_out.
  destruct (parseAddress_refused x false) as [e Er]; [by rewrite A|].
  rewrite Er. cbn [frame_err map_err]. eauto.
Qed.

Lemma prefix_v4_refused p v :
  wf_prefix p → validAddress (Prefix_Addr p) = false → Bits p = 30 → p = Masked p →
  As4 (Prefix_Addr p) = Ok v → ∃ e, parsePrefix (Some v) true = Err e.
Proof.
  intros W V B M A. destruct (As4_prefix p v W B M A) as (x & E & -> & R).
  apply parsePrefix_refused. unfold AddrFrom4. rewrite be_get_put_small by done.
  by rewrite E in V.
Qed.
Lemma prefix_v6_refused p v :
  wf_prefix p → validAddress (Prefix_Addr p) = false → Bits p = 126 →
  As16 (Prefix_Addr p) = Ok v → ∃ e, parsePrefix (Some v) false = Err e.
Proof.
  intros W V B A. destruct (As16_prefix p v W B A) as (x & E & -> & R).
  apply parsePrefix_refused. unfold AddrFrom16. rewrite be_get_put_small by done.
  by rewrite E in V.
Qed.

Lemma refused_LinkPropose m b :
  wf_message m → Type_ m = LinkPropose → ¬ sendable m → encodeBody m = Ok b →
  refused (Type_ m) b.
Proof.
  intros W T V E. unfold encodeBody, sendable in *. rewrite T in *.
  destruct (wf_LinkPrefixes m W) as [W4 W6].
  destruct (Prefix_IsValid (LinkPrefixV4 m)) eqn:I4, (Prefix_IsValid (LinkPrefixV6 m)) eqn:I6;
    [destruct (validAddress (Prefix_Addr (LinkPrefixV4 m))) eqn:V4,
       (validAddress (Prefix_Addr (LinkPrefixV6 m))) eqn:V6
    |destruct (validAddress (Prefix_Addr (LinkPrefixV4 m))) eqn:V4
    |destruct (validAddress (Prefix_Addr (LinkPrefixV6 m))) eqn:V6
    |]; try (by destruct V; split; intros ?);
    inv_ok; bool_to_prop; subst; lay_out; rewrite ?parsePrefix_None;
    repeat match goal with
    | V : validAddress _ = false, A : As4 _ = Ok ?v |- _ =>
      destruct (prefix_v4_refused _ v W4 V ltac:(done) ltac:(done) A) as [? ->]; clear A
    | A : As4 _ = Ok ?v |- _ => rewrite (prefix_v4_fields _ v W4) by done; clear A
    | V : validAddress _ = false, A : As16 _ = Ok ?v |- _ =>
      destruct (prefix_v6_refused _ v W6 V ltac:(done) A) as [? ->]; clear A
    | A : As16 _ = Ok ?v |- _ => rewrite (prefix_v6_fields _ v W6) by done; clear A
    end; cbn [frame_err map_err]; rewrite ?bind_Ok; eexists; reflexivity.
Qed.

Lemma sendable_other m :
  Type_ m ≠ NodeState → Type_ m ≠ LinkPropose → sendable m.
Proof. unfold sendable. by destruct (Type_ m). Qed.

Lemma Encode_refused m f :
  wf_message m → ¬ sendable m → Encode m = Ok f → ∃ text, Decode f = Err (ErrFrame text).
Proof.
  intros W V E. apply Encode_ok in E as (b & E & L & ->).
  assert (refused (Type_ m) b ∧ (Type_ m = NodeState ∨ Type_ m = LinkPropose))
    as [(fs & -> & Ty & text & D) T].
  { destruct (decide (Type_ m = NodeState)) as [T|]; [split; [by apply refused_NodeState|auto]|].
    destruct (decide (Type_ m = LinkPropose)) as [T|]; [split; [by apply refused_LinkPropose|auto]|].
    by destruct V; apply sendable_other. }
  exists text. rewrite Decode_frame by (apply (wf_Type m W) || done || by apply fields_fit).
  by destruct T as [T|T]; rewrite T in *.
Qed.

(** C1: the wire format round-trips, and exactly when.  For a message whose
    fields are in the range of their Go types and whose addresses carry no zone
    ([wf_message]), a frame that [Encode] makes has the declared length, within
    the limit; it decodes to the fields the message type carries when the message
    is [sendable]; otherwise (a NODE_STATE loopback or a LINK_PROPOSE prefix that
    is unspecified, multicast, link-local or the limited broadcast address, which
    [Encode] lets through) [Decode] refuses it with an [ErrFrame]. *)
Theorem Encode_roundtrip m f :
  wf_message m → Encode m = Ok f →
  (sendable m → Decode f = Ok (carried m)) ∧
  (¬ sendable m → ∃ text, Decode f = Err (ErrFrame text)) ∧
  frameLength f = Ok (len f) ∧ len f <= MaxFrameLength.
Proof.
  intros W E. split; [by intros; apply Encode_Decode|].
  split; [by intros; apply (Encode_refused m)|].
  apply Encode_ok in E as (b & _ & L & ->). pose proof (len_nonneg b).
  rewrite frameLength_frame_of by done.
  destruct (frame_of_fields (Type_ m) b) as (-> & _); [|done].
  unfold HeaderLength, MaxFrameLength in *. lia.
Qed.

Lemma Encode_roundtrip_witness :
  (∃ f, Encode examplePropose = Ok f ∧ Decode f = Ok examplePropose) ∧
  (∃ f text, Encode exampleMulticast = Ok f ∧ Decode f = Err (ErrFrame text)).
Proof.
  split.
  - destruct (Encode examplePropose) as [f|e|] eqn:E; [|by vm_compute in E..].
    exists f. split; [done|].
    destruct (Encode_roundtrip examplePropose f wf_examplePropose E) as [D _].
    rewrite (D I). by vm_compute.
  - destruct (Encode exampleMulticast) as [f|e|] eqn:E; [|by vm_compute in E..].
    assert (W : wf_message exampleMulticast).
    { apply wf_set_LoopbackV6; [|eauto with velvet]. by vm_compute. }
    destruct (Encode_roundtrip exampleMulticast f W E) as (_ & [text D] & _);
      [by vm_compute|]. by exists f, text.
Defined.

(** [Encode] does not look at the family of an IPv4 link prefix: [As4] panics on an
    IPv6 one. *)
Lemma Encode_panics_on_family :
  Encode (set_LinkPrefixes (mkPrefix (Addr6 0 "") 30) Prefix_zero (newMessage LinkPropose)) = Panic.
Proof. by vm_compute. Qed.

(** C3: the decoder is sound and canonical.  Every message [Decode] returns, on
    any octets, is well formed and fills only the fields of its type; [Encode]
    accepts it, and the frame it gives decodes to the same message. *)
Theorem Decode_sound f m :
  Decode f = Ok m →
  wf_message m ∧ carried m = m ∧ ∃ f', Encode m = Ok f' ∧ Decode f' = Ok m.
Proof.
  intros D. destruct (Decode_decoded f m D) as [_ W S C (b & Eb & L)].
  split_and!; [done..|]. exists (frame_of (Type_ m) b).
  assert (E : Encode m = Ok (frame_of (Type_ m) b)) by (apply Encode_ok; eauto).
  split; [done|]. by rewrite (Encode_Decode m _ W S E), C.
Qed.

Lemma Decode_sound_witness :
  ∃ f, Decode f = Ok examplePing ∧ wf_message examplePing.
Proof.
  destruct (Encode examplePing) as [f|e|] eqn:E; [|by vm_compute in E..].
  exists f. assert (D : Decode f = Ok examplePing).
  { vm_compute in E. injection E as <-. by vm_compute. }
  split; [done|]. exact (proj1 (Decode_sound f examplePing D)).
Defined.

(** * Errors *)

Lemma frame_error_bind {A B} (r : result A) (k : A → result B) :
  frame_error r → (∀ a, r = Ok a → frame_error (k a)) → frame_error (r ≫= k).
Proof. unfold frame_error. destruct r; naive_solver. Qed.
Lemma frame_error_map {A} g (r : result A) :
  (∀ e, ∃ text, g e = ErrFrame text) → frame_error (map_err g r).
Proof. unfold frame_error. destruct r; naive_solver. Qed.
Lemma frame_error_Ok {A} (a : A) : frame_error (Ok a).
Proof. done. Qed.
Lemma frame_error_Err {A} text : frame_error (@Err A (ErrFrame text)).
Proof. intros e [= <-]. eauto. Qed.
Lemma frame_error_Panic {A} : frame_error (@Panic A).
Proof. done. Qed.

Lemma frame_error_Slice {A} (b : list A) i j : frame_error (Slice b i j).
Proof. unfold Slice. by destruct (bool_decide _). Qed.
Lemma frame_error_UintBE n b : frame_error (UintBE n b).
Proof. unfold UintBE. apply frame_error_bind; [apply frame_error_Slice|done]. Qed.

Ltac frame_error_tac :=
  repeat first
    [ apply frame_error_Ok | apply frame_error_Err | apply frame_error_Panic
    | apply frame_error_Slice | assumption
    | match goal with |- frame_error (_ ≫= _) => apply frame_error_bind; [|intros ? ?] end
    | apply frame_error_map; by eauto
    | match goal with |- frame_error (if ?b then _ else _) => destruct b eqn:? end
    | match goal with |- frame_error (match ?x with _ => _ end) => destruct x eqn:? end ].

Lemma frame_error_policy v : frame_error (parseDynamicLinkPolicy v).
Proof. rewrite parseDynamicLinkPolicy_eq. frame_error_tac. Qed.
Lemma frame_error_octet v max : frame_error (single_octet v max).
Proof. rewrite single_octet_eq. frame_error_tac. Qed.
Lemma frame_error_fixed uids eps acc : frame_error (decodeFixed uids eps acc).
Proof.
  revert eps acc; induction uids as [|u uids IH]; intros [|e eps] acc;
    cbn [decodeFixed]; frame_error_tac; apply IH.
Qed.

Lemma frame_error_durable t fields : frame_error (decodeDurableFields t fields).
Proof.
  unfold decodeDurableFields, decodeDurableID.
  frame_error_tac; first [apply frame_error_fixed | apply frame_error_octet
    | apply frame_error_policy | apply frame_error_UintBE].
Qed.

Lemma frame_error_selected t sel :
  t ≠ DiscoveryControl → frame_error (decodeSelected t sel).
Proof.
  intros N. unfold decodeSelected, frame_err, bare_err. destruct t; try done;
    frame_error_tac; (apply frame_error_octet || apply frame_error_policy).
Qed.

(** C6: decoding is total.  On no octet string does [Decode] panic: every index and
    slice it takes, in the frame, in a field and in a control blob, is in bounds
    (out of bounds they are [Panic]).  Unless the frame is a DISCOVERY_CONTROL, what
    it does not accept is an [ErrFrame]. *)
Theorem Decode_total f :
  returns (Decode f) ∧
  (byte_type (z2b (be_get f.[5:6])) ≠ DiscoveryControl → frame_error (Decode f)).
Proof.
  split; [apply returns_Decode|]. intros N.
  rewrite Decode_eq; cbv zeta. unfold decodeDurable, frame_err, bare_err. frame_error_tac.
  - apply frame_error_durable.
  - by apply frame_error_selected.
Qed.

Lemma Decode_total_witness : frame_error (Decode [x00]).
Proof. apply (proj2 (Decode_total [x00])). by vm_compute. Defined.

(** * Forward compatibility *)

Lemma field_first_app k fs gs :
  field_first k (fs ++ gs) =
  match field_first k fs with Some v => Some v | None => field_first k gs end.
Proof. induction fs as [|f fs IH]; [done|]. cbn. by destruct (f.1 =? k). Qed.

Lemma decodeDurableFields_ext t A B :
  (∀ k, values A k = values B k) → decodeDurableFields t A = decodeDurableFields t B.
Proof. intros E. unfold decodeDurableFields. by rewrite !E. Qed.

Lemma select_redundant t before f after :
  IsDurable t = false → redundant t before f.1 →
  select_fields t (before ++ f :: after) = select_fields t (before ++ after).
Proof.
  unfold redundant. intros -> R. apply map_eq. intros k. rewrite !lookup_select_fields.
  destruct (usedBy t k) eqn:U; [|done]. rewrite !field_first_app. cbn [field_first].
  destruct (Z.eqb_spec f.1 k) as [<-|N]; [|done].
  destruct R as [R|[v ->]]; [congruence|done].
Qed.

Lemma collect_redundant t before f after k :
  IsDurable t = true → redundant t before f.1 →
  values (collect_fields t (before ++ f :: after)) k =
  values (collect_fields t (before ++ after)) k.
Proof.
  unfold redundant. intros -> R. rewrite !values_collect, !field_all_app. cbn [field_all].
  destruct (Z.eqb_spec f.1 k) as [<-|N]; [|done].
  by rewrite !take_app_le by done.
Qed.

(** C7: forward compatibility.  A field the message type does not use, or a
    repetition beyond the uses it has, changes nothing, wherever it stands in a
    frame that stays within the limit. *)
Theorem Decode_ignores_redundant t before f after :
  byte_type (type_byte t) = t → Forall wf_field (before ++ f :: after) →
  HeaderLength + len (fields_bytes (before ++ f :: after)) <= MaxFrameLength →
  redundant t before f.1 →
  Decode (frame_of t (fields_bytes (before ++ f :: after))) =
  Decode (frame_of t (fields_bytes (before ++ after))).
Proof.
  intros C W L R.
  assert (W' : Forall wf_field (before ++ after)).
  { apply Forall_app in W as [W1 W2]. inversion W2; subst. by apply Forall_app. }
  assert (L' : HeaderLength + len (fields_bytes (before ++ after)) <= MaxFrameLength).
  { rewrite !fields_bytes_app, fields_bytes_cons in *. unfold len in *.
    rewrite !length_app in *. lia. }
  rewrite !Decode_frame by done. destruct (unknownType t); [done|].
  destruct (IsDurable t) eqn:D.
  - rewrite !scan_collect by done. apply decodeDurableFields_ext.
    intros k. by apply collect_redundant.
  - by rewrite select_redundant.
Qed.

Lemma Decode_ignores_redundant_witness :
  Decode (frame_of LinkPing (fields_bytes
    [(OperationIDTLV, replicate 16 x07); (0x7777, [x01]); (OperationIDTLV, [x02])])) =
  Ok examplePing.
Proof.
  etransitivity; [apply (Decode_ignores_redundant LinkPing
    [(OperationIDTLV, replicate 16 x07)] (0x7777, [x01]) [(OperationIDTLV, [x02])])|].
  - done.
  - repeat constructor; done.
  - by vm_compute.
  - left. done.
  - by vm_compute.
Defined.

(** * Bindings *)

Lemma udp_type_negb t :
  negb (IsDiscovery t) && negb (IsLinkProbe t) && negb (IsPolicy t) &&
  negb (is_type t PublicProbe) = negb (udp_type t).
Proof. unfold udp_type. by rewrite !negb_orb. Qed.

(** C14: the UDP and the TCP binding split the message types.  A message [Write]
    puts on a TCP stream is refused by [EncodeDatagram], and its frame by
    [DecodeDatagram]; a datagram [EncodeDatagram] builds fits 1200 octets, is
    taken by [DecodeDatagram] exactly as by [Decode], and [Write] writes nothing
    of such a message. *)
Theorem bindings_disjoint m f :
  wf_message m → sendable m → Encode m = Ok f →
  if udp_type (Type_ m)
  then (∀ w, Write w m = Some ([], Err (ErrFrame "discovery is not valid over TCP"))) ∧
       (len f <= MaxDatagramLength →
          EncodeDatagram m = Ok f ∧ DecodeDatagram f = Ok (carried m)) ∧
       (MaxDatagramLength < len f → ¬ is_ok (EncodeDatagram m) ∧ ¬ is_ok (DecodeDatagram f))
  else (∀ w, Write w m = writeLoop w f []) ∧
       ¬ is_ok (EncodeDatagram m) ∧ ¬ is_ok (DecodeDatagram f).
Proof.
  intros W S E. pose proof (Encode_Decode m f W S E) as D.
  assert (T : Type_ (carried m) = Type_ m) by (unfold carried; by destruct (Type_ m)).
  unfold Write, EncodeDatagram, DecodeDatagram. rewrite udp_type_negb, E, D, !bind_Ok.
  rewrite udp_type_negb, T. fold (udp_type (Type_ m)).
  destruct (udp_type (Type_ m)); cbn [negb].
  - split; [done|]. split; intros L.
    + by rewrite (proj2 (Z.ltb_ge _ _)).
    + rewrite (proj2 (Z.ltb_lt _ _)) by done. naive_solver.
  - split; [done|]. destruct (_ <? _); naive_solver.
Qed.

Lemma bindings_disjoint_witness :
  ∃ f, Encode examplePropose = Ok f ∧ ∀ w, Write w examplePropose = writeLoop w f [].
Proof.
  destruct (Encode examplePropose) as [f|e|] eqn:E; [|by vm_compute in E..].
  exists f. split; [done|].
  exact (proj1 (bindings_disjoint examplePropose f wf_examplePropose I E)).
Defined.

(** * Streams *)

Lemma writeLoop_prefix w f out bytes r :
  writeLoop w f out = Some (bytes, r) → ∃ sent, bytes = out ++ sent ∧ sent `prefix_of` f ∧
    (r = Ok tt → sent = f).
Proof.
  revert f out; induction w as [|[n e] w IH]; intros [|x f] out H; cbn [writeLoop] in H.
  - injection H as <- <-. exists []. by rewrite app_nil_r.
  - done.
  - injection H as <- <-. exists []. by rewrite app_nil_r.
  - destruct e as [e|].
    + injection H as <- <-. exists (take n (x :: f)). split_and!; [done| |done].
      apply prefix_take.
    + destruct (bool_decide _) eqn:Bd.
      * injection H as <- <-. exists []. rewrite app_nil_r. split_and!; [done| |done].
        apply prefix_nil.
      * apply IH in H as (sent & -> & [k P] & R). exists (take n (x :: f) ++ sent).
        split_and!; [by rewrite app_assoc| |].
        -- exists k. by rewrite <-app_assoc, <-P, take_drop.
        -- intros Q. by rewrite (R Q), take_drop.
Qed.

(** A writer that takes at least one octet per call and no more than offered. *)
Lemma writeLoop_done w f out :
  Forall (λ a, failure a = None ∧ (1 <= taken a)%nat) w → (length f <= length w)%nat →
  (∃ bytes r, writeLoop w f out = Some (bytes, r)).
Proof.
  intros F; revert f out; induction F as [|[n e] w [E N] F IH]; intros [|x f] out L;
    cbn [writeLoop]; eauto; [simpl in L; lia|].
  cbn [failure taken] in *. subst e. destruct (bool_decide _); [eauto|]. apply IH.
  rewrite length_drop. simpl in *. lia.
Qed.

Lemma frameLength_take r : HeaderLength <= len r → frameLength (take 8 r) = frameLength r.
Proof.
  intros L. rewrite !frameLength_eq; cbv zeta. rewrite !slice_take by lia.
  assert (len (take 8 r) <? HeaderLength = false) as ->.
  { apply Z.ltb_ge. unfold HeaderLength, len in *. rewrite length_take. lia. }
  by rewrite (proj2 (Z.ltb_ge (len r) _)).
Qed.

Lemma frameLength_app f rest n : frameLength f = Ok n → frameLength (f ++ rest) = Ok n.
Proof.
  intros E. pose proof (frameLength_ok f n E) as (L & _). rewrite <-E.
  rewrite <-(frameLength_take f L).
  rewrite <-(frameLength_take (f ++ rest)) by (unfold HeaderLength, len in *; rewrite length_app; lia).
  f_equal. apply take_app_le. unfold HeaderLength, len in *. lia.
Qed.

(** The buffer [Read] makes has room for the header and the declared body. *)
Lemma Read_eq r :
  Read r =
  if len r <? HeaderLength then (Err (ErrConnection "read header"), [])
  else match frameLength (take 8 r) with
    | Err _ => (Err (ErrConnection "frame"), drop 8 r)
    | Panic => (Panic, drop 8 r)
    | Ok length_ =>
      let body := Z.to_nat (length_ - HeaderLength) in
      if len (drop 8 r) <? length_ - HeaderLength
      then (Err (ErrConnection "read body"), [])
      else (Ok (take 8 r ++ take body (drop 8 r)), drop body (drop 8 r))
    end.
Proof.
  unfold Read. destruct (len r <? HeaderLength) eqn:L; [done|]. bool_to_prop.
  destruct (frameLength (take 8 r)) as [n|e|] eqn:F; [|done..].
  apply frameLength_ok in F as (_ & _ & _ & _ & N & _).
  unfold HeaderLength, len in *. cbv zeta.
  rewrite SliceFrom_ok by (rewrite length_Copy; lia).
  rewrite (length_drop (Copy _ _)), length_Copy.
  replace (Z.of_nat (Z.to_nat n - 8)) with (n - 8) by lia.
  replace (Z.to_nat n - 8)%nat with (Z.to_nat (n - 8)) by lia.
  replace (take 8 (Copy (Z.to_nat n) (take 8 r))) with (take 8 r); [done|].
  unfold Copy. rewrite (take_ge (take 8 r)) by (rewrite length_take; lia).
  by rewrite take_app_length' by (rewrite length_take; lia).
Qed.

(** [Read] takes one frame off a stream that starts with it. *)
Lemma Read_frame f rest : frameLength f = Ok (len f) → Read (f ++ rest) = (Ok f, rest).
Proof.
  intros E. pose proof (frameLength_ok f _ E) as (L & _).
  assert (L8 : (8 <= length f)%nat) by (unfold HeaderLength, len in *; lia).
  rewrite Read_eq; cbv zeta. rewrite frameLength_take, (frameLength_app _ _ _ E)
    by (unfold HeaderLength, len in *; rewrite length_app; lia).
  rewrite !(proj2 (Z.ltb_ge _ _)).
  2: { unfold HeaderLength, len in *. rewrite length_drop, length_app. lia. }
  2: { unfold HeaderLength, len in *. rewrite length_app. lia. }
  replace (Z.to_nat (len f - HeaderLength)) with (length f - 8)%nat
    by (unfold HeaderLength, len; lia).
  rewrite take_app_le, drop_app_le by lia.
  rewrite take_app_length', drop_app_length' by (rewrite length_drop; lia).
  by rewrite take_drop.
Qed.

(** C12: a TCP message arrives whole.  For a well-formed message (fields in
    range, addresses without a zone) that [Encode] accepts and that is not of a UDP
    type: what [Write] puts on the stream is always a prefix of the frame, the whole
    frame when it reports success, and it returns once the writer has answered
    often enough; [Read] then takes exactly that frame off the stream, leaving what
    follows.  The frame decodes to the fields the message type carries if the
    message is [sendable], and [Decode] refuses it otherwise. *)
Theorem Write_Read m f w rest :
  wf_message m → udp_type (Type_ m) = false → Encode m = Ok f →
  (∀ bytes r, Write w m = Some (bytes, r) →
     bytes `prefix_of` f ∧
     (r = Ok tt → Read (bytes ++ rest) = (Ok f, rest) ∧
       (sendable m → Decode f = Ok (carried m)) ∧
       (¬ sendable m → ∃ text, Decode f = Err (ErrFrame text)))) ∧
  (Forall (λ a, failure a = None ∧ (1 <= taken a)%nat) w → (length f <= length w)%nat →
     ∃ bytes r, Write w m = Some (bytes, r)).
Proof.
  intros W U E. unfold Write. fold (udp_type (Type_ m)). rewrite U, E. split.
  - intros bytes r H. apply writeLoop_prefix in H as (sent & -> & P & R).
    split; [done|]. intros Q. rewrite (R Q).
    split; [|split; intros; [by apply Encode_Decode|by apply (Encode_refused m)]].
    apply Read_frame. apply Encode_ok in E as (b & _ & L & ->). pose proof (len_nonneg b).
    rewrite frameLength_frame_of by done.
    destruct (frame_of_fields (Type_ m) b) as (-> & _); [|done].
    unfold HeaderLength, MaxFrameLength in *. lia.
  - intros F L. by apply writeLoop_done.
Qed.

Lemma Write_Read_witness :
  ∃ f, Encode examplePropose = Ok f ∧
    ∃ bytes r, Write (replicate 200 (mkAnswer 3 None)) examplePropose = Some (bytes, r).
Proof.
  destruct (Encode examplePropose) as [f|e|] eqn:E; [|by vm_compute in E..].
  exists f. split; [done|].
  apply (Write_Read examplePropose f (replicate 200 (mkAnswer 3 None)) []
    wf_examplePropose eq_refl E).
  - apply Forall_replicate. simpl. split; [done|lia].
  - vm_compute in E. injection E as <-. rewrite length_replicate. simpl. lia.
Defined.

(** C13: [Read] never takes more than it returns.  A frame it returns is the head of
    the stream, of its declared length (8 to 4096 octets), and the rest is left;
    otherwise the error is an [ErrConnection]; it never panics. *)
Theorem Read_exact r :
  match Read r with
  | (Ok f, rest) => r = f ++ rest ∧ frameLength f = Ok (len f) ∧
                    HeaderLength <= len f <= MaxFrameLength
  | (Err e, rest) => ∃ text, e = ErrConnection text ∧ rest `suffix_of` r
  | (Panic, _) => False
  end.
Proof.
  rewrite Read_eq; cbv zeta. destruct (len r <? HeaderLength) eqn:L.
  { eexists. split; [done|apply suffix_nil]. }
  bool_to_prop. pose proof (returns_frameLength (take 8 r)) as Rt.
  rewrite frameLength_take in * by done.
  destruct (frameLength r) as [n|e|] eqn:E; [|by eexists; split; [|apply suffix_drop]|done].
  destruct (len (drop 8 r) <? n - HeaderLength) eqn:B.
  { eexists. split; [done|apply suffix_nil]. }
  bool_to_prop. pose proof (frameLength_ok _ _ E) as (_ & _ & _ & _ & R).
  set (k := Z.to_nat (n - HeaderLength)).
  assert (Lf : len (take 8 r ++ take k (drop 8 r)) = n).
  { unfold k, HeaderLength, MaxFrameLength, len in *.
    rewrite length_app, !length_take, length_drop in *. lia. }
  rewrite Lf. split_and!; [by rewrite <-app_assoc, !take_drop| |lia..].
  rewrite <-E, <-(frameLength_take _ L).
  rewrite <-(frameLength_take (take 8 r ++ take k (drop 8 r))) by (rewrite Lf; lia). f_equal.
  rewrite take_app_le, take_take; [f_equal; lia|].
  unfold HeaderLength, len in *. rewrite length_take. lia.
Qed.
