(* ===== verification/Sha256.v ===== *)
(** crypto/sha256 and crypto/hmac of the Go standard library (FIPS 180-4, RFC
    2104): executable, since the link derivation and the probe seals are
    functions of them.  Only their output length matters to the proofs. *)

From Stdlib Require String.
From S2P Require Import Prelude.
Open Scope Z_scope.
Open Scope velvet_scope.

Definition w32 (z : Z) : Z := z mod 2 ^ 32.
Definition rotr (n x : Z) : Z :=
  Z.lor (Z.shiftr x n) (w32 (Z.shiftl x (32 - n))).
Definition not32 (x : Z) : Z := 2 ^ 32 - 1 - x.

(** The constants of the standard: the first 32 bits of the fractional parts of
    the cube roots (rounds) and of the square roots (initial state) of the
    first primes, computed here. *)
Fixpoint primes_from (fuel : nat) (p : Z) : list Z :=
  match fuel with
  | O => []
  | S fuel =>
    let rest := primes_from fuel (p + 1) in
    if forallb (λ d, negb (p mod Z.of_nat d =? 0)) (seq 2 (Z.to_nat p - 2))
    then p :: rest else rest
  end.

(** The cube root of [n] rounded down, bit by bit from bit [k - 1]. *)
Fixpoint cube_root (k : nat) (acc n : Z) : Z :=
  match k with
  | O => acc
  | S k => let t := acc + 2 ^ Z.of_nat k in
           cube_root k (if t * t * t <=? n then t else acc) n
  end.

Definition sha_K : list Z := Eval vm_compute in
  map (λ p, w32 (cube_root 36 0 (p * 2 ^ 96))) (primes_from 310 2).
Definition sha_H : list Z := Eval vm_compute in
  map (λ p, w32 (Z.sqrt (p * 2 ^ 64))) (primes_from 18 2).

Record sha_state := mkSha { sa : Z; sb : Z; sc : Z; sd : Z; se : Z; sf : Z; sg : Z; sh : Z }.
Definition sha_init : sha_state :=
  let H i := nth i sha_H 0 in
  mkSha (H 0%nat) (H 1%nat) (H 2%nat) (H 3%nat) (H 4%nat) (H 5%nat) (H 6%nat) (H 7%nat).

Definition sha_round (s : sha_state) (kw : Z * Z) : sha_state :=
  let '(mkSha a b c d e f g h) := s in
  let S1 := Z.lxor (Z.lxor (rotr 6 e) (rotr 11 e)) (rotr 25 e) in
  let ch := Z.lxor (Z.land e f) (Z.land (not32 e) g) in
  let t1 := w32 (h + S1 + ch + kw.1 + kw.2) in
  let S0 := Z.lxor (Z.lxor (rotr 2 a) (rotr 13 a)) (rotr 22 a) in
  let maj := Z.lxor (Z.lxor (Z.land a b) (Z.land a c)) (Z.land b c) in
  let t2 := w32 (S0 + maj) in
  mkSha (w32 (t1 + t2)) a b c (w32 (d + t1)) e f g.

(** The 64 schedule words; [recent] holds the last sixteen, newest first. *)
Fixpoint sha_schedule (n : nat) (recent : list Z) : list Z :=
  match n with
  | O => []
  | S n =>
    let nth_ i := nth i recent 0 in
    let s0 := Z.lxor (Z.lxor (rotr 7 (nth_ 14%nat)) (rotr 18 (nth_ 14%nat))) (Z.shiftr (nth_ 14%nat) 3) in
    let s1 := Z.lxor (Z.lxor (rotr 17 (nth_ 1%nat)) (rotr 19 (nth_ 1%nat))) (Z.shiftr (nth_ 1%nat) 10) in
    let w := w32 (nth_ 15%nat + s0 + nth_ 6%nat + s1) in
    w :: sha_schedule n (w :: take 15 recent)
  end.

(** Cut a list into pieces of [n]. *)
Fixpoint chunks {A} (fuel n : nat) (l : list A) : list (list A) :=
  match fuel, l with
  | S fuel, _ :: _ => take n l :: chunks fuel n (drop n l)
  | _, _ => []
  end.

Definition sha_block (s : sha_state) (block : list byte) : sha_state :=
  let w := map be_get (chunks 16 4 block) in
  let ws := w ++ sha_schedule 48 (rev w) in
  let t := foldl sha_round s (zip sha_K ws) in
  mkSha (w32 (sa s + sa t)) (w32 (sb s + sb t)) (w32 (sc s + sc t)) (w32 (sd s + sd t))
        (w32 (se s + se t)) (w32 (sf s + sf t)) (w32 (sg s + sg t)) (w32 (sh s + sh t)).

Definition sha_pad (m : list byte) : list byte :=
  let n := length m in
  m ++ [x80] ++ zeros ((119 - n mod 64) mod 64) ++ be_put 8 (8 * len m).

Definition sha256 (m : list byte) : list byte :=
  let p := sha_pad m in
  let s := foldl sha_block sha_init (chunks (length p) 64 p) in
  be_put 4 (sa s) ++ be_put 4 (sb s) ++ be_put 4 (sc s) ++ be_put 4 (sd s) ++
  be_put 4 (se s) ++ be_put 4 (sf s) ++ be_put 4 (sg s) ++ be_put 4 (sh s).

Definition bxor (a b : byte) : byte := z2b (Z.lxor (b2z a) (b2z b)).

Definition hmac_sha256 (key m : list byte) : list byte :=
  let key := if decide (64 < length key)%nat then sha256 key else key in
  let key := key ++ zeros (64 - length key) in
  sha256 (map (bxor x5c) key ++ sha256 (map (bxor x36) key ++ m)).

Lemma length_sha256 m : length (sha256 m) = 32%nat.
Proof. unfold sha256. by rewrite !length_app, !length_be_put. Qed.

Lemma length_hmac_sha256 k m : length (hmac_sha256 k m) = 32%nat.
Proof. apply length_sha256. Qed.

(** "abc", and test case 2 of RFC 4231. *)
Example sha256_abc :
  be_get (sha256 [x61; x62; x63]) =
  0xba7816bf8f01cfea414140de5dae2223b00361a396177a9cb410ff61f20015ad.
Proof. by vm_compute. Qed.
Example hmac_rfc4231_2 :
  be_get (hmac_sha256 (String.list_byte_of_string "Jefe")
    (String.list_byte_of_string "what do ya want for nothing?")) =
  0x5bdcc146bf60754e6a042426089575c75a003f089d2739839dec58b964ec3843.
Proof. by vm_compute. Qed.

#[global] Opaque hmac_sha256 sha256.
