(* ===== verification/NetipText.v ===== *)
(** net/netip of the Go standard library, text to value: [ParseAddr],
    [ParsePrefix] and [ParseAddrPort], as the specification, the derivations and
    the recovery files use them.  Strings are read as octets; every rejection is
    one error. *)

From Stdlib Require String.
From S2P Require Import Prelude Netip.
Open Scope Z_scope.
Open Scope velvet_scope.

Definition octets (s : string) : list byte := String.list_byte_of_string s.

Definition parse_error {A} : result A := Err (errors_New "netip: cannot parse").

Definition is_digit (c : byte) : bool := (48 <=? b2z c) && (b2z c <=? 57).

(** The hex value of an octet, if it is a hex digit. *)
Definition hex_value (c : byte) : option Z :=
  let z := b2z c in
  if is_digit c then Some (z - 48)
  else if (97 <=? z) && (z <=? 102) then Some (z - 87)
  else if (65 <=? z) && (z <=? 70) then Some (z - 55)
  else None.

(** [parseIPv4Fields]: [val], [digits] for the octet being read, [fields] those
    complete; [dot] tells that the last character was a dot (or none was read). *)
Fixpoint parse4 (s : list byte) (val : Z) (digits : nat) (fields : list byte) :
    result (list byte) :=
  match s with
  | [] =>
    if bool_decide (length fields < 3)%nat then parse_error
    else Ok (fields ++ [z2b val])
  | c :: rest =>
    if is_digit c then
      if bool_decide (digits = 1%nat) && (val =? 0) then parse_error
      else
        let val := val * 10 + (b2z c - 48) in
        if 255 <? val then parse_error else parse4 rest val (S digits) fields
    else if bool_decide (c = x2e) then
      if bool_decide (digits = 0%nat) || bool_decide (rest = []) then parse_error
      else if bool_decide (length fields = 3%nat) then parse_error
      else parse4 rest 0 0 (fields ++ [z2b val])
    else parse_error
  end.

Definition parseIPv4 (s : list byte) : result Addr :=
  fields ← parse4 s 0 0 []; Ok (AddrFrom4 fields).

(** The leading hex digits: their number, value and what follows.  [None] when
    the group has more than four digits. *)
Fixpoint hex_group (s : list byte) (off : nat) (acc : Z) : option (nat * Z * list byte) :=
  match s with
  | c :: rest =>
    match hex_value c with
    | Some v => if bool_decide (3 < off)%nat then None else hex_group rest (S off) (acc * 16 + v)
    | None => Some (off, acc, s)
    end
  | [] => Some (off, acc, s)
  end.

(** The [for i < 16] loop of [parseIPv6]: [ip] holds the octets written so far.
    The result is the octets, the ellipsis position and the unread text. *)
Fixpoint parse6 (fuel : nat) (s ip : list byte) (ellipsis : option nat) :
    result (list byte * option nat * list byte) :=
  match fuel with
  | O => Ok (ip, ellipsis, s)
  | S fuel =>
    if bool_decide (16 <= length ip)%nat then Ok (ip, ellipsis, s) else
    match hex_group s 0 0 with
    | None => parse_error
    | Some (off, acc, rest) =>
      if bool_decide (off = 0%nat) then parse_error else
      match rest with
      | c :: rest' =>
        if bool_decide (c = x2e) then
          if bool_decide (ellipsis = None) && negb (bool_decide (length ip = 12%nat))
          then parse_error
          else if bool_decide (16 < length ip + 4)%nat then parse_error
          else fields ← parse4 s 0 0 []; Ok (ip ++ fields, ellipsis, [])
        else
          let ip := ip ++ be_put 2 acc in
          if negb (bool_decide (c = x3a)) then parse_error else
          match rest' with
          | [] => parse_error
          | d :: rest'' =>
            if bool_decide (d = x3a) then
              match ellipsis with
              | Some _ => parse_error
              | None =>
                match rest'' with
                | [] => Ok (ip, Some (length ip), [])
                | _ => parse6 fuel rest'' ip (Some (length ip))
                end
              end
            else parse6 fuel rest' ip ellipsis
          end
      | [] => Ok (ip ++ be_put 2 acc, ellipsis, [])
      end
    end
  end.

(** Index of the first and of the last occurrence of an octet. *)
Fixpoint index_byte (s : list byte) (c : byte) : option nat :=
  match s with
  | [] => None
  | x :: s => if bool_decide (x = c) then Some 0%nat else S <$> index_byte s c
  end.
Definition last_index_byte (s : list byte) (c : byte) : option nat :=
  match index_byte (rev s) c with
  | Some i => Some (length s - 1 - i)%nat
  | None => None
  end.

Definition parseIPv6 (text : list byte) : result Addr :=
  '(s, zone) ←
    (match index_byte text x25 with
     | Some i =>
       if bool_decide (drop (S i) text = []) then parse_error
       else Ok (take i text, drop (S i) text)
     | None => Ok (text, [])
     end);
  let zone := String.string_of_list_byte zone in
  let '(s, ellipsis) := match s with
    | x3a :: x3a :: s' => (s', Some 0%nat)
    | _ => (s, None)
    end in
  if bool_decide (s = []) && bool_decide (ellipsis = Some 0%nat) then Ok (Addr6 0 zone) else
  '(ip, ellipsis, rest) ← parse6 8 s [] ellipsis;
  if negb (bool_decide (rest = [])) then parse_error else
  if bool_decide (length ip < 16)%nat then
    match ellipsis with
    | None => parse_error
    | Some e => Ok (Addr6 (be_get (take e ip ++ zeros (16 - length ip) ++ drop e ip)) zone)
    end
  else match ellipsis with
       | Some _ => parse_error
       | None => Ok (Addr6 (be_get ip) zone)
       end.

(** The first of ['.'], [':'] and ['%'] decides the family. *)
Fixpoint parse_family (s : list byte) : option byte :=
  match s with
  | [] => None
  | c :: s =>
    if bool_decide (c = x2e) || bool_decide (c = x3a) || bool_decide (c = x25)
    then Some c else parse_family s
  end.

Definition ParseAddr (text : string) : result Addr :=
  let s := octets text in
  match parse_family s with
  | Some x2e => parseIPv4 s
  | Some x3a => parseIPv6 s
  | _ => parse_error
  end.

(** Decimal digits without a sign, as [strconv.Atoi] reads them. *)
Fixpoint digits_value (s : list byte) (acc : Z) : option Z :=
  match s with
  | [] => Some acc
  | c :: s => if is_digit c then digits_value s (acc * 10 + (b2z c - 48)) else None
  end.

Definition ParsePrefix (text : string) : result Prefix :=
  let s := octets text in
  match last_index_byte s x2f with
  | None => parse_error
  | Some i =>
    ip ← ParseAddr (String.string_of_list_byte (take i s));
    if Is6 ip && negb (bool_decide (Zone ip = "")) then parse_error else
    let bits := drop (S i) s in
    match bits with
    | [] => parse_error
    | c :: more =>
      if negb (bool_decide (more = [])) && ((b2z c <? 49) || (57 <? b2z c)) then parse_error
      else match digits_value bits 0 with
           | None => parse_error
           | Some n =>
             if (if Is6 ip then 128 else 32) <? n then parse_error
             else Ok (PrefixFrom ip n)
           end
    end
  end.

Example ParseAddr_ex1 : ParseAddr "192.0.2.1" = Ok (Addr4 0xc0000201).
Proof. by vm_compute. Qed.
Example ParseAddr_ex2 :
  ParseAddr "2001:db8::ffff:192.0.2.1%eth0" =
  Ok (Addr6 (0x20010db8 * 2 ^ 96 + 0xffffc0000201) "eth0").
Proof. by vm_compute. Qed.
Example ParseAddr_ex3 :
  map is_ok [ParseAddr "::"; ParseAddr "1::"; ParseAddr "1:2:3:4:5:6:7:8"; ParseAddr "::1.2.3.4"] =
  [true; true; true; true].
Proof. by vm_compute. Qed.
Example ParseAddr_ex4 :
  map is_ok [ParseAddr "1.2.3"; ParseAddr "01.2.3.4"; ParseAddr "1::2::3"; ParseAddr "12345::";
    ParseAddr "1:2:3:4:5:6:7"; ParseAddr "1:2:3:4:5:6:7::8"; ParseAddr "1.2.3.256"; ParseAddr "";
    ParseAddr "fe80::1%"; ParseAddr "1.2.3.4."] = replicate 10 false.
Proof. by vm_compute. Qed.
Example ParsePrefix_ex :
  ParsePrefix "10.0.0.0/8" = Ok (mkPrefix (Addr4 0x0a000000) 8) ∧
  is_ok (ParsePrefix "10.0.0.0/33") = false ∧ is_ok (ParsePrefix "10.0.0.0/08") = false.
Proof. by vm_compute. Qed.

(** * Parsed values are in range *)

Lemma parse4_length s val digits fields out :
  (length fields <= 3)%nat → parse4 s val digits fields = Ok out → length out = 4%nat.
Proof.
  revert val digits fields; induction s as [|c s IH]; intros val digits fields L H;
    cbn [parse4] in H.
  - inv_ok. bool_to_prop. subst out. rewrite length_app. simpl. lia.
  - unfold parse_error in H. destruct (is_digit c).
    + inv_ok. by apply IH in H.
    + inv_ok. bool_to_prop. apply IH in H; [done|]. rewrite length_app. simpl. lia.
Qed.

Lemma parse6_length fuel s ip e out e' rest :
  (length ip <= 16)%nat → Nat.Even (length ip) → parse6 fuel s ip e = Ok (out, e', rest) →
  (length out <= 16)%nat.
Proof.
  revert s ip e; induction fuel as [|fuel IH]; intros s ip e L Ev H; cbn [parse6] in H.
  { by injection H as <- <- <-. }
  destruct (bool_decide _) eqn:B in H; [by injection H as <- <- <-|]. bool_to_prop.
  assert (L' : (length ip + 2 <= 16)%nat) by (destruct Ev; lia).
  assert (La : ∀ acc, length (ip ++ be_put 2 acc) = (length ip + 2)%nat)
    by (intros; by rewrite length_app, length_be_put).
  destruct (hex_group s 0 0) as [[[off acc] r]|]; [|done].
  destruct (bool_decide (off = 0%nat)); [done|].
  destruct r as [|c r].
  { injection H as <- <- <-. rewrite La. lia. }
  destruct (bool_decide (c = x2e)).
  - unfold parse_error in H. inv_ok. bool_to_prop.
    match goal with P : parse4 _ _ _ _ = Ok _ |- _ => apply parse4_length in P; [|simpl; lia] end.
    match goal with E : (_, _, _) = (out, _, _) |- _ => injection E as <- <- <- end.
    rewrite length_app. lia.
  - assert (Ev' : ∀ acc, Nat.Even (length (ip ++ be_put 2 acc))).
    { intros acc'. rewrite La. destruct Ev as [k ->]. exists (k + 1)%nat. lia. }
    destruct (negb _); [done|]. destruct r as [|d r]; [done|].
    destruct (bool_decide (d = x3a)).
    + destruct e; [done|]. destruct r as [|x r].
      * injection H as <- <- <-. rewrite La. lia.
      * apply IH in H; [done|rewrite La; lia|apply Ev'].
    + apply IH in H; [done|rewrite La; lia|apply Ev'].
Qed.

Lemma be_get_le16 bs : (length bs = 16)%nat → 0 <= be_get bs < 2 ^ 128.
Proof. intros L. pose proof (be_get_range bs) as R. unfold len in R. by rewrite L in R. Qed.

Lemma parseIPv6_wf s a : parseIPv6 s = Ok a → wf_addr a ∧ Addr_IsValid a = true.
Proof.
  unfold parseIPv6. intros H. apply bind_ok in H as ([t zone] & _ & H).
  destruct (match t with x3a :: x3a :: s' => _ | _ => _ end) as [u e].
  destruct (_ && _); [injection H as <-; split; [simpl; lia|done]|].
  apply bind_ok in H as ([[ip e'] rest] & P & H).
  apply parse6_length in P; [|simpl; lia|by exists 0%nat].
  destruct (negb _); [done|]. destruct (bool_decide _) eqn:B; bool_to_prop.
  - destruct e' as [k|]; [|done]. injection H as <-. split; [|done]. apply be_get_le16.
    rewrite !length_app, length_take, length_drop. unfold zeros. rewrite length_replicate. lia.
  - destruct e'; [done|]. injection H as <-. split; [|done]. apply be_get_le16. lia.
Qed.

Lemma wf_ParseAddr s a : ParseAddr s = Ok a → wf_addr a ∧ Addr_IsValid a = true.
Proof.
  unfold ParseAddr. destruct (parse_family _) as [[]|]; try done.
  - unfold parseIPv4. intros H. inv_ok. subst a.
    match goal with P : parse4 _ _ _ _ = Ok _ |- _ => apply parse4_length in P; [|simpl; lia] end.
    split; [by apply wf_AddrFrom4|done].
  - apply parseIPv6_wf.
Qed.

Lemma digits_value_nonneg s acc n : 0 <= acc → digits_value s acc = Some n → 0 <= n.
Proof.
  revert acc; induction s as [|c s IH]; intros acc A; cbn [digits_value].
  - by intros [= <-].
  - destruct (is_digit c) eqn:D; [|done]. unfold is_digit in D. bool_to_prop. apply IH. lia.
Qed.

Lemma ParsePrefix_ok s p :
  ParsePrefix s = Ok p → wf_prefix p ∧ Prefix_IsValid p = true ∧
    (Is4 (Prefix_Addr p) = true ∨ Is6 (Prefix_Addr p) = true).
Proof.
  unfold ParsePrefix. destruct (last_index_byte _ _) as [i|]; [|done]. intros H.
  apply bind_ok in H as (ip & P & H). apply wf_ParseAddr in P as [W V].
  destruct (Is6 ip && _) eqn:Z; [done|]. destruct (drop _ _) as [|c more] eqn:E; [done|].
  destruct (negb _ && _); [done|].
  destruct (digits_value (c :: more) 0) as [n|] eqn:D; [|done].
  apply digits_value_nonneg in D; [|lia]. inv_ok. bool_to_prop. subst p.
  split_and!; [by apply wf_PrefixFrom| |by destruct ip; auto].
  unfold Prefix_IsValid, PrefixFrom; cbn [Bits]. rewrite V.
  assert (n <= BitLen ip) by (destruct ip; done).
  rewrite (proj2 (Z.leb_le 0 n)), (proj2 (Z.leb_le n _)) by lia.
  cbn [andb]. by apply Z.leb_le.
Qed.

(** The parsers return on every text. *)
Lemma returns_parse4 s val digits fields : returns (parse4 s val digits fields).
Proof.
  revert val digits fields; induction s as [|c s IH]; intros; cbn [parse4];
    unfold parse_error; returns_tac; apply IH.
Qed.
#[export] Hint Resolve returns_parse4 : returns.
Lemma returns_parse6 fuel s ip e : returns (parse6 fuel s ip e).
Proof.
  revert s ip e; induction fuel as [|fuel IH]; intros; cbn [parse6];
    unfold parse_error; returns_tac; apply IH.
Qed.
#[export] Hint Resolve returns_parse6 : returns.
Lemma returns_ParseAddr s : returns (ParseAddr s).
Proof. unfold ParseAddr, parseIPv4, parseIPv6, parse_error. returns_tac. Qed.
#[export] Hint Resolve returns_ParseAddr : returns.
Lemma returns_ParsePrefix s : returns (ParsePrefix s).
Proof. unfold ParsePrefix, parse_error. returns_tac. Qed.
#[export] Hint Resolve returns_ParsePrefix : returns.
