(* ===== verification/Link.v ===== *)
(** internal/link/derive.go: the addresses and prefixes of a Link are functions
    of the Fabric PSK and the two identities, so that both ends compute the same
    values.  [digest] is HMAC-SHA-256 with its inputs separated by a zero octet;
    HKDF (golang.org/x/crypto) is a parameter. *)

From S2P Require Import Prelude Netip NetipText Sha256.
From Stdlib Require String.
Open Scope Z_scope.
Open Scope velvet_scope.

(** * Definitions *)

Record Proposal := mkProposal { V4 : Prefix; V6 : Prefix }.
#[global] Instance Proposal_eq_dec : EqDecision Proposal.
Proof. solve_decision. Defined.
Definition Proposal_zero : Proposal := mkProposal Prefix_zero Prefix_zero.

Definition Empty (p : Proposal) : bool :=
  negb (Prefix_IsValid (V4 p)) && negb (Prefix_IsValid (V6 p)).

Definition digest (key : list byte) (values : list (list byte)) : list byte :=
  hmac_sha256 key (concat (map (λ value, x00 :: value) values)).

(** One turn of the loop of [fillBits]; [&^=] is [Z.ldiff], [|=] is [Z.lor]. *)
Definition fillBit (poolBits addressBit : Z) (entropy addressBytes : list byte) : list byte :=
  let entropyBit := addressBit - poolBits in
  let value := Z.land (b2z (entropy !!! Z.to_nat ((entropyBit / 8) mod len entropy)))
                      (Z.shiftl 1 (7 - entropyBit mod 8)) in
  let mask := Z.shiftl 1 (7 - addressBit mod 8) in
  let i := Z.to_nat (addressBit / 8) in
  let old := b2z (addressBytes !!! i) in
  if value =? 0 then <[i := z2b (Z.ldiff old mask)]> addressBytes
  else <[i := z2b (Z.lor old mask)]> addressBytes.

(** [for addressBit := pool.Bits(); addressBit < targetBits; addressBit++]. *)
Fixpoint fillLoop (count : nat) (poolBits addressBit : Z) (entropy addressBytes : list byte) :
    list byte :=
  match count with
  | O => addressBytes
  | S count =>
    fillLoop count poolBits (addressBit + 1) entropy
      (fillBit poolBits addressBit entropy addressBytes)
  end.

Definition fillBits (pool : Prefix) (targetBits : Z) (entropy : list byte) : Addr :=
  let addressBytes :=
    fillLoop (Z.to_nat (targetBits - Bits pool)) (Bits pool) (Bits pool) entropy
      (AsSlice (Prefix_Addr pool)) in
  if Is4 (Prefix_Addr pool) then AddrFrom4 addressBytes else AddrFrom16 addressBytes.

Definition deriveSubnet (pool : Prefix) (bits : Z) (entropy : list byte) : Prefix :=
  Masked (PrefixFrom (fillBits pool bits entropy) bits).

Definition deriveHost (pool : Prefix) (entropy : list byte) : Addr :=
  let addr := fillBits pool (BitLen (Prefix_Addr pool)) entropy in
  if Is4 addr && (Bits pool <=? 30) then
    let masked := Prefix_Addr (Masked (PrefixFrom addr (Bits pool))) in
    if bool_decide (addr = masked) then Next addr else addr
  else addr.

Definition DeriveLinkLocal (fabricPSK uid : list byte) (interfaceName : string) : Prefix :=
  let entropy := digest fabricPSK
    [octets "velvet-fabric/link-local/v1"; uid; octets interfaceName] in
  let iid := take 8 entropy in
  let iid := match iid with b :: rest => z2b (Z.ldiff (b2z b) 1) :: rest | [] => [] end in
  let iid := if forallb (λ value, bool_decide (value = x00)) iid
             then take 7 iid ++ [x01] else iid in
  PrefixFrom (AddrFrom16 ([xfe; x80] ++ zeros 6 ++ iid)) 64.

Definition DeriveLoopbackV6 (fabricPSK uid : list byte) (v6Pool : Prefix) (overrideV6 : string) :
    result Addr :=
  let v6 := deriveHost v6Pool (digest fabricPSK [octets "velvet-fabric/loopback/v6/v1"; uid]) in
  if negb (bool_decide (overrideV6 = "")) then ParseAddr overrideV6 else Ok v6.

(** [ids[0], ids[1]] in ascending order. *)
Definition order_pair (a b : list byte) : list byte * list byte :=
  match bytes_Compare a b with Gt => (b, a) | _ => (a, b) end.

(** [for _, raw := range overrides]. *)
Fixpoint applyOverrides (overrides : list string) (result : Proposal) : Prelude.result Proposal :=
  match overrides with
  | [] => Ok result
  | raw :: overrides =>
    prefix ← ParsePrefix raw;
    if Is4 (Prefix_Addr prefix)
    then applyOverrides overrides (mkProposal (Masked prefix) (V6 result))
    else applyOverrides overrides (mkProposal (V4 result) (Masked prefix))
  end.

Definition DeriveProposal (fabricPSK local remote : list byte) (v4Pool v6Pool : Prefix)
    (overrides : list string) (attempt : Z) : result Proposal :=
  let '(lo, hi) := order_pair local remote in
  let attemptBytes := be_put 4 attempt in
  let v4 := if Prefix_IsValid v4Pool
    then deriveSubnet v4Pool 30
      (digest fabricPSK [octets "velvet-fabric/link-prefix/v4/v1"; lo; hi; attemptBytes])
    else Prefix_zero in
  let v6 := if Prefix_IsValid v6Pool
    then deriveSubnet v6Pool 126
      (digest fabricPSK [octets "velvet-fabric/link-prefix/v6/v1"; lo; hi; attemptBytes])
    else Prefix_zero in
  applyOverrides overrides (mkProposal v4 v6).

(** One prefix of the loop of [EndpointAddresses]. *)
Definition endpointPair (localLower : bool) (prefix : Prefix) : list (Prefix * Addr) :=
  if negb (Prefix_IsValid prefix) then [] else
  let first := Next (Prefix_Addr prefix) in
  let second := Next (Next (Prefix_Addr prefix)) in
  let '(localAddr, peerAddr) := if localLower then (first, second) else (second, first) in
  [(PrefixFrom localAddr (Bits prefix), peerAddr)].

Definition EndpointAddresses (proposal : Proposal) (local remote : list byte) :
    list Prefix * list Addr :=
  let localLower := match bytes_Compare local remote with Lt => true | _ => false end in
  let pairs := endpointPair localLower (V4 proposal) ++ endpointPair localLower (V6 proposal) in
  (map fst pairs, map snd pairs).

Fixpoint MatchesOverrides (proposal : Proposal) (overrides : list string) : bool :=
  match overrides with
  | [] => true
  | raw :: overrides =>
    match ParsePrefix raw with
    | Ok prefix =>
      if Is4 (Prefix_Addr prefix) && negb (bool_decide (V4 proposal = Masked prefix)) then false
      else if Is6 (Prefix_Addr prefix) && negb (bool_decide (V6 proposal = Masked prefix))
      then false
      else MatchesOverrides proposal overrides
    | _ => false
    end
  end.

Section WGLinkPSK.
(** [hkdf.New(sha256.New, secret, nil, info)], its first 32 octets. *)
Context (hkdf32 : list byte → list byte → result (list byte)).

Definition deriveWGLinkPSK (fabricPSK a b : list byte) : result (list byte) :=
  let '(lo, hi) := match bytes_Compare b a with Lt => (b, a) | _ => (a, b) end in
  let info := octets "velvet-fabric/wg-link-psk/v1" ++ [x00] ++ lo ++ hi in
  hkdf32 fabricPSK info.

Definition DeriveWGLinkPSK := deriveWGLinkPSK.
End WGLinkPSK.

(** * Filling bits keeps the pool *)

Lemma length_fillBit pb ab e bs : length (fillBit pb ab e bs) = length bs.
Proof. unfold fillBit. destruct (_ =? 0); by rewrite length_insert. Qed.

Lemma length_fillLoop n pb ab e bs : length (fillLoop n pb ab e bs) = length bs.
Proof.
  revert ab bs; induction n as [|n IH]; intros; simpl; [done|].
  by rewrite IH, length_fillBit.
Qed.

(** Setting or clearing one bit leaves the others of the octet. *)
Lemma testbit_byte_op (old m j : Z) (clear : bool) :
  0 <= old < 256 → 0 <= m < 8 → 0 <= j < 8 → j ≠ m →
  Z.testbit (b2z (z2b (if clear then Z.ldiff old (Z.shiftl 1 m)
                       else Z.lor old (Z.shiftl 1 m)))) j = Z.testbit old j.
Proof.
  intros Ho Hm Hj N. rewrite b2z_z2b. change 256 with (2 ^ 8).
  rewrite Z.mod_pow2_bits_low by lia.
  assert (T : Z.testbit (Z.shiftl 1 m) j = false).
  { rewrite Z.shiftl_1_l. apply Z.pow2_bits_false. lia. }
  destruct clear; [rewrite Z.ldiff_spec, T|rewrite Z.lor_spec, T].
  - by rewrite andb_true_r.
  - by rewrite orb_false_r.
Qed.

(** [fillBit] at address bit [ab] leaves every more significant bit. *)
Lemma testbit_fillBit pb ab e bs i :
  0 <= ab < 8 * len bs → 8 * len bs - 1 - ab < i →
  Z.testbit (be_get (fillBit pb ab e bs)) i = Z.testbit (be_get bs) i.
Proof.
  intros Hab Hi. rewrite !testbit_be_get by lia. rewrite length_fillBit.
  assert (Ll : len (fillBit pb ab e bs) = len bs) by (unfold len; by rewrite length_fillBit).
  rewrite Ll. set (k := Z.to_nat (ab / 8)). set (n := (length bs - 1 - Z.to_nat (i / 8))%nat).
  assert (Hk : (k < length bs)%nat) by (unfold k, len in *; Z.div_mod_to_equations; lia).
  destruct (lookup_lt_is_Some_2 bs k Hk) as [old Eo].
  assert (F : ∃ c, fillBit pb ab e bs = <[k := z2b (if c : bool then
      Z.ldiff (b2z old) (Z.shiftl 1 (7 - ab mod 8)) else
      Z.lor (b2z old) (Z.shiftl 1 (7 - ab mod 8)))]> bs).
  { unfold fillBit. fold k. rewrite (list_lookup_total_correct _ _ _ Eo).
    destruct (_ =? 0); [by exists true|by exists false]. }
  destruct F as [c ->]. destruct (decide (n = k)) as [E|N].
  - rewrite E, list_lookup_insert_eq, Eo by done.
    destruct (Z.ltb_spec i (8 * len bs)) as [L|G]; cbn [andb]; [|done].
    apply testbit_byte_op; [apply b2z_range|..]; unfold n, k, len in *;
      Z.div_mod_to_equations; lia.
  - by rewrite list_lookup_insert_ne.
Qed.

Lemma testbit_fillLoop n pb ab e bs i :
  0 <= ab → ab + Z.of_nat n <= 8 * len bs → 8 * len bs - 1 - ab < i →
  Z.testbit (be_get (fillLoop n pb ab e bs)) i = Z.testbit (be_get bs) i.
Proof.
  revert ab bs; induction n as [|n IH]; intros ab bs Ha Hn Hi; cbn [fillLoop]; [done|].
  assert (Ll : len (fillBit pb ab e bs) = len bs) by (unfold len; by rewrite length_fillBit).
  rewrite IH by (rewrite ?Ll; lia). apply testbit_fillBit; lia.
Qed.

(** A pool of a given family: valid, in range, zone-free. *)
Definition pool_of (width : Z) (pool : Prefix) : Prop :=
  wf_prefix pool ∧ Prefix_IsValid pool = true ∧ BitLen (Prefix_Addr pool) = width.

Lemma pool_bits width pool : pool_of width pool → 0 <= Bits pool <= width.
Proof.
  intros ((_ & _ & B) & V & <-). unfold Prefix_IsValid in V. bool_to_prop.
  destruct B as [B|[_ B]]; lia.
Qed.

(** The octets [fillBits] starts from. *)
Lemma AsSlice_pool pool :
  wf_prefix pool → Addr_IsValid (Prefix_Addr pool) = true →
  8 * len (AsSlice (Prefix_Addr pool)) = BitLen (Prefix_Addr pool) ∧
  be_get (AsSlice (Prefix_Addr pool)) = Addr_value (Prefix_Addr pool).
Proof.
  destruct pool as [[|v|v z] b]; intros (W & _ & _) V; try done; cbn [Prefix_Addr] in *;
    cbn [AsSlice BitLen Addr_value]; rewrite len_be_put; (split; [done|]);
    by apply be_get_put_small.
Qed.

Lemma pool_addr_valid width pool :
  pool_of width pool → 0 < width → Addr_IsValid (Prefix_Addr pool) = true.
Proof. intros (_ & _ & E) H. destruct pool as [[] b]; simpl in *; [lia|done..]. Qed.

(** The filled address stays in the pool and its family. *)
Lemma fillBits_pool width pool target e :
  pool_of width pool → 0 < width → target <= width →
  let a := fillBits pool target e in
  wf_addr a ∧ Addr_IsValid a = true ∧ BitLen a = width ∧ Zone a = "" ∧
  Addr_value a / 2 ^ (width - Bits pool) =
    Addr_value (Prefix_Addr pool) / 2 ^ (width - Bits pool).
Proof.
  intros P Hw Ht. pose proof (pool_bits _ _ P) as B.
  pose proof (pool_addr_valid _ _ P Hw) as Va. destruct P as (W & _ & E).
  destruct (AsSlice_pool pool W Va) as [L G]. rewrite E in L.
  unfold fillBits. set (bs := fillLoop _ _ _ _ _).
  assert (Lb : length bs = length (AsSlice (Prefix_Addr pool))) by apply length_fillLoop.
  assert (T : be_get bs / 2 ^ (width - Bits pool) =
              Addr_value (Prefix_Addr pool) / 2 ^ (width - Bits pool)).
  { apply div_pow2_ext; [lia|]. intros i Hi. unfold bs.
    rewrite testbit_fillLoop by lia. by rewrite G. }
  destruct (Prefix_Addr pool) as [|v|v z]; [done| |]; cbn [Is4 BitLen] in *; subst width.
  - split_and!; try done. apply wf_AddrFrom4. by rewrite Lb; cbn [AsSlice]; rewrite length_be_put.
  - split_and!; try done. apply wf_AddrFrom16. by rewrite Lb; cbn [AsSlice]; rewrite length_be_put.
Qed.

Lemma Contains_value pool a :
  Prefix_IsValid pool = true → Zone a = "" → Addr_IsValid a = true →
  BitLen a = BitLen (Prefix_Addr pool) →
  Addr_value a / 2 ^ (BitLen a - Bits pool) =
    Addr_value (Prefix_Addr pool) / 2 ^ (BitLen a - Bits pool) →
  Contains pool a = true.
Proof.
  intros V Zn Va F E. unfold Contains. rewrite V, Zn. cbn [negb orb bool_decide].
  destruct a, (Prefix_Addr pool); try done; by apply Z.eqb_eq.
Qed.

Lemma mask_value_block v w bits b :
  0 <= b <= bits → bits <= w → mask_value v w bits / 2 ^ (w - b) = v / 2 ^ (w - b).
Proof.
  intros Hb Hw. unfold mask_value. replace (w - b) with ((w - bits) + (bits - b)) by lia.
  rewrite Z.pow_add_r by lia.
  assert (0 < 2 ^ (w - bits)) by (apply Z.pow_pos_nonneg; lia).
  assert (0 < 2 ^ (bits - b)) by (apply Z.pow_pos_nonneg; lia).
  rewrite (Z.mul_comm (2 ^ (w - bits)) (2 ^ (bits - b))).
  rewrite Z.div_mul_cancel_r by lia. rewrite (Z.mul_comm (2 ^ (bits - b))).
  by rewrite Z.div_div by lia.
Qed.

(** A prefix carved out of [pool]: of length [bits], masked, inside the pool. *)
Definition subnet_of (pool : Prefix) (bits : Z) (p : Prefix) : Prop :=
  wf_prefix p ∧ Prefix_IsValid p = true ∧ Bits p = bits ∧ Masked p = p ∧
  BitLen (Prefix_Addr p) = BitLen (Prefix_Addr pool) ∧
  Contains pool (Prefix_Addr p) = true.

Lemma deriveSubnet_pool width pool bits e :
  pool_of width pool → 0 < width → Bits pool <= bits <= width →
  subnet_of pool bits (deriveSubnet pool bits e).
Proof.
  intros P Hw Hb. pose proof (pool_bits _ _ P) as B.
  destruct (fillBits_pool width pool bits e P Hw ltac:(lia)) as (W & V & L & Zn & Q).
  destruct P as (Wp & Vp & E). unfold subnet_of, deriveSubnet.
  set (a := fillBits pool bits e) in *.
  assert (Wf : wf_prefix (PrefixFrom a bits)) by by apply wf_PrefixFrom.
  assert (Vf : Prefix_IsValid (PrefixFrom a bits) = true).
  { rewrite PrefixFrom_valid by (done || lia). by apply Z.leb_le; cbn [Bits]; lia. }
  pose proof (Masked_idem _ Wf) as I. pose proof (wf_Masked _ Wf) as Wm.
  assert (Em : Masked (PrefixFrom a bits) = mkPrefix
    (match a with AddrInvalid => AddrInvalid | Addr4 v => Addr4 (mask_value v 32 bits)
     | Addr6 v _ => Addr6 (mask_value v 128 bits) "" end) bits).
  { rewrite Masked_valid by done. rewrite PrefixFrom_valid by (done || lia).
    cbn [Prefix_Addr Bits]. by destruct a. }
  rewrite Em in *. cbn [Bits Prefix_Addr]. split_and!; try done.
  - by apply Z.leb_le; cbn [Bits]; lia.
  - rewrite E, <-L. by destruct a.
  - apply Contains_value; [done|by destruct a..|rewrite E, <-L; by destruct a|].
    destruct a as [|v|v z]; [done| |]; cbn [BitLen Addr_value] in *; rewrite <-L in *;
      by rewrite mask_value_block by lia.
Qed.

(** * What both ends derive *)

Lemma order_pair_sym a b : order_pair a b = order_pair b a.
Proof.
  unfold order_pair. rewrite (bytes_Compare_antisym a b).
  destruct (bytes_Compare a b) eqn:E; simpl; try done.
  by apply bytes_Compare_eq in E as ->.
Qed.

(** C10: both ends derive the same proposal.  From the same PSK, pools, overrides
    and attempt, swapping the local and the remote identity changes nothing, not
    even the error; the WireGuard preshared key does not depend on the side
    either, whatever the key derivation function. *)
Theorem derivations_symmetric hkdf psk a b v4Pool v6Pool overrides attempt :
  DeriveProposal psk a b v4Pool v6Pool overrides attempt =
  DeriveProposal psk b a v4Pool v6Pool overrides attempt ∧
  DeriveWGLinkPSK hkdf psk a b = DeriveWGLinkPSK hkdf psk b a.
Proof.
  split; [unfold DeriveProposal; by rewrite (order_pair_sym a b)|].
  unfold DeriveWGLinkPSK, deriveWGLinkPSK. rewrite (bytes_Compare_antisym a b).
  destruct (bytes_Compare a b) eqn:E; simpl; try done.
  by apply bytes_Compare_eq in E as ->.
Qed.

(** C9: without overrides the proposal is a masked /30 and /126 inside the
    configured pools, for every PSK, pair of identities and attempt; a family
    without a pool gets no prefix. *)
Theorem DeriveProposal_in_pools psk a b v4Pool v6Pool attempt :
  (Prefix_IsValid v4Pool = true → pool_of 32 v4Pool ∧ Bits v4Pool <= 30) →
  (Prefix_IsValid v6Pool = true → pool_of 128 v6Pool ∧ Bits v6Pool <= 126) →
  ∃ p, DeriveProposal psk a b v4Pool v6Pool [] attempt = Ok p ∧
    (if Prefix_IsValid v4Pool then subnet_of v4Pool 30 (V4 p) else V4 p = Prefix_zero) ∧
    (if Prefix_IsValid v6Pool then subnet_of v6Pool 126 (V6 p) else V6 p = Prefix_zero).
Proof.
  intros H4 H6. unfold DeriveProposal. destruct (order_pair a b) as [lo hi].
  eexists. split; [reflexivity|]. cbn [V4 V6]. split.
  - destruct (Prefix_IsValid v4Pool) eqn:V; [|done]. destruct (H4 eq_refl) as [P B].
    apply (deriveSubnet_pool 32); [done|lia|]. lia.
  - destruct (Prefix_IsValid v6Pool) eqn:V; [|done]. destruct (H6 eq_refl) as [P B].
    apply (deriveSubnet_pool 128); [done|lia|]. lia.
Qed.

Lemma DeriveProposal_in_pools_witness :
  let pool := mkPrefix (Addr4 0x0a000000) 8 in
  ∃ p, DeriveProposal [x01] (replicate 16 x01) (replicate 16 x02) pool Prefix_zero [] 0 = Ok p ∧
    subnet_of pool 30 (V4 p).
Proof.
  intros pool.
  destruct (DeriveProposal_in_pools [x01] (replicate 16 x01) (replicate 16 x02) pool
    Prefix_zero 0) as (p & E & S & _).
  - intros _. split; [|done]. split; [|done]. split; [by vm_compute|]. split; [done|].
    right. done.
  - by intros [=].
  - by exists p.
Defined.

(** The overrides, in order, each replace the prefix of their family. *)
Definition last_of (fam : Prefix → bool) (p : Prefix) (xs : list Prefix) : Prefix :=
  foldl (λ acc x, if fam x then Masked x else acc) p xs.

Lemma applyOverrides_ok overrides p q :
  applyOverrides overrides p = Ok q →
  ∃ xs, Forall2 (λ raw x, ParsePrefix raw = Ok x) overrides xs ∧
    V4 q = last_of (λ x, Is4 (Prefix_Addr x)) (V4 p) xs ∧
    V6 q = last_of (λ x, negb (Is4 (Prefix_Addr x))) (V6 p) xs.
Proof.
  revert p; induction overrides as [|raw l IH]; intros p H; cbn [applyOverrides] in H.
  - injection H as <-. exists []. split_and!; [constructor|done..].
  - apply bind_ok in H as (x & P & H). unfold last_of.
    destruct (Is4 (Prefix_Addr x)) eqn:F; apply IH in H as (xs & Fx & E4 & E6);
      exists (x :: xs); (split_and!; [by constructor|..]); cbn [foldl]; by rewrite F.
Qed.

Lemma last_of_agree fam c p xs :
  (∀ x, x ∈ xs → fam x = true → Masked x = c) →
  (p = c ∨ ∃ x, x ∈ xs ∧ fam x = true) → last_of fam p xs = c.
Proof.
  unfold last_of. revert p; induction xs as [|x xs IH]; intros p A [E|(y & Hy & Iy)]; cbn [foldl].
  - done.
  - by apply not_elem_of_nil in Hy.
  - apply IH; [set_solver|left]. destruct (fam x) eqn:I; [|done]. apply A; [by left|done].
  - apply IH; [set_solver|]. apply elem_of_cons in Hy as [->|Hy]; [|by eauto].
    left. rewrite Iy. apply A; [by left|done].
Qed.

(** C11: a derived proposal honours the Link's overrides.  When the overrides of a
    family agree, the proposal [DeriveProposal] returns passes the check
    [MatchesOverrides] the session makes on what the peer proposes. *)
Theorem DeriveProposal_matches psk a b v4Pool v6Pool overrides attempt p :
  DeriveProposal psk a b v4Pool v6Pool overrides attempt = Ok p →
  (∀ r1 r2 x1 x2, r1 ∈ overrides → r2 ∈ overrides → ParsePrefix r1 = Ok x1 →
     ParsePrefix r2 = Ok x2 → Is4 (Prefix_Addr x1) = Is4 (Prefix_Addr x2) →
     Masked x1 = Masked x2) →
  MatchesOverrides p overrides = true.
Proof.
  unfold DeriveProposal. destruct (order_pair a b). intros H One.
  apply applyOverrides_ok in H as (xs & F & E4 & E6).
  assert (All : ∀ raw x, raw ∈ overrides → ParsePrefix raw = Ok x →
    if Is4 (Prefix_Addr x) then V4 p = Masked x else V6 p = Masked x).
  { intros raw x Hr P.
    assert (Ag : ∀ y, y ∈ xs → Is4 (Prefix_Addr y) = Is4 (Prefix_Addr x) →
      Masked y = Masked x).
    { intros y Hy Ey. apply list_elem_of_lookup in Hy as [i Hi].
      destruct (Forall2_lookup_r _ _ _ _ _ F Hi) as (r' & Hr' & P').
      eapply (One r' raw); try done. by apply list_elem_of_lookup; eauto. }
    apply list_elem_of_lookup in Hr as [i Hi].
    destruct (Forall2_lookup_l _ _ _ _ _ F Hi) as (x' & Hx' & P').
    rewrite P in P'. injection P' as <-. apply list_elem_of_lookup_2 in Hx'.
    destruct (Is4 (Prefix_Addr x)) eqn:F4.
    - rewrite E4. apply last_of_agree; [|eauto]. intros y Hy Iy. by apply Ag.
    - rewrite E6. apply last_of_agree; [|right; exists x; by rewrite F4].
      intros y Hy Iy%negb_true_iff. by apply Ag. }
  clear -F All. induction F as [|raw x l xs P F IH]; [done|]. cbn [MatchesOverrides].
  rewrite P. pose proof (All raw x ltac:(by left) P) as E.
  assert (N : Is4 (Prefix_Addr x) = negb (Is6 (Prefix_Addr x))).
  { apply ParsePrefix_ok in P as (_ & _ & [Q|Q]); destruct (Prefix_Addr x); done. }
  destruct (Is4 (Prefix_Addr x)) eqn:F4.
  - rewrite bool_decide_eq_true_2 by done. destruct (Is6 _); [done|]. cbn [negb andb].
    apply IH. intros r y Hr Py. apply (All r y); [by right|done].
  - destruct (Is6 _); [|done]. cbn [andb]. rewrite bool_decide_eq_true_2 by done.
    cbn [negb].
    apply IH. intros r y Hr Py. apply (All r y); [by right|done].
Qed.

Lemma DeriveProposal_matches_witness :
  ∃ p, DeriveProposal [x01] (replicate 16 x01) (replicate 16 x02) Prefix_zero Prefix_zero
         ["192.0.2.4/30"; "2001:db8::4/126"] 0 = Ok p ∧
       MatchesOverrides p ["192.0.2.4/30"; "2001:db8::4/126"] = true.
Proof.
  destruct (DeriveProposal [x01] (replicate 16 x01) (replicate 16 x02) Prefix_zero Prefix_zero
    ["192.0.2.4/30"; "2001:db8::4/126"] 0) as [p|e|] eqn:E; [|by vm_compute in E..].
  exists p. split; [done|]. eapply DeriveProposal_matches; [exact E|].
  intros r1 r2 x1 x2 H1 H2 P1 P2 F.
  rewrite !elem_of_cons, elem_of_nil in H1, H2.
  destruct H1 as [->|[->|[]]], H2 as [->|[->|[]]]; vm_compute in P1, P2;
    injection P1 as <-; injection P2 as <-; done.
Defined.

(** * Endpoint addresses *)

(** A prefix the peers can share: masked, and with room for two hosts. *)
Definition link_prefix (p : Prefix) : Prop :=
  wf_prefix p ∧ Masked p = p ∧
  (Prefix_IsValid p = true → Bits p <= BitLen (Prefix_Addr p) - 2).

Lemma mask_value_fix v w b :
  0 <= b <= w - 2 → mask_value v w b = v → v mod 4 = 0.
Proof.
  unfold mask_value. intros B E. rewrite <-E.
  replace (w - b) with (w - b - 2 + 2) by lia. rewrite Z.pow_add_r by lia.
  change (2 ^ 2) with 4. rewrite Z.mul_assoc. by apply Z.mod_mul.
Qed.

Lemma block_div v n k : 0 <= k < 4 → 2 <= n → v mod 4 = 0 → (v + k) / 2 ^ n = v / 2 ^ n.
Proof.
  intros K N M. replace n with (2 + (n - 2)) by lia. rewrite Z.pow_add_r by lia.
  change (2 ^ 2) with 4. assert (0 < 2 ^ (n - 2)) by (apply Z.pow_pos_nonneg; lia).
  rewrite <-!Z.div_div by lia. f_equal. Z.div_mod_to_equations. lia.
Qed.

(** The two host addresses of a shared prefix. *)
Lemma link_prefix_hosts p :
  link_prefix p → Prefix_IsValid p = true →
  let first := Next (Prefix_Addr p) in let second := Next first in
  Addr_IsValid first = true ∧ Addr_IsValid second = true ∧ first ≠ second ∧
  first ≠ Prefix_Addr p ∧ second ≠ Prefix_Addr p ∧
  WithoutZone first = first ∧ WithoutZone second = second ∧
  BitLen first = BitLen (Prefix_Addr p) ∧ BitLen second = BitLen (Prefix_Addr p) ∧
  Contains p first = true ∧ Contains p second = true.
Proof.
  intros (W & M & B) V. specialize (B V). pose proof W as (Wa & Zn & Hb).
  rewrite Masked_valid in M by done. pose proof V as V'. unfold Prefix_IsValid in V'.
  bool_to_prop. destruct p as [a b]; cbn [Prefix_Addr Bits] in *.
  destruct a as [|v|v z]; [destruct Hb as [?|[? ?]]; [lia|done]| |];
    injection M as M; apply mask_value_fix in M; try (cbn [BitLen] in B; lia);
    cbn [wf_addr BitLen] in *.
  - assert (N1 : (v + 1 =? 2 ^ 32) = false) by (apply Z.eqb_neq; Z.div_mod_to_equations; lia).
    assert (N2 : (v + 1 + 1 =? 2 ^ 32) = false) by (apply Z.eqb_neq; Z.div_mod_to_equations; lia).
    cbn [Next]. rewrite N1. cbn [Next]. rewrite N2.
    split_and!; try done; try (intros [=]; lia);
      (apply Contains_value; [done..|]); cbn [BitLen Addr_value Prefix_Addr Bits];
      rewrite <-?Z.add_assoc; by rewrite block_div by lia.
  - simpl in Zn; subst z.
    assert (N1 : (v + 1 =? 2 ^ 128) = false) by (apply Z.eqb_neq; Z.div_mod_to_equations; lia).
    assert (N2 : (v + 1 + 1 =? 2 ^ 128) = false) by (apply Z.eqb_neq; Z.div_mod_to_equations; lia).
    cbn [Next]. rewrite N1. cbn [Next]. rewrite N2.
    split_and!; try done; try (intros [=]; lia);
      (apply Contains_value; [done..|]); cbn [BitLen Addr_value Prefix_Addr Bits];
      rewrite <-?Z.add_assoc; by rewrite block_div by lia.
Qed.

(** What one side configures for one prefix, given what the other side does. *)
Definition complementary (p : Prefix) (mine theirs : list (Prefix * Addr)) : Prop :=
  map (λ x, Prefix_Addr x.1) mine = map snd theirs ∧
  map snd mine = map (λ x, Prefix_Addr x.1) theirs ∧
  Forall (λ x, Bits x.1 = Bits p ∧ Prefix_Addr x.1 ≠ x.2 ∧
    Contains p (Prefix_Addr x.1) = true ∧ Contains p x.2 = true ∧
    Prefix_Addr x.1 ≠ Prefix_Addr p ∧ x.2 ≠ Prefix_Addr p) mine.

Lemma endpointPair_complementary p (l : bool) :
  link_prefix p → complementary p (endpointPair l p) (endpointPair (negb l) p).
Proof.
  intros L. unfold endpointPair. destruct (Prefix_IsValid p) eqn:V; cbn [negb];
    [|split_and!; [done|done|constructor]].
  destruct (link_prefix_hosts p L V) as (V1 & V2 & N & N1 & N2 & Z1 & Z2 & B1 & B2 & C1 & C2).
  set (first := Next (Prefix_Addr p)) in *. set (second := Next first) in *.
  pose proof L as (W & _ & B). specialize (B V). unfold Prefix_IsValid in V. bool_to_prop.
  assert (P1 : PrefixFrom first (Bits p) = mkPrefix first (Bits p))
    by (rewrite PrefixFrom_valid, Z1 by (done || lia); done).
  assert (P2 : PrefixFrom second (Bits p) = mkPrefix second (Bits p))
    by (rewrite PrefixFrom_valid, Z2 by (done || lia); done).
  destruct l; cbn [negb]; rewrite P1, P2;
    (split_and!; [done|done|constructor; [|constructor]]); cbn [fst snd Prefix_Addr Bits]; auto 10.
Qed.

(** C8: the two ends address a Link consistently.  For distinct identities and a
    shared proposal, the addresses one end configures are, family by family, the
    peer addresses the other end expects, and vice versa; in each family the two
    addresses differ, lie in the prefix, and neither is its network address. *)
Theorem EndpointAddresses_complementary p a b :
  a ≠ b → link_prefix (V4 p) → link_prefix (V6 p) →
  let '(la, pa) := EndpointAddresses p a b in
  let '(lb, pb) := EndpointAddresses p b a in
  map Prefix_Addr la = pb ∧ map Prefix_Addr lb = pa ∧
  (∀ i l r, la !! i = Some l → pa !! i = Some r →
     Prefix_Addr l ≠ r ∧ ∃ q, (q = V4 p ∨ q = V6 p) ∧ Bits l = Bits q ∧
       Contains q (Prefix_Addr l) = true ∧ Contains q r = true ∧
       Prefix_Addr l ≠ Prefix_Addr q ∧ r ≠ Prefix_Addr q).
Proof.
  intros N L4 L6. unfold EndpointAddresses.
  set (l := match bytes_Compare a b with Lt => true | _ => false end).
  assert (E : match bytes_Compare b a with Lt => true | _ => false end = negb l).
  { unfold l. rewrite (bytes_Compare_antisym a b).
    destruct (bytes_Compare a b) eqn:C; try done. by apply bytes_Compare_eq in C. }
  rewrite E. destruct (endpointPair_complementary (V4 p) l L4) as (A4 & B4 & F4).
  destruct (endpointPair_complementary (V6 p) l L6) as (A6 & B6 & F6).
  rewrite !map_app, !map_map. split_and!; [by rewrite A4, A6|by rewrite B4, B6|].
  intros i x r Hx Hr. rewrite <-map_app in Hx. rewrite <-map_app in Hr.
  apply list_lookup_fmap_Some in Hx as ([x' r'] & -> & Hi).
  apply list_lookup_fmap_Some in Hr as ([x'' r''] & -> & Hi').
  rewrite Hi in Hi'. injection Hi' as <- <-. cbn [fst snd].
  apply list_elem_of_lookup_2, elem_of_app in Hi as [Hi|Hi].
  - rewrite Forall_forall in F4. destruct (F4 _ Hi) as (? & ? & ? & ? & ? & ?).
    split; [done|]. exists (V4 p). auto 10.
  - rewrite Forall_forall in F6. destruct (F6 _ Hi) as (? & ? & ? & ? & ? & ?).
    split; [done|]. exists (V6 p). auto 10.
Qed.

Lemma EndpointAddresses_complementary_witness :
  let p := mkProposal (mkPrefix (Addr4 0xc0000204) 30) Prefix_zero in
  let '(la, pa) := EndpointAddresses p (replicate 16 x01) (replicate 16 x02) in
  let '(lb, pb) := EndpointAddresses p (replicate 16 x02) (replicate 16 x01) in
  la = [mkPrefix (Addr4 0xc0000205) 30] ∧ map Prefix_Addr la = pb ∧ map Prefix_Addr lb = pa.
Proof.
  set (p := mkProposal (mkPrefix (Addr4 0xc0000204) 30) Prefix_zero). cbv zeta.
  assert (N : replicate 16 x01 ≠ replicate 16 x02) by done.
  assert (L4 : link_prefix (V4 p)).
  { split; [split; [by vm_compute|split; [done|by right]]|]. split; [by vm_compute|].
    intros _. by vm_compute. }
  assert (L6 : link_prefix (V6 p)).
  { split; [split; [done|split; [done|by left]]|]. split; [by vm_compute|]. done. }
  pose proof (EndpointAddresses_complementary p _ _ N L4 L6) as H.
  destruct (EndpointAddresses p (replicate 16 x01) _) as [la pa] eqn:Ea.
  destruct (EndpointAddresses p (replicate 16 x02) _) as [lb pb] eqn:Eb.
  destruct H as (H1 & H2 & _). split_and!; [|done|done].
  vm_compute in Ea. by injection Ea as <- _.
Defined.

(** * Link-local and loopback addresses *)

Lemma ldiff_1_even b : Z.odd (b2z (z2b (Z.ldiff (b2z b) 1))) = false.
Proof.
  rewrite <-Z.bit0_odd, b2z_z2b. change 256 with (2 ^ 8).
  rewrite Z.mod_pow2_bits_low by lia. by rewrite Z.ldiff_spec, andb_false_r.
Qed.

Definition linkLocalIID (entropy : list byte) : list byte :=
  let iid := match take 8 entropy with b :: rest => z2b (Z.ldiff (b2z b) 1) :: rest | [] => [] end in
  if forallb (λ value, bool_decide (value = x00)) iid then take 7 iid ++ [x01] else iid.

Lemma linkLocalIID_ok entropy :
  (8 <= length entropy)%nat →
  ∃ b rest, linkLocalIID entropy = b :: rest ∧ length rest = 7%nat ∧
    Z.odd (b2z b) = false ∧ be_get (b :: rest) ≠ 0.
Proof.
  intros L. unfold linkLocalIID. assert (length (take 8 entropy) = 8%nat) as L8
    by (rewrite length_take; lia).
  destruct (take 8 entropy) as [|b rest]; [done|]. injection L8 as L7.
  pose proof (ldiff_1_even b) as Od. set (b' := z2b _) in *.
  destruct (forallb _ _) eqn:F.
  - exists b', (take 6 rest ++ [x01]). split_and!; [done| |done|].
    + by rewrite length_app, length_take, L7.
    + rewrite app_comm_cons, be_get_app, be_get_one.
      pose proof (be_get_range (b' :: take 6 rest)). change (b2z x01) with 1.
      change (256 ^ len [x01]) with 256. lia.
  - exists b', rest. split_and!; [done..|]. intros Z.
    assert (b' :: rest = zeros 8) as E.
    { apply be_get_inj; [by simpl; rewrite L7|]. rewrite Z. by vm_compute. }
    rewrite E in F. by vm_compute in F.
Qed.

(** C16: the bootstrap address of a Link is well formed for every PSK, identity and
    interface name: a link-local unicast /64 whose group bit is clear and whose
    interface identifier is not zero. *)
Theorem DeriveLinkLocal_shape psk uid name :
  let p := DeriveLinkLocal psk uid name in
  wf_prefix p ∧ Bits p = 64 ∧ ∃ v, Prefix_Addr p = Addr6 v "" ∧
  v / 2 ^ 64 = 0xfe80 * 2 ^ 48 ∧ Z.testbit v 56 = false ∧ v mod 2 ^ 64 ≠ 0 ∧
  IsLinkLocalUnicast (Prefix_Addr p) = true.
Proof.
  intros p. subst p. unfold DeriveLinkLocal. cbv zeta.
  set (e := digest _ _). fold (linkLocalIID e).
  destruct (linkLocalIID_ok e) as (b & rest & -> & L & Od & N).
  { unfold e, digest. rewrite length_hmac_sha256. lia. }
  set (iid := b :: rest) in *. unfold AddrFrom16. rewrite app_assoc, be_get_app.
  assert (Li : len iid = 8) by (unfold len, iid; simpl; lia). rewrite Li.
  change (256 ^ 8) with (2 ^ 64).
  change (be_get ([xfe; x80] ++ zeros 6)) with (be_get [xfe; x80; x00; x00; x00; x00; x00; x00]).
  assert (H : be_get [xfe; x80; x00; x00; x00; x00; x00; x00] = 0xfe80 * 2 ^ 48) by by vm_compute.
  rewrite H. pose proof (be_get_range iid) as R. rewrite Li in R. change (256 ^ 8) with (2 ^ 64) in R.
  set (v := 0xfe80 * 2 ^ 48 * 2 ^ 64 + be_get iid).
  assert (Rv : 0 <= v < 2 ^ 128) by (unfold v; lia).
  rewrite PrefixFrom_valid by (cbn [BitLen]; done || lia). cbn [WithoutZone Bits Prefix_Addr].
  assert (Q : v / 2 ^ 64 = 0xfe80 * 2 ^ 48 ∧ v mod 2 ^ 64 = be_get iid).
  { unfold v. split.
    - rewrite Z.div_add_l, Z.div_small by lia. lia.
    - rewrite (Z.add_comm _ (be_get iid)), Z.mod_add, Z.mod_small by lia. done. }
  destruct Q as [Q M]. split_and!; [split_and!; [done|done|right; cbn; lia]|done|].
  exists v. split_and!; [done|done| |by rewrite M|].
  - unfold v. rewrite testbit_add_mul by lia. cbn [Z.ltb Z.compare Pos.compare Pos.compare_cont].
    rewrite testbit_be_get by lia. unfold iid. cbn [length]. rewrite L.
    change (8 - 1 - Z.to_nat (56 / 8))%nat with 0%nat. cbn [lookup list_lookup].
    change (56 mod 8) with 0. rewrite Z.bit0_odd, Od. by rewrite andb_false_r.
  - unfold IsLinkLocalUnicast, Unmap, Is4In6.
    rewrite Z.shiftr_div_pow2 by lia.
    assert ((v / 2 ^ 32 =? 0xffff) = false) as ->.
    { apply Z.eqb_neq. intros E. assert (v / 2 ^ 32 / 2 ^ 32 = 0) as E' by (rewrite E; done).
      rewrite Z.div_div in E' by lia. change (2 ^ 32 * 2 ^ 32) with (2 ^ 64) in E'. lia. }
    rewrite Z.shiftr_div_pow2 by lia. apply Z.eqb_eq.
    change (2 ^ 118) with (2 ^ 64 * 2 ^ 54). rewrite <-Z.div_div, Q by lia. done.
Qed.

(** C17: without an override the node's IPv6 loopback lies in the configured pool,
    for every PSK and identity. *)
Theorem DeriveLoopbackV6_in_pool psk uid pool :
  pool_of 128 pool →
  ∃ a, DeriveLoopbackV6 psk uid pool "" = Ok a ∧ wf_addr a ∧ Contains pool a = true.
Proof.
  intros P. unfold DeriveLoopbackV6, deriveHost. cbn [bool_decide negb].
  set (e := digest _ _).
  destruct (fillBits_pool 128 pool (BitLen (Prefix_Addr pool)) e P) as (W & V & L & Zn & Q);
    [lia|destruct P as (_ & _ & ->); lia|].
  set (a := fillBits _ _ _) in *. eexists. split; [reflexivity|].
  replace (Is4 a) with false by (by destruct a). cbn [andb]. split; [done|].
  destruct P as (Wp & Vp & E). apply Contains_value; [done..|by rewrite E|by rewrite L].
Qed.

Lemma DeriveLoopbackV6_in_pool_witness :
  let pool := mkPrefix (Addr6 (0xfd00 * 2 ^ 112) "") 64 in
  ∃ a, DeriveLoopbackV6 [x01] (replicate 16 x01) pool "" = Ok a ∧ Contains pool a = true.
Proof.
  intros pool. destruct (DeriveLoopbackV6_in_pool [x01] (replicate 16 x01) pool) as (a & E & _ & C).
  - split; [|done]. split; [by vm_compute|]. split; [done|]. right. by vm_compute.
  - by exists a.
Defined.

Lemma returns_applyOverrides overrides p : returns (applyOverrides overrides p).
Proof.
  revert p; induction overrides as [|raw l IH]; intros; cbn [applyOverrides];
    returns_tac; apply IH.
Qed.
#[export] Hint Resolve returns_applyOverrides : returns.
Lemma returns_DeriveProposal psk a b p4 p6 overrides n :
  returns (DeriveProposal psk a b p4 p6 overrides n).
Proof. unfold DeriveProposal. returns_tac. Qed.
#[export] Hint Resolve returns_DeriveProposal : returns.
