(* ===== verification/Engine.v ===== *)
(** internal/vfp/engine/engine.go: one VFP TCP session.

    [sessionFSM] and [staticLinkFSM] are the code's two state machines; every
    handler returns the code's (outbound, disposition, error) triple.  The event
    loop [Run] is a step function on the events its [select] receives.  What the
    loop calls outside the engine (the [Accept], [Commit], [Operational] ...
    callbacks, the writer, the deadline) is a record of functions on an arbitrary
    environment [env], so that every answer may depend on everything that
    happened before.  The read and write goroutines move frames; durations are
    not modelled, an expired timer is an event. *)

From S2P Require Import Prelude Netip Field MessageData NetipText Link.
Open Scope Z_scope.
Open Scope velvet_scope.

(** * Data *)

Definition maxCounterproposals : Z := 64.

Inductive SessionContext := LinkBoundSession | RoutedSession.
#[global] Instance SessionContext_eq_dec : EqDecision SessionContext.
Proof. solve_decision. Defined.

Record Config := mkConfig {
  Initiator : bool;
  FirstMessage : option Message;
  Context_ : SessionContext;
  LocalUID : UID;
  LocalLoopbackV6 : Addr;
  ExpectedRemoteLoopbackV6 : Addr;
  LinkPoolV4 : Prefix;
  LinkPoolV6 : Prefix;
  LoopbackPoolV6 : Prefix;
  FabricPSK : list byte;
  LinkOverrides : list string;
}.

Record Result_ := mkResult {
  RemoteUID : UID;
  RemoteLoopbackV6 : Addr;
  Result_Proposal : Proposal;
}.

Record Session := mkSession {
  Kind : SessionContext;
  Session_RemoteUID : UID;
  Session_RemoteLoopbackV6 : Addr;
}.

Inductive disposition := closeConnection | discardFrame.

Record staticLinkFSM := mkLinkFSM {
  link_remoteUID : UID;
  link_remoteV6 : Addr;
  waitingForRemoteProposal : bool;
  waitingForResponse : bool;
  outstanding : Proposal;
  attempt : Z;
  seen : gset string;
  pendingCommit : option Result_;
  established : bool;
}.

Record sessionFSM := mkFSM {
  opened : bool;
  stateReceived : bool;
  remoteUID : UID;
  remoteV6 : Addr;
  link : option staticLinkFSM;
  operational : bool;
}.

Definition UID_zero : UID := mkUID uuid_Nil "".
(** [sessionFSM{config: e.config}]. *)
Definition newSessionFSM : sessionFSM := mkFSM false false UID_zero AddrInvalid None false.

(** The code's [(outbound, disposition, error)]. *)
Definition reply : Type := option Message * disposition * option error.
Definition failed (d : disposition) (text : string) : reply := (None, d, Some (errors_New text)).
Definition replied (out : option Message) : reply := (out, discardFrame, None).

(** What the engine calls.  A nil callback is [None]. *)
Record Callbacks (env : Type) := mkCallbacks {
  Accept : option (UID → Proposal → env → bool * env);
  Commit : option (Result_ → env → option error * env);
  FrameError : option (error → env → env);
  Operational : option (Session → env → option error * env);
  OperationalMessage : option (Session → Message → env → option error * env);
  send : Message → env → option error * env;
  SetDeadline : env → option error * env;
}.
Arguments Accept {_}. Arguments Commit {_}. Arguments FrameError {_}.
Arguments Operational {_}. Arguments OperationalMessage {_}.
Arguments send {_}. Arguments SetDeadline {_}.

(** * Helpers *)

Definition proposalMessage (p : Proposal) : Message :=
  set_LinkPrefixes (V4 p) (V6 p) (newMessage LinkPropose).
Definition proposalKey (p : Proposal) : string :=
  Prefix_String (V4 p) +:+ "|" +:+ Prefix_String (V6 p).
Definition withinAddress (addr : Addr) (pool : Prefix) : bool :=
  negb (Addr_IsValid addr) || Contains pool addr.
Definition withinPrefix (prefix pool : Prefix) : bool :=
  negb (Prefix_IsValid prefix) ||
  ((Bits pool <=? Bits prefix) && Contains pool (Prefix_Addr prefix)).

Definition validOperationalMessage (context : SessionContext) (kind : MsgType) : bool :=
  match context with
  | RoutedSession =>
    is_type kind DynamicLinkPropose || is_type kind DynamicLinkAccept ||
    is_type kind DynamicLinkDecline || is_type kind DiscoveryControl ||
    is_type kind DurableCheck || is_type kind DurableStatus
  | LinkBoundSession =>
    is_type kind DurablePropose || is_type kind DurableSaved || is_type kind DurableDecline
  end.

(** Field assignments of [staticLinkFSM]. *)
Definition set_waiting (remote response : bool) (s : staticLinkFSM) : staticLinkFSM :=
  mkLinkFSM (link_remoteUID s) (link_remoteV6 s) remote response (outstanding s)
    (attempt s) (seen s) (pendingCommit s) (established s).
Definition set_outstanding (p : Proposal) (s : staticLinkFSM) : staticLinkFSM :=
  mkLinkFSM (link_remoteUID s) (link_remoteV6 s) (waitingForRemoteProposal s)
    (waitingForResponse s) p (attempt s) (seen s) (pendingCommit s) (established s).
Definition set_attempt (n : Z) (s : staticLinkFSM) : staticLinkFSM :=
  mkLinkFSM (link_remoteUID s) (link_remoteV6 s) (waitingForRemoteProposal s)
    (waitingForResponse s) (outstanding s) n (seen s) (pendingCommit s) (established s).
Definition add_seen (key : string) (s : staticLinkFSM) : staticLinkFSM :=
  mkLinkFSM (link_remoteUID s) (link_remoteV6 s) (waitingForRemoteProposal s)
    (waitingForResponse s) (outstanding s) (attempt s) ({[key]} ∪ seen s)
    (pendingCommit s) (established s).
Definition set_pendingCommit (r : option Result_) (s : staticLinkFSM) : staticLinkFSM :=
  mkLinkFSM (link_remoteUID s) (link_remoteV6 s) (waitingForRemoteProposal s)
    (waitingForResponse s) (outstanding s) (attempt s) (seen s) r (established s).
Definition set_established (s : staticLinkFSM) : staticLinkFSM :=
  mkLinkFSM (link_remoteUID s) (link_remoteV6 s) (waitingForRemoteProposal s)
    (waitingForResponse s) (outstanding s) (attempt s) (seen s) (pendingCommit s) true.
Definition set_link (l : option staticLinkFSM) (s : sessionFSM) : sessionFSM :=
  mkFSM (opened s) (stateReceived s) (remoteUID s) (remoteV6 s) l (operational s).
Definition set_operational (s : sessionFSM) : sessionFSM :=
  mkFSM (opened s) (stateReceived s) (remoteUID s) (remoteV6 s) (link s) true.

Definition result_of (s : staticLinkFSM) (p : Proposal) : Result_ :=
  mkResult (link_remoteUID s) (link_remoteV6 s) p.

Section Engine.
Context {env : Type} (cb : Callbacks env) (config : Config).

(** [s.config.Accept == nil || s.config.Accept(remoteUID, proposal)]. *)
Definition callAccept (uid : UID) (p : Proposal) (e : env) : bool * env :=
  match Accept cb with None => (true, e) | Some accept => accept uid p e end.
Definition callFrameError (err : error) (e : env) : env :=
  match FrameError cb with None => e | Some f => f err e end.
Definition callCommit (r : Result_) (e : env) : option error * env :=
  match Commit cb with None => (None, e) | Some f => f r e end.
Definition callOperational (s : Session) (e : env) : option error * env :=
  match Operational cb with None => (None, e) | Some f => f s e end.
Definition callOperationalMessage (s : Session) (m : Message) (e : env) :
    option error * env :=
  match OperationalMessage cb with None => (None, e) | Some f => f s m e end.

(** [for s.attempt < maxCounterproposals]; the fuel is the attempts left. *)
Fixpoint nextProposalLoop (fuel : nat) (s : staticLinkFSM) (e : env) :
    staticLinkFSM * env * result Proposal :=
  match fuel with
  | O => (s, e, Err (errors_New "no acceptable counterproposal available"))
  | S fuel =>
    let derived := DeriveProposal (FabricPSK config) (UUID (LocalUID config))
      (UUID (link_remoteUID s)) (LinkPoolV4 config) (LinkPoolV6 config)
      (LinkOverrides config) (attempt s) in
    let s := set_attempt (attempt s + 1) s in
    match derived with
    | Err err => (s, e, Err err)
    | Panic => (s, e, Panic)
    | Ok proposal =>
      let key := proposalKey proposal in
      if bool_decide (key ∈ seen s) then nextProposalLoop fuel s e else
      let '(ok, e) := callAccept (link_remoteUID s) proposal e in
      if negb ok then nextProposalLoop fuel s e
      else (add_seen key s, e, Ok proposal)
    end
  end.
Definition nextProposal (s : staticLinkFSM) (e : env) :
    staticLinkFSM * env * result Proposal :=
  nextProposalLoop (Z.to_nat (maxCounterproposals - attempt s)) s e.

Definition handleProposal (s : staticLinkFSM) (m : Message) (e : env) :
    staticLinkFSM * env * reply :=
  let proposal := mkProposal (LinkPrefixV4 m) (LinkPrefixV6 m) in
  if negb (withinPrefix (V4 proposal) (LinkPoolV4 config)) ||
     negb (withinPrefix (V6 proposal) (LinkPoolV6 config))
  then (s, e, failed discardFrame "proposed Link prefix is outside Fabric prefix") else
  let key := proposalKey proposal in
  if bool_decide (key ∈ seen s)
  then (s, e, failed closeConnection "peer repeated a Link proposal") else
  let s := add_seen key s in
  let '(acceptable, e) := callAccept (link_remoteUID s) proposal e in
  if acceptable then
    let s := set_pendingCommit (Some (result_of s proposal)) s in
    (set_waiting false false s, e, replied (Some (newMessage LinkAccept)))
  else
    let '(s, e, counter) := nextProposal s e in
    match counter with
    | Err err => (s, e, (None, closeConnection, Some err))
    | Panic => (s, e, failed closeConnection "unreachable: DeriveProposal returns")
    | Ok counter =>
      if bool_decide (proposalKey counter = key)
      then (s, e, failed closeConnection "no distinct counterproposal available")
      else (set_waiting false true (set_outstanding counter s), e,
            replied (Some (proposalMessage counter)))
    end.

Definition start (s : staticLinkFSM) (e : env) : staticLinkFSM * env * reply :=
  if Initiator config then
    let '(s, e, proposal) := nextProposal s e in
    match proposal with
    | Err err => (s, e, (None, closeConnection, Some err))
    | Panic => (s, e, failed closeConnection "unreachable: DeriveProposal returns")
    | Ok proposal =>
      (set_waiting (waitingForRemoteProposal s) true (set_outstanding proposal s), e,
       replied (Some (proposalMessage proposal)))
    end
  else (set_waiting true (waitingForResponse s) s, e, replied None).

Definition link_handle (s : staticLinkFSM) (m : Message) (e : env) :
    staticLinkFSM * env * reply :=
  if waitingForRemoteProposal s then
    if negb (is_type (Type_ m) LinkPropose)
    then (s, e, failed discardFrame "expected LINK_PROPOSE")
    else handleProposal s m e
  else if waitingForResponse s then
    match Type_ m with
    | LinkAccept =>
      (set_waiting (waitingForRemoteProposal s) false
         (set_pendingCommit (Some (result_of s (outstanding s))) s), e, replied None)
    | LinkPropose => handleProposal s m e
    | _ => (s, e, failed discardFrame "expected LINK_ACCEPT or counterproposal")
    end
  else (s, e, failed discardFrame "link FSM has no active transition").

Definition handleOpen (s : sessionFSM) (m : Message) : sessionFSM * reply :=
  match Type_ m, Msg_UID m with
  | Open, Some uid =>
    if bool_decide (UUID uid = UUID (LocalUID config))
    then (s, failed closeConnection "remote Node UUID equals local UUID")
    else (mkFSM true (stateReceived s) uid (remoteV6 s) (link s) (operational s),
          replied (Some (set_LoopbackV6 (LocalLoopbackV6 config) (newMessage NodeState))))
  | _, _ => (s, failed closeConnection "first message is not a valid OPEN")
  end.

Definition handleNodeState (s : sessionFSM) (m : Message) (e : env) :
    sessionFSM * env * reply :=
  if negb (is_type (Type_ m) NodeState)
  then (s, e, failed discardFrame "expected NODE_STATE") else
  if negb (withinAddress (LoopbackV6 m) (LoopbackPoolV6 config))
  then (s, e, failed discardFrame "remote loopback is outside Fabric prefix") else
  let s := mkFSM (opened s) true (remoteUID s) (LoopbackV6 m) (link s) (operational s) in
  match Context_ config with
  | RoutedSession =>
    if Addr_IsValid (ExpectedRemoteLoopbackV6 config) &&
       negb (bool_decide (LoopbackV6 m = ExpectedRemoteLoopbackV6 config))
    then (s, e, failed closeConnection "remote loopback does not match routed session target")
    else (set_operational s, e, replied None)
  | LinkBoundSession =>
    match (if Initiator config then FirstMessage config else None) with
    | Some first =>
      if negb (is_type (Type_ first) DurablePropose)
      then (s, e, failed closeConnection "invalid initial Link business message")
      else (set_operational s, e, replied (Some first))
    | None =>
      let l := mkLinkFSM (remoteUID s) (LoopbackV6 m) false false Proposal_zero 0 ∅ None false in
      let '(l, e, r) := start l e in
      (set_link (Some l) s, e, r)
    end
  end.

(** [None] is the nil dereference of [s.link.handle(in)]. *)
Definition handle (s : sessionFSM) (m : Message) (e : env) :
    option (sessionFSM * env * reply) :=
  if negb (opened s) then let '(s, r) := handleOpen s m in Some (s, e, r)
  else if negb (stateReceived s) then Some (handleNodeState s m e)
  else match link s with
       | Some l =>
         if negb (Initiator config) && waitingForRemoteProposal l &&
            is_type (Type_ m) DurablePropose
         then Some (set_operational (set_link None s), e, replied None)
         else let '(l, e, r) := link_handle l m e in Some (set_link (Some l) s, e, r)
       | None => None
       end.

Definition takeCommit (s : sessionFSM) : sessionFSM * option Result_ :=
  match link s with
  | Some l =>
    match pendingCommit l with
    | Some r => (set_link (Some (set_pendingCommit None l)) s, Some r)
    | None => (s, None)
    end
  | None => (s, None)
  end.

(** [s.link.established = true; s.operational = true]; [None] is the nil
    dereference of [s.link.established]. *)
Definition markEstablished (s : sessionFSM) : option sessionFSM :=
  match link s with
  | Some l => Some (set_operational (set_link (Some (set_established l)) s))
  | None => None
  end.

(** * The event loop *)

(** The local variables of [Run]; [deadlineArmed] tells whether
    [establishmentDeadline] is not nil. *)
Record runState := mkRun {
  fsm : sessionFSM; operationalNotified : bool; deadlineArmed : bool }.

Inductive event :=
  | CtxDone
  | EstablishmentDeadline
  | ReadError (err : error)
  | ReadFrameInvalid (err : error)
  | ReadMessage (m : Message).

(** [return nil], [return err], or the nil dereference. *)
Inductive exit := ExitNil | ExitErr (err : error) | ExitPanic.

Definition sessionOf (s : sessionFSM) : Session :=
  mkSession (Context_ config) (remoteUID s) (remoteV6 s).

(** From [SetDeadline] to the first [send]. *)
Definition Run_start (e : env) : option exit * env :=
  let '(err, e) := SetDeadline cb e in
  match err with
  | Some err => (Some (ExitErr err), e)
  | None =>
    let '(err, e) := send cb (set_UID (Some (LocalUID config)) None (newMessage Open)) e in
    match err with
    | Some err => (Some (ExitErr err), e)
    | None => (None, e)
    end
  end.

(** The tail of one turn, once [fsm.handle] gave a reply without an error. *)
Definition Run_notify (st : runState) (m : Message) (e : env) :
    runState * env * option exit :=
  let s := fsm st in
  if operational s && bool_decide (Context_ config = LinkBoundSession) &&
     match link s with Some l => established l | None => false end
  then (st, e, Some ExitNil)
  else if operational s && negb (operationalNotified st) then
    let st := mkRun s true (deadlineArmed st) in
    let '(err, e) := match Context_ config with
                     | RoutedSession => SetDeadline cb e
                     | LinkBoundSession => (None, e)
                     end in
    match err with
    | Some err => (st, e, Some (ExitErr err))
    | None =>
      let st := mkRun s true
        (deadlineArmed st && negb (bool_decide (Context_ config = RoutedSession))) in
      let '(err, e) := callOperational (sessionOf s) e in
      match err with
      | Some err => (st, e, Some (ExitErr err))
      | None =>
        if is_type (Type_ m) DurablePropose then
          let '(err, e) := callOperationalMessage (sessionOf s) m e in
          (st, e, match err with Some err => Some (ExitErr err) | None => None end)
        else (st, e, None)
      end
    end
  else (st, e, None).

Definition Run_commit (st : runState) (out : option Message) (m : Message) (e : env) :
    runState * env * option exit :=
  let '(s, r) := takeCommit (fsm st) in
  let '(s, e, stop) := match r with
    | Some r =>
      let '(err, e) := callCommit r e in
      match err with
      | Some err => (s, e, Some (ExitErr err))
      | None =>
        match markEstablished s with
        | Some s => (s, e, None)
        | None => (s, e, Some ExitPanic)
        end
      end
    | None => (s, e, None)
    end in
  let st := mkRun s (operationalNotified st) (deadlineArmed st) in
  match stop with
  | Some x => (st, e, Some x)
  | None =>
    let '(err, e) := match out with Some out => send cb out e | None => (None, e) end in
    match err with
    | Some err => (st, e, Some (ExitErr err))
    | None => Run_notify st m e
    end
  end.

(** One turn of the [for]/[select] loop. *)
Definition Run_step (st : runState) (ev : event) (e : env) : runState * env * option exit :=
  match ev with
  | CtxDone => (st, e, Some (ExitErr (errors_New "context done")))
  | EstablishmentDeadline =>
    if deadlineArmed st then (st, e, Some (ExitErr (errors_New "VFP establishment timed out")))
    else (st, e, None)
  | ReadError err => (st, e, Some (ExitErr err))
  | ReadFrameInvalid err =>
    if negb (opened (fsm st)) then (st, e, Some (ExitErr err))
    else (st, callFrameError err e, None)
  | ReadMessage m =>
    if operational (fsm st) then
      if negb (validOperationalMessage (Context_ config) (Type_ m)) then
        (st, callFrameError (errors_New "message is invalid in operational session context") e,
         None)
      else
        let '(err, e) := callOperationalMessage (sessionOf (fsm st)) m e in
        (st, e, match err with Some err => Some (ExitErr err) | None => None end)
    else
      match handle (fsm st) m e with
      | None => (st, e, Some ExitPanic)
      | Some (s, e, (out, d, err)) =>
        let st := mkRun s (operationalNotified st) (deadlineArmed st) in
        match err with
        | Some err =>
          match d with
          | discardFrame => (st, callFrameError err e, None)
          | closeConnection => (st, e, Some (ExitErr err))
          end
        | None => Run_commit st out m e
        end
      end
  end.

Definition newRun : runState := mkRun newSessionFSM false true.

(** [for { select ... }] over a sequence of events. *)
Fixpoint Run_events (st : runState) (evs : list event) (e : env) :
    runState * env * option exit :=
  match evs with
  | [] => (st, e, None)
  | ev :: evs =>
    match Run_step st ev e with
    | (st, e, Some x) => (st, e, Some x)
    | (st, e, None) => Run_events st evs e
    end
  end.
End Engine.

(** * No nil dereference *)

(** [handle] may be called: NODE_STATE is still to come, or there is a Link. *)
Definition ready (s : sessionFSM) : Prop :=
  stateReceived s = false ∨
  (opened s = true ∧ (operational s = true ∨ is_Some (link s))).

Section Ready.
Context {env : Type} (cb : Callbacks env) (config : Config).

Lemma handleOpen_ready s m s' r :
  handleOpen config s m = (s', r) → ready s → ready s'.
Proof.
  unfold handleOpen, ready. intros H R.
  destruct (Type_ m), (Msg_UID m); try (by injection H as <- _).
  destruct (bool_decide _); injection H as <- _; [done|]. simpl.
  destruct R as [R|[_ R]]; auto.
Qed.

Lemma handleNodeState_ready s m e s' e' out d err :
  handleNodeState cb config s m e = (s', e', (out, d, err)) →
  opened s = true → stateReceived s = false → err = None ∨ d = discardFrame → ready s'.
Proof.
  unfold handleNodeState, ready, failed, replied. intros H O S E.
  repeat match type of H with
  | (if ?b then _ else _) = _ => destruct b
  | (match ?b with _ => _ end) = _ => destruct b eqn:?
  end; simplify_eq/=; try (destruct E; done); auto.
  all: right; split; [done|]; right; by eexists.
Qed.

Lemma handle_ready s m e :
  operational s = false → ready s →
  ∃ s' e' out d err, handle cb config s m e = Some (s', e', (out, d, err)) ∧
    (err = None ∨ d = discardFrame → ready s').
Proof.
  intros O R. unfold handle. destruct (opened s) eqn:Op; cbn [negb].
  2: { destruct (handleOpen config s m) as [s' [[out d] err]] eqn:H.
       do 5 eexists. split; [reflexivity|]. intros _. by eapply handleOpen_ready. }
  destruct (stateReceived s) eqn:Sr; cbn [negb].
  2: { destruct (handleNodeState cb config s m e) as [[s' e'] [[out d] err]] eqn:H.
       do 5 eexists. split; [reflexivity|]. intros E. by eapply handleNodeState_ready. }
  destruct R as [?|[_ [?|[l Hl]]]]; [congruence..|]. rewrite Hl.
  destruct (_ && _ && _).
  - do 5 eexists. split; [reflexivity|]. intros _. right. simpl. auto.
  - destruct (link_handle cb config l m e) as [[l' e'] [[out d] err]].
    do 5 eexists. split; [reflexivity|]. intros _. right. simpl. eauto.
Qed.

Lemma ready_takeCommit s s' r : takeCommit s = (s', r) → ready s → ready s'.
Proof.
  unfold takeCommit, ready. destruct (link s) as [l|] eqn:L; [|by intros [= <- <-]; rewrite L].
  destruct (pendingCommit l); intros [= <- <-]; simpl; rewrite ?L; [|done].
  intros [?|[? ?]]; [auto|]. right. split; [done|]. right. eauto.
Qed.

(** A result to commit comes from a Link. *)
Lemma takeCommit_link s s' r : takeCommit s = (s', Some r) → is_Some (link s').
Proof.
  unfold takeCommit. destruct (link s) as [l|]; [|done].
  destruct (pendingCommit l); [|done]. intros [= <- _]. by eexists.
Qed.

Lemma ready_markEstablished s :
  is_Some (link s) → ready s → ∃ s', markEstablished s = Some s' ∧ ready s'.
Proof.
  unfold ready, markEstablished. intros [l ->] R. eexists. split; [done|]. simpl.
  destruct R as [?|[? ?]]; auto.
Qed.

Lemma Run_notify_ready st m e st' e' x :
  Run_notify cb config st m e = (st', e', x) →
  ready (fsm st) → x ≠ Some ExitPanic ∧ ready (fsm st').
Proof.
  unfold Run_notify. intros H R.
  repeat match type of H with
  | (if ?b then _ else _) = _ => destruct b
  | (match ?b with _ => _ end) = _ => destruct b
  end; simplify_eq/=; repeat case_match; done.
Qed.

Lemma Run_commit_ready st out m e st' e' x :
  Run_commit cb config st out m e = (st', e', x) →
  ready (fsm st) → x ≠ Some ExitPanic ∧ ready (fsm st').
Proof.
  unfold Run_commit. intros H R.
  destruct (takeCommit (fsm st)) as [s r] eqn:T. pose proof T as L.
  apply ready_takeCommit in T; [|done].
  destruct r as [r|]; [destruct (callCommit cb r e) as [[err|] e1]|].
  1: by simplify_eq/=.
  1: apply takeCommit_link in L;
    destruct (ready_markEstablished s L T) as (s1 & M & R1); rewrite M in H.
  all: destruct (match out with Some out0 => send cb out0 _ | None => _ end) as [[err|] e2];
    [by simplify_eq/=|by apply Run_notify_ready in H].
Qed.

Lemma Run_step_ready st ev e st' e' x :
  Run_step cb config st ev e = (st', e', x) → ready (fsm st) →
  x ≠ Some ExitPanic ∧ (x = None → ready (fsm st')).
Proof.
  intros H R. destruct ev as [| |err|err|m]; cbn [Run_step] in H.
  - by simplify_eq/=.
  - destruct (deadlineArmed st); by simplify_eq/=.
  - by simplify_eq/=.
  - destruct (negb _); by simplify_eq/=.
  - destruct (operational (fsm st)) eqn:O.
    + destruct (negb _); [by simplify_eq/=|].
      destruct (callOperationalMessage _ _ _ _) as [[err|] e1]; by simplify_eq/=.
    + destruct (handle_ready (fsm st) m e O R) as (s' & e1 & out & d & err & Hd & R').
      rewrite Hd in H. destruct err as [err|].
      * destruct d; simplify_eq/=; [done|]. split; [done|]. auto.
      * apply Run_commit_ready in H; [naive_solver|]. simpl. auto.
Qed.

Lemma Run_events_ready st evs e st' e' x :
  Run_events cb config st evs e = (st', e', x) → ready (fsm st) → x ≠ Some ExitPanic.
Proof.
  revert st e; induction evs as [|ev evs IH]; intros st e H R; cbn [Run_events] in H.
  - by simplify_eq/=.
  - destruct (Run_step cb config st ev e) as [[st1 e1] [x1|]] eqn:S;
      apply Run_step_ready in S as [N R1]; try done.
    + by simplify_eq/=.
    + eapply IH; eauto.
Qed.
End Ready.

(** * What the Link FSM does *)

(** Everything of the Link FSM but [attempt] and [seen]. *)
Definition link_core (s : staticLinkFSM) :=
  (link_remoteUID s, link_remoteV6 s, waitingForRemoteProposal s, waitingForResponse s,
   outstanding s, pendingCommit s, established s).

(** Waiting for the answer to [p], which it proposed. *)
Definition holds (p : Proposal) (s : staticLinkFSM) : Prop :=
  waitingForRemoteProposal s = false ∧ waitingForResponse s = true ∧
  outstanding s = p ∧ pendingCommit s = None.
(** Waiting for the first proposal. *)
Definition awaits (s : staticLinkFSM) : Prop :=
  waitingForRemoteProposal s = true ∧ waitingForResponse s = false ∧ pendingCommit s = None.

Section LinkFSM.
Context {env : Type} (cb : Callbacks env) (config : Config).
(** [accepted e uid p]: the calls that led to [e] include one of [Accept] on [uid]
    and [p] that answered true. *)
Context (accepted : env → UID → Proposal → Prop).
Context (accepted_call : ∀ uid p e e', callAccept cb uid p e = (true, e') → accepted e' uid p).
Context (accepted_mono : ∀ uid p ok e e' uid' p',
  callAccept cb uid p e = (ok, e') → accepted e uid' p' → accepted e' uid' p').

(** [p] is derived at some attempt. *)
Definition own_proposal (uid : UID) (p : Proposal) : Prop :=
  ∃ n, DeriveProposal (FabricPSK config) (UUID (LocalUID config)) (UUID uid)
    (LinkPoolV4 config) (LinkPoolV6 config) (LinkOverrides config) n = Ok p.

Lemma nextProposalLoop_ok fuel s e s' e' r :
  nextProposalLoop cb config fuel s e = (s', e', r) →
  link_core s' = link_core s ∧ attempt s <= attempt s' <= attempt s + Z.of_nat fuel ∧
  (∀ uid p, accepted e uid p → accepted e' uid p) ∧
  match r with
  | Ok p => own_proposal (link_remoteUID s) p ∧ accepted e' (link_remoteUID s) p ∧
      proposalKey p ∉ seen s ∧ seen s' = {[proposalKey p]} ∪ seen s ∧ attempt s < attempt s'
  | _ => seen s' = seen s
  end.
Proof.
  revert s e; induction fuel as [|fuel IH]; intros s e H; cbn [nextProposalLoop] in H.
  { simplify_eq/=. split_and!; [done|lia|lia|done|done]. }
  destruct (DeriveProposal _ _ _ _ _ _ _) as [p|err|] eqn:D;
    [|simplify_eq/=; split_and!; done || lia..].
  set (s1 := set_attempt (attempt s + 1) s) in *.
  assert (C : link_core s1 = link_core s ∧ attempt s1 = attempt s + 1 ∧ seen s1 = seen s ∧
    link_remoteUID s1 = link_remoteUID s) by done. destruct C as (C1 & C2 & C3 & C4).
  destruct (bool_decide (proposalKey p ∈ seen s1)) eqn:K.
  { apply IH in H as (E & A & Mo & R). rewrite C1, C2 in *. split_and!; [done|lia|lia|done|].
    destruct r; rewrite ?C3, ?C4 in R; [|done..]. destruct R as (? & ? & ? & ? & ?).
    split_and!; try done; lia. }
  destruct (callAccept cb (link_remoteUID s1) p e) as [ok e1] eqn:A. bool_to_prop.
  pose proof (λ uid' p', accepted_mono _ _ _ _ _ uid' p' A) as M1.
  destruct ok; cbn [negb] in H.
  - simplify_eq/=. split_and!; [done|lia|lia|done|by exists (attempt s)| |done|done|lia].
    by eapply accepted_call.
  - apply IH in H as (E & A' & Mo & R). rewrite C1, C2 in *.
    split_and!; [done|lia|lia|by auto|].
    destruct r; rewrite ?C3, ?C4 in R; [|done..]. destruct R as (? & ? & ? & ? & ?).
    split_and!; try done; lia.
Qed.

Lemma nextProposal_ok s e s' e' r :
  nextProposal cb config s e = (s', e', r) → 0 <= attempt s <= maxCounterproposals →
  link_core s' = link_core s ∧ attempt s <= attempt s' <= maxCounterproposals ∧
  (∀ uid p, accepted e uid p → accepted e' uid p) ∧
  match r with
  | Ok p => own_proposal (link_remoteUID s) p ∧ accepted e' (link_remoteUID s) p ∧
      proposalKey p ∉ seen s ∧ seen s' = {[proposalKey p]} ∪ seen s ∧ attempt s < attempt s'
  | _ => seen s' = seen s
  end.
Proof.
  unfold nextProposal. intros H A.
  apply nextProposalLoop_ok in H as (C & L & M & R). split_and!; [done|lia|lia|done|done].
Qed.

Definition proposal_of (m : Message) : Proposal :=
  mkProposal (LinkPrefixV4 m) (LinkPrefixV6 m).

(** The outcomes of [handleProposal], in the environment it leaves. *)
Inductive proposal_step (s : staticLinkFSM) (m : Message) (e' : env) :
    staticLinkFSM → reply → Prop :=
  | step_refused s' out d err :
      (d = discardFrame → s' = s) → proposal_step s m e' s' (out, d, Some err)
  | step_accepted s' :
      accepted e' (link_remoteUID s) (proposal_of m) →
      pendingCommit s' = Some (result_of s (proposal_of m)) →
      attempt s' = attempt s → seen s' = {[proposalKey (proposal_of m)]} ∪ seen s →
      proposal_step s m e' s' (replied (Some (newMessage LinkAccept)))
  | step_countered s' q :
      own_proposal (link_remoteUID s) q → accepted e' (link_remoteUID s) q →
      waitingForRemoteProposal s' = false → waitingForResponse s' = true →
      outstanding s' = q → pendingCommit s' = pendingCommit s →
      link_remoteUID s' = link_remoteUID s → link_remoteV6 s' = link_remoteV6 s →
      attempt s < attempt s' <= maxCounterproposals →
      proposalKey q ∉ seen s →
      seen s' = {[proposalKey q]} ∪ ({[proposalKey (proposal_of m)]} ∪ seen s) →
      proposal_step s m e' s' (replied (Some (proposalMessage q))).

Lemma handleProposal_step s m e s' e' r :
  handleProposal cb config s m e = (s', e', r) → 0 <= attempt s <= maxCounterproposals →
  (∀ uid p, accepted e uid p → accepted e' uid p) ∧ proposal_step s m e' s' r.
Proof.
  unfold handleProposal, failed. intros H A. fold (proposal_of m) in H.
  destruct (_ || _); [simplify_eq/=; split; [done|by constructor]|].
  destruct (bool_decide _); [simplify_eq/=; split; [done|by constructor]|].
  destruct (callAccept cb _ _ e) as [ok e1] eqn:Ac.
  pose proof (λ uid' p', accepted_mono _ _ _ _ _ uid' p' Ac) as M1. destruct ok.
  - simplify_eq/=. split; [done|]. apply step_accepted; [by eapply accepted_call|done..].
  - set (s1 := add_seen _ s) in *.
    destruct (nextProposal cb config s1 e1) as [[s2 e2] c] eqn:N.
    apply nextProposal_ok in N as (C & L & Mo & R); [|done]. unfold link_core in C.
    simplify_eq/=.
    destruct c as [q|err|]; [|simplify_eq/=; split; [by auto|by constructor]..].
    destruct R as (O & Aq & K & Sn & Lt). destruct (bool_decide _);
      [simplify_eq/=; split; [by auto|by constructor]|]. simplify_eq/=. split; [by auto|].
    apply step_countered; simpl; try done; try congruence; try lia; by set_solver.
Qed.

(** The outcomes of [link_handle] in the two waiting states. *)
Lemma link_handle_step s m e s' e' r :
  link_handle cb config s m e = (s', e', r) → 0 <= attempt s <= maxCounterproposals →
  (∀ uid p, accepted e uid p → accepted e' uid p) ∧
  ((∃ out d err, r = (out, d, Some err) ∧ (d = discardFrame → s' = s)) ∨
   (Type_ m = LinkPropose ∧ proposal_step s m e' s' r) ∨
   (Type_ m = LinkAccept ∧ waitingForRemoteProposal s = false ∧ waitingForResponse s = true ∧
    r = replied None ∧ pendingCommit s' = Some (result_of s (outstanding s)) ∧
    attempt s' = attempt s ∧ seen s' = seen s)).
Proof.
  unfold link_handle, failed. intros H A.
  destruct (waitingForRemoteProposal s) eqn:W1.
  - destruct (is_type (Type_ m) LinkPropose) eqn:T; cbn [negb] in H.
    + apply handleProposal_step in H as [Mo H]; [|done]. split; [done|].
      unfold is_type in T. bool_to_prop. auto.
    + simplify_eq/=. split; [done|]. left. by repeat eexists.
  - destruct (waitingForResponse s) eqn:W2;
      [|simplify_eq/=; split; [done|]; left; by repeat eexists].
    destruct (Type_ m) eqn:T; try (simplify_eq/=; split; [done|]; left; by repeat eexists).
    + apply handleProposal_step in H as [Mo H]; [|done]. split; [done|]. auto.
    + simplify_eq/=. split; [done|]. right; right. by split_and!.
Qed.
End LinkFSM.

(** C5: the event loop never dereferences a nil Link, neither in [s.link.handle]
    nor in [markEstablished].  Whatever the configuration, the callbacks and the
    sequence of messages, invalid frames, errors and timer events, [Run] does not
    panic. *)
Theorem Run_no_panic {env} (cb : Callbacks env) config evs e :
  (Run_events cb config newRun evs e).2 ≠ Some ExitPanic.
Proof.
  destruct (Run_events cb config newRun evs e) as [[st' e'] x] eqn:H.
  apply Run_events_ready in H; [done|]. by left.
Qed.
