(* ===== verification/Negotiation.v ===== *)
(** Two VFP engines on one TCP connection: what each side sends is encoded,
    carried in order, decoded and handed to the other side's event loop.  The
    theorems are about every interleaving, every behaviour of the callbacks and
    every point at which a side fails or is cancelled. *)

From S2P Require Import Prelude Tlv Netip Field MessageData DurableWire NetipText Message Link Engine.
Open Scope Z_scope.
Open Scope velvet_scope.

(** * One side *)

(** What a side sent and committed, and what its [Accept] callback accepted, in
    order. *)
Record log := mkLog {
  sent : list Message; committed : list Result_; accepts : list (UID * Proposal) }.
Definition log_nil : log := mkLog [] [] [].
Definition log_send (m : Message) (l : log) : log :=
  mkLog (sent l ++ [m]) (committed l) (accepts l).
Definition log_commit (r : Result_) (l : log) : log :=
  mkLog (sent l) (committed l ++ [r]) (accepts l).
Definition log_accept (uid : UID) (p : Proposal) (l : log) : log :=
  mkLog (sent l) (committed l) (accepts l ++ [(uid, p)]).

Section Logged.
Context {env : Type} (cb : Callbacks env).

(** The same callbacks, recording the sends and commits that succeed and the calls
    of [Accept] that answer true (a nil [Accept] accepts). *)
Definition logged : Callbacks (env * log) := mkCallbacks _
  (Some (λ uid p el, let '(ok, e) := callAccept cb uid p el.1 in
                     (ok, (e, if ok : bool then log_accept uid p el.2 else el.2))))
  (Some (λ r el, match callCommit cb r el.1 with
                 | (Some err, e) => (Some err, (e, el.2))
                 | (None, e) => (None, (e, log_commit r el.2))
                 end))
  (Some (λ err el, (callFrameError cb err el.1, el.2)))
  (Some (λ s el, let '(err, e) := callOperational cb s el.1 in (err, (e, el.2))))
  (Some (λ s m el, let '(err, e) := callOperationalMessage cb s m el.1 in (err, (e, el.2))))
  (λ m el, match send cb m el.1 with
           | (Some err, e) => (Some err, (e, el.2))
           | (None, e) => (None, (e, log_send m el.2))
           end)
  (λ el, let '(err, e) := SetDeadline cb el.1 in (err, (e, el.2))).

(** The calls of [Accept] in the log that answered true. *)
Definition accepted_in (el : env * log) (uid : UID) (p : Proposal) : Prop :=
  (uid, p) ∈ accepts el.2.

Lemma accepted_in_call uid p el el' :
  callAccept logged uid p el = (true, el') → accepted_in el' uid p.
Proof.
  cbn. destruct (callAccept cb uid p el.1) as [ok e]. intros [= -> <-].
  unfold accepted_in. simpl. set_solver.
Qed.
Lemma accepted_in_mono uid p ok el el' uid' p' :
  callAccept logged uid p el = (ok, el') → accepted_in el uid' p' →
  accepted_in el' uid' p'.
Proof.
  cbn. destruct (callAccept cb uid p el.1) as [ok' e]. intros [= -> <-].
  unfold accepted_in. destruct ok; simpl; set_solver.
Qed.

End Logged.

Record party (env : Type) := mkParty {
  run : runState; penv : env * log; exited : option exit }.
Arguments mkParty {_}. Arguments run {_}. Arguments penv {_}. Arguments exited {_}.

Definition plink {env} (p : party env) : option staticLinkFSM := link (fsm (run p)).
Definition psent {env} (p : party env) : list Message := sent (penv p).2.
Definition pcommitted {env} (p : party env) : list Result_ := committed (penv p).2.
Definition paccepted {env} (p : party env) : list (UID * Proposal) := accepts (penv p).2.

(** A side before the connection is used, then after [Run] sent OPEN. *)
Definition party_start {env} (cb : Callbacks env) (config : Config) (e : env) : party env :=
  let '(x, e) := Run_start (logged cb) config (e, log_nil) in
  mkParty newRun e x.

(** A side that returned takes no further step. *)
Definition party_step {env} (cb : Callbacks env) (config : Config) (p : party env)
    (ev : event) : party env :=
  match exited p with
  | Some _ => p
  | None =>
    let '(st, e, x) := Run_step (logged cb) config (run p) ev (penv p) in mkParty st e x
  end.

(** * The connection *)

(** What the other side reads when [m] is written: [None] if it cannot be. *)
Definition wire (m : Message) : option event :=
  match Encode m with
  | Ok f =>
    match Decode f with
    | Ok m' => Some (ReadMessage m')
    | Err err => Some (ReadFrameInvalid err)
    | Panic => None
    end
  | _ => None
  end.

Record sys (envA envB : Type) := mkSys {
  sideA : party envA; sideB : party envB;
  readA : nat;  (* messages of B that A has read *)
  readB : nat;
}.
Arguments mkSys {_ _}. Arguments sideA {_ _}. Arguments sideB {_ _}.
Arguments readA {_ _}. Arguments readB {_ _}.

(** Events that do not come from the peer's messages. *)
Definition local_event (ev : event) : Prop :=
  match ev with ReadMessage _ | ReadFrameInvalid _ => False | _ => True end.

Section Connection.
Context {envA envB : Type} (cbA : Callbacks envA) (cbB : Callbacks envB).
Context (configA configB : Config).

Inductive sys_step : sys envA envB → sys envA envB → Prop :=
  | deliver_A s m ev :
      psent (sideB s) !! readA s = Some m → wire m = Some ev →
      sys_step s (mkSys (party_step cbA configA (sideA s) ev) (sideB s) (S (readA s)) (readB s))
  | deliver_B s m ev :
      psent (sideA s) !! readB s = Some m → wire m = Some ev →
      sys_step s (mkSys (sideA s) (party_step cbB configB (sideB s) ev) (readA s) (S (readB s)))
  | local_A s ev :
      local_event ev →
      sys_step s (mkSys (party_step cbA configA (sideA s) ev) (sideB s) (readA s) (readB s))
  | local_B s ev :
      local_event ev →
      sys_step s (mkSys (sideA s) (party_step cbB configB (sideB s) ev) (readA s) (readB s)).

Definition sys_start (eA : envA) (eB : envB) : sys envA envB :=
  mkSys (party_start cbA configA eA) (party_start cbB configB eB) 0 0.

Definition reachable (eA : envA) (eB : envB) (s : sys envA envB) : Prop :=
  rtc sys_step (sys_start eA eB) s.
End Connection.

(** * One side's moves *)

(** A side in a static negotiation, as long as it has not returned. *)
Definition static_config (config : Config) : Prop :=
  Context_ config = LinkBoundSession ∧ FirstMessage config = None.

Definition live {env} (p : party env) : Prop :=
  operational (fsm (run p)) = false ∧
  match plink p with
  | Some l => 0 <= attempt l <= maxCounterproposals ∧ (awaits l ∨ ∃ q, holds q l)
  | None => True
  end.

Definition is_link (m : Message) : bool :=
  is_type (Type_ m) LinkPropose || is_type (Type_ m) LinkAccept.

(** OPEN and NODE_STATE: of an assigned type, and no business message. *)
Definition plain_msg (m : Message) : Prop :=
  is_link m = false ∧ Type_ m ≠ DurablePropose ∧ byte_type (type_byte (Type_ m)) = Type_ m.

(** What one event does to a live side: the messages it adds to the stream, and
    how its Link changes. *)
Inductive move {env} (config : Config) (ev : event) (p p' : party env) :
    list Message → Prop :=
  (* nothing of the Link changes, or the side returns without committing *)
  | move_other new :
      Forall plain_msg new →
      pcommitted p' = pcommitted p →
      (plink p' = plink p ∧ live p' ∨ exited p' ≠ None) → move config ev p p' new
  (* NODE_STATE starts the Link of the responder *)
  | move_await l :
      Initiator config = false → plink p = None → plink p' = Some l → awaits l →
      attempt l = 0 → operational (fsm (run p')) = false → pcommitted p' = pcommitted p →
      exited p' = None → move config ev p p' []
  (* a proposal: the initiator's first, or a counterproposal *)
  | move_propose l q uid new :
      plink p = None ∧ Initiator config = true ∨
        (∃ m, ev = ReadMessage m ∧ Type_ m = LinkPropose) ∧ plink p ≠ None →
      own_proposal config uid q ∧ uid = link_remoteUID l ∧ (uid, q) ∈ paccepted p' ∧
        proposalKey q ∈ seen l ∧
        match plink p with
        | Some l0 => (proposalKey q ∉ seen l0) ∧ seen l0 ⊆ seen l ∧ attempt l0 < attempt l
        | None => 0 < attempt l
        end →
      plink p' = Some l → holds q l → 0 <= attempt l <= maxCounterproposals →
      operational (fsm (run p')) = false → pcommitted p' = pcommitted p →
      (new = [proposalMessage q] ∧ exited p' = None ∨ new = [] ∧ exited p' ≠ None) →
      move config ev p p' new
  (* the peer's proposal is accepted, committed, and the side returns *)
  | move_accept m r new :
      ev = ReadMessage m → Type_ m = LinkPropose → plink p ≠ None →
      Result_Proposal r = proposal_of m ∧ (RemoteUID r, proposal_of m) ∈ paccepted p' →
      pcommitted p' = pcommitted p ++ [r] → exited p' ≠ None → (new = [newMessage LinkAccept] ∨ new = []) →
      move config ev p p' new
  (* the peer accepted the outstanding proposal: committed, and the side returns *)
  | move_accepted m r l :
      ev = ReadMessage m → Type_ m = LinkAccept → plink p = Some l → holds (outstanding l) l →
      r = result_of l (outstanding l) → pcommitted p' = pcommitted p ++ [r] →
      exited p' ≠ None → move config ev p p' [].

Section Moves.
Context {env : Type} (cb : Callbacks env) (config : Config) (static : static_config config).

Lemma send_logged m el :
  send (logged cb) m el =
  match send cb m el.1 with
  | (Some err, e) => (Some err, (e, el.2))
  | (None, e) => (None, (e, log_send m el.2))
  end.
Proof. done. Qed.
Lemma callCommit_logged r el :
  callCommit (logged cb) r el =
  match callCommit cb r el.1 with
  | (Some err, e) => (Some err, (e, el.2))
  | (None, e) => (None, (e, log_commit r el.2))
  end.
Proof. done. Qed.

(** A turn that commits nothing sends its reply and goes on, or returns. *)
Lemma Run_commit_none st out m el st' el' x :
  takeCommit (fsm st) = (fsm st, None) → operational (fsm st) = false →
  Run_commit (logged cb) config st out m el = (st', el', x) →
  fsm st' = fsm st ∧ (committed el'.2 = committed el.2 ∧ accepts el'.2 = accepts el.2) ∧
  (sent el'.2 = sent el.2 ++ option_list out ∧ x = None ∨
   sent el'.2 = sent el.2 ∧ x ≠ None).
Proof.
  intros T O H. unfold Run_commit in H. rewrite T in H. unfold Run_notify in H.
  cbn [fsm] in H. rewrite O in H. cbn [andb] in H. destruct out as [out|].
  - rewrite send_logged in H.
    destruct (send cb out el.1) as [[err|] e1]; simplify_eq/=; auto.
  - simplify_eq/=. rewrite app_nil_r. auto.
Qed.

(** A turn that commits returns. *)
Lemma Run_commit_some st out m el st' el' x s r :
  takeCommit (fsm st) = (s, Some r) → is_Some (link s) →
  Run_commit (logged cb) config st out m el = (st', el', x) →
  x ≠ None ∧ accepts el'.2 = accepts el.2 ∧
  (committed el'.2 = committed el.2 ∧ sent el'.2 = sent el.2 ∨
   committed el'.2 = committed el.2 ++ [r] ∧
     (sent el'.2 = sent el.2 ++ option_list out ∨ sent el'.2 = sent el.2)).
Proof.
  intros T [l Hl] H. unfold Run_commit in H. rewrite T, callCommit_logged in H.
  destruct (callCommit cb r el.1) as [[err|] e1]; [simplify_eq/=; auto|].
  unfold markEstablished in H. rewrite Hl in H.
  set (s1 := set_operational _) in H.
  assert (N : ∀ st1 el1, fsm st1 = s1 →
    Run_notify (logged cb) config st1 m el1 = (st1, el1, Some ExitNil)).
  { intros st1 el1 E. unfold Run_notify. rewrite E. simpl. by rewrite (proj1 static). }
  destruct out as [out|].
  - rewrite send_logged in H. cbn [fst snd] in H. destruct (send cb out e1) as [[err|] e2].
    + simplify_eq/=. split_and!; [done..|]. right. auto.
    + rewrite N in H by done. simplify_eq/=. auto 10.
  - rewrite N in H by done. simplify_eq/=. split_and!; [done..|]. right. rewrite app_nil_r. auto.
Qed.

Lemma takeCommit_none s :
  match link s with Some l => pendingCommit l = None | None => True end →
  takeCommit s = (s, None).
Proof. unfold takeCommit. destruct (link s); [intros ->|]; done. Qed.

(** A side that discards a frame, reports it, or returns at once. *)
Lemma move_still (p p' : party env) ev :
  live p → psent p' = psent p → pcommitted p' = pcommitted p →
  (fsm (run p') = fsm (run p) ∨ exited p' ≠ None) →
  ∃ new, psent p' = psent p ++ new ∧ move config ev p p' new.
Proof.
  intros L S C F. exists []. rewrite app_nil_r. split; [done|].
  apply move_other; [constructor|done|]. destruct F as [F|F]; [left|by right].
  unfold live, plink in *. by rewrite F.
Qed.

(** The handlers only call [Accept]: they neither send nor commit. *)
Definition same_io (l l' : log) : Prop := sent l' = sent l ∧ committed l' = committed l.

#[local] Instance same_io_trans : Transitive same_io.
Proof. unfold same_io. intros ???. naive_solver congruence. Qed.

Lemma callAccept_log uid p el ok el' :
  callAccept (logged cb) uid p el = (ok, el') → same_io el.2 el'.2.
Proof.
  cbn. destruct (callAccept cb uid p el.1) as [ok' e]. intros [= -> <-]. by destruct ok.
Qed.

Lemma nextProposalLoop_log fuel s el s' el' r :
  nextProposalLoop (logged cb) config fuel s el = (s', el', r) → same_io el.2 el'.2.
Proof.
  revert s el; induction fuel as [|fuel IH]; intros s el H; cbn [nextProposalLoop] in H.
  { by simplify_eq/=. }
  destruct (DeriveProposal _ _ _ _ _ _ _); [|by simplify_eq/=..].
  destruct (bool_decide _); [by eapply IH|].
  destruct (callAccept (logged cb) _ _ el) as [ok el1] eqn:A. apply callAccept_log in A.
  destruct ok; cbn [negb] in H; [by simplify_eq/=|]. apply IH in H. by etrans.
Qed.

Lemma handleProposal_log s m el s' el' r :
  handleProposal (logged cb) config s m el = (s', el', r) → same_io el.2 el'.2.
Proof.
  unfold handleProposal. intros H.
  destruct (_ || _); [by simplify_eq/=|]. destruct (bool_decide _); [by simplify_eq/=|].
  destruct (callAccept (logged cb) _ _ el) as [[] el1] eqn:A; apply callAccept_log in A.
  { by simplify_eq/=. }
  destruct (nextProposal (logged cb) config _ el1) as [[s1 el2] c] eqn:N.
  apply nextProposalLoop_log in N. pose proof (transitivity A N) as An.
  destruct c; [|by simplify_eq/=..]. destruct (bool_decide _); by simplify_eq/=.
Qed.

Lemma link_handle_log s m el s' el' r :
  link_handle (logged cb) config s m el = (s', el', r) → same_io el.2 el'.2.
Proof.
  unfold link_handle. intros H. destruct (waitingForRemoteProposal s).
  - destruct (negb _); [by simplify_eq/=|by eapply handleProposal_log].
  - destruct (waitingForResponse s); [|by simplify_eq/=].
    destruct (Type_ m); try (by simplify_eq/=); by eapply handleProposal_log.
Qed.

Lemma start_log s el s' el' r :
  start (logged cb) config s el = (s', el', r) → same_io el.2 el'.2.
Proof.
  unfold start. intros H. destruct (Initiator config); [|by simplify_eq/=].
  destruct (nextProposal (logged cb) config s el) as [[s1 el1] c] eqn:N.
  apply nextProposalLoop_log in N. destruct c; by simplify_eq/=.
Qed.

Lemma set_link_same (s : sessionFSM) l : link s = Some l → set_link (Some l) s = s.
Proof. destruct s; simpl. by intros ->. Qed.

(** The turn on a message the Link FSM refuses. *)
Lemma step_failed (p : party env) m l l' el1 d err st1 st' el' x :
  live p → plink p = Some l → (d = discardFrame → l' = l) → same_io (penv p).2 el1.2 →
  fsm st1 = set_link (Some l') (fsm (run p)) →
  match d with
  | discardFrame => (st1, callFrameError (logged cb) err el1, None)
  | closeConnection => (st1, el1, Some (ExitErr err))
  end = (st', el', x) →
  ∃ new, psent (mkParty st' el' x) = psent p ++ new ∧
    move config (ReadMessage m) p (mkParty st' el' x) new.
Proof.
  intros Lv Hl Dc [Ls Lc] F H. destruct d; simplify_eq/=.
  - apply move_still; auto.
  - rewrite (Dc eq_refl) in F. apply move_still; auto.
    left. simpl. rewrite F. by apply set_link_same.
Qed.

(** The turn on a message the Link FSM handles. *)
Lemma step_link (p : party env) m l l' el1 out d err st1 st' el' x :
  live p → plink p = Some l →
  link_handle (logged cb) config l m (penv p) = (l', el1, (out, d, err)) →
  fsm st1 = set_link (Some l') (fsm (run p)) →
  match err with
  | Some err =>
    match d with
    | discardFrame => (st1, callFrameError (logged cb) err el1, None)
    | closeConnection => (st1, el1, Some (ExitErr err))
    end
  | None => Run_commit (logged cb) config st1 out m el1
  end = (st', el', x) →
  ∃ new, psent (mkParty st' el' x) = psent p ++ new ∧
    move config (ReadMessage m) p (mkParty st' el' x) new.
Proof.
  intros Lv Hl LH F H. pose proof Lv as [O L]. rewrite Hl in L. destruct L as [A W].
  pose proof (link_handle_log _ _ _ _ _ _ LH) as Lg. pose proof Lg as [Ls Lc].
  apply (link_handle_step _ _ _ (accepted_in_call cb) (accepted_in_mono cb)) in LH as [_ LH]; [|done].
  destruct LH as
    [(out' & d' & err' & [= -> -> ->] & Dc)|[(T & PS)|(T & W1 & W2 & [= -> -> ->] & P & _)]].
  - by eapply step_failed.
  - (* a proposal *)
    unfold accepted_in in PS. inversion PS as [s1 o1 d1 e1 Dc|s1 Ac Pc At Sn|s1 q Ow Ac W1 W2 Oq Pc U1 U2 At K Sn];
      subst; simplify_eq/=.
    + by eapply step_failed.
    + assert (Tk : takeCommit (fsm st1) =
        (set_link (Some (set_pendingCommit None l')) (fsm st1),
         Some (result_of l (proposal_of m)))).
      { unfold takeCommit. rewrite F. simpl. by rewrite Pc. }
      apply (Run_commit_some _ _ _ _ _ _ _ _ _ Tk) in H as (X & Ea & R); [|by simpl; eauto].
      rewrite Ls, Lc in R.
      destruct R as [[R1 R2]|[R1 R2]]; [apply move_still; auto|].
      assert (∃ new, sent el'.2 = sent (penv p).2 ++ new ∧
        (new = [newMessage LinkAccept] ∨ new = [])) as (new & R3 & R4).
      { destruct R2 as [R2|R2]; [exists [newMessage LinkAccept]|exists []]; rewrite R2;
          rewrite ?app_nil_r; auto. }
      exists new. split; [done|]. apply (move_accept _ _ _ _ m (result_of l (proposal_of m))); try done.
      { by rewrite Hl. }
      split; [done|]. unfold paccepted. simpl. by rewrite Ea.
    + assert (Pn : pendingCommit l = None) by (destruct W as [W|[? W]]; apply W).
      assert (Tk : takeCommit (fsm st1) = (fsm st1, None)).
      { apply takeCommit_none. rewrite F. simpl. congruence. }
      apply (Run_commit_none _ _ _ _ _ _ _ Tk) in H as (R1 & [R2 Ea] & R3);
        [|by rewrite F]. rewrite Lc in R2. rewrite Ls in R3.
      assert (Pr : plink (mkParty st' el' x) = Some l').
      { unfold plink. simpl. by rewrite R1, F. }
      assert (Op' : operational (fsm st') = false) by by rewrite R1, F.
      assert (holds (outstanding l') l') as Hq by (split_and!; congruence).
      assert (Fr : own_proposal config (link_remoteUID l) (outstanding l') ∧
        link_remoteUID l = link_remoteUID l' ∧
        (link_remoteUID l, outstanding l') ∈ paccepted (mkParty st' el' x) ∧
        proposalKey (outstanding l') ∈ seen l' ∧
        match plink p with
        | Some l0 => (proposalKey (outstanding l') ∉ seen l0) ∧ seen l0 ⊆ seen l' ∧
            attempt l0 < attempt l'
        | None => 0 < attempt l'
        end).
      { rewrite Hl, Sn. split_and!; try done; [|set_solver..|lia].
        unfold paccepted. simpl. by rewrite Ea. }
      destruct R3 as [[R3 R4]|[R3 R4]].
      * exists [proposalMessage (outstanding l')]. split; [done|].
        eapply move_propose; try done; [right; split; [eauto|by rewrite Hl]|lia|]. by left.
      * exists []. rewrite app_nil_r. split; [done|].
        eapply move_propose; try done; [right; split; [eauto|by rewrite Hl]|lia|]. by right.
  - (* the outstanding proposal is accepted *)
    assert (Tk : takeCommit (fsm st1) =
        (set_link (Some (set_pendingCommit None l')) (fsm st1),
         Some (result_of l (outstanding l)))).
    { unfold takeCommit. rewrite F. simpl. by rewrite P. }
    apply (Run_commit_some _ _ _ _ _ _ _ _ _ Tk) in H as (X & Ea & R); [|by simpl; eauto].
    rewrite Ls, Lc in R. cbn [option_list] in R. rewrite app_nil_r in R.
    destruct R as [[R1 R2]|[R1 R2]]; [apply move_still; auto|].
    exists []. rewrite app_nil_r. split; [by destruct R2|].
    apply (move_accepted _ _ _ _ m (result_of l (outstanding l)) l); try done.
    split_and!; try done. destruct W as [W|[? W]]; apply W.
Qed.

(** A turn before the Link that replies [out] and leaves no Link. *)
Lemma step_plain (p : party env) s el1 out m st1 st' el' x :
  same_io (penv p).2 el1.2 → fsm st1 = s → link s = plink p → operational s = false →
  live p → match plink p with Some l => pendingCommit l = None | None => True end →
  Forall plain_msg (option_list out) →
  Run_commit (logged cb) config st1 out m el1 = (st', el', x) →
  ∃ new, psent (mkParty st' el' x) = psent p ++ new ∧
    move config (ReadMessage m) p (mkParty st' el' x) new.
Proof.
  intros [Ls Lc] F Hl O Lv Pn Fa H. subst s.
  apply Run_commit_none in H as (R1 & [R2 _] & R3);
    [|apply takeCommit_none; by rewrite Hl|done]. rewrite Lc in R2. rewrite Ls in R3.
  assert (Lv' : plink (mkParty st' el' x) = plink p ∧ live (mkParty st' el' x)).
  { assert (P : plink (mkParty st' el' x) = plink p) by (unfold plink; simpl; by rewrite R1).
    split; [done|]. split; [simpl; by rewrite R1|]. rewrite P. apply Lv. }
  destruct R3 as [[R3 ->]|[R3 Xn]].
  - exists (option_list out). split; [done|]. apply move_other; auto.
  - exists []. rewrite app_nil_r. split; [done|]. apply move_other; auto.
Qed.

Lemma step_open (p : party env) m st1 s r st' el' x :
  live p → handleOpen config (fsm (run p)) m = (s, r) → fsm st1 = s →
  match r.2 with
  | Some err =>
    match r.1.2 with
    | discardFrame => (st1, callFrameError (logged cb) err (penv p), None)
    | closeConnection => (st1, penv p, Some (ExitErr err))
    end
  | None => Run_commit (logged cb) config st1 r.1.1 m (penv p)
  end = (st', el', x) →
  ∃ new, psent (mkParty st' el' x) = psent p ++ new ∧
    move config (ReadMessage m) p (mkParty st' el' x) new.
Proof.
  intros Lv Ho F H. pose proof Lv as [O L]. unfold handleOpen in Ho.
  assert (Close : ∀ text, (s, r) = (fsm (run p), failed closeConnection text) →
    ∃ new, psent (mkParty st' el' x) = psent p ++ new ∧
      move config (ReadMessage m) p (mkParty st' el' x) new).
  { intros text [= -> ->]. simplify_eq/=. apply move_still; auto. }
  destruct (Type_ m), (Msg_UID m) as [uid|]; try (by eapply Close).
  destruct (bool_decide _); [by eapply Close|]. injection Ho as <- <-. cbn [fst snd replied] in H.
  eapply (step_plain p _ (penv p) (Some (set_LoopbackV6 (LocalLoopbackV6 config)
    (newMessage NodeState))) m st1 st' el' x); [done|exact F|done|done|done| | |exact H];
    [|by repeat constructor].
  destruct (plink p) as [l|]; [|done]. destruct L as [_ [W|[? W]]]; apply W.
Qed.

Lemma step_state (p : party env) m st1 s el1 r st' el' x :
  live p → plink p = None →
  handleNodeState (logged cb) config (fsm (run p)) m (penv p) = (s, el1, r) → fsm st1 = s →
  exited p = None →
  match r.2 with
  | Some err =>
    match r.1.2 with
    | discardFrame => (st1, callFrameError (logged cb) err el1, None)
    | closeConnection => (st1, el1, Some (ExitErr err))
    end
  | None => Run_commit (logged cb) config st1 r.1.1 m el1
  end = (st', el', x) →
  ∃ new, psent (mkParty st' el' x) = psent p ++ new ∧
    move config (ReadMessage m) p (mkParty st' el' x) new.
Proof.
  intros Lv Hl Hs F Ex H. pose proof Lv as [O L]. unfold handleNodeState, failed in Hs.
  destruct (negb _); [simplify_eq/=; apply move_still; auto|].
  destruct (negb _); [simplify_eq/=; apply move_still; auto|].
  destruct static as [Sc Sf]. rewrite Sc, Sf in Hs.
  replace (if Initiator config then None else None : option Message) with (@None Message) in Hs
    by (by destruct (Initiator config)).
  destruct (start (logged cb) config _ (penv p)) as [[l el2] r'] eqn:St.
  pose proof (start_log _ _ _ _ _ St) as [Ls Lc]. unfold start in St. simplify_eq/=.
  destruct (Initiator config) eqn:In.
  - destruct (nextProposal (logged cb) config _ (penv p)) as [[l1 el3] c] eqn:N.
    apply (nextProposal_ok _ _ _ (accepted_in_call cb) (accepted_in_mono cb)) in N
      as (C & At & _ & R); [|simpl; unfold maxCounterproposals; lia].
    unfold link_core in C. simplify_eq/=.
    destruct c as [q|err|]; [|simplify_eq/=; apply move_still; auto..].
    simplify_eq/=. destruct R as (Ow & Aq & _ & Sn & Lt).
    match goal with F : _ = fsm st1 |- _ => rename F into F1 end.
    match goal with P : pendingCommit l1 = None |- _ => rename P into Pn end.
    match goal with P : waitingForRemoteProposal l1 = false |- _ => rename P into Wn end.
    apply Run_commit_none in H as (R1 & [R2 Ea] & R3); rewrite <-?F1;
      [|by apply takeCommit_none|done].
    rewrite Lc in R2. rewrite Ls in R3. rewrite <-F1 in R1.
    assert (Fr : own_proposal config (remoteUID (fsm (run p))) q ∧
      remoteUID (fsm (run p)) = link_remoteUID l1 ∧
      (remoteUID (fsm (run p)), q) ∈ paccepted (mkParty st' el' x) ∧
      proposalKey q ∈ seen l1 ∧
      match plink p with
      | Some l0 => (proposalKey q ∉ seen l0) ∧ seen l0 ⊆ seen l1 ∧ attempt l0 < attempt l1
      | None => 0 < attempt l1
      end).
    { rewrite Hl. split_and!; try done; try (rewrite Sn; set_solver).
      unfold paccepted. simpl. by rewrite Ea. }
    destruct R3 as [[R3 ->]|[R3 Xn]].
    + exists [proposalMessage q]. split; [done|].
      eapply (move_propose _ _ _ _ (set_waiting (waitingForRemoteProposal l1) true
        (set_outstanding q l1)) q (remoteUID (fsm (run p)))); try exact Fr; try done; unfold plink; simpl; rewrite ?R1; auto.
    + exists []. rewrite app_nil_r. split; [done|].
      eapply (move_propose _ _ _ _ (set_waiting (waitingForRemoteProposal l1) true
        (set_outstanding q l1)) q (remoteUID (fsm (run p)))); try exact Fr; try done; unfold plink; simpl; rewrite ?R1; auto.
  - simplify_eq/=. match goal with F : _ = fsm st1 |- _ => rename F into F1 end.
    apply Run_commit_none in H as (R1 & [R2 _] & R3); rewrite <-?F1;
      [|by apply takeCommit_none|done].
    rewrite <-F1 in R1. cbn [option_list] in R3.
    rewrite app_nil_r in R3.
    destruct R3 as [[R3 ->]|[R3 Xn]].
    + exists []. rewrite app_nil_r. split; [done|].
      eapply move_await; try done; unfold plink; simpl; rewrite ?R1; auto; done.
    + apply move_still; auto.
Qed.

(** Every event is one of the moves. *)
Lemma party_move (p : party env) ev :
  live p → exited p = None → (plink p ≠ None → stateReceived (fsm (run p)) = true) →
  (∀ m, ev = ReadMessage m → Type_ m ≠ DurablePropose) →
  ∃ new, psent (party_step cb config p ev) = psent p ++ new ∧
    move config ev p (party_step cb config p ev) new.
Proof.
  intros Lv Ex Sr Ne. unfold party_step. rewrite Ex.
  destruct (Run_step (logged cb) config (run p) ev (penv p)) as [[st' el'] x] eqn:H.
  pose proof Lv as [O L].
  destruct ev as [| |err|err|m]; cbn [Run_step] in H.
  - simplify_eq/=. apply move_still; auto.
  - destruct (deadlineArmed _); simplify_eq/=; apply move_still; auto.
  - simplify_eq/=. apply move_still; auto.
  - destruct (negb _); simplify_eq/=; apply move_still; auto.
  - rewrite O in H. unfold handle in H.
    destruct (opened (fsm (run p))) eqn:Op; cbn [negb] in H.
    2: { destruct (handleOpen config (fsm (run p)) m) as [s [[out d] err]] eqn:Ho.
         eapply (step_open p m _ s (out, d, err)); [done|exact Ho| |exact H]; done. }
    destruct (stateReceived (fsm (run p))) eqn:Sv; cbn [negb] in H.
    2: { destruct (plink p) eqn:Pl; [by specialize (Sr ltac:(done))|].
         destruct (handleNodeState (logged cb) config (fsm (run p)) m (penv p))
           as [[s el1] [[out d] err]] eqn:Hs.
         eapply (step_state p m _ s el1 (out, d, err)); [done|done|exact Hs| |done|exact H]; done. }
    unfold plink in *. destruct (link (fsm (run p))) as [l|] eqn:Hl.
    2: { simplify_eq/=. apply move_still; auto. }
    assert (is_type (Type_ m) DurablePropose = false) as D
      by (unfold is_type; apply bool_decide_eq_false; auto).
    rewrite D, andb_false_r in H.
    destruct (link_handle (logged cb) config l m (penv p)) as [[l' el1] [[out d] err]] eqn:LH.
    eapply (step_link p m l l' el1 out d err); [done|done|exact LH| |exact H]; done.
Qed.
End Moves.

(** * The log of accepted proposals *)

Section Accepts.
Context {env : Type} (cb : Callbacks env) (config : Config).

Lemma nextProposalLoop_accepts fuel s el s' el' r :
  nextProposalLoop (logged cb) config fuel s el = (s', el', r) →
  accepts el.2 ⊆ accepts el'.2.
Proof.
  intros H. apply (nextProposalLoop_ok _ _ _ (accepted_in_call cb) (accepted_in_mono cb))
    in H as (_ & _ & M & _).
  intros [uid p]. apply M.
Qed.

Lemma callAccept_accepts uid p el ok el' :
  callAccept (logged cb) uid p el = (ok, el') → accepts el.2 ⊆ accepts el'.2.
Proof. intros A [u q]. by apply (accepted_in_mono cb _ _ _ _ _ u q A). Qed.

Lemma handleProposal_accepts s m el s' el' r :
  handleProposal (logged cb) config s m el = (s', el', r) → accepts el.2 ⊆ accepts el'.2.
Proof.
  unfold handleProposal. intros H.
  destruct (_ || _); [by simplify_eq/=|]. destruct (bool_decide _); [by simplify_eq/=|].
  destruct (callAccept (logged cb) _ _ el) as [[] el1] eqn:A; apply callAccept_accepts in A.
  { by simplify_eq/=. }
  destruct (nextProposal (logged cb) config _ el1) as [[s1 el2] c] eqn:N.
  apply nextProposalLoop_accepts in N. pose proof (transitivity A N) as An.
  destruct c; [|by simplify_eq/=..]. destruct (bool_decide _); by simplify_eq/=.
Qed.

Lemma link_handle_accepts s m el s' el' r :
  link_handle (logged cb) config s m el = (s', el', r) → accepts el.2 ⊆ accepts el'.2.
Proof.
  unfold link_handle. intros H. destruct (waitingForRemoteProposal s).
  - destruct (negb _); [by simplify_eq/=|by eapply handleProposal_accepts].
  - destruct (waitingForResponse s); [|by simplify_eq/=].
    destruct (Type_ m); try (by simplify_eq/=); by eapply handleProposal_accepts.
Qed.

Lemma start_accepts s el s' el' r :
  start (logged cb) config s el = (s', el', r) → accepts el.2 ⊆ accepts el'.2.
Proof.
  unfold start. intros H. destruct (Initiator config); [|by simplify_eq/=].
  destruct (nextProposal (logged cb) config s el) as [[s1 el1] c] eqn:N.
  apply nextProposalLoop_accepts in N. destruct c; by simplify_eq/=.
Qed.

Lemma handleNodeState_accepts s m el s' el' r :
  handleNodeState (logged cb) config s m el = (s', el', r) → accepts el.2 ⊆ accepts el'.2.
Proof.
  unfold handleNodeState. intros H. destruct (negb _); [by simplify_eq/=|].
  destruct (negb _); [by simplify_eq/=|].
  destruct (Context_ config); [|destruct (_ && _); by simplify_eq/=].
  destruct (if Initiator config then FirstMessage config else None);
    [destruct (negb _); by simplify_eq/=|].
  destruct (start (logged cb) config _ el) as [[l el1] r1] eqn:St.
  apply start_accepts in St. by simplify_eq/=.
Qed.

Lemma handle_accepts s m el s' el' r :
  handle (logged cb) config s m el = Some (s', el', r) → accepts el.2 ⊆ accepts el'.2.
Proof.
  unfold handle. intros H. destruct (negb (opened s)).
  { destruct (handleOpen config s m). by simplify_eq/=. }
  destruct (negb (stateReceived s)).
  { apply (inj Some) in H. by eapply handleNodeState_accepts. }
  destruct (link s) as [l|]; [|done]. destruct (_ && _ && _); [by simplify_eq/=|].
  destruct (link_handle (logged cb) config l m el) as [[l' el1] r1] eqn:L.
  apply link_handle_accepts in L. by simplify_eq/=.
Qed.

(** The other callbacks accept nothing. *)
Lemma send_accepts m el r el' : send (logged cb) m el = (r, el') → accepts el'.2 = accepts el.2.
Proof. cbn. destruct (send cb m el.1) as [[] e]; by intros [= <- <-]. Qed.
Lemma callCommit_accepts r el err el' :
  callCommit (logged cb) r el = (err, el') → accepts el'.2 = accepts el.2.
Proof. cbn. destruct (callCommit cb r el.1) as [[] e]; by intros [= <- <-]. Qed.
Lemma SetDeadline_accepts el err el' :
  SetDeadline (logged cb) el = (err, el') → accepts el'.2 = accepts el.2.
Proof. cbn. destruct (SetDeadline cb el.1) as [[] e]; by intros [= <- <-]. Qed.
Lemma callOperational_accepts s el err el' :
  callOperational (logged cb) s el = (err, el') → accepts el'.2 = accepts el.2.
Proof. cbn. destruct (callOperational cb s el.1) as [[] e]; by intros [= <- <-]. Qed.
Lemma callOperationalMessage_accepts s m el err el' :
  callOperationalMessage (logged cb) s m el = (err, el') → accepts el'.2 = accepts el.2.
Proof. cbn. destruct (callOperationalMessage cb s m el.1) as [[] e]; by intros [= <- <-]. Qed.

Lemma Run_notify_accepts st m el st' el' x :
  Run_notify (logged cb) config st m el = (st', el', x) → accepts el'.2 = accepts el.2.
Proof.
  unfold Run_notify. intros H. destruct (_ && _ && _); [by simplify_eq/=|].
  destruct (_ && _); [|by simplify_eq/=].
  destruct (match Context_ config with RoutedSession => _ | LinkBoundSession => _ end)
    as [err el1] eqn:D.
  assert (accepts el1.2 = accepts el.2) as <-.
  { destruct (Context_ config); [by simplify_eq/=|by eapply SetDeadline_accepts]. }
  destruct err; [by simplify_eq/=|].
  destruct (callOperational _ _ _) as [[] el2] eqn:O; apply callOperational_accepts in O as <-;
    [by simplify_eq/=|].
  destruct (is_type _ _); [|by simplify_eq/=].
  destruct (callOperationalMessage _ _ _ _) as [[] el3] eqn:M;
    apply callOperationalMessage_accepts in M as <-; by simplify_eq/=.
Qed.

Lemma Run_commit_accepts st out m el st' el' x :
  Run_commit (logged cb) config st out m el = (st', el', x) → accepts el'.2 = accepts el.2.
Proof.
  unfold Run_commit. intros H. destruct (takeCommit (fsm st)) as [s r].
  destruct (match r with Some r => _ | None => _ end) as [[s1 el1] stop] eqn:C.
  assert (accepts el1.2 = accepts el.2) as <-.
  { destruct r as [r|]; [|by simplify_eq/=].
    destruct (callCommit (logged cb) r el) as [[] el2] eqn:E; apply callCommit_accepts in E;
      [|destruct (markEstablished s)]; by simplify_eq/=. }
  destruct stop; [by simplify_eq/=|].
  destruct (match out with Some out => _ | None => _ end) as [err el2] eqn:S.
  assert (accepts el2.2 = accepts el1.2) as <-.
  { destruct out; [by eapply send_accepts|by simplify_eq/=]. }
  destruct err; [by simplify_eq/=|by eapply Run_notify_accepts].
Qed.

Lemma Run_step_accepts st ev el st' el' x :
  Run_step (logged cb) config st ev el = (st', el', x) → accepts el.2 ⊆ accepts el'.2.
Proof.
  intros H. destruct ev as [| |err|err|m]; cbn [Run_step] in H.
  - by simplify_eq/=.
  - destruct (deadlineArmed st); by simplify_eq/=.
  - by simplify_eq/=.
  - destruct (negb _); by simplify_eq/=.
  - destruct (operational (fsm st)).
    + destruct (negb _); [by simplify_eq/=|].
      destruct (callOperationalMessage _ _ _ _) as [[err|] e1] eqn:E;
        apply callOperationalMessage_accepts in E; simplify_eq/=; by rewrite E.
    + destruct (handle (logged cb) config (fsm st) m el) as [[[s' el1] [[out d] err]]|] eqn:Hd;
        [|by simplify_eq/=].
      apply handle_accepts in Hd. destruct err as [err|].
      * destruct d; by simplify_eq/=.
      * apply Run_commit_accepts in H. by rewrite H.
Qed.
End Accepts.

(** A Link exists only after NODE_STATE. *)
Definition linked (s : sessionFSM) : Prop := link s ≠ None → stateReceived s = true.

Section Linked.
Context {env : Type} (cb : Callbacks env) (config : Config).

Lemma handle_linked s m e s' e' r :
  handle cb config s m e = Some (s', e', r) → linked s → linked s'.
Proof.
  unfold handle, linked. intros H L. destruct (opened s); cbn [negb] in H.
  - destruct (stateReceived s) eqn:Sr; cbn [negb] in H.
    + destruct (link s) as [l|]; [|done]. destruct (_ && _ && _); [by simplify_eq/=|].
      destruct (link_handle _ _ _ _ _) as [[? ?] ?]. by simplify_eq/=.
    + injection H as H. unfold handleNodeState, failed, replied in H.
      repeat match type of H with
      | (if ?b then _ else _) = _ => destruct b
      | (match ?b with _ => _ end) = _ => destruct b
      end; simplify_eq/=; auto; intros Hl; exfalso; specialize (L Hl); congruence.
  - destruct (handleOpen config s m) as [s1 r1] eqn:Ho. simplify_eq/=.
    unfold handleOpen, failed in Ho.
    destruct (Type_ m), (Msg_UID m); try (by simplify_eq/=).
    destruct (bool_decide _); by simplify_eq/=.
Qed.

Lemma takeCommit_linked s s' r : takeCommit s = (s', r) → linked s → linked s'.
Proof.
  unfold takeCommit, linked. destruct (link s) as [l|] eqn:E; [|by intros [= <- <-]; rewrite E].
  destruct (pendingCommit l); intros [= <- <-]; simpl; rewrite ?E; auto.
Qed.

Lemma Run_commit_linked st out m e st' e' x :
  Run_commit cb config st out m e = (st', e', x) → linked (fsm st) → linked (fsm st').
Proof.
  unfold Run_commit. intros H L.
  destruct (takeCommit (fsm st)) as [s r] eqn:T. apply takeCommit_linked in T; [|done].
  assert (Lm : ∀ s1, markEstablished s = Some s1 → linked s1).
  { unfold linked, markEstablished in *. intros s1. destruct (link s); [|done].
    intros [= <-]. simpl. auto. }
  assert (Nt : ∀ st1 e1, Run_notify cb config st1 m e1 = (st', e', x) → fsm st' = fsm st1).
  { unfold Run_notify. intros st1 e1 Hn.
    repeat match type of Hn with
    | (if ?b then _ else _) = _ => destruct b
    | (match ?b with _ => _ end) = _ => destruct b
    end; by simplify_eq/=. }
  destruct r as [r|]; [destruct (callCommit cb r e) as [[err|] e1];
    [|destruct (markEstablished s) as [s1|] eqn:M; [specialize (Lm s1 eq_refl)|]]|];
    simplify_eq/=; try done.
  all: destruct (match out with Some out0 => send cb out0 _ | None => _ end) as [[err|] e2];
    [by simplify_eq/=|apply Nt in H; by rewrite H].
Qed.

Lemma Run_step_linked st ev e st' e' x :
  Run_step cb config st ev e = (st', e', x) → linked (fsm st) → linked (fsm st').
Proof.
  intros H L. destruct ev as [| |err|err|m]; cbn [Run_step] in H.
  - by simplify_eq/=.
  - destruct (deadlineArmed st); by simplify_eq/=.
  - by simplify_eq/=.
  - destruct (negb _); by simplify_eq/=.
  - destruct (operational (fsm st)).
    + destruct (negb _); [by simplify_eq/=|].
      destruct (callOperationalMessage _ _ _ _) as [[err|] e1]; by simplify_eq/=.
    + destruct (handle cb config (fsm st) m e) as [[[s' e1] [[out d] err]]|] eqn:Hd;
        [|by simplify_eq/=].
      apply handle_linked in Hd; [|done]. destruct err as [err|].
      * destruct d; by simplify_eq/=.
      * by apply Run_commit_linked in H.
Qed.
End Linked.

(** * Messages on the wire *)

Definition wf_proposal (p : Proposal) : Prop :=
  wf_prefix (V4 p) ∧ wf_prefix (V6 p) ∧
  carried_prefix (V4 p) = V4 p ∧ carried_prefix (V6 p) = V6 p.
Definition wf_pools (config : Config) : Prop :=
  wf_prefix (LinkPoolV4 config) ∧ wf_prefix (LinkPoolV6 config).

Lemma carried_Masked p : carried_prefix (Masked p) = Masked p.
Proof.
  unfold carried_prefix. destruct (Prefix_IsValid (Masked p)) eqn:V; [done|].
  revert V. unfold Masked. destruct (_ <? 0) eqn:B; [done|].
  unfold Prefix_IsValid, PrefixFrom.
  destruct (Prefix_Addr p); [done|..]; (destruct (_ <? Bits p) eqn:C; [done|]);
    cbn [Bits BitLen Addr_IsValid]; bool_to_prop;
    rewrite (proj2 (Z.leb_le 0 (Bits p))), (proj2 (Z.leb_le (Bits p) _)) by lia;
    cbn [andb]; rewrite (proj2 (Z.leb_le 0 (Bits p))) by lia; done.
Qed.

Lemma wf_fillBits pool target e :
  wf_prefix pool → Prefix_IsValid pool = true → wf_addr (fillBits pool target e).
Proof.
  intros (W & _ & B) V. unfold Prefix_IsValid in V. bool_to_prop.
  destruct B as [B|[B _]]; [lia|]. unfold fillBits.
  destruct (Prefix_Addr pool) as [|v|v z]; [done|..]; cbn [Is4].
  - apply wf_AddrFrom4. rewrite length_fillLoop. apply length_be_put.
  - apply wf_AddrFrom16. rewrite length_fillLoop. apply length_be_put.
Qed.

Lemma own_proposal_wf config uid q :
  wf_pools config → own_proposal config uid q → wf_proposal q.
Proof.
  intros [P4 P6] [n D]. unfold DeriveProposal in D. destruct (order_pair _ _) as [lo hi].
  assert (wf0 : wf_prefix Prefix_zero) by (split; [done|split; [done|by left]]).
  assert (Sub : ∀ pool bits e, wf_prefix pool → Prefix_IsValid pool = true →
    wf_prefix (deriveSubnet pool bits e)).
  { intros. by apply wf_Masked, wf_PrefixFrom, wf_fillBits. }
  assert (Ov : ∀ overrides p p', wf_proposal p → applyOverrides overrides p = Ok p' →
    wf_proposal p').
  { clear. induction overrides as [|raw l IH]; intros p p' W H; cbn [applyOverrides] in H.
    - by injection H as <-.
    - apply bind_ok in H as (x & Px & H). apply ParsePrefix_ok in Px as (Wx & _).
      apply wf_Masked in Wx. destruct W as (W4 & W6 & C4 & C6).
      destruct (Is4 (Prefix_Addr x)); apply IH in H; try done;
        split_and!; try done; apply carried_Masked. }
  apply Ov in D; [done|]. unfold wf_proposal; cbn [V4 V6].
  destruct (Prefix_IsValid (LinkPoolV4 config)) eqn:V4',
    (Prefix_IsValid (LinkPoolV6 config)) eqn:V6';
    split_and!; auto; apply carried_Masked || done.
Qed.

Lemma frame_of_inj_type t t' b b' :
  HeaderLength + len b <= MaxFrameLength → HeaderLength + len b' <= MaxFrameLength →
  frame_of t b = frame_of t' b' → type_byte t = type_byte t' ∧ b = b'.
Proof.
  intros L L' E. pose proof (len_nonneg b). pose proof (len_nonneg b').
  unfold HeaderLength, MaxFrameLength in *.
  destruct (frame_of_fields t b) as (_ & _ & _ & F & _ & D); [unfold HeaderLength; lia|].
  destruct (frame_of_fields t' b') as (_ & _ & _ & F' & _ & D'); [unfold HeaderLength; lia|].
  rewrite E in F, D. split; [apply b2z_inj|]; congruence.
Qed.

(** The other side reads a message of the type that was sent. *)
Lemma wire_type m m' :
  byte_type (type_byte (Type_ m)) = Type_ m → wire m = Some (ReadMessage m') →
  Type_ m' = Type_ m.
Proof.
  intros C H. unfold wire in H. destruct (Encode m) as [f| |] eqn:E; try done.
  destruct (Decode f) as [x| |] eqn:D; simplify_eq.
  apply Encode_ok in E as (b & _ & L & ->).
  pose proof (Decode_decoded _ _ D) as Dd.
  apply Decode_inv in D as (t & fs & Ef & Ct & W & L' & U & Dt).
  apply frame_of_inj_type in Ef as [Et ->]; [|done..].
  assert (t = Type_ m) as -> by congruence.
  destruct (IsDurable (Type_ m)) eqn:ID.
  - rewrite scan_collect in Dt by done. destruct (Type_ m); try discriminate ID.
    + by apply decoded_propose in Dt as [].
    + by apply decoded_saved in Dt as [].
    + by apply decoded_durable_decline in Dt as [].
    + by apply decoded_check in Dt as [].
    + by apply decoded_status in Dt as [].
    + exfalso. by apply (unknownType_assigned _ U Ct b).
  - by apply (decodeSelected_decoded _ _ _ Ct U ID Dt).
Qed.

Lemma parsePrefix_v4_inv p v q :
  wf_prefix p → Bits p = 30 → p = Masked p → As4 (Prefix_Addr p) = Ok v →
  parsePrefix (Some v) true = Ok q → q = p.
Proof.
  intros W B M A H. destruct (As4_prefix p v W B M A) as (x & E & -> & R).
  unfold parsePrefix in H. apply bind_ok in H as (a & Pa & H).
  apply parseAddress_ok in Pa as [[? _]|(raw & [= <-] & V & Wa & L & ->)]; [done|].
  unfold AddrFrom4 in H. rewrite be_get_put_small in H by done. cbn [Addr_IsValid negb] in H.
  inv_ok. subst q. by rewrite E.
Qed.

Lemma parsePrefix_v6_inv p v q :
  wf_prefix p → Bits p = 126 → As16 (Prefix_Addr p) = Ok v →
  parsePrefix (Some v) false = Ok q → q = p.
Proof.
  intros W B A H. destruct (As16_prefix p v W B A) as (x & E & -> & R).
  unfold parsePrefix in H. apply bind_ok in H as (a & Pa & H).
  apply parseAddress_ok in Pa as [[? _]|(raw & [= <-] & V & Wa & L & ->)]; [done|].
  unfold AddrFrom16 in H. rewrite be_get_put_small in H by done. cbn [Addr_IsValid negb] in H.
  inv_ok. subst q. by rewrite E.
Qed.

(** A proposal the other side reads at all is the one that was sent. *)
Lemma wire_propose p m' :
  wf_proposal p → wire (proposalMessage p) = Some (ReadMessage m') → proposal_of m' = p.
Proof.
  intros (W4 & W6 & C4 & C6) H. unfold wire in H.
  destruct (Encode (proposalMessage p)) as [f| |] eqn:E; try done.
  destruct (Decode f) as [x| |] eqn:D; simplify_eq.
  apply Encode_ok in E as (b & E & L & ->).
  assert (Fs : ∃ fs, b = fields_bytes fs ∧ typed_fields fs ∧ ∀ x,
    decodeSelected LinkPropose (select_fields LinkPropose fs) = Ok x → proposal_of x = p).
  { unfold encodeBody in E. cbn [Type_ proposalMessage set_LinkPrefixes newMessage
      LinkPrefixV4 LinkPrefixV6] in E. unfold carried_prefix in C4, C6.
    destruct (Prefix_IsValid (V4 p)) eqn:I4, (Prefix_IsValid (V6 p)) eqn:I6;
      inv_ok; bool_to_prop; subst; body_fields;
      first [eexists; split; [reflexivity|] | exists []; split; [reflexivity|]];
      (split; [eauto with velvet|]); read_fields; rewrite ?parsePrefix_None;
      intros y Hy; cbn [frame_err map_err] in Hy; rewrite ?bind_Ok in Hy; inv_ok; parsed;
      unfold proposal_of; cbn [LinkPrefixV4 LinkPrefixV6 set_LinkPrefixes];
      repeat match goal with
      | A : As4 _ = Ok ?v, P : parsePrefix (Some ?v) true = Ok _ |- _ =>
          apply (parsePrefix_v4_inv _ _ _ W4) in P; [|done..]; subst; clear A
      | A : As16 _ = Ok ?v, P : parsePrefix (Some ?v) false = Ok _ |- _ =>
          apply (parsePrefix_v6_inv _ _ _ W6) in P; [|done..]; subst; clear A
      end; destruct p as [pa pb]; cbn [V4 V6] in *; congruence. }
  destruct Fs as (fs & -> & Ty & Hx). apply Hx.
  rewrite Decode_frame in D by (done || by apply fields_fit). exact D.
Qed.

(** * The two sides together *)

Definition links (q : list Message) : list Message := filter (λ m, is_link m = true) q.

(** A side as long as it runs. *)
Definition good {env} (p : party env) : Prop :=
  exited p ≠ None ∨ (live p ∧ linked (fsm (run p))).
Definition quiet {env} (p : party env) : Prop := pcommitted p = [].
Definition holding {env} (q : Proposal) (p : party env) : Prop :=
  exited p ≠ None ∨ ∃ l, plink p = Some l ∧ holds q l.
(** Ready for a proposal of the peer. *)
Definition receptive {env} (config : Config) (p : party env) : Prop :=
  exited p ≠ None ∨ (plink p = None ∧ Initiator config = false) ∨
  ∃ l, plink p = Some l ∧ (awaits l ∨ ∃ q, holds q l).

(** Every message in flight is plain, a well-formed proposal or an acceptance. *)
Definition chan_ok (q : list Message) : Prop :=
  Forall (λ m, plain_msg m ∨ (∃ p, wf_proposal p ∧ m = proposalMessage p) ∨
               m = newMessage LinkAccept) q.

(** [X] made a proposal that [Y] has not answered: it is in flight or was dropped. *)
Definition proposing {eX eY} (configY : Config) (X : party eX) (Y : party eY)
    (XY YX : list Message) : Prop :=
  ∃ p, wf_proposal p ∧ holding p X ∧ quiet X ∧ quiet Y ∧ receptive configY Y ∧
    (links XY = [] ∨ links XY = [proposalMessage p]) ∧ links YX = [].
(** [Y] committed the proposal [X] is waiting for. *)
Definition answered {eX eY} (X : party eX) (Y : party eY) (YX : list Message) : Prop :=
  ∃ r, pcommitted Y = [r] ∧ exited Y ≠ None ∧ quiet X ∧
    holding (Result_Proposal r) X ∧ (links YX = [] ∨ links YX = [newMessage LinkAccept]).
Definition agreed {eX eY} (X : party eX) (Y : party eY) : Prop :=
  ∃ rX rY, pcommitted X = [rX] ∧ pcommitted Y = [rY] ∧
    Result_Proposal rX = Result_Proposal rY ∧ exited X ≠ None ∧ exited Y ≠ None.
(** Before the initiator's first proposal. *)
Definition before {eX eY} (configY : Config) (X : party eX) (Y : party eY)
    (XY YX : list Message) : Prop :=
  (exited X ≠ None ∨ plink X = None) ∧ quiet X ∧ quiet Y ∧
  (exited Y ≠ None ∨ plink Y = None ∨ ∃ l, plink Y = Some l ∧ awaits l) ∧
  links XY = [] ∧ links YX = [].

(** How the stream towards the moving side changes with the event. *)
Inductive consumed (ev : event) : list Message → list Message → Prop :=
  | consume_local q : local_event ev → consumed ev q q
  | consume_head m q : wire m = Some ev → consumed ev (m :: q) q.

Lemma links_app q r : links (q ++ r) = links q ++ links r.
Proof. apply filter_app. Qed.
Lemma links_plain new : Forall plain_msg new → links new = [].
Proof.
  induction 1 as [|m q [P _] _ IH]; [done|]. unfold links in *.
  rewrite filter_cons_False; [done|]. by rewrite P.
Qed.
Lemma links_propose p : links [proposalMessage p] = [proposalMessage p].
Proof. done. Qed.
Lemma links_accept : links [newMessage LinkAccept] = [newMessage LinkAccept].
Proof. done. Qed.

(** An event the peer caused carries the type that was sent. *)
Lemma event_types ev q q' m' :
  chan_ok q → consumed ev q q' → ev = ReadMessage m' →
  Type_ m' ≠ DurablePropose ∧
  (links q = [] → Type_ m' ≠ LinkPropose ∧ Type_ m' ≠ LinkAccept) ∧
  (∀ p, wf_proposal p → links q = [proposalMessage p] →
     links q' = [] ∧ Type_ m' = LinkPropose ∧ proposal_of m' = p ∨
     Type_ m' ≠ LinkPropose ∧ Type_ m' ≠ LinkAccept) ∧
  (links q = [newMessage LinkAccept] → Type_ m' ≠ LinkPropose).
Proof.
  intros C H ->. inversion H as [q0 Lo|m q0 Wi]; subst; [done|].
  inversion C as [|? ? Hm C']; subst.
  destruct Hm as [(P1 & P2 & P3)|[(p & Wp & ->)| ->]].
  - rewrite (wire_type m m' P3 Wi). split; [done|].
    assert (Type_ m ≠ LinkPropose ∧ Type_ m ≠ LinkAccept) as N.
    { unfold is_link, is_type in P1. bool_to_prop. done. }
    split_and!; try (intros; exact N); [intros; by right|intros; apply N].
  - assert (T : Type_ m' = LinkPropose) by (by apply (wire_type (proposalMessage p) m')).
    assert (Lk : links (proposalMessage p :: q') = proposalMessage p :: links q') by done.
    rewrite T, Lk. split_and!; try done. intros p' Wp' [= E4 E6 E]. left. split_and!; try done.
    assert (p' = p) as -> by (destruct p, p'; simpl in *; congruence).
    by apply wire_propose.
  - assert (T : Type_ m' = LinkAccept) by (by apply (wire_type (newMessage LinkAccept) m')).
    assert (Lk : links (newMessage LinkAccept :: q') = newMessage LinkAccept :: links q') by done.
    rewrite T, Lk. by split_and!.
Qed.

(** Consuming shortens the list of link messages. *)
Lemma consumed_links ev q q' : consumed ev q q' →
  links q' = links q ∨ ∃ m, links q = m :: links q'.
Proof.
  destruct 1 as [q L|m q W]; [by left|]. unfold links. rewrite filter_cons.
  destruct (decide _); [right|left]; eauto.
Qed.

Lemma consumed_nil ev q q' : consumed ev q q' → links q = [] → links q' = [].
Proof. intros [E|[m E]]%consumed_links; congruence. Qed.
Lemma consumed_one ev q q' m :
  consumed ev q q' → links q = [] ∨ links q = [m] → links q' = [] ∨ links q' = [m].
Proof. intros [E|[m' E]]%consumed_links [L|L]; rewrite L in E; simplify_eq; auto. Qed.
Lemma consumed_chan ev q q' : consumed ev q q' → chan_ok q → chan_ok q'.
Proof. intros [|] C; [done|by inversion C]. Qed.

Section Preserve.
Context {eX eY : Type} (configX configY : Config).
Context (X X' : party eX) (Y : party eY) (ev : event) (new XY YX YX' : list Message).
Context (running : exited X = None) (moved : move configX ev X X' new).
Context (chan : chan_ok YX) (cons : consumed ev YX YX') (pools : wf_pools configX).


Lemma quiet_other : pcommitted X' = pcommitted X → quiet X → quiet X'.
Proof. unfold quiet. congruence. Qed.

Lemma proposer_moves :
  proposing configY X Y XY YX → proposing configY X' Y (XY ++ new) YX'.
Proof.
  intros (p & Wp & H & QX & QY & R & LX & LY).
  destruct H as [H|(l & Hl & H)]; [done|]. pose proof H as (W1 & W2 & Oq & Pc).
  exists p. pose proof (consumed_nil _ _ _ cons LY) as LY'.
  destruct moved as [new' Pn Cm St|l' In Pl Pl' Aw At Op Cm Ex
    |l' q uid new' Src (Ow & Fr) Pl' Hq At Op Cm St|m r new' E T Pl (Pr & Ac) Cm Ex Nw
    |m r l' E T Pl Hq Pr Cm Ex].
  - rewrite links_app, (links_plain new' Pn), app_nil_r.
    split_and!; try done; [|by apply quiet_other].
    destruct St as [[St _]|St]; [right; exists l; split; [congruence|done]|by left].
  - congruence.
  - destruct Src as [[? _]|[(m & E & T) _]]; [congruence|].
    destruct (event_types ev YX YX' m chan cons E) as (_ & N & _). by destruct (N LY).
  - destruct (event_types ev YX YX' m chan cons E) as (_ & N & _). by destruct (N LY).
  - destruct (event_types ev YX YX' m chan cons E) as (_ & N & _). by destruct (N LY).
Qed.

Lemma receiver_moves :
  proposing configX Y X YX XY →
  proposing configX Y X' YX' (XY ++ new) ∨ proposing configY X' Y (XY ++ new) YX' ∨
  answered Y X' (XY ++ new).
Proof.
  intros (p & Wp & H & QY & QX & R & LY & LX). destruct R as [R|R]; [done|].
  pose proof (consumed_one _ _ _ _ cons LY) as LY'.
  destruct moved as [new' Pn Cm St|l' In Pl Pl' Aw At Op Cm Ex
    |l' q uid new' Src (Ow & Fr) Pl' Hq At Op Cm St|m r new' E T Pl (Pr & Ac) Cm Ex Nw
    |m r l' E T Pl Hq Pr Cm Ex].
  - left. exists p. rewrite links_app, (links_plain new' Pn), app_nil_r.
    split_and!; try done; [by apply quiet_other|].
    destruct St as [[St _]|St]; [|by left]. destruct R as [[R1 R2]|(l & R1 & R2)].
    + right; left. split; congruence.
    + right; right. exists l. split; [congruence|done].
  - left. exists p. rewrite app_nil_r. split_and!; try done; [by apply quiet_other|].
    right; right. eauto.
  - (* a counterproposal *)
    destruct Src as [[Pn In]|[(m & E & T) _]].
    { destruct R as [[_ R]|(l & R & _)]; congruence. }
    destruct (event_types ev YX YX' m chan cons E) as (_ & N & N1 & _).
    assert (LY0 : links YX' = []).
    { destruct LY as [LY|LY]; [by destruct (N LY)|].
      destruct (N1 p Wp LY) as [(? & _)|[? _]]; done. }
    right; left. exists q. split_and!; try done.
    + by eapply own_proposal_wf.
    + right. eauto.
    + by apply quiet_other.
    + destruct H as [H|(l & ? & ?)]; [by left|right; right; eauto].
    + rewrite links_app, LX. destruct St as [[-> _]|[-> _]]; auto.
  - (* accepted and committed *)
    destruct (event_types ev YX YX' m chan cons E) as (_ & N & N1 & _).
    assert (Result_Proposal r = p) as Rp.
    { destruct LY as [LY|LY]; [by destruct (N LY)|].
      destruct (N1 p Wp LY) as [(_ & _ & ?)|[? _]]; [congruence|done]. }
    right; right. exists r. rewrite Rp, Cm, QX, links_app, LX.
    split_and!; try done. destruct Nw as [-> | ->]; auto.
  - destruct (event_types ev YX YX' m chan cons E) as (_ & N & N1 & _).
    destruct LY as [LY|LY]; [by destruct (N LY)|].
    destruct (N1 p Wp LY) as [(_ & ? & _)|[_ ?]]; congruence.
Qed.

Lemma waiter_moves :
  answered X Y YX → answered X' Y YX' ∨ agreed X' Y.
Proof.
  intros (r & CY & ExY & QX & H & LY). destruct H as [H|(l & Hl & H)]; [done|].
  pose proof (consumed_one _ _ _ _ cons LY) as LY'.
  assert (NP : ∀ m, ev = ReadMessage m → Type_ m ≠ LinkPropose).
  { intros m E. destruct (event_types ev YX YX' m chan cons E) as (_ & N & _ & N2).
    destruct LY as [LY|LY]; [apply (N LY)|apply (N2 LY)]. }
  destruct moved as [new' Pn Cm St|l' In Pl Pl' Aw At Op Cm Ex
    |l' q uid new' Src (Ow & Fr) Pl' Hq At Op Cm St|m r' new' E T Pl (Pr & Ac) Cm Ex Nw
    |m r' l' E T Pl Hq Pr Cm Ex].
  - left. exists r. split_and!; try done; [by apply quiet_other|].
    destruct St as [[St _]|St]; [right; exists l; split; [congruence|done]|by left].
  - congruence.
  - destruct Src as [[? _]|[(m & E & T) _]]; [congruence|]. by destruct (NP m E).
  - by destruct (NP m E).
  - right. assert (l' = l) as -> by congruence. pose proof H as (_ & _ & Oq & _).
    exists r', r. rewrite Cm, QX, Pr. split_and!; try done.
Qed.

Lemma initiator_starts :
  Initiator configX = true → before configY X Y XY YX → Initiator configY = false →
  before configY X' Y (XY ++ new) YX' ∨ proposing configY X' Y (XY ++ new) YX'.
Proof.
  intros In (PX & QX & QY & RY & LX & LY) InY. destruct PX as [PX|PX]; [done|].
  pose proof (consumed_nil _ _ _ cons LY) as LY'.
  destruct moved as [new' Pn Cm St|l' In' Pl Pl' Aw At Op Cm Ex
    |l' q uid new' Src (Ow & Fr) Pl' Hq At Op Cm St|m r new' E T Pl (Pr & Ac) Cm Ex Nw
    |m r l' E T Pl Hq Pr Cm Ex]; [|congruence| |done|congruence].
  - left. unfold before. rewrite links_app, (links_plain new' Pn), app_nil_r.
    split_and!; try done; [|by apply quiet_other].
    destruct St as [[St _]|St]; [right; congruence|by left].
  - right. exists q. split_and!; try done.
    + by eapply own_proposal_wf.
    + right. eauto.
    + by apply quiet_other.
    + destruct RY as [RY|[RY|(l & ? & ?)]]; [by left|right; left; auto|right; right; eauto].
    + rewrite links_app, LX. destruct St as [[-> _]|[-> _]]; auto.
Qed.

Lemma responder_waits :
  Initiator configX = false → before configX Y X YX XY →
  before configX Y X' YX' (XY ++ new).
Proof.
  intros In (PY & QY & QX & RX & LY & LX). destruct RX as [RX|RX]; [done|].
  pose proof (consumed_nil _ _ _ cons LY) as LY'.
  assert (NP : ∀ m, ev = ReadMessage m → Type_ m ≠ LinkPropose ∧ Type_ m ≠ LinkAccept).
  { intros m E. destruct (event_types ev YX YX' m chan cons E) as (_ & N & _). by apply N. }
  destruct moved as [new' Pn Cm St|l' In' Pl Pl' Aw At Op Cm Ex
    |l' q uid new' Src (Ow & Fr) Pl' Hq At Op Cm St|m r new' E T Pl (Pr & Ac) Cm Ex Nw
    |m r l' E T Pl Hq Pr Cm Ex].
  - unfold before. rewrite links_app, (links_plain new' Pn), app_nil_r.
    split_and!; try done; [by apply quiet_other|].
    destruct St as [[St _]|St]; [right|by left].
    destruct RX as [RX|(l & RX & ?)]; [left; congruence|right; exists l; split; [congruence|done]].
  - unfold before. rewrite app_nil_r. split_and!; try done; [by apply quiet_other|].
    right; right. eauto.
  - destruct Src as [[_ ?]|[(m & E & T) _]]; [congruence|]. by destruct (NP m E).
  - by destruct (NP m E).
  - by destruct (NP m E).
Qed.
End Preserve.

Section Advance.
Context {env : Type} (cb : Callbacks env) (config : Config).
Context (static : static_config config) (pools : wf_pools config).

(** One event at one side: it returned before, or it makes a move. *)
Lemma party_advance (p : party env) ev q q' :
  good p → chan_ok q → consumed ev q q' →
  ∃ new, psent (party_step cb config p ev) = psent p ++ new ∧
    good (party_step cb config p ev) ∧ chan_ok new ∧
    (exited p ≠ None ∧ party_step cb config p ev = p ∧ new = [] ∨
     exited p = None ∧ move config ev p (party_step cb config p ev) new).
Proof.
  intros G C Co. destruct (exited p) as [x|] eqn:Ex.
  { assert (party_step cb config p ev = p) as -> by (unfold party_step; by rewrite Ex).
    exists []. rewrite app_nil_r. split_and!; try done; [constructor|by left]. }
  destruct G as [G|[Lv Lk]]; [done|].
  destruct (party_move cb config static p ev Lv Ex Lk) as (new & S & M).
  { intros m E. by apply (event_types ev q q' m C Co E). }
  assert (Lk' : linked (fsm (run (party_step cb config p ev)))).
  { unfold party_step. rewrite Ex.
    destruct (Run_step _ _ _ _ _) as [[st' el'] x] eqn:H. by apply Run_step_linked in H. }
  exists new. split; [done|]. split; [|split; [|by right]].
  - destruct (exited (party_step cb config p ev)) eqn:Ex'; [by left; rewrite Ex'|].
    right. split; [|done]. destruct M as [new' Pn Cm St|l' In' Pl Pl' Aw At Op Cm _
      |l' q0 uid new' Src (Ow & Fr) Pl' Hq At Op Cm St|m r new' E T Pl (Pr & Ac) Cm Ex1 Nw
      |m r l' E T Pl Hq Pr Cm Ex1]; try congruence.
    + destruct St as [[_ St]|St]; [done|congruence].
    + split; [done|]. rewrite Pl'. split; [unfold maxCounterproposals; lia|by left].
    + split; [done|]. rewrite Pl'. eauto.
  - destruct M as [new' Pn Cm St|l' In' Pl Pl' Aw At Op Cm _
      |l' q0 uid new' Src (Ow & Fr) Pl' Hq At Op Cm St|m r new' E T Pl (Pr & Ac) Cm Ex1 Nw
      |m r l' E T Pl Hq Pr Cm Ex1]; unfold chan_ok.
    + eapply Forall_impl; [exact Pn|]. auto.
    + constructor.
    + destruct St as [[-> _]|[-> _]]; [|constructor]. apply Forall_singleton.
      right; left. eauto using own_proposal_wf.
    + destruct Nw as [-> | ->]; [|constructor]. apply Forall_singleton. by right; right.
    + constructor.
Qed.
End Advance.

Section Agreement.
Context {envA envB : Type} (cbA : Callbacks envA) (cbB : Callbacks envB).
Context (configA configB : Config).
Context (initA : Initiator configA = true) (initB : Initiator configB = false).
Context (staticA : static_config configA) (staticB : static_config configB).
Context (poolsA : wf_pools configA) (poolsB : wf_pools configB).

Definition negotiation (A : party envA) (B : party envB) (AB BA : list Message) : Prop :=
  before configB A B AB BA ∨ proposing configB A B AB BA ∨ proposing configA B A BA AB ∨
  answered A B BA ∨ answered B A AB ∨ agreed A B.

Lemma negotiation_drop_A A B AB BA BA' ev :
  consumed ev BA BA' → negotiation A B AB BA → negotiation A B AB BA'.
Proof.
  intros C. unfold negotiation, before, proposing, answered.
  pose proof (consumed_nil _ _ _ C) as N. pose proof (consumed_one ev BA BA') as O.
  intros [H|[(p & H)|[(p & H)|[(r & H)|[H|H]]]]]; destruct_and?.
  - left. auto 10.
  - right; left. exists p. auto 10.
  - right; right; left. exists p. split_and!; eauto.
  - right; right; right; left. exists r. split_and!; eauto.
  - auto 10.
  - auto 10.
Qed.

Lemma negotiation_drop_B A B AB AB' BA ev :
  consumed ev AB AB' → negotiation A B AB BA → negotiation A B AB' BA.
Proof.
  intros C. unfold negotiation, before, proposing, answered.
  pose proof (consumed_nil _ _ _ C) as N. pose proof (consumed_one ev AB AB') as O.
  intros [H|[(p & H)|[(p & H)|[H|[(r & H)|H]]]]]; destruct_and?.
  - left. auto 10.
  - right; left. exists p. split_and!; eauto.
  - right; right; left. exists p. auto 10.
  - auto 10.
  - do 4 right; left. exists r. split_and!; eauto.
  - auto 10.
Qed.

Lemma negotiation_A A A' B ev new AB BA BA' :
  exited A = None → move configA ev A A' new → chan_ok BA → consumed ev BA BA' →
  negotiation A B AB BA → negotiation A' B (AB ++ new) BA'.
Proof.
  intros R M C Co [H|[H|[H|[H|[H|H]]]]]; unfold negotiation.
  - destruct (initiator_starts configA configB A A' B ev new AB BA BA') as [?|?]; auto.
  - right; left. by eapply proposer_moves.
  - destruct (receiver_moves configA configB A A' B ev new AB BA BA') as [?|[?|?]]; auto 10.
  - destruct (waiter_moves configA A A' B ev new BA BA') as [?|?]; auto 10.
  - destruct H as (r & _ & ? & _). done.
  - destruct H as (rX & rY & _ & _ & _ & ? & _). done.
Qed.

Lemma negotiation_B A B B' ev new AB AB' BA :
  exited B = None → move configB ev B B' new → chan_ok AB → consumed ev AB AB' →
  negotiation A B AB BA → negotiation A B' AB' (BA ++ new).
Proof.
  intros R M C Co [H|[H|[H|[H|[H|H]]]]]; unfold negotiation.
  - left. by eapply responder_waits.
  - destruct (receiver_moves configB configA B B' A ev new BA AB AB') as [?|[?|?]]; auto 10.
  - right; right; left. by eapply proposer_moves.
  - destruct H as (r & _ & ? & _). done.
  - destruct (waiter_moves configB B B' A ev new AB AB') as [?|(rX & rY & ? & ? & ? & ? & ?)];
      auto 10. do 5 right. exists rY, rX. auto 10.
  - destruct H as (rX & rY & _ & _ & _ & _ & ?). done.
Qed.

Record sys_inv (s : sys envA envB) : Prop := {
  inv_goodA : good (sideA s);
  inv_goodB : good (sideB s);
  inv_chanA : chan_ok (psent (sideA s));
  inv_chanB : chan_ok (psent (sideB s));
  inv_readA : (readA s <= length (psent (sideB s)))%nat;
  inv_readB : (readB s <= length (psent (sideA s)))%nat;
  inv_rel : negotiation (sideA s) (sideB s)
    (drop (readB s) (psent (sideA s))) (drop (readA s) (psent (sideB s)));
}.

Lemma chan_drop n q : chan_ok q → chan_ok (drop n q).
Proof. apply Forall_drop. Qed.
Lemma chan_app q r : chan_ok q → chan_ok r → chan_ok (q ++ r).
Proof. apply Forall_app_2. Qed.

(** One event at side A. *)
Lemma sys_inv_A s ev n :
  sys_inv s → consumed ev (drop (readA s) (psent (sideB s))) (drop n (psent (sideB s))) →
  (n <= length (psent (sideB s)))%nat →
  sys_inv (mkSys (party_step cbA configA (sideA s) ev) (sideB s) n (readB s)).
Proof.
  intros [GA GB CA CB RA RB Rel] Co Ln.
  destruct (party_advance cbA configA staticA poolsA (sideA s) ev _ _ GA
    (chan_drop (readA s) _ CB) Co) as (new & S & G & Cn & Mv).
  split; simpl; try done; rewrite S.
  - by apply chan_app.
  - rewrite length_app. lia.
  - rewrite drop_app_le by done. destruct Mv as [(_ & E & ->)|[Ex M]].
    + rewrite E, app_nil_r. by eapply negotiation_drop_A.
    + eapply negotiation_A; [exact Ex|exact M| |exact Co|exact Rel]. by apply chan_drop.
Qed.

Lemma sys_inv_B s ev n :
  sys_inv s → consumed ev (drop (readB s) (psent (sideA s))) (drop n (psent (sideA s))) →
  (n <= length (psent (sideA s)))%nat →
  sys_inv (mkSys (sideA s) (party_step cbB configB (sideB s) ev) (readA s) n).
Proof.
  intros [GA GB CA CB RA RB Rel] Co Ln.
  destruct (party_advance cbB configB staticB poolsB (sideB s) ev _ _ GB
    (chan_drop (readB s) _ CA) Co) as (new & S & G & Cn & Mv).
  split; simpl; try done; rewrite S.
  - by apply chan_app.
  - rewrite length_app. lia.
  - rewrite drop_app_le by done. destruct Mv as [(_ & E & ->)|[Ex M]].
    + rewrite E, app_nil_r. by eapply negotiation_drop_B.
    + eapply negotiation_B; [exact Ex|exact M| |exact Co|exact Rel]. by apply chan_drop.
Qed.

Lemma sys_inv_step s s' : sys_inv s → sys_step cbA cbB configA configB s s' → sys_inv s'.
Proof.
  intros I H. destruct H as [s m ev Lk Wi|s m ev Lk Wi|s ev Lo|s ev Lo].
  - apply sys_inv_A; [done| |by apply lookup_lt_Some in Lk].
    rewrite (drop_S _ m) by done. by constructor.
  - apply sys_inv_B; [done| |by apply lookup_lt_Some in Lk].
    rewrite (drop_S _ m) by done. by constructor.
  - apply sys_inv_A; [done|by constructor|apply I].
  - apply sys_inv_B; [done|by constructor|apply I].
Qed.

Lemma party_start_ok {env} (cb : Callbacks env) config (e : env) :
  let p := party_start cb config e in
  good p ∧ chan_ok (psent p) ∧ links (psent p) = [] ∧ quiet p ∧ plink p = None.
Proof.
  unfold party_start, Run_start.
  destruct (SetDeadline (logged cb) (e, log_nil)) as [[err|] e1] eqn:D;
    cbn in D; destruct (SetDeadline cb e) as [[err'|] e']; simplify_eq/=.
  - split_and!; [by left|apply Forall_nil_2|done..].
  - destruct (send cb _ e') as [[err|] e2].
    + split_and!; [by left|apply Forall_nil_2|done..].
    + split_and!; [right; split; [by split|by intros []]|apply Forall_singleton|done..].
      left. by split_and!.
Qed.

Lemma sys_inv_start eA eB : sys_inv (sys_start cbA cbB configA configB eA eB).
Proof.
  destruct (party_start_ok cbA configA eA) as (GA & CA & LA & QA & PA).
  destruct (party_start_ok cbB configB eB) as (GB & CB & LB & QB & PB).
  split; simpl; try done; try lia. rewrite !drop_0. left. split_and!; auto.
Qed.

Lemma sys_inv_reachable eA eB s :
  reachable cbA cbB configA configB eA eB s → sys_inv s.
Proof.
  intros R. unfold reachable in R. remember (sys_start _ _ _ _ _ _) as s0 eqn:E.
  assert (I : sys_inv s0) by (subst; apply sys_inv_start). clear E.
  induction R as [|s1 s2 s3 St R IH]; [done|]. apply IH. by eapply sys_inv_step.
Qed.
End Agreement.

(** * What one side did *)

(** The keys of the proposals in a stream. *)
Definition proposed (q : list Message) : list string :=
  map (λ m, proposalKey (proposal_of m)) (filter (λ m, Type_ m = LinkPropose) q).

Record trace_inv {env} (p : party env) : Prop := {
  tr_nodup : NoDup (proposed (psent p));
  tr_bound : Z.of_nat (length (proposed (psent p))) <= maxCounterproposals;
  tr_commit : Forall (λ r, (RemoteUID r, Result_Proposal r) ∈ paccepted p) (pcommitted p);
  tr_link : exited p = None →
    match plink p with
    | None => proposed (psent p) = []
    | Some l => Z.of_nat (length (proposed (psent p))) <= attempt l ∧
        Forall (λ k, k ∈ seen l) (proposed (psent p)) ∧
        ∀ q, holds q l → (link_remoteUID l, q) ∈ paccepted p
    end;
}.

Lemma proposed_app q r : proposed (q ++ r) = proposed q ++ proposed r.
Proof. unfold proposed. by rewrite filter_app, map_app. Qed.

Lemma proposed_plain q : Forall plain_msg q → proposed q = [].
Proof.
  induction 1 as [|m q (P & _) _ IH]; [done|]. unfold proposed in *.
  rewrite filter_cons_False; [done|]. intros T. unfold is_link in P. by rewrite T in P.
Qed.

Lemma proposed_propose q : proposed [proposalMessage q] = [proposalKey q].
Proof. unfold proposed. simpl. by destruct q. Qed.

Lemma trace_inv_move {env} config ev (p p' : party env) new :
  paccepted p ⊆ paccepted p' →
  exited p = None → psent p' = psent p ++ new → move config ev p p' new →
  trace_inv p → trace_inv p'.
Proof.
  intros Ac' Ex S M [ND Bd Cmt Lk]. specialize (Lk Ex).
  assert (Cmt' : Forall (λ r, (RemoteUID r, Result_Proposal r) ∈ paccepted p') (pcommitted p)).
  { eapply Forall_impl; [exact Cmt|]. simpl. auto. }
  destruct M as [new' Pn Cm St|l' In' Pl Pl' Aw At Op Cm _
    |l' q uid new' Src (Ow & Eu & Ac & Sq & Fr) Pl' Hq At Op Cm St
    |m r new' E T Pl (Pr & Ac) Cm Ex1 Nw|m r l' E T Pl Hq Pr Cm Ex1].
  - assert (Ep : proposed (psent p') = proposed (psent p))
      by (by rewrite S, proposed_app, (proposed_plain _ Pn), app_nil_r).
    split; rewrite ?Ep, ?Cm; try done. intros Ex'. destruct St as [[-> _]|St]; [|done].
    destruct (plink p); [|done]. destruct Lk as (? & ? & Lk). split_and!; auto.
  - rewrite app_nil_r in S. split; rewrite ?S, ?Cm; try done. intros _.
    rewrite Pl in Lk. rewrite Pl', Lk. split_and!; [simpl; lia|constructor|].
    intros q (W & _). destruct Aw as (W' & _). congruence.
  - destruct St as [[-> Ex']|[-> Ex']].
    + assert (Ep : proposed (psent p') = proposed (psent p) ++ [proposalKey q])
        by (by rewrite S, proposed_app, proposed_propose).
      assert (Bq : Z.of_nat (length (proposed (psent p))) < attempt l' ∧
        Forall (λ k, k ∈ seen l') (proposed (psent p)) ∧ proposalKey q ∉ proposed (psent p)).
      { destruct (plink p) as [l0|].
        - destruct Lk as (L1 & L2 & _), Fr as (F1 & F2 & F3). split_and!; [lia| |].
          + eapply Forall_impl; [exact L2|]. simpl. set_solver.
          + intros Hin. rewrite Forall_forall in L2. by apply F1, L2.
        - rewrite Lk. split_and!; [simpl; lia|constructor|apply not_elem_of_nil]. }
      destruct Bq as (B1 & B2 & B3).
      split; rewrite ?Ep, ?Cm, ?length_app; cbn [length]; try done; try lia.
      * apply NoDup_app. split_and!; [done| |apply NoDup_singleton].
        intros k Hk ->%list_elem_of_singleton. done.
      * intros _. rewrite Pl'. split_and!; [lia|by apply Forall_app_2, Forall_singleton|].
        intros q' H'. destruct Hq as (_ & _ & <- & _), H' as (_ & _ & <- & _). congruence.
    + rewrite app_nil_r in S. split; rewrite ?S, ?Cm; done.
  - assert (Ep : proposed (psent p') = proposed (psent p)).
    { rewrite S, proposed_app. destruct Nw as [-> | ->]; apply app_nil_r. }
    split; rewrite ?Ep, ?Cm; try done.
    apply Forall_app_2; [done|]. apply Forall_singleton. by rewrite Pr.
  - rewrite app_nil_r in S. split; rewrite ?S, ?Cm; try done.
    apply Forall_app_2; [done|]. apply Forall_singleton. subst r. cbn [RemoteUID Result_Proposal result_of].
    rewrite Pl in Lk. apply Ac'. by apply Lk.
Qed.

(** The log of accepted proposals only grows. *)
Lemma party_accepts {env} (cb : Callbacks env) config p ev :
  paccepted p ⊆ paccepted (party_step cb config p ev).
Proof.
  unfold paccepted, party_step. destruct (exited p); [done|].
  destruct (Run_step (logged cb) config (run p) ev (penv p)) as [[st' el'] x] eqn:H.
  simpl. by apply Run_step_accepts in H.
Qed.

Lemma trace_inv_start {env} (cb : Callbacks env) config e :
  trace_inv (party_start cb config e).
Proof.
  destruct (party_start_ok cb config e) as (_ & _ & L & Q & P).
  assert (Ep : proposed (psent (party_start cb config e)) = []).
  { revert L. generalize (psent (party_start cb config e)). clear.
    induction l as [|m q IH]; [done|]. unfold links, proposed in *.
    rewrite filter_cons. destruct (decide _) as [D|D]; [done|]. intros L.
    rewrite filter_cons_False; [by apply IH|].
    intros T. apply D. unfold is_link. by rewrite T. }
  split; rewrite ?Ep; [apply NoDup_nil_2|done|rewrite Q; apply Forall_nil_2|by rewrite P].
Qed.

Lemma trace_inv_advance {env} (cb : Callbacks env) config p ev q q' :
  static_config config → wf_pools config → good p → chan_ok q → consumed ev q q' →
  trace_inv p → trace_inv (party_step cb config p ev).
Proof.
  intros St Po G C Co T. pose proof (party_accepts cb config p ev) as Ac.
  destruct (party_advance cb config St Po p ev q q' G C Co)
    as (new & S & _ & _ & [(_ & -> & _)|[Ex M]]); [done|].
  by eapply trace_inv_move.
Qed.

(** * Theorems *)

(** C2: the two ends of a static negotiation never disagree.  In every reachable
    state of an initiator and a responder on one connection - whatever the
    interleaving, the callbacks, the failures and the cancellations - the
    proposals that have been committed are equal, and a side commits at most
    once. *)
Theorem negotiation_agreement {envA envB} (cbA : Callbacks envA) (cbB : Callbacks envB)
    configA configB eA eB s :
  Initiator configA = true → Initiator configB = false →
  static_config configA → static_config configB → wf_pools configA → wf_pools configB →
  reachable cbA cbB configA configB eA eB s →
  (length (pcommitted (sideA s)) <= 1)%nat ∧ (length (pcommitted (sideB s)) <= 1)%nat ∧
  ∀ rA rB, rA ∈ pcommitted (sideA s) → rB ∈ pcommitted (sideB s) →
    Result_Proposal rA = Result_Proposal rB.
Proof.
  intros IA IB SA SB PA PB R.
  destruct (sys_inv_reachable cbA cbB configA configB IA IB SA SB PA PB eA eB s R)
    as [_ _ _ _ _ _ Rel].
  unfold negotiation, before, proposing, answered, agreed, quiet in Rel.
  assert (Nil : ∀ r : Result_, r ∉ []) by (intros; apply not_elem_of_nil).
  destruct Rel as [H|[(p & H)|[(p & H)|[(r & H)|[(r & H)|(rX & rY & H)]]]]]; destruct_and?;
    repeat match goal with E : pcommitted _ = _ |- _ => rewrite E; clear E end;
    (split_and!; [simpl; lia..|]); intros rA rB HA HB; try (by destruct (Nil rA));
    try (by destruct (Nil rB)).
  apply list_elem_of_singleton in HA as ->. by apply list_elem_of_singleton in HB as ->.
Qed.

Lemma trace_inv_reachable {envA envB} (cbA : Callbacks envA) (cbB : Callbacks envB)
    configA configB eA eB s :
  Initiator configA = true → Initiator configB = false →
  static_config configA → static_config configB → wf_pools configA → wf_pools configB →
  reachable cbA cbB configA configB eA eB s →
  trace_inv (sideA s) ∧ trace_inv (sideB s).
Proof.
  intros IA IB SA SB PA PB R. unfold reachable in R.
  assert (I : ∀ s1 s2, rtc (sys_step cbA cbB configA configB) s1 s2 →
    sys_inv configA configB s1 → trace_inv (sideA s1) ∧ trace_inv (sideB s1) →
    trace_inv (sideA s2) ∧ trace_inv (sideB s2)).
  { clear R. intros s1 s2 R. induction R as [|s1 s2 s3 St R IH]; [done|]. intros I [TA TB].
    apply IH; [by eapply (sys_inv_step cbA cbB)|]. clear IH R.
    destruct I as [GA GB CA CB RA RB _].
    destruct St as [s1 m ev Lk Wi|s1 m ev Lk Wi|s1 ev Lo|s1 ev Lo]; cbn [sideA sideB].
    - split; [|done]. eapply (trace_inv_advance cbA configA); [done..| | |done];
        [apply (chan_drop (readA s1) _ CB)|].
      rewrite (drop_S _ m) by done. by constructor.
    - split; [done|]. eapply (trace_inv_advance cbB configB); [done..| | |done];
        [apply (chan_drop (readB s1) _ CA)|].
      rewrite (drop_S _ m) by done. by constructor.
    - split; [|done]. eapply (trace_inv_advance cbA configA); [done..|exact CB| |done].
      by constructor.
    - split; [done|]. eapply (trace_inv_advance cbB configB); [done..|exact CA| |done].
      by constructor. }
  eapply I; [exact R|by apply sys_inv_start|]. split; apply trace_inv_start.
Qed.

(** C4: a session is bounded and consults its owner.  In every reachable state each
    side has proposed at most 64 times, never the same prefixes twice, and every
    result it committed is one that its own [Accept] callback accepted during this
    run: the call, with the same peer and the same proposal, is in the side's log
    of the [Accept] calls that answered true. *)
Theorem negotiation_bounded {envA envB} (cbA : Callbacks envA) (cbB : Callbacks envB)
    configA configB eA eB s :
  Initiator configA = true → Initiator configB = false →
  static_config configA → static_config configB → wf_pools configA → wf_pools configB →
  reachable cbA cbB configA configB eA eB s →
  (Z.of_nat (length (proposed (psent (sideA s)))) <= maxCounterproposals ∧
   NoDup (proposed (psent (sideA s))) ∧
   Forall (λ r, (RemoteUID r, Result_Proposal r) ∈ paccepted (sideA s))
     (pcommitted (sideA s))) ∧
  (Z.of_nat (length (proposed (psent (sideB s)))) <= maxCounterproposals ∧
   NoDup (proposed (psent (sideB s))) ∧
   Forall (λ r, (RemoteUID r, Result_Proposal r) ∈ paccepted (sideB s))
     (pcommitted (sideB s))).
Proof.
  intros IA IB SA SB PA PB R.
  destruct (trace_inv_reachable cbA cbB configA configB eA eB s) as [[] []]; done.
Qed.

(** Two nodes with a common pool that accept everything. *)
Definition exampleConfig (initiator : bool) (id : byte) : Config :=
  mkConfig initiator None LinkBoundSession (mkUID (replicate 16 id) "")
    (Addr6 (0xfd00 * 2 ^ 112 + b2z id) "") AddrInvalid
    (mkPrefix (Addr4 0x0a000000) 8) Prefix_zero
    (mkPrefix (Addr6 (0xfd00 * 2 ^ 112) "") 64) [x01] [].
Definition exampleCallbacks : Callbacks unit :=
  mkCallbacks unit None None None None None (λ _ e, (None, e)) (λ e, (None, e)).

(** Hand the next message of the peer to a side. *)
Definition exampleDeliver (toA : bool) (s : sys unit unit) : sys unit unit :=
  if toA then
    match psent (sideB s) !! readA s ≫= wire with
    | Some ev => mkSys (party_step exampleCallbacks (exampleConfig true x01) (sideA s) ev)
                   (sideB s) (S (readA s)) (readB s)
    | None => s
    end
  else
    match psent (sideA s) !! readB s ≫= wire with
    | Some ev => mkSys (sideA s) (party_step exampleCallbacks (exampleConfig false x02) (sideB s) ev)
                   (readA s) (S (readB s))
    | None => s
    end.

Lemma exampleDeliver_step toA s :
  rtc (sys_step exampleCallbacks exampleCallbacks (exampleConfig true x01)
        (exampleConfig false x02)) s (exampleDeliver toA s).
Proof.
  unfold exampleDeliver. destruct toA.
  - destruct (psent (sideB s) !! readA s) as [m|] eqn:L; simpl; [|apply rtc_refl].
    destruct (wire m) as [ev|] eqn:W; [|apply rtc_refl]. apply rtc_once. by eapply deliver_A.
  - destruct (psent (sideA s) !! readB s) as [m|] eqn:L; simpl; [|apply rtc_refl].
    destruct (wire m) as [ev|] eqn:W; [|apply rtc_refl]. apply rtc_once. by eapply deliver_B.
Qed.

Definition exampleRun (deliveries : list bool) : sys unit unit :=
  foldl (λ s toA, exampleDeliver toA s)
    (sys_start exampleCallbacks exampleCallbacks (exampleConfig true x01)
       (exampleConfig false x02) tt tt) deliveries.

Lemma exampleRun_reachable deliveries :
  reachable exampleCallbacks exampleCallbacks (exampleConfig true x01)
    (exampleConfig false x02) tt tt (exampleRun deliveries).
Proof.
  unfold reachable, exampleRun. set (s0 := sys_start _ _ _ _ _ _).
  assert (G : ∀ s, rtc (sys_step exampleCallbacks exampleCallbacks (exampleConfig true x01)
    (exampleConfig false x02)) s (foldl (λ s toA, exampleDeliver toA s) s deliveries)).
  { induction deliveries as [|toA l IH]; intros s; [apply rtc_refl|]. simpl.
    etrans; [apply (exampleDeliver_step toA)|apply IH]. }
  apply G.
Qed.

Lemma negotiation_agreement_witness :
  let s := exampleRun [false; true; true; false; false; true] in
  exited (sideA s) = Some ExitNil ∧ exited (sideB s) = Some ExitNil ∧
  ∃ rA rB, pcommitted (sideA s) = [rA] ∧ pcommitted (sideB s) = [rB] ∧
    Result_Proposal rA = Result_Proposal rB.
Proof.
  intros s.
  assert (E : exited (sideA s) = Some ExitNil ∧ exited (sideB s) = Some ExitNil ∧
    length (pcommitted (sideA s)) = 1%nat ∧ length (pcommitted (sideB s)) = 1%nat)
    by by vm_compute.
  assert (R : reachable exampleCallbacks exampleCallbacks (exampleConfig true x01)
    (exampleConfig false x02) tt tt s) by apply exampleRun_reachable.
  clearbody s.
  destruct E as (E1 & E2 & LA & LB). split_and!; [done..|].
  destruct (one_value _ LA) as [rA HA]. destruct (one_value _ LB) as [rB HB].
  exists rA, rB. split_and!; [done..|].
  assert (W0 : wf_prefix Prefix_zero) by (split; [done|split; [done|by left]]).
  assert (W8 : wf_prefix (mkPrefix (Addr4 0x0a000000) 8)).
  { split; [by vm_compute|]. split; [done|]. by right. }
  refine (proj2 (proj2 (negotiation_agreement exampleCallbacks exampleCallbacks
    (exampleConfig true x01) (exampleConfig false x02) tt tt s eq_refl eq_refl _ _ _ _ R))
    rA rB _ _); try done.
  - rewrite HA. by left.
  - rewrite HB. by left.
Defined.

Lemma negotiation_bounded_witness :
  let s := exampleRun [false; true; true; false; false; true] in
  proposed (psent (sideA s)) ≠ [] ∧ NoDup (proposed (psent (sideA s))) ∧
  ∃ r, pcommitted (sideB s) = [r] ∧ (RemoteUID r, Result_Proposal r) ∈ paccepted (sideB s).
Proof.
  intros s. split; [by vm_compute|].
  assert (R : reachable exampleCallbacks exampleCallbacks (exampleConfig true x01)
    (exampleConfig false x02) tt tt s) by apply exampleRun_reachable.
  assert (LB : length (pcommitted (sideB s)) = 1%nat) by by vm_compute.
  clearbody s.
  assert (W0 : wf_prefix Prefix_zero) by (split; [done|split; [done|by left]]).
  assert (W8 : wf_prefix (mkPrefix (Addr4 0x0a000000) 8)).
  { split; [by vm_compute|]. split; [done|]. by right. }
  destruct (negotiation_bounded exampleCallbacks exampleCallbacks
    (exampleConfig true x01) (exampleConfig false x02) tt tt s eq_refl eq_refl)
    as [(_ & ND & _) (_ & _ & F)]; try done.
  split; [done|]. destruct (one_value _ LB) as [r E]. exists r. split; [done|].
  rewrite E in F. by inversion F.
Defined.
