(* ===== verification/Inference.v ===== *)
(** internal/inference: the evidence types, the observation store and [Infer],
    which turns NAT mapping samples into endpoint candidates and a measurement
    plan.  The code is pure, and so is the model: slices are lists, the maps of
    [Infer] and [surveyPlan] are gmaps and gsets, ports are 16-bit integers. *)

From S2P Require Import Prelude Netip.
From stdpp Require Import gmap sorting.
Open Scope Z_scope.
Open Scope velvet_scope.

(** * Data *)

Record Evidence := mkEvidence {
  eLink : string; eLocalListenPort : Z; eObservedEndpoint : AddrPort }.

Record Observation := mkObservation { oLocal : AddrPort; oRemote : AddrPort; oSeen : AddrPort }.

#[global] Instance Observation_eq_dec : EqDecision Observation.
Proof. solve_decision. Defined.

Definition Store := list Observation.

Record Observer := mkObserver { obBootstrap : bool; obEndpoints : list AddrPort }.

Record Measurement := mkMeasurement { mLocal : AddrPort; mRemote : AddrPort }.

#[global] Instance Measurement_eq_dec : EqDecision Measurement.
Proof. solve_decision. Defined.
#[global] Instance Measurement_countable : Countable Measurement.
Proof.
  refine (inj_countable' (λ m, (mLocal m, mRemote m)) (λ p, mkMeasurement p.1 p.2) _).
  by intros [].
Defined.

Record MeasurementGroup := mkGroup { gBootstrap : bool; gSteps : list Measurement }.

Record EndpointRange := mkRange { rAddr : Addr; rFirst : Z; rLast : Z }.

#[global] Instance EndpointRange_eq_dec : EqDecision EndpointRange.
Proof. solve_decision. Defined.

Record CandidateBatch := mkBatch { Basis : string; Ranges : list EndpointRange }.

Record SurveyInput := mkSurvey {
  inLocal : AddrPort; inTarget : AddrPort; inPublicIPs : list Addr;
  inObservers : list Observer; inBaseOnly : bool }.

Record Prediction := mkPrediction {
  Candidates : list CandidateBatch; Plan : list MeasurementGroup }.

(** Conversion to uint16. *)
Definition u16 (z : Z) : Z := z mod 65536.

(** * Evidence and the baseline profile (inference.go) *)

Definition Evidence_Valid (e : Evidence) : bool :=
  negb (bool_decide (eLink e = "")) && negb (eLocalListenPort e =? 0) &&
  AddrPort_IsValid (eObservedEndpoint e) && negb (Port (eObservedEndpoint e) =? 0).

Definition NewEvidence (link : string) (localListenPort : Z) (observed : AddrPort) :
    result Evidence :=
  if bool_decide (link = "") then Err (errors_New "endpoint evidence has no Link identity")
  else if (localListenPort <? 1) || (65535 <? localListenPort) then
    Err (errors_New "endpoint evidence has an invalid local listen port")
  else if negb (AddrPort_IsValid observed) || (Port observed =? 0) then
    Err (errors_New "endpoint evidence has an invalid observed endpoint")
  else Ok (mkEvidence link (u16 localListenPort) observed).

Definition Baseline (evidence : list Evidence) (listenPort : Z) : option AddrPort :=
  match evidence with
  | [] => None
  | e :: _ =>
    if negb (Evidence_Valid e) || (listenPort <? 1) || (65535 <? listenPort) then None
    else Some (AddrPortFrom (AddrPort_Addr (eObservedEndpoint e)) (u16 listenPort))
  end.

(** * The store (survey.go) *)

Definition usableEndpoint (ep : AddrPort) : bool :=
  AddrPort_IsValid ep && negb (Port ep =? 0) && negb (IsUnspecified (AddrPort_Addr ep)) &&
  negb (IsMulticast (AddrPort_Addr ep)).

Definition Observation_Valid (o : Observation) : bool :=
  usableEndpoint (oLocal o) && usableEndpoint (oRemote o) && usableEndpoint (oSeen o) &&
  eqb (Is4 (AddrPort_Addr (oLocal o))) (Is4 (AddrPort_Addr (oRemote o))) &&
  eqb (Is4 (AddrPort_Addr (oLocal o))) (Is4 (AddrPort_Addr (oSeen o))).

Definition Store_Add (s : Store) (o : Observation) : Store * bool :=
  if negb (Observation_Valid o) || bool_decide (o ∈ s) then (s, false) else (s ++ [o], true).

Definition ForgetLocal (s : Store) (l : AddrPort) : Store := filter (λ o, oLocal o ≠ l) s.

Definition Count (r : EndpointRange) : Z :=
  if negb (Addr_IsValid (rAddr r)) || (rFirst r =? 0) || (rLast r <? rFirst r) then 0
  else rLast r - rFirst r + 1.

(** * Infer *)

(** The closure [addIP]. *)
Definition addIP (local : AddrPort) (ips : list Addr) (ip : Addr) : list Addr :=
  if Addr_IsValid ip && negb (IsUnspecified ip) && negb (IsMulticast ip) &&
     eqb (Is4 ip) (Is4 (AddrPort_Addr local)) && negb (bool_decide (ip ∈ ips))
  then ips ++ [ip] else ips.

(** The loop over the samples: [relevant], [current] and [ips]. *)
Definition gather_step (local : AddrPort)
    (acc : list Observation * list Observation * list Addr) (o : Observation) :=
  let '(relevant, current, ips) := acc in
  if negb (Observation_Valid o) || bool_decide (AddrPort_Addr (oLocal o) ≠ AddrPort_Addr local)
  then acc
  else (relevant ++ [o],
        (if bool_decide (oLocal o = local) then current ++ [o] else current),
        addIP local ips (AddrPort_Addr (oSeen o))).
Definition gather (samples : list Observation) (input : SurveyInput) :=
  foldl (gather_step (inLocal input))
    ([], [], foldl (addIP (inLocal input)) [] (inPublicIPs input)) samples.

(** The closure [add]: a batch of the usable endpoints, dropped when empty. *)
Definition add_range (rs : list EndpointRange) (ep : AddrPort) : list EndpointRange :=
  let r := mkRange (AddrPort_Addr ep) (Port ep) (Port ep) in
  if usableEndpoint ep && negb (bool_decide (r ∈ rs)) then rs ++ [r] else rs.
Definition add (basis : string) (endpoints : list AddrPort) (out : list CandidateBatch) :
    list CandidateBatch :=
  match foldl add_range [] endpoints with
  | [] => out
  | rs => out ++ [mkBatch basis rs]
  end.

(** The closure [baseline]. *)
Definition baseline (ips : list Addr) (input : SurveyInput) (out : list CandidateBatch) :=
  foldl (λ out ip, add "port-preservation-hypothesis"
    [AddrPortFrom ip (Port (inLocal input))] out) out ips.

Definition all (samples : list Observation) (predicate : Observation → bool) : bool :=
  forallb predicate samples.

(** Candidates from the samples of the final socket: observations of this
    destination first, then those of its address. *)
Definition observed_target (current : list Observation) (input : SurveyInput)
    (out : list CandidateBatch) : list CandidateBatch :=
  foldl (λ out o, if bool_decide (oRemote o = inTarget input)
    then add "observed-target" [oSeen o] out else out) out current.
Definition target_address (current : list Observation) (input : SurveyInput)
    (out : list CandidateBatch) : list CandidateBatch :=
  foldl (λ out o,
    if bool_decide (AddrPort_Addr (oRemote o) = AddrPort_Addr (inTarget input)) &&
       negb (bool_decide (oRemote o = inTarget input))
    then add "target-address-mapping-hypothesis" [oSeen o] out else out) out current.
Definition shared_mapping (current : list Observation) (out : list CandidateBatch) :
    list CandidateBatch :=
  match current with
  | [] => out
  | first :: _ =>
    let shared := oSeen first in
    if all current (λ o, bool_decide (oSeen o = shared))
    then add "shared-mapping-hypothesis" [shared] out else out
  end.
Definition from_current (current : list Observation) (ips : list Addr) (input : SurveyInput)
    (out : list CandidateBatch) : list CandidateBatch :=
  let out := observed_target current input out in
  let out := target_address current input out in
  let out := shared_mapping current out in
  if bool_decide (current = []) || all current (λ o, Port (oSeen o) =? Port (oLocal o))
  then baseline ips input out else out.

(** [byRemote] and [destinations]. *)
Definition by_remote_step (acc : gmap AddrPort (list Observation) * list AddrPort)
    (o : Observation) :=
  let '(byRemote, destinations) := acc in
  let destinations :=
    if bool_decide (is_Some (byRemote !! oRemote o)) then destinations
    else destinations ++ [oRemote o] in
  (<[oRemote o := default [] (byRemote !! oRemote o) ++ [o]]> byRemote, destinations).
Definition by_remote (relevant : list Observation) := foldl by_remote_step (∅, []) relevant.

(** A stable offset needs three distinct local ports against one destination. *)
Definition from_offset (group : list Observation) (input : SurveyInput)
    (out : list CandidateBatch) : list CandidateBatch :=
  match group with
  | [] => out
  | first :: _ =>
    let delta := Port (oSeen first) - Port (oLocal first) in
    let '(locals, consistent) := foldl
      (λ (acc : gset AddrPort * bool) o, ({[oLocal o]} ∪ acc.1,
         acc.2 && bool_decide (AddrPort_Addr (oSeen o) = AddrPort_Addr (oSeen first)) &&
         (Port (oSeen o) - Port (oLocal o) =? delta)))
      (∅, true) group in
    let port := Port (inLocal input) + delta in
    if consistent && bool_decide (3 <= size locals)%nat && (0 <? port) && (port <=? 65535)
    then add "local-port-offset-hypothesis"
           [AddrPortFrom (AddrPort_Addr (oSeen first)) (u16 port)] out
    else out
  end.

(** The distinct ports seen on one public address, in order. *)
Definition ports_of (relevant : list Observation) (ip : Addr) : list Z :=
  foldl (λ ports o,
    if bool_decide (AddrPort_Addr (oSeen o) = ip) && negb (bool_decide (Port (oSeen o) ∈ ports))
    then ports ++ [Port (oSeen o)] else ports) [] relevant.

(** A small allocation stride gives a bounded neighbourhood. *)
Definition from_sequence (relevant : list Observation) (ip : Addr)
    (out : list CandidateBatch) : list CandidateBatch :=
  match reverse (ports_of relevant ip) with
  | p3 :: p2 :: p1 :: _ =>
    let d1 := p3 - p2 in let d2 := p2 - p1 in
    if (0 <? d1) && (d1 <=? 8) && (d1 =? d2) then
      let low := Z.max 1 (p1 - 4) in
      let high := Z.min 65535 (p3 + d1 + 4) in
      out ++ [mkBatch "allocation-sequence-hypothesis" [mkRange ip (u16 low) (u16 high)]]
    else out
  | _ => out
  end.

(** * The measurement plan *)

(** Observers whose Bootstrap flag is set come first. *)
Definition observer_cmp (a b : Observer) : Z :=
  if eqb (obBootstrap a) (obBootstrap b) then 0 else if obBootstrap a then -1 else 1.
Definition sort_observers : list Observer → list Observer := SortStableFunc observer_cmp.

Definition plan_locals (local : AddrPort) : list AddrPort :=
  local :: map (λ offset,
    let port := Port local + offset in
    let port := if 65535 <? port then Port local - offset else port in
    AddrPortFrom (AddrPort_Addr local) (u16 port)) [1; 2].

Definition plan_step (acc : list Measurement * gset Measurement) (step : Measurement) :=
  let '(steps, seen) := acc in
  if usableEndpoint (mRemote step) &&
     eqb (Is4 (AddrPort_Addr (mLocal step))) (Is4 (AddrPort_Addr (mRemote step))) &&
     negb (bool_decide (step ∈ seen))
  then (steps ++ [step], {[step]} ∪ seen) else acc.

(** The inner two loops: every local against the first two endpoints offered. *)
Definition plan_offers (locals : list AddrPort) (o : Observer) : list Measurement :=
  flat_map (λ l, map (mkMeasurement l) (take 2 (obEndpoints o))) locals.

Definition plan_observer (locals : list AddrPort)
    (acc : list MeasurementGroup * gset Measurement) (o : Observer) :=
  let '(plan, seen) := acc in
  let '(steps, seen) := foldl plan_step ([], seen) (plan_offers locals o) in
  (match steps with [] => plan | _ => plan ++ [mkGroup (obBootstrap o) steps] end, seen).

Definition surveyPlan (samples : list Observation) (input : SurveyInput) : list MeasurementGroup :=
  let seen := foldl (λ (seen : gset Measurement) o,
    {[mkMeasurement (oLocal o) (oRemote o)]} ∪ seen) ∅ samples in
  (foldl (plan_observer (plan_locals (inLocal input))) ([], seen)
     (sort_observers (inObservers input))).1.

Definition Infer (samples : list Observation) (input : SurveyInput) : Prediction :=
  if negb (usableEndpoint (inLocal input)) || negb (usableEndpoint (inTarget input)) ||
     negb (eqb (Is4 (AddrPort_Addr (inLocal input))) (Is4 (AddrPort_Addr (inTarget input))))
  then mkPrediction [] []
  else
    let '(relevant, current, ips) := gather samples input in
    if inBaseOnly input then mkPrediction (baseline ips input []) []
    else
      let out := from_current current ips input [] in
      let '(byRemote, destinations) := by_remote relevant in
      let out := foldl (λ out remote,
        from_offset (default [] (byRemote !! remote)) input out) out destinations in
      let out := foldl (λ out ip, from_sequence relevant ip out) out ips in
      let out := match out with
        | [] => map (λ ip, mkBatch "unconstrained-port-space" [mkRange ip 1 65535]) ips
        | _ => out
        end in
      mkPrediction out (surveyPlan relevant input).

(** * What the samples say *)

(** An address a candidate may use: of the local family and not reserved. *)
Definition usable_ip (local : AddrPort) (ip : Addr) : bool :=
  Addr_IsValid ip && negb (IsUnspecified ip) && negb (IsMulticast ip) &&
  eqb (Is4 ip) (Is4 (AddrPort_Addr local)).

(** The samples [Infer] looks at. *)
Definition is_relevant (local : AddrPort) (o : Observation) : Prop :=
  Observation_Valid o = true ∧ AddrPort_Addr (oLocal o) = AddrPort_Addr local.
#[global] Instance is_relevant_dec l o : Decision (is_relevant l o).
Proof. unfold is_relevant. solve_decision. Defined.

(** A public address known from the configuration or from a sample. *)
Definition known_ip (samples : list Observation) (input : SurveyInput) (ip : Addr) : Prop :=
  usable_ip (inLocal input) ip = true ∧
  (ip ∈ inPublicIPs input ∨
   ∃ o, o ∈ samples ∧ is_relevant (inLocal input) o ∧ ip = AddrPort_Addr (oSeen o)).

(** Ports are 16-bit values, as [netip.AddrPort] has them. *)
Definition wf_survey (samples : list Observation) (input : SurveyInput) : Prop :=
  wf_addrport (inLocal input) ∧ wf_addrport (inTarget input) ∧
  ∀ o, o ∈ samples → wf_addrport (oLocal o) ∧ wf_addrport (oRemote o) ∧ wf_addrport (oSeen o).

Lemma addIP_elem local ips ip x :
  x ∈ addIP local ips ip ↔ x ∈ ips ∨ (x = ip ∧ usable_ip local ip = true).
Proof.
  unfold addIP, usable_ip.
  destruct (Addr_IsValid ip && _ && _ && _); cbn [andb].
  - case_bool_decide; cbn; [naive_solver|].
    rewrite elem_of_app, list_elem_of_singleton. naive_solver.
  - naive_solver.
Qed.

Lemma foldl_addIP_elem local l ips x :
  x ∈ foldl (addIP local) ips l ↔ x ∈ ips ∨ (x ∈ l ∧ usable_ip local x = true).
Proof.
  revert ips. induction l as [|ip l IH]; intros ips; cbn.
  - set_solver.
  - rewrite IH, addIP_elem. set_solver.
Qed.

Lemma gather_spec samples input :
  let relevant := filter (is_relevant (inLocal input)) samples in
  gather samples input =
    (relevant, filter (λ o, oLocal o = inLocal input) relevant,
     foldl (addIP (inLocal input)) []
       (inPublicIPs input ++ map (AddrPort_Addr ∘ oSeen) relevant)).
Proof.
  cbn zeta. unfold gather. rewrite foldl_app.
  generalize (foldl (addIP (inLocal input)) [] (inPublicIPs input)) as ips.
  set (local := inLocal input).
  assert (G : ∀ l r c ips,
    foldl (gather_step local) (r, c, ips) l =
    (r ++ filter (is_relevant local) l,
     c ++ filter (λ o, oLocal o = local) (filter (is_relevant local) l),
     foldl (addIP local) ips (map (AddrPort_Addr ∘ oSeen) (filter (is_relevant local) l)))).
  { induction l as [|o l IH]; intros r c ips; cbn [foldl].
    - by rewrite !app_nil_r.
    - unfold gather_step at 2. rewrite (filter_cons (is_relevant local)).
      destruct (decide (is_relevant local o)) as [[V E]|N].
      + rewrite V, bool_decide_false by (rewrite E; tauto). cbn [negb orb].
        rewrite IH, filter_cons. cbn [map foldl]. rewrite <-app_assoc. cbn.
        case_bool_decide; case_decide; try done. by rewrite <-app_assoc.
      + destruct (Observation_Valid o) eqn:V; cbn [negb orb]; [|apply IH].
        rewrite bool_decide_true by (intros E; by apply N). apply IH. }
  intros ips. by rewrite (G samples [] [] ips).
Qed.

Lemma known_ips samples input ip :
  ip ∈ (gather samples input).2 ↔ known_ip samples input ip.
Proof.
  rewrite gather_spec. cbn [snd]. rewrite foldl_addIP_elem, elem_of_app. unfold known_ip.
  split.
  - intros [[]%not_elem_of_nil|[[H|H] U]]; split; try done; [by left|right].
    apply list_elem_of_fmap in H as (o & -> & Ho). apply list_elem_of_filter in Ho as [? ?]. eauto.
  - intros [U [H|(o & Ho & R & ->)]]; right; split; try done; [by left|right].
    apply list_elem_of_fmap. exists o. split; [done|]. by apply list_elem_of_filter.
Qed.

(** * Candidate batches *)

(** A batch is not empty, and each of its ranges is a nonempty range of ports
    of an address of [ips]. *)
Definition good_range (ips : list Addr) (r : EndpointRange) : Prop :=
  rAddr r ∈ ips ∧ 1 <= rFirst r ∧ rFirst r <= rLast r ∧ rLast r <= 65535.
Definition good_batch (ips : list Addr) (b : CandidateBatch) : Prop :=
  Ranges b ≠ [] ∧ ∀ r, r ∈ Ranges b → good_range ips r.
Definition good (ips : list Addr) (out : list CandidateBatch) : Prop :=
  ∀ b, b ∈ out → good_batch ips b.

(** The endpoint lies in a range of some batch. *)
Definition covered (out : list CandidateBatch) (ep : AddrPort) : Prop :=
  ∃ b r, b ∈ out ∧ r ∈ Ranges b ∧ rAddr r = AddrPort_Addr ep ∧ rFirst r <= Port ep <= rLast r.

Lemma covered_prefix out out' ep : out `prefix_of` out' → covered out ep → covered out' ep.
Proof. intros [k ->] (b & r & Hb & ?). exists b, r. split; [|done]. apply elem_of_app. by left. Qed.

Lemma good_nil ips : good ips [].
Proof. by intros b []%not_elem_of_nil. Qed.
Lemma good_snoc ips out b : good ips out → good_batch ips b → good ips (out ++ [b]).
Proof. intros G B x [Hx|Hx]%elem_of_app; [by apply G|]. by apply list_elem_of_singleton in Hx as ->. Qed.

Lemma add_one basis ep out :
  add basis [ep] out = if usableEndpoint ep
    then out ++ [mkBatch basis [mkRange (AddrPort_Addr ep) (Port ep) (Port ep)]] else out.
Proof. unfold add. cbn [foldl]. unfold add_range. by destruct (usableEndpoint ep). Qed.

Lemma add_prefix basis ep out : out `prefix_of` add basis [ep] out.
Proof. rewrite add_one. destruct (usableEndpoint ep); [by eexists|done]. Qed.
#[local] Hint Resolve add_prefix : core.

Lemma usable_port ep : usableEndpoint ep = true → wf_addrport ep → 1 <= Port ep <= 65535.
Proof. unfold usableEndpoint, wf_addrport. intros U W. destruct (Port ep =? 0) eqn:E;
  [by rewrite andb_false_r in U|]. apply Z.eqb_neq in E. lia. Qed.

Lemma add_good ips basis ep out :
  good ips out → (usableEndpoint ep = true → AddrPort_Addr ep ∈ ips ∧ 0 <= Port ep <= 65535) →
  good ips (add basis [ep] out).
Proof.
  intros G H. rewrite add_one. destruct (usableEndpoint ep) eqn:U; [|done].
  destruct (H eq_refl) as (I & ?). apply good_snoc; [done|]. split; [done|].
  intros r Hr. apply list_elem_of_singleton in Hr as ->. split; [done|]. cbn.
  assert (Port ep ≠ 0); [|lia]. intros E. unfold usableEndpoint in U. rewrite E in U.
  by rewrite andb_false_r in U.
Qed.

Lemma add_covers basis ep out :
  usableEndpoint ep = true → covered (add basis [ep] out) ep.
Proof.
  intros U. rewrite add_one, U. eexists _, _. split; [apply elem_of_app; right; by left|].
  split; [by left|]. cbn. split; [done|]. lia.
Qed.

(** Each stage of [Infer] appends good batches. *)
Definition stage (ips : list Addr) (f : list CandidateBatch → list CandidateBatch) : Prop :=
  ∀ out, out `prefix_of` f out ∧ (good ips out → good ips (f out)).

Lemma stage_loop {A} ips (f : list CandidateBatch → A → list CandidateBatch) l :
  (∀ x, x ∈ l → stage ips (λ out, f out x)) → stage ips (λ out, foldl f out l).
Proof.
  intros S out. split.
  - apply foldl_prefix. intros b x Hx. apply (S x Hx b).
  - intros G. apply foldl_inv; [done|]. intros b x Hx Gb. by apply (S x Hx b).
Qed.

Lemma stage_comp ips f g : stage ips f → stage ips g → stage ips (λ out, g (f out)).
Proof.
  intros F G out. split; [etrans; [apply F|apply G]|]. intros H. by apply G, F.
Qed.

Lemma stage_id ips : stage ips (λ out, out).
Proof. by split. Qed.

Lemma stage_if ips (b : bool) f g :
  (b = true → stage ips f) → stage ips g → stage ips (λ out, if b then f out else g out).
Proof. intros F G. destruct b; [by apply F|done]. Qed.

Lemma stage_add ips basis ep :
  (usableEndpoint ep = true → AddrPort_Addr ep ∈ ips ∧ 0 <= Port ep <= 65535) →
  stage ips (add basis [ep]).
Proof.
  intros H out. split; [by apply add_prefix|]. intros G. by apply add_good.
Qed.

(** The groups are the samples of one destination, in order. *)
Lemma by_remote_spec l :
  let '(byRemote, destinations) := by_remote l in
  (∀ r, r ∈ destinations ↔ ∃ o, o ∈ l ∧ oRemote o = r) ∧
  (∀ r, default [] (byRemote !! r) = filter (λ o, oRemote o = r) l) ∧
  (∀ r, is_Some (byRemote !! r) ↔ r ∈ destinations).
Proof.
  unfold by_remote. induction l as [|o l IH] using rev_ind.
  { cbn. split_and!; [set_solver|done|]. intros r. rewrite lookup_empty. split; [by intros []|].
    by intros []%not_elem_of_nil. }
  rewrite foldl_app. cbn [foldl]. destruct (foldl _ _ l) as [m d]. cbn [by_remote_step].
  destruct IH as (D & F & M). split_and!.
  - intros r. case_bool_decide as S.
    + rewrite D. setoid_rewrite elem_of_app. setoid_rewrite list_elem_of_singleton.
      apply M, D in S as (o' & ? & ?). naive_solver.
    + rewrite elem_of_app, list_elem_of_singleton, D. setoid_rewrite elem_of_app.
      setoid_rewrite list_elem_of_singleton. naive_solver.
  - intros r. rewrite filter_app, filter_cons, filter_nil, <-F.
    destruct (decide (oRemote o = r)) as [<-|N].
    + by rewrite lookup_insert_eq.
    + by rewrite lookup_insert_ne, app_nil_r.
  - intros r. rewrite lookup_insert_is_Some'. case_bool_decide as S; rewrite M.
    + split; [intros [<-|?]; [by apply M|done]|by right].
    + rewrite elem_of_app, list_elem_of_singleton. naive_solver.
Qed.

Lemma offset_fold (first : Observation) (g : list Observation) (l0 : gset AddrPort) c0 delta :
  let '(locals, consistent) := foldl
      (λ (acc : gset AddrPort * bool) o, ({[oLocal o]} ∪ acc.1,
         acc.2 && bool_decide (AddrPort_Addr (oSeen o) = AddrPort_Addr (oSeen first)) &&
         (Port (oSeen o) - Port (oLocal o) =? delta)))
      (l0, c0) g in
  locals = l0 ∪ list_to_set (map oLocal g) ∧
  consistent = c0 && forallb (λ o,
    bool_decide (AddrPort_Addr (oSeen o) = AddrPort_Addr (oSeen first)) &&
    (Port (oSeen o) - Port (oLocal o) =? delta)) g.
Proof.
  revert l0 c0. induction g as [|o g IH]; intros l0 c0; cbn [foldl].
  - split; [set_solver|by rewrite andb_true_r].
  - specialize (IH ({[oLocal o]} ∪ l0)
      (c0 && bool_decide (AddrPort_Addr (oSeen o) = AddrPort_Addr (oSeen first)) &&
         (Port (oSeen o) - Port (oLocal o) =? delta))).
    cbn [fst snd]. destruct (foldl _ _ g). destruct IH as [-> ->]. split; [set_solver|].
    cbn [forallb]. by rewrite !andb_assoc.
Qed.

Lemma ports_of_elem l ip p :
  p ∈ ports_of l ip ↔ ∃ o, o ∈ l ∧ AddrPort_Addr (oSeen o) = ip ∧ Port (oSeen o) = p.
Proof.
  unfold ports_of. revert p. induction l as [|o l IH] using rev_ind; [cbn; set_solver|]. intros p.
  rewrite foldl_app. cbn [foldl]. setoid_rewrite elem_of_app. setoid_rewrite list_elem_of_singleton.
  case_bool_decide as E; cbn [andb]; [|rewrite IH; naive_solver].
  case_bool_decide as M; cbn [negb].
  - rewrite IH. apply IH in M. naive_solver.
  - rewrite elem_of_app, IH, list_elem_of_singleton. naive_solver.
Qed.

Section Stages.
Context (samples : list Observation) (input : SurveyInput).
Context (W : wf_survey samples input).
Let local := inLocal input.
Let relevant := filter (is_relevant local) samples.
Let current := filter (λ o, oLocal o = local) relevant.
Let ips := (gather samples input).2.

Lemma gather_parts : gather samples input = (relevant, current, ips).
Proof. unfold ips. rewrite gather_spec. done. Qed.

Lemma valid_seen o :
  Observation_Valid o = true → usableEndpoint (oSeen o) = true ∧
  usable_ip (oLocal o) (AddrPort_Addr (oSeen o)) = true.
Proof.
  unfold Observation_Valid, usable_ip, usableEndpoint, AddrPort_IsValid. intros V.
  split; split_bools; try done.
  match goal with H : eqb (Is4 (AddrPort_Addr (oLocal o))) (Is4 (AddrPort_Addr (oSeen o))) = true |- _ =>
    apply eqb_prop in H; rewrite H end. apply eqb_reflx.
Qed.

Lemma relevant_elem o : o ∈ relevant → o ∈ samples ∧ is_relevant local o.
Proof. intros H. by apply list_elem_of_filter in H as [? ?]. Qed.

Lemma relevant_seen o :
  o ∈ relevant → usableEndpoint (oSeen o) = true ∧ AddrPort_Addr (oSeen o) ∈ ips ∧
  0 <= Port (oSeen o) <= 65535.
Proof.
  intros [Hs [V E]]%relevant_elem. destruct (valid_seen o V) as [U I]. split_and!.
  - done.
  - apply known_ips. split; [|by right; exists o]. unfold usable_ip in *. by rewrite E in I.
  - destruct W as (_ & _ & Ws). destruct (Ws o Hs) as (_ & _ & [_ ?]). lia.
  - destruct W as (_ & _ & Ws). destruct (Ws o Hs) as (_ & _ & [_ ?]). lia.
Qed.

Lemma current_relevant o : o ∈ current → o ∈ relevant ∧ oLocal o = local.
Proof. intros H. by apply list_elem_of_filter in H as [? ?]. Qed.

Lemma stage_seen basis o : o ∈ relevant → stage ips (add basis [oSeen o]).
Proof. intros H. apply stage_add. intros _. by apply relevant_seen. Qed.

Lemma stage_baseline : stage ips (baseline ips input).
Proof.
  apply stage_loop. intros ip Hip. apply stage_add. intros _. cbn. split; [done|].
  destruct W as ([_ ?] & _). lia.
Qed.

Lemma stage_observed_target : stage ips (observed_target current input).
Proof.
  apply stage_loop. intros o [Ho _]%current_relevant.
  case_bool_decide; [by apply stage_seen|apply stage_id].
Qed.
Lemma stage_target_address : stage ips (target_address current input).
Proof.
  apply stage_loop. intros o [Ho _]%current_relevant.
  destruct (_ && _); [by apply stage_seen|apply stage_id].
Qed.
Lemma stage_shared_mapping : stage ips (shared_mapping current).
Proof.
  unfold shared_mapping. destruct current as [|first rest] eqn:E; [apply stage_id|].
  apply stage_if; [|apply stage_id]. intros _. apply stage_seen.
  apply current_relevant. rewrite E. by left.
Qed.

Lemma stage_from_current : stage ips (from_current current ips input).
Proof.
  pose proof (stage_comp _ _ _ stage_observed_target stage_target_address) as S2.
  pose proof (stage_comp _ _ _ S2 stage_shared_mapping) as S3.
  refine (stage_comp _ _ (λ out, if bool_decide (current = []) ||
    all current (λ o, Port (oSeen o) =? Port (oLocal o)) then baseline ips input out else out) S3 _).
  apply stage_if; [intros _; apply stage_baseline|apply stage_id].
Qed.

Lemma stage_from_offset g :
  (∀ o, o ∈ g → o ∈ relevant) → stage ips (from_offset g input).
Proof.
  intros G. unfold from_offset. destruct g as [|first g]; [apply stage_id|].
  destruct (foldl _ _ _) as [locals consistent]. apply stage_if; [|apply stage_id].
  intros C. apply stage_add. intros _. cbn. split; [apply relevant_seen, G; by left|].
  bool_to_prop. unfold u16. rewrite Z.mod_small by lia. lia.
Qed.

Lemma stage_from_sequence ip : ip ∈ ips → stage ips (from_sequence relevant ip).
Proof.
  intros I. unfold from_sequence. destruct (reverse _) as [|p3 [|p2 [|p1 l]]] eqn:E;
    try apply stage_id.
  assert (P : ∀ p, p ∈ p3 :: p2 :: p1 :: l → 1 <= p <= 65535).
  { intros p. rewrite <-E, elem_of_reverse, ports_of_elem. intros (o & Ho & _ & <-).
    destruct (relevant_seen o Ho) as (U & _ & ?). split; [|lia].
    apply relevant_elem in Ho as [Hs _]. destruct W as (_ & _ & Ws).
    apply usable_port; [done|]. by apply Ws. }
  pose proof (P p1 ltac:(set_solver)). pose proof (P p3 ltac:(set_solver)).
  apply stage_if; [|apply stage_id]. intros C. bool_to_prop. intros out. split; [by eexists|].
  intros G. apply good_snoc; [done|]. split; [done|]. intros r Hr.
  apply list_elem_of_singleton in Hr as ->. split; [done|]. cbn [rFirst rLast].
  unfold u16. rewrite !Z.mod_small by lia. lia.
Qed.

(** The stages of [Infer], composed. *)
Definition offsets (out : list CandidateBatch) : list CandidateBatch :=
  foldl (λ out remote, from_offset (default [] ((by_remote relevant).1 !! remote)) input out) out
    (by_remote relevant).2.
Definition sequences (out : list CandidateBatch) : list CandidateBatch :=
  foldl (λ out ip, from_sequence relevant ip out) out ips.

Lemma stage_offsets : stage ips offsets.
Proof.
  apply stage_loop. intros r _. apply stage_from_offset. intros o.
  pose proof (by_remote_spec relevant) as S. destruct (by_remote relevant) as [m d].
  destruct S as (_ & F & _). cbn [fst]. rewrite F. intros H. by apply list_elem_of_filter in H as [_ ?].
Qed.
Lemma stage_sequences : stage ips sequences.
Proof. apply stage_loop. intros ip. apply stage_from_sequence. Qed.

Lemma group_remote r : default [] ((by_remote relevant).1 !! r) = filter (λ o, oRemote o = r) relevant.
Proof.
  pose proof (by_remote_spec relevant) as S. destruct (by_remote relevant) as [m d].
  destruct S as (_ & F & _). apply F.
Qed.
Lemma destinations_elem o : o ∈ relevant → oRemote o ∈ (by_remote relevant).2.
Proof.
  pose proof (by_remote_spec relevant) as S. destruct (by_remote relevant) as [m d].
  destruct S as (D & _). intros H. apply D. by exists o.
Qed.

Definition usable_survey : Prop :=
  usableEndpoint local = true ∧ usableEndpoint (inTarget input) = true ∧
  Is4 (AddrPort_Addr local) = Is4 (AddrPort_Addr (inTarget input)).

Lemma Infer_usable :
  usable_survey →
  Infer samples input =
  if inBaseOnly input then mkPrediction (baseline ips input []) []
  else mkPrediction
    (match sequences (offsets (from_current current ips input [])) with
     | [] => map (λ ip, mkBatch "unconstrained-port-space" [mkRange ip 1 65535]) ips
     | out => out
     end) (surveyPlan relevant input).
Proof.
  intros (L & T & F). unfold Infer. fold local. rewrite L, T, F, eqb_reflx. cbn [negb orb].
  rewrite gather_parts. destruct (inBaseOnly input); [done|].
  unfold sequences, offsets. destruct (by_remote relevant). cbn [fst snd]. by destruct (foldl _ _ ips).
Qed.

Lemma stages_good : good ips (sequences (offsets (from_current current ips input []))).
Proof. apply stage_sequences, stage_offsets, stage_from_current, good_nil. Qed.

Lemma Infer_unusable : ¬ usable_survey → Infer samples input = mkPrediction [] [].
Proof.
  unfold usable_survey, Infer. fold local. destruct (usableEndpoint local); [|done].
  destruct (usableEndpoint (inTarget input)); [|done]. cbn [negb orb].
  destruct (eqb _ _) eqn:E; [|done]. apply eqb_prop in E. tauto.
Qed.

Lemma good_infer : good ips (Candidates (Infer samples input)).
Proof.
  assert (D : Decision usable_survey) by (unfold usable_survey; apply _).
  destruct (decide usable_survey) as [U|U]; [|rewrite Infer_unusable by done; apply good_nil].
  rewrite Infer_usable by done. destruct (inBaseOnly input).
  - cbn. apply stage_baseline, good_nil.
  - cbn [Candidates]. pose proof stages_good as G. destruct (sequences _); [|done].
    intros b (ip & -> & Hip)%list_elem_of_fmap. split; [done|]. intros r Hr.
    apply list_elem_of_singleton in Hr as ->. split; [done|]. cbn. lia.
Qed.

Lemma known_usable ip :
  usable_survey → known_ip samples input ip → usableEndpoint (AddrPortFrom ip (Port local)) = true.
Proof.
  intros (L & _ & _) [K _]. unfold usableEndpoint, usable_ip, AddrPort_IsValid in *. cbn [AddrPort_Addr Port].
  split_bools; done.
Qed.

Lemma baseline_covers l ip out :
  ip ∈ l → usableEndpoint (AddrPortFrom ip (Port local)) = true →
  covered (baseline l input out) (AddrPortFrom ip (Port local)).
Proof.
  intros Hip U. unfold baseline.
  destruct (foldl_app_split (λ out ip, add "port-preservation-hypothesis"
    [AddrPortFrom ip (Port (inLocal input))] out) l out ip Hip) as (l1 & l2 & _ & ->).
  eapply covered_prefix; [apply foldl_prefix; intros; apply add_prefix|]. by apply add_covers.
Qed.
End Stages.

(** C25: every candidate batch that Infer returns is nonempty and names only
    addresses known from the configuration or from a sample of the same local
    address (valid, of the local family, neither unspecified nor multicast)
    with a nonempty port range within 1..65535; and when the two endpoints are
    usable and of one family, Infer returns a candidate exactly when some such
    address is known. *)
Theorem Infer_candidates (samples : list Observation) (input : SurveyInput) :
  wf_survey samples input →
  (∀ b, b ∈ Candidates (Infer samples input) → Ranges b ≠ [] ∧
     ∀ r, r ∈ Ranges b → known_ip samples input (rAddr r) ∧
       1 <= rFirst r ∧ rFirst r <= rLast r ∧ rLast r <= 65535) ∧
  (usable_survey input →
     Candidates (Infer samples input) ≠ [] ↔ ∃ ip, known_ip samples input ip).
Proof.
  intros W. pose proof (good_infer samples input W) as G. split.
  - intros b Hb. destruct (G b Hb) as [Ne R]. split; [done|]. intros r Hr.
    destruct (R r Hr) as (I & ?). by rewrite <-known_ips.
  - intros U. setoid_rewrite <-known_ips. split.
    + destruct (Candidates _) as [|b l]; [done|]. intros _.
      destruct (G b ltac:(by left)) as [Ne R]. destruct (Ranges b) as [|r rs]; [done|].
      exists (rAddr r). apply R. by left.
    + intros [ip Hip]. rewrite Infer_usable by done. destruct (inBaseOnly input); cbn [Candidates].
      * assert (C : covered (baseline (gather samples input).2 input []) (AddrPortFrom ip (Port (inLocal input)))).
        { apply baseline_covers; [done|]. by apply (known_usable samples), known_ips. }
        intros E. rewrite E in C. by destruct C as (? & ? & []%not_elem_of_nil & _).
      * destruct (sequences _ _ _); [|done].
        intros E%map_eq_nil. rewrite E in Hip. by apply not_elem_of_nil in Hip.
Qed.

(** A survey of two local ports through a NAT that adds 100 to the port. *)
Definition exLocal (p : Z) : AddrPort := AddrPortFrom (Addr4 0x0a000001) p.
Definition exPublic : Addr := Addr4 0xcb007105.
Definition exObserver (p : Z) : AddrPort := AddrPortFrom (Addr4 0xc6336401) p.
Definition exSample (p q : Z) : Observation :=
  mkObservation (exLocal p) (exObserver q) (AddrPortFrom exPublic (p + 100)).
Definition exInput : SurveyInput :=
  mkSurvey (exLocal 7000) (AddrPortFrom (Addr4 0xc6336402) 9000) []
    [mkObserver false [exObserver 1; exObserver 2; exObserver 3]; mkObserver true [exObserver 4]] false.
Definition exSamples : list Observation := map (λ p, exSample p 1) [7001; 7002; 7003].

Lemma wf_exSurvey : wf_survey exSamples exInput.
Proof.
  unfold wf_survey. split; [done|]. split; [done|]. intros o Ho.
  repeat (apply elem_of_cons in Ho as [->|Ho]; [done|]). by apply not_elem_of_nil in Ho.
Qed.

Lemma Infer_candidates_witness :
  usable_survey exInput ∧ Candidates (Infer exSamples exInput) ≠ [].
Proof.
  assert (U : usable_survey exInput) by done. split; [done|].
  apply (proj2 (Infer_candidates exSamples exInput wf_exSurvey) U).
  exists exPublic. split; [done|]. right. exists (exSample 7001 1). split; [by left|]. by vm_compute.
Defined.

(** * NAT behaviours *)

(** The mapping the NAT gives the final socket towards the target is a
    candidate when the samples were produced by [nat] and one of these holds:
    the target itself or its address was sampled, the mapping does not depend
    on the destination, the NAT preserves ports, or it shifts them by a fixed
    offset and three local ports were sampled against one destination. *)
Inductive mapping_evidence (nat : AddrPort → AddrPort → AddrPort)
    (samples : list Observation) (input : SurveyInput) : Prop :=
  | seen_target o :
      o ∈ samples → Observation_Valid o = true → oLocal o = inLocal input →
      oRemote o = inTarget input → mapping_evidence nat samples input
  | address_dependent o :
      o ∈ samples → Observation_Valid o = true → oLocal o = inLocal input →
      AddrPort_Addr (oRemote o) = AddrPort_Addr (inTarget input) →
      nat (inLocal input) (oRemote o) = nat (inLocal input) (inTarget input) →
      mapping_evidence nat samples input
  | endpoint_independent o :
      o ∈ samples → Observation_Valid o = true → oLocal o = inLocal input →
      (∀ r, nat (inLocal input) r = nat (inLocal input) (inTarget input)) →
      mapping_evidence nat samples input
  | port_preserving ip :
      known_ip samples input ip →
      (∀ l r, AddrPort_Addr l = AddrPort_Addr (inLocal input) → nat l r = AddrPortFrom ip (Port l)) →
      mapping_evidence nat samples input
  | fixed_offset ip d remote (locals : list AddrPort) :
      (∀ l r, AddrPort_Addr l = AddrPort_Addr (inLocal input) → nat l r = AddrPortFrom ip (Port l + d)) →
      1 <= Port (inLocal input) + d <= 65535 →
      NoDup locals → (3 <= length locals)%nat →
      (∀ l, l ∈ locals → ∃ o, o ∈ samples ∧ Observation_Valid o = true ∧
        AddrPort_Addr l = AddrPort_Addr (inLocal input) ∧ oLocal o = l ∧ oRemote o = remote) →
      mapping_evidence nat samples input.

Section Coverage.
Context (samples : list Observation) (input : SurveyInput).
Context (W : wf_survey samples input) (U : usable_survey input) (NB : inBaseOnly input = false).
Context (nat : AddrPort → AddrPort → AddrPort).
Context (Nat : ∀ o, o ∈ samples → is_relevant (inLocal input) o → oSeen o = nat (oLocal o) (oRemote o)).
Let local := inLocal input.
Let relevant := filter (is_relevant local) samples.
Let current := filter (λ o, oLocal o = local) relevant.
Let ips := (gather samples input).2.
Let mapped := nat local (inTarget input).

Lemma covered_stage f out ep : stage ips f → covered out ep → covered (f out) ep.
Proof. intros S. by apply covered_prefix, S. Qed.

Lemma covered_loop {A} (f : list CandidateBatch → A → list CandidateBatch) l out x ep :
  x ∈ l → (∀ y, y ∈ l → stage ips (λ out, f out y)) → (∀ out, covered (f out x) ep) →
  covered (foldl f out l) ep.
Proof.
  intros Hx S C. destruct (foldl_app_split f l out x Hx) as (l1 & l2 & El & ->).
  apply (covered_stage (λ out, foldl f out l2)); [|apply C]. apply stage_loop. intros y Hy.
  apply S. rewrite El. apply elem_of_app. right. by right.
Qed.

Lemma covered_infer ep :
  covered (sequences samples input (offsets samples input (from_current current ips input []))) ep →
  covered (Candidates (Infer samples input)) ep.
Proof.
  intros C. rewrite Infer_usable, NB by done. cbn [Candidates].
  fold ips local relevant current. destruct (sequences _ _ _); [|done].
  by destruct C as (? & ? & []%not_elem_of_nil & _).
Qed.

Lemma covered_from_current ep :
  covered (from_current current ips input []) ep → covered (Candidates (Infer samples input)) ep.
Proof.
  intros C. apply covered_infer.
  apply (covered_stage (sequences samples input)); [by apply stage_sequences|].
  by apply (covered_stage (offsets samples input)); [apply stage_offsets|].
Qed.

Lemma covered_shared ep :
  covered (shared_mapping current (target_address current input (observed_target current input []))) ep →
  covered (Candidates (Infer samples input)) ep.
Proof.
  intros C. apply covered_from_current. unfold from_current.
  destruct (_ || _); [|done].
  apply (covered_stage (baseline ips input)); [by apply stage_baseline|done].
Qed.

Lemma current_elem o :
  o ∈ samples → Observation_Valid o = true → oLocal o = local → o ∈ current.
Proof.
  intros H V E. apply list_elem_of_filter. split; [done|]. apply list_elem_of_filter.
  split; [|done]. split; [done|]. by rewrite E.
Qed.

Lemma relevant_mapped o :
  o ∈ relevant → AddrPort_Addr (oLocal o) = AddrPort_Addr local ∧
  oSeen o = nat (oLocal o) (oRemote o) ∧ usableEndpoint (oSeen o) = true.
Proof.
  intros H. pose proof (relevant_seen samples input W o H) as (? & _).
  apply list_elem_of_filter in H as [R H]. split; [apply R|]. by split; [apply Nat|].
Qed.

Lemma current_mapped o :
  o ∈ current → oLocal o = local ∧ oSeen o = nat local (oRemote o) ∧ usableEndpoint (oSeen o) = true.
Proof.
  intros [E H]%list_elem_of_filter. destruct (relevant_mapped o H) as (_ & S & ?). by rewrite <-E.
Qed.

Lemma covers_target_address o :
  o ∈ current → AddrPort_Addr (oRemote o) = AddrPort_Addr (inTarget input) →
  nat local (oRemote o) = mapped → covered (Candidates (Infer samples input)) mapped.
Proof.
  intros Ho A E. destruct (current_mapped o Ho) as (_ & S & V). rewrite E in S.
  apply covered_shared.
  apply (covered_stage (shared_mapping current)); [by apply stage_shared_mapping|].
  destruct (decide (oRemote o = inTarget input)) as [R|R].
  - apply (covered_stage (target_address current input)); [by apply stage_target_address|].
    unfold observed_target. apply (covered_loop _ _ _ o); [done| |].
    + intros y [Hy _]%current_relevant. case_bool_decide; [by apply stage_seen|apply stage_id].
    + intros out. rewrite bool_decide_true by done. rewrite <-S. by apply add_covers.
  - unfold target_address. apply (covered_loop _ _ _ o); [done| |].
    + intros y [Hy _]%current_relevant. destruct (_ && _); [by apply stage_seen|apply stage_id].
    + intros out. rewrite bool_decide_true, bool_decide_false by done. rewrite <-S. by apply add_covers.
Qed.

Lemma covers_shared o :
  o ∈ current → (∀ r, nat local r = mapped) → covered (Candidates (Infer samples input)) mapped.
Proof.
  intros Ho E. apply covered_shared. unfold shared_mapping.
  assert (S : ∀ o, o ∈ current → oSeen o = mapped ∧ usableEndpoint (oSeen o) = true).
  { intros p Hp. destruct (current_mapped p Hp) as (_ & -> & V). by rewrite E in *. }
  destruct current as [|first rest] eqn:Ec; [by apply not_elem_of_nil in Ho|].
  destruct (S first ltac:(by left)) as [S1 V1]. unfold all.
  replace (forallb _ _) with true; [rewrite S1; apply add_covers; by rewrite <-S1|].
  symmetry. apply forallb_forall. intros p Hp. apply bool_decide_eq_true. rewrite S1.
  apply S. by apply list_elem_of_In.
Qed.

Lemma covers_preserving ip :
  known_ip samples input ip →
  (∀ l r, AddrPort_Addr l = AddrPort_Addr local → nat l r = AddrPortFrom ip (Port l)) →
  covered (Candidates (Infer samples input)) mapped.
Proof.
  intros K E. unfold mapped. rewrite E by done. apply covered_from_current. unfold from_current.
  replace (bool_decide (current = []) || _) with true.
  - apply baseline_covers; [by apply known_ips|]. by apply (known_usable samples).
  - symmetry. apply orb_true_iff. right. apply forallb_forall. intros o Ho%list_elem_of_In.
    destruct (current_mapped o Ho) as (El & S & _). rewrite S, E, El by done. cbn. lia.
Qed.

Lemma covers_group ip d remote g out :
  (∀ l r, AddrPort_Addr l = AddrPort_Addr local → nat l r = AddrPortFrom ip (Port l + d)) →
  1 <= Port local + d <= 65535 →
  (∀ o, o ∈ g → o ∈ relevant ∧ oRemote o = remote) →
  (3 <= size (list_to_set (map oLocal g) : gset AddrPort))%nat →
  covered (from_offset g input out) mapped.
Proof.
  intros E P G S. assert (G' : ∀ o, o ∈ g →
    oSeen o = AddrPortFrom ip (Port (oLocal o) + d) ∧ usableEndpoint (oSeen o) = true).
  { intros o [Ho _]%G. destruct (relevant_mapped o Ho) as (A & -> & ?). by rewrite E in *. }
  unfold from_offset. destruct g as [|first g]; [cbn in S; rewrite size_empty in S; lia|].
  destruct (G' first ltac:(by left)) as [F V].
  pose proof (offset_fold first (first :: g) ∅ true (Port (oSeen first) - Port (oLocal first))) as O.
  destruct (foldl _ (∅, true) (first :: g)) as [locals consistent]. destruct O as [-> ->].
  rewrite union_empty_l_L, bool_decide_true by done.
  replace (forallb _ _) with true.
  2: { symmetry. apply forallb_forall. intros o Ho%list_elem_of_In. destruct (G' o Ho) as [-> _].
       rewrite F. cbn. rewrite bool_decide_true by done. cbn. lia. }
  rewrite F. cbn [andb AddrPort_Addr Port].
  replace (Port (inLocal input) + (Port (oLocal first) + d - Port (oLocal first)))
    with (Port local + d) by (unfold local; lia).
  replace (0 <? _) with true by (symmetry; apply Z.ltb_lt; lia).
  replace (_ <=? 65535) with true by (symmetry; apply Z.leb_le; lia). cbn [andb].
  unfold u16. rewrite Z.mod_small by lia. unfold mapped. rewrite E by done. apply add_covers.
  rewrite F in V. unfold usableEndpoint, AddrPort_IsValid in *. cbn [AddrPort_Addr Port] in *.
  split_bools; try done. replace (_ =? 0) with false; [done|]. symmetry. apply Z.eqb_neq. lia.
Qed.

Lemma covers_offset ip d remote (locals : list AddrPort) :
  (∀ l r, AddrPort_Addr l = AddrPort_Addr local → nat l r = AddrPortFrom ip (Port l + d)) →
  1 <= Port local + d <= 65535 → NoDup locals → (3 <= length locals)%nat →
  (∀ l, l ∈ locals → ∃ o, o ∈ samples ∧ Observation_Valid o = true ∧
    AddrPort_Addr l = AddrPort_Addr local ∧ oLocal o = l ∧ oRemote o = remote) →
  covered (Candidates (Infer samples input)) mapped.
Proof.
  intros E P Nd L Hl. apply covered_infer.
  apply (covered_stage (sequences samples input)); [by apply stage_sequences|].
  set (g := filter (λ o, oRemote o = remote) relevant).
  assert (M : ∀ l, l ∈ locals → ∃ o, o ∈ g ∧ oLocal o = l).
  { intros l (o & Ho & V & A & El & R)%Hl. exists o. split; [|done].
    apply list_elem_of_filter. split; [done|]. apply list_elem_of_filter. split; [|done].
    split; [done|]. by rewrite El. }
  assert (Hr : remote ∈ (by_remote relevant).2).
  { destruct locals as [|l locals]; [cbn in L; lia|]. destruct (M l ltac:(by left)) as (o & Ho & _).
    apply list_elem_of_filter in Ho as [<- Ho]. by apply (destinations_elem samples input). }
  apply (covered_loop _ _ _ remote); [done| |].
  - intros r _. apply stage_from_offset; [done|]. intros o.
    rewrite (group_remote samples input). intros H. by apply list_elem_of_filter in H as [_ ?].
  - intros out. rewrite (group_remote samples input). fold local relevant g.
    apply (covers_group ip d remote); try done.
    + intros o [? ?]%list_elem_of_filter. done.
    + rewrite <-(size_list_to_set (C:=gset AddrPort) locals) in L by done.
      etrans; [exact L|]. apply subseteq_size. intros l. rewrite !elem_of_list_to_set.
      intros (o & Ho & <-)%M. apply list_elem_of_fmap. by exists o.
Qed.
End Coverage.

(** C18: if the samples are what a NAT [nat] produced, the endpoint it maps the
    final socket to towards the target is among the candidates whenever the
    samples determine it: the target or its address was sampled, the mapping is
    endpoint independent, port preserving, or shifts ports by an offset seen
    from three local ports. *)
Theorem Infer_covers_mapping nat (samples : list Observation) (input : SurveyInput) :
  wf_survey samples input → usable_survey input → inBaseOnly input = false →
  (∀ o, o ∈ samples → is_relevant (inLocal input) o → oSeen o = nat (oLocal o) (oRemote o)) →
  mapping_evidence nat samples input →
  covered (Candidates (Infer samples input)) (nat (inLocal input) (inTarget input)).
Proof.
  intros W U NB N [o ? V L R|o ? V L A E|o ? V L E|ip K E|ip d remote locals E P Nd Ln Hl].
  - apply (covers_target_address _ _ W U NB nat N o); [by apply current_elem|by rewrite R..].
  - apply (covers_target_address _ _ W U NB nat N o); [by apply current_elem|done..].
  - apply (covers_shared _ _ W U NB nat N o); [by apply current_elem|done].
  - by apply (covers_preserving _ _ W U NB nat N ip).
  - by apply (covers_offset _ _ W U NB nat N ip d remote locals).
Qed.

Lemma Infer_covers_mapping_witness :
  covered (Candidates (Infer exSamples exInput)) (AddrPortFrom exPublic 7100).
Proof.
  apply (Infer_covers_mapping (λ l _, AddrPortFrom exPublic (Port l + 100)) exSamples exInput).
  - apply wf_exSurvey.
  - done.
  - done.
  - intros o Ho _. repeat (apply elem_of_cons in Ho as [->|Ho]; [done|]). by apply not_elem_of_nil in Ho.
  - apply (fixed_offset _ _ _ exPublic 100 (exObserver 1) (map exLocal [7001; 7002; 7003])).
    + done.
    + done.
    + by apply (bool_decide_unpack _).
    + apply le_n.
    + intros l Hl. cbn in Hl.
      apply elem_of_cons in Hl as [->|Hl]; [by exists (exSample 7001 1); split_and!; [left|..]|].
      apply elem_of_cons in Hl as [->|Hl]; [by exists (exSample 7002 1); split_and!; [right; left|..]|].
      apply elem_of_cons in Hl as [->|Hl]; [by exists (exSample 7003 1); split_and!; [right; right; left|..]|].
      by apply not_elem_of_nil in Hl.
Defined.

(** * The measurement plan *)

Lemma sort_insert_late o t f :
  obBootstrap o = false → Forall (λ o, obBootstrap o = true) t →
  Forall (λ o, obBootstrap o = false) f →
  sort_insert observer_cmp o (t ++ f) = t ++ o :: f.
Proof.
  intros B T Fl. induction T as [|y t Hy _ IH]; cbn [app].
  - destruct Fl as [|y f Hy _]; [done|]. cbn [sort_insert]. unfold observer_cmp. by rewrite B, Hy.
  - cbn [sort_insert]. unfold observer_cmp at 1. rewrite B, Hy. cbn. by rewrite IH.
Qed.

Lemma Forall_filter_self {A} (P : A → Prop) `{∀ x, Decision (P x)} l : Forall P (filter P l).
Proof. apply Forall_forall. intros x Hx. by apply list_elem_of_filter in Hx as [? _]. Qed.

Lemma sort_observers_partition os :
  sort_observers os =
  filter (λ o, obBootstrap o = true) os ++ filter (λ o, obBootstrap o = false) os.
Proof.
  unfold sort_observers. induction os as [|o os IH]; [done|]. cbn [SortStableFunc foldr].
  unfold SortStableFunc in IH. rewrite IH, !filter_cons. clear IH.
  destruct (obBootstrap o) eqn:B.
  - rewrite decide_True, decide_False by done. rewrite <-app_comm_cons.
    destruct (_ ++ _) as [|y l]; [done|].
    cbn [sort_insert]. unfold observer_cmp. rewrite B. by destruct (obBootstrap y).
  - apply sort_insert_late; [done|apply Forall_filter_self..].
Qed.

(** A measurement the plan may contain. *)
Definition askable (m : Measurement) : Prop :=
  usableEndpoint (mRemote m) = true ∧
  Is4 (AddrPort_Addr (mLocal m)) = Is4 (AddrPort_Addr (mRemote m)).

Lemma plan_steps_spec offers steps seen :
  ∃ new, foldl plan_step (steps, seen) offers = (steps ++ new, list_to_set new ∪ seen) ∧
    NoDup new ∧ (∀ s, s ∈ new → s ∈ offers ∧ askable s ∧ s ∉ seen) ∧
    (∀ s, s ∈ offers → askable s → s ∈ seen ∨ s ∈ new) ∧ new `sublist_of` offers.
Proof.
  revert steps seen. induction offers as [|s offers IH]; intros steps seen.
  { exists []. cbn. rewrite app_nil_r, union_empty_l_L. split_and!; [done|constructor|set_solver..|done]. }
  cbn [foldl]. unfold plan_step at 2.
  destruct (usableEndpoint _ && _ && _) eqn:C.
  - bool_to_prop. match goal with E : eqb _ _ = true |- _ => apply eqb_prop in E as F end.
    destruct (IH (steps ++ [s]) ({[s]} ∪ seen)) as (new & -> & Nd & N & K & L).
    exists (s :: new). split_and!.
    + rewrite <-app_assoc. cbn. f_equal. set_solver.
    + constructor; [|done]. intros Hs. apply N in Hs. set_solver.
    + intros x [->|Hx]%elem_of_cons; [split_and!; [by left|done|done]|].
      apply N in Hx as (? & ? & ?). split_and!; [by right|done|set_solver].
    + intros x [->|Hx]%elem_of_cons A; [right; by left|]. destruct (K x Hx A); set_solver.
    + by constructor.
  - destruct (IH steps seen) as (new & -> & Nd & N & K & L). exists new. split_and!; try done.
    + intros x Hx. apply N in Hx as (? & ? & ?). split_and!; [by right|done|done].
    + intros x [->|Hx]%elem_of_cons A; [|by apply K]. left. destruct A as [A1 A2].
      rewrite A1, A2, eqb_reflx in C. cbn in C. by bool_to_prop.
    + by constructor.
Qed.

Definition planned (gs : list MeasurementGroup) : list Measurement := gs ≫= gSteps.

Lemma plan_groups_spec locals os plan seen :
  ∃ gs, foldl (plan_observer locals) (plan, seen) os =
      (plan ++ gs, list_to_set (planned gs) ∪ seen) ∧
    NoDup (planned gs) ∧ (∀ s, s ∈ planned gs → s ∉ seen ∧ askable s) ∧
    (∀ o s, o ∈ os → s ∈ plan_offers locals o → askable s → s ∈ seen ∨ s ∈ planned gs) ∧
    (∀ g, g ∈ gs → ∃ o, o ∈ os ∧ gBootstrap g = obBootstrap o ∧ gSteps g ≠ [] ∧
       gSteps g `sublist_of` plan_offers locals o) ∧
    map gBootstrap gs `sublist_of` map obBootstrap os.
Proof.
  revert plan seen. induction os as [|o os IH]; intros plan seen.
  { exists []. cbn. rewrite app_nil_r, union_empty_l_L.
    split_and!; [done|constructor|set_solver..|done]. }
  cbn [foldl]. unfold plan_observer at 2.
  destruct (plan_steps_spec (plan_offers locals o) [] seen) as (new & -> & Nd & N & K & L).
  cbn [app]. destruct new as [|s0 new'] eqn:En.
  - destruct (IH plan (list_to_set [] ∪ seen)) as (gs & -> & Nd' & N' & K' & O' & B').
    rewrite (union_empty_l_L seen : list_to_set [] ∪ seen = seen) in *.
    exists gs. split_and!; try done.
    + intros p s [->|Hp]%elem_of_cons; [intros Hs A; left; destruct (K s Hs A); [done|set_solver]|].
      by apply K'.
    + intros g (p & ? & ?)%O'. exists p. split; [by right|done].
    + by constructor.
  - rewrite <-En in *. assert (Ne : new ≠ []) by (by rewrite En). clear En s0 new'.
    destruct (IH (plan ++ [mkGroup (obBootstrap o) new]) (list_to_set new ∪ seen))
      as (gs & -> & Nd' & N' & K' & O' & B').
    exists (mkGroup (obBootstrap o) new :: gs). unfold planned in *. cbn [mbind list_bind gSteps].
    split_and!.
    + rewrite <-app_assoc. cbn. f_equal. set_solver.
    + apply NoDup_app. split_and!; [done| |done]. intros s Hs Hs'. apply N' in Hs' as [Hs' _]. set_solver.
    + intros s [Hs|Hs]%elem_of_app; [by apply N in Hs as (_ & ? & ?)|].
      apply N' in Hs as [? ?]. set_solver.
    + intros p s [->|Hp]%elem_of_cons Hs A; rewrite elem_of_app.
      * destruct (K s Hs A); tauto.
      * destruct (K' p s Hp Hs A) as [[Hn%elem_of_list_to_set|?]%elem_of_union|?]; tauto.
    + intros g [->|Hg]%elem_of_cons; [exists o; split; [by left|done]|].
      apply O' in Hg as (p & ? & ?). exists p. split; [by right|done].
    + cbn. by constructor.
Qed.

Lemma plan_offers_elem locals o s :
  s ∈ plan_offers locals o ↔ mLocal s ∈ locals ∧ mRemote s ∈ take 2 (obEndpoints o).
Proof.
  unfold plan_offers. rewrite list_elem_of_In, in_flat_map. setoid_rewrite in_map_iff.
  setoid_rewrite <-list_elem_of_In. destruct s as [l r]; cbn. naive_solver.
Qed.

Lemma plan_offers_length locals o : (length (plan_offers locals o) <= 2 * length locals)%nat.
Proof.
  unfold plan_offers. induction locals as [|l locals IH]; cbn [flat_map length]; [lia|].
  rewrite length_app, length_map, length_take. lia.
Qed.

Lemma sampled_set (l : list Observation) s :
  s ∈ foldl (λ (seen : gset Measurement) o, {[mkMeasurement (oLocal o) (oRemote o)]} ∪ seen) ∅ l ↔
  ∃ o, o ∈ l ∧ oLocal o = mLocal s ∧ oRemote o = mRemote s.
Proof.
  induction l as [|o l IH] using rev_ind; [cbn; set_solver|].
  rewrite foldl_app. cbn [foldl]. rewrite elem_of_union, IH, elem_of_singleton.
  setoid_rewrite elem_of_app. setoid_rewrite list_elem_of_singleton. destruct s as [a b]. cbn.
  split; [intros [[= -> ->]|(? & ? & ?)]; eauto|].
  intros (p & [Hp| ->] & <- & <-); [right; by exists p|by left].
Qed.

(** The final socket and the two auxiliary ones next to it. *)
Lemma plan_locals_ok local :
  usableEndpoint local = true → wf_addrport local →
  NoDup (plan_locals local) ∧
  ∀ l, l ∈ plan_locals local → usableEndpoint l = true ∧ AddrPort_Addr l = AddrPort_Addr local.
Proof.
  intros U W. pose proof (usable_port _ U W) as P. destruct local as [a p]. cbn [Port] in P.
  unfold plan_locals. cbn [map AddrPort_Addr Port].
  assert (Q : ∀ off, off = 1 ∨ off = 2 → ∃ q, u16 (if 65535 <? p + off then p - off else p + off) = q ∧
    q ≠ 0 ∧ (q = p + off ∨ q = p - off)).
  { intros off O. destruct (65535 <? p + off) eqn:C; bool_to_prop; unfold u16; rewrite Z.mod_small by lia;
      eexists; split; [done|lia|done|lia]. }
  destruct (Q 1 ltac:(by left)) as (q1 & -> & ? & ?). destruct (Q 2 ltac:(by right)) as (q2 & -> & ? & ?).
  split.
  - repeat constructor; rewrite ?elem_of_cons, ?list_elem_of_singleton, ?elem_of_nil;
      intros; intuition congruence || (intuition simplify_eq; lia).
  - intros l Hl. assert (∃ q, l = AddrPortFrom a q ∧ q ≠ 0) as (q & -> & ?).
    { rewrite !elem_of_cons, elem_of_nil in Hl. destruct Hl as [->|[->|[->|[]]]]; eexists; split; try done. lia. }
    split; [|done]. unfold usableEndpoint, AddrPort_IsValid in *. cbn [AddrPort_Addr Port] in *.
    split_bools; try done. apply negb_true_iff. by apply Z.eqb_neq.
Qed.

Lemma sublist_flags (gs : list MeasurementGroup) (os : list Observer) :
  map gBootstrap gs `sublist_of` map obBootstrap (sort_observers os) →
  ∃ boot rest, gs = boot ++ rest ∧ Forall (λ g, gBootstrap g = true) boot ∧
    Forall (λ g, gBootstrap g = false) rest.
Proof.
  rewrite sort_observers_partition, map_app. intros (b1 & b2 & E & S1 & S2)%sublist_app_r.
  apply map_eq_app in E as (boot & rest & -> & <- & <-). exists boot, rest. split; [done|].
  assert (F : ∀ (b : bool) gs, map gBootstrap gs `sublist_of`
    map obBootstrap (filter (λ o, obBootstrap o = b) os) → Forall (λ g, gBootstrap g = b) gs).
  { intros b l S. apply Forall_forall. intros g Hg.
    assert (H : gBootstrap g ∈ map obBootstrap (filter (λ o, obBootstrap o = b) os)).
    { eapply elem_of_sublist; [|exact S]. by apply list_elem_of_fmap_2. }
    by apply list_elem_of_fmap in H as (o & -> & [? _]%list_elem_of_filter). }
  by split; apply F.
Qed.

Lemma surveyPlan_spec (l : list Observation) (input : SurveyInput) :
  let plan := surveyPlan l input in
  let sampled s := ∃ o, o ∈ l ∧ oLocal o = mLocal s ∧ oRemote o = mRemote s in
  NoDup (planned plan) ∧
  (∀ s, s ∈ planned plan → askable s ∧ ¬ sampled s) ∧
  (∀ o a r, o ∈ inObservers input → a ∈ plan_locals (inLocal input) → r ∈ take 2 (obEndpoints o) →
     askable (mkMeasurement a r) →
     sampled (mkMeasurement a r) ∨ mkMeasurement a r ∈ planned plan) ∧
  (∀ g, g ∈ plan → (1 <= length (gSteps g) <= 6)%nat ∧ ∃ o, o ∈ inObservers input ∧
     gBootstrap g = obBootstrap o ∧ ∀ s, s ∈ gSteps g →
       mLocal s ∈ plan_locals (inLocal input) ∧ mRemote s ∈ take 2 (obEndpoints o)) ∧
  ∃ boot rest, plan = boot ++ rest ∧ Forall (λ g, gBootstrap g = true) boot ∧
    Forall (λ g, gBootstrap g = false) rest.
Proof.
  cbn zeta. unfold surveyPlan. set (seen := foldl _ ∅ l).
  destruct (plan_groups_spec (plan_locals (inLocal input)) (sort_observers (inObservers input)) [] seen)
    as (gs & -> & Nd & N & K & O & B). cbn [fst app].
  assert (M : ∀ o, o ∈ sort_observers (inObservers input) ↔ o ∈ inObservers input).
  { intros o. by rewrite (SortStableFunc_perm observer_cmp (inObservers input)). }
  split_and!.
  - done.
  - intros s Hs. apply N in Hs as [Hs A]. split; [done|]. intros H. apply Hs. by apply sampled_set.
  - intros o a r Ho Ha Hr A. destruct (K o (mkMeasurement a r)) as [H|H]; try done.
    + by apply M.
    + by apply plan_offers_elem.
    + left. by apply sampled_set.
    + by right.
  - intros g (o & Ho & Bo & Ne & S)%O. split.
    + pose proof (sublist_length _ _ S). pose proof (plan_offers_length (plan_locals (inLocal input)) o).
      cbn in *. destruct (gSteps g); cbn in *; [done|lia].
    + exists o. split; [by apply M|]. split; [done|]. intros s Hs.
      apply plan_offers_elem. by eapply elem_of_sublist.
  - by apply (sublist_flags gs (inObservers input)).
Qed.

(** C26: the measurement plan of Infer never repeats a step nor asks for one the
    samples of this local address already hold; its steps go from the final
    socket or one of two distinct usable auxiliary ports next to it to one of
    the first two endpoints of an observer, of the same family; a group has one
    to six steps; bootstrap observers come first; and nothing that should be
    measured is left out. *)
Theorem Infer_plan (samples : list Observation) (input : SurveyInput) :
  wf_survey samples input → usable_survey input → inBaseOnly input = false →
  let plan := Plan (Infer samples input) in
  let sampled s := ∃ o, o ∈ samples ∧ is_relevant (inLocal input) o ∧
    oLocal o = mLocal s ∧ oRemote o = mRemote s in
  NoDup (planned plan) ∧
  (∀ s, s ∈ planned plan → askable s ∧ ¬ sampled s) ∧
  (∀ o a r, o ∈ inObservers input → a ∈ plan_locals (inLocal input) → r ∈ take 2 (obEndpoints o) →
     askable (mkMeasurement a r) →
     sampled (mkMeasurement a r) ∨ mkMeasurement a r ∈ planned plan) ∧
  (∀ g, g ∈ plan → (1 <= length (gSteps g) <= 6)%nat ∧ ∃ o, o ∈ inObservers input ∧
     gBootstrap g = obBootstrap o ∧ ∀ s, s ∈ gSteps g →
       mLocal s ∈ plan_locals (inLocal input) ∧ mRemote s ∈ take 2 (obEndpoints o)) ∧
  (∃ boot rest, plan = boot ++ rest ∧ Forall (λ g, gBootstrap g = true) boot ∧
    Forall (λ g, gBootstrap g = false) rest) ∧
  NoDup (plan_locals (inLocal input)) ∧
  ∀ l, l ∈ plan_locals (inLocal input) → usableEndpoint l = true ∧
    AddrPort_Addr l = AddrPort_Addr (inLocal input).
Proof.
  intros W U NB. cbn zeta. rewrite Infer_usable, NB by done. cbn [Plan].
  destruct (surveyPlan_spec (filter (is_relevant (inLocal input)) samples) input)
    as (Nd & N & K & G & B).
  assert (S : ∀ s, (∃ o, o ∈ filter (is_relevant (inLocal input)) samples ∧ oLocal o = mLocal s ∧
      oRemote o = mRemote s) ↔ (∃ o, o ∈ samples ∧ is_relevant (inLocal input) o ∧
    oLocal o = mLocal s ∧ oRemote o = mRemote s)).
  { intros s. setoid_rewrite list_elem_of_filter. naive_solver. }
  setoid_rewrite S in N. setoid_rewrite S in K. split_and!; try done.
  1,2: apply plan_locals_ok; [apply U|apply W].
Qed.

Lemma Infer_plan_witness :
  NoDup (planned (Plan (Infer exSamples exInput))) ∧
  map gBootstrap (Plan (Infer exSamples exInput)) = [true; false].
Proof.
  split; [|by vm_compute].
  exact (proj1 (Infer_plan exSamples exInput wf_exSurvey ltac:(done) eq_refl)).
Defined.

(** * The store *)

(** C28: the store never holds an invalid sample nor one sample twice; Add
    reports whether the sample is new information, keeps send order, and
    ForgetLocal drops exactly the samples of the released socket. *)
Theorem Store_invariant (s : Store) :
  NoDup s → Forall (λ o, Observation_Valid o = true) s →
  (∀ o, let '(s', new) := Store_Add s o in
    NoDup s' ∧ Forall (λ o, Observation_Valid o = true) s' ∧
    (new = true ↔ Observation_Valid o = true ∧ o ∉ s) ∧
    s' = s ++ (if new then [o] else [])) ∧
  (∀ l, NoDup (ForgetLocal s l) ∧ Forall (λ o, Observation_Valid o = true) (ForgetLocal s l) ∧
    ForgetLocal s l `sublist_of` s ∧ ∀ o, o ∈ ForgetLocal s l ↔ o ∈ s ∧ oLocal o ≠ l).
Proof.
  intros Nd V. split.
  - intros o. unfold Store_Add. destruct (Observation_Valid o) eqn:E; cbn [negb orb].
    + case_bool_decide as M.
      * rewrite app_nil_r. split_and!; try done. naive_solver.
      * split_and!; [|by apply Forall_app_2; [|constructor]|naive_solver|done].
        apply NoDup_app. split_and!; [done| |apply NoDup_singleton].
        intros x Hx Ho. by apply list_elem_of_singleton in Ho as ->.
    + rewrite app_nil_r. split_and!; try done. naive_solver.
  - intros l. unfold ForgetLocal. split_and!.
    + by apply NoDup_filter.
    + apply Forall_forall. intros o [_ Ho]%list_elem_of_filter. by eapply Forall_forall in V.
    + apply sublist_filter.
    + intros o. rewrite list_elem_of_filter. naive_solver.
Qed.

Lemma Store_invariant_witness :
  (Store_Add exSamples (exSample 7001 1)).2 = false ∧ NoDup (ForgetLocal exSamples (exLocal 7001)).
Proof.
  split; [by vm_compute|].
  apply (proj2 (Store_invariant exSamples ltac:(by apply (bool_decide_unpack _))
    ltac:(by repeat constructor))).
Defined.
