(* ===== verification/Search.v ===== *)
(** internal/linkdiscovery/search.go: the bounded candidate search.  The
    Network interface is a record of calls on an environment that every call
    may change (its sockets, its clock, what it has heard); the stores are
    cells of a heap, since [Peer] holds pointers to them.  The engine's fields
    and the environment are threaded explicitly; a call that fails returns its
    error and the state it left. *)

From S2P Require Import Prelude Netip Inference.
From stdpp Require Import gmap sorting.
Open Scope Z_scope.
Open Scope velvet_scope.

(** * Data *)

Inductive Side := A | B.
#[global] Instance Side_eq_dec : EqDecision Side.
Proof. solve_decision. Defined.
(** Both sides in the order of the loops [for side := A; side <= B]. *)
Definition sides : list Side := [A; B].

(** A Go array indexed by side. *)
Definition at_side {T} (p : T * T) (s : Side) : T := match s with A => p.1 | B => p.2 end.
Definition upd_side {T} (s : Side) (f : T → T) (p : T * T) : T * T :=
  match s with A => (f p.1, p.2) | B => (p.1, f p.2) end.

Record Probe := mkProbe { ID : Z; pSide : Side; pLocal : AddrPort; pRemote : AddrPort }.
Record Report := mkReport { rID : Z; rSeen : AddrPort }.

(** The errors [Run] distinguishes with [errors.Is]. *)
Inductive search_error := errBudget | errCanceled | errDeadline | errOther (text : string).
#[global] Instance search_error_eq_dec : EqDecision search_error.
Proof. solve_decision. Defined.

Record Network (E : Type) := mkNetwork {
  net_Open : Side → AddrPort → E → option search_error * E;
  net_Close : Side → AddrPort → E → option search_error * E;
  net_Send : Probe → E → option search_error * E;
  net_Reports : E → (search_error + list Report) * E;
  net_Wait : Z → E → option search_error * E;
  net_Now : E → Z * E;
  ctx_Err : E → option search_error * E
}.
Arguments net_Open {E}. Arguments net_Close {E}. Arguments net_Send {E}.
Arguments net_Reports {E}. Arguments net_Wait {E}. Arguments net_Now {E}. Arguments ctx_Err {E}.

Record Peer := mkPeer {
  peLocal : AddrPort; peTarget : AddrPort; pePublicIPs : list Addr;
  peObservers : list Observer; peStore : option nat   (* pointer into the heap *) }.

Record Limits := mkLimits {
  Timeout : Z; Interval : Z; lPackets : Z; lMeasurements : Z; lCandidates : Z; lPairs : Z;
  Repeats : Z; MaxIterations : Z }.

Definition DefaultLimits : Limits :=
  mkLimits (10 * 1000000000) (10 * 1000000) 12000 64 32 1024 3 16.

Record Stats := mkStats {
  Iterations : Z; Packets : Z; Measurements : Z; NewObservations : Z; RejectedBatches : Z;
  BootstrapBranches : Z; OtherBranches : Z }.
Definition Stats_zero : Stats := mkStats 0 0 0 0 0 0 0.

Record Path := mkPath { LocalA : AddrPort; LocalB : AddrPort; EndpointA : AddrPort; EndpointB : AddrPort }.

Record Result := mkResult { res_Path : option Path; Reason : string; res_Stats : Stats }.

Definition socket : Type := Side * AddrPort.

(** The engine, with the heap of stores and the environment. *)
Record engine (E : Type) := mkEngine {
  peers : Peer * Peer; limits : Limits; until : Z; stats : Stats; nextID : Z;
  opened : list socket; tried : gset (AddrPort * AddrPort);
  measured : gset Measurement * gset Measurement;
  heap : gmap nat Store; env : E
}.
Arguments mkEngine {E}. Arguments peers {E}. Arguments limits {E}. Arguments until {E}.
Arguments stats {E}. Arguments nextID {E}. Arguments opened {E}. Arguments tried {E}.
Arguments measured {E}. Arguments heap {E}. Arguments env {E}.

Definition set_stats {E : Type} (f : Stats → Stats) (e : engine E) : engine E :=
  mkEngine (peers e) (limits e) (until e) (f (stats e)) (nextID e) (opened e) (tried e) (measured e) (heap e) (env e).
Definition set_nextID {E : Type} (n : Z) (e : engine E) : engine E :=
  mkEngine (peers e) (limits e) (until e) (stats e) n (opened e) (tried e) (measured e) (heap e) (env e).
Definition set_opened {E : Type} (o : list socket) (e : engine E) : engine E :=
  mkEngine (peers e) (limits e) (until e) (stats e) (nextID e) o (tried e) (measured e) (heap e) (env e).
Definition set_tried {E : Type} (t : gset (AddrPort * AddrPort)) (e : engine E) : engine E :=
  mkEngine (peers e) (limits e) (until e) (stats e) (nextID e) (opened e) t (measured e) (heap e) (env e).
Definition set_measured {E : Type} (m : gset Measurement * gset Measurement) (e : engine E) : engine E :=
  mkEngine (peers e) (limits e) (until e) (stats e) (nextID e) (opened e) (tried e) m (heap e) (env e).
Definition set_heap {E : Type} (h : gmap nat Store) (e : engine E) : engine E :=
  mkEngine (peers e) (limits e) (until e) (stats e) (nextID e) (opened e) (tried e) (measured e) h (env e).
Definition set_env {E : Type} (x : E) (e : engine E) : engine E :=
  mkEngine (peers e) (limits e) (until e) (stats e) (nextID e) (opened e) (tried e) (measured e) (heap e) x.

(** Counters of [Stats]. *)
Definition inc_Iterations (s : Stats) : Stats :=
  mkStats (Iterations s + 1) (Packets s) (Measurements s) (NewObservations s) (RejectedBatches s) (BootstrapBranches s) (OtherBranches s).
Definition inc_Packets (s : Stats) : Stats :=
  mkStats (Iterations s) (Packets s + 1) (Measurements s) (NewObservations s) (RejectedBatches s) (BootstrapBranches s) (OtherBranches s).
Definition inc_Measurements (s : Stats) : Stats :=
  mkStats (Iterations s) (Packets s) (Measurements s + 1) (NewObservations s) (RejectedBatches s) (BootstrapBranches s) (OtherBranches s).
Definition inc_NewObservations (s : Stats) : Stats :=
  mkStats (Iterations s) (Packets s) (Measurements s) (NewObservations s + 1) (RejectedBatches s) (BootstrapBranches s) (OtherBranches s).
Definition inc_Branches (bootstrap : bool) (s : Stats) : Stats :=
  if bootstrap
  then mkStats (Iterations s) (Packets s) (Measurements s) (NewObservations s) (RejectedBatches s) (BootstrapBranches s + 1) (OtherBranches s)
  else mkStats (Iterations s) (Packets s) (Measurements s) (NewObservations s) (RejectedBatches s) (BootstrapBranches s) (OtherBranches s + 1).

Definition validEndpoint (ep : AddrPort) : bool :=
  AddrPort_IsValid ep && negb (Port ep =? 0) && negb (IsUnspecified (AddrPort_Addr ep)) &&
  negb (IsMulticast (AddrPort_Addr ep)).

(** * Selecting candidates *)

(** The counting loop, which breaks once the limit is exceeded. *)
Fixpoint count_ranges (limit count : Z) (rs : list EndpointRange) : Z :=
  match rs with
  | [] => count
  | r :: rs =>
    let count := count + Count r in
    if limit <? count then count else count_ranges limit count rs
  end.

Definition select_endpoint (limit : Z) (acc : list AddrPort * gset AddrPort) (ep : AddrPort) :=
  let '(selected, seen) := acc in
  if negb (bool_decide (ep ∈ seen)) && (len selected <? limit)
  then (selected ++ [ep], {[ep]} ∪ seen) else acc.
Definition select_range (limit : Z) (acc : list AddrPort * gset AddrPort) (r : EndpointRange) :=
  if Count r =? 0 then acc
  else foldl (select_endpoint limit) acc
    (map (λ port, AddrPortFrom (rAddr r) (u16 port)) (seqZ (rFirst r) (rLast r - rFirst r + 1))).
(** One batch; the third component counts the rejected ones. *)
Definition select_batch (limit : Z) (acc : list AddrPort * gset AddrPort * Z) (b : CandidateBatch) :=
  let '(selected, seen, rejected) := acc in
  if limit <? count_ranges limit 0 (Ranges b) then (selected, seen, rejected + 1)
  else let '(selected, seen) := foldl (select_range limit) (selected, seen) (Ranges b) in
       (selected, seen, rejected).
Definition select_loop (limit : Z) (p : Prediction) : list AddrPort * gset AddrPort * Z :=
  foldl (select_batch limit) ([], ∅, 0) (Candidates p).

Definition selectCandidates {E : Type} (p : Prediction) (e : engine E) : list AddrPort * engine E :=
  let '(selected, _, rejected) := select_loop (lCandidates (limits e)) p in
  (selected, set_stats (λ s, mkStats (Iterations s) (Packets s) (Measurements s) (NewObservations s)
     (RejectedBatches s + rejected) (BootstrapBranches s) (OtherBranches s)) e).

Definition CandidatesFor (p : Prediction) (limit : Z) : list AddrPort :=
  (select_loop limit p).1.1.

(** * The engine *)

Section Engine.
Context {E : Type} (network : Network E).

(** A call of the network. *)
Definition call {T} (f : E → T * E) (e : engine E) : T * engine E :=
  let '(r, x) := f (env e) in (r, set_env x e).

Definition check (e : engine E) : option search_error * engine E :=
  let '(err, e) := call (ctx_Err network) e in
  match err with
  | Some err => (Some err, e)
  | None =>
    let '(now, e) := call (net_Now network) e in
    if negb (now <? until e) || (lPackets (limits e) <=? Packets (stats e))
    then (Some errBudget, e) else (None, e)
  end.

Definition open (side : Side) (local : AddrPort) (e : engine E) : option search_error * engine E :=
  let '(err, e) := check e in
  match err with
  | Some err => (Some err, e)
  | None =>
    if bool_decide ((side, local) ∈ opened e) then (None, e)
    else
      let '(err, e) := call (net_Open network side local) e in
      match err with
      | Some err => (Some err, e)
      | None => (None, set_opened (opened e ++ [(side, local)]) e)
      end
  end.

(** The closure [add] of [try]. *)
Definition try_add (locals : AddrPort * AddrPort) (side : Side) (remote : AddrPort)
    (acc : list Probe * (gset AddrPort * gset AddrPort)) :=
  let '(probes, sends) := acc in
  if bool_decide (remote ∈ at_side sends side) then acc
  else (probes ++ [mkProbe 0 side (at_side locals side) remote],
        upd_side side (λ s, {[remote]} ∪ s) sends).

(** One candidate pair: the state is the probes and sends, the tried pairs and
    the number of pairs of this window. *)
Definition try_pair (locals : AddrPort * AddrPort) (limit : Z)
    (acc : list Probe * (gset AddrPort * gset AddrPort) * gset (AddrPort * AddrPort) * Z)
    (key : AddrPort * AddrPort) :=
  let '(ps, tried, pairs) := acc in
  if bool_decide (key ∈ tried) || (limit <=? pairs) then acc
  else (try_add locals B key.1 (try_add locals A key.2 ps), {[key]} ∪ tried, pairs + 1).

Definition try_probes (candidates : list AddrPort * list AddrPort) (e : engine E) :
    list Probe * gset (AddrPort * AddrPort) :=
  let locals := (peLocal (peers e).1, peLocal (peers e).2) in
  let '(probes, _, tried, _) :=
    foldl (try_pair locals (lPairs (limits e))) ([], (∅, ∅), tried e, 0)
      (flat_map (λ a, map (pair a) candidates.2) candidates.1) in
  (probes, tried).

(** * A window of probes *)

(** Sending the templates once: numbered, recorded in [sent], counted. *)
Fixpoint window_send (templates : list Probe) (sent : gmap Z Probe) (e : engine E) :
    gmap Z Probe * option search_error * engine E :=
  match templates with
  | [] => (sent, None, e)
  | probe :: templates =>
    let '(err, e) := check e in
    match err with
    | Some err => (sent, Some err, e)
    | None =>
      let id := (nextID e + 1) mod 2 ^ 64 in
      let probe := mkProbe id (pSide probe) (pLocal probe) (pRemote probe) in
      let e := set_stats inc_Packets (set_nextID id e) in
      let sent := <[id := probe]> sent in
      let '(err, e) := call (net_Send network probe) e in
      match err with
      | Some err => (sent, Some err, e)
      | None => window_send templates sent e
      end
    end
  end.

(** A report counts when it names a probe of this window, is the first for it
    and makes a valid observation. *)
Definition accept_report (sent : gmap Z Probe) (reports : gmap Z AddrPort) (r : Report) :
    gmap Z AddrPort :=
  match sent !! rID r with
  | None => reports
  | Some probe =>
    if Observation_Valid (mkObservation (pLocal probe) (pRemote probe) (rSeen r)) then
      match reports !! rID r with
      | Some _ => reports
      | None => <[rID r := rSeen r]> reports
      end
    else reports
  end.

Fixpoint window_loop (repeats : nat) (templates : list Probe) (sent : gmap Z Probe)
    (reports : gmap Z AddrPort) (e : engine E) :
    gmap Z Probe * gmap Z AddrPort * option search_error * engine E :=
  match repeats with
  | O => (sent, reports, None, e)
  | S repeats =>
    let '(sent, err, e) := window_send templates sent e in
    match err with
    | Some err => (sent, reports, Some err, e)
    | None =>
      let '(now, e) := call (net_Now network) e in
      let '(err, e) := call (net_Wait network
        (Z.min (Interval (limits e)) (Z.max 0 (until e - now)))) e in
      match err with
      | Some err => (sent, reports, Some err, e)
      | None =>
        let '(now, e) := call (net_Now network) e in
        if negb (now <? until e) then (sent, reports, Some errBudget, e)
        else
          let '(received, e) := call (net_Reports network) e in
          match received with
          | inl err => (sent, reports, Some err, e)
          | inr received =>
            window_loop repeats templates sent (foldl (accept_report sent) reports received) e
          end
      end
    end
  end.

(** The deferred function: the reports as observations, in send order. *)
Definition window_observations (sent : gmap Z Probe) (reports : gmap Z AddrPort) :
    list Observation * list Observation :=
  foldl (λ out id,
    match sent !! id, reports !! id with
    | Some probe, Some seen =>
      upd_side (pSide probe) (λ l, l ++ [mkObservation (pLocal probe) (pRemote probe) seen]) out
    | _, _ => out
    end) ([], []) (merge_sort Z.le (elements (dom reports))).

Definition window (templates : list Probe) (e : engine E) :
    list Observation * list Observation * option search_error * engine E :=
  match templates with
  | [] => (([], []), None, e)
  | _ =>
    let '(sent, reports, err, e) :=
      window_loop (Z.to_nat (Repeats (limits e))) templates ∅ ∅ e in
    (window_observations sent reports, err, e)
  end.

Definition try (candidates : list AddrPort * list AddrPort) (e : engine E) :=
  let '(probes, tried) := try_probes candidates e in
  window probes (set_tried tried e).

(** * Evidence *)

(** [e.peers[side].Store]; Run has checked that it is not nil. *)
Definition store_of (e : engine E) (side : Side) : Store :=
  match peStore (at_side (peers e) side) with
  | Some p => default [] (heap e !! p)
  | None => []
  end.
Definition set_store (side : Side) (s : Store) (e : engine E) : engine E :=
  match peStore (at_side (peers e) side) with
  | Some p => set_heap (<[p := s]> (heap e)) e
  | None => e
  end.

Definition ingest_one (side : Side) (e : engine E) (o : Observation) : engine E :=
  let '(s, new) := Store_Add (store_of e side) o in
  let e := set_store side s e in
  if new then set_stats inc_NewObservations e else e.
Definition ingest (observations : list Observation * list Observation) (e : engine E) : engine E :=
  foldl (λ e side, foldl (ingest_one side) e (at_side observations side)) e sides.

Definition match_one (ps : Peer * Peer) (bs : list Observation) (a : Observation) : option Path :=
  if bool_decide (oLocal a = peLocal ps.1) then
    match list_find (λ b, oLocal b = peLocal ps.2 ∧ oRemote a = oSeen b ∧ oRemote b = oSeen a) bs with
    | Some (_, b) => Some (mkPath (oLocal a) (oLocal b) (oSeen a) (oSeen b))
    | None => None
    end
  else None.
Fixpoint matchedPath (as_ bs : list Observation) (ps : Peer * Peer) : option Path :=
  match as_ with
  | [] => None
  | a :: as_ => match match_one ps bs a with Some p => Some p | None => matchedPath as_ bs ps end
  end.

(** * Measuring *)

(** The steps of one group; [entered] says whether the branch is counted. *)
Fixpoint observe_steps (side : Side) (bootstrap entered : bool) (steps : list Measurement)
    (e : engine E) : option search_error * engine E :=
  match steps with
  | [] => (None, e)
  | step :: steps =>
    if bool_decide (step ∈ at_side (measured e) side) then
      observe_steps side bootstrap entered steps e
    else if lMeasurements (limits e) <=? Measurements (stats e) then (Some errBudget, e)
    else
      let e := if entered then e else set_stats (inc_Branches bootstrap) e in
      let e := set_measured (upd_side side (λ m, {[step]} ∪ m) (measured e)) e in
      let e := set_stats inc_Measurements e in
      let '(err, e) := open side (mLocal step) e in
      match err with
      | Some err => (Some err, e)
      | None =>
        let '(observations, err, e) :=
          window [mkProbe 0 side (mLocal step) (mRemote step)] e in
        let e := ingest observations e in
        match err with
        | Some err => (Some err, e)
        | None => observe_steps side bootstrap true steps e
        end
      end
  end.

Fixpoint observe (side : Side) (groups : list MeasurementGroup) (e : engine E) :
    option search_error * engine E :=
  match groups with
  | [] => (None, e)
  | group :: groups =>
    let before := NewObservations (stats e) in
    let '(err, e) := observe_steps side (gBootstrap group) false (gSteps group) e in
    match err with
    | Some err => (Some err, e)
    | None =>
      if before <? NewObservations (stats e) then (None, e) else observe side groups e
    end
  end.

(** * Run *)

(** How the loop of [Run] is left. *)
Inductive outcome :=
  | Returned (path : option Path) (reason : string)   (* return inside the loop *)
  | Left (err : option search_error).                 (* break, or the budget of iterations *)

Definition predict (side : Side) (e : engine E) : Prediction :=
  let peer := at_side (peers e) side in
  Infer (store_of e side)
    (mkSurvey (peLocal peer) (peTarget peer) (pePublicIPs peer) (peObservers peer) false).

(** One pass: [inl] leaves the loop, [inr] goes on. *)
Definition Run_iteration (e : engine E) : (outcome + unit) * engine E :=
  let '(err, e) := check e in
  match err with
  | Some err => (inl (Left (Some err)), e)
  | None =>
    let e := set_stats inc_Iterations e in
    let before := NewObservations (stats e) in
    let predA := predict A e in
    let '(candA, e) := selectCandidates predA e in
    let predB := predict B e in
    let '(candB, e) := selectCandidates predB e in
    let '(observations, err, e) := try (candA, candB) e in
    let e := ingest observations e in
    match err with
    | Some err => (inl (Left (Some err)), e)
    | None =>
      match matchedPath observations.1 observations.2 (peers e) with
      | Some path => (inl (Returned (Some path) "connected"), e)
      | None =>
        if before <? NewObservations (stats e) then (inr tt, e)
        else
          let '(err, e) := observe A (Plan predA) e in
          match err with
          | Some err => (inl (Left (Some err)), e)
          | None =>
            let '(err, e) := observe B (Plan predB) e in
            match err with
            | Some err => (inl (Left (Some err)), e)
            | None =>
              if NewObservations (stats e) =? before
              then (inl (Returned None "no-progress"), e) else (inr tt, e)
            end
          end
      end
    end
  end.

(** [for e.stats.Iterations < limits.MaxIterations]: every pass counts one
    iteration, so the difference bounds the passes. *)
Fixpoint Run_loop (fuel : nat) (e : engine E) : outcome * engine E :=
  match fuel with
  | O => (Left None, e)
  | S fuel =>
    if Iterations (stats e) <? MaxIterations (limits e) then
      let '(r, e) := Run_iteration e in
      match r with
      | inl o => (o, e)
      | inr _ => Run_loop fuel e
      end
    else (Left None, e)
  end.

(** The deferred release; the errors of Close are joined to [errs]. *)
Definition release_one (keep : bool) (acc : list search_error * engine E) (r : socket) :=
  let '(errs, e) := acc in
  if keep && bool_decide (r.2 = peLocal (at_side (peers e) r.1)) then acc
  else
    let '(err, e) := call (net_Close network r.1 r.2) e in
    (errs ++ option_list err, set_store r.1 (ForgetLocal (store_of e r.1) r.2) e).
Definition release (keep : bool) (errs : list search_error) (e : engine E) :=
  foldl (release_one keep) (errs, e) (opened e).

Definition is_ctx_error (e : search_error) : bool :=
  match e with errCanceled | errDeadline => true | _ => false end.

(** The two Opens before the loop. *)
Fixpoint open_primaries (ss : list Side) (e : engine E) : option search_error * engine E :=
  match ss with
  | [] => (None, e)
  | side :: ss =>
    let '(err, e) := open side (peLocal (at_side (peers e) side)) e in
    match err with Some err => (Some err, e) | None => open_primaries ss e end
  end.

Definition valid_config (a b : Peer) (l : Limits) : bool :=
  negb (negb (bool_decide (is_Some (peStore a))) || negb (bool_decide (is_Some (peStore b))) ||
    bool_decide (peStore a = peStore b) ||
    negb (validEndpoint (peLocal a)) || negb (validEndpoint (peLocal b)) ||
    negb (validEndpoint (peTarget a)) || negb (validEndpoint (peTarget b)) ||
    negb (eqb (Is4 (AddrPort_Addr (peLocal a))) (Is4 (AddrPort_Addr (peLocal b)))) ||
    negb (eqb (Is4 (AddrPort_Addr (peLocal a))) (Is4 (AddrPort_Addr (peTarget a)))) ||
    negb (eqb (Is4 (AddrPort_Addr (peLocal b))) (Is4 (AddrPort_Addr (peTarget b)))) ||
    (Timeout l <=? 0) || (Interval l <=? 0) || (lPackets l <=? 0) || (lMeasurements l <=? 0) ||
    (lCandidates l <=? 0) || (lPairs l <=? 0) || (Repeats l <=? 0) || (MaxIterations l <=? 0)).

(** The body of [Run] up to the deferred release: path, reason and error. *)
Definition Run_body (e : engine E) : option Path * string * list search_error * engine E :=
  let '(err, e) := open_primaries sides e in
  match err with
  | Some err => (None, if is_ctx_error err then "cancelled" else "resource-error", [err], e)
  | None =>
    let '(o, e) := Run_loop (Z.to_nat (MaxIterations (limits e))) e in
    match o with
    | Returned path reason => (path, reason, [], e)
    | Left None | Left (Some errBudget) => (None, "budget-exhausted", [], e)
    | Left (Some err) =>
      (None, if is_ctx_error err then "cancelled" else "execution-error", [err], e)
    end
  end.

(** The context with the timeout is part of the environment. *)
Definition Run (a b : Peer) (l : Limits) (h : gmap nat Store) (x : E) :
    Result * list search_error * (gmap nat Store * E) :=
  if negb (valid_config a b l) then
    (mkResult None "" Stats_zero, [errOther "invalid discovery configuration"], (h, x))
  else
    let '(now, x) := net_Now network x in
    let e := mkEngine (a, b) l (now + Timeout l) Stats_zero 0 [] ∅ (∅, ∅) h x in
    let '(path, reason, errs, e) := Run_body e in
    let '(errs, e) := release (bool_decide (is_Some path)) errs e in
    (mkResult path reason (stats e), errs, (heap e, env e)).
End Engine.
