(* ===== verification/SearchProps.v ===== *)
(** What the candidate search guarantees: the selection of candidates, the
    budgets, the release of sockets and the soundness of a reported path.  The
    guarantees about calls of the network are stated on the trace that
    [logged] records around an arbitrary network. *)

From S2P Require Import Prelude Netip Inference Search.
From stdpp Require Import gmap sorting.
Open Scope Z_scope.
Open Scope velvet_scope.

(** * Selecting candidates *)

(** The endpoints of a range, and of a batch. *)
Definition range_endpoints (r : EndpointRange) : list AddrPort :=
  if Count r =? 0 then []
  else map (λ port, AddrPortFrom (rAddr r) (u16 port)) (seqZ (rFirst r) (rLast r - rFirst r + 1)).
Definition batch_endpoints (b : CandidateBatch) : list AddrPort := Ranges b ≫= range_endpoints.

Lemma Count_nonneg r : 0 <= Count r.
Proof. unfold Count. destruct (_ || _) eqn:E; [lia|]. bool_to_prop. lia. Qed.

Lemma len_range_endpoints r : len (range_endpoints r) = Count r.
Proof.
  unfold range_endpoints. destruct (Count r =? 0) eqn:E; bool_to_prop; [by rewrite E|].
  unfold len. rewrite length_map, length_seqZ. unfold Count in *.
  destruct (_ || _) eqn:C; [done|]. bool_to_prop. lia.
Qed.

(** The counting loop stops early but decides the same. *)
Lemma count_ranges_spec limit rs count :
  0 <= count <= limit →
  (limit <? count_ranges limit count rs) = (limit <? count + len (rs ≫= range_endpoints)).
Proof.
  revert count. induction rs as [|r rs IH]; intros count H; cbn [count_ranges mbind list_bind].
  - unfold len. cbn. f_equal. lia.
  - unfold len in *. rewrite length_app, Nat2Z.inj_add.
    pose proof (Count_nonneg r). pose proof (len_range_endpoints r) as L. unfold len in L.
    destruct (limit <? count + Count r) eqn:E; bool_to_prop.
    + transitivity true; [by apply Z.ltb_lt|]. symmetry. apply Z.ltb_lt. lia.
    + rewrite IH by lia. f_equal. lia.
Qed.

Definition small (limit : Z) (b : CandidateBatch) : Prop := len (batch_endpoints b) <= limit.
#[global] Instance small_dec limit b : Decision (small limit b).
Proof. unfold small. apply _. Defined.

(** The endpoints offered to the selection, in order. *)
Definition offered (limit : Z) (bs : list CandidateBatch) : list AddrPort :=
  filter (small limit) bs ≫= batch_endpoints.

Lemma select_ranges limit rs acc :
  foldl (select_range limit) acc rs =
  foldl (select_endpoint limit) acc (rs ≫= range_endpoints).
Proof.
  revert acc. induction rs as [|r rs IH]; intros acc; cbn [foldl mbind list_bind]; [done|].
  rewrite foldl_app, IH. f_equal. unfold select_range, range_endpoints. by destruct (Count r =? 0).
Qed.

Lemma select_batches limit bs selected seen rejected :
  0 <= limit →
  foldl (select_batch limit) (selected, seen, rejected) bs =
  (foldl (select_endpoint limit) (selected, seen) (offered limit bs),
   rejected + len (filter (λ b, ¬ small limit b) bs)).
Proof.
  intros L. revert selected seen rejected. induction bs as [|b bs IH]; intros selected seen rejected.
  - cbn. by rewrite Z.add_0_r.
  - cbn [foldl]. unfold select_batch at 2. rewrite count_ranges_spec, Z.add_0_l by lia.
    unfold offered in *. rewrite !filter_cons. fold (batch_endpoints b).
    destruct (limit <? len (batch_endpoints b)) eqn:C; bool_to_prop.
    + rewrite IH. rewrite decide_False, decide_True by (unfold small; lia). f_equal.
      unfold len. cbn [length]. lia.
    + rewrite select_ranges. fold (batch_endpoints b).
      destruct (foldl (select_endpoint limit) (selected, seen) (batch_endpoints b)) as [sel se] eqn:F.
      rewrite IH. rewrite decide_True, decide_False by (unfold small; lia).
      cbn [mbind list_bind]. rewrite foldl_app, F. done.
Qed.

Lemma select_endpoints_spec limit eps selected seen :
  0 <= limit → NoDup selected → (∀ ep, ep ∈ seen ↔ ep ∈ selected) → len selected <= limit →
  let '(selected', seen') := foldl (select_endpoint limit) (selected, seen) eps in
  NoDup selected' ∧ len selected' <= limit ∧ selected `prefix_of` selected' ∧
  (∀ ep, ep ∈ selected' → ep ∈ selected ∨ ep ∈ eps) ∧
  (∀ ep, ep ∈ eps → ep ∈ selected' ∨ len selected' = limit) ∧
  (∀ i, len selected + Z.of_nat i <= limit → ∀ ep, ep ∈ take i eps → ep ∈ selected').
Proof.
  intros L. revert selected seen. induction eps as [|ep eps IH]; intros selected seen Nd S Le.
  - cbn. split_and!; try done; [by left|by intros ? []%not_elem_of_nil|].
    intros i _ ep. by destruct i; intros []%not_elem_of_nil.
  - cbn [foldl]. unfold select_endpoint at 2.
    destruct (negb _ && _) eqn:C.
    + bool_to_prop. assert (N : ep ∉ selected) by (intros H'; by apply S in H').
      specialize (IH (selected ++ [ep]) ({[ep]} ∪ seen)).
      destruct (foldl _ _ eps) as [sel se]. destruct IH as (I1 & I2 & I3 & I4 & I5 & I6).
      * apply NoDup_app. split_and!; [done| |apply NoDup_singleton].
        intros x Hx Hx'. by apply list_elem_of_singleton in Hx' as ->.
      * intros x. rewrite elem_of_union, elem_of_singleton, elem_of_app, list_elem_of_singleton, S. tauto.
      * unfold len in *. rewrite length_app. cbn. lia.
      * assert (Hin : ep ∈ sel) by (destruct I3 as [k ->]; set_solver).
        split_and!; try done.
        -- etrans; [|exact I3]. by eexists.
        -- intros x Hx. apply I4 in Hx. set_solver.
        -- intros x [->|Hx]%elem_of_cons; [by left|by apply I5].
        -- intros i Hi x Hx. destruct i as [|i]; [by apply not_elem_of_nil in Hx|]. cbn in Hx.
           apply elem_of_cons in Hx as [->|Hx]; [done|]. apply (I6 i); [|done].
           unfold len in *. rewrite length_app. cbn. lia.
    + specialize (IH selected seen Nd S Le). destruct (foldl _ _ eps) as [sel se].
      destruct IH as (I1 & I2 & I3 & I4 & I5 & I6).
      assert (D : ep ∈ selected ∨ len selected = limit).
      { apply andb_false_iff in C as [C|C]; bool_to_prop; [left; by apply S|right; lia]. }
      split_and!; try done.
      * intros x Hx. apply I4 in Hx. set_solver.
      * intros x [->|Hx]%elem_of_cons; [|by apply I5]. destruct D as [D|D].
        -- left. destruct I3 as [k ->]. set_solver.
        -- right. destruct I3 as [k ->]. unfold len in *. rewrite length_app in *. lia.
      * intros i Hi x Hx. destruct i as [|i]; [by apply not_elem_of_nil in Hx|]. cbn in Hx.
        apply elem_of_cons in Hx as [->|Hx].
        -- destruct D as [D|D]; [destruct I3 as [k ->]; set_solver|lia].
        -- apply (I6 i); [lia|done].
Qed.

Lemma select_bounds (p : Prediction) (limit : Z) :
  0 <= limit → NoDup (CandidatesFor p limit) ∧ len (CandidatesFor p limit) <= limit.
Proof.
  intros L. unfold CandidatesFor, select_loop. rewrite select_batches by done.
  pose proof (select_endpoints_spec limit (offered limit (Candidates p)) [] ∅ L) as S.
  destruct (foldl (select_endpoint limit) _ _) as [sel se].
  destruct S as (? & ? & _); [constructor|set_solver|done|done].
Qed.

(** C27: the candidates handed to a window are pairwise different, within the
    limit, and come from batches that fit it; the first batch that fits is
    taken whole, further ones until the limit is reached, and every batch that
    does not fit is rejected and counted. *)
Theorem CandidatesFor_spec (p : Prediction) (limit : Z) :
  0 <= limit →
  let c := CandidatesFor p limit in
  NoDup c ∧ len c <= limit ∧
  (∀ ep, ep ∈ c → ∃ b, b ∈ Candidates p ∧ small limit b ∧ ep ∈ batch_endpoints b) ∧
  (∀ skipped b rest, Candidates p = skipped ++ b :: rest → Forall (λ b, ¬ small limit b) skipped →
     small limit b → ∀ ep, ep ∈ batch_endpoints b → ep ∈ c) ∧
  (∀ b ep, b ∈ Candidates p → small limit b → ep ∈ batch_endpoints b → ep ∈ c ∨ len c = limit) ∧
  ∀ E (e : engine E), lCandidates (limits e) = limit →
    (selectCandidates p e).1 = c ∧
    RejectedBatches (stats (selectCandidates p e).2) =
      RejectedBatches (stats e) + len (filter (λ b, ¬ small limit b) (Candidates p)).
Proof.
  intros L. cbn zeta. unfold CandidatesFor, selectCandidates, select_loop.
  pose proof (select_endpoints_spec limit (offered limit (Candidates p)) [] ∅ L) as S.
  assert (F : ∀ l, l = limit → foldl (select_batch l) ([], ∅, 0) (Candidates p) =
    (foldl (select_endpoint limit) ([], ∅) (offered limit (Candidates p)),
     0 + len (filter (λ b, ¬ small limit b) (Candidates p)))) by (intros l ->; by apply select_batches).
  rewrite (F limit eq_refl). destruct (foldl (select_endpoint limit) _ _) as [sel se].
  destruct S as (I1 & I2 & _ & I4 & I5 & I6); [constructor|set_solver|done|]. cbn [fst snd] in *.
  assert (O : ∀ b ep, b ∈ Candidates p → small limit b → ep ∈ batch_endpoints b →
    ep ∈ offered limit (Candidates p)).
  { intros b ep Hb Sb He. unfold offered. apply list_elem_of_bind. exists b. split; [done|].
    by apply list_elem_of_filter. }
  split_and!; try done.
  - intros ep Hep. apply I4 in Hep as [[]%not_elem_of_nil|Hep].
    unfold offered in Hep. apply list_elem_of_bind in Hep as (b & ? & [? ?]%list_elem_of_filter). eauto.
  - intros skipped b rest Hc Sk Sb ep Hep. apply (I6 (length (batch_endpoints b))); [exact Sb|].
    unfold offered. rewrite Hc, filter_app, filter_cons, decide_True by done.
    rewrite (Forall_filter_none _ skipped) by done. cbn [app mbind list_bind].
    rewrite take_app_length'; done.
  - intros b ep Hb Sb He. apply I5. by eapply O.
  - intros E e El. rewrite El, (F limit eq_refl). by split.
Qed.

Lemma CandidatesFor_spec_witness :
  CandidatesFor (Infer exSamples exInput) 32 =
    [AddrPortFrom exPublic 7000; AddrPortFrom exPublic 7100] ++
    map (AddrPortFrom exPublic) [7097; 7098; 7099; 7101; 7102; 7103; 7104; 7105; 7106; 7107; 7108] ∧
  NoDup (CandidatesFor (Infer exSamples exInput) 32).
Proof.
  split; [by vm_compute|]. apply (CandidatesFor_spec (Infer exSamples exInput) 32). lia.
Defined.

(** * The trace *)

Inductive net_event :=
  | EvOpen (s : socket)                  (* an Open that succeeded *)
  | EvClose (s : socket)
  | EvSend (p : Probe)
  | EvReports (rs : list Report).

Definition opens (log : list net_event) : list socket :=
  omap (λ ev, match ev with EvOpen s => Some s | _ => None end) log.
Definition closes (log : list net_event) : list socket :=
  omap (λ ev, match ev with EvClose s => Some s | _ => None end) log.
Definition sends (log : list net_event) : list Probe :=
  omap (λ ev, match ev with EvSend p => Some p | _ => None end) log.
Definition heard (log : list net_event) : list Report :=
  log ≫= λ ev, match ev with EvReports rs => rs | _ => [] end.

(** [N] with its calls recorded, the newest last. *)
Definition record {E T} (f : E → T * E) (ev : T → list net_event) (x : E * list net_event) :
    T * (E * list net_event) :=
  let '(r, y) := f x.1 in (r, (y, x.2 ++ ev r)).
Definition logged {E} (N : Network E) : Network (E * list net_event) :=
  mkNetwork _
    (λ s a, record (net_Open N s a) (λ r, match r with None => [EvOpen (s, a)] | _ => [] end))
    (λ s a, record (net_Close N s a) (λ _, [EvClose (s, a)]))
    (λ p, record (net_Send N p) (λ _, [EvSend p]))
    (record (net_Reports N) (λ r, match r with inr rs => [EvReports rs] | _ => [] end))
    (λ d, record (net_Wait N d) (λ _, []))
    (record (net_Now N) (λ _, []))
    (record (ctx_Err N) (λ _, [])).

Lemma opens_app l k : opens (l ++ k) = opens l ++ opens k.
Proof. apply omap_app. Qed.
Lemma closes_app l k : closes (l ++ k) = closes l ++ closes k.
Proof. apply omap_app. Qed.
Lemma sends_app l k : sends (l ++ k) = sends l ++ sends k.
Proof. apply omap_app. Qed.
Lemma sends_one p : sends [EvSend p] = [p].
Proof. done. Qed.
Lemma heard_app l k : heard (l ++ k) = heard l ++ heard k.
Proof. apply bind_app. Qed.

#[local] Arguments opens : simpl never.
#[local] Arguments closes : simpl never.
#[local] Arguments sends : simpl never.
#[local] Arguments heard : simpl never.

Section Trace.
Context {E : Type} (N : Network E).
Notation LE := (E * list net_event)%type.
Notation trace e := ((env e).2).

(** What the engine keeps true before the release. *)
Record inv (e : engine LE) : Prop := {
  inv_packets : Packets (stats e) = len (sends (trace e));
  inv_bound : Packets (stats e) <= lPackets (limits e);
  inv_width : lPackets (limits e) < 2 ^ 63;
  inv_id : nextID e = Packets (stats e);
  inv_meas : 0 <= Measurements (stats e) <= lMeasurements (limits e);
  inv_opened : opened e = opens (trace e);
  inv_nodup : NoDup (opened e);
  inv_closes : closes (trace e) = [];
  inv_sends : ∀ p, p ∈ sends (trace e) → (pSide p, pLocal p) ∈ opened e
}.

(** How one call of the engine changes it. *)
Record ext (e e' : engine LE) : Prop := {
  ext_peers : peers e' = peers e;
  ext_limits : limits e' = limits e;
  ext_iter : Iterations (stats e') = Iterations (stats e);
  ext_opened : opened e `prefix_of` opened e';
  ext_trace : trace e `prefix_of` trace e'
}.

Lemma ext_refl e : ext e e.
Proof. done. Qed.
Lemma ext_trans e1 e2 e3 : ext e1 e2 → ext e2 e3 → ext e1 e3.
Proof. intros [] []. split; try congruence; by etrans. Qed.

(** The step keeps the invariant and extends the engine. *)
Definition step (e e' : engine LE) : Prop := ext e e' ∧ (inv e → inv e').
#[local] Instance step_preorder : PreOrder step.
Proof.
  split.
  - intros e. by split.
  - intros e1 e2 e3 [X1 I1] [X2 I2]. split; [by eapply ext_trans|tauto].
Qed.

Lemma step_opened e e' s : step e e' → s ∈ opened e → s ∈ opened e'.
Proof. intros [[_ _ _ [k ->] _] _] H. apply elem_of_app. by left. Qed.

(** A call that adds no event and changes nothing else. *)
Lemma call_quiet {T} (f : E → T * E) e r e' :
  call (record f (λ _, [])) e = (r, e') →
  step e e' ∧ trace e' = trace e ∧ stats e' = stats e ∧ opened e' = opened e ∧ nextID e' = nextID e.
Proof.
  unfold call, record. destruct (env e) as [x l] eqn:Ex. cbn. destruct (f x) as [t y].
  intros [= -> <-]. cbn. rewrite app_nil_r. split_and!; try done.
  split; [by split; cbn; rewrite ?Ex; cbn|].
  intros []. split; cbn; rewrite ?Ex in *; done.
Qed.

Lemma check_step e r e' :
  check (logged N) e = (r, e') →
  step e e' ∧ trace e' = trace e ∧ stats e' = stats e ∧ opened e' = opened e ∧
  nextID e' = nextID e ∧ (r = None → Packets (stats e') < lPackets (limits e')).
Proof.
  unfold check. destruct (call (ctx_Err _) e) as [err e1] eqn:C1.
  apply call_quiet in C1 as (S1 & T1 & St1 & O1 & I1).
  destruct err as [err|]; [intros [= <- <-]; by split_and!|].
  destruct (call (net_Now _) e1) as [now e2] eqn:C2.
  apply call_quiet in C2 as (S2 & T2 & St2 & O2 & I2).
  assert (S : step e e2) by by etrans.
  destruct (_ || _) eqn:C; intros [= <- <-]; split_and!; try congruence; try done.
  intros _. bool_to_prop. lia.
Qed.

(** Updates of the fields the invariant does not speak of. *)
Lemma step_neutral e e' :
  peers e' = peers e → limits e' = limits e → opened e' = opened e → nextID e' = nextID e →
  env e' = env e → Packets (stats e') = Packets (stats e) →
  Measurements (stats e') = Measurements (stats e) → Iterations (stats e') = Iterations (stats e) →
  step e e'.
Proof.
  intros P L O I X Pk M It. split; [split; try congruence; by rewrite ?O, ?X|].
  intros []. split; rewrite ?X, ?O, ?L, ?Pk, ?M, ?I; done.
Qed.

Lemma open_step side local e r e' :
  open (logged N) side local e = (r, e') →
  step e e' ∧ (r = None → (side, local) ∈ opened e').
Proof.
  unfold open. destruct (check _ e) as [err e1] eqn:C. apply check_step in C as (S & T & _ & O & _ & _).
  destruct err; [by intros [= <- <-]|].
  case_bool_decide as M; [by intros [= <- <-]|].
  unfold call, logged, record. cbn. destruct (env e1) as [x l] eqn:Ex. cbn.
  destruct (net_Open N side local x) as [err y].
  destruct err; intros [= <- <-]; cbn.
  - split; [|done]. etrans; [exact S|]. rewrite app_nil_r.
    split; [by split; cbn; rewrite ?Ex|]. intros []. split; cbn; rewrite ?Ex in *; done.
  - split; [|intros _; apply elem_of_app; right; by left]. etrans; [exact S|]. split.
    + split; cbn; rewrite ?Ex; try done; by eexists.
    + intros []. cbn in *. rewrite Ex in *. split; cbn;
        rewrite ?opens_app, ?closes_app, ?sends_app, ?app_nil_r; try done.
      * by rewrite inv_opened0.
      * apply NoDup_app. split_and!; [done| |apply NoDup_singleton].
        intros z Hz Hz'. by apply list_elem_of_singleton in Hz' as ->.
      * intros p Hp. apply elem_of_app. left. by apply inv_sends0.
Qed.

(** The probes of a window: recorded under their number, and sent. *)
Definition sent_ok (sent : gmap Z Probe) (e : engine LE) : Prop :=
  ∀ id p, sent !! id = Some p → ID p = id ∧ id <= nextID e ∧ p ∈ sends (trace e).
Definition ready (templates : list Probe) (e : engine LE) : Prop :=
  ∀ p, p ∈ templates → (pSide p, pLocal p) ∈ opened e.

Lemma ready_step templates e e' : step e e' → ready templates e → ready templates e'.
Proof. intros S R p Hp. eapply step_opened; [done|by apply R]. Qed.

Lemma send_step probe e r e' :
  inv e → Packets (stats e) < lPackets (limits e) → (pSide probe, pLocal probe) ∈ opened e →
  let id := (nextID e + 1) mod 2 ^ 64 in
  let numbered := mkProbe id (pSide probe) (pLocal probe) (pRemote probe) in
  call (net_Send (logged N) numbered) (set_stats inc_Packets (set_nextID id e)) = (r, e') →
  id = nextID e + 1 ∧ step e e' ∧ nextID e' = id ∧ sends (trace e') = sends (trace e) ++ [numbered].
Proof.
  intros I Pk O. cbn zeta. set (id := (nextID e + 1) mod 2 ^ 64).
  assert (Eid : id = nextID e + 1).
  { unfold id. apply Z.mod_small. destruct I. unfold len in *. lia. }
  unfold call, logged, record. cbn. destruct (env e) as [x l] eqn:Ex. cbn.
  destruct (net_Send N _ x) as [err y]. intros [= <- <-]. cbn. rewrite sends_app, sends_one.
  split_and!; [done| |done..]. split; [split; cbn; rewrite ?Ex; try done; by eexists|].
  intros _. destruct I. rewrite Ex in *. cbn in *.
  split; cbn; rewrite ?opens_app, ?closes_app, ?sends_app, ?sends_one, ?app_nil_r; try done.
  all: try (unfold len in *; rewrite ?length_app; cbn; lia).
  - intros p [Hp|Hp]%elem_of_app; [by apply inv_sends0|].
    by apply list_elem_of_singleton in Hp as ->.
Qed.

Lemma window_send_step templates sent e sent' err e' :
  inv e → ready templates e → sent_ok sent e →
  window_send (logged N) templates sent e = (sent', err, e') →
  step e e' ∧ inv e' ∧ sent_ok sent' e' ∧ sent ⊆ sent'.
Proof.
  revert sent e. induction templates as [|probe templates IH]; intros sent e I R K;
    cbn [window_send]; [by intros [= <- <- <-]|].
  destruct (check _ e) as [er e1] eqn:C.
  apply check_step in C as (S & T & St & O & Id & Pk). assert (I1 : inv e1) by by apply S.
  assert (K1 : sent_ok sent e1) by (intros id p Hp; rewrite Id, T; by apply K).
  destruct er as [er|]; [by intros [= <- <- <-]|].
  destruct (call (net_Send _ _) _) as [er e2] eqn:Sd.
  apply send_step in Sd as (Eid & S2 & Id2 & Sn); [|done|by apply Pk|].
  2: { rewrite O. apply R. by left. }
  set (id := (nextID e1 + 1) mod 2 ^ 64) in *.
  set (numbered := mkProbe id _ _ _) in *.
  assert (Fresh : sent !! id = None).
  { destruct (sent !! id) as [p|] eqn:L; [|done]. apply K1 in L as (? & ? & ?). lia. }
  assert (K2 : sent_ok (<[id := numbered]> sent) e2).
  { intros j p [[<- <-]|[? L]]%lookup_insert_Some; rewrite Sn, elem_of_app, list_elem_of_singleton.
    - split_and!; [done|lia|by right].
    - apply K1 in L as (? & ? & ?). split_and!; [done|lia|by left]. }
  assert (Sub : sent ⊆ <[id := numbered]> sent) by by apply insert_subseteq.
  assert (Sa : step e e2) by by etrans.
  destruct er as [er|].
  - intros [= <- <- <-]. split_and!; try done. by apply S2.
  - intros W. apply IH in W as (S3 & I3 & K3 & Sub3); [|by apply S2| |done].
    + split_and!; try done; by etrans.
    + apply (ready_step _ e); [done|]. intros p Hp. apply R. by right.
Qed.

(** An observation is witnessed when its probe was sent from that side and
    its report heard. *)
Definition witnessed (log : list net_event) (side : Side) (o : Observation) : Prop :=
  Observation_Valid o = true ∧
  ∃ id, mkProbe id side (oLocal o) (oRemote o) ∈ sends log ∧ mkReport id (oSeen o) ∈ heard log.

Definition reports_ok (sent : gmap Z Probe) (reports : gmap Z AddrPort) (e : engine LE) : Prop :=
  ∀ id seen, reports !! id = Some seen → ∃ p, sent !! id = Some p ∧
    Observation_Valid (mkObservation (pLocal p) (pRemote p) seen) = true ∧
    mkReport id seen ∈ heard (trace e).

Lemma reports_ok_mono sent sent' reports e e' :
  sent ⊆ sent' → step e e' → reports_ok sent reports e → reports_ok sent' reports e'.
Proof.
  intros Sub [[_ _ _ _ [k T]] _] K id seen L. apply K in L as (p & L & V & H). exists p.
  split; [by eapply lookup_weaken|]. split; [done|]. rewrite T, heard_app. apply elem_of_app. by left.
Qed.

Lemma accept_reports_ok sent rs reports e :
  reports_ok sent reports e → (∀ r, r ∈ rs → r ∈ heard (trace e)) →
  reports_ok sent (foldl (accept_report sent) reports rs) e.
Proof.
  intros K H. apply foldl_inv; [done|]. intros rep r Hr K'. unfold accept_report.
  destruct (sent !! rID r) as [p|] eqn:L; [|done]. destruct (Observation_Valid _) eqn:V; [|done].
  destruct (rep !! rID r) eqn:L'; [done|].
  intros id seen [[<- <-]|[? Q]]%lookup_insert_Some; [|by apply K'].
  exists p. split_and!; [done..|]. destruct r. by apply H.
Qed.

(** Taking the reports adds them to the trace. *)
Lemma reports_step e r e' :
  call (net_Reports (logged N)) e = (r, e') →
  step e e' ∧ nextID e' = nextID e ∧ sends (trace e') = sends (trace e) ∧
  ∀ rs, r = inr rs → ∀ x, x ∈ rs → x ∈ heard (trace e').
Proof.
  unfold call, logged, record. cbn. destruct (env e) as [x l] eqn:Ex. cbn.
  destruct (net_Reports N x) as [res y]. intros [= <- <-]. cbn.
  assert (Q : ∃ ev, (match res with inl _ => [] | inr rs => [EvReports rs] end) = ev ∧
    opens ev = [] ∧ closes ev = [] ∧ sends ev = []) by (destruct res; eexists; split_and!; done).
  destruct Q as (ev & Eev & Q1 & Q2 & Q3). rewrite sends_app, Eev, Q3, app_nil_r.
  split_and!; [|done..|].
  - split; [split; cbn; rewrite ?Ex; try done; by eexists|].
    intros []. rewrite Ex in *. cbn in *. split; cbn;
      rewrite ?opens_app, ?closes_app, ?sends_app, ?Q1, ?Q2, ?Q3, ?app_nil_r; done.
  - intros rs -> z Hz. rewrite <-Eev, heard_app. apply elem_of_app. right. unfold heard.
    cbn. by rewrite app_nil_r.
Qed.

Lemma window_loop_step repeats templates sent reports e sent' reports' err e' :
  inv e → ready templates e → sent_ok sent e → reports_ok sent reports e →
  window_loop (logged N) repeats templates sent reports e = (sent', reports', err, e') →
  step e e' ∧ inv e' ∧ sent_ok sent' e' ∧ reports_ok sent' reports' e'.
Proof.
  revert sent reports e. induction repeats as [|n IH]; intros sent reports e I R K Q;
    cbn [window_loop]; [by intros [= <- <- <- <-]|].
  destruct (window_send _ _ _ _) as [[sent1 er] e1] eqn:Ws.
  apply window_send_step in Ws as (S1 & I1 & K1 & Sub); try done.
  pose proof (reports_ok_mono _ _ _ _ _ Sub S1 Q) as Q1.
  destruct er as [er|]; [by intros [= <- <- <- <-]|].
  destruct (call (net_Now _) e1) as [now e2] eqn:C2.
  apply call_quiet in C2 as (S2 & T2 & _ & _ & Id2).
  destruct (call (net_Wait _ _) e2) as [er e3] eqn:C3.
  apply call_quiet in C3 as (S3 & T3 & _ & _ & Id3).
  assert (S13 : step e1 e3) by by etrans.
  assert (S03 : step e e3) by by etrans. assert (I3 : inv e3) by by apply S03.
  assert (K3 : sent_ok sent1 e3) by (intros id p Hp; rewrite Id3, Id2, T3, T2; by apply K1).
  pose proof (reports_ok_mono _ _ _ _ _ (reflexivity sent1) S13 Q1) as Q3.
  destruct er as [er|]; [by intros [= <- <- <- <-]|].
  destruct (call (net_Now _) e3) as [now' e4] eqn:C4.
  apply call_quiet in C4 as (S4 & T4 & _ & _ & Id4).
  assert (S04 : step e e4) by by etrans. assert (I4 : inv e4) by by apply S4.
  assert (K4 : sent_ok sent1 e4) by (intros id p Hp; rewrite Id4, T4; by apply K3).
  pose proof (reports_ok_mono _ _ _ _ _ (reflexivity sent1) S4 Q3) as Q4.
  destruct (negb _); [by intros [= <- <- <- <-]|].
  destruct (call (net_Reports _) e4) as [rs e5] eqn:C5.
  apply reports_step in C5 as (S5 & Id5 & Sn5 & H5).
  assert (S05 : step e e5) by by etrans.
  assert (K5 : sent_ok sent1 e5) by (intros id p Hp; rewrite Id5, Sn5; by apply K4).
  pose proof (reports_ok_mono _ _ _ _ _ (reflexivity sent1) S5 Q4) as Q5.
  destruct rs as [er|rs]; [by intros [= <- <- <- <-]; split_and!; try done; apply S5|].
  intros W. apply IH in W as (S6 & ?); [split; [by etrans|done]|by apply S5|by eapply ready_step|done|].
  apply accept_reports_ok; [done|]. by apply H5.
Qed.

Lemma window_observations_ok sent reports e :
  sent_ok sent e → reports_ok sent reports e →
  ∀ side o, o ∈ at_side (window_observations sent reports) side → witnessed (trace e) side o.
Proof.
  intros K Q. unfold window_observations. apply foldl_inv; [by intros [] o []%not_elem_of_nil|].
  intros out id _ IH side o Ho.
  destruct (sent !! id) as [p|] eqn:L; [|by apply IH]. destruct (reports !! id) as [seen|] eqn:L'; [|by apply IH].
  assert (o ∈ at_side out side ∨ side = pSide p ∧ o = mkObservation (pLocal p) (pRemote p) seen) as [H|[-> ->]].
  { destruct (pSide p), side; cbn in *; try (by left); apply elem_of_app in Ho as [Ho|Ho]; try (by left);
      right; by apply list_elem_of_singleton in Ho. }
  - by apply IH.
  - apply Q in L' as (p' & L' & V & H). simplify_eq. split; [done|].
    apply K in L as (Eid & _ & Hs). exists id. split; [|done]. rewrite <-Eid. by destruct p.
Qed.

Lemma window_step templates e obs err e' :
  inv e → ready templates e → window (logged N) templates e = (obs, err, e') →
  step e e' ∧ ∀ side o, o ∈ at_side obs side → witnessed (trace e') side o.
Proof.
  intros I R. unfold window. destruct templates as [|p ts].
  - intros [= <- <- <-]. split; [done|]. by intros [] o []%not_elem_of_nil.
  - destruct (window_loop _ _ _ _ _ _) as [[[sent reports] er] e1] eqn:W. intros [= <- <- <-].
    apply window_loop_step in W as (S & I' & K & Q); [|done..].
    split; [done|]. by apply window_observations_ok.
Qed.

Lemma ingest_step obs e : step e (ingest obs e) ∧ trace (ingest obs e) = trace e ∧
  NewObservations (stats e) <= NewObservations (stats (ingest obs e)).
Proof.
  unfold ingest. apply (foldl_inv (λ e', step e e' ∧ trace e' = trace e ∧
    NewObservations (stats e) <= NewObservations (stats e'))); [split_and!; [done|done|lia]|].
  intros e1 side _ H1. apply foldl_inv; [done|].
  intros e2 o _ (S2 & T2 & N2). unfold ingest_one. destruct (Store_Add _ _) as [s new].
  assert (Q : ∀ s, step e2 (set_store side s e2) ∧ trace (set_store side s e2) = trace e2 ∧
    stats (set_store side s e2) = stats e2).
  { intros s'. unfold set_store. destruct (peStore _); split_and!; try done. by apply step_neutral. }
  destruct (Q s) as (S3 & T3 & St3). destruct new.
  - split_and!; cbn; [|congruence|rewrite St3; lia]. etrans; [exact S2|]. etrans; [exact S3|].
    by apply step_neutral.
  - split_and!; [by etrans|congruence|by rewrite St3].
Qed.

(** Both primary sockets are open. *)
Definition primaries (e : engine LE) : Prop :=
  ∀ side, (side, peLocal (at_side (peers e) side)) ∈ opened e.
Lemma primaries_step e e' : step e e' → primaries e → primaries e'.
Proof. intros S H side. rewrite (ext_peers _ _ (proj1 S)). eapply step_opened; [done|apply H]. Qed.

Lemma try_probes_ok candidates (e : engine LE) p :
  p ∈ (try_probes candidates e).1 → pLocal p = peLocal (at_side (peers e) (pSide p)).
Proof.
  unfold try_probes. set (locals := (_, _)).
  assert (Add : ∀ side remote ps sends, (∀ p, p ∈ ps → pLocal p = at_side locals (pSide p)) →
    ∀ p, p ∈ (try_add locals side remote (ps, sends)).1 → pLocal p = at_side locals (pSide p)).
  { intros side remote ps sn H q. unfold try_add. case_bool_decide; [apply H|]. cbn.
    intros [Hq|Hq]%elem_of_app; [by apply H|]. by apply list_elem_of_singleton in Hq as ->. }
  assert (F : ∀ l acc, (∀ p, p ∈ acc.1.1.1 → pLocal p = at_side locals (pSide p)) →
    ∀ p, p ∈ (foldl (try_pair locals (lPairs (limits e))) acc l).1.1.1 → pLocal p = at_side locals (pSide p)).
  { induction l as [|k l IH]; intros [[[ps sn] tr] n] H; [done|]. cbn [foldl]. apply IH.
    unfold try_pair. destruct (_ || _); [done|]. cbn [fst].
    destruct (try_add locals A k.2 (ps, sn)) as [ps1 sn1] eqn:T1. apply Add.
    replace ps1 with (try_add locals A k.2 (ps, sn)).1 by by rewrite T1. by apply Add. }
  intros Hp. specialize (F (flat_map (λ a, map (pair a) candidates.2) candidates.1)
    ([], (∅, ∅), tried e, 0) ltac:(by intros ? []%not_elem_of_nil) p).
  destruct (foldl _ _ _) as [[[ps sn] tr] n]. rewrite F by done. by destruct (pSide p).
Qed.

Lemma try_step candidates e obs err e' :
  inv e → primaries e → try (logged N) candidates e = (obs, err, e') →
  step e e' ∧ ∀ side o, o ∈ at_side obs side → witnessed (trace e') side o.
Proof.
  intros I P. unfold try. pose proof (try_probes_ok candidates e) as T.
  destruct (try_probes candidates e) as [probes tried']. cbn [fst] in T. intros W.
  assert (S : step e (set_tried tried' e)) by by apply step_neutral.
  apply window_step in W as [S' O]; [split; [by etrans|done]|by apply S|].
  apply (ready_step _ e); [done|]. intros p Hp. rewrite T by done. apply P.
Qed.

Lemma measure_step e :
  Measurements (stats e) < lMeasurements (limits e) → step e (set_stats inc_Measurements e).
Proof. intros M. split; [done|]. intros []. split; cbn; try done. lia. Qed.

Lemma observe_steps_step side bootstrap entered steps e err e' :
  inv e → observe_steps (logged N) side bootstrap entered steps e = (err, e') → step e e'.
Proof.
  revert entered e. induction steps as [|m steps IH]; intros entered e I; cbn [observe_steps];
    [by intros [= <- <-]|].
  case_bool_decide; [by apply IH|]. destruct (_ <=? _) eqn:M; [by intros [= <- <-]|].
  set (e1 := if entered then e else _). set (e2 := set_measured _ e1).
  assert (S2 : step e e2) by (etrans; [|by apply step_neutral]; by destruct entered, bootstrap; apply step_neutral).
  assert (S3 : step e (set_stats inc_Measurements e2)).
  { etrans; [exact S2|]. apply measure_step. bool_to_prop.
    by destruct entered, bootstrap. }
  clearbody e2. destruct (open _ _ _ _) as [er e4] eqn:O. apply open_step in O as [S4 O].
  assert (S04 : step e e4) by by etrans.
  destruct er as [er|]; [by intros [= <- <-]|].
  destruct (window _ _ _) as [[obs er] e5] eqn:W. apply window_step in W as [S5 _]; [|by apply S04|].
  2: { intros p Hp. apply list_elem_of_singleton in Hp as ->. by apply O. }
  destruct (ingest_step obs e5) as (S6 & _). assert (S06 : step e (ingest obs e5)).
  { etrans; [exact S04|]. by etrans. }
  destruct er as [er|]; [by intros [= <- <-]|].
  intros H'. etrans; [exact S06|]. eapply IH; [|exact H']. by apply S06.
Qed.

Lemma observe_step side groups e err e' :
  inv e → observe (logged N) side groups e = (err, e') → step e e'.
Proof.
  revert e. induction groups as [|g groups IH]; intros e I; cbn [observe]; [by intros [= <- <-]|].
  destruct (observe_steps _ _ _ _ _ _) as [er e1] eqn:O. apply observe_steps_step in O; [|done].
  destruct er as [er|]; [by intros [= <- <-]|].
  destruct (_ <? _); [by intros [= <- <-]|]. intros H. etrans; [exact O|].
  eapply IH; [|exact H]. by apply O.
Qed.

Lemma matchedPath_ok as_ bs ps p :
  matchedPath as_ bs ps = Some p →
  ∃ a b, a ∈ as_ ∧ b ∈ bs ∧ p = mkPath (oLocal a) (oLocal b) (oSeen a) (oSeen b) ∧
    oLocal a = peLocal ps.1 ∧ oLocal b = peLocal ps.2 ∧ oRemote a = oSeen b ∧ oRemote b = oSeen a.
Proof.
  induction as_ as [|a as_ IH]; cbn [matchedPath]; [done|].
  destruct (match_one ps bs a) as [q|] eqn:M.
  - intros [= ->]. unfold match_one in M. case_bool_decide; [|done].
    destruct (list_find _ bs) as [[i b]|] eqn:F; [|done]. simplify_eq.
    apply list_find_Some in F as (L & (? & ? & ?) & _). exists a, b.
    split_and!; try done; [by left|by eapply list_elem_of_lookup_2].
  - intros (a' & b & ? & ?)%IH. exists a', b. split; [by right|done].
Qed.

(** A path is sound when each side's probe, sent from its primary socket to the
    other's public endpoint, was seen as its own public endpoint. *)
Definition path_ok (log : list net_event) (ps : Peer * Peer) (p : Path) : Prop :=
  LocalA p = peLocal ps.1 ∧ LocalB p = peLocal ps.2 ∧
  witnessed log A (mkObservation (LocalA p) (EndpointB p) (EndpointA p)) ∧
  witnessed log B (mkObservation (LocalB p) (EndpointA p) (EndpointB p)).

(** A pass of the loop. *)
Definition pass (e e' : engine LE) : Prop :=
  inv e' ∧ peers e' = peers e ∧ limits e' = limits e ∧ opened e `prefix_of` opened e'.

Lemma step_pass e e' : inv e → step e e' → pass e e'.
Proof. intros I [[] S]. split_and!; try done. by apply S. Qed.
Lemma pass_trans e1 e2 e3 : pass e1 e2 → pass e2 e3 → pass e1 e3.
Proof. intros (? & ? & ? & ?) (? & ? & ? & ?). split_and!; try congruence. by etrans. Qed.
Lemma primaries_pass e e' : pass e e' → primaries e → primaries e'.
Proof. intros (_ & P & _ & [k O]) H side. rewrite P, O. apply elem_of_app. left. apply H. Qed.

Lemma selectCandidates_step p (e : engine LE) : step e (selectCandidates p e).2.
Proof. unfold selectCandidates. destruct (select_loop _ p) as [[? ?] ?]. by apply step_neutral. Qed.

Definition returns_ok (e' : engine LE) (o : outcome) : Prop :=
  match o with Returned (Some p) _ => path_ok (trace e') (peers e') p | _ => True end.

Lemma Run_iteration_ok e r e' :
  inv e → primaries e → Run_iteration (logged N) e = (r, e') →
  pass e e' ∧ Iterations (stats e) <= Iterations (stats e') <= Iterations (stats e) + 1 ∧
  match r with inl o => returns_ok e' o
             | inr _ => Iterations (stats e') = Iterations (stats e) + 1 end.
Proof.
  intros I P. unfold Run_iteration. destruct (check _ e) as [er e1] eqn:C.
  apply check_step in C as (S & _ & St1 & _). pose proof (proj2 S I) as I1.
  destruct er as [er|].
  { intros [= <- <-]. rewrite St1. split_and!; [by apply step_pass|lia..|done]. }
  set (e2 := set_stats inc_Iterations e1). assert (I2 : inv e2) by (by destruct I1; split).
  assert (Pa2 : pass e e2).
  { destruct S as [[] _]. split_and!; done. }
  assert (It2 : Iterations (stats e2) = Iterations (stats e) + 1) by (cbn; by rewrite St1).
  clearbody e2. clear S I1 St1 e1.
  set (predA := predict A e2). pose proof (selectCandidates_step predA e2) as S3.
  destruct (selectCandidates predA e2) as [candA e3]. cbn [snd] in S3.
  set (predB := predict B e3). pose proof (selectCandidates_step predB e3) as S4.
  destruct (selectCandidates predB e3) as [candB e4]. cbn [snd] in S4.
  assert (S24 : step e2 e4) by by etrans.
  destruct (try _ _ e4) as [[obs er] e5] eqn:T. apply try_step in T as [S5 O]; [|by apply S24|].
  2: { apply (primaries_step e2); [done|]. by apply (primaries_pass e). }
  destruct (ingest_step obs e5) as (S6 & T6 & _). set (e6 := ingest obs e5) in *.
  assert (S26 : step e2 e6) by (etrans; [exact S24|]; by etrans).
  assert (Fin : ∀ e'', step e2 e'' → pass e e'' ∧
    Iterations (stats e) <= Iterations (stats e'') <= Iterations (stats e) + 1 ∧
    Iterations (stats e'') = Iterations (stats e) + 1).
  { intros e'' S. split; [by apply (pass_trans _ e2); [|apply step_pass]|].
    rewrite (ext_iter _ _ (proj1 S)), It2. lia. }
  destruct er as [er|]; [intros [= <- <-]; destruct (Fin e6 S26) as (? & ? & ?); split_and!; done || lia|].
  destruct (matchedPath _ _ _) as [p|] eqn:M.
  { intros [= <- <-]. destruct (Fin e6 S26) as (? & ? & ?). split_and!; try (done || lia).
    apply matchedPath_ok in M as (a & b & Ha & Hb & -> & La & Lb & Ra & Rb).
    unfold returns_ok, path_ok. cbn [LocalA LocalB EndpointA EndpointB].
    split; [done|]. split; [done|]. split.
    - rewrite <-Ra, T6. specialize (O A a Ha). by destruct a.
    - rewrite <-Rb, T6. specialize (O B b Hb). by destruct b. }
  destruct (_ <? _); [intros [= <- <-]; destruct (Fin e6 S26) as (? & ? & ?); split_and!; done || lia|].
  destruct (observe _ A _ e6) as [er e7] eqn:O7. apply observe_step in O7; [|by apply S26].
  assert (S27 : step e2 e7) by by etrans.
  destruct er as [er|]; [intros [= <- <-]; destruct (Fin e7 S27) as (? & ? & ?); split_and!; done || lia|].
  destruct (observe _ B _ e7) as [er e8] eqn:O8. apply observe_step in O8; [|by apply S27].
  assert (S28 : step e2 e8) by by etrans. destruct (Fin e8 S28) as (? & ? & ?).
  destruct er as [er|]; [intros [= <- <-]; split_and!; done || lia|].
  destruct (_ =? _); intros [= <- <-]; split_and!; done || lia.
Qed.

Lemma Run_loop_ok fuel e o e' :
  inv e → primaries e → 0 <= Iterations (stats e) <= MaxIterations (limits e) →
  Run_loop (logged N) fuel e = (o, e') →
  pass e e' ∧ 0 <= Iterations (stats e') <= MaxIterations (limits e') ∧ returns_ok e' o.
Proof.
  revert e. induction fuel as [|fuel IH]; intros e I P It; cbn [Run_loop].
  { intros [= <- <-]. split_and!; [by apply step_pass|lia..|done]. }
  destruct (_ <? _) eqn:C; [|intros [= <- <-]; split_and!; [by apply step_pass|lia..|done]].
  bool_to_prop. destruct (Run_iteration _ e) as [r e1] eqn:R.
  apply Run_iteration_ok in R as (Pa & It1 & Ok_); [|done..].
  pose proof Pa as (I1 & _ & L1 & _).
  destruct r as [o1|[]].
  - intros [= <- <-]. split_and!; [done|lia|rewrite L1; lia|done].
  - intros H. apply IH in H as (Pa' & ?); [split; [by eapply pass_trans|done]|done| |rewrite L1; lia].
    by apply (primaries_pass e).
Qed.

Lemma open_primaries_step (e : engine LE) err e' :
  inv e → open_primaries (logged N) sides e = (err, e') → step e e' ∧ (err = None → primaries e').
Proof.
  intros I. cbn [open_primaries sides].
  destruct (open _ A _ e) as [er e1] eqn:O1. apply open_step in O1 as [S1 O1].
  destruct er as [er|]; [by intros [= <- <-]|].
  destruct (open _ B _ e1) as [er e2] eqn:O2. apply open_step in O2 as [S2 O2].
  assert (S : step e e2) by by etrans.
  destruct er as [er|]; intros [= <- <-]; split; [done..|]. intros _ side.
  destruct S1 as [X1 _], S2 as [X2 _]. destruct (ext_opened _ _ X2) as [k E2].
  rewrite (ext_peers _ _ X2). destruct side; cbn [at_side].
  - rewrite E2. apply elem_of_app. left. rewrite (ext_peers _ _ X1). by apply O1.
  - by apply O2.
Qed.

Lemma Run_body_ok (e : engine LE) path reason errs e' :
  inv e → Iterations (stats e) = 0 → 0 <= MaxIterations (limits e) →
  Run_body (logged N) e = (path, reason, errs, e') →
  inv e' ∧ peers e' = peers e ∧ limits e' = limits e ∧
  0 <= Iterations (stats e') <= MaxIterations (limits e') ∧
  ∀ p, path = Some p → errs = [] ∧ primaries e' ∧ path_ok (trace e') (peers e') p.
Proof.
  intros I It M. unfold Run_body. destruct (open_primaries _ _ _) as [er e1] eqn:O.
  apply open_primaries_step in O as [S P]; [|done]. pose proof (proj2 S I) as I1.
  assert (It1 : Iterations (stats e1) = 0) by (by rewrite (ext_iter _ _ (proj1 S))).
  pose proof (ext_limits _ _ (proj1 S)) as L1. pose proof (ext_peers _ _ (proj1 S)) as P1.
  destruct er as [er|].
  { intros [= <- <- <- <-]. rewrite L1, P1, It1. split_and!; done || lia. }
  specialize (P eq_refl).
  destruct (Run_loop _ _ e1) as [o e2] eqn:Lp.
  apply Run_loop_ok in Lp as (Pa & It2 & Ok_); [|done|done|rewrite L1; lia].
  pose proof (primaries_pass _ _ Pa P) as P2. destruct Pa as (I2 & Pe2 & L2 & _).
  assert (F : (path, reason, errs, e') = (None, reason, errs, e2) → inv e' ∧ peers e' = peers e ∧
    limits e' = limits e ∧ 0 <= Iterations (stats e') <= MaxIterations (limits e') ∧
    ∀ p, path = Some p → errs = [] ∧ primaries e' ∧ path_ok (trace e') (peers e') p).
  { intros [= -> ->]. split; [done|]. split; [congruence|]. split; [congruence|]. by split. }
  destruct o as [p r|[er|]].
  - intros [= <- <- <- <-]. split; [done|]. split; [congruence|]. split; [congruence|].
    split; [done|]. intros q ->. done.
  - destruct er; intros [= <- <- <- <-]; by apply F.
  - intros [= <- <- <- <-]. by apply F.
Qed.

(** * Release *)

Definition distinct_stores (ps : Peer * Peer) : Prop :=
  is_Some (peStore ps.1) ∧ is_Some (peStore ps.2) ∧ peStore ps.1 ≠ peStore ps.2.

Lemma store_of_set side side' s (e : engine LE) :
  distinct_stores (peers e) →
  store_of (set_store side s e) side' = if decide (side = side') then s else store_of e side'.
Proof.
  intros ([p1 H1] & [p2 H2] & D). unfold store_of, set_store.
  destruct side, side'; cbn [at_side] in *; rewrite ?H1, ?H2; cbn [peers set_heap heap at_side];
    rewrite ?H1, ?H2; rewrite ?lookup_insert_eq; try done;
    rewrite lookup_insert_ne by congruence; done.
Qed.

(** A socket is released unless it is a primary that the path retains. *)
Definition released (keep : bool) (ps : Peer * Peer) (s : socket) : Prop :=
  ¬ (keep = true ∧ s.2 = peLocal (at_side ps s.1)).
#[global] Instance released_dec keep ps s : Decision (released keep ps s).
Proof. unfold released. apply _. Defined.

(** What releasing [gone] leaves. *)
Definition after_release (gone : list socket) (e e' : engine LE) : Prop :=
  peers e' = peers e ∧ stats e' = stats e ∧
  closes (trace e') = closes (trace e) ++ gone ∧
  opens (trace e') = opens (trace e) ∧ sends (trace e') = sends (trace e) ∧
  heard (trace e') = heard (trace e) ∧
  ∀ side o, o ∈ store_of e' side ↔ o ∈ store_of e side ∧ (side, oLocal o) ∉ gone.

Lemma after_release_refl e : after_release [] e e.
Proof. split_and!; try done; [by rewrite app_nil_r|set_solver]. Qed.

Lemma after_release_trans g1 g2 e1 e2 e3 :
  after_release g1 e1 e2 → after_release g2 e2 e3 → after_release (g1 ++ g2) e1 e3.
Proof.
  intros (P1 & S1 & C1 & O1 & Sn1 & H1 & St1) (P2 & S2 & C2 & O2 & Sn2 & H2 & St2).
  split_and!; try congruence; [by rewrite C2, C1, app_assoc|].
  intros side o. rewrite St2, St1, not_elem_of_app. tauto.
Qed.

Lemma close_released s (e e1 : engine LE) er :
  call (net_Close (logged N) s.1 s.2) e = (er, e1) →
  peers e1 = peers e ∧ stats e1 = stats e ∧ closes (trace e1) = closes (trace e) ++ [s] ∧
  opens (trace e1) = opens (trace e) ∧ sends (trace e1) = sends (trace e) ∧
  heard (trace e1) = heard (trace e) ∧ ∀ side, store_of e1 side = store_of e side.
Proof.
  unfold call, logged, record. cbn. destruct (env e) as [x l] eqn:Ex. cbn.
  destruct (net_Close N s.1 s.2 x) as [r y]. intros [= <- <-]. cbn.
  rewrite closes_app, opens_app, sends_app, heard_app, <-surjective_pairing.
  unfold closes at 2, opens at 2, sends at 2, heard at 2. cbn. by rewrite !app_nil_r.
Qed.

Lemma release_one_ok keep s errs errs' (e e' : engine LE) :
  distinct_stores (peers e) → release_one (logged N) keep (errs, e) s = (errs', e') →
  after_release (filter (released keep (peers e)) [s]) e e'.
Proof.
  intros D. unfold release_one. rewrite filter_cons, filter_nil.
  destruct (keep && bool_decide _) eqn:Hk.
  - intros [= <- <-]. bool_to_prop. rewrite decide_False; [apply after_release_refl|].
    intros R. by apply R.
  - rewrite decide_True.
    2: { intros [-> Q]. by rewrite bool_decide_true in Hk. }
    destruct (call _ e) as [er e1] eqn:C. apply close_released in C as (Pe & St & Cl & Op & Sn & He & So).
    intros [= <- <-]. set (e2 := set_store s.1 _ e1).
    assert (Q2 : env e2 = env e1 ∧ peers e2 = peers e1 ∧ stats e2 = stats e1).
    { unfold e2, set_store. by destruct (peStore _). }
    destruct Q2 as (En2 & Pe2 & St2). unfold after_release. rewrite Pe2, St2, En2.
    split_and!; try done. intros side o.
    unfold e2. rewrite store_of_set by by rewrite Pe. rewrite list_elem_of_singleton.
    destruct s as [sd sl]. cbn [fst snd]. destruct (decide (sd = side)) as [->|Ns].
    + unfold ForgetLocal. rewrite list_elem_of_filter, !So. split.
      * intros (Hl & Ho). split; [done|]. intros [= El]. by apply Hl.
      * intros (Ho & Hg). split; [|done]. intros El. apply Hg. congruence.
    + rewrite So. split; [|tauto]. intros Ho. split; [done|]. intros [= El _]. by apply Ns.
Qed.

Lemma release_fold keep ss errs errs' (e e' : engine LE) :
  distinct_stores (peers e) →
  foldl (release_one (logged N) keep) (errs, e) ss = (errs', e') →
  after_release (filter (released keep (peers e)) ss) e e'.
Proof.
  revert errs e. induction ss as [|s ss IH]; intros errs e D; cbn [foldl].
  { intros [= <- <-]. apply after_release_refl. }
  destruct (release_one _ _ _ s) as [errs1 e1] eqn:R. apply release_one_ok in R; [|done].
  intros F. pose proof R as (Pe & _). rewrite <-Pe in D. apply IH in F; [|done]. rewrite Pe in F.
  change (s :: ss) with ([s] ++ ss). rewrite filter_app. by eapply after_release_trans.
Qed.
End Trace.

(** * The contract of Run *)

Lemma valid_config_ok a b l :
  valid_config a b l = true →
  distinct_stores (a, b) ∧
  0 < lPackets l ∧ 0 < lMeasurements l ∧ 0 < lCandidates l ∧ 0 < MaxIterations l.
Proof.
  unfold valid_config, distinct_stores. intros V. bool_to_prop. cbn [fst snd]. by split_and!.
Qed.

(** The state of [Run] before the release, and what the release does. *)
Lemma Run_traced {E} (N : Network E) a b l h x :
  valid_config a b l = true → lPackets l < 2 ^ 63 →
  let '(res, errs, (h', (x', log))) := Run (logged N) a b l h (x, []) in
  ∃ e e' : engine (E * list net_event),
    inv e ∧ peers e = (a, b) ∧ limits e = l ∧
    0 <= Iterations (stats e) <= MaxIterations l ∧
    (∀ p, res_Path res = Some p → primaries e ∧ path_ok (env e).2 (a, b) p) ∧
    after_release (filter (released (bool_decide (is_Some (res_Path res))) (a, b)) (opened e)) e e' ∧
    res_Stats res = stats e ∧ heap e' = h' ∧ (env e').2 = log.
Proof.
  intros V Wd. pose proof (valid_config_ok _ _ _ V) as (D & P1 & P2 & _ & P3).
  unfold Run. rewrite V. cbn [negb].
  destruct (net_Now (logged N) (x, [])) as [now y] eqn:Nw.
  assert (Ey : y.2 = []).
  { revert Nw. unfold logged, record. cbn. destruct (net_Now N x). by intros [= <- <-]. }
  set (e0 := mkEngine _ _ _ _ _ _ _ _ _ _).
  assert (I0 : inv e0) by (split; cbn; rewrite ?Ey; cbn; done || lia || constructor || set_solver).
  destruct (Run_body (logged N) e0) as [[[path reason] errs] e1] eqn:B.
  apply Run_body_ok in B as (I1 & Pe & Le & It & Pa); [|done|done|cbn; lia].
  cbn in Pe, Le. unfold release. destruct (foldl _ _ _) as [errs' e2] eqn:F.
  apply release_fold in F; [|by rewrite Pe].
  destruct (env e2) as [x' log] eqn:En. exists e1, e2. rewrite Pe, Le in *. cbn [res_Path res_Stats].
  pose proof F as (_ & St & _). rewrite En. split_and!; try done; try lia.
  all: intros p Hp; by destruct (Pa p Hp) as (_ & ? & ?).
Qed.

(** C21: Run stays within its budgets against any network: the packets it
    counts are the probes it sent, at most the limit; measurements and
    iterations are within their limits too. *)
Theorem Run_bounded {E} (N : Network E) a b l h x :
  valid_config a b l = true → lPackets l < 2 ^ 63 →
  let '(res, _, (_, (_, log))) := Run (logged N) a b l h (x, []) in
  Packets (res_Stats res) = len (sends log) ∧ len (sends log) <= lPackets l ∧
  0 <= Measurements (res_Stats res) <= lMeasurements l ∧
  0 <= Iterations (res_Stats res) <= MaxIterations l.
Proof.
  intros V W. pose proof (Run_traced N a b l h x V W) as R.
  destruct (Run _ _ _ _ _ _) as [[res errs] [h' [x' log]]].
  destruct R as (e & e' & I & Pe & Le & It & _ & (_ & _ & _ & _ & Sn & _) & St & _ & Lg).
  rewrite Lg in Sn. rewrite Sn, St. destruct I. rewrite Le in *. split_and!; lia.
Qed.

(** C20: every socket Run opened is opened once and, unless it is the primary
    of a returned path, closed exactly once, in the order of opening; probes
    leave only from sockets that were opened; and no store keeps a sample of a
    closed socket. *)
Theorem Run_releases {E} (N : Network E) a b l h x :
  valid_config a b l = true → lPackets l < 2 ^ 63 →
  let '(res, _, (h', (_, log))) := Run (logged N) a b l h (x, []) in
  NoDup (opens log) ∧
  closes log = filter (released (bool_decide (is_Some (res_Path res))) (a, b)) (opens log) ∧
  (∀ p, p ∈ sends log → (pSide p, pLocal p) ∈ opens log) ∧
  ∀ side s p, s ∈ closes log → s.1 = side → peStore (at_side (a, b) side) = Some p →
    ∀ o, o ∈ default [] (h' !! p) → oLocal o ≠ s.2.
Proof.
  intros V W. pose proof (Run_traced N a b l h x V W) as R.
  destruct (Run _ _ _ _ _ _) as [[res errs] [h' [x' log]]].
  destruct R as (e & e' & I & Pe & Le & _ & _ & (P' & _ & Cl & Op & Sn & _ & So) & _ & Hh & Lg).
  rewrite Lg in *. rewrite Op, Sn, Cl. destruct I. rewrite inv_closes0, <-inv_opened0.
  split_and!; try done. intros side [sd sl] p Hs Es Hp o Ho. cbn in *. subst sd h'.
  intros El. specialize (So side o). unfold store_of at 1 in So. rewrite P', Pe, Hp in So.
  apply So in Ho as [_ Ng]. apply Ng. by rewrite El.
Qed.

(** C19: a path that Run returns is real: it joins the two primary sockets,
    which stay open, and in this run each side sent a probe from its primary
    socket to the other's public endpoint that was reported as seen from its
    own public endpoint. *)
Theorem Run_path_sound {E} (N : Network E) a b l h x p :
  valid_config a b l = true → lPackets l < 2 ^ 63 →
  let '(res, _, (_, (_, log))) := Run (logged N) a b l h (x, []) in
  res_Path res = Some p →
  path_ok log (a, b) p ∧
  (∀ side, (side, peLocal (at_side (a, b) side)) ∈ opens log ∧
           (side, peLocal (at_side (a, b) side)) ∉ closes log).
Proof.
  intros V W. pose proof (Run_traced N a b l h x V W) as R.
  destruct (Run _ _ _ _ _ _) as [[res errs] [h' [x' log]]].
  destruct R as (e & e' & I & Pe & Le & _ & Pa & (_ & _ & Cl & Op & Sn & He & _) & _ & _ & Lg).
  intros Hp. destruct (Pa p Hp) as [Pr (L1 & L2 & W1 & W2)]. rewrite Lg in *.
  unfold path_ok, witnessed in *. rewrite Op, Sn, Cl, He. split; [exact (conj L1 (conj L2 (conj W1 W2)))|].
  destruct I. rewrite inv_closes0, <-inv_opened0. intros side. split.
  - specialize (Pr side). by rewrite Pe in Pr.
  - rewrite Hp. cbn [app]. rewrite list_elem_of_filter. intros [R _]. by apply R.
Qed.

(** * An example: both sides behind port-preserving NATs. *)

(** The network remembers the probes of the window and reports each as seen
    from the side's public address; its clock is the number of waits. *)
Definition exNet : Network (Z * list Probe) :=
  let seen p := AddrPortFrom (match pSide p with A => exPublic | B => Addr4 0xcb007106 end)
                  (Port (pLocal p)) in
  mkNetwork _
    (λ _ _ x, (None, x)) (λ _ _ x, (None, x)) (λ p x, (None, (x.1, p :: x.2)))
    (λ x, (inr (map (λ p, mkReport (ID p) (seen p)) x.2), (x.1, [])))
    (λ d x, (None, (x.1 + d, x.2))) (λ x, (x.1, x)) (λ x, (None, x)).

Definition exPeerA : Peer :=
  mkPeer (exLocal 7000) (AddrPortFrom (Addr4 0xcb007106) 8000) [exPublic] [] (Some 0%nat).
Definition exPeerB : Peer :=
  mkPeer (AddrPortFrom (Addr4 0x0a010001) 8000) (AddrPortFrom exPublic 7000) [Addr4 0xcb007106] [] (Some 1%nat).
Definition exPath : Path :=
  mkPath (exLocal 7000) (AddrPortFrom (Addr4 0x0a010001) 8000)
    (AddrPortFrom exPublic 7000) (AddrPortFrom (Addr4 0xcb007106) 8000).
Notation exRun := (Run (logged exNet) exPeerA exPeerB DefaultLimits ∅ ((0, []), [])).

Lemma exRun_connected : res_Path exRun.1.1 = Some exPath ∧ Reason exRun.1.1 = "connected"%string.
Proof. by vm_compute. Qed.

Lemma Run_bounded_witness :
  let '(res, _, (_, (_, log))) := exRun in Packets (res_Stats res) = len (sends log).
Proof.
  pose proof (Run_bounded exNet exPeerA exPeerB DefaultLimits ∅ (0, []) eq_refl eq_refl) as R.
  destruct (Run _ _ _ _ _ _) as [[res errs] [h' [x' log]]]. apply R.
Defined.

Lemma Run_releases_witness : let '(_, _, (_, (_, log))) := exRun in NoDup (opens log).
Proof.
  pose proof (Run_releases exNet exPeerA exPeerB DefaultLimits ∅ (0, []) eq_refl eq_refl) as R.
  destruct (Run _ _ _ _ _ _) as [[res errs] [h' [x' log]]]. apply R.
Defined.

Lemma Run_path_sound_witness :
  let '(_, _, (_, (_, log))) := exRun in path_ok log (exPeerA, exPeerB) exPath.
Proof.
  pose proof (Run_path_sound exNet exPeerA exPeerB DefaultLimits ∅ (0, []) exPath eq_refl eq_refl) as R.
  pose proof exRun_connected as [C _].
  destruct (Run _ _ _ _ _ _) as [[res errs] [h' [x' log]]]. by apply R.
Defined.
