(* ===== verification/PeerSearch.v ===== *)
(** internal/linkdiscovery/peer.go: one node's search.  [PeerNetwork] is a
    record of calls on an environment, as in Search.v; [slices.SortFunc], which
    is not stable, is known by its contract only. *)

From S2P Require Import Prelude Netip Inference Search SearchProps.
From stdpp Require Import gmap sorting.
Open Scope Z_scope.
Open Scope velvet_scope.

(** * Data *)

Record Arrival := mkArrival { Destination : AddrPort; Source : AddrPort }.
Record Batch := mkPeerBatch { Endpoints : list AddrPort; Changed : bool }.

Record PeerNetwork (E : Type) := mkPeerNetwork {
  Exchange : Z → Batch → E → (error + Batch) * E;
  Try : Z → list AddrPort → E → (error + list Observation * list Arrival) * E;
  Agree : Z → list AddrPort → E → (error + list AddrPort) * E;
  Observe : SurveyInput → list Observation → E → (error + list Observation) * E
}.
Arguments Exchange {E}. Arguments Try {E}. Arguments Agree {E}. Arguments Observe {E}.

Record PeerResult := mkPeerResult {
  pr_Local : AddrPort; pr_Endpoint : AddrPort; pr_Seen : AddrPort;
  Rounds : Z; Observations : Z; pr_Reason : string }.

(** * slices.SortFunc *)

(** The contract: a permutation, ascending when [cmp] orders its arguments. *)
Class SortFunc := {
  sort : ∀ {A : Type}, (A → A → Z) → list A → list A;
  sort_perm : ∀ {A} (cmp : A → A → Z) l, sort cmp l ≡ₚ l;
  sort_sorted : ∀ {A} (cmp : A → A → Z) l,
    (∀ x y, cmp x y <= 0 ∨ cmp y x <= 0) →
    (∀ x y z, cmp x y <= 0 → cmp y z <= 0 → cmp x z <= 0) →
    StronglySorted (λ x y, cmp x y <= 0) (sort cmp l)
}.

Lemma sort_insert_sorted {A} (cmp : A → A → Z) x l :
  (∀ x y, cmp x y <= 0 ∨ cmp y x <= 0) →
  (∀ x y z, cmp x y <= 0 → cmp y z <= 0 → cmp x z <= 0) →
  StronglySorted (λ x y, cmp x y <= 0) l →
  StronglySorted (λ x y, cmp x y <= 0) (sort_insert cmp x l).
Proof.
  intros T Tr. induction 1 as [|y l S IH F]; cbn [sort_insert].
  - by repeat constructor.
  - destruct (cmp x y <=? 0) eqn:C; bool_to_prop.
    + constructor; [by constructor|]. constructor; [done|].
      eapply Forall_impl; [exact F|]. cbn. intros z. by apply Tr.
    + constructor; [done|]. rewrite sort_insert_perm. constructor; [|done].
      destruct (T x y); [lia|done].
Qed.

(** Insertion sort meets the contract (Go uses it on short slices). *)
#[global] Program Instance insertion_SortFunc : SortFunc := { sort := @SortStableFunc }.
Next Obligation. intros A cmp l. apply SortStableFunc_perm. Qed.
Next Obligation.
  intros A cmp l T Tr. induction l as [|x l IH]; [constructor|]. by apply sort_insert_sorted.
Qed.

(** * The search *)

(** The reciprocal observations of one window. *)
Definition reciprocal_paths (observations : list Observation) (arrivals : list Arrival)
    (local : AddrPort) : list (AddrPort * AddrPort) :=
  flat_map (λ o,
    if negb (bool_decide (oLocal o = local)) then []
    else flat_map (λ a,
      if bool_decide (oSeen o = Destination a) && bool_decide (oRemote o = Source a)
      then [(oSeen o, oRemote o)] else []) arrivals) observations.

(** The closure [key]: the texts of both endpoints in order. *)
Definition path_key (p : AddrPort * AddrPort) : string :=
  let a := AddrPort_String p.1 in
  let b := AddrPort_String p.2 in
  let '(a, b) := if string_ltb b a then (b, a) else (a, b) in
  (a ++ "/" ++ b)%string.

Definition path_cmp (a b : AddrPort * AddrPort) : Z :=
  if string_ltb (path_key a) (path_key b) then -1
  else if string_ltb (path_key b) (path_key a) then 1 else 0.

Section Peer.
Context `{SortFunc}.

Definition reciprocal (observations : list Observation) (arrivals : list Arrival)
    (local : AddrPort) : list AddrPort :=
  match sort path_cmp (reciprocal_paths observations arrivals local) with
  | [] => []
  | p :: _ => [p.1; p.2]
  end.

(** Both sides chose the same pair of endpoints. *)
Definition agreed (path other : list AddrPort) : bool :=
  match path, other with
  | [p0; p1], [o0; o1] => bool_decide (p0 = o1) && bool_decide (p1 = o0)
  | _, _ => false
  end.

(** Adding samples to the store, counting the new ones. *)
Definition add_all (acc : Store * Z) (observations : list Observation) : Store * Z :=
  foldl (λ acc o, let '(s, new) := Store_Add acc.1 o in
    (s, if new : bool then acc.2 + 1 else acc.2)) acc observations.

(** What the loop carries: the store, the count of new samples, [changed] and
    the environment. *)
Context {E : Type} (n : PeerNetwork E) (p : Peer) (limits : Limits).

Definition peer_input : SurveyInput :=
  mkSurvey (peLocal p) (peTarget p) (pePublicIPs p) (peObservers p) false.

(** The result while the search is not decided. *)
Definition undecided (round observations : Z) (reason : string) : PeerResult :=
  mkPeerResult AddrPort_zero AddrPort_zero AddrPort_zero round observations reason.

(** One round: [inl] returns, [inr] is the state of the next round. *)
Definition RunPeer_round (round : Z) (store : Store) (count : Z) (changed : bool) (x : E) :
    (PeerResult * option error + Z * bool) * Store * E :=
  let prediction := Infer store peer_input in
  let '(batch, x) := Exchange n round
    (mkPeerBatch (CandidatesFor prediction (lCandidates limits)) changed) x in
  match batch with
  | inl err => (inl (undecided round count "", Some err), store, x)
  | inr batch =>
    if lCandidates limits <? len (Endpoints batch) then
      (inl (undecided round count "", Some (errors_New "peer candidate budget exceeded")), store, x)
    else if negb changed && negb (Changed batch) then
      (inl (undecided round count "no-progress", None), store, x)
    else
      let before := len store in
      let '(tried, x) := Try n round (Endpoints batch) x in
      match tried with
      | inl err => (inl (undecided round count "", Some err), store, x)
      | inr (observations, arrivals) =>
        let '(store, count) := add_all (store, count) observations in
        let path := reciprocal observations arrivals (peLocal p) in
        let '(other, x) := Agree n round path x in
        match other with
        | inl err => (inl (undecided round count "", Some err), store, x)
        | inr other =>
          if agreed path other then
            match path with
            | [seen; endpoint] =>
              (inl (mkPeerResult (peLocal p) endpoint seen round count "connected", None), store, x)
            | _ => (inl (undecided round count "", None), store, x)   (* excluded by agreed *)
            end
          else if len store =? before then
            let '(observed, x) := Observe n peer_input store x in
            match observed with
            | inl err => (inl (undecided round count "", Some err), store, x)
            | inr observations =>
              let '(store, count) := add_all (store, count) observations in
              (inr (count, before <? len store), store, x)
            end
          else (inr (count, before <? len store), store, x)
        end
      end
  end.

(** [for round := 1; round <= MaxIterations; round++]. *)
Fixpoint RunPeer_loop (fuel : nat) (round : Z) (store : Store) (count : Z) (changed : bool) (x : E) :
    PeerResult * option error * Store * E :=
  match fuel with
  | O => (undecided (round - 1) count "budget-exhausted", None, store, x)
  | S fuel =>
    let '(r, store, x) := RunPeer_round round store count changed x in
    match r with
    | inl (out, err) => (out, err, store, x)
    | inr (count, changed) => RunPeer_loop fuel (round + 1) store count changed x
    end
  end.

Definition valid_peer_config : bool :=
  negb (negb (bool_decide (is_Some (peStore p))) || negb (validEndpoint (peLocal p)) ||
    negb (validEndpoint (peTarget p)) || (MaxIterations limits <? 1) || (16 <? MaxIterations limits) ||
    (Timeout limits <=? 0) || (lCandidates limits <? 1) || (32 <? lCandidates limits)).

(** The store behind [p.Store] is passed and returned. *)
Definition RunPeer (store : Store) (x : E) : PeerResult * option error * Store * E :=
  if negb valid_peer_config then
    (undecided 0 0 "", Some (errors_New "invalid peer discovery configuration"), store, x)
  else RunPeer_loop (Z.to_nat (MaxIterations limits)) 1 store 0 true x.
End Peer.

(** * Agreement *)

Lemma path_cmp_total p q : path_cmp p q <= 0 ∨ path_cmp q p <= 0.
Proof.
  unfold path_cmp. destruct (string_ltb (path_key p) (path_key q)) eqn:C1; [left; lia|].
  destruct (string_ltb (path_key q) (path_key p)) eqn:C2; [right|left]; lia.
Qed.

Lemma path_cmp_le p q : path_cmp p q <= 0 ↔ string_ltb (path_key q) (path_key p) = false.
Proof.
  unfold path_cmp. destruct (string_ltb (path_key p) (path_key q)) eqn:C1.
  - apply string_ltb_antisym in C1. rewrite C1. split; [done|lia].
  - destruct (string_ltb (path_key q) (path_key p)); [split; [lia|done]|split; [done|lia]].
Qed.

Lemma path_cmp_trans p q r : path_cmp p q <= 0 → path_cmp q r <= 0 → path_cmp p r <= 0.
Proof.
  rewrite !path_cmp_le. intros H1 H2. destruct (string_ltb (path_key r) (path_key p)) eqn:C; [|done].
  destruct (string_ltb (path_key p) (path_key q)) eqn:C1.
  - rewrite (string_ltb_trans _ _ _ C C1) in H2. done.
  - pose proof (string_ltb_total _ _ C1 H1) as E. by rewrite E, H2 in C.
Qed.

Definition swap (p : AddrPort * AddrPort) : AddrPort * AddrPort := (p.2, p.1).

Lemma path_key_swap p : path_key (swap p) = path_key p.
Proof.
  unfold path_key, swap. cbn. set (a := AddrPort_String p.1). set (b := AddrPort_String p.2).
  destruct (string_ltb a b) eqn:C1.
  - by rewrite (string_ltb_antisym _ _ C1).
  - destruct (string_ltb b a) eqn:C2; [done|]. by rewrite (string_ltb_total _ _ C1 C2).
Qed.

(** What [sort] puts first is a path of least key. *)
Lemma reciprocal_head `{SortFunc} paths p rest :
  sort path_cmp paths = p :: rest →
  p ∈ paths ∧ ∀ q, q ∈ paths → string_ltb (path_key q) (path_key p) = false.
Proof.
  intros E. pose proof (sort_perm path_cmp paths) as P.
  pose proof (sort_sorted path_cmp paths path_cmp_total path_cmp_trans) as S. rewrite E in *.
  split; [rewrite <-P; by left|]. intros q. rewrite <-P. intros [->|Hq]%elem_of_cons.
  - unfold string_ltb. by rewrite string_compare_refl.
  - apply StronglySorted_inv in S as [_ F]. rewrite Forall_forall in F.
    apply path_cmp_le. by apply F.
Qed.

(** C22: two nodes whose windows recorded mirrored paths - [(x, y)] at one exactly
    when [(y, x)] at the other, in whatever order - and among whose paths a sort
    key names one path only, choose the same one: the pair one node proposes is
    the other's reversed, so both see agreement; there is a choice exactly when
    there is a path.  The condition on the keys is needed: [path_key] orders
    unordered pairs of endpoints, so [(x, y)] and [(y, x)], both recorded at one
    node, tie, and [sort.Slice] (any function [SortFunc] that returns a sorted
    permutation) may put either first at either node. *)
Theorem reciprocal_agree `{SortFunc} obsA arrA localA obsB arrB localB :
  let pathsA := reciprocal_paths obsA arrA localA in
  let pathsB := reciprocal_paths obsB arrB localB in
  (∀ p, p ∈ pathsA ↔ swap p ∈ pathsB) →
  (∀ p q, p ∈ pathsA → q ∈ pathsA → path_key p = path_key q → p = q) →
  let chosenA := reciprocal obsA arrA localA in
  let chosenB := reciprocal obsB arrB localB in
  chosenB = rev chosenA ∧
  (chosenA = [] ↔ pathsA = []) ∧
  (pathsA ≠ [] → agreed chosenA chosenB = true ∧ agreed chosenB chosenA = true).
Proof.
  cbn zeta. intros Mirror Inj. unfold reciprocal.
  pose proof (sort_perm path_cmp (reciprocal_paths obsA arrA localA)) as PA.
  pose proof (sort_perm path_cmp (reciprocal_paths obsB arrB localB)) as PB.
  set (pathsA := reciprocal_paths obsA arrA localA) in *.
  set (pathsB := reciprocal_paths obsB arrB localB) in *.
  destruct (sort path_cmp pathsA) as [|p rest] eqn:EA.
  - apply Permutation_nil in PA. rewrite PA in *.
    assert (pathsB = []) as EB0.
    { destruct pathsB as [|q qs]; [done|]. assert (Hq : swap q ∈ ([] : list (AddrPort * AddrPort))).
      { apply Mirror. destruct q. by left. }
      by apply not_elem_of_nil in Hq. }
    rewrite EB0 in *. apply Permutation_sym, Permutation_nil in PB. by rewrite PB.
  - apply reciprocal_head in EA as [Hp Mp].
    destruct (sort path_cmp pathsB) as [|q rest'] eqn:EB.
    { apply Permutation_nil in PB. apply Mirror in Hp. rewrite PB in Hp. by apply not_elem_of_nil in Hp. }
    apply reciprocal_head in EB as [Hq Mq].
    assert (Hq' : swap q ∈ pathsA) by (apply Mirror; by destruct q).
    assert (swap q = p) as <-.
    { apply Inj; [done|done|]. symmetry. apply string_ltb_total.
      - rewrite path_key_swap. specialize (Mq (swap p)). rewrite path_key_swap in Mq.
        apply Mq. by apply Mirror.
      - by apply Mp. }
    cbn. split; [done|]. split.
    + split; [done|]. intros En. rewrite En in Hp. by apply not_elem_of_nil in Hp.
    + intros _. by rewrite !bool_decide_true.
Qed.

Lemma reciprocal_agree_witness :
  let o1 := exSample 7000 1 in
  let o2 := exSample 7000 2 in
  let arr := map (λ o, mkArrival (oSeen o) (oRemote o)) [o1; o2] in
  let back := map (λ o, mkObservation (exObserver 0) (oSeen o) (oRemote o)) [o2; o1] in
  reciprocal back (map (λ o, mkArrival (oRemote o) (oSeen o)) [o1; o2]) (exObserver 0) =
    rev (reciprocal [o1; o2] arr (exLocal 7000)).
Proof.
  cbn zeta. apply reciprocal_agree.
  - intros p. unfold reciprocal_paths, swap. vm_compute. split; intros Hp;
      repeat (apply elem_of_cons in Hp as [Hp|Hp]; [destruct p; simplify_eq; set_solver|]);
      by apply not_elem_of_nil in Hp.
  - intros p q Hp Hq.
    assert (L : reciprocal_paths [exSample 7000 1; exSample 7000 2]
      (map (λ o, mkArrival (oSeen o) (oRemote o)) [exSample 7000 1; exSample 7000 2]) (exLocal 7000) =
      [(AddrPortFrom exPublic 7100, exObserver 1); (AddrPortFrom exPublic 7100, exObserver 2)]) by done.
    rewrite L in Hp, Hq. clear L.
    repeat (apply elem_of_cons in Hp as [Hp|Hp]); repeat (apply elem_of_cons in Hq as [Hq|Hq]);
      try (by apply not_elem_of_nil in Hp); try (by apply not_elem_of_nil in Hq); subst; intros Ek; vm_compute in Ek; congruence.
Defined.

(** * The trace of one node *)

Inductive peer_event :=
  | PExchange (round : Z) (ours : Batch) (theirs : option Batch)
  | PTry (round : Z) (endpoints : list AddrPort)
         (seen : option (list Observation * list Arrival))
  | PAgree (round : Z) (ours : list AddrPort) (theirs : option (list AddrPort))
  | PObserve (seen : option (list Observation)).

Definition ok {T} (r : error + T) : option T := match r with inl _ => None | inr t => Some t end.
Definition peer_record {E T} (f : E → (error + T) * E) (ev : option T → peer_event)
    (x : E * list peer_event) : (error + T) * (E * list peer_event) :=
  let '(r, y) := f x.1 in (r, (y, x.2 ++ [ev (ok r)])).
Definition peer_logged {E} (n : PeerNetwork E) : PeerNetwork (E * list peer_event) :=
  mkPeerNetwork _
    (λ r b, peer_record (Exchange n r b) (PExchange r b))
    (λ r eps, peer_record (Try n r eps) (PTry r eps))
    (λ r path, peer_record (Agree n r path) (PAgree r path))
    (λ i s, peer_record (Observe n i s) PObserve).

Definition exchanges (log : list peer_event) : list (Z * Batch) :=
  omap (λ ev, match ev with PExchange r b _ => Some (r, b) | _ => None end) log.

Lemma add_all_spec s c l :
  let '(s', c') := add_all (s, c) l in
  s `prefix_of` s' ∧ c' - c = len s' - len s ∧ (NoDup s → NoDup s') ∧ (∀ o, o ∈ s' → o ∈ s ∨ o ∈ l).
Proof.
  unfold add_all. revert s c. induction l as [|o l IH]; intros s c; cbn [foldl].
  { split_and!; [done|lia|done|by left]. }
  cbn [fst snd]. unfold Store_Add. destruct (negb _ || _) eqn:V.
  - specialize (IH s c). destruct (foldl _ _ l) as [s' c']. destruct IH as (P & C & D & M).
    split_and!; try done. intros x Hx. apply M in Hx. set_solver.
  - specialize (IH (s ++ [o]) (c + 1)). destruct (foldl _ _ l) as [s' c'].
    destruct IH as (P & C & D & M). bool_to_prop. split_and!.
    + etrans; [|exact P]. by eexists.
    + unfold len in *. rewrite length_app in C. cbn in C. lia.
    + intros Nd. apply D, NoDup_app. split_and!; [done| |apply NoDup_singleton].
      intros x Hx Hx'. by apply list_elem_of_singleton in Hx' as ->.
    + intros x Hx. apply M in Hx. set_solver.
Qed.

Section PeerTrace.
Context `{SortFunc} {E : Type} (n : PeerNetwork E) (p : Peer) (limits : Limits).

(** What a finished search owes to the trace. *)
Definition connected (log : list peer_event) (out : PeerResult) : Prop :=
  pr_Local out = peLocal p ∧
  PAgree (Rounds out) [pr_Seen out; pr_Endpoint out] (Some [pr_Endpoint out; pr_Seen out]) ∈ log ∧
  ∃ endpoints observations arrivals o a,
    PTry (Rounds out) endpoints (Some (observations, arrivals)) ∈ log ∧
    o ∈ observations ∧ a ∈ arrivals ∧ oLocal o = peLocal p ∧
    oSeen o = pr_Seen out ∧ oRemote o = pr_Endpoint out ∧
    Destination a = pr_Seen out ∧ Source a = pr_Endpoint out.

Definition verdict (log : list peer_event) (out : PeerResult) (err : option error) : Prop :=
  match err with
  | Some _ => pr_Reason out = ""%string
  | None =>
    (pr_Reason out = "connected"%string ∧ connected log out) ∨
    (pr_Reason out = "no-progress"%string ∧
     ∃ ours theirs, PExchange (Rounds out) ours (Some theirs) ∈ log ∧
       Changed ours = false ∧ Changed theirs = false) ∨
    (pr_Reason out = "budget-exhausted"%string ∧ Rounds out = MaxIterations limits)
  end.

(** The events of a round: one exchange, of a batch within the limit. *)
Definition round_log (round : Z) (changed : bool) (log log' : list peer_event) : Prop :=
  ∃ evs ours, log' = log ++ evs ∧ exchanges evs = [(round, ours)] ∧ Changed ours = changed ∧
    NoDup (Endpoints ours) ∧ len (Endpoints ours) <= lCandidates limits ∧
    ∀ r eps s, PTry r eps s ∈ evs → r = round ∧ len eps <= lCandidates limits.

Lemma agreed_ok path other : agreed path other = true → ∃ a b, path = [a; b] ∧ other = [b; a].
Proof.
  destruct path as [|a [|b [|]]]; try done; destruct other as [|c [|d [|]]]; try done; cbn;
    rewrite ?andb_false_r; try done. intros A. bool_to_prop. subst. by exists d, c.
Qed.

Lemma reciprocal_member obs arr local a b :
  reciprocal obs arr local = [a; b] →
  ∃ o x, o ∈ obs ∧ x ∈ arr ∧ oLocal o = local ∧ oSeen o = a ∧ oRemote o = b ∧
    Destination x = a ∧ Source x = b.
Proof.
  unfold reciprocal. destruct (sort _ _) as [|q rest] eqn:S; [done|]. intros [= <- <-].
  apply reciprocal_head in S as [Hq _]. unfold reciprocal_paths in Hq.
  apply list_elem_of_In, in_flat_map in Hq as (o & Ho & Hq).
  case_bool_decide as L; cbn [negb] in Hq; [|done].
  apply in_flat_map in Hq as (x & Hx & Hq).
  destruct (_ && _) eqn:C; [|done]. bool_to_prop. destruct Hq as [<-|[]].
  exists o, x. rewrite !list_elem_of_In. by split_and!.
Qed.

Lemma peer_record_ok {T} (f : E → (error + T) * E) ev x log r z :
  peer_record f ev (x, log) = (r, z) → ∃ y, z = (y, log ++ [ev (ok r)]).
Proof. unfold peer_record. cbn. destruct (f x) as [t y]. intros [= <- <-]. by exists y. Qed.

(** The batch a node sends. *)
Lemma own_batch store changed :
  0 <= lCandidates limits →
  let b := mkPeerBatch (CandidatesFor (Infer store (peer_input p)) (lCandidates limits)) changed in
  Changed b = changed ∧ NoDup (Endpoints b) ∧ len (Endpoints b) <= lCandidates limits.
Proof.
  intros L. cbn. destruct (select_bounds (Infer store (peer_input p)) _ L) as (? & ?). done.
Qed.

Definition round_result (round count : Z) (store store' : Store) (log' : list peer_event)
    (r : PeerResult * option error + Z * bool) : Prop :=
  match r with
  | inl (out, err) => Rounds out = round ∧ Observations out - count = len store' - len store ∧
      verdict log' out err
  | inr (count', changed') => count' - count = len store' - len store ∧
      changed' = (len store <? len store')
  end.

Lemma RunPeer_round_ok round store count changed x log r store' x' log' :
  0 <= lCandidates limits →
  RunPeer_round (peer_logged n) p limits round store count changed (x, log) = (r, store', (x', log')) →
  round_log round changed log log' ∧ store `prefix_of` store' ∧ (NoDup store → NoDup store') ∧
  round_result round count store store' log' r.
Proof.
  intros L. unfold RunPeer_round. pose proof (own_batch store changed L) as B. cbn zeta in B.
  set (ours := mkPeerBatch _ _) in *. destruct B as (B1 & B2 & B3).
  cbn [Exchange peer_logged Try Agree Observe].
  assert (Log : ∀ evs, exchanges evs = [(round, ours)] →
    (∀ r eps s, PTry r eps s ∈ evs → r = round ∧ len eps <= lCandidates limits) →
    round_log round changed log (log ++ evs)) by (intros evs ? ?; exists evs, ours; split_and!; done || (cbn; lia)).
  destruct (peer_record _ _ _) as [batch z] eqn:Ex. apply peer_record_ok in Ex as (y & ->).
  destruct batch as [err|theirs]; cbn [ok].
  { intros [= <- <- <- <-]; cbn [round_result]. split_and!; [apply Log; [done|]|done|done|done|cbn; lia|done].
    intros ??? Hev. apply list_elem_of_singleton in Hev. done. }
  destruct (_ <? _) eqn:C1.
  { intros [= <- <- <- <-]; cbn [round_result]. split_and!; [apply Log; [done|]|done|done|done|cbn; lia|done].
    intros ??? Hev. apply list_elem_of_singleton in Hev. done. }
  destruct (negb changed && _) eqn:C2.
  { intros [= <- <- <- <-]; cbn [round_result]. bool_to_prop. split_and!; [apply Log; [done|]|done|done|done|cbn; lia|].
    - intros ??? Hev. apply list_elem_of_singleton in Hev. done.
    - right. left. split; [done|]. exists ours, theirs. split_and!; [|congruence|done].
      apply elem_of_app. right. by left. }
  bool_to_prop. destruct (peer_record _ _ _) as [tried z] eqn:Tr. apply peer_record_ok in Tr as (y2 & ->).
  set (e1 := PExchange _ _ _). set (e2 := PTry _ _ _).
  assert (Log2 : ∀ evs, (∀ e, e ∈ evs → match e with PExchange _ _ _ | PTry _ _ _ => False | _ => True end) →
    round_log round changed log (((log ++ [e1]) ++ [e2]) ++ evs)).
  { intros evs He. rewrite <-!app_assoc. apply Log.
    - cbn. f_equal. induction evs as [|e evs IH]; [done|]. cbn.
      pose proof (He e ltac:(by left)). destruct e; try done; apply IH; intros; apply He; by right.
    - intros r0 eps s [Hev|[Hev|Hev]%elem_of_cons]%elem_of_cons; [done| |by apply He in Hev].
      by injection Hev as -> -> ->. }
  destruct tried as [err|[obs arr]]; cbn [ok] in *.
  { intros [= <- <- <- <-]; cbn [round_result]. split_and!; [|done|done|done|cbn; lia|done].
    rewrite <-(app_nil_r (_ ++ [e2])). apply Log2. by intros ? []%not_elem_of_nil. }
  pose proof (add_all_spec store count obs) as A1.
  destruct (add_all _ obs) as [store1 count1]. destruct A1 as (P1 & N1 & D1 & _).
  set (path := reciprocal _ _ _). destruct (peer_record _ _ _) as [other z] eqn:Ag.
  apply peer_record_ok in Ag as (y3 & ->). set (e3 := PAgree _ _ _).
  assert (Log3 : ∀ evs, (∀ e, e ∈ evs → match e with PExchange _ _ _ | PTry _ _ _ => False | _ => True end) →
    round_log round changed log ((((log ++ [e1]) ++ [e2]) ++ [e3]) ++ evs)).
  { intros evs He. rewrite <-(app_assoc (_ ++ [e2])). apply Log2.
    intros e [->|?]%elem_of_cons; [done|by apply He]. }
  assert (Log3' := Log3 [] ltac:(by intros ? []%not_elem_of_nil)). rewrite app_nil_r in Log3'.
  destruct other as [err|other]; [intros [= <- <- <- <-]; cbn [round_result]; split_and!; done || (cbn; lia)|]. cbn [ok] in *.
  destruct (agreed path other) eqn:Agd.
  { apply agreed_ok in Agd as (a & b & Ep & ->). rewrite Ep.
    intros [= <- <- <- <-]; cbn [round_result]. split; [done|]. split; [done|]. split; [done|]. split; [done|].
    split; [cbn; lia|]. left. split; [done|]. split; [done|]. cbn. split.
    - apply elem_of_app. right. subst e3. rewrite Ep. by left.
    - apply reciprocal_member in Ep as (o & w & ? & ? & ? & ? & ? & ? & ?).
      exists (Endpoints theirs), obs, arr, o, w. split_and!; try done.
      apply elem_of_app. left. apply elem_of_app. right. by left. }
  destruct (len store1 =? len store) eqn:Same.
  - destruct (peer_record _ _ _) as [observed z] eqn:Ob. apply peer_record_ok in Ob as (y4 & ->).
    assert (Log4 := Log3 [PObserve (ok observed)] ltac:(intros e ->%list_elem_of_singleton; done)).
    destruct observed as [err|obs2]; [intros [= <- <- <- <-]; cbn [round_result]; split_and!; done || (cbn; lia)|].
    pose proof (add_all_spec store1 count1 obs2) as A2.
    destruct (add_all _ obs2) as [store2 count2]. destruct A2 as (P2 & N2 & D2 & _).
    intros [= <- <- <- <-]; cbn [round_result]. split_and!; [done|by etrans|tauto|lia|done].
  - intros [= <- <- <- <-]; cbn [round_result]. split_and!; done || (cbn; lia).
Qed.
End PeerTrace.

Lemma exchanges_app l k : exchanges (l ++ k) = exchanges l ++ exchanges k.
Proof. apply omap_app. Qed.

Section PeerRun.
Context `{SortFunc} {E : Type} (n : PeerNetwork E) (p : Peer) (limits : Limits).

Definition bounded_batch (b : Batch) : Prop :=
  NoDup (Endpoints b) ∧ len (Endpoints b) <= lCandidates limits.
Definition tries_bounded (log : list peer_event) : Prop :=
  ∀ r eps s, PTry r eps s ∈ log → len eps <= lCandidates limits.

(** The trace of the rounds from [round] on. *)
Definition rounds_log (round : Z) (out : PeerResult) (log log' : list peer_event) : Prop :=
  ∃ ex, exchanges log' = exchanges log ++ ex ∧
    map fst ex = seqZ round (Rounds out - round + 1) ∧ Forall (λ e, bounded_batch e.2) ex ∧
    (tries_bounded log → tries_bounded log').

Lemma RunPeer_loop_ok fuel round store count changed x log out err store' x' log' :
  0 <= lCandidates limits → 1 <= round → Z.of_nat fuel + round = MaxIterations limits + 1 →
  RunPeer_loop (peer_logged n) p limits fuel round store count changed (x, log) =
    (out, err, store', (x', log')) →
  rounds_log round out log log' ∧ round - 1 <= Rounds out ∧ Rounds out <= MaxIterations limits ∧
  (fuel ≠ O → round <= Rounds out) ∧
  store `prefix_of` store' ∧ (NoDup store → NoDup store') ∧
  Observations out - count = len store' - len store ∧ verdict p limits log' out err.
Proof.
  intros L. revert round store count changed x log. induction fuel as [|fuel IH];
    intros round store count changed x log R F; cbn [RunPeer_loop].
  { intros [= <- <- <- <- <-]. cbn. split_and!; try done; try lia; [|].
    - exists []. rewrite app_nil_r. cbn. replace (round - 1 - round + 1) with 0 by lia.
      by split_and!.
    - right. right. split; [done|]. cbn. lia. }
  destruct (RunPeer_round _ _ _ _ _ _ _ _) as [[r store1] [x1 log1]] eqn:Rd.
  apply RunPeer_round_ok in Rd as ((evs & ours & -> & Ex & _ & Nd & Le & Tr) & P & D & Rr); [|done].
  assert (T : tries_bounded log → tries_bounded (log ++ evs)).
  { intros T r0 eps s [Hr|Hr]%elem_of_app; [by eapply T|]. by eapply Tr. }
  destruct r as [[out1 err1]|[count1 changed1]].
  - intros [= <- <- <- <- <-]. destruct Rr as (Er & Ob & V). rewrite Er.
    split_and!; try done; try lia. exists [(round, ours)]. rewrite exchanges_app, Ex, Er.
    replace (round - round + 1) with 1 by lia. split_and!; try done. by repeat constructor.
  - destruct Rr as [Ob _]. intros Lp. apply IH in Lp as (Lg & R1 & R2 & _ & P' & D' & Ob' & V); [|lia|lia].
    split_and!; try done; try lia; [|by etrans|tauto].
    destruct Lg as (ex & Ex' & Ms & Fa & T'). exists ((round, ours) :: ex).
    rewrite Ex', exchanges_app, Ex, <-app_assoc. split_and!; [done| |by constructor|tauto].
    cbn [map fst]. rewrite Ms. rewrite (seqZ_cons round) by lia. f_equal. f_equal; lia.
Qed.

Lemma RunPeer_ok store x out err store' x' log :
  valid_peer_config p limits = true →
  RunPeer (peer_logged n) p limits store (x, []) = (out, err, store', (x', log)) →
  rounds_log 1 out [] log ∧ 1 <= Rounds out ∧ Rounds out <= MaxIterations limits ∧
  MaxIterations limits <= 16 ∧ store `prefix_of` store' ∧ (NoDup store → NoDup store') ∧
  Observations out = len store' - len store ∧ verdict p limits log out err.
Proof.
  intros V. unfold RunPeer. rewrite V. cbn [negb]. unfold valid_peer_config in V. bool_to_prop.
  intros R. apply RunPeer_loop_ok in R as (? & ? & ? & ? & ? & ? & ? & ?); [|lia..].
  assert (1 <= Rounds out) by (match goal with H : _ → 1 <= _ |- _ => apply H; lia end).
  split_and!; done || lia.
Qed.
End PeerRun.

(** C23: a node's search returns "connected" only when its own window showed the
    path - a sample from its socket and an arrival that mirror each other - and
    the peer chose the same pair reversed; "no-progress" only when neither node
    had new evidence; "budget-exhausted" only after the last round; and any
    failed call ends it with that error and no verdict. *)
Theorem RunPeer_verdict `{SortFunc} {E} (n : PeerNetwork E) p limits store x :
  valid_peer_config p limits = true →
  let '(out, err, _, (_, log)) := RunPeer (peer_logged n) p limits store (x, []) in
  verdict p limits log out err.
Proof.
  intros V. destruct (RunPeer _ _ _ _ _) as [[[out err] store'] [x' log]] eqn:R.
  apply RunPeer_ok in R; [|done]. apply R.
Qed.

(** C24: the search of a node ends within its sixteen rounds, numbered from one
    without gaps, sends and tries at most the candidate limit in each, never
    drops a sample, and counts exactly the new ones. *)
Theorem RunPeer_bounded `{SortFunc} {E} (n : PeerNetwork E) p limits store x :
  valid_peer_config p limits = true →
  let '(out, _, store', (_, log)) := RunPeer (peer_logged n) p limits store (x, []) in
  1 <= Rounds out ∧ Rounds out <= MaxIterations limits ∧ MaxIterations limits <= 16 ∧
  map fst (exchanges log) = seqZ 1 (Rounds out) ∧
  Forall (λ e, bounded_batch limits e.2) (exchanges log) ∧ tries_bounded limits log ∧
  store `prefix_of` store' ∧ (NoDup store → NoDup store') ∧
  Observations out = len store' - len store.
Proof.
  intros V. destruct (RunPeer _ _ _ _ _) as [[[out err] store'] [x' log]] eqn:R.
  apply RunPeer_ok in R as ((ex & -> & Ms & Fa & T) & ? & ? & ? & ? & ? & ? & _); [|done].
  cbn [exchanges app omap list_omap] in *. replace (Rounds out - 1 + 1) with (Rounds out) in Ms by lia.
  split_and!; try done. apply T. by intros ??? []%not_elem_of_nil.
Qed.

(** A control channel to a peer that sees the mirror image of our path. *)
Definition exPeerNet : PeerNetwork unit :=
  mkPeerNetwork _
    (λ _ b x, (inr (mkPeerBatch [AddrPortFrom (Addr4 0xcb007106) 8000] true), x))
    (λ _ eps x, (inr (map (λ r, mkObservation (exLocal 7000) r (AddrPortFrom exPublic 7000)) eps,
                      map (λ r, mkArrival (AddrPortFrom exPublic 7000) r) eps), x))
    (λ _ path x, (inr (rev path), x)) (λ _ _ x, (inr [], x)).
Notation exPeerRun := (RunPeer (peer_logged exPeerNet) exPeerA DefaultLimits [] (tt, [])).

Lemma RunPeer_verdict_witness :
  pr_Reason exPeerRun.1.1.1 = "connected"%string ∧
  let '(out, err, _, (_, log)) := exPeerRun in verdict exPeerA DefaultLimits log out err.
Proof. split; [by vm_compute|]. exact (RunPeer_verdict exPeerNet exPeerA DefaultLimits [] tt eq_refl). Defined.

Lemma RunPeer_bounded_witness :
  let '(out, _, _, (_, log)) := exPeerRun in Rounds out <= MaxIterations DefaultLimits.
Proof.
  pose proof (RunPeer_bounded exPeerNet exPeerA DefaultLimits [] tt eq_refl) as R.
  destruct exPeerRun as [[[out err] store'] [x' log]]. apply R.
Defined.
