(* ===== verification/Ports.v ===== *)
(** UDP port reservation: the port choices of internal/spec/ports.go and the
    lease pool of internal/runtime/ports.go.  A lease is an identity (a pointer
    in the code, a number here); the caller's bind function is a call on an
    environment; [rand.IntN] is an argument, in range by its contract. *)

From S2P Require Import Prelude Netip.
From stdpp Require Import gmap.
Open Scope Z_scope.
Open Scope velvet_scope.

(** * Choices (spec/ports.go) *)

Record PortRange := mkPortRange { First : Z; Last : Z }.
#[global] Instance PortRange_eq_dec : EqDecision PortRange.
Proof. solve_decision. Defined.
Definition PortRange_zero : PortRange := mkPortRange 0 0.

Record PortChoice := mkPortChoice { pc_Port : Z; Range : PortRange }.
Definition PortChoice_zero : PortChoice := mkPortChoice 0 PortRange_zero.

(** [ListenPorts] is a pointer to a choice. *)
Definition ListenPorts : Type := option PortChoice.
Definition Choice (p : ListenPorts) : PortChoice := default PortChoice_zero p.

Definition ListenPorts_Validate (p : ListenPorts) : result unit :=
  let choice := Choice p in
  if (pc_Port choice <? 0) || (65535 <? pc_Port choice) then
    Err (errors_New "listen_ports must be between 0 and 65535")
  else if negb (bool_decide (Range choice = PortRange_zero)) &&
    (negb (pc_Port choice =? 0) || (First (Range choice) <? 1) || (65535 <? Last (Range choice)) ||
     (Last (Range choice) <? First (Range choice))) then
    Err (errors_New "listen_ports range requires 1 <= first <= last <= 65535")
  else Ok tt.

Definition validateVFPPort (p : PortChoice) (vfpPort : Z) : result unit :=
  if (pc_Port p =? vfpPort) || ((First (Range p) =? vfpPort) && (Last (Range p) =? vfpPort)) then
    Err (errors_New "WireGuard port choice must leave a port other than fabric.vfp_port")
  else Ok tt.

Record DurableSpec := mkDurableSpec { ds_SoftLimit : option Z; StableSeconds : option Z }.
Record DurableSettings := mkDurableSettings { SoftLimit : Z; Stable : Z }.

Definition DurableSpec_Validate (d : DurableSpec) : result unit :=
  if default false ((λ v, (v <? 0) || (128 <? v)) <$> ds_SoftLimit d) then
    Err (errors_New "durable.soft_limit must be between 0 and 128")
  else if default false ((λ v, (v <? 1) || (86400 * 365 <? v)) <$> StableSeconds d) then
    Err (errors_New "durable.stable_seconds must be between 1 and 31536000")
  else Ok tt.

(** Durations in nanoseconds; the argument is [d.Durable] when both are set. *)
Definition EffectiveDurable (d : option DurableSpec) : DurableSettings :=
  match d with
  | None => mkDurableSettings 2 (30 * 60 * 1000000000)
  | Some d =>
    mkDurableSettings (default 2 (ds_SoftLimit d))
      (default (30 * 60 * 1000000000) ((λ s, s * 1000000000) <$> StableSeconds d))
  end.

(** * The pool (runtime/ports.go) *)

Record portLease := mkLease { lease_id : nat; lease_port : Z }.
#[global] Instance portLease_eq_dec : EqDecision portLease.
Proof. solve_decision. Defined.

(** [next] stands for the allocator of lease identities. *)
Record portPool := mkPool { leases : gmap Z portLease; vfpPort : Z; next_lease : nat }.

(** A nil lease is released without effect. *)
Definition lease_release (l : option portLease) (p : portPool) : portPool :=
  match l with
  | None => p
  | Some l =>
    if bool_decide (leases p !! lease_port l = Some l)
    then mkPool (delete (lease_port l) (leases p)) (vfpPort p) (next_lease p) else p
  end.

Inductive bind_error :=
  | Reserved (port : Z)            (* the port is reserved for VFP *)
  | Refused (err : error)          (* bind failed *)
  | Taken.                         (* allocated port reserved by another Link *)

Inductive bind_result :=
  | Bound (l : portLease)
  | InvalidPort                                (* invalid allocated UDP port *)
  | Unavailable (last : option bind_error)     (* reservation exhausted, and the last error *)
  | BindPanic.                                 (* rand.IntN of a range that is not one *)

(** The ports to try, in order; [start] is [rand.IntN(n)]. *)
Definition bind_candidates (choice : PortChoice) (sticky start : Z) : option (list Z) :=
  let '(mkPortRange first last) := Range choice in
  if negb (first =? 0) then
    let n := last - first + 1 in
    if n <=? 0 then None
    else Some ((if (first <=? sticky) && (sticky <=? last) then [sticky] else []) ++
      filter (λ port, port ≠ sticky) (map (λ i, first + (start + i) mod n) (seqZ 0 n)))
  else if negb (pc_Port choice =? 0) then Some [pc_Port choice]
  else Some ((if negb (sticky =? 0) then [sticky] else []) ++ replicate 16 0).

Section Bind.
Context {E : Type} (bind : Z → E → (error + Z) * E).

Fixpoint bind_loop (candidates : list Z) (last : option bind_error) (p : portPool) (x : E) :
    bind_result * portPool * E :=
  match candidates with
  | [] => (Unavailable last, p, x)
  | port :: candidates =>
    if negb (port =? 0) && (port =? vfpPort p) then
      bind_loop candidates (Some (Reserved port)) p x
    else if bool_decide (is_Some (leases p !! port)) then bind_loop candidates last p x
    else
      let '(r, x) := bind port x in
      match r with
      | inl err => bind_loop candidates (Some (Refused err)) p x
      | inr actual =>
        if (negb (port =? 0) && negb (actual =? port)) || (actual <? 1) || (65535 <? actual)
        then (InvalidPort, p, x)
        else if actual =? vfpPort p then bind_loop candidates (Some (Reserved actual)) p x
        else if bool_decide (is_Some (leases p !! actual)) then
          bind_loop candidates (Some Taken) p x
        else
          let lease := mkLease (next_lease p) actual in
          (Bound lease, mkPool (<[actual := lease]> (leases p)) (vfpPort p) (S (next_lease p)), x)
      end
    end.

Definition portPool_bind (choice : PortChoice) (sticky start : Z) (p : portPool) (x : E) :
    bind_result * portPool * E :=
  match bind_candidates choice sticky start with
  | None => (BindPanic, p, x)
  | Some candidates => bind_loop candidates None p x
  end.
End Bind.

(** * Probe sockets *)

(** A leased probe socket: [handed] once its lease has passed to a Link. *)
Record leasedProbe := mkLeasedProbe { lp_lease : portLease; handed : bool }.

(** Close releases the lease unless it was handed over; the socket itself is
    closed in both cases. *)
Definition leasedProbe_Close (s : leasedProbe) (p : portPool) : portPool :=
  if handed s then p else lease_release (Some (lp_lease s)) p.
Definition handoff (s : leasedProbe) : leasedProbe := mkLeasedProbe (lp_lease s) true.

Section Probe.
Context {E S : Type}.
Context (listenProbe : AddrPort → E → (error + S) * E) (Close : S → E → E) (endpoint_port : S → Z).

(** The function [reserveProbe] binds with; [socket] is its captured variable. *)
Definition probe_bind (addr : Addr) (port : Z) (x : option S * E) : (error + Z) * (option S * E) :=
  let '(socket, x) := x in
  let x := match socket with Some s => Close s x | None => x end in
  let '(r, x) := listenProbe (AddrPortFrom addr (port mod 65536)) x in
  match r with
  | inl err => (inl err, (None, x))
  | inr candidate => (inr (endpoint_port candidate), (Some candidate, x))
  end.

(** The choice narrowed to a requested port. *)
Definition narrow (endpoint : AddrPort) (choice : PortChoice) : result PortChoice :=
  if Port endpoint =? 0 then Ok choice
  else
    let port := Port endpoint in
    if negb (First (Range choice) =? 0) &&
       ((port <? First (Range choice)) || (Last (Range choice) <? port)) then
      Err (errors_New "probe port outside configured range")
    else if negb (pc_Port choice =? 0) && negb (pc_Port choice =? port) then
      Err (errors_New "probe port differs from fixed port")
    else Ok (mkPortChoice port PortRange_zero).

Definition reserveProbe (endpoint : AddrPort) (choice : PortChoice) (start : Z)
    (p : portPool) (x : E) : result (S * leasedProbe) * portPool * E :=
  match narrow endpoint choice with
  | Err e => (Err e, p, x)
  | Panic => (Panic, p, x)
  | Ok choice =>
    let '(r, p, (socket, x)) :=
      portPool_bind (probe_bind (AddrPort_Addr endpoint)) choice 0 start p (None, x) in
    let close x := match socket with Some s => Close s x | None => x end in
    match r, socket with
    | Bound lease, Some s => (Ok (s, mkLeasedProbe lease false), p, x)
    | Bound _, None => (Panic, p, x)              (* a leasedProbe of a nil socket *)
    | BindPanic, _ => (Panic, p, x)
    | _, _ => (Err (errors_New "Link UDP ports unavailable"), p, close x)
    end
  end.
End Probe.

(** * Invariants *)

(** A validated choice. *)
Definition wf_choice (c : PortChoice) : Prop := ListenPorts_Validate (Some c) = Ok tt.

Lemma wf_choice_inv c :
  wf_choice c →
  0 <= pc_Port c <= 65535 ∧
  (Range c = PortRange_zero ∨
   pc_Port c = 0 ∧ 1 <= First (Range c) ∧ First (Range c) <= Last (Range c) ∧ Last (Range c) <= 65535).
Proof.
  unfold wf_choice, ListenPorts_Validate. cbn [Choice default id]. destruct (_ || _) eqn:C1; [done|].
  bool_to_prop. case_bool_decide as Z0; cbn [negb andb].
  - intros _. split; [lia|by left].
  - destruct (_ || _) eqn:C2; [done|]. intros _. bool_to_prop. split; [lia|]. right. lia.
Qed.

(** The ports a choice admits. *)
Definition admits (c : PortChoice) (port : Z) : Prop :=
  if First (Range c) =? 0 then pc_Port c = 0 ∨ pc_Port c = port
  else First (Range c) <= port <= Last (Range c).

Definition free (p : portPool) (port : Z) : Prop := leases p !! port = None ∧ port ≠ vfpPort p.

Definition pool_ok (p : portPool) : Prop :=
  ∀ port l, leases p !! port = Some l →
    lease_port l = port ∧ 1 <= port <= 65535 ∧ port ≠ vfpPort p ∧ (lease_id l < next_lease p)%nat.

Lemma bind_candidates_range c sticky start :
  First (Range c) ≠ 0 → First (Range c) <= Last (Range c) →
  0 <= start < Last (Range c) - First (Range c) + 1 →
  ∃ cs, bind_candidates c sticky start = Some cs ∧
    (∀ q, q ∈ cs ↔ First (Range c) <= q <= Last (Range c)) ∧
    (First (Range c) <= sticky <= Last (Range c) → ∃ rest, cs = sticky :: rest).
Proof.
  unfold bind_candidates. destruct (Range c) as [f l]. cbn [First Last]. intros F L St.
  set (n := l - f + 1) in *.
  replace (f =? 0) with false by (symmetry; by apply Z.eqb_neq). cbn [negb].
  replace (n <=? 0) with false by (symmetry; apply Z.leb_gt; lia).
  eexists. split; [done|]. split.
  - intros q. rewrite elem_of_app, list_elem_of_filter, list_elem_of_fmap.
    setoid_rewrite elem_of_seqZ. split.
    + intros [H|(_ & i & -> & Hi)].
      * destruct ((f <=? sticky) && (sticky <=? l)) eqn:C; [|by apply not_elem_of_nil in H].
        apply list_elem_of_singleton in H as ->. bool_to_prop. lia.
      * pose proof (Z.mod_pos_bound (start + i) n ltac:(lia)). lia.
    + intros Hq. destruct (decide (q = sticky)) as [->|N].
      * left. replace (f <=? sticky) with true by (symmetry; apply Z.leb_le; lia).
        replace (sticky <=? l) with true by (symmetry; apply Z.leb_le; lia). by left.
      * right. split; [done|]. exists ((q - f - start) mod n).
        pose proof (Z.mod_pos_bound (q - f - start) n ltac:(lia)).
        split; [|lia]. rewrite Z.add_mod_idemp_r by lia.
        replace (start + (q - f - start)) with (q - f) by lia. rewrite Z.mod_small; lia.
  - intros Hs. replace (f <=? sticky) with true by (symmetry; apply Z.leb_le; lia).
    replace (sticky <=? l) with true by (symmetry; apply Z.leb_le; lia). by eexists.
Qed.

Section BindProofs.
Context {E : Type} (bind : Z → E → (error + Z) * E).

Definition bound_ok (cs : list Z) (p : portPool) (r : bind_result) (p' : portPool) (x' : E) : Prop :=
  match r with
  | Bound l =>
    leases p' = <[lease_port l := l]> (leases p) ∧ vfpPort p' = vfpPort p ∧
    lease_id l = next_lease p ∧ next_lease p' = S (next_lease p) ∧
    free p (lease_port l) ∧ 1 <= lease_port l <= 65535 ∧
    ∃ asked y, asked ∈ cs ∧ bind asked y = (inr (lease_port l), x') ∧
      (asked = 0 ∨ asked = lease_port l)
  | BindPanic => False
  | _ => p' = p
  end.

Lemma bind_loop_ok cs last p x r p' x' :
  bind_loop bind cs last p x = (r, p', x') → bound_ok cs p r p' x'.
Proof.
  revert last x. induction cs as [|port cs IH]; intros last x; cbn [bind_loop].
  { by intros [= <- <- <-]. }
  assert (Mono : ∀ last x, bind_loop bind cs last p x = (r, p', x') → bound_ok (port :: cs) p r p' x').
  { intros l0 x0 H. apply IH in H. destruct r; cbn in *; try done.
    destruct H as (? & ? & ? & ? & ? & ? & asked & y & ? & ?). split_and!; try done; try lia.
    exists asked, y. split; [by right|done]. }
  destruct (_ && _) eqn:C1; [by apply Mono|]. case_bool_decide as C2; [by apply Mono|].
  destruct (bind port x) as [res y] eqn:Eb. destruct res as [err|actual]; [by apply Mono|].
  destruct (_ || (65535 <? actual)) eqn:C3; [by intros [= <- <- <-]|].
  destruct (actual =? vfpPort p) eqn:C4; [by apply Mono|].
  case_bool_decide as C5; [by apply Mono|]. bool_to_prop. intros [= <- <- <-]. cbn.
  split_and!; try done; try lia.
  - split; [|done]. by apply eq_None_not_Some.
  - exists port, x. split; [by left|]. split; [done|].
    match goal with H : negb (port =? 0) && _ = false |- _ => apply andb_false_iff in H as [H|H] end;
      bool_to_prop; [by left|by right].
Qed.

(** When bind grants what is asked, a candidate that is free is not passed by. *)
Lemma bind_loop_grants cs last p x r p' x' :
  (∀ port x, port ≠ 0 → (bind port x).1 = inr port) →
  (∀ q, q ∈ cs → 1 <= q <= 65535) →
  bind_loop bind cs last p x = (r, p', x') →
  match r with
  | Bound l => ∃ l1 l2, cs = l1 ++ lease_port l :: l2 ∧ ∀ q, q ∈ l1 → ¬ free p q
  | Unavailable _ => ∀ q, q ∈ cs → ¬ free p q
  | _ => False
  end.
Proof.
  intros G. revert last x. induction cs as [|port cs IH]; intros last x R; cbn [bind_loop].
  { intros [= <- <- <-]. by intros q []%not_elem_of_nil. }
  assert (P : 1 <= port <= 65535) by (apply R; by left).
  assert (Mono : ∀ last x, ¬ free p port → bind_loop bind cs last p x = (r, p', x') →
    match r with
    | Bound l => ∃ l1 l2, port :: cs = l1 ++ lease_port l :: l2 ∧ ∀ q, q ∈ l1 → ¬ free p q
    | Unavailable _ => ∀ q, q ∈ port :: cs → ¬ free p q
    | _ => False
    end).
  { intros l0 x0 N H. apply IH in H; [|intros q Hq; apply R; by right].
    destruct r; try done.
    - destruct H as (l1 & l2 & -> & H). exists (port :: l1), l2. split; [done|].
      intros q [->|Hq]%elem_of_cons; [done|by apply H].
    - intros q [->|Hq]%elem_of_cons; [done|by apply H]. }
  replace (port =? 0) with false by (symmetry; apply Z.eqb_neq; lia). cbn [negb andb].
  destruct (port =? vfpPort p) eqn:C1; [apply Mono; intros [_ N]; bool_to_prop; done|].
  case_bool_decide as C2; [apply Mono; intros [N _]; by rewrite N in C2; destruct C2|].
  pose proof (G port x ltac:(lia)) as Gp. destruct (bind port x) as [res y]. cbn in Gp. subst res.
  rewrite Z.eqb_refl. cbn [negb orb].
  replace (port <? 1) with false by (symmetry; apply Z.ltb_ge; lia).
  replace (65535 <? port) with false by (symmetry; apply Z.ltb_ge; lia). cbn [orb]. rewrite C1.
  rewrite bool_decide_false by done. intros [= <- <- <-]. exists [], cs. split; [done|].
  by intros q []%not_elem_of_nil.
Qed.
End BindProofs.

Lemma bound_pool_ok {E} (bind : Z → E → (error + Z) * E) cs p r p' x' :
  pool_ok p → bound_ok bind cs p r p' x' → pool_ok p'.
Proof.
  intros P. destruct r; cbn; try (by intros ->); [|done].
  intros (El & Ev & Ei & En & [Fr Nv] & R & _) port l'. rewrite El, Ev, En.
  intros [[<- <-]|[? H]]%lookup_insert_Some.
  - split_and!; try done; lia.
  - apply P in H as (? & ? & ? & ?). split_and!; try done; lia.
Qed.

Lemma bind_candidates_ok c sticky start :
  wf_choice c → (First (Range c) ≠ 0 → 0 <= start < Last (Range c) - First (Range c) + 1) →
  ∃ cs, bind_candidates c sticky start = Some cs ∧
    ∀ asked port, asked ∈ cs → asked = 0 ∨ asked = port → admits c port.
Proof.
  intros W St. apply wf_choice_inv in W as [Wp Wr].
  destruct (decide (First (Range c) = 0)) as [Z0|N0].
  - unfold bind_candidates, admits. rewrite Z0. destruct (Range c) as [f l]. cbn in Z0. subst f. cbn.
    destruct (pc_Port c =? 0) eqn:Cp; bool_to_prop; cbn; eexists; (split; [done|]); intros asked port Ha D.
    + by left.
    + apply list_elem_of_singleton in Ha as ->. destruct D; [done|by right].
  - destruct Wr as [E0|(_ & F1 & F2 & F3)]; [by rewrite E0 in N0|].
    destruct (bind_candidates_range c sticky start) as (cs & -> & M & _); [done|lia|by apply St|].
    exists cs. split; [done|]. intros asked port Ha D. apply M in Ha. unfold admits.
    replace (First (Range c) =? 0) with false by (symmetry; apply Z.eqb_neq; lia). lia.
Qed.

(** A bound lease is for a port that the choice admits, that no other lease
    holds and that is not the VFP port, granted by the last call of bind; it is
    a new identity added to the pool, which keeps its invariant; any other
    outcome leaves the pool as it was, and a valid choice never panics. *)
Theorem bind_sound {E} (bind : Z → E → (error + Z) * E) c sticky start p x :
  wf_choice c → pool_ok p →
  (First (Range c) ≠ 0 → 0 <= start < Last (Range c) - First (Range c) + 1) →
  let '(r, p', x') := portPool_bind bind c sticky start p x in
  pool_ok p' ∧
  match r with
  | Bound l =>
    admits c (lease_port l) ∧ free p (lease_port l) ∧ 1 <= lease_port l <= 65535 ∧
    leases p' = <[lease_port l := l]> (leases p) ∧
    (∀ q l', leases p !! q = Some l' → lease_id l' ≠ lease_id l) ∧
    ∃ asked y, bind asked y = (inr (lease_port l), x') ∧ (asked = 0 ∨ asked = lease_port l)
  | BindPanic => False
  | _ => p' = p
  end.
Proof.
  intros W P St. unfold portPool_bind.
  destruct (bind_candidates_ok c sticky start W St) as (cs & -> & A).
  destruct (bind_loop bind cs None p x) as [[r p'] x'] eqn:B. apply bind_loop_ok in B.
  split; [by eapply bound_pool_ok|]. destruct r; try done.
  destruct B as (El & _ & Ei & _ & Fr & R & asked & y & Ha & Hb & D).
  split; [by eapply A|]. do 3 (split; [done|]). split; [|by exists asked, y].
  intros q l' Hq. apply P in Hq. lia.
Qed.

Definition exPool : portPool := mkPool {[ 7000 := mkLease 0 7000 ]} 58420 1.
Definition exChoice : PortChoice := mkPortChoice 0 (mkPortRange 7000 7003).
Lemma exPool_ok : pool_ok exPool.
Proof.
  intros port l H. unfold exPool in H. cbn [leases] in H.
  apply lookup_singleton_Some in H as [<- <-]. cbn. lia.
Qed.
(** The kernel grants what is asked. *)
Definition exBind (port : Z) (x : unit) : (error + Z) * unit := (inr port, x).

Lemma bind_sound_witness :
  (portPool_bind exBind exChoice 7002 1 exPool tt).1.1 = Bound (mkLease 1 7002) ∧
  pool_ok (portPool_bind exBind exChoice 7002 1 exPool tt).1.2.
Proof.
  split; [by vm_compute|].
  pose proof (bind_sound exBind exChoice 7002 1 exPool tt eq_refl exPool_ok ltac:(cbn; lia)) as B.
  destruct (portPool_bind _ _ _ _ _ _) as [[r p'] x']. apply B.
Defined.

(** When the kernel grants every port that is asked for, binding a range
    fails only if every port of it is leased or is the VFP port, and the sticky
    port is kept whenever it is free in the range. *)
Theorem bind_range_complete {E} (bind : Z → E → (error + Z) * E) c sticky start p x :
  wf_choice c → First (Range c) ≠ 0 → 0 <= start < Last (Range c) - First (Range c) + 1 →
  (∀ port x, port ≠ 0 → (bind port x).1 = inr port) →
  let '(r, _, _) := portPool_bind bind c sticky start p x in
  match r with
  | Bound l => (First (Range c) <= sticky <= Last (Range c) → free p sticky → lease_port l = sticky)
  | Unavailable _ => ∀ q, First (Range c) <= q <= Last (Range c) → ¬ free p q
  | _ => False
  end.
Proof.
  intros W F St G. apply wf_choice_inv in W as [_ [Z0|(_ & F1 & F2 & F3)]]; [by rewrite Z0 in F|].
  unfold portPool_bind.
  destruct (bind_candidates_range c sticky start F F2 St) as (cs & -> & M & Sk).
  destruct (bind_loop bind cs None p x) as [[r p'] x'] eqn:B.
  apply bind_loop_grants in B; [|done|intros q Hq; apply M in Hq; lia].
  destruct r as [l| | |]; try done.
  - intros Hs Fr. destruct (Sk Hs) as (rest & ->). destruct B as (l1 & l2 & Eq & N).
    destruct l1 as [|q l1]; [by injection Eq|]. injection Eq as <- _. exfalso. apply (N sticky); [by left|done].
  - intros q Hq. apply B. by apply M.
Qed.

Notation exRun := (portPool_bind exBind exChoice 7003 1 exPool tt).
Lemma bind_range_complete_witness :
  exRun.1.1 = Bound (mkLease 1 7003) ∧
  (7000 <= 7003 <= 7003 → free exPool 7003 → lease_port (mkLease 1 7003) = 7003).
Proof.
  assert (E : exRun.1.1 = Bound (mkLease 1 7003)) by (by vm_compute).
  pose proof (bind_range_complete exBind exChoice 7003 1 exPool tt eq_refl ltac:(done) ltac:(cbn; lia)
    ltac:(done)) as B.
  destruct exRun as [[r p'] x']. cbn in E. subst r. exact (conj eq_refl B).
Defined.

(** Releasing a lease frees its own port and nothing else; releasing it
    again, or through a probe whose lease was handed over, changes nothing, not
    even after the port was bound again by another owner. *)
Theorem release_identity p l :
  pool_ok p → leases p !! lease_port l = Some l →
  let p1 := lease_release (Some l) p in
  pool_ok p1 ∧
  (∀ q, leases p1 !! q = if decide (q = lease_port l) then None else leases p !! q) ∧
  lease_release (Some l) p1 = p1 ∧
  leasedProbe_Close (handoff (mkLeasedProbe l false)) p = p ∧
  leasedProbe_Close (mkLeasedProbe l false) p = p1 ∧
  ∀ E (bind : Z → E → (error + Z) * E) c sticky start x,
    let '(r, p2, _) := portPool_bind bind c sticky start p1 x in
    ∀ l', r = Bound l' → lease_release (Some l) p2 = p2 ∧ l' ≠ l.
Proof.
  intros P L. cbn zeta. unfold leasedProbe_Close, handoff. cbn [handed lp_lease].
  assert (R : lease_release (Some l) p =
    mkPool (delete (lease_port l) (leases p)) (vfpPort p) (next_lease p)).
  { unfold lease_release. by rewrite bool_decide_true. }
  rewrite R. set (p1 := mkPool _ _ _).
  assert (G : ∀ q, leases p1 !! q = if decide (q = lease_port l) then None else leases p !! q).
  { intros q. cbn. destruct (decide _) as [->|N]; [by rewrite lookup_delete_eq|by rewrite lookup_delete_ne]. }
  assert (P1 : pool_ok p1).
  { intros q l'. rewrite G. destruct (decide _); [done|]. apply P. }
  split_and!; try done.
  - unfold lease_release. rewrite bool_decide_false; [done|]. rewrite G, decide_True; done.
  - intros E bind c sticky start x. unfold portPool_bind.
    destruct (bind_candidates c sticky start) as [cs|]; [|by intros l'].
    destruct (bind_loop bind cs None p1 x) as [[r p2] x2] eqn:B. apply bind_loop_ok in B.
    intros l' ->. destruct B as (El & _ & Ei & _). pose proof (P _ _ L) as (_ & _ & _ & Lt).
    assert (Ne : l' ≠ l) by (intros ->; cbn in Ei; lia). split; [|done].
    unfold lease_release. rewrite bool_decide_false; [done|]. rewrite El.
    intros [[_ <-]|[_ H]]%lookup_insert_Some; [done|]. rewrite G, decide_True in H; done.
Qed.

Lemma release_identity_witness :
  lease_release (Some (mkLease 0 7000)) (lease_release (Some (mkLease 0 7000)) exPool) =
  lease_release (Some (mkLease 0 7000)) exPool.
Proof. exact (proj1 (proj2 (proj2 (release_identity exPool (mkLease 0 7000) exPool_ok eq_refl)))). Defined.

(** * Probe sockets *)

Inductive socket_event (S : Type) := Listened (s : S) | Closed (s : S).
Arguments Listened {S}. Arguments Closed {S}.
Definition listened {S} (log : list (socket_event S)) : list S :=
  omap (λ ev, match ev with Listened s => Some s | _ => None end) log.
Definition closed {S} (log : list (socket_event S)) : list S :=
  omap (λ ev, match ev with Closed s => Some s | _ => None end) log.

#[local] Arguments listened : simpl never.
#[local] Arguments closed : simpl never.

Section ProbeProofs.
Context {E S : Type}.
Context (listenProbe : AddrPort → E → (error + S) * E) (Close : S → E → E) (endpoint_port : S → Z).
Notation LE := (E * list (socket_event S))%type.

Definition listen_logged (ep : AddrPort) (x : LE) : (error + S) * LE :=
  let '(r, y) := listenProbe ep x.1 in
  (r, (y, x.2 ++ match r with inr s => [Listened s] | _ => [] end)).
Definition close_logged (s : S) (x : LE) : LE := (Close s x.1, x.2 ++ [Closed s]).

(** The captured socket is the only one open. *)
Definition one_open (x : option S * LE) : Prop :=
  listened x.2.2 = closed x.2.2 ++ option_list x.1.

Lemma listened_app (l k : list (socket_event S)) : listened (l ++ k) = listened l ++ listened k.
Proof. apply omap_app. Qed.
Lemma closed_app (l k : list (socket_event S)) : closed (l ++ k) = closed l ++ closed k.
Proof. apply omap_app. Qed.

Lemma probe_bind_open addr port x r x' :
  one_open x → probe_bind listen_logged close_logged endpoint_port addr port x = (r, x') →
  one_open x' ∧ (∀ actual, r = inr actual → ∃ s, x'.1 = Some s ∧ endpoint_port s = actual).
Proof.
  destruct x as [socket [x log]]. unfold one_open. cbn [fst snd]. intros O.
  unfold probe_bind, listen_logged.
  set (z := match socket with Some s => _ | None => _ end).
  assert (Oz : listened z.2 = closed z.2).
  { subst z. destruct socket as [s|]; cbn in *; [|by rewrite app_nil_r in O].
    rewrite listened_app, closed_app, O. unfold closed, listened. cbn. by rewrite ?app_nil_r. }
  clearbody z. destruct (listenProbe _ z.1) as [[err|s] y]; intros [= <- <-]; cbn;
    rewrite listened_app, closed_app, Oz; (split; [unfold closed, listened; cbn; by rewrite ?app_nil_r|done || idtac]).
  intros actual [= <-]. by exists s.
Qed.

Lemma bind_loop_open addr cs last p x r p' x' :
  one_open x →
  bind_loop (probe_bind listen_logged close_logged endpoint_port addr) cs last p x = (r, p', x') →
  one_open x' ∧ (∀ l, r = Bound l → ∃ s, x'.1 = Some s ∧ endpoint_port s = lease_port l).
Proof.
  revert last x. induction cs as [|port cs IH]; intros last x O; cbn [bind_loop].
  { by intros [= <- <- <-]. }
  destruct (_ && _); [by apply IH|]. case_bool_decide; [by apply IH|].
  destruct (probe_bind _ _ _ addr port x) as [res y] eqn:B. apply probe_bind_open in B as [O1 S1]; [|done].
  destruct res as [err|actual]; [by apply IH|]. destruct (_ || (65535 <? actual)); [by intros [= <- <- <-]|].
  destruct (_ =? _); [by apply IH|]. case_bool_decide; [by apply IH|].
  intros [= <- <- <-]. split; [done|]. intros l [= <-]. by apply S1.
Qed.
End ProbeProofs.

(** Reserving a probe socket leaks none, whatever the listener does: on
    success exactly one socket is left open, on the leased port, which the
    request and the choice admit; on failure every socket that was opened has
    been closed and the pool is unchanged. *)
Theorem reserveProbe_no_leak {E S : Type} (listenProbe : AddrPort → E → (error + S) * E)
    (Close : S → E → E) (endpoint_port : S → Z) endpoint choice start p x :
  wf_addrport endpoint → wf_choice choice → pool_ok p →
  (First (Range choice) ≠ 0 → 0 <= start < Last (Range choice) - First (Range choice) + 1) →
  let '(r, p', (_, log)) := reserveProbe (listen_logged listenProbe) (close_logged Close)
    endpoint_port endpoint choice start p (x, []) in
  pool_ok p' ∧
  match r with
  | Ok (s, probe) =>
    listened log = closed log ++ [s] ∧ handed probe = false ∧
    lease_port (lp_lease probe) = endpoint_port s ∧ admits choice (endpoint_port s) ∧
    (Port endpoint ≠ 0 → endpoint_port s = Port endpoint) ∧
    leases p' !! endpoint_port s = Some (lp_lease probe) ∧ free p (endpoint_port s)
  | Err _ => listened log = closed log ∧ p' = p
  | Panic => False
  end.
Proof.
  intros We W P St. unfold reserveProbe. destruct (narrow endpoint choice) as [c|e|] eqn:Nr; [|done|].
  2: { unfold narrow in Nr. destruct (_ =? 0); [done|]. by repeat destruct (_ && _). }
  assert (Nw : wf_choice c ∧ (First (Range c) ≠ 0 → 0 <= start < Last (Range c) - First (Range c) + 1) ∧
    ∀ q, admits c q → admits choice q ∧ (Port endpoint ≠ 0 → q = Port endpoint)).
  { unfold narrow in Nr. destruct (Port endpoint =? 0) eqn:Z0; bool_to_prop; [by injection Nr as <-|].
    destruct (_ && _) eqn:C1; [done|]. destruct (negb (pc_Port choice =? 0) && _) eqn:C2; [done|].
    injection Nr as <-. destruct We as [_ We]. split; [|split; [done|]].
    - unfold wf_choice, ListenPorts_Validate. cbn.
      replace (Port endpoint <? 0) with false by (symmetry; apply Z.ltb_ge; lia).
      by replace (65535 <? Port endpoint) with false by (symmetry; apply Z.ltb_ge; lia).
    - unfold admits. cbn. intros q [?|<-]; [done|]. split; [|done].
      destruct (First (Range choice) =? 0) eqn:F0; bool_to_prop.
      + apply andb_false_iff in C2 as [C2|C2]; bool_to_prop; [by left|by right].
      + cbn in C1. bool_to_prop. lia. }
  destruct Nw as (Wc & Sc & Ad). set (b := probe_bind _ _ _ _).
  pose proof (bind_sound b c 0 start p (None, (x, [])) Wc P Sc) as B.
  destruct (portPool_bind b c 0 start p (None, (x, []))) as [[r p'] [socket [x' log]]] eqn:Pb.
  assert (O : one_open (socket, (x', log)) ∧
    (∀ l, r = Bound l → ∃ s, socket = Some s ∧ endpoint_port s = lease_port l)).
  { unfold portPool_bind in Pb. destruct (bind_candidates c 0 start) as [cs|]; [|by injection Pb as <- <- <- <- <-].
    apply bind_loop_open in Pb; done. }
  destruct O as [O So]. unfold one_open in O. cbn [fst snd] in O. destruct B as [P' B].
  assert (F : p' = p → let '(_, l) := (match socket with Some s => close_logged Close s (x', log) | None => (x', log) end)
    in pool_ok p' ∧ listened l = closed l ∧ p' = p).
  { intros Ep. destruct socket as [s|]; cbn; split; try done; split; try done.
    - rewrite listened_app, closed_app, O. unfold closed, listened. cbn. by rewrite ?app_nil_r.
    - by rewrite O, app_nil_r. }
  destruct r as [l| |last|]; try done.
  - destruct (So l eq_refl) as (s & -> & El). cbn [handed lp_lease].
    destruct B as (A & Fr & _ & Lp & _). apply Ad in A as [A1 A2]. rewrite El in *.
    split_and!; try done. rewrite Lp. by rewrite lookup_insert_eq.
  - specialize (F B). destruct socket; cbn in F |- *; tauto.
  - specialize (F B). destruct socket; cbn in F |- *; tauto.
Qed.

(** A listener that has port 7001 in use, then grants what is asked. *)
Definition exListen (ep : AddrPort) (x : Z) : (error + Z) * Z :=
  if Port ep =? 7001 then (inl (errors_New "in use"), x) else (inr (Port ep), x + 1).

Notation exReserve := (reserveProbe (listen_logged exListen) (close_logged (λ _ x, x)) id
  (AddrPortFrom (Addr4 0) 0) exChoice 1 exPool (0, [])).

Lemma reserveProbe_no_leak_witness :
  exReserve.1.1 = Ok (7002, mkLeasedProbe (mkLease 1 7002) false) ∧ pool_ok exReserve.1.2.
Proof.
  split; [by vm_compute|].
  pose proof (reserveProbe_no_leak exListen (λ _ x, x) id (AddrPortFrom (Addr4 0) 0) exChoice 1 exPool 0
    ltac:(done) eq_refl exPool_ok ltac:(cbn; lia)) as R.
  destruct exReserve as [[r p'] [x' log]]. apply R.
Defined.
