(* ===== verification/Spec.v ===== *)
(** internal/spec/spec.go: the specification of a node, its prefix helpers and
    the validation of routing.  JSON objects are maps, pointers are options.
    A problem is its message without the formatted arguments; where the code
    ranges over a map, the order of the problems is unspecified in Go and that
    of the map's list here. *)

From S2P Require Import Prelude Netip NetipText Ports.
From stdpp Require Import gmap strings.
Open Scope Z_scope.
Open Scope velvet_scope.

(** * Data *)

Record Route := mkRoute { r_Prefix : string; r_Metric : option Z }.
Record Announcement := mkAnnouncement { a_Prefix : string; a_Metric : option Z }.
Notation Routes := (gmap string (list Route)).

Record FabricSpec := mkFabricSpec {
  PSK : string; LinkPrefixV4 : string; LinkPrefixV6 : string; LoopbackPrefixV6 : string;
  VFPPort : option Z; RoutingTableID : option Z; f_StaticRoutes : Routes }.

Record BabelSpec := mkBabelSpec { Enabled : option bool; Executable : string }.

Record DynamicLinksSpec := mkDynamicLinksSpec {
  dl_ListenPorts : ListenPorts; RecoveryTimeoutSeconds : option Z; Durable : option DurableSpec;
  Mode : string; AllowCandidatePrefixes : list string }.

Record NodeUID := mkNodeUID { uid_Name : string; uid_UUID : string }.
Record Node := mkNode { UID : NodeUID; PrivateKey : string; LoopbackAddressV6 : string }.

Record Peer := mkPeerSpec {
  p_ListenPorts : ListenPorts; p_Name : string; PublicKey : string; p_Endpoints : list string;
  LinkAddresses : list string; PersistentKeepaliveSeconds : option Z; p_InterfaceName : string }.

Record DomainSpec := mkDomainSpec {
  SourceTableID : Z; SourcePrefixes : list string; StaticRoutes : Routes;
  Announcements : list Announcement }.

Record NodeSpec := mkNodeSpec {
  APIVersion : string; Kind : string; Fabric : FabricSpec; n_Node : Node; Peers : list Peer;
  Babel : option BabelSpec; DynamicLinks : option DynamicLinksSpec;
  Domains : gmap string DomainSpec }.

Definition DefaultVFPPort : Z := 58420.
Definition DefaultRoutingTableID : Z := 20000.

Definition EffectiveVFPPort (f : FabricSpec) : Z := default DefaultVFPPort (VFPPort f).
Definition EffectiveRoutingTableID (f : FabricSpec) : Z :=
  default DefaultRoutingTableID (RoutingTableID f).
(** On a nil or disabled [BabelSpec] the answer is no. *)
Definition IsEnabled (s : option BabelSpec) : bool :=
  match s with Some b => default false (Enabled b) | None => false end.

Definition PeerPorts (p : Peer) : PortChoice := Choice (p_ListenPorts p).
Definition DynamicPorts (s : NodeSpec) : PortChoice :=
  match DynamicLinks s with None => PortChoice_zero | Some d => Choice (dl_ListenPorts d) end.

(** * Prefixes *)

Definition prefixContained (prefix : Prefix) (parents : list Prefix) : bool :=
  existsb (λ parent, eqb (Is4 (Prefix_Addr parent)) (Is4 (Prefix_Addr prefix)) &&
    (Bits parent <=? Bits prefix) && Contains parent (Prefix_Addr prefix)) parents.

Definition IsAccessPrefix (d : DomainSpec) (prefix : Prefix) : bool :=
  existsb (λ raw, match ParsePrefix raw with
    | Ok source => prefixContained prefix [source]
    | _ => false end) (SourcePrefixes d).

Definition InfrastructurePrefixes (f : FabricSpec) : list Prefix :=
  omap (λ raw, match ParsePrefix raw with Ok p => Some p | _ => None end)
    [LoopbackPrefixV6 f; LinkPrefixV4 f; LinkPrefixV6 f].

Definition parseCanonicalPrefix (raw : string) : result Prefix :=
  match ParsePrefix raw with
  | Ok prefix =>
    if bool_decide (prefix = Masked prefix) then Ok prefix
    else Err (errors_New "must be a canonical network prefix")
  | Err _ => Err (errors_New "must be a canonical network prefix")
  | Panic => Panic
  end.

Definition prefixesOverlap (a b : Prefix) : bool :=
  (BitLen (Prefix_Addr a) =? BitLen (Prefix_Addr b)) &&
  (Contains a (Prefix_Addr b) || Contains b (Prefix_Addr a)).

Definition parsePool (raw : string) (ipv4 : bool) (targetBits : Z) : result Prefix :=
  prefix ← parseCanonicalPrefix raw;
  if negb (eqb (Is4 (Prefix_Addr prefix)) ipv4) then Err (errors_New "has the wrong address family")
  else if targetBits <? Bits prefix then Err (errors_New "must be no longer than")
  else Ok prefix.

(** [strings.TrimSpace(raw) == ""]: all white space.  Besides ASCII this is
    U+0085, U+00A0, U+1680, U+2000..U+200A, U+2028, U+2029, U+202F, U+205F and
    U+3000, in UTF-8. *)
Fixpoint blank (fuel : nat) (s : list byte) : bool :=
  match fuel with
  | O => bool_decide (s = [])
  | S fuel =>
    match map b2z s with
    | [] => true
    | 9 :: _ | 10 :: _ | 11 :: _ | 12 :: _ | 13 :: _ | 32 :: _ => blank fuel (drop 1 s)
    | 0xc2 :: c :: _ => ((c =? 0x85) || (c =? 0xa0)) && blank fuel (drop 2 s)
    | 0xe1 :: 0x9a :: 0x80 :: _ => blank fuel (drop 3 s)
    | 0xe2 :: 0x80 :: c :: _ =>
      (((0x80 <=? c) && (c <=? 0x8a)) || (c =? 0xa8) || (c =? 0xa9) || (c =? 0xaf)) &&
      blank fuel (drop 3 s)
    | 0xe2 :: 0x81 :: 0x9f :: _ => blank fuel (drop 3 s)
    | 0xe3 :: 0x80 :: 0x80 :: _ => blank fuel (drop 3 s)
    | _ => false
    end
  end.

Definition parseOptionalPool (raw : string) (ipv4 : bool) (targetBits : Z) : result Prefix :=
  if blank (String.length raw) (octets raw) then Ok Prefix_zero else parsePool raw ipv4 targetBits.

Definition ParseFabricPrefixes (f : FabricSpec) : result (Prefix * Prefix * Prefix) :=
  link4 ← parseOptionalPool (LinkPrefixV4 f) true 30;
  link6 ← parseOptionalPool (LinkPrefixV6 f) false 126;
  loop6 ← parsePool (LoopbackPrefixV6 f) false 128;
  Ok (link4, link6, loop6).

Definition linkBits (a : Addr) : Z := if Is4 a then 30 else 126.
Definition validUnicast (a : Addr) : bool :=
  Addr_IsValid a && negb (IsUnspecified a) && negb (IsMulticast a) && negb (IsLinkLocalUnicast a) &&
  negb (IsBroadcast4 a).

(** * Routing validation *)

Definition validateTableID (value : Z) : result unit :=
  if value <? 1 then Err (errors_New "must be positive")
  else if 2 ^ 32 - 1 <? value then Err (errors_New "must fit a 32-bit Linux routing table ID")
  else if (value =? 253) || (value =? 254) || (value =? 255)
  then Err (errors_New "must not use a reserved Linux routing table")
  else Ok tt.

(** [peerNamePattern]: one letter or digit, then at most 63 of [A-Za-z0-9_.-]. *)
Definition is_alnum (c : byte) : bool :=
  let z := b2z c in
  ((48 <=? z) && (z <=? 57)) || ((65 <=? z) && (z <=? 90)) || ((97 <=? z) && (z <=? 122)).
Definition is_name_char (c : byte) : bool :=
  is_alnum c || (b2z c =? 95) || (b2z c =? 46) || (b2z c =? 45).
Definition peerNamePattern (s : string) : bool :=
  match octets s with
  | [] => false
  | c :: cs => is_alnum c && forallb is_name_char cs && (len cs <=? 63)
  end.

Definition containsFamily (values : list string) (ipv4 : bool) : bool :=
  existsb (λ raw, match ParsePrefix raw with
    | Ok prefix => eqb (Is4 (Prefix_Addr prefix)) ipv4
    | _ => false end) values.

(** [sort.Strings] of the keys of a map. *)
Definition string_cmp (s t : string) : Z :=
  match string_compare s t with Lt => -1 | Eq => 0 | Gt => 1 end.
Definition sorted_keys {A} (m : gmap string A) : list string :=
  SortStableFunc string_cmp (map fst (map_to_list m)).

(** The metric of a route or announcement, a uint32 of at most 65534. *)
Definition bad_metric (m : option Z) : bool := default false ((λ v, 65534 <? v) <$> m).

(** One route through [peerName]: the prefixes resolved so far and the problems. *)
Definition validate_route (peerName : string) (acc : gmap Prefix string * list string) (route : Route) :=
  let '(resolved, problems) := acc in
  match parseCanonicalPrefix (r_Prefix route) with
  | Ok prefix =>
    match resolved !! prefix with
    | Some _ => (resolved, problems ++ ["prefix duplicates a route through peer"%string])
    | None =>
      (<[prefix := peerName]> resolved,
       if bad_metric (r_Metric route)
       then problems ++ ["metric must be between 0 and 65534"%string] else problems)
    end
  | _ => (resolved, problems ++ ["prefix must be a canonical network prefix"%string])
  end.
Definition validate_peer_routes (routes : Routes) (peerNames : gset string)
    (acc : gmap Prefix string * list string) (peerName : string) :=
  let items := default [] (routes !! peerName) in
  let '(resolved, problems) := acc in
  let problems := if bool_decide (peerName ∈ peerNames) then problems
                  else problems ++ ["references an unknown peer"%string] in
  let problems := if bool_decide (items = []) then problems ++ ["must not be empty"%string] else problems in
  foldl (validate_route peerName) (resolved, problems) items.
Definition validateRoutes (routes : Routes) (peerNames : gset string) : gmap Prefix string * list string :=
  foldl (validate_peer_routes routes peerNames) (∅, []) (sorted_keys routes).

Definition validate_announcement (acc : gset Prefix * list string) (a : Announcement) :=
  let '(resolved, problems) := acc in
  match parseCanonicalPrefix (a_Prefix a) with
  | Ok prefix =>
    let problems := if bool_decide (prefix ∈ resolved)
                    then problems ++ ["prefix duplicates"%string] else problems in
    ({[prefix]} ∪ resolved,
     if bad_metric (a_Metric a) then problems ++ ["metric must be between 0 and 65534"%string] else problems)
  | _ => (resolved, problems ++ ["prefix must be a canonical network prefix"%string])
  end.
Definition validateAnnouncements (announcements : list Announcement) : gset Prefix * list string :=
  foldl validate_announcement (∅, []) announcements.

(** One source prefix of the domain [name]. *)
Definition validate_source (pools : list Prefix) (name : string)
    (acc : list (string * Prefix) * list string) (raw : string) :=
  let '(sources, problems) := acc in
  match parseCanonicalPrefix raw with
  | Ok prefix =>
    let problems := if Bits prefix =? 0
      then problems ++ ["source_prefixes must not contain /0"%string] else problems in
    let problems := foldl (λ problems pool, if prefixesOverlap prefix pool
      then problems ++ ["source_prefixes overlaps infrastructure pool"%string] else problems) problems pools in
    let problems := if existsb (λ previous, prefixesOverlap prefix previous.2) sources
      then problems ++ ["source_prefixes overlaps domain prefix"%string] else problems in
    (sources ++ [(name, prefix)], problems)
  | _ => (sources, problems ++ ["source_prefixes must be a canonical network prefix"%string])
  end.

(** One domain: the tables and sources of the previous ones, and the problems. *)
Definition validate_domain (domains : gmap string DomainSpec) (pools : list Prefix)
    (peerNames : gset string)
    (acc : gset Z * list (string * Prefix) * list string) (name : string) :=
  let '(tables, sources, problems) := acc in
  match domains !! name with
  | None => acc                                   (* [names] are the keys *)
  | Some domain =>
    let problems := if peerNamePattern name then problems else problems ++ ["name is invalid"%string] in
    let '(tables, problems) :=
      match validateTableID (SourceTableID domain) with
      | Ok _ =>
        if bool_decide (SourceTableID domain ∈ tables)
        then (tables, problems ++ ["source_table_id duplicates"%string])
        else ({[SourceTableID domain]} ∪ tables, problems)
      | Err e => (tables, problems ++ [Error e])
      | Panic => (tables, problems)
      end in
    let problems := if bool_decide (SourcePrefixes domain = [])
      then problems ++ ["source_prefixes must not be empty"%string] else problems in
    let '(sources, problems) :=
      foldl (validate_source pools name) (sources, problems) (SourcePrefixes domain) in
    let '(routes, routeProblems) := validateRoutes (StaticRoutes domain) peerNames in
    let problems := problems ++ routeProblems in
    let '(announcements, announcementProblems) := validateAnnouncements (Announcements domain) in
    let problems := problems ++ announcementProblems in
    let problems := foldl (λ problems prefix,
      if containsFamily (SourcePrefixes domain) (Is4 (Prefix_Addr prefix)) then problems
      else problems ++ ["static_routes prefix has no same-family source_prefix"%string])
      problems (map fst (map_to_list routes)) in
    let problems := foldl (λ problems prefix,
      let problems := if containsFamily (SourcePrefixes domain) (Is4 (Prefix_Addr prefix)) then problems
        else problems ++ ["announcements prefix has no same-family source_prefix"%string] in
      if bool_decide (is_Some (routes !! prefix))
      then problems ++ ["announcements conflicts with a route through peer"%string] else problems)
      problems (elements announcements) in
    (tables, sources, problems)
  end.

Definition validateRouting (s : NodeSpec) (peerNames : gset string) : list string :=
  let problems :=
    match DynamicLinks s with
    | Some d => match RecoveryTimeoutSeconds d with
      | Some t => if (t <? 30) || (604800 <? t)
        then ["dynamic_links.recovery_timeout_seconds must be between 30 and 604800"%string] else []
      | None => []
      end
    | None => []
    end in
  let pools := InfrastructurePrefixes (Fabric s) in
  let tables : gset Z := {[EffectiveRoutingTableID (Fabric s)]} in
  let '(fabricRoutes, routeProblems) := validateRoutes (f_StaticRoutes (Fabric s)) peerNames in
  let problems := problems ++ routeProblems in
  let problems := foldl (λ problems prefix, if prefixContained prefix pools then problems
    else problems ++ ["fabric.static_routes prefix is outside the infrastructure pools"%string])
    problems (map fst (map_to_list fabricRoutes)) in
  (foldl (validate_domain (Domains s) pools peerNames) (tables, [], problems)
     (sorted_keys (Domains s))).2.
