(* ===== verification/SpecProps.v ===== *)
(** Routing validation decides a declarative notion of valid routing: every
    function of the validation appends to the problems, and appends nothing
    exactly when its part of the specification is valid. *)

From S2P Require Import Prelude Netip NetipText Ports Spec.
From stdpp Require Import gmap strings.
Open Scope Z_scope.
Open Scope velvet_scope.

(** * Validity *)

Definition canonical (raw : string) (p : Prefix) : Prop := parseCanonicalPrefix raw = Ok p.

(** A route or announcement that is fine by itself. *)
Definition route_ok (r : Route) (p : Prefix) : Prop :=
  canonical (r_Prefix r) p ∧ bad_metric (r_Metric r) = false.
Definition announcement_ok (a : Announcement) (p : Prefix) : Prop :=
  canonical (a_Prefix a) p ∧ bad_metric (a_Metric a) = false.

(** The routes of a map, peer by peer. *)
Definition all_routes (routes : Routes) : list (string * Route) :=
  sorted_keys routes ≫= λ name, map (pair name) (default [] (routes !! name)).

(** Known peers with routes, each to a canonical prefix of its own. *)
Definition routes_valid (routes : Routes) (peerNames : gset string) (ps : list Prefix) : Prop :=
  (∀ name items, routes !! name = Some items → name ∈ peerNames ∧ items ≠ []) ∧
  Forall2 (λ x p, route_ok x.2 p) (all_routes routes) ps ∧ NoDup ps.

Record domain_valid (d : DomainSpec) (name : string) (pools : list Prefix) (peerNames : gset string)
    (sources routes announcements : list Prefix) : Prop := {
  dv_name : peerNamePattern name = true;
  dv_table : validateTableID (SourceTableID d) = Ok tt;
  dv_sources : SourcePrefixes d ≠ [];
  dv_canonical : Forall2 canonical (SourcePrefixes d) sources;
  dv_length : ∀ p, p ∈ sources → Bits p ≠ 0;
  dv_pools : ∀ p pool, p ∈ sources → pool ∈ pools → prefixesOverlap p pool = false;
  dv_routes : routes_valid (StaticRoutes d) peerNames routes;
  dv_announcements : Forall2 announcement_ok (Announcements d) announcements;
  dv_nodup : NoDup announcements;
  dv_family : ∀ p, p ∈ routes ∨ p ∈ announcements →
    containsFamily (SourcePrefixes d) (Is4 (Prefix_Addr p)) = true;
  dv_conflict : ∀ p, p ∈ announcements → p ∉ routes
}.

(** * Lists of problems *)

(** [ps'] extends [ps], by nothing exactly when [P] holds. *)
Definition grows (P : Prop) (ps ps' : list string) : Prop :=
  ∃ new, ps' = ps ++ new ∧ (new = [] ↔ P).

Lemma grows_refl (P : Prop) ps : P → grows P ps ps.
Proof. exists []. by rewrite app_nil_r. Qed.
Lemma grows_one (P : Prop) ps s : ¬ P → grows P ps (ps ++ [s]).
Proof. intros N. exists [s]. split; [done|]. by split. Qed.
Lemma grows_if (b : bool) ps s : grows (b = true) ps (if b then ps else ps ++ [s]).
Proof. destruct b; [by apply grows_refl|by apply grows_one]. Qed.
Lemma grows_if' (b : bool) ps s : grows (b = false) ps (if b then ps ++ [s] else ps).
Proof. destruct b; [by apply grows_one|by apply grows_refl]. Qed.
Lemma grows_app P ps new : (new = [] ↔ P) → grows P ps (ps ++ new).
Proof. by exists new. Qed.
Lemma grows_trans P Q p1 p2 p3 : grows P p1 p2 → grows Q p2 p3 → grows (P ∧ Q) p1 p3.
Proof.
  intros (n1 & -> & H1) (n2 & -> & H2). exists (n1 ++ n2). split; [by rewrite app_assoc|].
  rewrite <-H1, <-H2. split; [apply app_nil|by intros [-> ->]].
Qed.
Lemma grows_iff (P Q : Prop) ps ps' : (P ↔ Q) → grows P ps ps' → grows Q ps ps'.
Proof. intros E (new & -> & H). exists new. split; [done|]. by rewrite H. Qed.
Lemma grows_nil P ps : grows P [] ps → ps = [] ↔ P.
Proof. by intros (new & -> & H). Qed.

Lemma grows_loop {A} (Q : A → Prop) (f : list string → A → list string) l ps :
  (∀ ps x, x ∈ l → grows (Q x) ps (f ps x)) → grows (∀ x, x ∈ l → Q x) ps (foldl f ps l).
Proof.
  revert ps. induction l as [|x l IH]; intros ps H; cbn.
  - apply grows_refl. by intros ? []%not_elem_of_nil.
  - eapply grows_iff; [|eapply grows_trans; [apply (H ps x); by left|apply IH; intros; apply H; by right]].
    split; [intros [? ?] y [->|?]%elem_of_cons; auto|]. intros Hall. split; [apply Hall; by left|].
    intros; apply Hall; by right.
Qed.

(** * Routes *)

Lemma sorted_keys_elem {A} (m : gmap string A) k : k ∈ sorted_keys m ↔ is_Some (m !! k).
Proof.
  unfold sorted_keys. rewrite (SortStableFunc_perm string_cmp). rewrite list_elem_of_fmap. split.
  - intros ([k' v] & -> & H). apply elem_of_map_to_list in H. by exists v.
  - intros [v H]. exists (k, v). split; [done|]. by apply elem_of_map_to_list.
Qed.

Lemma sorted_keys_nodup {A} (m : gmap string A) : NoDup (sorted_keys m).
Proof. unfold sorted_keys. rewrite (SortStableFunc_perm string_cmp). apply NoDup_fst_map_to_list. Qed.

(** Prefixes that a list of routes can add to a map of resolved ones, and the
    map that has them. *)
Definition resolvable (l : list (string * Route)) (ps : list Prefix) (m : gmap Prefix string) : Prop :=
  Forall2 (λ x p, route_ok x.2 p) l ps ∧ NoDup ps ∧ ∀ p, p ∈ ps → m !! p = None.
Definition extended (ps : list Prefix) (m m' : gmap Prefix string) : Prop :=
  ∀ p, is_Some (m' !! p) ↔ is_Some (m !! p) ∨ p ∈ ps.

Lemma routes_determined (l : list (string * Route)) ps qs :
  Forall2 (λ x p, route_ok x.2 p) l ps → Forall2 (λ x p, route_ok x.2 p) l qs → ps = qs.
Proof.
  intros F. revert qs. induction F as [|x p l ps [C _] F IH]; intros qs G; inversion G as [|? q ? qs' [D _] G']; [done|].
  subst. unfold canonical in *. rewrite C in D. injection D as <-. f_equal. by apply IH.
Qed.

Lemma resolvable_app l1 l2 ps1 ps2 m1 m2 :
  extended ps1 m1 m2 → resolvable l1 ps1 m1 →
  resolvable (l1 ++ l2) (ps1 ++ ps2) m1 ↔ resolvable l2 ps2 m2.
Proof.
  intros R (F1 & N1 & D1). unfold extended in R. unfold resolvable.
  assert (X : (∀ p, p ∈ ps2 → m2 !! p = None) ↔ ∀ p, p ∈ ps2 → m1 !! p = None ∧ p ∉ ps1).
  { assert (Y : ∀ p, m2 !! p = None ↔ m1 !! p = None ∧ p ∉ ps1)
      by (intros p; rewrite !eq_None_not_Some, (R p); tauto).
    by setoid_rewrite Y. }
  rewrite X, NoDup_app. split.
  - intros (F & (_ & Ni & N2) & D).
    apply Forall2_app_inv in F as [_ F2]; [|by apply Forall2_length in F1]. split_and!; [done|done|].
    intros p Hp. split; [apply D, elem_of_app; by right|]. intros H. by apply (Ni p).
  - intros (F2 & N2 & Y). split_and!; [by apply Forall2_app|done| |done|].
    + intros p H1 H2. by apply (Y p H2).
    + intros p [H|H]%elem_of_app; [by apply D1|by apply Y].
Qed.

(** What a part of the loops does to the map and the problems: no new problem
    exactly when its routes are resolvable, and then they are resolved. *)
Definition route_step (l : list (string * Route)) (extra : Prop) (a a' : gmap Prefix string * list string) : Prop :=
  ∃ P : Prop, grows P a.2 a'.2 ∧ (P ↔ extra ∧ ∃ ps, resolvable l ps a.1) ∧
    (P → ∃ ps, resolvable l ps a.1 ∧ extended ps a.1 a'.1).

Lemma route_step_trans l1 l2 X1 X2 a1 a2 a3 :
  route_step l1 X1 a1 a2 → route_step l2 X2 a2 a3 → route_step (l1 ++ l2) (X1 ∧ X2) a1 a3.
Proof.
  intros (P & G1 & E1 & R1) (Q & G2 & E2 & R2). exists (P ∧ Q). split; [by eapply grows_trans|].
  assert (Ext : P → Q → ∃ ps, resolvable (l1 ++ l2) ps a1.1 ∧ extended ps a1.1 a3.1).
  { intros HP HQ. destruct (R1 HP) as (ps1 & A1 & B1). destruct (R2 HQ) as (ps2 & A2 & B2).
    exists (ps1 ++ ps2). split; [by apply (resolvable_app _ _ _ _ _ a2.1)|].
    intros p. rewrite (B2 p), (B1 p), elem_of_app. tauto. }
  split; [split|by intros [HP HQ]; apply Ext].
  - intros [HP HQ]. split; [|destruct (Ext HP HQ) as (ps & ? & _); by exists ps].
    split; [by apply E1 in HP as [? _]|by apply E2 in HQ as [? _]].
  - intros ((HX1 & HX2) & ps & A). pose proof A as (F & N & D).
    apply Forall2_app_inv_l in F as (ps1 & ps2 & F1 & F2 & ->). apply NoDup_app in N as (N1 & Ni & N2).
    assert (A1 : resolvable l1 ps1 a1.1).
    { split_and!; [done|done|]. intros p Hp. apply D, elem_of_app. by left. }
    assert (HP : P) by (apply E1; split; [done|by exists ps1]). split; [done|].
    destruct (R1 HP) as (qs & (F1' & _) & B1). rewrite (routes_determined _ _ _ F1' F1) in B1.
    apply E2. split; [done|]. exists ps2. by apply (resolvable_app l1 l2 ps1 ps2 a1.1 a2.1).
Qed.

Lemma route_step_nil a : route_step [] True a a.
Proof.
  assert (N : resolvable [] [] a.1) by (split_and!; [constructor|constructor|by intros ? []%not_elem_of_nil]).
  exists True. split; [by apply grows_refl|]. split; [split; [split; [done|by exists []]|done]|].
  intros _. exists []. split; [done|]. intros p. rewrite elem_of_nil. tauto.
Qed.

Lemma route_step_iff l X Y a a' : (X ↔ Y) → route_step l X a a' → route_step l Y a a'.
Proof. intros E (P & G & I & R). exists P. split; [done|]. by rewrite <-E. Qed.

(** A problem that is no route's. *)
Lemma route_step_problem X m ps ps' : grows X ps ps' → route_step [] X (m, ps) (m, ps').
Proof.
  intros G. destruct (route_step_nil (m, ps)) as (_ & _ & _ & _). exists X. split; [done|].
  assert (N : resolvable [] [] m) by (split_and!; [constructor|constructor|by intros ? []%not_elem_of_nil]).
  split; [split; [intros; split; [done|by exists []]|by intros [? _]]|].
  intros _. exists []. split; [done|]. intros p. rewrite elem_of_nil. tauto.
Qed.

Lemma validate_route_step name a r : route_step [(name, r)] True a (validate_route name a r).
Proof.
  destruct a as [m problems]. unfold validate_route, route_step. cbn [fst snd].
  assert (Inv : ∀ ps, resolvable [(name, r)] ps m → ∃ p, ps = [p] ∧ route_ok r p ∧ m !! p = None).
  { intros ps (F & _ & D). apply Forall2_cons_inv_l in F as (p & ps' & R & F & ->).
    apply Forall2_nil_inv_l in F as ->. exists p. split_and!; [done|done|]. apply D. by left. }
  assert (Bad : (∀ p, ¬ (route_ok r p ∧ m !! p = None)) → ∀ s,
    ∃ P : Prop, grows P problems (problems ++ [s]) ∧ (P ↔ True ∧ ∃ ps, resolvable [(name, r)] ps m) ∧
      (P → ∃ ps, resolvable [(name, r)] ps m ∧ extended ps m m)).
  { intros N s. exists False. split; [apply grows_one; tauto|]. split; [|done]. split; [done|].
    intros [_ (ps & A)]. apply Inv in A as (p & _ & A). by apply (N p). }
  destruct (parseCanonicalPrefix (r_Prefix r)) as [p|e|] eqn:C; cycle 1.
  1,2: apply Bad; intros q [[Cq _] _]; unfold canonical in Cq; by rewrite C in Cq.
  destruct (m !! p) eqn:L.
  - apply Bad. intros q [[Cq _] Lq]. unfold canonical in Cq. rewrite C in Cq. injection Cq as <-. by rewrite L in Lq.
  - exists (bad_metric (r_Metric r) = false). split; [apply grows_if'|].
    assert (Fine : bad_metric (r_Metric r) = false → resolvable [(name, r)] [p] m).
    { intros B. split_and!; [by repeat constructor|apply NoDup_singleton|].
      intros q Hq. by apply list_elem_of_singleton in Hq as ->. }
    split; [split; [intros B; split; [done|by exists [p]; apply Fine]|]|].
    + intros (_ & ps & A). by apply Inv in A as (q & -> & [_ Bq] & _).
    + intros B. exists [p]. split; [by apply Fine|]. intros q.
      cbn [fst]. rewrite lookup_insert_is_Some', list_elem_of_singleton. naive_solver.
Qed.

Lemma validate_items_step name items a :
  route_step (map (pair name) items) True a (foldl (validate_route name) a items).
Proof.
  revert a. induction items as [|r items IH]; intros a; cbn [foldl map]; [apply route_step_nil|].
  eapply route_step_iff; [|eapply (route_step_trans [(name, r)]); [apply validate_route_step|apply IH]]. tauto.
Qed.

Lemma validate_peer_step routes peerNames a name :
  let items := default [] (routes !! name) in
  route_step (map (pair name) items) (name ∈ peerNames ∧ items ≠ []) a
    (validate_peer_routes routes peerNames a name).
Proof.
  destruct a as [m problems]. unfold validate_peer_routes. cbn zeta.
  set (items := default [] (routes !! name)).
  set (p1 := if bool_decide (name ∈ peerNames) then _ else _).
  set (p2 := if bool_decide (items = []) then _ else _).
  assert (S1 : route_step [] (name ∈ peerNames) (m, problems) (m, p1)).
  { apply route_step_problem. eapply grows_iff; [apply bool_decide_eq_true|]. apply grows_if. }
  assert (S2 : route_step [] (items ≠ []) (m, p1) (m, p2)).
  { apply route_step_problem. eapply grows_iff; [apply bool_decide_eq_false|]. apply grows_if'. }
  eapply route_step_iff; [|eapply (route_step_trans []);
    [eapply (route_step_trans [] []); [exact S1|exact S2]|apply validate_items_step]]. tauto.
Qed.

Lemma validate_peers_step routes peerNames names a :
  route_step (names ≫= λ name, map (pair name) (default [] (routes !! name)))
    (∀ name, name ∈ names → name ∈ peerNames ∧ default [] (routes !! name) ≠ []) a
    (foldl (validate_peer_routes routes peerNames) a names).
Proof.
  revert a. induction names as [|name names IH]; intros a; cbn [foldl mbind list_bind].
  - eapply route_step_iff; [|apply route_step_nil]. split; [by intros _ ? []%not_elem_of_nil|done].
  - eapply route_step_iff; [|eapply route_step_trans; [apply validate_peer_step|apply IH]].
    setoid_rewrite elem_of_cons. naive_solver.
Qed.

(** [validateRoutes] finds no problem exactly in valid routes, and then returns
    their prefixes. *)
Lemma validateRoutes_spec routes peerNames :
  let '(resolved, problems) := validateRoutes routes peerNames in
  (problems = [] ↔ ∃ ps, routes_valid routes peerNames ps) ∧
  (problems = [] → ∀ ps, routes_valid routes peerNames ps → ∀ p, is_Some (resolved !! p) ↔ p ∈ ps).
Proof.
  unfold validateRoutes. pose proof (validate_peers_step routes peerNames (sorted_keys routes) (∅, [])) as S.
  destruct (foldl _ _ _) as [resolved problems]. destruct S as (P & G & I & R). cbn [fst snd] in *.
  apply grows_nil in G.
  assert (Rv : ∀ ps, resolvable (all_routes routes) ps ∅ ↔
    Forall2 (λ x p, route_ok x.2 p) (all_routes routes) ps ∧ NoDup ps).
  { intros ps. unfold resolvable. split; [tauto|]. intros [? ?]. by split_and!. }
  assert (Names : (∀ name, name ∈ sorted_keys routes → name ∈ peerNames ∧ default [] (routes !! name) ≠ []) ↔
    ∀ name items, routes !! name = Some items → name ∈ peerNames ∧ items ≠ []).
  { setoid_rewrite sorted_keys_elem. split.
    - intros H name items E. specialize (H name ltac:(by eexists)). by rewrite E in H.
    - intros H name [items E]. rewrite E. by apply (H name items). }
  split.
  - rewrite G, I, Names. unfold routes_valid. setoid_rewrite Rv. naive_solver.
  - intros HP%G ps (_ & F & _) p. destruct (R HP) as (qs & (F' & _) & E).
    rewrite (routes_determined _ _ _ F' F) in E. rewrite (E p), lookup_empty. split; [|by right].
    intros [[]|?]; done.
Qed.

(** * Announcements *)

Lemma announcements_determined l ps qs :
  Forall2 announcement_ok l ps → Forall2 announcement_ok l qs → ps = qs.
Proof.
  intros F. revert qs. induction F as [|x p l ps [C _] F IH]; intros qs G; inversion G as [|? q ? qs' [D _] G']; [done|].
  subst. unfold canonical in *. rewrite C in D. injection D as <-. f_equal. by apply IH.
Qed.

Lemma validate_announcements_step l resolved problems :
  let '(res', pr') := foldl validate_announcement (resolved, problems) l in
  grows (∃ ps, Forall2 announcement_ok l ps ∧ NoDup ps ∧ ∀ p, p ∈ ps → p ∉ resolved) problems pr' ∧
  ∀ ps, Forall2 announcement_ok l ps → res' = resolved ∪ list_to_set ps.
Proof.
  revert resolved problems. induction l as [|a l IH]; intros resolved problems; cbn [foldl].
  - split.
    + apply grows_refl. exists []. split_and!; [constructor|constructor|by intros ? []%not_elem_of_nil].
    + intros ps F. inversion F; subst. set_solver.
  - unfold validate_announcement at 2. destruct (parseCanonicalPrefix (a_Prefix a)) as [p|e|] eqn:C; cycle 1.
    1,2: specialize (IH resolved (problems ++ ["prefix must be a canonical network prefix"%string]));
      destruct (foldl _ _ l) as [res' pr']; destruct IH as [G _]; split;
      [eapply grows_iff; [|eapply (grows_trans False); [apply grows_one; tauto|exact G]]; split; [tauto|];
       intros (ps & F & _); inversion F as [|? q ? ? [Cq _] _]; subst; unfold canonical in Cq; by rewrite C in Cq
      |intros ps F; inversion F as [|? q ? ? [Cq _] _]; subst; unfold canonical in Cq; by rewrite C in Cq].
    set (p1 := if bool_decide (p ∈ resolved) then _ else _).
    set (p2 := if bad_metric (a_Metric a) then _ else _).
    specialize (IH ({[p]} ∪ resolved) p2). destruct (foldl _ _ l) as [res' pr']. destruct IH as [G R]. split.
    + assert (G1 : grows (p ∉ resolved) problems p1)
        by (eapply grows_iff; [apply bool_decide_eq_false|apply grows_if']).
      assert (G2 : grows (bad_metric (a_Metric a) = false) p1 p2) by apply grows_if'.
      eapply grows_iff; [|eapply grows_trans; [eapply grows_trans; [exact G1|exact G2]|exact G]]. split.
      * intros [[N B] (ps & F & Nd & D)]. exists (p :: ps). split_and!; [by constructor| |].
        -- constructor; [|done]. intros Hp. apply (D p Hp). set_solver.
        -- intros q [->|Hq]%elem_of_cons; [done|]. specialize (D q Hq). set_solver.
      * intros (ps & F & Nd & D). inversion F as [|? q ? ps' [Cq B] F']; subst. unfold canonical in Cq.
        rewrite C in Cq. injection Cq as <-. apply NoDup_cons in Nd as [Ni Nd].
        split; [split; [apply D; by left|done]|]. exists ps'. split_and!; [done|done|].
        intros q Hq. rewrite not_elem_of_union, not_elem_of_singleton. split; [|apply D; by right].
        by intros ->.
    + intros ps F. inversion F as [|? q ? ps' [Cq B] F']; subst. unfold canonical in Cq.
      rewrite C in Cq. injection Cq as <-. rewrite (R ps' F'). set_solver.
Qed.

Lemma validateAnnouncements_spec l :
  let '(resolved, problems) := validateAnnouncements l in
  (problems = [] ↔ ∃ ps, Forall2 announcement_ok l ps ∧ NoDup ps) ∧
  ∀ ps, Forall2 announcement_ok l ps → ∀ p, p ∈ resolved ↔ p ∈ ps.
Proof.
  unfold validateAnnouncements. pose proof (validate_announcements_step l ∅ []) as S.
  destruct (foldl _ _ l) as [resolved problems]. destruct S as [G R]. apply grows_nil in G. split.
  - rewrite G. split; [intros (ps & ? & ? & _); by exists ps|intros (ps & ? & ?); exists ps; split_and!; set_solver].
  - intros ps F p. rewrite (R ps F). set_solver.
Qed.

(** * Source prefixes *)

(** No two of a list overlap. *)
Definition disjoint_sources (l : list (string * Prefix)) : Prop :=
  ∀ i j x y, i ≠ j → l !! i = Some x → l !! j = Some y → prefixesOverlap x.2 y.2 = false.

Lemma prefixesOverlap_sym p q : prefixesOverlap p q = prefixesOverlap q p.
Proof. unfold prefixesOverlap. rewrite Z.eqb_sym, orb_comm. done. Qed.

Lemma disjoint_snoc l x :
  disjoint_sources (l ++ [x]) ↔
  disjoint_sources l ∧ ∀ y, y ∈ l → prefixesOverlap x.2 y.2 = false.
Proof.
  unfold disjoint_sources. split.
  - intros D. split.
    + intros i j y z N Hi Hj. by apply (D i j); [done|apply lookup_app_l_Some..].
    + intros y [i Hi]%list_elem_of_lookup. pose proof (lookup_lt_Some _ _ _ Hi) as L.
      apply (D (length l) i); [lia|by rewrite list_lookup_middle|by apply lookup_app_l_Some].
  - intros [D O] i j y z N Hi Hj.
    rewrite lookup_snoc_Some in Hi. rewrite lookup_snoc_Some in Hj.
    destruct Hi as [[Li Hi]|[-> ->]], Hj as [[Lj Hj]|[-> ->]].
    + by apply (D i j).
    + rewrite prefixesOverlap_sym. apply O. by eapply list_elem_of_lookup_2.
    + apply O. by eapply list_elem_of_lookup_2.
    + done.
Qed.

(** Each of [l] overlaps none of [s] nor of those before it. *)
Fixpoint follows (s l : list (string * Prefix)) : Prop :=
  match l with
  | [] => True
  | x :: l => (∀ y, y ∈ s → prefixesOverlap x.2 y.2 = false) ∧ follows (s ++ [x]) l
  end.

Lemma disjoint_follows s l : disjoint_sources s → follows s l ↔ disjoint_sources (s ++ l).
Proof.
  revert s. induction l as [|x l IH]; intros s D; cbn [follows]; [by rewrite app_nil_r|].
  rewrite (cons_middle x s l), app_assoc. split.
  - intros [O F]. apply IH; [by apply disjoint_snoc|done].
  - intros D'. assert (D1 : disjoint_sources (s ++ [x])).
    { intros i j y z N Hi Hj. by apply (D' i j); [done|apply lookup_app_l_Some..]. }
    split; [by apply disjoint_snoc in D1 as [_ ?]|by apply IH].
Qed.

Definition source_ok (pools : list Prefix) (p : Prefix) : Prop :=
  Bits p ≠ 0 ∧ ∀ pool, pool ∈ pools → prefixesOverlap p pool = false.

Lemma canonical_determined raws ps qs : Forall2 canonical raws ps → Forall2 canonical raws qs → ps = qs.
Proof.
  intros F. revert qs. induction F as [|x p l ps C F IH]; intros qs G; inversion G as [|? q ? qs' D G']; [done|].
  subst. unfold canonical in *. rewrite C in D. injection D as <-. f_equal. by apply IH.
Qed.

Lemma validate_sources_step pools name raws sources problems :
  let '(src', pr') := foldl (validate_source pools name) (sources, problems) raws in
  grows (∃ ps, Forall2 canonical raws ps ∧ Forall (source_ok pools) ps ∧
    follows sources (map (pair name) ps)) problems pr' ∧
  ∀ ps, Forall2 canonical raws ps → src' = sources ++ map (pair name) ps.
Proof.
  revert sources problems. induction raws as [|raw raws IH]; intros sources problems; cbn [foldl].
  - split.
    + apply grows_refl. exists []. split_and!; [constructor|constructor|done].
    + intros ps F. inversion F; subst. cbn. by rewrite app_nil_r.
  - unfold validate_source at 2. destruct (parseCanonicalPrefix raw) as [p|e|] eqn:C; cycle 1.
    1,2: specialize (IH sources (problems ++ ["source_prefixes must be a canonical network prefix"%string]));
      destruct (foldl _ _ raws) as [src' pr']; destruct IH as [G _]; split;
      [eapply grows_iff; [|eapply (grows_trans False); [apply grows_one; tauto|exact G]]; split; [tauto|];
       intros (ps & F & _); inversion F as [|? q ? ? Cq _]; subst; unfold canonical in Cq; by rewrite C in Cq
      |intros ps F; inversion F as [|? q ? ? Cq _]; subst; unfold canonical in Cq; by rewrite C in Cq].
    set (p1 := if Bits p =? 0 then _ else _). set (p2 := foldl _ p1 pools).
    set (p3 := if existsb _ sources then _ else _).
    assert (G1 : grows (Bits p ≠ 0) problems p1) by (eapply grows_iff; [apply Z.eqb_neq|apply grows_if']).
    assert (G2 : grows (∀ pool, pool ∈ pools → prefixesOverlap p pool = false) p1 p2).
    { apply grows_loop. intros. apply grows_if'. }
    assert (G3 : grows (∀ y, y ∈ sources → prefixesOverlap p y.2 = false) p2 p3).
    { eapply grows_iff; [|apply grows_if']. rewrite <-not_true_iff_false, existsb_exists.
      setoid_rewrite <-list_elem_of_In. split.
      - intros N y Hy. apply not_true_iff_false. intros O. apply N. by exists y.
      - intros H' (y & Hy & O). by rewrite (H' y Hy) in O. }
    pose proof (grows_trans _ _ _ _ _ (grows_trans _ _ _ _ _ G1 G2) G3) as G123.
    specialize (IH (sources ++ [(name, p)]) p3).
    destruct (foldl _ _ raws) as [src' pr']. destruct IH as [G R]. split.
    + eapply grows_iff; [|eapply grows_trans; [exact G123|exact G]]. split.
      * intros [[[? ?] ?] (ps & F & S & D)]. exists (p :: ps).
        split_and!; [by constructor|by constructor|done].
      * intros (ps & F & S & D). inversion F as [|? q ? ps' Cq F']; subst. unfold canonical in Cq.
        rewrite C in Cq. injection Cq as <-. inversion S as [|? ? [? ?] S']; subst.
        destruct D as [D1 D2]. split; [done|]. by exists ps'.
    + intros ps F. inversion F as [|? q ? ps' Cq F']; subst. unfold canonical in Cq.
      rewrite C in Cq. injection Cq as <-. rewrite (R ps' F'), <-app_assoc. done.
Qed.

(** * Domains *)

Lemma routes_valid_determined routes names ps qs :
  routes_valid routes names ps → routes_valid routes names qs → ps = qs.
Proof. intros (_ & F & _) (_ & G & _). by eapply routes_determined. Qed.

(** A domain after the tables and sources of those before it. *)
Definition domain_step_ok (d : DomainSpec) (name : string) pools peerNames
    (tables : gset Z) (sources : list (string * Prefix)) : Prop :=
  SourceTableID d ∉ tables ∧ ∃ src rts anns,
    domain_valid d name pools peerNames src rts anns ∧ follows sources (map (pair name) src).

Lemma validate_domain_step domains pools peerNames tables sources problems name d :
  domains !! name = Some d →
  let '(tables', src', pr') := validate_domain domains pools peerNames (tables, sources, problems) name in
  grows (domain_step_ok d name pools peerNames tables sources) problems pr' ∧
  (domain_step_ok d name pools peerNames tables sources →
   tables' = {[SourceTableID d]} ∪ tables ∧
   ∀ src, Forall2 canonical (SourcePrefixes d) src → src' = sources ++ map (pair name) src).
Proof.
  intros L. unfold validate_domain. rewrite L.
  set (p1 := if peerNamePattern name then _ else _).
  assert (G1 : grows (peerNamePattern name = true) problems p1) by apply grows_if.
  set (tp := match validateTableID (SourceTableID d) with Ok _ => _ | Err _ => _ | Panic => _ end).
  assert (G2 : grows (validateTableID (SourceTableID d) = Ok tt ∧ SourceTableID d ∉ tables) p1 tp.2 ∧
    (SourceTableID d ∉ tables → validateTableID (SourceTableID d) = Ok tt →
     tp.1 = {[SourceTableID d]} ∪ tables)).
  { subst tp. destruct (validateTableID (SourceTableID d)) as [[]|e|] eqn:V.
    - case_bool_decide; cbn; (split; [|by intros]); [apply grows_one; tauto|by apply grows_refl].
    - cbn. split; [apply grows_one; by intros []|done].
    - unfold validateTableID in V. by repeat case_match. }
  destruct G2 as [G2 T2]. destruct tp as [tables' p2]. cbn [fst snd] in *.
  set (p3 := if bool_decide (SourcePrefixes d = []) then _ else _).
  assert (G3 : grows (SourcePrefixes d ≠ []) p2 p3)
    by (eapply grows_iff; [apply bool_decide_eq_false|apply grows_if']).
  pose proof (validate_sources_step pools name (SourcePrefixes d) sources p3) as S4.
  destruct (foldl (validate_source pools name) _ _) as [src' p4]. destruct S4 as [G4 T4].
  pose proof (validateRoutes_spec (StaticRoutes d) peerNames) as S5.
  destruct (validateRoutes _ _) as [routes rp]. destruct S5 as [G5 T5].
  pose proof (grows_app _ p4 rp G5) as G5'. set (p5 := p4 ++ rp) in *.
  pose proof (validateAnnouncements_spec (Announcements d)) as S6.
  destruct (validateAnnouncements _) as [anns ap]. destruct S6 as [G6 T6].
  pose proof (grows_app _ p5 ap G6) as G6'. set (p6 := p5 ++ ap) in *.
  set (fam := λ p : Prefix, containsFamily (SourcePrefixes d) (Is4 (Prefix_Addr p))).
  set (p7 := foldl _ p6 (map fst (map_to_list routes))).
  assert (G7 : grows (∀ p, p ∈ map fst (map_to_list routes) → fam p = true) p6 p7).
  { apply grows_loop. intros. apply grows_if. }
  set (p8 := foldl _ p7 (elements anns)).
  assert (G8 : grows (∀ p, p ∈ elements anns → fam p = true ∧ routes !! p = None) p7 p8).
  { apply grows_loop. intros ps p _. eapply grows_trans; [apply grows_if|].
    eapply grows_iff; [|apply grows_if']. rewrite bool_decide_eq_false, eq_None_not_Some. done. }
  assert (Rk : ∀ rts, routes_valid (StaticRoutes d) peerNames rts → ∀ p,
    (p ∈ map fst (map_to_list routes) ↔ p ∈ rts) ∧ (routes !! p = None ↔ p ∉ rts)).
  { intros rts V p. assert (H : is_Some (routes !! p) ↔ p ∈ rts) by (apply T5; [by apply G5; exists rts|done]).
    split; [|by rewrite eq_None_not_Some, H]. rewrite <-H, list_elem_of_fmap. split.
    - intros ([k v] & -> & Hk). apply elem_of_map_to_list in Hk. by exists v.
    - intros [v Hv]. exists (p, v). split; [done|]. by apply elem_of_map_to_list. }
  split.
  - eapply grows_iff; [|repeat (eapply grows_trans; [|first [exact G8|exact G7|exact G6'|exact G5'|exact G4|exact G3|exact G2]]); exact G1].
    unfold domain_step_ok. split.
    + intros [[[[[[[H1 [H2 H2']] H3] (src & F & So & Fo)] (rts & Rv)] (an & Fa & Na)] H7] H8].
      split; [done|]. exists src, rts, an. split; [|done]. rewrite Forall_forall in So.
      split; try done.
      * intros p Hp. by apply So.
      * intros p pool Hp Hq. by apply So.
      * intros p [Hp|Hp]; [by apply H7, (Rk rts Rv)|]. apply H8. apply elem_of_elements. by apply (T6 an Fa).
      * intros p Hp. apply (Rk rts Rv). apply H8. apply elem_of_elements. by apply (T6 an Fa).
    + intros (Nt & src & rts & an & [] & Fo).
      assert (Hp : ∀ p, p ∈ elements anns ↔ p ∈ an) by (intros p; rewrite elem_of_elements; by apply T6).
      repeat split; try done.
      * exists src. split_and!; [done| |done]. apply Forall_forall. intros p Hp'. split; auto.
      * by exists rts.
      * by exists an.
      * intros p Hr. apply dv_family0. left. by apply (Rk rts dv_routes0).
      * apply dv_family0. right. by apply Hp.
      * apply (Rk rts dv_routes0). apply dv_conflict0. by apply Hp.
  - intros (Nt & src & rts & an & V & _). split; [by apply T2, V|]. done.
Qed.

Lemma follows_app s l1 l2 : follows s (l1 ++ l2) ↔ follows s l1 ∧ follows (s ++ l1) l2.
Proof.
  revert s. induction l1 as [|x l1 IH]; intros s; cbn [follows app]; [rewrite app_nil_r; tauto|].
  rewrite IH, <-app_assoc. cbn. tauto.
Qed.

(** The prefixes that raw texts stand for, and those of all domains. *)
Definition prefixes_of (raws : list string) : list Prefix :=
  omap (λ raw, match parseCanonicalPrefix raw with Ok p => Some p | _ => None end) raws.
Lemma prefixes_of_canonical raws ps : Forall2 canonical raws ps → prefixes_of raws = ps.
Proof. induction 1 as [|raw p raws ps C F IH]; [done|]. unfold canonical in C. cbn. by rewrite C, <-IH. Qed.

Definition sources_of (domains : gmap string DomainSpec) (name : string) : list (string * Prefix) :=
  match domains !! name with
  | Some d => map (pair name) (prefixes_of (SourcePrefixes d))
  | None => []
  end.
Definition all_sources (domains : gmap string DomainSpec) : list (string * Prefix) :=
  sorted_keys domains ≫= sources_of domains.

Definition table_of (domains : gmap string DomainSpec) (name : string) : Z :=
  match domains !! name with Some d => SourceTableID d | None => 0 end.

(** The domains of [names], after the tables and sources of the previous ones. *)
Definition domains_ok (domains : gmap string DomainSpec) pools peerNames (names : list string)
    (tables : gset Z) (sources : list (string * Prefix)) : Prop :=
  (∀ name d, name ∈ names → domains !! name = Some d → SourceTableID d ∉ tables ∧
     ∃ src rts anns, domain_valid d name pools peerNames src rts anns) ∧
  NoDup (map (table_of domains) names) ∧ follows sources (names ≫= sources_of domains).

Lemma validate_domains_step domains pools peerNames names tables sources problems :
  (∀ name, name ∈ names → is_Some (domains !! name)) →
  grows (domains_ok domains pools peerNames names tables sources) problems
    (foldl (validate_domain domains pools peerNames) (tables, sources, problems) names).2.
Proof.
  revert tables sources problems. induction names as [|name names IH]; intros tables sources problems K; cbn [foldl].
  - apply grows_refl. split_and!; [by intros ?? []%not_elem_of_nil|constructor|done].
  - destruct (K name ltac:(by left)) as [d L].
    pose proof (validate_domain_step domains pools peerNames tables sources problems name d L) as S.
    destruct (validate_domain _ _ _ _ name) as [[tables' src'] pr']. destruct S as [G R].
    specialize (IH tables' src' pr' ltac:(intros; apply K; by right)).
    eapply grows_iff; [|eapply grows_trans; [exact G|exact IH]]. unfold domains_ok.
    cbn [map mbind list_bind]. rewrite NoDup_cons, follows_app.
    assert (Ts : table_of domains name = SourceTableID d) by (unfold table_of; by rewrite L).
    assert (Ss : ∀ src rts anns, domain_valid d name pools peerNames src rts anns →
      sources_of domains name = map (pair name) src).
    { intros src rts anns V. unfold sources_of. rewrite L. by rewrite (prefixes_of_canonical _ _ (dv_canonical _ _ _ _ _ _ _ V)). }
    split.
    + intros [Ok_ (A & Nd & F)]. pose proof (R Ok_) as [Et Es].
      destruct Ok_ as (Nt & src & rts & anns & V & Fo). rewrite (Ss _ _ _ V).
      rewrite (Es src) in F by apply V. split_and!; try done.
      * intros name' d' [->|Hn]%elem_of_cons L'.
        -- rewrite L in L'. injection L' as <-. split; [done|]. by exists src, rts, anns.
        -- destruct (A name' d' Hn L') as [Nt' V']. split; [|done]. rewrite Et in Nt'. set_solver.
      * rewrite Ts. intros (n' & E' & Hn)%list_elem_of_fmap. destruct (K n' ltac:(by right)) as [d' L'].
        destruct (A n' d' Hn L') as [Nt' _]. unfold table_of in E'. rewrite L' in E'. rewrite Et in Nt'. set_solver.
    + intros (A & [Ni Nd] & Fo & F). destruct (A name d ltac:(by left) L) as [Nt (src & rts & anns & V)].
      rewrite (Ss _ _ _ V) in Fo, F.
      assert (Ok_ : domain_step_ok d name pools peerNames tables sources) by (split; [done|by exists src, rts, anns]).
      pose proof (R Ok_) as [Et Es]. split; [done|]. rewrite (Es src) by apply V. split_and!; try done.
      intros name' d' Hn L'. destruct (A name' d' ltac:(by right) L') as [Nt' V']. split; [|done].
      rewrite Et, not_elem_of_union, not_elem_of_singleton. split; [|done].
      intros Eq. apply Ni. rewrite Ts, <-Eq. apply list_elem_of_fmap. exists name'. split; [|done].
      unfold table_of. by rewrite L'.
Qed.

(** * The contract *)

Record routing_valid (s : NodeSpec) (peerNames : gset string) : Prop := {
  rv_recovery : ∀ d t, DynamicLinks s = Some d → RecoveryTimeoutSeconds d = Some t → 30 <= t <= 604800;
  rv_fabric : ∃ ps, routes_valid (f_StaticRoutes (Fabric s)) peerNames ps ∧
    ∀ p, p ∈ ps → prefixContained p (InfrastructurePrefixes (Fabric s)) = true;
  rv_domains : ∀ name d, Domains s !! name = Some d →
    SourceTableID d ≠ EffectiveRoutingTableID (Fabric s) ∧
    ∃ src rts anns, domain_valid d name (InfrastructurePrefixes (Fabric s)) peerNames src rts anns;
  rv_tables : ∀ n1 n2 d1 d2, Domains s !! n1 = Some d1 → Domains s !! n2 = Some d2 →
    SourceTableID d1 = SourceTableID d2 → n1 = n2;
  rv_sources : disjoint_sources (all_sources (Domains s))
}.

Lemma NoDup_tables domains names :
  (∀ name, name ∈ names → is_Some (domains !! name)) → NoDup names →
  NoDup (map (table_of domains) names) ↔
  ∀ n1 n2 d1 d2, n1 ∈ names → n2 ∈ names → domains !! n1 = Some d1 → domains !! n2 = Some d2 →
    SourceTableID d1 = SourceTableID d2 → n1 = n2.
Proof.
  intros K Nd. split.
  - intros N n1 n2 d1 d2 [i Hi]%list_elem_of_lookup [j Hj]%list_elem_of_lookup L1 L2 E.
    assert (i = j) as ->; [|congruence].
    eapply NoDup_lookup; [exact N| |]; rewrite list_lookup_fmap, ?Hi, ?Hj; cbn; [reflexivity|].
    unfold table_of. by rewrite L1, L2, E.
  - intros H. apply NoDup_fmap_2_strong; [|done]. intros n1 n2 H1 H2 E.
    destruct (K n1 H1) as [d1 L1], (K n2 H2) as [d2 L2]. unfold table_of in E. rewrite L1, L2 in E.
    by apply (H n1 n2 d1 d2).
Qed.

Lemma validateRouting_decides (s : NodeSpec) (peerNames : gset string) :
  validateRouting s peerNames = [] ↔ routing_valid s peerNames.
Proof.
  unfold validateRouting. set (pools := InfrastructurePrefixes (Fabric s)).
  set (p0 := match DynamicLinks s with Some _ => _ | None => _ end).
  assert (G0 : p0 = [] ↔ ∀ d t, DynamicLinks s = Some d → RecoveryTimeoutSeconds d = Some t → 30 <= t <= 604800).
  { subst p0. destruct (DynamicLinks s) as [d|]; [|split; [by intros _ ??|done]].
    destruct (RecoveryTimeoutSeconds d) as [t|] eqn:Rt; [|split; [by intros _ ?? [= <-] ?; congruence|done]].
    destruct (_ || _) eqn:C; bool_to_prop.
    - split; [done|]. intros H. specialize (H d t eq_refl Rt). apply orb_true_iff in C as [C|C];
        [apply Z.ltb_lt in C|apply Z.ltb_lt in C]; lia.
    - split; [|done]. intros _ d' t' [= <-] Rt'. rewrite Rt in Rt'. injection Rt' as <-. lia. }
  pose proof (validateRoutes_spec (f_StaticRoutes (Fabric s)) peerNames) as S1.
  destruct (validateRoutes _ _) as [routes rp]. destruct S1 as [G1 T1].
  pose proof (grows_app _ p0 rp G1) as G1'. set (p1 := p0 ++ rp) in *.
  set (p2 := foldl _ p1 (map fst (map_to_list routes))).
  assert (G2 : grows (∀ p, p ∈ map fst (map_to_list routes) → prefixContained p pools = true) p1 p2).
  { apply grows_loop. intros. apply grows_if. }
  pose proof (validate_domains_step (Domains s) pools peerNames (sorted_keys (Domains s))
    {[EffectiveRoutingTableID (Fabric s)]} [] p2) as G3.
  specialize (G3 ltac:(intros name; by rewrite sorted_keys_elem)).
  set (p3 := (foldl _ _ _).2) in *.
  destruct (grows_trans _ _ _ _ _ (grows_trans _ _ _ _ _ G1' G2) G3) as (new & E & N).
  rewrite E. assert (H : p0 ++ new = [] ↔ p0 = [] ∧ new = []) by (split; [apply app_nil|by intros [-> ->]]).
  rewrite H, G0, N. clear E N H G0 G1' G2 G3. unfold domains_ok.
  rewrite NoDup_tables; [|intros name; by rewrite sorted_keys_elem|apply sorted_keys_nodup].
  rewrite (disjoint_follows []) by by intros ??????. cbn [app].
  setoid_rewrite sorted_keys_elem. setoid_rewrite not_elem_of_singleton.
  assert (Rk : ∀ rts, routes_valid (f_StaticRoutes (Fabric s)) peerNames rts → ∀ p,
    p ∈ map fst (map_to_list routes) ↔ p ∈ rts).
  { intros rts V p. assert (H : is_Some (routes !! p) ↔ p ∈ rts) by (apply T1; [by apply G1; exists rts|done]).
    rewrite <-H, list_elem_of_fmap. split.
    - intros ([k v] & -> & Hk). apply elem_of_map_to_list in Hk. by exists v.
    - intros [v Hv]. exists (p, v). split; [done|]. by apply elem_of_map_to_list. }
  split.
  - intros (R0 & ((rts & Rv) & C) & D & T & F). split; [done| | | |done].
    + exists rts. split; [done|]. intros p Hp. by apply C, (Rk rts Rv).
    + intros name d L. by apply (D name d); [eexists|].
    + intros n1 n2 d1 d2 L1 L2. by apply (T n1 n2 d1 d2); [eexists|eexists|..].
  - intros [R0 (rts & Rv & C) D T F]. split; [done|]. split; [split; [by exists rts|]|split_and!].
    + intros p Hp. by apply C, (Rk rts Rv).
    + intros name d _ L. by apply D.
    + intros n1 n2 d1 d2 _ _. by apply T.
    + done.
Qed.

(** Routing validation reports no problem exactly for valid routing: every
    route and announcement names a known peer and a canonical prefix of its
    own; fabric routes stay in the infrastructure pools; every domain has its
    own table and canonical sources, none of which overlaps the pools or
    another source; and its routes and announcements fit its families and do
    not conflict. *)
Theorem validateRouting_iff (s : NodeSpec) (peerNames : gset string) :
  validateRouting s peerNames = [] ↔ routing_valid s peerNames.
Proof. apply validateRouting_decides. Qed.
