(* ===== verification/Desired.v ===== *)
(** internal/reconcile/desired.go: how a node specification becomes routes,
    rules and the Babel plan.  The closures [addRoute], [addRule] and [guard]
    are functions on the compiled state; a callback is a function on the state
    it changes.  The string key of a route or rule is the tuple it prints, of
    which every component's text is unambiguous. *)

From S2P Require Import Prelude Netip NetipText Ports Spec.
From stdpp Require Import gmap strings.
Open Scope Z_scope.
Open Scope velvet_scope.

(** * Data *)

Inductive RouteType := RouteViaPeer | RouteThrow | RouteUnreachable.
#[global] Instance RouteType_eq_dec : EqDecision RouteType.
Proof. solve_decision. Defined.

Record LinkPlan := mkLinkPlan {
  WaitingPort : bool; lk_Ports : PortChoice; Probing : bool; ReceiveOnly : bool;
  lk_PeerName : string; InterfaceName : string; OwnerAlias : string;
  lk_PrivateKey : list byte; PeerPublicKey : list byte; PresharedKey : list byte;
  ListenPort : Z; lk_Endpoints : list string; Keepalive : option Z;
  BootstrapAddress : Prefix; LinkOverrides : list string }.

Record RoutePlan := mkRoutePlan {
  TableID : Z; rp_Prefix : Prefix; Type_ : RouteType; PeerName : string;
  rp_InterfaceName : string; Metric : option Z }.
#[global] Instance RoutePlan_eq_dec : EqDecision RoutePlan.
Proof. solve_decision. Defined.

(** A zero [Source] or [Destination] is no restriction. *)
Record RulePlan := mkRulePlan {
  rl_TableID : Z; Priority : Z; rl_Source : Prefix; rl_Destination : Prefix }.
#[global] Instance RulePlan_eq_dec : EqDecision RulePlan.
Proof. solve_decision. Defined.

Record BabelOrigin := mkBabelOrigin { bo_Destination : Prefix; bo_Source : Prefix; bo_Metric : Z }.
Record BabelView := mkBabelView {
  bv_ReturnPrefixes : list Prefix; bv_TableID : Z; bv_Source : Prefix; RulePriority : Z }.
Record BabelPlan := mkBabelPlan {
  ServiceName : string; bp_Executable : string; ConfigPath : string; ControlPath : string;
  StatePath : string; Interfaces : list string; Origins : list BabelOrigin; Views : list BabelView; ImportPrefixes : list Prefix;
  ImportSources : list Prefix; Protocol : Z; DeviceOnly : bool; ManageRules : bool }.

(** The routes and rules built so far, and the keys seen so far: the sets that
    the code keeps in maps, as lists, newest first. *)
Record compiled := mkCompiled {
  routeKeys : list (Z * Prefix * RouteType * Z); c_Routes : list RoutePlan;
  ruleKeys : list (Z * Prefix * Prefix); c_Rules : list RulePlan }.
Definition compiled_zero : compiled := mkCompiled [] [] [] [].

Definition FabricRulePriority : Z := 20000.
Definition DomainRulePriority : Z := 20001.
Definition UnreachableMetric : Z := 2147483647.
Definition BabelDynamicProtocol : Z := 203.

(** * Routes and rules *)

Definition route_key (r : RoutePlan) : Z * Prefix * RouteType * Z :=
  (TableID r, rp_Prefix r, Type_ r, default 0 (Metric r)).
Definition addRoute (c : compiled) (r : RoutePlan) : compiled :=
  if bool_decide (route_key r ∈ routeKeys c) then c
  else mkCompiled (route_key r :: routeKeys c) (c_Routes c ++ [r]) (ruleKeys c) (c_Rules c).

Definition rule_key (r : RulePlan) : Z * Prefix * Prefix := (rl_TableID r, rl_Source r, rl_Destination r).
Definition addRule (c : compiled) (r : RulePlan) : compiled :=
  if bool_decide (rule_key r ∈ ruleKeys c) then c
  else mkCompiled (routeKeys c) (c_Routes c) (rule_key r :: ruleKeys c) (c_Rules c ++ [r]).

Definition guard_route (table : Z) (prefix : Prefix) : RoutePlan :=
  mkRoutePlan table prefix RouteUnreachable "" "" (Some UnreachableMetric).
Definition guard_ (table : Z) (c : compiled) (prefix : Prefix) : compiled :=
  addRoute c (guard_route table prefix).

(** [netip.MustParsePrefix] panics on a bad prefix. *)
Definition MustParsePrefix (raw : string) : result Prefix :=
  match ParsePrefix raw with Ok p => Ok p | _ => Panic end.

(** A loop whose body can fail. *)
Fixpoint loop {A B} (f : B → A → result B) (b : B) (l : list A) : result B :=
  match l with
  | [] => Ok b
  | x :: l => b ← f b x; loop f b l
  end.

Definition sourcePrefixes (d : DomainSpec) : result (list Prefix) :=
  loop (λ acc raw, p ← MustParsePrefix raw; Ok (acc ++ [p])) [] (SourcePrefixes d).

(** The first prefix of each family; a bad text counts as the zero prefix. *)
Definition canonical_step (acc : gset bool * list Prefix) (value : string) :=
  let '(seen, result) := acc in
  let prefix := match ParsePrefix value with Ok p => p | _ => Prefix_zero end in
  let family := Is4 (Prefix_Addr prefix) in
  if bool_decide (family ∈ seen) then acc else ({[family]} ∪ seen, result ++ [prefix]).
Definition canonicalSources (raw : list string) : list Prefix := (foldl canonical_step (∅, []) raw).2.

(** The routes of a map, handed to a callback that changes a state. *)
Definition peer_route {A} (tableID : Z) (peerName interface : string) (add : A → RoutePlan → A)
    (a : A) (item : Route) : result A :=
  match ParsePrefix (r_Prefix item) with
  | Ok prefix => Ok (add a (mkRoutePlan tableID prefix RouteViaPeer peerName interface (r_Metric item)))
  | Err _ => Err (errors_New "route prefix")
  | Panic => Panic
  end.
Definition compilePeerRoutes {A} (routes : Routes) (tableID : Z) (links : gmap string LinkPlan)
    (add : A → RoutePlan → A) (a : A) : result A :=
  loop (λ a peerName,
    match links !! peerName with
    | None => Err (errors_New "route references unknown peer")
    | Some link =>
      loop (peer_route tableID peerName (InterfaceName link) add) a (default [] (routes !! peerName))
    end) a (sorted_keys routes).

Definition with_table (table : Z) (r : RoutePlan) : RoutePlan :=
  mkRoutePlan table (rp_Prefix r) (Type_ r) (PeerName r) (rp_InterfaceName r) (Metric r).

(** The pools: one rule each, and a guard in every table. *)
Definition compile_pool (fabric : Z) (tables : list Z) (c : compiled) (pool : Prefix) : compiled :=
  let c := addRule c (mkRulePlan fabric FabricRulePriority Prefix_zero pool) in
  foldl (λ c table, guard_ table c pool) c tables.

(** A route of the infrastructure is copied into every table. *)
Definition add_everywhere (tables : list Z) (c : compiled) (r : RoutePlan) : compiled :=
  foldl (λ c table, addRoute c (with_table table r)) c tables.

(** A route of a domain; a return path is copied into the fabric table. *)
Definition add_domain_route (fabric : Z) (d : DomainSpec) (c : compiled) (r : RoutePlan) : compiled :=
  let c := addRoute c r in
  if IsAccessPrefix d (rp_Prefix r) then addRoute c (with_table fabric r) else c.

Definition compile_source (fabric : Z) (d : DomainSpec) (c : compiled) (prefix : Prefix) : compiled :=
  let c := addRule c (mkRulePlan (SourceTableID d) DomainRulePriority prefix Prefix_zero) in
  let c := addRule c (mkRulePlan fabric FabricRulePriority Prefix_zero prefix) in
  guard_ (SourceTableID d) (guard_ fabric c prefix) prefix.

Definition zero_of (canonical : Prefix) : Prefix :=
  if Is4 (Prefix_Addr canonical) then PrefixFrom (Addr4 0) 0 else PrefixFrom (Addr6 0 "") 0.

Definition throw_route (table : Z) (prefix : Prefix) : RoutePlan :=
  mkRoutePlan table prefix RouteThrow "" "" None.
Definition compile_announcement (fabric : Z) (d : DomainSpec) (c : compiled) (a : Announcement) :
    result compiled :=
  prefix ← MustParsePrefix (a_Prefix a);
  let c := addRoute c (throw_route (SourceTableID d) prefix) in
  Ok (if IsAccessPrefix d prefix then addRoute c (throw_route fabric prefix) else c).

Definition compile_domain (fabric : Z) (s : NodeSpec) (links : gmap string LinkPlan)
    (c : compiled) (name : string) : result compiled :=
  match Domains s !! name with
  | None => Ok c                                   (* [names] are the keys *)
  | Some d =>
    sources ← sourcePrefixes d;
    let c := foldl (compile_source fabric d) c sources in
    let c := foldl (λ c canonical, guard_ (SourceTableID d) c (zero_of canonical)) c
      (canonicalSources (SourcePrefixes d)) in
    c ← compilePeerRoutes (StaticRoutes d) (SourceTableID d) links (add_domain_route fabric d) c;
    loop (compile_announcement fabric d) c (Announcements d)
  end.

Definition tables_of (fabric : Z) (s : NodeSpec) : list Z :=
  fabric :: map (λ name, match Domains s !! name with Some d => SourceTableID d | None => 0 end)
    (sorted_keys (Domains s)).

Definition compileRouting (fabric : Z) (s : NodeSpec) (links : gmap string LinkPlan) : result compiled :=
  let tables := tables_of fabric s in
  let c := foldl (compile_pool fabric tables) compiled_zero (InfrastructurePrefixes (Fabric s)) in
  c ← compilePeerRoutes (f_StaticRoutes (Fabric s)) fabric links (add_everywhere tables) c;
  loop (compile_domain fabric s links) c (sorted_keys (Domains s)).

(** * The Babel plan *)

(** Conversion to uint16. *)
Definition announcementMetric (a : Announcement) : Z :=
  match a_Metric a with None => 0 | Some m => m mod 65536 end.

Definition same_family (a b : Prefix) : bool := eqb (Is4 (Prefix_Addr a)) (Is4 (Prefix_Addr b)).

(** An exit announcement, exported for one source of its family. *)
Definition exit_origin (d : DomainSpec) (canonical : Prefix) (acc : list BabelOrigin) (a : Announcement) :
    result (list BabelOrigin) :=
  prefix ← MustParsePrefix (a_Prefix a);
  Ok (if negb (IsAccessPrefix d prefix) && same_family prefix canonical
      then acc ++ [mkBabelOrigin prefix canonical (announcementMetric a)] else acc).
(** An access announcement, exported without a source. *)
Definition access_origin (d : DomainSpec) (acc : list BabelOrigin) (a : Announcement) :
    result (list BabelOrigin) :=
  prefix ← MustParsePrefix (a_Prefix a);
  Ok (if IsAccessPrefix d prefix
      then acc ++ [mkBabelOrigin prefix Prefix_zero (announcementMetric a)] else acc).

(** The plan's lists: import sources, views, origins. *)
Definition babel_canonical (d : DomainSpec) (allowed : list Prefix)
    (acc : list Prefix * list BabelView * list BabelOrigin) (canonical : Prefix) :
    result (list Prefix * list BabelView * list BabelOrigin) :=
  let '(sources, views, origins) := acc in
  let family := filter (λ p, same_family p canonical = true) allowed in
  origins ← loop (exit_origin d canonical) origins (Announcements d);
  Ok (sources ++ [canonical],
      views ++ [mkBabelView family (SourceTableID d) canonical DomainRulePriority], origins).
Definition babel_domain (s : NodeSpec) (acc : list Prefix * list BabelView * list BabelOrigin)
    (name : string) : result (list Prefix * list BabelView * list BabelOrigin) :=
  match Domains s !! name with
  | None => Ok acc
  | Some d =>
    sources ← sourcePrefixes d;
    let allowed := InfrastructurePrefixes (Fabric s) ++ sources in
    acc ← loop (babel_canonical d allowed) acc (canonicalSources (SourcePrefixes d));
    let '(imports, views, origins) := acc in
    origins ← loop (access_origin d) origins (Announcements d);
    Ok (imports, views, origins)
  end.

(** [uuid] is the text of the node's UUID: a clean path element, so that
    [filepath.Join] only inserts separators. *)
Definition compileBabel (uuid : string) (fabric : Z) (loopbackV6 : Addr) (s : NodeSpec) : result BabelPlan :=
  let executable := match Babel s with Some b => Executable b | None => ""%string end in
  let executable := if bool_decide (executable = ""%string) then "babel-rs"%string else executable in
  let runtimeRoot := ("/run/velvet-babel/" ++ uuid)%string in
  let stateRoot := ("/var/lib/velvet/" ++ uuid)%string in
  ordinary ← loop (λ acc name,
    match Domains s !! name with
    | None => Ok acc
    | Some d => sources ← sourcePrefixes d; Ok (acc ++ sources)
    end) (InfrastructurePrefixes (Fabric s)) (sorted_keys (Domains s));
  lists ← loop (babel_domain s)
    ([], [mkBabelView ordinary fabric Prefix_zero 0],
     [mkBabelOrigin (PrefixFrom loopbackV6 128) Prefix_zero 0]) (sorted_keys (Domains s));
  let '(imports, views, origins) := lists in
  Ok (mkBabelPlan "" executable (stateRoot ++ "/babel-rs.toml")%string (runtimeRoot ++ "/babel-rs.ctl")%string
    (stateRoot ++ "/babel-rs-state.toml")%string [] origins views ordinary imports BabelDynamicProtocol true false).
