(* ===== verification/DesiredProps.v ===== *)
(** What routing compilation guarantees for a validated specification: the
    routes and rules of the result are those of [entry_route] and [entry_rule],
    without repeated keys, and they keep the domains apart. *)

From S2P Require Import Prelude Netip NetipText Ports Spec SpecProps Desired.
From stdpp Require Import gmap strings.
Open Scope Z_scope.
Open Scope velvet_scope.

(** * The compiled state as the fold of a list of entries *)

Definition entry : Type := RoutePlan + RulePlan.
Definition apply_entry (c : compiled) (e : entry) : compiled :=
  match e with inl r => addRoute c r | inr r => addRule c r end.
Definition add_entries (c : compiled) (es : list entry) : compiled := foldl apply_entry c es.

Record compiled_ok (es : list entry) (c : compiled) : Prop := {
  co_routes : ∀ r, r ∈ c_Routes c → inl r ∈ es;
  co_rules : ∀ r, r ∈ c_Rules c → inr r ∈ es;
  co_route_keys : ∀ k, k ∈ routeKeys c ↔ ∃ r, r ∈ c_Routes c ∧ route_key r = k;
  co_rule_keys : ∀ k, k ∈ ruleKeys c ↔ ∃ r, r ∈ c_Rules c ∧ rule_key r = k;
  co_all_routes : ∀ r, inl r ∈ es → ∃ r', r' ∈ c_Routes c ∧ route_key r' = route_key r;
  co_all_rules : ∀ r, inr r ∈ es → ∃ r', r' ∈ c_Rules c ∧ rule_key r' = rule_key r;
  co_nodup_routes : NoDup (map route_key (c_Routes c));
  co_nodup_rules : NoDup (map rule_key (c_Rules c))
}.

Lemma NoDup_map_snoc {A B} (f : A → B) l x :
  NoDup (map f l) → (∀ y, y ∈ l → f y ≠ f x) → NoDup (map f (l ++ [x])).
Proof.
  intros N H. rewrite map_app. apply NoDup_app. split_and!; [done| |apply NoDup_singleton].
  intros k (y & -> & Hy)%list_elem_of_fmap Hk. cbn in Hk. apply list_elem_of_singleton in Hk. by apply (H y).
Qed.

Lemma compiled_ok_step es c e : compiled_ok es c → compiled_ok (es ++ [e]) (apply_entry c e).
Proof.
  intros []. destruct e as [r|r]; cbn [apply_entry].
  - unfold addRoute. case_bool_decide as K.
    + apply co_route_keys0 in K as (r0 & Hr0 & Ek).
      split; try done; try (intros; apply elem_of_app; left; auto; fail).
      * intros r1 [H|H]%elem_of_app; [by apply co_all_routes0|].
        apply list_elem_of_singleton in H as [= ->]. by exists r0.
      * intros r1 [H|H]%elem_of_app; [by apply co_all_rules0|]. by apply list_elem_of_singleton in H.
    + rewrite co_route_keys0 in K. split; cbn; try done.
      * intros r1 [H|H]%elem_of_app; apply elem_of_app; [left; by apply co_routes0|right].
        apply list_elem_of_singleton in H as ->. by left.
      * intros r1 H. apply elem_of_app. left. by apply co_rules0.
      * intros k. rewrite elem_of_cons, co_route_keys0.
        setoid_rewrite elem_of_app. setoid_rewrite list_elem_of_singleton. naive_solver.
      * intros r1 [H|H]%elem_of_app.
        -- destruct (co_all_routes0 r1 H) as (r' & ? & ?). exists r'. split; [apply elem_of_app; by left|done].
        -- apply list_elem_of_singleton in H as [= ->]. exists r. split; [apply elem_of_app; right; by left|done].
      * intros r1 [H|H]%elem_of_app; [by apply co_all_rules0|]. by apply list_elem_of_singleton in H.
      * apply NoDup_map_snoc; [done|]. intros y Hy E. apply K. by exists y.
  - unfold addRule. case_bool_decide as K.
    + apply co_rule_keys0 in K as (r0 & Hr0 & Ek).
      split; try done; try (intros; apply elem_of_app; left; auto; fail).
      * intros r1 [H|H]%elem_of_app; [by apply co_all_routes0|]. by apply list_elem_of_singleton in H.
      * intros r1 [H|H]%elem_of_app; [by apply co_all_rules0|].
        apply list_elem_of_singleton in H as [= ->]. by exists r0.
    + rewrite co_rule_keys0 in K. split; cbn; try done.
      * intros r1 H. apply elem_of_app. left. by apply co_routes0.
      * intros r1 [H|H]%elem_of_app; apply elem_of_app; [left; by apply co_rules0|right].
        apply list_elem_of_singleton in H as ->. by left.
      * intros k. rewrite elem_of_cons, co_rule_keys0.
        setoid_rewrite elem_of_app. setoid_rewrite list_elem_of_singleton. naive_solver.
      * intros r1 [H|H]%elem_of_app; [by apply co_all_routes0|]. by apply list_elem_of_singleton in H.
      * intros r1 [H|H]%elem_of_app.
        -- destruct (co_all_rules0 r1 H) as (r' & ? & ?). exists r'. split; [apply elem_of_app; by left|done].
        -- apply list_elem_of_singleton in H as [= ->]. exists r. split; [apply elem_of_app; right; by left|done].
      * apply NoDup_map_snoc; [done|]. intros y Hy E. apply K. by exists y.
Qed.

Lemma compiled_ok_all es : compiled_ok es (add_entries compiled_zero es).
Proof.
  induction es as [|e es IH] using rev_ind.
  - split; cbn; try (by intros ? []%not_elem_of_nil); try apply NoDup_nil_2.
    all: intros; split; [intros []%not_elem_of_nil|intros (? & []%not_elem_of_nil & _)].
  - unfold add_entries in *. rewrite foldl_app. by apply compiled_ok_step.
Qed.

Lemma add_entries_app c es fs : add_entries c (es ++ fs) = add_entries (add_entries c es) fs.
Proof. apply foldl_app. Qed.

(** A loop whose body adds entries adds their concatenation. *)
Lemma foldl_adds {A} (f : compiled → A → compiled) (g : A → list entry) l c :
  (∀ c x, f c x = add_entries c (g x)) → foldl f c l = add_entries c (l ≫= g).
Proof.
  intros H. revert c. induction l as [|x l IH]; intros c; cbn; [done|].
  by rewrite IH, H, add_entries_app.
Qed.

Lemma loop_adds {A} (f : compiled → A → result compiled) (g : A → list entry) l c :
  (∀ c x, x ∈ l → f c x = Ok (add_entries c (g x))) → loop f c l = Ok (add_entries c (l ≫= g)).
Proof.
  revert c. induction l as [|x l IH]; intros c H; cbn; [done|].
  rewrite H by by left. rewrite bind_Ok, IH by (intros; apply H; by right). by rewrite add_entries_app.
Qed.

(** * The entries *)

Definition pool_entries (fabric : Z) (tables : list Z) (pool : Prefix) : list entry :=
  inr (mkRulePlan fabric FabricRulePriority Prefix_zero pool) :: map (λ t, inl (guard_route t pool)) tables.
Definition everywhere_entries (tables : list Z) (r : RoutePlan) : list entry :=
  map (λ t, inl (with_table t r)) tables.
Definition domain_route_entries (fabric : Z) (d : DomainSpec) (r : RoutePlan) : list entry :=
  inl r :: (if IsAccessPrefix d (rp_Prefix r) then [inl (with_table fabric r)] else []).
Definition source_entries (fabric : Z) (d : DomainSpec) (p : Prefix) : list entry :=
  [inr (mkRulePlan (SourceTableID d) DomainRulePriority p Prefix_zero);
   inr (mkRulePlan fabric FabricRulePriority Prefix_zero p);
   inl (guard_route fabric p); inl (guard_route (SourceTableID d) p)].
Definition announcement_entries (fabric : Z) (d : DomainSpec) (p : Prefix) : list entry :=
  inl (throw_route (SourceTableID d) p) ::
  (if IsAccessPrefix d p then [inl (throw_route fabric p)] else []).

Definition parsed (raw : string) : Prefix := match ParsePrefix raw with Ok p => p | _ => Prefix_zero end.
Definition peer_plan (table : Z) (links : gmap string LinkPlan) (x : string * Route) : RoutePlan :=
  mkRoutePlan table (parsed (r_Prefix x.2)) RouteViaPeer x.1
    (match links !! x.1 with Some l => InterfaceName l | None => "" end) (r_Metric x.2).

Definition domain_entries (fabric : Z) (links : gmap string LinkPlan) (d : DomainSpec) : list entry :=
  (map parsed (SourcePrefixes d) ≫= source_entries fabric d) ++
  map (λ p, inl (guard_route (SourceTableID d) (zero_of p))) (canonicalSources (SourcePrefixes d)) ++
  (map (peer_plan (SourceTableID d) links) (all_routes (StaticRoutes d)) ≫= domain_route_entries fabric d) ++
  (map (parsed ∘ a_Prefix) (Announcements d) ≫= announcement_entries fabric d).

Definition entries (fabric : Z) (s : NodeSpec) (links : gmap string LinkPlan) : list entry :=
  let tables := tables_of fabric s in
  (InfrastructurePrefixes (Fabric s) ≫= pool_entries fabric tables) ++
  (map (peer_plan fabric links) (all_routes (f_StaticRoutes (Fabric s))) ≫= everywhere_entries tables) ++
  (sorted_keys (Domains s) ≫= λ name,
     match Domains s !! name with Some d => domain_entries fabric links d | None => [] end).

Lemma canonical_parsed raw p : canonical raw p → ParsePrefix raw = Ok p ∧ parsed raw = p ∧ Masked p = p.
Proof.
  unfold canonical, parseCanonicalPrefix, parsed. destruct (ParsePrefix raw) as [q|e|]; [|done..].
  case_bool_decide as M; [|done]. intros [= <-]. by split_and!.
Qed.

Lemma sourcePrefixes_ok d ps :
  Forall2 canonical (SourcePrefixes d) ps → sourcePrefixes d = Ok (map parsed (SourcePrefixes d)) ∧
    map parsed (SourcePrefixes d) = ps.
Proof.
  unfold sourcePrefixes. assert (G : ∀ raws ps acc, Forall2 canonical raws ps →
    loop (λ acc raw, p ← MustParsePrefix raw; Ok (acc ++ [p])) acc raws = Ok (acc ++ map parsed raws) ∧
    map parsed raws = ps).
  { induction raws as [|raw raws IH]; intros qs acc F; inversion F as [|? q ? qs' C F']; subst; cbn [loop map].
    - by rewrite app_nil_r.
    - apply canonical_parsed in C as (E & Ep & _).
      assert (M : MustParsePrefix raw = Ok q) by (unfold MustParsePrefix; by rewrite E).
      destruct (IH qs' (acc ++ [q]) F') as [Eq <-]. cbv beta. rewrite M, bind_Ok, Ep. split; [|done].
      etrans; [exact Eq|]. by rewrite <-app_assoc. }
  intros F. apply (G _ _ [] F).
Qed.

Lemma compilePeerRoutes_ok routes table links peerNames ps (add : compiled → RoutePlan → compiled) g c :
  routes_valid routes peerNames ps → (∀ name, name ∈ peerNames → is_Some (links !! name)) →
  (∀ c r, add c r = add_entries c (g r)) →
  compilePeerRoutes routes table links add c =
    Ok (add_entries c (map (peer_plan table links) (all_routes routes) ≫= g)).
Proof.
  intros (Names & F & _) L G. unfold compilePeerRoutes.
  assert (Ps : ∀ name item, (name, item) ∈ all_routes routes → ∃ p, ParsePrefix (r_Prefix item) = Ok p).
  { intros name item H. apply list_elem_of_lookup in H as [i Hi].
    destruct (Forall2_lookup_l _ _ _ _ _ F Hi) as (p & _ & [C _]). exists p. by apply canonical_parsed in C as [? _]. }
  rewrite (loop_adds _ (λ name, map (peer_plan table links) (map (pair name) (default [] (routes !! name))) ≫= g)).
  - f_equal. f_equal. unfold all_routes. induction (sorted_keys routes) as [|n ns IH]; [done|].
    cbn. by rewrite map_app, bind_app, IH.
  - intros c' name Hn. apply sorted_keys_elem in Hn as [items Hi].
    destruct (Names name items Hi) as [Hp _]. destruct (L name Hp) as [link Hl]. rewrite Hl.
    rewrite (loop_adds _ (λ item, g (peer_plan table links (name, item)))).
    + f_equal. f_equal. rewrite map_map. generalize (default [] (routes !! name)) as l.
      induction l as [|x l IH]; [done|]. cbn. by rewrite IH.
    + intros c2 item Hit. destruct (Ps name item) as [p Ep].
      { unfold all_routes. apply list_elem_of_bind. exists name.
        split; [by apply list_elem_of_fmap_2|]. apply sorted_keys_elem. by exists items. }
      unfold peer_route, peer_plan, parsed. cbn. by rewrite Ep, Hl, G.
Qed.

(** * Compilation succeeds, and adds the entries *)

Lemma bind_map {A B C} (f : A → B) (g : B → list C) l : map f l ≫= g = l ≫= (g ∘ f).
Proof. induction l as [|x l IH]; [done|]. cbn. by rewrite IH. Qed.
Lemma bind_single {A B} (f : A → B) l : l ≫= (λ x, [f x]) = map f l.
Proof. induction l as [|x l IH]; [done|]. cbn. by rewrite <-IH. Qed.

Lemma compile_source_adds fabric d c p : compile_source fabric d c p = add_entries c (source_entries fabric d p).
Proof. done. Qed.
Lemma compile_pool_adds fabric tables c pool :
  compile_pool fabric tables c pool = add_entries c (pool_entries fabric tables pool).
Proof.
  unfold compile_pool, pool_entries. rewrite (foldl_adds _ (λ t, [inl (guard_route t pool)])) by done.
  by rewrite bind_single.
Qed.
Lemma add_everywhere_adds tables c r : add_everywhere tables c r = add_entries c (everywhere_entries tables r).
Proof.
  unfold add_everywhere, everywhere_entries. rewrite (foldl_adds _ (λ t, [inl (with_table t r)])) by done.
  by rewrite bind_single.
Qed.
Lemma add_domain_route_adds fabric d c r :
  add_domain_route fabric d c r = add_entries c (domain_route_entries fabric d r).
Proof. unfold add_domain_route, domain_route_entries. by destruct (IsAccessPrefix d (rp_Prefix r)). Qed.

Lemma compile_domain_adds fabric s links pools peerNames src rts anns c name d :
  Domains s !! name = Some d → domain_valid d name pools peerNames src rts anns →
  (∀ name, name ∈ peerNames → is_Some (links !! name)) →
  compile_domain fabric s links c name = Ok (add_entries c (domain_entries fabric links d)).
Proof.
  intros L [] K. unfold compile_domain. rewrite L.
  destruct (sourcePrefixes_ok d src) as [-> _]; [done|]. rewrite bind_Ok.
  rewrite (foldl_adds (compile_source fabric d) (source_entries fabric d)) by (intros; apply compile_source_adds).
  rewrite (foldl_adds (λ c p, guard_ (SourceTableID d) c (zero_of p)) (λ p, [inl (guard_route (SourceTableID d) (zero_of p))])) by done.
  rewrite (compilePeerRoutes_ok _ _ _ peerNames rts _ (domain_route_entries fabric d))
    by (done || apply add_domain_route_adds).
  rewrite bind_Ok. rewrite (loop_adds _ (λ a, announcement_entries fabric d (parsed (a_Prefix a)))).
  - unfold domain_entries. by rewrite !add_entries_app, bind_single, (bind_map (parsed ∘ a_Prefix)).
  - intros c' a Ha. apply list_elem_of_lookup in Ha as [i Hi].
    destruct (Forall2_lookup_l _ _ _ _ _ dv_announcements Hi) as (p & _ & [C _]).
    apply canonical_parsed in C as (E & Ep & _). unfold compile_announcement, MustParsePrefix.
    rewrite E, bind_Ok, Ep. unfold announcement_entries. by destruct (IsAccessPrefix d p).
Qed.

Lemma compileRouting_adds s peerNames links fabric :
  routing_valid s peerNames → (∀ name, name ∈ peerNames → is_Some (links !! name)) →
  compileRouting fabric s links = Ok (add_entries compiled_zero (entries fabric s links)).
Proof.
  intros [_ (ps & Rv & _) D _ _] K. unfold compileRouting.
  rewrite (foldl_adds _ (pool_entries fabric (tables_of fabric s))) by (intros; apply compile_pool_adds).
  rewrite (compilePeerRoutes_ok _ _ _ peerNames ps _ (everywhere_entries (tables_of fabric s)))
    by (done || apply add_everywhere_adds).
  rewrite bind_Ok. erewrite loop_adds; [unfold entries; by rewrite !add_entries_app|].
  intros c name Hn. apply sorted_keys_elem in Hn as [d L]. cbn. rewrite L.
  destruct (D name d L) as [_ (src & rts & anns & V)]. by eapply compile_domain_adds.
Qed.

(** * Where the entries come from *)

Lemma elem_of_map_inl {A} (f : A → RoutePlan) (l : list A) r :
  (inl r : entry) ∈ map (λ a, inl (f a)) l ↔ ∃ a, r = f a ∧ a ∈ l.
Proof. rewrite list_elem_of_fmap. split; intros (a & E & H); exists a; split; congruence. Qed.

Lemma pool_entries_routes fabric tables pool r :
  inl r ∈ pool_entries fabric tables pool ↔ ∃ t, r = guard_route t pool ∧ t ∈ tables.
Proof. unfold pool_entries. rewrite elem_of_cons, elem_of_map_inl. naive_solver. Qed.
Lemma everywhere_entries_routes tables r0 r :
  inl r ∈ everywhere_entries tables r0 ↔ ∃ t, r = with_table t r0 ∧ t ∈ tables.
Proof. apply elem_of_map_inl. Qed.
Lemma domain_route_entries_routes fabric d r0 r :
  inl r ∈ domain_route_entries fabric d r0 ↔
  r = r0 ∨ IsAccessPrefix d (rp_Prefix r0) = true ∧ r = with_table fabric r0.
Proof.
  unfold domain_route_entries. rewrite elem_of_cons. destruct (IsAccessPrefix d (rp_Prefix r0)).
  - rewrite list_elem_of_singleton. naive_solver.
  - rewrite elem_of_nil. naive_solver.
Qed.
Lemma source_entries_routes fabric d p r :
  inl r ∈ source_entries fabric d p ↔ r = guard_route fabric p ∨ r = guard_route (SourceTableID d) p.
Proof. unfold source_entries. rewrite !elem_of_cons, elem_of_nil. naive_solver. Qed.
Lemma announcement_entries_routes fabric d p r :
  inl r ∈ announcement_entries fabric d p ↔ r = throw_route (SourceTableID d) p ∨
  IsAccessPrefix d p = true ∧ r = throw_route fabric p.
Proof.
  unfold announcement_entries. rewrite elem_of_cons. destruct (IsAccessPrefix d p).
  - rewrite list_elem_of_singleton. naive_solver.
  - rewrite elem_of_nil. naive_solver.
Qed.

(** The routes of a domain. *)
Inductive domain_entry_route (fabric : Z) (links : gmap string LinkPlan) (d : DomainSpec) : RoutePlan → Prop :=
| de_guard p t : p ∈ map parsed (SourcePrefixes d) → t = fabric ∨ t = SourceTableID d →
    domain_entry_route fabric links d (guard_route t p)
| de_zero p : p ∈ canonicalSources (SourcePrefixes d) →
    domain_entry_route fabric links d (guard_route (SourceTableID d) (zero_of p))
| de_peer x : x ∈ all_routes (StaticRoutes d) →
    domain_entry_route fabric links d (peer_plan (SourceTableID d) links x)
| de_return x : x ∈ all_routes (StaticRoutes d) → IsAccessPrefix d (parsed (r_Prefix x.2)) = true →
    domain_entry_route fabric links d (peer_plan fabric links x)
| de_throw a t : a ∈ Announcements d → t = SourceTableID d ∨ t = fabric ∧ IsAccessPrefix d (parsed (a_Prefix a)) = true →
    domain_entry_route fabric links d (throw_route t (parsed (a_Prefix a))).

Lemma domain_entries_routes fabric links d r :
  inl r ∈ domain_entries fabric links d ↔ domain_entry_route fabric links d r.
Proof.
  unfold domain_entries. rewrite !elem_of_app, !list_elem_of_bind, elem_of_map_inl.
  split.
  - intros [(p & [-> | ->]%source_entries_routes & Hp)|[(p & -> & Hp)|
      [(q & Hr%domain_route_entries_routes & (x & -> & Hx)%list_elem_of_fmap)|
       (p & Hr%announcement_entries_routes & (a & -> & Ha)%list_elem_of_fmap)]]];
      [..|destruct Hr as [-> | [A ->]]|destruct Hr as [-> | [A ->]]].
    + apply de_guard; [done|by left].
    + apply de_guard; [done|by right].
    + by apply de_zero.
    + by apply de_peer.
    + by apply de_return.
    + apply de_throw; [done|by left].
    + apply de_throw; [done|by right].
  - intros [p t Hp [-> | ->]|p Hp|x Hx|x Hx A|a t Ha Ht].
    + left. exists p. split; [apply source_entries_routes; by left|done].
    + left. exists p. split; [apply source_entries_routes; by right|done].
    + right; left. by exists p.
    + right; right; left. exists (peer_plan (SourceTableID d) links x).
      split; [apply domain_route_entries_routes; by left|by apply list_elem_of_fmap_2].
    + right; right; left. exists (peer_plan (SourceTableID d) links x).
      split; [apply domain_route_entries_routes; by right|by apply list_elem_of_fmap_2].
    + right; right; right. exists (parsed (a_Prefix a)).
      split; [apply announcement_entries_routes|by apply (list_elem_of_fmap_2 (parsed ∘ a_Prefix))].
      destruct Ht as [-> | [-> A]]; [by left|by right].
Qed.

Lemma tables_of_elem fabric s t :
  t ∈ tables_of fabric s ↔ t = fabric ∨ ∃ name d, Domains s !! name = Some d ∧ t = SourceTableID d.
Proof.
  unfold tables_of. rewrite elem_of_cons, list_elem_of_fmap. setoid_rewrite sorted_keys_elem. split.
  - intros [->|(name & -> & [d L])]; [by left|right]. exists name, d. by rewrite L.
  - intros [->|(name & d & L & ->)]; [by left|right]. exists name. rewrite L. by split; [|exists d].
Qed.

Inductive entry_route (fabric : Z) (s : NodeSpec) (links : gmap string LinkPlan) : RoutePlan → Prop :=
| er_guard pool t : pool ∈ InfrastructurePrefixes (Fabric s) → t ∈ tables_of fabric s →
    entry_route fabric s links (guard_route t pool)
| er_fabric x t : x ∈ all_routes (f_StaticRoutes (Fabric s)) → t ∈ tables_of fabric s →
    entry_route fabric s links (peer_plan t links x)
| er_domain name d r : Domains s !! name = Some d → domain_entry_route fabric links d r →
    entry_route fabric s links r.

Lemma elem_of_domains {A} (f : DomainSpec → list A) s (e : A) :
  e ∈ (sorted_keys (Domains s) ≫= λ name, match Domains s !! name with Some d => f d | None => [] end) ↔
  ∃ name d, Domains s !! name = Some d ∧ e ∈ f d.
Proof.
  rewrite list_elem_of_bind. setoid_rewrite sorted_keys_elem. split.
  - intros (name & H & [d L]). rewrite L in H. by exists name, d.
  - intros (name & d & L & H). exists name. rewrite L. by split; [|exists d].
Qed.

Lemma entries_routes fabric s links r : inl r ∈ entries fabric s links ↔ entry_route fabric s links r.
Proof.
  unfold entries. rewrite !elem_of_app, elem_of_domains, !list_elem_of_bind. split.
  - intros [(pool & (t & -> & Ht)%pool_entries_routes & Hp)|
      [(q & (t & -> & Ht)%everywhere_entries_routes & (x & -> & Hx)%list_elem_of_fmap)|
       (name & d & L & H%domain_entries_routes)]]; [by apply er_guard|by apply er_fabric|by eapply er_domain].
  - intros [pool t Hp Ht|x t Hx Ht|name d r' L H].
    + left. exists pool. split; [|done]. apply pool_entries_routes. by exists t.
    + right; left. exists (peer_plan fabric links x). split; [|by apply list_elem_of_fmap_2].
      apply everywhere_entries_routes. by exists t.
    + right; right. exists name, d. split; [done|]. by apply domain_entries_routes.
Qed.

(** The rules. *)
Inductive entry_rule (fabric : Z) (s : NodeSpec) : RulePlan → Prop :=
| el_pool pool : pool ∈ InfrastructurePrefixes (Fabric s) →
    entry_rule fabric s (mkRulePlan fabric FabricRulePriority Prefix_zero pool)
| el_return name d p : Domains s !! name = Some d → p ∈ map parsed (SourcePrefixes d) →
    entry_rule fabric s (mkRulePlan fabric FabricRulePriority Prefix_zero p)
| el_source name d p : Domains s !! name = Some d → p ∈ map parsed (SourcePrefixes d) →
    entry_rule fabric s (mkRulePlan (SourceTableID d) DomainRulePriority p Prefix_zero).

Lemma inr_not_inl {A} (f : A → RoutePlan) l r : ¬ (inr r : entry) ∈ map (λ a, inl (f a)) l.
Proof. by intros (a & E & _)%list_elem_of_fmap. Qed.

Lemma domain_entries_rules fabric links d r :
  inr r ∈ domain_entries fabric links d ↔ ∃ p, p ∈ map parsed (SourcePrefixes d) ∧
    (r = mkRulePlan (SourceTableID d) DomainRulePriority p Prefix_zero ∨
     r = mkRulePlan fabric FabricRulePriority Prefix_zero p).
Proof.
  unfold domain_entries. rewrite !elem_of_app, !list_elem_of_bind. split.
  - intros [(p & H & Hp)|[[]%inr_not_inl|[(q & H & _)|(p & H & _)]]].
    + exists p. split; [done|]. unfold source_entries in H. rewrite !elem_of_cons, elem_of_nil in H. naive_solver.
    + unfold domain_route_entries in H. destruct (IsAccessPrefix _ _);
        rewrite ?elem_of_cons, elem_of_nil in H; naive_solver.
    + unfold announcement_entries in H. destruct (IsAccessPrefix _ _);
        rewrite ?elem_of_cons, elem_of_nil in H; naive_solver.
  - intros (p & Hp & H). left. exists p. split; [|done]. unfold source_entries.
    rewrite !elem_of_cons. naive_solver.
Qed.

Lemma entries_rules fabric s links r : inr r ∈ entries fabric s links ↔ entry_rule fabric s r.
Proof.
  unfold entries. rewrite !elem_of_app, elem_of_domains, !list_elem_of_bind. split.
  - intros [(pool & H & Hp)|[(q & []%inr_not_inl & _)|(name & d & L & (p & Hp & [->| ->])%domain_entries_rules)]].
    + unfold pool_entries in H. apply elem_of_cons in H as [[= ->]|[]%inr_not_inl]. by apply el_pool.
    + by eapply el_source.
    + by eapply el_return.
  - intros [pool Hp|name d p L Hp|name d p L Hp].
    + left. exists pool. split; [|done]. by apply elem_of_cons; left.
    + right; right. exists name, d. split; [done|]. apply domain_entries_rules. exists p. split; [done|by right].
    + right; right. exists name, d. split; [done|]. apply domain_entries_rules. exists p. split; [done|by left].
Qed.

(** * Guarantees *)

Section Valid.
Context (s : NodeSpec) (peerNames : gset string) (links : gmap string LinkPlan).
Context (V : validateRouting s peerNames = []) (K : ∀ name, name ∈ peerNames → is_Some (links !! name)).
Notation fabric := (EffectiveRoutingTableID (Fabric s)).

Lemma compiled_entries :
  ∃ c, compileRouting fabric s links = Ok c ∧ compiled_ok (entries fabric s links) c.
Proof using V K.
  apply validateRouting_decides in V. exists (add_entries compiled_zero (entries fabric s links)).
  split; [by eapply compileRouting_adds|apply compiled_ok_all].
Qed.
Lemma compiled_is c :
  compileRouting fabric s links = Ok c → compiled_ok (entries fabric s links) c.
Proof using V K. destruct compiled_entries as (c' & -> & H). by intros [= <-]. Qed.

(** A table of its own. *)
Lemma table_owner name d name' d' :
  Domains s !! name = Some d → Domains s !! name' = Some d' → SourceTableID d = SourceTableID d' → d = d'.
Proof using V.
  apply validateRouting_decides in V. intros L L' E.
  assert (name = name') as -> by (by eapply (rv_tables _ _ V)). congruence.
Qed.
Lemma table_not_fabric name d : Domains s !! name = Some d → SourceTableID d ≠ fabric.
Proof using V. apply validateRouting_decides in V. intros L. by eapply (rv_domains _ _ V). Qed.

Lemma fabric_contained x :
  x ∈ all_routes (f_StaticRoutes (Fabric s)) →
  prefixContained (parsed (r_Prefix x.2)) (InfrastructurePrefixes (Fabric s)) = true.
Proof using V.
  apply validateRouting_decides in V. destruct (rv_fabric _ _ V) as (ps & (_ & F & _) & C).
  intros [i Hi]%list_elem_of_lookup. destruct (Forall2_lookup_l _ _ _ _ _ F Hi) as (p & Hp & [Cp _]).
  apply canonical_parsed in Cp as (_ & -> & _). apply C. by eapply list_elem_of_lookup_2.
Qed.

Lemma domain_sources name d : Domains s !! name = Some d →
  Forall2 canonical (SourcePrefixes d) (map parsed (SourcePrefixes d)) ∧ SourcePrefixes d ≠ [].
Proof using V.
  apply validateRouting_decides in V. intros L.
  destruct (rv_domains _ _ V name d L) as (_ & src & rts & anns & []). split; [|done].
  destruct (sourcePrefixes_ok d src) as [_ ->]; done.
Qed.
End Valid.

Lemma canonicalSources_family raws f :
  containsFamily raws f = true → ∃ p, p ∈ canonicalSources raws ∧ Is4 (Prefix_Addr p) = f.
Proof.
  unfold canonicalSources, containsFamily. intros H.
  assert (G : ∀ raws seen acc, (∀ g, g ∈ seen → ∃ p, p ∈ acc ∧ Is4 (Prefix_Addr p) = g) →
    (f ∈ seen ∨ existsb (λ raw, match ParsePrefix raw with Ok p => eqb (Is4 (Prefix_Addr p)) f | _ => false end) raws = true) →
    ∃ p, p ∈ (foldl canonical_step (seen, acc) raws).2 ∧ Is4 (Prefix_Addr p) = f).
  { clear. induction raws as [|raw raws IH]; intros seen acc I C; cbn [foldl existsb] in *.
    - destruct C as [C|C]; [by apply I|done].
    - destruct (canonical_step (seen, acc) raw) as [seen' acc'] eqn:St. apply IH.
      + intros g. unfold canonical_step in St. case_bool_decide; injection St as <- <-; [apply I|].
        intros [->%elem_of_singleton|Hg]%elem_of_union.
        * eexists. split; [apply elem_of_app; right; by apply list_elem_of_singleton|done].
        * destruct (I g Hg) as (p & ? & ?). exists p. split; [apply elem_of_app; by left|done].
      + destruct C as [C|[C|C]%orb_true_iff]; [left|left|by right]; unfold canonical_step in St;
          case_bool_decide as D; injection St as <- <-; [done|set_solver| |];
          destruct (ParsePrefix raw) as [p| |]; try done; apply eqb_prop in C; subst f; [done|set_solver]. }
  apply (G raws ∅ []); [by intros ? ?%elem_of_empty|by right].
Qed.

Lemma zero_of_contains p a : Addr_IsValid a = true → Zone a = ""%string → wf_addr a →
  Is4 (Prefix_Addr p) = Is4 a → Contains (zero_of p) a = true.
Proof.
  intros Va Za W E. unfold zero_of. rewrite E.
  destruct a as [|v|v z]; [done|cbn in *; unfold Contains; cbn..].
  - apply Z.eqb_eq. by rewrite Z.div_small.
  - rewrite Za. cbn. apply Z.eqb_eq. by rewrite Z.div_small.
Qed.

Definition via_peer_of (routes : Routes) (r : RoutePlan) : Prop :=
  ∃ x, x ∈ all_routes routes ∧ PeerName r = x.1 ∧ ParsePrefix (r_Prefix x.2) = Ok (rp_Prefix r).

(** C37: for a specification whose routing passes validation and whose peers
    have links, compilation succeeds, and it produces the intended routes and
    rules: every one it produces is intended, for every intended one it produces
    the route or rule of that key, and no key twice. *)
Theorem compileRouting_refines s peerNames links :
  validateRouting s peerNames = [] → (∀ name, name ∈ peerNames → is_Some (links !! name)) →
  let fabric := EffectiveRoutingTableID (Fabric s) in
  ∃ c, compileRouting fabric s links = Ok c ∧
    (∀ r, r ∈ c_Routes c → entry_route fabric s links r) ∧
    (∀ r, entry_route fabric s links r → ∃ r', r' ∈ c_Routes c ∧ route_key r' = route_key r) ∧
    (∀ r, r ∈ c_Rules c → entry_rule fabric s r) ∧
    (∀ r, entry_rule fabric s r → ∃ r', r' ∈ c_Rules c ∧ rule_key r' = rule_key r) ∧
    NoDup (map route_key (c_Routes c)) ∧ NoDup (map rule_key (c_Rules c)).
Proof.
  intros V K fabric. destruct (compiled_entries s peerNames links V K) as (c & E & []).
  exists c. split_and!; try done.
  - intros r Hr. by eapply entries_routes, co_routes.
  - intros r Hr. by eapply co_all_routes, entries_routes.
  - intros r Hr. by eapply entries_rules, co_rules.
  - intros r Hr. by eapply co_all_rules, entries_rules.
Qed.

(** Domains are kept apart.  A route through a peer is either inside the
    infrastructure pools, or a static route of one domain; the latter is in
    that domain's own table, and in the fabric table only as the return path to
    a source prefix of the domain. *)
Theorem compileRouting_isolated s peerNames links c r :
  validateRouting s peerNames = [] → (∀ name, name ∈ peerNames → is_Some (links !! name)) →
  compileRouting (EffectiveRoutingTableID (Fabric s)) s links = Ok c →
  r ∈ c_Routes c → Type_ r = RouteViaPeer →
  prefixContained (rp_Prefix r) (InfrastructurePrefixes (Fabric s)) = true ∨
  ∃ name d, Domains s !! name = Some d ∧ via_peer_of (StaticRoutes d) r ∧
    (TableID r = SourceTableID d ∧ (∀ name' d', Domains s !! name' = Some d' → TableID r = SourceTableID d' → d' = d) ∨
     TableID r = EffectiveRoutingTableID (Fabric s) ∧ IsAccessPrefix d (rp_Prefix r) = true).
Proof.
  intros V K E Hr T. destruct (compiled_is s peerNames links V K c E) as [C _ _ _ _ _ _ _].
  apply C, entries_routes in Hr. destruct Hr as [| |name d r' L Hd]; [done| |].
  - left. by eapply fabric_contained.
  - right. exists name, d. split; [done|].
    assert (P : ∀ x t, x ∈ all_routes (StaticRoutes d) → via_peer_of (StaticRoutes d) (peer_plan t links x)).
    { intros x t Hx. exists x. split_and!; [done..|]. cbn. unfold parsed.
      apply validateRouting_decides in V. destruct (rv_domains _ _ V name d L) as (_ & src & rts & anns & []).
      destruct dv_routes as (_ & F & _). apply list_elem_of_lookup in Hx as [i Hi].
      destruct (Forall2_lookup_l _ _ _ _ _ F Hi) as (p & Hp & [Cp _]).
      apply canonical_parsed in Cp as (-> & _). done. }
    destruct Hd as [| |x Hx|x Hx A|]; [done|done| | |done].
    + split; [by apply P|]. left. split; [done|]. intros name' d' L' E'.
      by eapply (table_owner s peerNames V name').
    + split; [by apply P|]. right. by split.
Qed.

(** Lookups in a domain's table fail closed.  Every pool is guarded by an
    unreachable route in every table; every source prefix of a domain is, in the
    fabric table and in the domain's; and an address of a family that the domain
    has sources of is always covered by a guard of the domain's table. *)
Theorem compileRouting_guarded s peerNames links c :
  validateRouting s peerNames = [] → (∀ name, name ∈ peerNames → is_Some (links !! name)) →
  compileRouting (EffectiveRoutingTableID (Fabric s)) s links = Ok c →
  let guarded t p := ∃ r, r ∈ c_Routes c ∧ TableID r = t ∧ rp_Prefix r = p ∧ Type_ r = RouteUnreachable in
  (∀ pool t, pool ∈ InfrastructurePrefixes (Fabric s) → t ∈ tables_of (EffectiveRoutingTableID (Fabric s)) s →
     guarded t pool) ∧
  ∀ name d, Domains s !! name = Some d →
    (∀ raw, raw ∈ SourcePrefixes d → ∃ p, ParsePrefix raw = Ok p ∧
       guarded (EffectiveRoutingTableID (Fabric s)) p ∧ guarded (SourceTableID d) p) ∧
    ∀ a, Addr_IsValid a = true → Zone a = ""%string → wf_addr a →
      containsFamily (SourcePrefixes d) (Is4 a) = true →
      ∃ p, guarded (SourceTableID d) p ∧ Contains p a = true.
Proof.
  intros V K E. destruct (compiled_is s peerNames links V K c E) as []. intros guarded.
  assert (G : ∀ t p, entry_route (EffectiveRoutingTableID (Fabric s)) s links (guard_route t p) → guarded t p).
  { intros t p H%entries_routes. destruct (co_all_routes0 _ H) as (r' & Hr & Ek).
    exists r'. unfold route_key in Ek. cbn in Ek. split; [done|]. by injection Ek. }
  split; [intros pool t Hp Ht; by apply G, er_guard|]. intros name d L. split.
  - intros raw Hraw. destruct (domain_sources s peerNames V name d L) as [F _].
    destruct (proj1 (list_elem_of_lookup _ _) Hraw) as [i Hi].
    destruct (Forall2_lookup_l _ _ _ _ _ F Hi) as (p & _ & C).
    apply canonical_parsed in C as (Ep & Eq & _). exists p. split; [done|].
    assert (Hp : p ∈ map parsed (SourcePrefixes d)) by (rewrite <-Eq; by apply list_elem_of_fmap_2).
    split; eapply G, er_domain; try done; apply de_guard; auto.
  - intros a Va Za Wa (p & Hp & Ef)%canonicalSources_family. exists (zero_of p).
    split; [eapply G, er_domain; [done|by apply de_zero]|by apply zero_of_contains].
Qed.

(** * Which table a packet is looked up in *)

Lemma div_pow_mono v w b c a : 0 <= a -> a <= b -> b <= c ->
  v / 2 ^ (c - b) = w / 2 ^ (c - b) → v / 2 ^ (c - a) = w / 2 ^ (c - a).
Proof.
  intros Ha Hb Hc E. replace (c - a) with ((c - b) + (b - a)) by lia.
  rewrite Z.pow_add_r, <-!Z.div_div, E by lia. done.
Qed.

Lemma Contains_overlap p q a :
  wf_prefix p → wf_prefix q → Prefix_IsValid p = true → Prefix_IsValid q = true →
  Contains p a = true → Contains q a = true → prefixesOverlap p q = true.
Proof.
  intros (_ & Zp & Bp) (_ & Zq & Bq) Vp Vq. unfold prefixesOverlap, Contains. rewrite Vp, Vq, Zp, Zq.
  destruct p as [pa pb], q as [qa qb]. unfold Prefix_IsValid in *. cbn [Prefix_Addr Bits negb orb bool_decide] in *.
  apply Z.leb_le in Vp, Vq. destruct Bp as [->|[_ Bp]]; [done|]. destruct Bq as [->|[_ Bq]]; [done|].
  destruct (negb (bool_decide (Zone a = ""%string))) eqn:Za; [done|]. cbn [negb orb].
  destruct pa as [|pv|pv pz], qa as [|qv|qv qz], a as [|av|av az]; try done; cbn [BitLen] in *;
    intros Ep%Z.eqb_eq Eq%Z.eqb_eq; rewrite Z.eqb_refl; cbn [andb]; apply orb_true_iff;
    (destruct (Z.le_ge_cases pb qb); [left|right]; apply Z.eqb_eq).
  - rewrite <-Ep. symmetry. apply (div_pow_mono _ _ qb); lia.
  - rewrite <-Eq. symmetry. apply (div_pow_mono _ _ pb); lia.
  - rewrite <-Ep. symmetry. apply (div_pow_mono _ _ qb); lia.
  - rewrite <-Eq. symmetry. apply (div_pow_mono _ _ pb); lia.
Qed.

Section Sources.
Context (s : NodeSpec) (peerNames : gset string) (V : validateRouting s peerNames = []).

Lemma sources_listed name d q : Domains s !! name = Some d → q ∈ map parsed (SourcePrefixes d) →
  wf_prefix q ∧ Prefix_IsValid q = true ∧ (name, q) ∈ all_sources (Domains s).
Proof using V.
  intros L Hq. destruct (domain_sources s peerNames V name d L) as [F _].
  assert (I : (name, q) ∈ all_sources (Domains s)).
  { unfold all_sources. apply list_elem_of_bind. exists name. split; [|apply sorted_keys_elem; by exists d].
    unfold sources_of. rewrite L, (prefixes_of_canonical _ _ F). by apply list_elem_of_fmap_2. }
  apply list_elem_of_fmap in Hq as (raw & -> & [i Hi]%list_elem_of_lookup).
  destruct (Forall2_lookup_l _ _ _ _ _ F Hi) as (p & _ & C). apply canonical_parsed in C as (Ep & Eq & _).
  rewrite Eq in *. apply ParsePrefix_ok in Ep as (? & ? & _). by split_and!.
Qed.

Lemma sources_disjoint n1 d1 p1 n2 d2 p2 :
  Domains s !! n1 = Some d1 → p1 ∈ map parsed (SourcePrefixes d1) →
  Domains s !! n2 = Some d2 → p2 ∈ map parsed (SourcePrefixes d2) →
  prefixesOverlap p2 p1 = true → d1 = d2.
Proof using V.
  intros L1 H1 L2 H2 O. destruct (decide (n1 = n2)) as [->|N]; [congruence|].
  destruct (sources_listed n1 d1 p1 L1 H1) as (_ & _ & [i Hi]%list_elem_of_lookup).
  destruct (sources_listed n2 d2 p2 L2 H2) as (_ & _ & [j Hj]%list_elem_of_lookup).
  pose proof V as R. apply validateRouting_decides in R.
  pose proof (rv_sources _ _ R j i _ _ ltac:(congruence) Hj Hi) as X. cbn in X. congruence.
Qed.
End Sources.

(** A rule without a restriction on an address admits it. *)
Definition restricts (p : Prefix) (a : Addr) : bool := negb (Prefix_IsValid p) || Contains p a.
Definition admits (r : RulePlan) (src dst : Addr) : bool :=
  restricts (rl_Source r) src && restricts (rl_Destination r) dst.

(** A packet from a source prefix of a domain is looked up in that domain's
    table: a rule sends it there, and every rule that admits it does, apart
    from those of the fabric table, which have a smaller priority and only admit
    it when it goes to an infrastructure pool or to a source prefix of some
    domain. *)
Theorem compileRouting_rules s peerNames links c name d raw p src dst :
  validateRouting s peerNames = [] → (∀ name, name ∈ peerNames → is_Some (links !! name)) →
  compileRouting (EffectiveRoutingTableID (Fabric s)) s links = Ok c →
  Domains s !! name = Some d → raw ∈ SourcePrefixes d → ParsePrefix raw = Ok p → Contains p src = true →
  (∃ r, r ∈ c_Rules c ∧ admits r src dst = true ∧ rl_TableID r = SourceTableID d) ∧
  ∀ r, r ∈ c_Rules c → admits r src dst = true →
    rl_TableID r = SourceTableID d ∨
    rl_TableID r = EffectiveRoutingTableID (Fabric s) ∧ Priority r < DomainRulePriority ∧
    ((∃ pool, pool ∈ InfrastructurePrefixes (Fabric s) ∧ restricts pool dst = true) ∨
     ∃ name' d' q, Domains s !! name' = Some d' ∧ q ∈ map parsed (SourcePrefixes d') ∧ Contains q dst = true).
Proof.
  intros V K E L Hraw Ep Hp. destruct (compiled_is s peerNames links V K c E) as [_ C _ _ _ A _ _].
  assert (Hps : p ∈ map parsed (SourcePrefixes d)).
  { apply list_elem_of_fmap. exists raw. split; [|done]. unfold parsed. by rewrite Ep. }
  assert (W : ∀ name d q, Domains s !! name = Some d → q ∈ map parsed (SourcePrefixes d) →
    wf_prefix q ∧ Prefix_IsValid q = true ∧ (name, q) ∈ all_sources (Domains s))
    by (intros; by eapply sources_listed).
  split.
  - destruct (A (mkRulePlan (SourceTableID d) DomainRulePriority p Prefix_zero)) as (r & Hr & Ek).
    { eapply entries_rules, el_source; done. }
    exists r. split; [done|]. unfold rule_key in Ek. injection Ek as Et Es Ed. cbn in *.
    unfold admits, restricts. rewrite Es, Ed, Hp, orb_true_r. done.
  - intros r Hr Ha. apply C, entries_rules in Hr.
    destruct Hr as [pool Hpool|name' d' q L' Hq|name' d' q L' Hq]; unfold admits in Ha; cbn [rl_Source rl_Destination] in Ha.
    + right. split_and!; [done|done|]. left. exists pool. by apply andb_true_iff in Ha as [_ Ha].
    + right. split_and!; [done|done|]. right. exists name', d', q. split_and!; [done..|].
      apply andb_true_iff in Ha as [_ Ha]. unfold restricts in Ha.
      destruct (W name' d' q L' Hq) as (_ & Vq & _). by rewrite Vq in Ha.
    + left. cbn. apply andb_true_iff in Ha as [Ha _]. unfold restricts in Ha.
      destruct (W name' d' q L' Hq) as (Wq & Vq & Iq), (W name d p L Hps) as (Wp & Vp & Ip).
      rewrite Vq in Ha. cbn in Ha. pose proof (Contains_overlap p q src Wp Wq Vp Vq Hp Ha) as O.
      f_equal. by eapply sources_disjoint.
Qed.

(** * The Babel plan *)

Lemma loop_inv {A B} (P : B → Prop) (f : B → A → result B) l b :
  P b → (∀ b x, x ∈ l → P b → ∃ b', f b x = Ok b' ∧ P b') → ∃ b', loop f b l = Ok b' ∧ P b'.
Proof.
  revert b. induction l as [|x l IH]; intros b H0 H; cbn [loop]; [by exists b|].
  destruct (H b x ltac:(by left) H0) as (b' & -> & H1). rewrite bind_Ok.
  apply IH; [done|]. intros; apply H; [by right|done].
Qed.

(** What the plan may export and show. *)
Inductive exported (s : NodeSpec) (loopback : Addr) : BabelOrigin → Prop :=
| ex_loopback : exported s loopback (mkBabelOrigin (PrefixFrom loopback 128) Prefix_zero 0)
| ex_access name d a p : Domains s !! name = Some d → a ∈ Announcements d → ParsePrefix (a_Prefix a) = Ok p →
    IsAccessPrefix d p = true → exported s loopback (mkBabelOrigin p Prefix_zero (announcementMetric a))
| ex_exit name d a p source : Domains s !! name = Some d → a ∈ Announcements d → ParsePrefix (a_Prefix a) = Ok p →
    IsAccessPrefix d p = false → source ∈ map parsed (SourcePrefixes d) → same_family p source = true →
    exported s loopback (mkBabelOrigin p source (announcementMetric a)).
Inductive view_of (s : NodeSpec) (fabric : Z) : BabelView → Prop :=
| vo_fabric ps : (∀ p, p ∈ ps → p ∈ InfrastructurePrefixes (Fabric s) ∨
      ∃ name d, Domains s !! name = Some d ∧ p ∈ map parsed (SourcePrefixes d)) →
    view_of s fabric (mkBabelView ps fabric Prefix_zero 0)
| vo_domain name d source ps : Domains s !! name = Some d → source ∈ map parsed (SourcePrefixes d) →
    (∀ p, p ∈ ps → (p ∈ InfrastructurePrefixes (Fabric s) ∨ p ∈ map parsed (SourcePrefixes d)) ∧
       same_family p source = true) →
    view_of s fabric (mkBabelView ps (SourceTableID d) source DomainRulePriority).

Lemma canonicalSources_parsed raws p : p ∈ canonicalSources raws → p ∈ map parsed raws.
Proof.
  unfold canonicalSources. assert (G : ∀ raws seen acc,
    p ∈ (foldl canonical_step (seen, acc) raws).2 → p ∈ acc ∨ p ∈ map parsed raws).
  { clear. induction raws as [|raw raws IH]; intros seen acc H; cbn [foldl] in H; [by left|].
    cbn [map]. unfold canonical_step at 2 in H. case_bool_decide.
    - destruct (IH _ _ H); [by left|right; by right].
    - destruct (IH _ _ H) as [[Ha|Ha%list_elem_of_singleton]%elem_of_app|Ha];
        [by left|right; rewrite Ha; by left|right; by right]. }
  intros H. by destruct (G _ _ _ H) as [?%not_elem_of_nil|].
Qed.

Section Babel.
Context (s : NodeSpec) (peerNames : gset string) (V : validateRouting s peerNames = []).
Context (fabric : Z) (loopback : Addr).

Lemma announcement_parsed name d a : Domains s !! name = Some d → a ∈ Announcements d →
  ∃ p, ParsePrefix (a_Prefix a) = Ok p ∧ MustParsePrefix (a_Prefix a) = Ok p.
Proof using V.
  intros L Ha. apply validateRouting_decides in V.
  destruct (rv_domains _ _ V name d L) as (_ & src & rts & anns & []).
  apply list_elem_of_lookup in Ha as [i Hi].
  destruct (Forall2_lookup_l _ _ _ _ _ dv_announcements Hi) as (p & _ & [C _]).
  apply canonical_parsed in C as (E & _). exists p. split; [done|]. unfold MustParsePrefix. by rewrite E.
Qed.

Lemma sources_parsed name d : Domains s !! name = Some d →
  sourcePrefixes d = Ok (map parsed (SourcePrefixes d)).
Proof using V.
  intros L. destruct (domain_sources s peerNames V name d L) as [F _]. by apply (sourcePrefixes_ok d _ F).
Qed.

Definition plan_ok (acc : list Prefix * list BabelView * list BabelOrigin) : Prop :=
  (∀ v, v ∈ acc.1.2 → view_of s fabric v) ∧ (∀ o, o ∈ acc.2 → exported s loopback o).

Lemma babel_canonical_ok name d acc source :
  Domains s !! name = Some d → source ∈ canonicalSources (SourcePrefixes d) → plan_ok acc →
  ∃ acc', babel_canonical d (InfrastructurePrefixes (Fabric s) ++ map parsed (SourcePrefixes d)) acc source = Ok acc' ∧
    plan_ok acc'.
Proof using V.
  intros L Hs%canonicalSources_parsed [Hv Ho]. destruct acc as [[imports views] origins].
  unfold babel_canonical. cbn in Hv, Ho.
  destruct (loop_inv (λ origins, ∀ o, o ∈ origins → exported s loopback o) (exit_origin d source)
    (Announcements d) origins Ho) as (origins' & -> & Ho').
  - intros os a Ha Hos. destruct (announcement_parsed name d a L Ha) as (p & Ep & Em).
    unfold exit_origin. rewrite Em, bind_Ok. eexists. split; [reflexivity|].
    destruct (IsAccessPrefix d p) eqn:A, (same_family p source) eqn:F; cbn [negb andb]; try done.
    intros o [H|H]%elem_of_app; [by apply Hos|apply list_elem_of_singleton in H as ->; by eapply ex_exit].
  - rewrite bind_Ok. eexists. split; [reflexivity|]. split; cbn [fst snd]; [|done].
    intros v [H|H]%elem_of_app; [by apply Hv|]. apply list_elem_of_singleton in H as ->.
    eapply vo_domain; [done|done|]. intros p [F Hp]%list_elem_of_filter. split; [|done].
    by apply elem_of_app in Hp.
Qed.

Lemma babel_domain_ok acc name : plan_ok acc → ∃ acc', babel_domain s acc name = Ok acc' ∧ plan_ok acc'.
Proof using V.
  intros H. unfold babel_domain. destruct (Domains s !! name) as [d|] eqn:L; [|by exists acc].
  rewrite (sources_parsed name d L), bind_Ok.
  destruct (loop_inv plan_ok (babel_canonical d (InfrastructurePrefixes (Fabric s) ++ map parsed (SourcePrefixes d)))
    (canonicalSources (SourcePrefixes d)) acc H) as (acc' & -> & H').
  { intros b x Hx Hb. by eapply babel_canonical_ok. }
  rewrite bind_Ok. destruct acc' as [[imports views] origins]. destruct H' as [Hv Ho]. cbn in Hv, Ho.
  destruct (loop_inv (λ origins, ∀ o, o ∈ origins → exported s loopback o) (access_origin d)
    (Announcements d) origins Ho) as (origins' & -> & Ho').
  - intros os a Ha Hos. destruct (announcement_parsed name d a L Ha) as (p & Ep & Em).
    unfold access_origin. rewrite Em, bind_Ok. eexists. split; [reflexivity|].
    destruct (IsAccessPrefix d p) eqn:A; [|done].
    intros o [H'|H']%elem_of_app; [by apply Hos|apply list_elem_of_singleton in H' as ->; by eapply ex_access].
  - rewrite bind_Ok. eexists. split; [reflexivity|]. by split.
Qed.
End Babel.

Lemma compileBabel_plan s peerNames uuid loopback :
  validateRouting s peerNames = [] →
  let fabric := EffectiveRoutingTableID (Fabric s) in
  ∃ plan, compileBabel uuid fabric loopback s = Ok plan ∧
    (∀ o, o ∈ Origins plan → exported s loopback o) ∧ (∀ v, v ∈ Views plan → view_of s fabric v).
Proof.
  intros V fabric. unfold compileBabel.
  destruct (loop_inv (λ ps, ∀ p, p ∈ ps → p ∈ InfrastructurePrefixes (Fabric s) ∨
      ∃ name d, Domains s !! name = Some d ∧ p ∈ map parsed (SourcePrefixes d))
    (λ acc name, match Domains s !! name with
      | None => Ok acc | Some d => sources ← sourcePrefixes d; Ok (acc ++ sources) end)
    (sorted_keys (Domains s)) (InfrastructurePrefixes (Fabric s))) as (ordinary & -> & Hord).
  - by left.
  - intros b name _ Hb. destruct (Domains s !! name) as [d|] eqn:L; [|by exists b].
    rewrite (sources_parsed s peerNames V name d L), bind_Ok. eexists. split; [reflexivity|].
    intros p [H|H]%elem_of_app; [by apply Hb|right; by exists name, d].
  - rewrite bind_Ok.
    destruct (loop_inv (plan_ok s fabric loopback) (babel_domain s) (sorted_keys (Domains s))
      ([], [mkBabelView ordinary fabric Prefix_zero 0], [mkBabelOrigin (PrefixFrom loopback 128) Prefix_zero 0]))
      as ([[imports views] origins] & -> & [Hv Ho]).
    + split; cbn; intros x Hx; apply list_elem_of_singleton in Hx as ->; [by apply vo_fabric|apply ex_loopback].
    + intros b x _ Hb. by eapply babel_domain_ok.
    + rewrite bind_Ok. eexists. split; [reflexivity|]. by split.
Qed.

(** The Babel plan of a validated specification exists and leaks nothing:
    it exports without a source only the loopback and prefixes inside a domain's
    own sources, exports any other announcement only for a source prefix of the
    same domain and family, and gives each domain view the domain's table and
    return prefixes of the view's family from the pools and the domain itself. *)
Theorem compileBabel_confined s peerNames uuid loopback :
  validateRouting s peerNames = [] →
  let fabric := EffectiveRoutingTableID (Fabric s) in
  ∃ plan, compileBabel uuid fabric loopback s = Ok plan ∧
    (∀ o, o ∈ Origins plan → exported s loopback o) ∧ (∀ v, v ∈ Views plan → view_of s fabric v).
Proof. apply compileBabel_plan. Qed.

(** * An example *)

Definition example_red : DomainSpec :=
  mkDomainSpec 100 ["10.1.0.0/16"]%string
    {["b"%string := [mkRoute "0.0.0.0/0" None; mkRoute "10.1.5.0/24" (Some 7)]]}
    [mkAnnouncement "10.1.7.0/24" None; mkAnnouncement "192.0.2.0/24" (Some 5)].
Definition example_blue : DomainSpec := mkDomainSpec 101 ["10.2.0.0/16"; "2001:db8::/48"]%string ∅ [].
Definition example_spec : NodeSpec :=
  mkNodeSpec "v1" "Node"
    (mkFabricSpec "" "10.255.0.0/16" "fd00:2::/64" "fd00:1::/64" None None
       {["b"%string := [mkRoute "fd00:1::5/128" None]]})
    (mkNode (mkNodeUID "a" "") "" "") [] None None
    {["red"%string := example_red; "blue"%string := example_blue]}.
Definition example_link : LinkPlan :=
  mkLinkPlan false PortChoice_zero false false "b" "wg-b" "" [] [] [] 0 [] None Prefix_zero [].
Definition example_links : gmap string LinkPlan := {["b"%string := example_link]}.

Lemma example_valid : validateRouting example_spec {["b"%string]} = [].
Proof. by vm_compute. Qed.
Lemma example_linked name : name ∈ ({["b"%string]} : gset string) → is_Some (example_links !! name).
Proof. intros ->%elem_of_singleton. by exists example_link. Qed.

Notation example_run := (compileRouting 20000 example_spec example_links).
Definition count_of (r : result compiled) : nat * nat :=
  match r with Ok c => (length (c_Routes c), length (c_Rules c)) | _ => (0%nat, 0%nat) end.
Lemma example_count : count_of example_run = (27%nat, 9%nat).
Proof. vm_compute. reflexivity. Qed.
Notation example_compiled := (match example_run with Ok c => c | _ => compiled_zero end).
Lemma example_ok : example_run = Ok example_compiled.
Proof. by vm_compute. Qed.
Definition example_return : RoutePlan :=
  mkRoutePlan 20000 (mkPrefix (Addr4 0x0a010500) 24) RouteViaPeer "b" "wg-b" (Some 7).
Lemma example_return_in : bool_decide (example_return ∈ c_Routes example_compiled) = true.
Proof. by vm_compute. Qed.

Lemma compileRouting_refines_witness :
  validateRouting example_spec {["b"%string]} = [] ∧
  ∃ c, compileRouting 20000 example_spec example_links = Ok c ∧ NoDup (map rule_key (c_Rules c)).
Proof.
  split; [apply example_valid|].
  destruct (compileRouting_refines example_spec {["b"%string]} example_links example_valid example_linked)
    as (c & E & _ & _ & _ & _ & _ & N).
  exists c. exact (conj E N).
Defined.

(** The return path of the domain red, in the fabric table. *)
Lemma compileRouting_isolated_witness :
  example_return ∈ c_Routes example_compiled ∧
  (prefixContained (rp_Prefix example_return) (InfrastructurePrefixes (Fabric example_spec)) = true ∨
   ∃ name d, Domains example_spec !! name = Some d ∧ via_peer_of (StaticRoutes d) example_return ∧
     (TableID example_return = SourceTableID d ∧
      (∀ name' d', Domains example_spec !! name' = Some d' → TableID example_return = SourceTableID d' → d' = d) ∨
      TableID example_return = 20000 ∧ IsAccessPrefix d (rp_Prefix example_return) = true)).
Proof.
  assert (H : example_return ∈ c_Routes example_compiled) by exact (bool_decide_eq_true_1 _ example_return_in).
  split; [exact H|].
  exact (compileRouting_isolated example_spec {["b"%string]} example_links example_compiled example_return
    example_valid example_linked example_ok H eq_refl).
Defined.

Lemma compileRouting_guarded_witness :
  validateRouting example_spec {["b"%string]} = [] ∧
  ∃ p, (∃ r, r ∈ c_Routes example_compiled ∧ TableID r = 101 ∧ rp_Prefix r = p ∧ Type_ r = RouteUnreachable) ∧
    Contains p (Addr6 1 "") = true.
Proof.
  split; [apply example_valid|].
  destruct (compileRouting_guarded example_spec {["b"%string]} example_links example_compiled
    example_valid example_linked example_ok) as [_ G].
  destruct (G "blue"%string example_blue eq_refl) as [_ F]. apply F; [done|done|done|by vm_compute].
Defined.

Lemma compileRouting_rules_witness :
  Contains (mkPrefix (Addr4 0x0a010000) 16) (Addr4 0x0a010102) = true ∧
  ∃ r, r ∈ c_Rules example_compiled ∧ admits r (Addr4 0x0a010102) (Addr4 0x08080808) = true ∧ rl_TableID r = 100.
Proof.
  split; [by vm_compute|].
  refine (proj1 (compileRouting_rules example_spec {["b"%string]} example_links example_compiled "red" example_red
    "10.1.0.0/16" (mkPrefix (Addr4 0x0a010000) 16) (Addr4 0x0a010102) (Addr4 0x08080808)
    example_valid example_linked example_ok eq_refl _ _ _)); [by left|by vm_compute|by vm_compute].
Defined.

Lemma compileBabel_confined_witness :
  validateRouting example_spec {["b"%string]} = [] ∧
  ∃ plan, compileBabel "u" 20000 (Addr6 (0xfd000001 * 2 ^ 96 + 1) "") example_spec = Ok plan ∧
    ∀ o, o ∈ Origins plan → exported example_spec (Addr6 (0xfd000001 * 2 ^ 96 + 1) "") o.
Proof.
  split; [apply example_valid|].
  destruct (compileBabel_confined example_spec {["b"%string]} "u" (Addr6 (0xfd000001 * 2 ^ 96 + 1) "") example_valid)
    as (plan & E & H & _).
  exists plan. exact (conj E H).
Defined.
