(* ===== verification/AtomicFile.v ===== *)
(** Replacing a file: the part that recovery/recovery.go (update),
    runtime/policy_revision.go (reservePolicyRevision) and
    runtime/durable_store.go (saveDurableWithIO) share.

    A procedure runs on a small file system: the content of the one path it
    replaces, as processes see it and as it may be after the power fails, and
    the temporary file.  Every call of the os and unix packages can fail, and
    the machine can stop before it; the environment [plan] decides. *)

From S2P Require Import Prelude.
Open Scope Z_scope.
Open Scope velvet_scope.

(** * Files and calls *)

Inductive event := Proceed | Fault (e : error) | Crash.
Inductive outcome (A : Type) := Done (a : A) | Failed (e : error) | Crashed.
Arguments Done {A} _. Arguments Failed {A} _. Arguments Crashed {A}.

(** A file: its content, and whether it was synced. *)
Record file (C : Type) := mkFile { content : C; synced : bool }.
Arguments mkFile {C} _ _. Arguments content {C} _. Arguments synced {C} _.

(** [entry] is what the path names now; [older] what it named since its
    directory was last synced, any of which may come back. *)
Record fs (C : Type) := mkFs {
  entry : option (file C); older : list (option (file C));
  temp : option (file C); plan : list event }.
Arguments mkFs {C} _ _ _ _. Arguments entry {C} _. Arguments older {C} _.
Arguments temp {C} _. Arguments plan {C} _.

Definition io (C A : Type) : Type := fs C → outcome A * fs C.
#[global] Instance io_ret C : MRet (io C) := λ A a s, (Done a, s).
#[global] Instance io_bind C : MBind (io C) := λ A B k m s,
  match m s with
  | (Done a, s) => k a s
  | (Failed e, s) => (Failed e, s)
  | (Crashed, s) => (Crashed, s)
  end.
Definition fail {C A} (e : error) : io C A := λ s, (Failed e, s).
Definition io_of {C A} (r : result A) : io C A :=
  match r with Ok a => mret a | Err e => fail e | Panic => fail (errors_New "panic") end.

(** A call: it does what it does, fails without effect, or never runs. *)
Definition call {C A} (act : fs C → A * fs C) : io C A := λ s,
  match plan s with
  | Crash :: p => (Crashed, mkFs (entry s) (older s) (temp s) p)
  | Fault e :: p => (Failed e, mkFs (entry s) (older s) (temp s) p)
  | Proceed :: p =>
    let '(a, s') := act (mkFs (entry s) (older s) (temp s) p) in (Done a, s')
  | [] => let '(a, s') := act s in (Done a, s')
  end.
(** A call without effect on the path: directories, locks, closing. *)
Definition touch {C} : io C unit := call (λ s, (tt, s)).

Definition ReadFile {C} : io C (option C) := call (λ s, (content <$> entry s, s)).
Definition CreateTemp {C} : io C unit := call (λ s, (tt, mkFs (entry s) (older s) None (plan s))).
Definition Write {C} (c : C) : io C unit :=
  call (λ s, (tt, mkFs (entry s) (older s) (Some (mkFile c false)) (plan s))).
Definition Sync {C} : io C unit :=
  call (λ s, (tt, mkFs (entry s) (older s) ((λ f, mkFile (content f) true) <$> temp s) (plan s))).
Definition Rename {C} : io C unit :=
  call (λ s, (tt, mkFs (temp s) (entry s :: older s) None (plan s))).
Definition SyncDir {C} : io C unit := call (λ s, (tt, mkFs (entry s) [] (temp s) (plan s))).

(** [if err == nil { err = ... }] with a Close that runs in any case and whose
    error counts only after a success. *)
Definition and_close {C} (m : io C unit) : io C unit := λ s,
  match m s with
  | (Done _, s) => touch s
  | (Failed e, s) =>
    match touch s with (Crashed, s) => (Crashed, s) | (_, s) => (Failed e, s) end
  | (Crashed, s) => (Crashed, s)
  end.

(** * Replacement *)

(** CreateTemp, Write, Sync, Close, Rename, and the sync of the directory. *)
Definition replace {C} (c : C) : io C unit :=
  CreateTemp;; and_close (Write c;; Sync);; Rename;; touch;; SyncDir.

(** * What survives *)

(** A process ended; nothing was lost. *)
Inductive restart {C} : fs C → fs C → Prop :=
| restart_intro e o t p p' : restart (mkFs e o t p) (mkFs e o None p').
(** The power failed: the path names a file it named since the last sync of
    its directory, and an unsynced file has any content. *)
Inductive power_loss {C} : fs C → fs C → Prop :=
| loss_none s p : None ∈ entry s :: older s → power_loss s (mkFs None [] None p)
| loss_synced s c p : Some (mkFile c true) ∈ entry s :: older s →
    power_loss s (mkFs (Some (mkFile c true)) [] None p)
| loss_unsynced s c c' p : Some (mkFile c false) ∈ entry s :: older s →
    power_loss s (mkFs (Some (mkFile c' true)) [] None p).

(** Every file the path may come to name satisfies [P] and is synced. *)
Definition all_files {C} (P : option C → Prop) (s : fs C) : Prop :=
  ∀ f, f ∈ entry s :: older s → P (content <$> f) ∧ (∀ g, f = Some g → synced g = true).

Lemma all_files_restart {C} (P : option C → Prop) s s' : all_files P s → restart s s' → all_files P s'.
Proof. intros H R. revert H. by destruct R. Qed.
Lemma all_files_loss {C} (P : option C → Prop) s s' : all_files P s → power_loss s s' → all_files P s'.
Proof.
  intros H L f Hf. destruct L as [s p M|s c p M|s c c' p M]; cbn in Hf;
    apply list_elem_of_singleton in Hf as ->; destruct (H _ M) as [HP HS].
  - by split.
  - split; [done|]. by intros g [= <-].
  - by specialize (HS _ eq_refl).
Qed.

(** * Reasoning about procedures *)

(** [holds I Q m]: from a state of [I], [m] returns a value and a state of [Q],
    or fails or stops in a state of [I]. *)
Definition holds {C A} (I : fs C → Prop) (m : io C A) (I' : fs C → Prop) (Q : A → fs C → Prop) : Prop :=
  ∀ s, I s → match m s with
    | (Done a, s') => Q a s'
    | (_, s') => I' s'
    end.

Lemma holds_ret {C A} (I I' : fs C → Prop) (a : A) (Q : A → fs C → Prop) :
  (∀ s, I s → Q a s) → holds I (mret a) I' Q.
Proof. intros H s Hs. by apply H. Qed.
Lemma holds_fail {C A} (I I' : fs C → Prop) e (Q : A → fs C → Prop) :
  (∀ s, I s → I' s) → holds I (fail e) I' Q.
Proof. intros H s Hs. by apply H. Qed.
Lemma holds_bind {C A B} I (m : io C A) I' Q (k : A → io C B) R :
  holds I m I' Q → (∀ a, holds (Q a) (k a) I' R) → holds I (m ≫= k) I' R.
Proof.
  intros Hm Hk s Hs. unfold mbind, io_bind. specialize (Hm s Hs).
  destruct (m s) as [[a|e|] s']; [|done..]. by apply Hk.
Qed.
Lemma holds_weaken {C A} (I J I' J' : fs C → Prop) (m : io C A) (Q R : A → fs C → Prop) :
  holds J m J' Q → (∀ s, I s → J s) → (∀ s, J' s → I' s) → (∀ a s, Q a s → R a s) → holds I m I' R.
Proof.
  intros H H1 H2 H3 s Hs. specialize (H s (H1 s Hs)). destruct (m s) as [[a|e|] s']; auto.
Qed.

(** Invariants do not read the plan. *)
Definition plan_free {C} (I : fs C → Prop) : Prop :=
  ∀ e o t p p', I (mkFs e o t p) → I (mkFs e o t p').

Lemma holds_call {C A} (I I' : fs C → Prop) (act : fs C → A * fs C) (Q : A → fs C → Prop) :
  plan_free I → (∀ s, I s → I' s) → (∀ s, I s → let '(a, s') := act s in Q a s') → holds I (call act) I' Q.
Proof.
  intros F H0 H s Hs. unfold call. destruct s as [e o t p]. cbn in *.
  destruct p as [|[| |] p]; cbn.
  - specialize (H _ Hs). by destruct (act _).
  - specialize (H (mkFs e o t p) (F _ _ _ _ _ Hs)). by destruct (act _).
  - eapply H0, F, Hs.
  - eapply H0, F, Hs.
Qed.

Lemma holds_touch {C} (I I' : fs C → Prop) :
  plan_free I → (∀ s, I s → I' s) → holds I touch I' (λ _, I).
Proof. intros. by apply holds_call. Qed.

Lemma holds_and_close {C} (I I' J : fs C → Prop) (m : io C unit) :
  plan_free I' → plan_free J → (∀ s, J s → I' s) →
  holds I m I' (λ _, J) → holds I (and_close m) I' (λ _, J).
Proof.
  intros FI FJ JI Hm s Hs. unfold and_close. specialize (Hm s Hs).
  destruct (m s) as [[a|e|] s1]; [|clear Hs|done].
  - by apply (holds_touch J I').
  - assert (T : holds I' touch I' (λ _, I')) by (by apply holds_touch).
    specialize (T s1 Hm). by destruct (touch s1) as [[]].
Qed.

Lemma plan_free_all_files {C} (P : option C → Prop) : plan_free (all_files P).
Proof. intros e o t p p' H. exact H. Qed.
Lemma plan_free_and {C} (I J : fs C → Prop) : plan_free I → plan_free J → plan_free (λ s, I s ∧ J s).
Proof. intros FI FJ e o t p p' [??]. split; [by eapply FI|by eapply FJ]. Qed.
Lemma plan_free_temp {C} (Q : option (file C) → Prop) : plan_free (λ s, Q (temp s)).
Proof. by intros e o t p p'. Qed.
Lemma plan_free_entry {C} (Q : option (file C) → Prop) : plan_free (λ s, Q (entry s)).
Proof. by intros e o t p p'. Qed.
Create HintDb plans.
#[export] Hint Resolve plan_free_all_files plan_free_and plan_free_temp plan_free_entry : plans.

(** The files that the path may come to name during a replacement, and after a
    successful one only the new content: a replacement is atomic and durable. *)
Lemma replace_holds {C} (P : option C → Prop) (c : C) :
  P (Some c) → holds (all_files P) (replace c) (all_files P)
    (λ _ s, all_files P s ∧ entry s = Some (mkFile c true) ∧ older s = []).
Proof.
  intros Hc. unfold replace.
  pose (written b := λ s : fs C, all_files P s ∧ temp s = Some (mkFile c b)).
  pose (renamed := λ s : fs C, all_files P s ∧ entry s = Some (mkFile c true)).
  assert (Fw : ∀ b, plan_free (written b))
    by (intros b; apply plan_free_and; [|apply (plan_free_temp (λ t, t = Some (mkFile c b)))]; auto with plans).
  assert (Fr : plan_free renamed)
    by (apply plan_free_and; [|apply (plan_free_entry (λ t, t = Some (mkFile c true)))]; auto with plans).
  apply (holds_bind _ _ _ (λ _, all_files P)); [apply holds_call; auto with plans|intros _].
  apply (holds_bind _ _ _ (λ _, written true)); [|intros _].
  { apply holds_and_close; [auto with plans|done|by intros ? []|].
    apply (holds_bind _ _ _ (λ _, written false)); [apply holds_call; auto with plans; by split|intros _].
    apply holds_call; [done|by intros ? []|]. intros s [H E]. split; [done|]. cbn. by rewrite E. }
  apply (holds_bind _ _ _ (λ _, renamed)); [apply holds_call; [done|by intros ? []|]|intros _].
  { intros s [H E]. split; [|done]. cbn. rewrite E. intros f [->|Hf]%elem_of_cons; cbn; [|by apply H].
    split; [done|]. by intros g [= <-]. }
  apply (holds_bind _ _ _ (λ _, renamed)); [apply holds_touch; [done|by intros ? []]|intros _].
  apply holds_call; [done|by intros ? []|]. intros s [H E]. split_and!; [|done|done].
  intros f Hf. apply H. cbn in Hf. apply list_elem_of_singleton in Hf as ->. by left.
Qed.
