(* ===== verification/PolicyRevision.v ===== *)
(** runtime/policy_revision.go: the counter of Dynamic-Link policy revisions,
    and the directory it lives in. *)

From S2P Require Import Prelude AtomicFile.
Open Scope Z_scope.
Open Scope velvet_scope.

(** * Procedures *)

(** The loop over the directory and its parents; [stats] says which of them,
    nearest first and the root last, exist.  The result is [len(missing)]. *)
Fixpoint missing_dirs {C} (stats : list bool) : io C nat :=
  match stats with
  | [] => fail (errors_New "policy state has no existing parent")
  | exists_ :: stats =>
    touch;;
    if exists_ then mret 0%nat
    else match stats with
         | [] => fail (errors_New "policy state has no existing parent")
         | _ => n ← missing_dirs stats; mret (S n)
         end
  end.

(** Open and sync the parent of each new directory. *)
Fixpoint sync_parents {C} (n : nat) : io C unit :=
  match n with
  | O => mret tt
  | S n => touch;; touch;; sync_parents n
  end.

Definition makePolicyDirectory {C} (stats : list bool) : io C unit :=
  n ← missing_dirs stats; touch;; sync_parents n.

(** The revision in an existing file, or 0 without one: eight bytes, not zero.
    [io.ReadFull] of nine bytes ends early exactly at that length. *)
Definition persisted_revision (raw : option (list byte)) : result Z :=
  match raw with
  | None => Ok 0
  | Some raw =>
    if negb (len raw =? 8) then Err (errors_New "invalid persisted Dynamic-Link policy revision")
    else if be_get raw =? 0 then Err (errors_New "zero persisted Dynamic-Link policy revision")
    else Ok (be_get raw)
  end.

Definition MaxUint64 : Z := 2 ^ 64 - 1.

Definition reservePolicyRevision (stats : list bool) : io (list byte) Z :=
  makePolicyDirectory stats;;
  touch;; touch;;                                  (* open and lock the lock file *)
  raw ← ReadFile;
  touch;;                                          (* read and close *)
  revision ← io_of (persisted_revision raw);
  if revision =? MaxUint64 then fail (errors_New "Dynamic-Link policy revision exhausted")
  else
    replace (be_put 8 (revision + 1));;
    mret (revision + 1).

(** * Histories *)

(** Processes one after the other: the lock excludes a second one.  [history
    rs s]: the calls returned [rs] and the file system is [s]. *)
Inductive history : list Z → fs (list byte) → Prop :=
| history_start s : all_files (λ _, True) s → history [] s
| history_reserved rs s stats p r s' : history rs s →
    reservePolicyRevision stats (mkFs (entry s) (older s) (temp s) p) = (Done r, s') →
    history (rs ++ [r]) s'
| history_failed rs s stats p e s' : history rs s →
    reservePolicyRevision stats (mkFs (entry s) (older s) (temp s) p) = (Failed e, s') → history rs s'
| history_crashed rs s stats p s' : history rs s →
    reservePolicyRevision stats (mkFs (entry s) (older s) (temp s) p) = (Crashed, s') → history rs s'
| history_restart rs s s' : history rs s → restart s s' → history rs s'
| history_loss rs s s' : history rs s → power_loss s s' → history rs s'.

(** * Lemmas *)

(** No file of the path reads as a revision below [r]. *)
Definition at_least (r : Z) (raw : option (list byte)) : Prop :=
  ∀ v, persisted_revision raw = Ok v → r <= v.

Lemma missing_dirs_holds {C} (I : fs C → Prop) stats :
  plan_free I → holds I (missing_dirs stats) I (λ _, I).
Proof.
  intros F. induction stats as [|[] stats IH]; [by apply holds_fail|..];
    (apply (holds_bind _ _ _ (λ _, I)); [by apply holds_touch|intros _]); [by apply holds_ret|].
  destruct stats; [by apply holds_fail|]. eapply holds_bind; [exact IH|]. intros n. by apply holds_ret.
Qed.
Lemma sync_parents_holds {C} (I : fs C → Prop) n : plan_free I → holds I (sync_parents n) I (λ _, I).
Proof.
  intros F. induction n as [|n IH]; [by apply holds_ret|].
  do 2 (apply (holds_bind _ _ _ (λ _, I)); [by apply holds_touch|intros _]). exact IH.
Qed.
Lemma makePolicyDirectory_holds {C} (I : fs C → Prop) stats :
  plan_free I → holds I (makePolicyDirectory stats) I (λ _, I).
Proof.
  intros F. eapply holds_bind; [by apply missing_dirs_holds|intros n].
  apply (holds_bind _ _ _ (λ _, I)); [by apply holds_touch|intros _]. by apply sync_parents_holds.
Qed.

Lemma persisted_put r : 0 < r -> r < 2 ^ 64 -> persisted_revision (Some (be_put 8 r)) = Ok r.
Proof.
  intros H1 H2. unfold persisted_revision. rewrite len_be_put, be_get_put_small by (change (256 ^ Z.of_nat 8) with (2 ^ 64); lia).
  cbn. by rewrite (proj2 (Z.eqb_neq r 0)) by lia.
Qed.
Lemma persisted_range raw v : persisted_revision raw = Ok v → 0 <= v < 2 ^ 64.
Proof.
  unfold persisted_revision. destruct raw as [raw|]; [|by intros [= <-]]. intros H. inv_ok. bool_to_prop. subst v.
  pose proof (be_get_range raw) as R. by replace (len raw) with 8 in R by done.
Qed.

(** A reservation from files of at least [r] returns more than [r]. *)
Lemma reserve_holds r stats :
  holds (all_files (at_least r)) (reservePolicyRevision stats) (all_files (at_least r))
    (λ r' s, r < r' /\ r' < 2 ^ 64 /\ 0 < r' /\ all_files (at_least r') s).
Proof.
  set (I := all_files (at_least r)). assert (F : plan_free I) by apply plan_free_all_files.
  apply (holds_bind _ _ _ (λ _, I)); [by apply makePolicyDirectory_holds|intros _].
  do 2 (apply (holds_bind _ _ _ (λ _, I)); [by apply holds_touch|intros _]).
  apply (holds_bind _ _ _ (λ raw s, I s ∧ at_least r raw)); [|intros raw].
  { apply holds_call; [done|done|]. intros s Hs. split; [done|]. apply (Hs (entry s)). by left. }
  apply (holds_bind _ _ _ (λ _ s, I s ∧ at_least r raw)).
  { apply holds_call; [apply plan_free_and; [done|by intros ? ? ? ? ?]|by intros ? []|done]. }
  intros _. apply (holds_bind _ _ _ (λ v s, I s ∧ r <= v < 2 ^ 64 ∧ 0 <= v)).
  { destruct (persisted_revision raw) as [v|e|] eqn:E; [|apply holds_fail; by intros ? []..].
    apply holds_ret. intros s [Hs Hr]. split; [done|]. pose proof (Hr v E). apply persisted_range in E. lia. }
  intros v. destruct (v =? MaxUint64) eqn:M; [apply holds_fail; by intros ? []|].
  apply Z.eqb_neq in M. unfold MaxUint64 in M. intros s (Hs & Hv & H0).
  assert (P : persisted_revision (Some (be_put 8 (v + 1))) = Ok (v + 1)) by (apply persisted_put; lia).
  assert (R : holds I (replace (be_put 8 (v + 1)) ;; mret (v + 1)) I
    (λ r' s, r < r' ∧ r' < 2 ^ 64 ∧ 0 < r' ∧ all_files (at_least r') s)).
  { apply (holds_bind _ _ _ (λ _ s, I s ∧ entry s = Some (mkFile (be_put 8 (v + 1)) true) ∧ older s = [])).
    - apply replace_holds. intros w. rewrite P. intros [= <-]. lia.
    - intros _. apply holds_ret. intros s' (_ & E & O). split_and!; [lia..|].
      intros f Hf. rewrite E, O in Hf. apply list_elem_of_singleton in Hf as ->. cbn. split; [|by intros g [= <-]].
      intros w. rewrite P. by intros [= <-]. }
  exact (R s Hs).
Qed.

(** Every history keeps the files at or above the last revision it returned. *)
Lemma history_inv rs s : history rs s →
  all_files (at_least (default 0 (last rs))) s ∧ (∀ x, x ∈ rs → x <= default 0 (last rs)) ∧ StronglySorted Z.lt rs ∧
  Forall (λ r, 0 < r < 2 ^ 64) rs ∧ 0 <= default 0 (last rs).
Proof.
  assert (Step : ∀ rs s p, all_files (at_least (default 0 (last rs))) s →
    all_files (at_least (default 0 (last rs))) (mkFs (entry s) (older s) (temp s) p)) by done.
  induction 1 as [s H|rs s stats p r s' _ (I & M & S & B & N) E|rs s stats p e s' _ (I & M & S & B & N) E|
    rs s stats p s' _ (I & M & S & B & N) E|rs s s' _ (I & M & S & B & N) R|rs s s' _ (I & M & S & B & N) L].
  - split_and!; [|by intros ? []%not_elem_of_nil|constructor|constructor|done]. intros f Hf. destruct (H f Hf) as [_ H2]. split; [|done].
    intros v Hv. apply persisted_range in Hv. cbn. lia.
  - pose proof (reserve_holds _ stats _ (Step rs s p I)) as R. rewrite E in R.
    destruct R as (R1 & R2 & R3 & R4). rewrite last_snoc. cbn. split_and!; [done| | | |lia].
    + intros x [Hx|Hx]%elem_of_app; [specialize (M x Hx); lia|]. apply list_elem_of_singleton in Hx. lia.
    + apply StronglySorted_app_2; [|done|by repeat constructor]. intros x y Hx Hy.
      apply list_elem_of_singleton in Hy. specialize (M x Hx). lia.
    + apply Forall_app. split; [done|]. by repeat constructor.
  - pose proof (reserve_holds _ stats _ (Step rs s p I)) as R. by rewrite E in R.
  - pose proof (reserve_holds _ stats _ (Step rs s p I)) as R. by rewrite E in R.
  - split_and!; try done. by eapply all_files_restart.
  - split_and!; try done. by eapply all_files_loss.
Qed.

(** * Guarantees *)

(** C40: no policy revision is ever published twice. Whatever the file held at
    first, whatever calls fail, and wherever processes stop or the power fails
    in between (one process at a time, which the lock ensures), the revisions
    that the reservations return are strictly increasing and lie between 1 and
    2^64-1; and a malformed or exhausted counter is refused and left alone. *)
Theorem policy_revision_fresh rs s :
  history rs s →
  StronglySorted Z.lt rs ∧ Forall (λ r, 0 < r < 2 ^ 64) rs ∧
  ∀ f stats, entry s = Some f → (∀ v, persisted_revision (Some (content f)) = Ok v → v = MaxUint64) →
    (∃ e, (reservePolicyRevision stats s).1 = Failed e ∨ (reservePolicyRevision stats s).1 = Crashed) ∧
    entry (reservePolicyRevision stats s).2 = Some f ∧ older (reservePolicyRevision stats s).2 = older s.
Proof.
  intros H. apply history_inv in H as (_ & _ & S & B & _). split_and!; [done..|]. intros f stats E M.
  pose (I := λ s' : fs (list byte), entry s' = Some f ∧ older s' = older s).
  assert (F : plan_free I) by (by intros ? ? ? ? ?).
  assert (R : holds I (reservePolicyRevision stats) I (λ _ _, False)).
  { apply (holds_bind _ _ _ (λ _, I)); [by apply makePolicyDirectory_holds|intros _].
    do 2 (apply (holds_bind _ _ _ (λ _, I)); [by apply holds_touch|intros _]).
    apply (holds_bind _ _ _ (λ raw s', I s' ∧ raw = Some (content f))); [|intros raw].
    { apply holds_call; [done|done|]. intros s' [E' O]. by rewrite E'. }
    apply (holds_bind _ _ _ (λ _ s', I s' ∧ raw = Some (content f))).
    { apply holds_call; [apply plan_free_and; [done|by intros ? ? ? ? ?]|by intros ? []|done]. }
    intros _. apply (holds_bind _ _ _ (λ v s', I s' ∧ v = MaxUint64)).
    { destruct (persisted_revision raw) as [v|e|] eqn:P; [|apply holds_fail; by intros ? []..].
      apply holds_ret. intros s' [Hs ->]. by split; [|apply M]. }
    intros v s' [Hs ->]. exact Hs. }
  specialize (R s (conj E eq_refl)). destruct (reservePolicyRevision stats s) as [[r|e|] s']; [done| |].
  - destruct R as [R1 R2]. split; [by exists e; left|by split].
  - destruct R as [R1 R2]. split; [by exists (errors_New ""); right|by split].
Qed.

(** Reservations: one, one whose directory sync fails, a power failure that
    brings back the first counter, and another one. *)
Definition counter (r : Z) : option (file (list byte)) := Some (mkFile (be_put 8 r) true).

Lemma policy_revision_fresh_witness :
  history [1; 2] (mkFs (counter 2) [] None []) ∧ StronglySorted Z.lt [1; 2].
Proof.
  assert (H : history [1; 2] (mkFs (counter 2) [] None [])).
  { apply (history_reserved [1] (mkFs (counter 1) [] None []) [true] []); [|by vm_compute].
    apply (history_loss [1] (mkFs (counter 2) [counter 1] None [])); [|apply loss_synced; right; by left].
    apply (history_failed [1] (mkFs (counter 1) [] None []) [true]
      (replicate 11 Proceed ++ [Fault ErrMalformed]) ErrMalformed); [|by vm_compute].
    apply (history_reserved [] (mkFs None [] None []) [true] []); [|by vm_compute].
    apply history_start. intros f Hf. apply list_elem_of_singleton in Hf as ->. by split. }
  split; [exact H|]. exact (proj1 (policy_revision_fresh [1; 2] _ H)).
Defined.
