(* ===== verification/Recovery.v ===== *)
(** internal/recovery/recovery.go: the record of a service failure episode,
    which outlives the daemon, and the timer that retires a node whose daemon
    has not recovered for too long. *)

From S2P Require Import Prelude AtomicFile Netip Desired.
From stdpp Require Import gmap strings.
Open Scope Z_scope.
Open Scope velvet_scope.

(** * Time *)

(** Nanoseconds since Go's zero time; durations are 64-bit and saturate. *)
Definition Time : Type := Z.
Definition IsZero (t : Time) : bool := t =? 0.
Definition MaxDuration : Z := 2 ^ 63 - 1.
Definition MinDuration : Z := - 2 ^ 63.
Definition Sub (t u : Time) : Z := Z.max MinDuration (Z.min MaxDuration (t - u)).

(** * State *)

Record State := mkState {
  Node : string; Namespace : string; Tables : list Z; Running : bool; Retired : bool;
  FailureSince : Time; HealthySince : Time; LastProgress : Time; Window : Z; Stable : Z }.
Definition State_zero : State := mkState "" "" [] false false 0 0 0 0 0.

Record Tracker := mkTracker { t_Window : Z; t_Stable : Z }.

(** What the tracker reads of a desired state. *)
Record DesiredTables := mkDesiredTables {
  d_UUID : string; FabricTableID : Z; d_Routes : list RoutePlan; d_Rules : list RulePlan }.

(** The tables of [known] and of a desired state, in [sort.Ints] order. *)
Definition tables_in (d : DesiredTables) : gset Z :=
  {[FabricTableID d]} ∪ list_to_set (map TableID (d_Routes d)) ∪ list_to_set (map rl_TableID (d_Rules d)).
Definition merge_tables (known : list Z) (d : DesiredTables) : list Z :=
  SortStableFunc Z.sub (elements (list_to_set known ∪ tables_in d : gset Z)).

(** * Operations: what each does to the state *)

Section Operations.
Context (namespace : string).

(** The identity of the previous run differs, or it ended. *)
Definition fresh (d : DesiredTables) (s : State) : bool :=
  negb (bool_decide (Node s = d_UUID d)) || negb (bool_decide (Namespace s = namespace)) ||
  Retired s || negb (Running s).

Definition fresh_state (now : Time) : State := mkState "" "" [] false false now 0 0 0 0.

(** [FailureSince], defaulting to the last progress and then to now. *)
Definition failure_since (now : Time) (s : State) : Time :=
  if IsZero (FailureSince s) then (if IsZero (LastProgress s) then now else LastProgress s)
  else FailureSince s.

Definition Begin (t : Tracker) (d : DesiredTables) (now : Time) (s : State) : result State :=
  let s := if fresh d s then fresh_state now else s in
  Ok (mkState (d_UUID d) namespace (merge_tables (Tables s) d) true (Retired s)
    (failure_since now s) 0 now (t_Window t) (t_Stable t)).

Definition Progress (now : Time) (healthy : bool) (s : State) : result State :=
  if negb (Running s) || Retired s then Ok s
  else if negb healthy then
    Ok (mkState (Node s) (Namespace s) (Tables s) (Running s) (Retired s)
      (FailureSince s) 0 (LastProgress s) (Window s) (Stable s))
  else
    let since := if IsZero (HealthySince s) then now else HealthySince s in
    let failure := if Stable s <=? Sub now since then 0 else FailureSince s in
    Ok (mkState (Node s) (Namespace s) (Tables s) (Running s) (Retired s)
      failure since now (Window s) (Stable s)).

Definition Stop (s : State) : result State :=
  Ok (mkState (Node s) (Namespace s) (Tables s) false (Retired s) 0 0
    (LastProgress s) (Window s) (Stable s)).

Definition Failure (now : Time) (s : State) : result State :=
  if bool_decide (Node s = ""%string) || Retired s then Ok s
  else
    let since := if IsZero (FailureSince s) then now else FailureSince s in
    Ok (mkState (Node s) (Namespace s) (Tables s) true (Retired s) since 0
      (LastProgress s) (Window s) (Stable s)).

(** The first half of [Check]: the state it hands to [retire], if it does. *)
Definition set_failure (t : Time) (s : State) : State :=
  mkState (Node s) (Namespace s) (Tables s) (Running s) (Retired s) t (HealthySince s)
    (LastProgress s) (Window s) (Stable s).
Definition watched (s : State) : bool :=
  Running s && negb (Retired s) && bool_decide (Namespace s = namespace).
Definition Check_due (now : Time) (s : State) : option State :=
  if negb (watched s) then None
  else
    let s := set_failure (failure_since now s) s in
    if (Window s <=? 0) || (Sub now (FailureSince s) <? Window s) then None else Some s.
(** [retire] is the callback: an error, or none. *)
Definition Check (now : Time) (retire : State → option error) (s : State) : result State :=
  if negb (watched s) then Ok s
  else
    match Check_due now s with
    | None => Ok (set_failure (failure_since now s) s)
    | Some s =>
      match retire s with
      | Some e => Err e
      | None => Ok (mkState (Node s) (Namespace s) (Tables s) false true (FailureSince s)
                 (HealthySince s) (LastProgress s) (Window s) (Stable s))
      end
    end.

Definition UpdateDesired (d : DesiredTables) (s : State) : result State :=
  if negb (bool_decide (Node s = d_UUID d)) then Err (errors_New "recovery identity changed")
  else Ok (mkState (Node s) (Namespace s) (merge_tables (Tables s) d) (Running s) (Retired s)
    (FailureSince s) (HealthySince s) (LastProgress s) (Window s) (Stable s)).
End Operations.

(** * The file *)

(** The content of the state file: a state, or [None] for what is not one.
    Times are those of a clock, which JSON can write. *)
Definition update (fn : State → result State) : io (option State) unit :=
  touch;; touch;; touch;;                          (* directory, lock file, lock *)
  data ← ReadFile;
  state ← match data with
          | None => mret State_zero
          | Some None => fail (errors_New "invalid state file")
          | Some (Some s) => mret s
          end;
  state ← io_of (fn state);
  replace (Some state).

Inductive op :=
  | OBegin (t : Tracker) (d : DesiredTables) | OProgress (healthy : bool) | OStop | OFailure
  | OCheck (retire : State → option error) | OUpdateDesired (d : DesiredTables).
Definition apply (ns : string) (o : op) (now : Time) : State → result State :=
  match o with
  | OBegin t d => Begin ns t d now
  | OProgress healthy => Progress now healthy
  | OStop => Stop
  | OFailure => Failure now
  | OCheck retire => Check ns now retire
  | OUpdateDesired d => UpdateDesired d
  end.

(** * Episodes *)

(** The operations that end an episode: a clean stop, progress that completes a
    stable period, and the beginning of another one. *)
Definition stable_now (now : Time) (s : State) : bool :=
  Running s && negb (Retired s) &&
  (Stable s <=? Sub now (if IsZero (HealthySince s) then now else HealthySince s)).
Definition resets (ns : string) (o : op) (now : Time) (s : State) : bool :=
  match o with
  | OBegin _ d => fresh ns d s
  | OProgress healthy => healthy && stable_now now s
  | OStop => true
  | _ => false
  end.

(** A state whose episode began at [r] or later. *)
Definition since (r : Time) (s : State) : Prop :=
  0 <= FailureSince s ∧ 0 <= LastProgress s ∧
  (FailureSince s ≠ 0 → r <= FailureSince s) ∧
  (FailureSince s = 0 → Running s = true → LastProgress s ≠ 0 → r <= LastProgress s).

Lemma failure_since_le r now s : since r s → r <= now → Running s = true → 0 <= now →
  r <= failure_since now s ∧ 0 <= failure_since now s.
Proof.
  intros (F & L & H1 & H2) Hn Hr H0. unfold failure_since, IsZero.
  destruct (FailureSince s =? 0) eqn:E; bool_to_prop; [|by auto].
  destruct (LastProgress s =? 0) eqn:E2; bool_to_prop; [lia|]. by auto.
Qed.

Lemma Check_due_some ns now s s1 : Check_due ns now s = Some s1 →
  s1 = set_failure (failure_since now s) s ∧ watched ns s = true ∧ 0 < Window s ∧
  Window s <= Sub now (failure_since now s).
Proof.
  unfold Check_due. destruct (watched ns s); [cbn|done]. destruct (_ || _) eqn:E; [done|].
  intros [= <-]. bool_to_prop. unfold set_failure in *. cbn in *. split_and!; [done..|lia|lia].
Qed.

Lemma apply_since ns o now r s s' :
  since r s → r <= now → 0 < now → apply ns o now s = Ok s' →
  since r s' ∧ (resets ns o now s = true → since now s').
Proof.
  intros S Hr Hn. destruct S as (F & L & H1 & H2). destruct o as [t d|h| | |retire|d]; cbn [apply resets].
  - unfold Begin. intros [= <-]. unfold since. cbn [FailureSince LastProgress Running].
    destruct (fresh ns d s) eqn:Fr.
    + unfold failure_since, fresh_state, IsZero. cbn. rewrite (proj2 (Z.eqb_neq now 0)) by lia. lia.
    + unfold fresh in Fr. bool_to_prop. assert (Running s = true) by (by destruct (Running s)).
      destruct (failure_since_le r now s) as [? ?]; [done|lia|done|lia|]. split; [lia|done].
  - unfold Progress. destruct (negb (Running s) || Retired s) eqn:G.
    { intros [= <-]. split; [done|]. unfold stable_now. apply orb_true_iff in G as [G|G];
        [by destruct (Running s); rewrite ?andb_false_r|by rewrite G, andb_false_r, andb_false_r]. }
    destruct h; cbn [negb]; [|by intros [= <-]]. intros [= <-]. unfold since. cbn [FailureSince LastProgress Running].
    bool_to_prop. destruct (_ <=? Sub _ _) eqn:D.
    + unfold stable_now. lia.
    + unfold stable_now. rewrite D, andb_false_r. cbn. split; [|done]. split_and!; [lia..|]. lia.
  - intros [= <-]. unfold since. cbn. lia.
  - unfold Failure. destruct (_ || Retired s); [by intros [= <-]|]. intros [= <-]. split; [|done].
    unfold since, IsZero. cbn. destruct (FailureSince s =? 0) eqn:E; bool_to_prop; [lia|]. auto with lia.
  - unfold Check. destruct (watched ns s) eqn:W; cbn [negb]; [|by intros [= <-]].
    unfold watched in W. bool_to_prop. destruct (failure_since_le r now s) as [? ?]; [done|lia|done|lia|].
    assert (S' : since r (set_failure (failure_since now s) s)) by (unfold since; cbn; split_and!; lia).
    destruct (Check_due ns now s) as [s1|] eqn:D; [|by intros [= <-]].
    apply Check_due_some in D as (-> & _). destruct (retire _); [done|]. intros [= <-]. split; [|done].
    destruct S' as (?&?&?&?). by split_and!.
  - unfold UpdateDesired. destruct (negb _); [done|]. intros [= <-]. by split.
Qed.

(** * Histories of an episode *)

(** The state an operation starts from: none if the file is not a state. *)
Definition loaded (c : option (option State)) : option State :=
  match c with None => Some State_zero | Some c => c end.
Definition current (s : fs (option State)) : option State := loaded (content <$> entry s).
Definition with_plan {C} (s : fs C) (p : list event) : fs C := mkFs (entry s) (older s) (temp s) p.

(** What an operation that succeeds from a state adds to the history. *)
Definition reset_by (ns : string) (o : op) (now : Time) (r : Time) (st : option State) : Time :=
  match st with Some st => if resets ns o now st then now else r | None => r end.
Definition retired_by (ns : string) (o : op) (now : Time) (ret : bool) (st : option State) : bool :=
  match o with
  | OBegin _ _ => false
  | OCheck _ => ret || match st with Some st => bool_decide (is_Some (Check_due ns now st)) | None => false end
  | _ => ret
  end.
Definition tables_by (ns : string) (o : op) (seen : gset Z) (st : option State) : gset Z :=
  match o with
  | OBegin _ d => match st with Some st => if fresh ns d st then ∅ else seen | None => seen end ∪ tables_in d
  | OUpdateDesired d => seen ∪ tables_in d
  | _ => seen
  end.
(** What is left of it when the operation fails or stops. *)
Definition begins (o : op) : bool := match o with OBegin _ _ => true | _ => false end.

(** [episode r now ret seen s]: operations ran one after the other (the lock
    excludes two at once) by a clock that does not run backwards.  The last one
    to end an episode and succeed did so at [r]; [ret] says that the node was
    retired since the last [Begin]; [seen] are the tables of the desired
    states that were recorded since the episode's [Begin]. *)
Inductive episode : Time → Time → bool → gset Z → fs (option State) → Prop :=
| episode_start s : all_files (λ c, ∀ st, loaded c = Some st → since 0 st) s → episode 0 0 false ∅ s
| episode_op r t ret seen s ns o now p s' : episode r t ret seen s → t <= now → 0 < now →
    update (apply ns o now) (with_plan s p) = (Done tt, s') →
    episode (reset_by ns o now r (current s)) now (retired_by ns o now ret (current s))
      (tables_by ns o seen (current s)) s'
| episode_failed r t ret seen s ns o now p e s' : episode r t ret seen s → t <= now → 0 < now →
    update (apply ns o now) (with_plan s p) = (Failed e, s') →
    episode r now (negb (begins o) && ret) (if begins o then ∅ else seen) s'
| episode_crashed r t ret seen s ns o now p s' : episode r t ret seen s → t <= now → 0 < now →
    update (apply ns o now) (with_plan s p) = (Crashed, s') →
    episode r now (negb (begins o) && ret) (if begins o then ∅ else seen) s'
| episode_restart r t ret seen s s' : episode r t ret seen s → restart s s' → episode r t ret seen s'
| episode_loss r t ret seen s s' : episode r t ret seen s → power_loss s s' → episode r t ret seen s'.

Definition good (r : Time) (ret : bool) (seen : gset Z) (st : State) : Prop :=
  since r st ∧ (ret = true → Retired st = true) ∧ seen ⊆ list_to_set (Tables st).
Definition good_file (r : Time) (ret : bool) (seen : gset Z) (c : option (option State)) : Prop :=
  ∀ st, loaded c = Some st → good r ret seen st.

Lemma merge_tables_elem known d :
  list_to_set (merge_tables known d) =@{gset Z} list_to_set known ∪ tables_in d.
Proof.
  apply set_eq. intros x. unfold merge_tables.
  rewrite elem_of_list_to_set, (SortStableFunc_perm Z.sub), elem_of_elements. done.
Qed.

Lemma update_holds (P Pf P' : option (option State) → Prop) c0 fn :
  (∀ c, P c → Pf c) →
  (∀ st st', P c0 → loaded c0 = Some st → fn st = Ok st' → Pf (Some (Some st')) ∧ P' (Some (Some st'))) →
  holds (λ s, all_files P s ∧ content <$> entry s = c0) (update fn) (all_files Pf) (λ _, all_files P').
Proof.
  intros HP Hfn. set (I := λ s, all_files P s ∧ content <$> entry s = c0).
  assert (F : plan_free I) by (apply plan_free_and; [apply plan_free_all_files|by intros ? ? ? ? ?]).
  assert (W : ∀ s, I s → all_files Pf s).
  { intros s [H _] f Hf. destruct (H f Hf) as [? ?]. split; [by apply HP|done]. }
  do 3 (apply (holds_bind _ _ _ (λ _, I)); [by apply holds_touch|intros _]).
  apply (holds_bind _ _ _ (λ c s, I s ∧ c = c0)); [apply holds_call; [done|done|]|intros c].
  { intros s Hs. split; [done|apply Hs]. }
  apply (holds_bind _ _ _ (λ st s, I s ∧ loaded c0 = Some st)).
  { destruct c as [[st|]|]; [apply holds_ret|apply holds_fail|apply holds_ret]; intros s [Hs E];
      [split; [done|by rewrite <-E]|by apply W|split; [done|by rewrite <-E]]. }
  intros st. apply (holds_bind _ _ _ (λ st' s, I s ∧ loaded c0 = Some st ∧ fn st = Ok st')).
  { destruct (fn st) as [st'|e|] eqn:E; [apply holds_ret; by intros s [? ?]|apply holds_fail; intros s [? _]; by apply W..]. }
  intros st' s (Hs & L & E). destruct (Hfn st st') as [H1 H2]; [|done|done|].
  { destruct Hs as [A <-]. apply (A (entry s)). by left. }
  pose proof (replace_holds Pf (Some st') H1 s (W s Hs)) as R.
  destruct (replace (Some st') s) as [[[]|e|] s']; [|done..]. destruct R as (_ & Ee & Eo).
  intros f Hf. rewrite Ee, Eo in Hf. apply list_elem_of_singleton in Hf as ->. cbn. split; [done|by intros g [= <-]].
Qed.

(** The tables and the retirement, operation by operation. *)
Lemma apply_tables ns o now s s' (seen : gset Z) :
  apply ns o now s = Ok s' → seen ⊆ list_to_set (Tables s) →
  tables_by ns o seen (Some s) ⊆ list_to_set (Tables s') ∧ (begins o = false → seen ⊆ list_to_set (Tables s')).
Proof.
  intros E H. destruct o as [t d|h| | |retire|d]; cbn [apply tables_by begins] in *.
  - injection E as <-. cbn [Tables]. rewrite merge_tables_elem. split; [|done].
    destruct (fresh ns d s); cbn; set_solver.
  - unfold Progress in E. destruct (negb (Running s) || Retired s); [by injection E as <-|].
    by destruct (negb h); injection E as <-.
  - by injection E as <-.
  - unfold Failure in E. by destruct (_ || _); injection E as <-.
  - unfold Check in E. destruct (negb _); [by injection E as <-|].
    destruct (Check_due ns now s) as [s1|] eqn:D; [|by injection E as <-].
    apply Check_due_some in D as (-> & _). destruct (retire _); [done|]. by injection E as <-.
  - unfold UpdateDesired in E. destruct (negb _); [done|]. injection E as <-. cbn [Tables].
    rewrite merge_tables_elem. set_solver.
Qed.

Lemma apply_retired ns o now s s' (ret : bool) :
  apply ns o now s = Ok s' → (ret = true → Retired s = true) →
  (retired_by ns o now ret (Some s) = true → Retired s' = true) ∧
  (begins o = false → ret = true → Retired s' = true).
Proof.
  intros E H. destruct o as [t d|h| | |retire|d]; cbn [apply retired_by begins] in *.
  - by split.
  - unfold Progress in E. destruct (negb (Running s) || Retired s); [injection E as <-; auto|].
    destruct (negb h); injection E as <-; auto.
  - injection E as <-; auto.
  - unfold Failure in E. destruct (_ || _); injection E as <-; auto.
  - unfold Check in E. destruct (watched ns s) eqn:W; cbn [negb] in E.
    + destruct (Check_due ns now s) as [s1|] eqn:D.
      * destruct (retire s1); [done|]. injection E as <-. auto.
      * injection E as <-. cbn. rewrite orb_false_r. auto.
    + injection E as <-. unfold Check_due. rewrite W. cbn. rewrite orb_false_r. auto.
  - unfold UpdateDesired in E. destruct (negb _); [done|]. injection E as <-. auto.
Qed.

Lemma apply_good ns o now r ret seen st st' :
  good r ret seen st → r <= now → 0 < now → apply ns o now st = Ok st' →
  good r (negb (begins o) && ret) (if begins o then ∅ else seen) st' ∧
  good (reset_by ns o now r (Some st)) (retired_by ns o now ret (Some st)) (tables_by ns o seen (Some st)) st'.
Proof.
  intros (S & R & T) Hr Hn E. destruct (apply_since ns o now r st st' S Hr Hn E) as [S1 S2].
  destruct (apply_retired ns o now st st' ret E R) as [R1 R2].
  destruct (apply_tables ns o now st st' seen E T) as [T1 T2]. unfold good, reset_by. split; split_and!.
  - done.
  - destruct (begins o); [done|]. by apply R2.
  - destruct (begins o); [set_solver|]. by apply T2.
  - destruct (resets ns o now st); auto.
  - done.
  - done.
Qed.

Lemma episode_inv r t ret seen s : episode r t ret seen s →
  all_files (good_file r ret seen) s ∧ r <= t /\ 0 <= r.
Proof.
  assert (Step : ∀ r t ret seen s ns o now p, all_files (good_file r ret seen) s → r <= t → t <= now → 0 < now →
    match update (apply ns o now) (with_plan s p) with
    | (Done _, s') => all_files (good_file (reset_by ns o now r (current s))
        (retired_by ns o now ret (current s)) (tables_by ns o seen (current s))) s'
    | (_, s') => all_files (good_file r (negb (begins o) && ret) (if begins o then ∅ else seen)) s'
    end).
  { clear. intros r t ret seen s ns o now p I Ht Hn H0.
    pose proof (update_holds (good_file r ret seen)
      (good_file r (negb (begins o) && ret) (if begins o then ∅ else seen))
      (good_file (reset_by ns o now r (current s)) (retired_by ns o now ret (current s)) (tables_by ns o seen (current s)))
      (content <$> entry s) (apply ns o now)) as U.
    apply U; [| |split; [exact I|done]].
    - intros c G st L. destruct (G st L) as (? & ? & ?). split_and!; [done|by destruct (begins o)|destruct (begins o); set_solver].
    - intros st st' G L E. destruct (apply_good ns o now r ret seen st st' (G st L)) as [G1 G2]; [lia|done|done|].
      split; intros st2 [= <-]; [done|]. unfold current. by rewrite L. }
  induction 1 as [s H|r t ret seen s ns o now p s' _ (I & L & N) Ht H0 E|r t ret seen s ns o now p e s' _ (I & L & N) Ht H0 E|
    r t ret seen s ns o now p s' _ (I & L & N) Ht H0 E|r t ret seen s s' _ (I & L & N) R|r t ret seen s s' _ (I & L & N) R].
  - split; [|lia]. intros f Hf. destruct (H f Hf) as [H1 H2]. split; [|done]. intros st Hst.
    split_and!; [by apply H1|done|set_solver].
  - pose proof (Step r t ret seen s ns o now p I L Ht H0) as S. rewrite E in S. split; [done|].
    unfold reset_by. destruct (current s); [destruct (resets ns o now _)|]; lia.
  - pose proof (Step r t ret seen s ns o now p I L Ht H0) as S. rewrite E in S. split; [done|lia].
  - pose proof (Step r t ret seen s ns o now p I L Ht H0) as S. rewrite E in S. split; [done|lia].
  - split; [|lia]. by eapply all_files_restart.
  - split; [|lia]. by eapply all_files_loss.
Qed.

(** A node is retired only when its service has failed for long enough.
    Whatever operations fail, crash or lose power, a check that hands a state to
    the cleanup does so at least the recovery window after the last operation
    that ended an episode (a clean stop, a completed stable period or a new
    beginning) succeeded; the node was not retired already since it began; and
    the cleanup is given every table that was recorded since then. *)
Theorem retire_sound r t ret seen s ns now st st' :
  episode r t ret seen s → t <= now → current s = Some st → Check_due ns now st = Some st' →
  0 < Window st' ∧ Window st' <= now - r ∧ ret = false ∧ Running st' = true ∧ Namespace st' = ns ∧
  seen ⊆ list_to_set (Tables st').
Proof.
  intros H Ht C D. apply episode_inv in H as (I & L & N).
  destruct (I (entry s)) as [G _]; [by left|]. destruct (G st C) as (S & R & T).
  apply Check_due_some in D as (-> & W & P & Q). unfold watched in W. bool_to_prop.
  destruct (failure_since_le r now st S) as [F1 F2]; [lia|done|lia|].
  unfold Sub, MaxDuration, MinDuration in Q. cbn. split_and!; [done|lia| |done|done|done].
  destruct ret; [|done]. rewrite R in * by done. done.
Qed.

(** * Retirement cannot be put off *)

(** Operations in a row; one that fails leaves the file as it is. *)
Fixpoint run (ns : string) (ops : list (op * Time)) (s : State) : State :=
  match ops with
  | [] => s
  | (o, now) :: ops => run ns ops (match apply ns o now s with Ok s' => s' | _ => s end)
  end.
(** None of them ends the episode, and every beginning asks for the window [w]. *)
Fixpoint persists (ns : string) (w : Z) (ops : list (op * Time)) (s : State) : bool :=
  match ops with
  | [] => true
  | (o, now) :: ops =>
    negb (resets ns o now s) && match o with OBegin t _ => t_Window t =? w | _ => true end &&
    persists ns w ops (match apply ns o now s with Ok s' => s' | _ => s end)
  end.

(** A running episode that began at [f] with the window [w], or a retired node. *)
Definition failing (ns : string) (f : Time) (w : Z) (s : State) : Prop :=
  Retired s = true ∨ watched ns s = true ∧ FailureSince s = f ∧ Window s = w.

Lemma watched_spec ns s : watched ns s = true ↔ Running s = true ∧ Retired s = false ∧ Namespace s = ns.
Proof.
  unfold watched. rewrite !andb_true_iff, negb_true_iff, bool_decide_eq_true. tauto.
Qed.

Lemma failing_step ns f w o now s s' : f ≠ 0 → failing ns f w s → persists ns w [(o, now)] s = true →
  apply ns o now s = Ok s' → failing ns f w s'.
Proof.
  intros F0 [R|(W & Ef & Ew)] P E; cbn [persists] in P; bool_to_prop.
  - left. destruct o as [t d|h| | |retire|d]; cbn [apply resets] in *; try done.
    + unfold fresh in *. by rewrite R, orb_true_r in *.
    + unfold Progress in E. rewrite R, orb_true_r in E. by injection E as <-.
    + unfold Failure in E. rewrite R, orb_true_r in E. by injection E as <-.
    + unfold Check, watched in E. rewrite R, andb_false_r in E. by injection E as <-.
    + unfold UpdateDesired in E. destruct (negb _); [done|]. by injection E as <-.
  - assert (Fs : ∀ now, failure_since now s = f).
    { intros n. unfold failure_since, IsZero. rewrite Ef. by rewrite (proj2 (Z.eqb_neq f 0)). }
    apply watched_spec in W as (Rn & Rt & En).
    destruct o as [t d|h| | |retire|d]; cbn [apply resets] in *; try done.
    + unfold Begin in E. match goal with H : fresh _ _ _ = false |- _ => rewrite H in E end.
      injection E as <-. right. bool_to_prop. rewrite watched_spec. cbn. by rewrite Fs.
    + unfold Progress in E. rewrite Rn, Rt in E. cbn in E.
      destruct h; cbn [negb] in E; injection E as <-; right; rewrite watched_spec; cbn; [|by rewrite Ef].
      unfold stable_now in *. rewrite Rn, Rt in *. cbn in *. by destruct (_ <=? _).
    + unfold Failure in E. destruct (_ || _); injection E as <-; right; rewrite watched_spec; [done|].
      unfold IsZero. cbn. by rewrite Ef, (proj2 (Z.eqb_neq f 0)).
    + unfold Check in E. rewrite (proj2 (watched_spec ns s)) in E by done. cbn [negb] in E.
      destruct (Check_due ns now s) as [s1|] eqn:D.
      * apply Check_due_some in D as (-> & _). destruct (retire _); [done|]. injection E as <-. by left.
      * injection E as <-. right. rewrite watched_spec. cbn. by rewrite Fs.
    + unfold UpdateDesired in E. destruct (negb _); [done|]. injection E as <-. right. by rewrite watched_spec.
Qed.

Lemma failing_run ns f w ops s : f ≠ 0 → failing ns f w s → persists ns w ops s = true → failing ns f w (run ns ops s).
Proof.
  intros F0. revert s. induction ops as [|[o now] ops IH]; intros s H P; [done|]. cbn [run persists] in *.
  apply andb_true_iff in P as [P1 P2]. apply IH; [|done]. destruct (apply ns o now s) as [s'| |] eqn:E; [|done..].
  eapply (failing_step ns f w o now); [done|done| |done]. cbn [persists]. by rewrite P1.
Qed.

(** Retirement cannot be put off: once an episode has begun, restarts,
    failures, progress short of a stable period and checks do not move its
    beginning, so that the first check after the window retires the node, unless
    an earlier one did. *)
Theorem retire_live ns ops s now f w (retire : State → option error) :
  watched ns s = true → FailureSince s = f → f ≠ 0 → Window s = w → 0 < w →
  persists ns w ops s = true → w <= Sub now f → (∀ s, retire s = None) →
  Retired (run ns (ops ++ [(OCheck retire, now)]) s) = true.
Proof.
  intros W Ef F0 Ew Hw P Hn Hr. pose proof (failing_run ns f w ops s F0 (or_intror (conj W (conj Ef Ew))) P) as H.
  assert (R : run ns (ops ++ [(OCheck retire, now)]) s = run ns [(OCheck retire, now)] (run ns ops s)).
  { clear. revert s. induction ops as [|[o n] ops IH]; intros s; [done|]. cbn [run app]. apply IH. }
  rewrite R. set (s' := run ns ops s) in *. cbn [run apply]. unfold Check. destruct H as [H|(W' & E1 & E2)].
  - unfold watched. by rewrite H, andb_false_r.
  - rewrite W'. cbn [negb]. unfold Check_due. rewrite W'. cbn [negb].
    assert (Fs : failure_since now s' = f) by (unfold failure_since, IsZero; by rewrite E1, (proj2 (Z.eqb_neq f 0))).
    rewrite Fs. unfold set_failure. cbn [Window FailureSince]. rewrite E2.
    rewrite (proj2 (Z.leb_gt w 0)), (proj2 (Z.ltb_ge (Sub now f) w)) by lia. cbn [orb]. by rewrite Hr.
Qed.

(** A daemon that begins, fails and begins again, and the timer's check. *)
Definition example_tracker : Tracker := mkTracker 600 60.
Definition example_tables : DesiredTables := mkDesiredTables "u" 20000 [] [mkRulePlan 100 20001 Prefix_zero Prefix_zero].
Definition example_begun : State := mkState "u" "net:1" [100; 20000] true false 1000 0 1000 600 60.
Definition example_ops : list (op * Time) :=
  [(OProgress true, 1010); (OFailure, 1020); (OBegin example_tracker example_tables, 1030);
   (OProgress true, 1040); (OCheck (λ _, None), 1100); (OProgress false, 1120)].

Lemma retire_live_witness :
  persists "net:1" 600 example_ops example_begun = true ∧
  Retired (run "net:1" (example_ops ++ [(OCheck (λ _, None), 1600)]) example_begun) = true.
Proof.
  split; [by vm_compute|].
  apply (retire_live "net:1" example_ops example_begun 1600 1000 600 (λ _, None)); try done; by vm_compute.
Defined.

Lemma retire_sound_witness :
  episode 1000 1000 false {[100; 20000]} (mkFs (Some (mkFile (Some example_begun) true)) [] None []) ∧
  600 <= 1600 - 1000.
Proof.
  assert (H : episode 1000 1000 false {[100; 20000]} (mkFs (Some (mkFile (Some example_begun) true)) [] None [])).
  { replace ({[100; 20000]} : gset Z) with (tables_by "net:1" (OBegin example_tracker example_tables) ∅
      (current (mkFs None [] None []))) by (by vm_compute).
    apply (episode_op 0 0 false ∅ (mkFs None [] None []) "net:1" (OBegin example_tracker example_tables) 1000 []);
      [|done|done|by vm_compute].
    apply episode_start. intros f Hf. apply list_elem_of_singleton in Hf as ->.
    split; [by intros st [= <-]|done]. }
  split; [exact H|].
  destruct (retire_sound 1000 1000 false {[100; 20000]} (mkFs (Some (mkFile (Some example_begun) true)) [] None [])
    "net:1" 1600 example_begun (set_failure 1000 example_begun) H) as (_ & W & _);
    [done|done|by vm_compute|exact W].
Defined.
