(* ===== verification/DynamicPolicy.v ===== *)
(** runtime/dynamic_policy.go and runtime/dynamic_discovery.go: what a node
    remembers of the loopbacks it has routes to, the policy updates and queries
    it exchanges with them, and the budgets of both and of its dials.  One mutex
    guards all of the state: every operation is one step, except that the scan
    takes the mutex for its refresh, for each loopback and for the flush. *)

From S2P Require Import Prelude Netip Field MessageData Recovery.
From stdpp Require Import gmap.
Open Scope Z_scope.
Open Scope velvet_scope.

Definition Second : Z := 1000000000.
Definition dynamicRetryBase : Z := 10 * Second.
Definition dynamicRetryMax : Z := 300 * Second.
Definition dynamicQueryInterval : Z := 300 * Second.
Definition dynamicUpdateInterval : Z := 5 * Second.
Definition dynamicTargetRetention : Z := 1800 * Second.
Definition maxDynamicDialsPerSecond : Z := 4.
Definition maxPolicySendsPerTick : nat := 16.
Definition maxDynamicTargets : nat := 4096.
Definition maxRoutedSessions : Z := 128.

(** [now.Before(t)]. *)
Definition Before (now t : Time) : bool := now <? t.

(** * Retry delays *)

(** [draw] is [rand.Int64N(base/4 + 1)]. *)
Definition jitterDelay (base draw : Z) : Z := base + draw.
Definition retryDelay (failures draw : Z) : Z :=
  let shift := Z.min failures 6 in
  let shift := if 0 <? shift then shift - 1 else shift in
  jitterDelay (Z.min (dynamicRetryBase * Z.shiftl 1 shift) dynamicRetryMax) draw.

(** * State *)

Record dynamicTarget := mkTarget {
  dialing : bool; uid : list byte; bound : bool; failures : Z;
  nextAttempt : Time; nextQuery : Time; nextUpdate : Time;
  policy : option DynamicLinkPolicy; pendingUpdate : bool; pendingQuery : bool;
  reachable : bool; lastSeen : Time }.
Definition newTarget (now : Time) : dynamicTarget :=
  mkTarget false uuid_Nil false 0 0 0 0 None false false false now.

Definition set_dialing b t := mkTarget b (uid t) (bound t) (failures t) (nextAttempt t) (nextQuery t)
  (nextUpdate t) (policy t) (pendingUpdate t) (pendingQuery t) (reachable t) (lastSeen t).
Definition set_identity id b now t := mkTarget (dialing t) id b (failures t) (nextAttempt t) (nextQuery t)
  (nextUpdate t) (policy t) (pendingUpdate t) (pendingQuery t) (reachable t) now.
Definition set_attempt f next t := mkTarget (dialing t) (uid t) (bound t) f next (nextQuery t)
  (nextUpdate t) (policy t) (pendingUpdate t) (pendingQuery t) (reachable t) (lastSeen t).
Definition set_query b next t := mkTarget (dialing t) (uid t) (bound t) (failures t) (nextAttempt t) next
  (nextUpdate t) (policy t) (pendingUpdate t) b (reachable t) (lastSeen t).
Definition set_update b next t := mkTarget (dialing t) (uid t) (bound t) (failures t) (nextAttempt t) (nextQuery t)
  next (policy t) b (pendingQuery t) (reachable t) (lastSeen t).
Definition set_policy p t := mkTarget (dialing t) (uid t) (bound t) (failures t) (nextAttempt t) (nextQuery t)
  (nextUpdate t) p (pendingUpdate t) false (reachable t) (lastSeen t).
Definition set_reachable b t := mkTarget (dialing t) (uid t) (bound t) (failures t) (nextAttempt t) (nextQuery t)
  (nextUpdate t) (policy t) (pendingUpdate t) (pendingQuery t) b (lastSeen t).
Definition set_seen now t := mkTarget (dialing t) (uid t) (bound t) (failures t) (nextAttempt t) (nextQuery t)
  (nextUpdate t) (policy t) (pendingUpdate t) (pendingQuery t) (reachable t) now.

(** The part of the engine that these files keep.  [attempts] says of every
    peer with an Attempt whether its Link is up; [cleanups] are the peers with a
    pending cleanup; [outbound] counts the slots of [outboundSessions] in use. *)
Record engine := mkEngine {
  stopped : bool; targets : gmap Addr dynamicTarget; policyCursor : Z;
  dialWindow : Time; dialCount : Z; outbound : Z;
  attempts : gmap (list byte) bool; cleanups : gset (list byte) }.
Definition with_targets (ts : gmap Addr dynamicTarget) (d : engine) : engine :=
  mkEngine (stopped d) ts (policyCursor d) (dialWindow d) (dialCount d) (outbound d) (attempts d) (cleanups d).
Definition put_target (a : Addr) (t : dynamicTarget) (d : engine) : engine :=
  with_targets (<[a := t]> (targets d)) d.

(** What the engine reads of the runner: the local identity, the mode of its
    dynamic Links, its policy revision, and its direct Links. *)
Record runner := mkRunner {
  local_uuid : list byte; local_loopback : Addr; active : bool; allowsInbound : bool;
  policyRevision : Z; hasDirectLinkToLoopback : Addr → bool }.

Section Engine.
Context (r : runner).

(** * Targets and their identity *)

Definition targetLocked (addr : Addr) (now : Time) (d : engine) : option dynamicTarget * engine :=
  match targets d !! addr with
  | Some t => (Some t, d)
  | None =>
    if (maxDynamicTargets <=? size (targets d))%nat then (None, d)
    else let t := newTarget now in (Some t, put_target addr t d)
  end.

(** Another loopback has the identity. *)
Definition bound_elsewhere (addr : Addr) (id : list byte) (d : engine) : bool :=
  existsb (λ x, negb (bool_decide (x.1 = addr)) && bool_decide (uid x.2 = id)) (map_to_list (targets d)).

Definition bindPolicyPeer (addr : Addr) (id : list byte) (now : Time) (d : engine) : result unit * engine :=
  let '(t, d) := targetLocked addr now d in
  match t with
  | None => (Err (errors_New "dynamic peer cache full"), d)
  | Some t =>
    if negb (bool_decide (uid t = uuid_Nil)) && negb (bool_decide (uid t = id)) then
      (Err (errors_New "routed peer identity conflicts with cached binding"), d)
    else if bound_elsewhere addr id d then
      (Err (errors_New "routed UID already bound to another loopback"), d)
    else (Ok tt, put_target addr (set_identity id true now t) d)
  end.

(** * Policies *)

Definition mergePolicyLocked (p : option DynamicLinkPolicy) (t : dynamicTarget) : dynamicTarget :=
  match p with
  | None => t
  | Some p =>
    if Revision p =? 0 then t
    else match policy t with
      | Some q => if Revision p <=? Revision q then t else set_policy (Some p) t
      | None => set_policy (Some p) t
      end
  end.

Definition receivePolicy (source : Addr) (m : Message) (now : Time) (d : engine) : engine :=
  match Msg_UID m with
  | None => d
  | Some u =>
    if bool_decide (UUID u = uuid_Nil) || bool_decide (UUID u = local_uuid r) then d
    else if stopped d then d
    else
      let t := targets d !! source in
      if match t with
         | Some t => negb (bool_decide (uid t = uuid_Nil)) && negb (bool_decide (uid t = UUID u))
         | None => false end then d
      else if bound_elsewhere source (UUID u) d then d
      else match Type_ m with
        | PolicyUpdate =>
          match t with
          | None => d
          | Some t =>
            if negb (bound t) || negb (bool_decide (uid t = UUID u)) then d
            else put_target source (mergePolicyLocked (Msg_Policy m) t) d
          end
        | PolicyQuery =>
          if negb (allowsInbound r) then d
          else
            let '(t, d) := targetLocked source now d in
            match t with
            | None => d
            | Some t =>
              put_target source
                (set_update true (nextUpdate t) (set_reachable true (set_identity (UUID u) (bound t) now t))) d
            end
        | _ => d
        end
  end.

(** What is due for a target now: an update or a query, and the target after
    sending it.  [draw] is the jitter of a query. *)
Definition Message_of (ty : MsgType) (p : option DynamicLinkPolicy) : Message :=
  set_UID (Some (mkUID (local_uuid r) "")) p (newMessage ty).
Definition due (now : Time) (draw : Z) (t : dynamicTarget) : option (Message * dynamicTarget) :=
  if pendingUpdate t && reachable t && negb (Before now (nextUpdate t)) && negb (policyRevision r =? 0) then
    Some (Message_of PolicyUpdate (Some (mkPolicy (policyRevision r) (allowsInbound r))),
          set_update false (now + dynamicUpdateInterval) t)
  else if pendingQuery t && negb (Before now (nextQuery t)) && bound t &&
          match policy t with Some p => negb (Accept p) | None => false end then
    Some (Message_of PolicyQuery None,
          set_query false (now + jitterDelay dynamicQueryInterval draw) t)
  else None.

(** The loop of [flushPolicy]: at most [fuel] more visits. *)
Fixpoint flush_loop (fuel : nat) (keys : list Addr) (now : Time) (draw : Addr → Z)
    (sends : list (Addr * Message)) (cursor : Z) (ts : gmap Addr dynamicTarget) :
    list (Addr * Message) * Z * gmap Addr dynamicTarget :=
  match fuel with
  | O => (sends, cursor, ts)
  | S fuel =>
    if (maxPolicySendsPerTick <=? length sends)%nat then (sends, cursor, ts)
    else
      let idx := cursor mod len keys in
      let cursor := (idx + 1) mod len keys in
      match keys !! Z.to_nat idx with
      | None => (sends, cursor, ts)                (* not reached: idx < len keys *)
      | Some addr =>
        match ts !! addr with
        | None => flush_loop fuel keys now draw sends cursor ts
        | Some t =>
          match due now (draw addr) t with
          | Some (m, t') => flush_loop fuel keys now draw (sends ++ [(addr, m)]) cursor (<[addr := t']> ts)
          | None => flush_loop fuel keys now draw sends cursor ts
          end
        end
      end
  end.

Definition addr_cmp (a b : Addr) : Z := match Compare a b with Lt => -1 | Eq => 0 | Gt => 1 end.
Definition sorted_addrs (ts : gmap Addr dynamicTarget) : list Addr :=
  SortStableFunc addr_cmp (elements (dom ts)).

(** The messages to send, in order; without a socket there are none. *)
Definition flushPolicy (now : Time) (draw : Addr → Z) (d : engine) : list (Addr * Message) * engine :=
  let keys := sorted_addrs (targets d) in
  let '(sends, cursor, ts) := flush_loop (length keys) keys now draw [] (policyCursor d) (targets d) in
  (sends, mkEngine (stopped d) ts cursor (dialWindow d) (dialCount d) (outbound d) (attempts d) (cleanups d)).

(** * Dials *)

Definition busy (d : engine) (t : dynamicTarget) : bool :=
  bool_decide (is_Some (attempts d !! uid t)) || bool_decide (uid t ∈ cleanups d).
Definition denied (t : dynamicTarget) : bool :=
  match policy t with Some p => negb (Accept p) | None => false end.

Definition reserveDial (target : Addr) (now : Time) (draw : Z) (d : engine) : bool * engine :=
  if bool_decide (target = local_loopback r) || hasDirectLinkToLoopback r target then (false, d)
  else
    let state := targets d !! target in
    if stopped d || match state with
       | Some t => dialing t || Before now (nextAttempt t) || denied t || busy d t
       | None => false end then (false, d)
    else if bool_decide (state = None) && (maxDynamicTargets <=? size (targets d))%nat then (false, d)
    else
      let d := if Second <=? Sub now (dialWindow d)
        then mkEngine (stopped d) (targets d) (policyCursor d) now 0 (outbound d) (attempts d) (cleanups d) else d in
      if maxDynamicDialsPerSecond <=? dialCount d then (false, d)
      else if maxRoutedSessions <=? outbound d then (false, d)
      else
        let t := set_dialing true (default (newTarget now) state) in
        let failures := Z.min (failures t + 1) 7 in
        let t := set_attempt failures (now + retryDelay failures draw) t in
        (true, mkEngine (stopped d) (<[target := t]> (targets d)) (policyCursor d) (dialWindow d)
                 (dialCount d + 1) (outbound d + 1) (attempts d) (cleanups d)).

(** The end of a dial, and of the session it led to: the worker frees its slot. *)
Definition finishRoutedDial (target : Addr) (failed : bool) (now : Time) (draw : Z) (d : engine) : engine :=
  match targets d !! target with
  | None => d
  | Some t =>
    let t := set_dialing false t in
    if failed then
      if bool_decide (attempts d !! uid t = Some true) then put_target target t d
      else
        let next := now + retryDelay (failures t) draw in
        put_target target (if Before (nextAttempt t) next then set_attempt (failures t) next t else t) d
    else put_target target t d
  end.

(** * The scan *)

Definition mark_seen (now : Time) (ts : gmap Addr dynamicTarget) (addr : Addr) : gmap Addr dynamicTarget :=
  match ts !! addr with Some t => <[addr := set_seen now (set_reachable true t)]> ts | None => ts end.
Definition evictable (d : engine) (now : Time) (t : dynamicTarget) : bool :=
  negb (reachable t) && negb (dialing t) && negb (busy d t) &&
  (dynamicTargetRetention <? Sub now (lastSeen t)) &&
  negb (Before now (nextAttempt t)) && negb (Before now (nextQuery t)).
Definition refresh (routes : list Addr) (now : Time) (d : engine) : engine :=
  let ts := (λ t, set_query false (nextQuery t) (set_reachable false t)) <$> targets d in
  let ts := foldl (mark_seen now) ts routes in
  with_targets (filter (λ x, evictable d now x.2 = false) ts) d.

(** One reachable loopback: query it, or dial it; [dials] are the dials begun. *)
Definition scan_target (hasEvidence : bool) (now : Time) (draw : Addr → Z) (acc : list Addr * engine)
    (target : Addr) : list Addr * engine :=
  let '(dials, d) := acc in
  if bool_decide (target = local_loopback r) || hasDirectLinkToLoopback r target then acc
  else
    let t := targets d !! target in
    let denied_ := match t with Some t => denied t | None => false end in
    let d := match t with
      | Some t => if denied_ && negb (dialing t) && negb (busy d t)
                  then put_target target (set_query true (nextQuery t) t) d else d
      | None => d end in
    if denied_ || negb hasEvidence then (dials, d)
    else
      let '(ok, d) := reserveDial target now (draw target) d in
      (if ok then dials ++ [target] else dials, d).

(** [routes] are the reachable loopbacks; a failed lookup skips the scan. *)
Definition scanLoopbacks (routes : option (list Addr)) (hasEvidence : bool) (now : Time)
    (draw : Addr → Z) (d : engine) : list Addr * list (Addr * Message) * engine :=
  match routes with
  | None => ([], [], d)
  | Some routes =>
    let d := refresh routes now d in
    let '(dials, d) := if active r then foldl (scan_target hasEvidence now draw) ([], d) routes else ([], d) in
    let '(sends, d) := flushPolicy now draw d in
    (dials, sends, d)
  end.
End Engine.

(** What a reload keeps of the targets: everything but dials and queries, and
    nothing if the node's identity or addresses changed (runtime.go). *)
Definition policySeed (same_identity : bool) (d : engine) : gmap Addr dynamicTarget :=
  if same_identity then (λ t, set_query false (nextQuery t) (set_dialing false t)) <$> targets d else ∅.
(** Starting with a seed (dynamic.go): every known peer gets an update. *)
Definition start_targets (seed : gmap Addr dynamicTarget) : gmap Addr dynamicTarget :=
  (λ t, set_update (negb (bool_decide (uid t = uuid_Nil))) (nextUpdate t) t) <$> seed.
