(* ===== verification/DynamicPolicyProps.v ===== *)
(** What a node remembers of its peers never goes back, and its policy messages
    are sent within their budgets and without starving anyone. *)

From S2P Require Import Prelude Netip Field MessageData Recovery DynamicPolicy.
From stdpp Require Import gmap.
Open Scope Z_scope.
Open Scope velvet_scope.

(** * Targets *)

(** [t'] comes after [t]: the identity stays, the policy is the same or has a
    higher revision, and no budget is given back. *)
Record kept (t t' : dynamicTarget) : Prop := {
  k_uid : uid t ≠ uuid_Nil → uid t' = uid t;
  k_policy : ∀ p, policy t = Some p → ∃ p', policy t' = Some p' ∧ (p' = p ∨ Revision p < Revision p');
  k_attempt : nextAttempt t <= nextAttempt t';
  k_query : nextQuery t <= nextQuery t';
  k_update : nextUpdate t <= nextUpdate t'
}.
#[global] Instance kept_preorder : PreOrder kept.
Proof.
  split.
  - intros t. split; [done| |lia..]. intros p ->. exists p. auto.
  - intros t u v [] []. split; [|intros p Hp|lia..].
    + intros N. rewrite k_uid1; [by apply k_uid0|]. by rewrite k_uid0.
    + destruct (k_policy0 p Hp) as (p1 & H1 & O1). destruct (k_policy1 p1 H1) as (p2 & H2 & O2).
      exists p2. split; [done|]. destruct O1 as [->|], O2 as [->|]; auto with lia.
Qed.

Definition unique_uids (ts : gmap Addr dynamicTarget) : Prop :=
  ∀ a b t u, ts !! a = Some t → ts !! b = Some u → uid t = uid u → uid t ≠ uuid_Nil → a = b.
(** Every target of [ts] is still there, and kept. *)
Definition extends (ts ts' : gmap Addr dynamicTarget) : Prop :=
  ∀ a t, ts !! a = Some t → ∃ t', ts' !! a = Some t' ∧ kept t t'.
#[global] Instance extends_preorder : PreOrder extends.
Proof.
  split; [by intros ts a t H; exists t|]. intros ts us vs H1 H2 a t Ht.
  destruct (H1 a t Ht) as (u & Hu & K1), (H2 a u Hu) as (v & Hv & K2). exists v. split; [done|by etrans].
Qed.

Lemma extends_insert ts a t t' : ts !! a = Some t → kept t t' → extends ts (<[a := t']> ts).
Proof.
  intros Ht K b u Hu. destruct (decide (a = b)) as [<-|N].
  - rewrite lookup_insert_eq. exists t'. split; [done|congruence].
  - rewrite lookup_insert_ne by done. by exists u.
Qed.
Lemma extends_new ts a t : ts !! a = None → extends ts (<[a := t]> ts).
Proof. intros H b u Hu. exists u. rewrite lookup_insert_ne; [done|congruence]. Qed.

Lemma unique_insert ts a t t' :
  unique_uids ts → ts !! a = Some t → uid t' = uid t → unique_uids (<[a := t']> ts).
Proof.
  intros U Ht E b c u v Hb Hc. destruct (decide (a = b)) as [<-|N1], (decide (a = c)) as [<-|N2];
    rewrite ?lookup_insert_eq, ?lookup_insert_ne in Hb by done;
    rewrite ?lookup_insert_eq, ?lookup_insert_ne in Hc by done.
  - done.
  - injection Hb as <-. rewrite E. by apply U.
  - injection Hc as <-. intros E1 N. rewrite E in E1. by apply (U b a u t).
  - by apply U.
Qed.
Lemma unique_insert_nil ts a t : unique_uids ts → uid t = uuid_Nil → ts !! a = None → unique_uids (<[a := t]> ts).
Proof.
  intros U E Ha b c u v Hb Hc. destruct (decide (a = b)) as [<-|N1], (decide (a = c)) as [<-|N2];
    rewrite ?lookup_insert_eq, ?lookup_insert_ne in Hb by done;
    rewrite ?lookup_insert_eq, ?lookup_insert_ne in Hc by done; try congruence.
  by apply U.
Qed.
Lemma unique_bind ts a t : unique_uids ts →
  (∀ b u, ts !! b = Some u → b ≠ a → uid u ≠ uid t) → unique_uids (<[a := t]> ts).
Proof.
  intros U H b c u v Hb Hc. destruct (decide (a = b)) as [<-|N1], (decide (a = c)) as [<-|N2];
    rewrite ?lookup_insert_eq, ?lookup_insert_ne in Hb by done;
    rewrite ?lookup_insert_eq, ?lookup_insert_ne in Hc by done; try congruence.
  - injection Hb as <-. intros E _. by destruct (H c v).
  - injection Hc as <-. intros E _. by destruct (H b u).
  - by apply U.
Qed.

Record inv (d : engine) : Prop := {
  i_size : (size (targets d) <= maxDynamicTargets)%nat;
  i_uids : unique_uids (targets d);
  i_dials : 0 <= dialCount d <= maxDynamicDialsPerSecond;
  i_failures : ∀ a t, targets d !! a = Some t → 0 <= failures t <= 7
}.

(** [d'] follows [d]: the invariant holds and nothing known was lost. *)
Definition follows (d d' : engine) : Prop := inv d' ∧ extends (targets d) (targets d').

Lemma follows_refl d : inv d → follows d d.
Proof. by intros H; split. Qed.

(** A change of one known target that keeps its identity. *)
Lemma follows_put d a t t' : inv d → targets d !! a = Some t → kept t t' → uid t' = uid t →
  0 <= failures t' <= 7 → follows d (put_target a t' d).
Proof.
  intros [S U D F] Ht K E B. split; [|by eapply extends_insert].
  split; cbn; [|by eapply unique_insert|done|].
  - rewrite map_size_insert, Ht. done.
  - intros b u Hu. destruct (decide (a = b)) as [<-|N].
    + rewrite lookup_insert_eq in Hu. by injection Hu as <-.
    + rewrite lookup_insert_ne in Hu by done. by eapply F.
Qed.

Lemma targetLocked_follows addr now d o d' : inv d → targetLocked addr now d = (o, d') →
  follows d d' ∧ (∀ t, o = Some t → targets d' !! addr = Some t) ∧
  (∀ b u, b ≠ addr → targets d' !! b = Some u → targets d !! b = Some u) ∧ attempts d' = attempts d.
Proof.
  intros I. unfold targetLocked. destruct (targets d !! addr) as [t|] eqn:E.
  - intros [= <- <-]. split_and!; [by apply follows_refl|by intros ? [= <-]|done|done].
  - destruct (_ <=? _)%nat eqn:M.
    + intros [= <- <-]. split_and!; [by apply follows_refl|done|done|done].
    + apply Nat.leb_gt in M. intros [= <- <-]. destruct I as [S U D F]. split_and!.
      * split; [|by apply extends_new]. split; cbn; [|by apply unique_insert_nil|done|].
        -- rewrite map_size_insert, E. lia.
        -- intros b u Hu. destruct (decide (addr = b)) as [<-|N].
           ++ rewrite lookup_insert_eq in Hu. injection Hu as <-. cbn. lia.
           ++ rewrite lookup_insert_ne in Hu by done. by eapply F.
      * intros t [= <-]. cbn. by rewrite lookup_insert_eq.
      * intros b u N Hu. cbn in Hu. by rewrite lookup_insert_ne in Hu.
      * done.
Qed.

Lemma bound_elsewhere_false addr id d : bound_elsewhere addr id d = false →
  ∀ b u, targets d !! b = Some u → b ≠ addr → uid u ≠ id.
Proof.
  unfold bound_elsewhere. intros H b u Hu N E.
  assert (T : existsb (λ x, negb (bool_decide (x.1 = addr)) && bool_decide (uid x.2 = id)) (map_to_list (targets d)) = true).
  { apply existsb_exists. exists (b, u). split; [by apply list_elem_of_In, elem_of_map_to_list|].
    cbn. by rewrite bool_decide_false, bool_decide_true. }
  congruence.
Qed.

(** A known or new target gets an identity that no other one has. *)
Lemma follows_identity d addr t t' id now :
  inv d → targets d !! addr = Some t → (uid t = uuid_Nil ∨ uid t = id) →
  (∀ b u, targets d !! b = Some u → b ≠ addr → uid u ≠ id) →
  kept (set_identity id (bound t') now t) t' → uid t' = id → 0 <= failures t' <= 7 →
  follows d (put_target addr t' d).
Proof.
  intros [S U D F] Ht Hid Hb K E B. split.
  - split; cbn; [|apply unique_bind; [done|by rewrite E]|done|].
    + rewrite map_size_insert, Ht. done.
    + intros b u Hu. destruct (decide (addr = b)) as [<-|N].
      * rewrite lookup_insert_eq in Hu. by injection Hu as <-.
      * rewrite lookup_insert_ne in Hu by done. by eapply F.
  - apply (extends_insert _ _ t); [done|]. destruct K. split; try done. cbn in *.
    intros N. rewrite E. destruct Hid; congruence.
Qed.

(** * Every operation follows *)

Section Steps.
Context (r : runner).

Lemma follows_trans d d' d'' : follows d d' → follows d' d'' → follows d d''.
Proof. intros [_ E1] [I E2]. split; [done|by etrans]. Qed.

Lemma bindPolicyPeer_follows addr id now d : inv d → follows d (bindPolicyPeer addr id now d).2.
Proof.
  intros I. unfold bindPolicyPeer. destruct (targetLocked addr now d) as [[t|] d1] eqn:E;
    destruct (targetLocked_follows addr now d _ d1 I E) as (F & L & _); [|done].
  destruct (negb _ && negb _) eqn:C; [done|]. destruct (bound_elsewhere addr id d1) eqn:B; [done|].
  specialize (L t eq_refl). destruct F as [I1 X]. eapply follows_trans; [by split|].
  eapply (follows_identity d1 addr t (set_identity id true now t) id now); try done.
  - apply andb_false_iff in C as [C|C]; bool_to_prop; auto.
  - by apply bound_elsewhere_false.
  - exact (i_failures _ I1 _ _ L).
Qed.

Lemma mergePolicyLocked_kept p t : kept t (mergePolicyLocked p t) ∧ uid (mergePolicyLocked p t) = uid t ∧
  failures (mergePolicyLocked p t) = failures t.
Proof.
  unfold mergePolicyLocked. destruct p as [p|]; [|done]. destruct (Revision p =? 0); [done|].
  destruct (policy t) as [q|] eqn:Q.
  - destruct (Revision p <=? Revision q) eqn:L; [done|]. bool_to_prop. split; [|done].
    split; cbn; [done| |lia..]. intros q' Hq. rewrite Q in Hq. injection Hq as <-. exists p. auto.
  - split; [|done]. split; cbn; [done| |lia..]. by rewrite Q.
Qed.

Lemma receivePolicy_follows source m now d : inv d → follows d (receivePolicy r source m now d).
Proof.
  intros I. unfold receivePolicy. destruct (Msg_UID m) as [u|]; [|by apply follows_refl].
  destruct (_ || _) eqn:G; [by apply follows_refl|]. bool_to_prop.
  destruct (stopped d); [by apply follows_refl|].
  destruct (match targets d !! source with Some t => _ | None => false end) eqn:C; [by apply follows_refl|].
  destruct (bound_elsewhere source (UUID u) d) eqn:B; [by apply follows_refl|].
  destruct (Type_ m); try (by apply follows_refl).
  - destruct (negb (allowsInbound r)); [by apply follows_refl|].
    destruct (targetLocked source now d) as [[t|] d1] eqn:E;
      destruct (targetLocked_follows source now d _ d1 I E) as (F & L & Old & _); [|done].
    specialize (L t eq_refl). destruct F as [I1 X]. eapply follows_trans; [by split|].
    eapply (follows_identity d1 source t _ (UUID u) now); try done.
    + destruct (targets d !! source) as [t0|] eqn:T0.
      * unfold targetLocked in E. rewrite T0 in E. injection E as -> <-.
        apply andb_false_iff in C as [C|C]; bool_to_prop; auto.
      * unfold targetLocked in E. rewrite T0 in E. destruct (_ <=? _)%nat; [done|]. injection E as <- <-. by left.
    + intros b v Hv N. eapply bound_elsewhere_false; [exact B|by apply Old|done].
    + split; cbn; [done|intros p ->; exists p; auto|lia..].
    + exact (i_failures _ I1 _ _ L).
  - destruct (targets d !! source) as [t|] eqn:T; [|by apply follows_refl].
    destruct (_ || _); [by apply follows_refl|].
    destruct (mergePolicyLocked_kept (Msg_Policy m) t) as (K & E1 & E2).
    eapply follows_put; try done. rewrite E2. by eapply i_failures.
Qed.

Lemma due_kept now draw t m t' : 0 <= draw → due r now draw t = Some (m, t') →
  kept t t' ∧ uid t' = uid t ∧ failures t' = failures t.
Proof.
  intros Hd. unfold due, Before. destruct (_ && _ && _ && _) eqn:G.
  - intros [= <- <-]. bool_to_prop. split; [|done].
    split; cbn; [done|intros p ->; exists p; auto|lia|lia|]. unfold dynamicUpdateInterval, Second. lia.
  - destruct (pendingQuery t && _ && _ && _) eqn:Q; [|done]. intros [= <- <-].
    repeat match goal with H : _ && _ = true |- _ => apply andb_true_iff in H as [H ?] end. bool_to_prop.
    split; [|done]. split; cbn; [done|intros p ->; exists p; auto|lia| |lia].
    unfold jitterDelay, dynamicQueryInterval, Second. lia.
Qed.

Lemma flush_loop_ind (P : gmap Addr dynamicTarget → Prop) fuel keys now draw sends cursor ts :
  P ts → (∀ ts a t m t', P ts → ts !! a = Some t → due r now (draw a) t = Some (m, t') → P (<[a := t']> ts)) →
  P (flush_loop r fuel keys now draw sends cursor ts).2.
Proof.
  intros H0 H. revert sends cursor ts H0. induction fuel as [|fuel IH]; intros sends cursor ts H0; cbn [flush_loop]; [done|].
  destruct (_ <=? _)%nat; [done|]. destruct (keys !! _) as [a|]; [|done].
  destruct (ts !! a) as [t|] eqn:E; [|by apply IH].
  destruct (due r now (draw a) t) as [[m t']|] eqn:D; [|by apply IH]. apply IH. by eapply H.
Qed.

Lemma flushPolicy_follows now draw d : inv d → (∀ a, 0 <= draw a) → follows d (flushPolicy r now draw d).2.
Proof.
  intros I Hd. unfold flushPolicy.
  assert (F : follows d (with_targets (flush_loop r (length (sorted_addrs (targets d))) (sorted_addrs (targets d))
    now draw [] (policyCursor d) (targets d)).2 d)).
  { apply (flush_loop_ind (λ ts, follows d (with_targets ts d))); [destruct d; by apply follows_refl|].
    intros ts a t m t' [I1 X] Ht D. apply due_kept in D as (K & E1 & E2); [|done].
    eapply follows_trans; [by split|].
    apply (follows_put (with_targets ts d) a t t' I1 Ht K E1). rewrite E2. by eapply (i_failures _ I1). }
  destruct (flush_loop _ _ _ _ _ _ _ _) as [[sends cursor] ts]. destruct F as [[S U D F] X]. by split; [split|].
Qed.

Lemma retryDelay_nonneg f draw : 0 <= f → 0 <= draw → 0 <= retryDelay f draw.
Proof.
  intros Hf Hd. unfold retryDelay, jitterDelay, dynamicRetryBase, dynamicRetryMax, Second.
  assert (0 <= Z.shiftl 1 (if 0 <? Z.min f 6 then Z.min f 6 - 1 else Z.min f 6)) by (apply Z.shiftl_nonneg; lia). lia.
Qed.

Lemma reserveDial_follows a now draw d : inv d → 0 <= draw → follows d (reserveDial r a now draw d).2.
Proof.
  intros I Hd. unfold reserveDial. destruct (_ || _); [by apply follows_refl|].
  destruct (stopped d || _) eqn:G; [by apply follows_refl|]. apply orb_false_elim in G as [_ G].
  destruct (bool_decide _ && _) eqn:M; [by apply follows_refl|].
  set (d1 := if Second <=? Sub now (dialWindow d) then _ else d).
  assert (F1 : follows d d1).
  { subst d1. destruct (_ <=? _); [|by apply follows_refl]. destruct I as [S U D F].
    split; [split|]; cbn; try done. }
  assert (T1 : targets d1 = targets d) by (subst d1; by destruct (_ <=? _)).
  destruct (_ <=? dialCount d1) eqn:C; [done|]. destruct (_ <=? outbound d1); [done|].
  bool_to_prop. destruct F1 as [[S U D F] X]. cbn [snd].
  assert (N : 0 <= failures (default (newTarget now) (targets d !! a)) <= 7).
  { destruct (targets d !! a) eqn:E; cbn; [|lia]. eapply F. by rewrite T1. }
  rewrite T1 in *. split.
  - split; cbn.
    + rewrite map_size_insert. destruct (targets d !! a) eqn:E; [done|].
      rewrite bool_decide_true in M by done. cbn [andb] in M. apply Nat.leb_gt in M. lia.
    + destruct (targets d !! a) as [t|] eqn:E; [by eapply unique_insert|by apply unique_insert_nil].
    + unfold maxDynamicDialsPerSecond in *. lia.
    + intros b u Hu. destruct (decide (a = b)) as [<-|Ne].
      * rewrite lookup_insert_eq in Hu. injection Hu as <-. cbn. lia.
      * rewrite lookup_insert_ne in Hu by done. by eapply F.
  - cbn. destruct (targets d !! a) as [t|] eqn:E; [|by apply extends_new].
    apply (extends_insert _ _ t); [done|]. cbn. unfold Before in G. bool_to_prop.
    cbn in N. pose proof (retryDelay_nonneg (Z.min (failures t + 1) 7) draw ltac:(lia) Hd).
    split; cbn; [done|intros p ->; exists p; auto|lia|lia|lia].
Qed.

Lemma finishRoutedDial_follows a failed now draw d : inv d → follows d (finishRoutedDial a failed now draw d).
Proof.
  intros I. unfold finishRoutedDial. destruct (targets d !! a) as [t|] eqn:E; [|by apply follows_refl].
  assert (P : ∀ next, nextAttempt t <= next →
    follows d (put_target a (set_attempt (failures t) next (set_dialing false t)) d)).
  { intros next Hn. eapply follows_put; [done|done| |done|cbn; by eapply i_failures].
    split; cbn; [done|intros p ->; exists p; auto|lia..]. }
  assert (Q : follows d (put_target a (set_dialing false t) d)) by (destruct t; by apply (P _ (Z.le_refl _))).
  destruct failed; [|done]. destruct (bool_decide _); [done|].
  unfold Before. destruct (_ <? _) eqn:L; [|done]. bool_to_prop. apply P. cbn in *. lia.
Qed.
End Steps.

(** * The refresh of a scan *)

(** Nothing that is still there was lost. *)
Definition retained (ts ts' : gmap Addr dynamicTarget) : Prop :=
  ∀ a t t', ts !! a = Some t → ts' !! a = Some t' → kept t t'.
Lemma extends_retained ts ts' : extends ts ts' → retained ts ts'.
Proof. intros X a t t' Ht Ht'. destruct (X a t Ht) as (u & Hu & K). congruence. Qed.

(** Every target of [ts'] is one of [ts], with its identity and failures. *)
Definition stems (ts ts' : gmap Addr dynamicTarget) : Prop :=
  ∀ a t', ts' !! a = Some t' → ∃ t, ts !! a = Some t ∧ uid t' = uid t ∧ failures t' = failures t ∧ kept t t'.

Lemma stems_retained ts ts' : stems ts ts' → retained ts ts'.
Proof. intros X a t t' Ht Ht'. destruct (X a t' Ht') as (u & Hu & _ & _ & K). congruence. Qed.
Lemma stems_trans ts us vs : stems ts us → stems us vs → stems ts vs.
Proof.
  intros H1 H2 a v Hv. destruct (H2 a v Hv) as (u & Hu & E1 & F1 & K1).
  destruct (H1 a u Hu) as (t & Ht & E2 & F2 & K2). exists t. split; [done|]. split; [congruence|].
  split; [congruence|by etrans].
Qed.
Lemma stems_fmap ts f : (∀ t, uid (f t) = uid t ∧ failures (f t) = failures t ∧ kept t (f t)) → stems ts (f <$> ts).
Proof.
  intros H a t' Ht. rewrite lookup_fmap in Ht. destruct (ts !! a) as [t|] eqn:E; [|done].
  injection Ht as <-. destruct (H t) as (? & ? & ?). by exists t.
Qed.
Lemma stems_filter ts (P : Addr * dynamicTarget → Prop) `{∀ x, Decision (P x)} : stems ts (filter P ts).
Proof. intros a t' Ht. apply map_lookup_filter_Some in Ht as [Ht _]. by exists t'. Qed.

Lemma kept_volatile t b q s : kept t (set_query b (nextQuery t) (set_reachable q t)) ∧ kept t (set_seen s (set_reachable q t)).
Proof. by split; split; cbn; try lia; try (intros p ->; exists p; auto). Qed.

Lemma mark_seen_stems now ts a : stems ts (mark_seen now ts a).
Proof.
  unfold mark_seen. destruct (ts !! a) as [t|] eqn:E; [|by intros b u Hu; exists u].
  intros b u Hu. destruct (decide (a = b)) as [<-|N].
  - rewrite lookup_insert_eq in Hu. injection Hu as <-. exists t. do 3 (split; [done|]).
    apply (kept_volatile t true true now).
  - rewrite lookup_insert_ne in Hu by done. by exists u.
Qed.

Lemma refresh_stems routes now d : stems (targets d) (targets (refresh routes now d)).
Proof.
  unfold refresh. cbn [targets with_targets]. eapply stems_trans; [|apply stems_filter].
  set (ts := _ <$> targets d).
  assert (S0 : stems (targets d) ts) by (apply stems_fmap; intros t; split; [done|split; [done|apply (kept_volatile t false false 0)]]).
  clearbody ts. revert ts S0. induction routes as [|a routes IH]; intros ts S0; cbn [foldl]; [done|].
  apply IH. eapply stems_trans; [exact S0|apply mark_seen_stems].
Qed.

Lemma inv_stems d d' : inv d → stems (targets d) (targets d') → 0 <= dialCount d' <= maxDynamicDialsPerSecond → inv d'.
Proof.
  intros [S U D F] X B. split; [|..|done|].
  - etrans; [|exact S]. rewrite <-!size_dom. apply subseteq_size. intros a Ha.
    apply elem_of_dom in Ha as [t' Ht']. apply elem_of_dom. destruct (X a t' Ht') as (t & Ht & _). by exists t.
  - intros a b t u Ha Hb E N. destruct (X a t Ha) as (t0 & Ht & E1 & _), (X b u Hb) as (u0 & Hu & E2 & _).
    apply (U a b t0 u0); congruence.
  - intros a t Ht. destruct (X a t Ht) as (t0 & Ht0 & _ & -> & _). by eapply F.
Qed.

(** * Reachable states *)

(** The critical sections of the engine, in any order, with any arguments; what
    other files do to the rest of the state; and a reload, which starts a new
    engine with the targets of the old one. *)
Inductive step (r : runner) : engine → engine → Prop :=
| step_bind d addr id now : step r d (bindPolicyPeer addr id now d).2
| step_receive d source m now : step r d (receivePolicy r source m now d)
| step_refresh d routes now : step r d (refresh routes now d)
| step_query d a t : targets d !! a = Some t → step r d (put_target a (set_query true (nextQuery t) t) d)
| step_dial d a now draw : 0 <= draw → step r d (reserveDial r a now draw d).2
| step_finish d a failed now draw : 0 <= draw → step r d (finishRoutedDial a failed now draw d)
| step_flush d now draw : (∀ a, 0 <= draw a) → step r d (flushPolicy r now draw d).2
| step_other d b o att cl : step r d (mkEngine b (targets d) (policyCursor d) (dialWindow d) (dialCount d) o att cl)
| step_reload d same att : step r d (mkEngine false (start_targets (policySeed same d)) 0 0 0 0 att ∅).
Inductive reachable_engine (r : runner) : engine → Prop :=
| reachable_new : reachable_engine r (mkEngine false ∅ 0 0 0 0 ∅ ∅)
| reachable_step d d' : reachable_engine r d → step r d d' → reachable_engine r d'.

Lemma step_inv r d d' : inv d → step r d d' → inv d' ∧ retained (targets d) (targets d').
Proof.
  assert (Fol : ∀ d d', follows d d' → inv d' ∧ retained (targets d) (targets d'))
    by (intros ? ? [? ?]; split; [done|by apply extends_retained]).
  intros I S. destruct S as [d addr id now|d source m now|d routes now|d a t Ht|d a now draw Hd|d a failed now draw Hd|
    d now draw Hd|d b o att cl|d same att].
  - by apply Fol, bindPolicyPeer_follows.
  - by apply Fol, receivePolicy_follows.
  - pose proof (refresh_stems routes now d) as X. split; [|by apply stems_retained].
    eapply inv_stems; [exact I|exact X|]. by destruct I.
  - apply Fol. eapply follows_put; try done; [|exact (i_failures _ I _ _ Ht)].
    split; cbn; [done|intros p ->; exists p; auto|lia..].
  - by apply Fol, reserveDial_follows.
  - by apply Fol, finishRoutedDial_follows.
  - by apply Fol, flushPolicy_follows.
  - split; [by destruct I; split|]. by apply extends_retained.
  - assert (X : stems (targets d) (start_targets (policySeed same d))).
    { unfold start_targets, policySeed. destruct same; [|by rewrite fmap_empty].
      eapply stems_trans; apply stems_fmap; intros t; split; try done; split; try done;
        (split; cbn; [done|intros p ->; exists p; auto|lia..]). }
    split; [|by apply stems_retained]. eapply inv_stems; [exact I|exact X|]. cbn. unfold maxDynamicDialsPerSecond. lia.
Qed.

(** Whatever packets, sessions, scans, dials and reloads come, a node
    remembers at most 4096 loopbacks, binds no identity to two of them, and counts
    at most four dials per window; and while it remembers a loopback its identity
    never changes, its policy changes only to a higher revision, and neither
    received messages nor anything else shortens a retry or send budget. *)
Theorem policy_state_invariant r d :
  reachable_engine r d →
  (size (targets d) <= maxDynamicTargets)%nat ∧ unique_uids (targets d) ∧ dialCount d <= 4 ∧
  ∀ d', step r d d' → retained (targets d) (targets d').
Proof.
  intros H. assert (I : inv d).
  { induction H as [|d d' _ I S]; [|by eapply step_inv].
    split; cbn; [rewrite map_size_empty; lia|by intros ??????%lookup_empty_Some|unfold maxDynamicDialsPerSecond; lia|
      by intros ???%lookup_empty_Some]. }
  destruct I as [S U D F]. split; [done|]. split; [done|]. split; [by apply D|].
  intros d' St. by eapply step_inv.
Qed.

(** * What a flush sends *)

#[local] Instance Addr_inhabited : Inhabited Addr := populate AddrInvalid.

Section Flush.
Context (r : runner) (now : Time) (draw : Addr → Z).

(** What is due for an address, and its target after the visit. *)
Definition sent (ts : gmap Addr dynamicTarget) (a : Addr) : option (Addr * Message) :=
  t ← ts !! a; x ← due r now (draw a) t; Some (a, x.1).
Definition visited (t : dynamicTarget) (a : Addr) : dynamicTarget :=
  match due r now (draw a) t with Some x => x.2 | None => t end.

(** The flush over the list of addresses it would visit. *)
Fixpoint flush_list (order : list Addr) (sends : list (Addr * Message)) (ts : gmap Addr dynamicTarget) :
    list (Addr * Message) * nat * gmap Addr dynamicTarget :=
  match order with
  | [] => (sends, 0%nat, ts)
  | a :: order =>
    if (maxPolicySendsPerTick <=? length sends)%nat then (sends, 0%nat, ts)
    else
      let '(s, v, ts) := flush_list order (sends ++ option_list (sent ts a))
        (match ts !! a with Some t => <[a := visited t a]> ts | None => ts end) in
      (s, S v, ts)
  end.

(** The next [k] addresses from the cursor on. *)
Definition cyclic (keys : list Addr) (c : Z) (k : nat) : list Addr :=
  map (λ j, keys !!! Z.to_nat ((c + Z.of_nat j) mod len keys)) (seq 0 k).

Lemma cyclic_S keys c k : 0 < len keys →
  cyclic keys c (S k) = keys !!! Z.to_nat (c mod len keys) :: cyclic keys ((c mod len keys + 1) mod len keys) k.
Proof.
  intros N. unfold cyclic. cbn [seq map]. rewrite Z.add_0_r. f_equal. rewrite <-seq_shift, map_map.
  apply map_ext. intros j. do 2 f_equal. rewrite Zplus_mod_idemp_l, <-Z.add_assoc, Zplus_mod_idemp_l. f_equal. lia.
Qed.

Lemma insert_id_visited (ts : gmap Addr dynamicTarget) a t :
  ts !! a = Some t → due r now (draw a) t = None → <[a := visited t a]> ts = ts.
Proof. intros Ht D. unfold visited. rewrite D. by apply insert_id. Qed.

Lemma flush_loop_list fuel keys sends c ts : 0 < len keys →
  flush_loop r fuel keys now draw sends c ts =
  let '(s, v, ts') := flush_list (cyclic keys c fuel) sends ts in
  (s, match v with O => c | _ => (c + Z.of_nat v) mod len keys end, ts').
Proof.
  intros N. revert sends c ts. induction fuel as [|fuel IH]; intros sends c ts; [done|].
  rewrite cyclic_S by done. cbn [flush_loop flush_list]. destruct (_ <=? length sends)%nat; [done|].
  assert (B : 0 <= c mod len keys < len keys) by (by apply Z.mod_pos_bound).
  destruct (lookup_lt_is_Some_2 keys (Z.to_nat (c mod len keys))) as [a Ha]; [unfold len in *; lia|].
  rewrite Ha, (list_lookup_total_correct _ _ _ Ha). unfold sent.
  assert (R : ∀ s ts0, flush_loop r fuel keys now draw s ((c mod len keys + 1) mod len keys) ts0 =
    let '(s', v, ts') := let '(s', v, ts') := flush_list (cyclic keys ((c mod len keys + 1) mod len keys) fuel) s ts0 in (s', S v, ts') in
    (s', match v with O => c | _ => (c + Z.of_nat v) mod len keys end, ts')).
  { intros s ts0. rewrite IH. destruct (flush_list _ s ts0) as [[s' v] ts']. f_equal. f_equal.
    destruct v as [|v].
    - rewrite Zplus_mod_idemp_l. f_equal.
    - rewrite Zplus_mod_idemp_l, <-Z.add_assoc, Zplus_mod_idemp_l. f_equal. lia. }
  destruct (ts !! a) as [t|] eqn:E; cbn [mbind option_bind option_list].
  - destruct (due r now (draw a) t) as [[m t']|] eqn:D; cbn [mbind option_bind option_list fst].
    + unfold visited. rewrite D. apply R.
    + rewrite (insert_id_visited _ _ _ E D), app_nil_r. apply R.
  - rewrite app_nil_r. apply R.
Qed.

Lemma sent_insert ts a b t : a ≠ b → sent (<[a := t]> ts) b = sent ts b.
Proof. intros N. unfold sent. by rewrite lookup_insert_ne. Qed.

Lemma flush_list_spec order sends ts s v ts' :
  NoDup order → flush_list order sends ts = (s, v, ts') →
  (v <= length order)%nat ∧ (v = length order ∨ (maxPolicySendsPerTick <= length s)%nat) ∧
  s = sends ++ omap (sent ts) (take v order) ∧
  ((length sends <= maxPolicySendsPerTick)%nat → (length s <= maxPolicySendsPerTick)%nat) ∧
  (length s <= length sends + v)%nat ∧
  ∀ a, ts' !! a = if decide (a ∈ take v order) then (λ t, visited t a) <$> ts !! a else ts !! a.
Proof.
  revert sends ts v ts'. induction order as [|a order IH]; intros sends ts v ts' N; cbn [flush_list].
  - intros [= <- <- <-]. cbn. rewrite app_nil_r. split_and!; try lia; auto.
  - destruct (_ <=? length sends)%nat eqn:M.
    + intros [= <- <- <-]. apply Nat.leb_le in M. cbn. rewrite app_nil_r.
      split_and!; try lia; auto.
    + apply Nat.leb_gt in M. set (ts1 := match ts !! a with Some t => _ | None => ts end).
      destruct (flush_list order (sends ++ option_list (sent ts a)) ts1) as [[s1 v1] ts2] eqn:E.
      intros [= <- <- <-]. apply NoDup_cons in N as [Na N].
      destruct (IH _ _ _ _ N E) as (H1 & H2 & H3 & H4 & H5 & H6).
      assert (Same : ∀ b, b ≠ a → ts1 !! b = ts !! b).
      { intros b Hb. subst ts1. destruct (ts !! a); [by rewrite lookup_insert_ne|done]. }
      assert (L1 : (length (option_list (sent ts a)) <= 1)%nat) by (destruct (sent ts a); cbn; lia).
      rewrite length_app in *. cbn [take length].
      split; [lia|]. split; [destruct H2; [left; lia|by right]|]. split; [|split; [intros _; apply H4; lia|split; [lia|]]].
      * rewrite H3. rewrite <-app_assoc. f_equal. cbn [omap list_omap].
        assert (O : omap (sent ts1) (take v1 order) = omap (sent ts) (take v1 order)).
        { assert (Nt : a ∉ take v1 order)
            by (intros Hin; apply Na; apply elem_of_take in Hin as (i & Hi & _); by eapply list_elem_of_lookup_2).
          clear - Same Nt. revert Nt. generalize (take v1 order) as l. induction l as [|b l IHl]; intros Nt; [done|].
          cbn. rewrite not_elem_of_cons in Nt. destruct Nt as [Nb Nl]. rewrite IHl by done.
          unfold sent. by rewrite Same by done. }
        rewrite O. by destruct (sent ts a).
      * intros b. rewrite H6. destruct (decide (b = a)) as [->|Hb].
        -- rewrite decide_False by (intros Hin; apply Na; apply elem_of_take in Hin as (i & Hi & _); by eapply list_elem_of_lookup_2).
           rewrite decide_True by by left. subst ts1. destruct (ts !! a) eqn:Ta; [by rewrite lookup_insert_eq|done].
        -- rewrite Same by done. destruct (decide (b ∈ take v1 order)).
           ++ by rewrite decide_True by by right.
           ++ rewrite decide_False; [done|]. by intros [?|?]%elem_of_cons.
Qed.
End Flush.

(** * The order of visits *)

Lemma sorted_addrs_perm ts : sorted_addrs ts ≡ₚ elements (dom ts).
Proof. apply SortStableFunc_perm. Qed.
Lemma sorted_addrs_elem ts a : a ∈ sorted_addrs ts ↔ is_Some (ts !! a).
Proof. by rewrite sorted_addrs_perm, elem_of_elements, elem_of_dom. Qed.
Lemma sorted_addrs_nodup ts : NoDup (sorted_addrs ts).
Proof. rewrite sorted_addrs_perm. apply NoDup_elements. Qed.
Lemma sorted_addrs_length ts : length (sorted_addrs ts) = size ts.
Proof. by rewrite sorted_addrs_perm, <-size_dom. Qed.

Lemma cyclic_lookup keys c k j a : 0 < len keys → (j < k)%nat →
  keys !! Z.to_nat ((c + Z.of_nat j) mod len keys) = Some a → cyclic keys c k !! j = Some a.
Proof.
  intros N L H. unfold cyclic. rewrite list_lookup_fmap, lookup_seq_lt by done. cbn.
  by rewrite (list_lookup_total_correct _ _ _ H).
Qed.
Lemma cyclic_nodup keys c : NoDup keys → NoDup (cyclic keys c (length keys)).
Proof.
  intros N. destruct keys as [|k0 keys0]; [constructor|]. set (keys := k0 :: keys0) in *.
  assert (P : 0 < len keys) by (unfold len; cbn; lia).
  apply NoDup_alt. intros i j a Hi Hj.
  assert (G : ∀ i, cyclic keys c (length keys) !! i = Some a →
    (i < length keys)%nat ∧ keys !! Z.to_nat ((c + Z.of_nat i) mod len keys) = Some a).
  { clear i j Hi Hj. intros i Hi. pose proof (lookup_lt_Some _ _ _ Hi) as L. unfold cyclic in L.
    rewrite length_map, length_seq in L. split; [done|].
    destruct (lookup_lt_is_Some_2 keys (Z.to_nat ((c + Z.of_nat i) mod len keys))) as [b Hb].
    { pose proof (Z.mod_pos_bound (c + Z.of_nat i) (len keys) P). unfold len in *. lia. }
    rewrite (cyclic_lookup keys c _ i b P L Hb) in Hi. by rewrite Hb. }
  destruct (G i Hi) as [Li Ki], (G j Hj) as [Lj Kj].
  pose proof (NoDup_lookup _ _ _ _ N Ki Kj) as E.
  pose proof (Z.mod_pos_bound (c + Z.of_nat i) (len keys) P).
  pose proof (Z.mod_pos_bound (c + Z.of_nat j) (len keys) P).
  assert (E2 : (c + Z.of_nat i) mod len keys = (c + Z.of_nat j) mod len keys) by lia.
  pose proof (Z.div_mod (c + Z.of_nat i) (len keys) ltac:(lia)) as D1.
  pose proof (Z.div_mod (c + Z.of_nat j) (len keys) ltac:(lia)) as D2.
  rewrite E2 in D1. unfold len in *.
  assert (Q : Z.of_nat (length keys) * ((c + Z.of_nat i) / Z.of_nat (length keys) - (c + Z.of_nat j) / Z.of_nat (length keys)) = Z.of_nat i - Z.of_nat j) by lia.
  assert ((c + Z.of_nat i) / Z.of_nat (length keys) - (c + Z.of_nat j) / Z.of_nat (length keys) = 0) by nia. lia.
Qed.

(** A flush, in terms of the addresses it visits. *)
Lemma flushPolicy_visits r now draw d : targets d ≠ ∅ → ∃ v,
  (v <= size (targets d))%nat ∧
  (v = size (targets d) ∨ (maxPolicySendsPerTick <= length (flushPolicy r now draw d).1)%nat) ∧
  let order := take v (cyclic (sorted_addrs (targets d)) (policyCursor d) (size (targets d))) in
  NoDup order ∧ (flushPolicy r now draw d).1 = omap (sent r now draw (targets d)) order ∧
  (length (flushPolicy r now draw d).1 <= maxPolicySendsPerTick)%nat ∧
  (length (flushPolicy r now draw d).1 <= v)%nat ∧
  policyCursor (flushPolicy r now draw d).2 =
    match v with O => policyCursor d | _ => (policyCursor d + Z.of_nat v) mod len (sorted_addrs (targets d)) end ∧
  ∀ a, targets (flushPolicy r now draw d).2 !! a =
    if decide (a ∈ order) then (λ t, visited r now draw t a) <$> targets d !! a else targets d !! a.
Proof.
  intros Ne. assert (P : 0 < len (sorted_addrs (targets d))).
  { unfold len. rewrite sorted_addrs_length. apply map_size_non_empty_iff in Ne. lia. }
  unfold flushPolicy. rewrite flush_loop_list by done. rewrite sorted_addrs_length.
  destruct (flush_list r now draw _ [] _) as [[s v] ts'] eqn:E.
  pose proof (cyclic_nodup (sorted_addrs (targets d)) (policyCursor d) (sorted_addrs_nodup _)) as N.
  rewrite sorted_addrs_length in N.
  destruct (flush_list_spec r now draw _ _ _ _ _ _ N E) as (H1 & H2 & H3 & H4 & H5 & H6).
  assert (Lc : length (cyclic (sorted_addrs (targets d)) (policyCursor d) (size (targets d))) = size (targets d))
    by (unfold cyclic; by rewrite length_map, length_seq).
  rewrite Lc in *. exists v. cbn [fst snd policyCursor targets]. split; [done|]. split; [done|].
  split; [eapply sublist_NoDup; [exact N|apply sublist_take]|]. split; [done|]. cbn in *.
  split; [apply H4; lia|]. split; [lia|]. by split.
Qed.

(** * Budgets and fairness *)

(** The time between two messages of a type to the same address. *)
Definition interval (ty : MsgType) : Z :=
  match ty with PolicyUpdate => dynamicUpdateInterval | _ => dynamicQueryInterval end.

Lemma due_spaced r now draw t m t' : 0 <= draw → due r now draw t = Some (m, t') →
  (Type_ m = PolicyUpdate ∨ Type_ m = PolicyQuery) ∧
  ∀ t2 now2 draw2 m2 t3, kept t' t2 → due r now2 draw2 t2 = Some (m2, t3) → Type_ m2 = Type_ m →
    now + interval (Type_ m) <= now2.
Proof.
  intros Hd. unfold due, Before.
  assert (X : ∀ (b : bool) now t, b && negb (now <? t) = true → t <= now).
  { intros b n u H. apply andb_true_iff in H as [_ H]. bool_to_prop. lia. }
  destruct (pendingUpdate t && _ && _ && _) eqn:G; [|destruct (pendingQuery t && _ && _ && _) eqn:Q; [|done]];
    intros [= <- <-]; (split; [first [by left|by right]|]); intros t2 now2 draw2 m2 t3 [] D Ty; cbn in *.
  - destruct (pendingUpdate t2 && _ && _ && _) eqn:G2; [|destruct (pendingQuery t2 && _ && _ && _) eqn:Q2; [|done]];
      injection D as <- <-; [|done]. apply andb_true_iff in G2 as [G2 _]. apply X in G2. lia.
  - destruct (pendingUpdate t2 && _ && _ && _) eqn:G2; [|destruct (pendingQuery t2 && _ && _ && _) eqn:Q2; [|done]];
      injection D as <- <-; [done|]. do 2 apply andb_true_iff in Q2 as [Q2 _]. apply X in Q2.
    unfold jitterDelay in *. lia.
Qed.

(** A flush sends at most sixteen messages, to different addresses and only
    what is due to each, and changes no other target; and after a policy update
    or query to an address none of that type goes there for five seconds or five
    minutes, whatever happens to the target in between. *)
Theorem flushPolicy_budget r now draw d sends d' :
  (∀ a, 0 <= draw a) → flushPolicy r now draw d = (sends, d') →
  (length sends <= 16)%nat ∧ NoDup (map fst sends) ∧
  (∀ a m, (a, m) ∈ sends → ∃ t t', targets d !! a = Some t ∧ due r now (draw a) t = Some (m, t') ∧
     targets d' !! a = Some t' ∧
     ∀ t2 now2 draw2 m2 t3, kept t' t2 → due r now2 draw2 t2 = Some (m2, t3) → Type_ m2 = Type_ m →
       now + interval (Type_ m) <= now2) ∧
  ∀ a, a ∉ map fst sends → targets d' !! a = targets d !! a.
Proof.
  intros Hd E. destruct (decide (targets d = ∅)) as [Em|Ne].
  { assert (Es : sorted_addrs ∅ = []) by (by vm_compute). unfold flushPolicy in E. rewrite Em, Es in E. cbn in E. injection E as <- <-. cbn. rewrite Em.
    split; [lia|]. split; [constructor|]. split; [by intros a m ?%not_elem_of_nil|done]. }
  destruct (flushPolicy_visits r now draw d Ne) as (v & _ & _ & N & S & L & _ & _ & T).
  rewrite E in S, L, T. cbn [fst snd] in S, L, T. set (order := take v _) in *.
  assert (M : ∀ a m, (a, m) ∈ sends ↔ a ∈ order ∧ sent r now draw (targets d) a = Some (a, m)).
  { intros a m. rewrite S, list_elem_of_omap. split.
    - intros (b & Hb & Hs). unfold sent in Hs. destruct (targets d !! b) as [t|] eqn:Tb; [|done]. cbn in Hs.
      destruct (due _ _ _ t) as [x|] eqn:D; [|done]. cbn in Hs. injection Hs as <- <-.
      split; [done|]. unfold sent. rewrite Tb. cbn. by rewrite D.
    - intros [Hb Hs]. by exists a. }
  split; [done|]. split; [|split].
  - rewrite S. clear -N. induction order as [|a l IH]; [constructor|]. apply NoDup_cons in N as [Na N].
    cbn. destruct (sent r now draw (targets d) a) as [[b m]|] eqn:Se; [|by apply IH]. cbn. apply NoDup_cons. split; [|by apply IH].
    assert (b = a) as -> by (unfold sent in Se; destruct (targets d !! a); [|done]; cbn in Se; destruct (due _ _ _ _); [|done]; by injection Se).
    intros (x & E & Hx)%list_elem_of_fmap. apply list_elem_of_omap in Hx as (c & Hc & Sc).
    unfold sent in Sc. destruct (targets d !! c); [|done]. cbn in Sc. destruct (due _ _ _ _); [|done].
    injection Sc as <-. cbn in E. by subst c.
  - intros a m Ha. apply M in Ha as [Ho Hs]. unfold sent in Hs. destruct (targets d !! a) as [t|] eqn:Ta; [|done].
    cbn in Hs. destruct (due r now (draw a) t) as [[m' t']|] eqn:D; [|done]. cbn in Hs. injection Hs as ->.
    exists t, t'. split; [done|]. split; [done|]. split.
    + rewrite T, decide_True, Ta by done. cbn. unfold visited. by rewrite D.
    + destruct (due_spaced r now (draw a) t m t' (Hd a) D) as [_ X]. exact X.
  - intros a Ha. rewrite T. destruct (decide (a ∈ order)) as [Ho|]; [|done].
    destruct (targets d !! a) as [t|] eqn:Ta; [|done]. cbn. unfold visited.
    destruct (due r now (draw a) t) as [[m t']|] eqn:D; [|done]. exfalso. apply Ha.
    apply list_elem_of_fmap. exists (a, m). split; [done|]. apply M. split; [done|].
    unfold sent. rewrite Ta. cbn. by rewrite D.
Qed.

(** Flushes one after the other, with nothing else in between. *)
Fixpoint flushes (r : runner) (rounds : list (Time * (Addr → Z))) (d : engine) :
    list (list (Addr * Message)) * engine :=
  match rounds with
  | [] => ([], d)
  | (now, draw) :: rounds =>
    let '(sends, d) := flushPolicy r now draw d in
    let '(rest, d) := flushes r rounds d in (sends :: rest, d)
  end.

Lemma due_later r now now2 draw draw2 t : now <= now2 →
  is_Some (due r now draw t) → is_Some (due r now2 draw2 t).
Proof.
  intros L. unfold due, Before.
  assert (B : ∀ u, negb (now <? u) = true → negb (now2 <? u) = true).
  { intros u H. bool_to_prop. apply negb_true_iff, Z.ltb_ge. lia. }
  destruct (pendingUpdate t && _ && _ && _) eqn:G.
  - intros _. apply andb_true_iff in G as [G G4]. apply andb_true_iff in G as [G G3].
    rewrite G, (B _ G3), G4. by eexists.
  - destruct (pendingQuery t && _ && _ && _) eqn:Q; [|by intros [? ?]]. intros _.
    destruct (pendingUpdate t && reachable t && negb (now2 <? _) && _); [by eexists|].
    apply andb_true_iff in Q as [Q Q4]. apply andb_true_iff in Q as [Q Q3]. apply andb_true_iff in Q as [Q Q2].
    rewrite Q, (B _ Q2), Q3, Q4. by eexists.
Qed.

(** The number of visits before the turn of an address. *)
Definition turn (d : engine) (i : nat) : Z :=
  (Z.of_nat i - policyCursor d) mod len (sorted_addrs (targets d)).

Lemma flush_turn r now draw d i a t :
  sorted_addrs (targets d) !! i = Some a → targets d !! a = Some t → is_Some (due r now (draw a) t) →
  a ∈ map fst (flushPolicy r now draw d).1 ∨
  let d' := (flushPolicy r now draw d).2 in
  targets d' !! a = Some t ∧ sorted_addrs (targets d') = sorted_addrs (targets d) ∧ turn d' i <= turn d i - 16.
Proof.
  intros Hi Ta Du. assert (Ne : targets d ≠ ∅) by (intros Em; rewrite Em in Ta; by apply lookup_empty_Some in Ta).
  destruct (flushPolicy_visits r now draw d Ne) as (v & Lv & Full & N & S & L & Lv2 & C & T).
  destruct (flushPolicy r now draw d) as [sends d']. cbn [fst snd] in *.
  set (keys := sorted_addrs (targets d)) in *.
  assert (P : len keys = Z.of_nat (size (targets d))) by (unfold len, keys; by rewrite sorted_addrs_length).
  pose proof (lookup_lt_Some _ _ _ Hi) as Li. unfold keys in Li. rewrite sorted_addrs_length in Li.
  assert (Tn : 0 <= turn d i < len keys) by (apply Z.mod_pos_bound; lia).
  assert (At : cyclic keys (policyCursor d) (size (targets d)) !! Z.to_nat (turn d i) = Some a).
  { apply cyclic_lookup; [lia|lia|]. rewrite Z2Nat.id by lia. unfold turn. fold keys.
    rewrite Zplus_mod_idemp_r. replace (policyCursor d + (Z.of_nat i - policyCursor d)) with (Z.of_nat i) by lia.
    rewrite Z.mod_small by lia. by rewrite Nat2Z.id. }
  destruct (decide (Z.to_nat (turn d i) < v)%nat) as [In|Out].
  - left. rewrite S. apply list_elem_of_fmap. destruct Du as [[m t'] D]. exists (a, m). split; [done|].
    apply list_elem_of_omap. exists a. split.
    + apply (list_elem_of_lookup_2 _ (Z.to_nat (turn d i))). by rewrite lookup_take_lt.
    + unfold sent. rewrite Ta. cbn. by rewrite D.
  - destruct Full as [->|Full]; [lia|]. unfold maxPolicySendsPerTick in *. right.
    assert (NotIn : a ∉ take v (cyclic keys (policyCursor d) (size (targets d)))).
    { intros (j & Hj)%list_elem_of_lookup. apply lookup_take_Some in Hj as [Hj Lj].
      pose proof (cyclic_nodup keys (policyCursor d) (sorted_addrs_nodup _)) as Nd.
      unfold keys in Nd at 2. rewrite sorted_addrs_length in Nd.
      pose proof (NoDup_lookup _ _ _ _ Nd At Hj). lia. }
    assert (Dom : dom (targets d') = dom (targets d)).
    { apply set_eq. intros b. rewrite !elem_of_dom, T. destruct (decide _); [by rewrite fmap_is_Some|done]. }
    split; [by rewrite T, decide_False|]. unfold sorted_addrs at 1. rewrite Dom. fold (sorted_addrs (targets d)).
    split; [done|]. unfold turn at 1. unfold sorted_addrs at 1. rewrite Dom. fold (sorted_addrs (targets d)). fold keys.
    rewrite C. fold keys. destruct v as [|v]; [lia|].
    assert (E : (Z.of_nat i - (policyCursor d + Z.of_nat (Datatypes.S v)) mod len keys) mod len keys = turn d i - Z.of_nat (Datatypes.S v)).
    { rewrite Zminus_mod_idemp_r. unfold turn. fold keys.
      transitivity (((Z.of_nat i - policyCursor d) mod len keys - Z.of_nat (Datatypes.S v)) mod len keys).
      - rewrite Zminus_mod_idemp_l. f_equal. lia.
      - apply Z.mod_small. unfold turn in Out, Tn. fold keys in Out, Tn. lia. }
    rewrite E. lia.
Qed.

Lemma flushes_turn r rounds d i a t : 
  sorted_addrs (targets d) !! i = Some a → targets d !! a = Some t →
  Forall (λ x, is_Some (due r x.1 (x.2 a) t)) rounds → turn d i < 16 * len rounds →
  ∃ sends, sends ∈ (flushes r rounds d).1 ∧ a ∈ map fst sends.
Proof.
  revert d. induction rounds as [|[now draw] rounds IH]; intros d Hi Ta F B.
  - assert (N : 0 < len (sorted_addrs (targets d))) by (pose proof (lookup_lt_Some _ _ _ Hi); unfold len; lia).
    pose proof (Z.mod_pos_bound (Z.of_nat i - policyCursor d) _ N) as P. unfold turn, len in *. cbn in B. lia.
  - apply Forall_cons in F as [F1 F2]. cbn [flushes].
    destruct (flush_turn r now draw d i a t Hi Ta F1) as [In|(Ta' & Ks & Tn)].
    + destruct (flushPolicy r now draw d) as [s d']. destruct (flushes r rounds d') as [rest d''].
      exists s. split; [by left|done].
    + destruct (flushPolicy r now draw d) as [s d']. cbn [fst snd] in *.
      destruct (IH d') as (s' & Hs & Ha); [by rewrite Ks|done|done|unfold len in *; cbn [length] in B; lia|].
      destruct (flushes r rounds d') as [rest d'']. exists s'. split; [by right|done].
Qed.

(** No peer starves: a message that is due to one of [n] known addresses is
    sent within [n/16] flushes, rounded up, whatever is due to the others. *)
Theorem flushPolicy_fair r rounds d a t now draw :
  targets d !! a = Some t → is_Some (due r now draw t) → Forall (λ x, now <= x.1) rounds →
  (size (targets d) <= 16 * length rounds)%nat →
  ∃ sends, sends ∈ (flushes r rounds d).1 ∧ a ∈ map fst sends.
Proof.
  intros Ta D F B. assert (In : a ∈ sorted_addrs (targets d)) by (apply sorted_addrs_elem; by exists t).
  apply list_elem_of_lookup in In as [i Hi]. apply (flushes_turn r rounds d i a t Hi Ta).
  - eapply Forall_impl; [exact F|]. intros [now2 draw2] L. by eapply due_later.
  - pose proof (lookup_lt_Some _ _ _ Hi) as Li. rewrite sorted_addrs_length in Li.
    assert (N : 0 < len (sorted_addrs (targets d))) by (unfold len; rewrite sorted_addrs_length; lia).
    pose proof (Z.mod_pos_bound (Z.of_nat i - policyCursor d) _ N) as P.
    fold (turn d i) in P. unfold len in P |- *. rewrite sorted_addrs_length in P.
    apply Nat2Z.inj_le in B. rewrite Nat2Z.inj_mul in B. eapply Z.lt_le_trans; [apply P|exact B].
Qed.

(** * Witnesses *)

Definition example_runner : runner := mkRunner (replicate 16 x01) (Addr6 1 "") true true 7 (λ _, false).
Definition example_engine : engine :=
  mkEngine false {[Addr6 2 "" := set_update true 0 (set_reachable true (set_identity (replicate 16 x02) true 0 (newTarget 0)))]}
    0 0 0 0 ∅ ∅.
Definition example_draw (_ : Addr) : Z := 0.

Lemma policy_state_invariant_witness :
  reachable_engine example_runner (mkEngine false ∅ 0 0 0 0 ∅ ∅) ∧
  unique_uids (targets (mkEngine false ∅ 0 0 0 0 ∅ ∅)).
Proof.
  split; [apply reachable_new|].
  exact (proj1 (proj2 (policy_state_invariant example_runner _ (reachable_new example_runner)))).
Defined.

Lemma flushPolicy_budget_witness :
  map fst (flushPolicy example_runner 9 example_draw example_engine).1 = [Addr6 2 ""] ∧
  (length (flushPolicy example_runner 9%Z example_draw example_engine).1 <= 16)%nat.
Proof.
  split; [by vm_compute|].
  exact (proj1 (flushPolicy_budget example_runner 9 example_draw example_engine _ _
    (λ _, Z.le_refl 0) (surjective_pairing _))).
Defined.

Lemma flushPolicy_fair_witness :
  ∃ sends, sends ∈ (flushes example_runner [(9, example_draw)] example_engine).1 ∧ Addr6 2 "" ∈ map fst sends.
Proof.
  apply (flushPolicy_fair example_runner [(9, example_draw)] example_engine (Addr6 2 "")
    (set_update true 0 (set_reachable true (set_identity (replicate 16 x02) true 0 (newTarget 0)))) 9 0).
  - by vm_compute.
  - vm_compute. by eexists.
  - constructor; [by cbn|constructor].
  - vm_compute. lia.
Defined.
