(* ===== verification/Durable.v ===== *)
(** runtime/durable.go and the decisions of runtime/durable_recovery.go: the
    agreements a node keeps about the fixed endpoints of its automatic Links,
    how two nodes reach one over a Link session, and when one is given up.

    A call runs under the manager's mutex on a [node]: the manager, its file
    and the messages it sends.  [env] is what the call reads from outside: the
    clock and the Link states at successive points of the call, whether the
    session is still alive there, a random identifier, which sends fail, and the
    directories of the store. *)

From S2P Require Import Prelude Netip Ports Desired AtomicFile PolicyRevision Recovery Field MessageData.
From stdpp Require Import gmap strings.
Open Scope Z_scope.
Open Scope velvet_scope.

Definition linkFailureTimeout : Z := 30 * 1000000000.
Definition durableReadyFreshness : Z := 30 * 1000000000.
Definition durableFailureTimeout : Z := 30 * 60 * 1000000000.
Definition durableCheckInterval : Z := 10 * 1000000000.
Definition maxDynamicLinks : Z := 128.

(** * Data *)

Record durableRecord := mkRecord {
  ID : list byte; rec_Peer : UID; LastLoopback : Addr; PublicKey : list byte; LocalPort : Z;
  rec_FixedEndpoints : list FixedEndpoint; Confirmed : bool }.
#[global] Instance durableRecord_eq_dec : EqDecision durableRecord.
Proof. solve_decision. Defined.

Record durableObservation := mkObservation {
  obs_local : AddrPort; obs_remote : AddrPort; control : Addr; obs_port : Z;
  obs_since : Time; seen : Time }.
Definition observation_zero : durableObservation :=
  mkObservation AddrPort_zero AddrPort_zero AddrInvalid 0 0 0.

(** A session of the protocol engine, by its identity. *)
Record session := mkSession { session_id : nat; RemoteUID : UID; RemoteLoopbackV6 : Addr }.

(** The session of an operation is nil until its handshake completes. *)
Record durableOperation := mkOperation {
  op_record : durableRecord; op_session : option nat; outgoing : bool; saved : bool;
  peerSaved : bool; until : Time }.

#[global] Instance durableOperation_eq_dec : EqDecision durableOperation.
Proof. solve_decision. Defined.

Record durableCheckState := mkCheck {
  query : list byte; chk_agreement : list byte; next_ : Time; readyUntil : Time;
  failedSince : Time; restoreAfter : Time; chk_busy : bool }.

Record durableManager := mkManager {
  cooldown : gmap (list byte) Time; closed_ : bool; records : gmap (list byte) durableRecord;
  observations : gmap string durableObservation; operations : gmap (list byte) durableOperation;
  checks : gmap (list byte) durableCheckState }.

(** The state of a materialized Link (runtime.go). *)
Record materializedState := mkMaterialized {
  ms_desired : LinkPlan; ms_local : list Prefix; ms_peers : list Addr; remote : list byte;
  dynamic : bool; active : bool; committed : bool; lastPong : Time }.

Record node_config := mkNodeConfig {
  local : UID; settings : DurableSettings; allowsInbound : bool; engine_active : bool;
  policyRevision : Z; candidateAllowed : AddrPort → bool; configured : PortChoice }.

Notation Records := (gmap (list byte) durableRecord).
(** [saves] is a ghost: the contents that saves brought to stable storage. *)
Record node := mkNode {
  mgr : durableManager; disk : fs Records; out : list (nat * Message); saves : list Records }.

Record env := mkEnv {
  clock : nat → Time; states : nat → gmap string materializedState; alive : nat → bool;
  random : option (list byte); send_fails : Message → bool; dirs : list bool }.

(** Field updates. *)
Definition set_records v d := mkManager (cooldown d) (closed_ d) v (observations d) (operations d) (checks d).
Definition set_cooldown v d := mkManager v (closed_ d) (records d) (observations d) (operations d) (checks d).
Definition set_observations v d := mkManager (cooldown d) (closed_ d) (records d) v (operations d) (checks d).
Definition set_operations v d := mkManager (cooldown d) (closed_ d) (records d) (observations d) v (checks d).
Definition set_checks v d := mkManager (cooldown d) (closed_ d) (records d) (observations d) (operations d) v.
Definition set_confirmed b r := mkRecord (ID r) (rec_Peer r) (LastLoopback r) (PublicKey r) (LocalPort r) (rec_FixedEndpoints r) b.
Definition set_metadata p l r := mkRecord (ID r) p l (PublicKey r) (LocalPort r) (rec_FixedEndpoints r) (Confirmed r).
Definition set_port p r := mkRecord (ID r) (rec_Peer r) (LastLoopback r) (PublicKey r) p (rec_FixedEndpoints r) (Confirmed r).
Definition mark_op sv ps u o := mkOperation (op_record o) (op_session o) (outgoing o) sv ps u.

(** * Calls *)

(** A call ends with a value, an error, or the death of the process. *)
Definition D (A : Type) : Type := node → result A * node.
#[global] Instance D_ret : MRet D := λ A a n, (Ok a, n).
#[global] Instance D_bind : MBind D := λ A B k m n,
  match m n with
  | (Ok a, n) => k a n
  | (Err e, n) => (Err e, n)
  | (Panic, n) => (Panic, n)
  end.
Definition throw {A} (text : string) : D A := λ n, (Err (errors_New text), n).
Definition get : D durableManager := λ n, (Ok (mgr n), n).
Definition modify (f : durableManager → durableManager) : D unit := λ n, (Ok tt, mkNode (f (mgr n)) (disk n) (out n) (saves n)).

Definition errDurableComplete : string := "durable operation complete".

Definition fixedFor (record : durableRecord) (id : list byte) : AddrPort :=
  match list_find (λ ep, UUID (Fixed_UID ep) = id) (rec_FixedEndpoints record) with
  | Some (_, ep) => Fixed_Endpoint ep
  | None => AddrPort_zero
  end.

(** [slices.EqualFunc] on the identities and the endpoints. *)
Fixpoint sameFixed (a b : list FixedEndpoint) : bool :=
  match a, b with
  | [], [] => true
  | x :: a, y :: b =>
    bool_decide (UUID (Fixed_UID x) = UUID (Fixed_UID y)) &&
    bool_decide (Fixed_Endpoint x = Fixed_Endpoint y) && sameFixed a b
  | _, _ => false
  end.
Definition fixed_cmp (a b : FixedEndpoint) : Z :=
  match bytes_Compare (UUID (Fixed_UID a)) (UUID (Fixed_UID b)) with Lt => -1 | Eq => 0 | Gt => 1 end.
Definition sort_fixed (l : list FixedEndpoint) : list FixedEndpoint := SortStableFunc fixed_cmp l.

Definition countLocked (d : durableManager) : Z := Z.of_nat (size (records d)).
Definition confirmedCountLocked (d : durableManager) : Z :=
  Z.of_nat (length (filter (λ x, Confirmed x.2 = true) (map_to_list (records d)))).
Definition has (d : durableManager) (peer : list byte) : bool := bool_decide (is_Some (records d !! peer)).
Definition reservationsLocked (now : Time) (d : durableManager) : Z :=
  Z.of_nat (length (filter (λ x, records d !! x.1 = None ∧ now <? until x.2 = true) (map_to_list (operations d)))).

Section Node.
Context (cfg : node_config) (e : env).

(** The store: its directory, then the replacement of the file. *)
Definition saveDurable (next : Records) : D unit := λ n,
  match (makePolicyDirectory (dirs e);; replace next) (disk n) with
  | (Done _, s) => (Ok tt, mkNode (mgr n) s (out n) (saves n ++ [next]))
  | (Failed err, s) => (Err err, mkNode (mgr n) s (out n) (saves n))
  | (Crashed, s) => (Panic, mkNode (mgr n) s (out n) (saves n))
  end.

Definition saveLocked (record : durableRecord) : D unit :=
  d ← get;
  let peer := UUID (rec_Peer record) in
  let next := <[peer := record]> (records d) in
  saveDurable next;;
  modify (λ d, set_records next
    (match records d !! peer with
     | Some previous => if bool_decide (ID previous = ID record) then d else set_checks (delete peer (checks d)) d
     | None => d
     end)).

(** [states (0)] and [clock (0)] are read after the save. *)
Definition deleteLocked (peer : list byte) : D unit :=
  d ← get;
  if negb (has d peer) then mret tt
  else
    let next := delete peer (records d) in
    saveDurable next;;
    modify (λ d, set_observations
      (filter (λ x, match states e 0 !! x.1 with Some st => negb (bool_decide (remote st = peer)) | None => true end = true)
        (observations d))
      (set_checks (delete peer (checks d)) (set_operations (delete peer (operations d))
        (set_cooldown (<[peer := clock e 0 + Ports.Stable (settings cfg)]> (cooldown d)) (set_records next d))))).

Definition refreshPeerMetadata (peer : UID) (publicKey : list byte) (loopback : Addr) : D unit :=
  d ← get;
  match records d !! UUID peer with
  | None => mret tt
  | Some record =>
    if negb (bool_decide (PublicKey record = publicKey)) then deleteLocked (UUID peer)
    else if bool_decide (rec_Peer record = peer) && bool_decide (LastLoopback record = loopback) then mret tt
    else saveLocked (set_metadata peer loopback record)
  end.

(** [s.Send]: the message, on the session. *)
Definition Send (s : session) (m : Message) : D unit := λ n,
  if send_fails e m then (Err (errors_New "send"), n)
  else (Ok tt, mkNode (mgr n) (disk n) (out n ++ [(session_id s, m)]) (saves n)).

(** * Observations *)

Definition current_link (k : nat) (plan : LinkPlan) : option materializedState :=
  match states e k !! InterfaceName plan with
  | Some st => if active st && dynamic st && bool_decide (OwnerAlias (ms_desired st) = OwnerAlias plan)
               then Some st else None
  | None => None
  end.

(** [listenPort] and [observed] are what the backend answers; points 1 and 2 of
    the environment are before and after the reads. *)
Definition observe (plan : LinkPlan) (localEp : AddrPort) (ctl : Addr) (at_ : Time)
    (listenPort : result Z) (observed : result (option AddrPort)) : D unit :=
  if linkFailureTimeout <=? Sub (clock e 1) at_ then mret tt
  else match current_link 1 plan with
  | None => mret tt
  | Some _ =>
    port ← (λ n, (listenPort, n));
    rem ← (λ n, (observed, n));
    match rem with
    | None => mret tt
    | Some rem =>
      if linkFailureTimeout <=? Sub (clock e 2) at_ then mret tt
      else match current_link 2 plan with
      | None => mret tt
      | Some state =>
        d ← get;
        let previous := default observation_zero (observations d !! InterfaceName plan) in
        if at_ <? seen previous then mret tt
        else
          let since := if negb (bool_decide (obs_local previous = localEp)) || negb (obs_port previous =? port) ||
                          (linkFailureTimeout <=? Sub at_ (seen previous)) then at_ else obs_since previous in
          modify (λ d, set_observations
            (<[InterfaceName plan := mkObservation localEp rem ctl port since at_]> (observations d)) d);;
          match records d !! remote state with
          | None => mret tt
          | Some record =>
            let own := fixedFor record (UUID (local cfg)) in
            let peer := fixedFor record (remote state) in
            if (AddrPort_IsValid own && (negb (bool_decide (own = localEp)) || negb (Port own =? port))) ||
               (AddrPort_IsValid peer && negb (bool_decide (peer = rem)))
            then deleteLocked (remote state) else mret tt
          end
      end
    end
  end.

Definition eligibleLocked (plan : LinkPlan) (now : Time) (d : durableManager) : option FixedEndpoint :=
  match observations d !! InterfaceName plan with
  | None => None
  | Some v =>
    if (linkFailureTimeout <=? Sub now (seen v)) || (Sub now (obs_since v) <? Ports.Stable (settings cfg)) ||
       negb (Port (obs_local v) =? obs_port v) then None
    else Some (mkFixedEndpoint (local cfg) (obs_local v))
  end.

(** The Link is still the session's, at point [k] of the call. *)
Definition healthy (k : nat) (plan : LinkPlan) (peer : list byte) : bool :=
  alive e k &&
  match current_link k plan with Some st => bool_decide (remote st = peer) | None => false end.
(** * The exchange on a Link session *)

Definition Message_of (ty : MsgType) (id : list byte) (fixed : list FixedEndpoint) : Message :=
  set_FixedEndpoints fixed (set_OperationID id (newMessage ty)).

Definition decline {A} (s : session) (m : Message) : D A :=
  let v := Message_of DurableDecline (OperationID m) [] in
  Send s (if allowsInbound cfg then v
          else set_Decline DeclinePolicy (Some (mkPolicy (policyRevision cfg) false)) v);;
  throw errDurableComplete.

(** An operation that is still open. *)
Definition open_op (k : nat) (o : durableOperation) : bool := clock e k <? until o.

(** The loop over the proposed endpoints: all of them are ours as we observe
    it, or the peer's as we observe it; a new one of ours must be stable. *)
Definition fixed_acceptable (plan : LinkPlan) (peer : list byte) (d : durableManager)
    (observation : durableObservation) (ep : FixedEndpoint) : bool :=
  let stored := records d !! peer in
  let ours := UUID (local cfg) in
  if bool_decide (UUID (Fixed_UID ep) = ours) then
    (match stored with
     | Some r => bool_decide (fixedFor r ours = Fixed_Endpoint ep) || bool_decide (is_Some (eligibleLocked plan (clock e 6) d))
     | None => bool_decide (is_Some (eligibleLocked plan (clock e 6) d))
     end) &&
    bool_decide (Fixed_Endpoint ep = obs_local observation) && (Port (Fixed_Endpoint ep) =? obs_port observation)
  else if bool_decide (UUID (Fixed_UID ep) = peer) then bool_decide (Fixed_Endpoint ep = obs_remote observation)
  else false.

(** The conditions under which a proposal is declined before its record is
    built; [resume] says that the stored agreement has its identifier. *)
Definition resumes (d : durableManager) (peer : list byte) (m : Message) : bool :=
  match records d !! peer with Some r => bool_decide (ID r = OperationID m) | None => false end.
Definition declined (plan : LinkPlan) (s : session) (m : Message) (d : durableManager) : bool :=
  let peer := UUID (RemoteUID s) in
  let current := operations d !! peer in
  let exists_ := has d peer in
  if closed_ d || (clock e 1 <? default 0 (cooldown d !! peer)) || negb (allowsInbound cfg) then true
  else if match current with
          | Some o => negb (bool_decide (op_session o = Some (session_id s))) && open_op 2 o &&
                      negb (bool_decide (ID (op_record o) = OperationID m)) &&
                      (negb (outgoing o) || match bytes_Compare (UUID (local cfg)) peer with Lt => true | _ => false end)
          | None => false end then true
  else
    let reserved := reservationsLocked (clock e 3) d in
    let reserved := match current with
      | Some o => if open_op 4 o && negb exists_ then reserved - 1 else reserved
      | None => reserved end in
    if negb exists_ && ((maxDynamicLinks <=? countLocked d) ||
       ((Ports.SoftLimit (settings cfg) <=? countLocked d + reserved) && (Z.land (Msg_Flags m) NoDurable =? 0))) then true
    else
      let observation := default observation_zero (observations d !! InterfaceName plan) in
      if linkFailureTimeout <=? Sub (clock e 5) (seen observation) then true
      else if negb (forallb (fixed_acceptable plan peer d observation) (FixedEndpoints m)) then true
      else resumes d peer m &&
        negb (match records d !! peer with Some r => sameFixed (rec_FixedEndpoints r) (FixedEndpoints m) | None => false end).

Definition put_operation (peer : list byte) (o : durableOperation) : D unit :=
  modify (λ d, set_operations (<[peer := o]> (operations d)) d).

(** The acceptance: save, and say so while the Link is still there. *)
Definition acceptPropose (plan : LinkPlan) (s : session) (peer : list byte) (d : durableManager)
    (resume : bool) (record : durableRecord) : D unit :=
  let record := match records d !! peer with
    | Some stored => if resume then set_confirmed (Confirmed stored) record else record
    | None => record end in
  saveLocked record;;
  put_operation peer (mkOperation record (Some (session_id s)) false true false (clock e 9 + 30 * 1000000000));;
  if negb (healthy 4 plan peer) then throw "Link changed during durable save"
  else Send s (Message_of DurableSaved (ID record) []).

Definition handlePropose (plan : LinkPlan) (s : session) (m : Message) : D unit :=
  d ← get;
  let peer := UUID (RemoteUID s) in
  if declined plan s m d then decline s m
  else
    let observation := default observation_zero (observations d !! InterfaceName plan) in
    let resume := resumes d peer m in
    let record := mkRecord (OperationID m) (RemoteUID s) (RemoteLoopbackV6 s) (PeerPublicKey plan)
      (obs_port observation) (FixedEndpoints m) false in
    match eligibleLocked plan (clock e 7) d with
    | Some own =>
      if negb resume && negb (AddrPort_IsValid (fixedFor record (UUID (local cfg)))) then
        match random e with
        | None => throw "random"
        | Some id =>
          let fixed := sort_fixed (FixedEndpoints m ++ [own]) in
          let record := mkRecord id (RemoteUID s) (RemoteLoopbackV6 s) (PeerPublicKey plan) (obs_port observation) fixed false in
          put_operation peer (mkOperation record (Some (session_id s)) false false false (clock e 8 + 30 * 1000000000));;
          Send s (Message_of DurablePropose id fixed)
        end
      else acceptPropose plan s peer d resume record
    | None => acceptPropose plan s peer d resume record
    end.

Definition handleSaved (plan : LinkPlan) (s : session) (m : Message) : D unit :=
  d ← get;
  let peer := UUID (RemoteUID s) in
  match operations d !! peer with
  | None => throw "stale durable confirmation"
  | Some o =>
    if closed_ d || negb (open_op 10 o) || negb (bool_decide (ID (op_record o) = OperationID m)) ||
       negb (bool_decide (op_session o = Some (session_id s))) then throw "stale durable confirmation"
    else
      (if saved o then mret tt
       else
         saveLocked (op_record o);;
         put_operation peer (mark_op true (peerSaved o) (until o) o);;
         if negb (healthy 4 plan peer) then throw "Link changed during durable save"
         else Send s (Message_of DurableSaved (ID (op_record o)) []));;
      if negb (healthy 5 plan peer) then throw "Link changed during durable confirmation"
      else
        put_operation peer (mark_op true true (until o) o);;
        saveLocked (set_confirmed true (op_record o));;
        modify (λ d, set_operations (delete peer (operations d)) d);;
        throw errDurableComplete
  end.

Definition handleDecline (s : session) (m : Message) : D unit :=
  let peer := UUID (RemoteUID s) in
  modify (λ d, match operations d !! peer with
    | Some o =>
      if bool_decide (op_session o = Some (session_id s)) && bool_decide (ID (op_record o) = OperationID m)
      then set_operations (<[peer := mark_op (saved o) (peerSaved o) (clock e 11 + 60 * 1000000000) o]> (operations d)) d
      else d
    | None => d end);;
  throw errDurableComplete.

Definition handleLink (plan : LinkPlan) (s : session) (m : Message) : D unit :=
  match current_link 3 plan with
  | Some state =>
    if negb (bool_decide (remote state = UUID (RemoteUID s)))
    then throw "durable negotiation requires current healthy automatic Link"
    else match Type_ m with
      | DurablePropose => handlePropose plan s m
      | DurableSaved => handleSaved plan s m
      | DurableDecline => handleDecline s m
      | _ => throw "unexpected durable Link message"
      end
  | None => throw "durable negotiation requires current healthy automatic Link"
  end.

(** * The node's own proposals *)

(** What the tick does for one Link: nothing, or an operation with the first
    message of its session.  The record of a new agreement has a random
    identifier and the local endpoint, once that was stable. *)
Definition tick_record (state : materializedState) (now : Time) (d : durableManager) : option durableRecord :=
  let peer := remote state in
  let name := InterfaceName (ms_desired state) in
  let observation := default observation_zero (observations d !! name) in
  if negb (dynamic state) || negb (active state) then None
  else if match operations d !! peer with Some o => now <? until o | None => false end then None
  else if match records d !! peer with Some r => Confirmed r | None => false end then None
  else if negb (Addr_IsValid (control observation)) || (linkFailureTimeout <=? Sub now (seen observation)) then None
  else match records d !! peer with
  | Some r => Some r
  | None =>
    if negb (engine_active cfg) then None
    else match eligibleLocked (ms_desired state) now d with
    | None => None
    | Some fixed =>
      if Ports.SoftLimit (settings cfg) <=? countLocked d + reservationsLocked (clock e 3) d then None
      else match random e with
      | None => None
      | Some id =>
        Some (mkRecord id (mkUID peer "") (match ms_peers state with a :: _ => a | [] => AddrInvalid end)
          (PeerPublicKey (ms_desired state)) (obs_port observation) [fixed] false)
      end
    end
  end.
Definition tick_link (state : materializedState) (now : Time) : D (option (durableRecord * Message)) :=
  d ← get;
  match tick_record state now d with
  | None => mret None
  | Some record =>
    put_operation (remote state) (mkOperation record None true false false (now + 30 * 1000000000));;
    let flags := if confirmedCountLocked d =? 0 then NoDurable else 0 in
    mret (Some (record, set_Flags flags (Message_of DurablePropose (ID record) (rec_FixedEndpoints record))))
  end.

(** The session's [Operational] callback: it fails if the operation (its
    identity is the record and the deadline) was superseded. *)
Definition tick_operational (state : materializedState) (o : durableOperation) (s : session) : D unit :=
  d ← get;
  if negb (bool_decide (operations d !! remote state = Some o)) || negb (bool_decide (UUID (RemoteUID s) = remote state))
  then throw "superseded durable operation"
  else put_operation (remote state)
    (mkOperation (set_metadata (RemoteUID s) (RemoteLoopbackV6 s) (op_record o)) (Some (session_id s))
       (outgoing o) (saved o) (peerSaved o) (until o)).

(** * Checks of an agreement over the routed path *)

(** [failed]: both peers ready without a direct Link for too long. *)
Definition check_failed (now : Time) (localReady connected : bool) (c : durableCheckState) : bool * durableCheckState :=
  if connected || negb localReady || negb (now <? readyUntil c) then
    (false, mkCheck (query c) (chk_agreement c) (next_ c) (readyUntil c) 0 (restoreAfter c) (chk_busy c))
  else
    let since := if IsZero (failedSince c) then now else failedSince c in
    (durableFailureTimeout <=? Sub now since,
     mkCheck (query c) (chk_agreement c) (next_ c) (readyUntil c) since (restoreAfter c) (chk_busy c)).

Definition put_check (peer : list byte) (c : durableCheckState) : D unit :=
  modify (λ d, set_checks (<[peer := c]> (checks d)) d).

(** One record of [restoreAndCheck]: its check state, and whether it is time to
    inspect the Link's resources. *)
Definition check_begin (record : durableRecord) (now : Time) : D bool :=
  d ← get;
  let peer := UUID (rec_Peer record) in
  let c := default (mkCheck (zeros 16) (ID record) 0 0 0 0 false) (checks d !! peer) in
  let inspect := negb (now <? restoreAfter c) in
  put_check peer (if inspect then mkCheck (query c) (chk_agreement c) (next_ c) (readyUntil c) (failedSince c)
    (now + 10 * 1000000000) (chk_busy c) else c);;
  mret inspect.

(** The same record, after a possible restore: give it up, or
    ask the peer; the query to send, if any.  [fresh_query] is random. *)
Definition check_record (record : durableRecord) (now : Time) (localReady connected : bool)
    (fresh_query : option (list byte)) : D (option (list byte)) :=
  d ← get;
  let peer := UUID (rec_Peer record) in
  match records d !! peer, checks d !! peer with
  | Some current, Some c =>
    if negb (bool_decide (ID current = ID record)) then mret None
    else
      let '(failed, c) := check_failed now localReady connected c in
      put_check peer c;;
      if failed then deleteLocked peer;; mret None
      else if connected || chk_busy c || (now <? next_ c) then mret None
      else match fresh_query with
      | None => mret None
      | Some q =>
        put_check peer (mkCheck q (chk_agreement c) (now + durableCheckInterval) (readyUntil c) (failedSince c)
          (restoreAfter c) true);;
        mret (Some q)
      end
  | _, _ => mret None
  end.

(** [connected] is [hasDirectLink] of the peer. *)
Definition acceptStatus (record : durableRecord) (q : list byte) (m : Message) (now : Time)
    (cancelled connected : bool) : D unit :=
  if negb (is_type (Type_ m) DurableStatus) || negb (bool_decide (OperationID m = q)) ||
     negb (bool_decide (AgreementID m = ID record)) then mret tt
  else
    d ← get;
    let peer := UUID (rec_Peer record) in
    match records d !! peer, checks d !! peer with
    | Some current, Some c =>
      if negb (bool_decide (ID current = ID record)) || negb (bool_decide (query c = q)) || cancelled
      then throw errDurableComplete
      else
        (if Msg_Status m =? Ready then
           put_check peer (mkCheck (query c) (chk_agreement c) (next_ c) (now + durableReadyFreshness) (failedSince c)
             (restoreAfter c) (chk_busy c))
         else if Msg_Status m =? NotReady then
           put_check peer (mkCheck (query c) (chk_agreement c) (next_ c) 0 0 (restoreAfter c) (chk_busy c))
         else if Msg_Status m =? Absent then
           (if Confirmed current || negb connected then deleteLocked peer else mret tt)
         else mret tt);;
        throw errDurableComplete
    | _, _ => throw errDurableComplete
    end.

(** The answer to a check; [ready] is [localReady]. *)
Definition handleCheck (s : session) (m : Message) (ready : bool) : D unit :=
  d ← get;
  let reply st := set_AgreementID (AgreementID m) (set_Status st (Message_of DurableStatus (OperationID m) [])) in
  match records d !! UUID (RemoteUID s) with
  | Some record =>
    if bool_decide (ID record = AgreementID m) then
      (if negb (bool_decide (rec_Peer record = RemoteUID s)) || negb (bool_decide (LastLoopback record = RemoteLoopbackV6 s))
       then saveLocked (set_metadata (RemoteUID s) (RemoteLoopbackV6 s) record) else mret tt);;
      Send s (reply (if ready then Ready else NotReady))
    else Send s (reply Absent)
  | None => Send s (reply Absent)
  end.

Definition confirmRestore (record : durableRecord) (port : Z) : D unit :=
  d ← get;
  match records d !! UUID (rec_Peer record) with
  | Some current =>
    if negb (bool_decide (ID current = ID record)) || closed_ d then throw "durable restore superseded"
    else if LocalPort current =? port then mret tt
    else if AddrPort_IsValid (fixedFor current (UUID (local cfg))) then throw "fixed durable port changed"
    else saveLocked (set_port port current)
  | None => throw "durable restore superseded"
  end.

(** [DeleteDurable]; [stopping] is the end of the engine's context. *)
Definition DeleteDurable (peer : list byte) (stopping : bool) : D unit :=
  d ← get;
  if closed_ d || stopping then throw "runtime stopping" else deleteLocked peer.

(** * Start *)

(** Whether the configuration still permits the endpoints of a record. *)
Definition permitted (peer : list byte) (record : durableRecord) : bool :=
  let fixedLocal := fixedFor record (UUID (local cfg)) in
  let fixedRemote := fixedFor record peer in
  let port := pc_Port (configured cfg) in
  let range := Range (configured cfg) in
  negb (AddrPort_IsValid fixedLocal &&
        ((negb (port =? 0) && negb (port =? LocalPort record)) ||
         (negb (First range =? 0) && ((LocalPort record <? First range) || (Last range <? LocalPort record))))) &&
  negb (AddrPort_IsValid fixedRemote && negb (candidateAllowed cfg fixedRemote)).

(** The manager of a new process, from what the file holds; a node that takes
    no inbound Links forgets its agreements. *)
Definition openDurable : D unit :=
  loaded ← (λ n, (Ok (default ∅ (content <$> entry (disk n))), n));
  modify (λ _, mkManager ∅ false loaded ∅ ∅ ∅);;
  (if negb (allowsInbound cfg) && negb (bool_decide (loaded = ∅)) then
     saveDurable ∅;; modify (set_records ∅) else mret tt);;
  d ← get;
  let kept := filter (λ x, permitted x.1 x.2 = true) (records d) in
  if bool_decide (kept = records d) then mret tt
  else modify (set_records kept);; saveDurable kept.
End Node.
