(* ===== verification/DurableProps.v ===== *)
(** The invariant of a node that keeps durable agreements, and that every call
    of Durable.v keeps it: an identifier stands for one set of endpoints, and
    what the node confirms, or tells its peer it saved, was saved. *)

From S2P Require Import Prelude Netip Ports Desired AtomicFile PolicyRevision Recovery Field MessageData Durable.
From stdpp Require Import gmap strings.
Open Scope Z_scope.
Open Scope velvet_scope.

Implicit Types (S : list Records) (p : list byte) (text : string) (d : durableManager) (n : node) (r : durableRecord) (o : durableOperation)
  (cfg : node_config) (e : env) (plan : LinkPlan) (s : session) (m : Message).

(** * What an identifier stands for *)

(** The endpoints of an agreement, without the names. *)
Definition terms : Type := list (list byte * AddrPort).
Definition terms_of (l : list FixedEndpoint) : terms := map (λ ep, (UUID (Fixed_UID ep), Fixed_Endpoint ep)) l.

Lemma sameFixed_terms a b : sameFixed a b = true ↔ terms_of a = terms_of b.
Proof.
  unfold terms_of. revert b. induction a as [|x a IH]; intros [|y b]; cbn; try done.
  rewrite !andb_true_iff, !bool_decide_eq_true, IH.
  split; [intros [[-> ->] ->]; done|by intros [= -> -> ->]].
Qed.

(** A record that has its identifier's terms. *)
Definition conforms (A : gmap (list byte) terms) (r : durableRecord) : Prop :=
  A !! ID r = Some (terms_of (rec_FixedEndpoints r)).
(** One of the saved contents has the agreement [i] with [p]. *)
Definition saved_in (A : gmap (list byte) terms) (S : list Records) (p i : list byte) : Prop :=
  ∃ recs r, recs ∈ S ∧ recs !! p = Some r ∧ ID r = i ∧ conforms A r.

Lemma saved_in_mono A S S' p i : S ⊆ S' → saved_in A S p i → saved_in A S' p i.
Proof. intros H (recs & r & ? & ? & ? & ?). exists recs, r. auto. Qed.

(** * The invariant of a node *)

Section Invariant.
(** [A] are the terms of the identifiers in use; [peer_saved p i]: the node [p]
    has saved the agreement [i] with this one. *)
Context (A : gmap (list byte) terms) (peer_saved : list byte → list byte → Prop).

Definition record_ok (S : list Records) (p : list byte) (r : durableRecord) : Prop :=
  UUID (rec_Peer r) = p ∧ conforms A r ∧ (Confirmed r = true → saved_in A S p (ID r) ∧ peer_saved p (ID r)).
Definition records_ok (S : list Records) (recs : Records) : Prop := ∀ p r, recs !! p = Some r → record_ok S p r.
Definition operation_ok (S : list Records) (p : list byte) (o : durableOperation) : Prop :=
  UUID (rec_Peer (op_record o)) = p ∧ conforms A (op_record o) ∧
  (Confirmed (op_record o) = true → saved_in A S p (ID (op_record o)) ∧ peer_saved p (ID (op_record o))) ∧
  (saved o = true → saved_in A S p (ID (op_record o))).
Definition manager_ok (S : list Records) (d : durableManager) : Prop :=
  records_ok S (records d) ∧ ∀ p o, operations d !! p = Some o → operation_ok S p o.

(** A message that this node sends to [p]. *)
Definition message_ok (S : list Records) (p : list byte) (m : Message) : Prop :=
  (Type_ m = DurablePropose → A !! OperationID m = Some (terms_of (FixedEndpoints m))) ∧
  (Type_ m = DurableSaved → saved_in A S p (OperationID m)).

(** The node, during a call about the peer [p]. *)
Record node_ok (p : list byte) (n : node) : Prop := {
  n_manager : manager_ok (saves n) (mgr n);
  n_disk : all_files (λ c, ∀ recs, c = Some recs → records_ok (saves n) recs) (disk n);
  n_out : ∀ k m, (k, m) ∈ out n → message_ok (saves n) p m
}.

Lemma record_ok_mono S S' p r : S ⊆ S' → record_ok S p r → record_ok S' p r.
Proof. intros H (? & ? & C). split_and!; [done..|]. intros E. destruct (C E). split; [by eapply saved_in_mono|done]. Qed.
Lemma records_ok_mono S S' recs : S ⊆ S' → records_ok S recs → records_ok S' recs.
Proof. intros H R p r E. eapply record_ok_mono; eauto. Qed.
Lemma operation_ok_mono S S' p o : S ⊆ S' → operation_ok S p o → operation_ok S' p o.
Proof.
  intros H (? & ? & C & D). split_and!; [done..| |].
  - intros E. destruct (C E). split; [by eapply saved_in_mono|done].
  - intros E. eapply saved_in_mono; eauto.
Qed.
Lemma manager_ok_mono S S' d : S ⊆ S' → manager_ok S d → manager_ok S' d.
Proof. intros H [R O]. split; [by eapply records_ok_mono|]. intros p o E. eapply operation_ok_mono; eauto. Qed.
Lemma message_ok_mono S S' p m : S ⊆ S' → message_ok S p m → message_ok S' p m.
Proof. intros H [P Q]. split; [done|]. intros E. eapply saved_in_mono; eauto. Qed.
Lemma all_files_impl {C} (P Q : option C → Prop) (s : fs C) : (∀ c, P c → Q c) → all_files P s → all_files Q s.
Proof. intros H F f Hf. destruct (F f Hf). auto. Qed.

(** * Reasoning about calls *)

(** From a good node that saved at least [S], [m] leads to a good one that
    saved no less, on every result; a value satisfies [Q]. *)
Definition spec {B : Type} (p : list byte) (S : list Records) (m : D B) (Q : B → list Records → Prop) : Prop :=
  ∀ n, node_ok p n → S ⊆ saves n →
    node_ok p (m n).2 ∧ saves n ⊆ saves (m n).2 ∧ ∀ b, (m n).1 = Ok b → Q b (saves (m n).2).
Definition anyway {B : Type} : B → list Records → Prop := λ _ _, True.

Lemma spec_ret {B} p S (b : B) (Q : B → list Records → Prop) : (∀ S', S ⊆ S' → Q b S') → spec p S (mret b) Q.
Proof. intros H n I HP. split; [done|]. split; [done|]. cbn. intros ? [= <-]. by apply H. Qed.
Lemma spec_throw {B} p S text (Q : B → list Records → Prop) : spec p S (throw text) Q.
Proof. by intros n I HP. Qed.
Lemma spec_get p S : spec p S get (λ d S', manager_ok S' d).
Proof. intros n I HP. split; [done|]. split; [done|]. intros d [= <-]. apply I. Qed.
Lemma spec_read {B} p S (r : result B) : spec p S (λ n, (r, n)) anyway.
Proof. by intros n I HP. Qed.
Lemma spec_bind {B C} p S (m : D B) Q (k : B → D C) R :
  spec p S m Q → (∀ b S', S ⊆ S' → Q b S' → spec p S' (k b) R) → spec p S (m ≫= k) R.
Proof.
  intros Hm Hk n I HP. destruct (Hm n I HP) as (I1 & S1 & Q1). unfold mbind, D_bind.
  destruct (m n) as [[b|e|] n1]; cbn in *; [|by split_and!..].
  destruct (Hk b (saves n1) (transitivity HP S1) (Q1 b eq_refl) n1 I1 (reflexivity _)) as (I2 & S2 & Q2).
  split; [done|]. split; [by etrans|done].
Qed.
Lemma spec_weaken {B} p S S0 (m : D B) (Q Q' : B → list Records → Prop) :
  spec p S0 m Q' → S0 ⊆ S → (∀ b S', Q' b S' → Q b S') → spec p S m Q.
Proof.
  intros H H1 H2 n I HP. destruct (H n I (transitivity H1 HP)) as (I1 & S1 & Q1). split; [done|]. split; [done|].
  intros b E. by apply H2, Q1.
Qed.
Lemma spec_anyway {B} p S (m : D B) Q : spec p S m Q → spec p S m anyway.
Proof. intros H. by eapply spec_weaken. Qed.

Lemma spec_modify p S f : (∀ S' d, S ⊆ S' → manager_ok S' d → manager_ok S' (f d)) → spec p S (modify f) anyway.
Proof.
  intros H n I HP. destruct I as [M F O]. cbn. split; [|done]. split; cbn; [by apply H|done..].
Qed.
(** A change of the rest of the manager. *)
Lemma spec_modify_rest p S f : (∀ d, records (f d) = records d) → (∀ d, operations (f d) = operations d) →
  spec p S (modify f) anyway.
Proof. intros E1 E2. apply spec_modify. intros S' d _ [R O]. unfold manager_ok. rewrite E1, E2. by split. Qed.

Lemma spec_saveDurable e p S next : records_ok S next → spec p S (saveDurable e next) (λ _ S', next ∈ S').
Proof.
  intros H n I HP. destruct I as [M F O]. unfold saveDurable.
  assert (N : records_ok (saves n) next) by (by eapply records_ok_mono).
  pose (P := λ c : option Records, ∀ recs, c = Some recs → records_ok (saves n) recs).
  assert (R : holds (all_files P) (makePolicyDirectory (dirs e);; replace next) (all_files P) (λ _, all_files P)).
  { apply (holds_bind _ _ _ (λ _, all_files P)); [by apply makePolicyDirectory_holds, plan_free_all_files|intros _].
    eapply holds_weaken; [apply (replace_holds P next); by intros ? [= <-]|done|done|]. by intros ? s (? & _). }
  specialize (R (disk n) F). destruct ((makePolicyDirectory (dirs e);; replace next) (disk n)) as [[|err|] s]; cbn.
  - assert (L : saves n ⊆ saves n ++ [next]) by (intros x Hx; apply elem_of_app; by left).
    split; [|split; [done|]]; [split; cbn|].
    + by eapply manager_ok_mono.
    + eapply all_files_impl; [|exact R]. intros c Hc recs E. eapply records_ok_mono; eauto.
    + intros k m Hm. eapply message_ok_mono; eauto.
    + intros _ _. apply elem_of_app. right. by left.
  - split; [|done]. by split.
  - split; [|done]. by split.
Qed.

Lemma spec_saveLocked e p S record : record_ok S (UUID (rec_Peer record)) record →
  spec p S (saveLocked e record) (λ _ S', saved_in A S' (UUID (rec_Peer record)) (ID record)).
Proof.
  intros H. apply (spec_bind _ _ _ _ _ _ (spec_get _ _)). intros d S1 L1 [Rd Od]. cbn zeta.
  assert (N : records_ok S1 (<[UUID (rec_Peer record) := record]> (records d))).
  { intros q r [[<- <-]|[? E]]%lookup_insert_Some; [by eapply record_ok_mono|by apply Rd]. }
  apply (spec_bind _ _ _ _ _ _ (spec_saveDurable e p S1 _ N)). intros _ S2 L2 In.
  intros n I HP. destruct I as [M F O]. cbn. split; [split; cbn; [|done..]|split; [done|]].
  - split; cbn; [eapply records_ok_mono; [|exact N]; by etrans|].
    intros q o E. apply M. destruct (records (mgr n) !! _); [destruct (bool_decide _)|]; exact E.
  - intros _ _. eexists _, record. split; [by apply HP|]. rewrite lookup_insert_eq. split_and!; [done..|apply H].
Qed.

Lemma spec_deleteLocked cfg e p S peer : spec p S (deleteLocked cfg e peer) anyway.
Proof.
  apply (spec_bind _ _ _ _ _ _ (spec_get _ _)). intros d S1 L1 [Rd Od]. cbn zeta.
  destruct (negb _); [by apply spec_ret|].
  assert (N : records_ok S1 (delete peer (records d))) by (intros q r [_ E]%lookup_delete_Some; by apply Rd).
  apply (spec_bind _ _ _ _ _ _ (spec_saveDurable e p S1 _ N)). intros _ S2 L2 In.
  apply spec_modify. intros S3 d' L3 [R' O']. split; cbn.
  - eapply records_ok_mono; [|exact N]. by etrans.
  - intros q o [_ E]%lookup_delete_Some. by apply O'.
Qed.

Lemma spec_Send e p S s m : message_ok S p m → spec p S (Send e s m) anyway.
Proof.
  intros H n [M F O] HP. unfold Send. destruct (send_fails e m); cbn; [by split_and!|]. split; [|done].
  split; cbn; [done..|]. intros k x [Hx|Hx]%elem_of_app; [by eapply O|].
  apply list_elem_of_singleton in Hx as [= -> ->]. by eapply message_ok_mono.
Qed.

Lemma spec_put_operation p S peer o : operation_ok S peer o → spec p S (put_operation peer o) anyway.
Proof.
  intros H. apply spec_modify. intros S' d L [R O]. split; cbn; [done|].
  intros q o' [[<- <-]|[? E]]%lookup_insert_Some; [by eapply operation_ok_mono|by apply O].
Qed.
Lemma spec_put_check p S peer c : spec p S (put_check peer c) anyway.
Proof. by apply spec_modify_rest. Qed.

(** * The operations *)

Lemma spec_bind_anyway {B C : Type} p S (m : D B) (k : B → D C) (R : C → list Records → Prop) :
  spec p S m anyway → (∀ b, spec p S (k b) R) → spec p S (m ≫= k) R.
Proof.
  intros Hm Hk. apply (spec_bind _ _ _ _ _ _ Hm). intros b S' L _. eapply spec_weaken; [apply Hk|done|done].
Qed.

Lemma spec_keep {B : Type} p S (m : D B) q i :
  saved_in A S q i → spec p S m anyway → spec p S m (λ _ S', saved_in A S' q i).
Proof.
  intros H Hm n I HP. destruct (Hm n I HP) as (? & L & _). split_and!; [done..|].
  intros _ _. eapply saved_in_mono; [|exact H]. by etrans.
Qed.

(** A change of a record that keeps its agreement. *)
Lemma record_ok_metadata S p r peer l : UUID peer = p → record_ok S p r → record_ok S p (set_metadata peer l r).
Proof. intros H (? & ? & ?). by split_and!. Qed.

Lemma spec_refreshPeerMetadata cfg e p S peer key l : spec p S (refreshPeerMetadata cfg e peer key l) anyway.
Proof.
  apply (spec_bind _ _ _ _ _ _ (spec_get _ _)). intros d S1 L1 [Rd Od].
  destruct (records d !! UUID peer) as [r|] eqn:E; [|by apply spec_ret].
  destruct (negb _); [apply spec_deleteLocked|]. destruct (_ && _); [by apply spec_ret|].
  eapply spec_anyway, spec_saveLocked. cbn. by eapply record_ok_metadata, Rd.
Qed.

Lemma spec_observe cfg e p S plan localEp ctl at_ port rem :
  spec p S (observe cfg e plan localEp ctl at_ port rem) anyway.
Proof.
  unfold observe. destruct (_ <=? _); [by apply spec_ret|]. destruct (current_link _ _ _); [|by apply spec_ret].
  apply spec_bind_anyway; [apply spec_read|intros port'].
  apply spec_bind_anyway; [apply spec_read|intros [rem'|]]; [|by apply spec_ret].
  destruct (_ <=? _); [by apply spec_ret|]. destruct (current_link _ _ _) as [state|]; [|by apply spec_ret].
  apply (spec_bind _ _ _ _ _ _ (spec_get _ _)). intros d S1 L1 _. cbn zeta.
  destruct (at_ <? _); [by apply spec_ret|].
  apply spec_bind_anyway; [by apply spec_modify_rest|intros _].
  destruct (records d !! _); [|by apply spec_ret]. destruct (_ || _); [apply spec_deleteLocked|by apply spec_ret].
Qed.

Lemma spec_decline {B : Type} cfg e p S s m (Q : B → list Records → Prop) : spec p S (decline cfg e s m) Q.
Proof.
  unfold decline. apply spec_bind_anyway; [|intros; apply spec_throw].
  apply spec_Send. destruct (allowsInbound cfg); by split.
Qed.

Lemma get_bind_bind {B C : Type} (k : durableManager → D B) (h : B → D C) n :
  ((get ≫= k) ≫= h) n = (k (mgr n) ≫= h) n.
Proof. done. Qed.
Lemma get_bind {B : Type} (k : durableManager → D B) n : (get ≫= k) n = k (mgr n) n.
Proof. done. Qed.

(** A received proposal, whose terms its identifier has; an identifier that the
    answer draws is in [A] with the terms of the counter-proposal. *)
Lemma spec_handlePropose cfg e plan s m n :
  let p := UUID (RemoteUID s) in
  A !! OperationID m = Some (terms_of (FixedEndpoints m)) →
  (∀ own id, eligibleLocked cfg plan (clock e 7) (mgr n) = Some own → random e = Some id →
    A !! id = Some (terms_of (sort_fixed (FixedEndpoints m ++ [own])))) →
  node_ok p n →
  node_ok p (handlePropose cfg e plan s m n).2 ∧ saves n ⊆ saves (handlePropose cfg e plan s m n).2.
Proof.
  intros p Hm Hr I.
  pose (accept d resume record := acceptPropose e plan s p d resume record).
  assert (Acc : ∀ port, spec p (saves n) (accept (mgr n) (resumes (mgr n) p m)
      (mkRecord (OperationID m) (RemoteUID s) (RemoteLoopbackV6 s) (PeerPublicKey plan) port (FixedEndpoints m) false)) anyway).
  { intros port. unfold accept, acceptPropose. destruct (n_manager p n I) as [Rd Od]. cbv zeta.
    set (rec := match records (mgr n) !! p with Some stored => _ | None => _ end).
    assert (Hrec : record_ok (saves n) p rec ∧ UUID (rec_Peer rec) = p).
    { unfold rec, resumes. destruct (records (mgr n) !! p) as [stored|] eqn:E; [|by split].
      case_bool_decide as T; [|by split]. destruct (Rd p stored E) as (_ & _ & C).
      split; [|done]. split_and!; [done..|]. cbn. rewrite <- T. exact C. }
    destruct Hrec as [Hrec Hp].
    apply (spec_bind _ _ _ _ _ _ (spec_saveLocked e p _ rec ltac:(by rewrite Hp))). intros _ S1 L1 Sv. rewrite Hp in Sv.
    apply spec_bind_anyway; [|intros _].
    - apply spec_put_operation. split_and!; [done|apply Hrec| |by intros _]. intros C.
      destruct Hrec as (_ & _ & Hc). destruct (Hc C). by split.
    - destruct (negb _); [apply spec_throw|]. apply spec_Send. split; [done|]. intros _. exact Sv. }
  assert (W : ∀ c : D unit, spec p (saves n) c anyway → node_ok p (c n).2 ∧ saves n ⊆ saves (c n).2).
  { intros c Hc. by destruct (Hc n I (reflexivity _)) as (? & ? & _). }
  unfold handlePropose. rewrite get_bind. cbv zeta.
  destruct (declined _ _ _ _ _ _); [apply W, spec_decline|].
  destruct (eligibleLocked _ _ _ _) as [own|] eqn:El; [|apply W, Acc].
  destruct (_ && _); [|apply W, Acc]. destruct (random e) as [id|] eqn:Rd; [|apply W, spec_throw].
  specialize (Hr own id eq_refl eq_refl). apply W.
  apply spec_bind_anyway; [|intros _; apply spec_Send; by split].
  apply spec_put_operation. by split_and!.
Qed.

Lemma spec_handleSaved e plan s m S :
  let p := UUID (RemoteUID s) in
  peer_saved p (OperationID m) → spec p S (handleSaved e plan s m) anyway.
Proof.
  intros p Hm. apply (spec_bind _ _ _ _ _ _ (spec_get _ _)). intros d S1 L1 [Rd Od]. cbv zeta. fold p.
  destruct (operations d !! p) as [o|] eqn:E; [|by apply spec_throw].
  destruct (_ || _) eqn:G; [apply spec_throw|].
  rewrite !orb_false_iff, !negb_false_iff, !bool_decide_eq_true in G. destruct G as [[_ Hid] _].
  destruct (Od p o E) as (Hp & Hc & Hcf & Hs).
  assert (Own : operation_ok S1 p o) by by split_and!.
  apply (spec_bind _ _ _ (λ _ S', saved_in A S' p (ID (op_record o)))).
  { destruct (saved o) eqn:Sv; [apply spec_ret; intros; eapply saved_in_mono; eauto|].
    apply (spec_bind _ _ _ _ _ _ (spec_saveLocked e p _ (op_record o) ltac:(rewrite Hp; by split_and!))).
    intros _ S2 L2 In. rewrite Hp in In.
    apply spec_keep; [done|]. apply spec_bind_anyway; [|intros _].
    - apply spec_put_operation. split_and!; [done..| |done]. intros C. destruct (Hcf C). split; [by eapply saved_in_mono|done].
    - destruct (negb _); [apply spec_throw|]. apply spec_Send. by split. }
  intros _ S2 L2 In. destruct (negb _); [apply spec_throw|].
  assert (Both : saved_in A S2 p (ID (op_record o)) ∧ peer_saved p (ID (op_record o))) by (by rewrite Hid at 2).
  apply spec_bind_anyway; [apply spec_put_operation; by split_and!|intros _].
  apply spec_bind_anyway; [|intros _; apply spec_bind_anyway; [|intros _; apply spec_throw]].
  - eapply spec_anyway, spec_saveLocked. cbn. rewrite Hp. by split_and!.
  - apply spec_modify. intros S' d' L' [R O]. split; cbn; [done|]. intros q o' [_ E']%lookup_delete_Some. by apply O.
Qed.

Lemma spec_handleDecline p e s m S : spec p S (handleDecline e s m) anyway.
Proof.
  apply spec_bind_anyway; [|intros _; apply spec_throw]. apply spec_modify. intros S' d L [R O].
  destruct (operations d !! _) as [o|] eqn:E; [|by split]. destruct (_ && _); [|by split].
  split; cbn; [done|]. intros q o' [[<- <-]|[? E']]%lookup_insert_Some; [by apply (O _ o)|by apply O].
Qed.

(** A call that only needs the invariant, from a given node. *)
Definition keeps {B : Type} p n (c : D B) : Prop := node_ok p n → node_ok p (c n).2 ∧ saves n ⊆ saves (c n).2.
Lemma spec_keeps {B : Type} p n (c : D B) (Q : B → list Records → Prop) : spec p (saves n) c Q → keeps p n c.
Proof. intros H I. by destruct (H n I (reflexivity _)) as (? & ? & _). Qed.

Lemma handleLink_keeps cfg e plan s m n :
  let p := UUID (RemoteUID s) in
  (Type_ m = DurablePropose → A !! OperationID m = Some (terms_of (FixedEndpoints m)) ∧
    ∀ own id, eligibleLocked cfg plan (clock e 7) (mgr n) = Some own → random e = Some id →
      A !! id = Some (terms_of (sort_fixed (FixedEndpoints m ++ [own])))) →
  (Type_ m = DurableSaved → peer_saved p (OperationID m)) →
  keeps p n (handleLink cfg e plan s m).
Proof.
  intros p Hp Hs. unfold keeps, handleLink.
  destruct (current_link _ _ _); [|apply (spec_keeps _ _ _ anyway), spec_throw].
  destruct (negb _); [apply (spec_keeps _ _ _ anyway), spec_throw|].
  destruct (Type_ m) eqn:T; try (apply (spec_keeps _ _ _ anyway), spec_throw).
  - destruct (Hp eq_refl). by apply spec_handlePropose.
  - eapply spec_keeps, spec_handleSaved. by apply Hs.
  - eapply spec_keeps, spec_handleDecline.
Qed.

(** The tick of a Link and the first message of its session. *)
Definition tick_send cfg e (state : materializedState) (now : Time) s : D unit :=
  r ← tick_link cfg e state now;
  match r with Some (_, m) => Send e s m | None => mret tt end.

Lemma tick_record_cases cfg e state now d record : tick_record cfg e state now d = Some record →
  records d !! remote state = Some record ∨
  ∃ own id, eligibleLocked cfg (ms_desired state) now d = Some own ∧ random e = Some id ∧
    UUID (rec_Peer record) = remote state ∧ ID record = id ∧ rec_FixedEndpoints record = [own] ∧ Confirmed record = false.
Proof.
  unfold tick_record. cbv zeta. intros H. repeat (case_match; try done); simplify_eq; first [by left|right; eexists _, _; by split_and!].
Qed.

Lemma tick_send_keeps p cfg e state now s n :
  (∀ own id, eligibleLocked cfg (ms_desired state) now (mgr n) = Some own → random e = Some id →
    A !! id = Some (terms_of [own])) →
  keeps p n (tick_send cfg e state now s).
Proof.
  intros H I. destruct (n_manager p n I) as [Rd Od].
  unfold tick_send, tick_link. rewrite get_bind_bind. cbv zeta.
  destruct (tick_record _ _ _ _ _) as [record|] eqn:T; [|done].
  assert (R : record_ok (saves n) (remote state) record).
  { apply tick_record_cases in T as [E|(own & id & El & Er & Ep & Ei & Ef & Ec)]; [by apply Rd|].
    split_and!; [done| |by rewrite Ec]. unfold conforms. rewrite Ei, Ef. by apply (H own id). }
  destruct R as (Rp & Rc & Rf). refine (spec_keeps p n _ anyway _ I).
  apply (spec_bind _ _ _ (λ (res : option (durableRecord * Message)) (_ : list Records), ∀ rec m, res = Some (rec, m) →
    Type_ m = DurablePropose ∧ OperationID m = ID record ∧ FixedEndpoints m = rec_FixedEndpoints record)).
  - apply spec_bind_anyway; [apply spec_put_operation; by split_and!|]. intros _. apply spec_ret.
    by intros S' _ rec m [= <- <-].
  - intros [[rec m]|] S' L Hr; [|by apply spec_ret]. destruct (Hr rec m eq_refl) as (Ht & Hi & Hf).
    apply spec_Send. split; [intros _; by rewrite Hi, Hf|by rewrite Ht].
Qed.

Lemma spec_tick_operational p S state o s : spec p S (tick_operational state o s) anyway.
Proof.
  apply (spec_bind _ _ _ _ _ _ (spec_get _ _)). intros d S1 L1 [Rd Od].
  destruct (_ || _) eqn:G; [apply spec_throw|].
  rewrite orb_false_iff, !negb_false_iff, !bool_decide_eq_true in G. destruct G as [E Es].
  destruct (Od _ _ E) as (Hp & Hc & Hcf & Hsv). apply spec_put_operation. by split_and!.
Qed.

(** * Checks, restoring, deleting *)

Lemma spec_check_begin p S record now : spec p S (check_begin record now) anyway.
Proof.
  apply (spec_bind _ _ _ _ _ _ (spec_get _ _)). intros d S1 L1 _. cbv zeta.
  apply spec_bind_anyway; [apply spec_put_check|intros _; by apply spec_ret].
Qed.
Lemma spec_check_record cfg e p S record now ready connected q :
  spec p S (check_record cfg e record now ready connected q) anyway.
Proof.
  apply (spec_bind _ _ _ _ _ _ (spec_get _ _)). intros d S1 L1 _. cbv zeta.
  destruct (records d !! _); [|by apply spec_ret]. destruct (checks d !! _); [|by apply spec_ret].
  destruct (negb _); [by apply spec_ret|]. destruct (check_failed _ _ _ _) as [failed c].
  apply spec_bind_anyway; [apply spec_put_check|intros _]. destruct failed.
  - apply spec_bind_anyway; [apply spec_deleteLocked|intros _; by apply spec_ret].
  - destruct (_ || _); [by apply spec_ret|]. destruct q; [|by apply spec_ret].
    apply spec_bind_anyway; [apply spec_put_check|intros _; by apply spec_ret].
Qed.
Lemma spec_acceptStatus cfg e p S record q m now cancelled connected :
  spec p S (acceptStatus cfg e record q m now cancelled connected) anyway.
Proof.
  unfold acceptStatus. destruct (_ || _); [by apply spec_ret|].
  apply (spec_bind _ _ _ _ _ _ (spec_get _ _)). intros d S1 L1 _. cbv zeta.
  destruct (records d !! _); [|apply spec_throw]. destruct (checks d !! _); [|apply spec_throw].
  destruct (_ || _); [apply spec_throw|]. apply spec_bind_anyway; [|intros _; apply spec_throw].
  repeat case_match; first [apply spec_put_check|apply spec_deleteLocked|by apply spec_ret].
Qed.
Lemma spec_handleCheck e S s m ready : spec (UUID (RemoteUID s)) S (handleCheck e s m ready) anyway.
Proof.
  apply (spec_bind _ _ _ _ _ _ (spec_get _ _)). intros d S1 L1 [Rd Od]. cbv zeta.
  destruct (records d !! _) as [r|] eqn:E; [|apply spec_Send; by split].
  case_bool_decide; [|apply spec_Send; by split].
  apply spec_bind_anyway; [|intros _; apply spec_Send; by split].
  destruct (_ || _); [|by apply spec_ret]. eapply spec_anyway, spec_saveLocked. cbn.
  by eapply record_ok_metadata, Rd.
Qed.
Lemma spec_confirmRestore cfg e p S record port : spec p S (confirmRestore cfg e record port) anyway.
Proof.
  apply (spec_bind _ _ _ _ _ _ (spec_get _ _)). intros d S1 L1 [Rd Od].
  destruct (records d !! _) as [r|] eqn:E; [|apply spec_throw]. destruct (_ || _); [apply spec_throw|].
  destruct (_ =? _); [by apply spec_ret|]. destruct (AddrPort_IsValid _); [apply spec_throw|].
  eapply spec_anyway, spec_saveLocked. cbn. destruct (Rd _ _ E) as (Hp & ? & ?). rewrite Hp. by split_and!.
Qed.
Lemma spec_DeleteDurable cfg e p S peer stopping : spec p S (DeleteDurable cfg e peer stopping) anyway.
Proof.
  apply (spec_bind _ _ _ _ _ _ (spec_get _ _)). intros d S1 L1 _.
  destruct (_ || _); [apply spec_throw|apply spec_deleteLocked].
Qed.

(** A new process, on what the old one or the power failure left. *)
Lemma spec_openDurable cfg e p S : spec p S (openDurable cfg e) anyway.
Proof.
  apply (spec_bind _ _ _ (λ loaded S', records_ok S' loaded)).
  { intros n I HP. cbn. split; [done|]. split; [done|]. intros loaded [= <-].
    destruct (entry (disk n)) as [f|] eqn:E; cbn; [|by intros ? ? []%lookup_empty_Some].
    destruct (n_disk p n I (Some f)) as [Hf _]; [rewrite E; by left|]. by apply Hf. }
  intros loaded S1 L1 Hl.
  assert (Set_ : ∀ S2 recs f, records_ok S2 recs → (∀ d, records (f d) = recs) →
    (∀ d, operations (f d) = ∅ ∨ operations (f d) = operations d) → spec p S2 (modify f) anyway).
  { intros S2 recs f Hr E O. apply spec_modify. intros S' d L [R Op]. split; [rewrite E; by eapply records_ok_mono|].
    intros q o Eo. destruct (O d) as [Hd|Hd]; rewrite Hd in Eo; [by apply lookup_empty_Some in Eo|by apply Op]. }
  apply spec_bind_anyway; [apply (Set_ _ loaded); [done|done|by left]|intros _].
  apply spec_bind_anyway.
  { assert (N : records_ok S1 ∅) by (by intros ? ? []%lookup_empty_Some). destruct (_ && _); [|by apply spec_ret].
    apply (spec_bind _ _ _ _ _ _ (spec_saveDurable e p S1 _ N)). intros _ S2 L2 _.
    apply (Set_ S2 ∅ (set_records ∅)); [by eapply records_ok_mono|done|by right]. }
  intros _. apply (spec_bind _ _ _ _ _ _ (spec_get _ _)). intros d S3 L3 [Rd Od]. cbv zeta.
  set (kept := filter _ _). assert (N : records_ok S3 kept).
  { intros q r [E _]%map_lookup_filter_Some. by apply Rd. }
  case_bool_decide; [by apply spec_ret|].
  apply spec_bind_anyway; [apply (Set_ S3 kept); [done|done|by right]|intros _].
  eapply spec_anyway, spec_saveDurable, N.
Qed.
End Invariant.
