(* ===== verification/Agreement.v ===== *)
(** A network of nodes that keep durable agreements (runtime/durable.go): their
    calls in any order, on messages that were sent to them, and ends of their
    processes and power failures in between. *)

From S2P Require Import Prelude Netip Ports Desired AtomicFile PolicyRevision Recovery Field MessageData Durable DurableProps.
From stdpp Require Import gmap strings.
Open Scope Z_scope.
Open Scope velvet_scope.
Implicit Types (S : list Records) (p u : list byte) (d : durableManager) (n : node) (r : durableRecord)
  (cfg : node_config) (e : env) (plan : LinkPlan) (s : session) (m : Message).

(** * Networks *)

(** [net]: who sent what to whom, ever; a message may arrive any number of
    times.  [drawn]: the random identifiers that nodes drew. *)
Record world := mkWorld { nodes : list byte → node; net : list (list byte * list byte * Message); drawn : list (list byte) }.

Definition manager_new : durableManager := mkManager ∅ false ∅ ∅ ∅ ∅.
(** A node whose next call meets the events [faults] on its disk. *)
Definition ready (faults : list event) (n : node) : node :=
  mkNode (mgr n) (mkFs (entry (disk n)) (older (disk n)) (temp (disk n)) faults) [] (saves n).
Definition rebooted (dk : fs Records) (n : node) : node := mkNode manager_new dk [] (saves n).

Section Network.
Context (cfgs : list byte → node_config).

(** The calls of the node [u] about the peer [p].  The sessions are
    authenticated: a message on a session of [p] was sent by [p] to [u]. *)
Inductive call_of (w : world) (u p : list byte) (e : env) : ∀ B : Type, D B → Prop :=
| call_message plan s m : (p, u, m) ∈ net w → UUID (RemoteUID s) = p →
    call_of w u p e unit (handleLink (cfgs u) e plan s m)
| call_tick state now s : call_of w u p e unit (tick_send (cfgs u) e state now s)
| call_operational state o s : call_of w u p e unit (tick_operational state o s)
| call_check s m up : UUID (RemoteUID s) = p → call_of w u p e unit (handleCheck e s m up)
| call_status record q m now cancelled connected :
    call_of w u p e unit (acceptStatus (cfgs u) e record q m now cancelled connected)
| call_begin record now : call_of w u p e bool (check_begin record now)
| call_record record now up connected q :
    call_of w u p e (option (list byte)) (check_record (cfgs u) e record now up connected q)
| call_restore record port : call_of w u p e unit (confirmRestore (cfgs u) e record port)
| call_refresh peer key l : call_of w u p e unit (refreshPeerMetadata (cfgs u) e peer key l)
| call_observe plan ep ctl at_ port rem : call_of w u p e unit (observe (cfgs u) e plan ep ctl at_ port rem)
| call_delete peer stopping : call_of w u p e unit (DeleteDurable (cfgs u) e peer stopping).

(** What a call leaves: the node, and its messages under way to [p]. *)
Definition after {B : Type} (w : world) (u p : list byte) (e : env) (faults : list event) (c : D B) : world :=
  let n := (c (ready faults (nodes w u))).2 in
  mkWorld (λ v, if decide (v = u) then n else nodes w v)
    (net w ++ map (λ x, (u, p, x.2)) (out n))
    (match random e with Some id => id :: drawn w | None => drawn w end).
(** A new process of [u]; [dk] is the disk it finds. *)
Definition reopened (w : world) (u : list byte) (e : env) (dk : fs Records) : world :=
  let n := (openDurable (cfgs u) e (rebooted dk (nodes w u))).2 in
  mkWorld (λ v, if decide (v = u) then n else nodes w v) (net w) (drawn w).

(** Identifiers are random UUIDs: none is drawn twice. *)
Inductive step (w : world) : world → Prop :=
| step_call u p e faults (B : Type) (c : D B) : call_of w u p e B c →
    (∀ id, random e = Some id → id ∉ drawn w) → step w (after w u p e faults c)
| step_restart u e dk : restart (disk (nodes w u)) dk → step w (reopened w u e dk)
| step_loss u e dk : power_loss (disk (nodes w u)) dk → step w (reopened w u e dk).

(** Nodes without agreements, files and messages. *)
Definition initial (w : world) : Prop :=
  (∀ u, nodes w u = mkNode manager_new (mkFs None [] None []) [] []) ∧ net w = [] ∧ drawn w = [].
Inductive reachable : world → Prop :=
| reach_init w : initial w → reachable w
| reach_step w w' : reachable w → step w w' → reachable w'.

(** * The invariant *)

Notation peer_saved A w u := (λ p i, saved_in A (saves (nodes w p)) u i).

Record world_ok (A : gmap (list byte) terms) (w : world) : Prop := {
  w_drawn : ∀ i, is_Some (A !! i) → i ∈ drawn w;
  w_nodes : ∀ u, manager_ok A (peer_saved A w u) (saves (nodes w u)) (mgr (nodes w u));
  w_disks : ∀ u, all_files (λ c, ∀ recs, c = Some recs →
    records_ok A (peer_saved A w u) (saves (nodes w u)) recs) (disk (nodes w u));
  w_net : ∀ u p m, (u, p, m) ∈ net w → message_ok A (saves (nodes w u)) p m
}.

(** More identifiers, and more that peers saved. *)
Section More.
Context (A A' : gmap (list byte) terms) (P P' : list byte → list byte → Prop).
Hypothesis (HA : A ⊆ A') (HP : ∀ p i, P p i → P' p i).
Lemma conforms_more r : conforms A r → conforms A' r.
Proof. intros H. by eapply lookup_weaken. Qed.
Lemma saved_in_more S p i : saved_in A S p i → saved_in A' S p i.
Proof. intros (recs & r & ? & ? & ? & ?). exists recs, r. eauto using conforms_more. Qed.
Lemma record_ok_more S p r : record_ok A P S p r → record_ok A' P' S p r.
Proof.
  intros (? & ? & C). split_and!; [done|by apply conforms_more|]. intros E. destruct (C E). eauto using saved_in_more.
Qed.
Lemma records_ok_more S recs : records_ok A P S recs → records_ok A' P' S recs.
Proof. intros H p r E. by apply record_ok_more, H. Qed.
Lemma manager_ok_more S d : manager_ok A P S d → manager_ok A' P' S d.
Proof.
  intros [R O]. split; [by apply records_ok_more|]. intros p o E. destruct (O p o E) as (? & ? & C & Sv).
  split_and!; [done|by apply conforms_more| |eauto using saved_in_more].
  intros Ec. destruct (C Ec). eauto using saved_in_more.
Qed.
Lemma message_ok_more S p m : message_ok A S p m → message_ok A' S p m.
Proof.
  intros [M1 M2]. split; [intros E; by eapply lookup_weaken; eauto|]. eauto using saved_in_more.
Qed.
End More.

(** A call on a good node, with at most the drawn identifier as a new one. *)
Lemma call_keeps A w u p e (B : Type) (c : D B) faults :
  world_ok A w → call_of w u p e B c → (∀ id, random e = Some id → id ∉ drawn w) →
  ∃ A', A ⊆ A' ∧ (∀ i, is_Some (A' !! i) → i ∈ drawn w ∨ random e = Some i) ∧
    let n := ready faults (nodes w u) in
    node_ok A' (peer_saved A w u) p (c n).2 ∧ saves n ⊆ saves (c n).2.
Proof.
  intros I C Fr. set (n := ready faults (nodes w u)).
  assert (Start : ∀ A', A ⊆ A' → node_ok A' (peer_saved A w u) p n).
  { intros A' L. split; cbn.
    - eapply manager_ok_more; [exact L|exact (λ _ _ x, x)|]. apply (w_nodes A w I).
    - intros f Hf. destruct (w_disks A w I u f Hf) as [Hr Hs]. split; [|done].
      intros recs E. eapply records_ok_more; [exact L|exact (λ _ _ x, x)|]. by apply Hr.
    - by intros k m ?%not_elem_of_nil. }
  assert (Same : keeps A (peer_saved A w u) p n c → ∃ A', A ⊆ A' ∧ (∀ i, is_Some (A' !! i) → i ∈ drawn w ∨ random e = Some i) ∧
    node_ok A' (peer_saved A w u) p (c n).2 ∧ saves n ⊆ saves (c n).2).
  { intros K. exists A. split; [done|]. split; [intros i Hi; left; by apply (w_drawn A w I)|]. by apply K, Start. }
  (** With the terms [t] for the drawn identifier. *)
  assert (Draw : ∀ t, (∀ A', A ⊆ A' → (∀ id, random e = Some id → A' !! id = Some t) → keeps A' (peer_saved A w u) p n c) →
    ∃ A', A ⊆ A' ∧ (∀ i, is_Some (A' !! i) → i ∈ drawn w ∨ random e = Some i) ∧
    node_ok A' (peer_saved A w u) p (c n).2 ∧ saves n ⊆ saves (c n).2).
  { intros t K. destruct (random e) as [id|] eqn:Er.
    - assert (N : A !! id = None).
      { apply eq_None_not_Some. intros Hi. by apply (Fr id eq_refl), (w_drawn A w I). }
      assert (L : A ⊆ <[id := t]> A) by (by apply insert_subseteq). exists (<[id := t]> A).
      split; [done|]. split; [|apply K; [done| |by apply Start]; intros ? [= <-]; apply lookup_insert_eq].
      intros i [t' [[<- _]|[_ E]]%lookup_insert_Some]; [by right|left; apply (w_drawn A w I); by exists t'].
    - exists A. split; [done|]. split; [intros i Hi; left; by apply (w_drawn A w I)|]. apply K; [done..|by apply Start]. }
  destruct C as [plan s m Hm <-|state now s|state o s|s m up <-|record q m now cancelled connected|record now|
    record now up connected q|record port|peer key l|plan ep ctl at_ port rem|peer stopping].
  - destruct (w_net A w I _ _ _ Hm) as [M1 M2].
    apply (Draw (match eligibleLocked (cfgs u) plan (clock e 7) (mgr n) with
      | Some own => terms_of (sort_fixed (FixedEndpoints m ++ [own])) | None => [] end)).
    intros A' L Hd. apply handleLink_keeps; [|exact M2]. intros T. split; [eapply lookup_weaken; [by apply M1|done]|].
    intros own id El Er. rewrite (Hd id Er). by rewrite El.
  - apply (Draw (match eligibleLocked (cfgs u) (ms_desired state) now (mgr n) with
      | Some own => terms_of [own] | None => [] end)).
    intros A' L Hd. apply tick_send_keeps. intros own id El Er. rewrite (Hd id Er). by rewrite El.
  - apply Same. eapply spec_keeps, spec_tick_operational.
  - apply Same. eapply spec_keeps, spec_handleCheck.
  - apply Same. eapply spec_keeps, spec_acceptStatus.
  - apply Same. eapply spec_keeps, spec_check_begin.
  - apply Same. eapply spec_keeps, spec_check_record.
  - apply Same. eapply spec_keeps, spec_confirmRestore.
  - apply Same. eapply spec_keeps, spec_refreshPeerMetadata.
  - apply Same. eapply spec_keeps, spec_observe.
  - apply Same. eapply spec_keeps, spec_DeleteDurable.
Qed.

(** The network with a good new state of [u] and its messages. *)
Lemma world_ok_update A A' w u p n' net' drawn' :
  world_ok A w → A ⊆ A' → (∀ i, is_Some (A' !! i) → i ∈ drawn') →
  saves (nodes w u) ⊆ saves n' → node_ok A' (peer_saved A w u) p n' →
  (∀ v q m, (v, q, m) ∈ net' → (v, q, m) ∈ net w ∨ v = u ∧ q = p ∧ ∃ k, (k, m) ∈ out n') →
  world_ok A' (mkWorld (λ v, if decide (v = u) then n' else nodes w v) net' drawn').
Proof.
  intros I L Hd Hs N Hnet. set (w' := mkWorld _ _ _).
  assert (Grow : ∀ v, saves (nodes w v) ⊆ saves (nodes w' v)) by (intros v; cbn; by destruct (decide (v = u)) as [->|]).
  assert (Peer : ∀ A0, A0 ⊆ A' → ∀ v q i, saved_in A0 (saves (nodes w q)) v i → saved_in A' (saves (nodes w' q)) v i).
  { intros A0 L0 v q i H. eapply saved_in_mono; [apply Grow|]. by eapply saved_in_more. }
  assert (Same : A' ⊆ A') by done.
  split; [exact Hd| | |].
  - intros v. cbn. destruct (decide (v = u)) as [->|].
    + eapply (manager_ok_more A' A' (peer_saved A w u)); [exact Same|apply (Peer _ L)|]. apply N.
    + eapply manager_ok_more; [exact L|apply (Peer _ L)|]. apply (w_nodes A w I).
  - intros v f. cbn. destruct (decide (v = u)) as [->|]; intros Hf.
    + destruct (n_disk _ _ _ _ N f Hf) as [Hr Hsy]. split; [|done]. intros recs E.
      eapply (records_ok_more A' A' (peer_saved A w u)); [exact Same|apply (Peer _ L)|]. by apply Hr.
    + destruct (w_disks A w I v f Hf) as [Hr Hsy]. split; [|done]. intros recs E.
      eapply records_ok_more; [exact L|apply (Peer _ L)|]. by apply Hr.
  - intros v q m [Hm|(-> & -> & k & Hm)]%Hnet.
    + eapply message_ok_more; [exact L|]. eapply message_ok_mono; [apply Grow|]. by apply (w_net A w I).
    + cbn. rewrite decide_True by done. exact (n_out _ _ _ _ N k m Hm).
Qed.

Lemma manager_new_ok A P S : manager_ok A P S manager_new.
Proof. split; cbn; intros ? ? E; by apply lookup_empty_Some in E. Qed.

Lemma reopened_ok A w u e dk :
  world_ok A w →
  all_files (λ c, ∀ recs, c = Some recs → records_ok A (peer_saved A w u) (saves (nodes w u)) recs) dk →
  world_ok A (reopened w u e dk).
Proof.
  intros I F. set (n := rebooted dk (nodes w u)).
  assert (N : node_ok A (peer_saved A w u) u n).
  { split; cbn; [apply manager_new_ok|exact F|by intros ? ? ?%not_elem_of_nil]. }
  destruct (spec_openDurable A (peer_saved A w u) (cfgs u) e u (saves n) n N (reflexivity _)) as (N' & L & _).
  eapply world_ok_update; [exact I|done|apply (w_drawn A w I)|exact L|exact N'|]. intros; by left.
Qed.

Lemma step_ok A w w' : world_ok A w → step w w' → ∃ A', A ⊆ A' ∧ world_ok A' w'.
Proof.
  intros I [u p e faults B c C Fr|u e dk R|u e dk R].
  - destruct (call_keeps A w u p e B c faults I C Fr) as (A' & L & Hd & N & Hs). exists A'. split; [done|].
    eapply world_ok_update; [exact I|done| |exact Hs|exact N|].
    + intros i [Hi|Hi]%Hd; [destruct (random e); [by right|done]|]. rewrite Hi. by left.
    + intros v q m [Hm|([k x] & [= -> -> ->] & Hx)%list_elem_of_fmap]%elem_of_app; [by left|right].
      split_and!; [done..|]. by exists k.
  - exists A. split; [done|]. apply reopened_ok; [done|]. eapply all_files_restart; [apply (w_disks A w I)|done].
  - exists A. split; [done|]. apply reopened_ok; [done|]. eapply all_files_loss; [apply (w_disks A w I)|done].
Qed.

Lemma reachable_ok w : reachable w → ∃ A, world_ok A w.
Proof.
  induction 1 as [w (Hn & Ht & Hd)|w w' _ [A I] St].
  - exists ∅. split.
    + intros i [t E]. by apply lookup_empty_Some in E.
    + intros u. rewrite Hn. apply manager_new_ok.
    + intros u f. rewrite Hn. intros ->%list_elem_of_singleton. split; [by intros ?|by intros].
    + rewrite Ht. by intros ? ? ? ?%not_elem_of_nil.
  - destruct (step_ok A w w' I St) as (A' & _ & I'). by exists A'.
Qed.

(** A record the node [u] has: in memory, on disk, or where a power failure
    can bring it back. *)
Definition holds_record (n : node) (p : list byte) (r : durableRecord) : Prop :=
  records (mgr n) !! p = Some r ∨
  ∃ f recs, f ∈ entry (disk n) :: older (disk n) ∧ content <$> f = Some recs ∧ recs !! p = Some r.
(** [n] brought to stable storage, for [p], the agreement of [r]. *)
Definition has_saved (n : node) (p : list byte) (r : durableRecord) : Prop :=
  ∃ recs r', recs ∈ saves n ∧ recs !! p = Some r' ∧ ID r' = ID r ∧
    sameFixed (rec_FixedEndpoints r') (rec_FixedEndpoints r) = true.

Lemma holds_record_ok A w u p r : world_ok A w → holds_record (nodes w u) p r →
  record_ok A (peer_saved A w u) (saves (nodes w u)) p r.
Proof.
  intros I [E|(f & recs & Hf & Ef & E)]; [by apply (w_nodes A w I u)|].
  destruct (w_disks A w I u f Hf) as [Hr _]. by apply (Hr recs).
Qed.
Lemma saved_in_has A n p r : conforms A r → saved_in A (saves n) p (ID r) → has_saved n p r.
Proof.
  unfold conforms. intros C (recs & r' & H1 & H2 & H3 & C'). exists recs, r'. split_and!; [done..|].
  apply sameFixed_terms. unfold conforms in C'. rewrite H3, C in C'. by injection C'.
Qed.

(** C29: two nodes agree. In every state that nodes reach from the start without
    agreements, files and messages: if a node holds an agreement with a peer, in
    memory or in any version of its file, the agreement names that peer; if it
    is confirmed, both the node and the peer have brought an agreement with the
    same identifier and the same endpoints to stable storage; and whatever two
    nodes hold under one identifier has the same endpoints. Messages may be
    lost, repeated and reordered, calls fail, sessions and processes end and
    disks lose unsynced changes. The step relation assumes that sessions are
    authenticated (a message handled on a session of a peer was sent by it to
    that node) and that no random identifier is drawn twice. *)
Theorem durable_agreement w u p r :
  reachable w → holds_record (nodes w u) p r →
  UUID (rec_Peer r) = p ∧
  (Confirmed r = true → has_saved (nodes w u) p r ∧ has_saved (nodes w p) u r) ∧
  ∀ v q r', holds_record (nodes w v) q r' → ID r' = ID r →
    sameFixed (rec_FixedEndpoints r') (rec_FixedEndpoints r) = true.
Proof.
  intros [A I]%reachable_ok H. destruct (holds_record_ok A w u p r I H) as (Hp & C & Hc).
  split; [done|]. split.
  - intros [H1 H2]%Hc. by split; apply (saved_in_has A).
  - intros v q r' (_ & C' & _)%(holds_record_ok A w v q r' I) E. apply sameFixed_terms.
    unfold conforms in C, C'. rewrite E, C in C'. by injection C'.
Qed.
End Network.

(** * A run *)

(** Two nodes; [uid_a] observes its endpoint for twenty seconds, proposes it on
    the Link and both save it.  The first save of [uid_b] fails and its process
    starts again, so that [uid_a] proposes a second time. *)
Definition uid_a : list byte := [x01].
Definition uid_b : list byte := [x02].
Definition cfg_of (u : list byte) : node_config :=
  mkNodeConfig (mkUID u "") (mkDurableSettings 8 (20 * 1000000000)) true true 1 (λ _, true) PortChoice_zero.
Definition link_plan : LinkPlan :=
  mkLinkPlan false PortChoice_zero false false "" "vv0" "owner" [] [x09] [] 7000 [] None Prefix_zero [].
Definition link_to (p : list byte) : materializedState :=
  mkMaterialized link_plan [] [] p true true true 0.
Definition ep_a : AddrPort := AddrPortFrom (Addr4 3221225985) 7000.
Definition ep_b : AddrPort := AddrPortFrom (Addr4 3221225986) 7000.
Definition moment (t : Z) (p : list byte) (id : option (list byte)) : env :=
  mkEnv (λ _, t * 1000000000) (λ _, {["vv0" := link_to p]}) (λ _, true) id (λ _, false) [true].
Definition session_with (k : nat) (p : list byte) : session := mkSession k (mkUID p "") AddrInvalid.
Definition observed_by (w : world) (u p : list byte) (t : Z) (own peer : AddrPort) : world :=
  after w u p (moment t p None) [] (observe (cfg_of u) (moment t p None) link_plan own (Addr6 1 "") (t * 1000000000) (Ok 7000) (Ok (Some peer))).
Definition received (w : world) (u p : list byte) (t : Z) (faults : list event) (m : Message) : world :=
  after w u p (moment t p None) faults (handleLink (cfg_of u) (moment t p None) link_plan (session_with 1 p) m).

Definition agreement : durableRecord :=
  mkRecord [x07] (mkUID uid_b "") AddrInvalid [x09] 7000 [mkFixedEndpoint (mkUID uid_a "") ep_a] false.
Definition proposal : Message :=
  set_Flags NoDurable (Message_of DurablePropose [x07] [mkFixedEndpoint (mkUID uid_a "") ep_a]).
Definition confirmation : Message := Message_of DurableSaved [x07] [].

Definition run_0 : world := mkWorld (λ _, mkNode manager_new (mkFs None [] None []) [] []) [] [].
Definition run_1 : world := observed_by run_0 uid_a uid_b 100 ep_a ep_b.
Definition run_2 : world := observed_by run_1 uid_a uid_b 121 ep_a ep_b.
Definition run_3 : world := observed_by run_2 uid_b uid_a 121 ep_b ep_a.
Definition run_4 : world := after run_3 uid_a uid_b (moment 121 uid_b (Some [x07])) []
  (tick_send (cfg_of uid_a) (moment 121 uid_b (Some [x07])) (link_to uid_b) (121 * 1000000000) (session_with 1 uid_b)).
Definition run_5 : world := after run_4 uid_a uid_b (moment 121 uid_b None) []
  (tick_operational (link_to uid_b) (mkOperation agreement None true false false (151 * 1000000000)) (session_with 1 uid_b)).
Definition run_6 : world := received run_5 uid_b uid_a 122 [Proceed; Fault ErrMalformed] proposal.
Definition run_7 : world := reopened cfg_of run_6 uid_b (moment 123 uid_a None) (mkFs None [] None []).
Definition run_8 : world := observed_by run_7 uid_b uid_a 124 ep_b ep_a.
Definition run_9 : world := received run_8 uid_b uid_a 125 [] proposal.
Definition run_10 : world := received run_9 uid_a uid_b 126 [] confirmation.
Definition run_11 : world := received run_10 uid_b uid_a 127 [] confirmation.

Example run_6_nothing : records (mgr (nodes run_6 uid_b)) !! uid_a = None. Proof. by vm_compute. Qed.
Example run_9_waits : Confirmed <$> records (mgr (nodes run_9 uid_b)) !! uid_a = Some false. Proof. by vm_compute. Qed.
Example run_11_agrees : Confirmed <$> records (mgr (nodes run_11 uid_b)) !! uid_a = Some true. Proof. by vm_compute. Qed.

Lemma reach_observed w u p t own peer : reachable cfg_of w → reachable cfg_of (observed_by w u p t own peer).
Proof. intros H. apply (reach_step _ w); [done|]. eapply step_call; [apply call_observe|done]. Qed.
Lemma reach_received w u p t faults m i :
  reachable cfg_of w → net w !! i = Some (p, u, m) → reachable cfg_of (received w u p t faults m).
Proof.
  intros H Hm. apply (reach_step _ w); [done|]. eapply step_call; [|done].
  apply call_message; [by eapply list_elem_of_lookup_2|done].
Qed.

Lemma run_5_reachable : reachable cfg_of run_5.
Proof.
  apply (reach_step _ run_4); [|eapply step_call; [apply call_operational|done]].
  apply (reach_step _ run_3); [|eapply step_call; [apply call_tick|]].
  - do 3 apply reach_observed. by apply reach_init.
  - intros id _. vm_compute. apply not_elem_of_nil.
Qed.
Lemma run_11_reachable : reachable cfg_of run_11.
Proof.
  apply (reach_received _ _ _ _ _ _ 2); [|by vm_compute]. apply (reach_received _ _ _ _ _ _ 1); [|by vm_compute].
  apply (reach_received _ _ _ _ _ _ 0); [|by vm_compute]. apply reach_observed.
  apply (reach_step _ run_6); [|apply step_loss].
  - apply (reach_received _ _ _ _ _ _ 0); [|by vm_compute]. apply run_5_reachable.
  - assert (E : entry (disk (nodes run_6 uid_b)) = None) by by vm_compute. apply loss_none. rewrite E. by left.
Qed.

Lemma durable_agreement_witness :
  reachable cfg_of run_11 ∧ holds_record (nodes run_11 uid_a) uid_b (set_confirmed true agreement) ∧
  has_saved (nodes run_11 uid_b) uid_a (set_confirmed true agreement).
Proof.
  assert (H : holds_record (nodes run_11 uid_a) uid_b (set_confirmed true agreement)) by (left; by vm_compute).
  split; [exact run_11_reachable|]. split; [exact H|].
  destruct (durable_agreement cfg_of run_11 uid_a uid_b (set_confirmed true agreement) run_11_reachable H) as (_ & B & _).
  exact (proj2 (B eq_refl)).
Defined.
