(* ===== verification/GiveUp.v ===== *)
(** When a node gives a durable agreement up (runtime/durable_recovery.go): what
    the checks of [restoreAndCheck] and the answers of the peer amount to. *)

From S2P Require Import Prelude Netip Ports Desired AtomicFile PolicyRevision Recovery Field MessageData Durable DurableProps.
From stdpp Require Import gmap strings.
Open Scope Z_scope.
Open Scope velvet_scope.

(** * Histories *)

(** What the node saw, newest first: a check, at which its own resources were
    [up] and a direct Link was [connected] or not, or an answer of the peer that
    it accepted. *)
Inductive sight := Round (now : Time) (up connected : bool) | Said (st : Status) (now : Time).
Definition seen_at (x : sight) : Time := match x with Round now _ _ => now | Said _ now => now end.

(** Until when the last answer lets the peer count as ready. *)
Fixpoint ready_until (h : list sight) : Time :=
  match h with
  | [] => 0
  | Said st now :: h =>
    if st =? Ready then now + durableReadyFreshness else if st =? NotReady then 0 else ready_until h
  | Round _ _ _ :: h => ready_until h
  end.
(** There was a check at [t], and at all checks from then on both nodes were
    ready and without a direct Link; the peer never said otherwise. *)
Fixpoint down_since (t : Time) (h : list sight) : Prop :=
  match h with
  | [] => False
  | Said st _ :: h => st ≠ NotReady ∧ down_since t h
  | Round now up connected :: h =>
    up = true ∧ connected = false ∧ now < ready_until h ∧ (now = t ∨ down_since t h)
  end.

Section Agreement.
Context (cfg : node_config) (record : durableRecord).
Notation peer := (UUID (rec_Peer record)).

(** The agreement is the one the node holds. *)
Definition current (n : node) : Prop := ∃ r, records (mgr n) !! peer = Some r ∧ ID r = ID record.
Definition check_round (e : env) (now : Time) (up connected : bool) (q : option (list byte)) : D (option (list byte)) :=
  check_begin record now;; check_record cfg e record now up connected q.
Definition accepted (n : node) (q : list byte) (m : Message) : Prop :=
  Type_ m = DurableStatus ∧ OperationID m = q ∧ AgreementID m = ID record ∧
  ∃ c, checks (mgr n) !! peer = Some c ∧ query c = q.

(** The node's state and what it saw of this agreement; other calls may come in
    between, as long as they leave the check alone. *)
Inductive checked : list sight → node → Prop :=
| checked_start n : checks (mgr n) !! peer = None → checked [] n
| checked_other h n n' : checked h n → checks (mgr n') !! peer = checks (mgr n) !! peer → checked h n'
| checked_round h n e now up connected q :
    checked h n → current n → 0 < now → Forall (λ x, seen_at x <= now) h →
    has (mgr (check_round e now up connected q n).2) peer = true →
    checked (Round now up connected :: h) (check_round e now up connected q n).2
| checked_said h n e q m now connected :
    checked h n → current n → accepted n q m → Msg_Status m ≠ Absent → Forall (λ x, seen_at x <= now) h →
    checked (Said (Msg_Status m) now :: h) (acceptStatus cfg e record q m now false connected n).2.

(** * The check state *)

Definition check_of (n : node) : durableCheckState :=
  default (mkCheck (zeros 16) (ID record) 0 0 0 0 false) (checks (mgr n) !! peer).

Record check_ok (h : list sight) (n : node) : Prop := {
  c_ready : readyUntil (check_of n) = ready_until h;
  c_since : failedSince (check_of n) ≠ 0 → down_since (failedSince (check_of n)) h;
  c_least : ∀ t, down_since t h → failedSince (check_of n) ≠ 0 ∧ failedSince (check_of n) <= t
}.

Lemma down_since_seen t h : down_since t h → ∃ x, x ∈ h ∧ seen_at x = t.
Proof.
  induction h as [|[now up connected|st now] h IH]; cbn; [done| |].
  - intros (_ & _ & _ & [<-|H]); [eexists; split; [by left|done]|].
    destruct (IH H) as (x & ? & ?). exists x. split; [by right|done].
  - intros [_ H]. destruct (IH H) as (x & ? & ?). exists x. split; [by right|done].
Qed.

Lemma Sub_failure now t : durableFailureTimeout <= Sub now t ↔ durableFailureTimeout <= now - t.
Proof. unfold Sub, durableFailureTimeout, MinDuration, MaxDuration. lia. Qed.

(** One evaluation of [failed] on a good state. *)
Lemma check_failed_ok h n now up connected :
  check_ok h n → 0 < now → Forall (λ x, seen_at x <= now) h →
  let '(failed, c) := check_failed now up connected (check_of n) in
  readyUntil c = ready_until h ∧
  (failedSince c ≠ 0 → down_since (failedSince c) (Round now up connected :: h)) ∧
  (∀ t, down_since t (Round now up connected :: h) → failedSince c ≠ 0 ∧ failedSince c <= t) ∧
  (failed = true ↔ failedSince c ≠ 0 ∧ durableFailureTimeout <= now - failedSince c).
Proof.
  intros [R S L] N F. unfold check_failed.
  destruct (connected || negb up || negb (now <? readyUntil (check_of n))) eqn:G; cbn.
  - split; [done|]. split; [done|]. split; [|by split; [|intros []]].
    intros t (-> & -> & H & _). rewrite <- R in H. apply Z.ltb_lt in H. by rewrite H in G.
  - rewrite !orb_false_iff, !negb_false_iff in G. destruct G as [[-> ->] G]. apply Z.ltb_lt in G. rewrite R in G.
    rewrite Z.leb_le, Sub_failure. split; [done|]. unfold IsZero.
    destruct (failedSince (check_of n) =? 0) eqn:Z; [apply Z.eqb_eq in Z|apply Z.eqb_neq in Z].
    + split; [intros _; by split_and!; [..|left]|]. split; [|split; [intros ?; split; [lia|done]|by intros []]].
      intros t (_ & _ & _ & [<-|H]); [lia|]. by destruct (L t H).
    + split; [intros _; split_and!; [done..|right; auto]|]. split; [|split; [done|by intros []]].
      intros t (_ & _ & _ & [<-|H]); [|auto]. destruct (down_since_seen _ _ (S Z)) as (x & Hx & E).
      split; [done|]. rewrite <- E. by apply (proj1 (Forall_forall _ _) F).
Qed.

(** * The calls *)

Lemma deleteLocked_cases e n :
  has (mgr n) peer = true →
  ((deleteLocked cfg e peer n).1 = Ok tt ∧ records (mgr (deleteLocked cfg e peer n).2) !! peer = None) ∨
  ((∀ a, (deleteLocked cfg e peer n).1 ≠ Ok a) ∧ mgr (deleteLocked cfg e peer n).2 = mgr n).
Proof.
  intros H. unfold deleteLocked. rewrite DurableProps.get_bind, H. cbn -[saveDurable].
  unfold mbind, D_bind, saveDurable. destruct ((makePolicyDirectory (dirs e);; replace _) (disk n)) as [[|err|] s]; cbn.
  - left. split; [done|]. by rewrite lookup_delete_eq.
  - by right.
  - by right.
Qed.

Definition with_check (c : durableCheckState) (n : node) : node :=
  mkNode (set_checks (<[peer := c]> (checks (mgr n))) (mgr n)) (disk n) (out n) (saves n).
Lemma put_check_bind {B : Type} c (k : unit → D B) n : (put_check peer c ≫= k) n = k tt (with_check c n).
Proof. done. Qed.
Lemma check_of_with c n : check_of (with_check c n) = c.
Proof. unfold check_of. cbn. by rewrite lookup_insert_eq. Qed.

(** The fields that [failed] reads and writes. *)
Definition same_check (a b : durableCheckState) : Prop := readyUntil a = readyUntil b ∧ failedSince a = failedSince b.
Lemma check_failed_same a b now up connected : same_check a b →
  (check_failed now up connected a).1 = (check_failed now up connected b).1 ∧
  same_check (check_failed now up connected a).2 (check_failed now up connected b).2.
Proof. intros [R F]. unfold check_failed. rewrite R, F. by destruct (_ || _). Qed.

(** A check of the held agreement leaves the state that [failed] computes; it
    removes the record exactly when [failed] says so and the removal is saved. *)
Lemma check_round_cases e now up connected q n :
  current n →
  let run := check_round e now up connected q n in
  let '(failed, c) := check_failed now up connected (check_of n) in
  if failed then
    (run.1 = Ok None ∧ records (mgr run.2) !! peer = None) ∨
    ((∀ a, run.1 ≠ Ok a) ∧ current run.2 ∧ same_check (check_of run.2) c)
  else current run.2 ∧ same_check (check_of run.2) c.
Proof.
  intros (r & E & Ei). cbv zeta.
  set (c1 := if negb (now <? restoreAfter (check_of n)) then mkCheck (query (check_of n)) (chk_agreement (check_of n))
    (next_ (check_of n)) (readyUntil (check_of n)) (failedSince (check_of n)) (now + 10 * 1000000000)
    (chk_busy (check_of n)) else check_of n).
  change (check_round e now up connected q n) with (check_record cfg e record now up connected q (with_check c1 n)).
  assert (S1 : same_check c1 (check_of n)) by (unfold c1; by destruct (negb _)).
  destruct (check_failed_same _ _ now up connected S1) as [Ef Ec].
  unfold check_record. rewrite get_bind. cbv zeta. cbn [mgr with_check records set_checks checks].
  rewrite E, lookup_insert_eq. rewrite (bool_decide_eq_true_2 (ID r = ID record)) by done. cbn [negb].
  destruct (check_failed now up connected (check_of n)) as [failed c].
  destruct (check_failed now up connected c1) as [failed' c']. cbn in Ef, Ec. subst failed'.
  rewrite put_check_bind. set (n1 := with_check c' (with_check c1 n)).
  assert (C1 : current n1) by (by exists r). assert (K1 : same_check (check_of n1) c) by (unfold n1; by rewrite check_of_with).
  destruct failed.
  - assert (H1 : has (mgr n1) peer = true) by (apply bool_decide_eq_true; cbn; by rewrite E).
    unfold mbind, D_bind. destruct (deleteLocked_cases e n1 H1) as [[R D]|[R D]];
      destruct (deleteLocked cfg e peer n1) as [[a|err|] n2]; cbn in *.
    + by left.
    + done.
    + done.
    + by destruct (R a).
    + right. split; [done|]. unfold current, check_of. by rewrite D.
    + right. split; [done|]. unfold current, check_of. by rewrite D.
  - destruct (_ || _); [done|]. destruct q; [|done]. rewrite put_check_bind. cbn [snd mret D_ret].
    split; [by exists r|]. by rewrite check_of_with.
Qed.

(** An accepted answer. *)
Lemma acceptStatus_cases e n q m now connected :
  current n → accepted n q m → Msg_Status m ≠ Absent →
  let c := check_of n in
  let c' := check_of (acceptStatus cfg e record q m now false connected n).2 in
  readyUntil c' = (if Msg_Status m =? Ready then now + durableReadyFreshness
                   else if Msg_Status m =? NotReady then 0 else readyUntil c) ∧
  failedSince c' = if Msg_Status m =? NotReady then 0 else failedSince c.
Proof.
  intros (r & E & Ei) (Et & Eo & Ea & c & Ec & Eq) St. cbv zeta. unfold acceptStatus.
  rewrite Et, (bool_decide_eq_true_2 (OperationID m = q)), (bool_decide_eq_true_2 (AgreementID m = ID record)) by done.
  change (is_type DurableStatus DurableStatus) with true. cbn [negb orb]. rewrite get_bind. cbv zeta. rewrite E, Ec.
  rewrite (bool_decide_eq_true_2 (ID r = ID record)), (bool_decide_eq_true_2 (query c = q)) by done. cbn [negb orb].
  assert (K : check_of n = c) by (unfold check_of; by rewrite Ec). rewrite K.
  apply Z.eqb_neq in St.
  destruct (Msg_Status m =? Ready) eqn:R; [apply Z.eqb_eq in R; rewrite R|].
  { rewrite put_check_bind. cbn [snd throw]. by rewrite check_of_with. }
  destruct (Msg_Status m =? NotReady) eqn:N.
  { rewrite put_check_bind. cbn [snd throw]. by rewrite check_of_with. }
  rewrite St. exact (conj (f_equal readyUntil K) (f_equal failedSince K)).
Qed.

(** * The invariant and the theorem *)

Lemma checked_ok h n : checked h n → check_ok h n.
Proof.
  induction 1 as [n E|h n n' _ [R S L] E|h n e now up connected q _ I C N F H|h n e q m now connected _ I C Ac St F].
  - unfold check_of. split; unfold check_of; rewrite E; cbn; [done|done|by intros].
  - split; unfold check_of in *; rewrite E; auto.
  - pose proof (check_failed_ok h n now up connected I N F) as K.
    pose proof (check_round_cases e now up connected q n C) as Q. cbv zeta in Q.
    destruct (check_failed now up connected (check_of n)) as [failed c]. destruct K as (K1 & K2 & K3 & _).
    assert (S : same_check (check_of (check_round e now up connected q n).2) c).
    { destruct failed; [|by destruct Q]. destruct Q as [[_ D]|(_ & _ & S)]; [|done].
      apply bool_decide_eq_true in H. rewrite D in H. by destruct H. }
    destruct S as [S1 S2]. by split; rewrite ?S1, ?S2.
  - destruct (acceptStatus_cases e n q m now connected C Ac St) as [A1 A2]. destruct I as [R S L].
    split.
    + rewrite A1, R. done.
    + rewrite A2. destruct (Msg_Status m =? NotReady) eqn:E; [done|]. apply Z.eqb_neq in E. cbn. auto.
    + intros t [Hs Ht]. apply Z.eqb_neq in Hs. rewrite A2, Hs. auto.
Qed.

(** A check gives an agreement up exactly when, for thirty minutes, every
    check found both nodes ready and no direct Link between them: it removes
    the record only then, and then it removes it, unless the removal cannot be
    saved. *)
Theorem durable_given_up h n e now up connected q :
  checked h n → current n → 0 < now → Forall (λ x, seen_at x <= now) h →
  let run := check_round e now up connected q n in
  let failing := ∃ t, durableFailureTimeout <= now - t ∧ down_since t (Round now up connected :: h) in
  (records (mgr run.2) !! peer = None → failing) ∧
  (failing → ∀ a, run.1 = Ok a → records (mgr run.2) !! peer = None) ∧
  (¬ failing → current run.2).
Proof.
  intros I C N F. cbv zeta. apply checked_ok in I. pose proof (check_failed_ok h n now up connected I N F) as K.
  pose proof (check_round_cases e now up connected q n C) as Q. cbv zeta in Q.
  destruct (check_failed now up connected (check_of n)) as [failed c]. destruct K as (_ & K2 & K3 & K4).
  assert (Fail : failed = true ↔ ∃ t, durableFailureTimeout <= now - t ∧ down_since t (Round now up connected :: h)).
  { split.
    - intros [H1 H2]%K4. exists (failedSince c). auto.
    - intros (t & H1 & H2). destruct (K3 t H2). apply K4. split; [done|lia]. }
  rewrite <- Fail. destruct failed.
  - split; [done|]. split; [|done]. intros _ a Ea. destruct Q as [[_ D]|(R & _)]; [done|]. by destruct (R a).
  - destruct Q as [(r & E & Ei) _]. split; [by rewrite E|]. split; [done|]. intros _. by exists r.
Qed.
End Agreement.

(** The agreement of a node whose peer answers ready for half an hour while no
    Link between them comes up. *)
Definition kept_cfg : node_config :=
  mkNodeConfig (mkUID [x01] "") (mkDurableSettings 8 (600 * 1000000000)) true true 1 (λ _, true) PortChoice_zero.
Definition kept : durableRecord :=
  mkRecord [x07] (mkUID [x02] "") AddrInvalid [x09] 7000
    [mkFixedEndpoint (mkUID [x01] "") (AddrPortFrom (Addr4 3221225985) 7000)] true.
Definition kept_env : env := mkEnv (λ _, 1) (λ _, ∅) (λ _, true) None (λ _, false) [true].
Definition answer : Message :=
  set_AgreementID [x07] (set_Status Ready (Message_of DurableStatus [x05] [])).
Definition sec : Z := 1000000000.
Definition kept_0 : node :=
  mkNode (mkManager ∅ false {[ [x02] := kept ]} ∅ ∅ ∅) (mkFs None [] None []) [] [].
Notation round_at t n := (check_round kept_cfg kept kept_env (t * sec) true false (Some [x05]) n).2.
Notation answer_at t n := (acceptStatus kept_cfg kept_env kept [x05] answer (t * sec) false false n).2.
Definition kept_1 : node := round_at 90 kept_0.
Definition kept_2 : node := answer_at 100 kept_1.
Definition kept_3 : node := round_at 101 kept_2.
Definition kept_4 : node := answer_at 1900 kept_3.
Definition kept_history : list sight :=
  [Said Ready (1900 * sec); Round (101 * sec) true false; Said Ready (100 * sec); Round (90 * sec) true false].

Example kept_until : records (mgr (round_at 1900 kept_4)) !! [x02] = Some kept. Proof. by vm_compute. Qed.

Lemma kept_checked : checked kept_cfg kept kept_history kept_4.
Proof.
  apply (checked_said kept_cfg kept (tail kept_history) kept_3 kept_env [x05] answer);
    [|by exists kept; vm_compute| |done|by repeat constructor].
  2: { split_and!; [done..|]. eexists. split; [by vm_compute|done]. }
  apply (checked_round kept_cfg kept (tail (tail kept_history)) kept_2);
    [|by exists kept; vm_compute|done|by repeat constructor|by vm_compute].
  apply (checked_said kept_cfg kept (tail (tail (tail kept_history))) kept_1 kept_env [x05] answer);
    [|by exists kept; vm_compute| |done|by repeat constructor].
  2: { split_and!; [done..|]. eexists. split; [by vm_compute|done]. }
  apply (checked_round kept_cfg kept [] kept_0);
    [by apply checked_start|by exists kept; vm_compute|done|constructor|by vm_compute].
Qed.

Lemma durable_given_up_witness : records (mgr (round_at 1901 kept_4)) !! [x02] = None.
Proof.
  assert (C : current kept kept_4) by (by exists kept; vm_compute).
  assert (F : Forall (λ x, seen_at x <= 1901 * sec) kept_history) by (repeat constructor; by vm_compute).
  destruct (durable_given_up kept_cfg kept kept_history kept_4 kept_env (1901 * sec) true false (Some [x05])
    kept_checked C eq_refl F) as (_ & G & _).
  assert (D : ∃ t, durableFailureTimeout <= 1901 * sec - t ∧ down_since t (Round (1901 * sec) true false :: kept_history)).
  { exists (101 * sec). split; [done|]. cbn. split_and!; try done; [right; split_and!; try done; by left]. }
  apply (G D None). by vm_compute.
Defined.
