(* ===== verification/Interfaces.v ===== *)
(** internal/linux/dynamic.go and the part of network.go it uses: how the
    WireGuard interface of an automatic Link is created, configured and removed.
    An interface carries the alias of the Link generation that owns it.

    A procedure runs on the WireGuard interfaces of the network namespace; an
    interface of another type, which none of them accepts, counts as one with
    an empty alias.  Every call of
    the kernel can fail without effect; [faults] decides, one entry a call.
    All procedures hold the backend's [kernelMu]. *)

From S2P Require Import Prelude Netip Ports Desired.
From stdpp Require Import gmap strings.
Open Scope Z_scope.
Open Scope velvet_scope.

Record kernel := mkKernel { ifaces : gmap string string; faults : list bool }.

Definition K (A : Type) : Type := kernel → result A * kernel.
#[global] Instance K_ret : MRet K := λ A a k, (Ok a, k).
#[global] Instance K_bind : MBind K := λ A B f m k,
  match m k with
  | (Ok a, k) => f a k
  | (Err e, k) => (Err e, k)
  | (Panic, k) => (Panic, k)
  end.
Definition kfail {A} (text : string) : K A := λ k, (Err (errors_New text), k).

(** One call of the kernel. *)
Definition kcall {A} (act : gmap string string → A * gmap string string) : K A := λ k,
  match faults k with
  | true :: fs => (Err (errors_New "kernel"), mkKernel (ifaces k) fs)
  | _ :: fs => let '(a, i) := act (ifaces k) in (Ok a, mkKernel i fs)
  | [] => let '(a, i) := act (ifaces k) in (Ok a, mkKernel i [])
  end.
(** A call that leaves the interfaces and their aliases alone. *)
Definition ktouch : K unit := kcall (λ i, (tt, i)).

Definition LinkByName (name : string) : K (option string) := kcall (λ i, (i !! name, i)).
Definition LinkAdd (name : string) : K unit := kcall (λ i, (tt, <[name := ""%string]> i)).
Definition LinkSetAlias (name owner : string) : K unit := kcall (λ i, (tt, <[name := owner]> i)).
Definition LinkDel (name : string) : K unit := kcall (λ i, (tt, delete name i)).

(** The interface exists already, or is created without an alias. *)
Definition ensureLink (name : string) : K (string * bool) :=
  found ← LinkByName name;
  match found with
  | Some alias => mret (alias, false)
  | None =>
    LinkAdd name;;
    again ← LinkByName name;
    match again with
    | Some alias => mret (alias, true)
    | None => kfail "not found"
    end
  end.
Definition setLinkAlias (name alias owner : string) : K unit :=
  if bool_decide (alias = owner) then mret tt
  else
    LinkSetAlias name owner;;
    again ← LinkByName name;
    match again with Some _ => mret tt | None => kfail "not found" end.

(** [if err := m; err != nil { handler; return err }]; the error of the handler
    is ignored. *)
Definition on_error {A} (m : K A) (handler : K unit) : K A := λ k,
  match m k with
  | (Ok a, k) => (Ok a, k)
  | (r, k) => (r, (handler k).2)
  end.

Definition ensureExactlyOwnedWireGuardInterface (name owner : string) : K unit :=
  x ← ensureLink name;
  let '(alias, created) := x in
  if negb created && negb (bool_decide (alias = owner)) then kfail "interface is not owned by dynamic Link"
  else if created then on_error (setLinkAlias name alias owner) (LinkDel name)
  else mret tt.

(** [None]: the lookup says that there is no such interface. *)
Definition requireExactlyOwnedWireGuardInterface (name owner : string) : K (option unit) :=
  found ← LinkByName name;
  match found with
  | None => mret None
  | Some alias => if bool_decide (alias = owner) then mret (Some tt) else kfail "interface is not owned by dynamic Link"
  end.

Definition deleteDynamicInterface (plan : LinkPlan) : K unit :=
  device ← requireExactlyOwnedWireGuardInterface (InterfaceName plan) (OwnerAlias plan);
  match device with
  | None => mret tt
  | Some _ => LinkDel (InterfaceName plan)
  end.

(** The check of the context is a call that can fail. *)
Definition RemoveDynamic (plan : LinkPlan) : K unit := ktouch;; deleteDynamicInterface plan.

Definition set_port_plan (port : Z) (p : LinkPlan) : LinkPlan :=
  mkLinkPlan (WaitingPort p) (lk_Ports p) (Probing p) (ReceiveOnly p) (lk_PeerName p) (InterfaceName p) (OwnerAlias p)
    (lk_PrivateKey p) (PeerPublicKey p) (PresharedKey p) port (lk_Endpoints p) (Keepalive p) (BootstrapAddress p) (LinkOverrides p).

(** [configured] is the listen port that the device reports. *)
Definition PrepareDynamic (configured : Z) (desired : LinkPlan) : K LinkPlan :=
  ktouch;;
  ensureExactlyOwnedWireGuardInterface (InterfaceName desired) (OwnerAlias desired);;
  on_error
    (ktouch;;                                   (* the bootstrap address *)
     if Probing desired then ktouch;; mret desired
     else
       ktouch;; ktouch;; ktouch;; ktouch;;      (* up, client, configure, read *)
       if negb (ListenPort desired =? 0) && negb (configured =? ListenPort desired) then
         kfail "WireGuard did not retain the reserved listen port"
       else if (configured <? 1) || (65535 <? configured) then
         kfail "kernel did not allocate a dynamic WireGuard listen port"
       else mret (set_port_plan configured desired))
    (deleteDynamicInterface desired).

Definition ownerPrefix : string := "velvet:".
Definition ensureOwnedWireGuardInterface (name owner : string) : K string :=
  x ← ensureLink name;
  let '(alias, created) := x in
  if negb created && negb (Stdlib.Strings.String.prefix ownerPrefix alias) then kfail "interface exists but is not owned"
  else setLinkAlias name alias owner;; mret owner.

(** wireguard.go.  [change] is whether [endpointChoice] chooses an endpoint. *)
Definition applyBootstrapLink (change : bool) (desired : LinkPlan) : K unit :=
  ensureOwnedWireGuardInterface (InterfaceName desired) (OwnerAlias desired);;
  ktouch;;                                      (* the bootstrap address *)
  if WaitingPort desired then ktouch
  else
    ktouch;; ktouch;;                           (* up, read *)
    (if change then ktouch else mret tt);;
    ktouch.

(** The owner is checked before anything is configured.  [actual] is the listen
    port that the device reports. *)
Definition ConfigureDynamic (actual : Z) (change : bool) (desired : LinkPlan) : K unit :=
  ktouch;;
  device ← requireExactlyOwnedWireGuardInterface (InterfaceName desired) (OwnerAlias desired);
  match device with
  | None => kfail "not found"
  | Some _ =>
    ktouch;;                                    (* the client *)
    if ReceiveOnly desired then
      device ← requireExactlyOwnedWireGuardInterface (InterfaceName desired) (OwnerAlias desired);
      match device with
      | None => kfail "not found"
      | Some _ =>
        ktouch;;                                (* down *)
        if negb (len (lk_Endpoints desired) =? 1) then kfail "handoff requires one endpoint"
        else
          ktouch;; ktouch;; ktouch;; ktouch;;   (* resolve, configure, up, read *)
          if negb (actual =? ListenPort desired) then kfail "handoff listen port changed" else mret tt
      end
    else applyBootstrapLink change desired
  end.

(** * What the procedures do to the interfaces *)

(** [kspec P m Q E]: from interfaces of [P], [m] ends with a value and
    interfaces of [Q], or with an error and interfaces of [E]. *)
Definition kspec {A} (P : gmap string string → Prop) (m : K A) (Q : A → gmap string string → Prop)
    (E : gmap string string → Prop) : Prop :=
  ∀ k, P (ifaces k) → match m k with (Ok a, k') => Q a (ifaces k') | (_, k') => E (ifaces k') end.

Section Rules.
Context {A B : Type}.
Implicit Types (P E : gmap string string → Prop) (i : gmap string string).
Lemma kspec_ret P (a : A) (Q : A → gmap string string → Prop) E : (∀ i, P i → Q a i) → kspec P (mret a) Q E.
Proof. intros H k. apply H. Qed.
Lemma kspec_fail P t (Q : A → gmap string string → Prop) E : (∀ i, P i → E i) → kspec P (kfail t) Q E.
Proof. intros H k. apply H. Qed.
Lemma kspec_bind P (m : K A) Q (f : A → K B) R E :
  kspec P m Q E → (∀ a, kspec (Q a) (f a) R E) → kspec P (m ≫= f) R E.
Proof.
  intros Hm Hf k Hk. unfold mbind, K_bind. specialize (Hm k Hk). destruct (m k) as [[a|e|] k']; [|done..].
  by apply Hf.
Qed.
Lemma kspec_call P (act : gmap string string → A * gmap string string) (Q : A → gmap string string → Prop) E :
  (∀ i, P i → E i) → (∀ i, P i → Q (act i).1 (act i).2) → kspec P (kcall act) Q E.
Proof.
  intros He Ha k Hk. unfold kcall. specialize (Ha _ Hk). specialize (He _ Hk).
  destruct (faults k) as [|[] fs]; [|done|]; by destruct (act (ifaces k)).
Qed.
Lemma kspec_on_error P (m : K A) (h : K unit) Q E E' :
  kspec P m Q E' → kspec E' h (λ _, E) E → kspec P (on_error m h) Q E.
Proof.
  intros Hm Hh k Hk. unfold on_error. specialize (Hm k Hk). destruct (m k) as [[a|e|] k']; [done|..];
    specialize (Hh k' Hm); by destruct (h k') as [[[]|e'|] k''].
Qed.
Lemma kspec_weaken (P P' : gmap string string → Prop) (m : K A) (Q Q' : A → gmap string string → Prop) E E' :
  kspec P' m Q' E' → (∀ i, P i → P' i) → (∀ a i, Q' a i → Q a i) → (∀ i, E' i → E i) → kspec P m Q E.
Proof.
  intros H H1 H2 H3 k Hk. specialize (H k (H1 _ Hk)). destruct (m k) as [[a|e|] k']; auto.
Qed.
End Rules.
Lemma kspec_touch (P E : gmap string string → Prop) : (∀ i, P i → E i) → kspec P ktouch (λ _, P) E.
Proof. intros H. by apply kspec_call. Qed.
Lemma kspec_run {A} P (m : K A) Q E k : kspec P m Q E → P (ifaces k) →
  (∃ a, (m k).1 = Ok a ∧ Q a (ifaces (m k).2)) ∨ ((∀ a, (m k).1 ≠ Ok a) ∧ E (ifaces (m k).2)).
Proof. intros H Hk. specialize (H k Hk). destruct (m k) as [[a|e|] k']; eauto. Qed.

(** The interfaces of [i0] except that of [plan], which was touched only if it
    did not belong to another generation. *)
Record touched (plan : LinkPlan) (i0 i : gmap string string) : Prop := {
  t_others : ∀ name, name ≠ InterfaceName plan → i !! name = i0 !! name;
  t_foreign : ∀ a, i0 !! InterfaceName plan = Some a → a ≠ OwnerAlias plan → i !! InterfaceName plan = Some a;
  t_owner : ∀ a, i !! InterfaceName plan = Some a → i0 !! InterfaceName plan = Some a ∨ a = ""%string ∨ a = OwnerAlias plan
}.
Lemma touched_same plan i : touched plan i i.
Proof. split; auto. Qed.
(** The interface of [plan] is free or its own. *)
Definition available (plan : LinkPlan) (i : gmap string string) : Prop :=
  i !! InterfaceName plan = None ∨ i !! InterfaceName plan = Some (OwnerAlias plan).
Lemma touched_insert plan i0 a : available plan i0 → a = ""%string ∨ a = OwnerAlias plan →
  touched plan i0 (<[InterfaceName plan := a]> i0).
Proof.
  intros F Ha. split.
  - intros name N. by rewrite lookup_insert_ne.
  - intros b E N. destruct F as [F|F]; rewrite F in E; [done|]. by injection E as <-.
  - intros b. rewrite lookup_insert_eq. intros [= <-]. by right.
Qed.
Lemma touched_delete plan i0 : available plan i0 → touched plan i0 (delete (InterfaceName plan) i0).
Proof.
  intros F. split.
  - intros name N. by rewrite lookup_delete_ne.
  - intros b E N. destruct F as [F|F]; rewrite F in E; [done|]. by injection E as <-.
  - intros b. by rewrite lookup_delete_eq.
Qed.

Section Plan.
Context (plan : LinkPlan).
Notation name := (InterfaceName plan).
Notation owner := (OwnerAlias plan).

Lemma deleteDynamicInterface_spec i0 :
  kspec (λ i, i = i0) (deleteDynamicInterface plan)
    (λ _ i, available plan i0 ∧ i = delete name i0) (λ i, i = i0).
Proof.
  apply (kspec_bind _ _ (λ d i, i = i0 ∧ available plan i0 ∧ (d = None → i0 !! name = None))).
  - apply (kspec_bind _ _ (λ found i, i = i0 ∧ found = i0 !! name)); [apply kspec_call; [done|by intros i ->]|].
    intros [alias|]; [case_bool_decide as E|].
    + apply kspec_ret. intros i [-> Ef]. split_and!; [done| |done]. right. by rewrite <- Ef, E.
    + apply kspec_fail. by intros i [-> _].
    + apply kspec_ret. intros i [-> Ef]. split_and!; [done|by left|done].
  - intros [[]|].
    + apply kspec_call; [by intros i [-> _]|]. by intros i (-> & F & _).
    + apply kspec_ret. intros i (-> & F & N). split; [done|]. by rewrite delete_id by auto.
Qed.

(** A removal that succeeds leaves no interface of the plan; it never removes
    that of another generation. *)
Lemma RemoveDynamic_spec i0 :
  kspec (λ i, i = i0) (RemoveDynamic plan) (λ _ i, available plan i0 ∧ i = delete name i0) (λ i, i = i0).
Proof.
  apply (kspec_bind _ _ (λ _ i, i = i0)); [by apply kspec_touch|]. intros _. apply deleteDynamicInterface_spec.
Qed.

Lemma ensureExactlyOwned_spec i0 :
  kspec (λ i, i = i0) (ensureExactlyOwnedWireGuardInterface name owner)
    (λ _ i, available plan i0 ∧ i = <[name := owner]> i0) (touched plan i0).
Proof.
  apply (kspec_bind _ _ (λ x i, (x.2 = false ∧ i = i0 ∧ i0 !! name = Some x.1) ∨
    (x = (""%string, true) ∧ i0 !! name = None ∧ i = <[name := ""%string]> i0))).
  - apply (kspec_bind _ _ (λ found i, i = i0 ∧ found = i0 !! name));
      [apply kspec_call; [intros i ->; apply touched_same|by intros i ->]|].
    intros [alias|].
    + apply kspec_ret. intros i [-> E]. by left.
    + apply (kspec_bind _ _ (λ _ i, i0 !! name = None ∧ i = <[name := ""%string]> i0)).
      { apply kspec_call; [intros i [-> _]; apply touched_same|]. by intros i [-> E]. }
      intros _. apply (kspec_bind _ _ (λ found i, (i0 !! name = None ∧ i = <[name := ""%string]> i0) ∧ found = Some ""%string)).
      { apply kspec_call; [|intros i [E ->]; split; [done|apply lookup_insert_eq]].
        intros i [E ->]. apply touched_insert; by left. }
      intros [alias|]; [|apply kspec_fail; by intros i [_ ?]].
      apply kspec_ret. intros i [[E ->] [= ->]]. by right.
  - intros [alias created]. destruct created; cbn [negb andb].
    + apply (kspec_on_error _ _ _ _ _ (λ i, available plan i0 ∧ (i = <[name := ""%string]> i0 ∨ i = <[name := owner]> i0))).
      * unfold setLinkAlias. case_bool_decide as Ea.
        { apply kspec_ret. intros i [(? & _)|([= En] & E & ->)]; [done|]. split; [by left|]. by rewrite <- Ea, En. }
        apply (kspec_bind _ _ (λ _ i, i0 !! name = None ∧ i = <[name := owner]> i0)).
        { apply kspec_call; intros i [(? & _)|(_ & E & ->)]; try done.
          - split; [by left|by left].
          - split; [done|]. cbn. by rewrite insert_insert_eq. }
        intros _. apply (kspec_bind _ _ (λ found i, (i0 !! name = None ∧ i = <[name := owner]> i0) ∧ found = Some owner)).
        { apply kspec_call; intros i [E ->]; [split; [by left|by right]|]. split; [done|apply lookup_insert_eq]. }
        intros [?|]; [apply kspec_ret|apply kspec_fail; by intros i [_ ?]]. intros i [[E ->] _]. split; [by left|done].
      * apply kspec_call.
        { intros i [F [->| ->]]; apply touched_insert; auto. }
        intros i [F [->| ->]]; cbn; rewrite delete_insert_eq; by apply touched_delete.
    + case_bool_decide as E; cbn [negb].
      * apply kspec_ret. intros i [(_ & -> & Ei)|[[=] _]]. cbn in Ei. subst alias. split; [by right|].
        by rewrite insert_id.
      * apply kspec_fail. intros i [(_ & -> & Ei)|[[=] _]]. apply touched_same.
Qed.

(** A preparation that succeeds owns the interface of the plan, which was free
    or its own; one that fails may leave it, if its rollback fails too. *)
Lemma PrepareDynamic_spec configured i0 :
  kspec (λ i, i = i0) (PrepareDynamic configured plan)
    (λ p i, (p = plan ∨ p = set_port_plan configured plan) ∧ available plan i0 ∧ i = <[name := owner]> i0)
    (touched plan i0).
Proof.
  apply (kspec_bind _ _ (λ _ i, i = i0)); [apply kspec_touch; intros i ->; apply touched_same|intros _].
  apply (kspec_bind _ _ (λ _ i, available plan i0 ∧ i = <[name := owner]> i0)); [apply ensureExactlyOwned_spec|intros _].
  pose (owned := λ i, available plan i0 ∧ i = <[name := owner]> i0).
  assert (T : ∀ i, owned i → touched plan i0 i) by (intros i [F ->]; apply touched_insert; auto).
  apply (kspec_on_error _ _ _ _ _ owned).
  - apply (kspec_bind _ _ (λ _, owned)); [by apply kspec_touch|intros _].
    destruct (Probing plan).
    + apply (kspec_bind _ _ (λ _, owned)); [by apply kspec_touch|intros _].
      apply kspec_ret. intros i [F ->]. split_and!; [by left|done..].
    + do 4 (apply (kspec_bind _ _ (λ _, owned)); [by apply kspec_touch|intros _]).
      destruct (_ && _); [by apply kspec_fail|]. destruct (_ || _); [by apply kspec_fail|].
      apply kspec_ret. intros i [F ->]. split_and!; [by right|done..].
  - intros k [F E]. destruct (kspec_run _ _ _ _ k (deleteDynamicInterface_spec (ifaces k)) eq_refl) as [(a & R & _ & D)|[R D]].
    + destruct (deleteDynamicInterface plan k) as [r k']. cbn in R, D. subst r. rewrite D, E, delete_insert_eq.
      by apply touched_delete.
    + destruct (deleteDynamicInterface plan k) as [r k']. cbn in R, D.
      assert (touched plan i0 (ifaces k')) by (rewrite D; by apply T). by destruct r.
Qed.

(** A lookup of the own interface, of which nothing is changed. *)
Lemma requireExactly_spec i0 :
  kspec (λ i, i = i0) (requireExactlyOwnedWireGuardInterface name owner)
    (λ d i, i = i0 ∧ (is_Some d → i0 !! name = Some owner)) (λ i, i = i0).
Proof.
  apply (kspec_bind _ _ (λ found i, i = i0 ∧ found = i0 !! name)); [apply kspec_call; [done|by intros i ->]|].
  intros [alias|]; [case_bool_decide as E; [apply kspec_ret|apply kspec_fail; by intros i []]|apply kspec_ret].
  - intros i [-> Ef]. split; [done|]. by rewrite <- Ef, E.
  - intros i [-> _]. split; [done|]. by intros [].
Qed.

Lemma ensureOwned_spec i0 : i0 !! name = Some owner →
  kspec (λ i, i = i0) (ensureOwnedWireGuardInterface name owner) (λ _ i, i = i0) (λ i, i = i0).
Proof.
  intros E. apply (kspec_bind _ _ (λ x i, i = i0 ∧ x = (owner, false))).
  - apply (kspec_bind _ _ (λ found i, i = i0 ∧ found = i0 !! name)); [apply kspec_call; [done|by intros i ->]|].
    rewrite E. intros [alias|].
    + apply kspec_ret. by intros i [-> [= ->]].
    + intros k [_ [=]].
  - intros [alias created] k [Ek [= -> ->]]. cbn. destruct (Stdlib.Strings.String.prefix _ _); cbn; [|done].
    unfold setLinkAlias. by rewrite bool_decide_eq_true_2.
Qed.

Lemma applyBootstrapLink_spec change i0 : i0 !! name = Some owner →
  kspec (λ i, i = i0) (applyBootstrapLink change plan) (λ _ i, i = i0) (λ i, i = i0).
Proof.
  intros E. assert (T : kspec (λ i, i = i0) ktouch (λ _ i, i = i0) (λ i, i = i0)) by (by apply kspec_touch).
  apply (kspec_bind _ _ (λ _ i, i = i0)); [by apply ensureOwned_spec|intros _].
  apply (kspec_bind _ _ (λ _ i, i = i0)); [done|intros _]. destruct (WaitingPort plan); [done|].
  do 2 (apply (kspec_bind _ _ (λ _ i, i = i0)); [done|intros _]).
  apply (kspec_bind _ _ (λ _ i, i = i0)); [destruct change; [done|by apply kspec_ret]|intros _]. done.
Qed.

(** A configuration changes no owner, and succeeds only for the own interface. *)
Lemma ConfigureDynamic_spec actual change i0 :
  kspec (λ i, i = i0) (ConfigureDynamic actual change plan) (λ _ i, i = i0 ∧ i0 !! name = Some owner) (λ i, i = i0).
Proof.
  assert (T : kspec (λ i, i = i0) ktouch (λ _ i, i = i0) (λ i, i = i0)) by (by apply kspec_touch).
  apply (kspec_bind _ _ (λ _ i, i = i0)); [done|intros _].
  apply (kspec_bind _ _ (λ d i, i = i0 ∧ (is_Some d → i0 !! name = Some owner))); [apply requireExactly_spec|].
  intros [[]|]; [|apply kspec_fail; by intros i []].
  intros k [Ek H]. assert (E : i0 !! name = Some owner) by (apply H; by eexists). clear H. revert k Ek.
  enough (J : kspec (λ i, i = i0) (ktouch;; if ReceiveOnly plan then _ else applyBootstrapLink change plan) (λ _ i, i = i0 ∧ i0 !! name = Some owner) (λ i, i = i0)) by exact J.
  apply (kspec_bind _ _ (λ _ i, i = i0)); [done|intros _]. destruct (ReceiveOnly plan).
  - apply (kspec_bind _ _ (λ d i, i = i0 ∧ (is_Some d → i0 !! name = Some owner))); [apply requireExactly_spec|].
    intros [[]|]; [|apply kspec_fail; by intros i []]. apply (kspec_bind _ _ (λ _ i, i = i0)); [apply kspec_call; by intros i []|intros _].
    destruct (negb _); [by apply kspec_fail|]. do 4 (apply (kspec_bind _ _ (λ _ i, i = i0)); [done|intros _]).
    destruct (negb _); [by apply kspec_fail|]. by (apply kspec_ret; intros i ->).
  - eapply kspec_weaken; [by apply (applyBootstrapLink_spec change i0)|done|by intros ? i ->|done].
Qed.
End Plan.
