(* ===== verification/Attempts.v ===== *)
(** The attempts at automatic Links: runtime/dynamic.go, dynamic_engine.go,
    dynamic_negotiation.go, dynamic_lifecycle.go, the handoff of
    dynamic_probe.go, durable restoring (durable_recovery.go), link_manager.go
    and the state changes of link_session.go and link_health.go.

    An attempt is an object that goroutines keep after it was replaced: it is a
    cell of [heap], and [attempts] maps a peer to the current one.  Operations
    under [resourceMu] and [mu] are functions on the [engine], which holds the
    network interfaces too; where the code releases the mutexes there are two
    functions.  [call] is what an operation reads from outside.

    [states] has the automatic Links of [Runner.states]; the static ones are
    read from [call].  A session is its identity, a UDP task its endpoint, key
    and lease. *)

From S2P Require Import Prelude Netip Ports Spec Desired Link Field MessageData Inference Recovery Interfaces.
From S2P Require Import DynamicPolicy Durable.
From Stdlib Require Import Ascii.
From stdpp Require Import gmap strings.
Open Scope Z_scope.
Open Scope velvet_scope.

Definition dynamicResponseTimeout : Z := 10 * 1000000000.

(** * Data *)

Inductive dynamicAttemptState :=
  | dynamicPreparing | dynamicProposing | dynamicProbing | dynamicAttempting
  | dynamicUp | dynamicRecovering | dynamicStopped.
#[global] Instance dynamicAttemptState_eq_dec : EqDecision dynamicAttemptState.
Proof. solve_decision. Defined.

(** The UDP task of an attempt: [primary] is the local endpoint of its socket,
    whose lease it holds until the handoff. *)
Record udpAttempt := mkUdp {
  primary : AddrPort; receiverKey : list byte; udp_lease : option portLease; udp_closed : bool;
  remoteEndpoint : AddrPort; remoteKey : list byte; remotePublicKey : list byte }.

(** [cancelled] says that the context of the attempt's Link has ended. *)
Record dynamicAttempt := mkAttempt {
  controlReady : bool; port : option portLease; udp : option udpAttempt; at_remote : list byte;
  operationID : list byte; localProposal : bool; at_plan : LinkPlan; candidate : AddrPort;
  at_session : option nat; at_state : dynamicAttemptState; deadlineEpoch : Z; cancelled : bool }.

Record linkResources := mkResources { res_plan : LinkPlan; res_port : option portLease; cleanup : bool }.

Record engine := mkEngine {
  stopped : bool; targets : gmap Addr dynamicTarget; evidence : list Evidence;
  heap : gmap nat dynamicAttempt; attempts : gmap (list byte) nat;
  pendingCleanups : gmap (list byte) (nat * LinkPlan); next_object : nat;
  resources : gmap string linkResources; states : gmap string materializedState;
  released : list portLease; closed : list nat; sys : kernel }.

Definition set_heap v d := mkEngine (stopped d) (targets d) (evidence d) v (attempts d) (pendingCleanups d) (next_object d)
  (resources d) (states d) (released d) (closed d) (sys d).
Definition set_attempts v d := mkEngine (stopped d) (targets d) (evidence d) (heap d) v (pendingCleanups d) (next_object d)
  (resources d) (states d) (released d) (closed d) (sys d).
Definition set_pending v d := mkEngine (stopped d) (targets d) (evidence d) (heap d) (attempts d) v (next_object d)
  (resources d) (states d) (released d) (closed d) (sys d).
Definition set_resources v d := mkEngine (stopped d) (targets d) (evidence d) (heap d) (attempts d) (pendingCleanups d)
  (next_object d) v (states d) (released d) (closed d) (sys d).
Definition set_states v d := mkEngine (stopped d) (targets d) (evidence d) (heap d) (attempts d) (pendingCleanups d)
  (next_object d) (resources d) v (released d) (closed d) (sys d).
Definition set_targets v d := mkEngine (stopped d) v (evidence d) (heap d) (attempts d) (pendingCleanups d)
  (next_object d) (resources d) (states d) (released d) (closed d) (sys d).
Definition set_evidence v d := mkEngine (stopped d) (targets d) v (heap d) (attempts d) (pendingCleanups d)
  (next_object d) (resources d) (states d) (released d) (closed d) (sys d).
Definition set_sys v d := mkEngine (stopped d) (targets d) (evidence d) (heap d) (attempts d) (pendingCleanups d)
  (next_object d) (resources d) (states d) (released d) (closed d) v.
Definition set_stopped v d := mkEngine v (targets d) (evidence d) (heap d) (attempts d) (pendingCleanups d)
  (next_object d) (resources d) (states d) (released d) (closed d) (sys d).
Definition new_object d := mkEngine (stopped d) (targets d) (evidence d) (heap d) (attempts d) (pendingCleanups d)
  (S (next_object d)) (resources d) (states d) (released d) (closed d) (sys d).
Definition log_released l d := mkEngine (stopped d) (targets d) (evidence d) (heap d) (attempts d) (pendingCleanups d)
  (next_object d) (resources d) (states d) (released d ++ l) (closed d) (sys d).
Definition log_closed l d := mkEngine (stopped d) (targets d) (evidence d) (heap d) (attempts d) (pendingCleanups d)
  (next_object d) (resources d) (states d) (released d) (closed d ++ l) (sys d).

Definition with_state v a := mkAttempt (controlReady a) (port a) (udp a) (at_remote a) (operationID a) (localProposal a)
  (at_plan a) (candidate a) (at_session a) v (deadlineEpoch a) (cancelled a).
Definition with_plan v a := mkAttempt (controlReady a) (port a) (udp a) (at_remote a) (operationID a) (localProposal a)
  v (candidate a) (at_session a) (at_state a) (deadlineEpoch a) (cancelled a).
Definition with_udp v a := mkAttempt (controlReady a) (port a) v (at_remote a) (operationID a) (localProposal a)
  (at_plan a) (candidate a) (at_session a) (at_state a) (deadlineEpoch a) (cancelled a).
Definition with_port v a := mkAttempt (controlReady a) v (udp a) (at_remote a) (operationID a) (localProposal a)
  (at_plan a) (candidate a) (at_session a) (at_state a) (deadlineEpoch a) (cancelled a).
Definition with_candidate v a := mkAttempt (controlReady a) (port a) (udp a) (at_remote a) (operationID a) (localProposal a)
  (at_plan a) v (at_session a) (at_state a) (deadlineEpoch a) (cancelled a).
Definition with_ready v a := mkAttempt v (port a) (udp a) (at_remote a) (operationID a) (localProposal a)
  (at_plan a) (candidate a) (at_session a) (at_state a) (deadlineEpoch a) (cancelled a).
Definition with_cancelled a := mkAttempt (controlReady a) (port a) (udp a) (at_remote a) (operationID a) (localProposal a)
  (at_plan a) (candidate a) (at_session a) (at_state a) (deadlineEpoch a) true.
Definition with_epoch a := mkAttempt (controlReady a) (port a) (udp a) (at_remote a) (operationID a) (localProposal a)
  (at_plan a) (candidate a) (at_session a) (at_state a) (deadlineEpoch a + 1) (cancelled a).

Definition rename_plan (alias : string) (probing receive : bool) (p : LinkPlan) : LinkPlan :=
  mkLinkPlan (WaitingPort p) (lk_Ports p) probing receive (lk_PeerName p) (InterfaceName p) alias
    (lk_PrivateKey p) (PeerPublicKey p) (PresharedKey p) (ListenPort p) (lk_Endpoints p) (Keepalive p) (BootstrapAddress p) (LinkOverrides p).
Definition peer_plan_of (key psk : list byte) (endpoints : list string) (p : LinkPlan) : LinkPlan :=
  mkLinkPlan (WaitingPort p) (lk_Ports p) (Probing p) (ReceiveOnly p) (lk_PeerName p) (InterfaceName p) (OwnerAlias p)
    (lk_PrivateKey p) key psk (ListenPort p) endpoints (Keepalive p) (BootstrapAddress p) (LinkOverrides p).
Definition LinkPlan_zero : LinkPlan :=
  mkLinkPlan false PortChoice_zero false false "" "" "" (zeros 32) (zeros 32) (zeros 32) 0 [] None Prefix_zero [].

(** The configuration of the node. *)
Record desired := mkDesired {
  ds_UID : UID; ds_Ports : PortChoice; ds_PrivateKey : list byte; ds_FabricPSK : list byte;
  mode_active : bool; mode_inbound : bool; AllowCandidatePrefixes : list Prefix; ds_revision : Z }.

(** What a call reads: the instant, the jitter, whether the engine's context has
    ended, which peers have a durable agreement, random numbers, the UDP
    task it prepares, the static Links and whether the backend's other calls
    succeed. *)
Record call := mkCall {
  now_ : Time; draw : Z; ctx_done : bool; durable_has : list byte → bool; new_operation : option (list byte);
  prepared_udp : option udpAttempt; static_links : gmap string materializedState; backend_ok : bool;
  bound_lease : option portLease; device_port : Z; change_endpoint : bool; task_done : bool }.

(** * Names *)

Definition lower (c : ascii) : ascii :=
  let n := nat_of_ascii c in if ((65 <=? n) && (n <=? 90))%nat then ascii_of_nat (n + 32) else c.
(** [strings.ReplaceAll(strings.ToLower(s), "-", "")]. *)
Fixpoint without_dashes (s : string) : string :=
  match s with
  | EmptyString => EmptyString
  | String c s => if bool_decide (c = "-"%char) then without_dashes s else String (lower c) (without_dashes s)
  end.

Section Attempts.
(** The text of a UUID (github.com/google/uuid), and of the public key of a
    WireGuard key (wgctrl); HKDF. *)
Context (uuid_text : list byte → string) (public_key : list byte → list byte)
  (hkdf32 : list byte → list byte → result (list byte)) (cfg : desired).

Definition DynamicInterfaceName (remote : UID) : string :=
  let suffix := Stdlib.Strings.String.substring 0 4 (without_dashes (uuid_text (UUID remote))) in
  if bool_decide (Name remote = ""%string) then "vdl-" +:+ suffix else "vdl-" +:+ Name remote +:+ "-" +:+ suffix.

Definition BuildDynamicLink (remote : UID) : LinkPlan :=
  let name := DynamicInterfaceName remote in
  mkLinkPlan false (ds_Ports cfg) false false (uuid_text (UUID remote)) name
    ("velvet:link:" +:+ uuid_text (UUID (ds_UID cfg)) +:+ ":dynamic:" +:+ uuid_text (UUID remote))
    (ds_PrivateKey cfg) (zeros 32) (zeros 32) (pc_Port (ds_Ports cfg)) [] None
    (DeriveLinkLocal (ds_FabricPSK cfg) (UUID (ds_UID cfg)) name) [].
(** The plan of a new generation: the alias ends with [:] and its identifier. *)
Definition generation (remote : UID) (id : list byte) : LinkPlan :=
  let plan := BuildDynamicLink remote in
  rename_plan (OwnerAlias plan +:+ ":" +:+ uuid_text id) (Probing plan) (ReceiveOnly plan) plan.

Definition candidateAllowed (ep : AddrPort) : bool :=
  existsb (λ prefix, Contains prefix (AddrPort_Addr ep)) (AllowCandidatePrefixes cfg).

(** * Link resources *)

Definition own (plan : LinkPlan) (lease : option portLease) (d : engine) : engine :=
  set_resources (<[OwnerAlias plan := mkResources plan lease false]> (resources d)) d.
Definition removed (plan : LinkPlan) (err : result unit) (d : engine) : engine :=
  match resources d !! OwnerAlias plan with
  | None => d
  | Some r =>
    match err with
    | Ok _ => set_resources (delete (OwnerAlias plan) (resources d)) (log_released (option_list (res_port r)) d)
    | _ => set_resources (<[OwnerAlias plan := mkResources (res_plan r) (res_port r) true]> (resources d)) d
    end
  end.
Definition flagged (rs : gmap string linkResources) : gmap string linkResources := filter (λ x, cleanup x.2 = true) rs.
Definition resourceCountLocked (d : engine) : nat :=
  (size (attempts d) + size (pendingCleanups d) + size (flagged (resources d)))%nat.

(** A call of the backend on the interfaces. *)
Definition backend {A} (m : K A) (d : engine) : result A * engine :=
  let '(r, k) := m (sys d) in (r, set_sys k d).

Definition retry_one (d : engine) (plan : LinkPlan) : engine :=
  let '(err, d) := backend (RemoveDynamic plan) d in removed plan err d.
Definition retryLinkCleanup (d : engine) : engine :=
  foldl retry_one d (map (λ x, res_plan x.2) (map_to_list (flagged (resources d)))).

(** * Link states *)

Definition all_states (c : call) (d : engine) : list materializedState :=
  map snd (map_to_list (states d)) ++ map snd (map_to_list (static_links c)).
Definition hasDirectLink (c : call) (r : list byte) (d : engine) : bool :=
  existsb (λ st, active st && bool_decide (remote st = r)) (all_states c d).
Definition hasHealthyStatic (c : call) (r : list byte) (d : engine) : bool :=
  existsb (λ st, active st && negb (dynamic st) && bool_decide (remote st = r)) (all_states c d).

(** The first of the Link; the identities in [evidence] are distinct. *)
Fixpoint remove_evidence (name : string) (l : list Evidence) : list Evidence :=
  match l with
  | [] => []
  | e :: l => if bool_decide (eLink e = name) then l else e :: remove_evidence name l
  end.
Definition removeEvidenceLocked (name : string) (d : engine) : engine := set_evidence (remove_evidence name (evidence d)) d.
Definition setEvidence (name : string) (port : Z) (endpoint : AddrPort) (d : engine) : result unit * engine :=
  match NewEvidence name port endpoint with
  | Ok v =>
    (Ok tt, set_evidence
      (if existsb (λ e, bool_decide (eLink e = name)) (evidence d)
       then (fix put l := match l with
                          | [] => []
                          | e :: l => if bool_decide (eLink e = name) then v :: l else e :: put l
                          end) (evidence d)
       else evidence d ++ [v]) d)
  | Err e => (Err e, d)
  | Panic => (Panic, d)
  end.

Definition removeDynamicState (plan : LinkPlan) (d : engine) : engine :=
  match states d !! InterfaceName plan with
  | Some st =>
    if dynamic st && bool_decide (OwnerAlias (ms_desired st) = OwnerAlias plan)
    then set_states (delete (InterfaceName plan) (states d)) d else d
  | None => d
  end.

(** Another generation's state keeps the interface. *)
Definition removeInterface (plan : LinkPlan) (d : engine) : engine :=
  if match states d !! InterfaceName plan with
     | Some st => negb (bool_decide (OwnerAlias (ms_desired st) = OwnerAlias plan))
     | None => false end then d
  else
    let d := removeEvidenceLocked (InterfaceName plan) d in
    let d := removeDynamicState plan d in
    let '(err, d) := backend (RemoveDynamic plan) d in
    removed plan err d.

(** * Attempts *)

Definition put_attempt (id : nat) (a : dynamicAttempt) (d : engine) : engine := set_heap (<[id := a]> (heap d)) d.
Definition update_attempt (id : nat) (f : dynamicAttempt → dynamicAttempt) (d : engine) : engine :=
  set_heap (alter f id (heap d)) d.
Definition isCurrentAttemptLocked (id : nat) (d : engine) : bool :=
  match heap d !! id with
  | Some a => bool_decide (attempts d !! at_remote a = Some id)
  | None => false
  end.

(** Closing the UDP task releases its lease, unless that was handed over. *)
Definition udp_close (a : dynamicAttempt) (d : engine) : engine :=
  match udp a with
  | Some u => log_released (option_list (udp_lease u)) d
  | None => d
  end.
Definition closed_udp (u : udpAttempt) : udpAttempt :=
  mkUdp (primary u) (receiverKey u) (udp_lease u) true (remoteEndpoint u) (remoteKey u) (remotePublicKey u).
Definition stopAttempt (id : nat) (d : engine) : engine :=
  match heap d !! id with
  | Some a => put_attempt id (with_state dynamicStopped (with_cancelled (with_udp (closed_udp <$> udp a) a))) (udp_close a d)
  | None => d
  end.
Definition discardAttemptLocked (r : list byte) (id : nat) (d : engine) : engine :=
  stopAttempt id (set_attempts (delete r (attempts d)) d).

Definition close_session (s : option nat) (d : engine) : engine := log_closed (option_list s) d.

(** [targetForPeerLocked]; one loopback has the identity. *)
Definition targetForPeerLocked (r : list byte) (d : engine) : option (Addr * dynamicTarget) :=
  snd <$> list_find (λ x, uid x.2 = r) (map_to_list (targets d)).
Definition put_target (addr : Addr) (t : dynamicTarget) (d : engine) : engine := set_targets (<[addr := t]> (targets d)) d.

(** The plan to remove, once the attempt was stopped. *)
Definition fallbackLocked (c : call) (id : nat) (d : engine) : option LinkPlan * engine :=
  match heap d !! id with
  | Some a =>
    if negb (isCurrentAttemptLocked id d) then (None, d)
    else
      let d := discardAttemptLocked (at_remote a) id d in
      let d := match targetForPeerLocked (at_remote a) d with
        | Some (addr, t) =>
          let next := now_ c + retryDelay (failures t) (draw c) in
          if nextAttempt t <? next then put_target addr (set_attempt (failures t) next t) d else d
        | None => d end in
      let d := if localProposal a then close_session (at_session a) d else d in
      (if bool_decide (InterfaceName (at_plan a) = ""%string) then None else Some (at_plan a), d)
  | None => (None, d)
  end.
Definition remove_plan (x : option LinkPlan * engine) : engine :=
  match x with (Some plan, d) => removeInterface plan d | (None, d) => d end.
Definition failAttempt (c : call) (id : nat) (allowed : list dynamicAttemptState) (d : engine) : engine :=
  match heap d !! id with
  | Some a =>
    if isCurrentAttemptLocked id d && bool_decide (at_state a ∈ allowed) then remove_plan (fallbackLocked c id d) else d
  | None => d
  end.

Definition cancelDeferredCleanupLocked (r : list byte) (d : engine) : engine := set_pending (delete r (pendingCleanups d)) d.
Definition deferCleanupLocked (r : list byte) (plan : LinkPlan) (d : engine) : engine :=
  let d := cancelDeferredCleanupLocked r d in
  new_object (set_pending (<[r := (next_object d, plan)]> (pendingCleanups d)) d).
(** Its timer. *)
Definition deferred_cleanup (r : list byte) (cid : nat) (plan : LinkPlan) (d : engine) : engine :=
  if negb (bool_decide (fst <$> pendingCleanups d !! r = Some cid)) then d
  else
    let d := cancelDeferredCleanupLocked r d in
    let reused := match attempts d !! r with
      | Some id => match heap d !! id with
                   | Some a => bool_decide (InterfaceName (at_plan a) = InterfaceName plan)
                   | None => false end
      | None => false end in
    if reused then d else removeInterface plan d.

(** * Preparing an attempt *)

Definition new_attempt (s : session) (op : list byte) (mine : bool) (reserved : LinkPlan) : dynamicAttempt :=
  mkAttempt false None None (UUID (RemoteUID s)) op mine reserved AddrPort_zero (Some (session_id s)) dynamicPreparing 0 false.
Definition probing_plan (port : Z) (p : LinkPlan) : LinkPlan :=
  set_port_plan port (rename_plan (OwnerAlias p) true (ReceiveOnly p) p).

(** The attempt's identity and whether it was prepared; if not, the caller
    falls back.  Its UDP socket is opened first, then the interface, unless one
    was reserved. *)
Definition prepareAttemptLocked (c : call) (s : session) (op : list byte) (mine : bool) (reserved : LinkPlan)
    (d : engine) : nat * bool * engine :=
  let id := next_object d in
  let a := new_attempt s op mine reserved in
  let d := put_attempt id a (set_attempts (<[at_remote a := id]> (attempts d)) (new_object d)) in
  match Baseline (evidence d) 1, prepared_udp c with
  | Some _, Some u =>
    let a := with_udp (Some u) a in
    let d := put_attempt id a d in
    let '(ok, a, d) :=
      if bool_decide (InterfaceName (at_plan a) = ""%string) then
        let plan := probing_plan (Port (primary u)) (generation (RemoteUID s) op) in
        let a := with_plan plan a in
        let d := own plan None (put_attempt id a d) in
        match backend (PrepareDynamic (device_port c) plan) d with
        | (Ok plan, d) => let a := with_plan plan a in (true, a, own plan None (put_attempt id a d))
        | (_, d) => (false, a, d)
        end
      else (true, a, d) in
    if negb ok then (id, false, d)
    else
      let a := with_plan (probing_plan (Port (primary u)) (at_plan a)) a in
      let d := put_attempt id a d in
      match Baseline (evidence d) (ListenPort (at_plan a)) with
      | None => (id, false, d)
      | Some candidate => (id, true, put_attempt id (with_candidate candidate a) d)
      end
  | _, _ => (id, false, d)
  end.

(** The peer's parameters: whether they are acceptable. *)
Definition configureAttemptLocked (id : nat) (m : Message) (d : engine) : bool * engine :=
  match heap d !! id with
  | Some a =>
    if negb (candidateAllowed (Endpoint m)) then (false, d)
    else if bool_decide (ProbeKey m = zeros 32) then (false, d)
    else if bool_decide (WGPublicKey m = public_key (lk_PrivateKey (at_plan a))) then (false, d)
    else
      let u := (λ u, mkUdp (primary u) (receiverKey u) (udp_lease u) (udp_closed u) (Endpoint m) (ProbeKey m) (WGPublicKey m)) <$> udp a in
      (true, put_attempt id (with_state dynamicProbing (with_udp u a)) d)
  | None => (false, d)
  end.

Definition startProbeLocked (id : nat) (d : engine) : engine := update_attempt id (with_state dynamicProbing) d.

Definition dynamicLinkMessage (kind : MsgType) (a : dynamicAttempt) : Message :=
  set_Endpoint (candidate a)
    (set_Keys (match udp a with Some u => receiverKey u | None => zeros 32 end) (public_key (lk_PrivateKey (at_plan a)))
       (set_OperationID (operationID a) (newMessage kind))).

(** A failed preparation releases what it reserved. *)
Definition abandon (c : call) (id : nat) (d : engine) : engine := remove_plan (fallbackLocked c id d).

(** * The proposing side *)

Definition bind_target (s : session) (d : engine) : dynamicTarget * engine :=
  let t := default (newTarget 0) (targets d !! RemoteLoopbackV6 s) in
  let t := mkTarget (dialing t) (UUID (RemoteUID s)) true (failures t) (nextAttempt t) (nextQuery t) (nextUpdate t)
    (policy t) (pendingUpdate t) (pendingQuery t) (reachable t) (lastSeen t) in
  (t, put_target (RemoteLoopbackV6 s) t d).

(** The attempt to propose, if any: [startOutbound] then sends its
    DYNAMIC_LINK_PROPOSE, and fails the attempt if that fails. *)
Definition prepareOutbound (c : call) (s : session) (d : engine) : result (option nat) * engine :=
  if stopped d || ctx_done c then (Err (errors_New "context canceled"), d)
  else
    let r := UUID (RemoteUID s) in
    let '(t, d) := bind_target s d in
    if negb (mode_active cfg) || match policy t with Some p => negb (Accept p) | None => false end then (Ok None, d)
    else if durable_has c r || hasDirectLink c r d || bool_decide (is_Some (attempts d !! r)) then (Ok None, d)
    else if 128 <=? Z.of_nat (resourceCountLocked d) then (Ok None, d)
    else if bool_decide (evidence d = []) then (Ok None, d)
    else match new_operation c with
    | None => (Err (errors_New "random"), d)
    | Some op =>
      let '(id, ok, d) := prepareAttemptLocked c s op true LinkPlan_zero d in
      if ok then (Ok (Some id), update_attempt id (with_state dynamicProposing) d)
      else (Err (errors_New "prepare"), abandon c id d)
    end.

(** The attempt that a response is about. *)
Definition proposingAttemptLocked (s : session) (op : list byte) (d : engine) : option nat :=
  match attempts d !! UUID (RemoteUID s) with
  | Some id =>
    match heap d !! id with
    | Some a =>
      if negb (bool_decide (at_session a = Some (session_id s))) || negb (bool_decide (operationID a = op)) ||
         negb (bool_decide (at_state a = dynamicProposing)) then None else Some id
    | None => None
    end
  | None => None
  end.

Definition handleAccept (c : call) (s : session) (m : Message) (d : engine) : engine :=
  match proposingAttemptLocked s (OperationID m) d with
  | None => d
  | Some id =>
    let '(ok, d) := configureAttemptLocked id m d in
    if ok then startProbeLocked id d else abandon c id d
  end.

Definition handleDecline (c : call) (s : session) (m : Message) (d : engine) : engine :=
  match proposingAttemptLocked s (OperationID m) d with
  | None => d
  | Some id =>
    let d := match targets d !! RemoteLoopbackV6 s with
      | Some t => put_target (RemoteLoopbackV6 s) (mergePolicyLocked (Msg_Policy m) t) d
      | None => d end in
    match fallbackLocked c id d with
    | (Some plan, d) => deferCleanupLocked (UUID (RemoteUID s)) plan d
    | (None, d) => d
    end
  end.

(** * The accepting side *)

(** A recovering Link gives way to a fresh proposal: it is removed, with [mu]
    released meanwhile, and the conditions are read again ([c']).  [false]: the
    proposal is declined. *)
Definition replace_recovering (c' : call) (r : list byte) (id : nat) (m : Message) (d : engine) : bool * engine :=
  match heap d !! id with
  | Some a =>
    if bool_decide (OperationID m = operationID a) || bool_decide (ProbeKey m = zeros 32) ||
       bool_decide (WGPublicKey m = public_key (ds_PrivateKey cfg)) then (false, d)
    else
      let d := discardAttemptLocked r id d in
      let d := removeInterface (at_plan a) d in
      (negb (bool_decide (is_Some (resources d !! OwnerAlias (at_plan a))) || stopped d || ctx_done c' ||
             durable_has c' r || hasDirectLink c' r d), d)
  | None => (false, d)
  end.

(** Crossing proposals: the smaller UUID wins, and the other side keeps the
    interface it reserved for the winning operation. *)
Definition take_over (s : session) (id : nat) (d : engine) : option LinkPlan * engine :=
  match heap d !! id with
  | Some a =>
    let r := UUID (RemoteUID s) in
    if negb (bool_decide (at_state a = dynamicProposing)) || negb (localProposal a) ||
       match bytes_Compare (UUID (ds_UID cfg)) r with Lt => true | _ => false end then (None, d)
    else
      let d := discardAttemptLocked r id d in
      (Some (at_plan a), if bool_decide (at_session a = Some (session_id s)) then d else close_session (at_session a) d)
  | None => (None, d)
  end.

Definition is_recovering (id : nat) (d : engine) : bool :=
  match heap d !! id with Some a => bool_decide (at_state a = dynamicRecovering) | None => false end.

(** The rest of it: the plan to reuse, if any, and the attempt. *)
Definition admission (c : call) (s : session) (m : Message) (plan : LinkPlan) (d : engine) : option nat * engine :=
  let r := UUID (RemoteUID s) in
  let plan := match pendingCleanups d !! r with
    | Some (_, pending) => if bool_decide (InterfaceName plan = ""%string) then pending else plan
    | None => plan end in
  let d := cancelDeferredCleanupLocked r d in
  let '(id, ok, d) := prepareAttemptLocked c s (OperationID m) false plan d in
  let '(ok, d) := if ok then configureAttemptLocked id m d else (false, d) in
  if ok then (Some id, d) else (None, abandon c id d).

Definition prepareInbound (c c' : call) (s : session) (m : Message) (d : engine) : option nat * engine :=
  let r := UUID (RemoteUID s) in
  if stopped d || ctx_done c || negb (mode_inbound cfg) || durable_has c r || negb (candidateAllowed (Endpoint m)) ||
     hasDirectLink c r d then (None, d)
  else if bool_decide (attempts d !! r = None) && bool_decide (pendingCleanups d !! r = None) &&
          (128 <=? Z.of_nat (resourceCountLocked d)) then (None, d)
  else if bool_decide (evidence d = []) then (None, d)
  else match attempts d !! r with
  | None => admission c s m LinkPlan_zero d
  | Some id =>
    if is_recovering id d then
      let '(go, d) := replace_recovering c' r id m d in
      if go then admission c s m LinkPlan_zero d else (None, d)
    else
      match take_over s id d with
      | (Some plan, d) => admission c s m plan d
      | (None, d) => (None, d)
      end
  end.

(** The answer to a proposal; after an ACCEPT was sent, [accepted] goes on. *)
Definition handleProposal (c c' : call) (s : session) (m : Message) (d : engine) : option nat * Message * engine :=
  match prepareInbound c c' s m d with
  | (None, d) =>
    let v := set_OperationID (OperationID m) (newMessage DynamicLinkDecline) in
    (None, if mode_inbound cfg then v else set_Decline DeclinePolicy (Some (mkPolicy (ds_revision cfg) false)) v, d)
  | (Some id, d) =>
    (Some id, match heap d !! id with Some a => dynamicLinkMessage DynamicLinkAccept a | None => newMessage DynamicLinkAccept end, d)
  end.
Definition proposal_accepted (id : nat) (d : engine) : engine :=
  if isCurrentAttemptLocked id d then startProbeLocked id d else d.

Definition routedSessionClosed (c : call) (s : session) (d : engine) : engine :=
  match attempts d !! UUID (RemoteUID s) with
  | Some id =>
    match heap d !! id with
    | Some a =>
      if bool_decide (at_session a = Some (session_id s)) &&
         (bool_decide (at_state a = dynamicProposing) || bool_decide (at_state a = dynamicProbing))
      then remove_plan (fallbackLocked c id d) else d
    | None => d
    end
  | None => d
  end.

(** * From the UDP path to the Link *)

(** [Reconciler.ConfigureDynamic]: the plan is zero when the backend was not
    called. *)
Definition reconciler_ConfigureDynamic (c : call) (plan : LinkPlan) (key : list byte) (endpoint : AddrPort) (d : engine) :
    LinkPlan * bool * engine :=
  if bool_decide (key = public_key (lk_PrivateKey plan)) then (LinkPlan_zero, false, d)
  else match DeriveWGLinkPSK hkdf32 (ds_FabricPSK cfg) (public_key (lk_PrivateKey plan)) key with
  | Ok psk =>
    let plan := peer_plan_of key psk (if AddrPort_IsValid endpoint then [AddrPort_String endpoint] else []) plan in
    match backend (ConfigureDynamic (device_port c) (change_endpoint c) plan) d with
    | (Ok _, d) => (plan, true, d)
    | (_, d) => (plan, false, d)
    end
  | _ => (LinkPlan_zero, false, d)
  end.

(** The task still owns the attempt. *)
Definition probing (c : call) (id : nat) (a : dynamicAttempt) (d : engine) : bool :=
  isCurrentAttemptLocked id d && bool_decide (at_state a = dynamicProbing) && negb (task_done c).

(** The lease goes from the probe socket to WireGuard, which only receives
    until the peer is ready too.  [false]: the attempt is failed. *)
Definition handoff_receive (c : call) (id : nat) (endpoint : AddrPort) (d : engine) : bool * engine :=
  match heap d !! id with
  | Some a =>
    match udp a with
    | Some u =>
      if negb (probing c id a d) then (false, d)
      else
        let u' := mkUdp (primary u) (receiverKey u) None true (remoteEndpoint u) (remoteKey u) (remotePublicKey u) in
        let a := with_udp (Some u') a in
        let '(a, d) := match udp_lease u with
          | Some lease => let a := with_port (Some lease) a in (a, own (at_plan a) (Some lease) (put_attempt id a d))
          | None => (a, put_attempt id a d)
          end in
        let plan := rename_plan (OwnerAlias (at_plan a)) false true (at_plan a) in
        let '(plan, ok, d) := reconciler_ConfigureDynamic c plan (remotePublicKey u) endpoint d in
        if ok then (true, put_attempt id (with_plan plan a) d) else (false, d)
    | None => (false, d)
    end
  | None => (false, d)
  end.
(** Both ends are ready: WireGuard may send, and the Link is negotiated. *)
Definition handoff_send (c : call) (id : nat) (endpoint : AddrPort) (d : engine) : bool * engine :=
  match heap d !! id with
  | Some a =>
    match udp a with
    | Some u =>
      if negb (probing c id a d) then (false, d)
      else
        let plan := rename_plan (OwnerAlias (at_plan a)) false false (at_plan a) in
        let '(plan, ok, d) := reconciler_ConfigureDynamic c plan (remotePublicKey u) endpoint d in
        if ok then (true, put_attempt id (with_epoch (with_state dynamicAttempting (with_plan plan a))) d) else (false, d)
    | None => (false, d)
    end
  | None => (false, d)
  end.

(** * The Link of an attempt *)

(** link_health.go, [installs]: the negotiated addresses are materialized. *)
Definition install (c : call) (id : nat) (addresses : list Prefix) (r : list byte) (d : engine) : engine :=
  match heap d !! id with
  | Some a =>
    if cancelled a || negb (backend_ok c) then d
    else set_states (<[InterfaceName (at_plan a) :=
      mkMaterialized (at_plan a) addresses [] r true false false 0]> (states d)) d
  | None => d
  end.
(** Runner.commitLink of an automatic Link. *)
Definition runner_commitLink (c : call) (plan : LinkPlan) (addresses : list Prefix) (s : session) (d : engine) : bool * engine :=
  if negb (backend_ok c) then (false, d)
  else
    let peers := if Addr_IsValid (RemoteLoopbackV6 s) then [RemoteLoopbackV6 s] else [] in
    (true, set_states (<[InterfaceName plan :=
      mkMaterialized plan addresses peers (UUID (RemoteUID s)) true true true (now_ c)]> (states d)) d).
Definition commitAttemptLocked (id : nat) (a : dynamicAttempt) (d : engine) : engine :=
  let d := put_attempt id (with_state dynamicUp a) d in
  let d := match targetForPeerLocked (at_remote a) d with
    | Some (addr, t) => put_target addr (set_attempt 0 0 t) d
    | None => d end in
  if localProposal a then close_session (at_session a) d else d.
(** [dynamicLinkEngine.commitLink]. *)
Definition commitLink (c : call) (id : nat) (addresses : list Prefix) (s : session) (d : engine) : bool * engine :=
  match heap d !! id with
  | Some a =>
    if cancelled a || stopped d || negb (isCurrentAttemptLocked id d) ||
       negb (bool_decide (at_state a = dynamicAttempting) || bool_decide (at_state a = dynamicRecovering)) then (false, d)
    else
      let '(ok, d) :=
        if hasHealthyStatic c (at_remote a) d then (false, d)
        else if negb (bool_decide (UUID (RemoteUID s) = at_remote a)) then (false, d)
        else runner_commitLink c (at_plan a) addresses s d in
      if ok then (true, commitAttemptLocked id a d) else (false, abandon c id d)
  | None => (false, d)
  end.

Definition set_activity (act com : bool) (peers : list Addr) (st : materializedState) : materializedState :=
  mkMaterialized (ms_desired st) (ms_local st) peers (remote st) (dynamic st) act com (lastPong st).
Definition set_pong (t : Time) (st : materializedState) : materializedState :=
  mkMaterialized (ms_desired st) (ms_local st) (ms_peers st) (remote st) (dynamic st) (active st) (committed st) t.
Definition state_zero : materializedState := mkMaterialized LinkPlan_zero [] [] uuid_Nil false false false 0.

(** link_health.go, [confirm] after a PONG: the state's time is set. *)
Definition confirm_pong (c : call) (id : nat) (d : engine) : engine :=
  match heap d !! id with
  | Some a =>
    let name := InterfaceName (at_plan a) in
    set_states (<[name := set_pong (now_ c) (default state_zero (states d !! name))]> (states d)) d
  | None => d
  end.
Definition markLinkLost (id : nat) (d : engine) : engine :=
  match heap d !! id with
  | Some a =>
    let name := InterfaceName (at_plan a) in
    let d := match states d !! name with
      | Some st => if bool_decide (OwnerAlias (ms_desired st) = OwnerAlias (at_plan a))
                   then set_states (<[name := set_activity false (committed st) (ms_peers st) st]> (states d)) d else d
      | None => d end in
    removeEvidenceLocked name d
  | None => d
  end.
Definition withdrawLinkAdjacency (c : call) (id : nat) (d : engine) : engine :=
  match heap d !! id with
  | Some a =>
    let name := InterfaceName (at_plan a) in
    match states d !! name with
    | Some st =>
      if (negb (active st) && bool_decide (ms_peers st = [])) ||
         negb (bool_decide (OwnerAlias (ms_desired st) = OwnerAlias (at_plan a))) || negb (backend_ok c) then d
      else removeEvidenceLocked name (set_states (<[name := set_activity false false [] st]> (states d)) d)
    | None => d
    end
  | None => d
  end.
(** [linkControl]: what the health loop reports. *)
Definition control_ready (id : nat) (v : bool) (d : engine) : engine :=
  if isCurrentAttemptLocked id d then update_attempt id (with_ready v) d else d.
Definition control_failed (id : nat) (d : engine) : engine :=
  match heap d !! id with
  | Some a =>
    if isCurrentAttemptLocked id d && bool_decide (at_state a = dynamicUp)
    then put_attempt id (with_epoch (with_state dynamicRecovering a)) d else d
  | None => d
  end.
(** The connectivity deadline ends the attempt's context. *)
Definition expireConnectivity (c : call) (id : nat) (epoch : Z) (d : engine) : engine :=
  match heap d !! id with
  | Some a =>
    if isCurrentAttemptLocked id d && (deadlineEpoch a =? epoch) && negb (bool_decide (at_state a = dynamicUp)) &&
       negb (durable_has c (at_remote a)) then put_attempt id (with_cancelled a) d else d
  | None => d
  end.

(** * Restoring a durable Link *)

(** [confirmed] is the answer of [confirmRestore]. *)
Definition restore (c : call) (record : durableRecord) (confirmed : bool) (d : engine) : engine :=
  let peer := rec_Peer record in
  let r := UUID peer in
  if stopped d || ctx_done c || negb (mode_inbound cfg) || negb (durable_has c r) then d
  else if bool_decide (is_Some (attempts d !! r)) || hasDirectLink c r d then d
  else if 128 <=? Z.of_nat (resourceCountLocked d) then d
  else match new_operation c, bound_lease c with
  | Some op, Some lease =>
    let plan := set_port_plan (lease_port lease) (generation peer op) in
    let d := own plan (Some lease) d in
    let remove plan d := let '(err, d) := backend (RemoveDynamic plan) d in removed plan err d in
    match backend (PrepareDynamic (device_port c) plan) d with
    | (Ok plan, d) =>
      let endpoint := fixedFor record r in
      let endpoint := if mode_active cfg then endpoint else AddrPort_zero in
      let '(plan, ok, d) := reconciler_ConfigureDynamic c plan (Durable.PublicKey record) endpoint d in
      if negb (ok && confirmed) then remove plan d
      else
        let id := next_object d in
        let a := mkAttempt false (Some lease) None r (ID record) (AddrPort_IsValid endpoint) plan AddrPort_zero None
          dynamicAttempting 1 false in
        own plan (Some lease) (put_attempt id a (set_attempts (<[r := id]> (attempts d)) (new_object d)))
    | (_, d) => remove plan d
    end
  | _, _ => d
  end.

(** * Stopping *)

Definition committedLink (plan : LinkPlan) (d : engine) : bool :=
  match states d !! InterfaceName plan with
  | Some st => committed st && bool_decide (OwnerAlias (ms_desired st) = OwnerAlias plan)
  | None => false
  end.
(** Every attempt is stopped; the interfaces of committed Links stay for the
    next process.  Once all workers have ended, the others are removed. *)
Definition stop_attempts (d : engine) : list LinkPlan * engine :=
  let d := set_stopped true d in
  let ids := map snd (map_to_list (attempts d)) in
  let plans := flat_map (λ id, match heap d !! id with
      | Some a => if committedLink (at_plan a) d then [] else [at_plan a]
      | None => [] end) ids ++ map (λ x, x.2.2) (map_to_list (pendingCleanups d)) in
  let d := foldl (λ d id, stopAttempt id d) d ids in
  (plans, set_pending ∅ (set_attempts ∅ d)).
Definition stop_remove (plans : list LinkPlan) (d : engine) : engine := foldl (λ d plan, removeInterface plan d) d plans.
End Attempts.
