(* ===== verification/AttemptsProps.v ===== *)
(** No automatic Link is forgotten: every network interface that the attempts
    of Attempts.v create belongs to an attempt, to a deferred cleanup or to a
    removal that is retried, and together they stay within the limit. *)

From S2P Require Import Prelude Netip Ports Spec Desired Link Field MessageData Inference Recovery Interfaces.
From S2P Require Import DynamicPolicy Durable Attempts.
From stdpp Require Import gmap strings.
Open Scope Z_scope.
Open Scope velvet_scope.

Implicit Types (d : engine) (c : call) (id : nat) (a : dynamicAttempt) (r : list byte) (name alias : string) (p plan : LinkPlan)
  (gone : option LinkPlan) (s : session) (m : Message).

Definition maxLinks : nat := 128.

Section Invariant.
(** The interface name of a peer. *)
Context (iface_of : list byte → string) (iface_ne : ∀ r, iface_of r ≠ ""%string).
(** The aliases of automatic Links of the node. *)
Context (mine : string → Prop).

(** * The invariant *)

(** What keeps an interface: a current attempt, a deferred cleanup, a removal
    that is retried, or one under way ([gone]). *)
Inductive holder := HA (r : list byte) | HP (r : list byte) | HF (alias : string) | HG.
#[global] Instance holder_eq_dec : EqDecision holder.
Proof. solve_decision. Defined.

(** The states in which the Link of an attempt is supervised. *)
Definition linked a : Prop := at_state a = dynamicAttempting ∨ at_state a = dynamicUp ∨ at_state a = dynamicRecovering.

Definition held gone d (h : holder) name alias : Prop :=
  match h with
  | HA r => ∃ id a, attempts d !! r = Some id ∧ heap d !! id = Some a ∧
      InterfaceName (at_plan a) = name ∧ OwnerAlias (at_plan a) = alias
  | HP r => ∃ cid p, pendingCleanups d !! r = Some (cid, p) ∧ InterfaceName p = name ∧ OwnerAlias p = alias
  | HF x => x = alias ∧ ∃ res, resources d !! alias = Some res ∧ cleanup res = true ∧ InterfaceName (res_plan res) = name
  | HG => ∃ p, gone = Some p ∧ InterfaceName p = name ∧ OwnerAlias p = alias
  end.
(** Attempts and deferred cleanups have their interface, with the peer's name. *)
Definition present (h : holder) (name : string) : Prop :=
  match h with HA r | HP r => name = iface_of r | _ => False end.
Definition owner (h : holder) : option (list byte) := match h with HA r | HP r => Some r | _ => None end.
Definition supervised d (h : holder) : Prop :=
  match h with
  | HA r => ∃ id a, attempts d !! r = Some id ∧ heap d !! id = Some a ∧ linked a
  | HG => True
  | _ => False
  end.
Definition in_use gone d : nat := (resourceCountLocked d + match gone with Some _ => 1 | None => 0 end)%nat.

Record inv gone d : Prop := {
  i_attempt : ∀ r id, attempts d !! r = Some id → ∃ a, heap d !! id = Some a ∧ at_remote a = r;
  i_fresh : ∀ id a, heap d !! id = Some a → (id < next_object d)%nat;
  i_live : ∀ id a, heap d !! id = Some a → cancelled a = false → attempts d !! at_remote a = Some id;
  i_plan : ∀ alias res, resources d !! alias = Some res → OwnerAlias (res_plan res) = alias;
  i_present : ∀ h name alias, held gone d h name alias → is_Some (owner h) →
    present h name ∧ ifaces (sys d) !! name = Some alias;
  i_alias : ∀ h name alias, held gone d h name alias →
    mine alias ∧ ∀ res, resources d !! alias = Some res → InterfaceName (res_plan res) = name;
  i_unique : ∀ h h' name name' alias, held gone d h name alias → held gone d h' name' alias → h = h';
  i_kernel : ∀ name alias, ifaces (sys d) !! name = Some alias → mine alias →
    (∃ res, resources d !! alias = Some res ∧ InterfaceName (res_plan res) = name) ∧
    ∃ h, held gone d h name alias;
  i_states : ∀ name st, states d !! name = Some st →
    dynamic st = true ∧ ∃ h, held gone d h name (OwnerAlias (ms_desired st)) ∧ supervised d h;
  i_count : (in_use gone d <= maxLinks)%nat
}.

(** The interfaces are a function of what the invariant reads. *)
Lemma inv_same gone d d' :
  attempts d' = attempts d → heap d' = heap d → pendingCleanups d' = pendingCleanups d →
  next_object d' = next_object d → resources d' = resources d → states d' = states d → sys d' = sys d →
  inv gone d → inv gone d'.
Proof.
  intros E1 E2 E3 E4 E5 E6 E7 I. destruct d, d'. cbn in *. subst. destruct I. by split.
Qed.

(** * Counting the flagged resources *)

Lemma size_delete_le {A} (m : gmap string A) x : (size (delete x m) <= size m)%nat.
Proof. apply map_subseteq_size, delete_subseteq. Qed.
Lemma flagged_delete (rs : gmap string linkResources) alias : (size (flagged (delete alias rs)) <= size (flagged rs))%nat.
Proof. unfold flagged. rewrite map_filter_delete. apply size_delete_le. Qed.
Lemma flagged_own (rs : gmap string linkResources) alias res :
  cleanup res = false → (size (flagged (<[alias := res]> rs)) <= size (flagged rs))%nat.
Proof.
  intros E. unfold flagged at 1. rewrite map_filter_insert_False by (cbn; by rewrite E). apply flagged_delete.
Qed.
Lemma flagged_flag (rs : gmap string linkResources) alias res :
  (size (flagged (<[alias := res]> rs)) <= S (size (flagged rs)))%nat.
Proof.
  destruct (cleanup res) eqn:E; [|pose proof (flagged_own rs alias res E); lia].
  unfold flagged at 1. rewrite map_filter_insert_True by done. rewrite map_size_insert.
  destruct (_ !! _); cbn; unfold flagged; lia.
Qed.

(** * Removing an interface *)

Lemma held_gone p d h n x : held (Some p) d h n x → h = HG → n = InterfaceName p ∧ x = OwnerAlias p.
Proof. intros H ->. by destruct H as (q & [= <-] & <- & <-). Qed.
Lemma gone_held p d : held (Some p) d HG (InterfaceName p) (OwnerAlias p).
Proof. by exists p. Qed.
Lemma gone_alias p d : inv (Some p) d →
  mine (OwnerAlias p) ∧ ∀ res, resources d !! OwnerAlias p = Some res → InterfaceName (res_plan res) = InterfaceName p.
Proof. intros I. apply (i_alias _ _ I HG), gone_held. Qed.
Lemma gone_unique p d h n : inv (Some p) d → held (Some p) d h n (OwnerAlias p) → h = HG.
Proof. intros I H. eapply (i_unique _ _ I); [exact H|apply gone_held]. Qed.
(** What does not concern the plan stays held. *)
Lemma held_without gone d h n x : held gone d h n x → h ≠ HG → held None d h n x.
Proof. by destruct h. Qed.
Lemma held_with gone d h n x : held None d h n x → held gone d h n x.
Proof. destruct h; try done. by intros (q & [=] & _). Qed.

(** The interface of the plan is gone, or another generation's: nothing else
    changes. *)
Lemma inv_release p d : inv (Some p) d → (∀ n, ifaces (sys d) !! n ≠ Some (OwnerAlias p)) →
  (∀ n st, states d !! n = Some st → OwnerAlias (ms_desired st) ≠ OwnerAlias p) → inv None d.
Proof.
  intros I Hk Hs. destruct I as [I1 I2 I3 I4 I5 I6 I7 I8 I9 I10]. split; try done.
  - intros h n x H P. apply (I5 h); [by apply held_with|done].
  - intros h n x H. by apply (I6 h n), held_with.
  - intros h h' n n' x H H'. by apply (I7 h h' n n' x); apply held_with.
  - intros n x E N. destruct (I8 n x E N) as (R & h & H). split; [done|]. exists h.
    apply (held_without (Some p)); [done|]. intros Eh. destruct (held_gone _ _ _ _ _ H Eh) as [-> ->]. by apply (Hk (InterfaceName p)).
  - intros n st E. destruct (I9 n st E) as (Hd & h & H & S). split; [done|]. exists h. split; [|done].
    apply (held_without (Some p)); [done|]. intros Eh. destruct (held_gone _ _ _ _ _ H Eh) as [_ Ea]. by apply (Hs n st).
  - unfold in_use in *. lia.
Qed.

(** [d'] has the attempts and the deferred cleanups of [d]. *)
Record same_attempts d d' : Prop := {
  sa_attempts : attempts d' = attempts d; sa_heap : heap d' = heap d;
  sa_pending : pendingCleanups d' = pendingCleanups d; sa_next : next_object d' = next_object d }.

(** Nothing is left of the plan. *)
Lemma inv_removed p d d' : inv (Some p) d → same_attempts d d' → states d' = states d →
  resources d' = delete (OwnerAlias p) (resources d) → available p (ifaces (sys d)) →
  ifaces (sys d') = delete (InterfaceName p) (ifaces (sys d)) →
  (∀ n st, states d !! n = Some st → OwnerAlias (ms_desired st) ≠ OwnerAlias p) → inv None d'.
Proof.
  intros I [Ea Eh Ep En] Es Er Av Ek Hs. destruct (gone_alias p d I) as [Na Nr].
  assert (Hh : ∀ h n x, held None d' h n x → held (Some p) d h n x ∧ x ≠ OwnerAlias p).
  { intros h n x H. assert (H0 : held None d h n x).
    { revert H. destruct h; cbn; rewrite ?Ea, ?Eh, ?Ep, ?Er; try done.
      intros (-> & res & R & ? & ?). apply lookup_delete_Some in R as [_ R]. split; [done|]. by exists res. }
    split; [by apply held_with|]. intros ->. pose proof (gone_unique p d h n I (held_with _ _ _ _ _ H0)) as ->.
    by destruct H0 as (q & [=] & _). }
  assert (Hb : ∀ h n x, held (Some p) d h n x → x ≠ OwnerAlias p → held None d' h n x).
  { intros h n x H N. assert (h ≠ HG) by (intros ->; by destruct (held_gone _ _ _ _ _ H eq_refl)).
    revert H. destruct h; cbn; rewrite ?Ea, ?Eh, ?Ep, ?Er; try done.
    intros (-> & res & R & ? & ?). split; [done|]. exists res. by rewrite lookup_delete_ne. }
  assert (Hk : ∀ n x, ifaces (sys d') !! n = Some x → mine x → ifaces (sys d) !! n = Some x ∧ x ≠ OwnerAlias p).
  { rewrite Ek. intros n x [Nn E]%lookup_delete_Some N. split; [done|]. intros ->.
    destruct (i_kernel _ _ I _ _ E Na) as ((res & R & Rn) & _). apply Nn. by rewrite <- Rn, (Nr res R). }
  destruct I as [I1 I2 I3 I4 I5 I6 I7 I8 I9 I10]. split.
  - rewrite Ea, Eh. exact I1.
  - rewrite Eh, En. exact I2.
  - rewrite Ea, Eh. exact I3.
  - rewrite Er. intros x res [_ E]%lookup_delete_Some. by apply I4.
  - intros h n x H P. destruct (Hh h n x H) as [H0 N]. destruct (I5 h n x H0 P) as [Nn E]. split; [done|].
    rewrite Ek, lookup_delete_Some. split; [|done]. intros <-. destruct Av as [Av|Av]; rewrite Av in E; [done|].
    by injection E as <-.
  - intros h n x H. destruct (Hh h n x H) as [H0 N]. destruct (I6 h n x H0) as [N1 N2]. split; [done|].
    rewrite Er. intros res [_ E]%lookup_delete_Some. by apply N2.
  - intros h h' n n' x H H'. destruct (Hh _ _ _ H), (Hh _ _ _ H'). by apply (I7 h h' n n' x).
  - intros n x E N. destruct (Hk n x E N) as [E0 N0]. destruct (I8 n x E0 N) as ((res & R & Rn) & h & H).
    split; [exists res; rewrite Er; by rewrite lookup_delete_ne|]. exists h. by apply Hb.
  - rewrite Es. intros n st E. destruct (I9 n st E) as (Hd & h & H & S). split; [done|]. exists h. split; [apply Hb; [done|by eapply Hs]|].
    revert S. destruct h; cbn; by rewrite ?Ea, ?Eh.
  - revert I10. unfold in_use, resourceCountLocked. rewrite Ea, Ep, Er. pose proof (flagged_delete (resources d) (OwnerAlias p)). lia.
Qed.

(** A removal that failed is retried. *)
Lemma inv_flagged p d d' res : inv (Some p) d → same_attempts d d' → states d' = states d →
  resources d !! OwnerAlias p = Some res →
  resources d' = <[OwnerAlias p := mkResources (res_plan res) (res_port res) true]> (resources d) →
  ifaces (sys d') = ifaces (sys d) →
  (∀ n st, states d !! n = Some st → OwnerAlias (ms_desired st) ≠ OwnerAlias p) → inv None d'.
Proof.
  intros I [Ea Eh Ep En] Es R Er Ek Hs. destruct (gone_alias p d I) as [Na Nr].
  (* the plan is now held as flagged *)
  assert (Hh : ∀ h n x, held None d' h n x →
    (held (Some p) d h n x ∧ x ≠ OwnerAlias p) ∨ (h = HF (OwnerAlias p) ∧ n = InterfaceName p ∧ x = OwnerAlias p)).
  { intros h n x H. destruct (decide (x = OwnerAlias p)) as [->|N].
    - right. destruct h as [r|r|y|]; cbn in H; rewrite ?Ea, ?Eh, ?Ep, ?Er in H.
      + by pose proof (gone_unique p d (HA r) n I H).
      + by pose proof (gone_unique p d (HP r) n I H).
      + destruct H as (-> & res' & R' & _ & <-). rewrite lookup_insert_eq in R'. injection R' as <-. cbn. by rewrite (Nr res R).
      + by destruct H as (q & [=] & _).
    - left. split; [|done]. destruct h as [r|r|y|]; cbn in H; rewrite ?Ea, ?Eh, ?Ep, ?Er in H; [done|done| |].
      + destruct H as (-> & res' & R' & ? & ?). rewrite lookup_insert_ne in R' by done. split; [done|]. by exists res'.
      + by destruct H as (q & [=] & _). }
  assert (Hb : ∀ h n x, held (Some p) d h n x → x ≠ OwnerAlias p → held None d' h n x).
  { intros h n x H N. assert (h ≠ HG) by (intros ->; by destruct (held_gone _ _ _ _ _ H eq_refl)).
    revert H. destruct h; cbn; rewrite ?Ea, ?Eh, ?Ep, ?Er; try done.
    intros (-> & res' & R' & ? & ?). split; [done|]. exists res'. by rewrite lookup_insert_ne. }
  assert (Hr : ∀ x res', resources d' !! x = Some res' → ∃ res0, resources d !! x = Some res0 ∧ res_plan res' = res_plan res0).
  { rewrite Er. intros x res' [[<- <-]|[_ E]]%lookup_insert_Some; eauto. }
  assert (Hr' : ∀ x res0, resources d !! x = Some res0 → ∃ res', resources d' !! x = Some res' ∧ res_plan res' = res_plan res0).
  { rewrite Er. intros x res0 E. destruct (decide (OwnerAlias p = x)) as [<-|N].
    - rewrite lookup_insert_eq. rewrite R in E. injection E as <-. by eexists.
    - rewrite lookup_insert_ne by done. by eexists. }
  destruct I as [I1 I2 I3 I4 I5 I6 I7 I8 I9 I10]. split.
  - rewrite Ea, Eh. exact I1.
  - rewrite Eh, En. exact I2.
  - rewrite Ea, Eh. exact I3.
  - intros x res' (res0 & E & ->)%Hr. by apply I4.
  - intros h n x [[H _]|(-> & _)]%Hh P; [|by destruct P]. rewrite Ek. by apply (I5 h).
  - intros h n x [[H _]|(-> & -> & ->)]%Hh.
    + destruct (I6 h n x H) as [N1 N2]. split; [done|]. intros res' (res0 & E & ->)%Hr. by apply N2.
    + split; [done|]. intros res' (res0 & E & ->)%Hr. by apply Nr.
  - intros h h' n n' x [[H N]|(-> & -> & ->)]%Hh [[H' N']|(-> & _ & E)]%Hh; try done. by apply (I7 h h' n n' x).
  - rewrite Ek. intros n x E N. destruct (I8 n x E N) as ((res0 & R0 & Rn) & h & H). split.
    + destruct (Hr' x res0 R0) as (res' & R' & E'). exists res'. by rewrite E'.
    + destruct (decide (x = OwnerAlias p)) as [->|Nx]; [|exists h; by apply Hb].
      exists (HF (OwnerAlias p)). split; [done|]. rewrite Er, lookup_insert_eq. eexists. split; [done|]. cbn.
      rewrite R in R0. by injection R0 as <-.
  - rewrite Es. intros n st E. destruct (I9 n st E) as (Hd & h & H & S). split; [done|]. exists h. split; [apply Hb; [done|by eapply Hs]|].
    revert S. destruct h; cbn; by rewrite ?Ea, ?Eh.
  - revert I10. unfold in_use, resourceCountLocked. rewrite Ea, Ep, Er.
    pose proof (flagged_flag (resources d) (OwnerAlias p) (mkResources (res_plan res) (res_port res) true)). lia.
Qed.

(** Forgetting the state of the plan: it has no other. *)
Lemma removeDynamicState_inv p d : inv (Some p) d →
  (∀ st, states d !! InterfaceName p = Some st → OwnerAlias (ms_desired st) = OwnerAlias p) →
  let d' := removeDynamicState p d in
  inv (Some p) d' ∧ same_attempts d d' ∧ resources d' = resources d ∧ sys d' = sys d ∧
  ∀ n st, states d' !! n = Some st → OwnerAlias (ms_desired st) ≠ OwnerAlias p.
Proof.
  intros I M. cbv zeta. unfold removeDynamicState.
  assert (At : ∀ n st, states d !! n = Some st → OwnerAlias (ms_desired st) = OwnerAlias p → n = InterfaceName p).
  { intros n st E Ea. destruct (i_states _ _ I _ _ E) as (_ & h & H & _). rewrite Ea in H.
    pose proof (gone_unique p d h n I H) as ->. by destruct (held_gone _ _ _ _ _ H eq_refl). }
  destruct (states d !! InterfaceName p) as [st|] eqn:E.
  - destruct (i_states _ _ I _ _ E) as (Dy & _). rewrite Dy, (M st eq_refl), bool_decide_eq_true_2 by done. cbn.
    split_and!; [|done..|].
    + destruct I as [I1 I2 I3 I4 I5 I6 I7 I8 I9 I10]. split; try done.
      cbn. intros n st' [_ E']%lookup_delete_Some. by apply I9.
    + intros n st' [N E']%lookup_delete_Some Ea. by apply N, eq_sym, (At n st').
  - split_and!; [done..|]. intros n st E' Ea. by rewrite (At n st E' Ea), E in E'.
Qed.

(** The removal of an interface by the backend, and what is noted of it. *)
Lemma remove_backend_inv p d : inv (Some p) d →
  (∀ n st, states d !! n = Some st → OwnerAlias (ms_desired st) ≠ OwnerAlias p) →
  let '(err, d') := backend (RemoveDynamic p) d in inv None (removed p err d').
Proof.
  intros I Hs. unfold backend. destruct (gone_alias p d I) as [Na Nr].
  destruct (kspec_run _ _ _ _ (sys d) (RemoveDynamic_spec p (ifaces (sys d))) eq_refl) as [(a & R & Av & E)|[R E]];
    destruct (RemoveDynamic p (sys d)) as [err k]; cbn in R, E.
  - subst err. unfold removed. cbn [resources set_sys].
    destruct (resources d !! OwnerAlias p) as [res|] eqn:Er; (eapply inv_removed; [exact I|by split| | |done| |done]; try done).
    by rewrite delete_id.
  - unfold removed. cbn [resources set_sys]. destruct (resources d !! OwnerAlias p) as [res|] eqn:Er.
    + destruct err as [a|e|]; [by destruct (R a)| |]; eapply inv_flagged; try exact I; try done.
    + eapply (inv_release p); [|intros n En|done].
      * destruct I as [I1 I2 I3 I4 I5 I6 I7 I8 I9 I10]. split; try done; cbn; rewrite E; [exact I5|exact I8].
      * cbn in En. rewrite E in En. destruct (i_kernel _ _ I _ _ En Na) as ((res & R' & _) & _). by rewrite Er in R'.
Qed.

Lemma removeInterface_inv p d : inv (Some p) d → inv None (removeInterface p d).
Proof.
  intros I. destruct (gone_alias p d I) as [Na Nr]. unfold removeInterface.
  destruct (match states d !! InterfaceName p with Some st => _ | None => false end) eqn:Mis.
  - (* another generation's state *)
    destruct (states d !! InterfaceName p) as [st|] eqn:E; [|done].
    rewrite negb_true_iff, bool_decide_eq_false in Mis.
    destruct (i_states _ _ I _ _ E) as (_ & h & H & S).
    assert (P : is_Some (owner h)).
    { destruct h as [r|r|x|]; [by exists r|done|done|]. by destruct (held_gone _ _ _ _ _ H eq_refl). }
    destruct (i_present _ _ I h _ _ H P) as [_ Ek].
    apply (inv_release p d I).
    + intros n En. destruct (i_kernel _ _ I _ _ En Na) as ((res & Er & En') & _).
      rewrite (Nr res Er) in En'. subst n. rewrite En in Ek. by injection Ek.
    + intros n st' En Ea. destruct (i_states _ _ I _ _ En) as (_ & h' & H' & S'). rewrite Ea in H'.
      pose proof (gone_unique p d h' n I H') as ->. destruct (held_gone _ _ _ _ _ H' eq_refl) as [-> _].
      rewrite E in En. injection En as <-. done.
  - assert (M : ∀ st, states d !! InterfaceName p = Some st → OwnerAlias (ms_desired st) = OwnerAlias p).
    { intros st E. rewrite E in Mis. by rewrite negb_false_iff, bool_decide_eq_true in Mis. }
    assert (I1 : inv (Some p) (removeEvidenceLocked (InterfaceName p) d)) by (eapply inv_same; [..|exact I]; done).
    destruct (removeDynamicState_inv p _ I1 M) as (I2 & _ & _ & _ & Hs).
    pose proof (remove_backend_inv p _ I2 Hs) as R. cbv zeta.
    by destruct (backend (RemoveDynamic p) _) as [err d'].
Qed.

(** * Stopping an attempt *)

Definition current d r id a : Prop := attempts d !! r = Some id ∧ heap d !! id = Some a.
Lemma current_remote gone d r id a : inv gone d → current d r id a → at_remote a = r.
Proof. intros I [E H]. destruct (i_attempt _ _ I _ _ E) as (a' & H' & <-). rewrite H in H'. by injection H' as <-. Qed.
Lemma isCurrent_current id d : isCurrentAttemptLocked id d = true ↔ ∃ a, current d (at_remote a) id a.
Proof.
  unfold isCurrentAttemptLocked, current. split.
  - destruct (heap d !! id) as [a|] eqn:E; [|done]. rewrite bool_decide_eq_true. by exists a.
  - intros (a & E & ->). by apply bool_decide_eq_true.
Qed.

Lemma discard_inv r id a d : inv None d → current d r id a → inv (Some (at_plan a)) (discardAttemptLocked r id d).
Proof.
  intros I C. pose proof (current_remote _ _ _ _ _ I C) as Er. destruct C as [Ea Eh].
  unfold discardAttemptLocked, stopAttempt. cbn [heap set_attempts]. rewrite Eh.
  set (a' := with_state _ _). set (d' := put_attempt _ _ _).
  assert (E1 : attempts d' = delete r (attempts d)) by (unfold d', udp_close; by destruct (udp a)).
  assert (E2 : heap d' = <[id := a']> (heap d)) by (unfold d', udp_close; by destruct (udp a)).
  assert (E3 : pendingCleanups d' = pendingCleanups d ∧ next_object d' = next_object d ∧ resources d' = resources d ∧
    states d' = states d ∧ sys d' = sys d) by (unfold d', udp_close; by destruct (udp a)).
  destruct E3 as (E3 & E4 & E5 & E6 & E7). clearbody d'.
  destruct I as [I1 I2 I3 I4 I5 I6 I7 I8 I9 I10].
  assert (Other : ∀ r' id' b, attempts d !! r' = Some id' → heap d !! id' = Some b → r' ≠ r → id' ≠ id).
  { intros r' id' b H1 H2 N ->. destruct (I1 _ _ H1) as (b' & H3 & <-). rewrite Eh in H3. injection H3 as <-. done. }
  assert (Back : ∀ h n x, held (Some (at_plan a)) d' h n x → ∃ h0, held None d h0 n x ∧
    ((h0 = h ∧ h ≠ HA r) ∨ (h = HG ∧ h0 = HA r))).
  { intros h n x H. destruct h as [r'|r'|y|]; cbn in H; rewrite ?E1, ?E2, ?E3, ?E5 in H.
    - destruct H as (id' & b & Hr & Hb & Hn & Hx). apply lookup_delete_Some in Hr as [N Hr].
      exists (HA r'). split; [|left; split; [done|congruence]]. exists id', b. split; [done|].
      destruct (decide (id = id')) as [<-|Ni].
      + destruct (I1 _ _ Hr) as (b' & H3 & H4). rewrite Eh in H3. injection H3 as <-. congruence.
      + by rewrite lookup_insert_ne in Hb.
    - exists (HP r'). split; [done|by left].
    - exists (HF y). split; [done|by left].
    - destruct H as (q & [= <-] & <- & <-). exists (HA r). split; [by exists id, a|by right]. }
  assert (Forth : ∀ h n x, held None d h n x → ∃ h', held (Some (at_plan a)) d' h' n x ∧
    (supervised d h → supervised d' h')).
  { intros h n x H. destruct h as [r'|r'|y|]; cbn in H.
    - destruct H as (id' & b & Hr & Hb & Hn & Hx). destruct (decide (r' = r)) as [->|N].
      + rewrite Ea in Hr. injection Hr as <-. rewrite Eh in Hb. injection Hb as <-. exists HG. split; [by exists (at_plan a)|done].
      + assert (Ni := Other _ _ _ Hr Hb N). exists (HA r'). cbn. rewrite E1, E2. split.
        * exists id', b. by rewrite lookup_delete_ne, lookup_insert_ne.
        * intros (id2 & b2 & Hr2 & Hb2 & L). exists id2, b2. rewrite Hr in Hr2. injection Hr2 as <-.
          by rewrite lookup_delete_ne, lookup_insert_ne.
    - exists (HP r'). cbn. by rewrite E3.
    - exists (HF y). cbn. by rewrite E5.
    - by destruct H as (q & [=] & _). }
  split.
  - rewrite E1, E2. intros r' id' [N Hr]%lookup_delete_Some. destruct (I1 _ _ Hr) as (b & Hb & Hbr).
    exists b. split; [|done]. rewrite lookup_insert_ne; [done|]. intros ->. by eapply Other.
  - rewrite E2, E4. intros id' b [[<- <-]|[_ Hb]]%lookup_insert_Some; by eapply I2.
  - rewrite E1, E2. intros id' b [[<- <-]|[N Hb]]%lookup_insert_Some; [done|]. intros Cb.
    pose proof (I3 _ _ Hb Cb) as Hr. rewrite lookup_delete_ne; [done|]. intros Er'. rewrite <- Er' in Hr. congruence.
  - by rewrite E5.
  - rewrite E7. intros h n x (h0 & H & [[-> N]|[-> ->]])%Back P; [by apply (I5 h)|by destruct P].
  - rewrite E5. intros h n x (h0 & H & _)%Back. by apply (I6 h0).
  - intros h h' n n' x (h0 & H & C0)%Back (h1 & H' & C1)%Back.
    pose proof (I7 _ _ _ _ _ H H') as ->. destruct C0 as [[-> N0]|[-> E0]], C1 as [[E' N1]|[-> E1']]; congruence.
  - rewrite E5, E7. intros n x E N. destruct (I8 n x E N) as (R & h & H). split; [done|].
    destruct (Forth _ _ _ H) as (h' & H' & _). by exists h'.
  - rewrite E6. intros n st E. destruct (I9 n st E) as (Hd & h & H & S). split; [done|].
    destruct (Forth _ _ _ H) as (h' & H' & S'). exists h'. auto.
  - revert I10. unfold in_use, resourceCountLocked. rewrite E1, E3, E5, map_size_delete_Some by (by eexists).
    assert (size (attempts d) ≠ 0%nat) by (apply map_size_ne_0_lookup; by exists r, id). cbn. lia.
Qed.

(** What [discardAttemptLocked] and [fallbackLocked] leave alone. *)
Record fell_back r d d' : Prop := {
  fb_attempts : attempts d' = delete r (attempts d); fb_pending : pendingCleanups d' = pendingCleanups d;
  fb_resources : resources d' = resources d; fb_states : states d' = states d; fb_sys : sys d' = sys d }.
Lemma discard_fell_back r id a d : heap d !! id = Some a → fell_back r d (discardAttemptLocked r id d).
Proof. intros E. unfold discardAttemptLocked, stopAttempt. cbn. rewrite E. unfold udp_close. by destruct (udp a). Qed.

(** A fallback of a current attempt hands its plan to the caller. *)
Lemma fallback_current c id a d : isCurrentAttemptLocked id d = true → heap d !! id = Some a →
  ∃ d', fallbackLocked c id d = (if bool_decide (InterfaceName (at_plan a) = ""%string) then None else Some (at_plan a), d') ∧ fell_back (at_remote a) d d' ∧
    ∀ gone, inv gone (discardAttemptLocked (at_remote a) id d) → inv gone d'.
Proof.
  intros Cu Eh. unfold fallbackLocked. rewrite Eh, Cu. cbn [negb].
  eexists. split; [done|]. destruct (discard_fell_back (at_remote a) id a d Eh) as [E1 E2 E3 E4 E5].
  set (d1 := discardAttemptLocked _ _ _) in *. clearbody d1.
  destruct (targetForPeerLocked _ _) as [[addr t]|]; [destruct (_ <? _)|]; destruct (localProposal a);
    (split; [by split|]); intros gone I; eapply inv_same; try exact I; done.
Qed.
Lemma fallback_inv c r id a d : inv None d → current d r id a →
  ∃ d', fallbackLocked c id d = (Some (at_plan a), d') ∧ inv (Some (at_plan a)) d' ∧ fell_back r d d' ∧
    InterfaceName (at_plan a) = iface_of r ∧ ifaces (sys d) !! InterfaceName (at_plan a) = Some (OwnerAlias (at_plan a)).
Proof.
  intros I C. pose proof (current_remote _ _ _ _ _ I C) as Er.
  assert (Cu : isCurrentAttemptLocked id d = true) by (apply isCurrent_current; exists a; by rewrite Er).
  destruct (i_present _ _ I (HA r) (InterfaceName (at_plan a)) (OwnerAlias (at_plan a))) as [Nn P];
    [destruct C; by exists id, a|by eexists|]. cbn in Nn.
  destruct (fallback_current c id a d Cu (proj2 C)) as (d' & E & F & G). rewrite Er in *.
  rewrite bool_decide_eq_false_2 in E by (rewrite Nn; apply iface_ne).
  exists d'. split_and!; try done. by apply G, discard_inv.
Qed.

Lemma abandon_inv c id d : inv None d → inv None (abandon c id d).
Proof.
  intros I. unfold abandon. destruct (isCurrentAttemptLocked id d) eqn:Cu.
  - apply isCurrent_current in Cu as (a & C). destruct (fallback_inv c _ id a d I C) as (d' & -> & I' & _).
    by apply removeInterface_inv.
  - unfold fallbackLocked. rewrite Cu. by destruct (heap d !! id).
Qed.
Lemma failAttempt_inv c id allowed d : inv None d → inv None (failAttempt c id allowed d).
Proof.
  intros I. unfold failAttempt. destruct (heap d !! id); [|done]. destruct (_ && _); [|done]. by apply (abandon_inv c id d).
Qed.

(** * Holders that change *)

(** [f] says who holds in [d'] what a holder holds in [d]. *)
Lemma inv_transport (f : holder → holder) gone gone' d d' : inv gone d →
  resources d' = resources d → states d' = states d → sys d' = sys d → (in_use gone' d' <= maxLinks)%nat →
  (∀ r id, attempts d' !! r = Some id → ∃ a, heap d' !! id = Some a ∧ at_remote a = r) →
  (∀ id a, heap d' !! id = Some a → (id < next_object d')%nat) →
  (∀ id a, heap d' !! id = Some a → cancelled a = false → attempts d' !! at_remote a = Some id) →
  (∀ h n x, held gone' d' h n x → ∃ h0, held gone d h0 n x ∧ f h0 = h) →
  (∀ h n x, held gone d h n x → held gone' d' (f h) n x ∧
    (is_Some (owner (f h)) → present (f h) n ∧ ifaces (sys d) !! n = Some x)) →
  (∀ n st h, states d !! n = Some st → held gone d h n (OwnerAlias (ms_desired st)) → supervised d h → supervised d' (f h)) →
  inv gone' d'.
Proof.
  intros [I1 I2 I3 I4 I5 I6 I7 I8 I9 I10] Er Es Ek Hc P1 P2 P3 Hb Hf Hs. split; try done.
  - by rewrite Er.
  - intros h n x (h0 & H & <-)%Hb. rewrite Ek. by apply Hf.
  - rewrite Er. intros h n x (h0 & H & _)%Hb. by apply (I6 h0).
  - intros h h' n n' x (h0 & H & <-)%Hb (h1 & H' & <-)%Hb. by rewrite (I7 _ _ _ _ _ H H').
  - rewrite Er, Ek. intros n x E N. destruct (I8 n x E N) as (R & h & H). split; [done|]. exists (f h). by apply Hf.
  - rewrite Es. intros n st E. destruct (I9 n st E) as (Hd & h & H & S). split; [done|]. exists (f h).
    split; [by apply Hf|by eapply Hs].
Qed.

(** An attempt changes, but not its interface. *)
Lemma put_attempt_inv gone id a a' d : inv gone d → heap d !! id = Some a → at_remote a' = at_remote a →
  InterfaceName (at_plan a') = InterfaceName (at_plan a) → OwnerAlias (at_plan a') = OwnerAlias (at_plan a) →
  (cancelled a' = false → cancelled a = false) → (linked a → linked a') → inv gone (put_attempt id a' d).
Proof.
  intros I Eh Er En Ea Ec El.
  assert (U : ∀ id' b, heap d !! id' = Some b → ∃ b', heap (put_attempt id a' d) !! id' = Some b' ∧ at_remote b' = at_remote b ∧
    InterfaceName (at_plan b') = InterfaceName (at_plan b) ∧ OwnerAlias (at_plan b') = OwnerAlias (at_plan b) ∧ (linked b → linked b')).
  { intros id' b E. cbn. destruct (decide (id = id')) as [<-|N].
    - rewrite lookup_insert_eq. rewrite Eh in E. injection E as <-. by exists a'.
    - rewrite lookup_insert_ne by done. by exists b. }
  assert (V : ∀ id' b', heap (put_attempt id a' d) !! id' = Some b' → ∃ b, heap d !! id' = Some b ∧ at_remote b = at_remote b' ∧
    InterfaceName (at_plan b) = InterfaceName (at_plan b') ∧ OwnerAlias (at_plan b) = OwnerAlias (at_plan b') ∧
    (cancelled b' = false → cancelled b = false)).
  { intros id' b' E. cbn in E. apply lookup_insert_Some in E as [[<- <-]|[_ E]]; [by exists a|by exists b']. }
  apply (inv_transport (λ h, h) gone gone d); try done; [apply (i_count _ _ I)|..].
  - intros r id' E. destruct (i_attempt _ _ I _ _ E) as (b & Hb & <-). destruct (U _ _ Hb) as (b' & ? & ? & _). by exists b'.
  - intros id' b' (b & Hb & _)%V. by eapply (i_fresh _ _ I).
  - intros id' b' (b & Hb & <- & _ & _ & C)%V Cb. apply (i_live _ _ I _ _ Hb), C, Cb.
  - intros h n x H. exists h. split; [|done]. destruct h; try done.
    destruct H as (id' & b' & H1 & (b & Hb & _ & <- & <- & _)%V & <- & <-). by exists id', b.
  - intros h n x H. split; [|intros O; by apply (i_present _ _ I h)].
    destruct h; try done. destruct H as (id' & b & H1 & (b' & Hb & _ & <- & <- & _)%U & <- & <-). by exists id', b'.
  - intros n st h _ _. destruct h; try done.
    intros (id' & b & H1 & (b' & Hb & _ & _ & _ & L)%U & Lb). exists id', b'. auto.
Qed.

(** The interface under way is an attempt's from now on. *)
Lemma adopt_inv r id a d d' : inv (Some (at_plan a)) d → at_remote a = r → cancelled a = false → (id < next_object d)%nat →
  attempts d !! r = None → (∀ b, heap d !! id = Some b → False) →
  InterfaceName (at_plan a) = iface_of r → ifaces (sys d) !! InterfaceName (at_plan a) = Some (OwnerAlias (at_plan a)) →
  (∀ n st, states d !! n = Some st → OwnerAlias (ms_desired st) ≠ OwnerAlias (at_plan a)) ∨ linked a →
  attempts d' = <[r := id]> (attempts d) → heap d' = <[id := a]> (heap d) → pendingCleanups d' = pendingCleanups d →
  next_object d' = next_object d → resources d' = resources d → states d' = states d → sys d' = sys d → inv None d'.
Proof.
  intros I Er Ec Hi Ea Eh Nm Ek Hs E1 E2 E3 E4 E5 E6 E7.
  assert (St : ∀ n st h, states d !! n = Some st → held (Some (at_plan a)) d h n (OwnerAlias (ms_desired st)) → h = HG → linked a).
  { intros n st h E H Eg. destruct (held_gone _ _ _ _ _ H Eg) as [_ Ex]. destruct Hs as [Hs|L]; [by destruct (Hs n st)|done]. }
  assert (Fwd : ∀ r' id' b, attempts d !! r' = Some id' → heap d !! id' = Some b → r' ≠ r ∧ id' ≠ id).
  { intros r' id' b Ha Hb. split; [intros ->; congruence|intros ->; by apply (Eh b)]. }
  apply (inv_transport (λ h, match h with HG => HA r | _ => h end) (Some (at_plan a)) None d); try done.
  - pose proof (i_count _ _ I) as C. revert C. unfold in_use, resourceCountLocked.
    rewrite E1, E3, E5, map_size_insert_None by done. lia.
  - rewrite E1, E2. intros r' id' [[<- <-]|[N Hr]]%lookup_insert_Some; [exists a; by rewrite lookup_insert_eq|].
    destruct (i_attempt _ _ I _ _ Hr) as (b & Hb' & ?). exists b. rewrite lookup_insert_ne; [done|].
    intros <-. by apply (Eh b).
  - rewrite E2, E4. intros id' b [[<- <-]|[_ Hb']]%lookup_insert_Some; [done|by eapply (i_fresh _ _ I)].
  - rewrite E1, E2. intros id' b [[<- <-]|[N Hb']]%lookup_insert_Some Cb; [by rewrite Er, lookup_insert_eq|].
    pose proof (i_live _ _ I _ _ Hb' Cb) as Hr. rewrite lookup_insert_ne; [done|]. congruence.
  - intros h n x H. destruct h as [r'|r'|y|]; cbn in H; rewrite ?E1, ?E2, ?E3, ?E5 in H.
    + destruct H as (id' & b & [[<- <-]|[N Hr]]%lookup_insert_Some & Hb & Hn & Hx).
      * rewrite lookup_insert_eq in Hb. injection Hb as <-. exists HG. split; [by exists (at_plan a)|done].
      * exists (HA r'). split; [|done]. exists id', b. rewrite lookup_insert_ne in Hb; [done|]. intros <-.
        destruct (i_attempt _ _ I _ _ Hr) as (b0 & Hb0 & _). by apply (Eh b0).
    + by exists (HP r').
    + by exists (HF y).
    + by destruct H as (q & [=] & _).
  - intros h n x H. destruct h as [r'|r'|y|]; cbn; rewrite ?E1, ?E2, ?E3, ?E5.
    + split; [|intros _; apply (i_present _ _ I (HA r')); [done|by eexists]].
      destruct H as (id' & b & Hr & Hb' & ?). destruct (Fwd _ _ _ Hr Hb'). exists id', b. by rewrite !lookup_insert_ne.
    + split; [done|intros _; apply (i_present _ _ I (HP r')); [done|by eexists]].
    + split; [done|by intros []].
    + destruct (held_gone _ _ _ _ _ H eq_refl) as [-> ->]. split; [|done]. exists id, a. by rewrite !lookup_insert_eq.
  - intros n st h E H S. destruct h as [r'|r'|y|]; cbn; rewrite ?E1, ?E2; try done.
    + destruct S as (id' & b & Hr & Hb' & L). destruct (Fwd _ _ _ Hr Hb'). exists id', b. by rewrite !lookup_insert_ne.
    + exists id, a. rewrite !lookup_insert_eq. split_and!; [done|done|]. by eapply St.
Qed.
End Invariant.
