(* ===== verification/AttemptsSafety.v ===== *)
(** Every operation of Attempts.v keeps the invariant of AttemptsProps.v, and
    so does every run of them. *)

From S2P Require Import Prelude Netip Ports Spec Desired Link Field MessageData Inference Recovery Interfaces.
From S2P Require Import DynamicPolicy Durable Attempts AttemptsProps.
From stdpp Require Import gmap strings.
Open Scope Z_scope.
Open Scope velvet_scope.

Implicit Types (d : engine) (c : call) (id : nat) (a : dynamicAttempt) (r : list byte) (name alias : string) (p plan : LinkPlan)
  (gone : option LinkPlan) (s : session) (m : Message) (h : holder).

Section Safety.
Context (uuid_text : list byte → string) (cfg : desired).
(** The identity, with its name, that a peer presents. *)
Context (peer_of : list byte → UID).
Definition iface_of r : string := DynamicInterfaceName uuid_text (peer_of r).
(** The aliases of automatic Links of the node. *)
Definition mine alias : Prop := ∃ remote op, alias = OwnerAlias (generation uuid_text cfg remote op).
Lemma mine_ne : ¬ mine "".
Proof. by intros (remote & op & [=]). Qed.
Notation inv := (inv iface_of mine).
Notation present := (present iface_of).

Lemma iface_ne r : iface_of r ≠ ""%string.
Proof. unfold iface_of, DynamicInterfaceName. by case_bool_decide. Qed.

(** * Owning an interface *)

(** No other resource has the alias, but one that is to be removed. *)
Definition reusable plan d : Prop := ∀ res, resources d !! OwnerAlias plan = Some res →
  cleanup res = true ∧ InterfaceName (res_plan res) = InterfaceName plan.

(** The holders of a reusable alias. *)
Lemma reusable_held plan d h n : inv None d → reusable plan d → held None d h n (OwnerAlias plan) → h = HF (OwnerAlias plan).
Proof.
  intros I R H. destruct h as [r|r|y|].
  4: by destruct H as (q & [=] & _).
  3: by destruct H as (-> & _).
  all: destruct (i_present _ _ _ _ I _ _ _ H) as [_ E]; [by eexists|].
  all: destruct (i_kernel _ _ _ _ I _ _ E) as ((res & Er & En) & _); [by destruct (i_alias _ _ _ _ I _ _ _ H)|].
  all: destruct (R res Er) as [C _].
  all: assert (HFh : held None d (HF (OwnerAlias plan)) n (OwnerAlias plan)) by (split; [done|by exists res]).
  all: by pose proof (i_unique _ _ _ _ I _ _ _ _ _ H HFh).
Qed.
Lemma reusable_state plan d n st : inv None d → reusable plan d → states d !! n = Some st →
  OwnerAlias (ms_desired st) ≠ OwnerAlias plan.
Proof.
  intros I R E Ea. destruct (i_states _ _ _ _ I _ _ E) as (_ & h & H & S). rewrite Ea in H.
  by rewrite (reusable_held plan d h n I R H) in S.
Qed.

Lemma own_lookup plan lease d x res : resources (own plan lease d) !! x = Some res ↔
  (OwnerAlias plan = x ∧ mkResources plan lease false = res) ∨ (OwnerAlias plan ≠ x ∧ resources d !! x = Some res).
Proof. apply lookup_insert_Some. Qed.
Lemma own_fresh plan lease d : inv None d → reusable plan d → mine (OwnerAlias plan) →
  (in_use (Some plan) (own plan lease d) <= maxLinks)%nat → inv (Some plan) (own plan lease d).
Proof.
  intros I R Na Hc. pose proof (reusable_held plan d) as RH.
  assert (Hh : ∀ h n x, held (Some plan) (own plan lease d) h n x →
    (held None d h n x ∧ x ≠ OwnerAlias plan) ∨ (h = HG ∧ n = InterfaceName plan ∧ x = OwnerAlias plan)).
  { intros h n x H. destruct h as [r|r|y|].
    - left. split; [done|]. intros ->. by pose proof (RH (HA r) n I R H).
    - left. split; [done|]. intros ->. by pose proof (RH (HP r) n I R H).
    - left. destruct H as (-> & res & E & C & ?). apply own_lookup in E as [[<- <-]|[N E]]; [done|].
      split; [|done]. split; [done|]. by exists res.
    - right. by destruct (held_gone _ _ _ _ _ H eq_refl). }
  assert (Hb : ∀ h n x, held None d h n x → x ≠ OwnerAlias plan → held (Some plan) (own plan lease d) h n x).
  { intros h n x H N. destruct h as [r|r|y|]; try done; [|by destruct H as (q & [=] & _)].
    destruct H as (-> & res & E & ?). split; [done|]. exists res. cbn. by rewrite lookup_insert_ne. }
  pose proof I as [I1 I2 I3 I4 I5 I6 I7 I8 I9 I10]. split; try done.
  - intros x res [[<- <-]|[_ E]]%own_lookup; [done|by apply I4].
  - intros h n x [[H _]|(-> & _)]%Hh O; [by apply (I5 h)|by destruct O].
  - intros h n x [[H N]|(-> & -> & ->)]%Hh.
    + destruct (I6 h n x H) as [N1 N2]. split; [done|]. intros res [[<- _]|[_ E]]%own_lookup; [done|by apply N2].
    + split; [done|]. intros res [[_ <-]|[? _]]%own_lookup; done.
  - intros h h' n n' x [[H N]|(-> & _ & ->)]%Hh [[H' N']|(-> & _ & ?)]%Hh; try done. by apply (I7 h h' n n' x).
  - intros n x E N. cbn in E. destruct (I8 n x E N) as ((res & Er & En) & h & H). cbn.
    destruct (decide (x = OwnerAlias plan)) as [->|Nx].
    + destruct (R res Er) as [_ En']. split; [eexists; rewrite lookup_insert_eq; split; [done|cbn; congruence]|].
      exists HG, plan. split_and!; [done|congruence|done].
    + split; [exists res; by rewrite lookup_insert_ne|]. exists h. by apply Hb.
  - intros n st E. destruct (I9 n st E) as (Hd & h & H & S). split; [done|]. exists h. split; [|done].
    apply Hb; [done|]. by apply (reusable_state plan d n st).
Qed.
Lemma own_count plan lease d gone : (in_use gone (own plan lease d) <= in_use gone d)%nat.
Proof.
  unfold in_use, resourceCountLocked. cbn.
  pose proof (flagged_own (resources d) (OwnerAlias plan) (mkResources plan lease false) eq_refl). lia.
Qed.

(** A holder's own resource is replaced. *)
Lemma own_held gone plan lease d h : inv gone d → held gone d h (InterfaceName plan) (OwnerAlias plan) →
  (∀ y, h ≠ HF y) → inv gone (own plan lease d).
Proof.
  intros I H Nf. destruct (i_alias _ _ _ _ I _ _ _ H) as [Na Nr].
  assert (Hi : ∀ h' n x, held gone (own plan lease d) h' n x ↔ held gone d h' n x).
  { intros h' n x. destruct h' as [r|r|y|]; try done. split.
    - intros (-> & res & [[<- <-]|[_ E]]%own_lookup & C & ?); [done|]. split; [done|]. by exists res.
    - intros H'. pose proof H' as (-> & res & E & ?). split; [done|]. exists res. cbn. rewrite lookup_insert_ne; [done|].
      intros <-. by destruct (Nf (OwnerAlias plan)), (i_unique _ _ _ _ I _ _ _ _ _ H H'). }
  destruct I as [I1 I2 I3 I4 I5 I6 I7 I8 I9 I10]. split; try done.
  - intros x res [[<- <-]|[_ E]]%own_lookup; [done|by apply I4].
  - intros h' n x H'%Hi. by apply (I5 h').
  - intros h' n x H'%Hi. destruct (I6 _ _ _ H') as [N1 N2]. split; [done|].
    intros res [[<- <-]|[_ E]]%own_lookup; [|by apply N2]. cbn.
    pose proof (I7 _ _ _ _ _ H H') as <-. destruct h as [r|r|y|]; [..|by destruct (Nf y)|].
    + destruct H as (id & a & A1 & A2 & <- & _), H' as (id' & a' & A1' & A2' & <- & _). congruence.
    + destruct H as (cid & q & A & <- & _), H' as (cid' & q' & A' & <- & _). congruence.
    + destruct H as (q & A & <- & _), H' as (q' & A' & <- & _). congruence.
  - intros h' h'' n n' x H'%Hi H''%Hi. by apply (I7 h' h'' n n' x).
  - intros n x E N. destruct (I8 n x E N) as ((res & Er & En) & h' & H'). split; [|exists h'; by apply Hi]. cbn.
    destruct (decide (OwnerAlias plan = x)) as [<-|Nx]; [|exists res; by rewrite lookup_insert_ne].
    eexists. rewrite lookup_insert_eq. split; [done|]. cbn. by rewrite <- En, (Nr res Er).
  - intros n st E. destruct (I9 n st E) as (Hd & h' & H' & S). split; [done|]. exists h'. split; [by apply Hi|done].
  - pose proof (own_count plan lease d gone). lia.
Qed.

(** A preparation touches no other interface. *)
Lemma touched_inv p d k : inv (Some p) d → is_Some (resources d !! OwnerAlias p) →
  touched p (ifaces (sys d)) (ifaces k) → inv (Some p) (set_sys k d).
Proof.
  intros I [res R] [T1 T2 T3]. destruct (gone_alias _ _ p d I) as [Na Nr].
  pose proof I as [I1 I2 I3 I4 I5 I6 I7 I8 I9 I10]. split; try done; cbn.
  - intros h n x H O. destruct (I5 h n x H O) as [P E]. split; [done|]. destruct (decide (n = InterfaceName p)) as [->|N]; [|by rewrite T1].
    apply T2; [done|]. intros ->. rewrite (gone_unique _ _ p d h _ I H) in O. by destruct O.
  - intros n x E N. destruct (decide (n = InterfaceName p)) as [->|Nn]; [|rewrite T1 in E by done; by apply I8].
    destruct (T3 x E) as [E'|[->| ->]]; [by apply I8|by apply mine_ne in N|]. split; [exists res; auto|]. exists HG. apply gone_held.
Qed.

(** * Deferred cleanups *)

(** The interface under way is in the kernel, with the name of peer [r]. *)
Definition gone_of r plan d : Prop :=
  InterfaceName plan = iface_of r ∧ ifaces (sys d) !! InterfaceName plan = Some (OwnerAlias plan).
Definition stateless plan d : Prop := ∀ n st, states d !! n = Some st → OwnerAlias (ms_desired st) ≠ OwnerAlias plan.

Lemma gone_owner r plan d h n x : inv (Some plan) d → gone_of r plan d → held (Some plan) d h n x → owner h = Some r → False.
Proof.
  intros I [En Ek] H O. destruct (i_present _ _ _ _ I h n x H) as [P E]; [by eexists|].
  assert (n = iface_of r) as -> by (destruct h; cbn in O, P; congruence).
  rewrite <- En, Ek in E. injection E as <-. by rewrite (gone_unique _ _ plan d h _ I H) in O.
Qed.
Lemma gone_no_pending r plan d : inv (Some plan) d → gone_of r plan d → pendingCleanups d !! r = None.
Proof.
  intros I G. destruct (pendingCleanups d !! r) as [[cid q]|] eqn:E; [|done].
  by destruct (gone_owner r plan d (HP r) (InterfaceName q) (OwnerAlias q) I G); [exists cid, q|].
Qed.
Lemma gone_no_attempt r plan d : inv (Some plan) d → gone_of r plan d → attempts d !! r = None.
Proof.
  intros I G. destruct (attempts d !! r) as [id|] eqn:E; [|done]. destruct (i_attempt _ _ _ _ I _ _ E) as (a & Ea & _).
  by destruct (gone_owner r plan d (HA r) (InterfaceName (at_plan a)) (OwnerAlias (at_plan a)) I G); [exists id, a|].
Qed.

Lemma defer_inv r plan d : inv (Some plan) d → gone_of r plan d → stateless plan d → inv None (deferCleanupLocked r plan d).
Proof.
  intros I G St. pose proof (gone_no_pending r plan d I G) as Ep. unfold deferCleanupLocked, cancelDeferredCleanupLocked.
  rewrite delete_id by done. cbn [next_object set_pending].
  apply (inv_transport iface_of mine (λ h, match h with HG => HP r | _ => h end) (Some plan) None d); try done; cbn.
  - pose proof (i_count _ _ _ _ I) as C. revert C. unfold in_use, resourceCountLocked. cbn. rewrite map_size_insert_None by done. lia.
  - apply (i_attempt _ _ _ _ I).
  - intros id a E. pose proof (i_fresh _ _ _ _ I _ _ E). lia.
  - apply (i_live _ _ _ _ I).
  - intros h n x H. destruct h as [r'|r'|y|]; [by exists (HA r')| |by exists (HF y)|by destruct H as (q & [=] & _)].
    destruct H as (cid & q & E & Hn & Hx). cbn in E.
    apply lookup_insert_Some in E as [[<- [= _ <-]]|[N E]]; [exists HG; split; [by exists plan|done]|].
    exists (HP r'). split; [by exists cid, q|done].
  - intros h n x H. pose proof (i_present _ _ _ _ I h n x H) as P. destruct h as [r'|r'|y|]; cbn; [by auto| |by split; [|intros []]|].
    + split; [|auto]. destruct H as (cid & q & E & ?). exists cid, q. rewrite lookup_insert_ne; [done|]. by intros <-; rewrite Ep in E.
    + destruct (held_gone _ _ _ _ _ H eq_refl) as [-> ->]. split; [|by destruct G].
      exists (next_object d), plan. by rewrite lookup_insert_eq.
  - intros n st h E H. destruct h; cbn; try done. destruct (held_gone _ _ _ _ _ H eq_refl) as [_ Ea]. by destruct (St n st E).
Qed.

Lemma cancel_inv r cid plan d : inv None d → pendingCleanups d !! r = Some (cid, plan) →
  let d' := cancelDeferredCleanupLocked r d in inv (Some plan) d' ∧ gone_of r plan d' ∧ stateless plan d'.
Proof.
  intros I Ep. assert (Hp : held None d (HP r) (InterfaceName plan) (OwnerAlias plan)) by (by exists cid, plan).
  destruct (i_present _ _ _ _ I _ _ _ Hp) as [En Ek]; [by eexists|]. cbv zeta. split_and!; [|done|].
  - apply (inv_transport iface_of mine (λ h, if decide (h = HP r) then HG else h) None (Some plan) d); try done; cbn.
    + pose proof (i_count _ _ _ _ I) as C. revert C. unfold in_use, resourceCountLocked. cbn. rewrite map_size_delete_Some by (by eexists).
      assert (size (pendingCleanups d) ≠ 0%nat) by (apply map_size_ne_0_lookup; by exists r, (cid, plan)). lia.
    + apply (i_attempt _ _ _ _ I).
    + apply (i_fresh _ _ _ _ I).
    + apply (i_live _ _ _ _ I).
    + intros h n x H. destruct h as [r'|r'|y|].
      * exists (HA r'). by destruct (decide _).
      * destruct H as (cid' & q & E & ?). cbn in E. apply lookup_delete_Some in E as [N E]. exists (HP r'). split; [by exists cid', q|].
        destruct (decide _) as [[= ->]|_]; done.
      * exists (HF y). by destruct (decide _).
      * destruct (held_gone _ _ _ _ _ H eq_refl) as [-> ->]. exists (HP r). by destruct (decide _).
    + intros h n x H. pose proof (i_present _ _ _ _ I h n x H) as P. destruct (decide (h = HP r)) as [->|N].
      * split; [|by intros []]. destruct H as (cid' & q & E & <- & <-). rewrite Ep in E. injection E as _ <-. apply gone_held.
      * split; [|done]. destruct h as [r'|r'|y|]; try done; [|by destruct H as (q & [=] & _)].
        destruct H as (cid' & q & E & ?). exists cid', q. split; [|done]. cbn. rewrite lookup_delete_ne; [done|congruence].
    + intros n st h E H. by destruct (decide _) as [->|_]; [|by destruct h].
  - intros n st E Ea. destruct (i_states _ _ _ _ I _ _ E) as (_ & h & H & S). rewrite Ea in H.
    by rewrite (i_unique _ _ _ _ I _ _ _ _ _ H Hp) in S.
Qed.

(** A state names the attempt's interface only while that is supervised. *)
Lemma current_stateless r id a d : inv None d → current d r id a → ¬ linked a → stateless (at_plan a) d.
Proof.
  intros I [Ea Eh] N n st E Ex. destruct (i_states _ _ _ _ I _ _ E) as (_ & h & H & S). rewrite Ex in H.
  assert (Ha : held None d (HA r) (InterfaceName (at_plan a)) (OwnerAlias (at_plan a))) by (by exists id, a).
  rewrite (i_unique _ _ _ _ I _ _ _ _ _ H Ha) in S. destruct S as (id' & a' & E1 & E2 & L).
  rewrite Ea in E1. injection E1 as <-. rewrite Eh in E2. injection E2 as <-. done.
Qed.

(** * Preparing an attempt *)

Definition same_link plan p : Prop := InterfaceName p = InterfaceName plan ∧ OwnerAlias p = OwnerAlias plan.

(** [d'] is [d1] with the new attempt. *)
Record adopted r id a d1 d' : Prop := {
  ad_remote : at_remote a = r; ad_cancelled : cancelled a = false; ad_state : at_state a = dynamicPreparing;
  ad_attempts : attempts d' = <[r := id]> (attempts d1); ad_heap : heap d' = <[id := a]> (heap d1);
  ad_pending : pendingCleanups d' = pendingCleanups d1; ad_next : next_object d' = next_object d1;
  ad_resources : resources d' = resources d1; ad_states : states d' = states d1; ad_sys : sys d' = sys d1 }.

(** What a preparation does before its attempt exists. *)
Inductive prepares plan d : bool → LinkPlan → engine → Prop :=
  | P_none d1 : resources d1 = resources d → sys d1 = sys d → prepares plan d false LinkPlan_zero d1
  | P_new ok p lease d1 : same_link plan p →
      resources d1 = resources (own p lease d) → touched p (ifaces (sys d)) (ifaces (sys d1)) →
      (ok = true → ifaces (sys d1) !! InterfaceName p = Some (OwnerAlias p)) → prepares plan d ok p d1.

Lemma baseline_probing port q : same_link q (probing_plan port q).
Proof. done. Qed.

Lemma prepare_new c s op local d :
  ∃ ok a d1 d', prepareAttemptLocked uuid_text cfg c s op local LinkPlan_zero d = (next_object d, ok, d') ∧
    adopted (UUID (RemoteUID s)) (next_object d) a d1 d' ∧ same_attempts (new_object d) d1 ∧ states d1 = states d ∧
    ∃ p, prepares (generation uuid_text cfg (RemoteUID s) op) d ok p d1 ∧ same_link p (at_plan a).
Proof.
  unfold prepareAttemptLocked. cbn [at_plan new_attempt evidence put_attempt set_heap set_attempts new_object].
  destruct (Baseline (evidence d) 1) as [hint|].
  2: { exists false, (new_attempt s op local LinkPlan_zero), (new_object d). eexists. split; [done|]. split_and!; [by split..|].
       exists LinkPlan_zero. split; [by constructor|done]. }
  destruct (prepared_udp c) as [u|].
  2: { exists false, (new_attempt s op local LinkPlan_zero), (new_object d). eexists. split; [done|]. split_and!; [by split..|].
       exists LinkPlan_zero. split; [by constructor|done]. }
  set (plan := probing_plan (Port (primary u)) (generation uuid_text cfg (RemoteUID s) op)).
  assert (Sp : same_link (generation uuid_text cfg (RemoteUID s) op) plan) by done. clearbody plan.
  cbn [at_plan with_udp InterfaceName LinkPlan_zero]. rewrite bool_decide_eq_true_2 by done. unfold backend.
  pose proof (kspec_run _ _ _ _ (sys d) (PrepareDynamic_spec plan (device_port c) (ifaces (sys d))) eq_refl) as R.
  cbn [sys own put_attempt set_heap set_attempts set_resources new_object].
  destruct (PrepareDynamic (device_port c) plan (sys d)) as [res k]. cbn [fst snd] in R.
  destruct R as [(q & -> & Sq & Av & Ek)|[Nr T]].
  - assert (Sq' : same_link plan q) by (by destruct Sq as [->| ->]).
    assert (T : touched q (ifaces (sys d)) (ifaces k)).
    { destruct Sq' as [E1 E2]. rewrite Ek, <- E1, <- E2. apply touched_insert; [|by right]. unfold available. by rewrite E1, E2. }
    set (d1 := set_sys k (own q None (new_object d))).
    assert (P : ∀ ok, prepares (generation uuid_text cfg (RemoteUID s) op) d ok q d1).
    { intros ok. apply P_new with (lease := None); try done.
      - destruct Sp, Sq'. split; congruence.
      - intros _. destruct Sq' as [E1 E2]. cbn. rewrite Ek, E1, E2. apply lookup_insert_eq. }
    assert (Er : ∀ v w : linkResources, <[OwnerAlias q := v]> (<[OwnerAlias plan := w]> (resources d)) = <[OwnerAlias q := v]> (resources d)).
    { intros v w. destruct Sq' as [_ ->]. apply insert_insert_eq. }
    set (a := with_plan (probing_plan (Port (primary u)) q) (with_udp (Some u) (new_attempt s op local LinkPlan_zero))).
    cbn. destruct (Baseline (evidence d) (Port (primary u))) as [cand|];
      [exists true, (with_candidate cand a), d1|exists false, a, d1]; eexists; (split; [done|]);
      (split_and!; [split|by split|done|exists q; split; [apply P|done]]);
      try done; cbn; by rewrite ?insert_insert_eq, ?Er.
  - set (a := with_plan plan (with_udp (Some u) (new_attempt s op local LinkPlan_zero))).
    destruct res as [q|e|]; [by destruct (Nr q)|..]; cbn;
      exists false, a, (set_sys k (own plan None (new_object d))); eexists; (split; [done|]);
      (split_and!; [split|by split|done|exists plan; split; [by apply P_new with (lease := None)|done]]);
      try done; cbn; by rewrite ?insert_insert_eq.
Qed.

Lemma prepare_reserved c s op local plan d : InterfaceName plan ≠ ""%string →
  ∃ ok a d', prepareAttemptLocked uuid_text cfg c s op local plan d = (next_object d, ok, d') ∧
    adopted (UUID (RemoteUID s)) (next_object d) a (new_object d) d' ∧ same_link plan (at_plan a).
Proof.
  intros N. unfold prepareAttemptLocked. cbn [at_plan new_attempt evidence put_attempt set_heap set_attempts new_object].
  set (a0 := new_attempt s op local plan).
  destruct (Baseline (evidence d) 1) as [hint|]; [|exists false, a0; eexists; split_and!; [done|by split|done]].
  destruct (prepared_udp c) as [u|]; [|exists false, a0; eexists; split_and!; [done|by split|done]].
  cbn [at_plan with_udp]. rewrite bool_decide_eq_false_2 by done. cbn.
  set (a := with_plan (probing_plan (Port (primary u)) plan) (with_udp (Some u) a0)).
  destruct (Baseline (evidence d) (Port (primary u))) as [cand|]; [exists true, (with_candidate cand a)|exists false, a];
    eexists; (split_and!; [done|split|done]);
    try done; cbn; by rewrite ?insert_insert_eq.
Qed.

Lemma inv_grow gone d d' : inv gone d → attempts d' = attempts d → heap d' = heap d → pendingCleanups d' = pendingCleanups d →
  (next_object d <= next_object d')%nat → resources d' = resources d → states d' = states d → sys d' = sys d → inv gone d'.
Proof.
  intros I E1 E2 E3 E4 E5 E6 E7.
  assert (J : inv gone (mkEngine (stopped d') (targets d') (evidence d') (heap d) (attempts d) (pendingCleanups d)
    (next_object d') (resources d) (states d) (released d') (closed d') (sys d))).
  { destruct I as [I1 I2 I3 I4 I5 I6 I7 I8 I9 I10]. split; try done. intros id a E. pose proof (I2 id a E). cbn. lia. }
  eapply inv_same; try exact J; done.
Qed.
Lemma inv_gone_same p q d : inv (Some p) d → same_link p q → inv (Some q) d.
Proof.
  intros I [En Ea].
  assert (Hi : ∀ h n x, held (Some q) d h n x ↔ held (Some p) d h n x).
  { intros h n x. destruct h; try done. split; intros (z & [= <-] & <- & <-); eexists; split_and!; done. }
  destruct I as [I1 I2 I3 I4 I5 I6 I7 I8 I9 I10]. split; try done.
  - intros h n x H%Hi. by apply I5.
  - intros h n x H%Hi. by apply (I6 h).
  - intros h h' n n' x H%Hi H'%Hi. by apply (I7 h h' n n' x).
  - intros n x E N. destruct (I8 n x E N) as (R & h & H). split; [done|]. exists h. by apply Hi.
  - intros n st E. destruct (I9 n st E) as (Hd & h & H & S). split; [done|]. exists h. split; [by apply Hi|done].
Qed.

(** An attempt that was stopped before it held anything. *)
Lemma dead_inv gone id a d d' : inv gone d → heap d !! id = None → (id < next_object d)%nat → cancelled a = true →
  attempts d' = attempts d → heap d' = <[id := a]> (heap d) → pendingCleanups d' = pendingCleanups d →
  next_object d' = next_object d → resources d' = resources d → states d' = states d → sys d' = sys d → inv gone d'.
Proof.
  intros I Eh Hi Ec E1 E2 E3 E4 E5 E6 E7.
  assert (U : ∀ id' b, heap d !! id' = Some b → heap d' !! id' = Some b).
  { intros id' b E. rewrite E2, lookup_insert_ne; [done|]. congruence. }
  assert (V : ∀ r id' b, attempts d !! r = Some id' → heap d' !! id' = Some b → heap d !! id' = Some b).
  { intros r id' b E Eb. destruct (i_attempt _ _ _ _ I _ _ E) as (b' & Eb' & _). by rewrite (U _ _ Eb') in Eb; injection Eb as <-. }
  apply (inv_transport iface_of mine (λ h, h) gone gone d); try done.
  - pose proof (i_count _ _ _ _ I) as C. revert C. unfold in_use, resourceCountLocked. by rewrite E1, E3, E5.
  - rewrite E1. intros r id' E. destruct (i_attempt _ _ _ _ I _ _ E) as (b & Eb & ?). exists b. auto.
  - rewrite E2, E4. intros id' b [[<- <-]|[_ E]]%lookup_insert_Some; [done|by eapply (i_fresh _ _ _ _ I)].
  - rewrite E1, E2. intros id' b [[<- <-]|[_ E]]%lookup_insert_Some Cb; [congruence|by apply (i_live _ _ _ _ I)].
  - intros h n x H. exists h. split; [|done]. destruct h as [r|r|y|]; cbn in H; rewrite ?E1, ?E3, ?E5 in H; try done.
    destruct H as (id' & b & H1 & H2 & ?). exists id', b. split_and!; [done|by eapply V|tauto..].
  - intros h n x H. split; [|intros O; by apply (i_present _ _ _ _ I h)].
    destruct h as [r|r|y|]; cbn; rewrite ?E1, ?E3, ?E5; try done.
    destruct H as (id' & b & H1 & H2 & ?). exists id', b. auto.
  - intros n st h _ _. destruct h as [r|r|y|]; cbn; rewrite ?E1; try done. intros (id' & b & ? & ? & ?). exists id', b. auto.
Qed.

Lemma abandon_new c r id a d d' : adopted r id a d d' → attempts d !! r = None → heap d !! id = None → (id < next_object d)%nat →
  inv (if bool_decide (InterfaceName (at_plan a) = ""%string) then None else Some (at_plan a)) d → inv None (abandon c id d').
Proof.
  intros [Ar Ac As Ea Eh Ep En Er Es Ek] N1 N2 Hi I. unfold abandon.
  assert (Hd : heap d' !! id = Some a) by (by rewrite Eh, lookup_insert_eq).
  assert (Cu : isCurrentAttemptLocked id d' = true).
  { apply isCurrent_current. exists a. split; [|done]. by rewrite Ea, Ar, lookup_insert_eq. }
  destruct (fallback_current iface_of mine c id a d' Cu Hd) as (d2 & -> & _ & G). rewrite Ar in G.
  assert (J : inv (if bool_decide (InterfaceName (at_plan a) = ""%string) then None else Some (at_plan a)) (discardAttemptLocked r id d')).
  { unfold discardAttemptLocked, stopAttempt. cbn [heap set_attempts]. rewrite Hd.
    eapply (dead_inv _ id (with_state dynamicStopped (with_cancelled (with_udp (closed_udp <$> udp a) a)))); [exact I|done..| | | | | | |];
      unfold udp_close; destruct (udp a); cbn; rewrite ?Ea, ?Eh, ?delete_insert_eq, ?delete_id, ?insert_insert_eq by done; done. }
  apply G in J. case_bool_decide; cbn [remove_plan]; [done|by apply removeInterface_inv].
Qed.

(** An attempt is prepared, or abandoned. *)
Definition admitted c r id (ok : bool) d' : Prop :=
  if ok then inv None d' ∧ ∃ a, current d' r id a ∧ at_state a = dynamicPreparing else inv None (abandon c id d').

Lemma adopted_inv r id a d d' : inv (Some (at_plan a)) d → gone_of r (at_plan a) d → stateless (at_plan a) d →
  heap d !! id = None → (id < next_object d)%nat → adopted r id a d d' →
  inv None d' ∧ ∃ a, current d' r id a ∧ at_state a = dynamicPreparing.
Proof.
  intros I G St Eh Hi [Ar Ac As Ea Eh' Ep En Er Es Ek]. split.
  - pose proof (gone_no_attempt r _ d I G) as Na. destruct G as [Gn Gk].
    apply (adopt_inv iface_of mine r id a d d'); try done; [intros b Eb; by rewrite Eh in Eb|by left].
  - exists a. split; [|done]. split; [by rewrite Ea, lookup_insert_eq|by rewrite Eh', lookup_insert_eq].
Qed.

Lemma fresh_object gone d : inv gone d → heap d !! next_object d = None.
Proof. intros I. destruct (heap d !! next_object d) eqn:E; [|done]. pose proof (i_fresh _ _ _ _ I _ _ E). lia. Qed.

Lemma prepare_new_inv c s op local d : let r := UUID (RemoteUID s) in
  RemoteUID s = peer_of r → inv None d → attempts d !! r = None → (in_use None d < maxLinks)%nat →
  reusable (generation uuid_text cfg (RemoteUID s) op) d →
  let '(id, ok, d') := prepareAttemptLocked uuid_text cfg c s op local LinkPlan_zero d in admitted c r id ok d'.
Proof.
  cbv zeta. intros Ps I Na Hc Re. destruct (prepare_new c s op local d) as (ok & a & d1 & d' & -> & Ad & [S1 S2 S3 S4] & Ss & p & P & Lp).
  cbn in S1, S2, S3, S4. pose proof (fresh_object None d I) as Fr. set (r := UUID (RemoteUID s)) in *.
  set (plan := generation uuid_text cfg (RemoteUID s) op) in *.
  assert (Np : InterfaceName plan = iface_of r) by (unfold plan, iface_of; by rewrite <- Ps).
  assert (Aux : mine (OwnerAlias plan)) by (by eexists _, _). clearbody plan.
  assert (Fr1 : heap d1 !! next_object d = None) by (by rewrite S2).
  assert (Hi : (next_object d < next_object d1)%nat) by (rewrite S4; lia).
  destruct P as [d1 E1 E2|ok p lease d1 [En Ea] E1 T O].
  - unfold admitted. apply (abandon_new c r _ a d1 d' Ad); [by rewrite S1|done..|].
    destruct Lp as [-> _]. cbn. eapply inv_grow; [exact I|try done..]. lia.
  - assert (J : inv (Some p) d1).
    { assert (Re' : reusable p d) by (intros res; rewrite Ea, En; apply Re).
      assert (Hc' : (in_use (Some p) (own p lease d) <= maxLinks)%nat).
      { pose proof (own_count p lease d (Some p)). revert Hc. unfold in_use in *. lia. }
      pose proof (own_fresh p lease d I Re') as J. rewrite Ea in J. specialize (J Aux Hc').
      apply (touched_inv p _ (sys d1)) in J; [|by exists (mkResources p lease false); cbn; rewrite lookup_insert_eq|done].
      eapply inv_grow; [exact J|try done..]. rewrite S4. cbn. lia. }
    assert (J' : inv (Some (at_plan a)) d1) by (by apply (inv_gone_same p)).
    destruct Lp as [Ln La]. destruct ok; unfold admitted.
    + apply (adopted_inv r _ a d1 d'); try done.
      * split; [by rewrite Ln, En|]. rewrite Ln, La. by apply O.
      * intros n st. rewrite Ss, La, Ea. intros E. by apply (reusable_state plan d n st).
    + apply (abandon_new c r _ a d1 d' Ad); [by rewrite S1|done..|].
      rewrite bool_decide_eq_false_2; [done|]. rewrite Ln, En, Np. apply iface_ne.
Qed.

Lemma prepare_reserved_inv c s op local plan d : let r := UUID (RemoteUID s) in
  inv (Some plan) d → gone_of r plan d → stateless plan d →
  let '(id, ok, d') := prepareAttemptLocked uuid_text cfg c s op local plan d in admitted c r id ok d'.
Proof.
  cbv zeta. intros I G St. set (r := UUID (RemoteUID s)) in *.
  assert (Np : InterfaceName plan ≠ ""%string) by (destruct G as [-> _]; apply iface_ne).
  destruct (prepare_reserved c s op local plan d Np) as (ok & a & d' & -> & Ad & Lp).
  pose proof (fresh_object _ d I) as Fr. pose proof (gone_no_attempt r plan d I G) as Na.
  assert (J : inv (Some (at_plan a)) (new_object d)).
  { apply (inv_gone_same plan); [|done]. eapply inv_grow; [exact I|try done..]. cbn. lia. }
  destruct Lp as [Ln La]. destruct ok; unfold admitted.
  - apply (adopted_inv r _ a (new_object d) d'); try done; [by unfold gone_of; rewrite Ln, La|by unfold stateless; rewrite La|cbn; lia].
  - apply (abandon_new c r _ a (new_object d) d' Ad); [done|done|cbn; lia|]. by rewrite bool_decide_eq_false_2 by (by rewrite Ln).
Qed.
End Safety.
