(* ===== verification/AttemptsRun.v ===== *)
(** The operations of Attempts.v as steps of an engine, and the invariant of
    AttemptsProps.v in every state they reach: no automatic Link's interface is
    forgotten, and the limit holds. *)

From S2P Require Import Prelude Netip Ports Spec Desired Link Field MessageData Inference Recovery Interfaces.
From S2P Require Import DynamicPolicy Durable Attempts AttemptsProps AttemptsSafety.
From stdpp Require Import gmap strings.
Open Scope Z_scope.
Open Scope velvet_scope.

Implicit Types (d : engine) (c : call) (id : nat) (a : dynamicAttempt) (r : list byte) (name alias : string) (p plan : LinkPlan)
  (gone : option LinkPlan) (s : session) (m : Message) (h : holder) (st : materializedState).

Section Run.
Context (uuid_text : list byte → string) (public_key : list byte → list byte)
  (hkdf32 : list byte → list byte → result (list byte)) (cfg : desired) (peer_of : list byte → UID).
Notation iface_of := (iface_of uuid_text peer_of).
Notation mine := (mine uuid_text cfg).
Notation inv := (inv iface_of mine).
Notation gone_of := (gone_of uuid_text peer_of).
Notation admitted := (admitted uuid_text cfg peer_of).

Lemma inv_faults gone k d : inv gone d → ifaces k = ifaces (sys d) → inv gone (set_sys k d).
Proof. intros [I1 I2 I3 I4 I5 I6 I7 I8 I9 I10] E. split; try done; cbn; rewrite E; [exact I5|exact I8]. Qed.

Lemma backend_run {A} (m : K A) Q E d : kspec (λ i, i = ifaces (sys d)) m Q E →
  ∃ res k, backend m d = (res, set_sys k d) ∧ ((∃ v : A, res = Ok v ∧ Q v (ifaces k)) ∨ ((∀ v : A, res ≠ Ok v) ∧ E (ifaces k))).
Proof.
  intros H. pose proof (kspec_run _ _ _ _ (sys d) H eq_refl) as R. unfold backend.
  destruct (m (sys d)) as [res k]. by exists res, k.
Qed.

(** * Updates of the current attempt *)

Lemma update_attempt_put id f a d : heap d !! id = Some a → update_attempt id f d = put_attempt id (f a) d.
Proof.
  intros E. unfold update_attempt, put_attempt. f_equal. apply map_eq. intros i. destruct (decide (id = i)) as [<-|N].
  - by rewrite lookup_alter_eq, lookup_insert_eq, E.
  - by rewrite lookup_alter_ne, lookup_insert_ne.
Qed.
Lemma update_inv id f d : inv None d →
  (∀ a, heap d !! id = Some a → at_remote (f a) = at_remote a ∧ at_plan (f a) = at_plan a ∧ cancelled (f a) = cancelled a ∧
    (linked a → linked (f a))) → inv None (update_attempt id f d).
Proof.
  intros I Hf. destruct (heap d !! id) as [a|] eqn:E.
  - rewrite (update_attempt_put id f a d E). destruct (Hf a eq_refl) as (E1 & E2 & E3 & L).
    eapply put_attempt_inv; try done; by rewrite ?E2, ?E3.
  - eapply inv_same; [..|exact I]; try done. cbn. apply map_eq. intros i.
    destruct (decide (id = i)) as [<-|N]; [by rewrite lookup_alter_eq, E|by rewrite lookup_alter_ne].
Qed.

Lemma configure_inv id m d : inv None d → (∀ a, heap d !! id = Some a → ¬ linked a) →
  inv None (configureAttemptLocked public_key cfg id m d).2 ∧
  ∀ a, heap (configureAttemptLocked public_key cfg id m d).2 !! id = Some a → ¬ linked a.
Proof.
  intros I N. unfold configureAttemptLocked. destruct (heap d !! id) as [a|] eqn:E; [|split; [done|cbn; intros ?; by rewrite E]].
  destruct (negb _); [split; [done|cbn; intros ?; rewrite E; apply N]|].
  destruct (bool_decide _); [split; [done|cbn; intros ?; rewrite E; apply N]|].
  destruct (bool_decide _); [split; [done|cbn; intros ?; rewrite E; apply N]|]. split.
  - eapply put_attempt_inv; try done. intros L. by destruct (N a eq_refl).
  - cbn. intros b. rewrite lookup_insert_eq. intros [= <-]. by intros [?|[?|?]].
Qed.
Lemma startProbe_inv id d : inv None d → (∀ a, heap d !! id = Some a → ¬ linked a) → inv None (startProbeLocked id d).
Proof.
  intros I N. apply update_inv; [done|]. intros a E. split_and!; [done..|]. intros L. by destruct (N a E).
Qed.

(** * Negotiating *)

Lemma admit_tail c r id ok m d : admitted c r id ok d →
  inv None (let '(ok, d) := if ok then configureAttemptLocked public_key cfg id m d else (false, d) in
    if ok then (Some id, d) else (None, abandon c id d)).2.
Proof.
  destruct ok; cbn [admitted]; [|done]. intros (I & a & [_ Eh] & St).
  assert (N : ∀ b, heap d !! id = Some b → ¬ linked b).
  { intros b Eb. rewrite Eh in Eb. injection Eb as <-. unfold linked. rewrite St. by intros [?|[?|?]]. }
  destruct (configure_inv id m d I N) as [I' _].
  destruct (configureAttemptLocked _ _ _ _ _) as [[] d']; [done|]. by apply abandon_inv; [apply iface_ne|].
Qed.

Definition may_reuse s (op : list byte) d : Prop :=
  RemoteUID s = peer_of (UUID (RemoteUID s)) ∧ reusable (generation uuid_text cfg (RemoteUID s) op) d.

Lemma admit_inv c s m d : inv None d → attempts d !! UUID (RemoteUID s) = None →
  (pendingCleanups d !! UUID (RemoteUID s) = None → (in_use None d < maxLinks)%nat) → may_reuse s (OperationID m) d →
  inv None (admission uuid_text public_key cfg c s m LinkPlan_zero d).2.
Proof.
  intros I Na Hc [Ps Re]. unfold admission. destruct (pendingCleanups d !! UUID (RemoteUID s)) as [[cid pend]|] eqn:Ep.
  - rewrite bool_decide_eq_true_2 by done. destruct (cancel_inv _ _ _ _ _ _ _ I Ep) as (I' & G & St).
    pose proof (prepare_reserved_inv _ cfg peer_of c s (OperationID m) false pend _ I' G St) as P.
    destruct (prepareAttemptLocked _ _ _ _ _ _ _ _) as [[id ok] d']. by eapply admit_tail.
  - unfold cancelDeferredCleanupLocked. rewrite delete_id by done.
    assert (I' : inv None (set_pending (pendingCleanups d) d)) by (eapply inv_same; [..|exact I]; done).
    pose proof (prepare_new_inv _ cfg peer_of c s (OperationID m) false _ Ps I' Na (Hc eq_refl) Re) as P.
    destruct (prepareAttemptLocked _ _ _ _ _ _ _ _) as [[id ok] d']. by eapply admit_tail.
Qed.
Lemma admit_reserved_inv c s m plan d : inv (Some plan) d → gone_of (UUID (RemoteUID s)) plan d → stateless plan d →
  inv None (admission uuid_text public_key cfg c s m plan d).2.
Proof.
  intros I G St. unfold admission. rewrite (gone_no_pending _ _ _ _ _ _ I G).
  unfold cancelDeferredCleanupLocked. rewrite delete_id by (by eapply gone_no_pending).
  assert (I' : inv (Some plan) (set_pending (pendingCleanups d) d)) by (eapply inv_same; [..|exact I]; done).
  pose proof (prepare_reserved_inv _ cfg peer_of c s (OperationID m) false plan _ I' G St) as P.
  destruct (prepareAttemptLocked _ _ _ _ _ _ _ _) as [[id ok] d']. by eapply admit_tail.
Qed.

Lemma discard_handed r id a d : inv None d → current d r id a → ¬ linked a →
  let d' := discardAttemptLocked r id d in inv (Some (at_plan a)) d' ∧ gone_of r (at_plan a) d' ∧ stateless (at_plan a) d'.
Proof.
  intros I C N. pose proof (current_stateless _ _ _ r id a d I C N) as St.
  pose proof (discard_inv iface_of mine r id a d I C) as I'.
  destruct C as [Ea Eh]. destruct (discard_fell_back r id a d Eh) as [F1 F2 F3 F4 F5].
  destruct (i_present _ _ _ _ I (HA r) (InterfaceName (at_plan a)) (OwnerAlias (at_plan a))) as [P K]; [by exists id, a|by eexists|].
  split_and!; [done|split; [done|by rewrite F5]|]. intros n st. rewrite F4. apply St.
Qed.

Lemma take_over_inv s id d : inv None d → attempts d !! UUID (RemoteUID s) = Some id →
  match take_over cfg s id d with
  | (Some plan, d') => inv (Some plan) d' ∧ gone_of (UUID (RemoteUID s)) plan d' ∧ stateless plan d'
  | (None, d') => d' = d
  end.
Proof.
  intros I Ea. unfold take_over. destruct (heap d !! id) as [a|] eqn:Eh; [|done].
  destruct (_ || _) eqn:G; [done|]. apply orb_false_iff in G as [[G1 _]%orb_false_iff _].
  apply negb_false_iff, bool_decide_eq_true in G1.
  assert (N : ¬ linked a) by (unfold linked; rewrite G1; by intros [?|[?|?]]).
  destruct (discard_handed _ id a d I (conj Ea Eh) N) as (I' & G & St).
  case_bool_decide; [done|]. split; [eapply inv_same; [..|exact I']; done|done].
Qed.

(** An interface that was removed no longer counts. *)
Lemma removeInterface_count p d : resources (removeInterface p d) !! OwnerAlias p = None →
  attempts (removeInterface p d) = attempts d ∧ pendingCleanups (removeInterface p d) = pendingCleanups d ∧
  (in_use None (removeInterface p d) <= in_use None d)%nat.
Proof.
  unfold removeInterface. destruct (match states d !! _ with Some _ => _ | None => _ end); [done|].
  assert (E : attempts (removeDynamicState p (removeEvidenceLocked (InterfaceName p) d)) = attempts d ∧
    pendingCleanups (removeDynamicState p (removeEvidenceLocked (InterfaceName p) d)) = pendingCleanups d ∧
    resources (removeDynamicState p (removeEvidenceLocked (InterfaceName p) d)) = resources d).
  { unfold removeDynamicState. destruct (states _ !! _) as [st|]; [|done]. by destruct (_ && _). }
  destruct E as (E1 & E2 & E3). unfold backend. destruct (RemoveDynamic p _) as [err k]. unfold removed.
  unfold in_use, resourceCountLocked. cbn [resources set_sys]. rewrite E3.
  destruct (resources d !! OwnerAlias p) as [res|] eqn:Er; cbn; [|by rewrite E1, E2, E3].
  destruct err; cbn; rewrite ?lookup_insert_eq, ?E1, ?E2; try done.
  intros _. split_and!; [done..|]. pose proof (flagged_delete (resources d) (OwnerAlias p)). lia.
Qed.

Lemma reusable_removeInterface plan p d : reusable plan d → reusable plan (removeInterface p d).
Proof.
  intros R. unfold removeInterface. destruct (match states d !! _ with Some _ => _ | None => _ end); [done|].
  assert (E : resources (removeDynamicState p (removeEvidenceLocked (InterfaceName p) d)) = resources d).
  { unfold removeDynamicState. destruct (states _ !! _) as [st|]; [|done]. by destruct (_ && _). }
  unfold backend. destruct (RemoveDynamic p _) as [err k]. unfold removed. cbn [resources set_sys]. rewrite E.
  destruct (resources d !! OwnerAlias p) as [res|] eqn:Er; [|unfold reusable; cbn; by rewrite E].
  assert (U : ∀ res', <[OwnerAlias p := mkResources (res_plan res) (res_port res) true]> (resources d) !! OwnerAlias plan = Some res' →
    cleanup res' = true ∧ InterfaceName (res_plan res') = InterfaceName plan).
  { intros res' [[Ex <-]|[_ E']]%lookup_insert_Some; [|by apply R]. rewrite Ex in Er. by destruct (R _ Er). }
  unfold reusable. destruct err; cbn; rewrite ?E; try done. intros res' [_ E']%lookup_delete_Some. by apply R.
Qed.

Lemma replace_recovering_inv c' r id m d : inv None d → attempts d !! r = Some id →
  let '(go, d') := replace_recovering public_key cfg c' r id m d in
  inv None d' ∧ (go = true → attempts d' !! r = None ∧ (in_use None d' < maxLinks)%nat) ∧
  ∀ plan, reusable plan d → reusable plan d'.
Proof.
  intros I Ea. unfold replace_recovering. destruct (i_attempt _ _ _ _ I _ _ Ea) as (a & Eh & Er). rewrite Eh.
  destruct (_ || _ || _); [by split_and!|]. pose proof (discard_inv iface_of mine r id a d I (conj Ea Eh)) as I'.
  destruct (discard_fell_back r id a d Eh) as [F1 F2 F3 F4 F5]. set (d1 := discardAttemptLocked r id d) in *. clearbody d1.
  pose proof (removeInterface_inv iface_of mine (at_plan a) d1 I') as I2.
  split_and!; [done| |intros plan R; apply reusable_removeInterface; unfold reusable; by rewrite F3]. intros Go.
  rewrite negb_true_iff, !orb_false_iff, bool_decide_eq_false in Go. destruct Go as ((((G1 & _) & _) & _) & _).
  apply eq_None_not_Some in G1. destruct (removeInterface_count _ _ G1) as (E1 & E2 & C).
  rewrite E1, F1, lookup_delete_eq. split; [done|]. pose proof (i_count _ _ _ _ I') as C'. revert C C'. unfold in_use. lia.
Qed.

Lemma resourceCount_in_use d : (128 <=? Z.of_nat (resourceCountLocked d)) = false → (in_use None d < maxLinks)%nat.
Proof. intros G%Z.leb_gt. unfold in_use, maxLinks. lia. Qed.

Lemma prepareInbound_inv c c' s m d : inv None d → may_reuse s (OperationID m) d →
  inv None (prepareInbound uuid_text public_key cfg c c' s m d).2.
Proof.
  intros I Re. unfold prepareInbound. set (r := UUID (RemoteUID s)).
  destruct (_ || hasDirectLink _ _ _); [done|]. destruct (_ && (128 <=? _)) eqn:Lim; [done|].
  destruct (bool_decide (evidence d = [])); [done|].
  destruct (attempts d !! r) as [id|] eqn:Ea.
  - destruct (is_recovering id d).
    + pose proof (replace_recovering_inv c' r id m d I Ea) as R.
      destruct (replace_recovering _ _ _ _ _ _ _) as [[] d']; destruct R as (I' & G & Rr); [|done].
      destruct (G eq_refl) as [Na Hc]. destruct Re. apply admit_inv; [done..|]. split; auto.
    + pose proof (take_over_inv s id d I Ea) as T. destruct (take_over _ _ _ _) as [[plan|] d']; [|by subst].
      destruct T as (I' & G & St). by apply admit_reserved_inv.
  - apply admit_inv; [done|done| |done]. intros Ep. fold r in Ep. rewrite Ep in Lim. cbn in Lim.
    by apply resourceCount_in_use.
Qed.

Lemma prepareOutbound_inv c s d : inv None d → (∀ op, new_operation c = Some op → may_reuse s op d) →
  inv None (prepareOutbound uuid_text cfg c s d).2.
Proof.
  intros I Re. unfold prepareOutbound. destruct (stopped d || ctx_done c); [done|]. unfold bind_target.
  set (d1 := put_target _ _ d). assert (I1 : inv None d1) by (eapply inv_same; [..|exact I]; done).
  assert (Re1 : ∀ op, new_operation c = Some op → may_reuse s op d1) by done. clearbody d1. clear I Re.
  destruct (_ || match policy _ with Some _ => _ | None => _ end); [done|].
  destruct (_ || bool_decide (is_Some _)) eqn:Ha; [done|]. apply orb_false_iff in Ha as [_ Ha%bool_decide_eq_false].
  destruct (128 <=? _) eqn:Lim; [done|]. destruct (bool_decide (evidence d1 = [])); [done|].
  destruct (new_operation c) as [op|]; [|done]. destruct (Re1 op eq_refl) as [Ps R].
  pose proof (prepare_new_inv _ cfg peer_of c s op true d1 Ps I1 (proj2 (eq_None_not_Some _) Ha) (resourceCount_in_use d1 Lim) R) as P.
  destruct (prepareAttemptLocked _ _ _ _ _ _ _ _) as [[id ok] d']. destruct ok; cbn; [|done].
  destruct P as (I' & a & [Eat Eh] & St). apply update_inv; [done|]. intros b Eb. split_and!; [done..|].
  rewrite Eh in Eb. injection Eb as <-. unfold linked. rewrite St. by intros [?|[?|?]].
Qed.

(** * Responses *)

Lemma proposing_spec s op d id : inv None d → proposingAttemptLocked s op d = Some id →
  ∃ a, current d (UUID (RemoteUID s)) id a ∧ at_state a = dynamicProposing ∧ ¬ linked a.
Proof.
  intros I. unfold proposingAttemptLocked. destruct (attempts d !! _) as [id'|] eqn:Ea; [|done].
  destruct (heap d !! id') as [a|] eqn:Eh; [|done]. destruct (_ || _) eqn:G; [done|]. intros [= <-].
  apply orb_false_iff in G as [_ G%negb_false_iff%bool_decide_eq_true]. exists a. split; [done|]. split; [done|].
  unfold linked. rewrite G. by intros [?|[?|?]].
Qed.

Lemma handleAccept_inv c s m d : inv None d → inv None (handleAccept public_key cfg c s m d).
Proof.
  intros I. unfold handleAccept. destruct (proposingAttemptLocked _ _ _) as [id|] eqn:P; [|done].
  destruct (proposing_spec _ _ _ _ I P) as (a & [_ Eh] & _ & N).
  assert (N' : ∀ b, heap d !! id = Some b → ¬ linked b) by (intros b Eb; rewrite Eh in Eb; by injection Eb as <-).
  destruct (configure_inv id m d I N') as [I' N2]. destruct (configureAttemptLocked _ _ _ _ _) as [[] d'].
  - by apply startProbe_inv.
  - apply abandon_inv; [apply iface_ne|done].
Qed.

Lemma handleDecline_inv c s m d : inv None d → inv None (handleDecline c s m d).
Proof.
  intros I. unfold handleDecline. destruct (proposingAttemptLocked _ _ _) as [id|] eqn:P; [|done].
  destruct (proposing_spec _ _ _ _ I P) as (a & C & _ & N).
  set (d1 := match targets d !! _ with Some _ => _ | None => _ end).
  assert (S : attempts d1 = attempts d ∧ heap d1 = heap d ∧ inv None d1).
  { unfold d1. destruct (targets d !! _); split_and!; try done. eapply inv_same; [..|exact I]; done. }
  clearbody d1. destruct S as (E1 & E2 & I1). assert (C1 : current d1 (UUID (RemoteUID s)) id a) by (unfold current; by rewrite E1, E2).
  pose proof (current_stateless _ _ _ _ id a d1 I1 C1 N) as St.
  destruct (fallback_inv _ (iface_ne _ _) _ c _ id a d1 I1 C1) as (d' & -> & I' & [F1 F2 F3 F4 F5] & En & Ek).
  apply (defer_inv _ cfg peer_of); [done|split; [done|by rewrite F5]|]. intros n st. rewrite F4. apply St.
Qed.

Lemma routedSessionClosed_inv c s d : inv None d → inv None (routedSessionClosed c s d).
Proof.
  intros I. unfold routedSessionClosed. destruct (attempts d !! _) as [id|]; [|done].
  destruct (heap d !! id); [|done]. destruct (_ && _); [|done]. by apply abandon_inv; [apply iface_ne|].
Qed.

Lemma proposal_accepted_inv id d : inv None d → (∀ a, heap d !! id = Some a → ¬ linked a) → inv None (proposal_accepted id d).
Proof. intros I N. unfold proposal_accepted. destruct (isCurrentAttemptLocked id d); [by apply startProbe_inv|done]. Qed.

(** The timer of a deferred cleanup always removes its interface: no attempt
    has it. *)
Lemma deferred_cleanup_inv r cid plan d : inv None d → (∀ q, pendingCleanups d !! r = Some (cid, q) → q = plan) →
  inv None (deferred_cleanup r cid plan d).
Proof.
  intros I Hp. unfold deferred_cleanup. case_bool_decide as E; cbn; [|done].
  destruct (pendingCleanups d !! r) as [[cid' q]|] eqn:Ep; [|done]. injection E as ->. specialize (Hp q eq_refl). subst q.
  destruct (cancel_inv _ _ _ _ _ _ _ I Ep) as (I' & G & St).
  rewrite (gone_no_attempt _ _ _ _ _ _ I' G : attempts d !! r = None). by apply removeInterface_inv.
Qed.

(** * From the UDP path to the Link *)

Lemma reconciler_ConfigureDynamic_spec c plan key ep d :
  let '(p, ok, d') := reconciler_ConfigureDynamic public_key hkdf32 cfg c plan key ep d in
  (∃ k, d' = set_sys k d ∧ ifaces k = ifaces (sys d)) ∧ (ok = true → same_link plan p).
Proof.
  assert (Id : ∃ k, d = set_sys k d ∧ ifaces k = ifaces (sys d)) by (exists (sys d); by destruct d).
  unfold reconciler_ConfigureDynamic. case_bool_decide; [by split|].
  destruct (DeriveWGLinkPSK _ _ _ _) as [psk|e|]; [|by split..].
  set (q := peer_plan_of _ _ _ _). unfold backend.
  pose proof (kspec_run _ _ _ _ (sys d) (ConfigureDynamic_spec q (device_port c) (change_endpoint c) (ifaces (sys d))) eq_refl) as R.
  destruct (ConfigureDynamic (device_port c) (change_endpoint c) q (sys d)) as [res k]. cbn in R.
  assert (E : ifaces k = ifaces (sys d)) by (by destruct R as [(? & _ & -> & _)|[_ ->]]).
  by destruct res; (split; [exists k|]).
Qed.

Lemma probing_current c id a d : heap d !! id = Some a → probing c id a d = true →
  current d (at_remote a) id a ∧ ¬ linked a.
Proof.
  intros Eh G. unfold probing in G. apply andb_true_iff in G as [[Cu St%bool_decide_eq_true]%andb_true_iff _].
  apply isCurrent_current in Cu as (b & Ea & Eb). rewrite Eh in Eb. injection Eb as <-. split; [done|].
  unfold linked. rewrite St. by intros [?|[?|?]].
Qed.

(** The Link of an attempt is configured while its state becomes [f]. *)
Lemma handoff_configure c id a b plan key ep d (f : LinkPlan → dynamicAttempt) : inv None d →
  heap d !! id = Some b → same_link (at_plan b) plan →
  (∀ p, at_plan (f p) = p ∧ at_remote (f p) = at_remote b ∧ cancelled (f p) = cancelled b) → ¬ linked b →
  inv None (let '(p, ok, d) := reconciler_ConfigureDynamic public_key hkdf32 cfg c plan key ep d in
    if ok then (true, put_attempt id (f p) d) else (false, d)).2.
Proof.
  intros I Eh [S1 S2] Hf N. pose proof (reconciler_ConfigureDynamic_spec c plan key ep d) as R.
  destruct (reconciler_ConfigureDynamic _ _ _ _ _ _ _ _) as [[p ok] d']. destruct R as [(k & -> & Ek) L].
  pose proof (inv_faults _ k d I Ek) as I'. destruct ok; cbn; [|done]. destruct (L eq_refl) as [L1 L2], (Hf p) as (H1 & H2 & H3).
  eapply put_attempt_inv; [exact I'|exact Eh|done| | |by rewrite H3|done]; rewrite H1; congruence.
Qed.

Lemma handoff_receive_inv c id ep d : inv None d → inv None (handoff_receive public_key hkdf32 cfg c id ep d).2.
Proof.
  intros I. unfold handoff_receive. destruct (heap d !! id) as [a|] eqn:Eh; [|done]. destruct (udp a) as [u|]; [|done].
  destruct (probing c id a d) eqn:P; cbn [negb]; [|done]. destruct (probing_current _ _ _ _ Eh P) as [[Ea _] N].
  set (b0 := with_udp _ a). cbv zeta.
  assert (H : ∃ b d', match udp_lease u with
      | Some lease => (with_port (Some lease) b0, own (at_plan (with_port (Some lease) b0)) (Some lease) (put_attempt id (with_port (Some lease) b0) d))
      | None => (b0, put_attempt id b0 d) end = (b, d') ∧ inv None d' ∧ heap d' !! id = Some b ∧ at_plan b = at_plan a ∧ ¬ linked b).
  { destruct (udp_lease u) as [lease|]; (eexists _, _; split_and!; [done| |cbn; by rewrite lookup_insert_eq|done|done]);
      [|by eapply put_attempt_inv].
    eapply (own_held _ _ _ _ _ _ _ (HA (at_remote a))); [by eapply put_attempt_inv| |done].
    eexists id, _. cbn. rewrite lookup_insert_eq. by split_and!. }
  destruct H as (b & d' & -> & I' & Eb & Ep & Nb).
  by apply (handoff_configure c id b b _ _ _ _ (λ p, with_plan p b)).
Qed.
Lemma handoff_send_inv c id ep d : inv None d → inv None (handoff_send public_key hkdf32 cfg c id ep d).2.
Proof.
  intros I. unfold handoff_send. destruct (heap d !! id) as [a|] eqn:Eh; [|done]. destruct (udp a) as [u|]; [|done].
  destruct (probing c id a d) eqn:P; cbn [negb]; [|done]. destruct (probing_current _ _ _ _ Eh P) as [_ N].
  by apply (handoff_configure c id a a _ _ _ _ (λ p, with_epoch (with_state dynamicAttempting (with_plan p a)))).
Qed.

(** * The Link of an attempt *)

Lemma state_inv r id a st d : inv None d → current d r id a → linked a → dynamic st = true →
  OwnerAlias (ms_desired st) = OwnerAlias (at_plan a) → inv None (set_states (<[InterfaceName (at_plan a) := st]> (states d)) d).
Proof.
  intros I [Ea Eh] L Dy Ex. destruct I as [I1 I2 I3 I4 I5 I6 I7 I8 I9 I10]. split; try done.
  intros n st' E. cbn in E. apply lookup_insert_Some in E as [[<- <-]|[_ E]]; [|by apply I9].
  split; [done|]. exists (HA r). split; by exists id, a.
Qed.
Lemma state_update_inv n st st' d : inv None d → states d !! n = Some st → dynamic st' = dynamic st →
  ms_desired st' = ms_desired st → inv None (set_states (<[n := st']> (states d)) d).
Proof.
  intros I E Dy Ex. destruct I as [I1 I2 I3 I4 I5 I6 I7 I8 I9 I10]. split; try done.
  intros n' st2 E'. cbn in E'. apply lookup_insert_Some in E' as [[<- <-]|[_ E']]; [|by apply I9].
  rewrite Dy, Ex. by apply I9.
Qed.
Lemma evidence_inv l d gone : inv gone d → inv gone (set_evidence l d).
Proof. intros I. eapply inv_same; [..|exact I]; done. Qed.

Lemma install_inv c id addresses r d : inv None d → (∀ a, heap d !! id = Some a → cancelled a = false → linked a) →
  inv None (install c id addresses r d).
Proof.
  intros I L. unfold install. destruct (heap d !! id) as [a|] eqn:Eh; [|done]. destruct (cancelled a) eqn:Ec; [done|].
  destruct (negb _); [done|]. cbn. eapply (state_inv _ id a); [done|split; [|exact Eh]|by apply L|done|done].
  by apply (i_live _ _ _ _ I).
Qed.

Lemma commitLink_inv c id addresses s d : inv None d → inv None (commitLink c id addresses s d).2.
Proof.
  intros I. unfold commitLink. destruct (heap d !! id) as [a|] eqn:Eh; [|done]. destruct (_ || negb _) eqn:G; [done|].
  apply orb_false_iff in G as [[_ Cu%negb_false_iff]%orb_false_iff St%negb_false_iff].
  apply isCurrent_current in Cu as (b & Ea & Eb). rewrite Eh in Eb. injection Eb as <-.
  assert (L : linked a) by (apply orb_true_iff in St as [E%bool_decide_eq_true|E%bool_decide_eq_true]; [left|right; right]; done).
  assert (A : inv None (abandon c id d)) by (by apply abandon_inv; [apply iface_ne|]).
  destruct (hasHealthyStatic _ _ _); [done|]. destruct (negb _); [done|]. unfold runner_commitLink. destruct (negb _); [done|].
  cbv zeta. cbn [snd]. set (st := mkMaterialized _ _ _ _ _ _ _ _).
  pose proof (state_inv (at_remote a) id a st d I (conj Ea Eh) L eq_refl eq_refl) as I'.
  unfold commitAttemptLocked. set (d1 := set_states _ d) in *.
  assert (I2 : inv None (put_attempt id (with_state dynamicUp a) d1)).
  { eapply put_attempt_inv; [exact I'|exact Eh|done..|]. intros _. right. by left. }
  destruct (targetForPeerLocked _ _) as [[addr t]|]; destruct (localProposal a); eapply inv_same; try exact I2; done.
Qed.

Lemma confirm_pong_inv c id d : inv None d →
  (∀ a, heap d !! id = Some a → is_Some (states d !! InterfaceName (at_plan a))) → inv None (confirm_pong c id d).
Proof.
  intros I H. unfold confirm_pong. destruct (heap d !! id) as [a|]; [|done]. destruct (H a eq_refl) as [st E].
  rewrite E. by eapply state_update_inv.
Qed.
Lemma markLinkLost_inv id d : inv None d → inv None (markLinkLost id d).
Proof.
  intros I. unfold markLinkLost. destruct (heap d !! id) as [a|]; [|done]. apply evidence_inv.
  destruct (states d !! _) as [st|] eqn:E; [|done]. case_bool_decide; [|done]. by eapply state_update_inv.
Qed.
Lemma withdrawLinkAdjacency_inv c id d : inv None d → inv None (withdrawLinkAdjacency c id d).
Proof.
  intros I. unfold withdrawLinkAdjacency. destruct (heap d !! id) as [a|]; [|done].
  destruct (states d !! _) as [st|] eqn:E; [|done]. destruct (_ || negb (backend_ok c)); [done|].
  apply evidence_inv. by eapply state_update_inv.
Qed.
Lemma control_ready_inv id v d : inv None d → inv None (control_ready id v d).
Proof. intros I. unfold control_ready. destruct (isCurrentAttemptLocked id d); [by apply update_inv|done]. Qed.
Lemma control_failed_inv id d : inv None d → inv None (control_failed id d).
Proof.
  intros I. unfold control_failed. destruct (heap d !! id) as [a|] eqn:E; [|done]. destruct (_ && _); [|done].
  eapply put_attempt_inv; try done. intros _. by right; right.
Qed.
Lemma expireConnectivity_inv c id epoch d : inv None d → inv None (expireConnectivity c id epoch d).
Proof.
  intros I. unfold expireConnectivity. destruct (heap d !! id) as [a|] eqn:E; [|done]. destruct (_ && _); [|done].
  by eapply put_attempt_inv.
Qed.
Lemma setEvidence_inv name port ep d : inv None d → inv None (setEvidence name port ep d).2.
Proof. intros I. unfold setEvidence. destruct (NewEvidence _ _ _); [by apply evidence_inv|done..]. Qed.

(** * Restoring a durable Link *)

(** The pre-shared key with the peer can be derived, and it is another node. *)
Definition restorable (record : durableRecord) : Prop :=
  Durable.PublicKey record ≠ public_key (ds_PrivateKey cfg) ∧
  ∃ psk, DeriveWGLinkPSK hkdf32 (ds_FabricPSK cfg) (public_key (ds_PrivateKey cfg)) (Durable.PublicKey record) = Ok psk.

Lemma restore_configure c plan key ep d : lk_PrivateKey plan = ds_PrivateKey cfg → key ≠ public_key (ds_PrivateKey cfg) →
  (∃ psk, DeriveWGLinkPSK hkdf32 (ds_FabricPSK cfg) (public_key (ds_PrivateKey cfg)) key = Ok psk) →
  ∃ p ok k, reconciler_ConfigureDynamic public_key hkdf32 cfg c plan key ep d = (p, ok, set_sys k d) ∧
    same_link plan p ∧ ifaces k = ifaces (sys d).
Proof.
  intros Ek Nk [psk Hp]. unfold reconciler_ConfigureDynamic. rewrite Ek, bool_decide_eq_false_2, Hp by done.
  set (q := peer_plan_of _ _ _ _). unfold backend.
  pose proof (kspec_run _ _ _ _ (sys d) (ConfigureDynamic_spec q (device_port c) (change_endpoint c) (ifaces (sys d))) eq_refl) as R.
  destruct (ConfigureDynamic (device_port c) (change_endpoint c) q (sys d)) as [res k]. cbn in R.
  assert (E : ifaces k = ifaces (sys d)) by (by destruct R as [(? & _ & -> & _)|[_ ->]]).
  destruct res; eexists _, _, k; by split_and!.
Qed.

(** A restored Link is the peer's attempt. *)
Lemma restored_inv r a q lease d : inv (Some q) d → gone_of r q d → stateless q d → same_link q (at_plan a) →
  at_remote a = r → cancelled a = false → linked a → let id := next_object d in
  inv None (own (at_plan a) lease (put_attempt id a (set_attempts (<[r := id]> (attempts d)) (new_object d)))).
Proof.
  intros I G St L Er Ec Li id. set (d' := put_attempt _ _ _).
  assert (J : inv (Some (at_plan a)) (new_object d)).
  { apply (inv_gone_same _ _ peer_of q); [|done]. eapply inv_grow; [exact I|try done..]. cbn. lia. }
  destruct L as [Ln La], G as [Gn Gk].
  assert (Na : attempts d !! r = None) by (by eapply gone_no_attempt).
  pose proof (fresh_object _ _ _ _ d I) as Fr. fold id in Fr.
  assert (I' : inv None d').
  { apply (adopt_inv _ _ r id a (new_object d) d'); try done; cbn; [lia| |by rewrite Ln|by rewrite Ln, La|by right].
    intros b. by rewrite Fr. }
  eapply (own_held _ _ _ _ _ _ _ (HA r)); [exact I'| |done]. exists id, a. cbn. by rewrite !lookup_insert_eq.
Qed.

Lemma restore_inv c record confirmed d : inv None d → restorable record →
  rec_Peer record = peer_of (UUID (rec_Peer record)) →
  (∀ op, new_operation c = Some op → reusable (generation uuid_text cfg (rec_Peer record) op) d) →
  inv None (restore uuid_text public_key hkdf32 cfg c record confirmed d).
Proof.
  intros I [Nk Hp] Ps Re. unfold restore. set (r := UUID (rec_Peer record)) in *.
  destruct (_ || negb _); [done|]. destruct (_ || hasDirectLink c r d) eqn:Na; [done|].
  apply orb_false_iff in Na as [Na%bool_decide_eq_false _]. apply eq_None_not_Some in Na.
  destruct (128 <=? _) eqn:Lim; [done|]. destruct (new_operation c) as [op|]; [|done]. destruct (bound_lease c) as [lease|]; [|done].
  specialize (Re op eq_refl). set (gen := generation uuid_text cfg (rec_Peer record) op) in *.
  set (plan := set_port_plan (lease_port lease) gen).
  assert (Hplan : reusable plan d ∧ mine (OwnerAlias plan) ∧ InterfaceName plan = iface_of r ∧ lk_PrivateKey plan = ds_PrivateKey cfg).
  { split_and!; [done|by exists (rec_Peer record), op| |done]. unfold AttemptsSafety.iface_of. by rewrite <- Ps. }
  clearbody plan. destruct Hplan as (Re' & Mi & Np & Kp). cbv zeta.
  assert (I1 : inv (Some plan) (own plan (Some lease) d)).
  { apply own_fresh; [done..|]. pose proof (own_count plan (Some lease) d (Some plan)).
    pose proof (resourceCount_in_use d Lim). unfold in_use in *. lia. }
  assert (St1 : stateless plan (own plan (Some lease) d)) by (intros n st E; by eapply reusable_state).
  assert (R1 : is_Some (resources (own plan (Some lease) d) !! OwnerAlias plan)) by (cbn; rewrite lookup_insert_eq; by eexists).
  set (d1 := own plan (Some lease) d) in *. clearbody d1.
  destruct (backend_run _ _ _ d1 (PrepareDynamic_spec plan (device_port c) (ifaces (sys d1)))) as (res & k & -> & P).
  assert (Rm : ∀ q d2, inv (Some q) d2 → stateless q d2 → inv None (let '(err, d) := backend (RemoveDynamic q) d2 in removed q err d)).
  { intros q d2 I2 S2. pose proof (remove_backend_inv _ _ q d2 I2 S2) as R. by destruct (backend (RemoveDynamic q) d2). }
  destruct P as [(q & -> & Sq & Av & Ek)|[Nr T]].
  - assert (Lq : same_link plan q) by (by destruct Sq as [->| ->]).
    assert (Kq : lk_PrivateKey q = ds_PrivateKey cfg) by (by destruct Sq as [->| ->]).
    assert (I2 : inv (Some q) (set_sys k d1)).
    { apply (inv_gone_same _ _ peer_of plan); [|done]. apply (touched_inv _ cfg peer_of); [done..|]. rewrite Ek. apply touched_insert; auto. }
    set (ep := if mode_active cfg then _ else _).
    destruct (restore_configure c q (Durable.PublicKey record) ep (set_sys k d1) Kq Nk Hp) as (q' & ok & k' & -> & Lq' & Ek').
    assert (I3 : inv (Some q') (set_sys k' (set_sys k d1))).
    { apply (inv_gone_same _ _ peer_of q); [|done]. by apply inv_faults. }
    destruct Lq as [Ln La], Lq' as [Ln' La'].
    assert (St3 : stateless q' (set_sys k' (set_sys k d1))) by (intros n st E; rewrite La', La; by eapply St1).
    destruct (negb _); [by apply Rm|].
    match goal with |- context [put_attempt _ ?b _] => apply (restored_inv r b q' (Some lease) _ I3); try done; [|by left] end.
    split; [by rewrite Ln', Ln|]. rewrite Ln', La'. cbn in Ek' |- *. rewrite Ek', Ek, Ln, La. apply lookup_insert_eq.
  - assert (I2 : inv (Some plan) (set_sys k d1)) by (by apply (touched_inv _ cfg peer_of)).
    destruct res as [q|e|]; [by destruct (Nr q)|by apply Rm..].
Qed.

(** * Retrying removals *)

(** A removal that is retried is as if its resource were owned anew. *)
Lemma retry_one_inv alias res d : inv None d → resources d !! alias = Some res → cleanup res = true →
  inv None (retry_one d (res_plan res)).
Proof.
  intros I Er Cl. pose proof (i_plan _ _ _ _ I _ _ Er) as Ea. set (p := res_plan res) in *.
  assert (Hh : held None d (HF alias) (InterfaceName p) alias) by (split; [done|by exists res]).
  destruct (i_alias _ _ _ _ I _ _ _ Hh) as [Mi _].
  assert (Re : reusable p d) by (intros res'; rewrite Ea, Er; by intros [= <-]).
  assert (I1 : inv (Some p) (own p (res_port res) d)).
  { apply own_fresh; [done|done|by rewrite Ea|]. pose proof (i_count _ _ _ _ I) as C. revert C.
    unfold in_use, resourceCountLocked. cbn. rewrite Ea. unfold flagged.
    rewrite map_filter_insert_False, map_filter_delete, map_size_delete_Some by (try done; exists res; by apply map_lookup_filter_Some).
    assert (size (filter (λ x : string * linkResources, cleanup x.2 = true) (resources d)) ≠ 0%nat); [|lia].
    apply map_size_ne_0_lookup. exists alias, res. by apply map_lookup_filter_Some. }
  assert (St : stateless p (own p (res_port res) d)) by (intros n st E; by eapply reusable_state).
  pose proof (remove_backend_inv _ _ p _ I1 St) as R. unfold retry_one, backend in *. cbn [sys own set_resources] in R.
  destruct (RemoveDynamic p (sys d)) as [err k]. unfold removed in *. cbn [resources set_sys own set_resources] in *.
  rewrite lookup_insert_eq in R. rewrite Ea in *. rewrite Er. cbn in *.
  destruct err; cbn in *; [|by rewrite insert_insert_eq in R..].
  by rewrite delete_insert_eq in R.
Qed.
Lemma retry_one_other alias p d : alias ≠ OwnerAlias p → resources (retry_one d p) !! alias = resources d !! alias.
Proof.
  intros N. unfold retry_one, backend. destruct (RemoveDynamic p _) as [err k]. unfold removed. cbn.
  destruct (resources d !! OwnerAlias p); [|done]. destruct err; cbn; by rewrite ?lookup_insert_ne, ?lookup_delete_ne.
Qed.
Lemma retryLinkCleanup_inv d : inv None d → inv None (retryLinkCleanup d).
Proof.
  intros I. unfold retryLinkCleanup.
  assert (H : ∀ l : list (string * linkResources), NoDup l.*1 → (∀ x, x ∈ l → resources d !! x.1 = Some x.2 ∧ cleanup x.2 = true) →
    inv None (foldl retry_one d (map (λ x, res_plan x.2) l))).
  { intros l. revert d I. induction l as [|[alias res] l IH]; intros d I Nd Hl; [done|]. cbn.
    apply NoDup_cons in Nd as [Na Nd]. destruct (Hl (alias, res)) as [Er Cl]; [by left|]. cbn in Er, Cl.
    pose proof (i_plan _ _ _ _ I _ _ Er) as Ea. apply IH; [by eapply retry_one_inv|done|].
    intros x Hx. rewrite retry_one_other; [apply Hl; by right|]. rewrite Ea. intros Ex. apply Na. rewrite <- Ex.
    apply list_elem_of_fmap. by exists x. }
  apply H; [apply NoDup_fst_map_to_list|]. intros [x res] Hx%elem_of_map_to_list.
  by apply map_lookup_filter_Some in Hx.
Qed.
End Run.
