(* ===== verification/LinkSafety.v ===== *)
(** The engine of automatic Links as a transition system: in every state it
    reaches, each of its network interfaces is an attempt's, a deferred
    cleanup's or a removal's that is retried; and what a PONG does that is
    handled after its Link was removed. *)

From S2P Require Import Prelude Netip Ports Spec Desired Link Field MessageData Inference Recovery Interfaces.
From S2P Require Import DynamicPolicy Durable Attempts AttemptsProps AttemptsSafety AttemptsRun.
From stdpp Require Import gmap strings.
Open Scope Z_scope.
Open Scope velvet_scope.

Implicit Types (d : engine) (c : call) (id : nat) (a : dynamicAttempt) (r : list byte) (name alias : string) (p plan : LinkPlan)
  (s : session) (m : Message).

Section Steps.
Context (uuid_text : list byte → string) (public_key : list byte → list byte)
  (hkdf32 : list byte → list byte → result (list byte)) (cfg : desired) (peer_of : list byte → UID).

(** One operation of the engine.  A peer keeps its name, and no two
    generations have one identifier, unless the interface of the older one is
    being removed ([may_reuse]).  A proposal's task starts when its ACCEPT was
    sent, before there is a Link; the addresses of a Link are installed by its
    supervision, which starts with the Link.  A timer has the plan that it was
    created with.  A PONG is counted for a Link that has a state: the code does
    not check it (see [late_pong_leaks]). *)
Inductive step d : engine → Prop :=
  | S_outbound c s : (∀ op, new_operation c = Some op → may_reuse uuid_text cfg peer_of s op d) →
      step d (prepareOutbound uuid_text cfg c s d).2
  | S_proposal c c' s m : may_reuse uuid_text cfg peer_of s (OperationID m) d →
      step d (handleProposal uuid_text public_key cfg c c' s m d).2
  | S_accepted id : (∀ a, heap d !! id = Some a → ¬ linked a) → step d (proposal_accepted id d)
  | S_accept c s m : step d (handleAccept public_key cfg c s m d)
  | S_decline c s m : step d (handleDecline c s m d)
  | S_closed c s : step d (routedSessionClosed c s d)
  | S_timer r cid plan : (∀ q, pendingCleanups d !! r = Some (cid, q) → q = plan) → step d (deferred_cleanup r cid plan d)
  | S_fail c id allowed : step d (failAttempt c id allowed d)
  | S_receive c id ep : step d (handoff_receive public_key hkdf32 cfg c id ep d).2
  | S_send c id ep : step d (handoff_send public_key hkdf32 cfg c id ep d).2
  | S_install c id addresses r : (∀ a, heap d !! id = Some a → cancelled a = false → linked a) →
      step d (install c id addresses r d)
  | S_commit c id addresses s : step d (commitLink c id addresses s d).2
  | S_pong c id : (∀ a, heap d !! id = Some a → is_Some (states d !! InterfaceName (at_plan a))) → step d (confirm_pong c id d)
  | S_lost id : step d (markLinkLost id d)
  | S_withdraw c id : step d (withdrawLinkAdjacency c id d)
  | S_ready id v : step d (control_ready id v d)
  | S_failed id : step d (control_failed id d)
  | S_expire c id epoch : step d (expireConnectivity c id epoch d)
  | S_evidence name port ep : step d (setEvidence name port ep d).2
  | S_restore c record confirmed : restorable public_key hkdf32 cfg record →
      rec_Peer record = peer_of (UUID (rec_Peer record)) →
      (∀ op, new_operation c = Some op → reusable (generation uuid_text cfg (rec_Peer record) op) d) →
      step d (restore uuid_text public_key hkdf32 cfg c record confirmed d)
  | S_retry : step d (retryLinkCleanup d).

(** The engine starts with no interface of an automatic Link of the node. *)
Record initial d : Prop := {
  in_attempts : attempts d = ∅; in_heap : heap d = ∅; in_pending : pendingCleanups d = ∅; in_resources : resources d = ∅;
  in_states : states d = ∅; in_sys : ∀ name alias, ifaces (sys d) !! name = Some alias → ¬ mine uuid_text cfg alias }.

Notation inv := (inv (iface_of uuid_text peer_of) (mine uuid_text cfg) None).

Lemma initial_inv d : initial d → inv d.
Proof.
  intros [E1 E2 E3 E4 E5 E6].
  assert (Hn : ∀ h n x, ¬ held None d h n x).
  { intros [r|r|y|] n x; cbn; rewrite ?E1, ?E2, ?E3, ?E4.
    - by intros (? & ? & [=] & _).
    - by intros (? & ? & [=] & _).
    - by intros (_ & ? & [=] & _).
    - by intros (? & [=] & _). }
  split; rewrite ?E1, ?E2, ?E4, ?E5; try done.
  - intros h n x H. by destruct (Hn h n x).
  - intros h n x H. by destruct (Hn h n x).
  - intros h h' n n' x H. by destruct (Hn h n x).
  - intros n x E M. by destruct (E6 n x E).
  - unfold in_use, resourceCountLocked, flagged. rewrite E1, E3, E4, map_filter_empty, !map_size_empty. cbn. unfold maxLinks. lia.
Qed.

Lemma handleProposal_inv c c' s m d : inv d → may_reuse uuid_text cfg peer_of s (OperationID m) d →
  inv (handleProposal uuid_text public_key cfg c c' s m d).2.
Proof.
  intros I Re. pose proof (prepareInbound_inv uuid_text public_key cfg peer_of c c' s m d I Re) as J.
  unfold handleProposal. by destruct (prepareInbound _ _ _ _ _ _ _ _) as [[id|] d'].
Qed.

Lemma engine_step_inv d d' : inv d → step d d' → inv d'.
Proof.
  intros I S. destruct S.
  - by apply prepareOutbound_inv.
  - by apply handleProposal_inv.
  - by apply proposal_accepted_inv.
  - by apply handleAccept_inv.
  - by apply handleDecline_inv.
  - by apply routedSessionClosed_inv.
  - by apply deferred_cleanup_inv.
  - by apply failAttempt_inv; [apply iface_ne|].
  - by apply handoff_receive_inv.
  - by apply handoff_send_inv.
  - by apply install_inv.
  - by apply commitLink_inv.
  - by apply confirm_pong_inv.
  - by apply markLinkLost_inv.
  - by apply withdrawLinkAdjacency_inv.
  - by apply control_ready_inv.
  - by apply control_failed_inv.
  - by apply expireConnectivity_inv.
  - by apply setEvidence_inv.
  - by apply restore_inv.
  - by apply retryLinkCleanup_inv.
Qed.

(** What the invariant says of the engine: each interface of an automatic Link has
    one who knows of it, attempts have their interface, and the limit holds. *)
Definition accounted d : Prop :=
  (∀ name alias, ifaces (sys d) !! name = Some alias → mine uuid_text cfg alias →
    (∃ r id a, current d r id a ∧ InterfaceName (at_plan a) = name ∧ OwnerAlias (at_plan a) = alias) ∨
    (∃ r cid plan, pendingCleanups d !! r = Some (cid, plan) ∧ InterfaceName plan = name ∧ OwnerAlias plan = alias) ∨
    (∃ res, resources d !! alias = Some res ∧ cleanup res = true ∧ InterfaceName (res_plan res) = name)) ∧
  (∀ r id a, current d r id a → at_remote a = r ∧ ifaces (sys d) !! InterfaceName (at_plan a) = Some (OwnerAlias (at_plan a))) ∧
  Z.of_nat (resourceCountLocked d) <= 128.
Lemma inv_accounted d : inv d → accounted d.
Proof.
  intros I. split_and!.
  - intros name alias E M. destruct (i_kernel _ _ _ _ I _ _ E M) as (_ & [r|r|x|] & H).
    + left. destruct H as (id & a & ? & ? & ? & ?). by exists r, id, a.
    + right; left. destruct H as (cid & p & ? & ? & ?). by exists r, cid, p.
    + right; right. destruct H as (_ & res & ? & ? & ?). by exists res.
    + by destruct H as (q & [=] & _).
  - intros r id a C. split; [by eapply current_remote|]. destruct C.
    eapply (i_present _ _ _ _ I (HA r)); [by exists id, a|by eexists].
  - pose proof (i_count _ _ _ _ I) as C. revert C. unfold in_use, maxLinks. lia.
Qed.
Lemma steps_inv d d' : inv d → rtc step d d' → inv d'.
Proof. intros I R. induction R; eauto using engine_step_inv. Qed.

(** C30: no interface is forgotten. In every state that the engine reaches from a
    start without attempts and without interfaces of automatic Links, by
    outbound and inbound proposals, answers, timers, handoffs, negotiations,
    losses, restores and retries in any order and with any failures of the
    kernel: every interface of an automatic Link belongs to the peer's current
    attempt, to a deferred cleanup or to a removal that is retried; every
    current attempt has its interface; and together they are at most 128. What
    [step] assumes is said there; above all a PONG is handled only while its
    Link has a state, without which the claim fails ([late_pong_leaks]). *)
Theorem no_interface_forgotten d0 d : initial d0 → rtc step d0 d →
  (∀ name alias, ifaces (sys d) !! name = Some alias → mine uuid_text cfg alias →
    (∃ r id a, current d r id a ∧ InterfaceName (at_plan a) = name ∧ OwnerAlias (at_plan a) = alias) ∨
    (∃ r cid plan, pendingCleanups d !! r = Some (cid, plan) ∧ InterfaceName plan = name ∧ OwnerAlias plan = alias) ∨
    (∃ res, resources d !! alias = Some res ∧ cleanup res = true ∧ InterfaceName (res_plan res) = name)) ∧
  (∀ r id a, current d r id a → at_remote a = r ∧ ifaces (sys d) !! InterfaceName (at_plan a) = Some (OwnerAlias (at_plan a))) ∧
  Z.of_nat (resourceCountLocked d) <= 128.
Proof. intros Hi R. apply inv_accounted. by eapply steps_inv; [apply initial_inv|]. Qed.

(** * Without faults nothing is left *)

Lemma RemoveDynamic_no_faults p k : faults k = [] → let k' := (RemoveDynamic p k).2 in
  faults k' = [] ∧ ifaces k' ⊆ ifaces k ∧ ifaces k' !! InterfaceName p ≠ Some (OwnerAlias p).
Proof.
  destruct k as [i fs]. cbn. intros ->. unfold RemoveDynamic, deleteDynamicInterface, requireExactlyOwnedWireGuardInterface.
  unfold mbind, K_bind, ktouch, LinkByName, LinkDel, kcall. cbn. destruct (i !! InterfaceName p) as [alias|] eqn:E; cbn.
  - case_bool_decide as Ea; cbn.
    + split_and!; [done|apply delete_subseteq|by rewrite lookup_delete_eq].
    + split_and!; [done..|]. rewrite E. congruence.
  - by rewrite E.
Qed.
Lemma retry_no_faults (l : list LinkPlan) d : faults (sys d) = [] → let d' := foldl retry_one d l in
  ifaces (sys d') ⊆ ifaces (sys d) ∧ ∀ p, p ∈ l → ifaces (sys d') !! InterfaceName p ≠ Some (OwnerAlias p).
Proof.
  revert d. induction l as [|p l IH]; intros d F; cbn; [split; [done|]; intros p H; by apply not_elem_of_nil in H|].
  pose proof (RemoveDynamic_no_faults p (sys d) F) as (F1 & S1 & N1).
  assert (E : sys (retry_one d p) = (RemoveDynamic p (sys d)).2).
  { unfold retry_one, backend. destruct (RemoveDynamic p (sys d)) as [err k]. unfold removed. cbn.
    destruct (resources d !! _); [|done]. by destruct err. }
  rewrite <- E in F1, S1, N1. destruct (IH _ F1) as [S2 N2]. split; [by etrans|].
  intros q [->|Hq]%elem_of_cons; [|by apply N2]. intros Eq. apply N1. by eapply lookup_weaken.
Qed.

(** Once no attempt and no deferred cleanup is left, one retry of the
    cleanups on a kernel that does not fail leaves no interface of an automatic
    Link of the node. *)
Theorem nothing_left_behind d0 d : initial d0 → rtc step d0 d → attempts d = ∅ → pendingCleanups d = ∅ → faults (sys d) = [] →
  ∀ name alias, ifaces (sys (retryLinkCleanup d)) !! name = Some alias → ¬ mine uuid_text cfg alias.
Proof.
  intros Hi R Ea Ep F name alias E M. pose proof (steps_inv d0 d (initial_inv d0 Hi) R) as I.
  destruct (retry_no_faults (map (λ x, res_plan x.2) (map_to_list (flagged (resources d)))) d F) as [Sub None'].
  destruct (i_kernel _ _ _ _ I name alias) as (_ & h & H); [by eapply lookup_weaken|done|].
  destruct h as [r|r|x|]; cbn in H; rewrite ?Ea, ?Ep in H.
  - by destruct H as (? & ? & [=] & _).
  - by destruct H as (? & ? & [=] & _).
  - destruct H as (-> & res & Er & Cl & En). pose proof (i_plan _ _ _ _ I _ _ Er) as Eal.
    apply (None' (res_plan res)); [|by rewrite En, Eal]. apply list_elem_of_fmap. exists (alias, res). split; [done|].
    by apply elem_of_map_to_list, map_lookup_filter_Some.
  - by destruct H as (? & [=] & _).
Qed.
End Steps.

(** * A Link from its proposal to its removal *)

Definition node_a : list byte := repeat x01 16.
Definition node_b : list byte := repeat x02 16.
Definition peer_name (r : list byte) : UID := mkUID r "n".
Definition id_text (l : list byte) : string := Stdlib.Strings.String.string_of_list_byte (map (λ b, z2b (b2z b + 96)) l).
Definition any_key (k : list byte) : list byte := k ++ [x07].
Definition any_hkdf (_ _ : list byte) : result (list byte) := Ok (zeros 32).
Definition run_cfg : desired := mkDesired (mkUID node_a "a") PortChoice_zero [x09] [x05] true true
  [mkPrefix (Addr4 (192 * 2 ^ 24)) 8] 1.
Definition endpoint_b : AddrPort := AddrPortFrom (Addr4 (192 * 2 ^ 24 + 2)) 7000.
(** The kernel refuses the calls that [faults] says. *)
Definition start_engine (faults : list bool) : engine :=
  mkEngine false ∅ [mkEvidence "wg0" 7000 (AddrPortFrom (Addr4 (192 * 2 ^ 24 + 1)) 7000)]
    ∅ ∅ ∅ 0 ∅ ∅ [] [] (mkKernel {[ "wg0" := "velvet:link:static" ]}%string faults).
Definition run_call (op : list byte) : call := mkCall 100 0 false (λ _, false) (Some op)
  (Some (mkUdp (AddrPortFrom (Addr4 (192 * 2 ^ 24 + 1)) 5000) (repeat x03 32) (Some (mkLease 1 5000)) false AddrPort_zero [] []))
  ∅ true None 5000 false false.
Definition session_b (n : nat) : session := mkSession n (peer_name node_b) (Addr6 2 "").
Definition answer_b (kind : MsgType) (op : list byte) : Message :=
  set_Endpoint endpoint_b (set_Keys (repeat x04 32) [x08] (set_OperationID op (newMessage kind))).

Definition proposed op n d : engine := (prepareOutbound id_text run_cfg (run_call op) (session_b n) d).2.
Definition run_accepted d : engine :=
  handleAccept any_key run_cfg (run_call []) (session_b 1) (answer_b DynamicLinkAccept [x01]) (proposed [x01] 1 d).
Definition run_received d : engine := (handoff_receive any_key any_hkdf run_cfg (run_call []) 0 endpoint_b (run_accepted d)).2.
Definition run_linked d : engine := (handoff_send any_key any_hkdf run_cfg (run_call []) 0 endpoint_b (run_received d)).2.
Definition run_installed d : engine := install (run_call []) 0 [] node_b (run_linked d).
Definition run_up d : engine := (commitLink (run_call []) 0 [] (session_b 1) (run_installed d)).2.
Definition run_removed d : engine := failAttempt (run_call []) 0 [dynamicUp] (run_up d).

Notation run_step := (step id_text any_key any_hkdf run_cfg peer_name).
Definition run_name : string := iface_of id_text peer_name node_b.
Definition run_alias (op : list byte) : string := OwnerAlias (generation id_text run_cfg (peer_name node_b) op).

Example run_1 : ifaces (sys (run_up (start_engine []))) !! run_name = Some (run_alias [x01]). Proof. by vm_compute. Qed.
Example run_2 : option_map committed (states (run_up (start_engine [])) !! run_name) = Some true. Proof. by vm_compute. Qed.
Example run_3 : ifaces (sys (run_removed (start_engine []))) = ifaces (sys (start_engine [])). Proof. by vm_compute. Qed.

Lemma run_initial fs : initial id_text run_cfg (start_engine fs).
Proof.
  split; try done. intros name alias E. cbn in E. apply lookup_singleton_Some in E as [_ <-]. by intros (remote & op & [=]).
Qed.
Lemma run_reached fs : at_state <$> heap (run_linked (start_engine fs)) !! 0%nat = Some dynamicAttempting →
  rtc run_step (start_engine fs) (run_up (start_engine fs)).
Proof.
  intros E. eapply (rtc_l _ _ (proposed [x01] 1 (start_engine fs))); [apply S_outbound; intros op _; by split|].
  eapply (rtc_l _ _ (run_accepted _)); [apply S_accept|].
  eapply (rtc_l _ _ (run_received _)); [apply S_receive|].
  eapply (rtc_l _ _ (run_linked _)); [apply S_send|].
  eapply (rtc_l _ _ (run_installed _)); [apply S_install|].
  - intros a Ea _. rewrite Ea in E. injection E as E. by left.
  - eapply (rtc_l _ _ (run_up _)); [apply S_commit|apply rtc_refl].
Qed.
Lemma no_interface_forgotten_witness : Z.of_nat (resourceCountLocked (run_up (start_engine []))) <= 128 ∧
  size (attempts (run_up (start_engine []))) = 1%nat.
Proof.
  assert (E : at_state <$> heap (run_linked (start_engine [])) !! 0%nat = Some dynamicAttempting) by (by vm_compute).
  split; [|by vm_compute].
  apply (no_interface_forgotten id_text any_key any_hkdf run_cfg peer_name _ _ (run_initial []) (run_reached [] E)).
Defined.

(** The kernel refuses to remove the interface, so that the removal is retried. *)
Definition one_fault : list bool := repeat false 25 ++ [true].
Lemma nothing_left_behind_witness : let d := run_removed (start_engine one_fault) in
  ifaces (sys d) !! run_name = Some (run_alias [x01]) ∧ ifaces (sys (retryLinkCleanup d)) !! run_name = None.
Proof.
  assert (E : at_state <$> heap (run_linked (start_engine one_fault)) !! 0%nat = Some dynamicAttempting) by (by vm_compute).
  cbv zeta. set (d := run_removed (start_engine one_fault)).
  assert (Ea : bool_decide (map_to_list (attempts d) = [] ∧ size (pendingCleanups d) = 0%nat ∧ faults (sys d) = [] ∧
    ifaces (sys d) !! run_name = Some (run_alias [x01]) ∧
    default (run_alias [x01]) (ifaces (sys (retryLinkCleanup d)) !! run_name) = run_alias [x01]) = true) by (by vm_compute).
  apply bool_decide_eq_true in Ea as (E1%map_to_list_empty_iff & E2%map_size_empty_iff & E3 & E4 & E5).
  split; [done|].
  assert (R : rtc run_step (start_engine one_fault) d) by (eapply rtc_r; [apply (run_reached _ E)|apply S_fail]).
  pose proof (nothing_left_behind id_text any_key any_hkdf run_cfg peer_name _ d (run_initial _) R E1 E2 E3 run_name (run_alias [x01])) as N.
  destruct (ifaces (sys (retryLinkCleanup d)) !! run_name) as [alias|] eqn:El; [|done].
  change (alias = run_alias [x01]) in E5. rewrite E5 in N. destruct (N eq_refl). by exists (peer_name node_b), [x01].
Defined.

(** A PONG of the removed Link that is handled late: the state it leaves keeps
    the next generation's interface when that is removed. *)
Definition leak_1 : engine := confirm_pong (run_call []) 0 (run_removed (start_engine [])).
Definition leak_2 : engine := proposed [x02] 2 leak_1.
Definition leak_3 : engine := handleDecline (run_call []) (session_b 2) (answer_b DynamicLinkDecline [x02]) leak_2.
Definition leak_4 : engine := match pendingCleanups leak_3 !! node_b with
  | Some (cid, plan) => deferred_cleanup node_b cid plan leak_3 | None => leak_3 end.
Definition leaked d : Prop :=
  ifaces (sys d) !! run_name = Some (run_alias [x02]) ∧ size (attempts d) = 0%nat ∧ size (pendingCleanups d) = 0%nat ∧
  size (flagged (resources d)) = 0%nat ∧ faults (sys d) = [].
#[global] Instance leaked_dec d : Decision (leaked d) := _.
(** The interface is nobody's, and the peer's next proposal fails on it. *)
Lemma late_pong_leaks : leaked leak_4 ∧ size (attempts (proposed [x06] 3 leak_4)) = 0%nat.
Proof. apply (bool_decide_unpack _). by vm_compute. Qed.
