(* ===== verification/Crossing.v ===== *)
(** Two nodes propose an automatic Link to each other at the same time: the
    proposal of the smaller UUID wins, and the other node answers it with the
    interface it had reserved, whatever comes first, the DECLINE of its own
    proposal or the winning one. *)

From S2P Require Import Prelude Netip Ports Spec Desired Link Field MessageData Inference Recovery Interfaces.
From S2P Require Import DynamicPolicy Durable Attempts AttemptsProps AttemptsSafety AttemptsRun LinkSafety.
From stdpp Require Import gmap strings.
Open Scope Z_scope.
Open Scope velvet_scope.

Implicit Types (d : engine) (c : call) (id : nat) (a : dynamicAttempt) (r : list byte) (p plan : LinkPlan) (s : session) (m : Message).

Section Crossing.
Context (uuid_text : list byte → string) (public_key : list byte → list byte) (cfg : desired).
Notation answer := (handleProposal uuid_text public_key cfg).
Notation admits := (admission uuid_text public_key cfg).

(** The node can accept [m] from the peer of [s] with the reserved [plan]. *)
Record acceptable c s m plan d : Prop := {
  ac_running : stopped d = false ∧ ctx_done c = false ∧ mode_inbound cfg = true;
  ac_peer : durable_has c (UUID (RemoteUID s)) = false ∧ hasDirectLink c (UUID (RemoteUID s)) d = false;
  ac_endpoint : candidateAllowed cfg (Endpoint m) = true;
  ac_keys : ProbeKey m ≠ zeros 32 ∧ WGPublicKey m ≠ public_key (lk_PrivateKey plan);
  ac_udp : ∃ u, prepared_udp c = Some u ∧ is_Some (Baseline (evidence d) 1) ∧ is_Some (Baseline (evidence d) (Port (primary u)))
}.

(** The attempt that answers the winning proposal. *)
Record answers s m plan id d : Prop := {
  an_attempt : ∃ a, current d (UUID (RemoteUID s)) id a ∧ operationID a = OperationID m ∧ localProposal a = false ∧
    at_state a = dynamicProbing ∧ at_session a = Some (session_id s) ∧ same_link plan (at_plan a);
  an_pending : pendingCleanups d !! UUID (RemoteUID s) = None
}.

Lemma admit_answers c s m reserved plan d : acceptable c s m plan d → InterfaceName plan ≠ ""%string →
  (pendingCleanups d !! UUID (RemoteUID s) = None ∧ reserved = plan) ∨
  ((∃ cid, pendingCleanups d !! UUID (RemoteUID s) = Some (cid, plan)) ∧ reserved = LinkPlan_zero) →
  ∃ d', admits c s m reserved d = (Some (next_object d), d') ∧ answers s m plan (next_object d) d' ∧
    sys d' = sys d ∧ resources d' = resources d.
Proof.
  intros [A1 A2 A3 [K1 K2] (u & Eu & [hint B1] & [cand B2])] Nn Hp. unfold admission.
  assert (Er : match pendingCleanups d !! UUID (RemoteUID s) with
    | Some (_, pending) => if bool_decide (InterfaceName reserved = ""%string) then pending else reserved
    | None => reserved end = plan).
  { destruct Hp as [[-> ->]|[[cid ->] ->]]; [done|]. by rewrite bool_decide_eq_true_2. }
  rewrite Er. unfold prepareAttemptLocked. cbn [at_plan new_attempt evidence put_attempt set_heap set_attempts new_object
    cancelDeferredCleanupLocked set_pending next_object].
  rewrite B1, Eu. cbn [at_plan with_udp]. rewrite bool_decide_eq_false_2 by done. cbn. rewrite B2.
  unfold configureAttemptLocked. cbn. rewrite lookup_insert_eq, A3, !bool_decide_eq_false_2 by done. cbn.
  eexists. split; [done|]. split_and!; try done. split; [|cbn; by rewrite lookup_delete_eq].
  eexists. split_and!; [split; apply lookup_insert_eq|done..].
Qed.

(** The proposal that the node made and has no answer to. *)
Definition proposing s2 id a s d : Prop :=
  current d (UUID (RemoteUID s)) id a ∧ at_state a = dynamicProposing ∧ localProposal a = true ∧
  at_session a = Some (session_id s2) ∧ InterfaceName (at_plan a) ≠ ""%string.

(** The winner refuses the other proposal, and keeps its own. *)
Lemma winner_declines c c' s m id a s2 d : bytes_Compare (UUID (ds_UID cfg)) (UUID (RemoteUID s)) = Lt →
  proposing s2 id a s d → ∃ v, answer c c' s m d = (None, v, d) ∧ Type_ v = DynamicLinkDecline ∧ OperationID v = OperationID m.
Proof.
  intros L ([Ea Eh] & St & Lo & _). unfold handleProposal.
  assert (P : prepareInbound uuid_text public_key cfg c c' s m d = (None, d)).
  { unfold prepareInbound. destruct (_ || hasDirectLink _ _ _); [done|]. destruct (_ && (128 <=? _)); [done|].
    destruct (bool_decide (evidence d = [])); [done|]. rewrite Ea. unfold is_recovering. rewrite Eh, St. cbn.
    unfold take_over. by rewrite Eh, St, Lo, L. }
  rewrite P. eexists. split; [done|]. by destruct (mode_inbound cfg).
Qed.

(** The winner's proposal is answered. *)
Lemma accept_probes c s m id a d : proposing s id a s d → OperationID m = operationID a →
  candidateAllowed cfg (Endpoint m) = true → ProbeKey m ≠ zeros 32 → WGPublicKey m ≠ public_key (lk_PrivateKey (at_plan a)) →
  ∃ a', current (handleAccept public_key cfg c s m d) (UUID (RemoteUID s)) id a' ∧ at_state a' = dynamicProbing ∧
    operationID a' = operationID a ∧ at_plan a' = at_plan a.
Proof.
  intros ([Ea Eh] & St & _ & Se & _) Op Al K1 K2. unfold handleAccept, proposingAttemptLocked.
  rewrite Ea, Eh, Se, Op, St, !bool_decide_eq_true_2 by done. cbn. unfold configureAttemptLocked.
  rewrite Eh, Al, !bool_decide_eq_false_2 by done. cbn. unfold startProbeLocked. eexists. split.
  - split; [done|]. cbn. by rewrite lookup_alter_eq, lookup_insert_eq.
  - done.
Qed.

(** The loser's attempt ends with what it needs to answer. *)
Record handed plan s d d' : Prop := {
  hd_same : stopped d' = stopped d ∧ evidence d' = evidence d ∧ states d' = states d ∧ sys d' = sys d ∧ resources d' = resources d;
  hd_attempts : attempts d' !! UUID (RemoteUID s) = None }.

Lemma discard_handed_on s id a d : current d (UUID (RemoteUID s)) id a →
  handed (at_plan a) s d (discardAttemptLocked (UUID (RemoteUID s)) id d) ∧
  pendingCleanups (discardAttemptLocked (UUID (RemoteUID s)) id d) = pendingCleanups d.
Proof.
  intros [Ea Eh]. unfold discardAttemptLocked, stopAttempt. cbn. rewrite Eh. unfold udp_close.
  destruct (udp a); (split; [split; [done|]|done]); cbn; by rewrite lookup_delete_eq.
Qed.

Lemma acceptable_handed c s m plan d d' : handed plan s d d' → acceptable c s m plan d → acceptable c s m plan d'.
Proof.
  intros [(E1 & E2 & E3 & E4 & E5) _] [A1 A2 A3 A4 A5]. split; rewrite ?E1, ?E2; try done.
  unfold hasDirectLink, all_states. by rewrite E3.
Qed.

Lemma decline_handed c s2 m id a s d : proposing s2 id a s d → at_remote a = UUID (RemoteUID s) →
  UUID (RemoteUID s2) = UUID (RemoteUID s) → OperationID m = operationID a →
  let d' := handleDecline c s2 m d in handed (at_plan a) s d d' ∧ ∃ cid, pendingCleanups d' !! UUID (RemoteUID s) = Some (cid, at_plan a).
Proof.
  intros ([Ea Eh] & St & Lo & Se & Nn) Er Ss Op. cbv zeta. unfold handleDecline, proposingAttemptLocked.
  rewrite Ss, Ea, Eh, Se, Op, St, !bool_decide_eq_true_2 by done. cbn [negb orb].
  set (d1 := match targets d !! _ with Some _ => _ | None => _ end).
  assert (S : current d1 (UUID (RemoteUID s)) id a ∧ stopped d1 = stopped d ∧ evidence d1 = evidence d ∧ states d1 = states d ∧
    sys d1 = sys d ∧ resources d1 = resources d) by (unfold d1; by destruct (targets d !! _)).
  clearbody d1. destruct S as (C1 & S1 & S2 & S3 & S4 & S5). unfold fallbackLocked.
  assert (Cu : isCurrentAttemptLocked id d1 = true) by (apply isCurrent_current; exists a; by rewrite Er).
  destruct (discard_handed_on s id a d1 C1) as [[(T1 & T2 & T3 & T4 & T5) T6] _]. destruct C1 as [Ea1 Eh1].
  rewrite Eh1, Cu, Er. cbn [negb]. rewrite bool_decide_eq_false_2 by done. set (d2 := discardAttemptLocked _ _ _) in *. clearbody d2.
  rewrite Lo. destruct (targetForPeerLocked _ _) as [[addr t]|]; [destruct (_ <? _)|]; cbn;
    (split; [split; cbn; [by rewrite T1, T2, T3, T4, T5, S1, S2, S3, S4, S5|done]|eexists; cbn; by rewrite lookup_insert_eq]).
Qed.

(** The loser answers the winning proposal, whether the DECLINE of its own
    proposal comes first or not. *)
Lemma loser_answers c c' c2 s m md s2 id a d : bytes_Compare (UUID (ds_UID cfg)) (UUID (RemoteUID s)) = Gt →
  proposing s2 id a s d → at_remote a = UUID (RemoteUID s) → UUID (RemoteUID s2) = UUID (RemoteUID s) →
  pendingCleanups d !! UUID (RemoteUID s) = None → operationID a ≠ OperationID m → OperationID md = operationID a →
  acceptable c s m (at_plan a) d → evidence d ≠ [] →
  (∃ id' v d1, answer c c' s m d = (Some id', v, d1) ∧ answers s m (at_plan a) id' d1 ∧ sys d1 = sys d ∧
    resources d1 = resources d ∧ handleDecline c2 s2 md d1 = d1) ∧
  (∃ id' v d1, answer c c' s m (handleDecline c2 s2 md d) = (Some id', v, d1) ∧ answers s m (at_plan a) id' d1 ∧
    sys d1 = sys d ∧ resources d1 = resources d).
Proof.
  intros L P Er Ss Np No Op A Ne. pose proof P as ([Ea Eh] & St & Lo & Se & Nn). pose proof A as [(A1 & A2 & A3) (A4 & A5) A6 _ _]. split.
  - destruct (discard_handed_on s id a d (conj Ea Eh)) as [H Hp]. set (d1 := discardAttemptLocked (UUID (RemoteUID s)) id d) in *.
    assert (T : ∃ d2, take_over cfg s id d = (Some (at_plan a), d2) ∧ handed (at_plan a) s d d2 ∧ pendingCleanups d2 = pendingCleanups d).
    { unfold take_over. rewrite Eh, St, Lo, L. cbn. fold d1. eexists. split; [done|]. case_bool_decide; [done|].
      destruct H as [(?&?&?&?&?) ?]. by split. }
    destruct T as (d2 & T & H2 & Hp2).
    destruct (admit_answers c s m (at_plan a) (at_plan a) d2) as (d3 & E & An & K1 & K2); [by eapply acceptable_handed|done|left; by rewrite Hp2|].
    destruct H2 as [(_ & _ & _ & K3 & K4) _].
    unfold handleProposal, prepareInbound. rewrite A1, A2, A3, A4, A5, A6. cbn [negb orb].
    rewrite Ea, (bool_decide_eq_false_2 (Some id = None)), (bool_decide_eq_false_2 (evidence d = [])) by done. unfold is_recovering.
    rewrite Eh, St, (bool_decide_eq_false_2 (dynamicProposing = dynamicRecovering)) by done. cbn [andb]. rewrite T, E. eexists _, _, _. split; [reflexivity|]. split_and!; [done|congruence..|].
    destruct An as [(b & [Eb1 Eb2] & Ob & _) _]. unfold handleDecline, proposingAttemptLocked.
    rewrite Ss, Eb1, Eb2, Ob, Op. by rewrite (bool_decide_eq_false_2 (OperationID m = operationID a)), orb_true_r by congruence.
  - destruct (decline_handed c2 s2 md id a s d P Er Ss Op) as [H [cid Hp]]. set (d1 := handleDecline c2 s2 md d) in *. clearbody d1.
    pose proof (acceptable_handed _ _ _ _ _ _ H A) as B. pose proof B as [(B1 & B2 & B3) (B4 & B5) B6 _ _].
    destruct (admit_answers c s m LinkPlan_zero (at_plan a) d1) as (d3 & E & An & K1 & K2); [done|done|right; by eauto|].
    destruct H as [(_ & K0 & _ & K3 & K4) Na].
    unfold handleProposal, prepareInbound. rewrite B1, B2, B3, B4, B5, B6. cbn [negb orb].
    rewrite Na, Hp. rewrite (bool_decide_eq_false_2 (Some _ = None)), andb_false_r by done. cbn [andb].
    rewrite K0, (bool_decide_eq_false_2 (evidence d = [])) by done. rewrite E. eexists _, _, _. split; [reflexivity|]. split_and!; [done|congruence..].
Qed.

Lemma accept_message c c' s m plan id v d d' : answer c c' s m d = (Some id, v, d') → answers s m plan id d' →
  Type_ v = DynamicLinkAccept ∧ OperationID v = OperationID m.
Proof.
  unfold handleProposal. destruct (prepareInbound _ _ _ _ _ _ _ _) as [[id'|] d1]; [|done].
  intros [= -> <- ->] [(a & [_ Eh] & Op & _) _]. by rewrite Eh.
Qed.
End Crossing.

(** Nodes x and y, of which x has the smaller UUID, have proposed an
    automatic Link to each other.  x declines y's proposal and keeps its own.
    Whether y reads the proposal of x before the DECLINE or after it, it
    answers with an ACCEPT of the operation of x, in an attempt on the
    interface that it had reserved, which is neither removed nor created anew,
    no cleanup of it stays behind, and a DECLINE that comes late changes
    nothing; and if x accepts the parameters of the answer, it probes for the
    same operation. *)
Theorem crossing_proposals uuid_text public_key cfgx cfgy cx cx' cy cy' cd sx sy s2x s2y idx idy ax ay dx dy :
  bytes_Compare (UUID (ds_UID cfgx)) (UUID (ds_UID cfgy)) = Lt →
  UUID (RemoteUID sx) = UUID (ds_UID cfgy) → UUID (RemoteUID s2x) = UUID (ds_UID cfgy) →
  UUID (RemoteUID sy) = UUID (ds_UID cfgx) → UUID (RemoteUID s2y) = UUID (ds_UID cfgx) →
  proposing s2x idx ax sx dx → proposing s2y idy ay sy dy → at_remote ay = UUID (ds_UID cfgx) →
  pendingCleanups dy !! UUID (ds_UID cfgx) = None → operationID ax ≠ operationID ay →
  let propose := dynamicLinkMessage public_key DynamicLinkPropose in
  acceptable public_key cfgy cy sy (propose ax) (at_plan ay) dy →
  ∃ decline, handleProposal uuid_text public_key cfgx cx cx' sx (propose ay) dx = (None, decline, dx) ∧
    Type_ decline = DynamicLinkDecline ∧ OperationID decline = operationID ay ∧
    let accepted (d : engine) := ∃ id' accept d1,
      handleProposal uuid_text public_key cfgy cy cy' sy (propose ax) d = (Some id', accept, d1) ∧
      Type_ accept = DynamicLinkAccept ∧ OperationID accept = operationID ax ∧
      answers sy (propose ax) (at_plan ay) id' d1 ∧ sys d1 = sys dy ∧ resources d1 = resources dy ∧
      (d = dy → handleDecline cd s2y decline d1 = d1) ∧
      (candidateAllowed cfgx (Endpoint accept) = true → ProbeKey accept ≠ zeros 32 →
       WGPublicKey accept ≠ public_key (lk_PrivateKey (at_plan ax)) →
       ∃ ax', current (handleAccept public_key cfgx cx s2x accept dx) (UUID (ds_UID cfgy)) idx ax' ∧
         at_state ax' = dynamicProbing ∧ operationID ax' = operationID ax ∧ at_plan ax' = at_plan ax) in
    accepted dy ∧ accepted (handleDecline cd s2y decline dy).
Proof.
  intros L Rx R2x Ry R2y Px Py Er Np No propose A.
  destruct (winner_declines uuid_text public_key cfgx cx cx' sx (propose ay) idx ax s2x dx) as (v & Ev & Tv & Ov); [by rewrite Rx|done|].
  exists v. split_and!; [done..|]. intros accepted.
  assert (Ne : evidence dy ≠ []) by (destruct A as [_ _ _ _ (u & _ & [h B] & _)]; by intros E; rewrite E in B).
  assert (L' : bytes_Compare (UUID (ds_UID cfgy)) (UUID (RemoteUID sy)) = Gt) by (by rewrite Ry, bytes_Compare_antisym, L).
  assert (P2x : proposing s2x idx ax s2x dx) by (destruct Px as ([E1 E2] & ?); split; [split; [by rewrite R2x, <- Rx|done]|done]).
  destruct (loser_answers uuid_text public_key cfgy cy cy' cd sy (propose ax) v s2y idy ay dy L' Py) as [O1 O2];
    [by rewrite Ry|by rewrite R2y|by rewrite Ry|by apply not_eq_sym|done|done|done|].
  assert (Fin : ∀ id' w d d1, handleProposal uuid_text public_key cfgy cy cy' sy (propose ax) d = (Some id', w, d1) →
    answers sy (propose ax) (at_plan ay) id' d1 → sys d1 = sys dy → resources d1 = resources dy →
    (d = dy → handleDecline cd s2y v d1 = d1) → accepted d).
  { intros id' w d d1 E An K1 K2 Hd. destruct (accept_message _ _ _ _ _ _ _ _ _ _ _ _ E An) as [Tw Ow].
    exists id', w, d1. split_and!; try done. intros H1 H2 H3. rewrite <- R2x. by eapply accept_probes. }
  split.
  - destruct O1 as (id' & w & d1 & E & An & K1 & K2 & Hd). by eapply Fin.
  - destruct O2 as (id' & w & d1 & E & An & K1 & K2). eapply Fin; [exact E|done..|].
    intros Ed. destruct (decline_handed cd s2y v idy ay sy dy Py) as [[_ H] _]; [by rewrite Ry|by rewrite Ry, R2y|done|].
    destruct Py as ([Ea _] & _). by rewrite Ed, Ea in H.
Qed.

(** Nodes a and b of LinkSafety.v. *)
Definition cfg_b : desired := mkDesired (mkUID node_b "b") PortChoice_zero [x0a] [x05] true true
  [mkPrefix (Addr4 (192 * 2 ^ 24)) 8] 1.
Definition session_a (n : nat) : session := mkSession n (peer_name node_a) (Addr6 1 "").
Definition crossing_a : engine := proposed [x01] 1 (start_engine []).
Definition crossing_b : engine := (prepareOutbound id_text cfg_b (run_call [x02]) (session_a 2) (start_engine [])).2.
Definition blank_attempt : dynamicAttempt := new_attempt (session_a 0) [] false LinkPlan_zero.
Definition crossing_ax : dynamicAttempt := default blank_attempt (heap crossing_a !! 0%nat).
Definition crossing_ay : dynamicAttempt := default blank_attempt (heap crossing_b !! 0%nat).

Lemma proposing_by s2 s d : attempts d !! UUID (RemoteUID s) = Some 0%nat →
  let a := default blank_attempt (heap d !! 0%nat) in
  at_state a = dynamicProposing → localProposal a = true → at_session a = Some (session_id s2) → InterfaceName (at_plan a) ≠ ""%string →
  proposing s2 0 a s d.
Proof. intros E a St Lo Se Nn. split_and!; try done. split; [done|]. unfold a in *. by destruct (heap d !! 0%nat). Qed.

Definition crossing_answer : Message := (handleProposal id_text any_key cfg_b (run_call []) (run_call []) (session_a 1)
  (dynamicLinkMessage any_key DynamicLinkPropose crossing_ax) crossing_b).1.2.

Lemma crossing_proposals_witness : OperationID crossing_answer = [x01] ∧
  ∃ ax, current (handleAccept any_key run_cfg (run_call []) (session_b 1) crossing_answer crossing_a) node_b 0 ax ∧
    at_state ax = dynamicProbing.
Proof.
  assert (Px : proposing (session_b 1) 0 crossing_ax (session_b 2) crossing_a) by (apply proposing_by; by vm_compute).
  assert (Py : proposing (session_a 2) 0 crossing_ay (session_a 1) crossing_b) by (apply proposing_by; by vm_compute).
  assert (Ids : operationID crossing_ax = [x01] ∧ operationID crossing_ay = [x02] ∧ at_remote crossing_ay = node_a)
    by (split_and!; by vm_compute).
  assert (Pe : pendingCleanups crossing_b !! node_a = None) by (by vm_compute).
  assert (A : acceptable any_key cfg_b (run_call []) (session_a 1) (dynamicLinkMessage any_key DynamicLinkPropose crossing_ax)
    (at_plan crossing_ay) crossing_b).
  { split; [by vm_compute..|]. eexists. split; [reflexivity|]. split; eexists; by vm_compute. }
  assert (C : candidateAllowed run_cfg (Endpoint crossing_answer) = true ∧ ProbeKey crossing_answer ≠ zeros 32 ∧
    WGPublicKey crossing_answer ≠ any_key (lk_PrivateKey (at_plan crossing_ax))) by (split_and!; by vm_compute).
  destruct Ids as (I1 & I2 & I3).
  destruct (crossing_proposals id_text any_key run_cfg cfg_b (run_call []) (run_call []) (run_call []) (run_call []) (run_call [])
    (session_b 2) (session_a 1) (session_b 1) (session_a 2) 0 0 crossing_ax crossing_ay crossing_a crossing_b
    eq_refl eq_refl eq_refl eq_refl eq_refl Px Py I3 Pe (ltac:(by rewrite I1, I2)) A)
    as (v & _ & _ & _ & (id' & w & d1 & E & _ & Ow & _ & _ & _ & _ & Pr) & _).
  assert (W : crossing_answer = w) by (unfold crossing_answer; by rewrite E).
  rewrite W in C |- *. destruct C as (C1 & C2 & C3). split; [by rewrite Ow|].
  destruct (Pr C1 C2 C3) as (ax & Cu & St & _). exists ax. split; [exact Cu|exact St].
Defined.
