(* ===== verification/Netlink.v ===== *)
(** What internal/linux asks of the kernel: the calls of the packages netlink
    and wgctrl, and the context that cancels a procedure, as the class [Kernel] of
    operations on an unknown world, and what their documentation says of them, as the class [KernelLaws], against
    which the theorems on routes and interfaces are proved.  [run_kernel]
    of RunKernel.v is an implementation, used to evaluate examples.

    The laws describe one network namespace in which nobody else changes
    anything while a procedure runs (the code holds [kernelMu]); every call may
    fail, without effect. *)

From S2P Require Import Prelude Netip Ports Desired.
From stdpp Require Import gmap strings.
Open Scope Z_scope.
Open Scope velvet_scope.

(** * Data *)

(** [net.IPNet]; [Ones] is the first result of [Mask.Size]. *)
Record IPNet := mkIPNet { IP : list byte; Ones : Z }.
#[global] Instance IPNet_eq_dec : EqDecision IPNet.
Proof. solve_decision. Defined.

(** [netlink.Route]: the fields that the code sets or reads.  [nr_MultiPath] is
    the number of next hops; a nil address is the empty list. *)
Record NRoute := mkNRoute {
  nr_LinkIndex : Z; nr_Dst : option IPNet; nr_Src : list byte; nr_Gw : list byte; nr_MultiPath : Z;
  nr_Tos : Z; nr_Priority : Z; nr_Scope : Z; nr_Protocol : Z; nr_Table : Z; nr_Type : Z }.
#[global] Instance NRoute_eq_dec : EqDecision NRoute.
Proof. solve_decision. Defined.

(** [netlink.Rule]. *)
Record NRule := mkNRule {
  nu_Family : Z; nu_Table : Z; nu_Priority : Z; nu_Protocol : Z; nu_Src : option IPNet; nu_Dst : option IPNet }.
#[global] Instance NRule_eq_dec : EqDecision NRule.
Proof. solve_decision. Defined.

(** [netlink.Link]: what [Attrs] and [Type] say; [ln_Up] is [FlagUp]. *)
Record NLink := mkNLink { ln_Index : Z; ln_Name : string; ln_Type : string; ln_Alias : string; ln_Up : bool }.
#[global] Instance NLink_eq_dec : EqDecision NLink.
Proof. solve_decision. Defined.

Definition FAMILY_ALL : Z := 0.
Definition FAMILY_V4 : Z := 2.
Definition FAMILY_V6 : Z := 10.
Definition SCOPE_UNIVERSE : Z := 0.
Definition SCOPE_LINK : Z := 253.
Definition RTN_UNICAST : Z := 1.
Definition RTN_UNREACHABLE : Z := 7.
Definition RTN_THROW : Z := 9.
Definition RT_TABLE_UNSPEC : Z := 0.
Definition RT_TABLE_MAIN : Z := 254.
Definition RTPROT_KERNEL : Z := 2.

(** [net.UDPAddr]. *)
Record UDPAddr := mkUDPAddr { ua_IP : list byte; ua_Port : Z }.
(** [wgtypes.Peer], [wgtypes.Device], [wgtypes.PeerConfig] and [wgtypes.Config]. *)
Record WGPeer := mkWGPeer {
  wp_PublicKey : list byte; wp_PresharedKey : list byte; wp_Endpoint : option UDPAddr;
  wp_LastHandshake : option Z; wp_Keepalive : Z; wp_AllowedIPs : list IPNet }.
Record WGDevice := mkWGDevice { wd_PublicKey : list byte; wd_ListenPort : Z; wd_Peers : list WGPeer }.
Record PeerConfig := mkPeerConfig {
  pc_PublicKey : list byte; pc_Remove : bool; pc_UpdateOnly : bool; pc_PresharedKey : option (list byte);
  pc_Endpoint : option UDPAddr; pc_Keepalive : option Z; pc_ReplaceAllowedIPs : bool; pc_AllowedIPs : list IPNet }.
Record WGConfig := mkWGConfig {
  wc_PrivateKey : option (list byte); wc_ListenPort : option Z; wc_Peers : list PeerConfig }.

(** ** [net.IP] *)

(** [To4]: the four octets of an IPv4 address in either form, or nil. *)
Definition To4 (ip : list byte) : option (list byte) :=
  match AddrFromSlice ip with
  | Some a => match Unmap a with Addr4 v => Some (be_put 4 v) | _ => None end
  | None => None
  end.
(** [IP.Equal]: an IPv4 address and its mapped form are equal. *)
Definition IP_Equal (a b : list byte) : bool :=
  match To4 a, To4 b with
  | Some x, Some y => bool_decide (x = y)
  | None, None => bool_decide (a = b)
  | _, _ => false
  end.

(** * Procedures on a world *)

Definition sys (W A : Type) : Type := W → result A * W.
#[global] Instance sys_ret {W} : MRet (sys W) := λ A a w, (Ok a, w).
#[global] Instance sys_bind {W} : MBind (sys W) := λ A B f m w,
  match m w with
  | (Ok a, w) => f a w
  | (Err e, w) => (Err e, w)
  | (Panic, w) => (Panic, w)
  end.
Definition sys_err {W A} (text : string) : sys W A := λ w, (Err (errors_New text), w).
Definition sys_panic {W A} : sys W A := λ w, (Panic, w).
(** [for _, x := range l { if !f(x) { return false } }]. *)
Fixpoint all_ {W A} (f : A → sys W bool) (l : list A) : sys W bool :=
  match l with
  | [] => mret true
  | x :: l => b ← f x; if (b : bool) then all_ f l else mret false
  end.
(** [for _, x := range l { if err := f(x); err != nil { return err } }]. *)
Fixpoint each {W A} (f : A → sys W unit) (l : list A) : sys W unit :=
  match l with
  | [] => mret tt
  | x :: l => f x;; each f l
  end.
(** [if b { return m }], and otherwise nothing. *)
Definition when_ {W} (b : bool) (m : sys W unit) : sys W unit := if b then m else mret tt.

(** * Addresses and prefixes (network.go) *)

Definition prefixIPNet (p : Prefix) : IPNet := mkIPNet (AsSlice (Prefix_Addr p)) (Z.max 0 (Bits p)).
Definition netipAddr (ip : list byte) : option Addr := Unmap <$> AddrFromSlice ip.
Definition prefixFromIPNet (value : option IPNet) : option Prefix :=
  net ← value; addr ← netipAddr (IP net); Some (Masked (PrefixFrom addr (Ones net))).
Definition prefixFromAddressIPNet (value : option IPNet) : option Prefix :=
  net ← value; addr ← netipAddr (IP net); Some (PrefixFrom addr (Ones net)).
Definition addressPresent (addresses : list (option IPNet)) (wanted : Prefix) : bool :=
  existsb (λ current, bool_decide (prefixFromAddressIPNet current = Some wanted)) addresses.
Definition prefixAddressPresent (prefixes : list Prefix) (address : Addr) : bool :=
  existsb (λ p, bool_decide (Prefix_Addr p = address)) prefixes.
Definition family (a : Addr) : Z := if Is4 a then FAMILY_V4 else FAMILY_V6.

(** A prefix that names a network of its family, and that Go does not take for
    an IPv4 one. *)
Definition plain_prefix (p : Prefix) : Prop :=
  wf_prefix p ∧ Prefix_IsValid p = true ∧ Masked p = p ∧ Is4In6 (Prefix_Addr p) = false.
(** The family of what is routed. *)
Definition dst_is6 (dst : option IPNet) : bool :=
  match dst with Some net => match To4 (IP net) with None => true | _ => false end | None => false end.

(** * The kernel as a class *)

(** The filter of [RouteListFiltered]: a table and a protocol, each with the bit
    of the mask that selects it. *)
Record RouteFilter := mkRouteFilter { rf_Table : option Z; rf_Protocol : option Z }.

(** A device is passed as the attributes of an earlier lookup; the kernel goes by
    the index.  [LinkByName] says with [None] that there is no such link. *)
Class Kernel (W : Type) := {
  LinkByName : string → sys W (option NLink);
  LinkList : sys W (list NLink);
  LinkAdd : string → string → sys W unit;
  LinkSetAlias : NLink → string → sys W unit;
  LinkDel : NLink → sys W unit;
  LinkSetUp : NLink → sys W unit;
  LinkSetDown : NLink → sys W unit;
  AddrList : NLink → Z → sys W (list (option IPNet));
  AddrDel : NLink → option IPNet → sys W unit;
  AddrReplace : NLink → IPNet → sys W unit;
  RouteListFiltered : Z → RouteFilter → sys W (list NRoute);
  RouteList : Z → sys W (list NRoute);
  RouteReplace : NRoute → sys W unit;
  RouteDel : NRoute → sys W unit;
  RuleList : Z → sys W (list NRule);
  RuleAdd : NRule → sys W unit;
  RuleDel : NRule → sys W unit;
  ctx_Err : sys W unit;
  wgctrl_New : sys W unit;
  wg_Device : string → sys W WGDevice;
  ConfigureDevice : string → WGConfig → sys W unit;
  ResolveUDPAddr : string → sys W UDPAddr;
  WriteFile : string → string → sys W unit;
  ReadFile : string → sys W string;
  Key_PublicKey : list byte → list byte
}.

(** ** The state that the laws speak of *)

Record device := mkDevice { d_link : NLink; d_addrs : list IPNet; d_wg : WGDevice }.
(** Devices by index; routes and rules as sets; the files below /proc/sys; and
    how many requests on routes and rules were sent. *)
Record kstate := mkKState {
  devices : gmap Z device; routes : list NRoute; rules : list NRule; sysctl : gmap string string; sent : nat }.

(** The kernel's default for an IPv6 route without a metric. *)
Definition kernel_priority (r : NRoute) : Z :=
  if (nr_Priority r =? 0) && dst_is6 (nr_Dst r) then 1024 else nr_Priority r.
Definition kernel_scope (r : NRoute) : Z := if dst_is6 (nr_Dst r) then SCOPE_UNIVERSE else nr_Scope r.

(** What the kernel reports of a route that was submitted as [r]. *)
Record reported (r k : NRoute) : Prop := {
  rep_table : nr_Table k = nr_Table r;
  rep_protocol : nr_Protocol k = nr_Protocol r;
  rep_type : nr_Type k = nr_Type r;
  rep_dst : prefixFromIPNet (nr_Dst k) = prefixFromIPNet (nr_Dst r);
  rep_6 : dst_is6 (nr_Dst k) = dst_is6 (nr_Dst r);
  rep_src : nr_Src k = nr_Src r;
  rep_gw : nr_Gw k = nr_Gw r;
  rep_multi : nr_MultiPath k = 0;
  rep_tos : nr_Tos k = nr_Tos r;
  rep_priority : nr_Priority k = kernel_priority r;
  rep_scope : nr_Scope k = kernel_scope r;
  rep_link : nr_Type r = RTN_UNICAST → nr_LinkIndex k = nr_LinkIndex r
}.
(** Two routes that cannot both be: [NLM_F_REPLACE] puts one in the place of the
    other. *)
Definition same_slot (a b : NRoute) : Prop :=
  nr_Table a = nr_Table b ∧ nr_Tos a = nr_Tos b ∧ nr_Priority a = nr_Priority b ∧
  is_Some (prefixFromIPNet (nr_Dst a)) ∧ prefixFromIPNet (nr_Dst a) = prefixFromIPNet (nr_Dst b).

Definition net_prefix (net : option IPNet) : option (option Prefix) := (λ n, prefixFromIPNet (Some n)) <$> net.
Record rule_reported (r k : NRule) : Prop := {
  rr_family : nu_Family k = nu_Family r;
  rr_table : nu_Table k = nu_Table r;
  rr_priority : nu_Priority k = nu_Priority r;
  rr_protocol : nu_Protocol k = nu_Protocol r;
  rr_src : net_prefix (nu_Src k) = net_prefix (nu_Src r);
  rr_dst : net_prefix (nu_Dst k) = net_prefix (nu_Dst r)
}.
(** The kernel drops a selector of length zero. *)
Definition selective (r : NRule) : Prop :=
  (∀ n, nu_Src r = Some n → Ones n ≠ 0) ∧ (∀ n, nu_Dst r = Some n → Ones n ≠ 0).

(** ** What a call does *)

Definition context_Canceled : error := errors_New "context canceled".
(** Errors that are not the code's own. *)
Definition kernel_error (e : error) : Prop := (∃ n, e = Errno n) ∨ e = context_Canceled.
Definition bump (s : kstate) : kstate := mkKState (devices s) (routes s) (rules s) (sysctl s) (S (sent s)).

Section Calls.
Context {W A : Type} (view : W → kstate).
(** A call that changes nothing. *)
Definition reads (m : sys W A) (R : kstate → A → Prop) : Prop := ∀ w,
  match m w with
  | (Ok a, w') => view w' = view w ∧ R (view w) a
  | (Err e, w') => view w' = view w ∧ kernel_error e
  | (Panic, _) => False
  end.
(** A request on devices or files: it fails without effect, or does what it is
    for. *)
Definition acts (m : sys W A) (R : kstate → kstate → Prop) : Prop := ∀ w,
  match m w with
  | (Ok _, w') => sent (view w') = sent (view w) ∧ R (view w) (view w')
  | (Err e, w') => view w' = view w ∧ kernel_error e
  | (Panic, _) => False
  end.
(** A request on routes or rules, which is counted. *)
Definition writes (m : sys W A) (R : kstate → kstate → Prop) : Prop := ∀ w,
  match m w with
  | (Ok _, w') => sent (view w') = S (sent (view w)) ∧ R (view w) (view w')
  | (Err e, w') => view w' = bump (view w) ∧ kernel_error e
  | (Panic, _) => False
  end.
End Calls.

(** A request on devices may, besides, drop routes and change those that the
    kernel keeps itself. *)
Definition other_than_devices (s s' : kstate) : Prop :=
  rules s' = rules s ∧ sysctl s' = sysctl s ∧
  ∀ r, r ∈ routes s' → nr_Protocol r ≠ RTPROT_KERNEL → r ∈ routes s.
Definition device_step (i : Z) (R : device → device → Prop) (s s' : kstate) : Prop :=
  ∃ d d', devices s !! i = Some d ∧ devices s' = <[i := d']> (devices s) ∧ R d d' ∧ other_than_devices s s'.
Definition only_routes (s s' : kstate) : Prop :=
  devices s' = devices s ∧ rules s' = rules s ∧ sysctl s' = sysctl s.
Definition only_rules (s s' : kstate) : Prop :=
  devices s' = devices s ∧ routes s' = routes s ∧ sysctl s' = sysctl s.

Definition set_alias (owner : string) (l : NLink) : NLink :=
  mkNLink (ln_Index l) (ln_Name l) (ln_Type l) owner (ln_Up l).
Definition set_up (up : bool) (l : NLink) : NLink :=
  mkNLink (ln_Index l) (ln_Name l) (ln_Type l) (ln_Alias l) up.
Definition link_local (a : IPNet) : Prop :=
  ∃ p, prefixFromAddressIPNet (Some a) = Some p ∧ IsLinkLocalUnicast (Prefix_Addr p) = true.
Definition accepts (f : RouteFilter) (r : NRoute) : Prop :=
  (∀ t, rf_Table f = Some t → t ≠ RT_TABLE_UNSPEC → nr_Table r = t) ∧
  (∀ p, rf_Protocol f = Some p → nr_Protocol r = p).
Definition of_family (fam : Z) (dst : option IPNet) : Prop :=
  fam = FAMILY_ALL ∨ fam = (if dst_is6 dst then FAMILY_V6 else FAMILY_V4).

(** [ConfigureDevice], one peer: removed, updated, or added. *)
Definition configure_peer (ps : list WGPeer) (c : PeerConfig) : list WGPeer :=
  if pc_Remove c then filter (λ p, wp_PublicKey p ≠ pc_PublicKey c) ps
  else
    let update p := mkWGPeer (wp_PublicKey p) (default (wp_PresharedKey p) (pc_PresharedKey c))
      (match pc_Endpoint c with Some e => Some e | None => wp_Endpoint p end) (wp_LastHandshake p)
      (default (wp_Keepalive p) (pc_Keepalive c))
      (if pc_ReplaceAllowedIPs c then pc_AllowedIPs c else wp_AllowedIPs p ++ pc_AllowedIPs c) in
    if bool_decide (pc_PublicKey c ∈ map wp_PublicKey ps)
    then map (λ p, if bool_decide (wp_PublicKey p = pc_PublicKey c) then update p else p) ps
    else if pc_UpdateOnly c then ps
    else ps ++ [update (mkWGPeer (pc_PublicKey c) [] None None 0 [])].
(** The kernel has no peer with the device's own key. *)
Record configured (pub : list byte → list byte) (c : WGConfig) (g g' : WGDevice) : Prop := {
  cf_key : wd_PublicKey g' = match wc_PrivateKey c with Some k => pub k | None => wd_PublicKey g end;
  cf_port : match wc_ListenPort c with Some p => p ≠ 0 → wd_ListenPort g' = p | None => wd_ListenPort g' = wd_ListenPort g end;
  cf_peers : (∀ p, p ∈ foldl configure_peer (wd_Peers g) (wc_Peers c) → wp_PublicKey p ≠ wd_PublicKey g') →
    wd_Peers g' ≡ₚ foldl configure_peer (wd_Peers g) (wc_Peers c)
}.

(** * The laws *)

Class KernelLaws (W : Type) `{Kernel W} := {
  view : W → kstate;
  view_index w i d : devices (view w) !! i = Some d → ln_Index (d_link d) = i;
  view_name w i j d e : devices (view w) !! i = Some d → devices (view w) !! j = Some e →
    ln_Name (d_link d) = ln_Name (d_link e) → i = j;
  view_peers w i d : devices (view w) !! i = Some d → NoDup (map wp_PublicKey (wd_Peers (d_wg d)));
  LinkByName_law name : reads view (LinkByName name) (λ s o,
    match o with
    | Some l => ln_Name l = name ∧ ∃ d, devices s !! ln_Index l = Some d ∧ d_link d = l
    | None => ∀ i d, devices s !! i = Some d → ln_Name (d_link d) ≠ name
    end);
  LinkList_law : reads view LinkList (λ s ls, ∀ l, l ∈ ls ↔ ∃ i d, devices s !! i = Some d ∧ d_link d = l);
  LinkAdd_law name ty : acts view (LinkAdd name ty) (λ s s', ∃ i d, devices s !! i = None ∧
    devices s' = <[i := d]> (devices s) ∧ d_link d = mkNLink i name ty "" false ∧ other_than_devices s s');
  LinkSetAlias_law l owner : acts view (LinkSetAlias l owner) (device_step (ln_Index l) (λ d d',
    d' = mkDevice (set_alias owner (d_link d)) (d_addrs d) (d_wg d)));
  LinkDel_law l : acts view (LinkDel l) (λ s s',
    devices s' = delete (ln_Index l) (devices s) ∧ other_than_devices s s');
  LinkSetUp_law l : acts view (LinkSetUp l) (device_step (ln_Index l) (λ d d',
    d_link d' = set_up true (d_link d) ∧ (∀ a, a ∈ d_addrs d → a ∈ d_addrs d') ∧
    ∀ a, a ∈ d_addrs d' → a ∈ d_addrs d ∨ link_local a));
  LinkSetDown_law l : acts view (LinkSetDown l) (device_step (ln_Index l) (λ d d',
    d_link d' = set_up false (d_link d) ∧ ∀ a, a ∈ d_addrs d' → a ∈ d_addrs d));
  AddrList_law l fam : reads view (AddrList l fam) (λ s as_, ∃ d, devices s !! ln_Index l = Some d ∧
    ∀ x, x ∈ as_ ↔ ∃ a, x = Some a ∧ a ∈ d_addrs d ∧ of_family fam (Some a));
  AddrDel_law l a : acts view (AddrDel l (Some a)) (device_step (ln_Index l) (λ d d',
    d_link d' = d_link d ∧ d_wg d' = d_wg d ∧ (∀ x, x ∈ d_addrs d' → x ∈ d_addrs d ∧ x ≠ a) ∧
    ∀ x, x ∈ d_addrs d → x ≠ a → dst_is6 (Some x) = true → x ∈ d_addrs d'));
  AddrReplace_law l a : acts view (AddrReplace l a) (device_step (ln_Index l) (λ d d',
    d_link d' = d_link d ∧ d_wg d' = d_wg d ∧ (∀ x, x ∈ d_addrs d → x ∈ d_addrs d') ∧
    (∀ x, x ∈ d_addrs d' → x ∈ d_addrs d ∨ x = a) ∧
    ((∀ x, x ∈ d_addrs d → IP x = IP a → x = a) → a ∈ d_addrs d')));
  AddrReplace_same l a : acts view (AddrReplace l a) (λ s s',
    (∃ d, devices s !! ln_Index l = Some d ∧ a ∈ d_addrs d) → s' = s);
  RouteListFiltered_law f : reads view (RouteListFiltered FAMILY_ALL f) (λ s rs,
    NoDup rs ∧ ∀ r, r ∈ rs ↔ r ∈ routes s ∧ accepts f r);
  RouteList_law fam : reads view (RouteList fam) (λ s rs,
    NoDup rs ∧ ∀ r, r ∈ rs ↔ r ∈ routes s ∧ nr_Table r = RT_TABLE_MAIN ∧ of_family fam (nr_Dst r));
  RouteReplace_law r p : plain_prefix p → nr_Dst r = Some (prefixIPNet p) →
    writes view (RouteReplace r) (λ s s', only_routes s s' ∧ ∃ k, reported r k ∧
      ∀ x, x ∈ routes s' ↔ x = k ∨ x ∈ routes s ∧ ¬ same_slot x k);
  RouteReplace_only r : writes view (RouteReplace r) only_routes;
  RouteDel_law r : writes view (RouteDel r) (λ s s', only_routes s s' ∧
    (r ∈ routes s → ∀ x, x ∈ routes s' ↔ x ∈ routes s ∧ x ≠ r));
  RuleList_law fam : reads view (RuleList fam) (λ s us,
    NoDup us ∧ ∀ u, u ∈ us ↔ u ∈ rules s ∧ nu_Family u = fam);
  RuleAdd_law u : selective u → writes view (RuleAdd u) (λ s s', only_rules s s' ∧ ∃ k, rule_reported u k ∧
    ∀ x, x ∈ rules s' ↔ x = k ∨ x ∈ rules s);
  RuleAdd_only u : writes view (RuleAdd u) only_rules;
  RuleDel_law u : writes view (RuleDel u) (λ s s', only_rules s s' ∧
    (u ∈ rules s → ∀ x, x ∈ rules s' ↔ x ∈ rules s ∧ x ≠ u));
  ctx_Err_law : reads view ctx_Err (λ _ _, True);
  wgctrl_New_law : reads view wgctrl_New (λ _ _, True);
  wg_Device_law name : reads view (wg_Device name) (λ s g,
    ∃ i d, devices s !! i = Some d ∧ ln_Name (d_link d) = name ∧ d_wg d = g);
  ConfigureDevice_law name c : acts view (ConfigureDevice name c) (λ s s', ∃ i, device_step i (λ d d',
    ln_Name (d_link d) = name ∧ d_link d' = d_link d ∧ d_addrs d' = d_addrs d ∧
    configured Key_PublicKey c (d_wg d) (d_wg d')) s s');
  ResolveUDPAddr_law raw : reads view (ResolveUDPAddr raw) (λ _ _, True);
  WriteFile_law path text : acts view (WriteFile path text) (λ s s',
    devices s' = devices s ∧ routes s' = routes s ∧ rules s' = rules s ∧ sysctl s' = <[path := text]> (sysctl s));
  ReadFile_law path : reads view (ReadFile path) (λ s text, sysctl s !! path = Some text)
}.

(** * Triples *)

(** [sspec P m Q E]: from a state of [P], [m] returns a value and a state of [Q],
    or an error and a state of [E]. *)
Section Triples.
Context {W : Type} `{KernelLaws W}.
Implicit Types (P : kstate → Prop) (E : error → kstate → Prop) (s : kstate).
Definition sspec {A} P (m : sys W A) (Q : A → kstate → Prop) E : Prop := ∀ w, P (view w) →
  match m w with
  | (Ok a, w') => Q a (view w')
  | (Err e, w') => E e (view w')
  | (Panic, _) => False
  end.

Lemma sspec_ret {A} P (a : A) Q E : (∀ s, P s → Q a s) → sspec P (mret a) Q E.
Proof. intros X w. apply X. Qed.
Lemma sspec_err {A} P t (Q : A → kstate → Prop) E : (∀ s, P s → E (errors_New t) s) → sspec P (sys_err t) Q E.
Proof. intros X w. apply X. Qed.
Lemma sspec_bind {A B} P (m : sys W A) Q (f : A → sys W B) R E :
  sspec P m Q E → (∀ a, sspec (Q a) (f a) R E) → sspec P (m ≫= f) R E.
Proof.
  intros Hm Hf w Hw. unfold mbind, sys_bind. specialize (Hm w Hw).
  destruct (m w) as [[a|e|] w1]; [by apply Hf|done..].
Qed.
Lemma sspec_weaken {A} P P' (m : sys W A) (Q Q' : A → kstate → Prop) E E' :
  sspec P' m Q' E' → (∀ s, P s → P' s) → (∀ a s, Q' a s → Q a s) → (∀ e s, E' e s → E e s) → sspec P m Q E.
Proof. intros X H1 H2 H3 w Hw. specialize (X w (H1 _ Hw)). destruct (m w) as [[a|e|] w']; auto. Qed.
Lemma sspec_reads {A} P (m : sys W A) R (Q : A → kstate → Prop) E : reads view m R →
  (∀ s a, P s → R s a → Q a s) → (∀ s e, P s → kernel_error e → E e s) → sspec P m Q E.
Proof.
  intros X HQ HE w Hw. specialize (X w). destruct (m w) as [[a|e|] w']; [..|done]; destruct X as [X1 X2]; rewrite X1; auto.
Qed.
Lemma sspec_writes P (m : sys W unit) R (Q : unit → kstate → Prop) E : writes view m R →
  (∀ s s', P s → R s s' → sent s' = S (sent s) → Q tt s') → (∀ s e, P s → kernel_error e → E e (bump s)) →
  sspec P m Q E.
Proof.
  intros X HQ HE w Hw. specialize (X w). destruct (m w) as [[[]|e|] w']; [| |done]; destruct X as [X1 X2].
  - by apply (HQ (view w)).
  - rewrite X1. auto.
Qed.
Lemma sspec_acts P (m : sys W unit) R (Q : unit → kstate → Prop) E : acts view m R →
  (∀ s s', P s → R s s' → sent s' = sent s → Q tt s') → (∀ s e, P s → kernel_error e → E e s) → sspec P m Q E.
Proof.
  intros X HQ HE w Hw. specialize (X w). destruct (m w) as [[[]|e|] w']; [| |done]; destruct X as [X1 X2].
  - by apply (HQ (view w)).
  - rewrite X1. auto.
Qed.
(** A loop, with an invariant on what is behind it. *)
Lemma sspec_each {A} (I : list A → kstate → Prop) (f : A → sys W unit) l E :
  (∀ l1 x l2, l = l1 ++ x :: l2 → sspec (I l1) (f x) (λ _, I (l1 ++ [x])) E) →
  sspec (I []) (each f l) (λ _, I l) E.
Proof.
  assert (G : ∀ l2 l1, l = l1 ++ l2 →
    (∀ l1 x l2, l = l1 ++ x :: l2 → sspec (I l1) (f x) (λ _, I (l1 ++ [x])) E) →
    sspec (I l1) (each f l2) (λ _, I l) E).
  { induction l2 as [|x l2 IH]; intros l1 El X; cbn [each].
    - rewrite app_nil_r in El. rewrite El. by apply sspec_ret.
    - eapply sspec_bind; [by apply (X l1 x l2)|]. intros ?. apply IH; [by rewrite <- app_assoc|done]. }
  intros X. by apply (G l []).
Qed.
Lemma sspec_loop {A} P (I : list A → kstate → Prop) (f : A → sys W unit) l E : (∀ s, P s → I [] s) →
  (∀ l1 x l2, l = l1 ++ x :: l2 → sspec (I l1) (f x) (λ _, I (l1 ++ [x])) E) → sspec P (each f l) (λ _, I l) E.
Proof. intros X0 X. eapply sspec_weaken; [by apply (sspec_each I)|done|by intros [] s Y|done]. Qed.
Lemma sspec_when P b (m : sys W unit) (Q : unit → kstate → Prop) E :
  (b = true → sspec P m Q E) → (b = false → ∀ s, P s → Q tt s) → sspec P (when_ b m) Q E.
Proof. intros X Y. destruct b; [by apply X|]. apply sspec_ret. auto. Qed.
Lemma sspec_pure {A} (φ : Prop) P (m : sys W A) Q E : (φ → sspec P m Q E) → sspec (λ s, P s ∧ φ) m Q E.
Proof. intros X w [Hw F]. by apply (X F w). Qed.
(** After a call that changed nothing. *)
Lemma sspec_then {A B} (φ : A → Prop) s0 (m : sys W A) (f : A → sys W B) R E :
  sspec (λ s, s = s0) m (λ a s, s = s0 ∧ φ a) E → (∀ a, φ a → sspec (λ s, s = s0) (f a) R E) →
  sspec (λ s, s = s0) (m ≫= f) R E.
Proof. intros Hm Hf. eapply sspec_bind; [exact Hm|]. intros a. apply sspec_pure. apply Hf. Qed.
(** A procedure that starts from some state of [P]. *)
Lemma sspec_from {A} P (m : sys W A) Q E : (∀ s0, P s0 → sspec (λ s, s = s0) m Q E) → sspec P m Q E.
Proof. intros X w Hw. by apply (X (view w)). Qed.
Lemma sspec_post {A} P (m : sys W A) (Q Q' : A → kstate → Prop) E E' :
  sspec P m Q' E' → (∀ a s, Q' a s → Q a s) → (∀ e s, E' e s → E e s) → sspec P m Q E.
Proof. intros X H1 H2. by eapply sspec_weaken. Qed.
(** What a run that returned shows. *)
Lemma sspec_run {A} P (m : sys W A) Q E w r w' : sspec P m Q E → P (view w) → m w = (r, w') →
  (∃ a, r = Ok a ∧ Q a (view w')) ∨ (∃ e, r = Err e ∧ E e (view w')).
Proof. intros X Hw Em. specialize (X w Hw). rewrite Em in X. destruct r; [left|right|done]; eauto. Qed.
(** Two triples for one procedure. *)
Lemma sspec_and {A} P P' (m : sys W A) Q Q' E E' : sspec P m Q E → sspec P' m Q' E' →
  sspec (λ s, P s ∧ P' s) m (λ a s, Q a s ∧ Q' a s) (λ e s, E e s ∧ E' e s).
Proof. intros X Y w [Hw Hw']. specialize (X w Hw). specialize (Y w Hw'). by destruct (m w) as [[a|e|] w']. Qed.
End Triples.
