(* ===== verification/Routes.v ===== *)
(** internal/linux/routes.go: the routes and rules that a node wants, and how
    the kernel is brought to have them, checked for them, and cleaned of those
    that other settings left behind.  A method of the backend is a procedure on
    the kernel; an error wrapped with [%w] is that error. *)

From S2P Require Import Prelude Netip Ports Spec Desired Netlink.
From stdpp Require Import gmap strings.
Open Scope Z_scope.
Open Scope velvet_scope.

(** * Desired state (desired.go) *)

Record DynamicLinksPlan := mkDynamicLinksPlan {
  dp_Mode : string; dp_AllowCandidatePrefixes : list Prefix; RecoveryTimeout : Z }.
Record DesiredState := mkDesiredState {
  RetainedLinks : list LinkPlan; Ports : PortChoice; ds_Durable : DurableSettings; ds_UID : NodeUID;
  UUID : list byte; FabricPSK : list byte; LinkPoolV4 : Prefix; LinkPoolV6 : Prefix; LoopbackPoolV6 : Prefix;
  LoopbackV6 : Addr; ds_VFPPort : Z; FabricTableID : Z; LoopbackOwnerAlias : string; Forwarding : bool;
  Links : list LinkPlan; ds_Routes : list RoutePlan; Rules : list RulePlan; ds_Babel : option BabelPlan;
  ds_DynamicLinks : option DynamicLinksPlan; ds_PrivateKey : list byte }.

Definition StaticProtocol : Z := 201.
Definition LinkProtocol : Z := 202.
Definition NeighborFallbackPriority : Z := 131008.

Record managedRoute := mkManagedRoute { route : NRoute; metric : option Z }.

(** * Comparisons *)

Definition ipEqual (a b : list byte) : bool :=
  if bool_decide (a = []) || bool_decide (b = []) then bool_decide (a = []) && bool_decide (b = [])
  else IP_Equal a b.

Definition routesMatch (a b : NRoute) : bool :=
  if negb (nr_Table a =? nr_Table b) || negb (nr_Protocol a =? nr_Protocol b) ||
     negb (nr_Type a =? nr_Type b) || negb (ipEqual (nr_Src a) (nr_Src b)) then false
  else
    match prefixFromIPNet (nr_Dst a), prefixFromIPNet (nr_Dst b) with
    | Some ap, Some bp =>
      if bool_decide (ap = bp) then negb (nr_Type a =? RTN_UNICAST) || (nr_LinkIndex a =? nr_LinkIndex b) else false
    | _, _ => false
    end.

(** [candidate.Dst != nil && candidate.Dst.IP.To4() == nil] is [dst_is6]. *)
Definition anyRouteMatches (r : NRoute) (candidates : list NRoute) : bool :=
  existsb (λ candidate,
    let priority := if (nr_Priority candidate =? 0) && dst_is6 (nr_Dst candidate) then 1024 else nr_Priority candidate in
    routesMatch r candidate && (nr_Priority r =? priority)) candidates.

Definition installedRoutePresent (wanted : NRoute) (current : list NRoute) : bool :=
  let scope := if dst_is6 (nr_Dst wanted) then SCOPE_UNIVERSE else nr_Scope wanted in
  existsb (λ r, anyRouteMatches r [wanted] && (nr_Scope r =? scope) && ipEqual (nr_Gw r) (nr_Gw wanted) &&
    (nr_MultiPath r =? 0) && (nr_Tos r =? nr_Tos wanted)) current.

Definition managedRouteMatches (current : NRoute) (wanted : managedRoute) : bool :=
  if negb (routesMatch current (route wanted)) then false
  else match metric wanted with None => true | Some m => nr_Priority current =? m end.
Definition managedRoutePresent (wanted : managedRoute) (current : list NRoute) : bool :=
  existsb (λ r, managedRouteMatches r wanted) current.
Definition anyManagedRouteMatches (current : NRoute) (wanted : list managedRoute) : bool :=
  existsb (λ r, managedRouteMatches current r) wanted.

Definition ipNetEqual (a b : option IPNet) : bool :=
  match a, b with
  | None, None => true
  | Some x, Some y =>
    match prefixFromIPNet (Some x), prefixFromIPNet (Some y) with
    | Some ap, Some bp => bool_decide (ap = bp)
    | _, _ => false
    end
  | _, _ => false
  end.
Definition rulesMatch (a b : NRule) : bool :=
  (nu_Family a =? nu_Family b) && (nu_Table a =? nu_Table b) && (nu_Priority a =? nu_Priority b) &&
  (nu_Protocol a =? nu_Protocol b) && ipNetEqual (nu_Src a) (nu_Src b) && ipNetEqual (nu_Dst a) (nu_Dst b).
Definition anyRuleMatches (rule : NRule) (candidates : list NRule) : bool := existsb (rulesMatch rule) candidates.

(** * What is wanted *)

Definition desiredNetlinkRule (item : RulePlan) : NRule :=
  if Prefix_IsValid (rl_Source item)
  then mkNRule (family (Prefix_Addr (rl_Source item))) (rl_TableID item) (Priority item) StaticProtocol
         (Some (prefixIPNet (rl_Source item))) None
  else mkNRule (family (Prefix_Addr (rl_Destination item))) (rl_TableID item) (Priority item) StaticProtocol
         None (Some (prefixIPNet (rl_Destination item))).
Definition desiredNetlinkRules (desired : DesiredState) : list NRule := map desiredNetlinkRule (Rules desired).

Section Procedures.
Context {W : Type} `{Kernel W}.

(** One route; [peer_source] is the source address of a route to a loopback. *)
Definition peer_source (desired : DesiredState) (item : RoutePlan) : list byte :=
  if (TableID item =? FabricTableID desired) && Is6 (Prefix_Addr (rp_Prefix item)) &&
     Contains (LoopbackPoolV6 desired) (Prefix_Addr (rp_Prefix item))
  then AsSlice (LoopbackV6 desired) else [].
Definition desired_route (desired : DesiredState) (item : RoutePlan) (index : Z) : NRoute :=
  let make index src scope type :=
    mkNRoute index (Some (prefixIPNet (rp_Prefix item))) src [] 0 0 (default 0 (Metric item)) scope
      StaticProtocol (TableID item) type in
  match Type_ item with
  | RouteViaPeer => make index (peer_source desired item) SCOPE_LINK RTN_UNICAST
  | RouteThrow => make 0 [] SCOPE_UNIVERSE RTN_THROW
  | RouteUnreachable => make 0 [] SCOPE_UNIVERSE RTN_UNREACHABLE
  end.
Definition desiredNetlinkRoute (desired : DesiredState) (item : RoutePlan) : sys W managedRoute :=
  match Type_ item with
  | RouteViaPeer =>
    device ← LinkByName (rp_InterfaceName item);
    match device with
    | None => sys_err "not found"
    | Some l => mret (mkManagedRoute (desired_route desired item (ln_Index l)) (Metric item))
    end
  | _ => mret (mkManagedRoute (desired_route desired item 0) (Metric item))
  end.
Fixpoint desired_routes (desired : DesiredState) (items : list RoutePlan) : sys W (list managedRoute) :=
  match items with
  | [] => mret []
  | item :: items =>
    r ← desiredNetlinkRoute desired item;
    rs ← desired_routes desired items;
    mret (r :: rs)
  end.
Definition desiredNetlinkRoutes (desired : DesiredState) : sys W (list managedRoute) :=
  desired_routes desired (ds_Routes desired).

(** * Listing *)

Definition routesByProtocol (protocol : Z) : sys W (list NRoute) :=
  RouteListFiltered FAMILY_ALL (mkRouteFilter (Some RT_TABLE_UNSPEC) (Some protocol)).
Definition routesInTable (table : Z) : sys W (list NRoute) :=
  RouteListFiltered FAMILY_ALL (mkRouteFilter (Some table) None).
Definition rulesByProtocol (protocol : Z) : sys W (list NRule) :=
  r4 ← RuleList FAMILY_V4;
  r6 ← RuleList FAMILY_V6;
  mret (filter (λ u, nu_Protocol u = protocol) (r4 ++ r6)).

(** * Reconciling *)

Definition replaceStaticRoutes (wanted : list managedRoute) : sys W unit :=
  current ← routesByProtocol StaticProtocol;
  each (λ m, if installedRoutePresent (route m) current then mret tt else RouteReplace (route m)) wanted.

Definition deleteStaleStaticRoutes (wanted : list managedRoute) : sys W unit :=
  current ← routesByProtocol StaticProtocol;
  each (λ r, if negb (anyManagedRouteMatches r wanted) then RouteDel r else mret tt) current.

Definition reconcilePolicyRules (desired : DesiredState) : sys W unit :=
  let wanted := desiredNetlinkRules desired in
  current ← rulesByProtocol StaticProtocol;
  each (λ u, if anyRuleMatches u current then mret tt else RuleAdd u) wanted;;
  each (λ u, if negb (anyRuleMatches u wanted) then RuleDel u else mret tt) current.

Definition reconcileRoutesAndRules (desired : DesiredState) : sys W unit :=
  wanted ← desiredNetlinkRoutes desired;
  replaceStaticRoutes wanted;;
  reconcilePolicyRules desired;;
  deleteStaleStaticRoutes wanted.

(** * Verifying *)

Definition verifyStaticRoutes (desired : DesiredState) : sys W unit :=
  wanted ← desiredNetlinkRoutes desired;
  current ← routesByProtocol StaticProtocol;
  each (λ m, if negb (managedRoutePresent m current) then sys_err "route is missing" else mret tt) wanted;;
  each (λ r, if negb (anyManagedRouteMatches r wanted) then sys_err "stale route remains" else mret tt) current.

Definition verifyPolicyRules (desired : DesiredState) : sys W unit :=
  let wanted := desiredNetlinkRules desired in
  current ← rulesByProtocol StaticProtocol;
  each (λ u, if negb (anyRuleMatches u current) then sys_err "rule is missing" else mret tt) wanted;;
  each (λ u, if negb (anyRuleMatches u wanted) then sys_err "stale rule remains" else mret tt) current.

(** A table of ours holds only routes of ours.  The tables are visited in the
    order of the list here, in any order in the code. *)
Definition foreign_route (desired : DesiredState) (r : NRoute) : bool :=
  let babelOwned := match ds_Babel desired with Some b => nr_Protocol r =? Protocol b | None => false end in
  negb (nr_Protocol r =? StaticProtocol) && negb (nr_Protocol r =? LinkProtocol) && negb babelOwned.
Definition desired_tables (desired : DesiredState) : list Z :=
  remove_dups (FabricTableID desired :: map TableID (ds_Routes desired) ++ map rl_TableID (Rules desired)).
Definition rejectForeignTableState (desired : DesiredState) : sys W unit :=
  each (λ table,
    rs ← routesInTable table;
    each (λ r, if foreign_route desired r then sys_err "routing table contains foreign route" else mret tt) rs)
    (desired_tables desired).

Definition cleanupDisabledBabelState : sys W unit :=
  rs ← routesByProtocol BabelDynamicProtocol;
  each RouteDel rs;;
  us ← rulesByProtocol BabelDynamicProtocol;
  each RuleDel us.
End Procedures.
