(* ===== verification/RoutesProps.v ===== *)
(** What reconciling routes and rules establishes: the kernel then has what was
    wanted and nothing stale, a check of it succeeds, another pass asks for
    nothing, and the routes and rules of others are as they were. *)

From S2P Require Import Prelude Netip Ports Spec Desired Netlink Routes.
From stdpp Require Import gmap strings.
Open Scope Z_scope.
Open Scope velvet_scope.

(** * Prefixes and their netlink form *)

Lemma AddrFromSlice_AsSlice a : wf_addr a → Addr_IsValid a = true → Zone a = ""%string →
  AddrFromSlice (AsSlice a) = Some a.
Proof.
  intros Wf V Z. destruct a as [|v|v z]; cbn in *; [done|..]; unfold AddrFromSlice; rewrite length_be_put.
  - rewrite decide_True by done. unfold AddrFrom4. by rewrite be_get_put_small by done.
  - rewrite decide_False, decide_True by done. unfold AddrFrom16. rewrite be_get_put_small by done. by rewrite Z.
Qed.

Section Plain.
Context (p : Prefix) (G : plain_prefix p).
Lemma plain_addr : wf_addr (Prefix_Addr p) ∧ Addr_IsValid (Prefix_Addr p) = true ∧ Zone (Prefix_Addr p) = ""%string ∧
  Unmap (Prefix_Addr p) = Prefix_Addr p.
Proof using G.
  destruct G as ((Wf & Z & B) & V & M & I). unfold Prefix_IsValid in V. apply Z.leb_le in V.
  destruct B as [B|(V2 & B)]; [lia|]. split_and!; try done.
  unfold Unmap. rewrite I. by destruct (Prefix_Addr p).
Qed.
Lemma plain_bits : 0 <= Bits p <= BitLen (Prefix_Addr p).
Proof using G.
  destruct G as ((Wf & Z & B) & V & M & I). unfold Prefix_IsValid in V. apply Z.leb_le in V.
  destruct B as [B|(V2 & B)]; [lia|done].
Qed.
Lemma netipAddr_plain : netipAddr (AsSlice (Prefix_Addr p)) = Some (Prefix_Addr p).
Proof using G.
  destruct plain_addr as (A1 & A2 & A3 & A4). unfold netipAddr. rewrite AddrFromSlice_AsSlice by done. cbn. by rewrite A4.
Qed.
Lemma PrefixFrom_plain : PrefixFrom (Prefix_Addr p) (Ones (prefixIPNet p)) = p.
Proof using G.
  destruct plain_addr as (A1 & A2 & A3 & A4). pose proof plain_bits as B. cbn. rewrite Z.max_r by lia.
  unfold PrefixFrom. rewrite A2. replace (0 <=? Bits p) with true by (symmetry; apply Z.leb_le; lia).
  replace (Bits p <=? BitLen (Prefix_Addr p)) with true by (symmetry; apply Z.leb_le; lia). cbn.
  destruct p as [[|v|v z] b]; cbn in *; [done|done|]. by rewrite A3.
Qed.
(** What is written is what is read. *)
Lemma prefixFromIPNet_plain : prefixFromIPNet (Some (prefixIPNet p)) = Some p.
Proof using G.
  unfold prefixFromIPNet. cbn [mbind option_bind]. change (IP (prefixIPNet p)) with (AsSlice (Prefix_Addr p)).
  rewrite netipAddr_plain. cbn [mbind option_bind]. rewrite PrefixFrom_plain. f_equal. apply G.
Qed.
Lemma dst_is6_plain : dst_is6 (Some (prefixIPNet p)) = Is6 (Prefix_Addr p).
Proof using G.
  destruct plain_addr as (A1 & A2 & A3 & A4). cbn. unfold To4. rewrite AddrFromSlice_AsSlice by done.
  rewrite A4. by destruct (Prefix_Addr p).
Qed.
End Plain.

Lemma IP_Equal_refl a : IP_Equal a a = true.
Proof. unfold IP_Equal. destruct (To4 a); by apply bool_decide_eq_true. Qed.
Lemma ipEqual_refl a : ipEqual a a = true.
Proof. unfold ipEqual. case_bool_decide; cbn; [done|]. apply IP_Equal_refl. Qed.

(** * Routes that stand for each other *)

Definition slot_of (r : NRoute) : Z * Z * Z * option Prefix :=
  (nr_Table r, nr_Tos r, kernel_priority r, prefixFromIPNet (nr_Dst r)).
(** The route [k] is where the kernel puts [r]. *)
Definition in_slot (r k : NRoute) : Prop := (nr_Table k, nr_Tos k, nr_Priority k, prefixFromIPNet (nr_Dst k)) = slot_of r.
(** What [installedRoutePresent] looks for. *)
Record present (r k : NRoute) : Prop := {
  pr_match : routesMatch k r = true;
  pr_priority : nr_Priority k = kernel_priority r;
  pr_scope : nr_Scope k = kernel_scope r;
  pr_gw : ipEqual (nr_Gw k) (nr_Gw r) = true;
  pr_multi : nr_MultiPath k = 0;
  pr_tos : nr_Tos k = nr_Tos r
}.
Lemma installedRoutePresent_spec r rs : installedRoutePresent r rs = true ↔ ∃ k, k ∈ rs ∧ present r k.
Proof.
  unfold installedRoutePresent. rewrite existsb_exists. setoid_rewrite <- list_elem_of_In.
  split; intros (k & Hk & P); exists k; (split; [done|]); revert P; unfold anyRouteMatches; cbn; rewrite orb_false_r.
  - intros P. repeat (apply andb_true_iff in P as [P ?]). bool_to_prop. by split.
  - intros [P1 P2 P3 P4 P5 P6]. rewrite P1, P4, P5, P6, P3, P2. unfold kernel_scope, kernel_priority. by rewrite !Z.eqb_refl.
Qed.
Lemma routesMatch_dst a b : routesMatch a b = true →
  is_Some (prefixFromIPNet (nr_Dst a)) ∧ prefixFromIPNet (nr_Dst a) = prefixFromIPNet (nr_Dst b) ∧
  nr_Table a = nr_Table b ∧ nr_Protocol a = nr_Protocol b.
Proof.
  unfold routesMatch. destruct (_ || _) eqn:G; [done|]. bool_to_prop.
  destruct (prefixFromIPNet (nr_Dst a)) as [p|]; [|done]. destruct (prefixFromIPNet (nr_Dst b)) as [q|]; [|done].
  case_bool_decide as E; [|done]. intros _. subst q. split_and!; [by eexists|done..].
Qed.
Lemma routesMatch_type a b : routesMatch a b = true →
  nr_Type a = nr_Type b ∧ (nr_Type a = RTN_UNICAST → nr_LinkIndex a = nr_LinkIndex b).
Proof.
  unfold routesMatch. destruct (_ || _) eqn:G; [done|]. bool_to_prop.
  destruct (prefixFromIPNet (nr_Dst a)) as [p|]; [|done]. destruct (prefixFromIPNet (nr_Dst b)) as [q|]; [|done].
  case_bool_decide as E; [|done]. intros X. split; [done|]. intros T. rewrite T in X. by apply Z.eqb_eq.
Qed.
Lemma reported_match r k : is_Some (prefixFromIPNet (nr_Dst r)) → reported r k → routesMatch k r = true.
Proof.
  intros [p Ep] []. unfold routesMatch. rewrite rep_table, rep_protocol, rep_type, rep_src, rep_dst, Ep, !Z.eqb_refl, ipEqual_refl.
  cbn. rewrite bool_decide_eq_true_2 by done. destruct (nr_Type r =? RTN_UNICAST) eqn:T; [|done].
  cbn. apply Z.eqb_eq. apply rep_link. by apply Z.eqb_eq.
Qed.
Lemma reported_present r k : is_Some (prefixFromIPNet (nr_Dst r)) → reported r k → present r k.
Proof.
  intros Hp R. pose proof (reported_match r k Hp R). destruct R. split; try done.
  rewrite rep_gw. apply ipEqual_refl.
Qed.
Lemma present_slot r k : present r k → in_slot r k.
Proof.
  intros []. apply routesMatch_dst in pr_match0 as (_ & D & T & _). unfold in_slot, slot_of. by rewrite D, T, pr_priority0, pr_tos0.
Qed.
Lemma present_protocol r k : present r k → nr_Protocol k = nr_Protocol r.
Proof. intros []. by apply routesMatch_dst in pr_match0 as (_ & _ & _ & P). Qed.
Lemma same_slot_in r k x : in_slot r k → same_slot x k → in_slot r x.
Proof. intros S (T & O & P & _ & D). unfold in_slot in *. by rewrite T, O, P, D. Qed.

(** A metric that the kernel keeps. *)
Definition kept_metric (m : managedRoute) : Prop :=
  ∀ v, metric m = Some v → kernel_priority (route m) = v.
Lemma present_managed m k : kept_metric m → present (route m) k → managedRouteMatches k m = true.
Proof.
  intros K []. unfold managedRouteMatches. rewrite pr_match0. cbn. destruct (metric m) as [v|] eqn:E; [|done].
  rewrite pr_priority0. apply Z.eqb_eq. by apply K.
Qed.
Lemma anyManagedRouteMatches_spec k ms : anyManagedRouteMatches k ms = true ↔ ∃ m, m ∈ ms ∧ managedRouteMatches k m = true.
Proof. unfold anyManagedRouteMatches. rewrite existsb_exists. by setoid_rewrite <- list_elem_of_In. Qed.
Lemma managedRoutePresent_spec m ks : managedRoutePresent m ks = true ↔ ∃ k, k ∈ ks ∧ managedRouteMatches k m = true.
Proof. unfold managedRoutePresent. rewrite existsb_exists. by setoid_rewrite <- list_elem_of_In. Qed.
Lemma anyRuleMatches_spec u us : anyRuleMatches u us = true ↔ ∃ k, k ∈ us ∧ rulesMatch u k = true.
Proof. unfold anyRuleMatches. rewrite existsb_exists. by setoid_rewrite <- list_elem_of_In. Qed.

(** * What can be managed *)

Definition plan_slot (r : RoutePlan) : Z * Prefix * Z :=
  (TableID r, rp_Prefix r,
   if (default 0 (Metric r) =? 0) && Is6 (Prefix_Addr (rp_Prefix r)) then 1024 else default 0 (Metric r)).
Definition rule_prefix (r : RulePlan) : Prefix :=
  if Prefix_IsValid (rl_Source r) then rl_Source r else rl_Destination r.
(** Desired routes and rules that the kernel can hold together and reports as
    they were written: the networks are plain; a metric written for IPv6 is not
    the zero that the kernel replaces; no two routes take one place; and a rule
    selects something. *)
Record manageable (desired : DesiredState) : Prop := {
  mg_plain : ∀ r, r ∈ ds_Routes desired → plain_prefix (rp_Prefix r);
  mg_metric : ∀ r, r ∈ ds_Routes desired → Is6 (Prefix_Addr (rp_Prefix r)) = true → Metric r ≠ Some 0;
  mg_slots : NoDup (map plan_slot (ds_Routes desired));
  mg_rules : ∀ r, r ∈ Rules desired → plain_prefix (rule_prefix r) ∧ Bits (rule_prefix r) ≠ 0
}.

Definition named (s : kstate) (i : Z) (name : string) : Prop :=
  ∃ d, devices s !! i = Some d ∧ ln_Name (d_link d) = name.
(** The netlink form of a planned route, over the devices of [s]. *)
Definition is_wanted (desired : DesiredState) (s : kstate) (m : managedRoute) (item : RoutePlan) : Prop :=
  ∃ i, m = mkManagedRoute (desired_route desired item i) (Metric item) ∧
    (if bool_decide (Type_ item = RouteViaPeer) then named s i (rp_InterfaceName item) else i = 0).

Lemma desired_route_dst desired item i : nr_Dst (desired_route desired item i) = Some (prefixIPNet (rp_Prefix item)).
Proof. unfold desired_route. by destruct (Type_ item). Qed.
Lemma desired_route_slot desired item i : plain_prefix (rp_Prefix item) →
  slot_of (desired_route desired item i) = ((plan_slot item).1.1, 0, (plan_slot item).2, Some (plan_slot item).1.2).
Proof.
  intros G. unfold slot_of, kernel_priority. rewrite desired_route_dst, prefixFromIPNet_plain, dst_is6_plain by done.
  unfold desired_route. by destruct (Type_ item).
Qed.
Lemma desired_route_protocol desired item i : nr_Protocol (desired_route desired item i) = StaticProtocol.
Proof. unfold desired_route. by destruct (Type_ item). Qed.
Lemma desired_route_kept desired item i : plain_prefix (rp_Prefix item) →
  (Is6 (Prefix_Addr (rp_Prefix item)) = true → Metric item ≠ Some 0) →
  kept_metric (mkManagedRoute (desired_route desired item i) (Metric item)).
Proof.
  intros G M v E. cbn in *. unfold kernel_priority. rewrite desired_route_dst, dst_is6_plain by done.
  assert (P : nr_Priority (desired_route desired item i) = default 0 (Metric item)) by (unfold desired_route; by destruct (Type_ item)).
  rewrite P, E. cbn. destruct (v =? 0) eqn:Ev; [|done]. apply Z.eqb_eq in Ev. subst v.
  destruct (Is6 (Prefix_Addr (rp_Prefix item))); [|done]. by destruct M.
Qed.

Section Wanted.
Context (desired : DesiredState) (M : manageable desired) (s : kstate) (ms : list managedRoute)
  (F : Forall2 (is_wanted desired s) ms (ds_Routes desired)).
Lemma wanted_from m : m ∈ ms → ∃ item i, item ∈ ds_Routes desired ∧
  m = mkManagedRoute (desired_route desired item i) (Metric item).
Proof using F.
  intros [j Hj]%list_elem_of_lookup. destruct (Forall2_lookup_l _ _ _ _ _ F Hj) as (item & Hi & i & -> & _).
  exists item, i. split; [by eapply list_elem_of_lookup_2|done].
Qed.
Lemma wanted_plain m : m ∈ ms → ∃ p, plain_prefix p ∧ nr_Dst (route m) = Some (prefixIPNet p).
Proof using F M.
  intros (item & i & Hi & ->)%wanted_from. exists (rp_Prefix item). split; [by apply M|]. apply desired_route_dst.
Qed.
Lemma wanted_dst m : m ∈ ms → is_Some (prefixFromIPNet (nr_Dst (route m))).
Proof using F M. intros (p & G & ->)%wanted_plain. rewrite prefixFromIPNet_plain by done. by eexists. Qed.
Lemma wanted_protocol m : m ∈ ms → nr_Protocol (route m) = StaticProtocol.
Proof using F. intros (item & i & Hi & ->)%wanted_from. apply desired_route_protocol. Qed.
Lemma wanted_kept m : m ∈ ms → kept_metric m.
Proof using F M.
  intros (item & i & Hi & ->)%wanted_from. apply desired_route_kept; [by apply M|]. by apply M.
Qed.
Lemma wanted_slots : NoDup (map (slot_of ∘ route) ms).
Proof using F M.
  assert (E : map (slot_of ∘ route) ms = map (λ x, (x.1.1, 0, x.2, Some x.1.2)) (map plan_slot (ds_Routes desired))).
  { destruct M as [P _ _ _]. revert P. generalize (ds_Routes desired) F. clear. intros items F. induction F as [|m item ms items (i & -> & _) F IH]; [done|].
    intros P. cbn [map]. f_equal; [apply desired_route_slot; apply P; by left|]. apply IH. intros r Hr. apply P. by right. }
  rewrite E. apply NoDup_fmap_2; [|apply M]. by intros [[a b] c] [[a' b'] c'] [= -> -> ->].
Qed.
Lemma wanted_slot_inj m m' : m ∈ ms → m' ∈ ms → slot_of (route m) = slot_of (route m') → m = m'.
Proof using F M.
  intros [i Hi]%list_elem_of_lookup [j Hj]%list_elem_of_lookup E.
  assert (i = j) as ->; [|congruence]. eapply (NoDup_lookup _ _ _ _ wanted_slots); rewrite list_lookup_fmap, ?Hi, ?Hj; cbn; [done|].
  by rewrite E.
Qed.
End Wanted.

Section Reading.
Context {W : Type} `{KernelLaws W}.
Implicit Types (s : kstate) (P : kstate → Prop).

Definition wf_devices s : Prop :=
  (∀ i d, devices s !! i = Some d → ln_Index (d_link d) = i) ∧
  (∀ i j d e, devices s !! i = Some d → devices s !! j = Some e → ln_Name (d_link d) = ln_Name (d_link e) → i = j).
Lemma view_wf w : wf_devices (view w).
Proof. split; [apply view_index|apply view_name]. Qed.
(** Only such states need be considered. *)
Lemma sspec_wf {A} P (m : sys W A) Q E :
  sspec (λ s, P s ∧ wf_devices s) m Q E → sspec P m Q E.
Proof. intros X w Hw. apply X. split; [done|apply view_wf]. Qed.

Lemma named_unique s i j name : wf_devices s → named s i name → named s j name → i = j.
Proof. intros [_ U] (d & Hd & <-) (e & He & E). by apply (U i j d e). Qed.
Lemma is_wanted_unique desired s m m' item : wf_devices s →
  is_wanted desired s m item → is_wanted desired s m' item → m = m'.
Proof.
  intros Wf (i & -> & Hi) (j & -> & Hj). case_bool_decide; [|by subst].
  f_equal. f_equal. by eapply named_unique.
Qed.
Lemma Forall2_wanted_unique desired s ms ms' items : wf_devices s →
  Forall2 (is_wanted desired s) ms items → Forall2 (is_wanted desired s) ms' items → ms = ms'.
Proof.
  intros Wf F. revert ms'. induction F as [|m item ms items X F IH]; intros ms' F'; inversion F' as [|m' ? ms2 ? X' F2]; subst; [done|].
  f_equal; [by eapply is_wanted_unique|by apply IH].
Qed.

(** A route through a peer whose interface does not exist. *)
Definition no_device (s : kstate) (items : list RoutePlan) : Prop :=
  ∃ item, item ∈ items ∧ Type_ item = RouteViaPeer ∧ ∀ i, ¬ named s i (rp_InterfaceName item).
Lemma no_device_wanted desired s ms items : no_device s items → Forall2 (is_wanted desired s) ms items → False.
Proof.
  intros (item & [j Hj]%list_elem_of_lookup & T & N) F.
  destruct (Forall2_lookup_r _ _ _ _ _ F Hj) as (m & _ & i & _ & Hi). rewrite bool_decide_eq_true_2 in Hi by done. by apply (N i).
Qed.

Lemma desiredNetlinkRoute_spec desired s0 item :
  sspec (λ s, s = s0) (desiredNetlinkRoute desired item) (λ m s, s = s0 ∧ is_wanted desired s0 m item)
    (λ e s, s = s0 ∧ (kernel_error e ∨ no_device s0 [item])).
Proof.
  unfold desiredNetlinkRoute, is_wanted, no_device. destruct (Type_ item) eqn:T.
  2,3: by (apply sspec_ret; intros s ->; split; [done|]; exists 0).
  eapply sspec_bind.
  - eapply sspec_reads; [apply (LinkByName_law (rp_InterfaceName item))| |intros s e -> K; by auto].
    intros s o P R. exact (conj P R).
  - intros [l|].
    + apply sspec_ret. intros s [-> (En & d & Hd & Ed)]. split; [done|]. exists (ln_Index l). split; [done|].
      exists d. by rewrite Ed.
    + apply sspec_err. intros s [-> N]. split; [done|]. right. exists item. split_and!; [by left|done|].
      intros i (d & Hd & En). by apply (N i d).
Qed.

(** The wanted routes depend on the devices only; unless a call fails, there are
    such routes if there can be. *)
Lemma desired_routes_spec desired s0 items :
  sspec (λ s, s = s0) (desired_routes desired items) (λ ms s, s = s0 ∧ Forall2 (is_wanted desired s0) ms items)
    (λ e s, s = s0 ∧ (kernel_error e ∨ no_device s0 items)).
Proof.
  induction items as [|item items IH]; cbn [desired_routes].
  - apply sspec_ret. intros s ->. by split.
  - apply (sspec_then (λ m, is_wanted desired s0 m item)).
    + eapply sspec_post; [apply (desiredNetlinkRoute_spec desired s0 item)|done|].
      intros e s (-> & [K|(x & Hx%list_elem_of_singleton & N)]); split; auto. right. exists x. subst x. split; [by left|done].
    + intros m Hm. apply (sspec_then (λ ms, Forall2 (is_wanted desired s0) ms items)).
      * eapply sspec_post; [apply IH|done|].
        intros e s (-> & [K|(x & Hx & N)]); split; auto. right. exists x. split; [by right|done].
      * intros ms F. apply sspec_ret. intros s ->. split; [done|]. by constructor.
Qed.

Definition routes_listed (s : kstate) (protocol : Z) (rs : list NRoute) : Prop :=
  NoDup rs ∧ ∀ r, r ∈ rs ↔ r ∈ routes s ∧ nr_Protocol r = protocol.
Definition rules_listed (s : kstate) (protocol : Z) (us : list NRule) : Prop :=
  NoDup us ∧ ∀ u, u ∈ us ↔ u ∈ rules s ∧ nu_Protocol u = protocol ∧ (nu_Family u = FAMILY_V4 ∨ nu_Family u = FAMILY_V6).
Lemma routesByProtocol_spec s0 protocol :
  sspec (λ s, s = s0) (routesByProtocol protocol) (λ rs s, s = s0 ∧ routes_listed s0 protocol rs)
    (λ e s, s = s0 ∧ kernel_error e).
Proof.
  eapply sspec_reads; [apply RouteListFiltered_law| |done]. intros s rs -> [Nd R]. split; [done|]. split; [done|].
  intros r. etrans; [exact (R r)|]. unfold accepts. cbn. split; intros [H1 H2]; split; [done| |done|].
  - by apply H2.
  - split; [by intros t [= <-] X|by intros p [= <-]].
Qed.
Lemma rulesByProtocol_spec s0 protocol :
  sspec (λ s, s = s0) (rulesByProtocol protocol) (λ us s, s = s0 ∧ rules_listed s0 protocol us)
    (λ e s, s = s0 ∧ kernel_error e).
Proof.
  pose (listed fam us := NoDup us ∧ ∀ u, u ∈ us ↔ u ∈ rules s0 ∧ nu_Family u = fam).
  assert (L : ∀ fam, sspec (λ s, s = s0) (RuleList fam) (λ us s, s = s0 ∧ listed fam us) (λ e s, s = s0 ∧ kernel_error e)).
  { intros fam. eapply sspec_reads; [apply (RuleList_law fam)| |done]. by intros s us -> R. }
  apply (sspec_then (listed FAMILY_V4)); [apply L|]. intros r4 [N4 R4].
  apply (sspec_then (listed FAMILY_V6)); [apply L|]. intros r6 [N6 R6].
  apply sspec_ret. intros s ->. split; [done|]. split.
  { apply NoDup_filter, NoDup_app. split_and!; [done| |done]. intros u [_ F4]%R4 [_ F6]%R6. by rewrite F4 in F6. }
  intros u. rewrite list_elem_of_filter, elem_of_app, R4, R6. naive_solver.
Qed.
End Reading.

(** * Putting routes in place *)

(** Routes that can be installed side by side. *)
Record installable {A} (f : A → NRoute) (protocol : Z) (l : list A) : Prop := {
  in_plain : ∀ x, x ∈ l → ∃ p, plain_prefix p ∧ nr_Dst (f x) = Some (prefixIPNet p);
  in_protocol : ∀ x, x ∈ l → nr_Protocol (f x) = protocol;
  in_slots : ∀ x y, x ∈ l → y ∈ l → slot_of (f x) = slot_of (f y) → f x = f y
}.
Lemma in_dst {A} (f : A → NRoute) protocol l x : installable f protocol l → x ∈ l →
  is_Some (prefixFromIPNet (nr_Dst (f x))).
Proof. intros [P _ _] Hx. destruct (P x Hx) as (p & G & ->). rewrite prefixFromIPNet_plain by done. by eexists. Qed.

Definition has (s : kstate) (r : NRoute) : Prop := ∃ k, k ∈ routes s ∧ present r k.
(** From [s0] to [s], with the routes of [l1] in place: only places of [l] have
    changed, and none of its routes was lost. *)
Record placing {A} (f : A → NRoute) (l l1 : list A) (s0 s : kstate) : Prop := {
  pl_only : only_routes s0 s;
  pl_done : ∀ x, x ∈ l1 → has s (f x);
  pl_kept : ∀ x, x ∈ l → has s0 (f x) → has s (f x);
  pl_from : ∀ k, k ∈ routes s → k ∈ routes s0 ∨ ∃ x, x ∈ l ∧ present (f x) k;
  pl_others : ∀ k, k ∈ routes s0 → k ∈ routes s ∨ ∃ x, x ∈ l ∧ in_slot (f x) k
}.
Lemma placing_start {A} (f : A → NRoute) l s : placing f l [] s s.
Proof. split; auto; [by split_and!|by intros x []%not_elem_of_nil]. Qed.

Section Placing.
Context {A : Type} (f : A → NRoute) (protocol : Z) (l : list A) (I : installable f protocol l).
Lemma placing_skip l1 x s0 s : placing f l l1 s0 s → x ∈ l → has s0 (f x) → placing f l (l1 ++ [x]) s0 s.
Proof using.
  intros [] Hx Hh. split; auto. intros y [Hy|Hy%list_elem_of_singleton]%elem_of_app; [auto|]. subst y. auto.
Qed.
Lemma placing_put l1 x s0 s s' k : placing f l l1 s0 s → (∀ y, y ∈ l1 → y ∈ l) → x ∈ l → ¬ has s0 (f x) →
  only_routes s s' → reported (f x) k → (∀ z, z ∈ routes s' ↔ z = k ∨ z ∈ routes s ∧ ¬ same_slot z k) →
  placing f l (l1 ++ [x]) s0 s'.
Proof using I.
  intros [] Hl1 Hx Hn O R Z. pose proof (reported_present _ _ (in_dst f protocol l x I Hx) R) as Pk.
  assert (K : ∀ y, y ∈ l → has s (f y) → has s' (f y)).
  { intros y Hy (z & Hz & Pz). destruct (decide (slot_of (f y) = slot_of (f x))) as [E|N].
    - apply (in_slots _ _ _ I) in E; [|done..]. rewrite E. exists k. split; [|done]. apply Z. by left.
    - exists z. split; [|done]. apply Z. right. split; [done|]. intros S. apply N.
      apply present_slot in Pk, Pz. pose proof (same_slot_in (f x) k z Pk S) as Q. unfold in_slot in Q, Pz. by rewrite <- Pz, <- Q. }
  split.
  - destruct O as (O1 & O2 & O3), pl_only0 as (Q1 & Q2 & Q3). split_and!; congruence.
  - intros y [Hy|Hy%list_elem_of_singleton]%elem_of_app; [apply K; auto|]. subst y. exists k. split; [apply Z; by left|done].
  - auto.
  - intros z [->|[Hz _]]%Z; [right; by exists x|auto].
  - intros z Hz. destruct (pl_others0 z Hz) as [Hz'|?]; [|by right].
    destruct (decide (z ∈ routes s')) as [|N]; [by left|]. right. exists x. split; [done|].
    apply (same_slot_in (f x) k); [by apply present_slot|]. destruct (decide (nr_Table z = nr_Table k ∧ nr_Tos z = nr_Tos k ∧ nr_Priority z = nr_Priority k ∧
      is_Some (prefixFromIPNet (nr_Dst z)) ∧ prefixFromIPNet (nr_Dst z) = prefixFromIPNet (nr_Dst k))) as [S|S]; [exact S|].
    destruct N. apply Z. right. by split.
Qed.

Section Run.
Context {W : Type} `{KernelLaws W}.
Lemma replace_spec s0 current :
  (∀ r, r ∈ current ↔ r ∈ routes s0 ∧ nr_Protocol r = protocol) →
  sspec (λ s, s = s0) (each (λ x, if installedRoutePresent (f x) current then mret tt else RouteReplace (f x)) l)
    (λ _ s, placing f l l s0 s) (λ e s, kernel_error e).
Proof using I.
  intros C. apply (sspec_loop _ (λ l1, placing f l l1 s0)); [intros s ->; apply placing_start|]. intros l1 x l2 El.
  assert (Hx : x ∈ l) by (rewrite El; apply elem_of_app; right; by left).
  assert (Hl1 : ∀ y, y ∈ l1 → y ∈ l) by (intros y Hy; rewrite El; apply elem_of_app; by left).
  destruct (installedRoutePresent (f x) current) eqn:E.
  - apply sspec_ret. intros s X. apply placing_skip; [done..|]. apply installedRoutePresent_spec in E as (k & Hk & Pk).
    apply C in Hk as [Hk _]. by exists k.
  - destruct (in_plain _ _ _ I x Hx) as (p & G & Ed).
    eapply sspec_writes; [by apply (RouteReplace_law (f x) p)| |done].
    intros s s' X (O & k & R & Z) _. eapply placing_put; [done|done|done| |done|done|done].
    intros (k' & Hk' & Pk'). assert (installedRoutePresent (f x) current = true); [|congruence].
    apply installedRoutePresent_spec. exists k'. split; [|done]. apply C. split; [done|].
    rewrite (present_protocol _ _ Pk'). by apply (in_protocol _ _ _ I).
Qed.
(** With every route in place, nothing is asked for. *)
Lemma replace_again s0 current :
  (∀ r, r ∈ current ↔ r ∈ routes s0 ∧ nr_Protocol r = protocol) → (∀ x, x ∈ l → has s0 (f x)) →
  sspec (λ s, s = s0) (each (λ x, if installedRoutePresent (f x) current then mret tt else RouteReplace (f x)) l)
    (λ _ s, s = s0) (λ e s, False).
Proof using I.
  intros C Ha. apply (sspec_each (λ _ s, s = s0)). intros l1 x l2 El.
  assert (Hx : x ∈ l) by (rewrite El; apply elem_of_app; right; by left).
  assert (installedRoutePresent (f x) current = true) as ->; [|by apply sspec_ret].
  destruct (Ha x Hx) as (k & Hk & Pk). apply installedRoutePresent_spec. exists k. split; [|done]. apply C. split; [done|].
  rewrite (present_protocol _ _ Pk). by apply (in_protocol _ _ _ I).
Qed.
End Run.
End Placing.

(** * Deleting *)

(** From [s0] to [s] those routes of [l1] are gone for which [stale] says so. *)
Definition pruned {A} (stale : A → bool) (l1 : list A) (before after : list A) : Prop :=
  ∀ k, k ∈ after ↔ k ∈ before ∧ (k ∈ l1 → stale k = false).
Lemma pruned_start {A} (stale : A → bool) l : pruned stale [] l l.
Proof. intros k. split; [|by intros []]. intros ?. split; [done|]. by intros []%not_elem_of_nil. Qed.
Lemma pruned_keep {A} (stale : A → bool) l1 x before after : pruned stale l1 before after → stale x = false →
  pruned stale (l1 ++ [x]) before after.
Proof.
  intros P Sx k. rewrite (P k). split; intros [H1 H2]; (split; [done|]); intros Hk.
  - apply elem_of_app in Hk as [Hk|Hk%list_elem_of_singleton]; [auto|by subst].
  - apply H2. apply elem_of_app. by left.
Qed.
Lemma pruned_drop {A} (stale : A → bool) l1 x before after after' : pruned stale l1 before after → stale x = true →
  x ∈ before → x ∉ l1 → (x ∈ after → ∀ k, k ∈ after' ↔ k ∈ after ∧ k ≠ x) → pruned stale (l1 ++ [x]) before after'.
Proof.
  intros P Sx Hx Nx D k. assert (Ha : x ∈ after) by (apply P; by split). rewrite (D Ha k), (P k). split.
  - intros [[H1 H2] N]. split; [done|]. intros [?|?%list_elem_of_singleton]%elem_of_app; [auto|done].
  - intros [H1 H2]. split; [split; [done|]|].
    + intros ?. apply H2. apply elem_of_app. by left.
    + intros ->. rewrite H2 in Sx; [done|]. apply elem_of_app. right. by left.
Qed.
Lemma only_routes_trans s1 s2 s3 : only_routes s1 s2 → only_routes s2 s3 → only_routes s1 s3.
Proof. intros (?&?&?) (?&?&?). split_and!; congruence. Qed.
Lemma only_rules_trans s1 s2 s3 : only_rules s1 s2 → only_rules s2 s3 → only_rules s1 s3.
Proof. intros (?&?&?) (?&?&?). split_and!; congruence. Qed.
Lemma NoDup_middle {A} (l1 : list A) x l2 : NoDup (l1 ++ x :: l2) → x ∉ l1.
Proof. intros (_ & N & _)%NoDup_app Hx. apply (N x Hx). by left. Qed.

Section Deleting.
Context {W : Type} `{KernelLaws W}.
Lemma delete_spec (stale : NRoute → bool) s0 current :
  NoDup current → (∀ r, r ∈ current → r ∈ routes s0) →
  sspec (λ s, s = s0) (each (λ r, if stale r then RouteDel r else mret tt) current)
    (λ _ s, only_routes s0 s ∧ pruned stale current (routes s0) (routes s)) (λ e _, kernel_error e).
Proof.
  intros Nd C. apply (sspec_loop _ (λ l1 s, only_routes s0 s ∧ pruned stale l1 (routes s0) (routes s))).
  { intros s ->. split; [done|]. apply pruned_start. }
  intros l1 x l2 El. destruct (stale x) eqn:Sx.
  - eapply sspec_writes; [apply (RouteDel_law x)| |by auto]. intros s s' [O P] [O' D] _.
    split; [by eapply only_routes_trans|]. eapply pruned_drop; [done|done| | |done].
    + apply C. rewrite El. apply elem_of_app. right. by left.
    + rewrite El in Nd. by eapply NoDup_middle.
  - apply sspec_ret. intros s [O P]. split; [done|]. by apply pruned_keep.
Qed.
Lemma delete_rules_spec (stale : NRule → bool) s0 s1 current :
  NoDup current → (∀ r, r ∈ current → r ∈ rules s1) → only_rules s0 s1 →
  sspec (λ s, s = s1) (each (λ r, if stale r then RuleDel r else mret tt) current)
    (λ _ s, only_rules s0 s ∧ pruned stale current (rules s1) (rules s)) (λ e _, kernel_error e).
Proof.
  intros Nd C O1. apply (sspec_loop _ (λ l1 s, only_rules s0 s ∧ pruned stale l1 (rules s1) (rules s))).
  { intros s ->. split; [done|]. apply pruned_start. }
  intros l1 x l2 El. destruct (stale x) eqn:Sx.
  - eapply sspec_writes; [apply (RuleDel_law x)| |by auto]. intros s s' [O P] [O' D] _.
    split; [by eapply only_rules_trans|]. eapply pruned_drop; [done|done| | |done].
    + apply C. rewrite El. apply elem_of_app. right. by left.
    + rewrite El in Nd. by eapply NoDup_middle.
  - apply sspec_ret. intros s [O P]. split; [done|]. by apply pruned_keep.
Qed.
(** With nothing stale, nothing is asked for. *)
Lemma each_none {A} (stale : A → bool) (f : A → sys W unit) l s0 : (∀ x, x ∈ l → stale x = false) →
  sspec (λ s, s = s0) (each (λ x, if stale x then f x else mret tt) l) (λ _ s, s = s0) (λ _ _, False).
Proof.
  intros N. apply (sspec_each (λ _ s, s = s0)). intros l1 x l2 El. rewrite N; [by apply sspec_ret|].
  rewrite El. apply elem_of_app. right. by left.
Qed.
End Deleting.

(** * Rules *)

Lemma ipNetEqual_spec a b : ipNetEqual a b = true ↔ net_prefix a = net_prefix b ∧ net_prefix a ≠ Some None.
Proof.
  unfold ipNetEqual, net_prefix. destruct a as [x|], b as [y|]; cbn [fmap option_fmap option_map]; [|by split; [|intros [? _]]..|done].
  destruct (prefixFromIPNet (Some x)) as [p|], (prefixFromIPNet (Some y)) as [q|]; rewrite ?bool_decide_eq_true;
    (split; [intros X; split|intros [X Y]]); congruence.
Qed.
Definition rule_id (u : NRule) := (nu_Family u, nu_Table u, nu_Priority u, nu_Protocol u, net_prefix (nu_Src u), net_prefix (nu_Dst u)).
Lemma rulesMatch_spec a b : rulesMatch a b = true ↔
  rule_id a = rule_id b ∧ net_prefix (nu_Src a) ≠ Some None ∧ net_prefix (nu_Dst a) ≠ Some None.
Proof.
  unfold rulesMatch, rule_id. rewrite !andb_true_iff, !Z.eqb_eq, !ipNetEqual_spec. split.
  - intros (((((E1 & E2) & E3) & E4) & E5 & N5) & E6 & N6). split_and!; [congruence|done|done].
  - intros ([= E1 E2 E3 E4 E5 E6] & N5 & N6). split_and!; done.
Qed.
Lemma rulesMatch_sym a b : rulesMatch a b = true → rulesMatch b a = true.
Proof.
  rewrite !rulesMatch_spec. unfold rule_id. intros ([= E1 E2 E3 E4 E5 E6] & N1 & N2).
  split_and!; congruence.
Qed.
Lemma rule_reported_id u k : rule_reported u k → rule_id k = rule_id u.
Proof. intros []. unfold rule_id. congruence. Qed.

Section WantedRules.
Context (desired : DesiredState) (M : manageable desired).
Lemma wanted_rule u : u ∈ desiredNetlinkRules desired →
  selective u ∧ nu_Protocol u = StaticProtocol ∧ (nu_Family u = FAMILY_V4 ∨ nu_Family u = FAMILY_V6) ∧
  net_prefix (nu_Src u) ≠ Some None ∧ net_prefix (nu_Dst u) ≠ Some None.
Proof using M.
  intros (item & -> & Hi)%list_elem_of_fmap. destruct (mg_rules _ M item Hi) as [G B].
  pose proof (plain_bits _ G) as R. pose proof (prefixFromIPNet_plain _ G) as Q.
  assert (Fm : ∀ a, family a = FAMILY_V4 ∨ family a = FAMILY_V6) by (intros a; unfold family; destruct (Is4 a); auto).
  unfold desiredNetlinkRule, rule_prefix, selective, net_prefix in *. destruct (Prefix_IsValid (rl_Source item)); cbn [nu_Src nu_Dst nu_Protocol nu_Family fmap option_fmap option_map].
  all: rewrite Q; split_and!; auto; intros n [= <-]; cbn; lia.
Qed.
Lemma wanted_rule_self u k : u ∈ desiredNetlinkRules desired → rule_id k = rule_id u → rulesMatch u k = true.
Proof using M. intros Hu E. apply rulesMatch_spec. apply wanted_rule in Hu as (_ & _ & _ & N1 & N2). by split_and!. Qed.

(** From [s0] to [s], with the rules [l1] in place: nothing else was added. *)
Record ruling (l1 : list NRule) (s0 s : kstate) : Prop := {
  ru_only : only_rules s0 s;
  ru_done : ∀ u, u ∈ l1 → ∃ k, k ∈ rules s ∧ rulesMatch u k = true;
  ru_kept : ∀ k, k ∈ rules s0 → k ∈ rules s;
  ru_from : ∀ k, k ∈ rules s → k ∈ rules s0 ∨ ∃ u, u ∈ desiredNetlinkRules desired ∧ rulesMatch k u = true
}.
Record ruled (s0 s : kstate) : Prop := {
  rd_only : only_rules s0 s;
  rd_wanted : ∀ u, u ∈ desiredNetlinkRules desired → ∃ k, k ∈ rules s ∧ rulesMatch u k = true;
  rd_stale : ∀ k, k ∈ rules s → nu_Protocol k = StaticProtocol → nu_Family k = FAMILY_V4 ∨ nu_Family k = FAMILY_V6 →
    anyRuleMatches k (desiredNetlinkRules desired) = true;
  rd_foreign : ∀ k, nu_Protocol k ≠ StaticProtocol → k ∈ rules s ↔ k ∈ rules s0
}.

Section Run.
Context {W : Type} `{KernelLaws W}.
Lemma reconcilePolicyRules_spec s0 :
  sspec (λ s, s = s0) (reconcilePolicyRules desired) (λ _ s, ruled s0 s) (λ e _, kernel_error e).
Proof using M.
  apply (sspec_then (rules_listed s0 StaticProtocol)); [eapply sspec_post; [apply rulesByProtocol_spec|done|by intros e s []]|].
  intros current [Nd C]. eapply sspec_bind.
  - apply (sspec_loop _ (λ l1, ruling l1 s0)).
    { intros s ->. split; [by split_and!|by intros u []%not_elem_of_nil|auto|auto]. }
    intros l1 u l2 El. assert (Hu : u ∈ desiredNetlinkRules desired) by (rewrite El; apply elem_of_app; right; by left).
    destruct (anyRuleMatches u current) eqn:E.
    + apply sspec_ret. intros s []. split; auto. intros v [Hv|Hv%list_elem_of_singleton]%elem_of_app; [auto|]. subst v.
      apply anyRuleMatches_spec in E as (k & Hk & Rk). exists k. split; [|done]. apply ru_kept0. by apply C.
    + eapply sspec_writes; [apply (RuleAdd_law u), (wanted_rule u Hu)| |done].
      intros s s' [] (O & k & R & Z) _. pose proof (wanted_rule_self u k Hu (rule_reported_id u k R)) as Mk. split.
      * by eapply only_rules_trans.
      * intros v [Hv|Hv%list_elem_of_singleton]%elem_of_app.
        -- destruct (ru_done0 v Hv) as (x & Hx & Rx). exists x. split; [apply Z; by right|done].
        -- subst v. exists k. split; [apply Z; by left|done].
      * intros x Hx. apply Z. right. auto.
      * intros x [->|Hx]%Z; [|auto]. right. exists u. split; [done|by apply rulesMatch_sym].
  - intros ?. apply sspec_from. intros s1 [].
    eapply sspec_post; [apply (delete_rules_spec (λ u, negb (anyRuleMatches u (desiredNetlinkRules desired))) s0 s1 current)| |done].
    + done.
    + intros u (Hu & _)%C. by apply ru_kept0.
    + done.
    + intros [] s [O P]. split; [done|..].
      * intros u Hu. destruct (ru_done0 u Hu) as (k & Hk & Rk). exists k. split; [|done]. apply P. split; [done|]. intros _.
        apply negb_false_iff, anyRuleMatches_spec. exists u. split; [done|by apply rulesMatch_sym].
      * intros k Hk Pk Fk. apply P in Hk as [Hk Dk]. destruct (ru_from0 k Hk) as [Hk0|(u & Hu & Ru)].
        -- apply negb_false_iff, Dk. by apply C.
        -- apply anyRuleMatches_spec. by exists u.
      * intros k Pk. rewrite (P k). split.
        -- intros [Hk _]. destruct (ru_from0 k Hk) as [?|(u & Hu & Ru)]; [done|]. apply rulesMatch_spec in Ru as [Ru _].
           unfold rule_id in Ru. injection Ru as _ _ _ Eq _ _. by apply wanted_rule in Hu as (_ & E & _); congruence.
        -- intros Hk. split; [auto|]. intros (_ & ? & _)%C. congruence.
Qed.

Definition rules_match (s : kstate) : Prop :=
  (∀ u, u ∈ desiredNetlinkRules desired → ∃ k, k ∈ rules s ∧ rulesMatch u k = true) ∧
  ∀ k, k ∈ rules s → nu_Protocol k = StaticProtocol → nu_Family k = FAMILY_V4 ∨ nu_Family k = FAMILY_V6 →
    anyRuleMatches k (desiredNetlinkRules desired) = true.
Lemma rules_match_listed s0 current : rules_match s0 → rules_listed s0 StaticProtocol current →
  (∀ u, u ∈ desiredNetlinkRules desired → anyRuleMatches u current = true) ∧
  (∀ u, u ∈ current → anyRuleMatches u (desiredNetlinkRules desired) = true).
Proof using M.
  intros [R1 R2] [_ C]. split.
  - intros u Hu. destruct (R1 u Hu) as (k & Hk & Rk). apply anyRuleMatches_spec. exists k. split; [|done]. apply C.
    split; [done|]. apply wanted_rule in Hu as (_ & E & Fu & _). apply rulesMatch_spec in Rk as [Rk _].
    unfold rule_id in Rk. injection Rk as E1 _ _ E2 _ _. split; [congruence|]. by rewrite <- E1.
  - intros u (Hu & Pu & Fu)%C. by apply R2.
Qed.
Lemma reconcilePolicyRules_again s0 : rules_match s0 →
  sspec (λ s, s = s0) (reconcilePolicyRules desired) (λ _ s, s = s0) (λ e s, s = s0 ∧ kernel_error e).
Proof using M.
  intros R. apply (sspec_then (rules_listed s0 StaticProtocol)); [apply rulesByProtocol_spec|]. intros current C.
  destruct (rules_match_listed s0 current R C) as [A1 A2].
  eapply (sspec_bind _ _ (λ _ s, s = s0)).
  - apply (sspec_loop _ (λ _ s, s = s0)); [done|]. intros l1 u l2 El.
    rewrite A1; [by apply sspec_ret|]. rewrite El. apply elem_of_app. right. by left.
  - intros ?. eapply sspec_weaken; [apply (each_none (λ u, negb (anyRuleMatches u (desiredNetlinkRules desired))) RuleDel current s0)|done|done|done].
    intros u Hu. apply negb_false_iff. by apply A2.
Qed.
Lemma verifyPolicyRules_spec s0 : rules_match s0 →
  sspec (λ s, s = s0) (verifyPolicyRules desired) (λ _ s, s = s0) (λ e s, s = s0 ∧ kernel_error e).
Proof using M.
  intros R. apply (sspec_then (rules_listed s0 StaticProtocol)); [apply rulesByProtocol_spec|]. intros current C.
  destruct (rules_match_listed s0 current R C) as [A1 A2].
  eapply (sspec_bind _ _ (λ _ s, s = s0)).
  - eapply sspec_weaken; [apply (each_none (λ u, negb (anyRuleMatches u current)) (λ _, sys_err _) _ s0)|done|done|done].
    intros u Hu. apply negb_false_iff. by apply A1.
  - intros ?. eapply sspec_weaken; [apply (each_none (λ u, negb (anyRuleMatches u (desiredNetlinkRules desired))) (λ _, sys_err _) _ s0)|done|done|done].
    intros u Hu. apply negb_false_iff. by apply A2.
Qed.
End Run.
End WantedRules.

(** * The whole *)

(** The kernel [s], reconciled from [s0] with the wanted routes [ms]. *)
Record settled (desired : DesiredState) (ms : list managedRoute) (s0 s : kstate) : Prop := {
  se_devices : devices s = devices s0;
  se_sysctl : sysctl s = sysctl s0;
  se_routes : ∀ m, m ∈ ms → has s (route m);
  se_stale : ∀ k, k ∈ routes s → nr_Protocol k = StaticProtocol → anyManagedRouteMatches k ms = true;
  se_foreign : ∀ k, k ∈ routes s → nr_Protocol k ≠ StaticProtocol → k ∈ routes s0;
  se_displaced : ∀ k, k ∈ routes s0 → nr_Protocol k ≠ StaticProtocol → k ∈ routes s ∨ ∃ m, m ∈ ms ∧ in_slot (route m) k;
  se_rules : rules_match desired s;
  se_foreign_rules : ∀ u, nu_Protocol u ≠ StaticProtocol → u ∈ rules s ↔ u ∈ rules s0
}.

(** What of it a check looks at. *)
Record in_force (desired : DesiredState) (ms : list managedRoute) (s : kstate) : Prop := {
  if_wanted : Forall2 (is_wanted desired s) ms (ds_Routes desired);
  if_routes : ∀ m, m ∈ ms → has s (route m);
  if_stale : ∀ k, k ∈ routes s → nr_Protocol k = StaticProtocol → anyManagedRouteMatches k ms = true;
  if_rules : rules_match desired s
}.
Lemma is_wanted_devices desired s s' ms items : devices s' = devices s →
  Forall2 (is_wanted desired s) ms items → Forall2 (is_wanted desired s') ms items.
Proof. intros E F. eapply Forall2_impl; [exact F|]. intros m item. unfold is_wanted, named. by rewrite E. Qed.
Lemma settled_in_force desired ms s0 s : Forall2 (is_wanted desired s0) ms (ds_Routes desired) → settled desired ms s0 s →
  in_force desired ms s.
Proof. intros F []. split; try done. by eapply is_wanted_devices. Qed.

Section Whole.
Context {W : Type} `{KernelLaws W}.
Context (desired : DesiredState) (M : manageable desired).

Lemma wanted_installable s ms : Forall2 (is_wanted desired s) ms (ds_Routes desired) → installable route StaticProtocol ms.
Proof using M.
  intros F. split.
  - intros x Hx. by eapply wanted_plain.
  - intros x Hx. by eapply wanted_protocol.
  - intros x y Hx Hy E. f_equal. by eapply wanted_slot_inj.
Qed.

Lemma reconcileRoutesAndRules_spec s0 :
  sspec (λ s, s = s0) (reconcileRoutesAndRules desired)
    (λ _ s, ∃ ms, Forall2 (is_wanted desired s0) ms (ds_Routes desired) ∧ settled desired ms s0 s)
    (λ e _, kernel_error e ∨ no_device s0 (ds_Routes desired)).
Proof using M.
  unfold reconcileRoutesAndRules. apply (sspec_then (λ ms, Forall2 (is_wanted desired s0) ms (ds_Routes desired))).
  { eapply sspec_post; [apply desired_routes_spec|done|by intros e s [_ ?]]. }
  intros ms F. pose proof (wanted_installable s0 ms F) as I. apply (sspec_bind _ _ (λ _, placing route ms ms s0)).
  { apply (sspec_then (routes_listed s0 StaticProtocol)); [eapply sspec_post; [apply routesByProtocol_spec|done|by intros e s [_ ?]; left]|].
    intros current [_ C]. eapply sspec_post; [by apply (replace_spec route StaticProtocol)|done|by left]. }
  intros _u. apply sspec_from. intros s1 Pl. apply (sspec_bind _ _ (λ _, ruled desired s1)).
  { eapply sspec_post; [by apply reconcilePolicyRules_spec|done|by left]. }
  intros _u'. apply sspec_from. intros s2 Ru. apply (sspec_then (routes_listed s2 StaticProtocol)).
  { eapply sspec_post; [apply routesByProtocol_spec|done|by intros e s [_ ?]; left]. }
  intros current [Nd C]. pose (stale r := negb (anyManagedRouteMatches r ms)).
  eapply sspec_post; [apply (delete_spec stale s2 current); [done|by intros r [? _]%C]| |by left].
  intros [] s [O P]. exists ms. split; [done|]. destruct Pl as [[P1 [P2 P3]] Pd Pk Pf Po], Ru as [[R1 [R2 R3]] Rw Rs Rf], O as (O1 & O2 & O3).
  assert (Rk : ∀ k, k ∈ routes s ↔ k ∈ routes s1 ∧ (nr_Protocol k = StaticProtocol → anyManagedRouteMatches k ms = true)).
  { intros k. rewrite (P k), R2. split; intros [Hk D]; (split; [done|]).
    - intros E. apply negb_false_iff. apply D, C. by rewrite R2.
    - intros [_ E]%C. apply negb_false_iff. by apply D. }
  split.
  - congruence.
  - congruence.
  - intros m Hm. destruct (Pd m Hm) as (k & Hk & Pr). exists k. split; [|done]. apply Rk. split; [done|]. intros _.
    apply anyManagedRouteMatches_spec. exists m. split; [done|]. apply present_managed; [by eapply wanted_kept|done].
  - intros k [_ Hk]%Rk E. by apply Hk.
  - intros k [Hk _]%Rk N. destruct (Pf k Hk) as [?|(m & Hm & Pr)]; [done|]. apply present_protocol in Pr.
    destruct N. rewrite Pr. by eapply wanted_protocol.
  - intros k Hk N. destruct (Po k Hk) as [?|?]; [|by right]. left. apply Rk. by split.
  - split; [by rewrite O2|]. rewrite O2. exact Rs.
  - intros u N. rewrite O2, (Rf u N). by rewrite P2.
Qed.

Lemma verifyStaticRoutes_spec ms s1 : in_force desired ms s1 → wf_devices s1 →
  sspec (λ s, s = s1) (verifyStaticRoutes desired) (λ _ s, s = s1) (λ e s, s = s1 ∧ kernel_error e).
Proof using M.
  intros [F Ir Is _] Wf. apply (sspec_then (λ ms', Forall2 (is_wanted desired s1) ms' (ds_Routes desired))).
  { eapply sspec_post; [apply desired_routes_spec|done|]. intros e s [-> [K|N]]; [done|]. by destruct (no_device_wanted desired s1 ms _ N). }
  intros ms' F'. assert (ms' = ms) as -> by (by eapply Forall2_wanted_unique).
  apply (sspec_then (routes_listed s1 StaticProtocol)); [apply routesByProtocol_spec|]. intros current [_ C].
  eapply (sspec_bind _ _ (λ _ s, s = s1)).
  - eapply sspec_post; [apply (each_none (λ m, negb (managedRoutePresent m current)) (λ _, sys_err _) _ s1)|done|done].
    intros m Hm. apply negb_false_iff, managedRoutePresent_spec. destruct (Ir m Hm) as (k & Hk & Pr).
    exists k. split; [|apply present_managed; [by eapply wanted_kept|done]]. apply C. split; [done|].
    rewrite (present_protocol _ _ Pr). by eapply wanted_protocol.
  - intros _u. eapply sspec_post; [apply (each_none (λ r, negb (anyManagedRouteMatches r ms)) (λ _, sys_err _) _ s1)|done|done].
    intros k [Hk E]%C. apply negb_false_iff. by apply Is.
Qed.

Lemma reconcile_again_spec ms s1 : in_force desired ms s1 → wf_devices s1 →
  sspec (λ s, s = s1) (reconcileRoutesAndRules desired) (λ _ s, s = s1) (λ e s, s = s1 ∧ kernel_error e).
Proof using M.
  intros [F Ir Is Iu] Wf. apply (sspec_then (λ ms', Forall2 (is_wanted desired s1) ms' (ds_Routes desired))).
  { eapply sspec_post; [apply desired_routes_spec|done|]. intros e s [-> [K|N]]; [done|]. by destruct (no_device_wanted desired s1 ms _ N). }
  intros ms' F'. assert (ms' = ms) as -> by (by eapply Forall2_wanted_unique).
  pose proof (wanted_installable s1 ms F) as I. eapply (sspec_bind _ _ (λ _ s, s = s1)).
  { apply (sspec_then (routes_listed s1 StaticProtocol)); [apply routesByProtocol_spec|]. intros current [_ C].
    eapply sspec_post; [apply (replace_again route StaticProtocol ms I s1 current C), Ir|done|done]. }
  intros _u. eapply (sspec_bind _ _ (λ _ s, s = s1)); [by apply reconcilePolicyRules_again|]. intros _u'.
  apply (sspec_then (routes_listed s1 StaticProtocol)); [apply routesByProtocol_spec|]. intros current [_ C].
  eapply sspec_post; [apply (each_none (λ r, negb (anyManagedRouteMatches r ms)) RouteDel _ s1)|done|done].
  intros k [Hk E]%C. apply negb_false_iff. by apply Is.
Qed.

Lemma reconcile_outcome w r w1 : reconcileRoutesAndRules desired w = (r, w1) →
  (∃ e, r = Err e ∧ (kernel_error e ∨ no_device (view w) (ds_Routes desired))) ∨
  r = Ok tt ∧
  (∃ ms, Forall2 (is_wanted desired (view w)) ms (ds_Routes desired) ∧ settled desired ms (view w) (view w1)) ∧
  ∀ check, check ∈ [verifyStaticRoutes; verifyPolicyRules; reconcileRoutesAndRules] → ∀ r w2, check desired w1 = (r, w2) →
    view w2 = view w1 ∧ (r = Ok tt ∨ ∃ e, r = Err e ∧ kernel_error e).
Proof using M.
  intros E. destruct (sspec_run _ _ _ _ _ _ _ (reconcileRoutesAndRules_spec (view w)) eq_refl E)
    as [([] & -> & ms & F & S)|(e & -> & X)]; [right|left; by exists e].
  split; [done|]. split; [by exists ms|]. intros check Hc r w2 Er. pose proof (view_wf w1) as Wf.
  assert (X : sspec (λ s, s = view w1) (check desired) (λ _ s, s = view w1) (λ e s, s = view w1 ∧ kernel_error e)).
  { rewrite !elem_of_cons in Hc. destruct Hc as [->|[->|[->|[]%not_elem_of_nil]]].
    - eapply verifyStaticRoutes_spec; [by eapply settled_in_force|done].
    - apply verifyPolicyRules_spec; [done|apply S].
    - eapply reconcile_again_spec; [by eapply settled_in_force|done]. }
  destruct (sspec_run _ _ _ _ _ _ _ X eq_refl Er) as [([] & -> & Q)|(e & -> & Q & K)]; [by auto|]. split; [done|]. right. by exists e.
Qed.

(** Reconciling routes and rules settles the kernel.  It fails only if a call
    of the kernel fails or the interface of a route does not exist; when it
    succeeds, every wanted route and rule is installed as the kernel reports it,
    no route or rule of Velvet's static protocol is left that is not wanted, and
    the routes and rules of others are as before, apart from routes whose place
    a wanted one took.  From then on verification finds no fault, and another
    pass sends no request that changes anything: either can fail only because a
    call of the kernel fails. *)
Theorem reconcile_settles w r w1 : reconcileRoutesAndRules desired w = (r, w1) →
  (∃ e, r = Err e ∧ (kernel_error e ∨ no_device (view w) (ds_Routes desired))) ∨
  r = Ok tt ∧
  (∃ ms, Forall2 (is_wanted desired (view w)) ms (ds_Routes desired) ∧ settled desired ms (view w) (view w1)) ∧
  ∀ check, check ∈ [verifyStaticRoutes; verifyPolicyRules; reconcileRoutesAndRules] → ∀ r w2, check desired w1 = (r, w2) →
    view w2 = view w1 ∧ (r = Ok tt ∨ ∃ e, r = Err e ∧ kernel_error e).
Proof using M. apply reconcile_outcome. Qed.
End Whole.
