(* ===== verification/Backend.v ===== *)
(** internal/linux: backend.go, network.go, wireguard.go, link_state.go, retire.go
    and the end of dynamic.go, over the class [Kernel] of Netlink.v.  The backend
    also remembers which endpoint of a Link it tries (the class [Attempts]).  A method that answers with a bool answers no when
    a call fails.  (Interfaces.v has the procedures on automatic interfaces again,
    seen from the owners of interfaces only.) *)

From S2P Require Import Prelude Netip NetipText Ports Spec Link Desired Netlink Routes.
From S2P Require Recovery.
From stdpp Require Import gmap strings.
Open Scope Z_scope.
Open Scope velvet_scope.

Definition ownerPrefix : string := "velvet:".
Definition HasPrefix (s prefix : string) : bool := Stdlib.Strings.String.prefix prefix s.
Definition LoopbackInterface : string := "vv-loop".
Definition DefaultKeepalive : Z := 25 * 1000000000.
Definition forwardingPaths : list string := ["/proc/sys/net/ipv4/ip_forward"; "/proc/sys/net/ipv6/conf/all/forwarding"]%string.

(** "1" and a line feed. *)
Definition one_line : string := ("1" +:+ String (Ascii.ascii_of_nat 10) "")%string.
(** [strings.TrimSpace] of ASCII text. *)
Definition is_space (c : Ascii.ascii) : bool :=
  let n := Ascii.nat_of_ascii c in ((9 <=? n)%nat && (n <=? 13)%nat) || (n =? 32)%nat.
Fixpoint trim_left (s : string) : string :=
  match s with String c t => if is_space c then trim_left t else s | EmptyString => s end.
Fixpoint trim_right (s : string) : string :=
  match s with
  | String c t => let t := trim_right t in if is_space c && bool_decide (t = ""%string) then ""%string else String c t
  | EmptyString => s
  end.
Definition TrimSpace (s : string) : string := trim_right (trim_left s).

(** A zero time is [None]; an index is never negative. *)
Record endpointAttempt := mkAttempt { at_index : nat; since : Z; lastHandshake : option Z }.

(** The field [attempts] of the backend, as part of the world; no mutex of the
    kernel protects it. *)
Class Attempts (W : Type) := {
  get_attempt : string → sys W (option endpointAttempt);
  set_attempt : string → endpointAttempt → sys W unit
}.
Class AttemptsLaws (W : Type) `{KernelLaws W} `{Attempts W} := {
  get_attempt_law name w : ∃ a w', get_attempt name w = (Ok a, w') ∧ view w' = view w;
  set_attempt_law name a w : ∃ w', set_attempt name a w = (Ok tt, w') ∧ view w' = view w
}.

Section Backend.
Context {W : Type} `{Kernel W} `{Attempts W}.
Notation B := (sys W).
(** [m() == nil] and the like: a failure is an answer. *)
Definition answer (m : B bool) : B bool := λ x,
  match m x with
  | (Err _, x) => (Ok false, x)
  | r => r
  end.

(** * network.go *)

Definition enableForwarding : B unit := each (λ path, WriteFile path one_line) forwardingPaths.
Definition verifyForwarding : B unit := each (λ path,
  value ← ReadFile path;
  if bool_decide (TrimSpace value = "1"%string) then mret tt else sys_err "forwarding state is not enabled") forwardingPaths.

Definition reconcileLoopbackAddresses (device : NLink) (wanted : Prefix) : B unit :=
  addresses ← AddrList device FAMILY_ALL;
  each (λ a,
    match prefixFromAddressIPNet a with
    | Some prefix =>
      if bool_decide (prefix = wanted) || IsLinkLocalUnicast (Prefix_Addr prefix) then mret tt
      else AddrDel device a
    | None => mret tt
    end) addresses;;
  AddrReplace device (prefixIPNet wanted).

Definition reconcileBootstrapAddress (device : NLink) (wanted : Prefix) : B unit :=
  addresses ← AddrList device FAMILY_V6;
  each (λ a,
    match prefixFromAddressIPNet a with
    | Some prefix =>
      if bool_decide (prefix = wanted) || negb (IsLinkLocalUnicast (Prefix_Addr prefix)) then mret tt
      else AddrDel device a
    | None => mret tt
    end) addresses;;
  AddrReplace device (prefixIPNet wanted).

Definition reconcileMaterializedAddresses (device : NLink) (bootstrap : Prefix) (wanted : list Prefix) : B unit :=
  each (λ prefix, AddrReplace device (prefixIPNet prefix)) wanted;;
  addresses ← AddrList device FAMILY_ALL;
  each (λ a,
    match prefixFromAddressIPNet a with
    | Some prefix =>
      if IsLinkLocalUnicast (Prefix_Addr prefix) || bool_decide (prefix ∈ bootstrap :: wanted) then mret tt
      else AddrDel device a
    | None => mret tt
    end) addresses.

Definition ensureLink (name linkType : string) : B (NLink * bool) :=
  found ← LinkByName name;
  match found with
  | Some device => if bool_decide (ln_Type device = linkType) then mret (device, false) else sys_err "interface has another type"
  | None =>
    LinkAdd name linkType;;
    found ← LinkByName name;
    match found with Some device => mret (device, true) | None => sys_err "not found" end
  end.
Definition setLinkAlias (device : NLink) (owner : string) : B NLink :=
  if bool_decide (ln_Alias device = owner) then mret device
  else
    LinkSetAlias device owner;;
    found ← LinkByName (ln_Name device);
    match found with Some device => mret device | None => sys_err "not found" end.
Definition ensureOwnedLink (name owner linkType : string) : B NLink :=
  x ← ensureLink name linkType;
  let '(device, created) := x in
  if negb created && negb (HasPrefix (ln_Alias device) ownerPrefix) then sys_err "interface exists but is not owned"
  else setLinkAlias device owner.
Definition ensureOwnedWireGuardInterface (name owner : string) : B NLink := ensureOwnedLink name owner "wireguard".
Definition ensureOwnedDummy (name owner : string) : B NLink := ensureOwnedLink name owner "dummy".

(** * wireguard.go *)

Definition defaultAllowedIPs : list IPNet :=
  [prefixIPNet (mkPrefix (Addr4 0) 0); prefixIPNet (mkPrefix (Addr6 0 "") 0)].
Definition stalePeerRemovals (peers : list WGPeer) (wanted : list byte) : list PeerConfig :=
  map (λ p, mkPeerConfig (wp_PublicKey p) true false None None None false [])
    (filter (λ p, wp_PublicKey p ≠ wanted) peers).

Definition endpointStale (handshake : option Z) (now : Z) (keepalive : option Z) : bool :=
  let threshold := 3 * 60 * 1000000000 in
  let threshold := match keepalive with Some k => if threshold <? k * 3 then k * 3 else threshold | None => threshold end in
  match handshake with None => true | Some t => threshold <=? Recovery.Sub now t end.

Definition UDPAddr_String (u : UDPAddr) : string :=
  match netipAddr (ua_IP u) with
  | Some a => AddrPort_String (AddrPortFrom a (ua_Port u))
  | None => (":" +:+ dec (ua_Port u))%string
  end.
(** The first endpoint that resolves to [current]; a name that does not resolve
    is passed over. *)
Fixpoint matching_endpoint (current : UDPAddr) (index : nat) (endpoints : list string) : B (option nat) :=
  match endpoints with
  | [] => mret None
  | raw :: endpoints =>
    same ← answer (r ← ResolveUDPAddr raw; mret (bool_decide (UDPAddr_String r = UDPAddr_String current)));
    if (same : bool) then mret (Some index) else matching_endpoint current (S index) endpoints
  end.
Definition own_peer (desired : LinkPlan) (current : WGDevice) : option WGPeer :=
  match wd_Peers current with
  | [p] => if bool_decide (wp_PublicKey p = PeerPublicKey desired) then Some p else None
  | _ => None
  end.
Definition after (t : option Z) (u : option Z) : bool :=
  match t, u with Some t, Some u => u <? t | Some _, None => true | None, _ => false end.
(** Whether the peer has no endpoint. *)
Definition missing_endpoint (peer : option WGPeer) : bool :=
  match peer with Some p => bool_decide (wp_Endpoint p = None) | None => true end.
(** A first attempt: at the endpoint that the device has already, if it is one of
    the Link's; another is replaced when it is stale. *)
Definition fresh_attempt (now : Z) (desired : LinkPlan) (peer : option WGPeer) : B (endpointAttempt * bool) :=
  match (p ← peer; e ← wp_Endpoint p; Some (p, e)) with
  | Some (p, current) =>
    m ← matching_endpoint current 0%nat (lk_Endpoints desired);
    match m with
    | Some index => mret (mkAttempt index now None, false)
    | None => mret (mkAttempt 0%nat now None, endpointStale (wp_LastHandshake p) now (Keepalive desired))
    end
  | None => mret (mkAttempt 0%nat now None, missing_endpoint peer)
  end.
(** The attempt to go on with, and whether the endpoint is to be set. *)
Definition started_attempt (now : Z) (desired : LinkPlan) (peer : option WGPeer) (previous : option endpointAttempt) :
    B (endpointAttempt * bool) :=
  match previous with
  | Some a => if (at_index a <? length (lk_Endpoints desired))%nat then mret (a, missing_endpoint peer) else fresh_attempt now desired peer
  | None => fresh_attempt now desired peer
  end.
(** A handshake restarts the attempt; a stale one moves on. *)
Definition next_attempt (now : Z) (desired : LinkPlan) (peer : option WGPeer) (a : endpointAttempt) (change : bool) :
    endpointAttempt * bool :=
  let a := match peer with
    | Some p => if after (wp_LastHandshake p) (lastHandshake a) then mkAttempt (at_index a) now (wp_LastHandshake p) else a
    | None => a end in
  if (15 * 1000000000 <=? Recovery.Sub now (since a)) && endpointStale (lastHandshake a) now (Keepalive desired)
  then (mkAttempt (S (at_index a) mod length (lk_Endpoints desired))%nat now (lastHandshake a), true)
  else (a, change).
Definition endpointChoice (now : Z) (desired : LinkPlan) (current : WGDevice) : B (nat * bool) :=
  if bool_decide (lk_Endpoints desired = []) then mret (0%nat, false)
  else
    previous ← get_attempt (InterfaceName desired);
    let peer := own_peer desired current in
    x ← started_attempt now desired peer previous;
    let '(a, change) := next_attempt now desired peer x.1 x.2 in
    set_attempt (InterfaceName desired) a;;
    mret (at_index a, change).

Definition applyBootstrapLink (now : Z) (desired : LinkPlan) : B unit :=
  device ← ensureOwnedWireGuardInterface (InterfaceName desired) (OwnerAlias desired);
  reconcileBootstrapAddress device (BootstrapAddress desired);;
  if WaitingPort desired then LinkSetDown device
  else
    LinkSetUp device;;
    current ← wg_Device (InterfaceName desired);
    let peers := stalePeerRemovals (wd_Peers current) (PeerPublicKey desired) in
    choice ← endpointChoice now desired current;
    let '(endpointIndex, changeEndpoint) := choice in
    endpoint ← (if (changeEndpoint : bool) then
        match lk_Endpoints desired !! endpointIndex with
        | Some raw => e ← ResolveUDPAddr raw; mret (Some e)
        | None => sys_panic
        end
      else mret None);
    let peer := mkPeerConfig (PeerPublicKey desired) false false (Some (PresharedKey desired)) endpoint
      (Keepalive desired) true defaultAllowedIPs in
    let listenPort := if (ListenPort desired =? 0) && negb (wd_ListenPort current =? 0)
      then wd_ListenPort current else ListenPort desired in
    ConfigureDevice (InterfaceName desired)
      (mkWGConfig (Some (lk_PrivateKey desired)) (Some listenPort) (peers ++ [peer])).

Definition verifyBootstrapLink (desired : LinkPlan) : B unit :=
  found ← LinkByName (InterfaceName desired);
  match found with
  | None => sys_err "not found"
  | Some device =>
    if negb (bool_decide (ln_Type device = "wireguard"%string)) || negb (bool_decide (ln_Alias device = OwnerAlias desired))
    then sys_err "interface type or ownership does not match"
    else if WaitingPort desired then mret tt
    else if negb (ln_Up device) then sys_err "interface is down"
    else
      present ← answer (addresses ← AddrList device FAMILY_V6; mret (addressPresent addresses (BootstrapAddress desired)));
      if negb present then sys_err "bootstrap address is missing"
      else
        wgDevice ← wg_Device (InterfaceName desired);
        if negb (bool_decide (wd_PublicKey wgDevice = Key_PublicKey (lk_PrivateKey desired))) ||
           (negb (ListenPort desired =? 0) && negb (wd_ListenPort wgDevice =? ListenPort desired))
        then sys_err "WireGuard local configuration does not match"
        else
          match wd_Peers wgDevice with
          | [p] =>
            if negb (bool_decide (wp_PublicKey p = PeerPublicKey desired)) || negb (bool_decide (wp_PresharedKey p = PresharedKey desired))
            then sys_err "WireGuard peer key material does not match"
            else match Keepalive desired with
              | Some k => if wp_Keepalive p =? k then mret tt else sys_err "WireGuard persistent keepalive does not match"
              | None => mret tt
              end
          | _ => sys_err "WireGuard peer key material does not match"
          end
  end.

Definition isExactlyOwnedWireGuardInterface (device : NLink) (owner : string) : bool :=
  bool_decide (ln_Type device = "wireguard"%string) && bool_decide (ln_Alias device = owner).

Definition KeepLinkAlive (plan : LinkPlan) : B unit :=
  ctx_Err;;
  found ← LinkByName (InterfaceName plan);
  match found with
  | None => sys_err "not found"
  | Some device =>
    if negb (isExactlyOwnedWireGuardInterface device (OwnerAlias plan)) then sys_err "interface is not owned by Link"
    else
      wgctrl_New;;
      ConfigureDevice (InterfaceName plan) (mkWGConfig None None
        [mkPeerConfig (PeerPublicKey plan) false true None None (Some (default DefaultKeepalive (Keepalive plan))) false []])
  end.

(** * dynamic.go *)

Definition LinkReady (plan : LinkPlan) : B bool := answer (
  ctx_Err;;
  if WaitingPort plan || Probing plan then mret false
  else wgctrl_New;; verifyBootstrapLink plan;; mret true).

(** [net.IPNet.String] of an address in the form of its family. *)
Definition IPNet_String (n : IPNet) : string :=
  match netipAddr (IP n) with
  | Some a => (Addr_String a +:+ "/" +:+ dec (Ones n))%string
  | None => "<nil>"%string
  end.
Definition adoptableAllowedIPs (prefixes : list IPNet) : bool :=
  (len prefixes =? 2) && existsb (λ n, bool_decide (IPNet_String n = "0.0.0.0/0"%string)) prefixes &&
  existsb (λ n, bool_decide (IPNet_String n = "::/0"%string)) prefixes.

Definition CanAdoptLink (plan : LinkPlan) (local : list Prefix) : B bool := answer (
  ctx_Err;;
  if WaitingPort plan || Probing plan || ReceiveOnly plan then mret false
  else
    wgctrl_New;;
    verifyBootstrapLink plan;;
    wg ← wg_Device (InterfaceName plan);
    match wd_Peers wg with
    | [p] =>
      if negb (adoptableAllowedIPs (wp_AllowedIPs p)) then mret false
      else
        found ← LinkByName (InterfaceName plan);
        match found with
        | None => mret false
        | Some device =>
          if negb (isExactlyOwnedWireGuardInterface device (OwnerAlias plan)) then mret false
          else
            addresses ← AddrList device FAMILY_ALL;
            mret (forallb (addressPresent addresses) local)
        end
    | _ => mret false
    end).

(** * link_state.go *)

(** One address of the interface [item], against a candidate prefix. *)
Definition address_allows (device item : NLink) (local : list Prefix) (candidate : Prefix) (address : option IPNet) : B bool :=
  match address with
  | None => sys_panic                                  (* a nil IPNet *)
  | Some net =>
    mret (match netipAddr (IP net) with
      | Some addr => negb (Contains candidate addr) ||
          ((ln_Index item =? ln_Index device) && prefixAddressPresent local addr)
      | None => true
      end)
  end.
Definition route_allows (device : NLink) (candidate : Prefix) (r : NRoute) : bool :=
  match nr_Dst r with
  | None => true
  | Some _ =>
    match prefixFromIPNet (nr_Dst r) with
    | Some routePrefix => negb (prefixesOverlap candidate routePrefix) ||
        ((nr_LinkIndex r =? ln_Index device) && bool_decide (routePrefix = candidate))
    | None => true
    end
  end.
Definition candidate_available (device : NLink) (links : list NLink) (local : list Prefix) (candidate : Prefix) : B bool :=
  if negb (Prefix_IsValid candidate) then mret true
  else
    ok ← all_ (λ item,
      addresses ← AddrList item (family (Prefix_Addr candidate));
      all_ (address_allows device item local candidate) addresses) links;
    if negb ok then mret false
    else
      rs ← RouteList (family (Prefix_Addr candidate));
      mret (forallb (route_allows device candidate) rs).
Definition ProposalAvailable (desired : LinkPlan) (proposal : Proposal) (local : list Prefix) : B bool := answer (
  ctx_Err;;
  found ← LinkByName (InterfaceName desired);
  match found with
  | None => mret false
  | Some device =>
    links ← LinkList;
    all_ (candidate_available device links local) [V4 proposal; V6 proposal]
  end).

(** The tables that access enters directly: the sources' own. *)
Definition source_tables (state : DesiredState) : list Z :=
  SortStableFunc Z.sub (remove_dups (map rl_TableID (filter (λ rule,
    Prefix_IsValid (rl_Source rule) = true ∧ rl_TableID rule ≠ FabricTableID state) (Rules state)))).
Definition local_route (state : DesiredState) (linkIndex : Z) (prefix : Prefix) : NRoute :=
  mkNRoute linkIndex (Some (prefixIPNet (Masked prefix))) [] [] 0 0 0 SCOPE_LINK LinkProtocol (FabricTableID state) RTN_UNICAST.
Definition neighbor_route (state : DesiredState) (linkIndex : Z) (address : Addr) : NRoute :=
  mkNRoute linkIndex (Some (prefixIPNet (PrefixFrom address (if Is4 address then 32 else 128))))
    (if Is4 address then [] else AsSlice (LoopbackV6 state)) [] 0 0 NeighborFallbackPriority
    SCOPE_LINK LinkProtocol (FabricTableID state) RTN_UNICAST.
Definition with_route_table (table : Z) (r : NRoute) : NRoute :=
  mkNRoute (nr_LinkIndex r) (nr_Dst r) (nr_Src r) (nr_Gw r) (nr_MultiPath r) (nr_Tos r) (nr_Priority r) (nr_Scope r)
    (nr_Protocol r) table (nr_Type r).
Definition materializedLinkRoutes (state : DesiredState) (linkIndex : Z) (local : list Prefix) (peerLoopbacks : list Addr) : list NRoute :=
  let shared := map (local_route state linkIndex) (filter (λ p, Prefix_IsValid p = true) local) ++
    map (neighbor_route state linkIndex) (filter (λ a, Addr_IsValid a = true) peerLoopbacks) in
  shared ++ (source_tables state ≫= λ table, map (with_route_table table) shared).

(** In the main table, from before peers were routed in tables of Velvet's. *)
Definition legacy_route (linkIndex : Z) (loopbackPool : Prefix) (wanted : list NRoute) (r : NRoute) : bool :=
  match prefixFromIPNet (nr_Dst r) with
  | None => false
  | Some prefix => (Bits prefix =? 128) && Contains loopbackPool (Prefix_Addr prefix) &&
      (nr_LinkIndex r =? linkIndex) && negb (anyRouteMatches r wanted)
  end.
Definition deleteLegacyMainPeerRoutes (linkIndex : Z) (loopbackPool : Prefix) (wanted : list NRoute) : B unit :=
  rs ← RouteList FAMILY_V6;
  each (λ r, if legacy_route linkIndex loopbackPool wanted r then RouteDel r else mret tt) rs.

(** The routes of one Link. *)
Definition materialize_routes (linkIndex : Z) (wanted : list NRoute) : B unit :=
  current ← routesByProtocol LinkProtocol;
  each (λ r, if installedRoutePresent r current then mret tt else RouteReplace r) wanted;;
  current ← routesByProtocol LinkProtocol;
  each (λ r, if (nr_LinkIndex r =? linkIndex) && negb (anyRouteMatches r wanted) then RouteDel r else mret tt) current.
Definition Materialize (state : DesiredState) (desired : LinkPlan) (local : list Prefix) (peerLoopbacks : list Addr) : B unit :=
  ctx_Err;;
  found ← LinkByName (InterfaceName desired);
  match found with
  | None => sys_err "not found"
  | Some device =>
    if negb (isExactlyOwnedWireGuardInterface device (OwnerAlias desired)) then sys_err "interface is not owned by Link"
    else
      reconcileMaterializedAddresses device (BootstrapAddress desired) local;;
      let wanted := materializedLinkRoutes state (ln_Index device) local peerLoopbacks in
      materialize_routes (ln_Index device) wanted;;
      deleteLegacyMainPeerRoutes (ln_Index device) (LoopbackPoolV6 state) wanted;;
      wantedStatic ← desiredNetlinkRoutes state;
      replaceStaticRoutes wantedStatic;;
      reconcilePolicyRules state
  end.

Definition ObservedEndpoint (interfaceName : string) : B (option AddrPort) :=
  ctx_Err;;
  wgctrl_New;;
  device ← wg_Device interfaceName;
  match wd_Peers device with
  | [p] =>
    match wp_Endpoint p with
    | None => mret None
    | Some u =>
      match AddrFromSlice (ua_IP u) with
      | Some addr =>
        if (ua_Port u <? 1) || (65535 <? ua_Port u) then sys_err "WireGuard reported an invalid peer endpoint"
        else mret (Some (AddrPortFrom (Unmap addr) (ua_Port u)))
      | None => sys_err "WireGuard reported an invalid peer endpoint"
      end
    end
  | _ => mret None
  end.
Definition Backend_ListenPort (interfaceName : string) : B Z :=
  ctx_Err;;
  wgctrl_New;;
  device ← wg_Device interfaceName;
  if (wd_ListenPort device <? 1) || (65535 <? wd_ListenPort device)
  then sys_err "WireGuard reported an invalid local listen port" else mret (wd_ListenPort device).

Definition addr_cmp (a b : Addr) : Z := match Compare a b with Lt => -1 | Eq => 0 | Gt => 1 end.
Definition reachable_loopback (pool : Prefix) (r : NRoute) : option Addr :=
  match prefixFromIPNet (nr_Dst r) with
  | Some prefix =>
    if (Bits prefix =? 128) && Is6 (Prefix_Addr prefix) && Contains pool (Prefix_Addr prefix) && (nr_Type r =? RTN_UNICAST)
    then Some (Prefix_Addr prefix) else None
  | None => None
  end.
Definition ReachableLoopbacks (table : Z) (pool : Prefix) : B (list Addr) :=
  ctx_Err;;
  rs ← routesInTable table;
  mret (SortStableFunc addr_cmp (remove_dups (omap (reachable_loopback pool) rs))).

Definition managedLinkRoutePrefix (desired : DesiredState) (prefix : Prefix) : bool :=
  existsb (λ pool, Prefix_IsValid pool && (BitLen (Prefix_Addr pool) =? BitLen (Prefix_Addr prefix)) &&
    Contains pool (Prefix_Addr prefix)) [LinkPoolV4 desired; LinkPoolV6 desired; LoopbackPoolV6 desired].

(** The indices of the wanted Links; the names are visited in the order of the
    set here, in any order in the code. *)
Fixpoint indices_of (names : list string) : B (gset Z) :=
  match names with
  | [] => mret ∅
  | name :: names =>
    found ← LinkByName name;
    match found with
    | None => sys_err "not found"
    | Some device => rest ← indices_of names; mret ({[ln_Index device]} ∪ rest)
    end
  end.
Definition kept_link_route (desired : DesiredState) (indices : gset Z) (r : NRoute) : bool :=
  bool_decide (nr_LinkIndex r ∈ indices) && (nr_Table r =? FabricTableID desired) &&
  match prefixFromIPNet (nr_Dst r) with Some prefix => managedLinkRoutePrefix desired prefix | None => false end.
Definition cleanupLinkRoutes (desired : DesiredState) (desiredLinks : gset string) : B unit :=
  indices ← indices_of (elements desiredLinks);
  rs ← routesByProtocol LinkProtocol;
  each (λ r, if kept_link_route desired indices r then mret tt else RouteDel r) rs.

Definition owned (l : NLink) : bool := HasPrefix (ln_Alias l) ownerPrefix.
Definition retainOwnedLinkNames (names : gset string) : B (gset string) :=
  links ← LinkList;
  mret (foldl (λ names l, if bool_decide (ln_Type l = "wireguard"%string) && owned l then {[ln_Name l]} ∪ names else names) names links).
Definition stale_link (desired : gset string) (l : NLink) : bool := owned l && negb (bool_decide (ln_Name l ∈ desired)).
Definition cleanupStaleLinks (desired : gset string) : B unit :=
  links ← LinkList;
  each (λ l, if stale_link desired l then LinkDel l else mret tt) links.

(** * backend.go *)

Definition desiredLinkNames (desired : DesiredState) : gset string :=
  {[LoopbackInterface]} ∪ list_to_set (map InterfaceName (Links desired)) ∪ list_to_set (map InterfaceName (RetainedLinks desired)).
Definition loopback_prefix (desired : DesiredState) : Prefix := PrefixFrom (LoopbackV6 desired) 128.
Definition reconcileNodeLoopback (desired : DesiredState) : B unit :=
  device ← ensureOwnedDummy LoopbackInterface (LoopbackOwnerAlias desired);
  reconcileLoopbackAddresses device (loopback_prefix desired);;
  LinkSetUp device.
Definition verifyNodeLoopback (desired : DesiredState) : B unit :=
  found ← (λ x, match LinkByName LoopbackInterface x with (Err _, x) => (Ok None, x) | r => r end);
  match found with
  | None => sys_err "node loopback interface is missing or not owned by this node"
  | Some device =>
    if negb (bool_decide (ln_Type device = "dummy"%string)) || negb (bool_decide (ln_Alias device = LoopbackOwnerAlias desired))
    then sys_err "node loopback interface is missing or not owned by this node"
    else if negb (ln_Up device) then sys_err "node loopback interface is down"
    else
      addresses ← AddrList device FAMILY_ALL;
      if negb (addressPresent addresses (loopback_prefix desired)) then sys_err "node loopback is missing" else mret tt
  end.

Definition PrepareRuntime (desired : DesiredState) : B unit :=
  ctx_Err;;
  when_ (bool_decide (ds_Babel desired = None)) (cleanupDisabledBabelState);;
  rejectForeignTableState desired;;
  cleanupStaleLinks (desiredLinkNames desired).

Definition Backend_Reconcile (euid now : Z) (desired : DesiredState) (preserveRuntimeLinks : bool) : B unit :=
  if negb (euid =? 0) then sys_err "velvetd must run as root or with equivalent network capabilities"
  else
    ctx_Err;;
    when_ (bool_decide (ds_Babel desired = None)) (cleanupDisabledBabelState);;
    rejectForeignTableState desired;;
    reconcileNodeLoopback desired;;
    desiredLinks ← (if preserveRuntimeLinks then retainOwnedLinkNames (desiredLinkNames desired) else mret (desiredLinkNames desired));
    cleanupStaleLinks desiredLinks;;
    wgctrl_New;;
    each (λ plan, ctx_Err;; applyBootstrapLink now plan) (Links desired);;
    when_ (Forwarding desired) enableForwarding;;
    reconcileRoutesAndRules desired;;
    cleanupLinkRoutes desired desiredLinks.

Definition Backend_Verify (desired : DesiredState) : B unit :=
  ctx_Err;;
  wgctrl_New;;
  verifyNodeLoopback desired;;
  each (λ plan, ctx_Err;; verifyBootstrapLink plan) (Links desired);;
  verifyStaticRoutes desired;;
  verifyPolicyRules desired;;
  when_ (Forwarding desired) verifyForwarding.

(** * reconciler.go *)

Definition reconcile (euid now : Z) (desired : DesiredState) (preserveRuntimeLinks : bool) : B unit :=
  Backend_Reconcile euid now desired preserveRuntimeLinks;;
  Backend_Verify desired.

(** * retire.go *)

(** [uuid.Parse] and [UUID.String]. *)
Context (uuid_Parse : string → option (list byte)) (uuid_String : list byte → string).
Definition retired_link (node : string) (device : NLink) : bool :=
  (bool_decide (ln_Type device = "wireguard"%string) && HasPrefix (ln_Alias device) ("velvet:link:" +:+ node +:+ ":")%string) ||
  (bool_decide (ln_Type device = "dummy"%string) && bool_decide (ln_Alias device = ("velvet:loopback:" +:+ node)%string)).
Definition retire_protocol (tables : list Z) (protocol : Z) : B unit :=
  rs ← routesByProtocol protocol;
  each (λ r, if bool_decide (nr_Table r ∈ tables) then RouteDel r else mret tt) rs;;
  us ← rulesByProtocol protocol;
  each (λ u, if bool_decide (nu_Table u ∈ tables) then RuleDel u else mret tt) us.
Definition RetireInstance (node : string) (tables : list Z) : B unit :=
  match uuid_Parse node with
  | None => sys_err "invalid retirement identity"
  | Some id =>
    if bool_decide (id = replicate 16 x00) || negb (bool_decide (uuid_String id = node)) then sys_err "invalid retirement identity"
    else
      links ← LinkList;
      each (λ device, ctx_Err;; if retired_link node device then LinkDel device else mret tt) links;;
      each (retire_protocol tables) [StaticProtocol; LinkProtocol; BabelDynamicProtocol]
  end.
End Backend.
