(* ===== verification/RunKernel.v ===== *)
(** An implementation of the class [Kernel] of Netlink.v that satisfies its laws:
    the state is a record, the index of a device is its name as a number, and a
    list of booleans says which of the next calls fail.  The theorems on routes
    and interfaces hold for it; their examples are evaluated on it. *)

From S2P Require Import Prelude Netip NetipText Ports Desired Netlink Routes Backend.
From stdpp Require Import gmap strings.
Open Scope Z_scope.
Open Scope velvet_scope.

Record body := mkBody { b_Type : string; b_Alias : string; b_Up : bool; b_Addrs : list IPNet; b_WG : WGDevice }.
(** One peer for a key. *)
Definition add_peer (p : WGPeer) (ps : list WGPeer) : list WGPeer :=
  if bool_decide (wp_PublicKey p ∈ map wp_PublicKey ps) then ps else p :: ps.
Definition unique_peers (g : WGDevice) : WGDevice :=
  mkWGDevice (wd_PublicKey g) (wd_ListenPort g) (foldr add_peer [] (wd_Peers g)).
Record rkernel := mkRKernel {
  k_devices : gmap string body; k_routes : list NRoute; k_rules : list NRule; k_sysctl : gmap string string;
  k_sent : nat; k_faults : list bool; k_attempts : gmap string endpointAttempt }.

Definition index_of (name : string) : Z := Z.pos (encode name).
#[global] Instance index_of_inj : Inj (=) (=) index_of.
Proof. intros a b [= E]. by apply encode_inj in E. Qed.
Definition name_of (i : Z) : option string :=
  name ← decode (Z.to_pos i); if decide (index_of name = i) then Some name else None.
Lemma name_of_Some i name : name_of i = Some name ↔ i = index_of name.
Proof.
  unfold name_of. split.
  - destruct (decode (Z.to_pos i)) as [n|]; cbn; [|done]. case_decide; [|done]. by intros [= <-].
  - intros ->. cbn. rewrite decode_encode. cbn. by rewrite decide_True.
Qed.
Definition link_of (name : string) (b : body) : NLink :=
  mkNLink (index_of name) name (b_Type b) (b_Alias b) (b_Up b).
Definition device_of (name : string) (b : body) : device := mkDevice (link_of name b) (b_Addrs b) (unique_peers (b_WG b)).
Definition k_view (k : rkernel) : kstate :=
  mkKState (kmap index_of (map_imap (λ name b, Some (device_of name b)) (k_devices k)))
    (k_routes k) (k_rules k) (k_sysctl k) (k_sent k).

Lemma k_view_Some k i d : devices (k_view k) !! i = Some d ↔
  ∃ name b, i = index_of name ∧ k_devices k !! name = Some b ∧ d = device_of name b.
Proof.
  cbn. rewrite (lookup_kmap_Some index_of). setoid_rewrite map_lookup_imap. split.
  - intros (name & -> & E). exists name. destruct (k_devices k !! name) as [b|]; [|done]. injection E as <-. by exists b.
  - intros (name & b & -> & E & ->). exists name. by rewrite E.
Qed.
Lemma k_view_insert k name b r u y n fs at_ :
  devices (k_view (mkRKernel (<[name := b]> (k_devices k)) r u y n fs at_)) = <[index_of name := device_of name b]> (devices (k_view k)).
Proof.
  cbn. rewrite <- (kmap_insert index_of). f_equal. by erewrite map_imap_insert_Some.
Qed.
Lemma k_view_delete k name r u y n fs at_ :
  devices (k_view (mkRKernel (delete name (k_devices k)) r u y n fs at_)) = delete (index_of name) (devices (k_view k)).
Proof. cbn. rewrite <- (kmap_delete index_of). f_equal. by rewrite map_imap_delete. Qed.

(** ** Calls *)

Definition set_faults (fs : list bool) (k : rkernel) : rkernel :=
  mkRKernel (k_devices k) (k_routes k) (k_rules k) (k_sysctl k) (k_sent k) fs (k_attempts k).
Definition sending (k : rkernel) : rkernel :=
  mkRKernel (k_devices k) (k_routes k) (k_rules k) (k_sysctl k) (S (k_sent k)) (k_faults k) (k_attempts k).
Definition EIO : error := Errno 5.
Definition next_fault (k : rkernel) : bool * rkernel :=
  match k_faults k with b :: fs => (b, set_faults fs k) | [] => (false, k) end.
(** A read: [None] is a failure of its own. *)
Definition rd {A} (f : rkernel → option A) : sys rkernel A := λ k,
  let '(b, k) := next_fault k in
  if b then (Err EIO, k) else match f k with Some a => (Ok a, k) | None => (Err (Errno 2), k) end.
Definition wr (f : rkernel → option rkernel) : sys rkernel unit := λ k,
  let '(b, k) := next_fault k in
  let k := sending k in
  if b then (Err EIO, k) else match f k with Some k' => (Ok tt, k') | None => (Err (Errno 22), k) end.
Definition act (f : rkernel → option rkernel) : sys rkernel unit := λ k,
  let '(b, k) := next_fault k in
  if b then (Err EIO, k) else match f k with Some k' => (Ok tt, k') | None => (Err (Errno 22), k) end.
Definition on_device (i : Z) (f : string → body → body) (k : rkernel) : option rkernel :=
  name ← name_of i; b ← k_devices k !! name;
  Some (mkRKernel (<[name := f name b]> (k_devices k)) (k_routes k) (k_rules k) (k_sysctl k) (k_sent k) (k_faults k) (k_attempts k)).
Definition with_routes (rs : list NRoute) (k : rkernel) : rkernel :=
  mkRKernel (k_devices k) rs (k_rules k) (k_sysctl k) (k_sent k) (k_faults k) (k_attempts k).
Definition with_rules (us : list NRule) (k : rkernel) : rkernel :=
  mkRKernel (k_devices k) (k_routes k) us (k_sysctl k) (k_sent k) (k_faults k) (k_attempts k).

Definition installed (r : NRoute) : NRoute :=
  mkNRoute (nr_LinkIndex r) (nr_Dst r) (nr_Src r) (nr_Gw r) 0 (nr_Tos r) (kernel_priority r) (kernel_scope r)
    (nr_Protocol r) (nr_Table r) (nr_Type r).
#[global] Instance same_slot_dec a b : Decision (same_slot a b).
Proof. unfold same_slot. apply _. Defined.
#[global] Instance accepts_dec f r : Decision (accepts f r).
Proof.
  unfold accepts. destruct f as [t p]; cbn. apply and_dec.
  - destruct t as [t|]; [|by left]. destruct (decide (t = RT_TABLE_UNSPEC)) as [E|E]; [left; by intros ? [= <-]|].
    destruct (decide (nr_Table r = t)) as [Et|Et]; [left; by intros ? [= <-]|right; intros X; by apply Et, X].
  - destruct p as [p|]; [|by left]. destruct (decide (nr_Protocol r = p)) as [Et|Et]; [left; by intros ? [= <-]|right; intros X; by apply Et, X].
Defined.
#[global] Instance of_family_dec f d : Decision (of_family f d).
Proof. unfold of_family. apply _. Defined.

Definition set_body_alias (owner : string) (b : body) : body := mkBody (b_Type b) owner (b_Up b) (b_Addrs b) (b_WG b).
Definition set_body_up (up : bool) (b : body) : body := mkBody (b_Type b) (b_Alias b) up (b_Addrs b) (b_WG b).
Definition set_body_addrs (a : list IPNet) (b : body) : body := mkBody (b_Type b) (b_Alias b) (b_Up b) a (b_WG b).
Definition set_body_wg (g : WGDevice) (b : body) : body := mkBody (b_Type b) (b_Alias b) (b_Up b) (b_Addrs b) g.
Definition wg_zero : WGDevice := mkWGDevice [] 0 [].
(** Every name resolves to 192.0.2.1:51820; a fixed involution stands for the derivation of public keys. *)
Definition rk_public (k : list byte) : list byte := rev k.
Definition configure (c : WGConfig) (g : WGDevice) : WGDevice :=
  mkWGDevice (match wc_PrivateKey c with Some k => rk_public k | None => wd_PublicKey g end)
    (match wc_ListenPort c with Some p => if p =? 0 then wd_ListenPort g else p | None => wd_ListenPort g end)
    (foldl configure_peer (wd_Peers g) (wc_Peers c)).

#[global] Instance run_kernel : Kernel rkernel := {
  LinkByName name := rd (λ k, Some (link_of name <$> k_devices k !! name));
  LinkList := rd (λ k, Some (map (λ x, link_of x.1 x.2) (map_to_list (k_devices k))));
  LinkAdd name ty := act (λ k, match k_devices k !! name with
    | Some _ => None
    | None => Some (mkRKernel (<[name := mkBody ty "" false [] wg_zero]> (k_devices k)) (k_routes k) (k_rules k) (k_sysctl k) (k_sent k) (k_faults k) (k_attempts k))
    end);
  LinkSetAlias l owner := act (on_device (ln_Index l) (λ _, set_body_alias owner));
  LinkDel l := act (λ k, name ← name_of (ln_Index l);
    Some (mkRKernel (delete name (k_devices k)) (filter (λ r, nr_LinkIndex r ≠ ln_Index l) (k_routes k)) (k_rules k) (k_sysctl k) (k_sent k) (k_faults k) (k_attempts k)));
  LinkSetUp l := act (on_device (ln_Index l) (λ _, set_body_up true));
  LinkSetDown l := act (on_device (ln_Index l) (λ _, set_body_up false));
  AddrList l fam := rd (λ k, name ← name_of (ln_Index l); b ← k_devices k !! name;
    Some (map Some (filter (λ a, of_family fam (Some a)) (b_Addrs b))));
  AddrDel l o := act (λ k, a ← o; on_device (ln_Index l) (λ _ b, set_body_addrs (filter (λ x, x ≠ a) (b_Addrs b)) b) k);
  AddrReplace l a := act (on_device (ln_Index l) (λ _ b,
    set_body_addrs (if bool_decide (a ∈ b_Addrs b) then b_Addrs b else b_Addrs b ++ [a]) b));
  RouteListFiltered _ f := rd (λ k, Some (remove_dups (filter (accepts f) (k_routes k))));
  RouteList fam := rd (λ k, Some (remove_dups (filter (λ r, nr_Table r = RT_TABLE_MAIN ∧ of_family fam (nr_Dst r)) (k_routes k))));
  RouteReplace r := wr (λ k, Some (with_routes (installed r :: filter (λ x, ¬ same_slot x (installed r)) (k_routes k)) k));
  RouteDel r := wr (λ k, if bool_decide (r ∈ k_routes k) then Some (with_routes (filter (λ x, x ≠ r) (k_routes k)) k) else None);
  RuleList fam := rd (λ k, Some (remove_dups (filter (λ u, nu_Family u = fam) (k_rules k))));
  RuleAdd u := wr (λ k, Some (with_rules (u :: k_rules k) k));
  RuleDel u := wr (λ k, if bool_decide (u ∈ k_rules k) then Some (with_rules (filter (λ x, x ≠ u) (k_rules k)) k) else None);
  ctx_Err := rd (λ _, Some tt);
  wgctrl_New := rd (λ _, Some tt);
  wg_Device name := rd (λ k, (λ b, unique_peers (b_WG b)) <$> k_devices k !! name);
  ConfigureDevice name c := act (on_device (index_of name) (λ _ b, set_body_wg (configure c (unique_peers (b_WG b))) b));
  ResolveUDPAddr raw := rd (λ _, if bool_decide (raw = ""%string) then None else Some (mkUDPAddr (be_put 4 0xc0000201) 51820));
  WriteFile path text := act (λ k, Some (mkRKernel (k_devices k) (k_routes k) (k_rules k) (<[path := text]> (k_sysctl k)) (k_sent k) (k_faults k) (k_attempts k)));
  ReadFile path := rd (λ k, k_sysctl k !! path);
  Key_PublicKey := rk_public
}.

(** * The laws *)

Lemma unique_peers_nodup ps : NoDup (map wp_PublicKey (foldr add_peer [] ps)).
Proof.
  induction ps as [|p ps IH]; cbn [foldr]; [apply NoDup_nil_2|]. unfold add_peer at 1. case_bool_decide as E; [done|].
  by apply NoDup_cons.
Qed.
Lemma unique_peers_id g : NoDup (map wp_PublicKey (wd_Peers g)) → unique_peers g = g.
Proof.
  destruct g as [k l ps]. unfold unique_peers. cbn. intros N. f_equal. induction ps as [|p ps IH]; cbn; [done|].
  cbn in N. apply NoDup_cons in N as [N1 N2]. rewrite (IH N2). unfold add_peer. by rewrite bool_decide_eq_false_2.
Qed.
Lemma configure_peer_nodup ps c : NoDup (map wp_PublicKey ps) → NoDup (map wp_PublicKey (configure_peer ps c)).
Proof.
  intros N. unfold configure_peer. destruct (pc_Remove c).
  - induction ps as [|p ps IH]; [done|]. cbn in N. apply NoDup_cons in N as [N1 N2]. rewrite filter_cons. case_decide as E; cbn; [|by apply IH].
    apply NoDup_cons. split; [|by apply IH]. intros (q & Eq & [_ Hq]%list_elem_of_filter)%list_elem_of_fmap. apply N1. rewrite Eq. by apply list_elem_of_fmap_2.
  - case_bool_decide as E.
    + rewrite map_map. erewrite map_ext; [exact N|]. intros p. by case_bool_decide.
    + destruct (pc_UpdateOnly c); [done|]. rewrite map_app. apply NoDup_app. split_and!; [done| |apply NoDup_singleton].
      intros k Hk Hk'%list_elem_of_singleton. cbn in Hk'. by subst k.
Qed.
Lemma configure_peers_nodup ps cs : NoDup (map wp_PublicKey ps) → NoDup (map wp_PublicKey (foldl configure_peer ps cs)).
Proof. revert ps. induction cs as [|c cs IH]; intros ps N; [done|]. cbn. apply IH. by apply configure_peer_nodup. Qed.

Lemma rd_reads {A} (f : rkernel → option A) R :
  (∀ k a, f k = Some a → R (k_view k) a) → reads k_view (rd f) R.
Proof.
  intros X k. unfold rd, next_fault. destruct (k_faults k) as [|b fs] eqn:F.
  - destruct (f k) as [a|] eqn:E; [by auto|]. split; [done|]. left; by eexists.
  - destruct b; [split; [done|left; by eexists]|]. destruct (f (set_faults fs k)) as [a|] eqn:E.
    + split; [done|]. by apply X in E.
    + split; [done|]. left; by eexists.
Qed.
Lemma wr_writes (f : rkernel → option rkernel) R :
  (∀ k k', f (sending k) = Some k' → k_sent k' = S (k_sent k) ∧ R (k_view k) (k_view k')) → writes k_view (wr f) R.
Proof.
  intros X k. unfold wr, next_fault. destruct (k_faults k) as [|b fs] eqn:F.
  - destruct (f (sending k)) as [k'|] eqn:E; [by apply X in E|]. split; [done|]. left; by eexists.
  - destruct b; [split; [done|left; by eexists]|]. destruct (f (sending (set_faults fs k))) as [k'|] eqn:E.
    + by apply X in E.
    + split; [done|]. left; by eexists.
Qed.
Lemma act_acts (f : rkernel → option rkernel) R :
  (∀ k k', f k = Some k' → k_sent k' = k_sent k ∧ R (k_view k) (k_view k')) → acts k_view (act f) R.
Proof.
  intros X k. unfold act, next_fault. destruct (k_faults k) as [|b fs] eqn:F.
  - destruct (f k) as [k'|] eqn:E; [by apply X in E|]. split; [done|]. left; by eexists.
  - destruct b; [split; [done|left; by eexists]|]. destruct (f (set_faults fs k)) as [k'|] eqn:E.
    + by apply X in E.
    + split; [done|]. left; by eexists.
Qed.
Lemma on_device_step i (f : string → body → body) (R : device → device → Prop) :
  (∀ name b, i = index_of name → R (device_of name b) (device_of name (f name b))) →
  ∀ k k', on_device i f k = Some k' → k_sent k' = k_sent k ∧ device_step i R (k_view k) (k_view k').
Proof.
  intros X k k'. unfold on_device. destruct (name_of i) as [name|] eqn:En; cbn; [|done].
  apply name_of_Some in En. destruct (k_devices k !! name) as [b|] eqn:Eb; cbn; [|done]. intros [= <-]. split; [done|].
  exists (device_of name b), (device_of name (f name b)). split_and!.
  - apply k_view_Some. by exists name, b.
  - rewrite En. apply (k_view_insert k).
  - by apply X.
  - by split_and!.
Qed.
Lemma others_same s : other_than_devices s s.
Proof. by split_and!. Qed.

#[global] Instance run_laws : KernelLaws rkernel.
Proof.
  apply (Build_KernelLaws _ _ k_view).
  - intros k i d (name & b & -> & _ & ->)%k_view_Some. done.
  - intros k i j d e (name & b & -> & _ & ->)%k_view_Some (name' & b' & -> & _ & ->)%k_view_Some. by intros [= ->].
  - intros k i d (name & b & -> & _ & ->)%k_view_Some. apply unique_peers_nodup.
  - intros name. apply rd_reads. intros k o [= <-]. destruct (k_devices k !! name) as [b|] eqn:E; cbn [fmap option_fmap option_map].
    + split; [done|]. exists (device_of name b). split; [|done]. apply k_view_Some. by exists name, b.
    + intros i d (n & b & -> & E' & ->)%k_view_Some. cbn. intros ->. by rewrite E in E'.
  - apply rd_reads. intros k ls [= <-] l. rewrite list_elem_of_fmap. split.
    + intros ([name b] & -> & E%elem_of_map_to_list). exists (index_of name), (device_of name b). split; [|done]. apply k_view_Some. by exists name, b.
    + intros (i & d & (name & b & -> & E & ->)%k_view_Some & <-). exists (name, b). split; [done|]. by apply elem_of_map_to_list.
  - intros name ty. apply act_acts. intros k k'. cbn. destruct (k_devices k !! name) as [b|] eqn:E; [done|]. intros [= <-].
    split; [done|]. exists (index_of name), (device_of name (mkBody ty "" false [] wg_zero)). split_and!; [|apply (k_view_insert k)|done|by split_and!].
    destruct (devices (k_view k) !! index_of name) as [d|] eqn:Ed; [|done].
    apply k_view_Some in Ed as (n & b & En & Eb & _). apply index_of_inj in En. subst n. congruence.
  - intros l owner. apply act_acts. apply on_device_step. by intros.
  - intros l. apply act_acts. intros k k'. cbn. destruct (name_of (ln_Index l)) as [name|] eqn:En; cbn; [|done]. intros [= <-].
    apply name_of_Some in En. split; [done|]. rewrite En. split; [apply (k_view_delete k)|]. split_and!; [done..|].
    cbn. intros r Hr _. by apply list_elem_of_filter in Hr as [_ Hr].
  - intros l. apply act_acts. apply on_device_step. intros name b _. cbn. split_and!; [done|done|by left].
  - intros l. apply act_acts. apply on_device_step. by intros name b _.
  - intros l fam. apply rd_reads. intros k as_. destruct (name_of (ln_Index l)) as [name|] eqn:En; cbn; [|done].
    apply name_of_Some in En. destruct (k_devices k !! name) as [b|] eqn:Eb; cbn; [|done]. intros [= <-].
    exists (device_of name b). split; [apply k_view_Some; by exists name, b|]. intros x.
    setoid_rewrite list_elem_of_fmap. setoid_rewrite list_elem_of_filter. naive_solver.
  - intros l a. apply act_acts. cbn. apply on_device_step. intros name b _. cbn. split_and!; [done|done|..].
    + intros x Hx. by apply list_elem_of_filter in Hx as [? ?].
    + intros x Hx N _. by apply list_elem_of_filter.
  - intros l a. apply act_acts. apply on_device_step. intros name b _. cbn. case_bool_decide as E; split_and!; try done; intros x; try (by left).
    + intros Hx. apply elem_of_app. by left.
    + intros [?|?%list_elem_of_singleton]%elem_of_app; [by left|by right].
    + apply elem_of_app. right. by left.
  - intros l a. apply act_acts. cbn. intros k k'. unfold on_device. destruct (name_of (ln_Index l)) as [name|] eqn:En; cbn; [|done].
    apply name_of_Some in En. destruct (k_devices k !! name) as [b|] eqn:Eb; cbn; [|done]. intros [= <-]. split; [done|].
    intros (d & Hd & Ha). apply k_view_Some in Hd as (n & b' & En' & Eb' & ->). rewrite En in En'. apply index_of_inj in En'. subst n.
    assert (b' = b) as -> by congruence. cbn in Ha. rewrite bool_decide_eq_true_2 by done. destruct b as [t al up ad g], k as [ds ? ? ? ? ? ?]. cbn in *.
    by rewrite insert_id.
  - intros f. apply rd_reads. intros k rs [= <-]. split; [apply NoDup_remove_dups|]. intros r.
    rewrite elem_of_remove_dups, list_elem_of_filter. naive_solver.
  - intros fam. apply rd_reads. intros k rs [= <-]. split; [apply NoDup_remove_dups|]. intros r.
    rewrite elem_of_remove_dups, list_elem_of_filter. naive_solver.
  - intros r p G Ed. apply wr_writes. intros k k' [= <-]. split; [done|]. split; [by split_and!|]. exists (installed r). split.
    + by split.
    + intros x. cbn. rewrite elem_of_cons, list_elem_of_filter. naive_solver.
  - intros r. apply wr_writes. by intros k k' [= <-].
  - intros r. apply wr_writes. cbn. intros k k'. case_bool_decide as E; [|done]. intros [= <-]. split; [done|]. split; [by split_and!|].
    intros Hr x. cbn. rewrite list_elem_of_filter. naive_solver.
  - intros fam. apply rd_reads. intros k us [= <-]. split; [apply NoDup_remove_dups|]. intros u.
    rewrite elem_of_remove_dups, list_elem_of_filter. naive_solver.
  - intros u Sel. apply wr_writes. intros k k' [= <-]. split; [done|]. split; [by split_and!|]. exists u. split; [by split|].
    intros x. cbn. by rewrite elem_of_cons.
  - intros u. apply wr_writes. by intros k k' [= <-].
  - intros u. apply wr_writes. cbn. intros k k'. case_bool_decide as E; [|done]. intros [= <-]. split; [done|]. split; [by split_and!|].
    intros Hr x. cbn. rewrite list_elem_of_filter. naive_solver.
  - by apply rd_reads.
  - by apply rd_reads.
  - intros name. apply rd_reads. intros k g. cbn. destruct (k_devices k !! name) as [b|] eqn:E; cbn; [|done]. intros [= <-].
    exists (index_of name), (device_of name b). split; [apply k_view_Some; by exists name, b|done].
  - intros name c. apply act_acts. intros k k' E. eapply on_device_step in E.
    + destruct E as [E1 E2]. split; [done|]. exists (index_of name). exact E2.
    + intros n b En. apply index_of_inj in En. subst n. cbn. split_and!; [done..|].
      rewrite (unique_peers_id (configure c _)); [|apply configure_peers_nodup, unique_peers_nodup]. split; cbn; [done| |done].
      destruct (wc_ListenPort c) as [p|]; [|done]. intros N. by apply Z.eqb_neq in N as ->.
  - intros raw. by apply rd_reads.
  - intros path text. apply act_acts. by intros k k' [= <-].
  - intros path. apply rd_reads. by intros k text.
Defined.

#[global] Instance run_attempts : Attempts rkernel := {
  get_attempt name := λ k, (Ok (k_attempts k !! name), k);
  set_attempt name a := λ k,
    (Ok tt, mkRKernel (k_devices k) (k_routes k) (k_rules k) (k_sysctl k) (k_sent k) (k_faults k) (<[name := a]> (k_attempts k)))
}.
#[global] Instance run_attempts_laws : AttemptsLaws rkernel.
Proof. split; intros; [eexists _, _|eexists]; by split. Defined.
