(* ===== verification/RoutesCompiled.v ===== *)
(** The routes and rules compiled from a valid specification can be managed, in
    the sense of RoutesProps.v, if the specification avoids four things that
    validation does not exclude; so a node with such a specification settles its
    kernel. *)

From S2P Require Import Prelude Netip NetipText Ports Spec SpecProps Desired DesiredProps Netlink Routes RoutesProps RunKernel.
From stdpp Require Import gmap strings.
Open Scope Z_scope.
Open Scope velvet_scope.

(** The prefixes that a specification routes. *)
Inductive routed_prefix (s : NodeSpec) : Prefix → Prop :=
| rx_pool p : p ∈ InfrastructurePrefixes (Fabric s) → routed_prefix s p
| rx_fabric x : x ∈ all_routes (f_StaticRoutes (Fabric s)) → routed_prefix s (parsed (r_Prefix x.2))
| rx_source name d p : Domains s !! name = Some d → p ∈ map parsed (SourcePrefixes d) → routed_prefix s p
| rx_static name d x : Domains s !! name = Some d → x ∈ all_routes (StaticRoutes d) → routed_prefix s (parsed (r_Prefix x.2))
| rx_announced name d a : Domains s !! name = Some d → a ∈ Announcements d → routed_prefix s (parsed (a_Prefix a)).

(** What validation does not exclude: a prefix of IPv4-mapped addresses, or a pool
    that is not a network or is everything; the metric 0 for IPv6; and in a domain
    a prefix of the infrastructure's static routes. *)
Record separable (s : NodeSpec) : Prop := {
  sp_mapped : ∀ p, routed_prefix s p → Is4In6 (Prefix_Addr p) = false;
  sp_pools : ∀ p, p ∈ InfrastructurePrefixes (Fabric s) → Masked p = p ∧ Bits p ≠ 0;
  sp_metric : ∀ x, (x ∈ all_routes (f_StaticRoutes (Fabric s)) ∨ ∃ name d, Domains s !! name = Some d ∧ x ∈ all_routes (StaticRoutes d)) →
    Is6 (Prefix_Addr (parsed (r_Prefix x.2))) = true → r_Metric x.2 ≠ Some 0;
  sp_shared : ∀ name d x, Domains s !! name = Some d → x ∈ all_routes (f_StaticRoutes (Fabric s)) →
    (∀ y, y ∈ all_routes (StaticRoutes d) → parsed (r_Prefix y.2) ≠ parsed (r_Prefix x.2)) ∧
    ∀ a, a ∈ Announcements d → parsed (a_Prefix a) ≠ parsed (r_Prefix x.2)
}.

Lemma NoDup_map_weaken {A B C} (f : A → B) (g : A → C) (l : list A) :
  NoDup (map f l) → (∀ x y, x ∈ l → y ∈ l → g x = g y → f x = f y) → NoDup (map g l).
Proof.
  induction l as [|x l IH]; [intros; apply NoDup_nil_2|]. cbn [map]. intros [N1 N2]%NoDup_cons H. apply NoDup_cons. split.
  - intros (y & E & Hy)%list_elem_of_fmap. apply N1. rewrite (H x y); [by apply list_elem_of_fmap_2|by left|by right|done].
  - apply IH; [done|]. intros y z Hy Hz. apply H; by right.
Qed.
Lemma canonical_plain p : (∃ raw, canonical raw p) → Is4In6 (Prefix_Addr p) = false → plain_prefix p.
Proof.
  intros [raw (E & _ & M)%canonical_parsed] I. apply ParsePrefix_ok in E as (? & ? & _). by split_and!.
Qed.

Section Separable.
Context (s : NodeSpec) (peerNames : gset string) (links : gmap string LinkPlan).
Context (V : validateRouting s peerNames = []) (K : ∀ name, name ∈ peerNames → is_Some (links !! name)) (S : separable s).
Notation fabric := (EffectiveRoutingTableID (Fabric s)).

Lemma static_canonical routes ps x : routes_valid routes peerNames ps → x ∈ all_routes routes →
  (∃ raw, canonical raw (parsed (r_Prefix x.2))) ∧ parsed (r_Prefix x.2) ∈ ps ∧ bad_metric (r_Metric x.2) = false.
Proof using.
  intros (_ & F & _) [i Hi]%list_elem_of_lookup. destruct (Forall2_lookup_l _ _ _ _ _ F Hi) as (p & Hp & [C B]).
  pose proof (canonical_parsed _ _ C) as (_ & -> & _). split_and!; [by eexists|by eapply list_elem_of_lookup_2|done].
Qed.
Lemma static_same routes ps x y : routes_valid routes peerNames ps → x ∈ all_routes routes → y ∈ all_routes routes →
  parsed (r_Prefix x.2) = parsed (r_Prefix y.2) → x = y.
Proof using.
  intros (_ & F & N) [i Hi]%list_elem_of_lookup [j Hj]%list_elem_of_lookup E.
  destruct (Forall2_lookup_l _ _ _ _ _ F Hi) as (p & Hp & [C _]), (Forall2_lookup_l _ _ _ _ _ F Hj) as (q & Hq & [C' _]).
  apply canonical_parsed in C as (_ & Ep & _), C' as (_ & Eq & _).
  assert (i = j) as -> by (eapply NoDup_lookup; [done..|]; congruence). congruence.
Qed.
Lemma announced_canonical d name pools src rts anns a : domain_valid d name pools peerNames src rts anns → a ∈ Announcements d →
  (∃ raw, canonical raw (parsed (a_Prefix a))) ∧ parsed (a_Prefix a) ∈ anns.
Proof using.
  intros [] [i Hi]%list_elem_of_lookup. destruct (Forall2_lookup_l _ _ _ _ _ dv_announcements Hi) as (p & Hp & [C B]).
  pose proof (canonical_parsed _ _ C) as (_ & -> & _). split_and!; [by eexists|by eapply list_elem_of_lookup_2].
Qed.

Lemma fabric_valid : ∃ ps, routes_valid (f_StaticRoutes (Fabric s)) peerNames ps.
Proof using V. apply validateRouting_decides in V. destruct (rv_fabric _ _ V) as (ps & Rv & _). by exists ps. Qed.
Lemma domain_is_valid name d : Domains s !! name = Some d →
  ∃ src rts anns, domain_valid d name (InfrastructurePrefixes (Fabric s)) peerNames src rts anns.
Proof using V. intros L. apply validateRouting_decides in V. by destruct (rv_domains _ _ V name d L) as [_ ?]. Qed.

Lemma pool_wf p : p ∈ InfrastructurePrefixes (Fabric s) → wf_prefix p ∧ Prefix_IsValid p = true.
Proof using.
  unfold InfrastructurePrefixes. intros (raw & _ & E)%list_elem_of_omap.
  destruct (ParsePrefix raw) as [q|e|] eqn:Eq; [|done..]. injection E as <-. by apply ParsePrefix_ok in Eq as (? & ? & _).
Qed.
(** Every routed prefix is plain. *)
Lemma routed_plain p : routed_prefix s p → plain_prefix p.
Proof using V S.
  intros R. pose proof (sp_mapped _ S p R) as I. destruct R as [p Hp|x Hx|name d p L Hp|name d x L Hx|name d a L Ha].
  - destruct (pool_wf p Hp), (sp_pools _ S p Hp). by split_and!.
  - destruct fabric_valid as [ps Rv]. apply canonical_plain; [|done]. by eapply static_canonical.
  - destruct (domain_sources s peerNames V name d L) as [F _]. apply list_elem_of_fmap in Hp as (raw & -> & [i Hi]%list_elem_of_lookup).
    destruct (Forall2_lookup_l _ _ _ _ _ F Hi) as (p & _ & C). apply canonical_plain; [|done].
    pose proof (canonical_parsed _ _ C) as (_ & -> & _). by eexists.
  - destruct (domain_is_valid name d L) as (src & rts & anns & D). apply canonical_plain; [|done]. eapply static_canonical; [apply D|done].
  - destruct (domain_is_valid name d L) as (src & rts & anns & D). apply canonical_plain; [|done]. by eapply announced_canonical.
Qed.

(** The table of an entry of domain [d] for [p]. *)
Definition placed (d : DomainSpec) (t : Z) (p : Prefix) : Prop :=
  t = SourceTableID d ∨ t = fabric ∧ IsAccessPrefix d p = true.
Lemma access_contains d p : IsAccessPrefix d p = true →
  ∃ q, q ∈ map parsed (SourcePrefixes d) ∧ Contains q (Prefix_Addr p) = true.
Proof using.
  unfold IsAccessPrefix. intros (raw & Hraw%list_elem_of_In & E)%existsb_exists. exists (parsed raw).
  split; [by apply list_elem_of_fmap_2|]. unfold parsed. destruct (ParsePrefix raw) as [q|e|]; [|done..].
  cbn in E. rewrite orb_false_r in E. by apply andb_true_iff in E as [_ E].
Qed.
Lemma placed_unique name d name' d' t p : Domains s !! name = Some d → Domains s !! name' = Some d' →
  placed d t p → placed d' t p → d = d'.
Proof using V.
  intros L L' [->|[-> A]] [E|[E A']].
  - by eapply (table_owner s peerNames V).
  - by destruct (table_not_fabric s peerNames V name d L).
  - by destruct (table_not_fabric s peerNames V name' d' L').
  - destruct (access_contains d p A) as (q & Hq & C), (access_contains d' p A') as (q' & Hq' & C').
    destruct (sources_listed s peerNames V name d q L Hq) as (Wq & Vq & _), (sources_listed s peerNames V name' d' q' L' Hq') as (Wq' & Vq' & _).
    eapply (sources_disjoint s peerNames V name d q name' d' q'); [done..|]. by eapply Contains_overlap.
Qed.

(** Where a route that is not a guard comes from. *)
Inductive origin (r : RoutePlan) : Prop :=
| og_fabric x : x ∈ all_routes (f_StaticRoutes (Fabric s)) → r = peer_plan (TableID r) links x → origin r
| og_domain name d x : Domains s !! name = Some d → x ∈ all_routes (StaticRoutes d) → placed d (TableID r) (parsed (r_Prefix x.2)) →
    r = peer_plan (TableID r) links x → origin r
| og_throw name d a : Domains s !! name = Some d → a ∈ Announcements d → placed d (TableID r) (parsed (a_Prefix a)) →
    r = throw_route (TableID r) (parsed (a_Prefix a)) → origin r.
Definition is_guard (r : RoutePlan) : Prop := r = guard_route (TableID r) (rp_Prefix r).
Lemma entry_origin r : entry_route fabric s links r → is_guard r ∨ origin r.
Proof using.
  intros [pool t Hp Ht|x t Hx Ht|name d r' L [p t Hp Ht|p Hp|x Hx|x Hx A|a t Ha Ht]]; try (by left); right.
  - by eapply og_fabric.
  - eapply og_domain; [done|done|by left|done].
  - eapply og_domain; [done|done|by right|done].
  - eapply og_throw; [done|done| |done]. destruct Ht as [->|[-> A]]; [by left|by right].
Qed.
(** One table has no two of them for one prefix. *)
Lemma origin_unique r r' : origin r → origin r' → TableID r = TableID r' → rp_Prefix r = rp_Prefix r' → r = r'.
Proof using V S.
  assert (Wlog : ∀ r r', origin r → origin r' → TableID r = TableID r' → rp_Prefix r = rp_Prefix r' →
    match Type_ r, Type_ r' with RouteThrow, RouteViaPeer => False | _, _ => True end → r = r').
  { clear r r'. intros r r' Or Or' Et Ep Ty. destruct Or as [x Hx Er|name d x L Hx Pl Er|name d a L Ha Pl Er], Or' as [y Hy Er'|name' d' y L' Hy Pl' Er'|name' d' b L' Hb Pl' Er'];
      rewrite Er, Er' in Ep |- *; rewrite Er, Er' in Ty; cbn in Ep, Ty; try done; rewrite <- Et in *.
    - destruct fabric_valid as [ps Rv]. by rewrite (static_same _ ps x y Rv Hx Hy Ep).
    - by destruct (proj1 (sp_shared _ S name' d' x L' Hx) y Hy).
    - by destruct (proj2 (sp_shared _ S name' d' x L' Hx) b Hb).
    - by destruct (proj1 (sp_shared _ S name d y L Hy) x Hx).
    - rewrite Ep in Pl. pose proof (placed_unique name d name' d' _ _ L L' Pl Pl'). subst d'.
      destruct (domain_is_valid name d L) as (src & rts & anns & D). by rewrite (static_same _ rts x y (dv_routes _ _ _ _ _ _ _ D) Hx Hy Ep).
    - rewrite Ep in Pl. pose proof (placed_unique name d name' d' _ _ L L' Pl Pl'). subst d'.
      destruct (domain_is_valid name d L) as (src & rts & anns & D).
      destruct (announced_canonical _ _ _ _ _ _ b D Hb) as [_ Hb']. destruct (dv_conflict _ _ _ _ _ _ _ D _ Hb').
      rewrite <- Ep. eapply static_canonical; [apply D|done].
    - by rewrite Ep. }
  intros Or Or' Et Ep. destruct (Type_ r) eqn:T, (Type_ r') eqn:T'; try (apply Wlog; [done..|by rewrite ?T, ?T']).
  symmetry. apply Wlog; [done..|]. by rewrite ?T, ?T'.
Qed.

Lemma entry_prefix r : entry_route fabric s links r →
  routed_prefix s (rp_Prefix r) ∨ ∃ p, rp_Prefix r = zero_of p ∧ is_guard r.
Proof using.
  intros [pool t Hp Ht|x t Hx Ht|name d r' L [p t Hp Ht|p Hp|x Hx|x Hx A|a t Ha Ht]]; cbn.
  - left. by apply rx_pool.
  - left. by apply rx_fabric.
  - left. by eapply rx_source.
  - right. by exists p.
  - left. by eapply rx_static.
  - left. by eapply rx_static.
  - left. by eapply rx_announced.
Qed.
Lemma zero_plain p : plain_prefix (zero_of p).
Proof using. unfold zero_of. destruct (Is4 (Prefix_Addr p)); (split_and!; [|done|done|done]); split_and!; cbn; try done; right; split; done. Qed.
Lemma origin_metric r : origin r → bad_metric (Metric r) = false.
Proof using V.
  intros [x Hx ->|name d x L Hx _ ->|name d a L Ha _ ->]; cbn; [| |done].
  - destruct fabric_valid as [ps Rv]. by eapply static_canonical.
  - destruct (domain_is_valid name d L) as (src & rts & anns & D). eapply static_canonical; [apply D|done].
Qed.
Lemma slot_unique r r' : entry_route fabric s links r → entry_route fabric s links r' → plan_slot r = plan_slot r' → r = r'.
Proof using V S.
  assert (B : ∀ r, origin r → (plan_slot r).2 < UnreachableMetric).
  { intros q O%origin_metric. unfold plan_slot. cbn. unfold bad_metric in O. destruct (Metric q) as [m|]; cbn in O |- *.
    - apply Z.ltb_ge in O. destruct (_ && _); unfold UnreachableMetric; lia.
    - destruct (Is6 _); done. }
  assert (G : ∀ r, is_guard r → (plan_slot r).2 = UnreachableMetric) by (intros q ->; done).
  intros E E' Es. destruct (entry_origin r E) as [Gr|Or], (entry_origin r' E') as [Gr'|Or'].
  - rewrite Gr, Gr' in *. unfold plan_slot in Es. injection Es as Et Ep. cbn in *. by rewrite Et, Ep.
  - pose proof (G r Gr). pose proof (B r' Or'). rewrite Es in *. lia.
  - pose proof (B r Or). pose proof (G r' Gr'). rewrite Es in *. lia.
  - apply origin_unique; [done|done|..]; unfold plan_slot in Es; by injection Es.
Qed.
Lemma key_unique r r' : entry_route fabric s links r → entry_route fabric s links r' → route_key r = route_key r' → r = r'.
Proof using V S.
  intros E E' Ek. apply slot_unique; [done..|]. unfold route_key in Ek. injection Ek as Et Ep _ Em. unfold plan_slot. by rewrite Et, Ep, Em.
Qed.
Lemma rule_unique u u' : entry_rule fabric s u → entry_rule fabric s u' → rule_key u = rule_key u' → u = u'.
Proof using V S.
  intros E E' Ek. assert (N : ∀ name d p, Domains s !! name = Some d → p ∈ map parsed (SourcePrefixes d) → p ≠ Prefix_zero).
  { intros name d p L Hp ->. assert (X : plain_prefix Prefix_zero) by (by eapply routed_plain, rx_source). by destruct X as (_ & ? & _). }
  unfold rule_key in Ek. destruct E as [q Hq|n d q L Hq|n d q L Hq], E' as [q' Hq'|n' d' q' L' Hq'|n' d' q' L' Hq']; cbn in Ek; injection Ek; intros; subst; try congruence;
    match goal with X : Prefix_zero ∈ map parsed (SourcePrefixes ?d), L : Domains s !! _ = Some ?d |- _ => by destruct (N _ _ _ L X) end.
Qed.

Section Compiled.
Context (c : compiled) (desired : DesiredState) (Ec : compileRouting fabric s links = Ok c)
  (Er : ds_Routes desired = c_Routes c) (Eu : Rules desired = c_Rules c).
Lemma compiled_routes r : r ∈ ds_Routes desired ↔ entry_route fabric s links r.
Proof using V K S Ec Er.
  destruct (compiled_is s peerNames links V K c Ec) as []. rewrite Er. split; [intros Hr; by apply entries_routes, co_routes|].
  intros Hr. destruct (co_all_routes r) as (r' & Hr' & Ek); [by apply entries_routes|].
  rewrite <- (key_unique r' r); [done| |done..]. by apply entries_routes, co_routes.
Qed.
Lemma compiled_rules u : u ∈ Rules desired ↔ entry_rule fabric s u.
Proof using V K S Ec Eu.
  destruct (compiled_is s peerNames links V K c Ec) as []. rewrite Eu. split; [intros Hr; by eapply entries_rules, co_rules|].
  intros Hr. destruct (co_all_rules u) as (u' & Hu' & Ek); [by eapply entries_rules|].
  rewrite <- (rule_unique u' u); [done| |done..]. by eapply entries_rules, co_rules.
Qed.

(** The compiled state, with whatever else is desired. *)
Lemma compiled_manageable : manageable desired.
Proof using V K S Ec Er Eu.
  split.
  - intros r Hr%compiled_routes. destruct (entry_prefix r Hr) as [R|(p & -> & _)]; [by apply routed_plain|apply zero_plain].
  - intros r Hr%compiled_routes I6 M. destruct (entry_origin r Hr) as [Gr|[x Hx Ex|name d x L Hx _ Ex|name d a L Ha _ Ex]];
      [rewrite Gr in M; discriminate M|..|rewrite Ex in M; discriminate M]; rewrite Ex in M, I6; cbn in M, I6; eapply (sp_metric _ S x); eauto.
  - pose proof (co_nodup_routes _ _ (compiled_is s peerNames links V K c Ec)) as N. rewrite <- Er in N.
    eapply NoDup_map_weaken; [exact N|]. intros x y Hx%compiled_routes Hy%compiled_routes E. f_equal. by apply slot_unique.
  - intros u Hu%compiled_rules. unfold rule_prefix.
    destruct Hu as [pool Hp|name d p L Hp|name d p L Hp]; cbn [rl_Source rl_Destination Prefix_IsValid Prefix_zero Bits].
    + split; [by apply routed_plain, rx_pool|by apply (sp_pools _ S)].
    + split; [by eapply routed_plain, rx_source|]. destruct (domain_is_valid name d L) as (src & rts & anns & D).
      destruct (sourcePrefixes_ok d src (dv_canonical _ _ _ _ _ _ _ D)) as [_ Es]. apply (dv_length _ _ _ _ _ _ _ D). by rewrite <- Es.
    + assert (Pp : plain_prefix p) by (by eapply routed_plain, rx_source). rewrite (proj1 (proj2 Pp)). split; [done|].
      destruct (domain_is_valid name d L) as (src & rts & anns & D).
      destruct (sourcePrefixes_ok d src (dv_canonical _ _ _ _ _ _ _ D)) as [_ Es]. apply (dv_length _ _ _ _ _ _ _ D). by rewrite <- Es.
Qed.
End Compiled.
End Separable.

(** * From the specification to the kernel *)

(** The kernel route [k] does what [item] plans. *)
Record carries (s : kstate) (item : RoutePlan) (k : NRoute) : Prop := {
  ca_protocol : nr_Protocol k = StaticProtocol;
  ca_table : nr_Table k = TableID item;
  ca_dst : prefixFromIPNet (nr_Dst k) = Some (rp_Prefix item);
  ca_type : nr_Type k = match Type_ item with RouteViaPeer => RTN_UNICAST | RouteThrow => RTN_THROW | RouteUnreachable => RTN_UNREACHABLE end;
  ca_link : Type_ item = RouteViaPeer → named s (nr_LinkIndex k) (rp_InterfaceName item);
  ca_metric : ∀ m, Metric item = Some m → nr_Priority k = m
}.
Lemma managed_carries desired s s' m item k : is_wanted desired s m item → devices s' = devices s → plain_prefix (rp_Prefix item) →
  managedRouteMatches k m = true → carries s' item k.
Proof.
  intros (i & -> & Hi) Ed G X. unfold managedRouteMatches in X. destruct (routesMatch k _) eqn:Rm; [|done]. cbn in X.
  pose proof (routesMatch_dst _ _ Rm) as (_ & D & T & P). cbn [route] in *. rewrite desired_route_dst, prefixFromIPNet_plain in D by done.
  assert (Ty : nr_Type k = nr_Type (desired_route desired item i) ∧ (nr_Type k = RTN_UNICAST → nr_LinkIndex k = nr_LinkIndex (desired_route desired item i)))
    by (by apply routesMatch_type).
  destruct Ty as [Ty Li]. unfold desired_route in T, P, Ty, Li. split.
  - by destruct (Type_ item).
  - by destruct (Type_ item).
  - done.
  - by destruct (Type_ item).
  - intros E. rewrite E in *. cbn in *. rewrite Li by done. unfold named. by rewrite Ed.
  - intros v E. rewrite E in X. by apply Z.eqb_eq.
Qed.

Section FromSpec.
Context {W : Type} `{KernelLaws W}.
(** From a specification to the kernel.  Take a specification that passes
    routing validation, has a Link for every peer and is separable.  Reconciling
    its compiled state fails only if a call of the kernel fails or an interface
    does not exist; otherwise the kernel's static routes and rules are those of
    the specification: each intended route and rule is there, each static route
    and rule there is intended, and verification finds no fault. *)
Theorem specification_settles s peerNames links c desired (w : W) r w1 :
  validateRouting s peerNames = [] → (∀ name, name ∈ peerNames → is_Some (links !! name)) → separable s →
  let fabric := EffectiveRoutingTableID (Fabric s) in
  compileRouting fabric s links = Ok c → ds_Routes desired = c_Routes c → Rules desired = c_Rules c →
  reconcileRoutesAndRules desired w = (r, w1) →
  (∃ e, r = Err e ∧ (kernel_error e ∨ no_device (view w) (ds_Routes desired))) ∨
  r = Ok tt ∧
  (∀ item, entry_route fabric s links item → ∃ k, k ∈ routes (view w1) ∧ carries (view w1) item k) ∧
  (∀ k, k ∈ routes (view w1) → nr_Protocol k = StaticProtocol → ∃ item, entry_route fabric s links item ∧ carries (view w1) item k) ∧
  (∀ u, entry_rule fabric s u → ∃ k, k ∈ rules (view w1) ∧ rulesMatch (desiredNetlinkRule u) k = true) ∧
  (∀ k, k ∈ rules (view w1) → nu_Protocol k = StaticProtocol → nu_Family k = FAMILY_V4 ∨ nu_Family k = FAMILY_V6 →
     ∃ u, entry_rule fabric s u ∧ rulesMatch k (desiredNetlinkRule u) = true) ∧
  ∀ check, check ∈ [verifyStaticRoutes; verifyPolicyRules] → ∀ r w2, check desired w1 = (r, w2) →
    r = Ok tt ∨ ∃ e, r = Err e ∧ kernel_error e.
Proof.
  intros V K Sp fabric Ec Er Eu Run. pose proof (compiled_manageable s peerNames links V K Sp c desired Ec Er Eu) as M.
  pose proof (compiled_routes s peerNames links V K Sp c desired Ec Er) as Cr.
  pose proof (compiled_rules s peerNames links V K Sp c desired Ec Eu) as Cu.
  destruct (reconcile_outcome desired M w r w1 Run) as [X|(-> & (ms & F & St) & Ck)]; [by left|right]. split; [done|]. split_and!.
  - intros item Hi. apply Cr in Hi as Hd. destruct (proj1 (list_elem_of_lookup _ _) Hd) as [j Hj].
    destruct (Forall2_lookup_r _ _ _ _ _ F Hj) as (m & Hm & Wm). apply list_elem_of_lookup_2 in Hm.
    destruct (se_routes _ _ _ _ St m Hm) as (k & Hk & Pr). exists k. split; [done|].
    eapply managed_carries; [done|apply St|by apply M|]. apply present_managed; [by eapply wanted_kept|done].
  - intros k Hk Pk. apply (se_stale _ _ _ _ St) in Hk; [|done]. apply anyManagedRouteMatches_spec in Hk as (m & Hm & X).
    destruct (proj1 (list_elem_of_lookup _ _) Hm) as [j Hj]. destruct (Forall2_lookup_l _ _ _ _ _ F Hj) as (item & Hi & Wm).
    apply list_elem_of_lookup_2 in Hi. exists item. split; [by apply Cr|]. eapply managed_carries; [done|apply St|by apply M|done].
  - intros u Hu. apply (se_rules _ _ _ _ St). apply list_elem_of_fmap_2. by apply Cu.
  - intros k Hk Pk Fk. apply (se_rules _ _ _ _ St) in Hk; [|done..]. apply anyRuleMatches_spec in Hk as (v & (u & -> & Hu)%list_elem_of_fmap & X).
    exists u. split; [by apply Cu|done].
  - intros check Hc r w2 E. refine (proj2 (Ck check _ r w2 E)). apply elem_of_cons in Hc as [->|[->|[]%not_elem_of_nil]%elem_of_cons]; [by left|by right; left].
Qed.
End FromSpec.

(** * Deciding it *)

Definition domains_of (s : NodeSpec) : list DomainSpec := map snd (map_to_list (Domains s)).
Definition routed_list (s : NodeSpec) : list Prefix :=
  InfrastructurePrefixes (Fabric s) ++ map (λ x, parsed (r_Prefix x.2)) (all_routes (f_StaticRoutes (Fabric s))) ++
  (domains_of s ≫= λ d, map parsed (SourcePrefixes d) ++ map (λ x, parsed (r_Prefix x.2)) (all_routes (StaticRoutes d)) ++
     map (λ a, parsed (a_Prefix a)) (Announcements d)).
Definition separable_check (s : NodeSpec) : bool :=
  forallb (λ p, negb (Is4In6 (Prefix_Addr p))) (routed_list s) &&
  forallb (λ p, bool_decide (Masked p = p) && negb (Bits p =? 0)) (InfrastructurePrefixes (Fabric s)) &&
  forallb (λ x, negb (Is6 (Prefix_Addr (parsed (r_Prefix x.2))) && bool_decide (r_Metric x.2 = Some 0)))
    (all_routes (f_StaticRoutes (Fabric s)) ++ (domains_of s ≫= λ d, all_routes (StaticRoutes d))) &&
  forallb (λ d, forallb (λ x,
    forallb (λ y, negb (bool_decide (parsed (r_Prefix y.2) = parsed (r_Prefix x.2)))) (all_routes (StaticRoutes d)) &&
    forallb (λ a, negb (bool_decide (parsed (a_Prefix a) = parsed (r_Prefix x.2)))) (Announcements d))
    (all_routes (f_StaticRoutes (Fabric s)))) (domains_of s).

Lemma domains_of_elem s name d : Domains s !! name = Some d → d ∈ domains_of s.
Proof. intros L. apply list_elem_of_fmap. exists (name, d). split; [done|]. by apply elem_of_map_to_list. Qed.
Lemma routed_listed s p : routed_prefix s p → p ∈ routed_list s.
Proof.
  unfold routed_list. intros [q Hq|x Hx|name d q L Hq|name d x L Hx|name d a L Ha]; rewrite !elem_of_app.
  - by left.
  - right; left. by apply (list_elem_of_fmap_2 (λ x, parsed (r_Prefix x.2))).
  - right; right. apply list_elem_of_bind. exists d. split; [|by eapply domains_of_elem]. rewrite !elem_of_app. by left.
  - right; right. apply list_elem_of_bind. exists d. split; [|by eapply domains_of_elem]. rewrite !elem_of_app. right; left.
    by apply (list_elem_of_fmap_2 (λ x, parsed (r_Prefix x.2))).
  - right; right. apply list_elem_of_bind. exists d. split; [|by eapply domains_of_elem]. rewrite !elem_of_app. right; right.
    by apply (list_elem_of_fmap_2 (λ a, parsed (a_Prefix a))).
Qed.
Lemma forallb_elem {A} (f : A → bool) l x : forallb f l = true → x ∈ l → f x = true.
Proof. intros H Hx. rewrite forallb_forall in H. apply H. by apply list_elem_of_In. Qed.
Lemma separable_check_sound s : separable_check s = true → separable s.
Proof.
  unfold separable_check. rewrite !andb_true_iff. intros [[[C1 C2] C3] C4]. split.
  - intros p Hp%routed_listed. apply (forallb_elem _ _ _ C1) in Hp. by apply negb_true_iff in Hp.
  - intros p Hp. apply (forallb_elem _ _ _ C2) in Hp. cbv beta in Hp. bool_to_prop. by split.
  - intros x Hx I6 E. assert (Hl : x ∈ all_routes (f_StaticRoutes (Fabric s)) ++ (domains_of s ≫= λ d, all_routes (StaticRoutes d))).
    { apply elem_of_app. destruct Hx as [?|(name & d & L & Hx)]; [by left|right]. apply list_elem_of_bind. exists d. split; [done|by eapply domains_of_elem]. }
    apply (forallb_elem _ _ _ C3) in Hl. cbv beta in Hl. rewrite I6, E in Hl. done.
  - intros name d x L Hx. apply domains_of_elem in L. apply (forallb_elem _ _ _ C4) in L. cbv beta in L.
    apply (forallb_elem _ _ _ L) in Hx. cbv beta in Hx. apply andb_true_iff in Hx as [H1 H2]. split.
    + intros y Hy E. apply (forallb_elem _ _ _ H1) in Hy. cbv beta in Hy. by rewrite bool_decide_eq_true_2 in Hy.
    + intros a Ha E. apply (forallb_elem _ _ _ H2) in Ha. cbv beta in Ha. by rewrite bool_decide_eq_true_2 in Ha.
Qed.

(** * Examples *)

Definition example_desired (c : compiled) : DesiredState :=
  mkDesiredState [] PortChoice_zero (mkDurableSettings 2 1800) (mkNodeUID "a" "") [] [] (mkPrefix (Addr4 0x0aff0000) 16)
    (mkPrefix (Addr6 (0xfd000002 * 2 ^ 96) "") 64) (mkPrefix (Addr6 (0xfd000001 * 2 ^ 96) "") 64) (Addr6 (0xfd000001 * 2 ^ 96 + 1) "")
    58420 20000 "velvet:loopback:a" true [] (c_Routes c) (c_Rules c) None None [].
(** A kernel with the interface of the peer, a route of Babel, a stale route of
    Velvet's and a route of somebody else. *)
Definition example_stale : NRoute :=
  mkNRoute 0 (Some (prefixIPNet (mkPrefix (Addr4 0x0a630000) 16))) [] [] 0 0 7 0 StaticProtocol 20000 RTN_THROW.
Definition example_babel : NRoute :=
  mkNRoute 7 (Some (prefixIPNet (mkPrefix (Addr4 0x0a010900) 24))) [] [] 0 0 65631 SCOPE_LINK BabelDynamicProtocol 20000 RTN_UNICAST.
Definition example_other : NRoute :=
  mkNRoute 2 (Some (prefixIPNet (mkPrefix (Addr4 0) 0))) [] (be_put 4 0xc0000201) 0 0 0 0 3 RT_TABLE_MAIN RTN_UNICAST.
Definition example_world : rkernel :=
  mkRKernel {["wg-b"%string := mkBody "wireguard" "velvet:link:a:b" true [] wg_zero]} [example_stale; example_babel; example_other] [] ∅ 0 [] ∅.

Definition example_settled : rkernel := (reconcileRoutesAndRules (example_desired example_compiled) example_world).2.

Lemma example_separable : separable example_spec.
Proof. apply separable_check_sound. by vm_compute. Qed.

Lemma example_manageable : manageable (example_desired example_compiled).
Proof.
  exact (compiled_manageable example_spec {["b"%string]} example_links example_valid example_linked example_separable
    example_compiled (example_desired example_compiled) example_ok eq_refl eq_refl).
Qed.
Lemma example_settled_ok :
  reconcileRoutesAndRules (example_desired example_compiled) example_world = (Ok tt, example_settled).
Proof. by vm_compute. Qed.

Lemma reconcile_settles_witness : manageable (example_desired example_compiled) ∧
  ∃ w1, reconcileRoutesAndRules (example_desired example_compiled) example_world = (Ok tt, w1) ∧
    ∀ check, check ∈ [verifyStaticRoutes; verifyPolicyRules; reconcileRoutesAndRules] → ∀ r w2,
      check (example_desired example_compiled) w1 = (r, w2) → view w2 = view w1 ∧ (r = Ok tt ∨ ∃ e, r = Err e ∧ kernel_error e).
Proof.
  split; [exact example_manageable|]. exists example_settled. split; [exact example_settled_ok|].
  destruct (reconcile_settles (example_desired example_compiled) example_manageable example_world (Ok tt) example_settled example_settled_ok)
    as [(e & X & _)|(_ & _ & C)]; [discriminate X|exact C].
Defined.

Lemma specification_settles_witness : separable example_spec ∧
  ∃ w1, reconcileRoutesAndRules (example_desired example_compiled) example_world = (Ok tt, w1) ∧
    ∃ k, k ∈ routes (view w1) ∧ carries (view w1) (peer_plan 100 example_links ("b"%string, mkRoute "0.0.0.0/0" None)) k.
Proof.
  split; [exact example_separable|]. exists example_settled. split; [exact example_settled_ok|].
  destruct (specification_settles example_spec {["b"%string]} example_links example_compiled (example_desired example_compiled)
    example_world (Ok tt) example_settled example_valid example_linked example_separable example_ok eq_refl eq_refl example_settled_ok)
    as [(e & X & _)|(_ & C & _)]; [discriminate X|]. apply C.
  apply (er_domain 20000 example_spec example_links "red" example_red); [reflexivity|].
  apply de_peer. vm_compute. by left.
Defined.

(** * What separability excludes *)

Definition with_static (routes : Routes) (domains : gmap string DomainSpec) : NodeSpec :=
  mkNodeSpec "v1" "Node" (mkFabricSpec "" "10.255.0.0/16" "fd00:2::/64" "fd00:1::/64" None None routes)
    (mkNode (mkNodeUID "a" "") "" "") [] None None domains.
(** The answers of reconciling and of the verification after it. *)
Definition reconciled_then_verified (s : NodeSpec) : result unit * result unit :=
  match compileRouting 20000 s example_links with
  | Ok c =>
    let '(r, k) := reconcileRoutesAndRules (example_desired c) example_world in
    (r, (verifyStaticRoutes (example_desired c) k).1)
  | Err e => (Err e, Err e)
  | Panic => (Panic, Panic)
  end.

(** A route of metric 0 to an IPv6 network is valid.  The kernel takes 0 for no
    metric and installs 1024, the pass that deletes stale routes deletes what was
    just installed, and verification fails, now and after every other pass. *)
Definition metric_zero_spec : NodeSpec := with_static {["b"%string := [mkRoute "fd00:1::5/128" (Some 0)]]} ∅.
Lemma metric_zero_unverifiable : validateRouting metric_zero_spec {["b"%string]} = [] ∧
  reconciled_then_verified metric_zero_spec = (Ok tt, Err (errors_New "route is missing")).
Proof. split; by vm_compute. Qed.

(** A domain may announce a prefix that the infrastructure routes statically.  The
    two routes of the domain's table want one place in the kernel. *)
Definition shared_prefix_spec : NodeSpec :=
  with_static {["b"%string := [mkRoute "fd00:1::5/128" None]]}
    {["blue"%string := mkDomainSpec 101 ["2001:db8::/48"%string] ∅ [mkAnnouncement "fd00:1::5/128" None]]}.
Lemma shared_prefix_unverifiable : validateRouting shared_prefix_spec {["b"%string]} = [] ∧
  reconciled_then_verified shared_prefix_spec = (Ok tt, Err (errors_New "route is missing")).
Proof. split; by vm_compute. Qed.
