(* ===== verification/BackendProps.v ===== *)
(** What a pass of the reconciler guarantees: it leaves the interfaces of others
    alone, whatever fails, and when it succeeds the verification after it finds
    no fault. *)

From S2P Require Import Prelude Netip NetipText Ports Spec Link Desired Netlink Routes RoutesProps Backend.
From stdpp Require Import gmap strings.
Open Scope Z_scope.
Open Scope velvet_scope.

(** * Changes of one device *)

(** At most the device [i] differs, besides the routes that go with it. *)
Definition touch (i : Z) (s s' : kstate) : Prop :=
  (∀ j, j ≠ i → devices s' !! j = devices s !! j) ∧ other_than_devices s s'.
Lemma other_refl s : other_than_devices s s.
Proof. by split_and!. Qed.
Lemma other_trans s1 s2 s3 : other_than_devices s1 s2 → other_than_devices s2 s3 → other_than_devices s1 s3.
Proof. intros (E1 & E2 & R) (E3 & E4 & R'). split_and!; [congruence..|]. auto. Qed.
Lemma touch_refl i s : touch i s s.
Proof. split; [done|apply other_refl]. Qed.
Lemma touch_trans i s1 s2 s3 : touch i s1 s2 → touch i s2 s3 → touch i s1 s3.
Proof. intros [A O] [A' O']. split; [|by eapply other_trans]. intros j N. by rewrite A', A. Qed.

(** The device [i] is [d]; the others are those of [s0]. *)
Definition at_device (i : Z) (s0 : kstate) (Q : device → Prop) (s : kstate) : Prop :=
  touch i s0 s ∧ ∃ d, devices s !! i = Some d ∧ Q d.
Lemma at_device_step i s0 s s' (P : device → Prop) R : at_device i s0 P s → device_step i R s s' →
  at_device i s0 (λ d', ∃ d, P d ∧ R d d') s'.
Proof.
  intros [T (d & Hd & Pd)] (e & e' & He & Ed & Re & O). rewrite Hd in He. injection He as <-. split.
  - eapply touch_trans; [done|]. split; [|done]. intros j N. by rewrite Ed, lookup_insert_ne.
  - exists e'. rewrite Ed, lookup_insert_eq. split; [done|]. by exists d.
Qed.
Lemma at_device_weaken i s0 (P Q : device → Prop) s : at_device i s0 P s → (∀ d, P d → Q d) → at_device i s0 Q s.
Proof. intros [T (d & Hd & Pd)] X. split; [done|]. exists d. auto. Qed.

(** A host address of IPv6, as an interface has it. *)
Definition host_prefix6 (p : Prefix) : Prop :=
  wf_prefix p ∧ Prefix_IsValid p = true ∧ Is6 (Prefix_Addr p) = true ∧ Is4In6 (Prefix_Addr p) = false.
Section Host.
Context (p : Prefix) (G : host_prefix6 p).
Lemma host_addr : wf_addr (Prefix_Addr p) ∧ Addr_IsValid (Prefix_Addr p) = true ∧ Zone (Prefix_Addr p) = ""%string ∧
  Unmap (Prefix_Addr p) = Prefix_Addr p ∧ 0 <= Bits p <= 128.
Proof using G.
  destruct G as ((Wf & Z & B) & V & S6 & I). unfold Prefix_IsValid in V. apply Z.leb_le in V.
  unfold Unmap. rewrite I. destruct (Prefix_Addr p); cbn in *; try done. destruct B as [B|[_ B]]; [lia|done].
Qed.
Lemma host_IPNet : prefixFromAddressIPNet (Some (prefixIPNet p)) = Some p.
Proof using G.
  destruct host_addr as (A1 & A2 & A3 & A4 & A5). unfold prefixFromAddressIPNet. cbn [mbind option_bind IP Ones prefixIPNet].
  unfold netipAddr. rewrite AddrFromSlice_AsSlice by done. cbn [fmap option_fmap option_map mbind option_bind].
  rewrite A4, Z.max_r by lia. unfold PrefixFrom. rewrite A2. destruct G as (_ & _ & S6 & _). f_equal.
  destruct p as [[|v|v z] b]; cbn in *; try done. rewrite A3. rewrite (proj2 (Z.leb_le 0 b)), (proj2 (Z.leb_le b 128)) by lia. done.
Qed.
Lemma host_6 : dst_is6 (Some (prefixIPNet p)) = true.
Proof using G.
  destruct host_addr as (A1 & A2 & A3 & A4 & A5). destruct G as (_ & _ & S6 & _). cbn. unfold To4. rewrite AddrFromSlice_AsSlice by done.
  rewrite A4. by destruct (Prefix_Addr p).
Qed.
(** An address with the same octets has the same host; with the same length too,
    it is the same. *)
Lemma host_same_IP x : IP x = IP (prefixIPNet p) →
  ∃ q, prefixFromAddressIPNet (Some x) = Some q ∧ Prefix_Addr q = Prefix_Addr p ∧ dst_is6 (Some x) = true ∧ (q = p → x = prefixIPNet p).
Proof using G.
  destruct host_addr as (A1 & A2 & A3 & A4 & A5). destruct x as [ip o]. cbn [IP]. intros ->. unfold prefixFromAddressIPNet.
  cbn [mbind option_bind IP Ones prefixIPNet]. unfold netipAddr. rewrite AddrFromSlice_AsSlice by done.
  cbn [fmap option_fmap option_map mbind option_bind]. rewrite A4. eexists. split; [reflexivity|]. split_and!.
  - unfold PrefixFrom. cbn. destruct G as (_ & _ & S6 & _). destruct (Prefix_Addr p); cbn in *; try done. by rewrite A3.
  - pose proof host_6 as X. cbn in X |- *. exact X.
  - intros E. unfold prefixIPNet. f_equal. pose proof (f_equal Bits E) as Eb. unfold PrefixFrom in Eb. cbn in Eb.
    destruct (_ && _ && _) eqn:C in Eb; lia.
Qed.
End Host.

Section Procedures.
Context {W : Type} `{AttemptsLaws W}.
Implicit Types (s : kstate) (i : Z).

(** ** Addresses *)

(** A request on the device [l] in a state of [P]. *)
Lemma device_acts i s0 (P Q : device → Prop) R (m : sys W unit) (E : error → kstate → Prop) :
  acts view m (device_step i R) → (∀ d d', P d → R d d' → Q d') → (∀ e s, touch i s0 s → kernel_error e → E e s) →
  sspec (at_device i s0 P) m (λ _, at_device i s0 Q) E.
Proof.
  intros X HQ HE. eapply sspec_acts; [exact X| |].
  - intros s s' A R' _. eapply at_device_weaken; [by eapply at_device_step|]. intros d (d0 & P0 & R0). by eapply HQ.
  - intros s e [T _] K. by apply HE.
Qed.
Lemma device_reads {A} i s0 (P : device → Prop) R (m : sys W A) (E : error → kstate → Prop) :
  reads view m R → (∀ e s, touch i s0 s → kernel_error e → E e s) →
  sspec (at_device i s0 P) m (λ a s, at_device i s0 P s ∧ R s a) E.
Proof. intros X HE. eapply sspec_reads; [exact X|done|]. intros s e [T _] K. by apply HE. Qed.

Definition dropped (keep : Prefix → bool) (l1 : list (option IPNet)) (x : IPNet) : Prop :=
  Some x ∈ l1 ∧ ∃ p, prefixFromAddressIPNet (Some x) = Some p ∧ keep p = false.
(** The loop that deletes stale addresses. *)
Definition delete_addresses (keep : Prefix → bool) (l : NLink) (addresses : list (option IPNet)) : sys W unit :=
  each (λ a, match prefixFromAddressIPNet a with
    | Some prefix => if keep prefix then mret tt else AddrDel l a
    | None => mret tt end) addresses.
Lemma delete_addresses_spec keep l i s0 d0 addresses (E : error → kstate → Prop) : ln_Index l = i →
  (∀ e s, touch i s0 s → kernel_error e → E e s) → (∀ a, a ∈ addresses → is_Some a) →
  sspec (at_device i s0 (λ d, d = d0)) (delete_addresses keep l addresses)
    (λ _, at_device i s0 (λ d, d_link d = d_link d0 ∧ d_wg d = d_wg d0 ∧
       (∀ x, x ∈ d_addrs d → x ∈ d_addrs d0 ∧ ¬ dropped keep addresses x) ∧
       (∀ x, x ∈ d_addrs d0 → dst_is6 (Some x) = true → ¬ dropped keep addresses x → x ∈ d_addrs d))) E.
Proof.
  intros <- HE Hs. unfold delete_addresses. eapply sspec_loop with (I := λ l1, at_device (ln_Index l) s0 (λ d, d_link d = d_link d0 ∧ d_wg d = d_wg d0 ∧
       (∀ x, x ∈ d_addrs d → x ∈ d_addrs d0 ∧ ¬ dropped keep l1 x) ∧
       (∀ x, x ∈ d_addrs d0 → dst_is6 (Some x) = true → ¬ dropped keep l1 x → x ∈ d_addrs d))).
  { intros s A. eapply at_device_weaken; [exact A|]. intros d ->. split_and!; [done..| |done].
    intros x Hx. split; [done|]. by intros [[]%not_elem_of_nil _]. }
  intros l1 a l2 El. destruct (Hs a) as [x ->]; [rewrite El; apply elem_of_app; right; by left|].
  assert (Grow : ∀ y, dropped keep (l1 ++ [Some x]) y ↔ dropped keep l1 y ∨ y = x ∧ ∃ p, prefixFromAddressIPNet (Some x) = Some p ∧ keep p = false).
  { intros y. unfold dropped. rewrite elem_of_app, list_elem_of_singleton. split.
    - intros [[?|[= ->]] X]; [by left|right; by split].
    - intros [[? X]|[-> X]]; (split; [auto|done]). }
  assert (Same : (∀ p, prefixFromAddressIPNet (Some x) = Some p → keep p = true) → ∀ y, dropped keep (l1 ++ [Some x]) y ↔ dropped keep l1 y).
  { intros X y. rewrite Grow. split; [|by left]. intros [?|(-> & p & Ep & Kp)]; [done|]. by rewrite (X p Ep) in Kp. }
  destruct (prefixFromAddressIPNet (Some x)) as [p|] eqn:Ep; [destruct (keep p) eqn:Kp|].
  1,3: apply sspec_ret; intros s A; eapply at_device_weaken; [exact A|]; intros d (D1 & D2 & D3 & D4); split_and!; try done;
    intros y; rewrite Same by (intros q Eq; congruence); auto.
  eapply device_acts; [apply (AddrDel_law l x)| |exact HE]. cbn. intros d d' (D1 & D2 & D3 & D4) (R1 & R2 & R3 & R4).
  split_and!; [congruence..| |].
  - intros y [Hy N]%R3. destruct (D3 y Hy) as [Hy0 Nd]. split; [done|]. rewrite Grow. intros [?|[? _]]; done.
  - intros y Hy S6 Nd. rewrite Grow in Nd. apply R4; [apply D4; [done|done|tauto]| |done]. intros ->. apply Nd. right. split; [done|]. by exists p.
Qed.

(** The wanted address replaces those of its host with another length. *)
Lemma settle_address_spec keep wanted l i s0 d0 fam (E : error → kstate → Prop) : ln_Index l = i → host_prefix6 wanted →
  fam = FAMILY_V6 ∨ fam = FAMILY_ALL → keep wanted = true →
  (∀ q, Prefix_Addr q = Prefix_Addr wanted → q ≠ wanted → keep q = false) →
  (∀ e s, touch i s0 s → kernel_error e → E e s) →
  sspec (at_device i s0 (λ d, d = d0))
    (addresses ← AddrList l fam; delete_addresses keep l addresses;; AddrReplace l (prefixIPNet wanted))
    (λ _, at_device i s0 (λ d, d_link d = d_link d0 ∧ d_wg d = d_wg d0 ∧ prefixIPNet wanted ∈ d_addrs d)) E.
Proof.
  intros <- G Hf Kw Kn HE. eapply sspec_bind; [eapply device_reads; [apply AddrList_law|exact HE]|]. intros addresses.
  apply sspec_from. intros s1 (A & d1 & Hd1 & L). cbv beta in A. assert (d1 = d0) as ->.
  { destruct A as [_ (d & Hd & ->)]. congruence. }
  eapply sspec_bind.
  { eapply sspec_weaken; [apply (delete_addresses_spec keep l (ln_Index l) s0 d0 addresses E eq_refl HE)|by intros s ->|intros a s X; exact X|done].
    intros a (x & -> & _)%L. by eexists. }
  intros _u. eapply device_acts; [apply AddrReplace_law| |exact HE].
  cbn. intros d d' (D1 & D2 & D3 & D4) (R1 & R2 & R3 & R4 & R5). split_and!; [congruence..|]. apply R5.
  intros x Hx Ex. destruct (host_same_IP wanted G x Ex) as (q & Eq & Eh & S6 & Same).
  destruct (decide (q = wanted)) as [|N]; [by apply Same|]. destruct (D3 x Hx) as [Hx0 Nd]. destruct Nd. split.
  - apply L. exists x. split_and!; [done|done|]. unfold of_family. rewrite S6. destruct Hf as [->| ->]; [by right|by left].
  - exists q. split; [done|]. by apply Kn.
Qed.

Lemma reconcileBootstrapAddress_spec l s0 d0 wanted (E : error → kstate → Prop) : host_prefix6 wanted →
  IsLinkLocalUnicast (Prefix_Addr wanted) = true → (∀ e s, touch (ln_Index l) s0 s → kernel_error e → E e s) →
  sspec (at_device (ln_Index l) s0 (λ d, d = d0)) (reconcileBootstrapAddress l wanted)
    (λ _, at_device (ln_Index l) s0 (λ d, d_link d = d_link d0 ∧ d_wg d = d_wg d0 ∧ prefixIPNet wanted ∈ d_addrs d)) E.
Proof.
  intros G LL HE. apply (settle_address_spec (λ prefix, bool_decide (prefix = wanted) || negb (IsLinkLocalUnicast (Prefix_Addr prefix)))); try done.
  - by left.
  - by rewrite bool_decide_eq_true_2.
  - intros q Eq N. by rewrite bool_decide_eq_false_2, Eq, LL.
Qed.
Lemma reconcileLoopbackAddresses_spec l s0 d0 wanted (E : error → kstate → Prop) : host_prefix6 wanted →
  IsLinkLocalUnicast (Prefix_Addr wanted) = false → (∀ e s, touch (ln_Index l) s0 s → kernel_error e → E e s) →
  sspec (at_device (ln_Index l) s0 (λ d, d = d0)) (reconcileLoopbackAddresses l wanted)
    (λ _, at_device (ln_Index l) s0 (λ d, d_link d = d_link d0 ∧ d_wg d = d_wg d0 ∧ prefixIPNet wanted ∈ d_addrs d)) E.
Proof.
  intros G LL HE. apply (settle_address_spec (λ prefix, bool_decide (prefix = wanted) || IsLinkLocalUnicast (Prefix_Addr prefix))); try done.
  - by right.
  - by rewrite bool_decide_eq_true_2.
  - intros q Eq N. by rewrite bool_decide_eq_false_2, Eq, LL.
Qed.

(** ** Interfaces of one's own *)

(** The device [i] was not there, or it was Velvet's and had the name. *)
Definition mine name s0 i : Prop := ∀ d, devices s0 !! i = Some d → owned (d_link d) = true ∧ ln_Name (d_link d) = name.
(** Whatever happened, it happened to such a device. *)
Definition limited name s0 s : Prop := ∃ i, mine name s0 i ∧ touch i s0 s.

Definition is_device (name ty owner : string) (l : NLink) (d : device) : Prop :=
  d_link d = l ∧ ln_Name l = name ∧ ln_Type l = ty ∧ ln_Alias l = owner.

(** A lookup by name in a state where the device [i] has it. *)
Lemma lookup_own name i s0 (P : device → Prop) (E : error → kstate → Prop) :
  (∀ d, P d → ln_Name (d_link d) = name) → (∀ e s, touch i s0 s → kernel_error e → E e s) →
  sspec (at_device i s0 P) (LinkByName name) (λ o, at_device i s0 (λ d, P d ∧ o = Some (d_link d) ∧ ln_Index (d_link d) = i)) E.
Proof.
  intros HP HE. apply sspec_wf. eapply sspec_reads; [apply LinkByName_law| |intros s e [[T _] _] K; by apply HE].
  intros s o [[T (d & Hd & Pd)] [Wi Wn]] R. split; [done|]. exists d. split; [done|]. split; [done|].
  pose proof (Wi _ _ Hd) as Ii. split; [|done]. destruct o as [l|].
  - destruct R as (En & e & He & El). assert (ln_Index l = i) as Ei.
    { apply (Wn _ _ e d He Hd). rewrite El, En. symmetry. by apply HP. }
    rewrite Ei in He. congruence.
  - destruct (R i d Hd). by apply HP.
Qed.

Lemma setLinkAlias_spec name ty owner l s0 (E : error → kstate → Prop) :
  (∀ e s, touch (ln_Index l) s0 s → E e s) → ln_Name l = name → ln_Type l = ty →
  sspec (at_device (ln_Index l) s0 (λ d, d_link d = l)) (setLinkAlias l owner)
    (λ l' s, ln_Index l' = ln_Index l ∧ at_device (ln_Index l) s0 (is_device name ty owner l') s) E.
Proof.
  intros HE En Et. unfold setLinkAlias. case_bool_decide as Ea.
  - apply sspec_ret. intros s A. split; [done|]. eapply at_device_weaken; [done|]. intros d Ed. by split_and!.
  - eapply (sspec_bind _ _ (λ _, at_device (ln_Index l) s0 (λ d, d_link d = set_alias owner l))).
    + eapply device_acts; [apply LinkSetAlias_law| |by auto]. intros d d' Ed ->. cbn. by rewrite Ed.
    + intros _u. eapply sspec_bind.
      * eapply (lookup_own (ln_Name l)); [|by auto]. intros d Ed. by rewrite Ed.
      * intros [l'|]; [apply sspec_ret|apply sspec_err].
        -- intros s A. assert (El : l' = set_alias owner l).
           { destruct A as [_ (d & _ & Ed & [= El] & _)]. congruence. }
           rewrite El. split; [done|]. eapply at_device_weaken; [exact A|]. intros d (Ed & _ & _). by split_and!.
        -- intros s [_ (d & _ & _ & X & _)]. done.
Qed.

Lemma ensureOwnedLink_spec name owner ty s0 :
  sspec (λ s, s = s0) (ensureOwnedLink name owner ty)
    (λ l s, mine name s0 (ln_Index l) ∧ at_device (ln_Index l) s0 (is_device name ty owner l) s)
    (λ e s, (s = s0 ∨ limited name s0 s)).
Proof.
  unfold ensureOwnedLink. apply (sspec_bind _ _ (λ x s, at_device (ln_Index x.1) s0 (λ d, d_link d = x.1) s ∧
    ln_Name x.1 = name ∧ ln_Type x.1 = ty ∧ (x.2 = true → mine name s0 (ln_Index x.1)) ∧
    (x.2 = false → s = s0 ∧ ∃ d, devices s0 !! ln_Index x.1 = Some d ∧ d_link d = x.1))).
  - unfold ensureLink. eapply sspec_bind.
    + eapply sspec_reads; [apply (LinkByName_law name)|intros s o P R; exact (conj P R)|by left].
    + intros [l|].
      * case_bool_decide as Et; [apply sspec_ret|apply sspec_err; intros s [-> _]; by left].
        intros s [-> (En & d & Hd & Ed)]. split_and!; [|done|done|done|]; [split; [apply touch_refl|]; by exists d|].
        intros _. split; [done|]. by exists d.
      * apply sspec_wf. apply (sspec_bind _ _ (λ _ s, ∃ i, devices s0 !! i = None ∧ at_device i s0 (λ d, d_link d = mkNLink i name ty "" false) s)).
        { eapply sspec_acts; [apply LinkAdd_law| |intros s e [[-> _] _] _; by left].
          intros s s' [[-> N] _] (i & d & Hn & Ed & Ei & O) _. exists i. split; [done|]. split.
          - split; [|done]. intros j Nj. by rewrite Ed, lookup_insert_ne.
          - exists d. rewrite Ed, lookup_insert_eq. by split. }
        intros _u. apply sspec_from. intros s1 (i & Hn & A). assert (M : mine name s0 i) by (intros d Hd; congruence).
        eapply sspec_bind.
        { eapply sspec_weaken; [eapply (lookup_own name i s0)|intros s ->; exact A|intros o s X; exact X|intros e s X; exact X].
          - intros d ->. done.
          - intros e s T _. right. by exists i. }
        intros [l|]; [apply sspec_ret|apply sspec_err; by intros s [_ (d & _ & _ & X & _)]].
        intros s [T (d & Hd & Ed & [= El] & Ii)]. subst l. rewrite Ed in *. cbn [ln_Index fst snd] in *. split_and!; [|done|done|by intros|done].
        split; [done|]. by exists d.
  - intros [l created]. cbn [fst snd]. destruct (negb created && negb (HasPrefix (ln_Alias l) ownerPrefix)) eqn:C.
    + apply sspec_err. apply andb_true_iff in C as [C1%negb_true_iff _]. intros s (_ & _ & _ & _ & O). left. by destruct (O C1).
    + apply sspec_from. intros s1 (A & En & Et & Mc & O). assert (M : mine name s0 (ln_Index l)).
      { destruct created; [by apply Mc|]. cbn in C. apply negb_false_iff in C. destruct (O eq_refl) as (_ & d & Hd & Ed).
        intros d' Hd'. assert (d' = d) as -> by congruence. unfold owned. by rewrite Ed. }
      eapply sspec_weaken; [apply (setLinkAlias_spec name ty owner l s0 (λ _ s, s = s0 ∨ limited name s0 s))|by intros s ->| |done].
      * intros e s T. right. by exists (ln_Index l).
      * done.
      * done.
      * cbv beta. intros l' s [Ei A']. by rewrite Ei.
Qed.

(** ** Endpoints *)

Lemma answer_spec (P : kstate → Prop) (m : sys W bool) (Q : bool → kstate → Prop) E :
  sspec P m Q (λ _ s, Q false s) → sspec P (answer m) Q E.
Proof. intros X w Hw. unfold answer. specialize (X w Hw). by destruct (m w) as [[a|e|] w']. Qed.
Lemma matching_endpoint_spec (P : kstate → Prop) current index endpoints E :
  sspec P (matching_endpoint current index endpoints)
    (λ m s, P s ∧ ∀ n, m = Some n → (index <= n < index + length endpoints)%nat) E.
Proof.
  revert index. induction endpoints as [|raw endpoints IH]; intros index; cbn [matching_endpoint].
  - by apply sspec_ret.
  - apply (sspec_bind _ _ (λ _, P)).
    + apply answer_spec. apply (sspec_bind _ _ (λ _, P)); [|intros r; by apply sspec_ret].
      eapply sspec_reads; [apply ResolveUDPAddr_law|by intros|by intros].
    + intros [|]; [apply sspec_ret; intros s Ps; split; [done|]; intros n [= <-]; cbn; lia|].
      eapply sspec_post; [apply (IH (S index))|intros m s [Ps X]; split; [done|]; intros n En; specialize (X n En); cbn; lia|done].
Qed.
Lemma next_attempt_bound now desired peer a change : lk_Endpoints desired ≠ [] →
  (at_index a < length (lk_Endpoints desired))%nat →
  (at_index (next_attempt now desired peer a change).1 < length (lk_Endpoints desired))%nat.
Proof.
  intros Ne Ha. unfold next_attempt. set (b := match peer with Some p => _ | None => a end).
  assert (Eb : at_index b = at_index a) by (subst b; destruct peer as [p|]; [by destruct (after _ _)|done]).
  destruct (_ && _); cbn [fst at_index]; [|by rewrite Eb]. apply Nat.mod_upper_bound.
  by destruct (lk_Endpoints desired).
Qed.
(** The chosen endpoint exists. *)
Lemma endpointChoice_spec (P : kstate → Prop) now desired current E :
  sspec P (endpointChoice now desired current)
    (λ x s, P s ∧ (x.2 = true → (x.1 < length (lk_Endpoints desired))%nat)) E.
Proof.
  unfold endpointChoice. case_bool_decide as Ne; [by apply sspec_ret|].
  assert (Pos : (0 < length (lk_Endpoints desired))%nat) by (destruct (lk_Endpoints desired); [done|cbn; lia]).
  apply (sspec_bind _ _ (λ _, P)).
  { intros w Hw. destruct (get_attempt_law (InterfaceName desired) w) as (a & w' & -> & Ev). by rewrite Ev. }
  intros previous. apply (sspec_bind _ _ (λ x s, P s ∧ (at_index x.1 < length (lk_Endpoints desired))%nat)).
  - unfold started_attempt.
    assert (Fr : sspec P (fresh_attempt now desired (own_peer desired current)) (λ x s, P s ∧ (at_index x.1 < length (lk_Endpoints desired))%nat) E).
    { unfold fresh_attempt. destruct (_ ≫= _) as [[p u]|]; [|by apply sspec_ret]. eapply sspec_bind; [apply matching_endpoint_spec|].
      intros [n|]; apply sspec_ret; intros s [Ps X]; (split; [done|]); cbn; [|done]. specialize (X n eq_refl). lia. }
    destruct previous as [a|]; [|exact Fr]. destruct (_ <? _)%nat eqn:L; [|exact Fr]. apply Nat.ltb_lt in L. by apply sspec_ret.
  - intros [a change]. apply sspec_pure. cbn [fst snd]. intros Ha.
    pose proof (next_attempt_bound now desired (own_peer desired current) a change Ne Ha) as Hn.
    destruct (next_attempt now desired (own_peer desired current) a change) as [b change']. cbn [fst] in Hn.
    apply (sspec_bind _ _ (λ _, P)); [|intros _u; by apply sspec_ret].
    intros w Hw. destruct (set_attempt_law (InterfaceName desired) b w) as (w' & -> & Ev). by rewrite Ev.
Qed.

(** ** WireGuard *)

Record wg_ok (plan : LinkPlan) (g : WGDevice) : Prop := {
  wo_key : wd_PublicKey g = Key_PublicKey (lk_PrivateKey plan);
  wo_port : ListenPort plan ≠ 0 → wd_ListenPort g = ListenPort plan;
  wo_peer : ∃ p, wd_Peers g = [p] ∧ wp_PublicKey p = PeerPublicKey plan ∧ wp_PresharedKey p = PresharedKey plan ∧
    ∀ k, Keepalive plan = Some k → wp_Keepalive p = k
}.
Lemma remove_peers ps qs : foldl configure_peer ps (map (λ p, mkPeerConfig (wp_PublicKey p) true false None None None false []) qs) =
  filter (λ p, wp_PublicKey p ∉ map wp_PublicKey qs) ps.
Proof.
  revert ps. induction qs as [|q qs IH]; intros ps; cbn [map foldl].
  - symmetry. induction ps as [|p ps IH]; [done|]. rewrite filter_cons, decide_True by apply not_elem_of_nil. by f_equal.
  - rewrite IH. cbn. rewrite list_filter_filter. apply list_filter_iff. intros p. rewrite elem_of_cons. tauto.
Qed.
Lemma only_key ps key : NoDup (map wp_PublicKey ps) → filter (λ p, wp_PublicKey p = key) ps = [] ∨
  ∃ p, filter (λ p, wp_PublicKey p = key) ps = [p] ∧ wp_PublicKey p = key.
Proof.
  intros N. induction ps as [|p ps IH]; [by left|]. cbn in N. apply NoDup_cons in N as [Np N]. rewrite filter_cons. case_decide as E; [|auto].
  right. exists p. split; [|done]. f_equal. destruct (IH N) as [->|(q & Eq & Kq)]; [done|].
  destruct Np. rewrite E, <- Kq. apply list_elem_of_fmap. exists q. split; [done|].
  apply (list_elem_of_filter (λ p, wp_PublicKey p = key)). rewrite Eq. by left.
Qed.
Lemma filter_in {A} (P Q : A → Prop) `{!∀ x, Decision (P x), !∀ x, Decision (Q x)} (l : list A) :
  (∀ x, x ∈ l → P x ↔ Q x) → filter P l = filter Q l.
Proof.
  induction l as [|x l IH]; intros X; [done|]. rewrite !filter_cons. rewrite IH by (intros y Hy; apply X; by right).
  assert (P x ↔ Q x) by (apply X; by left). by repeat case_decide; try tauto.
Qed.
Lemma left_over ps key : filter (λ p, wp_PublicKey p ∉ map wp_PublicKey (filter (λ p, wp_PublicKey p ≠ key) ps)) ps =
  filter (λ p, wp_PublicKey p = key) ps.
Proof.
  apply filter_in. intros p Hp. rewrite list_elem_of_fmap. split.
  - intros X. destruct (decide (wp_PublicKey p = key)) as [|N]; [done|]. destruct X. exists p. split; [done|]. by apply list_elem_of_filter.
  - intros E (q & Eq & [Nq _]%list_elem_of_filter). congruence.
Qed.
Lemma one_peer ps key c : NoDup (map wp_PublicKey ps) → pc_PublicKey c = key → pc_Remove c = false → pc_UpdateOnly c = false →
  ∃ p, foldl configure_peer ps (stalePeerRemovals ps key ++ [c]) = [p] ∧ wp_PublicKey p = key ∧
    (∀ k, pc_PresharedKey c = Some k → wp_PresharedKey p = k) ∧ ∀ k, pc_Keepalive c = Some k → wp_Keepalive p = k.
Proof.
  intros N Ek Er Eu. rewrite foldl_app. unfold stalePeerRemovals. rewrite remove_peers, left_over. cbn [foldl].
  unfold configure_peer. rewrite Er, Eu, Ek. destruct (only_key ps key N) as [->|(p & -> & Kp)]; cbn [map].
  - rewrite bool_decide_eq_false_2 by apply not_elem_of_nil. eexists. split; [reflexivity|]. cbn.
    split_and!; [done|..]; by intros k ->.
  - rewrite Kp, bool_decide_eq_true_2 by by left. rewrite bool_decide_eq_true_2 by done.
    eexists. split; [reflexivity|]. cbn. split_and!; [done|..]; by intros k ->.
Qed.

Definition wf_peers s : Prop := ∀ i d, devices s !! i = Some d → NoDup (map wp_PublicKey (wd_Peers (d_wg d))).
Lemma sspec_peers {A} P (m : sys W A) Q E :
  sspec (λ s, P s ∧ wf_devices s ∧ wf_peers s) m Q E → sspec P m Q E.
Proof. intros X w Hw. apply X. split_and!; [done|apply view_wf|exact (view_peers w)]. Qed.

(** The WireGuard state of the device [i], by its name. *)
Lemma wg_Device_own name i s0 (P : device → Prop) (E : error → kstate → Prop) :
  (∀ d, P d → ln_Name (d_link d) = name) → (∀ e s, touch i s0 s → kernel_error e → E e s) →
  sspec (at_device i s0 P) (wg_Device name)
    (λ g, at_device i s0 (λ d, P d ∧ d_wg d = g ∧ NoDup (map wp_PublicKey (wd_Peers g)))) E.
Proof.
  intros HP HE. apply sspec_peers. eapply sspec_reads; [apply wg_Device_law| |intros s e [[T _] _] K; by apply HE].
  intros s g [[T (d & Hd & Pd)] [[Wi Wn] Wp]] (j & e & He & En & <-). split; [done|]. exists d. split; [done|]. split; [done|].
  assert (j = i) as ->. { apply (Wn _ _ e d He Hd). rewrite En. symmetry. by apply HP. }
  assert (e = d) as -> by congruence. split; [done|]. by apply (Wp i).
Qed.
Lemma ConfigureDevice_own name c i s0 (P Q : device → Prop) (E : error → kstate → Prop) :
  (∀ d, P d → ln_Name (d_link d) = name) → (∀ e s, touch i s0 s → kernel_error e → E e s) →
  (∀ d d', P d → d_link d' = d_link d → d_addrs d' = d_addrs d → configured Key_PublicKey c (d_wg d) (d_wg d') → Q d') →
  sspec (at_device i s0 P) (ConfigureDevice name c) (λ _, at_device i s0 Q) E.
Proof.
  intros HP HE HQ. apply sspec_wf. eapply sspec_acts; [apply ConfigureDevice_law| |intros s e [[T _] _] K; by apply HE].
  intros s s' [A [Wi Wn]] (j & D) _. assert (j = i) as ->.
  { destruct A as [_ (d & Hd & Pd)], D as (e & e' & He & _ & (En & _) & _). apply (Wn _ _ e d He Hd). rewrite En. symmetry. by apply HP. }
  eapply at_device_weaken; [by eapply at_device_step|]. intros d' (d & Pd & _ & E1 & E2 & C). by eapply HQ.
Qed.

(** A plan that a device can carry out: the bootstrap address is a link-local
    host, and the peer is somebody else. *)
Record sound_link (plan : LinkPlan) : Prop := {
  sl_host : host_prefix6 (BootstrapAddress plan);
  sl_local : IsLinkLocalUnicast (Prefix_Addr (BootstrapAddress plan)) = true;
  sl_peer : PeerPublicKey plan ≠ Key_PublicKey (lk_PrivateKey plan)
}.
(** The device as [verifyBootstrapLink] wants it. *)
Definition link_set (plan : LinkPlan) (d : device) : Prop :=
  ln_Name (d_link d) = InterfaceName plan ∧ ln_Type (d_link d) = "wireguard"%string ∧ ln_Alias (d_link d) = OwnerAlias plan ∧
  (WaitingPort plan = false → ln_Up (d_link d) = true ∧ prefixIPNet (BootstrapAddress plan) ∈ d_addrs d ∧ wg_ok plan (d_wg d)).

Lemma applied_peers plan ps endpoint listen priv g g' :
  NoDup (map wp_PublicKey ps) → wd_Peers g = ps → priv = lk_PrivateKey plan → sound_link plan →
  (ListenPort plan ≠ 0 → listen = ListenPort plan) →
  configured Key_PublicKey (mkWGConfig (Some priv) (Some listen) (stalePeerRemovals ps (PeerPublicKey plan) ++
    [mkPeerConfig (PeerPublicKey plan) false false (Some (PresharedKey plan)) endpoint (Keepalive plan) true defaultAllowedIPs])) g g' →
  wg_ok plan g'.
Proof.
  intros N Eg -> S L [C1 C2 C3]. cbn [wc_PrivateKey wc_ListenPort wc_Peers] in *. rewrite Eg in C3.
  edestruct (one_peer ps (PeerPublicKey plan)) as (p & Ep & K1 & K2 & K3); [exact N| | | |rewrite Ep in C3]; [done..|]. cbn in K2, K3.
  split; [done|intros Np; rewrite <- L by done; apply C2; by rewrite L|]. exists p. split_and!; [|done|by apply K2|done].
  symmetry. apply Permutation_singleton_l. symmetry. apply C3. intros q ->%list_elem_of_singleton. rewrite K1, C1. apply S.
Qed.

Lemma bootstrap_link_spec now plan s0 : sound_link plan →
  sspec (λ s, s = s0) (applyBootstrapLink now plan)
    (λ _ s, ∃ i, mine (InterfaceName plan) s0 i ∧ at_device i s0 (link_set plan) s) (λ e s, s = s0 ∨ limited (InterfaceName plan) s0 s).
Proof.
  intros S. unfold applyBootstrapLink. eapply sspec_bind; [apply ensureOwnedLink_spec|]. intros l.
  apply sspec_from. intros s1 (M & T1 & d1 & Hd1 & El & En & Et & Ea). set (E := λ (_ : error) s, s = s0 ∨ limited (InterfaceName plan) s0 s).
  assert (HE : ∀ e s, touch (ln_Index l) s0 s → E e s) by (intros e s T; right; by exists (ln_Index l)).
  assert (HK : ∀ e s, touch (ln_Index l) s0 s → kernel_error e → E e s) by auto. clear HE.
  eapply (sspec_bind _ _ (λ _, at_device (ln_Index l) s0 (λ d, d_link d = d_link d1 ∧ d_wg d = d_wg d1 ∧ prefixIPNet (BootstrapAddress plan) ∈ d_addrs d))).
  { eapply sspec_weaken; [eapply (reconcileBootstrapAddress_spec l s0 d1 _ E); [apply S|apply S|exact HK]|intros s ->|done|done].
    split; [done|]. by exists d1. }
  intros _u. destruct (WaitingPort plan) eqn:Wp.
  - eapply sspec_post; [|intros a s X; exists (ln_Index l); split; [exact M|exact X]|done].
    eapply device_acts; [apply LinkSetDown_law| |exact HK]. intros d d' (D1 & _) (R & _). unfold link_set. rewrite R, D1, El, Wp. done.
  - set (G := λ d, d_link d = set_up true (d_link d1) ∧ prefixIPNet (BootstrapAddress plan) ∈ d_addrs d).
    assert (GN : ∀ d, G d → ln_Name (d_link d) = InterfaceName plan) by (intros d [-> _]; cbn; by rewrite El).
    eapply (sspec_bind _ _ (λ _, at_device (ln_Index l) s0 G)).
    { eapply device_acts; [apply LinkSetUp_law| |exact HK]. intros d d' (D1 & _ & D3) (R1 & R2 & _). split; [by rewrite R1, D1|auto]. }
    intros _v. eapply sspec_bind; [eapply (wg_Device_own (InterfaceName plan)); [exact GN|exact HK]|]. intros current. cbv beta.
    eapply sspec_bind; [apply endpointChoice_spec|]. intros [index change]. apply sspec_pure. cbn [fst snd]. intros Hi.
    eapply (sspec_bind _ _ (λ _, at_device (ln_Index l) s0 (λ d, G d ∧ d_wg d = current ∧ NoDup (map wp_PublicKey (wd_Peers current))))).
    { destruct change; [|by apply sspec_ret]. destruct (lookup_lt_is_Some_2 _ _ (Hi eq_refl)) as [raw ->].
      eapply sspec_bind; [eapply device_reads; [apply ResolveUDPAddr_law|exact HK]|]. intros r. apply sspec_ret. by intros s [X _]. }
    intros endpoint. eapply sspec_post; [|intros a s X; exists (ln_Index l); split; [exact M|exact X]|done].
    eapply ConfigureDevice_own; [|exact HK|]; [intros d [Gd _]; by apply GN|].
    intros d d' ((D1 & D2) & D3 & N) L1 L2 C. unfold link_set. rewrite L1, L2, D1. cbn. rewrite El. split_and!; [done..|].
    intros _w. split_and!; [done..|]. rewrite D3 in C. eapply applied_peers; [exact N|reflexivity|reflexivity|done| |exact C].
    intros Np. apply Z.eqb_neq in Np. by rewrite Np.
Qed.
End Procedures.
