(* ===== verification/Untouched.v ===== *)
(** The interfaces of others: whatever the backend does, and wherever it fails, an
    interface whose alias is not Velvet's stays as it is. *)

From S2P Require Import Prelude Netip NetipText Ports Spec Link Desired Netlink Routes RoutesProps Backend BackendProps.
From stdpp Require Import gmap strings.
Open Scope Z_scope.
Open Scope velvet_scope.

(** * Invariants of a procedure *)

Section Steady.
Context {W : Type} `{KernelLaws W}.
Implicit Types (I : kstate → Prop) (s : kstate).
(** [I] holds after [m] if it held before, also when [m] fails; and [m] does not panic. *)
Definition steady {A} I (m : sys W A) : Prop := sspec I m (λ _, I) (λ _, I).

Lemma steady_ret {A} I (a : A) : steady I (mret a).
Proof. by apply sspec_ret. Qed.
Lemma steady_err {A} I t : steady I (sys_err t : sys W A).
Proof. by apply sspec_err. Qed.
Lemma steady_bind {A B} I (m : sys W A) (f : A → sys W B) : steady I m → (∀ a, steady I (f a)) → steady I (m ≫= f).
Proof. intros X Y. eapply sspec_bind; [exact X|exact Y]. Qed.
Lemma steady_each {A} I (f : A → sys W unit) l : (∀ x, x ∈ l → steady I (f x)) → steady I (each f l).
Proof. intros X. apply (sspec_each (λ _, I)). intros l1 x l2 ->. apply X. apply elem_of_app. right. by left. Qed.
Lemma steady_when I b (m : sys W unit) : (b = true → steady I m) → steady I (when_ b m).
Proof. intros X. apply sspec_when; [exact X|done]. Qed.
Lemma steady_answer I (m : sys W bool) : steady I m → steady I (answer m).
Proof. intros X w Hw. unfold answer. specialize (X w Hw). by destruct (m w) as [[a|e|] w']. Qed.
Lemma steady_reads {A} I (m : sys W A) R : reads view m R → steady I m.
Proof. intros X. by eapply sspec_reads. Qed.
Lemma steady_writes I (m : sys W unit) R : writes view m R → (∀ s s', I s → R s s' → I s') → (∀ s, I s → I (bump s)) → steady I m.
Proof. intros X HR HB. eapply sspec_writes; [exact X| |]; eauto. Qed.
Lemma steady_acts I (m : sys W unit) R : acts view m R → (∀ s s', I s → R s s' → I s') → steady I m.
Proof. intros X HR. eapply sspec_acts; [exact X| |]; eauto. Qed.
Lemma steady_run {A} I (m : sys W A) w r w' : steady I m → I (view w) → m w = (r, w') → r ≠ Panic ∧ I (view w').
Proof. intros X Hw Em. specialize (X w Hw). rewrite Em in X. by destruct r. Qed.
(** With what a call returned. *)
Lemma steady_with {A B} I Q (m : sys W A) (f : A → sys W B) :
  sspec I m (λ a s, I s ∧ Q a) (λ _, I) → (∀ a, Q a → steady I (f a)) → steady I (m ≫= f).
Proof. intros X Y. eapply sspec_bind; [exact X|]. intros a. apply sspec_pure. apply Y. Qed.
End Steady.
Create HintDb steady.
#[export] Hint Resolve steady_ret steady_err steady_bind steady_each steady_when steady_answer : steady.
(** The reads of the kernel, whatever the invariant. *)
#[export] Hint Extern 1 (steady _ (LinkByName _)) => eapply steady_reads, LinkByName_law : steady.
#[export] Hint Extern 1 (steady _ LinkList) => eapply steady_reads, LinkList_law : steady.
#[export] Hint Extern 1 (steady _ (AddrList _ _)) => eapply steady_reads, AddrList_law : steady.
#[export] Hint Extern 1 (steady _ (RouteListFiltered _ _)) => eapply steady_reads, RouteListFiltered_law : steady.
#[export] Hint Extern 1 (steady _ (RouteList _)) => eapply steady_reads, RouteList_law : steady.
#[export] Hint Extern 1 (steady _ (RuleList _)) => eapply steady_reads, RuleList_law : steady.
#[export] Hint Extern 1 (steady _ ctx_Err) => eapply steady_reads, ctx_Err_law : steady.
#[export] Hint Extern 1 (steady _ wgctrl_New) => eapply steady_reads, wgctrl_New_law : steady.
#[export] Hint Extern 1 (steady _ (wg_Device _)) => eapply steady_reads, wg_Device_law : steady.
#[export] Hint Extern 1 (steady _ (ResolveUDPAddr _)) => eapply steady_reads, ResolveUDPAddr_law : steady.
#[export] Hint Extern 1 (steady _ (ReadFile _)) => eapply steady_reads, ReadFile_law : steady.
(** Steps through a procedure as far as its structure goes. *)
Ltac steady_step :=
  lazymatch goal with
  | |- steady _ (mret _) => apply steady_ret
  | |- steady _ (sys_err _) => apply steady_err
  | |- steady _ (mbind _ (endpointChoice _ _ _)) => fail
  | |- steady _ (mbind _ _) => apply steady_bind; [|intros ?]
  | |- steady _ (when_ _ _) => apply steady_when; intros ?
  | |- steady _ (each _ _) => apply steady_each; intros ? ?
  | |- steady _ (answer _) => apply steady_answer
  | |- steady _ (if ?b then _ else _) => destruct b eqn:?
  | |- steady _ (match ?x with _ => _ end) => destruct x eqn:?
  | |- _ => solve [eauto 3 with steady]
  end.
Ltac steady := repeat steady_step.

(** * Interfaces of others *)

(** The interfaces of [s0] that are not Velvet's are in [s] as they were. *)
Definition keeps s0 s : Prop := ∀ i d, devices s0 !! i = Some d → owned (d_link d) = false → devices s !! i = Some d.
(** [i] was nobody else's. *)
Definition free s0 i : Prop := ∀ d, devices s0 !! i = Some d → owned (d_link d) = true.
Lemma keeps_refl s : keeps s s.
Proof. by intros i d. Qed.
Lemma keeps_trans s1 s2 s3 : keeps s1 s2 → keeps s2 s3 → keeps s1 s3.
Proof. intros X Y i d Hd F. apply Y; [by apply X|done]. Qed.
Lemma keeps_devices s0 s s' : keeps s0 s → devices s' = devices s → keeps s0 s'.
Proof. intros X E i d. rewrite E. apply X. Qed.
Lemma keeps_step s0 s s' i R : keeps s0 s → free s0 i → device_step i R s s' → keeps s0 s'.
Proof.
  intros X F (d & d' & Hd & Ed & _ & _) j e He Oe. rewrite Ed. rewrite lookup_insert_ne; [by apply X|].
  intros ->. by rewrite (F e He) in Oe.
Qed.
Lemma limited_keeps name s0 s : limited name s0 s → keeps s0 s.
Proof.
  intros (i & M & T & _) j d Hd Od. rewrite T; [done|]. intros ->. destruct (M d Hd) as [X _]. congruence.
Qed.
Lemma mine_free name s0 s i : keeps s0 s → mine name s i → free s0 i.
Proof.
  intros K M d Hd. destruct (owned (d_link d)) eqn:O; [done|]. destruct (M d (K i d Hd O)) as [X _]. congruence.
Qed.
(** A device that is there and Velvet's. *)
Lemma owned_free s0 s i d : keeps s0 s → devices s !! i = Some d → owned (d_link d) = true → free s0 i.
Proof.
  intros K Hd O e He. destruct (owned (d_link e)) eqn:Oe; [done|]. rewrite (K i e He Oe) in Hd. injection Hd as ->. congruence.
Qed.

(** Meanwhile the device [i], which is Velvet's, has the name. *)
Definition on_own i name s0 s : Prop := keeps s0 s ∧ ∃ d, devices s !! i = Some d ∧ ln_Name (d_link d) = name.
Lemma on_own_step i name s0 s s' R : free s0 i → (∀ d d', R d d' → ln_Name (d_link d') = ln_Name (d_link d)) →
  on_own i name s0 s → device_step i R s s' → on_own i name s0 s'.
Proof.
  intros F HR [K (d & Hd & En)] D. split; [by eapply keeps_step|]. destruct D as (e & e' & He & Ed & Re & _).
  exists e'. rewrite Ed, lookup_insert_eq. split; [done|]. rewrite (HR _ _ Re). by assert (e = d) as -> by congruence.
Qed.

Section Untouched.
Context {W : Type} `{AttemptsLaws W}.
Implicit Types (s : kstate).

(** ** Routes, rules and files *)

Section Devices.
Context (I : kstate → Prop) (HI : ∀ s s', I s → devices s' = devices s → I s').
Lemma RouteDel_steady r : steady I (RouteDel r).
Proof using HI. eapply steady_writes; [apply RouteDel_law|intros s s' X [[E _] _]; by eapply HI|intros s X; by eapply HI]. Qed.
Lemma RuleDel_steady u : steady I (RuleDel u).
Proof using HI. eapply steady_writes; [apply RuleDel_law|intros s s' X [[E _] _]; by eapply HI|intros s X; by eapply HI]. Qed.
Lemma WriteFile_steady path text : steady I (WriteFile path text).
Proof using HI. eapply steady_acts; [apply WriteFile_law|intros s s' X [E _]; by eapply HI]. Qed.
Lemma RouteReplace_steady r : steady I (RouteReplace r).
Proof using HI. eapply steady_writes; [apply RouteReplace_only|intros s s' X [E _]; by eapply HI|intros s X; by eapply HI]. Qed.
Lemma RuleAdd_steady u : steady I (RuleAdd u).
Proof using HI. eapply steady_writes; [apply RuleAdd_only|intros s s' X [E _]; by eapply HI|intros s X; by eapply HI]. Qed.
#[local] Hint Resolve RouteDel_steady RuleDel_steady RouteReplace_steady RuleAdd_steady WriteFile_steady : steady.

Lemma routesByProtocol_steady p : steady I (routesByProtocol p).
Proof using Type. unfold routesByProtocol. steady. Qed.
Lemma rulesByProtocol_steady p : steady I (rulesByProtocol p).
Proof using Type. unfold rulesByProtocol. steady. Qed.
#[local] Hint Resolve routesByProtocol_steady rulesByProtocol_steady : steady.
Lemma cleanupDisabledBabelState_steady : steady I cleanupDisabledBabelState.
Proof using HI. unfold cleanupDisabledBabelState. steady. Qed.
Lemma rejectForeignTableState_steady desired : steady I (rejectForeignTableState desired).
Proof using Type. unfold rejectForeignTableState, routesInTable. steady. Qed.
Lemma enableForwarding_steady : steady I enableForwarding.
Proof using HI. unfold enableForwarding. steady. Qed.
Lemma indices_of_steady names : steady I (indices_of names).
Proof using Type. induction names; cbn [indices_of]; steady. Qed.
Lemma cleanupLinkRoutes_steady desired names : steady I (cleanupLinkRoutes desired names).
Proof using HI. unfold cleanupLinkRoutes. steady. apply indices_of_steady. Qed.
Lemma retire_protocol_steady tables p : steady I (retire_protocol tables p).
Proof using HI. unfold retire_protocol. steady. Qed.
Lemma desiredNetlinkRoutes_steady desired : steady I (desiredNetlinkRoutes desired).
Proof using Type.
  unfold desiredNetlinkRoutes. induction (ds_Routes desired) as [|r rs IH]; cbn [desired_routes]; steady. unfold desiredNetlinkRoute. steady.
Qed.
#[local] Hint Resolve desiredNetlinkRoutes_steady : steady.
Lemma replaceStaticRoutes_steady wanted : steady I (replaceStaticRoutes wanted).
Proof using HI. unfold replaceStaticRoutes. steady. Qed.
Lemma reconcilePolicyRules_steady desired : steady I (reconcilePolicyRules desired).
Proof using HI. unfold reconcilePolicyRules. steady. Qed.
#[local] Hint Resolve replaceStaticRoutes_steady reconcilePolicyRules_steady : steady.
Lemma reconcileRoutesAndRules_steady desired : steady I (reconcileRoutesAndRules desired).
Proof using HI. unfold reconcileRoutesAndRules, deleteStaleStaticRoutes. steady. Qed.
Lemma materialize_routes_steady index wanted : steady I (materialize_routes index wanted).
Proof using HI. unfold materialize_routes. steady. Qed.
Lemma deleteLegacyMainPeerRoutes_steady index pool wanted : steady I (deleteLegacyMainPeerRoutes index pool wanted).
Proof using HI. unfold deleteLegacyMainPeerRoutes. steady. Qed.
End Devices.

(** ** One interface *)

Section Own.
Context (s0 : kstate) (i : Z) (name : string) (F : free s0 i).
Notation own := (on_own i name s0).
Lemma own_acts R (m : sys W unit) : acts view m (device_step i R) → (∀ d d', R d d' → ln_Name (d_link d') = ln_Name (d_link d)) → steady own m.
Proof using F. intros X HR. eapply steady_acts; [exact X|]. intros s s' O D. by eapply on_own_step. Qed.
Context (l : NLink) (El : ln_Index l = i).
Lemma AddrDel_own a : is_Some (prefixFromAddressIPNet a) → steady own (AddrDel l a).
Proof using F El. intros S. destruct a as [a|]; [|by destruct S]. eapply own_acts; [rewrite <- El; apply AddrDel_law|]. by intros d d' [-> _]. Qed.
Lemma AddrReplace_own a : steady own (AddrReplace l a).
Proof using F El. eapply own_acts; [rewrite <- El; apply AddrReplace_law|]. by intros d d' [-> _]. Qed.
Lemma LinkSetUp_own : steady own (LinkSetUp l).
Proof using F El. eapply own_acts; [rewrite <- El; apply LinkSetUp_law|]. by intros d d' [-> _]. Qed.
Lemma LinkSetDown_own : steady own (LinkSetDown l).
Proof using F El. eapply own_acts; [rewrite <- El; apply LinkSetDown_law|]. by intros d d' [-> _]. Qed.
Lemma ConfigureDevice_owned c : steady own (ConfigureDevice name c).
Proof using F.
  apply sspec_wf. eapply sspec_acts; [apply (ConfigureDevice_law name c)| |by intros s e [O _] _].
  intros s s' [O [Wi Wn]] (j & D) _. eapply on_own_step; [exact F| |exact O|]; [|].
  2:{ assert (j = i) as ->; [|exact D]. destruct O as [_ (d & Hd & En)], D as (e & e' & He & _ & (Ee & _) & _). apply (Wn _ _ e d He Hd). congruence. }
  by intros d d' (_ & -> & _).
Qed.
#[local] Hint Resolve AddrReplace_own LinkSetUp_own LinkSetDown_own ConfigureDevice_owned : steady.
#[local] Hint Extern 1 (steady _ (AddrDel _ _)) => apply AddrDel_own; by eexists : steady.
Lemma reconcileBootstrapAddress_own p : steady own (reconcileBootstrapAddress l p).
Proof using F El. unfold reconcileBootstrapAddress. steady. Qed.
Lemma reconcileLoopbackAddresses_own p : steady own (reconcileLoopbackAddresses l p).
Proof using F El. unfold reconcileLoopbackAddresses. steady. Qed.
Lemma reconcileMaterializedAddresses_own p ps : steady own (reconcileMaterializedAddresses l p ps).
Proof using F El. unfold reconcileMaterializedAddresses. steady. Qed.
End Own.

(** ** The procedures *)

Context (s0 : kstate).
Notation kept := (keeps s0).
Lemma kept_devices s s' : kept s → devices s' = devices s → kept s'.
Proof. apply keeps_devices. Qed.
Lemma own_devices i name s s' : on_own i name s0 s → devices s' = devices s → on_own i name s0 s'.
Proof using Type. intros [K (d & Hd & En)] E. split; [by eapply keeps_devices|]. exists d. by rewrite E. Qed.
#[local] Hint Resolve kept_devices own_devices : core.

(** What is done to an owned interface. *)
Lemma own_then name owner ty (f : NLink → sys W unit) :
  (∀ l, free s0 (ln_Index l) → steady (on_own (ln_Index l) name s0) (f l)) →
  steady kept (l ← ensureOwnedLink name owner ty; f l).
Proof.
  intros X. apply sspec_from. intros s1 K. eapply sspec_bind.
  - eapply sspec_post; [apply ensureOwnedLink_spec|intros l s Q; exact Q|].
    intros e s [->|L]; [done|]. eapply keeps_trans; [exact K|by eapply limited_keeps].
  - intros l. apply sspec_from. intros s2 (M & T & d & Hd & El & En & Et & Ea). pose proof (mine_free _ _ _ _ K M) as F.
    eapply sspec_weaken; [apply (X l F)|intros s ->|by intros a s [? _]|by intros e s [? _]]. split; [|exists d; by rewrite El].
    eapply keeps_trans; [exact K|]. eapply limited_keeps. by exists (ln_Index l).
Qed.
(** What is done to a link that bears its own alias. *)
Lemma owned_then name owner (f : NLink → sys W unit) : HasPrefix owner ownerPrefix = true →
  (∀ l, free s0 (ln_Index l) → steady (on_own (ln_Index l) name s0) (f l)) →
  steady kept (found ← LinkByName name;
    match found with
    | None => sys_err "not found"
    | Some l => if negb (isExactlyOwnedWireGuardInterface l owner) then sys_err "interface is not owned by Link" else f l
    end).
Proof.
  intros P X. eapply sspec_bind; [eapply sspec_reads; [apply LinkByName_law|intros s o K R; exact (conj K R)|done]|].
  intros [l|]; [|by apply sspec_err; intros s [? _]]. destruct (isExactlyOwnedWireGuardInterface l owner) eqn:Ex; cbn [negb]; [|by apply sspec_err; intros s [? _]].
  apply sspec_from. intros s2 (K & En & d & Hd & El). unfold isExactlyOwnedWireGuardInterface in Ex. apply andb_true_iff in Ex as [_ Ea].
  apply bool_decide_eq_true in Ea. assert (O : owned (d_link d) = true) by (unfold owned; by rewrite El, Ea).
  eapply sspec_weaken; [apply (X l (owned_free _ _ _ _ K Hd O))|intros s ->|by intros a s [? _]|by intros e s [? _]].
  split; [done|]. exists d. by rewrite El.
Qed.

#[local] Hint Resolve reconcileBootstrapAddress_own reconcileLoopbackAddresses_own reconcileMaterializedAddresses_own : steady.
#[local] Hint Resolve LinkSetUp_own LinkSetDown_own ConfigureDevice_owned : steady.
Lemma endpointChoice_steady I now desired current :
  sspec I (endpointChoice now desired current) (λ x s, I s ∧ (x.2 = true → (x.1 < length (lk_Endpoints desired))%nat)) (λ _, I).
Proof. apply endpointChoice_spec. Qed.
Lemma applyBootstrapLink_steady now plan : steady kept (applyBootstrapLink now plan).
Proof.
  apply own_then. intros l F. steady.
  eapply steady_with; [apply endpointChoice_steady|]. intros [index change]. cbn [fst snd]. intros Hi. steady.
  destruct (lookup_lt_is_Some_2 _ _ (Hi eq_refl)). congruence.
Qed.
Lemma reconcileNodeLoopback_steady desired : steady kept (reconcileNodeLoopback desired).
Proof. apply own_then. intros l F. steady. Qed.

(** The listed links that a test admits are free, if it admits only Velvet's. *)
Lemma links_free (test : NLink → bool) : (∀ l, test l = true → owned l = true) →
  sspec kept LinkList (λ links s, kept s ∧ ∀ l, l ∈ links → test l = true → free s0 (ln_Index l)) (λ _, kept).
Proof.
  intros T. apply sspec_wf. eapply sspec_reads; [apply LinkList_law| |by intros s e [? _]]. intros s links [K [Wi _]] R. split; [done|].
  intros l (i & d & Hd & <-)%R Tl. rewrite (Wi i d Hd). eapply owned_free; [exact K|exact Hd|by apply T].
Qed.
Lemma LinkDel_steady l : free s0 (ln_Index l) → steady kept (LinkDel l).
Proof.
  intros F. eapply steady_acts; [apply LinkDel_law|]. intros s s' K [Ed _] i d Hd O. rewrite Ed.
  rewrite lookup_delete_ne; [by apply K|]. intros E. rewrite <- E in Hd. by rewrite (F d Hd) in O.
Qed.
#[local] Hint Resolve LinkDel_steady : steady.
Lemma cleanupStaleLinks_steady names : steady kept (cleanupStaleLinks names).
Proof.
  eapply steady_with; [apply (links_free (stale_link names)); by intros l [? _]%andb_true_iff|]. intros links F. steady.
Qed.

#[local] Hint Resolve cleanupDisabledBabelState_steady rejectForeignTableState_steady enableForwarding_steady : steady.
#[local] Hint Resolve reconcileRoutesAndRules_steady cleanupLinkRoutes_steady replaceStaticRoutes_steady : steady.
#[local] Hint Resolve reconcilePolicyRules_steady desiredNetlinkRoutes_steady materialize_routes_steady : steady.
#[local] Hint Resolve deleteLegacyMainPeerRoutes_steady retire_protocol_steady : steady.
#[local] Hint Resolve reconcileNodeLoopback_steady cleanupStaleLinks_steady applyBootstrapLink_steady : steady.
Lemma Backend_Reconcile_steady euid now desired preserve : steady kept (Backend_Reconcile euid now desired preserve).
Proof. unfold Backend_Reconcile, retainOwnedLinkNames. steady. Qed.
Lemma PrepareRuntime_steady desired : steady kept (PrepareRuntime desired).
Proof. unfold PrepareRuntime. steady. Qed.

Lemma prefix_app a b t : String.prefix (a +:+ b) t = true → String.prefix a t = true.
Proof.
  revert t. induction a as [|c a IH]; intros t; [by destruct t|]. change (String c a +:+ b)%string with (String c (a +:+ b)).
  destruct t as [|d t]; cbn; [done|]. destruct (Ascii.ascii_dec c d); [apply IH|done].
Qed.
Lemma prefix_self a b : String.prefix a (a +:+ b) = true.
Proof.
  induction a as [|c a IH]; [by destruct b|]. change (String c a +:+ b)%string with (String c (a +:+ b)). cbn. by destruct (Ascii.ascii_dec c c).
Qed.
Lemma retired_owned node l : retired_link node l = true → owned l = true.
Proof.
  unfold retired_link, owned, HasPrefix. intros [[_ P]%andb_true_iff|[_ P]%andb_true_iff]%orb_true_iff.
  - change ("velvet:link:" +:+ node +:+ ":")%string with (ownerPrefix +:+ ("link:" +:+ node +:+ ":"))%string in P. by apply prefix_app in P.
  - apply bool_decide_eq_true in P. rewrite P. apply (prefix_self ownerPrefix).
Qed.
Lemma RetireInstance_steady parse print node tables : steady kept (RetireInstance parse print node tables).
Proof.
  unfold RetireInstance. destruct (parse node); [|apply steady_err]. case_match; [apply steady_err|].
  eapply steady_with; [apply (links_free (retired_link node)), retired_owned|]. intros links F. steady.
Qed.
Lemma Materialize_steady state plan local loopbacks : HasPrefix (OwnerAlias plan) ownerPrefix = true →
  steady kept (Materialize state plan local loopbacks).
Proof.
  intros P. unfold Materialize. apply steady_bind; [eauto with steady|]. intros _u. apply owned_then; [done|]. intros l F. steady.
Qed.
Lemma KeepLinkAlive_steady plan : HasPrefix (OwnerAlias plan) ownerPrefix = true → steady kept (KeepLinkAlive plan).
Proof.
  intros P. unfold KeepLinkAlive. apply steady_bind; [eauto with steady|]. intros _u. apply owned_then; [done|]. intros l F. steady.
Qed.
End Untouched.

(** * The property *)

(** The procedures of the backend that change interfaces. *)
Section Procedures.
Context {W : Type} `{AttemptsLaws W} (parse : string → option (list byte)) (print : list byte → string).
Inductive procedure : sys W unit → Prop :=
  | p_Reconcile euid now desired preserve : procedure (Backend_Reconcile euid now desired preserve)
  | p_PrepareRuntime desired : procedure (PrepareRuntime desired)
  | p_Retire node tables : procedure (RetireInstance parse print node tables)
  | p_Materialize state plan local loopbacks : HasPrefix (OwnerAlias plan) ownerPrefix = true →
      procedure (Materialize state plan local loopbacks)
  | p_KeepAlive plan : HasPrefix (OwnerAlias plan) ownerPrefix = true → procedure (KeepLinkAlive plan).

(** C33: Velvet leaves the interfaces of others alone. On a kernel that obeys
    [KernelLaws], whatever a pass of the reconciler, the preparation of a
    runtime, the retirement of an instance or, for a Link whose alias begins
    with "velvet:", its materialization or its keepalive does, on success and
    wherever it fails on the way, every interface whose alias does not begin
    with "velvet:" is there afterwards as it was: link, addresses and WireGuard
    state; and none of these procedures panics, neither at the endpoint that is
    chosen by index nor at an address without a network. *)
Theorem foreign_untouched m w r w1 : procedure m → m w = (r, w1) →
  r ≠ Panic ∧ ∀ i d, devices (view w) !! i = Some d → owned (d_link d) = false → devices (view w1) !! i = Some d.
Proof.
  intros P E. eapply (steady_run (keeps (view w))); [|apply keeps_refl|exact E]. destruct P.
  - apply Backend_Reconcile_steady.
  - apply PrepareRuntime_steady.
  - apply RetireInstance_steady.
  - by apply Materialize_steady.
  - by apply KeepLinkAlive_steady.
Qed.
End Procedures.
