(* ===== verification/Reconciled.v ===== *)
(** The node's interfaces after a pass of the reconciler: the loopback and every
    Link stand as they were planned, and the verification that follows a pass
    finds no fault. *)

From S2P Require Import Prelude Netip NetipText Ports Spec Link Desired Netlink Routes RoutesProps Backend BackendProps Untouched.
From stdpp Require Import gmap strings.
Open Scope Z_scope.
Open Scope velvet_scope.

Section Reconciled.
Context {W : Type} `{AttemptsLaws W}.
Implicit Types (s : kstate).

(** * Verifying one interface *)

(** A failure of [m] where the kernel is [s]. *)
Definition fails {A} (m : sys W A) s : Prop := ∃ w e w', view w = s ∧ m w = (Err e, w').
Lemma answer_true s0 (m : sys W bool) :
  sspec (λ s, s = s0) m (λ b s, s = s0 ∧ b = true) (λ _ s, s = s0) →
  sspec (λ s, s = s0) (answer m) (λ b s, s = s0 ∧ (b = true ∨ fails m s0)) (λ _ _, False).
Proof.
  intros X w Hw. unfold answer. specialize (X w Hw). destruct (m w) as [[b|e|] w'] eqn:Em; [|split; [done|]|done].
  - destruct X. auto.
  - right. by exists w, e, w'.
Qed.

Definition bootstrap_missing : error := errors_New "bootstrap address is missing".
Definition loopback_unowned : error := errors_New "node loopback interface is missing or not owned by this node".
(** The two messages with which the code reports that a call failed. *)
Definition call_failed (e : error) s : Prop :=
  (e = bootstrap_missing ∧ ∃ l, fails (AddrList l FAMILY_V6) s) ∨
  (e = loopback_unowned ∧ fails (LinkByName LoopbackInterface) s).
Definition excused s (e : error) s' : Prop := s' = s ∧ (kernel_error e ∨ call_failed e s).

Lemma read_here {A} (m : sys W A) R s1 : reads view m R →
  sspec (λ s, s = s1) m (λ a s, s = s1 ∧ R s1 a) (excused s1).
Proof. intros X. eapply sspec_reads; [exact X|by intros s a -> ?|]. intros s e -> K. split; [done|by left]. Qed.
Lemma lookup_device name i d s1 : wf_devices s1 → devices s1 !! i = Some d → ln_Name (d_link d) = name →
  sspec (λ s, s = s1) (LinkByName name) (λ o s, s = s1 ∧ o = Some (d_link d)) (excused s1).
Proof.
  intros [Wi Wn] Hd En. eapply sspec_post; [apply read_here, LinkByName_law| |done]. intros o s [-> R]. split; [done|]. destruct o as [l|].
  - destruct R as (El & e & He & <-). assert (ln_Index (d_link e) = i) as Ei by (apply (Wn _ _ e d He Hd); congruence).
    rewrite Ei in He. by assert (e = d) as -> by congruence.
  - by destruct (R i d Hd).
Qed.
Lemma wg_Device_here name i d s1 : wf_devices s1 → devices s1 !! i = Some d → ln_Name (d_link d) = name →
  sspec (λ s, s = s1) (wg_Device name) (λ g s, s = s1 ∧ g = d_wg d) (excused s1).
Proof.
  intros [Wi Wn] Hd En. eapply sspec_post; [apply read_here, wg_Device_law| |done]. intros g s [-> (j & e & He & Ee & <-)].
  split; [done|]. assert (j = i) as -> by (apply (Wn _ _ e d He Hd); congruence). by assert (e = d) as -> by congruence.
Qed.
(** The addresses of a device include one that it has. *)
Lemma address_listed p i d fam s1 : wf_devices s1 → devices s1 !! i = Some d → host_prefix6 p → prefixIPNet p ∈ d_addrs d →
  fam = FAMILY_V6 ∨ fam = FAMILY_ALL →
  sspec (λ s, s = s1) (AddrList (d_link d) fam) (λ as_ s, s = s1 ∧ addressPresent as_ p = true) (excused s1).
Proof.
  intros [Wi Wn] Hd G Hp Hf. eapply sspec_post; [apply read_here, AddrList_law| |done]. intros as_ s [-> (e & He & L)]. split; [done|].
  rewrite (Wi i d Hd) in He. assert (e = d) as -> by congruence. apply existsb_exists. exists (Some (prefixIPNet p)). split.
  - apply list_elem_of_In, L. eexists. split_and!; [done|done|]. unfold of_family. rewrite (host_6 p G). destruct Hf as [->| ->]; [by right|by left].
  - apply bool_decide_eq_true_2. by apply host_IPNet.
Qed.

Lemma verifyBootstrapLink_spec plan i d s1 : wf_devices s1 → sound_link plan → devices s1 !! i = Some d → link_set plan d →
  sspec (λ s, s = s1) (verifyBootstrapLink plan) (λ _ s, s = s1) (excused s1).
Proof.
  intros Wf S Hd (En & Et & Ea & L). unfold verifyBootstrapLink.
  apply (sspec_then (λ o, o = Some (d_link d))); [by eapply lookup_device|]. intros o ->.
  rewrite !bool_decide_eq_true_2 by done. cbn [negb orb]. destruct (WaitingPort plan); [by apply sspec_ret|].
  destruct L as (Up & Ad & [G1 G2 (p & Ep & P1 & P2 & P3)]); [done|]. rewrite Up. cbn [negb].
  eapply (sspec_bind _ _ (λ b s, s = s1 ∧ (b = true ∨ ∃ l, fails (AddrList l FAMILY_V6) s1))).
  { eapply sspec_post; [apply answer_true| |done].
    - eapply sspec_bind; [eapply sspec_post; [apply (address_listed (BootstrapAddress plan) i d); [done|done|apply S|done|by left]|intros as_ s X; exact X|by intros e s [-> _]]|].
      intros as_. apply sspec_ret. auto.
    - intros b s [-> X]. split; [done|]. destruct X as [X|(w & e & w' & Ew & Em)]; [by left|right]. exists (d_link d), w.
      unfold mbind, sys_bind in Em. destruct (AddrList (d_link d) FAMILY_V6 w) as [[as_|x|] w2]; [done| |done]. by exists x, w2. }
  intros [|]; cbn [negb].
  - apply sspec_from. intros s2 [-> _]. apply (sspec_then (λ g, g = d_wg d)); [by eapply wg_Device_here|]. intros g ->.
    rewrite (bool_decide_eq_true_2 _ G1). cbn [negb orb].
    assert (negb (ListenPort plan =? 0) && negb (wd_ListenPort (d_wg d) =? ListenPort plan) = false) as ->.
    { destruct (ListenPort plan =? 0) eqn:E0; [done|]. apply Z.eqb_neq in E0. by rewrite G2, Z.eqb_refl. }
    rewrite Ep, P1, P2, !bool_decide_eq_true_2 by done. cbn [negb orb]. destruct (Keepalive plan) as [k|]; [|by apply sspec_ret].
    rewrite (P3 k), Z.eqb_refl by done. by apply sspec_ret.
  - apply sspec_err. intros s [-> [?|X]]; [done|]. split; [done|]. right. left. by split.
Qed.

(** * The node loopback *)

(** The device as [verifyNodeLoopback] wants it. *)
Definition loopback_set (desired : DesiredState) (d : device) : Prop :=
  ln_Name (d_link d) = LoopbackInterface ∧ ln_Type (d_link d) = "dummy"%string ∧ ln_Alias (d_link d) = LoopbackOwnerAlias desired ∧
  ln_Up (d_link d) = true ∧ prefixIPNet (loopback_prefix desired) ∈ d_addrs d.

Lemma reconcileNodeLoopback_spec desired s0 : host_prefix6 (loopback_prefix desired) →
  IsLinkLocalUnicast (Prefix_Addr (loopback_prefix desired)) = false →
  sspec (λ s, s = s0) (reconcileNodeLoopback desired)
    (λ _ s, ∃ i, mine LoopbackInterface s0 i ∧ at_device i s0 (loopback_set desired) s)
    (λ e s, s = s0 ∨ limited LoopbackInterface s0 s).
Proof.
  intros G LL. unfold reconcileNodeLoopback. eapply sspec_bind; [apply ensureOwnedLink_spec|]. intros l.
  apply sspec_from. intros s1 (M & T1 & d1 & Hd1 & El & En & Et & Ea). set (E := λ (_ : error) s, s = s0 ∨ limited LoopbackInterface s0 s).
  assert (HK : ∀ e s, touch (ln_Index l) s0 s → kernel_error e → E e s) by (intros e s T _; right; by exists (ln_Index l)).
  eapply sspec_bind.
  { eapply sspec_weaken; [eapply (reconcileLoopbackAddresses_spec l s0 d1 _ E); [exact G|exact LL|exact HK]|intros s ->|intros a s X; exact X|done].
    split; [done|]. by exists d1. }
  intros _u. eapply sspec_post; [|intros a s X; exists (ln_Index l); split; [exact M|exact X]|done].
  eapply device_acts; [apply LinkSetUp_law| |exact HK]. intros d d' (D1 & _ & D3) (R1 & R2 & _). unfold loopback_set.
  rewrite R1, D1, El. cbn. split_and!; auto.
Qed.

Lemma verifyNodeLoopback_spec desired i d s1 : wf_devices s1 → host_prefix6 (loopback_prefix desired) →
  devices s1 !! i = Some d → loopback_set desired d →
  sspec (λ s, s = s1) (verifyNodeLoopback desired) (λ _ s, s = s1) (excused s1).
Proof.
  intros Wf G Hd (En & Et & Ea & Up & Ad). unfold verifyNodeLoopback.
  eapply (sspec_bind _ _ (λ o s, s = s1 ∧ (o = Some (d_link d) ∨ o = None ∧ fails (LinkByName LoopbackInterface) s1))).
  { intros w Hw. pose proof (lookup_device LoopbackInterface i d s1 Wf Hd En w Hw) as X.
    destruct (LinkByName LoopbackInterface w) as [[o|e|] w'] eqn:Em; [by destruct X; auto| |done].
    destruct X as [X _]. split; [done|]. right. split; [done|]. by exists w, e, w'. }
  intros [l|].
  - apply sspec_from. intros s2 [-> [[= ->]|[? _]]]; [|done]. rewrite !bool_decide_eq_true_2 by done. cbn [negb orb]. rewrite Up. cbn [negb].
    apply (sspec_then (λ as_, addressPresent as_ (loopback_prefix desired) = true)); [eapply address_listed; [done|done|done|done|by right]|].
    intros as_ ->. by apply sspec_ret.
  - apply sspec_err. intros s [-> [?|[_ X]]]; [done|]. split; [done|]. right. by right.
Qed.

(** * What the rest of a pass leaves alone *)

(** Work on an interface of one's own, seen from those with another name. *)
Lemma others_survive name i s s' j d : mine name s i → touch i s s' → devices s !! j = Some d → ln_Name (d_link d) ≠ name →
  devices s' !! j = Some d.
Proof. intros M [T _] Hd N. rewrite T; [done|]. intros ->. by destruct (M d Hd). Qed.

Definition has_loopback desired s : Prop := ∃ i d, devices s !! i = Some d ∧ loopback_set desired d.
Definition has_link (plan : LinkPlan) s : Prop := ∃ i d, devices s !! i = Some d ∧ link_set plan d.
(** Velvet's interfaces have names of the set. *)
Definition named_in (names : gset string) s : Prop :=
  ∀ i d, devices s !! i = Some d → owned (d_link d) = true → ln_Name (d_link d) ∈ names.

Lemma cleanupStaleLinks_spec names s0 :
  sspec (λ s, s = s0) (cleanupStaleLinks names)
    (λ _ s, named_in names s ∧ ∀ i d, devices s0 !! i = Some d → ln_Name (d_link d) ∈ names → devices s !! i = Some d) (λ _ _, True).
Proof.
  unfold cleanupStaleLinks. apply sspec_wf. eapply sspec_bind.
  { eapply sspec_reads; [apply LinkList_law|intros s links X R; exact (conj X R)|done]. }
  intros links. apply sspec_from. intros s1 [[-> [Wi _]] R].
  set (I (l1 : list NLink) s := (∀ i d, devices s !! i = Some d → devices s0 !! i = Some d ∧ (d_link d ∈ l1 → stale_link names (d_link d) = false)) ∧
    ∀ i d, devices s0 !! i = Some d → stale_link names (d_link d) = false → devices s !! i = Some d).
  eapply (sspec_post _ _ _ (λ _, I links) _ (λ _ _, True)).
  - apply sspec_loop.
    + intros s ->. split; [|done]. intros i d Hd. split; [done|]. by intros []%not_elem_of_nil.
    + intros l1 x l2 El. assert (Hx : ∃ i d, devices s0 !! i = Some d ∧ d_link d = x) by (apply R; rewrite El; apply elem_of_app; right; by left).
      destruct Hx as (j & e & He & Ee). destruct (stale_link names x) eqn:Sx.
      * eapply sspec_acts; [apply LinkDel_law| |done]. intros s s' [I1 I2] [Ed _] _. rewrite <- Ee, (Wi j e He) in Ed. split; intros i d.
        -- rewrite Ed. intros [N Hd]%lookup_delete_Some. destruct (I1 i d Hd) as [Hd0 X]. split; [done|].
           intros [?|Ex%list_elem_of_singleton]%elem_of_app; [auto|]. destruct N. rewrite <- (Wi i d Hd0), Ex, <- Ee. symmetry. by apply Wi.
        -- intros Hd Sd. rewrite Ed. apply lookup_delete_Some. split; [|auto]. intros ->. congruence.
      * apply sspec_ret. intros s [I1 I2]. split; [|done]. intros i d Hd. destruct (I1 i d Hd) as [Hd0 X]. split; [done|].
        intros [?| ->%list_elem_of_singleton]%elem_of_app; auto.
  - intros [] s [I1 I2]. split.
    + intros i d Hd O. destruct (I1 i d Hd) as [Hd0 X]. unfold stale_link in X. rewrite O in X. cbn in X.
      apply (bool_decide_eq_true (ln_Name (d_link d) ∈ names)), negb_false_iff, X, R. by exists i, d.
    + intros i d Hd Hn. apply I2; [done|]. unfold stale_link. rewrite bool_decide_eq_true_2 by done. apply andb_false_r.
  - done.
Qed.

Lemma retained_grow (names : gset string) (links : list NLink) : names ⊆
  foldl (λ names l, if bool_decide (ln_Type l = "wireguard"%string) && owned l then {[ln_Name l]} ∪ names else names) names links.
Proof. revert names. induction links as [|l links IH]; intros names; [done|]. cbn. etrans; [|apply IH]. case_match; set_solver. Qed.

(** The Links, one after another. *)
Definition links_ready (desired : DesiredState) (names : gset string) (plans : list LinkPlan) s : Prop :=
  has_loopback desired s ∧ named_in names s ∧ ∀ plan, plan ∈ plans → has_link plan s.
Lemma links_spec now desired names plans : (∀ plan, plan ∈ plans → sound_link plan) → NoDup (map InterfaceName plans) →
  LoopbackInterface ∉ map InterfaceName plans → (∀ plan, plan ∈ plans → InterfaceName plan ∈ names) →
  sspec (links_ready desired names []) (each (λ plan, ctx_Err;; applyBootstrapLink now plan) plans)
    (λ _, links_ready desired names plans) (λ _ _, True).
Proof.
  intros S Nd Nl Hn. apply sspec_each. intros l1 plan l2 El.
  assert (Hp : plan ∈ plans) by (rewrite El; apply elem_of_app; right; by left).
  eapply sspec_bind; [eapply sspec_reads; [apply ctx_Err_law|intros s a X _; exact X|done]|]. intros _u.
  apply sspec_from. intros s1 (L & O & R). eapply sspec_post; [apply bootstrap_link_spec; by apply S| |done].
  intros [] s (i & M & T & d & Hd & Sd). split_and!.
  - destruct L as (j & e & He & Le). exists j, e. split; [|done]. eapply others_survive; [exact M|exact T|exact He|].
    destruct Le as [-> _]. intros E. apply Nl. rewrite E. by apply list_elem_of_fmap_2.
  - intros j e He Oe. destruct (decide (j = i)) as [->|N].
    + assert (e = d) as -> by congruence. destruct Sd as [-> _]. by apply Hn.
    + destruct T as [T _]. rewrite T in He by done. by eapply O.
  - intros plan' [Hp'| ->%list_elem_of_singleton]%elem_of_app; [|by exists i, d].
    destruct (R plan' Hp') as (j & e & He & Le). exists j, e. split; [|done]. eapply others_survive; [exact M|exact T|exact He|].
    destruct Le as [-> _]. intros E. rewrite El, map_app in Nd. apply NoDup_app in Nd as (_ & D & _).
    apply (D (InterfaceName plan')); [by apply list_elem_of_fmap_2|]. rewrite E. by left.
Qed.

(** ** Link routes *)

Lemma indices_of_spec names s0 :
  sspec (λ s, s = s0) (indices_of names) (λ ix s, s = s0 ∧ ∀ i, i ∈ ix → ∃ name, name ∈ names ∧ named s0 i name) (λ _ _, True).
Proof.
  induction names as [|name names IH]; cbn [indices_of]; [apply sspec_ret; intros s ->; split; [done|]; set_solver|].
  eapply sspec_bind; [eapply sspec_reads; [apply (LinkByName_law name)|intros s o P R; exact (conj P R)|done]|].
  intros [l|]; [|by apply sspec_err]. apply sspec_from. intros s1 (-> & En & d & Hd & Ed).
  eapply sspec_bind; [apply IH|]. intros ix. apply sspec_ret. intros s [-> X]. split; [done|].
  intros i [->%elem_of_singleton|Hi]%elem_of_union.
  - exists name. split; [by left|]. exists d. by rewrite Ed.
  - destruct (X i Hi) as (n & Hn & Nn). exists n. split; [by right|done].
Qed.
(** A Link route that may stay: it leads over a wanted interface to one of the
    fabric's networks. *)
Definition link_route_ok (desired : DesiredState) (names : gset string) s (r : NRoute) : Prop :=
  nr_Table r = FabricTableID desired ∧ (∃ name, name ∈ names ∧ named s (nr_LinkIndex r) name) ∧
  ∃ p, prefixFromIPNet (nr_Dst r) = Some p ∧ managedLinkRoutePrefix desired p = true.
Lemma each_ext {A} (f g : A → sys W unit) l : (∀ x, f x = g x) → each f l = each g l.
Proof. intros E. induction l as [|x l IH]; [done|]. cbn. by rewrite E, IH. Qed.
Lemma cleanupLinkRoutes_spec desired names s0 :
  sspec (λ s, s = s0) (cleanupLinkRoutes desired names)
    (λ _ s, only_routes s0 s ∧ (∀ r, r ∈ routes s → r ∈ routes s0) ∧
      (∀ r, r ∈ routes s0 → nr_Protocol r ≠ LinkProtocol → r ∈ routes s) ∧
      (∀ r, r ∈ routes s → nr_Protocol r = LinkProtocol → link_route_ok desired names s r)) (λ _ _, True).
Proof.
  unfold cleanupLinkRoutes. eapply (sspec_then (λ ix, ∀ i, i ∈ ix → ∃ name, name ∈ elements names ∧ named s0 i name)); [apply indices_of_spec|].
  intros ix Hix. apply (sspec_then (routes_listed s0 LinkProtocol)); [eapply sspec_post; [apply routesByProtocol_spec|done|done]|].
  intros current [Nd C].
  rewrite (each_ext _ (λ r, if negb (kept_link_route desired ix r) then RouteDel r else mret tt)) by (intros r; by destruct (kept_link_route _ _ _)).
  eapply sspec_post; [apply delete_spec; [done|by intros r [? _]%C]| |done]. intros [] s [O P]. split_and!; [done|..].
  - by intros r [? _]%P.
  - intros r Hr N. apply P. split; [done|]. intros [_ ?]%C. congruence.
  - intros r [Hr D]%P E. assert (K : kept_link_route desired ix r = true) by (apply negb_false_iff, D, C; by split).
    unfold kept_link_route in K. repeat (apply andb_true_iff in K as [K ?]). apply bool_decide_eq_true in K.
    destruct (prefixFromIPNet (nr_Dst r)) as [p|] eqn:Ep; [|done]. destruct (Hix _ K) as (name & Hn & d & Hd & En). split_and!.
    + by apply Z.eqb_eq.
    + exists name. split; [by apply elem_of_elements|]. exists d. destruct O as [O _]. by rewrite O.
    + by exists p.
Qed.
Lemma in_force_link desired ms s s' : in_force desired ms s → only_routes s s' → installable route StaticProtocol ms →
  (∀ r, r ∈ routes s' → r ∈ routes s) → (∀ r, r ∈ routes s → nr_Protocol r ≠ LinkProtocol → r ∈ routes s') → in_force desired ms s'.
Proof.
  intros [F1 F2 F3 F4] (O1 & O2 & O3) I S1 S2. split.
  - by eapply is_wanted_devices.
  - intros m Hm. destruct (F2 m Hm) as (k & Hk & Pk). exists k. split; [|done]. apply S2; [done|].
    rewrite (present_protocol _ _ Pk), (in_protocol _ _ _ I m Hm). done.
  - auto.
  - unfold rules_match. by rewrite O2.
Qed.

(** * A pass *)

(** What a desired state must be for the kernel to hold it: routes and rules that
    can be managed, host addresses, Links between different nodes, and no name
    given twice. *)
Record sound (desired : DesiredState) : Prop := {
  so_manageable : manageable desired;
  so_loopback : host_prefix6 (loopback_prefix desired) ∧ IsLinkLocalUnicast (Prefix_Addr (loopback_prefix desired)) = false;
  so_links : ∀ plan, plan ∈ Links desired → sound_link plan;
  so_names : NoDup (LoopbackInterface :: map InterfaceName (Links desired))
}.
(** The kernel [s] after a pass. *)
Record reconciled (desired : DesiredState) (preserve : bool) s : Prop := {
  re_loopback : has_loopback desired s;
  re_links : ∀ plan, plan ∈ Links desired → has_link plan s;
  re_owned : preserve = false → named_in (desiredLinkNames desired) s;
  re_routing : ∃ ms, in_force desired ms s;
  re_link_routes : preserve = false → ∀ r, r ∈ routes s → nr_Protocol r = LinkProtocol → link_route_ok desired (desiredLinkNames desired) s r;
  re_forwarding : Forwarding desired = true → ∀ path, path ∈ forwardingPaths → sysctl s !! path = Some one_line
}.

Lemma enableForwarding_spec s0 :
  sspec (λ s, s = s0) enableForwarding
    (λ _ s, devices s = devices s0 ∧ ∀ path, path ∈ forwardingPaths → sysctl s !! path = Some one_line) (λ _ _, True).
Proof.
  apply (sspec_loop _ (λ l1 s, devices s = devices s0 ∧ ∀ path, path ∈ l1 → sysctl s !! path = Some one_line)).
  - intros s ->. split; [done|]. by intros path []%not_elem_of_nil.
  - intros l1 x l2 _. eapply sspec_acts; [apply WriteFile_law| |done]. intros s s' [D F] (Ed & _ & _ & Es) _. split; [congruence|].
    intros path Hp. rewrite Es. destruct (decide (path = x)) as [->|N]; [by rewrite lookup_insert_eq|]. rewrite lookup_insert_ne by done.
    apply F. apply elem_of_app in Hp as [?|?%list_elem_of_singleton]; [done|by subst].
Qed.
Lemma has_link_devices plan s s' : devices s' = devices s → has_link plan s → has_link plan s'.
Proof. unfold has_link. by intros ->. Qed.
Lemma links_ready_devices desired names plans s s' : devices s' = devices s → links_ready desired names plans s → links_ready desired names plans s'.
Proof. unfold links_ready, has_loopback, named_in, has_link. by intros ->. Qed.

(** The names that [cleanupStaleLinks] is given. *)
Lemma names_spec desired (preserve : bool) I :
  sspec I (if preserve then retainOwnedLinkNames (desiredLinkNames desired) else mret (desiredLinkNames desired))
    (λ names s, I s ∧ desiredLinkNames desired ⊆ names ∧ (preserve = false → names = desiredLinkNames desired)) (λ _ _, True).
Proof.
  destruct preserve; [|apply sspec_ret; auto]. eapply sspec_bind; [eapply sspec_reads; [apply LinkList_law|intros s a X _; exact X|done]|].
  intros links. apply sspec_ret. intros s X. split; [done|]. split; [apply retained_grow|done].
Qed.

Lemma Backend_Reconcile_spec euid now desired preserve : sound desired →
  sspec (λ _, True) (Backend_Reconcile euid now desired preserve) (λ _, reconciled desired preserve) (λ _ _, True).
Proof.
  intros [M [G LL] S Nd]. apply NoDup_cons in Nd as [Nl Nd]. unfold Backend_Reconcile. case_match; [by apply sspec_err|].
  assert (Any : ∀ A (m : sys W A), steady (λ _, True) m → sspec (λ _, True) m (λ _ _, True) (λ _ _, True)) by done.
  eapply sspec_bind; [apply Any; eauto with steady|intros _u].
  eapply sspec_bind; [apply Any; apply steady_when; intros _; by apply cleanupDisabledBabelState_steady|intros _u2].
  eapply sspec_bind; [apply Any, rejectForeignTableState_steady|intros _u3].
  eapply (sspec_bind _ _ (λ _ s, has_loopback desired s)).
  { apply sspec_from. intros s0 _. eapply sspec_post; [by apply reconcileNodeLoopback_spec| |done]. intros a s (i & _ & _ & d & Hd & L). by exists i, d. }
  intros _u4. eapply sspec_bind; [apply names_spec|]. intros names. apply sspec_from. intros s1 (L & Sub & Eq).
  assert (HN : ∀ plan, plan ∈ Links desired → InterfaceName plan ∈ names).
  { intros plan Hp. apply Sub. unfold desiredLinkNames. apply elem_of_union_l, elem_of_union_r, elem_of_list_to_set. by apply list_elem_of_fmap_2. }
  eapply (sspec_bind _ _ (λ _, links_ready desired names [])).
  { eapply sspec_post; [apply cleanupStaleLinks_spec| |done]. intros a s [X K]. split; [|split; [done|by intros plan []%not_elem_of_nil]].
    destruct L as (i & d & Hd & Ld). exists i, d. split; [|done]. apply K; [done|]. destruct Ld as [-> _]. apply Sub. unfold desiredLinkNames. set_solver. }
  intros _u5. eapply sspec_bind; [eapply sspec_reads; [apply wgctrl_New_law|intros s a X _; exact X|done]|intros _u6].
  eapply sspec_bind; [apply links_spec; auto|intros _u7].
  apply (sspec_bind _ _ (λ _ s, links_ready desired names (Links desired) s ∧
    (Forwarding desired = true → ∀ path, path ∈ forwardingPaths → sysctl s !! path = Some one_line))).
  { apply sspec_when; [|by intros ->]. intros _. apply sspec_from. intros s2 R. eapply sspec_post; [apply enableForwarding_spec| |done].
    intros a s [Ed F]. split; [by eapply links_ready_devices|done]. }
  intros _u8. apply sspec_from. intros s3 [R F]. eapply sspec_bind; [eapply sspec_post; [by apply reconcileRoutesAndRules_spec|intros a s X; exact X|done]|].
  intros _u9. apply sspec_from. intros s4 (ms & Wm & Se). eapply sspec_post; [apply cleanupLinkRoutes_spec| |done].
  intros a s (O & S1 & S2 & S3). pose proof O as (O1 & O2 & O3).
  assert (R' : links_ready desired names (Links desired) s) by (eapply links_ready_devices; [|exact R]; rewrite O1; apply Se). destruct R' as (R1 & R2 & R3).
  split; try done.
  - intros Ep. by rewrite <- (Eq Ep).
  - exists ms. eapply in_force_link; [by eapply settled_in_force|done|by eapply wanted_installable|done|done].
  - intros Ep. by rewrite <- (Eq Ep).
  - intros Ef path Hp. rewrite O3. rewrite (se_sysctl _ _ _ _ Se). by apply F.
Qed.

(** * Its verification *)

Lemma each_verify {A} (f : A → sys W unit) l s1 : (∀ x, x ∈ l → sspec (λ s, s = s1) (f x) (λ _ s, s = s1) (excused s1)) →
  sspec (λ s, s = s1) (each f l) (λ _ s, s = s1) (excused s1).
Proof. intros X. apply (sspec_each (λ _ s, s = s1)). intros l1 x l2 ->. apply X. apply elem_of_app. right. by left. Qed.
Lemma excuse {A} s1 (m : sys W A) Q : sspec (λ s, s = s1) m Q (λ e s, s = s1 ∧ kernel_error e) → sspec (λ s, s = s1) m Q (excused s1).
Proof. intros X. eapply sspec_post; [exact X|done|]. intros e s [-> K]. split; [done|by left]. Qed.
Lemma verifyForwarding_spec s1 : (∀ path, path ∈ forwardingPaths → sysctl s1 !! path = Some one_line) →
  sspec (λ s, s = s1) verifyForwarding (λ _ s, s = s1) (excused s1).
Proof.
  intros F. apply each_verify. intros path Hp. apply (sspec_then (λ text, text = one_line)).
  { eapply sspec_post; [apply read_here, ReadFile_law| |done]. intros text s [-> R]. split; [done|]. rewrite F in R by done. congruence. }
  intros text ->. rewrite bool_decide_eq_true_2 by done. by apply sspec_ret.
Qed.
Lemma Backend_Verify_spec desired preserve s1 : wf_devices s1 → sound desired → reconciled desired preserve s1 →
  sspec (λ s, s = s1) (Backend_Verify desired) (λ _ s, s = s1) (excused s1).
Proof.
  intros Wf [M [G LL] S Nd] [(i & d & Hd & L) R2 _ (ms & R4) _ R6]. unfold Backend_Verify.
  eapply sspec_bind; [eapply sspec_post; [apply read_here, ctx_Err_law|by intros a s [X _]; exact X|done]|intros _u].
  eapply sspec_bind; [eapply sspec_post; [apply read_here, wgctrl_New_law|by intros a s [X _]; exact X|done]|intros _u2].
  eapply sspec_bind; [by eapply verifyNodeLoopback_spec|intros _u3].
  eapply sspec_bind; [apply each_verify; intros plan Hp|intros _u4].
  { eapply sspec_bind; [eapply sspec_post; [apply read_here, ctx_Err_law|by intros a s [X _]; exact X|done]|intros _v].
    destruct (R2 plan Hp) as (j & e & He & Le). eapply verifyBootstrapLink_spec; [done|by apply S|done|done]. }
  eapply sspec_bind; [by eapply excuse, verifyStaticRoutes_spec|intros _u5].
  eapply sspec_bind; [apply excuse, verifyPolicyRules_spec; [done|apply R4]|intros _u6].
  apply sspec_when; [|by intros _ s ->]. intros Ef. apply verifyForwarding_spec. by apply R6.
Qed.

End Reconciled.
