(* ===== verification/ReconciledRun.v ===== *)
(** Passes of the reconciler on the kernel of RunKernel.v: the examples of
    Untouched.v and Reconciled.v, and what a failure at one place leaves behind. *)

From S2P Require Import Prelude Netip NetipText Ports Spec Link Desired DesiredProps Netlink Routes RoutesProps Backend RunKernel RoutesCompiled BackendProps Untouched Reconciled.
From stdpp Require Import gmap strings.
Open Scope Z_scope.
Open Scope velvet_scope.

Definition run_plan : LinkPlan :=
  mkLinkPlan false PortChoice_zero false false "b" "wg-b" "velvet:link:a:b" (be_put 4 7) (be_put 4 9) (be_put 4 11)
    51820 ["192.0.2.1:51820"%string] (Some DefaultKeepalive) (mkPrefix (Addr6 (0xfe80 * 2 ^ 112 + 1) "") 64) [].
Definition run_desired : DesiredState :=
  mkDesiredState [] PortChoice_zero (mkDurableSettings 2 1800) (mkNodeUID "a" "") [] [] (mkPrefix (Addr4 0x0aff0000) 16)
    (mkPrefix (Addr6 (0xfd000002 * 2 ^ 96) "") 64) (mkPrefix (Addr6 (0xfd000001 * 2 ^ 96) "") 64) (Addr6 (0xfd000001 * 2 ^ 96 + 1) "")
    58420 20000 "velvet:loopback:a" true [run_plan] (c_Routes example_compiled) (c_Rules example_compiled) None None [].
(** Somebody else's interface, a stale one of Velvet's, and stale routes. *)
Definition run_world (faults : list bool) : rkernel :=
  mkRKernel {["eth0"%string := mkBody "device" "uplink" true [prefixIPNet (mkPrefix (Addr4 0xc0000205) 24)] wg_zero;
              "wg-c"%string := mkBody "wireguard" "velvet:link:a:c" true [] wg_zero]}
    [example_stale; example_other] [] ∅ 0 faults ∅.
Definition run_pass : rkernel := (Backend_Reconcile 0 1000 run_desired false (run_world [])).2.
Lemma run_pass_ok : Backend_Reconcile 0 1000 run_desired false (run_world []) = (Ok tt, run_pass).
Proof. by vm_compute. Qed.

Lemma run_host : host_prefix6 (loopback_prefix run_desired) ∧ host_prefix6 (BootstrapAddress run_plan).
Proof. split; (split_and!; [split_and!; [by vm_compute|done|right; by vm_compute]|done..]). Qed.
Lemma run_sound : sound run_desired.
Proof.
  split.
  - exact (compiled_manageable example_spec {["b"%string]} example_links example_valid example_linked example_separable
      example_compiled run_desired example_ok eq_refl eq_refl).
  - split; [apply run_host|done].
  - intros plan ->%list_elem_of_singleton. split; [apply run_host|by vm_compute|by vm_compute].
  - apply NoDup_cons. split; [|apply NoDup_singleton]. by intros ?%list_elem_of_singleton.
Qed.


(** The pass fails at its twelfth call. *)
Definition run_failed : rkernel := (Backend_Reconcile 0 1000 run_desired false (run_world (replicate 11 false ++ [true]))).2.
Lemma run_failed_ok : Backend_Reconcile 0 1000 run_desired false (run_world (replicate 11 false ++ [true])) = (Err EIO, run_failed).
Proof. by vm_compute. Qed.
Lemma run_eth0 : ∃ d, devices (view (run_world (replicate 11 false ++ [true]))) !! index_of "eth0"%string = Some d ∧ owned (d_link d) = false.
Proof.
  exists (device_of "eth0" (mkBody "device" "uplink" true [prefixIPNet (mkPrefix (Addr4 0xc0000205) 24)] wg_zero)). split; [|done].
  apply (k_view_Some (run_world (replicate 11 false ++ [true]))). by eexists _, _.
Qed.
Lemma foreign_untouched_witness :
  ∃ d w1, Backend_Reconcile 0 1000 run_desired false (run_world (replicate 11 false ++ [true])) = (Err EIO, w1) ∧
    devices (view w1) !! index_of "eth0"%string = Some d ∧ owned (d_link d) = false.
Proof.
  destruct run_eth0 as (d & Hd & O). exists d, run_failed. split; [exact run_failed_ok|]. split; [|exact O].
  exact (proj2 (foreign_untouched (λ _, None) (λ _, ""%string) _ _ _ _
    (p_Reconcile (λ _, None) (λ _, ""%string) 0 1000 run_desired false) run_failed_ok) _ d Hd O).
Defined.

(** An interface is created first and marked as Velvet's next.  When the second
    step fails, the interface is left without the mark, and every pass after that
    takes it for somebody else's and refuses to go on. *)
Definition orphan_world : rkernel := (ensureOwnedDummy LoopbackInterface "velvet:loopback:a" (run_world [false; false; false; true])).2.
Lemma unmarked_interface_blocks :
  (ensureOwnedDummy LoopbackInterface "velvet:loopback:a" (run_world [false; false; false; true])).1 = Err EIO ∧
  (Backend_Reconcile 0 1000 run_desired false orphan_world).1 = Err (errors_New "interface exists but is not owned").
Proof. split; by vm_compute. Qed.

(** Access enters the table of a source, so a Link's routes are materialized there
    too; the pass over the Link routes keeps only those of the fabric's table, and
    deletes these each time.  (The maintenance that follows puts them back.) *)
Lemma source_table_route_dropped desired indices r : nr_Table r ≠ FabricTableID desired → kept_link_route desired indices r = false.
Proof. intros N. unfold kept_link_route. rewrite (proj2 (Z.eqb_neq _ _) N). by rewrite andb_false_r. Qed.
Lemma materialized_then_dropped indices : ∃ r, r ∈ materializedLinkRoutes run_desired 7 [] [LoopbackV6 run_desired] ∧
  kept_link_route run_desired indices r = false.
Proof.
  exists (with_route_table 101 (neighbor_route run_desired 7 (LoopbackV6 run_desired))). split.
  - apply (bool_decide_unpack _). by vm_compute.
  - by apply source_table_route_dropped.
Qed.
