(* ===== verification/GoText.v ===== *)
(** What the specification takes from Go's standard library to read text:
    trimming, base64, host and port, decimal numbers, and cutting strings by
    runes.  Text is a list of octets; nothing here assumes that it is UTF-8. *)

From S2P Require Import Prelude Netip NetipText.
From stdpp Require Import strings.
Open Scope Z_scope.
Open Scope velvet_scope.

Definition text (l : list byte) : string := String.string_of_list_byte l.

(** * [strings.TrimSpace] *)

(** The UTF-8 encodings of the white space of [unicode.IsSpace]. *)
Definition spaces : list (list Z) :=
  map (λ c, [c]) [9; 10; 11; 12; 13; 32] ++ [[0xc2; 0x85]; [0xc2; 0xa0]; [0xe1; 0x9a; 0x80]] ++
  map (λ c, [0xe2; 0x80; c]) (seqZ 0x80 11 ++ [0xa8; 0xa9; 0xaf]) ++ [[0xe2; 0x81; 0x9f]; [0xe3; 0x80; 0x80]].
Definition starts (p s : list Z) : bool := bool_decide (take (length p) s = p).
(** [flip] mirrors the encodings, to trim the end of mirrored text. *)
Fixpoint trim_front (flip : list Z → list Z) (fuel : nat) (s : list Z) : list Z :=
  match fuel with
  | O => s
  | S fuel =>
    match find (λ p, starts (flip p) s) spaces with
    | Some p => trim_front flip fuel (drop (length p) s)
    | None => s
    end
  end.
Definition trim_octets (s : list byte) : list byte :=
  let z := map b2z s in
  let z := trim_front (λ p, p) (length z) z in
  map z2b (rev (trim_front (@rev Z) (length z) (rev z))).
Definition TrimSpace (s : string) : string := text (trim_octets (octets s)).

(** * [base64.StdEncoding] *)

Definition base64_value (c : byte) : option Z :=
  let z := b2z c in
  if (65 <=? z) && (z <=? 90) then Some (z - 65)
  else if (97 <=? z) && (z <=? 122) then Some (z - 71)
  else if (48 <=? z) && (z <=? 57) then Some (z + 4)
  else if z =? 43 then Some 62 else if z =? 47 then Some 63 else None.
Definition is_pad (c : byte) : bool := b2z c =? 61.
(** Groups of four; the last may be padded, and its spare bits are not looked at. *)
Fixpoint base64_groups (s : list byte) : option (list byte) :=
  match s with
  | [] => Some []
  | a :: b :: c :: d :: rest =>
    x ← base64_value a; y ← base64_value b;
    if is_pad c then
      if is_pad d && bool_decide (rest = []) then Some [z2b (x * 4 + y / 16)] else None
    else
      z ← base64_value c;
      if is_pad d then
        if bool_decide (rest = []) then Some [z2b (x * 4 + y / 16); z2b (y mod 16 * 16 + z / 4)] else None
      else
        w ← base64_value d;
        out ← base64_groups rest;
        Some (z2b (x * 4 + y / 16) :: z2b (y mod 16 * 16 + z / 4) :: z2b (z mod 4 * 64 + w) :: out)
  | _ => None
  end.
(** [DecodeString], which skips line feeds and carriage returns. *)
Definition base64_Decode (s : list byte) : option (list byte) :=
  base64_groups (filter (λ c, b2z c ≠ 10 ∧ b2z c ≠ 13) s).

(** * [net.SplitHostPort] *)

Definition has_byte (c : byte) (s : list byte) : bool := bool_decide (c ∈ s).
Definition SplitHostPort (hostport : list byte) : option (list byte * list byte) :=
  i ← last_index_byte hostport ":"%byte;
  let port := drop (S i) hostport in
  match hostport with
  | "["%byte :: _ =>
    e ← index_byte hostport "]"%byte;
    if bool_decide (S e = i) then
      let host := slice hostport 1 e in
      if has_byte "["%byte (drop 1 hostport) || has_byte "]"%byte (drop (S e) hostport) then None else Some (host, port)
    else None
  | _ =>
    let host := take i hostport in
    if has_byte ":"%byte host || has_byte "["%byte hostport || has_byte "]"%byte hostport then None else Some (host, port)
  end.

(** * [strconv.Atoi] *)

Definition digits (s : list byte) : option Z := if bool_decide (s = []) then None else digits_value s 0.
Definition Atoi (s : list byte) : option Z :=
  v ← match s with
      | "-"%byte :: t => Z.opp <$> digits t
      | "+"%byte :: t => digits t
      | _ => digits s
      end;
  if (- 2 ^ 63 <=? v) && (v <? 2 ^ 63) then Some v else None.

(** * Runes *)

(** The octets that the first rune takes: 1 for an octet that begins no valid
    encoding. *)
Definition rune_len (s : list Z) : nat :=
  let cont c := (0x80 <=? c) && (c <=? 0xbf) in
  match s with
  | a :: b :: rest =>
    if (0xc2 <=? a) && (a <=? 0xdf) then if cont b then 2%nat else 1%nat
    else if (0xe0 <=? a) && (a <=? 0xef) then
      let lo := if a =? 0xe0 then 0xa0 else 0x80 in
      let hi := if a =? 0xed then 0x9f else 0xbf in
      match rest with
      | c :: _ => if (lo <=? b) && (b <=? hi) && cont c then 3%nat else 1%nat
      | [] => 1%nat
      end
    else if (0xf0 <=? a) && (a <=? 0xf4) then
      let lo := if a =? 0xf0 then 0x90 else 0x80 in
      let hi := if a =? 0xf4 then 0x8f else 0xbf in
      match rest with
      | c :: d :: _ => if (lo <=? b) && (b <=? hi) && cont c && cont d then 4%nat else 1%nat
      | _ => 1%nat
      end
    else 1%nat
  | _ => 1%nat
  end.
(** The precision of [%.<n>s]: the first [n] runes. *)
Fixpoint first_runes (n : nat) (s : list byte) : list byte :=
  match n with
  | O => []
  | S n => let k := rune_len (map b2z s) in take k s ++ first_runes n (drop k s)
  end.

(** [%02x] of an octet. *)
Definition hex02 (c : byte) : string := (hex_digit (b2z c / 16) +:+ hex_digit (b2z c mod 16))%string.

(** * Examples *)

Definition utf8 (l : list Z) : list byte := map z2b l.
Lemma TrimSpace_ex : trim_octets (octets " 	ab " ++ utf8 [0xe2; 0x80; 0x83]) = octets "ab".
Proof. reflexivity. Qed.
Lemma base64_ex : base64_Decode (octets "aGVsbG8=") = Some (octets "hello") ∧ base64_Decode (octets "aGVsbG8") = None ∧
  base64_Decode (octets "aGVsbA==") = Some (octets "hell") ∧ base64_Decode (octets "aGVs=A==") = None.
Proof. repeat split; reflexivity. Qed.
Lemma SplitHostPort_ex : SplitHostPort (octets "[::1]:80") = Some (octets "::1", octets "80") ∧
  SplitHostPort (octets "a.example:x") = Some (octets "a.example", octets "x") ∧ SplitHostPort (octets "::1:80") = None ∧
  SplitHostPort (octets "[::1]") = None ∧ SplitHostPort (octets ":80") = Some ([], octets "80").
Proof. repeat split; reflexivity. Qed.
Lemma Atoi_ex : Atoi (octets "080") = Some 80 ∧ Atoi (octets "-1") = Some (-1) ∧ Atoi (octets "") = None ∧ Atoi (octets "+") = None ∧
  Atoi (octets "9223372036854775808") = None.
Proof. repeat split; reflexivity. Qed.
Lemma first_runes_ex : first_runes 2 (utf8 [0xc3; 0xa9; 97; 98]) = utf8 [0xc3; 0xa9; 97] ∧ first_runes 3 (octets "ab") = octets "ab".
Proof. split; reflexivity. Qed.
