(* ===== verification/NetipPrint.v ===== *)
(** The text of addresses and prefixes determines them: [Prefix_String] is
    injective on valid prefixes.  The texts are taken apart at their separators;
    the groups of an IPv6 address are read back, the longest run of zeros
    included. *)

From S2P Require Import Prelude Netip NetipText.
From stdpp Require Import strings pretty.
From Stdlib Require Import Ascii.
Open Scope Z_scope.
Open Scope velvet_scope.

(** * Octets *)

Lemma octets_cons a s : octets (String a s) = Ascii.byte_of_ascii a :: octets s.
Proof. done. Qed.
Lemma octets_app a b : octets (a +:+ b) = octets a ++ octets b.
Proof. induction a as [|c a IH]; [done|]. change (String c a +:+ b) with (String c (a +:+ b)). by rewrite !octets_cons, IH. Qed.
#[global] Instance octets_inj : Inj (=) (=) octets.
Proof.
  intros a b E. rewrite <- (String.string_of_list_byte_of_string a), <- (String.string_of_list_byte_of_string b).
  by apply (f_equal String.string_of_list_byte) in E.
Qed.
(** [c] is not in [s]. *)
Definition free (c : byte) (s : string) : Prop := c ∉ octets s.
Lemma free_app c a b : free c a → free c b → free c (a +:+ b).
Proof. unfold free. rewrite octets_app, elem_of_app. tauto. Qed.
(** The free characters of a literal. *)
Lemma free_check c s : forallb (λ d, negb (bool_decide (c = d))) (octets s) = true → free c s.
Proof.
  intros F X. rewrite forallb_forall in F. apply list_elem_of_In, F, negb_true_iff, bool_decide_eq_false in X. done.
Qed.

Lemma split_at c (a a' b b' : list byte) : c ∉ a → c ∉ a' → a ++ c :: b = a' ++ c :: b' → a = a' ∧ b = b'.
Proof.
  revert a'. induction a as [|x a IH]; intros [|x' a'] N N' E; cbn in E.
  - by injection E.
  - injection E as -> _. destruct N'. by left.
  - injection E as <- _. destruct N. by left.
  - injection E as -> E. apply not_elem_of_cons in N as [_ N], N' as [_ N']. destruct (IH a' N N' E) as [-> ->]. done.
Qed.
Lemma split_string a s s' t t' : free (Ascii.byte_of_ascii a) s → free (Ascii.byte_of_ascii a) s' →
  s +:+ String a t = s' +:+ String a t' → s = s' ∧ t = t'.
Proof.
  intros F F' E%(f_equal octets). rewrite !octets_app, !octets_cons in E.
  destruct (split_at _ _ _ _ _ F F' E) as [X%octets_inj Y%octets_inj]. done.
Qed.
Lemma separated a s s' t : free (Ascii.byte_of_ascii a) s → s +:+ String a t = s' → ¬ free (Ascii.byte_of_ascii a) s'.
Proof. intros _ <- X. apply X. rewrite octets_app, elem_of_app, octets_cons. right. by left. Qed.

(** * Numbers *)

Lemma pretty_go_digits x s : (∀ c, c ∈ octets s → is_digit c = true) → ∀ c, c ∈ octets (pretty_N_go x s) → is_digit c = true.
Proof.
  revert s. induction (N.lt_wf_0 x) as [x _ IH]; intros s D c.
  assert (x = 0 ∨ 0 < x)%N as [->|P] by lia; [by rewrite pretty_N_go_0; apply D|].
  rewrite pretty_N_go_step by done. apply IH; [by apply N.div_lt|]. intros d [->|Hd]%elem_of_cons; [|by apply D].
  unfold pretty_N_char. by repeat case_match.
Qed.
Lemma dec_digits z c : c ∈ octets (dec z) → is_digit c = true.
Proof.
  unfold dec, pretty, pretty_N. case_decide; [by intros ->%list_elem_of_singleton|]. apply pretty_go_digits. by intros d []%not_elem_of_nil.
Qed.
Lemma dec_free c z : is_digit c = false → free c (dec z).
Proof. intros F X%dec_digits. congruence. Qed.
Lemma dec_inj x y : 0 <= x → 0 <= y → dec x = dec y → x = y.
Proof. unfold dec. intros Hx Hy E%(inj pretty). lia. Qed.

(** ** Hexadecimal groups *)

Definition read_hex (l : list byte) : Z := foldl (λ acc c, acc * 16 + default 0 (hex_value c)) 0 l.
Lemma hex_digit_read d : 0 <= d < 16 → ∃ c, octets (hex_digit d) = [c] ∧ hex_value c = Some d.
Proof.
  intros R. assert (d = 0 ∨ d = 1 ∨ d = 2 ∨ d = 3 ∨ d = 4 ∨ d = 5 ∨ d = 6 ∨ d = 7 ∨ d = 8 ∨ d = 9 ∨ d = 10 ∨ d = 11 ∨ d = 12 ∨
    d = 13 ∨ d = 14 ∨ d = 15) as X by lia.
  destruct_or! X; subst; by eexists.
Qed.
Lemma hex16_read x : 0 <= x < 65536 → read_hex (octets (hex16 x)) = x ∧ octets (hex16 x) ≠ [] ∧
  ∀ c, c ∈ octets (hex16 x) → is_Some (hex_value c).
Proof.
  intros R. unfold hex16, read_hex. rewrite !octets_app.
  assert (D : ∀ (b : bool) d, 0 <= d < 16 → ∃ l, octets (if b then hex_digit d else "") = l ∧
    foldl (λ acc c, acc * 16 + default 0 (hex_value c)) 0 l = (if b then d else 0) ∧
    (∀ acc, foldl (λ acc c, acc * 16 + default 0 (hex_value c)) acc l = if b then acc * 16 + d else acc) ∧ (∀ c, c ∈ l → is_Some (hex_value c)) ∧ (b = true → l ≠ [])).
  { intros [] d Hd; [|exists []; split_and!; try done; by intros c []%not_elem_of_nil].
    destruct (hex_digit_read d Hd) as (c & Ec & Vc). exists [c]. cbn. rewrite Vc. split_and!; try done.
    intros c' ->%list_elem_of_singleton. by rewrite Vc. }
  assert (x / 4096 < 16) by (apply Z.div_lt_upper_bound; lia).
  assert (0 <= x / 4096) by (apply Z.div_pos; lia).
  destruct (D (0x1000 <=? x) (x / 4096)) as (l1 & -> & _ & F1 & S1 & _); [lia|].
  destruct (D (0x100 <=? x) (x / 256 mod 16)) as (l2 & -> & _ & F2 & S2 & _); [by apply Z.mod_pos_bound|].
  destruct (D (0x10 <=? x) (x / 16 mod 16)) as (l3 & -> & _ & F3 & S3 & _); [by apply Z.mod_pos_bound|].
  destruct (D true (x mod 16)) as (l4 & E4 & _ & F4 & S4 & N4); [by apply Z.mod_pos_bound|]. cbn in E4. rewrite E4.
  split_and!.
  - rewrite !foldl_app, F1, F2, F3, F4.
    destruct (0x1000 <=? x) eqn:C1, (0x100 <=? x) eqn:C2, (0x10 <=? x) eqn:C3; bool_to_prop; clear D F1 F2 F3 F4; Z.to_euclidean_division_equations; lia.
  - intros (_ & (_ & (_ & ?)%app_eq_nil)%app_eq_nil)%app_eq_nil. by apply N4.
  - intros c. rewrite !elem_of_app. naive_solver.
Qed.
Lemma hex16_free c x : 0 <= x < 65536 → hex_value c = None → free c (hex16 x).
Proof. intros R N X. destruct (hex16_read x R) as (_ & _ & S). apply S in X. rewrite N in X. by destruct X. Qed.

(** * IPv6 *)

Lemma group_range v i : 0 <= v6u16 v i < 65536.
Proof. unfold v6u16. apply Z.mod_pos_bound. lia. Qed.
(** The groups determine the value. *)
Lemma groups_inj v w : 0 <= v < 2 ^ 128 → 0 <= w < 2 ^ 128 → (∀ i, (i < 8)%nat → v6u16 v i = v6u16 w i) → v = w.
Proof.
  intros Hv Hw G.
  assert (A : ∀ k, (k <= 8)%nat → v / 2 ^ (16 * (8 - Z.of_nat k)) = w / 2 ^ (16 * (8 - Z.of_nat k))).
  { induction k as [|k IH]; intros Hk.
    - change (16 * (8 - Z.of_nat 0)) with 128. rewrite !Z.div_small by done. done.
    - specialize (G k ltac:(lia)). unfold v6u16 in G.
      replace (8 - Z.of_nat (S k)) with (7 - Z.of_nat k) by lia. set (e := 16 * (7 - Z.of_nat k)) in *.
      assert (E : 2 ^ (16 * (8 - Z.of_nat k)) = 2 ^ e * 65536).
      { replace (16 * (8 - Z.of_nat k)) with (e + 16) by lia. rewrite Z.pow_add_r by lia. done. }
      specialize (IH ltac:(lia)). rewrite E, <- !Z.div_div in IH by lia.
      rewrite (Z.div_mod (v / 2 ^ e) 65536), (Z.div_mod (w / 2 ^ e) 65536) by lia. by rewrite IH, G. }
  specialize (A 8%nat ltac:(lia)). by rewrite !Z.div_1_r in A.
Qed.

Lemma zero_run_spec v i f : (zero_run v i f <= f)%nat ∧ ∀ j, (j < zero_run v i f)%nat → v6u16 v (i + j) = 0.
Proof.
  revert i. induction f as [|f IH]; intros i; cbn; [split; [done|lia]|]. destruct (v6u16 v i =? 0) eqn:E; [|split; [lia|lia]].
  destruct (IH (S i)) as [L Z]. split; [lia|]. intros [|j] Hj; [rewrite Nat.add_0_r; by apply Z.eqb_eq|].
  replace (i + S j)%nat with (S i + j)%nat by lia. apply Z. lia.
Qed.
(** No run, or a run of zeros of at least two groups. *)
Definition span_ok (v : Z) (p : nat * nat) : Prop :=
  p = (255%nat, 255%nat) ∨ (p.1 + 2 <= p.2 <= 8)%nat ∧ ∀ i, (p.1 <= i < p.2)%nat → v6u16 v i = 0.
Lemma zero_span_ok v : span_ok v (zero_span v).
Proof.
  unfold zero_span. assert (G : ∀ xs best, (∀ i, i ∈ xs → (i < 8)%nat) → span_ok v best →
    span_ok v (fold_left (λ best i, let l := zero_run v i (8 - i) in
      if (2 <=? l)%nat && (best.2 - best.1 <? l)%nat then (i, (i + l)%nat) else best) xs best)).
  { induction xs as [|i xs IH]; intros best Hi B; cbn [fold_left]; [done|]. apply IH; [intros j Hj; apply Hi; by right|].
    destruct (zero_run_spec v i (8 - i)) as [L Z]. assert (i < 8)%nat by (apply Hi; by left).
    destruct (_ && _) eqn:C; [|done]. apply andb_true_iff in C as [C%Nat.leb_le _]. right. cbn. split; [lia|].
    intros j Hj. replace j with (i + (j - i))%nat by lia. apply Z. lia. }
  apply G; [intros i Hi%elem_of_seq; lia|by left].
Qed.

(** The text between the colons. *)
Fixpoint fields (c : byte) (l : list byte) : list (list byte) :=
  match l with
  | [] => [[]]
  | x :: l => if bool_decide (x = c) then [] :: fields c l else match fields c l with f :: fs => (x :: f) :: fs | [] => [[x]] end
  end.
Lemma fields_free c a : c ∉ a → fields c a = [a].
Proof.
  induction a as [|x a IH]; [done|]. intros [N Na]%not_elem_of_cons. cbn. rewrite bool_decide_eq_false_2 by congruence. by rewrite IH.
Qed.
Lemma fields_app c a b : c ∉ a → fields c (a ++ c :: b) = a :: fields c b.
Proof.
  induction a as [|x a IH]; cbn; [by rewrite bool_decide_eq_true_2|]. intros [N Na]%not_elem_of_cons.
  rewrite bool_decide_eq_false_2 by congruence. by rewrite IH.
Qed.
Lemma fields_cons c b : fields c (c :: b) = [] :: fields c b.
Proof. cbn. by rewrite bool_decide_eq_true_2. Qed.

Definition full (f : list byte) : bool := negb (bool_decide (f = [])).
Fixpoint take_full (fs : list (list byte)) : list (list byte) :=
  match fs with f :: fs => if full f then f :: take_full fs else [] | [] => [] end.
Definition read_groups (l : list byte) : list Z :=
  let fs := fields ":"%byte l in
  let a := take_full fs in
  let b := List.filter full (drop (length a) fs) in
  map read_hex a ++ replicate (8 - length a - length b) 0 ++ map read_hex b.

Section Groups.
Context (v : Z).
Notation h i := (octets (hex16 (v6u16 v i))).
Lemma h_colon i : ":"%byte ∉ h i.
Proof. by apply hex16_free; [apply group_range|]. Qed.
Lemma h_full i : full (h i) = true.
Proof. unfold full. rewrite bool_decide_eq_false_2; [done|]. apply hex16_read, group_range. Qed.
Lemma h_read i : read_hex (h i) = v6u16 v i.
Proof. apply hex16_read, group_range. Qed.
Lemma full_nil : full [] = false.
Proof. done. Qed.

(** Takes the text of known runs apart. *)
Ltac read_back :=
  cbn -[hex16 v6u16 octets String.append read_groups]; rewrite !octets_app; unfold read_groups;
  change (octets ":") with [":"%byte]; change (octets "::") with [":"%byte; ":"%byte]; change (octets "") with (@nil byte); cbn [app]; rewrite ?app_nil_r;
  repeat first [rewrite fields_app by apply h_colon | rewrite fields_cons | rewrite fields_free by apply h_colon];
  cbn [fields];
  repeat (progress (cbn [take_full]; rewrite ?h_full, ?full_nil)); cbn [length drop List.filter];
  repeat (progress (cbn [List.filter]; rewrite ?h_full, ?full_nil));
  cbn -[v6u16 hex16 octets read_hex]; rewrite ?h_read.
Lemma read_string6 : read_groups (octets (string6 v)) = map (v6u16 v) (seq 0 8).
Proof.
  unfold string6. pose proof (zero_span_ok v) as S. destruct (zero_span v) as [zs ze].
  assert (D : (zs = 255 ∧ ze = 255)%nat ∨ (zs + 2 <= ze <= 8)%nat ∧ ∀ i, (zs <= i < ze)%nat → v6u16 v i = 0).
  { destruct S as [[= -> ->]|S]; [by left|by right]. }
  clear S. destruct D as [[-> ->]|[L Z]]; [by read_back|].
  do 7 (destruct zs as [|zs]; [do 9 (destruct ze as [|ze]; [try lia; read_back; repeat f_equal; symmetry; apply Z; lia|]); lia|]).
  lia.
Qed.
End Groups.

Lemma string6_inj v w : 0 <= v < 2 ^ 128 → 0 <= w < 2 ^ 128 → string6 v = string6 w → v = w.
Proof.
  intros Hv Hw E. apply groups_inj; [done..|]. intros i Hi.
  pose proof (read_string6 v) as R. rewrite E, (read_string6 w) in R.
  apply (f_equal (λ l, l !! i)) in R. change (map (v6u16 w) (seq 0 8)) with (v6u16 w <$> seq 0 8) in R.
  change (map (v6u16 v) (seq 0 8)) with (v6u16 v <$> seq 0 8) in R. rewrite !list_lookup_fmap, !lookup_seq_lt in R by done.
  by injection R.
Qed.

(** * Addresses and prefixes *)

Lemma groups6_free c v zs ze i f : hex_value c = None → c ≠ ":"%byte → free c (groups6 v zs ze i f).
Proof.
  intros H N. assert (Hf : ∀ i, free c (hex16 (v6u16 v i))) by (intros; by apply hex16_free; [apply group_range|]).
  assert (free c ":" ∧ free c "::" ∧ free c "") as (F1 & F2 & F0) by (unfold free; cbn; set_solver).
  revert i. induction f as [|f IH]; intros i; cbn [groups6]; [done|].
  repeat case_match; repeat first [assumption | apply Hf | apply IH | apply free_app].
Qed.
Lemma string6_free c v : hex_value c = None → c ≠ ":"%byte → free c (string6 v).
Proof. unfold string6. destruct (zero_span v). apply groups6_free. Qed.
Lemma string4_free c v : is_digit c = false → c ≠ "."%byte → free c (string4 v).
Proof.
  intros D N. assert (free c ".") by (unfold free; cbn; set_solver). unfold string4. repeat first [assumption | by apply dec_free | apply free_app].
Qed.
Lemma string4_inj v w : 0 <= v < 2 ^ 32 → 0 <= w < 2 ^ 32 → string4 v = string4 w → v = w.
Proof.
  intros Hv Hw E. unfold string4 in E.
  assert (P : ∀ x, 0 <= x < 2 ^ 32 → 0 <= x / 2 ^ 24 ∧ 0 <= x / 2 ^ 16 mod 256 ∧ 0 <= x / 2 ^ 8 mod 256 ∧ 0 <= x mod 256).
  { intros x Hx. split_and!; [apply Z.div_pos; lia|by apply Z.mod_pos_bound..]. }
  destruct (P v Hv) as (V1 & V2 & V3 & V4), (P w Hw) as (W1 & W2 & W3 & W4).
  assert (F : ∀ z, free (Ascii.byte_of_ascii "."%char) (dec z)) by (intros; by apply dec_free).
  apply split_string in E as [E1%dec_inj E]; [|done..]. apply split_string in E as [E2%dec_inj E]; [|done..].
  apply split_string in E as [E3%dec_inj E4%dec_inj]; [|done..]. clear -E1 E2 E3 E4 Hv Hw. Z.to_euclidean_division_equations. lia.
Qed.

Lemma Addr_String_free c a : Zone a = "" → Addr_IsValid a = true → hex_value c = None → c ≠ ":"%byte → c ≠ "."%byte → free c (Addr_String a).
Proof.
  intros Z V H N1 N2. assert (is_digit c = false) as D by (unfold hex_value in H; by destruct (is_digit c)).
  destruct a as [|v|v z]; [done|by apply string4_free|]. cbn in Z. subst z. unfold Addr_String, zone_suffix. cbn -[Is4In6].
  apply free_app; [|unfold free; cbn; set_solver]. destruct (Is4In6 _); [|by apply string6_free].
  apply free_app; [|by apply string4_free]. unfold free. cbn.
  repeat (apply not_elem_of_cons; split); [congruence| | | | | |congruence|set_solver].
  all: try congruence. all: intros ->; discriminate H.
Qed.

Lemma dot_in_string4 v : ¬ free (Ascii.byte_of_ascii "."%char) (string4 v).
Proof. eapply separated; [|reflexivity]. by apply dec_free. Qed.
Lemma Addr_String_inj a b : wf_addr a → wf_addr b → Zone a = "" → Zone b = "" → Addr_IsValid a = true → Addr_IsValid b = true →
  Addr_String a = Addr_String b → a = b.
Proof.
  assert (C : ∀ v, free (Ascii.byte_of_ascii ":"%char) (string4 v)) by (intros; by apply string4_free).
  assert (N : ∀ v, free (Ascii.byte_of_ascii "."%char) (string6 v)) by (intros; by apply string6_free).
  assert (M : ∀ v w, string4 v ≠ "::ffff:" +:+ string4 w).
  { intros v w E. specialize (C v). rewrite E in C. apply C. by left. }
  assert (M6 : ∀ v w, string6 v ≠ "::ffff:" +:+ string4 w).
  { intros v w E. specialize (N v). rewrite E in N. apply (dot_in_string4 w). intros X. apply N.
    rewrite octets_app, elem_of_app. by right. }
  assert (X : ∀ v w, string4 v ≠ string6 w) by (intros v w E; apply (dot_in_string4 v); rewrite E; done).
  assert (Z0 : ∀ s, s +:+ zone_suffix "" = s) by (intros s; apply (inj octets); rewrite octets_app; cbn; apply app_nil_r).
  intros Wa Wb Za Zb Va Vb. destruct a as [|v|v z], b as [|w|w y]; try done; cbn in Za, Zb; subst; unfold Addr_String; rewrite ?Z0;
    cbn in Wa, Wb; repeat match goal with |- context [Is4In6 ?x] => destruct (Is4In6 x) eqn:? end; intros E;
    try first [destruct (M _ _ E) | destruct (M6 _ _ E) | destruct (X _ _ E) | destruct (M _ _ (eq_sym E)) | destruct (M6 _ _ (eq_sym E)) | destruct (X _ _ (eq_sym E))].
  - by rewrite (string4_inj v w).
  - apply (inj (String.append "::ffff:")) in E. f_equal. apply string4_inj in E; [|apply Z.mod_pos_bound; lia..].
    unfold Is4In6 in Heqb, Heqb0. apply Z.eqb_eq in Heqb, Heqb0. rewrite Z.shiftr_div_pow2 in Heqb, Heqb0 by lia.
    pose proof (Z.div_mod v (2 ^ 32)). pose proof (Z.div_mod w (2 ^ 32)). lia.
  - by rewrite (string6_inj v w).
Qed.

(** A valid prefix without a zone. *)
Definition printable (p : Prefix) : Prop := wf_prefix p ∧ Prefix_IsValid p = true.
Lemma printable_addr p : printable p → wf_addr (Prefix_Addr p) ∧ Zone (Prefix_Addr p) = "" ∧ Addr_IsValid (Prefix_Addr p) = true ∧ 0 <= Bits p.
Proof.
  intros [(W & Z & B) V]. unfold Prefix_IsValid in V. apply Z.leb_le in V. destruct B as [B|[A B]]; [lia|]. by split_and!.
Qed.
Lemma Prefix_String_slash p : printable p → Prefix_String p = Addr_String (Prefix_Addr p) +:+ String "/"%char (dec (Bits p)) ∧
  free (Ascii.byte_of_ascii "/"%char) (Addr_String (Prefix_Addr p)).
Proof.
  intros P. destruct (printable_addr p P) as (W & Z & V & B). destruct P as [_ Va]. unfold Prefix_String. rewrite Va. split; [done|].
  by apply Addr_String_free.
Qed.
Lemma Prefix_String_inj p q : printable p → printable q → Prefix_String p = Prefix_String q → p = q.
Proof.
  intros P Q. destruct (Prefix_String_slash p P) as [-> Fp], (Prefix_String_slash q Q) as [-> Fq]. intros [Ea Eb]%split_string; [|done..].
  destruct (printable_addr p P) as (Wp & Zp & Vp & Bp), (printable_addr q Q) as (Wq & Zq & Vq & Bq).
  apply Addr_String_inj in Ea; [|done..]. apply dec_inj in Eb; [|done..]. destruct p, q. cbn in *. by subst.
Qed.
Lemma Prefix_String_free c p : printable p → hex_value c = None → c ≠ ":"%byte → c ≠ "."%byte → c ≠ "/"%byte → free c (Prefix_String p).
Proof.
  intros P H N1 N2 N3. destruct (Prefix_String_slash p P) as [-> _]. destruct (printable_addr p P) as (W & Z & V & B).
  apply free_app; [by apply Addr_String_free|]. unfold free. rewrite octets_cons. apply not_elem_of_cons. split; [done|].
  apply dec_free. unfold hex_value in H. by destruct (is_digit c).
Qed.
