(* ===== verification/Validate.v ===== *)
(** internal/spec/spec.go: [Validate], and internal/link/derive.go and
    internal/reconcile/desired.go: [DeriveBootstrap] and [BuildDesiredState].
    The packages uuid, wgctrl and hkdf are parameters.  A problem is its message
    without the formatted arguments. *)

From S2P Require Import Prelude Netip NetipText GoText Sha256 Ports Spec Link Desired Netlink Routes Backend.
From stdpp Require Import gmap strings.
Open Scope Z_scope.
Open Scope velvet_scope.

Definition v1alpha2 : string := "velvet.io/v1alpha2".
Definition NodeSpecKind : string := "NodeSpec".
Definition DynamicLinksActive : string := "active".
Definition DynamicLinksPassive : string := "passive".
Definition DynamicLinksOff : string := "off".

(** * Names and keys *)

Definition is_lower_digit (c : byte) : bool :=
  let z := b2z c in ((97 <=? z) && (z <=? 122)) || ((48 <=? z) && (z <=? 57)).
(** [^[a-z0-9]{0,5}$] and [^[A-Za-z0-9_.-]+$]. *)
Definition uidNamePattern (s : string) : bool := forallb is_lower_digit (octets s) && (len (octets s) <=? 5).
Definition interfacePattern (s : string) : bool := negb (bool_decide (octets s = [])) && forallb is_name_char (octets s).
Definition validInterfaceName (value : string) : bool :=
  (0 <? len (octets value)) && (len (octets value) <=? 15) && negb (bool_decide (value = "."%string)) &&
  negb (bool_decide (value = ".."%string)) && interfacePattern value.

(** [strings.ToLower], of which only letters and digits of ASCII are kept: two
    other letters, U+0130 and U+212A, have such a small form. *)
Fixpoint interface_slug (s : list byte) : list byte :=
  match s with
  | [] => []
  | c :: t =>
    let z := b2z c in
    if is_lower_digit c then c :: interface_slug t
    else if (65 <=? z) && (z <=? 90) then z2b (z + 32) :: interface_slug t
    else match t with
      | d :: u =>
        if (z =? 0xc4) && (b2z d =? 0xb0) then "i"%byte :: interface_slug u
        else match u with
          | e :: v => if (z =? 0xe2) && (b2z d =? 0x84) && (b2z e =? 0xaa) then "k"%byte :: interface_slug v else interface_slug t
          | [] => interface_slug t
          end
      | [] => []
      end
  end.
Definition interfaceSlug (value : string) : list byte :=
  match interface_slug (octets value) with [] => octets "peer" | s => s end.
Definition deriveDigest (key : list byte) (values : list string) : list byte := digest key (map octets values).
Definition ReplaceAll_dash (s : list byte) : list byte := filter (λ c, c ≠ "-"%byte) s.
Definition InterfaceName_of (local : NodeUID) (peerName peerPublicKey : string) : string :=
  let left :=
    if bool_decide (uid_Name local = ""%string) then
      let l := ReplaceAll_dash (octets (uid_UUID local)) in
      if len l <? 5 then octets "node0" else take 5 l
    else octets (uid_Name local) in
  let right := interfaceSlug peerName in
  let readable := octets "vl-" ++ left ++ octets "-" ++ right in
  if len readable <=? 15 then text readable
  else
    let d := deriveDigest (octets "velvet/interface-name/v2") [uid_UUID local; peerName; peerPublicKey] in
    (text (octets "vl-" ++ first_runes 3 left ++ octets "-" ++ first_runes 3 right ++ octets "-") +:+ hex02 (d !!! 0%nat) +:+ hex02 (d !!! 1%nat))%string.

Definition parseInlineKey (value : string) : result (list byte) :=
  match base64_Decode (trim_octets (octets value)) with
  | Some decoded => if len decoded =? 32 then Ok decoded else Err (errors_New "key must decode to 32 bytes")
  | None => Err (errors_New "key must decode to 32 bytes")
  end.
Definition ParsePSK := parseInlineKey.
Definition validateEndpoint (value : string) : result unit :=
  match SplitHostPort (octets value) with
  | Some (host, port) =>
    if bool_decide (host = []) || bool_decide (port = []) then Err (errors_New "invalid endpoint")
    else match Atoi port with
      | Some n => if (n <? 1) || (65535 <? n) then Err (errors_New "invalid endpoint port") else Ok tt
      | None => Err (errors_New "invalid endpoint port")
      end
  | None => Err (errors_New "invalid endpoint")
  end.

(** * Validation *)

(** [if b { problems = append(problems, text) }]. *)
Definition problem (b : bool) (message : string) : list string := if b then [message] else [].
Definition problem_of {A} (r : result A) : list string := match r with Err e => [Error e] | _ => [] end.
Definition failed {A} (r : result A) : bool := match r with Ok _ => false | _ => true end.

Definition validate_fabric (f : FabricSpec) : list string :=
  problem (failed (parseInlineKey (PSK f))) "fabric.psk must be an inline base64 32-byte key" ++
  problem_of (parseOptionalPool (LinkPrefixV4 f) true 30) ++
  problem_of (parseOptionalPool (LinkPrefixV6 f) false 126) ++
  problem_of (parsePool (LoopbackPrefixV6 f) false 128) ++
  problem (match VFPPort f with Some p => (p <? 1) || (65535 <? p) | None => false end) "fabric.vfp_port must be between 1 and 65535" ++
  problem_of (validateTableID (EffectiveRoutingTableID f)).

Definition IsAbs (path : string) : bool := Backend.HasPrefix path "/".
Definition validate_babel (b : option BabelSpec) : list string :=
  match b with
  | None => []
  | Some b =>
    problem (bool_decide (Enabled b = None)) "babel.enabled is required when babel is present" ++
    problem (negb (bool_decide (Executable b = ""%string)) && negb (IsAbs (Executable b))) "babel.executable must be an absolute path"
  end.

Definition candidate_prefix (acc : gset Prefix * list string) (raw : string) : gset Prefix * list string :=
  let '(seen, problems) := acc in
  match parseCanonicalPrefix raw with
  | Ok prefix => ({[prefix]} ∪ seen, problems ++ problem (bool_decide (prefix ∈ seen)) "dynamic_links.allow_candidate_prefixes duplicates")
  | _ => (seen, problems ++ ["dynamic_links.allow_candidate_prefixes must be a canonical network prefix"%string])
  end.
Definition validate_mode (d : DynamicLinksSpec) : list string :=
  if bool_decide (Mode d = DynamicLinksActive) || bool_decide (Mode d = DynamicLinksPassive) then
    problem (bool_decide (AllowCandidatePrefixes d = [])) "dynamic_links.allow_candidate_prefixes must not be empty in active or passive mode"
  else if bool_decide (Mode d = DynamicLinksOff) then []
  else if bool_decide (Mode d = ""%string) then ["dynamic_links.mode is required when dynamic_links is present"%string]
  else ["dynamic_links.mode must be active, passive, or off"%string].
Definition validate_dynamic (d : option DynamicLinksSpec) : list string :=
  match d with
  | None => []
  | Some d => validate_mode d ++ (foldl candidate_prefix (∅, []) (AllowCandidatePrefixes d)).2
  end.

Definition validateLoopback (raw : string) (pool : result Prefix) : list string :=
  if bool_decide (raw = ""%string) then []
  else match ParseAddr raw with
    | Ok addr =>
      if negb (Is6 addr) || negb (validUnicast addr) then ["node.loopback_address_v6 must be a valid unicast address"%string]
      else match pool with
        | Ok p => problem (negb (Contains p addr)) "node.loopback_address_v6 is outside its Fabric loopback prefix"
        | _ => []
        end
    | _ => ["node.loopback_address_v6 must be a valid unicast address"%string]
    end.

Section External.
Context (uuid_Parse : string → option (list byte)) (uuid_String : list byte → string).
Context (wgtypes_ParseKey : string → option (list byte)) (public_key : list byte → list byte).
Context (hkdf32 : list byte → list byte → result (list byte)).

Definition uuid_Nil : list byte := replicate 16 x00.
Definition ParseKey (value : string) : result (list byte) :=
  match wgtypes_ParseKey (GoText.TrimSpace value) with Some k => Ok k | None => Err (errors_New "wgtypes: failed to parse key") end.
Definition ParsedUUID (s : NodeSpec) : result (list byte) :=
  match uuid_Parse (uid_UUID (UID (n_Node s))) with Some u => Ok u | None => Panic end.

Definition validate_node (s : NodeSpec) : list string :=
  let uid := UID (n_Node s) in
  problem (negb (uidNamePattern (uid_Name uid))) "node.uid.name must contain at most five lowercase letters or digits" ++
  problem (match uuid_Parse (uid_UUID uid) with Some u => bool_decide (u = uuid_Nil) | None => true end) "node.uid.uuid must be a non-zero UUID" ++
  problem (failed (ParseKey (PrivateKey (n_Node s)))) "node.private_key must be an inline base64 WireGuard key" ++
  validateLoopback (LoopbackAddressV6 (n_Node s)) (parsePool (LoopbackPrefixV6 (Fabric s)) false 128).

Definition validate_ports (s : NodeSpec) : list string :=
  match DynamicLinks s with Some d => problem_of (ListenPorts_Validate (dl_ListenPorts d)) | None => [] end ++
  problem_of (validateVFPPort (DynamicPorts s) (EffectiveVFPPort (Fabric s))) ++
  match DynamicLinks s with
  | Some d => match Durable d with Some x => problem_of (DurableSpec_Validate x) | None => [] end
  | None => []
  end.

(** ** Peers *)

(** The names, interfaces and ports of the peers so far. *)
Record peers_seen := mkSeen { names : gset string; interfaces : gmap string string; ports : gmap Z string }.

Definition validate_endpoint (acc : gset string * list string) (endpoint : string) : gset string * list string :=
  let '(seen, problems) := acc in
  ({[endpoint]} ∪ seen,
   problems ++ match validateEndpoint endpoint with
     | Ok _ => problem (bool_decide (endpoint ∈ seen)) "endpoints contains a duplicate endpoint"
     | r => problem_of r
     end).
Definition inside (pool : result Prefix) (a : Addr) : bool :=
  match pool with Ok p => Prefix_IsValid p && Contains p a | _ => true end.
Definition link_address (s : NodeSpec) (acc : gset bool * list string) (raw : string) : gset bool * list string :=
  let '(seen, problems) := acc in
  match ParsePrefix raw with
  | Ok prefix =>
    if negb (bool_decide (prefix = Masked prefix)) || negb (Bits prefix =? linkBits (Prefix_Addr prefix))
    then (seen, problems ++ ["link_addresses must contain canonical /30 IPv4 or /126 IPv6 prefixes"%string])
    else
      let family := Is4 (Prefix_Addr prefix) in
      ({[family]} ∪ seen,
       problems ++ problem (bool_decide (family ∈ seen)) "link_addresses contains the same family twice" ++
       problem (family && negb (inside (parseOptionalPool (LinkPrefixV4 (Fabric s)) true 30) (Prefix_Addr prefix)))
         "link_addresses IPv4 prefix requires and must be inside fabric.link_prefix_v4" ++
       problem (negb family && negb (inside (parseOptionalPool (LinkPrefixV6 (Fabric s)) false 126) (Prefix_Addr prefix)))
         "link_addresses IPv6 prefix requires and must be inside fabric.link_prefix_v6")
  | _ => (seen, problems ++ ["link_addresses must contain canonical /30 IPv4 or /126 IPv6 prefixes"%string])
  end.

Definition peer_interface (s : NodeSpec) (peer : Peer) : string :=
  if bool_decide (p_InterfaceName peer = ""%string) then InterfaceName_of (UID (n_Node s)) (p_Name peer) (PublicKey peer)
  else p_InterfaceName peer.
Definition validate_key (s : NodeSpec) (peer : Peer) : list string :=
  match ParseKey (PublicKey peer) with
  | Ok publicKey =>
    match ParseKey (PrivateKey (n_Node s)) with
    | Ok privateKey => problem (bool_decide (publicKey = public_key privateKey)) "public_key cannot equal the local WireGuard public key"
    | _ => []
    end
  | _ => ["public_key must be an inline base64 WireGuard key"%string]
  end.
Definition see_peer (s : NodeSpec) (seen : peers_seen) (peer : Peer) : peers_seen :=
  let port := pc_Port (PeerPorts peer) in
  mkSeen ({[p_Name peer]} ∪ names seen) (<[peer_interface s peer := p_Name peer]> (interfaces seen))
    (if 0 <? port then <[port := p_Name peer]> (ports seen) else ports seen).
Definition peer_problems (s : NodeSpec) (seen : peers_seen) (peer : Peer) : list string :=
  let choice := PeerPorts peer in
  let name := peer_interface s peer in
  (if negb (peerNamePattern (p_Name peer)) then ["name is invalid"%string]
   else problem (bool_decide (p_Name peer ∈ names seen)) "name is duplicated") ++
  validate_key s peer ++
  (foldl validate_endpoint (∅, []) (p_Endpoints peer)).2 ++
  problem_of (ListenPorts_Validate (p_ListenPorts peer)) ++
  problem_of (validateVFPPort choice (EffectiveVFPPort (Fabric s))) ++
  problem ((0 <? pc_Port choice) && bool_decide (is_Some (ports seen !! pc_Port choice))) "listen_ports is already used by peer" ++
  problem (match PersistentKeepaliveSeconds peer with Some k => (k <? 0) || (65535 <? k) | None => false end)
    "persistent_keepalive_seconds must be between 0 and 65535" ++
  (if negb (validInterfaceName name) then ["interface_name is invalid"%string]
   else problem (bool_decide (is_Some (interfaces seen !! name))) "resolves to interface already used by peer") ++
  (foldl (link_address s) (∅, []) (LinkAddresses peer)).2.
Definition validate_peer (s : NodeSpec) (acc : peers_seen * list string) (peer : Peer) : peers_seen * list string :=
  (see_peer s acc.1 peer, acc.2 ++ peer_problems s acc.1 peer).
Definition validate_peers (s : NodeSpec) : peers_seen * list string :=
  foldl (validate_peer s) (mkSeen ∅ ∅ ∅, []) (Peers s).

Definition problems_of (s : NodeSpec) : list string :=
  problem (negb (bool_decide (APIVersion s = v1alpha2))) "api_version must be velvet.io/v1alpha2" ++
  problem (negb (bool_decide (Kind s = NodeSpecKind))) "kind must be NodeSpec" ++
  validate_fabric (Fabric s) ++ validate_babel (Babel s) ++ validate_dynamic (DynamicLinks s) ++
  validate_node s ++ validate_ports s ++
  problem (bool_decide (Peers s = [])) "peers must not be empty" ++
  (validate_peers s).2 ++ validateRouting s (names (validate_peers s).1).
Definition Validate (s : NodeSpec) : result unit :=
  match problems_of s with
  | [] => Ok tt
  | problems => Err (errors_New ("invalid NodeSpec: " +:+ String.concat "; " problems))
  end.

(** * Building the desired state *)

Record Bootstrap := mkBootstrap {
  b_InterfaceName : string; b_ListenPort : Z; b_LocalAddress : Prefix; b_PresharedKey : list byte }.
Definition DeriveBootstrap (fabricPSK localPrivate peerPublic : list byte) (localUID : NodeUID) (peer : Peer) : result Bootstrap :=
  let localPublic := public_key localPrivate in
  if bool_decide (localPublic = peerPublic) then Err (errors_New "peer WireGuard public key equals local public key")
  else match uuid_Parse (uid_UUID localUID) with
    | Some uid =>
      if bool_decide (uid = uuid_Nil) then Err (errors_New "local Node UUID is invalid")
      else
        let interfaceName := if bool_decide (p_InterfaceName peer = ""%string)
          then InterfaceName_of localUID (p_Name peer) (PublicKey peer) else p_InterfaceName peer in
        key ← deriveWGLinkPSK hkdf32 fabricPSK localPublic peerPublic;
        Ok (mkBootstrap interfaceName (pc_Port (Choice (p_ListenPorts peer))) (DeriveLinkLocal fabricPSK uid interfaceName) key)
    | None => Err (errors_New "local Node UUID is invalid")
    end.

Definition second : Z := 1000000000.
Definition build_dynamic (d : option DynamicLinksSpec) : result (option DynamicLinksPlan) :=
  match d with
  | None => Ok None
  | Some d =>
    prefixes ← loop (λ acc raw, p ← MustParsePrefix raw; Ok (acc ++ [p])) [] (AllowCandidatePrefixes d);
    Ok (Some (mkDynamicLinksPlan (Mode d) prefixes
      (match RecoveryTimeoutSeconds d with Some t => t * second | None => 30 * 60 * second end)))
  end.

Definition link_plan (privateKey uid peerKey : list byte) (peer : Peer) (bootstrap : Bootstrap) : LinkPlan :=
  mkLinkPlan false (PeerPorts peer) false false (p_Name peer) (b_InterfaceName bootstrap)
    ("velvet:link:" +:+ uuid_String uid +:+ ":" +:+ p_Name peer) privateKey peerKey (b_PresharedKey bootstrap)
    (pc_Port (PeerPorts peer)) (p_Endpoints peer) ((λ k, k * second) <$> PersistentKeepaliveSeconds peer)
    (b_LocalAddress bootstrap) (LinkAddresses peer).
(** One peer: the ports and the plans so far. *)
Record links_built := mkBuilt { lb_ports : gmap Z string; lb_Links : list LinkPlan; lb_links : gmap string LinkPlan }.
Definition build_link (s : NodeSpec) (fabricPSK privateKey uid : list byte) (acc : links_built) (peer : Peer) : result links_built :=
  peerKey ← ParseKey (PublicKey peer);
  bootstrap ← DeriveBootstrap fabricPSK privateKey peerKey (UID (n_Node s)) peer;
  if bool_decide (is_Some (lb_ports acc !! b_ListenPort bootstrap)) && negb (b_ListenPort bootstrap =? 0)
  then Err (errors_New "peers use the same listen port; set different listen_ports")
  else
    let item := link_plan privateKey uid peerKey peer bootstrap in
    Ok (mkBuilt (<[b_ListenPort bootstrap := p_Name peer]> (lb_ports acc)) (lb_Links acc ++ [item]) (<[p_Name peer := item]> (lb_links acc))).

Definition BuildDesiredState (s : NodeSpec) : result DesiredState :=
  Validate s;;
  fabricPSK ← ParsePSK (PSK (Fabric s));
  pools ← ParseFabricPrefixes (Fabric s);
  let '(link4, link6, loop6) := pools in
  privateKey ← ParseKey (PrivateKey (n_Node s));
  uid ← ParsedUUID s;
  localLoop6 ← DeriveLoopbackV6 fabricPSK uid loop6 (LoopbackAddressV6 (n_Node s));
  dynamic ← build_dynamic (DynamicLinks s);
  built ← loop (build_link s fabricPSK privateKey uid) (mkBuilt ∅ [] ∅) (Peers s);
  let fabric := EffectiveRoutingTableID (Fabric s) in
  c ← compileRouting fabric s (lb_links built);
  babel ← (if IsEnabled (Babel s) then b ← compileBabel (uuid_String uid) fabric localLoop6 s; Ok (Some b) else Ok None);
  Ok (mkDesiredState [] (DynamicPorts s) (EffectiveDurable (d ← DynamicLinks s; Durable d)) (UID (n_Node s)) uid fabricPSK
    link4 link6 loop6 localLoop6 (EffectiveVFPPort (Fabric s)) fabric ("velvet:loopback:" +:+ uuid_String uid)
    (negb (bool_decide (f_StaticRoutes (Fabric s) = ∅)) || negb (bool_decide (Domains s = ∅)) || IsEnabled (Babel s))
    (lb_Links built) (c_Routes c) (c_Rules c) babel dynamic privateKey).
End External.
