(* ===== verification/BuildProps.v ===== *)
(** A specification that passes validation can be built: [BuildDesiredState] fails
    with nothing but the validation's own message.  What it builds is sound in
    the sense of Reconciled.v, so a node with a valid specification reconciles its
    kernel to what the specification says. *)

From S2P Require Import Prelude Netip NetipText GoText Sha256 Ports Spec SpecProps Link Desired DesiredProps Netlink Routes RoutesProps RoutesCompiled Backend BackendProps Untouched Reconciled Validate.
From stdpp Require Import gmap strings.
Open Scope Z_scope.
Open Scope velvet_scope.

(** * No problems *)

Lemma problem_nil b m : problem b m = [] → b = false.
Proof. by destruct b. Qed.
Lemma problem_of_nil {A} (r : result A) : problem_of r = [] → r = Panic ∨ ∃ a, r = Ok a.
Proof. destruct r as [a|e|]; [right; by exists a|done|by left]. Qed.
(** Splits the hypotheses that a concatenation is empty. *)
Ltac nils := repeat match goal with
  | X : _ ++ _ = [] |- _ => apply app_eq_nil in X as [? ?]
  | X : problem _ _ = [] |- _ => apply problem_nil in X
  end.

Lemma returns_canonical raw : returns (parseCanonicalPrefix raw).
Proof. unfold parseCanonicalPrefix. pose proof (returns_ParsePrefix raw). destruct (ParsePrefix raw); [by case_bool_decide|done..]. Qed.
Lemma returns_parsePool raw v b : returns (parsePool raw v b).
Proof.
  unfold parsePool. pose proof (returns_canonical raw) as R. destruct (parseCanonicalPrefix raw) as [p|e|]; [|done..].
  rewrite bind_Ok. repeat case_match; done.
Qed.
Lemma returns_parseOptionalPool raw v b : returns (parseOptionalPool raw v b).
Proof. unfold parseOptionalPool. case_match; [done|apply returns_parsePool]. Qed.
Lemma returned {A} (r : result A) : returns r → problem_of r = [] → ∃ a, r = Ok a.
Proof. intros R [->|X]%problem_of_nil; done. Qed.

Lemma candidates_fine raws seen ps : (foldl candidate_prefix (seen, ps) raws).2 = [] →
  ps = [] ∧ ∀ raw, raw ∈ raws → ∃ p, parseCanonicalPrefix raw = Ok p.
Proof.
  revert seen ps. induction raws as [|raw raws IH]; intros seen ps; cbn [foldl]; [intros E; split; [done|by intros raw []%not_elem_of_nil]|].
  unfold candidate_prefix at 2. destruct (parseCanonicalPrefix raw) as [p|e|] eqn:Er; intros [E F]%IH; nils; [split; [done|]|done..].
  intros x [->|Hx]%elem_of_cons; [by exists p|by apply F].
Qed.

(** * Validated peers *)

Section External.
Context (uuid_Parse : string → option (list byte)) (uuid_String : list byte → string).
Context (wgtypes_ParseKey : string → option (list byte)) (public_key : list byte → list byte).
Context (hkdf32 : list byte → list byte → result (list byte)).
Notation ParseKey := (ParseKey wgtypes_ParseKey).
Notation Validate := (Validate uuid_Parse wgtypes_ParseKey public_key).
Notation BuildDesiredState := (BuildDesiredState uuid_Parse uuid_String wgtypes_ParseKey public_key hkdf32).

Section Peers.
Context (s : NodeSpec).
Notation peer_problems := (peer_problems wgtypes_ParseKey public_key s).
Notation see_peer := (see_peer s).

(** Every peer is fine after those before it. *)
Fixpoint peers_fine (seen : peers_seen) (peers : list Peer) : Prop :=
  match peers with
  | [] => True
  | peer :: peers => peer_problems seen peer = [] ∧ peers_fine (see_peer seen peer) peers
  end.
Lemma validate_peers_fine peers seen ps : (foldl (validate_peer wgtypes_ParseKey public_key s) (seen, ps) peers).2 = [] →
  ps = [] ∧ peers_fine seen peers.
Proof.
  revert seen ps. induction peers as [|peer peers IH]; intros seen ps; cbn [foldl]; [done|].
  unfold validate_peer at 2. cbn [fst snd]. intros [E F]%IH. nils. done.
Qed.
Lemma validate_peers_seen peers seen ps :
  (foldl (validate_peer wgtypes_ParseKey public_key s) (seen, ps) peers).1 = foldl see_peer seen peers.
Proof. revert seen ps. induction peers as [|peer peers IH]; intros seen ps; cbn [foldl]; [done|]. apply IH. Qed.

(** What a peer without problems gives. *)
Record peer_fine (seen : peers_seen) (peer : Peer) : Prop := {
  pf_name : p_Name peer ∉ names seen;
  pf_key : ∃ k, ParseKey (PublicKey peer) = Ok k ∧ ∀ priv, ParseKey (PrivateKey (n_Node s)) = Ok priv → k ≠ public_key priv;
  pf_port : 0 <= pc_Port (PeerPorts peer) <= 65535;
  pf_ports : 0 < pc_Port (PeerPorts peer) → ports seen !! pc_Port (PeerPorts peer) = None;
  pf_iface : validInterfaceName (peer_interface s peer) = true;
  pf_ifaces : interfaces seen !! peer_interface s peer = None
}.
Lemma no_key (x : option string) : bool_decide (is_Some x) = false → x = None.
Proof. intros X%bool_decide_eq_false. by apply eq_None_not_Some. Qed.
Lemma peer_problems_fine seen peer : peer_problems seen peer = [] → peer_fine seen peer.
Proof.
  unfold Validate.peer_problems, validate_key. intros E. nils. split.
  - destruct (peerNamePattern (p_Name peer)); [|done]. cbn in *. nils. by apply bool_decide_eq_false in H.
  - destruct (ParseKey (PublicKey peer)) as [k|e|]; [|done..]. exists k. split; [done|]. intros priv Ep. rewrite Ep in H0. nils.
    by apply bool_decide_eq_false in H0.
  - unfold ListenPorts_Validate, PeerPorts in *. destruct (_ || _) eqn:B; [done|]. apply orb_false_iff in B as [B1 B2].
    apply Z.ltb_ge in B1, B2. done.
  - intros P. apply Z.ltb_lt in P. rewrite P in H4. by apply no_key.
  - by destruct (validInterfaceName (peer_interface s peer)).
  - destruct (validInterfaceName (peer_interface s peer)); [|done]. cbn in *. nils. by apply no_key.
Qed.

(** * Building the Links *)

Section Links.
Context (psk priv uid : list byte) (Hu : uuid_Parse (uid_UUID (UID (n_Node s))) = Some uid) (Nu : uid ≠ uuid_Nil).
Context (Hp : ParseKey (PrivateKey (n_Node s)) = Ok priv) (Hk : ∀ secret info, ∃ k, hkdf32 secret info = Ok k).
Notation build := (build_link uuid_Parse uuid_String wgtypes_ParseKey public_key hkdf32 s psk priv uid).

(** The plan of a peer. *)
Record planned (peer : Peer) (plan : LinkPlan) : Prop := {
  pl_key : ParseKey (PublicKey peer) = Ok (PeerPublicKey plan);
  pl_other : PeerPublicKey plan ≠ public_key priv;
  pl_psk : DeriveWGLinkPSK hkdf32 psk (public_key priv) (PeerPublicKey plan) = Ok (PresharedKey plan);
  pl_plan : plan = link_plan uuid_String priv uid (PeerPublicKey plan) peer
    (mkBootstrap (peer_interface s peer) (pc_Port (PeerPorts peer)) (DeriveLinkLocal psk uid (peer_interface s peer)) (PresharedKey plan))
}.
Record agree (seen : peers_seen) (acc : links_built) : Prop := {
  ag_ports : ∀ p, p ≠ 0 → is_Some (lb_ports acc !! p) → is_Some (ports seen !! p);
  ag_names : dom (lb_links acc) = names seen;
  ag_ifaces : ∀ plan, plan ∈ lb_Links acc → is_Some (interfaces seen !! InterfaceName plan);
  ag_nodup : NoDup (map InterfaceName (lb_Links acc))
}.

Lemma build_link_fine seen acc peer : peer_problems seen peer = [] → agree seen acc →
  ∃ plan acc', build acc peer = Ok acc' ∧ lb_Links acc' = lb_Links acc ++ [plan] ∧ planned peer plan ∧ agree (see_peer seen peer) acc'.
Proof using Hu Nu Hp Hk.
  intros E%peer_problems_fine A. destruct E as [Nn (k & Ek & Kn) P1 P2 V Ni], A as [A1 A2 A3 A4].
  specialize (Kn priv Hp). assert (Ed : ∃ q, deriveWGLinkPSK hkdf32 psk (public_key priv) k = Ok q).
  { unfold deriveWGLinkPSK. destruct (bytes_Compare k (public_key priv)); apply Hk. }
  destruct Ed as [q Ed].
  set (b := mkBootstrap (peer_interface s peer) (pc_Port (PeerPorts peer)) (DeriveLinkLocal psk uid (peer_interface s peer)) q).
  assert (Eb : DeriveBootstrap uuid_Parse public_key hkdf32 psk priv k (UID (n_Node s)) peer = Ok b).
  { unfold DeriveBootstrap. rewrite bool_decide_eq_false_2 by done. rewrite Hu, bool_decide_eq_false_2 by done. rewrite Ed, bind_Ok. done. }
  exists (link_plan uuid_String priv uid k peer b). eexists. unfold build_link. rewrite Ek, bind_Ok, Eb, bind_Ok.
  change (b_ListenPort b) with (pc_Port (PeerPorts peer)).
  assert (bool_decide (is_Some (lb_ports acc !! pc_Port (PeerPorts peer))) && negb (pc_Port (PeerPorts peer) =? 0) = false) as ->.
  { apply andb_false_iff. destruct (pc_Port (PeerPorts peer) =? 0) eqn:E0; [by right|left]. apply Z.eqb_neq in E0.
    apply bool_decide_eq_false. intros X. apply A1 in X; [|done]. rewrite P2 in X by lia. by destruct X. }
  split; [reflexivity|]. split; [done|]. split; [by split|]. split; cbn.
  - intros p N. destruct (decide (p = pc_Port (PeerPorts peer))) as [->|Np].
    + intros _. rewrite (proj2 (Z.ltb_lt 0 _)) by lia. rewrite lookup_insert_eq. by eexists.
    + rewrite lookup_insert_ne by done. intros X%A1; [|done]. case_match; [|done]. by rewrite lookup_insert_ne.
  - rewrite dom_insert_L, A2. done.
  - intros plan [Hplan|Hplan%list_elem_of_singleton]%elem_of_app.
    + destruct (decide (InterfaceName plan = peer_interface s peer)) as [->|N]; [rewrite lookup_insert_eq; by eexists|].
      rewrite lookup_insert_ne by done. by apply A3.
    + subst plan. cbn. rewrite lookup_insert_eq. by eexists.
  - rewrite map_app. apply NoDup_app. split_and!; [done| |apply NoDup_singleton]. cbn.
    intros n (plan & -> & Hplan)%list_elem_of_fmap E%list_elem_of_singleton. apply A3 in Hplan. rewrite E, Ni in Hplan. by destruct Hplan.
Qed.
Lemma build_links_fine peers seen acc : peers_fine seen peers → agree seen acc →
  ∃ plans acc', loop build acc peers = Ok acc' ∧ lb_Links acc' = lb_Links acc ++ plans ∧ Forall2 planned peers plans ∧
    agree (foldl see_peer seen peers) acc'.
Proof using Hu Nu Hp Hk.
  revert seen acc. induction peers as [|peer peers IH]; intros seen acc; cbn [loop foldl peers_fine].
  - intros _ A. exists [], acc. rewrite app_nil_r. by split_and!.
  - intros [E F] A. destruct (build_link_fine seen acc peer E A) as (plan & acc1 & -> & El & Pl & A1). rewrite bind_Ok.
    destruct (IH _ _ F A1) as (plans & acc' & -> & El' & Fp & A'). exists (plan :: plans), acc'. split_and!; [done| |by constructor|done].
    by rewrite El', El, <- app_assoc.
Qed.
End Links.
End Peers.

(** * The whole *)

Context (Hk : ∀ secret info, ∃ k, hkdf32 secret info = Ok k).
Notation problems_of := (problems_of uuid_Parse wgtypes_ParseKey public_key).
Notation planned_in s d := (planned s (FabricPSK d) (ds_PrivateKey d) (UUID d)).

Lemma Validate_cases s : (problems_of s = [] ∧ Validate s = Ok tt) ∨ ∃ e, Validate s = Err e.
Proof. unfold Validate.Validate. destruct (problems_of s); [by left|right; by eexists]. Qed.

(** What was built, of what. *)
Record built (s : NodeSpec) (d : DesiredState) : Prop := {
  bt_psk : ParsePSK (PSK (Fabric s)) = Ok (FabricPSK d);
  bt_pools : ParseFabricPrefixes (Fabric s) = Ok (LinkPoolV4 d, LinkPoolV6 d, LoopbackPoolV6 d);
  bt_private : ParseKey (PrivateKey (n_Node s)) = Ok (ds_PrivateKey d);
  bt_uuid : uuid_Parse (uid_UUID (UID (n_Node s))) = Some (UUID d);
  bt_loopback : DeriveLoopbackV6 (FabricPSK d) (UUID d) (LoopbackPoolV6 d) (LoopbackAddressV6 (n_Node s)) = Ok (LoopbackV6 d);
  bt_address : wf_addr (LoopbackV6 d) ∧ Is6 (LoopbackV6 d) = true ∧ Zone (LoopbackV6 d) = ""%string;
  bt_alias : LoopbackOwnerAlias d = ("velvet:loopback:" +:+ uuid_String (UUID d))%string;
  bt_table : FabricTableID d = EffectiveRoutingTableID (Fabric s);
  bt_links : Forall2 (planned_in s d) (Peers s) (Links d);
  bt_nodup : NoDup (map InterfaceName (Links d));
  bt_routing : ∃ names links c, validateRouting s names = [] ∧ (∀ name, name ∈ names → is_Some (links !! name)) ∧
    compileRouting (FabricTableID d) s links = Ok c ∧ ds_Routes d = c_Routes c ∧ Rules d = c_Rules c
}.

Lemma fabric_fine f : validate_fabric f = [] →
  (∃ psk, ParsePSK (PSK f) = Ok psk) ∧ ∃ p4 p6 l6, ParseFabricPrefixes f = Ok (p4, p6, l6) ∧
    parsePool (LoopbackPrefixV6 f) false 128 = Ok l6.
Proof.
  unfold validate_fabric, ParsePSK. intros E. nils. split.
  - destruct (parseInlineKey (PSK f)) as [psk|e|]; [by exists psk|done..].
  - unfold ParseFabricPrefixes. destruct (returned _ (returns_parseOptionalPool _ _ _) H0) as [p4 ->].
    destruct (returned _ (returns_parseOptionalPool _ _ _) H1) as [p6 ->]. destruct (returned _ (returns_parsePool _ _ _) H2) as [l6 ->].
    rewrite !bind_Ok. by exists p4, p6, l6.
Qed.
Lemma loopback_fine raw pool psk uid : validateLoopback raw (Ok pool) = [] →
  ∃ a, DeriveLoopbackV6 psk uid pool raw = Ok a ∧ (raw = ""%string ∨ ParseAddr raw = Ok a ∧ Is6 a = true ∧ Contains pool a = true).
Proof.
  unfold validateLoopback, DeriveLoopbackV6. case_bool_decide as E; [intros _; eexists; split; [reflexivity|by left]|]. cbn [negb].
  destruct (ParseAddr raw) as [a|e|] eqn:Ea; [|done..]. destruct (negb (Is6 a) || _) eqn:B; [done|]. intros C. nils. exists a.
  split; [done|]. right. apply orb_false_iff in B as [B _]. apply negb_false_iff in B, C. by split_and!.
Qed.
Lemma pool_fine raw p : parsePool raw false 128 = Ok p → pool_of 128 p.
Proof.
  unfold parsePool. intros (q & E & X)%bind_ok. apply canonical_parsed in E as (E & _ & _). apply ParsePrefix_ok in E as (Wf & V & F).
  destruct (negb (eqb _ false)) eqn:N; [done|]. case_match; [done|]. injection X as <-. split_and!; [done|done|].
  destruct (Prefix_Addr q); cbn in *; [by destruct F|done|done].
Qed.
Lemma loopback_address raw pool psk uid a : pool_of 128 pool → DeriveLoopbackV6 psk uid pool raw = Ok a →
  (raw = ""%string ∨ ParseAddr raw = Ok a ∧ Is6 a = true ∧ Contains pool a = true) →
  wf_addr a ∧ Is6 a = true ∧ Zone a = ""%string.
Proof.
  intros P E [->|(Ep & S6 & C)].
  - destruct (DeriveLoopbackV6_in_pool psk uid pool P) as (b & Eb & Wf & C). assert (b = a) as -> by congruence. split; [done|].
    destruct P as (Wp & V & L). unfold Contains in C. destruct (negb _ || _) eqn:N; [done|]. apply orb_false_iff in N as [_ N].
    apply negb_false_iff, bool_decide_eq_true in N. split; [|done]. destruct (Prefix_Addr pool), a; done.
  - apply wf_ParseAddr in Ep as [Wf _]. split_and!; [done|done|]. unfold Contains in C. destruct (negb _ || _) eqn:N; [done|].
    apply orb_false_iff in N as [_ N]. by apply negb_false_iff, bool_decide_eq_true in N.
Qed.
Lemma dynamic_fine x : validate_dynamic x = [] → ∃ p, build_dynamic x = Ok p.
Proof.
  destruct x as [d|]; [|by eexists]. unfold validate_dynamic, build_dynamic. intros E. nils. apply candidates_fine in H0 as [_ F].
  assert (G : ∀ acc, ∃ ps, loop (λ acc raw, p ← MustParsePrefix raw; Ok (acc ++ [p])) acc (AllowCandidatePrefixes d) = Ok ps).
  { revert F. generalize (AllowCandidatePrefixes d). intros raws F. induction raws as [|raw raws IH]; intros acc; [by exists acc|].
    cbn [loop]. destruct (F raw) as [p Ep]; [by left|]. apply canonical_parsed in Ep as [Ep _].
    assert (M : MustParsePrefix raw = Ok p) by (unfold MustParsePrefix; by rewrite Ep). cbv beta. rewrite M, !bind_Ok. apply IH.
    intros r Hr. apply F. by right. }
  destruct (G []) as [ps ->]. rewrite bind_Ok. by eexists.
Qed.

Lemma build_built s : problems_of s = [] → ∃ d, BuildDesiredState s = Ok d ∧ built s d.
Proof using Hk.
  intros E. assert (V : Validate s = Ok tt) by (unfold Validate.Validate; by rewrite E).
  unfold Validate.problems_of in E. nils. unfold Validate.BuildDesiredState. rewrite V, bind_Ok.
  match goal with X : validate_fabric _ = [] |- _ => destruct (fabric_fine _ X) as ((psk & Epsk) & p4 & p6 & l6 & Ep & El) end.
  match goal with X : validate_node _ _ _ = [] |- _ => unfold validate_node in X; nils end.
  rewrite Epsk, bind_Ok, Ep, bind_Ok. cbv beta iota.
  destruct (ParseKey (PrivateKey (n_Node s))) as [priv|e|] eqn:Epr; [|done..]. rewrite bind_Ok. unfold ParsedUUID.
  destruct (uuid_Parse (uid_UUID (UID (n_Node s)))) as [uid|] eqn:Eu; [|done]. rewrite bind_Ok.
  match goal with X : bool_decide (uid = _) = false |- _ => apply bool_decide_eq_false in X as Nu end.
  match goal with X : validateLoopback _ _ = [] |- _ => rewrite El in X; destruct (loopback_fine _ _ psk uid X) as (loopback & Elo & Lo) end.
  rewrite Elo, bind_Ok. match goal with X : validate_dynamic _ = [] |- _ => destruct (dynamic_fine _ X) as [dyn ->] end. rewrite bind_Ok.
  match goal with X : (validate_peers _ _ _).2 = [] |- _ => unfold validate_peers in X; apply validate_peers_fine in X as [_ F] end.
  destruct (build_links_fine s psk priv uid Eu Nu Epr Hk (Peers s) (mkSeen ∅ ∅ ∅) (mkBuilt ∅ [] ∅) F) as (plans & b & -> & El' & Fp & A).
  { split; cbn; [by intros p _ []%lookup_empty_is_Some|by rewrite dom_empty_L|by intros p []%not_elem_of_nil|apply NoDup_nil_2]. }
  rewrite bind_Ok. match goal with X : validateRouting _ _ = [] |- _ => rename X into Vr end.
  unfold validate_peers in Vr. rewrite validate_peers_seen in Vr. set (nm := names _) in Vr.
  assert (Hn : ∀ name, name ∈ nm → is_Some (lb_links b !! name)).
  { intros name Hn. apply elem_of_dom. rewrite (ag_names _ _ A). exact Hn. }
  destruct (compiled_entries s nm (lb_links b) Vr Hn) as (c & Ec & _). rewrite Ec, bind_Ok.
  assert (Eb : ∃ x, (if IsEnabled (Babel s) then b ← compileBabel (uuid_String uid) (EffectiveRoutingTableID (Fabric s)) loopback s; Ok (Some b) else Ok None) = Ok x).
  { destruct (IsEnabled (Babel s)); [|by eexists]. destruct (compileBabel_plan s nm (uuid_String uid) loopback Vr) as (plan & -> & _).
    rewrite bind_Ok. by eexists. }
  destruct Eb as [x ->]. rewrite bind_Ok. eexists. split; [reflexivity|]. split; cbn; try done.
  - match goal with X : parsePool _ _ _ = Ok _ |- _ => eapply loopback_address; [by eapply pool_fine|exact Elo|exact Lo] end.
  - by rewrite El'.
  - apply A.
  - by exists nm, (lb_links b), c.
Qed.

(** C32: [BuildDesiredState] fails with nothing but what [Validate] says.
    Provided that HKDF returns a key for every input, a specification that
    passes validation is built, whatever it contains, and one that does not is
    refused with the message of the validation; no error of a later step and no
    panic of a [Must...] function is reachable. *)
Theorem build_iff_valid s :
  match BuildDesiredState s with
  | Ok _ => Validate s = Ok tt
  | Err e => Validate s = Err e
  | Panic => False
  end.
Proof using Hk.
  destruct (Validate_cases s) as [[E V]|[e V]].
  - by destruct (build_built s E) as (d & -> & _).
  - unfold Validate.BuildDesiredState. by rewrite V.
Qed.
End External.
