(* ===== verification/SpecifiedNode.v ===== *)
(** From the specification of a node to its kernel: a valid specification is built
    into a sound desired state, and after a pass that succeeds the kernel is what
    the specification says. *)

From S2P Require Import Prelude Netip NetipText GoText Sha256 Ports Spec SpecProps Link Desired DesiredProps Netlink Routes RoutesProps RoutesCompiled Backend BackendProps Untouched Reconciled Validate BuildProps.
From stdpp Require Import gmap strings.
Open Scope Z_scope.
Open Scope velvet_scope.

Section Specified.
Context {W : Type} `{AttemptsLaws W}.
Context (uuid_Parse : string → option (list byte)) (uuid_String : list byte → string).
Context (wgtypes_ParseKey : string → option (list byte)) (hkdf32 : list byte → list byte → result (list byte)).
Context (Hk : ∀ secret info, ∃ k, hkdf32 secret info = Ok k).
Notation ParseKey := (ParseKey wgtypes_ParseKey).
Notation built := (built uuid_Parse uuid_String wgtypes_ParseKey Key_PublicKey hkdf32).
Notation BuildDesiredState := (BuildDesiredState uuid_Parse uuid_String wgtypes_ParseKey Key_PublicKey hkdf32).
Implicit Types (s : NodeSpec) (d : DesiredState).

Lemma link_local_not_mapped v z : 0 <= v < 2 ^ 128 → v / 2 ^ 64 = 0xfe80 * 2 ^ 48 → Is4In6 (Addr6 v z) = false.
Proof.
  intros R Q. unfold Is4In6. rewrite Z.shiftr_div_pow2 by lia. apply Z.eqb_neq. intros E.
  assert (v / 2 ^ 32 / 2 ^ 32 = 0) as E' by (rewrite E; done). rewrite Z.div_div in E' by lia.
  change (2 ^ 32 * 2 ^ 32) with (2 ^ 64) in E'. lia.
Qed.
Lemma planned_sound s psk priv uid peer plan :
  planned uuid_String wgtypes_ParseKey Key_PublicKey hkdf32 s psk priv uid peer plan → sound_link plan.
Proof.
  intros [_ P2 _ P4]. rewrite P4 in *. cbn in *.
  destruct (DeriveLinkLocal_shape psk uid (peer_interface s peer)) as (Wf & B & v & E & Q & _ & _ & L). split; cbn.
  - split_and!; [done|unfold Prefix_IsValid; by rewrite B|by rewrite E|]. rewrite E. destruct Wf as [Wa _]. rewrite E in Wa. by apply link_local_not_mapped.
  - done.
  - done.
Qed.

(** What the specification must avoid besides what validation refuses: colliding
    prefixes, a loopback of another kind, and the name of the loopback's
    interface. *)
Record usable s d : Prop := {
  us_separable : separable s;
  us_loopback : Is4In6 (LoopbackV6 d) = false ∧ IsLinkLocalUnicast (LoopbackV6 d) = false;
  us_names : ∀ peer, peer ∈ Peers s → peer_interface s peer ≠ LoopbackInterface
}.
Lemma built_sound s d : built s d → usable s d → sound d.
Proof.
  intros [_ _ Bp _ _ (Wa & I6 & Zn) _ Bt Bl Bn (nm & links & c & V & K & Ec & Er & Eu)] [Sp [N46 NLL] Un]. rewrite Bt in Ec. split.
  - eapply compiled_manageable; [exact V|exact K|exact Sp|exact Ec|exact Er|exact Eu].
  - destruct (LoopbackV6 d) as [|v|v z] eqn:E; [done|done|]. cbn in Zn. subst z. unfold loopback_prefix. rewrite E.
    rewrite PrefixFrom_valid by (cbn; done || lia). cbn. split; [|done]. split_and!; [split_and!; [done|done|right; cbn; lia]|done|done|done].
  - intros plan [i Hi]%list_elem_of_lookup. destruct (Forall2_lookup_r _ _ _ _ _ Bl Hi) as (peer & _ & P). by eapply planned_sound.
  - apply NoDup_cons. split; [|done]. intros (plan & E & [i Hi]%list_elem_of_lookup)%list_elem_of_fmap.
    destruct (Forall2_lookup_r _ _ _ _ _ Bl Hi) as (peer & Hp & P). apply (Un peer); [by eapply list_elem_of_lookup_2|].
    rewrite (pl_plan _ _ _ _ _ _ _ _ _ _ P) in E. cbn in E. done.
Qed.

(** The kernel has the Link of [peer] as it is specified. *)
Definition link_as_specified s d (peer : Peer) (k : kstate) : Prop :=
  ∃ i dev key psk p, devices k !! i = Some dev ∧ ParseKey (PublicKey peer) = Ok key ∧
    DeriveWGLinkPSK hkdf32 (FabricPSK d) (Key_PublicKey (ds_PrivateKey d)) key = Ok psk ∧
    ln_Name (d_link dev) = peer_interface s peer ∧ ln_Type (d_link dev) = "wireguard"%string ∧ ln_Up (d_link dev) = true ∧
    ln_Alias (d_link dev) = ("velvet:link:" +:+ uuid_String (UUID d) +:+ ":" +:+ p_Name peer)%string ∧
    prefixIPNet (DeriveLinkLocal (FabricPSK d) (UUID d) (peer_interface s peer)) ∈ d_addrs dev ∧
    wd_PublicKey (d_wg dev) = Key_PublicKey (ds_PrivateKey d) ∧
    (pc_Port (PeerPorts peer) ≠ 0 → wd_ListenPort (d_wg dev) = pc_Port (PeerPorts peer)) ∧
    wd_Peers (d_wg dev) = [p] ∧ wp_PublicKey p = key ∧ wp_PresharedKey p = psk ∧
    ∀ t, PersistentKeepaliveSeconds peer = Some t → wp_Keepalive p = t * second.
Lemma link_specified s d peer plan k :
  planned uuid_String wgtypes_ParseKey Key_PublicKey hkdf32 s (FabricPSK d) (ds_PrivateKey d) (UUID d) peer plan →
  has_link plan k → link_as_specified s d peer k.
Proof.
  intros [P1 P2 P3 P4] (i & dev & Hd & N & T & A & L). rewrite P4 in N, A, L. cbn in N, A, L.
  destruct L as (Up & Ad & [G1 G2 (p & Ep & K1 & K2 & K3)]); [done|]. cbn in *.
  exists i, dev, (PeerPublicKey plan), (PresharedKey plan), p. split_and!; try done. intros t Et. apply K3. by rewrite Et.
Qed.

(** A node becomes what its specification says.  Take a specification that
    passes validation, has no colliding prefixes and names no interface like the
    loopback; build its desired state and let a pass of the reconciler succeed.
    Then every peer of the specification has its interface, up, with its own
    alias, address, keys, one peer and keepalive; the routes compiled from the
    specification are carried by the kernel and no other of the static protocol;
    and the verification of the node fails only if a call of the kernel fails. *)
Theorem specified_node s d euid now preserve w w1 :
  BuildDesiredState s = Ok d → usable s d → Backend_Reconcile euid now d preserve w = (Ok tt, w1) →
  (∀ peer, peer ∈ Peers s → link_as_specified s d peer (view w1)) ∧ has_loopback d (view w1) ∧
  (∀ item, item ∈ ds_Routes d → ∃ k, k ∈ routes (view w1) ∧ carries (view w1) item k) ∧
  (∀ k, k ∈ routes (view w1) → nr_Protocol k = StaticProtocol → ∃ item, item ∈ ds_Routes d ∧ carries (view w1) item k) ∧
  ∀ r w2, Backend_Verify d w1 = (r, w2) → r = Ok tt ∨ ∃ e, r = Err e ∧ (kernel_error e ∨ call_failed e (view w1)).
Proof.
  intros Eb U Er.
  assert (B : built s d).
  { destruct (Validate_cases uuid_Parse wgtypes_ParseKey Key_PublicKey s) as [[E V]|[e V]].
    - destruct (build_built uuid_Parse uuid_String wgtypes_ParseKey Key_PublicKey hkdf32 Hk s E) as (d' & E' & B). congruence.
    - unfold Validate.BuildDesiredState in Eb. rewrite V in Eb. discriminate Eb. }
  pose proof (built_sound s d B U) as S. pose proof (Backend_Reconcile_spec euid now d preserve S w I) as R. rewrite Er in R.
  destruct (re_routing _ _ _ R) as [ms F]. pose proof (so_manageable _ S) as M. split_and!.
  - intros peer [j Hj]%list_elem_of_lookup. destruct (Forall2_lookup_l _ _ _ _ _ (bt_links _ _ _ _ _ _ _ B) Hj) as (plan & Hp & P).
    eapply link_specified; [exact P|]. apply (re_links _ _ _ R). by eapply list_elem_of_lookup_2.
  - apply R.
  - intros item [j Hj]%list_elem_of_lookup. destruct (Forall2_lookup_r _ _ _ _ _ (if_wanted _ _ _ F) Hj) as (m & Hm & Wm).
    apply list_elem_of_lookup_2 in Hm, Hj. destruct (if_routes _ _ _ F m Hm) as (k & Hk' & Pr). exists k. split; [done|].
    eapply managed_carries; [exact Wm|done|by apply M|]. apply present_managed; [|done].
    eapply wanted_kept; [exact M|exact (if_wanted _ _ _ F)|exact Hm].
  - intros k Hk' Pk. apply (if_stale _ _ _ F) in Hk'; [|done]. apply anyManagedRouteMatches_spec in Hk' as (m & Hm & X).
    apply list_elem_of_lookup in Hm as [j Hj]. destruct (Forall2_lookup_l _ _ _ _ _ (if_wanted _ _ _ F) Hj) as (item & Hi & Wm).
    apply list_elem_of_lookup_2 in Hi. exists item. split; [done|]. eapply managed_carries; [exact Wm|done|by apply M|done].
  - intros r w2 Ev. pose proof (Backend_Verify_spec d preserve (view w1) (view_wf w1) S R w1 eq_refl) as Y. rewrite Ev in Y.
    destruct r as [[]|e|]; [by left| |done]. right. exists e. split; [done|apply Y].
Qed.
End Specified.
