(* ===== verification/SpecifiedRun.v ===== *)
(** A node from the text of its specification to its kernel, on the kernel of
    RunKernel.v; and a specification that validation lets pass though no pass can
    succeed with it. *)

From S2P Require Import Prelude Netip NetipText GoText Sha256 Ports Spec Link Desired DesiredProps Netlink Routes RoutesProps Backend RunKernel RoutesCompiled BackendProps Untouched Reconciled ReconciledRun Validate BuildProps SpecifiedNode.
From stdpp Require Import gmap strings.
Open Scope Z_scope.
Open Scope velvet_scope.

(** * Concrete packages *)

Fixpoint hex_octets (s : list byte) : option (list byte) :=
  match s with
  | [] => Some []
  | a :: b :: rest => x ← hex_value a; y ← hex_value b; out ← hex_octets rest; Some (z2b (x * 16 + y) :: out)
  | _ => None
  end.
(** The form with 36 characters. *)
Definition parse_uuid (s : string) : option (list byte) :=
  let o := octets s in
  if (len o =? 36) && forallb (λ i, bool_decide (o !! i = Some "-"%byte)) [8%nat; 13%nat; 18%nat; 23%nat]
  then hex_octets (take 8 o ++ slice o 9 13 ++ slice o 14 18 ++ slice o 19 23 ++ drop 24 o) else None.
Definition uuid_text (u : list byte) : string :=
  let hex l := foldr (λ c s, (hex02 c +:+ s)%string) ""%string l in
  (hex (take 4 u) +:+ "-" +:+ hex (slice u 4 6) +:+ "-" +:+ hex (slice u 6 8) +:+ "-" +:+ hex (slice u 8 10) +:+ "-" +:+ hex (drop 10 u))%string.
Definition parse_key (s : string) : option (list byte) :=
  k ← base64_Decode (octets s); if len k =? 32 then Some k else None.
(** HKDF with SHA-256, no salt, one block (RFC 5869). *)
Definition hkdf (secret info : list byte) : result (list byte) :=
  Ok (hmac_sha256 (hmac_sha256 (replicate 32 x00) secret) (info ++ [x01])).
Lemma hkdf_total secret info : ∃ k, hkdf secret info = Ok k.
Proof. by eexists. Qed.

(** * A specification *)

Definition run_peer (interface : string) : Peer :=
  mkPeerSpec None "b" "BQYHAAAAAAAAAAAAAAAAAAAAAAAAAAAAAAAAAAAAAAA=" ["192.0.2.1:51820"%string] [] None interface.
Definition run_spec (interface : string) : NodeSpec :=
  mkNodeSpec "velvet.io/v1alpha2" "NodeSpec"
    (mkFabricSpec "AQIDBAAAAAAAAAAAAAAAAAAAAAAAAAAAAAAAAAAAAAA=" "10.255.0.0/16" "fd00:2::/64" "fd00:1::/64" None None
      {["b"%string := [mkRoute "fd00:1::5/128" None]]})
    (mkNode (mkNodeUID "a" "6ba7b810-9dad-11d1-80b4-00c04fd430c8") "CQAAAAAAAAAAAAAAAAAAAAAAAAAAAAAAAAAAAAAAAAA=" "")
    [run_peer interface] None None
    {["red"%string := example_red; "blue"%string := example_blue]}.
Notation run_public := (@Key_PublicKey rkernel run_kernel).
Notation Validate_run := (Validate parse_uuid parse_key run_public).
Notation BuildDesiredState_run := (BuildDesiredState parse_uuid uuid_text parse_key run_public hkdf).

Definition built_of (interface : string) : DesiredState :=
  match BuildDesiredState_run (run_spec interface) with Ok d => d | _ => run_desired end.
(** Evaluated once: the hashes take their time. *)
Definition run_built : DesiredState := Eval vm_compute in built_of "".
Definition run_clash : DesiredState := Eval vm_compute in built_of LoopbackInterface.
Lemma run_built_ok : BuildDesiredState_run (run_spec "") = Ok run_built.
Proof. by vm_compute. Qed.
Lemma run_usable : usable (run_spec "") run_built.
Proof.
  split.
  - apply separable_check_sound. by vm_compute.
  - split; by vm_compute.
  - intros peer ->%list_elem_of_singleton. by vm_compute.
Qed.

Lemma build_iff_valid_witness :
  (∀ secret info, ∃ k, hkdf secret info = Ok k) ∧ Validate_run (run_spec "") = Ok tt.
Proof.
  split; [exact hkdf_total|].
  pose proof (build_iff_valid parse_uuid uuid_text parse_key run_public hkdf hkdf_total (run_spec "")) as B.
  rewrite run_built_ok in B. exact B.
Defined.

Definition run_settled : rkernel := (Backend_Reconcile 0 1000 run_built false (run_world [])).2.
Lemma run_settled_ok : Backend_Reconcile 0 1000 run_built false (run_world []) = (Ok tt, run_settled).
Proof. by vm_compute. Qed.
Lemma specified_node_witness : usable (run_spec "") run_built ∧
  link_as_specified uuid_text parse_key hkdf (run_spec "") run_built (run_peer "") (view run_settled).
Proof.
  split; [exact run_usable|].
  destruct (specified_node parse_uuid uuid_text parse_key hkdf hkdf_total (run_spec "") run_built 0 1000 false (run_world [])
    run_settled run_built_ok run_usable run_settled_ok) as [L _].
  apply L. by left.
Defined.

(** Validation lets a peer's interface be named like the loopback's.  The loopback
    is made first, and the Link finds an interface of another type: this pass
    fails, and so does the next. *)
Lemma loopback_name_unusable :
  Validate_run (run_spec LoopbackInterface) = Ok tt ∧ BuildDesiredState_run (run_spec LoopbackInterface) = Ok run_clash ∧
  let '(r, w) := Backend_Reconcile 0 1000 run_clash false (run_world []) in
  r = Err (errors_New "interface has another type") ∧
  (Backend_Reconcile 0 1000 run_clash false w).1 = Err (errors_New "interface has another type").
Proof. split_and!; by vm_compute. Qed.
