(* ===== verification/Babel.v ===== *)
(** internal/babel/manager.go: the Links that take part in managed routing, the
    configuration rendered from them, and the loop that keeps the daemon on it.
    The daemon, its files and its control socket are answers of an environment.
    Text is a string of octets; names and prefixes are ASCII. *)

From S2P Require Import Prelude Netip NetipText GoText Sha256 Desired Netlink PeerSearch.
From stdpp Require Import gmap strings.
From Stdlib Require Import Ascii.
Open Scope Z_scope.
Open Scope velvet_scope.

(** * From the standard library *)

Definition nl : string := String "010"%char EmptyString.
Definition quote_char : string := String "034"%char EmptyString.
Definition backslash : string := String "092"%char EmptyString.
(** [strconv.Quote] of ASCII. *)
Definition quote_octet (c : byte) : string :=
  let z := b2z c in
  if (z =? 34) || (z =? 92) then backslash +:+ text [c]
  else if (32 <=? z) && (z <=? 126) then text [c]
  else backslash +:+ match z with
    | 7 => "a" | 8 => "b" | 9 => "t" | 10 => "n" | 11 => "v" | 12 => "f" | 13 => "r"
    | _ => "x" +:+ hex02 c
    end.
Definition Quote (s : string) : string :=
  (quote_char +:+ foldr (λ c t, quote_octet c +:+ t) "" (octets s) +:+ quote_char)%string.
Definition quote_bool (b : bool) : string := if b then "true" else "false".

(** ** [path.Match] of ASCII *)

(** [scanChunk] after the stars: the part up to the next star. *)
Fixpoint scan_literal (inrange : bool) (p : list byte) : list byte * list byte :=
  match p with
  | [] => ([], [])
  | c :: p =>
    let next inrange := let '(a, b) := scan_literal inrange p in (c :: a, b) in
    if bool_decide (c = "\"%byte) then
      match p with
      | d :: p => let '(a, b) := scan_literal inrange p in (c :: d :: a, b)
      | [] => ([c], [])
      end
    else if bool_decide (c = "["%byte) then next true
    else if bool_decide (c = "]"%byte) then next false
    else if bool_decide (c = "*"%byte) && negb inrange then ([], c :: p)
    else next inrange
  end.
Fixpoint strip_stars (p : list byte) : bool * list byte :=
  match p with
  | c :: p' => if bool_decide (c = "*"%byte) then (true, (strip_stars p').2) else (false, p)
  | [] => (false, [])
  end.
Definition scanChunk (p : list byte) : bool * list byte * list byte :=
  let '(star, p) := strip_stars p in let '(chunk, rest) := scan_literal false p in (star, chunk, rest).
(** [getEsc]: a character of a class. *)
Definition getEsc (chunk : list byte) : option (byte * list byte) :=
  match chunk with
  | [] => None
  | c :: p =>
    if bool_decide (c = "-"%byte) || bool_decide (c = "]"%byte) then None
    else if bool_decide (c = "\"%byte) then match p with d :: ((_ :: _) as p) => Some (d, p) | _ => None end
    else match p with _ :: _ => Some (c, p) | [] => None end
  end.
(** The ranges of a class: does one contain [r], and what follows the class. *)
Definition drop_byte (c : byte) (l : list byte) : option (list byte) :=
  match l with d :: l => if bool_decide (d = c) then Some l else None | [] => None end.
Fixpoint match_ranges (fuel : nat) (r : byte) (matched : bool) (nrange : nat) (chunk : list byte) : option (bool * list byte) :=
  match fuel with
  | O => None
  | S fuel =>
    match (if (0 <? nrange)%nat then drop_byte "]"%byte chunk else None) with
    | Some chunk => Some (matched, chunk)
    | None =>
      x ← getEsc chunk;
      y ← match drop_byte "-"%byte x.2 with Some chunk => getEsc chunk | None => Some x end;
      match_ranges fuel r (matched || (b2z x.1 <=? b2z r) && (b2z r <=? b2z y.1)) (S nrange) y.2
    end
  end.
(** The rest of [s] after the chunk; [None] if it does not match or is not a
    pattern.  Every round consumes a character of the chunk. *)
Fixpoint matchChunk (fuel : nat) (chunk s : list byte) : option (list byte) :=
  match fuel, chunk with
  | _, [] => Some s
  | O, _ => None
  | S fuel, c :: chunk =>
    match s with
    | [] => None
    | r :: s =>
      if bool_decide (c = "["%byte) then
        let negated := bool_decide (is_Some (drop_byte "^"%byte chunk)) in
        let chunk := default chunk (drop_byte "^"%byte chunk) in
        x ← match_ranges (S (length chunk)) r false 0 chunk;
        if Bool.eqb x.1 negated then None else matchChunk fuel x.2 s
      else if bool_decide (c = "?"%byte) then
        if bool_decide (r = "/"%byte) then None else matchChunk fuel chunk s
      else if bool_decide (c = "\"%byte) then
        match chunk with
        | d :: chunk => if bool_decide (d = r) then matchChunk fuel chunk s else None
        | [] => None
        end
      else if bool_decide (c = r) then matchChunk fuel chunk s else None
    end
  end.
Definition match_chunk (chunk s : list byte) := matchChunk (length chunk) chunk s.
(** After a star: the first of the later positions at which the chunk matches,
    and, if it is the last chunk, exhausts the name. *)
Fixpoint match_star (chunk : list byte) (last : bool) (name : list byte) : option (list byte) :=
  match name with
  | [] => None
  | c :: name =>
    if bool_decide (c = "/"%byte) then None
    else match match_chunk chunk name with
      | Some t => if last && negb (bool_decide (t = [])) then match_star chunk last name else Some t
      | None => match_star chunk last name
      end
  end.
Fixpoint match_loop (fuel : nat) (pattern name : list byte) : bool :=
  match fuel, pattern with
  | _, [] => bool_decide (name = [])
  | O, _ => false
  | S fuel, _ =>
    let '(star, chunk, pattern) := scanChunk pattern in
    let last := bool_decide (pattern = []) in
    if star && bool_decide (chunk = []) then negb (bool_decide ("/"%byte ∈ name))
    else
      match match_chunk chunk name with
      | Some t => if bool_decide (t = []) || negb last then match_loop fuel pattern t
                  else match (if star then match_star chunk last name else None) with
                       | Some t => match_loop fuel pattern t
                       | None => false
                       end
      | None => match (if star then match_star chunk last name else None) with
                | Some t => match_loop fuel pattern t
                | None => false
                end
      end
  end.
Definition path_Match (pattern name : string) : bool := match_loop (length (octets pattern)) (octets pattern) (octets name).

Lemma path_Match_ex : path_Match "vl-*" "vl-a-b" = true ∧ path_Match "vl-a-b" "vl-a-b" = true ∧ path_Match "vl-a" "vl-a-b" = false ∧
  path_Match "*-b" "vl-a-b" = true ∧ path_Match "v[a-l]-?*" "vl-ab" = true ∧ path_Match "v[^l]" "vl" = false ∧
  path_Match "*" "a/b" = false ∧ path_Match "a*c*e" "abcde" = true ∧ path_Match "[]a]" "a" = false ∧ path_Match "a\*" "a*" = true.
Proof. by vm_compute. Qed.

(** * Prefixes and origins *)

(** [sort.Slice], any sorting. *)
Section Managed.
Context `{SortFunc}.
Definition sort_by {A} (key : A → string) (l : list A) : list A :=
  sort (λ x y, if string_ltb (key y) (key x) then 1 else 0) l.

Definition normalize_step (acc : gset Prefix * list Prefix) (prefix : Prefix) : gset Prefix * list Prefix :=
  let '(seen, result) := acc in
  if negb (Prefix_IsValid prefix) || IsLinkLocalUnicast (Prefix_Addr prefix) then acc
  else
    let prefix := Masked prefix in
    if bool_decide (prefix ∈ seen) then acc else ({[prefix]} ∪ seen, result ++ [prefix]).
Definition normalizePrefixes (prefixes : list Prefix) : list Prefix :=
  sort_by Prefix_String (foldl normalize_step (∅, []) prefixes).2.

Definition clean_origin (o : BabelOrigin) : BabelOrigin :=
  mkBabelOrigin (Masked (bo_Destination o)) (if Prefix_IsValid (bo_Source o) then Masked (bo_Source o) else bo_Source o) (bo_Metric o).
Definition origin_key (o : BabelOrigin) : Prefix * Prefix := (bo_Destination o, bo_Source o).
Fixpoint unique_origins (seen : gset (Prefix * Prefix)) (values : list BabelOrigin) : list BabelOrigin :=
  match values with
  | [] => []
  | value :: values =>
    let value := clean_origin value in
    if bool_decide (origin_key value ∈ seen) then unique_origins seen values
    else value :: unique_origins ({[origin_key value]} ∪ seen) values
  end.
Definition uniqueOrigins := unique_origins ∅.

(** * The configuration *)

(** [writeRouteFilter], by lines. *)
Definition rule_lines (path source : string) : list string :=
  ["[[" +:+ path +:+ ".rules]]"; "action = " +:+ Quote "allow"; source].
Definition return_rule (path : string) (prefix : Prefix) : list string :=
  let zero := if Is4 (Prefix_Addr prefix) then "0.0.0.0/0"%string else "::/0"%string in
  rule_lines path ("source = { prefix = " +:+ Quote zero +:+ ", match = " +:+ Quote "exact" +:+ " }") ++
  ["destination = { prefix = " +:+ Quote (Prefix_String prefix) +:+ ", match = " +:+ Quote "within" +:+ " }"].
Definition source_rule (path : string) (source : Prefix) : list string :=
  rule_lines path ("source = { prefix = " +:+ Quote (Prefix_String source) +:+ ", match = " +:+ Quote "exact" +:+ " }").
Definition writeRouteFilter (path : string) (returns sources : list Prefix) : list string :=
  ["[" +:+ path +:+ "]"; "default = " +:+ Quote "deny"] ++ concat (map (return_rule path) (normalizePrefixes returns)) ++
  concat (map (source_rule path) (normalizePrefixes sources)) ++ [""].

(** The interfaces of the configuration: those of the plan, and the Links that no
    pattern of the plan matches.  [names] is the order in which the map is
    visited. *)
Definition Render_interfaces (plan : BabelPlan) (names : list string) : list string :=
  let admitted := List.filter (λ name, negb (existsb (λ pattern, path_Match pattern name) (Interfaces plan))) names in
  match Interfaces plan ++ sort_by (λ s, s) admitted with
  | [] => ["velvet-no-active-links"]
  | interfaces => interfaces
  end.
Definition link_origins (groups : list (list Prefix)) : list BabelOrigin :=
  concat (map (λ prefixes, map (λ p, mkBabelOrigin (Masked p) Prefix_zero 0) (normalizePrefixes prefixes)) groups).
Definition sort_key (o : BabelOrigin) : string := Prefix_String (bo_Destination o) +:+ "|" +:+ Prefix_String (bo_Source o).
Definition Render_origins (plan : BabelPlan) (groups : list (list Prefix)) : list BabelOrigin :=
  sort_by sort_key (uniqueOrigins (Origins plan ++ link_origins groups)).
Definition origin_lines (o : BabelOrigin) : list string :=
  ["[[origins]]"; "destination = " +:+ Quote (Prefix_String (bo_Destination o))] ++
  (if Prefix_IsValid (bo_Source o) then ["source = " +:+ Quote (Prefix_String (bo_Source o))] else []) ++
  ["metric = " +:+ dec (bo_Metric o); ""].
Definition view_lines (v : BabelView) : list string :=
  let scoped := Prefix_IsValid (bv_Source v) in
  ["[[export.views]]"; "table = " +:+ dec (bv_TableID v)] ++
  (if scoped then ["source = " +:+ Quote (Prefix_String (bv_Source v)); "rule_priority = " +:+ dec (RulePriority v)] else []) ++
  writeRouteFilter "export.views.filter" (bv_ReturnPrefixes v) (if scoped then [bv_Source v] else []).
Definition daemonShutdownTimeout : Z := 5000.
(** The map of the origins is visited twice, in orders of its own. *)
Definition Render_in (plan : BabelPlan) (names : list string) (groups : list (list Prefix)) : string :=
  let lines :=
    ["state_file = " +:+ Quote (StatePath plan); "shutdown_timeout_ms = " +:+ dec daemonShutdownTimeout; "";
     "[[interfaces]]"; "match = [" +:+ String.concat ", " (map Quote (Render_interfaces plan names)) +:+ "]"; "link_type = " +:+ Quote "wired"; "";
     "[interfaces.metric]"; "type = " +:+ Quote "wired"; "nominal_cost = 96"; ""] ++
    concat (map origin_lines (Render_origins plan groups)) ++
    writeRouteFilter "policy.import" (ImportPrefixes plan) (ImportSources plan) ++
    writeRouteFilter "policy.announce" (ImportPrefixes plan) (ImportSources plan) ++
    ["[export]"; "protocol = " +:+ dec (Protocol plan); "device_only = " +:+ quote_bool (DeviceOnly plan);
     "manage_rules = " +:+ quote_bool (ManageRules plan); ""] ++
    concat (map view_lines (Views plan)) in
  foldr (λ line rest, line +:+ nl +:+ rest) "" lines.
Definition Render (plan : BabelPlan) (linkOrigins : gmap string (list Prefix)) : string :=
  Render_in plan (map fst (map_to_list linkOrigins)) (map snd (map_to_list linkOrigins)).

(** * The manager *)

Record Status := mkStatus {
  st_State : string; st_PID : Z; st_Version : string; st_ConfigGeneration : Z; st_ActiveConfigSHA256 : string;
  st_AttachedInterfaces : Z; st_Neighbors : Z; st_SelectedRoutes : Z; st_LastError : string }.
Definition status_of (state lastError : string) : Status := mkStatus state 0 "" 0 "" 0 0 0 lastError.
Record Event := mkEvent { ev_Status : string; ev_Error : string }.
(** [updates]: how many updates wait in the channel. *)
Record Manager := mkManager {
  m_plan : BabelPlan; updates : nat; latest : gmap string (list Prefix); withdrawn : gset string; m_status : Status }.
Definition New (plan : BabelPlan) : Manager := mkManager plan 0 ∅ ∅ (status_of "starting" "").
Definition capacity (m : Manager) : nat := S (length (Interfaces (m_plan m))).

Definition send_update (m : Manager) : Manager :=
  mkManager (m_plan m) (if (updates m <? capacity m)%nat then S (updates m) else updates m) (latest m) (withdrawn m) (m_status m).
Definition SetLinkState (interfaceName : string) (active : bool) (prefixes : list Prefix) (m : Manager) : Manager :=
  let clean := normalizePrefixes prefixes in
  let previous := latest m !! interfaceName in
  if Bool.eqb active (bool_decide (is_Some previous)) && (negb active || bool_decide (default [] previous = clean)) then m
  else
    send_update
      (if active then mkManager (m_plan m) (updates m) (<[interfaceName := clean]> (latest m)) (withdrawn m ∖ {[interfaceName]}) (m_status m)
       else mkManager (m_plan m) (updates m) (delete interfaceName (latest m))
              (if bool_decide (interfaceName ∈ Interfaces (m_plan m)) then {[interfaceName]} ∪ withdrawn m else withdrawn m) (m_status m)).
(** The plan without the interfaces that were withdrawn, as [prepare] renders it. *)
Definition current_plan (m : Manager) : BabelPlan :=
  let p := m_plan m in
  mkBabelPlan (ServiceName p) (bp_Executable p) (ConfigPath p) (ControlPath p) (StatePath p)
    (List.filter (λ name, negb (bool_decide (name ∈ withdrawn m))) (Interfaces p))
    (Origins p) (Views p) (ImportPrefixes p) (ImportSources p) (Protocol p) (DeviceOnly p) (ManageRules p).
Definition current_config (m : Manager) : string := Render (current_plan m) (latest m).
(** [fmt.Sprintf("%x", sha256.Sum256(data))]. *)
Definition config_digest (data : string) : string := foldr (λ c s, hex02 c +:+ s) "" (sha256 (octets data)).

(** * The loop *)

Record daemonStatus := mkDaemonStatus {
  d_Ready : bool; d_Version : string; d_ConfigGeneration : Z; d_ActiveConfigSHA256 : string;
  d_AttachedInterfaces : Z; d_Neighbors : Z; d_SelectedRoutes : Z }.
Record reloadResult := mkReloadResult { r_ConfigGeneration : Z; r_ActiveConfigSHA256 : string }.
(** [writeAtomic]: it fails before or after the new file took the place of the old. *)
Inductive written := Written | Unwritten (e : error) | Unsynced (e : error).
(** What the calls of one pass return.  [a_polls]: the answers of the control
    socket until the daemon is ready or the ten seconds are over. *)
Record answers := mkAnswers {
  a_mkdir : result unit; a_executable : result string; a_candidate : result unit; a_check : string → result unit;
  a_write : written; a_service : result unit; a_polls : list (result daemonStatus);
  a_reload : result reloadResult; a_restore : written; a_pid : Z; a_refresh : result daemonStatus }.
(** The manager, the file at [ConfigPath], the variables of [runOnce] and the log. *)
Record loop_state := mkLoop { l_manager : Manager; l_config : option string; l_first : bool; l_lastPID : Z; l_log : list Event }.
Notation mgr A := (sys loop_state A).

Definition answer {A} (r : result A) : mgr A := λ s, (r, s).
Definition gets {A} (f : loop_state → A) : mgr A := λ s, (Ok (f s), s).
Definition emit (e : Event) : mgr unit := λ s,
  (Ok tt, mkLoop (l_manager s) (l_config s) (l_first s) (l_lastPID s) (l_log s ++ [e])).
Definition with_status (status : Status) (m : Manager) : Manager := mkManager (m_plan m) (updates m) (latest m) (withdrawn m) status.
Definition setStatus (status : Status) : mgr unit := λ s,
  (Ok tt, mkLoop (with_status status (l_manager s)) (l_config s) (l_first s) (l_lastPID s) (l_log s)).
Definition recordError (e : error) : mgr unit :=
  status ← gets (λ s, m_status (l_manager s));
  setStatus (mkStatus (st_State status) (st_PID status) (st_Version status) (st_ConfigGeneration status) (st_ActiveConfigSHA256 status)
    (st_AttachedInterfaces status) (st_Neighbors status) (st_SelectedRoutes status) (Error e));;
  emit (mkEvent "degraded" (Error e)).
Definition refreshStatus (reply : result daemonStatus) (pid : Z) : mgr unit :=
  match reply with
  | Ok d => setStatus (mkStatus "running" pid (d_Version d) (d_ConfigGeneration d) (d_ActiveConfigSHA256 d)
      (d_AttachedInterfaces d) (d_Neighbors d) (d_SelectedRoutes d) "")
  | Err e => recordError e
  | Panic => λ s, (Panic, s)
  end.
Definition write_config (w : written) (data : string) : mgr unit := λ s,
  let replaced := mkLoop (l_manager s) (Some data) (l_first s) (l_lastPID s) (l_log s) in
  match w with Written => (Ok tt, replaced) | Unwritten e => (Err e, s) | Unsynced e => (Err e, replaced) end.
Definition ignore {A} (x : mgr A) : mgr unit := λ s, (Ok tt, (x s).2).
Definition prepare (a : answers) : mgr (string * string) :=
  answer (a_mkdir a);;
  data ← gets (λ s, current_config (l_manager s));
  mret (data, config_digest data).
Fixpoint await_ready (polls : list (result daemonStatus)) : result daemonStatus :=
  match polls with
  | [] => Err (errors_New "babel-rs control unavailable")
  | Ok d :: polls => if d_Ready d then Ok d else await_ready polls
  | _ :: polls => await_ready polls
  end.
Definition reload (a : answers) (digest : string) (previous : option string) : mgr unit :=
  match a_reload a with
  | Ok r => if bool_decide (r_ActiveConfigSHA256 r = digest) then mret tt else sys_err "babel-rs activated another config digest"
  | Err e =>
    (if bool_decide (default "" previous = "") then mret tt else ignore (write_config (a_restore a) (default "" previous)));;
    answer (Err e)
  | Panic => answer Panic
  end.
Definition notice (changed : bool) (pid : Z) : mgr unit := λ s,
  let s' := mkLoop (l_manager s) (l_config s) false pid (l_log s) in
  if l_first s || negb (pid =? l_lastPID s) then emit (mkEvent "running" "") s'
  else if changed then emit (mkEvent "reloaded" "") s' else (Ok tt, s').
(** One round of the loop of [runOnce], up to where it waits. *)
Definition round (a : answers) : mgr unit :=
  previous ← gets l_config;
  x ← prepare a;
  answer (a_executable a);;
  answer (a_candidate a);;
  answer (a_check a x.1);;
  write_config (a_write a) x.1;;
  answer (a_service a);;
  status ← answer (await_ready (a_polls a));
  let changed := negb (bool_decide (d_ActiveConfigSHA256 status = x.2)) in
  (if changed then reload a x.2 previous else mret tt);;
  refreshStatus (a_refresh a) (a_pid a);;
  notice changed (a_pid a).

(** [Run]: the loop starts a round, or waits for an update or for its ticker, or,
    after a failure, for the time of the backoff. *)
Inductive phase := Starting | Waiting | Backoff.
Definition take_update (s : loop_state) : loop_state :=
  let m := l_manager s in
  mkLoop (mkManager (m_plan m) (pred (updates m)) (latest m) (withdrawn m) (m_status m)) (l_config s) (l_first s) (l_lastPID s) (l_log s).
Definition on_manager (f : Manager → Manager) (s : loop_state) : loop_state :=
  mkLoop (f (l_manager s)) (l_config s) (l_first s) (l_lastPID s) (l_log s).
Definition failed_round (e : error) (s : loop_state) : loop_state :=
  ((setStatus (status_of "retrying" (Error e));; emit (mkEvent "retrying" (Error e))) s).2.
(** [good]: what the check of the daemon accepts. *)
Inductive step (good : string → Prop) : phase * loop_state → phase * loop_state → Prop :=
  | B_round a s s' : (∀ data, a_check a data = Ok tt → good data) → round a s = (Ok tt, s') → step good (Starting, s) (Waiting, s')
  | B_failed a s e s' : (∀ data, a_check a data = Ok tt → good data) → round a s = (Err e, s') →
      step good (Starting, s) (Backoff, failed_round e s')
  | B_update s : (0 < updates (l_manager s))%nat → step good (Waiting, s) (Starting, take_update s)
  | B_tick s : step good (Waiting, s) (Starting, s)
  | B_retry s : step good (Backoff, s) (Starting, mkLoop (l_manager s) (l_config s) true 0 (l_log s)).
(** The loop, from its start with the file [config], and calls of [SetLinkState]
    in between: name, active or not, prefixes. *)
Inductive runs (good : string → Prop) (plan : BabelPlan) (config : option string) :
    list (string * bool * list Prefix) → phase * loop_state → Prop :=
  | R_start : runs good plan config [] (Starting, mkLoop (New plan) config true 0 [])
  | R_step calls x y : runs good plan config calls x → step good x y → runs good plan config calls y
  | R_set calls ph s name active prefixes : runs good plan config calls (ph, s) →
      runs good plan config (calls ++ [(name, active, prefixes)]) (ph, on_manager (SetLinkState name active prefixes) s).
End Managed.

(** The backoff: the delay before the next try and the backoff after it, in
    nanoseconds; [r] is the random number below a quarter of the backoff, plus 1. *)
Definition run_backoff (second elapsed r backoff : Z) : Z * Z :=
  let backoff := if 60 * second <=? elapsed then second else backoff in
  (backoff + r, if backoff <? 30 * second then backoff * 2 else backoff).
