(* ===== verification/BabelProps.v ===== *)
(** What internal/babel promises: the configuration is a function of the plan and
    of the Links, whatever the order in which Go visits its maps; the loop does
    not wait with an outdated configuration; and the file holds only text that
    the daemon accepted. *)

From S2P Require Import Prelude Netip NetipText NetipPrint GoText Sha256 PeerSearch Desired Netlink Babel.
From stdpp Require Import gmap strings.
From Stdlib Require Import Ascii.
Open Scope Z_scope.
Open Scope velvet_scope.

(** * Sorting *)

Section SortBy.
Context `{SortFunc} {A : Type} (key : A → string).
Notation cmp := (λ x y : A, if string_ltb (key y) (key x) then 1 else 0).
Lemma cmp_le x y : cmp x y <= 0 ↔ string_ltb (key y) (key x) = false.
Proof. cbv beta. destruct (string_ltb (key y) (key x)); split; intros; done || lia. Qed.
Lemma cmp_total x y : cmp x y <= 0 ∨ cmp y x <= 0.
Proof. cbv beta. destruct (string_ltb (key y) (key x)) eqn:C; [right|left; lia]. by rewrite (string_ltb_antisym _ _ C). Qed.
Lemma cmp_trans x y z : cmp x y <= 0 → cmp y z <= 0 → cmp x z <= 0.
Proof.
  rewrite !cmp_le. intros H1 H2. destruct (string_ltb (key z) (key x)) eqn:C; [|done].
  destruct (string_ltb (key x) (key y)) eqn:C1.
  - by rewrite (string_ltb_trans _ _ _ C C1) in H2.
  - pose proof (string_ltb_total _ _ C1 H1) as E. by rewrite E, H2 in C.
Qed.
Lemma sort_by_perm (l : list A) : sort_by key l ≡ₚ l.
Proof. apply sort_perm. Qed.
(** Elements of different keys are sorted in one way. *)
Lemma sort_by_unique (l l' : list A) : l ≡ₚ l' → (∀ x y, x ∈ l → y ∈ l → key x = key y → x = y) → sort_by key l = sort_by key l'.
Proof.
  intros P K. eapply (StronglySorted_unique_strong (λ x y, cmp x y <= 0)).
  - intros x y Hx Hy Lx Ly. apply cmp_le in Lx, Ly. rewrite sort_by_perm in Hx, Hy. rewrite <- P in Hy.
    apply K; [done..|]. by apply string_ltb_total.
  - apply sort_sorted; [apply cmp_total|apply cmp_trans].
  - apply sort_sorted; [apply cmp_total|apply cmp_trans].
  - by rewrite !sort_by_perm.
Qed.
End SortBy.

(** * Prefixes *)

Lemma Masked_plain p : wf_prefix p → Prefix_IsValid p = true → printable (Masked p).
Proof.
  intros W V. split; [by apply wf_Masked|]. rewrite Masked_valid by done. unfold Prefix_IsValid in *. by cbn.
Qed.
Lemma normalize_elements prefixes seen acc p :
  p ∈ (foldl normalize_step (seen, acc) prefixes).2 →
  p ∈ acc ∨ ∃ q, q ∈ prefixes ∧ p = Masked q ∧ Prefix_IsValid q = true ∧ IsLinkLocalUnicast (Prefix_Addr q) = false.
Proof.
  revert seen acc. induction prefixes as [|q prefixes IH]; intros seen acc; [by left|]. cbn [foldl].
  intros Hp. unfold normalize_step at 2 in Hp. destruct (negb _ || _) eqn:B; [|case_bool_decide].
  - apply IH in Hp as [Hp|(x & Hx & E)]; [by left|right; exists x]. split; [by right|done].
  - apply IH in Hp as [Hp|(x & Hx & E)]; [by left|right; exists x]. split; [by right|done].
  - apply orb_false_iff in B as [V%negb_false_iff L].
    apply IH in Hp as [[Hp| ->%list_elem_of_singleton]%elem_of_app|(x & Hx & E)]; [by left|right; exists q|right; exists x].
    + by split; [left|].
    + split; [by right|done].
Qed.
(** Every valid prefix that is not link-local, masked, and no other. *)
Lemma normalize_complete prefixes seen acc q :
  (∀ p, p ∈ seen → p ∈ acc) → q ∈ prefixes → Prefix_IsValid q = true → IsLinkLocalUnicast (Prefix_Addr q) = false →
  Masked q ∈ (foldl normalize_step (seen, acc) prefixes).2.
Proof.
  intros S Hq V L.
  assert (G : ∀ l seen acc, (∀ p, p ∈ seen → p ∈ acc) → ∀ p, p ∈ acc → p ∈ (foldl normalize_step (seen, acc) l).2).
  { induction l as [|x l IH]; intros seen' acc' S' p Hp; [done|]. cbn [foldl]. unfold normalize_step at 2.
    destruct (negb _ || _); [by apply IH|]. case_bool_decide; [by apply IH|]. apply IH; [|apply elem_of_app; by left].
    intros y [->%elem_of_singleton|Hy]%elem_of_union; apply elem_of_app; [right; by left|left; by apply S']. }
  revert seen acc S. induction prefixes as [|x prefixes IH]; intros seen acc S; [by apply not_elem_of_nil in Hq|]. cbn [foldl].
  unfold normalize_step at 2. apply elem_of_cons in Hq as [<-|Hq].
  - rewrite V, L. cbn [negb orb]. case_bool_decide as E; [by apply G, S|]. apply G; [|apply elem_of_app; right; by left].
    intros y [->%elem_of_singleton|Hy]%elem_of_union; apply elem_of_app; [right; by left|left; by apply S].
  - destruct (negb _ || _); [by apply IH|]. case_bool_decide; [by apply IH|]. apply IH; [done|].
    intros y [->%elem_of_singleton|Hy]%elem_of_union; apply elem_of_app; [right; by left|left; by apply S].
Qed.
Section Normalized.
Context `{SortFunc}.
Lemma normalizePrefixes_spec prefixes p : p ∈ normalizePrefixes prefixes ↔
  ∃ q, q ∈ prefixes ∧ p = Masked q ∧ Prefix_IsValid q = true ∧ IsLinkLocalUnicast (Prefix_Addr q) = false.
Proof.
  unfold normalizePrefixes. rewrite (sort_by_perm Prefix_String). split.
  - by intros [[]%not_elem_of_nil|X]%normalize_elements.
  - intros (q & Hq & -> & V & L). by apply normalize_complete.
Qed.
Lemma normalized_plain prefixes p : Forall wf_prefix prefixes → p ∈ normalizePrefixes prefixes → printable p ∧ Masked p = p.
Proof.
  rewrite Forall_forall. intros W (q & Hq & -> & V & _)%normalizePrefixes_spec. split; [by apply Masked_plain; [apply W|]|].
  by apply Masked_idem, W.
Qed.

(** * Origins *)

Lemma unique_app seen a b :
  unique_origins seen (a ++ b) = unique_origins seen a ++ unique_origins (seen ∪ list_to_set (map (λ o, origin_key (clean_origin o)) a)) b.
Proof.
  revert seen. induction a as [|o a IH]; intros seen; cbn [unique_origins app map list_to_set]; [by rewrite union_empty_r_L|].
  case_bool_decide as E; rewrite IH; [|cbn [app]; f_equal]; do 2 f_equal; set_solver.
Qed.
Lemma unique_perm seen a b : (∀ x y, x ∈ a → y ∈ a → origin_key (clean_origin x) = origin_key (clean_origin y) → clean_origin x = clean_origin y) →
  a ≡ₚ b → unique_origins seen a ≡ₚ unique_origins seen b.
Proof.
  intros K P. revert seen K. induction P as [|x a b P IH|x y a|a b c P1 IH1 P2 IH2]; intros seen K; cbn [unique_origins].
  - done.
  - case_bool_decide; [|f_equiv]; apply IH; intros; apply K; try done; by right.
  - assert (origin_key (clean_origin x) = origin_key (clean_origin y) → clean_origin x = clean_origin y) as Kxy.
    { apply K; [right; by left|by left]. }
    set (u := clean_origin x) in *. set (w := clean_origin y) in *.
    destruct (decide (origin_key u = origin_key w)) as [E|N].
    + rewrite (Kxy E). done.
    + rewrite (bool_decide_ext (origin_key u ∈ {[origin_key w]} ∪ seen) (origin_key u ∈ seen)) by set_solver.
      rewrite (bool_decide_ext (origin_key w ∈ {[origin_key u]} ∪ seen) (origin_key w ∈ seen)) by set_solver.
      repeat case_bool_decide; try done.
      replace ({[origin_key w]} ∪ ({[origin_key u]} ∪ seen)) with ({[origin_key u]} ∪ ({[origin_key w]} ∪ seen)) by set_solver.
      apply Permutation_swap.
  - rewrite IH1 by done. apply IH2. intros u w Hu Hw. apply K; by rewrite P1.
Qed.
End Normalized.

Lemma unique_unseen seen l o : o ∈ unique_origins seen l → origin_key o ∉ seen.
Proof.
  revert seen. induction l as [|v l IH]; intros seen; cbn [unique_origins]; [by intros []%not_elem_of_nil|].
  case_bool_decide as E; [apply IH|]. intros [->|Ho]%elem_of_cons; [done|]. apply IH in Ho. set_solver.
Qed.
Lemma unique_inj seen l x y : x ∈ unique_origins seen l → y ∈ unique_origins seen l → origin_key x = origin_key y → x = y.
Proof.
  revert seen. induction l as [|v l IH]; intros seen; cbn [unique_origins]; [by intros []%not_elem_of_nil|].
  case_bool_decide; [apply IH|]. intros [->|Hx]%elem_of_cons [->|Hy]%elem_of_cons K; [done| | |by eapply IH].
  - apply unique_unseen in Hy. destruct Hy. rewrite <- K. apply elem_of_union_l. by apply elem_of_singleton.
  - apply unique_unseen in Hx. destruct Hx. rewrite K. apply elem_of_union_l. by apply elem_of_singleton.
Qed.
Lemma unique_elements seen l o : o ∈ unique_origins seen l → ∃ v, v ∈ l ∧ o = clean_origin v.
Proof.
  revert seen. induction l as [|v l IH]; intros seen; cbn [unique_origins]; [by intros []%not_elem_of_nil|].
  case_bool_decide; [intros (x & Hx & E)%IH; exists x; split; [by right|done]|].
  intros [->|(x & Hx & E)%IH]%elem_of_cons; [exists v; by split; [left|]|exists x; split; [by right|done]].
Qed.

(** An origin that has a text: a destination without a zone, and a source of the
    same kind or none. *)
Definition printable_origin (o : BabelOrigin) : Prop :=
  printable (bo_Destination o) ∧ (bo_Source o = Prefix_zero ∨ printable (bo_Source o)).
Lemma clean_printable o : printable_origin o → printable_origin (clean_origin o).
Proof.
  intros [[Wd Vd] S]. split; [by apply Masked_plain|]. cbn. destruct S as [->|[Ws Vs]]; [by left|].
  right. rewrite Vs. by apply Masked_plain.
Qed.
Lemma sort_key_inj o o' : printable_origin o → printable_origin o' → sort_key o = sort_key o' → origin_key o = origin_key o'.
Proof.
  intros [D S] [D' S']. unfold sort_key, origin_key.
  assert (B : ∀ p, printable p → free (Ascii.byte_of_ascii "|"%char) (Prefix_String p)) by (intros; by apply Prefix_String_free).
  assert (N : ∀ p, printable p → Prefix_String p ≠ Prefix_String Prefix_zero).
  { intros p P E. destruct (Prefix_String_slash p P) as [E' F]. rewrite E' in E.
    apply (separated "/"%char _ _ _ F E). by apply free_check. }
  intros [Ed Es]%split_string; [|by apply B..]. apply Prefix_String_inj in Ed; [|done..]. rewrite Ed. f_equal.
  destruct S as [S|S], S' as [S'|S']; [congruence| | |by apply Prefix_String_inj].
  - rewrite S in Es. by destruct (N _ S').
  - rewrite S' in Es. by destruct (N _ S).
Qed.

(** * Rendering *)

Section Rendered.
Context `{SortFunc}.
Definition fine_links (m : gmap string (list Prefix)) : Prop := ∀ name ps, m !! name = Some ps → Forall wf_prefix ps.
Lemma link_origins_fine groups o : Forall (Forall wf_prefix) groups → o ∈ link_origins groups →
  printable_origin o ∧ clean_origin o = o ∧ bo_Source o = Prefix_zero ∧ bo_Metric o = 0.
Proof.
  unfold link_origins. induction 1 as [|g groups W _ IH]; cbn [map concat]; [by intros []%not_elem_of_nil|].
  intros [(p & -> & Hp)%list_elem_of_fmap|Ho]%elem_of_app; [|by apply IH].
  apply normalized_plain in Hp as [Pp Ep]; [|done]. rewrite Ep. split_and!; [|unfold clean_origin; cbn; by rewrite Ep|done..].
  split; [done|by left].
Qed.
Lemma link_origins_perm a b : a ≡ₚ b → link_origins a ≡ₚ link_origins b.
Proof.
  unfold link_origins. induction 1 as [|x a b _ IH|x y a|a b c _ IH1 _ IH2]; cbn [map concat]; [done|by rewrite IH| |by rewrite IH1].
  rewrite !app_assoc. f_equiv. apply Permutation_app_comm.
Qed.
Lemma filter_perm {A} (f : A → bool) a b : a ≡ₚ b → List.filter f a ≡ₚ List.filter f b.
Proof.
  induction 1 as [|x a b _ IH|x y a|a b c _ IH1 _ IH2]; cbn; [done| | |by rewrite IH1].
  - destruct (f x); [by f_equiv|done].
  - destruct (f x), (f y); try done. apply Permutation_swap.
Qed.

Lemma Render_origins_perm plan a b : Forall printable_origin (Origins plan) → Forall (Forall wf_prefix) a → a ≡ₚ b →
  Render_origins plan a = Render_origins plan b.
Proof.
  rewrite (Forall_forall _ (Origins plan)). intros Fp Fa P. unfold Render_origins. apply sort_by_unique.
  - unfold uniqueOrigins. rewrite !unique_app. f_equiv. apply unique_perm; [|by apply link_origins_perm].
    intros x y Hx Hy K. apply link_origins_fine in Hx as (_ & Ex & Sx & Mx); [|done]. apply link_origins_fine in Hy as (_ & Ey & Sy & My); [|done].
    rewrite Ex, Ey in *. destruct x, y. cbn in *. injection K as -> ->. by subst.
  - intros x y Hx Hy K. apply (unique_inj ∅ _ x y Hx Hy).
    assert (G : ∀ z, z ∈ uniqueOrigins (Origins plan ++ link_origins a) → printable_origin z).
    { intros z (v & [Hv|Hv]%elem_of_app & ->)%unique_elements; apply clean_printable; [by apply Fp|by eapply link_origins_fine]. }
    apply sort_key_inj; [by apply G..|done].
Qed.
Lemma Render_interfaces_perm plan a b : a ≡ₚ b → Render_interfaces plan a = Render_interfaces plan b.
Proof.
  intros P. unfold Render_interfaces. set (f := λ name, negb _).
  rewrite (sort_by_unique (λ s, s) (List.filter f a) (List.filter f b)); [done|by apply filter_perm|done].
Qed.

(** The configuration does not depend on the order in which Go visits the map
    of the Links (twice, in two orders), nor on the sorting algorithm: one plan
    and one set of Links give one text, so its digest changes only when they do,
    and the daemon is not reloaded for nothing.  The origins of the plan and the
    prefixes of the Links are ordinary ones, without zones. *)
Theorem Render_deterministic plan m names groups :
  Forall printable_origin (Origins plan) → fine_links m →
  names ≡ₚ map fst (map_to_list m) → groups ≡ₚ map snd (map_to_list m) →
  Render_in plan names groups = Render plan m.
Proof.
  intros Fp Fm Pn Pg. unfold Render, Render_in. rewrite (Render_interfaces_perm plan names _ Pn).
  rewrite (Render_origins_perm plan groups (map snd (map_to_list m)) Fp); [done| |done].
  rewrite Pg. apply Forall_forall. intros ps (x & -> & Hx)%list_elem_of_fmap. destruct x as [name ps].
  apply elem_of_map_to_list in Hx. by eapply Fm.
Qed.

(** * The manager *)

(** The Links that are active, after calls of [SetLinkState]. *)
Definition active_links (calls : list (string * bool * list Prefix)) : gmap string (list Prefix) :=
  foldl (λ m c, let '(name, active, prefixes) := c in
    if active : bool then <[name := normalizePrefixes prefixes]> m else delete name m) ∅ calls.
Lemma SetLinkState_latest name active prefixes m :
  latest (SetLinkState name active prefixes m) =
  if active then <[name := normalizePrefixes prefixes]> (latest m) else delete name (latest m).
Proof.
  unfold SetLinkState. destruct (Bool.eqb _ _ && _) eqn:E; [|by destruct active].
  apply andb_true_iff in E as [E%Bool.eqb_prop E']. destruct active; cbn in E'.
  - symmetry in E. apply bool_decide_eq_true in E as [ps E], E' as E'. rewrite E in E'. cbn in E'. subst ps. by rewrite insert_id.
  - symmetry in E. apply bool_decide_eq_false, eq_None_not_Some in E. by rewrite delete_id.
Qed.
(** A call changes nothing that is rendered, or leaves an update waiting. *)
Lemma SetLinkState_waits name active prefixes m :
  SetLinkState name active prefixes m = m ∨ (0 < updates (SetLinkState name active prefixes m))%nat.
Proof.
  unfold SetLinkState. destruct (Bool.eqb _ _ && _); [by left|right]. unfold send_update, capacity.
  destruct active; cbn [updates]; (destruct (_ <? _)%nat eqn:E; [lia|apply Nat.ltb_ge in E; lia]).
Qed.
Lemma SetLinkState_plan name active prefixes m :
  m_plan (SetLinkState name active prefixes m) = m_plan m ∧ m_status (SetLinkState name active prefixes m) = m_status m.
Proof. unfold SetLinkState. destruct (Bool.eqb _ _ && _); [done|]. by destruct active. Qed.

(** ** A round *)

(** What a round leaves as it is. *)
Definition same_links (m m' : Manager) : Prop :=
  m_plan m' = m_plan m ∧ updates m' = updates m ∧ latest m' = latest m ∧ withdrawn m' = withdrawn m.
Definition keeps {A} (x : sys loop_state A) : Prop := ∀ s, same_links (l_manager s) (l_manager (x s).2).
#[global] Instance same_links_preorder : PreOrder same_links.
Proof. split; [by intros m|]. intros a b c (?&?&?&?) (?&?&?&?). split_and!; congruence. Qed.
Lemma keeps_bind {A B} (x : sys loop_state A) (f : A → sys loop_state B) : keeps x → (∀ a, keeps (f a)) → keeps (x ≫= f).
Proof.
  intros Kx Kf s. unfold mbind, sys_bind. pose proof (Kx s) as K. destruct (x s) as [[a|e|] s1]; [|done..].
  etrans; [exact K|apply Kf].
Qed.
Lemma same_config m m' : same_links m m' → current_config m' = current_config m.
Proof. intros (E1 & _ & E2 & E3). unfold current_config, current_plan. by rewrite E1, E2, E3. Qed.
Create HintDb babel.
#[local] Hint Resolve keeps_bind : babel.
Lemma keeps_answer {A} (r : result A) : keeps (answer r). Proof. by intros s. Qed.
Lemma keeps_gets {A} (f : loop_state → A) : keeps (gets f). Proof. by intros s. Qed.
Lemma keeps_ret {A} (a : A) : keeps (mret a). Proof. by intros s. Qed.
Lemma keeps_err {A} t : keeps (sys_err (A:=A) t). Proof. by intros s. Qed.
Lemma keeps_emit e : keeps (emit e). Proof. by intros s. Qed.
Lemma keeps_setStatus st : keeps (setStatus st). Proof. by intros s. Qed.
Lemma keeps_write w data : keeps (write_config w data). Proof. intros s. by destruct w. Qed.
Lemma keeps_ignore {A} (x : sys loop_state A) : keeps x → keeps (ignore x). Proof. intros K s. apply K. Qed.
#[local] Hint Resolve keeps_answer keeps_gets keeps_ret keeps_err keeps_emit keeps_setStatus keeps_write keeps_ignore : babel.
Lemma keeps_refresh r pid : keeps (refreshStatus r pid).
Proof. destruct r; unfold refreshStatus, recordError; [by auto with babel..|by intros s]. Qed.
Lemma keeps_reload a digest previous : keeps (reload a digest previous).
Proof. unfold reload. destruct (a_reload a); [case_bool_decide|apply keeps_bind; [case_bool_decide|]|]; auto with babel. Qed.
Lemma keeps_notice changed pid : keeps (notice changed pid).
Proof. intros s. unfold notice. repeat case_match; done. Qed.
#[local] Hint Resolve keeps_refresh keeps_reload keeps_notice : babel.
Lemma keeps_round a : keeps (round a).
Proof. unfold round, prepare. repeat (apply keeps_bind; [|intros ?]); try case_match; auto with babel. Qed.

(** After a round the file is as it was, or holds the current configuration, which
    the daemon's check accepted; after one that succeeded the second. *)
Lemma refresh_config r pid s : l_config (refreshStatus r pid s).2 = l_config s.
Proof. by destruct r. Qed.
Lemma notice_config changed pid s : l_config (notice changed pid s).2 = l_config s.
Proof. unfold notice. by repeat case_match. Qed.
Lemma reload_config a digest s0 previous s : l_config s0 = previous →
  match reload a digest previous s with (r, s') => l_config s' = l_config s ∨ r ≠ Ok tt ∧ l_config s' = previous end.
Proof.
  intros E. unfold reload. destruct (a_reload a) as [x|e|]; [by case_bool_decide; left| |by left].
  unfold mbind, sys_bind. case_bool_decide as D; cbn; [by left|]. unfold ignore. cbn.
  assert (previous = Some (default "" previous)) as -> by (by destruct previous).
  destruct (a_restore a); cbn; [by right|by left|by right].
Qed.
Lemma round_config a s : let config := current_config (l_manager s) in
  match round a s with (r, s') =>
    (r = Ok tt → l_config s' = Some config) ∧ (l_config s' = l_config s ∨ a_check a config = Ok tt ∧ l_config s' = Some config)
  end.
Proof.
  cbv zeta. unfold round, prepare, answer, gets, mbind, sys_bind. cbn -[current_config config_digest].
  destruct (a_mkdir a); cbn -[current_config config_digest]; [|by split; [|left]..]. destruct (a_executable a); cbn -[current_config config_digest]; [|by split; [|left]..].
  destruct (a_candidate a); cbn -[current_config config_digest]; [|by split; [|left]..]. destruct (a_check a _) as [[]|e|] eqn:Ec; [|by split; [|left]..].
  destruct (a_write a); cbn -[current_config config_digest]; [|by split; [|left]|by split; [|right]].
  destruct (a_service a); cbn -[current_config config_digest]; [|by split; [|right]..]. destruct (await_ready _) as [d|e|]; cbn -[current_config config_digest]; [|by split; [|right]..].
  set (s1 := mkLoop _ (Some _) _ _ _). set (x := (if negb _ then _ else _) : sys loop_state unit).
  assert (X : match x s1 with (r, s') => l_config s' = l_config s1 ∨ r ≠ Ok tt ∧ l_config s' = l_config s end).
  { unfold x. destruct (negb _); [by eapply reload_config|by left]. }
  destruct (x s1) as [[[]|e|] s2].
  - destruct X as [X|[[]]]; [|done]. pose proof (refresh_config (a_refresh a) (a_pid a) s2) as R.
    destruct (refreshStatus _ _ s2) as [[[]|e|] s3]; cbn in R.
    + match goal with |- context [notice ?c ?p s3] => pose proof (notice_config c p s3) as N; destruct (notice c p s3) as [r s4] end.
      cbn in N. rewrite N, R, X. split; [done|by right].
    + rewrite R, X. split; [done|by right].
    + rewrite R, X. split; [done|by right].
  - destruct X as [X|[_ X]]; rewrite X; (split; [done|]); [by right|by left].
  - destruct X as [X|[_ X]]; rewrite X; (split; [done|]); [by right|by left].
Qed.

(** ** The loop *)

Definition loop_ok good plan config calls (x : phase * loop_state) : Prop :=
  m_plan (l_manager x.2) = plan ∧ latest (l_manager x.2) = active_links calls ∧
  (∀ text, l_config x.2 = Some text → good text ∨ config = Some text) ∧
  (x.1 = Waiting → updates (l_manager x.2) = 0%nat → l_config x.2 = Some (current_config (l_manager x.2))).
Lemma babel_step_ok good plan config calls x y : loop_ok good plan config calls x → step good x y → loop_ok good plan config calls y.
Proof.
  unfold loop_ok. intros (P & L & G & W). destruct 1 as [a s s' Ha E|a s e s' Ha E|s U|s|s]; cbn -[current_config] in *; [| |done..].
  - pose proof (keeps_round a s) as K. pose proof (round_config a s) as C. rewrite E in K, C. cbn -[current_config] in K, C. destruct C as [C1 C2].
    split_and!; [by rewrite (proj1 K)|by rewrite (proj1 (proj2 (proj2 K)))| |intros _ _; rewrite (same_config _ _ K); by apply C1].
    intros text Et. destruct C2 as [C2|[Ok' C2]]; [apply G; congruence|left]. rewrite C2 in Et. injection Et as <-. by apply Ha.
  - pose proof (keeps_round a s) as K. pose proof (round_config a s) as C. rewrite E in K, C. cbn -[current_config] in K, C. destruct C as [_ C2].
    split_and!; [by rewrite <- P, <- (proj1 K)|by rewrite <- L, <- (proj1 (proj2 (proj2 K)))| |done].
    intros text Et. change (l_config (failed_round e s')) with (l_config s') in Et. destruct C2 as [C2|[Ok' C2]]; [apply G; congruence|left]. rewrite C2 in Et. injection Et as <-. by apply Ha.
Qed.
Lemma runs_ok good plan config calls x : runs good plan config calls x → loop_ok good plan config calls x.
Proof.
  induction 1 as [|calls x y _ IH S|calls ph s name active prefixes _ (P & L & G & W)].
  - split_and!; [done|done|by right|done].
  - by eapply babel_step_ok.
  - cbn -[current_config] in *. destruct (SetLinkState_plan name active prefixes (l_manager s)) as [Ep _]. split_and!; cbn -[current_config]; [by rewrite Ep| |done|].
    + rewrite SetLinkState_latest, L. unfold active_links. by rewrite foldl_app.
    + intros Eph U. destruct (SetLinkState_waits name active prefixes (l_manager s)) as [E|E]; [|lia]. rewrite E in *. by apply W.
Qed.

Lemma interfaces_are_links plan (m : gmap string (list Prefix)) : Interfaces plan = [] → m ≠ ∅ →
  ∀ name, name ∈ Render_interfaces plan (map fst (map_to_list m)) ↔ is_Some (m !! name).
Proof.
  intros E N name. unfold Render_interfaces. rewrite E. cbn [existsb negb app].
  set (l := List.filter _ _). assert (El : l = map fst (map_to_list m)).
  { unfold l. induction (map fst (map_to_list m)) as [|x t IH]; [done|]. cbn. by rewrite IH. }
  assert (M : name ∈ l ↔ is_Some (m !! name)).
  { rewrite El. split.
    - intros ([n ps] & -> & Hx%elem_of_map_to_list)%list_elem_of_fmap. by exists ps.
    - intros [ps Hx]. change name with (name, ps).1. apply list_elem_of_fmap_2. by apply elem_of_map_to_list. }
  rewrite <- M. pose proof (sort_by_perm (λ s, s) l) as P. destruct (sort_by (λ s, s) l) as [|x t]; [|by rewrite <- P].
  destruct N. apply map_to_list_empty_iff. apply Permutation_nil_l in P. rewrite El in P. by destruct (map_to_list m).
Qed.


(** The delays between tries stay between a second and forty. *)
Lemma run_backoff_bounds second elapsed r backoff : 0 < second → 0 <= r <= backoff / 4 → second <= backoff <= 32 * second →
  let '(delay, next) := run_backoff second elapsed r backoff in
  second <= delay <= 40 * second ∧ second <= next <= 60 * second.
Proof.
  intros Hs Hr Hb. assert (backoff / 4 <= 8 * second) by (apply Z.div_le_upper_bound; lia). unfold run_backoff.
  destruct (60 * second <=? elapsed); case_match; bool_to_prop; lia.
Qed.
End Rendered.

(** * Examples *)

Definition run_babel (interfaces : list string) : BabelPlan :=
  mkBabelPlan "" "babel-rs" "/var/lib/velvet/babel-rs.toml" "/run/velvet/babel-rs.ctl" "/var/lib/velvet/state" interfaces
    [mkBabelOrigin (PrefixFrom (Addr6 (0xfd000001 * 2 ^ 96 + 1) "") 128) Prefix_zero 0]
    [mkBabelView [] 20000 Prefix_zero 0] [] [PrefixFrom (Addr4 0x0a000000) 8] 203 true false.
Definition run_links : gmap string (list Prefix) :=
  {["wg-b"%string := [PrefixFrom (Addr4 0x0af00001) 30; PrefixFrom (Addr6 (0xfe80 * 2 ^ 112 + 1) "") 64];
    "wg-a"%string := [PrefixFrom (Addr4 0x0af00005) 30; PrefixFrom (Addr4 0x0af00001) 30]]}.
Lemma run_wf a b : wf_addr a → wf_prefix (PrefixFrom a b).
Proof. apply wf_PrefixFrom. Qed.
Lemma run_babel_printable : Forall printable_origin (Origins (run_babel ["vl-*"%string])).
Proof. constructor; [|done]. split; [split; [by apply run_wf|done]|by left]. Qed.
Lemma run_links_fine : fine_links run_links.
Proof.
  intros name ps. unfold run_links. rewrite lookup_insert_Some, lookup_singleton_Some.
  intros [[_ <-]|(_ & _ & <-)]; repeat (constructor; [by apply run_wf|]); done.
Qed.
Lemma run_names : ["wg-b"; "wg-a"]%string ≡ₚ map fst (map_to_list run_links).
Proof. vm_compute. first [reflexivity | apply Permutation_swap]. Qed.
Lemma Render_deterministic_witness :
  Render_in (run_babel ["vl-*"%string]) ["wg-b"; "wg-a"]%string (rev (map snd (map_to_list run_links))) = Render (run_babel ["vl-*"%string]) run_links ∧
  Render_in (run_babel ["vl-*"%string]) ["wg-b"; "wg-a"]%string (map snd (map_to_list run_links)) = Render (run_babel ["vl-*"%string]) run_links.
Proof.
  split; (apply Render_deterministic; [exact run_babel_printable|exact run_links_fine|exact run_names|]).
  - symmetry. apply Permutation_rev.
  - done.
Defined.

Definition run_answers (m : Manager) : answers :=
  mkAnswers (Ok tt) (Ok "/usr/bin/babel-rs"%string) (Ok tt) (λ _, Ok tt) Written (Ok tt)
    [Err (errors_New "refused"); Ok (mkDaemonStatus true "1" 1 "other" 0 0 0)]
    (Ok (mkReloadResult 2 (config_digest (current_config m)))) Written 42 (Ok (mkDaemonStatus true "1" 2 "" 1 0 0)).
(** A Link comes up, a round writes it; another comes up and the first goes away
    while the loop waits, and the next round writes that. *)
Definition run_calls : list (string * bool * list Prefix) :=
  [("wg-a"%string, true, [PrefixFrom (Addr4 0x0af00001) 30]); ("wg-b"%string, true, []); ("wg-a"%string, false, [])].
Definition all_texts (_ : string) : Prop := True.
Definition run_set (c : string * bool * list Prefix) : loop_state → loop_state := on_manager (SetLinkState c.1.1 c.1.2 c.2).
Definition run_round (s : loop_state) : loop_state := (round (run_answers (l_manager s)) s).2.
Definition run_0 : loop_state := mkLoop (New (run_babel [])) (Some "old"%string) true 0 [].
Definition run_1 : loop_state := run_round (run_set ("wg-a"%string, true, [PrefixFrom (Addr4 0x0af00001) 30]) run_0).
Definition run_2 : loop_state := take_update (run_set ("wg-a"%string, false, []) (run_set ("wg-b"%string, true, []) run_1)).
Definition run_3 : loop_state := run_round run_2.
Lemma run_round_ok s : step all_texts (Starting, s) (Waiting, run_round s).
Proof.
  apply (B_round _ (run_answers (l_manager s))); [done|]. unfold run_round.
  assert (E : (round (run_answers (l_manager s)) s).1 = Ok tt); [|rewrite <- E; by destruct (round _ s)].
  unfold round, prepare, answer, gets, mbind, sys_bind. cbn -[current_config config_digest].
  assert (N : ∀ changed pid s, (notice changed pid s).1 = Ok tt) by (intros; unfold notice; by repeat case_match).
  destruct (negb _); cbn -[current_config config_digest notice]; [|apply N].
  rewrite bool_decide_eq_true_2 by done. apply N.
Qed.
(** The rounds change none of the Links. *)
Lemma run_round_same s : same_links (l_manager s) (l_manager (run_round s)).
Proof. apply keeps_round. Qed.
Lemma SetLinkState_same name active prefixes m m' : same_links m m' →
  same_links (SetLinkState name active prefixes m) (SetLinkState name active prefixes m').
Proof.
  destruct m, m'. intros (E1 & E2 & E3 & E4). cbn in *. subst. unfold SetLinkState, send_update, capacity. cbn.
  destruct (Bool.eqb _ _ && _); [done|]. by destruct active.
Qed.
Definition run_pending : Manager :=
  SetLinkState "wg-a" false [] (SetLinkState "wg-b" true [] (SetLinkState "wg-a" true [PrefixFrom (Addr4 0x0af00001) 30] (New (run_babel [])))).
Lemma run_pending_same : same_links run_pending (l_manager (run_set ("wg-a"%string, false, []) (run_set ("wg-b"%string, true, []) run_1))).
Proof. apply SetLinkState_same, SetLinkState_same, run_round_same. Qed.
Lemma run_updates : updates run_pending = 1%nat.
Proof. by vm_compute. Qed.
Lemma babel_reached : runs all_texts (run_babel []) (Some "old"%string) run_calls (Waiting, run_3).
Proof.
  eapply R_step; [|exact (run_round_ok run_2)]. eapply R_step; [|apply B_update].
  - apply (R_set _ _ _ [_; _] Waiting). apply (R_set _ _ _ [_] Waiting). eapply R_step; [|apply run_round_ok].
    apply (R_set _ _ _ [] Starting). apply R_start.
  - destruct run_pending_same as (_ & E & _). rewrite E, run_updates. lia.
Qed.
Lemma run_idle : updates (l_manager run_3) = 0%nat.
Proof.
  destruct (run_round_same run_2) as (_ & E & _). destruct run_pending_same as (_ & E' & _).
  exact (eq_trans E (f_equal pred (eq_trans E' run_updates))).
Qed.
Lemma run_calls_some : active_links run_calls ≠ ∅.
Proof. by vm_compute. Qed.
