(* ===== verification/LinkHealth.v ===== *)
(** runtime/link_health.go and link_discovery.go: the loop that supervises a Link,
    one [handle] per case of its select, and the network around it as a step
    relation: the worker that negotiates over TCP, and packets at any time.

    The effects of a case are the actions it adds to a trace: what it sends, what
    it starts, what it does to the Link (whose state is in Attempts.v).  [answers]
    is what the calls of one case return. *)

From S2P Require Import Prelude Netip Link Field MessageData Engine Recovery Durable Netlink.
From stdpp Require Import gmap.
Open Scope Z_scope.
Open Scope velvet_scope.

Definition linkPingInterval : Z := 10 * 1000000000.
(** [linkHelloDelay]; [r] is random, below half a second. *)
Definition linkHelloDelay (r : Z) : Z := 750 * 1000000 + r.

(** * Health *)

Record linkHealth := mkHealth { h_pending : list byte; h_expires : Time; h_lastPong : Time }.
Definition no_id : list byte := zeros 16.
Definition health_zero : linkHealth := mkHealth no_id 0 0.
Definition challenge (id : list byte) (now : Time) (h : linkHealth) : linkHealth :=
  mkHealth id (now + linkPingInterval) (h_lastPong h).
Definition pong (id : list byte) (now : Time) (h : linkHealth) : option linkHealth :=
  if bool_decide (id = no_id) || negb (bool_decide (id = h_pending h)) || negb (now <? h_expires h) then None
  else Some (mkHealth no_id (h_expires h) now).
Definition expired (now : Time) (h : linkHealth) : bool :=
  negb (IsZero (h_lastPong h)) && negb (now <? h_lastPong h + linkFailureTimeout).

(** * Who dials *)

Definition shouldDial (local remote : Addr) : bool := match Compare local remote with Lt => true | _ => false end.
Definition shouldAcceptDiscovered (local remote : Addr) : bool :=
  Is6 remote && IsLinkLocalUnicast remote && negb (bool_decide (remote = local)) && negb (shouldDial local remote).

(** * The supervisor *)

Inductive action :=
  | SendHello | SendAck (to : Addr) | SendPing (to : Addr) (id : list byte) | SendPong (to : Addr) (id : list byte) (endpoint : option AddrPort)
  | Dial (target : Addr)               (* a worker that dials and negotiates *)
  | Negotiate (target : Addr)          (* a worker that negotiates on an accepted connection *)
  | CloseConn                          (* an accepted connection is refused *)
  | Reply (r : result unit)            (* the answer to the worker's result *)
  | Materialize (v : Result_) (r : result unit)
  | Withdraw (r : result unit)         (* withdrawLinkAdjacency *)
  | Commit (v : Result_) (r : result unit)
  | StaticTakesOver (remote : list byte)
  | Confirmed (now : Time)             (* lastPong of the Link's state, and the warm receipt *)
  | Answered (id : list byte)          (* a PONG is accepted *)
  | Observe (endpoint : AddrPort)      (* observeLater and recordEndpointEvidence *)
  | Lost                               (* markLinkLost *)
  | Failed                             (* control.failed *)
  | ControlReady (ready : bool).

Record supervisor := mkSupervisor {
  result_ : option Result_; s_remote : Addr; health : linkHealth; healthy : bool; busy : bool; ready : bool; changed : bool;
  nextPing : Time; nextNegotiation : Time }.
Definition set_result v s := mkSupervisor v (s_remote s) (health s) (healthy s) (busy s) (ready s) (changed s) (nextPing s) (nextNegotiation s).
Definition set_remote v s := mkSupervisor (result_ s) v (health s) (healthy s) (busy s) (ready s) (changed s) (nextPing s) (nextNegotiation s).
Definition set_health v s := mkSupervisor (result_ s) (s_remote s) v (healthy s) (busy s) (ready s) (changed s) (nextPing s) (nextNegotiation s).
Definition set_healthy v s := mkSupervisor (result_ s) (s_remote s) (health s) v (busy s) (ready s) (changed s) (nextPing s) (nextNegotiation s).
Definition set_busy v s := mkSupervisor (result_ s) (s_remote s) (health s) (healthy s) v (ready s) (changed s) (nextPing s) (nextNegotiation s).
Definition set_ready v s := mkSupervisor (result_ s) (s_remote s) (health s) (healthy s) (busy s) v (changed s) (nextPing s) (nextNegotiation s).
Definition set_changed v s := mkSupervisor (result_ s) (s_remote s) (health s) (healthy s) (busy s) (ready s) v (nextPing s) (nextNegotiation s).
Definition set_nextPing v s := mkSupervisor (result_ s) (s_remote s) (health s) (healthy s) (busy s) (ready s) (changed s) v (nextNegotiation s).
Definition set_nextNegotiation v s := mkSupervisor (result_ s) (s_remote s) (health s) (healthy s) (busy s) (ready s) (changed s) (nextPing s) v.

(** [a_now n]: the clock at the [n]-th reading. *)
Record answers := mkAnswers {
  a_now : nat → Time; a_random : result (list byte); a_withdraw : result unit; a_materialize : result unit;
  a_commit : result unit; a_observed : result (option AddrPort) }.

(** [workers]: the running negotiations, each with its target and whether its
    result was refused. *)
Record loop := mkLoop { sv : supervisor; trace : list action; workers : list (Addr * bool) }.
(** The clock is past Go's zero time, and no call panics. *)
Record answers_ok (a : answers) : Prop := {
  ao_clock : ∀ n, 0 < a_now a n; ao_random : a_random a ≠ Panic; ao_withdraw : a_withdraw a ≠ Panic;
  ao_materialize : a_materialize a ≠ Panic; ao_commit : a_commit a ≠ Panic }.
Notation sup A := (sys loop A).
Definition get : sup supervisor := λ w, (Ok (sv w), w).
Definition put (f : supervisor → supervisor) : sup unit := λ w, (Ok tt, mkLoop (f (sv w)) (trace w) (workers w)).
Definition act (x : action) : sup unit := λ w, (Ok tt, mkLoop (sv w) (trace w ++ [x]) (workers w)).
Definition reply_of {A} (r : result A) : sup A := λ w, (r, w).
Definition spawn (target : Addr) : sup unit := λ w, (Ok tt, mkLoop (sv w) (trace w) ((target, false) :: workers w)).
Definition refuse (ws : list (Addr * bool)) : list (Addr * bool) := match ws with (t, _) :: ws => (t, true) :: ws | [] => [] end.
(** [request.done <- r]: the worker that asked is the first. *)
Definition reply (r : result unit) : sup unit := λ w,
  (Ok tt, mkLoop (sv w) (trace w ++ [Reply r]) (match r with Ok _ => workers w | _ => refuse (workers w) end)).

Section Supervisor.
(** The plan's local address, the peer the Link is for ([uuid_Nil]: any), and
    whether the Link is automatic. *)
Context (local : Addr) (peer : list byte) (automatic passive : bool) (a : answers).

Definition ping (now : Time) : sup unit :=
  s ← get;
  match result_ s with
  | None => mret tt
  | Some _ =>
    if negb (ready s) then mret tt else
    id ← reply_of (a_random a);
    put (λ s, set_nextPing (now + linkPingInterval) (set_health (challenge id now (health s)) s));;
    act (SendPing (s_remote s) id)
  end.
Definition withdraw : sup unit :=
  act (Withdraw (a_withdraw a));;
  reply_of (a_withdraw a);;
  put (set_healthy false);;
  if automatic then act Failed else mret tt.
Definition confirm (now : Time) : sup unit :=
  s ← get;
  match result_ s with
  | None => sys_panic
  | Some v =>
    (if healthy s then mret tt else
      act (Commit v (a_commit a));;
      reply_of (a_commit a);;
      put (set_healthy true);;
      if automatic then mret tt else act (StaticTakesOver (UUID (Engine.RemoteUID v))));;
    put (λ s, set_health (mkHealth (h_pending (health s)) (h_expires (health s)) now) s);;
    act (Confirmed now)
  end.
Definition start (dialed : bool) (target : Addr) (now : Time) : sup unit :=
  put (λ s, set_nextNegotiation (now + 1000000000) (set_changed false (set_busy true s)));;
  act (if dialed then Dial target else Negotiate target);;
  spawn target.

(** The cases of the select. *)
Inductive event :=
  | E_readError (e : error)
  | E_accepted (incoming : result (option Addr))
  | E_finished (r : result unit)
  | E_install (value : Result_) (target : Addr)
  | E_discovery (source : Addr) (hello : bool)
  | E_ping (source : Addr) (id : list byte)
  | E_pong (source : Addr) (id : list byte) (endpoint : option AddrPort)
  | E_hello
  | E_tick.

Definition on_accepted (incoming : result (option Addr)) : sup unit :=
  target ← reply_of incoming;
  s ← get;
  match target with
  | None => act CloseConn
  | Some target =>
    if (negb (shouldAcceptDiscovered local target) && negb (healthy s && bool_decide (target = s_remote s))) || busy s ||
       (a_now a 0 <? nextNegotiation s)
    then act CloseConn else start false target (a_now a 1)
  end.
Definition on_finished (r : result unit) : sup unit :=
  put (set_busy false);;
  match r with
  | Ok _ =>
    put (λ s, set_ready (bool_decide (is_Some (result_ s))) s);;
    s ← get;
    (if ready s then confirm (a_now a 0) else mret tt);;
    ping (a_now a 1)
  | _ =>
    s ← get;
    if changed s then put (λ s, set_health health_zero (set_result None (set_ready false s))) else mret tt
  end.
(** [result] is what the Link has already. *)
Definition same_result (s : supervisor) (value : Result_) (target : Addr) : bool :=
  match result_ s with
  | None => false
  | Some v => bool_decide (s_remote s = target) && bool_decide (UUID (Engine.RemoteUID v) = UUID (Engine.RemoteUID value)) &&
      bool_decide (Engine.RemoteLoopbackV6 v = Engine.RemoteLoopbackV6 value) && bool_decide (Result_Proposal v = Result_Proposal value)
  end.
Definition on_install (value : Result_) (target : Addr) : sup unit :=
  if negb (bool_decide (peer = uuid_Nil)) && negb (bool_decide (UUID (Engine.RemoteUID value) = peer))
  then reply (Err (errors_New "negotiated UID differs from routed target"))
  else
    s ← get;
    if same_result s value target then reply (Ok tt);; ping (a_now a 0)
    else
      put (λ s, set_changed true (set_ready false s));;
      match a_withdraw a with
      | Ok _ =>
        withdraw;;
        act (Materialize value (a_materialize a));;
        match a_materialize a with
        | Ok _ =>
          put (λ s, set_health health_zero (set_remote target (set_result (Some value) s)));;
          reply (Ok tt);;
          ping (a_now a 0)
        | r => reply r
        end
      | r => act (Withdraw r);; reply r;; reply_of r
      end.
Definition on_discovery (source : Addr) (hello : bool) : sup unit :=
  (if hello then act (SendAck source) else mret tt);;
  s ← get;
  if negb (busy s) && negb (a_now a 0 <? nextNegotiation s) && shouldDial local source && (negb (healthy s) || hello)
  then start true source (a_now a 1) else mret tt.
(** Only packets of the peer count, while the Link has been negotiated. *)
Definition from_peer (source : Addr) (s : supervisor) : bool :=
  bool_decide (is_Some (result_ s)) && ready s && bool_decide (source = s_remote s).
Definition on_ping (source : Addr) (id : list byte) : sup unit :=
  s ← get;
  if negb (from_peer source s) then mret tt
  else act (SendPong (s_remote s) id (match a_observed a with Ok e => e | _ => None end)).
Definition on_pong (source : Addr) (id : list byte) (endpoint : option AddrPort) : sup unit :=
  s ← get;
  if negb (from_peer source s) then mret tt
  else match pong id (a_now a 0) (health s) with
    | None => mret tt
    | Some h =>
      put (set_health h);;
      act (Answered id);;
      confirm (a_now a 0);;
      match endpoint with Some e => act (Observe e) | None => mret tt end
    end.
Definition on_tick : sup unit :=
  s ← get;
  (if healthy s && expired (a_now a 0) (health s) then
     act Lost;; put (set_healthy false);; if automatic then act Failed else mret tt
   else mret tt);;
  s ← get;
  match result_ s with
  | Some _ => if a_now a 0 <? nextPing s then mret tt else ping (a_now a 0)
  | None => mret tt
  end.
Definition handle (e : event) : sup unit :=
  match e with
  | E_readError e => reply_of (Err e)
  | E_accepted incoming => on_accepted incoming
  | E_finished r => on_finished r
  | E_install value target => on_install value target
  | E_discovery source hello => if bool_decide (source = local) then mret tt else on_discovery source hello
  | E_ping source id => if bool_decide (source = local) then mret tt else on_ping source id
  | E_pong source id endpoint => if bool_decide (source = local) then mret tt else on_pong source id endpoint
  | E_hello => s ← get; if negb (healthy s) && negb (busy s) then act SendHello else mret tt
  | E_tick => on_tick
  end.

(** The start; [receipt] is the warm Link, if there is one. *)
Definition sup_begin (receipt : option (Result_ * Addr * Time)) : sup unit :=
  (if automatic then act (ControlReady true) else mret tt);;
  (match receipt with
   | Some (v, remote, at_) => put (λ s, set_health (mkHealth no_id 0 at_) (set_ready true (set_remote remote (set_result (Some v) s))))
   | None => mret tt
   end);;
  ping (a_now a 0);;
  if passive then mret tt else act SendHello.
End Supervisor.
Definition sup_zero : supervisor := mkSupervisor None AddrInvalid health_zero false false false false 0 0.

(** * The loop and its workers *)

Section Loop.
Context (local : Addr) (peer : list byte) (automatic passive : bool).

(** Events that do not come from a worker. *)
Definition outside (e : event) : bool := match e with E_finished _ | E_install _ _ => false | _ => true end.
Definition with_workers (ws : list (Addr * bool)) (w : loop) : loop := mkLoop (sv w) (trace w) ws.
(** A worker offers its result while it runs, ends once, and does not end well
    after its result was refused: the engine's [Run] returns the error of its
    [Commit]. *)
Inductive step : loop → loop → Prop :=
  | L_event e a w w' : outside e = true → answers_ok a → handle local peer automatic a e w = (Ok tt, w') → step w w'
  | L_install value target ws a w w' : workers w ≡ₚ (target, false) :: ws → answers_ok a →
      handle local peer automatic a (E_install value target) (with_workers ((target, false) :: ws) w) = (Ok tt, w') → step w w'
  | L_finished r target refused ws a w w' : workers w ≡ₚ (target, refused) :: ws → answers_ok a → (r = Ok tt → refused = false) →
      handle local peer automatic a (E_finished r) (with_workers ws w) = (Ok tt, w') → step w w'.

(** The warm Link was materialized by its adoption. *)
Definition loop_zero (receipt : option (Result_ * Addr * Time)) : loop :=
  mkLoop sup_zero (match receipt with Some (v, _, _) => [Materialize v (Ok tt)] | None => [] end) [].
Inductive reach (receipt : option (Result_ * Addr * Time)) : loop → Prop :=
  | L_begin a w : answers_ok a → sup_begin automatic passive a receipt (loop_zero receipt) = (Ok tt, w) → reach receipt w
  | L_step w w' : reach receipt w → step w w' → reach receipt w'.
End Loop.

(** ** Reading the trace *)

(** The adjacency that is committed, and the one whose addresses the kernel has. *)
Definition adjacency_step (v : option Result_) (x : action) : option Result_ :=
  match x with Commit v (Ok _) => Some v | Withdraw (Ok _) | Lost => None | _ => v end.
Definition adjacency (tr : list action) : option Result_ := foldl adjacency_step None tr.
Definition material_step (v : option Result_) (x : action) : option Result_ :=
  match x with Materialize v (Ok _) => Some v | Withdraw (Ok _) => None | _ => v end.
Definition material (tr : list action) : option Result_ := foldl material_step None tr.
Definition is_ping (id : list byte) (x : action) : bool := match x with SendPing _ i => bool_decide (i = id) | _ => false end.
Definition is_answer (id : list byte) (x : action) : bool := match x with Answered i => bool_decide (i = id) | _ => false end.
Definition pings (id : list byte) (tr : list action) : nat := length (List.filter (is_ping id) tr).
Definition answered (id : list byte) (tr : list action) : nat := length (List.filter (is_answer id) tr).
#[global] Arguments adjacency : simpl never.
#[global] Arguments material : simpl never.
#[global] Arguments pings : simpl never.
#[global] Arguments answered : simpl never.
#[global] Arguments no_id : simpl never.
