(* ===== verification/LinkHealthProps.v ===== *)
(** What the supervision of a Link keeps: the adjacency is up exactly while the
    loop holds the Link healthy, with the result that was negotiated and
    materialized; one negotiation runs at a time; a challenge is answered at most
    once; and a Link without a PONG for thirty seconds does not survive a tick. *)

From S2P Require Import Prelude Netip Link Field MessageData Engine Recovery Durable Netlink LinkHealth.
From stdpp Require Import gmap.
Open Scope Z_scope.
Open Scope velvet_scope.

(** * Who dials *)

Lemma Compare_antisym a b : Compare b a = CompOpp (Compare a b).
Proof.
  unfold Compare. rewrite (Z.compare_antisym (BitLen a)). destruct (BitLen a ?= BitLen b); [|done..]. cbn.
  rewrite (Z.compare_antisym (Addr_value a)). destruct (Addr_value a ?= Addr_value b); [|done..]. cbn. apply string_compare_antisym.
Qed.
Lemma Compare_eq a b : Compare a b = Eq → a = b.
Proof.
  unfold Compare. destruct (BitLen a ?= BitLen b) eqn:E; [|done..]. apply Z.compare_eq in E.
  destruct (Addr_value a ?= Addr_value b) eqn:E'; [|done..]. apply Z.compare_eq in E'. intros Ez%string_compare_eq.
  destruct a, b; cbn in *; try done; by subst.
Qed.
(** Of two addresses on a Link one dials, and the other accepts from it. *)
Lemma one_side_dials a b : a ≠ b → Is6 a = true → IsLinkLocalUnicast a = true → Is6 b = true → IsLinkLocalUnicast b = true →
  shouldDial a b = negb (shouldDial b a) ∧ shouldAcceptDiscovered b a = shouldDial a b.
Proof.
  intros N A1 A2 B1 B2. unfold shouldAcceptDiscovered. rewrite A1, A2, bool_decide_eq_false_2 by done. cbn.
  assert (X : shouldDial a b = negb (shouldDial b a)).
  { unfold shouldDial. rewrite (Compare_antisym a b). destruct (Compare a b) eqn:E; [by apply Compare_eq in E|done..]. }
  by rewrite X.
Qed.

(** * The trace *)

Lemma adjacency_app tr x : adjacency (tr ++ [x]) = adjacency_step (adjacency tr) x.
Proof. unfold adjacency. by rewrite foldl_app. Qed.
Lemma material_app tr x : material (tr ++ [x]) = material_step (material tr) x.
Proof. unfold material. by rewrite foldl_app. Qed.
Lemma pings_app id tr x : pings id (tr ++ [x]) = (pings id tr + if is_ping id x then 1 else 0)%nat.
Proof. unfold pings. rewrite List.filter_app, length_app. cbn. by destruct (is_ping id x). Qed.
Lemma answered_app id tr x : answered id (tr ++ [x]) = (answered id tr + if is_answer id x then 1 else 0)%nat.
Proof. unfold answered. rewrite List.filter_app, length_app. cbn. by destruct (is_answer id x). Qed.

(** * The invariant *)

Section Supervised.
Context (local : Addr) (peer : list byte) (automatic passive : bool).

Definition outstanding (id : list byte) (s : supervisor) : nat := if bool_decide (h_pending (health s) = id) then 1%nat else 0%nat.
Record sup_ok (w : loop) : Prop := {
  so_workers : (length (workers w) <= 1)%nat ∧ busy (sv w) = bool_decide (workers w ≠ []);
  so_ready : ready (sv w) = true → is_Some (result_ (sv w));
  so_healthy : healthy (sv w) = true → ready (sv w) = true ∧ 0 < h_lastPong (health (sv w));
  so_changed : workers w ≠ [] → changed (sv w) = true → ready (sv w) = false;
  so_adjacency : adjacency (trace w) = if healthy (sv w) then result_ (sv w) else None;
  so_material : ∀ v, result_ (sv w) = Some v → material (trace w) = Some v ∨
    changed (sv w) = true ∧ ready (sv w) = false ∧ ∃ t, workers w = [(t, true)];
  so_peer : ∀ v, result_ (sv w) = Some v → peer = uuid_Nil ∨ UUID (Engine.RemoteUID v) = peer;
  so_count : ∀ id, id ≠ no_id → (answered id (trace w) + outstanding id (sv w) <= pings id (trace w))%nat
}.
(** A computation that does not panic, and that ends with [Q] if it returns. *)
Definition sup_spec {A} (P : loop → Prop) (m : sys loop A) (Q : A → loop → Prop) : Prop :=
  ∀ w, P w → match m w with (Ok x, w') => Q x w' | (Err _, _) => True | (Panic, _) => False end.
Lemma sup_bind {A B} P (m : sys loop A) Q (f : A → sys loop B) R : sup_spec P m Q → (∀ x, sup_spec (Q x) (f x) R) → sup_spec P (m ≫= f) R.
Proof. intros Hm Hf w Hw. specialize (Hm w Hw). unfold mbind, sys_bind. destruct (m w) as [[x|e|] w']; [by apply Hf|done..]. Qed.
Lemma sup_weaken {A} P P' (m : sys loop A) (Q Q' : A → loop → Prop) : sup_spec P m Q → (∀ w, P' w → P w) → (∀ x w, Q x w → Q' x w) → sup_spec P' m Q'.
Proof. intros Hm HP HQ w Hw. specialize (Hm w (HP w Hw)). destruct (m w) as [[x|e|] w']; [by apply HQ|done..]. Qed.
Lemma sup_ret {A} P (x : A) (Q : A → loop → Prop) : (∀ w, P w → Q x w) → sup_spec P (mret x) Q.
Proof. intros X w Hw. by apply X. Qed.
Lemma sup_get P (Q : supervisor → loop → Prop) : (∀ w, P w → Q (sv w) w) → sup_spec P get Q.
Proof. intros X w Hw. by apply X. Qed.
Lemma sup_put P f (Q : unit → loop → Prop) : (∀ w, P w → Q tt (mkLoop (f (sv w)) (trace w) (workers w))) → sup_spec P (put f) Q.
Proof. intros X w Hw. by apply X. Qed.
Lemma sup_act P x (Q : unit → loop → Prop) : (∀ w, P w → Q tt (mkLoop (sv w) (trace w ++ [x]) (workers w))) → sup_spec P (act x) Q.
Proof. intros X w Hw. by apply X. Qed.
Lemma sup_reply_of {A} P (r : result A) (Q : A → loop → Prop) : r ≠ Panic → (∀ x w, r = Ok x → P w → Q x w) → sup_spec P (reply_of r) Q.
Proof. intros N X w Hw. unfold reply_of. destruct r; [by apply X|done..]. Qed.

(** An action that is none of the counted ones. *)
Definition neutral (x : action) : Prop :=
  (∀ v, adjacency_step v x = v) ∧ (∀ v, material_step v x = v) ∧ ∀ id, is_ping id x = false ∧ is_answer id x = false.
(** The fields of the invariant, from those of [I], where the result and its
    material are known. *)
Ltac settle I Ev H := let I1 := fresh in let I2 := fresh in let I3 := fresh in let I4 := fresh in let I5 := fresh in
  let I6 := fresh in let I7 := fresh in let I8 := fresh in
  destruct I as [I1 I2 I3 I4 I5 I6 I7 I8]; rewrite ?H, ?Ev in *; split; cbn; rewrite ?H, ?Ev, ?adjacency_app, ?material_app; cbn;
  try done; try (by intros ? [= <-]; auto);
  try (let id := fresh in let N := fresh in intros id N; rewrite ?pings_app, ?answered_app; specialize (I8 id N); unfold outstanding in *; cbn; lia).
Lemma neutral_ok w x : neutral x → sup_ok w → sup_ok (mkLoop (sv w) (trace w ++ [x]) (workers w)).
Proof.
  intros (A & M & C) [I1 I2 I3 I4 I5 I6 I7 I8]. split; cbn; try done.
  - by rewrite adjacency_app, A.
  - intros v Hv. rewrite material_app, M. by apply I6.
  - intros id N. destruct (C id) as [C1 C2]. rewrite pings_app, answered_app, C1, C2, !Nat.add_0_r. by apply I8.
Qed.
Lemma act_ok x : neutral x → sup_spec sup_ok (act x) (λ _, sup_ok).
Proof. intros N. apply sup_act. intros w. by apply neutral_ok. Qed.

Lemma ping_ok a now : answers_ok a → sup_spec sup_ok (ping a now) (λ _, sup_ok).
Proof.
  intros A. unfold ping. eapply sup_bind; [apply (sup_get _ (λ s w, sup_ok w ∧ s = sv w)); done|]. intros s.
  destruct (result_ s); [|by apply sup_ret; intros w [I _]]. destruct (negb (ready s)); [by apply sup_ret; intros w [I _]|].
  eapply sup_bind; [eapply (sup_reply_of _ _ (λ _, sup_ok)); [apply A|by intros x w _ [I _]]|]. intros id.
  eapply sup_bind; [eapply (sup_put _ _ (λ _ w, ∃ w0, sup_ok w0 ∧ w = mkLoop (set_nextPing (now + linkPingInterval)
    (set_health (challenge id now (health (sv w0))) (sv w0))) (trace w0) (workers w0))); intros w I; by exists w|]. intros _u.
  apply sup_act. intros w (w0 & [I1 I2 I3 I4 I5 I6 I7 I8] & ->). split; cbn; try done; [by rewrite adjacency_app|by intros; rewrite material_app; apply I6|].
  intros id' N. rewrite pings_app, answered_app. specialize (I8 id' N). unfold outstanding in *. cbn. lia.
Qed.
Lemma ping_keeps a now w : match ping a now w with (Ok _, w') => healthy (sv w') = healthy (sv w) ∧
  h_lastPong (health (sv w')) = h_lastPong (health (sv w)) | _ => True end.
Proof.
  unfold ping, get, put, act, reply_of, mbind, sys_bind. destruct (result_ (sv w)); cbn; [|done]. destruct (negb (ready (sv w))); cbn; [done|].
  by destruct (a_random a).
Qed.
Lemma confirm_ok a now : answers_ok a → 0 < now → sup_spec (λ w, sup_ok w ∧ ready (sv w) = true) (confirm automatic a now) (λ _, sup_ok).
Proof.
  intros A P w [I R]. destruct (so_ready w I R) as [v Ev]. pose proof (so_material w I v Ev) as M. pose proof (ao_commit a A) as C.
  assert (M' : material (trace w) = Some v) by (destruct M as [M|(_ & R' & _)]; [done|congruence]).
  unfold confirm, mbind, sys_bind, get. cbn. rewrite Ev. destruct (healthy (sv w)) eqn:H; cbn; [by settle I Ev H|].
  unfold reply_of. destruct (a_commit a) as [[]|e|]; [|done..]. destruct automatic; cbn; by settle I Ev H.
Qed.

Lemma idle w : sup_ok w → busy (sv w) = false → workers w = [].
Proof. intros I B. destruct (so_workers w I) as [_ E]. rewrite B in E. symmetry in E. apply bool_decide_eq_false in E. by apply dec_stable. Qed.
Lemma start_ok dialed target now : sup_spec (λ w, sup_ok w ∧ busy (sv w) = false) (start dialed target now) (λ _, sup_ok).
Proof.
  intros w [I B]. pose proof (idle w I B) as W. destruct I as [I1 I2 I3 I4 I5 I6 I7 I8].
  unfold start, put, act, spawn, mbind, sys_bind. cbn. rewrite W in *. split; cbn; try done.
  - rewrite adjacency_app. destruct dialed; done.
  - intros v Ev. destruct (I6 v Ev) as [M|(_ & _ & t & X)]; [|done]. left. rewrite material_app, M. by destruct dialed.
  - intros id N. rewrite pings_app, answered_app. specialize (I8 id N). unfold outstanding in *. destruct dialed; cbn; lia.
Qed.
Lemma on_accepted_ok a incoming : incoming ≠ Panic → sup_spec sup_ok (on_accepted local a incoming) (λ _, sup_ok).
Proof.
  intros P w I. unfold on_accepted, mbind, sys_bind, reply_of, get. destruct incoming as [[target|]|e|]; cbn -[start]; [|by apply (act_ok CloseConn)|done..].
  destruct (_ || _) eqn:B; [by apply (act_ok CloseConn)|]. apply orb_false_iff in B as [B _]. apply orb_false_iff in B as [_ B].
  by apply start_ok.
Qed.
Lemma on_discovery_ok a source hello : sup_spec sup_ok (on_discovery local a source hello) (λ _, sup_ok).
Proof.
  unfold on_discovery. eapply (sup_bind _ _ (λ _, sup_ok)); [destruct hello; [by apply act_ok|by apply sup_ret]|]. intros _u w I.
  unfold mbind, sys_bind, get. cbn -[start]. destruct (_ && _) eqn:B; [|done]. apply andb_true_iff in B as [B _].
  apply andb_true_iff in B as [B _]. apply andb_true_iff in B as [B _]. apply negb_true_iff in B. by apply start_ok.
Qed.
Lemma on_ping_ok a source id : sup_spec sup_ok (on_ping a source id) (λ _, sup_ok).
Proof.
  intros w I. unfold on_ping, mbind, sys_bind, get. cbn -[act]. destruct (negb _); [done|]. by apply act_ok.
Qed.
Lemma pong_answers id now h h' : pong id now h = Some h' → id ≠ no_id ∧ h_pending h = id ∧ h' = mkHealth no_id (h_expires h) now ∧ now < h_expires h.
Proof.
  unfold pong. destruct (_ || _) eqn:B; [done|]. intros [= <-]. apply orb_false_iff in B as [B B3]. apply orb_false_iff in B as [B1 B2].
  apply bool_decide_eq_false in B1. apply negb_false_iff, bool_decide_eq_true in B2. apply negb_false_iff, Z.ltb_lt in B3. done.
Qed.
Lemma on_pong_ok a source id endpoint : answers_ok a → sup_spec sup_ok (on_pong automatic a source id endpoint) (λ _, sup_ok).
Proof.
  intros A. unfold on_pong. eapply sup_bind; [apply (sup_get _ (λ s w, sup_ok w ∧ s = sv w)); done|]. intros s.
  destruct (negb (from_peer source s)) eqn:F; [by apply sup_ret; intros w [I _]|]. apply negb_false_iff in F. unfold from_peer in F.
  apply andb_true_iff in F as [F _]. apply andb_true_iff in F as [_ R].
  destruct (pong id (a_now a 0) (health s)) as [h|] eqn:P; [|by apply sup_ret; intros w [I _]].
  apply pong_answers in P as (N & Ep & -> & _). eapply sup_bind.
  { eapply (sup_put _ _ (λ _ w, ∃ w0, sup_ok w0 ∧ ready (sv w0) = true ∧ h_pending (health (sv w0)) = id ∧
      w = mkLoop (set_health (mkHealth no_id (h_expires (health (sv w0))) (a_now a 0)) (sv w0)) (trace w0) (workers w0))).
    intros w [I ->]. by exists w. }
  intros _u. eapply (sup_bind _ _ (λ _ w, sup_ok w ∧ ready (sv w) = true)).
  { apply sup_act. intros w (w0 & I & R0 & E0 & ->). split; [|done]. pose proof (ao_clock a A 0%nat) as Pos.
    destruct I as [I1 I2 I3 I4 I5 I6 I7 I8]. split; cbn; try done.
    - by rewrite adjacency_app.
    - intros v Ev. rewrite material_app. by apply I6.
    - intros id' N'. rewrite pings_app, answered_app. specialize (I8 id' N'). unfold outstanding in *. cbn. rewrite E0 in I8.
      rewrite (bool_decide_eq_false_2 (no_id = id')) by congruence. lia. }
  intros _v. eapply (sup_bind _ _ (λ _, sup_ok)); [apply confirm_ok; [done|apply A]|]. intros _w.
  destruct endpoint; [by apply act_ok|by apply sup_ret].
Qed.
Lemma on_hello_ok : sup_spec sup_ok (s ← get; if negb (healthy s) && negb (busy s) then act SendHello else mret tt) (λ _, sup_ok).
Proof. intros w I. unfold mbind, sys_bind, get. cbn -[act]. destruct (_ && _); [by apply act_ok|done]. Qed.

(** The Link is lost: it is no longer healthy, and nor is its adjacency up. *)
Lemma lost_ok w : sup_ok w → sup_ok (mkLoop (set_healthy false (sv w)) (trace w ++ [Lost]) (workers w)).
Proof.
  intros [I1 I2 I3 I4 I5 I6 I7 I8]. split; cbn; try done; [by rewrite adjacency_app|by intros v Hv; rewrite material_app; apply I6|].
  intros id N. rewrite pings_app, answered_app. specialize (I8 id N). unfold outstanding in *. cbn. lia.
Qed.
Lemma on_tick_ok a : answers_ok a → sup_spec sup_ok (on_tick automatic a)
  (λ _ w, sup_ok w ∧ (healthy (sv w) = true → a_now a 0 < h_lastPong (health (sv w)) + linkFailureTimeout)).
Proof.
  intros A. unfold on_tick.
  eapply (sup_bind _ _ (λ s w, sup_ok w ∧ s = sv w)); [by apply sup_get|]. intros s.
  eapply (sup_bind _ _ (λ _ w, sup_ok w ∧ (healthy (sv w) = true → a_now a 0 < h_lastPong (health (sv w)) + linkFailureTimeout))).
  { intros w [I ->]. destruct (healthy (sv w) && expired (a_now a 0) (health (sv w))) eqn:E.
    - unfold act, put, mbind, sys_bind. cbn. apply lost_ok in I. destruct automatic; cbn; (split; [|done]); [|done].
      by apply (neutral_ok _ Failed) in I.
    - split; [done|]. intros H. rewrite H in E. cbn in E. unfold expired in E. apply andb_false_iff in E as [E|E].
      + apply negb_false_iff, Z.eqb_eq in E. destruct (so_healthy w I H) as [_ P]. lia.
      + by apply negb_false_iff, Z.ltb_lt in E. }
  intros _u. eapply (sup_bind _ _ (λ s w, (sup_ok w ∧ (healthy (sv w) = true → a_now a 0 < h_lastPong (health (sv w)) + linkFailureTimeout)) ∧ s = sv w));
    [by apply sup_get|]. intros s'. destruct (result_ s'); [|by apply sup_ret; intros w [X _]]. destruct (a_now a 0 <? nextPing s'); [by apply sup_ret; intros w [X _]|].
  intros w [[I L] _]. pose proof (ping_ok a (a_now a 0) A w I) as P. pose proof (ping_keeps a (a_now a 0) w) as K.
  destruct (ping a (a_now a 0) w) as [[[]|e|] w']; [|done..]. destruct K as [K1 K2]. split; [done|]. by rewrite K1, K2.
Qed.

Lemma on_install_ok a value target : answers_ok a → sup_spec (λ w, sup_ok w ∧ workers w = [(target, false)])
  (on_install peer automatic a value target) (λ _, sup_ok).
Proof.
  intros A w [I W]. unfold on_install. destruct (negb _ && negb _) eqn:Pe.
  { destruct I as [I1 I2 I3 I4 I5 I6 I7 I8]. unfold reply. cbn. rewrite W in *. split; cbn; try done.
    - intros _. by apply I4.
    - by rewrite adjacency_app.
    - intros v Ev. left. rewrite material_app. by destruct (I6 v Ev) as [M|(_ & _ & t & [=])].
    - intros id N. rewrite pings_app, answered_app. specialize (I8 id N). unfold outstanding in *. cbn. lia. }
  assert (Peer : peer = uuid_Nil ∨ UUID (Engine.RemoteUID value) = peer).
  { apply andb_false_iff in Pe as [Pe|Pe]; apply negb_false_iff, bool_decide_eq_true in Pe; auto. }
  unfold mbind at 1, sys_bind at 1, get at 1. cbv beta iota. destruct (same_result (sv w) value target).
  { unfold reply, mbind, sys_bind. cbn -[ping]. apply ping_ok; [done|]. by apply (neutral_ok w (Reply (Ok tt))). }
  destruct I as [I1 I2 I3 I4 I5 I6 I7 I8]. rewrite W in *. destruct (a_withdraw a) as [[]|e|] eqn:Ew; [|done|by destruct (ao_withdraw a A)].
  unfold withdraw, put, act, reply, reply_of, mbind, sys_bind. rewrite Ew. cbn -[ping].
  assert (B : busy (sv w) = true) by (destruct I1 as [_ ->]; by apply bool_decide_eq_true_2).
  destruct (a_materialize a) as [[]|e|] eqn:Em; [| |by destruct (ao_materialize a A)]; destruct automatic; cbn -[ping].
  1, 2: apply ping_ok; [done|]; split; cbn; rewrite ?W, ?B; try done; rewrite ?adjacency_app, ?material_app; cbn; try done;
    [by intros v [= <-]; left|by intros v [= <-]|].
  all: try (split; cbn; rewrite ?W, ?B; try done; rewrite ?adjacency_app, ?material_app; cbn; try done;
    [intros v Ev; right; split_and!; [done|done|by exists target]|]).
  all: intros id N; rewrite !pings_app, !answered_app; specialize (I8 id N); unfold outstanding in *; cbn;
    rewrite ?(bool_decide_eq_false_2 (no_id = id)) by congruence; lia.
Qed.

Lemma on_finished_ok a r w0 w : answers_ok a → sup_ok w0 → (∃ target refused, workers w0 = [(target, refused)] ∧ (r = Ok tt → refused = false)) →
  w = with_workers [] w0 → match on_finished automatic a r w with (Ok _, w') => sup_ok w' | (Err _, _) => True | (Panic, _) => False end.
Proof.
  intros A I (target & refused & W & Hr) ->. pose proof (so_changed w0 I) as C. pose proof (so_healthy w0 I) as H.
  rewrite W in C. specialize (C ltac:(done)).
  assert (X : changed (sv w0) = false ∨ refused = false → sup_ok (mkLoop (set_busy false (sv w0)) (trace w0) [])).
  { intros D. destruct I as [I1 I2 I3 I4 I5 I6 I7 I8]. split; cbn; try done; try (by split; [lia|]). intros v Ev. left.
    destruct (I6 v Ev) as [M|(Ch & _ & t & E)]; [done|]. rewrite W in E. injection E as _ ->. destruct D; congruence. }
  unfold on_finished, put, get, mbind, sys_bind. cbn -[confirm ping]. destruct r as [[]|e|].
  - specialize (X (or_intror (Hr eq_refl))). match goal with |- context [@bool_decide ?P ?D] => remember (@bool_decide P D) as rd eqn:R end.
    set (w1 := mkLoop (set_ready _ _) _ _).
    assert (I1 : sup_ok w1).
    { destruct X as [X1 X2 X3 X4 X5 X6 X7 X8]. split; cbn in *; try done; rewrite ?R.
      - intros Y. by apply bool_decide_eq_true in Y.
      - intros Hh. destruct (X3 Hh) as [Y P]. split; [|done]. apply bool_decide_eq_true. by apply X2.
      - intros v Ev. destruct (X6 v Ev) as [M|(_ & _ & t & [=])]. by left. }
    assert (R1 : ready (sv w1) = rd) by done. clearbody w1. clear R. destruct rd; cbn -[confirm ping]; [|by apply ping_ok].
    pose proof (confirm_ok a (a_now a 0) A (ao_clock a A 0%nat) w1 (conj I1 R1)) as Cf.
    destruct (confirm automatic a (a_now a 0) w1) as [[[]|e|] w2]; [by apply ping_ok|done..].
  - cbn -[confirm ping]. destruct (changed (sv w0)) eqn:Ch; [|by apply X; left]. cbn.
    assert (N : healthy (sv w0) = false).
    { destruct (healthy (sv w0)); [|done]. destruct (H eq_refl) as [R _]. by rewrite C in R. }
    destruct I as [I1 I2 I3 I4 I5 I6 I7 I8]. split; cbn; rewrite ?N in *; try done; try (by split; [lia|]).
    intros id Nn. specialize (I8 id Nn). unfold outstanding in *. cbn. rewrite (bool_decide_eq_false_2 (no_id = id)) by congruence. lia.
  - cbn -[confirm ping]. destruct (changed (sv w0)) eqn:Ch; [|by apply X; left]. cbn.
    assert (N : healthy (sv w0) = false).
    { destruct (healthy (sv w0)); [|done]. destruct (H eq_refl) as [R _]. by rewrite C in R. }
    destruct I as [I1 I2 I3 I4 I5 I6 I7 I8]. split; cbn; rewrite ?N in *; try done; try (by split; [lia|]).
    intros id Nn. specialize (I8 id Nn). unfold outstanding in *. cbn. rewrite (bool_decide_eq_false_2 (no_id = id)) by congruence. lia.
Qed.

(** ** Every event *)

Lemma handle_ok a e w : answers_ok a → outside e = true → (∀ r, e = E_accepted r → r ≠ Panic) → sup_ok w →
  match handle local peer automatic a e w with (Ok _, w') => sup_ok w' | (Err _, _) => True | (Panic, _) => False end.
Proof.
  intros A O P I. destruct e as [e|incoming|r|value target|source hello|source id|source id endpoint| |]; try done; unfold handle; try case_bool_decide; try done.
  - apply on_accepted_ok; [by apply P|done].
  - by apply on_discovery_ok.
  - by apply on_ping_ok.
  - by apply on_pong_ok.
  - by apply on_hello_ok.
  - pose proof (on_tick_ok a A w I) as T. destruct (on_tick automatic a w) as [[[]|e|] w']; [by destruct T|done..].
Qed.
Lemma one_worker w x ws : sup_ok w → workers w ≡ₚ x :: ws → workers w = [x] ∧ ws = [].
Proof.
  intros I Pm. destruct (so_workers w I) as [L _]. rewrite Pm in L. cbn in L. destruct ws; [|cbn in L; lia].
  split; [|done]. by apply Permutation_singleton_r in Pm.
Qed.
Lemma step_sup_ok w w' : sup_ok w → step local peer automatic w w' → sup_ok w'.
Proof.
  intros I. destruct 1 as [e a w w' O A E|value target ws a w w' Pm A E|r target refused ws a w w' Pm A Hr E].
  - pose proof (handle_ok a e w A O) as H. rewrite E in H. apply H; [|done]. intros r -> ->. cbn in E. unfold on_accepted, mbind, sys_bind, reply_of in E. discriminate E.
  - destruct (one_worker _ _ _ I Pm) as [W ->]. pose proof (on_install_ok a value target A (with_workers [(target, false)] w)) as H.
    unfold handle in E. rewrite E in H. apply H. split; [|done]. destruct w. cbn in *. by subst.
  - destruct (one_worker _ _ _ I Pm) as [W ->].
    pose proof (on_finished_ok a r w (with_workers [] w) A I) as H. unfold handle in E. rewrite E in H. apply H; [by eexists _, _|done].
Qed.
Lemma begin_ok a receipt : answers_ok a → (∀ v remote at_, receipt = Some (v, remote, at_) → peer = uuid_Nil ∨ UUID (Engine.RemoteUID v) = peer) →
  sup_spec (λ w, w = loop_zero receipt) (sup_begin automatic passive a receipt) (λ _, sup_ok).
Proof.
  intros A Hp. unfold sup_begin.
  eapply (sup_bind _ _ (λ _ w, w = loop_zero receipt ∨ w = mkLoop sup_zero (trace (loop_zero receipt) ++ [ControlReady true]) [])).
  { intros w ->. destruct automatic; [by right|by left]. }
  intros _u. eapply (sup_bind _ _ (λ _, sup_ok)).
  { destruct receipt as [[[v remote] at_]|]; intros w [E|E]; subst w; (split; cbn; try done; try (by split; [lia|]);
      try (by intros v' [= <-]; auto); try (by intros v' [= <-]; apply (Hp v remote at_)); intros id N; unfold outstanding, answered, pings; cbn; rewrite (bool_decide_eq_false_2 (no_id = id)) by congruence; lia). }
  intros _v. eapply (sup_bind _ _ (λ _, sup_ok)); [by apply ping_ok|]. intros _w. destruct passive; [by apply sup_ret|by apply act_ok].
Qed.
Lemma reach_sup_ok receipt w : (∀ v remote at_, receipt = Some (v, remote, at_) → peer = uuid_Nil ∨ UUID (Engine.RemoteUID v) = peer) →
  reach local peer automatic passive receipt w → sup_ok w.
Proof.
  intros Hp. induction 1 as [a w A E|w w' _ IH S]; [|by eapply step_sup_ok].
  pose proof (begin_ok a receipt A Hp _ eq_refl) as B. by rewrite E in B.
Qed.

(** C35: the supervision of a Link. Whatever packets, connections and results of
    workers arrive and whatever fails, in every state of the loop the adjacency
    is up exactly while the Link is held healthy, and then it is the result that
    was last negotiated, its addresses are those in the kernel, and it is that
    of the peer the Link is for; at most one negotiation runs; every identifier
    is accepted at most as often as it was sent as a challenge; no event panics;
    and after a tick the Link is healthy only if a PONG or a negotiation
    confirmed it within the last thirty seconds. Assumed are a clock past Go's
    zero time, calls of other components that do not panic ([answers_ok]),
    workers that end once and not well after a refusal ([step]), and a warm
    receipt, if there is one, of the peer. *)
Theorem supervised_link receipt w :
  (∀ v remote at_, receipt = Some (v, remote, at_) → peer = uuid_Nil ∨ UUID (Engine.RemoteUID v) = peer) →
  reach local peer automatic passive receipt w →
  adjacency (trace w) = (if healthy (sv w) then result_ (sv w) else None) ∧
  (healthy (sv w) = true → ∃ v, result_ (sv w) = Some v ∧ material (trace w) = Some v ∧ (peer = uuid_Nil ∨ UUID (Engine.RemoteUID v) = peer)) ∧
  (length (workers w) <= 1)%nat ∧
  (∀ id, id ≠ no_id → (answered id (trace w) <= pings id (trace w))%nat) ∧
  ∀ a e, answers_ok a → outside e = true → (∀ r, e = E_accepted r → r ≠ Panic) →
    let '(r, w') := handle local peer automatic a e w in
    r ≠ Panic ∧ (e = E_tick → r = Ok tt → healthy (sv w') = true → a_now a 0 < h_lastPong (health (sv w')) + linkFailureTimeout).
Proof.
  intros Hp R. pose proof (reach_sup_ok receipt w Hp R) as I. split_and!.
  - apply I.
  - intros H. destruct (so_healthy w I H) as [Rd _]. destruct (so_ready w I Rd) as [v Ev]. exists v.
    destruct (so_material w I v Ev) as [M|(_ & R' & _)]; [|congruence]. split_and!; [done|done|by apply (so_peer w I)].
  - apply I.
  - intros id N. pose proof (so_count w I id N). lia.
  - intros a e A O P. pose proof (handle_ok a e w A O P I) as H. destruct (handle local peer automatic a e w) as [r w'] eqn:E.
    split; [by intros ->|]. intros -> ->. pose proof (on_tick_ok a A w I) as T. cbn in E. rewrite E in T. apply T.
Qed.
End Supervised.

(** * A run *)

(** A Hello, a negotiation, and the PONG to its first challenge. *)
Definition run_local : Addr := Addr6 (0xfe80 * 2 ^ 112 + 1) "".
Definition run_remote : Addr := Addr6 (0xfe80 * 2 ^ 112 + 2) "".
Definition run_value : Result_ := mkResult (mkUID (be_put 16 7) "b") (Addr6 5 "") Proposal_zero.
Definition run_id (n : Z) : list byte := be_put 16 n.
Definition run_calls (now n : Z) : answers :=
  mkAnswers (λ k, now * 1000000000 + Z.of_nat k) (Ok (run_id n)) (Ok tt) (Ok tt) (Ok tt) (Ok None).
Lemma run_calls_ok now n : 0 < now → answers_ok (run_calls now n).
Proof. intros P. split; cbn; try done. intros k. lia. Qed.
Notation run_handle := (handle run_local (be_put 16 7) true).
Definition run_w0 : loop := (sup_begin true false (run_calls 1 1) None (loop_zero None)).2.
Definition run_w1 : loop := (run_handle (run_calls 2 2) (E_discovery run_remote true) run_w0).2.
Definition run_w2 : loop := (run_handle (run_calls 3 3) (E_install run_value run_remote) (with_workers [(run_remote, false)] run_w1)).2.
Definition run_w3 : loop := (run_handle (run_calls 4 4) (E_finished (Ok tt)) (with_workers [] run_w2)).2.
Definition run_w4 : loop := (run_handle (run_calls 5 5) (E_pong run_remote (run_id 4) None) run_w3).2.
Lemma run_supervised : reach run_local (be_put 16 7) true false None run_w4.
Proof.
  eapply L_step; [|apply (L_event _ _ _ (E_pong run_remote (run_id 4) None) (run_calls 5 5) run_w3); [done|by apply run_calls_ok|by vm_compute]].
  eapply L_step; [|apply (L_finished _ _ _ (Ok tt) run_remote false [] (run_calls 4 4) run_w2); [done|by apply run_calls_ok|done|by vm_compute]].
  eapply L_step; [|apply (L_install _ _ _ run_value run_remote [] (run_calls 3 3) run_w1); [done|by apply run_calls_ok|by vm_compute]].
  eapply L_step; [|apply (L_event _ _ _ (E_discovery run_remote true) (run_calls 2 2) run_w0); [done|by apply run_calls_ok|by vm_compute]].
  apply (L_begin _ _ _ _ _ (run_calls 1 1)); [by apply run_calls_ok|by vm_compute].
Qed.
Lemma supervised_link_witness :
  reach run_local (be_put 16 7) true false None run_w4 ∧ healthy (sv run_w4) = true ∧ adjacency (trace run_w4) = Some run_value ∧
  answered (run_id 4) (trace run_w4) = 1%nat ∧ (answered (run_id 4) (trace run_w4) <= pings (run_id 4) (trace run_w4))%nat.
Proof.
  split; [exact run_supervised|].
  destruct (supervised_link run_local (be_put 16 7) true false None run_w4 ltac:(discriminate) run_supervised) as (Ad & _ & _ & C & _).
  split; [reflexivity|]. split; [exact Ad|]. split; [vm_compute; reflexivity|apply C; discriminate].
Defined.

(** Nothing more is heard: thirty seconds later the Link is given up. *)
Lemma run_expires : healthy (sv (run_handle (run_calls 36 6) E_tick run_w4).2) = false ∧
  adjacency (trace (run_handle (run_calls 36 6) E_tick run_w4).2) = None ∧ healthy (sv (run_handle (run_calls 34 6) E_tick run_w4).2) = true.
Proof. by vm_compute. Qed.
(** A second PONG with the same identifier changes nothing. *)
Lemma run_replay : run_handle (run_calls 6 6) (E_pong run_remote (run_id 4) None) run_w4 = (Ok tt, run_w4).
Proof. by vm_compute. Qed.
