(* ===== verification/LinkRoutes.v ===== *)
(** runtime/link_routes.go, link_status.go and the parts of runtime.go that read
    the states of the Links: the election of the Link that carries the route to
    a peer's loopback, the pass that puts the routes of every Link back, and
    the status report.

    The map of the states is visited in an order of Go's choice: [l] lists it. *)

From S2P Require Import Prelude Netip Ports Spec Desired Link Field MessageData Durable Netlink Routes Backend.
From stdpp Require Import gmap strings.
Open Scope Z_scope.
Open Scope velvet_scope.

(** * The election (link_routes.go) *)

Definition elect (peer : Addr) (owner : string) (x : string * materializedState) : string :=
  if string_ltb x.1 owner && committed x.2 && bool_decide (peer ∈ ms_peers x.2) then x.1 else owner.
Definition owner_of (l : list (string * materializedState)) (name : string) (peer : Addr) : string := foldl (elect peer) name l.
Definition selected (l : list (string * materializedState)) (name : string) (peers : list Addr) : list Addr :=
  filter (λ peer, owner_of l name peer = name) peers.

Section Materialize.
Context {W : Type} `{Kernel W} `{Attempts W} (Desired : DesiredState).
Definition materializeLink (l : list (string * materializedState)) (plan : LinkPlan) (local : list Prefix) (peers : list Addr) : sys W unit :=
  Materialize Desired plan local (selected l (InterfaceName plan) peers).

(** ** The maintenance of every Link (runtime.go) *)

Definition maintain_one (l : list (string * materializedState)) (healthy : bool) (x : string * materializedState) : sys W bool := λ w,
  match materializeLink l (ms_desired x.2) (ms_local x.2) (ms_peers x.2) w with
  | (Ok _, w) => (Ok healthy, w)
  | (Err _, w) => (Ok false, w)
  | (Panic, w) => (Panic, w)
  end.
Fixpoint maintain_all (l : list (string * materializedState)) (healthy : bool) (todo : list (string * materializedState)) : sys W bool :=
  match todo with
  | [] => mret healthy
  | x :: todo => healthy ← maintain_one l healthy x; maintain_all l healthy todo
  end.
Definition maintainMaterialized (l : list (string * materializedState)) : sys W bool := maintain_all l true l.
End Materialize.

(** * Status (link_status.go) *)

Record LinkStatus := mkLinkStatus {
  lst_Interface : string; lst_Peer : string; lst_Retention : string; lst_Committed : bool; lst_Active : bool;
  lst_ListenPort : Z; lst_PortMode : string; lst_PortRange : option PortRange; lst_WaitingPort : bool; lst_CleanupPending : bool }.

Section Status.
(** The resources with their plans and whether they await cleanup, and the
    states, each in the order in which its map is visited; [confirmed] by the
    text of a peer's UUID. *)
Context (links : list LinkPlan) (resources : list (LinkPlan * bool)) (l : list materializedState) (confirmed : gmap string bool).
Definition status_states : gmap string materializedState := foldl (λ m st, <[InterfaceName (ms_desired st) := st]> m) ∅ l.
Definition is_static (name : string) : bool := bool_decide (name ∈ map InterfaceName links).
(** The last plan of a name, and whether its resources await cleanup. *)
Definition status_plans : gmap string LinkPlan :=
  foldl (λ m p, <[InterfaceName p := p]> m) (foldl (λ m p, <[InterfaceName p := p]> m) ∅ links) (map fst resources).
Definition status_cleanups : gmap string bool := foldl (λ m x, <[InterfaceName x.1 := x.2]> m) ∅ resources.
Definition retention (name : string) (plan : LinkPlan) : string :=
  if is_static name then "static" else if default false (confirmed !! lk_PeerName plan) then "durable" else "dynamic".
Definition link_status (name : string) (plan : LinkPlan) : LinkStatus :=
  let st := status_states !! name in
  let port := Ports.pc_Port (lk_Ports plan) in
  let range := Range (lk_Ports plan) in
  mkLinkStatus name (lk_PeerName plan) (retention name plan) (default false (committed <$> st))
    (default false ((λ st, active st && bool_decide (OwnerAlias (ms_desired st) = OwnerAlias plan)) <$> st))
    (if WaitingPort plan then 0 else ListenPort plan)
    (if negb (port =? 0) then "fixed" else if negb (First range =? 0) then "range" else "system")
    (if negb (port =? 0) then None else if negb (First range =? 0) then Some range else None)
    (WaitingPort plan) (default false (status_cleanups !! name)).
Definition linkStatus : list LinkStatus :=
  SortStableFunc (λ a b, match string_compare (lst_Interface a) (lst_Interface b) with Lt => -1 | Eq => 0 | Gt => 1 end)
    (map (λ x, link_status x.1 x.2) (map_to_list status_plans)).
End Status.
