(* ===== verification/LinkRoutesProps.v ===== *)
(** The election of the Link that carries the route to a peer's loopback does not
    depend on the order in which the states are visited, and a pass over all
    Links leaves that route over the elected one. *)

From S2P Require Import Prelude Netip Ports Spec Desired Link Field MessageData Durable Netlink Routes RoutesProps Backend BackendProps Reconciled RunKernel ReconciledRun LinkRoutes.
From stdpp Require Import gmap strings.
Open Scope Z_scope.
Open Scope velvet_scope.

(** * The order of names *)

Lemma string_ltb_irrefl a : string_ltb a a = false.
Proof. unfold string_ltb. by rewrite string_compare_refl. Qed.
Lemma string_ltb_connex a b : string_ltb a b = false → a ≠ b → string_ltb b a = true.
Proof.
  unfold string_ltb. rewrite (string_compare_antisym a b). destruct (string_compare a b) eqn:E; try done.
  by apply string_compare_eq in E.
Qed.

(** * The election *)

(** A committed Link that has the peer. *)
Definition carries (l : list (string * materializedState)) (peer : Addr) (name : string) : Prop :=
  ∃ st, (name, st) ∈ l ∧ committed st = true ∧ peer ∈ ms_peers st.
Lemma owner_of_spec l name peer : let o := owner_of l name peer in
  (o = name ∨ carries l peer o) ∧ string_ltb name o = false ∧ ∀ n, carries l peer n → string_ltb n o = false.
Proof.
  cbn. unfold owner_of. revert name. induction l as [|[n st] l IH]; intros name; cbn [foldl].
  - split_and!; [by left|apply string_ltb_irrefl|]. by intros n (st & []%not_elem_of_nil & _).
  - destruct (IH (elect peer name (n, st))) as (I1 & I2 & I3). set (o := foldl _ _ l) in *. unfold elect in *. cbn [fst snd] in *.
    destruct (string_ltb n name && committed st && bool_decide (peer ∈ ms_peers st)) eqn:E.
    + bool_to_prop. split_and!.
      * right. destruct I1 as [->|(st' & Hs & X)]; [exists st; split; [by left|done]|exists st'; split; [by right|done]].
      * destruct (string_ltb name o) eqn:L; [|done]. by rewrite (string_ltb_trans n name o) in I2.
      * intros m (st' & [[= -> ->]|Hs]%elem_of_cons & X); [done|]. apply I3. by exists st'.
    + split_and!.
      * destruct I1 as [->|(st' & Hs & X)]; [by left|right; exists st'; split; [by right|done]].
      * done.
      * intros m (st' & [[= -> ->]|Hs]%elem_of_cons & C & Hp); [|apply I3; by exists st'].
        rewrite C, bool_decide_eq_true_2, !andb_true_r in E by done. destruct (string_ltb n o) eqn:L; [|done]. destruct (decide (name = n)) as [->|Ne].
        -- congruence.
        -- by rewrite (string_ltb_trans name n o (string_ltb_connex n name E (not_eq_sym Ne)) L) in I2.
Qed.
(** The Link elects itself: no committed Link of a smaller name has the peer. *)
Lemma elected_iff l name peer : owner_of l name peer = name ↔ ∀ n, carries l peer n → string_ltb n name = false.
Proof.
  pose proof (owner_of_spec l name peer) as (O1 & O2 & O3). split; [by intros E; rewrite E in O3|].
  intros H. destruct O1 as [O1|O1]; [done|]. specialize (H _ O1). destruct (decide (owner_of l name peer = name)) as [|N]; [done|].
  apply string_ltb_connex in H; [|done]. congruence.
Qed.
Lemma owner_of_perm l l' name peer : l ≡ₚ l' → owner_of l name peer = name ↔ owner_of l' name peer = name.
Proof.
  intros P. rewrite !elected_iff. assert (X : ∀ n, carries l peer n ↔ carries l' peer n) by (intros n; unfold carries; by setoid_rewrite P).
  by setoid_rewrite X.
Qed.
(** Of the committed Links with the peer, exactly one elects itself. *)
Lemma elected_unique l peer n m : carries l peer n → carries l peer m → owner_of l n peer = n → owner_of l m peer = m → n = m.
Proof.
  rewrite !elected_iff. intros Cn Cm En Em. destruct (decide (n = m)) as [|N]; [done|].
  pose proof (string_ltb_connex n m (Em n Cn) N). by rewrite (En m Cm) in H.
Qed.
Lemma elected_exists l peer n : carries l peer n → ∃ m, carries l peer m ∧ owner_of l m peer = m.
Proof.
  intros C. pose proof (owner_of_spec l n peer) as (O1 & _ & O3). exists (owner_of l n peer).
  assert (Co : carries l peer (owner_of l n peer)) by (destruct O1 as [->|]; done). split; [done|]. by apply elected_iff.
Qed.

(** * The routes of one Link *)

Section Kernel.
Context {W : Type} `{AttemptsLaws W}.

(** Devices keep their names, and no route of a Link appears. *)
Record quiet s0 s : Prop := {
  q_named : ∀ i n, named s i n ↔ named s0 i n;
  q_routes : ∀ r, r ∈ routes s → nr_Protocol r = LinkProtocol → r ∈ routes s0 }.
Lemma quiet_refl s : quiet s s.
Proof. done. Qed.
Lemma quiet_trans s1 s2 s3 : quiet s1 s2 → quiet s2 s3 → quiet s1 s3.
Proof. intros [A B] [C D]. split; [|auto]. intros i n. by rewrite C. Qed.
Lemma named_devices s s' i n : devices s' = devices s → named s' i n ↔ named s i n.
Proof. unfold named. by intros ->. Qed.
Lemma quiet_step s0 s s' i R : quiet s0 s → (∀ d d', R d d' → d_link d' = d_link d) → device_step i R s s' → quiet s0 s'.
Proof.
  intros Q HR (d & d' & Hd & Es & HRd & _ & _ & Hr). eapply quiet_trans; [exact Q|]. split.
  - intros j n. unfold named. rewrite Es. destruct (decide (j = i)) as [->|N]; [|by rewrite lookup_insert_ne].
    rewrite lookup_insert_eq, Hd. split; intros (e & [= <-] & <-); eexists; (split; [done|]); by rewrite (HR _ _ HRd).
  - intros r Hin E. apply Hr; [done|]. by rewrite E.
Qed.
Lemma reconcileMaterializedAddresses_quiet l bootstrap ps s0 :
  sspec (λ s, s = s0) (reconcileMaterializedAddresses l bootstrap ps) (λ _ s, quiet s0 s) (λ _ _, True).
Proof.
  unfold reconcileMaterializedAddresses. apply (sspec_bind _ _ (λ _ s, quiet s0 s)).
  { apply (sspec_loop _ (λ _, quiet s0)); [by intros s ->|]. intros l1 p l2 _. eapply sspec_acts; [apply AddrReplace_law| |done].
    intros s s' Q D _. eapply quiet_step; [exact Q| |exact D]. by intros d d' (-> & _). }
  intros _u. eapply (sspec_bind _ _ (λ xs s, quiet s0 s ∧ ∀ a, a ∈ xs → is_Some a)).
  { eapply sspec_reads; [apply AddrList_law| |done]. intros s a Q (d & _ & L). split; [done|]. intros x (y & -> & _)%L. by eexists. }
  intros xs. apply sspec_pure. intros Hx. apply (sspec_loop _ (λ _, quiet s0)); [done|]. intros l1 a l2 El.
  destruct (Hx a) as [y ->]; [rewrite El; apply elem_of_app; right; by left|].
  destruct (prefixFromAddressIPNet (Some y)); [|by apply sspec_ret]. destruct (_ || _); [by apply sspec_ret|].
  eapply sspec_acts; [apply AddrDel_law| |done]. intros s s' Q D _. eapply quiet_step; [exact Q| |exact D]. by intros d d' (-> & _).
Qed.

(** Routes that the kernel takes. *)
Definition plain {A} (f : A → NRoute) (l : list A) : Prop := ∀ x, x ∈ l → ∃ p, plain_prefix p ∧ nr_Dst (f x) = Some (prefixIPNet p).
Lemma replace_from {A} (f : A → NRoute) (test : A → bool) l s0 : plain f l →
  sspec (λ s, s = s0) (each (λ x, if test x then mret tt else RouteReplace (f x)) l)
    (λ _ s, only_routes s0 s ∧ ∀ k, k ∈ routes s → k ∈ routes s0 ∨ ∃ x, x ∈ l ∧ reported (f x) k) (λ _ _, True).
Proof.
  intros P. eapply (sspec_loop _ (λ _ s, only_routes s0 s ∧ ∀ k, k ∈ routes s → k ∈ routes s0 ∨ ∃ x, x ∈ l ∧ reported (f x) k)).
  { intros s ->. split; [done|]. auto. }
  intros l1 x l2 El. assert (Hx : x ∈ l) by (rewrite El; apply elem_of_app; right; by left).
  destruct (test x); [by apply sspec_ret|]. destruct (P x Hx) as (p & G & Ed).
  eapply sspec_writes; [by apply (RouteReplace_law (f x) p)| |done]. intros s s' [O F] (O' & k & R & Z) _.
  split; [by eapply only_routes_trans|]. intros z [->|[Hz _]]%Z; [right; by exists x|auto].
Qed.
Lemma deleted_from (stale : NRoute → bool) s0 current : NoDup current → (∀ r, r ∈ current → r ∈ routes s0) →
  sspec (λ s, s = s0) (each (λ r, if stale r then RouteDel r else mret tt) current)
    (λ _ s, only_routes s0 s ∧ (∀ r, r ∈ routes s ↔ r ∈ routes s0 ∧ (r ∈ current → stale r = false))) (λ _ _, True).
Proof. intros N C. eapply sspec_post; [by apply delete_spec|done|done]. Qed.

(** The routes of the Link at [i] are wanted, and others come from [s0]. *)
Record cleaned (i : Z) (wanted : list NRoute) s0 s : Prop := {
  c_named : ∀ j n, named s j n ↔ named s0 j n;
  c_wanted : ∀ r, r ∈ routes s → nr_Protocol r = LinkProtocol → nr_LinkIndex r = i → anyRouteMatches r wanted = true;
  c_others : ∀ r, r ∈ routes s → nr_Protocol r = LinkProtocol → nr_LinkIndex r ≠ i → r ∈ routes s0 }.
Lemma cleaned_then i wanted s0 s s' : cleaned i wanted s0 s → devices s' = devices s →
  (∀ r, r ∈ routes s' → nr_Protocol r = LinkProtocol → r ∈ routes s) → cleaned i wanted s0 s'.
Proof. intros [C1 C2 C3] D R. split; [|auto..]. intros j n. by rewrite (named_devices _ _ _ _ D). Qed.

Lemma materialize_routes_clean i wanted s0 s1 : quiet s0 s1 → plain (λ r, r) wanted →
  (∀ r, r ∈ wanted → nr_LinkIndex r = i ∧ nr_Type r = RTN_UNICAST) →
  sspec (λ s, s = s1) (materialize_routes i wanted) (λ _ s, cleaned i wanted s0 s) (λ _ _, True).
Proof.
  intros [Q1 Q2] P Hw. unfold materialize_routes.
  eapply (sspec_then (routes_listed s1 LinkProtocol)); [eapply sspec_post; [apply routesByProtocol_spec|done|done]|]. intros current _.
  eapply sspec_bind; [by apply (replace_from (λ r, r) (λ r, installedRoutePresent r current))|]. intros _u.
  apply sspec_from. intros s2 [(D2 & _ & _) F].
  eapply (sspec_then (routes_listed s2 LinkProtocol)); [eapply sspec_post; [apply routesByProtocol_spec|done|done]|]. intros cur2 [Nd C].
  eapply sspec_post; [apply (deleted_from (λ r, (nr_LinkIndex r =? i) && negb (anyRouteMatches r wanted)) s2 cur2 Nd); by intros r [? _]%C| |done].
  intros [] s [(D & _ & _) Hr]. split.
  - intros j n. rewrite (named_devices s2 s j n D), (named_devices s1 s2 j n D2). apply Q1.
  - intros r Hin E Ei. apply Hr in Hin as [Hin St]. assert (Hc : r ∈ cur2) by by apply C. specialize (St Hc).
    rewrite (proj2 (Z.eqb_eq _ _) Ei) in St. cbn in St. by apply negb_false_iff in St.
  - intros r Hin E N. apply Hr in Hin as [Hin _]. destruct (F r Hin) as [?|(x & Hx & R)]; [by apply Q2|].
    destruct (Hw x Hx) as [Ex Tx]. destruct N. by rewrite (rep_link _ _ R).
Qed.

Section Link.
Context (desired : DesiredState) (M : manageable desired).
Definition host_route (a : Addr) : Prefix := PrefixFrom a (if Is4 a then 32 else 128).
(** The networks of a Link are such that the kernel takes their routes. *)
Definition deliverable (local : list Prefix) (peers : list Addr) : Prop :=
  (∀ p, p ∈ local → Prefix_IsValid p = true → plain_prefix (Masked p)) ∧
  (∀ a, a ∈ peers → Addr_IsValid a = true → plain_prefix (host_route a)).
Lemma wanted_inv i local peers r : r ∈ materializedLinkRoutes desired i local peers →
  nr_LinkIndex r = i ∧ nr_Type r = RTN_UNICAST ∧ nr_Protocol r = LinkProtocol ∧
  ((∃ p, p ∈ local ∧ Prefix_IsValid p = true ∧ nr_Dst r = Some (prefixIPNet (Masked p))) ∨
   (∃ a, a ∈ peers ∧ Addr_IsValid a = true ∧ nr_Dst r = Some (prefixIPNet (host_route a)))).
Proof using.
  unfold materializedLinkRoutes. set (shared := map _ _ ++ map _ _).
  assert (S : ∀ r, r ∈ shared → nr_LinkIndex r = i ∧ nr_Type r = RTN_UNICAST ∧ nr_Protocol r = LinkProtocol ∧
    ((∃ p, p ∈ local ∧ Prefix_IsValid p = true ∧ nr_Dst r = Some (prefixIPNet (Masked p))) ∨
     (∃ a, a ∈ peers ∧ Addr_IsValid a = true ∧ nr_Dst r = Some (prefixIPNet (host_route a))))).
  { intros x Hx. apply elem_of_app in Hx as [Hx|Hx]; apply list_elem_of_fmap in Hx as (y & -> & [V Hy]%list_elem_of_filter);
      (split_and!; [done..|]); [left|right]; by exists y. }
  intros [Hr|Hr]%elem_of_app; [by apply S|]. apply list_elem_of_bind in Hr as (t & (x & -> & Hx)%list_elem_of_fmap & _).
  destruct (S x Hx) as (? & ? & ? & ?). by split_and!.
Qed.
Lemma wanted_plain_routes i local peers : deliverable local peers → plain (λ r, r) (materializedLinkRoutes desired i local peers).
Proof using.
  intros [D1 D2] r Hr. destruct (wanted_inv _ _ _ _ Hr) as (_ & _ & _ & [(p & Hp & V & E)|(a & Ha & V & E)]);
    eexists; (split; [|exact E]); auto.
Qed.
Lemma static_plain s ms : Forall2 (is_wanted desired s) ms (ds_Routes desired) → plain route ms ∧ ∀ m, m ∈ ms → nr_Protocol (route m) = StaticProtocol.
Proof using M.
  intros F. assert (X : ∀ m, m ∈ ms → ∃ item i, item ∈ ds_Routes desired ∧ route m = desired_route desired item i).
  { intros m [k Hk]%list_elem_of_lookup. destruct (Forall2_lookup_l _ _ _ _ _ F Hk) as (item & Hi & i & -> & _).
    exists item, i. split; [by eapply list_elem_of_lookup_2|done]. }
  split; intros m Hm; destruct (X m Hm) as (item & i & Hi & ->); [|apply desired_route_protocol].
  exists (rp_Prefix item). split; [by apply (mg_plain desired M)|apply desired_route_dst].
Qed.

(** A materialized Link has its wanted routes only, and no other Link's routes
    were added. *)
Lemma Materialize_clean plan local peers s0 : deliverable local peers →
  sspec (λ s, s = s0) (Materialize desired plan local peers)
    (λ _ s, ∃ i, named s0 i (InterfaceName plan) ∧ cleaned i (materializedLinkRoutes desired i local peers) s0 s) (λ _ _, True).
Proof using M.
  intros Dl. unfold Materialize. eapply (sspec_then (λ _, True)); [eapply sspec_reads; [apply ctx_Err_law|by intros s a ->|done]|]. intros _u _.
  eapply (sspec_then (λ o, match o with Some l => ln_Name l = InterfaceName plan ∧ named s0 (ln_Index l) (InterfaceName plan) | None => True end)).
  { eapply sspec_reads; [apply LinkByName_law| |done]. intros s [l|] ->; [|done]. intros (En & d & Hd & Ed). split_and!; [done..|].
    exists d. by rewrite Ed. }
  intros [l|] Hl; [|by apply sspec_err]. destruct Hl as [En Nm]. destruct (negb _); [by apply sspec_err|]. cbv zeta.
  set (i := ln_Index l) in *. set (wanted := materializedLinkRoutes desired i local peers).
  eapply sspec_bind; [apply reconcileMaterializedAddresses_quiet|]. intros _v. apply sspec_from. intros s1 Q.
  eapply sspec_bind; [apply (materialize_routes_clean i wanted s0 s1 Q); [by apply wanted_plain_routes|]|].
  { intros r Hr. destruct (wanted_inv _ _ _ _ Hr) as (? & ? & _). by split. }
  intros _w. apply (sspec_bind _ _ (λ _, cleaned i wanted s0)).
  { unfold deleteLegacyMainPeerRoutes. apply sspec_from. intros s2 C.
    eapply (sspec_then (λ rs, NoDup rs ∧ ∀ r, r ∈ rs → r ∈ routes s2)).
    { eapply sspec_reads; [apply RouteList_law| |done]. intros s rs -> [Nd R]. split; [done|]. split; [done|]. by intros r [? _]%R. }
    intros rs [Nd Hr]. eapply sspec_post; [by apply deleted_from| |done]. intros [] s [(D & _ & _) R]. eapply cleaned_then; [exact C|done|].
    by intros r [? _]%R. }
  intros _x. apply sspec_from. intros s3 C. eapply sspec_bind.
  { unfold desiredNetlinkRoutes. eapply sspec_post; [apply (desired_routes_spec desired s3)|intros a s X; exact X|done]. }
  intros ms. apply sspec_from. intros s4 [-> F]. destruct (static_plain _ _ F) as [Pm Em].
  apply (sspec_bind _ _ (λ _, cleaned i wanted s0)).
  { unfold replaceStaticRoutes. eapply (sspec_then (routes_listed s3 StaticProtocol)); [eapply sspec_post; [apply routesByProtocol_spec|done|done]|]. intros cur _.
    eapply sspec_post; [by apply (replace_from route (λ m, installedRoutePresent (route m) cur))| |done].
    intros [] s [(D & _ & _) R]. eapply cleaned_then; [exact C|done|]. intros r Hr E. destruct (R r Hr) as [?|(m & Hm & Rm)]; [done|].
    rewrite (rep_protocol _ _ Rm), (Em m Hm) in E. done. }
  intros _y. apply sspec_from. intros s5 C5. eapply sspec_post; [by apply (reconcilePolicyRules_spec desired M)| |done].
  intros [] s [(D & Er & _) _ _ _]. exists i. split; [done|]. eapply cleaned_then; [exact C5|done|]. by rewrite Er.
Qed.

(** * The pass *)

Definition loopback_addr (a : Addr) : Prop := ∃ v, a = Addr6 v "" ∧ 0 <= v < 2 ^ 128 ∧ Is4In6 a = false.
(** A state as the supervision makes it: networks longer than one address, the
    loopbacks of peers, and those only while it is committed. *)
Record sound_state (st : materializedState) : Prop := {
  ss_local : ∀ p, p ∈ ms_local st → Prefix_IsValid p = true →
    wf_prefix p ∧ plain_prefix (Masked p) ∧ Bits p < BitLen (Prefix_Addr p);
  ss_peers : ∀ a, a ∈ ms_peers st → loopback_addr a;
  ss_held : ms_peers st ≠ [] → committed st = true }.
Lemma host_route_plain a : loopback_addr a → plain_prefix (host_route a) ∧ host_route a = mkPrefix a 128.
Proof using.
  intros (v & -> & V & N). assert (E : host_route (Addr6 v "") = mkPrefix (Addr6 v "") 128) by done. rewrite E. split; [|done].
  unfold plain_prefix, wf_prefix. cbn -[Z.pow]. split_and!; try done; [lia..|by right|].
  unfold Masked. cbn -[Z.pow]. unfold mask_value. cbn -[Z.pow]. by rewrite Z.pow_0_r, Z.div_1_r, Z.mul_1_r.
Qed.
Lemma sound_deliverable l st name : sound_state st → deliverable (ms_local st) (selected l name (ms_peers st)).
Proof using.
  intros [S1 S2 _]. split; [intros p Hp V; by apply S1|]. intros a [_ Ha]%list_elem_of_filter _. by apply host_route_plain, S2.
Qed.

Definition link_wanted (l : list (string * materializedState)) (i : Z) (x : string * materializedState) : list NRoute :=
  materializedLinkRoutes desired i (ms_local x.2) (selected l (InterfaceName (ms_desired x.2)) (ms_peers x.2)).
Definition link_clean l s (x : string * materializedState) : Prop :=
  ∀ i, named s i (InterfaceName (ms_desired x.2)) → ∀ r, r ∈ routes s → nr_Protocol r = LinkProtocol → nr_LinkIndex r = i →
    anyRouteMatches r (link_wanted l i x) = true.
Lemma cleaned_keeps l i wanted s0 s (x y : string * materializedState) : wf_devices s0 → cleaned i wanted s0 s → named s0 i (InterfaceName (ms_desired y.2)) →
  InterfaceName (ms_desired x.2) ≠ InterfaceName (ms_desired y.2) → link_clean l s0 x → link_clean l s x.
Proof using.
  intros Wf [C1 C2 C3] Hi N L j Hj r Hr E Ej. apply C1 in Hj. apply (L j Hj r); [|done..]. apply C3; [done..|].
  intros Ei. apply N. destruct Hj as (d & Hd & <-), Hi as (e & He & <-). congruence.
Qed.
Lemma maintain_false l todo w : (maintain_all desired l false todo w).1 ≠ Ok true.
Proof using.
  revert w. induction todo as [|x todo IH]; intros w; cbn [maintain_all]; [done|].
  unfold mbind, sys_bind. destruct (maintain_one desired l false x w) as [[b|e|] w1] eqn:E; [|done..].
  unfold maintain_one in E. destruct (materializeLink _ _ _ _ _ w) as [[]]; simplify_eq; apply IH.
Qed.
Lemma maintain_all_clean l todo l1 w w' : (∀ x, x ∈ todo → sound_state x.2) →
  NoDup (map (λ x, InterfaceName (ms_desired x.2)) (l1 ++ todo)) → (∀ x, x ∈ l1 → link_clean l (view w) x) →
  maintain_all desired l true todo w = (Ok true, w') → ∀ x, x ∈ l1 ++ todo → link_clean l (view w') x.
Proof using M.
  revert l1 w. induction todo as [|y todo IH]; intros l1 w S Nd L E; cbn [maintain_all] in E.
  { injection E as ->. by rewrite app_nil_r. }
  unfold mbind, sys_bind, maintain_one in E. destruct (materializeLink desired l _ _ _ w) as [[[]|e|] w1] eqn:E1; [| |done].
  2:{ pose proof (maintain_false l todo w1). by rewrite E in H3. }
  assert (Sy : sound_state y.2) by (apply S; by left).
  pose proof (sspec_run _ _ _ _ _ _ _ (Materialize_clean (ms_desired y.2) (ms_local y.2) _ (view w)
    (sound_deliverable l y.2 (InterfaceName (ms_desired y.2)) Sy)) eq_refl E1) as [(_u & _ & i & Ni & C)|(e & [=] & _)].
  rewrite cons_middle, app_assoc in Nd |- *. apply (IH (l1 ++ [y]) w1); [intros x Hx; apply S; by right|done| |done].
  intros x [Hx| ->%list_elem_of_singleton]%elem_of_app.
  - eapply (cleaned_keeps l i _ (view w) (view w1) x y); [apply view_wf|done|done| |by apply L].
    rewrite map_app in Nd. apply NoDup_app in Nd as (Nd & _ & _). rewrite map_app in Nd. apply NoDup_app in Nd as (_ & D & _).
    intros En. apply (D (InterfaceName (ms_desired x.2))); [by apply (list_elem_of_fmap_2 (λ x, InterfaceName (ms_desired x.2)))|]. rewrite En. by left.
  - intros j Hj r Hr Er Ej. assert (j = i) as ->; [|by apply (c_wanted _ _ _ _ C)].
    apply (c_named _ _ _ _ C) in Hj. by eapply (named_unique (view w)); [apply view_wf|..].
Qed.

(** ** The elected route stays *)

Lemma wanted_form i local peers x : x ∈ materializedLinkRoutes desired i local peers → ∃ t,
  (∃ p, p ∈ local ∧ Prefix_IsValid p = true ∧ x = with_route_table t (local_route desired i p)) ∨
  (∃ a, a ∈ peers ∧ x = with_route_table t (neighbor_route desired i a) ∧ (t = FabricTableID desired ∨ t ∈ source_tables desired)).
Proof using.
  unfold materializedLinkRoutes. set (shared := map _ _ ++ map _ _).
  assert (S : ∀ x, x ∈ shared → (∃ p, p ∈ local ∧ Prefix_IsValid p = true ∧ x = local_route desired i p) ∨ (∃ a, a ∈ peers ∧ x = neighbor_route desired i a)).
  { intros y Hy. apply elem_of_app in Hy as [Hy|Hy]; apply list_elem_of_fmap in Hy as (z & -> & [V Hz]%list_elem_of_filter); [left|right]; by exists z. }
  intros [Hx|Hx]%elem_of_app.
  - exists (FabricTableID desired). destruct (S x Hx) as [(p & ? & ? & ->)|(a & ? & ->)]; [left; by exists p|right; exists a; auto].
  - apply list_elem_of_bind in Hx as (t & (y & -> & Hy)%list_elem_of_fmap & Ht). exists t.
    destruct (S y Hy) as [(p & ? & ? & ->)|(a & ? & ->)]; [left; by exists p|right; exists a; auto].
Qed.
Lemma source_tables_other t : t ∈ source_tables desired → t ≠ FabricTableID desired.
Proof using.
  unfold source_tables. rewrite SortStableFunc_perm, elem_of_remove_dups. intros (r & -> & [[_ N] _]%list_elem_of_filter)%list_elem_of_fmap. done.
Qed.
Lemma local_slot t i p : plain_prefix (Masked p) → slot_of (with_route_table t (local_route desired i p)) =
  (t, 0, if Is6 (Prefix_Addr (Masked p)) then 1024 else 0, Some (Masked p)).
Proof using. intros G. unfold slot_of, kernel_priority. cbn -[prefixFromIPNet dst_is6]. rewrite prefixFromIPNet_plain, dst_is6_plain by done. by destruct (Is6 _). Qed.
Lemma neighbor_slot t i a : loopback_addr a → slot_of (with_route_table t (neighbor_route desired i a)) =
  (t, 0, NeighborFallbackPriority, Some (mkPrefix a 128)).
Proof using.
  intros L. destruct (host_route_plain a L) as [G E]. unfold slot_of, kernel_priority. cbn -[prefixFromIPNet dst_is6].
  change (PrefixFrom a (if Is4 a then 32 else 128)) with (host_route a). rewrite prefixFromIPNet_plain by done. by rewrite E.
Qed.
Lemma wanted_installable_link i st sel : sound_state st → (∀ a, a ∈ sel → loopback_addr a) →
  installable (λ r, r) LinkProtocol (materializedLinkRoutes desired i (ms_local st) sel).
Proof using.
  intros S Hs. assert (D : deliverable (ms_local st) sel).
  { split; [intros p Hp V; by apply (ss_local st S)|]. intros a Ha _. by apply host_route_plain, Hs. }
  split; [by apply wanted_plain_routes| |].
  - intros x Hx. by destruct (wanted_inv _ _ _ _ Hx) as (_ & _ & ? & _).
  - intros x y Hx Hy E. destruct (wanted_form _ _ _ _ Hx) as (t & [(p & Hp & Vp & ->)|(a & Ha & -> & _)]);
    destruct (wanted_form _ _ _ _ Hy) as (u & [(q & Hq & Vq & ->)|(b & Hb & -> & _)]);
    rewrite ?local_slot, ?neighbor_slot in E by (by first [apply (ss_local st S)|apply Hs]).
    + injection E as -> _ E. unfold with_route_table, local_route. cbn. by rewrite E.
    + injection E as _ E _. by destruct (Is6 _).
    + injection E as _ E _. by destruct (Is6 _).
    + injection E as -> ->. done.
Qed.

Section Elected.
Context (peer : Addr) (Lp : loopback_addr peer).
(** No static route takes the place of the fallback. *)
Context (Free : ∀ item, item ∈ ds_Routes desired → plan_slot item ≠ (FabricTableID desired, mkPrefix peer 128, NeighborFallbackPriority)).
#[local] Notation fallback i := (neighbor_route desired i peer).
Lemma fallback_slot i k : present (fallback i) k → in_slot (fallback i) k ∧ slot_of (fallback i) = (FabricTableID desired, 0, NeighborFallbackPriority, Some (mkPrefix peer 128)).
Proof using Lp. intros P. split; [by apply present_slot|]. apply (neighbor_slot (FabricTableID desired) i peer Lp). Qed.
Lemma fallback_clash i j k st sel x : sound_state st → (∀ a, a ∈ sel → loopback_addr a) → x ∈ materializedLinkRoutes desired i (ms_local st) sel →
  present (fallback j) k → in_slot x k → peer ∈ sel.
Proof using Lp.
  clear Free. intros S Hs Hx P I. destruct (fallback_slot j k P) as [I' E]. unfold in_slot in *. rewrite I', E in I.
  destruct (wanted_form _ _ _ _ Hx) as (t & [(p & Hp & Vp & ->)|(a & Ha & -> & _)]);
    rewrite ?local_slot, ?neighbor_slot in I by (by first [apply (ss_local st S)|apply Hs]).
  - injection I as _ I _. by destruct (Is6 _).
  - by injection I as _ ->.
Qed.
Lemma fallback_static j k s ms m : Forall2 (is_wanted desired s) ms (ds_Routes desired) → m ∈ ms → present (fallback j) k → ¬ in_slot (route m) k.
Proof using M Lp Free.
  intros F Hm P I. destruct (fallback_slot j k P) as [I' E]. unfold in_slot in *. rewrite I', E in I.
  apply list_elem_of_lookup in Hm as [n Hn]. destruct (Forall2_lookup_l _ _ _ _ _ F Hn) as (item & Hi & i & -> & _).
  apply list_elem_of_lookup_2 in Hi. cbn [route] in I. rewrite desired_route_slot in I by by apply (mg_plain desired M).
  apply (Free item Hi). destruct (plan_slot item) as [[t p] v]. cbn in I. by injection I as <- <- <-.
Qed.
Lemma fallback_wanted i local sel k : peer ∈ sel → Addr_IsValid peer = true → present (fallback i) k → anyRouteMatches k (materializedLinkRoutes desired i local sel) = true.
Proof using.
  intros Hp V P. unfold anyRouteMatches. apply existsb_exists. exists (fallback i). split.
  - apply list_elem_of_In. unfold materializedLinkRoutes. apply elem_of_app. left. apply elem_of_app. right.
    apply list_elem_of_fmap. exists peer. split; [done|]. by apply list_elem_of_filter.
  - rewrite (pr_match _ _ P). cbn [andb]. apply Z.eqb_eq. exact (pr_priority _ _ P).
Qed.

(** The addresses of a Link are those that its state has. *)
Definition addresses_set s (st : materializedState) : Prop :=
  ∀ i d, devices s !! i = Some d → ln_Name (d_link d) = InterfaceName (ms_desired st) →
    (∀ p, p ∈ ms_local st → prefixIPNet p ∈ d_addrs d) ∧
    ∀ a q, a ∈ d_addrs d → prefixFromAddressIPNet (Some a) = Some q →
      IsLinkLocalUnicast (Prefix_Addr q) = true ∨ q = BootstrapAddress (ms_desired st) ∨ q ∈ ms_local st.
Lemma addresses_kept l st s0 : addresses_set s0 st → (∃ d, devices s0 !! ln_Index l = Some d ∧ ln_Name (d_link d) = InterfaceName (ms_desired st)) →
  sspec (λ s, s = s0) (reconcileMaterializedAddresses l (BootstrapAddress (ms_desired st)) (ms_local st)) (λ _ s, s = s0) (λ _ _, True).
Proof using.
  intros A (d & Hd & En). destruct (A _ _ Hd En) as [A1 A2]. unfold reconcileMaterializedAddresses. apply (sspec_bind _ _ (λ _ s, s = s0)).
  { apply (sspec_each (λ _ s, s = s0)). intros l1 p l2 El. eapply sspec_acts; [apply AddrReplace_same| |done]. cbn. intros s s' -> E _. apply E.
    exists d. split; [done|]. apply A1. rewrite El. apply elem_of_app. right. by left. }
  intros _u. eapply (sspec_then (λ xs, ∀ x, x ∈ xs → ∃ a, x = Some a ∧ a ∈ d_addrs d)).
  { eapply sspec_reads; [apply AddrList_law| |done]. intros s xs -> (d' & Hd' & L). split; [done|]. assert (d' = d) as -> by congruence.
    intros x (a & -> & Ha & _)%L. by exists a. }
  intros xs Hx. apply (sspec_each (λ _ s, s = s0)). intros l1 x l2 El. destruct (Hx x) as (a & -> & Ha); [rewrite El; apply elem_of_app; right; by left|].
  destruct (prefixFromAddressIPNet (Some a)) as [q|] eqn:Eq; [|by apply sspec_ret].
  assert (IsLinkLocalUnicast (Prefix_Addr q) || bool_decide (q ∈ BootstrapAddress (ms_desired st) :: ms_local st) = true) as ->; [|by apply sspec_ret].
  destruct (A2 a q Ha Eq) as [->|Q]; [done|]. rewrite orb_true_iff. right. apply bool_decide_eq_true. rewrite elem_of_cons. tauto.
Qed.

(** What a Link's materialization does to the fallback. *)
Record keeps_fallback i (mine : Prop) s0 s : Prop := {
  kf_devices : devices s = devices s0;
  kf_mine : mine → has s (fallback i);
  kf_others : ¬ mine → ∀ j, j ≠ i → has s0 (fallback j) → has s (fallback j) }.
Lemma keeps_fallback_then i mine s0 s s' : keeps_fallback i mine s0 s → devices s' = devices s →
  (∀ j k, k ∈ routes s → present (fallback j) k → j ≠ i ∨ mine → k ∈ routes s') → keeps_fallback i mine s0 s'.
Proof using.
  intros [K1 K2 K3] D R. split; [congruence| |].
  - intros Hm. destruct (K2 Hm) as (k & Hk & P). exists k. split; [|done]. eapply R; [done|exact P|by right].
  - intros Hm j Hj Hf. destruct (K3 Hm j Hj Hf) as (k & Hk & P). exists k. split; [|done]. eapply R; [done|exact P|by left].
Qed.
Lemma materialize_routes_settled i st sel s0 : sound_state st → (∀ a, a ∈ sel → loopback_addr a) → let wanted := materializedLinkRoutes desired i (ms_local st) sel in
  sspec (λ s, s = s0) (materialize_routes i wanted) (λ _ s, keeps_fallback i (peer ∈ sel) s0 s) (λ _ _, True).
Proof using Lp.
  clear Free. intros S Hs wanted. pose proof (wanted_installable_link i st sel S Hs) as I. unfold materialize_routes.
  eapply (sspec_then (routes_listed s0 LinkProtocol)); [eapply sspec_post; [apply routesByProtocol_spec|done|done]|]. intros cur [_ C].
  apply (sspec_bind _ _ (λ _, keeps_fallback i (peer ∈ sel) s0)).
  { eapply sspec_post; [by apply (replace_spec (λ r, r) LinkProtocol _ I s0 cur)| |done]. intros [] s [(D & _ & _) Pd _ _ Po]. split; [done| |].
    - intros Hp. apply (Pd (fallback i)). apply elem_of_app. left. apply elem_of_app. right. apply list_elem_of_fmap. exists peer.
      split; [done|]. apply list_elem_of_filter. split; [|done]. by destruct Lp as (v & -> & _).
    - intros Hp j _ (k & Hk & P). exists k. split; [|done]. destruct (Po k Hk) as [?|(x & Hx & Ix)]; [done|].
      destruct Hp. by eapply (fallback_clash i j k st sel x). }
  intros _u. apply sspec_from. intros s1 K. eapply (sspec_then (routes_listed s1 LinkProtocol)); [eapply sspec_post; [apply routesByProtocol_spec|done|done]|].
  intros cur2 [Nd C2]. eapply sspec_post; [apply (deleted_from (λ r, (nr_LinkIndex r =? i) && negb (anyRouteMatches r wanted)) s1 cur2 Nd); by intros r [? _]%C2| |done].
  intros [] s [(D & _ & _) R]. eapply keeps_fallback_then; [exact K|done|]. intros j k Hk P J. apply R. split; [done|]. intros _.
  destruct (nr_LinkIndex k =? i) eqn:Ei; [|done]. apply Z.eqb_eq in Ei. cbn. apply negb_false_iff.
  assert (Ej : nr_LinkIndex k = j) by (apply (routesMatch_type k (fallback j) (pr_match _ _ P)); by destruct (routesMatch_type k (fallback j) (pr_match _ _ P)) as [-> _]).
  assert (j = i) as -> by congruence. destruct J as [J|J]; [done|]. apply fallback_wanted; [done| |done]. by destruct Lp as (v & -> & _).
Qed.
Lemma Materialize_settled st sel s0 : sound_state st → (∀ a, a ∈ sel → loopback_addr a) → addresses_set s0 st →
  sspec (λ s, s = s0) (Materialize desired (ms_desired st) (ms_local st) sel)
    (λ _ s, ∃ i, named s0 i (InterfaceName (ms_desired st)) ∧ keeps_fallback i (peer ∈ sel) s0 s) (λ _ _, True).
Proof using M Lp Free.
  intros S Hs A. unfold Materialize. eapply (sspec_then (λ _, True)); [eapply sspec_reads; [apply ctx_Err_law|by intros s a ->|done]|]. intros _u _.
  eapply (sspec_then (λ o, match o with Some l => ∃ d, devices s0 !! ln_Index l = Some d ∧ ln_Name (d_link d) = InterfaceName (ms_desired st) | None => True end)).
  { eapply sspec_reads; [apply LinkByName_law| |done]. intros s [l|] ->; [|done]. intros (En & d & Hd & Ed). split; [done|]. exists d. by rewrite Ed. }
  intros [l|] Hl; [|by apply sspec_err]. destruct (negb _); [by apply sspec_err|]. cbv zeta. set (i := ln_Index l) in *.
  set (wanted := materializedLinkRoutes desired i (ms_local st) sel). eapply sspec_bind; [by apply addresses_kept|]. intros _v. cbv beta.
  eapply sspec_bind; [by apply materialize_routes_settled|]. intros _w. cbv beta. apply (sspec_bind _ _ (λ _, keeps_fallback i (peer ∈ sel) s0)).
  { unfold deleteLegacyMainPeerRoutes. apply sspec_from. intros s2 K. eapply (sspec_then (λ rs, NoDup rs ∧ ∀ r, r ∈ rs → r ∈ routes s2)).
    { eapply sspec_reads; [apply RouteList_law| |done]. intros s rs -> [Nd R]. split; [done|]. split; [done|]. by intros r [? _]%R. }
    intros rs [Nd Hr]. eapply sspec_post; [by apply deleted_from| |done]. intros [] s [(D & _ & _) R]. eapply keeps_fallback_then; [exact K|done|].
    intros j k Hk P J. apply R. split; [done|]. intros _. unfold legacy_route. destruct (prefixFromIPNet (nr_Dst k)); [|done].
    assert (Ej : nr_LinkIndex k = j) by (apply (routesMatch_type k (fallback j) (pr_match _ _ P)); by destruct (routesMatch_type k (fallback j) (pr_match _ _ P)) as [-> _]).
    destruct (nr_LinkIndex k =? i) eqn:Ei; [|by rewrite andb_false_r]. apply Z.eqb_eq in Ei. assert (j = i) as -> by congruence.
    destruct J as [J|J]; [done|]. assert (anyRouteMatches k wanted = true) as ->; [|by rewrite andb_false_r].
    apply fallback_wanted; [done| |done]. by destruct Lp as (v & -> & _). }
  intros _x. apply sspec_from. intros s3 K. eapply sspec_bind.
  { unfold desiredNetlinkRoutes. eapply sspec_post; [apply (desired_routes_spec desired s3)|intros a s X; exact X|done]. }
  intros ms. apply sspec_from. intros s4 [-> F]. apply (sspec_bind _ _ (λ _, keeps_fallback i (peer ∈ sel) s0)).
  { unfold replaceStaticRoutes. eapply (sspec_then (routes_listed s3 StaticProtocol)); [eapply sspec_post; [apply routesByProtocol_spec|done|done]|].
    intros cur [_ C]. eapply sspec_post; [apply (replace_spec route StaticProtocol ms (wanted_installable desired M s3 ms F) s3 cur C)| |done].
    intros [] s [(D & _ & _) _ _ _ Po]. eapply keeps_fallback_then; [exact K|done|]. intros j k Hk P _.
    destruct (Po k Hk) as [?|(m & Hm & I)]; [done|]. by destruct (fallback_static j k s3 ms m F Hm P). }
  intros _y. apply sspec_from. intros s5 K5. eapply sspec_post; [by apply (reconcilePolicyRules_spec desired M)| |done].
  intros [] s [(D & Er & _) _ _ _]. exists i. split; [by destruct Hl as (d & Hd & En); exists d|]. eapply keeps_fallback_then; [exact K5|done|]. by rewrite Er.
Qed.

Lemma selected_sound l st name a : sound_state st → a ∈ selected l name (ms_peers st) → loopback_addr a.
Proof using. intros S [_ Ha]%list_elem_of_filter. by apply (ss_peers st S). Qed.
(** The elected Link [e], whose device is [i]: once it was materialized, the
    fallback stays. *)
Lemma maintain_all_settled l e i todo w w' :
  (∀ x, x ∈ todo → sound_state x.2 ∧ addresses_set (view w) x.2 ∧ (peer ∈ selected l (InterfaceName (ms_desired x.2)) (ms_peers x.2) ↔ InterfaceName (ms_desired x.2) = e)) →
  named (view w) i e → maintain_all desired l true todo w = (Ok true, w') →
  (has (view w) (fallback i) ∨ ∃ x, x ∈ todo ∧ InterfaceName (ms_desired x.2) = e) → has (view w') (fallback i).
Proof using M Lp Free.
  revert w. induction todo as [|y todo IH]; intros w Hx Hi E Hf; cbn [maintain_all] in E.
  { injection E as ->. destruct Hf as [?|(x & []%not_elem_of_nil & _)]. done. }
  unfold mbind, sys_bind, maintain_one in E. destruct (materializeLink desired l _ _ _ w) as [[[]|er|] w1] eqn:E1; [| |done].
  2:{ pose proof (maintain_false l todo w1) as X. by rewrite E in X. }
  destruct (Hx y) as (Sy & Ay & Py); [by left|].
  pose proof (sspec_run _ _ _ _ _ _ _ (Materialize_settled y.2 _ (view w) Sy (λ a, selected_sound l y.2 _ a Sy) Ay) eq_refl E1)
    as [(_u & _ & j & Nj & [K1 K2 K3])|(er & [=] & _)].
  apply (IH w1).
  - intros x Hin. destruct (Hx x) as (Sx & Ax & Px); [by right|]. split_and!; [done| |done]. unfold addresses_set. by rewrite K1.
  - by apply (named_devices _ _ i e K1).
  - done.
  - destruct (decide (InterfaceName (ms_desired y.2) = e)) as [Ee|Ne].
    + left. assert (i = j) as ->; [|apply K2; by apply Py]. rewrite Ee in Nj. by eapply (named_unique (view w)); [apply view_wf|..].
    + destruct Hf as [Hf|(x & [->|Hin]%elem_of_cons & Ex)]; [|done|right; by exists x]. left. apply K3; [by rewrite Py| |done].
      intros ->. destruct Hi as (d & Hd & <-), Nj as (d' & Hd' & En). congruence.
Qed.
End Elected.

(** The states of the Runner, in the order of a visit. *)
Record visited (l : list (string * materializedState)) : Prop := {
  v_names : NoDup (map fst l);
  v_sound : ∀ x, x ∈ l → sound_state x.2 ∧ InterfaceName (ms_desired x.2) = x.1 }.
Lemma selected_iff l x peer : visited l → x ∈ l →
  peer ∈ selected l (InterfaceName (ms_desired x.2)) (ms_peers x.2) ↔ carries l peer x.1 ∧ owner_of l x.1 peer = x.1.
Proof using.
  intros [Nd S] Hx. destruct (S x Hx) as [Sx Ex]. unfold selected. rewrite list_elem_of_filter, Ex. split.
  - intros [O Hp]. split; [|done]. exists x.2. split_and!; [by destruct x|apply (ss_held _ Sx)|done]. by intros E; rewrite E in Hp; apply not_elem_of_nil in Hp.
  - intros [(st & Hs & _ & Hp) O]. split; [done|]. assert (st = x.2) as ->; [|done].
    destruct x as [n st']. cbn in *. apply list_elem_of_lookup in Hs as [i Hi], Hx as [j Hj].
    assert (i = j) as ->; [|congruence]. eapply (NoDup_lookup (map fst l)); [done|..]; by rewrite list_lookup_fmap, ?Hi, ?Hj.
Qed.

(** One output for a peer's loopback.  After a pass over the states of all
    Links in which every materialization succeeded, whatever the order of the
    visit: among the committed Links that have the peer there is one with the
    least name; no other Link has a route of Velvet's Links to the peer's
    loopback, in any table; and if the addresses of the Links were in place and
    no static route takes the fallback's place, the kernel has the fallback
    route to the loopback over that Link. *)
Theorem one_loopback_output l w w' peer : visited l → loopback_addr peer → (∃ n, carries l peer n) →
  maintainMaterialized desired l w = (Ok true, w') →
  ∃ e, carries l peer e ∧ (∀ n, carries l peer n → n = e ∨ string_ltb e n = true) ∧
    (∀ n i r, n ∈ map fst l → named (view w') i n → r ∈ routes (view w') → nr_Protocol r = LinkProtocol → nr_LinkIndex r = i →
       prefixFromIPNet (nr_Dst r) = Some (mkPrefix peer 128) → n = e) ∧
    ((∀ x, x ∈ l → addresses_set (view w) x.2) →
     (∀ item, item ∈ ds_Routes desired → plan_slot item ≠ (FabricTableID desired, mkPrefix peer 128, NeighborFallbackPriority)) →
     ∀ i, named (view w) i e → has (view w') (neighbor_route desired i peer)).
Proof using M.
  intros V Lp [n0 C0] E. destruct (elected_exists l peer n0 C0) as (e & Ce & Oe). exists e.
  assert (Names : map (λ x : string * materializedState, InterfaceName (ms_desired x.2)) l = map fst l).
  { apply list_fmap_ext. intros i x Hi. by apply (v_sound l V), (list_elem_of_lookup_2 l i). }
  split_and!; [done|..].
  - intros n Cn. destruct (decide (n = e)) as [|N]; [by left|right]. apply string_ltb_connex; [|done]. by apply (elected_iff l e peer).
  - intros n i r Hn Hi Hr Pr Er Dr. apply list_elem_of_fmap in Hn as (x & -> & Hx). destruct (v_sound l V x Hx) as [Sx Ex].
    assert (K : anyRouteMatches r (link_wanted l i x) = true).
    { apply (maintain_all_clean l l [] w w'); try done; [intros y Hy; by apply (v_sound l V)|cbn; rewrite Names; apply V|by intros y []%not_elem_of_nil|by rewrite Ex]. }
    apply existsb_exists in K as (c & Hc & K). apply list_elem_of_In in Hc. apply andb_true_iff in K as [K _].
    destruct (routesMatch_dst _ _ K) as (_ & D & _). rewrite Dr in D. destruct (wanted_inv _ _ _ _ Hc) as (_ & _ & _ & [(p & Hp & Vp & Ep)|(a & Ha & Va & Ea)]).
    + destruct (ss_local _ Sx p Hp Vp) as (Wp & G & B). rewrite Ep, prefixFromIPNet_plain in D by done. injection D as D.
      pose proof (f_equal Bits D) as D1. cbn in D1. rewrite Masked_valid in D1 by done. cbn in D1.
      pose proof (f_equal Prefix_Addr D) as D2. rewrite Masked_valid in D2 by done. cbn in D2. destruct Lp as (v & -> & _). destruct (Prefix_Addr p); cbn in *; try lia; done.
    + apply (selected_iff l x a V Hx) in Ha as [Ca Oa]. assert (La : loopback_addr a) by (apply (selected_sound l x.2 (InterfaceName (ms_desired x.2))); [done|]; by apply selected_iff).
      destruct (host_route_plain a La) as [G Eh]. rewrite Ea, prefixFromIPNet_plain, Eh in D by done. injection D as ->. by apply (elected_unique l a).
  - intros A F i Hi. apply (maintain_all_settled peer Lp F l e i l w w'); [|done|done|].
    + intros x Hx. destruct (v_sound l V x Hx) as [Sx Ex]. split_and!; [done|by apply A|]. rewrite (selected_iff l x peer V Hx), Ex. split.
      * intros [Cx Ox]. by apply (elected_unique l peer).
      * by intros ->.
    + right. destruct Ce as (st & Hs & _). exists (e, st). split; [done|]. by apply (v_sound l V).
Qed.
End Link.
End Kernel.

(** * A run *)

(** Two Links to one peer, whose fallback route the other Link had. *)
Definition run_peer : Addr := Addr6 (0xfd000001 * 2 ^ 96 + 2) "".
Definition run_link (n : Z) : Prefix := mkPrefix (Addr6 (0xfd000002 * 2 ^ 96 + n) "") 126.
Definition run_state (name : string) (n : Z) : string * materializedState :=
  (name, mkMaterialized (mkLinkPlan false PortChoice_zero false false "b" name ("velvet:link:a:" +:+ name) (be_put 4 7) (be_put 4 9) (be_put 4 11)
     51820 [] None (BootstrapAddress run_plan) []) [run_link n] [run_peer] (be_put 16 2) false true true 5).
Definition run_visit : list (string * materializedState) := [run_state "wg-c" 9; run_state "wg-b" 5].
Definition run_body (name : string) (n : Z) : body := mkBody "wireguard" ("velvet:link:a:" +:+ name) true [prefixIPNet (run_link n)] wg_zero.
Definition links_world : rkernel :=
  mkRKernel {["wg-b"%string := run_body "wg-b" 5; "wg-c"%string := run_body "wg-c" 9]}
    [neighbor_route run_desired (index_of "wg-c") run_peer] [] ∅ 0 [] ∅.
Definition links_after : rkernel := (maintainMaterialized run_desired run_visit links_world).2.
Lemma run_loopback : loopback_addr run_peer.
Proof. by eexists. Qed.
Lemma run_visited : visited run_visit.
Proof.
  split; [by apply (bool_decide_unpack _)|].
  intros x [->|[->|[]%not_elem_of_nil]%elem_of_cons]%elem_of_cons; (split; [|done]);
    (split; [|by intros a ->%list_elem_of_singleton; exact run_loopback|done]);
    intros p ->%list_elem_of_singleton _; (split; [split_and!; [by vm_compute|done|right; by vm_compute]|]);
    (split; [|done]); (split; [split_and!; [by vm_compute|done|right; by vm_compute]|by vm_compute]).
Qed.
Lemma run_pass_links : maintainMaterialized run_desired run_visit links_world = (Ok true, links_after).
Proof. by vm_compute. Qed.
Lemma run_carries : carries run_visit run_peer "wg-c".
Proof. eexists. split; [by left|]. split; [done|by left]. Qed.
Lemma run_addresses x : x ∈ run_visit → addresses_set (view links_world) x.2.
Proof.
  intros Hx i d Hd En. apply k_view_Some in Hd as (name & b & -> & Hb & ->). revert Hb En. cbn -[device_of lookup index_of].
  intros Hb En. cbn in En. subst name. revert Hx Hb.
  intros [->|[->|[]%not_elem_of_nil]%elem_of_cons]%elem_of_cons Hb; cbn in Hb; vm_compute in Hb; injection Hb as <-;
    (split; [by intros p ->%list_elem_of_singleton; left|]); intros a q ->%list_elem_of_singleton Eq; vm_compute in Eq; injection Eq as <-; right; right; by left.
Qed.
(** The fallback moves to the Link of the least name. *)
Lemma one_loopback_output_witness : ∃ e, carries run_visit run_peer e ∧
  maintainMaterialized run_desired run_visit links_world = (Ok true, links_after) ∧
  (∀ n, carries run_visit run_peer n → n = e ∨ string_ltb e n = true) ∧
  ∀ i, named (view links_world) i e → has (view links_after) (neighbor_route run_desired i run_peer).
Proof.
  destruct (one_loopback_output run_desired (so_manageable _ run_sound) run_visit links_world links_after run_peer run_visited run_loopback
    (ex_intro _ _ run_carries) run_pass_links) as (e & C & L & _ & P).
  exists e. split; [exact C|]. split; [exact run_pass_links|]. split; [exact L|]. apply P; [exact run_addresses|].
  intros item Hi. assert (F : forallb (λ item, negb (bool_decide (plan_slot item = (FabricTableID run_desired, mkPrefix run_peer 128, NeighborFallbackPriority))))
    (ds_Routes run_desired) = true) by (vm_compute; reflexivity).
  apply (bool_decide_eq_false _). apply negb_true_iff. exact (proj1 (forallb_forall _ _) F item (proj1 (list_elem_of_In _ _) Hi)).
Defined.
