(* ===== verification/WarmFile.v ===== *)
(** runtime/warm_links.go, first part: the receipts of committed Links, which a
    later process in the same boot and network namespace may adopt, and the file
    that holds them.  A receipt is written when a Link is confirmed and
    withdrawn when its adjacency is.

    Replacing the file is not synced: after a reboot no receipt counts. *)

From S2P Require Import Prelude Netip Desired Link Field MessageData Engine Recovery Durable AtomicFile.
From stdpp Require Import gmap strings.
Open Scope Z_scope.
Open Scope velvet_scope.

Record warmLink := mkReceipt {
  wl_Interface : string; wl_Owner : string; wl_PublicKey : list byte; wl_Port : Z; wl_Result : Result_;
  wl_Remote : Addr; wl_Static : bool; wl_LastPong : Time }.
Record warmFile := mkWarmFile { Version : Z; wf_Config : list byte; Boot : string; NetNS : string; wf_Links : gmap string warmLink }.
Definition set_links (l : gmap string warmLink) (f : warmFile) : warmFile := mkWarmFile (Version f) (wf_Config f) (Boot f) (NetNS f) l.

(** * The file *)

(** [MkdirAll], [CreateTemp], [Write], [Close] and [Rename]. *)
Definition save (f : warmFile) : io warmFile unit := touch;; CreateTemp;; and_close (Write f);; Rename.
(** [os.Remove]; a file that is not there counts as removed. *)
Definition Remove : io warmFile unit := call (λ s, (tt, mkFs None (entry s :: older s) (temp s) (plan s))).
(** A file that could not be replaced is removed. *)
Definition saveWarmLinks (f : warmFile) : io warmFile unit := λ s,
  match save f s with
  | (Failed _, s) => match Remove s with (Crashed, s) => (Crashed, s) | (_, s) => (Done tt, s) end
  | r => r
  end.

(** * Receipts *)

(** [r.warm] is nil when the start could not read the boot or the namespace. *)
Definition takeWarmLink (w : option warmFile) (plan : LinkPlan) : option warmLink :=
  match w with Some f => wf_Links f !! OwnerAlias plan | None => None end.
Definition receipt_of (plan : LinkPlan) (result : Result_) (remote : Addr) (st : materializedState) : warmLink :=
  mkReceipt (InterfaceName plan) (OwnerAlias plan) (PeerPublicKey plan) (ListenPort plan) result remote (negb (dynamic st)) (lastPong st).
(** The receipts in memory, and the file. *)
Record warm := mkWarm { w_file : option warmFile; w_disk : fs warmFile }.
Definition with_saved (f : warmFile) (w : warm) : outcome unit * warm :=
  let '(r, s) := saveWarmLinks f (w_disk w) in (r, mkWarm (Some f) s).
(** [states] are those of the Runner. *)
Definition rememberWarmLink (states : gmap string materializedState) (plan : LinkPlan) (result : Result_) (remote : Addr) (w : warm) : outcome unit * warm :=
  match w_file w with
  | None => (Done tt, w)
  | Some f =>
    match states !! InterfaceName plan with
    | Some st =>
      if negb (active st) || negb (bool_decide (OwnerAlias (ms_desired st) = OwnerAlias plan)) then (Done tt, w)
      else with_saved (set_links (<[OwnerAlias plan := receipt_of plan result remote st]> (wf_Links f)) f) w
    | None => (Done tt, w)
    end
  end.
Definition forgetWarmLink (plan : LinkPlan) (w : warm) : outcome unit * warm :=
  match w_file w with
  | None => (Done tt, w)
  | Some f =>
    if bool_decide (is_Some (wf_Links f !! OwnerAlias plan))
    then with_saved (set_links (delete (OwnerAlias plan) (wf_Links f)) f) w else (Done tt, w)
  end.
