(* ===== verification/WarmLinks.v ===== *)
(** runtime/warm_links.go, second part: what a starting process makes of the
    receipts.  [prepareWarmLinks] runs before the kernel is touched and decides
    which interfaces stay; [adoptWarmLinks] takes them over before the engine of
    automatic Links starts. *)

From S2P Require Import Prelude Netlink Routes Backend LinkRoutes Validate.
From S2P Require Import Netip Ports Spec Desired Link Field MessageData Engine Inference Recovery Interfaces DynamicPolicy Durable Attempts WarmFile.
From stdpp Require Import gmap strings.
Open Scope Z_scope.
Open Scope velvet_scope.

(** [strings.TrimPrefix]. *)
Definition TrimPrefix (s prefix : string) : string :=
  if HasPrefix s prefix then Stdlib.Strings.String.substring (String.length prefix) (String.length s - String.length prefix) s else s.

(** * Which receipts name a Link of the configuration *)

Section Plan.
(** The text of a UUID and its parser (github.com/google/uuid), the public key of
    a WireGuard key (wgctrl); HKDF. *)
Context (uuid_text : list byte → string) (uuid_Parse : string → option (list byte)) (public_key : list byte → list byte)
  (hkdf32 : list byte → list byte → result (list byte)) (D : DesiredState).

(** What Attempts.v reads of the configuration. *)
Definition active_mode : bool := default false ((λ p, bool_decide (dp_Mode p = DynamicLinksActive)) <$> ds_DynamicLinks D).
Definition inbound_mode : bool :=
  default false ((λ p, bool_decide (dp_Mode p = DynamicLinksActive) || bool_decide (dp_Mode p = DynamicLinksPassive)) <$> ds_DynamicLinks D).
Definition config (revision : Z) : desired :=
  mkDesired (mkUID (Routes.UUID D) (uid_Name (Routes.ds_UID D))) (Routes.Ports D) (Routes.ds_PrivateKey D) (Routes.FabricPSK D) active_mode inbound_mode
    (default [] (dp_AllowCandidatePrefixes <$> ds_DynamicLinks D)) revision.

Definition canonicalUUID (raw : string) : result (list byte) :=
  match uuid_Parse raw with
  | Some id => if bool_decide (id = uuid_Nil) || negb (bool_decide (uuid_text id = raw)) then Err (errors_New "must be a canonical nonzero UUID") else Ok id
  | None => Err (errors_New "must be a canonical nonzero UUID")
  end.
Definition warmPortAllowed (choice : PortChoice) (port : Z) : bool :=
  ((pc_Port choice =? 0) || (pc_Port choice =? port)) &&
  ((First (Range choice) =? 0) || ((First (Range choice) <=? port) && (port <=? Last (Range choice)))).
Definition receipt_prefix (x : Prefix * Prefix * Z) : bool :=
  let '(prefix, pool, bits) := x in
  negb (Prefix_IsValid prefix) ||
  ((Bits prefix =? bits) && bool_decide (prefix = Masked prefix) && Contains pool (Prefix_Addr prefix) && (Bits pool <=? Bits prefix)).
Definition receipt_valid (receipt : warmLink) : bool :=
  let remote := Engine.RemoteUID (wl_Result receipt) in
  let loopback := Engine.RemoteLoopbackV6 (wl_Result receipt) in
  negb (bool_decide (UUID remote = uuid_Nil) || bool_decide (UUID remote = Routes.UUID D) || bool_decide (wl_PublicKey receipt = zeros 32) ||
    bool_decide (wl_PublicKey receipt = public_key (Routes.ds_PrivateKey D)) || negb (Is6 (wl_Remote receipt)) ||
    negb (IsLinkLocalUnicast (wl_Remote receipt)) || negb (bool_decide (Zone (wl_Remote receipt) = ""%string))) &&
  negb ((wl_Port receipt <? 1) || (65535 <? wl_Port receipt) || (15 <? String.length (wl_Interface receipt))%nat) &&
  negb (negb (Contains (Routes.LoopbackPoolV6 D) loopback) || bool_decide (loopback = Routes.LoopbackV6 D)) &&
  forallb receipt_prefix [(V4 (Result_Proposal (wl_Result receipt)), Routes.LinkPoolV4 D, 30); (V6 (Result_Proposal (wl_Result receipt)), Routes.LinkPoolV6 D, 126)].
Definition static_matches (receipt : warmLink) (plan : LinkPlan) : bool :=
  bool_decide (InterfaceName plan = wl_Interface receipt) && bool_decide (OwnerAlias plan = wl_Owner receipt) &&
  bool_decide (PeerPublicKey plan = wl_PublicKey receipt) && warmPortAllowed (lk_Ports plan) (wl_Port receipt) &&
  MatchesOverrides (Result_Proposal (wl_Result receipt)) (Desired.LinkOverrides plan).
Definition static_plan (receipt : warmLink) : option LinkPlan :=
  set_port_plan (wl_Port receipt) <$> List.find (static_matches receipt) (Links D).
(** The plan of an automatic Link is derived again; its interface, generation,
    port and peer are the receipt's. *)
Definition automatic_plan (receipt : warmLink) : option LinkPlan :=
  if default true ((λ p, bool_decide (dp_Mode p = DynamicLinksOff)) <$> ds_DynamicLinks D) ||
     negb (warmPortAllowed (Routes.Ports D) (wl_Port receipt)) || negb (HasPrefix (wl_Interface receipt) "vdl-") then None
  else
    let plan := BuildDynamicLink uuid_text (config 0) (Engine.RemoteUID (wl_Result receipt)) in
    if negb (HasPrefix (wl_Owner receipt) (OwnerAlias plan +:+ ":")) then None
    else match canonicalUUID (TrimPrefix (wl_Owner receipt) (OwnerAlias plan +:+ ":")) with
    | Ok _ => Some (mkLinkPlan (WaitingPort plan) (lk_Ports plan) (Probing plan) (ReceiveOnly plan) (lk_PeerName plan)
        (wl_Interface receipt) (wl_Owner receipt) (lk_PrivateKey plan) (wl_PublicKey receipt)
        (match DeriveWGLinkPSK hkdf32 (Routes.FabricPSK D) (public_key (lk_PrivateKey plan)) (wl_PublicKey receipt) with Ok k => k | _ => zeros 32 end)
        (wl_Port receipt) (lk_Endpoints plan) (Keepalive plan)
        (DeriveLinkLocal (Routes.FabricPSK D) (Routes.UUID D) (wl_Interface receipt)) (Desired.LinkOverrides plan))
    | _ => None
    end.
Definition warmPlan (receipt : warmLink) : option LinkPlan :=
  if negb (receipt_valid receipt) then None
  else if wl_Static receipt then static_plan receipt else automatic_plan receipt.
Definition receipt_local (receipt : warmLink) : list Prefix :=
  fst (EndpointAddresses (Result_Proposal (wl_Result receipt)) (Routes.UUID D) (UUID (Engine.RemoteUID (wl_Result receipt)))).
Definition receipt_peer (receipt : warmLink) : list byte := UUID (Engine.RemoteUID (wl_Result receipt)).
Definition set_LastPong (t : Time) (r : warmLink) : warmLink :=
  mkReceipt (wl_Interface r) (wl_Owner r) (wl_PublicKey r) (wl_Port r) (wl_Result r) (wl_Remote r) (wl_Static r) t.

(** * Preparing *)

Record warmAdoption := mkAdoption { wa_receipt : warmLink; wa_plan : LinkPlan; wa_lease : portLease }.
Section Prepare.
Context {W : Type} `{Kernel W} `{Backend.Attempts W}.
(** The kernel, the port allocator, the resources of Links, and the result. *)
Record prep := mkPrep {
  p_world : W; p_ports : portPool; p_resources : gmap string linkResources; p_seen : gset (list byte);
  p_links : gmap string warmLink; p_adopted : list warmAdoption; p_retained : list LinkPlan }.
Definition on_world {A} (m : Netlink.sys W A) : Netlink.sys prep A := λ p,
  let '(r, w) := m (p_world p) in
  (r, mkPrep w (p_ports p) (p_resources p) (p_seen p) (p_links p) (p_adopted p) (p_retained p)).
(** The lease of a port that the kernel's socket still has. *)
Definition bind_owned (plan : LinkPlan) : Netlink.sys prep (option portLease) := λ p,
  let '(r, ports, _) := portPool_bind (λ port x, (inr port, x)) (mkPortChoice (ListenPort plan) PortRange_zero) 0 0 (p_ports p) tt in
  (match r with Bound lease => Ok (Some lease) | BindPanic => Panic | _ => Ok None end,
   mkPrep (p_world p) ports (p_resources p) (p_seen p) (p_links p) (p_adopted p) (p_retained p)).
Definition is_seen (r : list byte) : Netlink.sys prep bool := λ p, (Ok (bool_decide (r ∈ p_seen p)), p).
Definition adopt (receipt : warmLink) (plan : LinkPlan) (lease : portLease) : Netlink.sys prep unit := λ p,
  (Ok tt, mkPrep (p_world p) (p_ports p) (<[OwnerAlias plan := mkResources plan (Some lease) false]> (p_resources p))
    (if wl_Static receipt then p_seen p else {[receipt_peer receipt]} ∪ p_seen p)
    (<[OwnerAlias plan := receipt]> (p_links p)) (p_adopted p ++ [mkAdoption receipt plan lease]) (p_retained p ++ [plan])).
(** The modification time of the file, if it can be read, and the clock. *)
Context (modified : option Time) (now : warmLink → Time).
Definition dated (receipt : warmLink) : warmLink :=
  if IsZero (wl_LastPong receipt) then match modified with Some t => set_LastPong t receipt | None => receipt end else receipt.
Definition prepare_one (receipt : warmLink) : Netlink.sys prep unit :=
  match warmPlan receipt with
  | None => mret tt
  | Some plan =>
    seen ← is_seen (receipt_peer receipt);
    if negb (wl_Static receipt) && seen then mret tt else
    ok ← on_world (CanAdoptLink plan (receipt_local receipt));
    if negb ok then mret tt else
    if IsZero (wl_LastPong (dated receipt)) || (now receipt <? wl_LastPong (dated receipt)) then mret tt else
    lease ← bind_owned plan;
    match lease with Some lease => adopt (dated receipt) plan lease | None => mret tt end
  end.

(** What the start reads: the configuration's digest, as files of version 2 and 1
    have it, the boot, the namespace, and the file: absent, unreadable (or too
    large, or no JSON), or its contents. *)
Inductive saved_file := NoFile | Unreadable | Saved (f : warmFile).
Definition accepted (digest digest1 : list byte) (boot netns : string) (saved : warmFile) : bool :=
  ((Version saved =? 2) && bool_decide (wf_Config saved = digest) || (Version saved =? 1) && bool_decide (wf_Config saved = digest1)) &&
  bool_decide (Boot saved = boot) && bool_decide (NetNS saved = netns) &&
  (Z.of_nat (size (wf_Links saved)) <=? maxDynamicLinks + len (Links D)).
(** The receipts to try, in the order in which the map is visited. *)
Inductive tried (digest digest1 : list byte) (boot netns : string) : saved_file → list warmLink → Prop :=
  | T_none : tried digest digest1 boot netns NoFile []
  | T_unreadable : tried digest digest1 boot netns Unreadable []
  | T_refused f : accepted digest digest1 boot netns f = false → tried digest digest1 boot netns (Saved f) []
  | T_accepted f l : accepted digest digest1 boot netns f = true → l ≡ₚ map snd (map_to_list (wf_Links f)) → tried digest digest1 boot netns (Saved f) l.
Definition prepareWarmLinks (l : list warmLink) : Netlink.sys prep unit := each prepare_one l.
End Prepare.

(** runtime.go, [Run]: the retained Links are among the desired ones for the first
    pass. *)
Definition with_retained (plans : list LinkPlan) : DesiredState :=
  mkDesiredState plans (Routes.Ports D) (ds_Durable D) (Routes.ds_UID D) (Routes.UUID D) (Routes.FabricPSK D) (Routes.LinkPoolV4 D) (Routes.LinkPoolV6 D)
    (Routes.LoopbackPoolV6 D) (Routes.LoopbackV6 D) (ds_VFPPort D) (Routes.FabricTableID D) (LoopbackOwnerAlias D) (Forwarding D) (Links D) (ds_Routes D)
    (Routes.Rules D) (ds_Babel D) (ds_DynamicLinks D) (Routes.ds_PrivateKey D).

(** * Adopting *)

(** The states of the static Links are apart, as in Attempts.v; [babel] has the
    Links that Babel is told of. *)
Record adoption := mkAdoptionState {
  ad_engine : engine; ad_statics : gmap string materializedState; ad_babel : list (string * list Prefix) }.
Definition adopted_state (item : warmAdoption) : materializedState :=
  mkMaterialized (wa_plan item) (receipt_local (wa_receipt item)) [Engine.RemoteLoopbackV6 (wl_Result (wa_receipt item))]
    (receipt_peer (wa_receipt item)) (negb (wl_Static (wa_receipt item))) false true (wl_LastPong (wa_receipt item)).
Definition adopt_attempt (item : warmAdoption) (d : engine) : engine :=
  let r := receipt_peer (wa_receipt item) in
  let id := next_object d in
  let a := mkAttempt false (Some (wa_lease item)) None r (zeros 16) active_mode (wa_plan item) AddrPort_zero None dynamicRecovering 1 false in
  put_attempt id a (set_attempts (<[r := id]> (attempts d)) (new_object d)).
(** [called]: whether KeepLinkAlive and materializeLink return without an
    error; otherwise the start fails. *)
Fixpoint adoptWarmLinks (called : warmAdoption → bool) (items : list warmAdoption) (x : adoption) : bool * adoption :=
  match items with
  | [] => (true, x)
  | item :: items =>
    if negb (called item) then (false, x)
    else
      let name := InterfaceName (wa_plan item) in
      let st := adopted_state item in
      let babel := ad_babel x ++ [(name, ms_local st)] in
      adoptWarmLinks called items
        (if wl_Static (wa_receipt item) then mkAdoptionState (ad_engine x) (<[name := st]> (ad_statics x)) babel
         else mkAdoptionState (adopt_attempt item (set_states (<[name := st]> (states (ad_engine x))) (ad_engine x))) (ad_statics x) babel)
  end.
End Plan.
