(* ===== verification/WarmLinksProps.v ===== *)
(** What adopting the Links of an earlier process keeps: only interfaces that the
    kernel has as the receipts say are taken over, each once and with its port,
    and the engine of automatic Links starts in a state in which none is
    forgotten; and a receipt that was written is read as the Link it was
    written for. *)

From S2P Require Import Prelude Netlink Routes RoutesProps Backend BackendProps Untouched Reconciled LinkRoutes Validate.
From S2P Require Import Netip Ports Spec Desired Link Field MessageData Engine Inference Recovery Interfaces DynamicPolicy Durable Attempts AttemptsProps AttemptsSafety AttemptsRun LinkSafety WarmFile WarmLinks AtomicFile.
From stdpp Require Import gmap strings.
Open Scope Z_scope.
Open Scope velvet_scope.

(** * What the kernel has *)

Section Kernel.
Context {W : Type} `{AttemptsLaws W}.

(** The kernel has the interface of the plan, configured as the plan says. *)
Definition in_kernel (s : kstate) (plan : LinkPlan) : Prop :=
  ∃ i d p, devices s !! i = Some d ∧ ln_Name (d_link d) = InterfaceName plan ∧ ln_Type (d_link d) = "wireguard"%string ∧
    ln_Alias (d_link d) = OwnerAlias plan ∧ ln_Up (d_link d) = true ∧ wd_PublicKey (d_wg d) = Key_PublicKey (lk_PrivateKey plan) ∧
    (ListenPort plan ≠ 0 → wd_ListenPort (d_wg d) = ListenPort plan) ∧ wd_Peers (d_wg d) = [p] ∧
    wp_PublicKey p = PeerPublicKey plan ∧ wp_PresharedKey p = PresharedKey plan.
Lemma verifyBootstrapLink_shows plan s0 : WaitingPort plan = false → wf_devices s0 →
  sspec (λ s, s = s0) (verifyBootstrapLink plan) (λ _ s, s = s0 ∧ in_kernel s0 plan) (λ _ s, s = s0).
Proof.
  intros Wp Wf. unfold verifyBootstrapLink.
  eapply (sspec_bind _ _ (λ o s, s = s0 ∧ match o with Some l => ln_Name l = InterfaceName plan ∧ ∃ d, devices s0 !! ln_Index l = Some d ∧ d_link d = l | None => True end)).
  { eapply sspec_reads; [apply LinkByName_law| |by intros s e ->]. intros s [l|] ->; by intros. }
  intros [l|]; apply sspec_pure; [|intros _; by apply sspec_err]. intros (En & d & Hd & Ed). destruct (_ || _) eqn:T; [by apply sspec_err|].
  rewrite Wp. destruct (ln_Up l) eqn:Up; [|by apply sspec_err]. cbn [negb].
  eapply (sspec_bind _ _ (λ _ s, s = s0)); [assert (St : steady (λ s, s = s0) (answer (addresses ← AddrList l FAMILY_V6; mret (addressPresent addresses (BootstrapAddress plan))))) by steady; exact St|].
  intros []; [|by apply sspec_err]. cbn [negb].
  eapply (sspec_bind _ _ (λ g s, s = s0 ∧ d_wg d = g)).
  { eapply sspec_reads; [apply wg_Device_law| |by intros s e ->]. intros s g -> (j & e & He & Ne & Ee). split; [done|].
    assert (j = ln_Index l) as ->; [|congruence]. destruct Wf as [_ U]. apply (U j (ln_Index l) e d He Hd). congruence. }
  intros g. apply sspec_pure. intros Eg. match goal with |- sspec _ (if ?b then _ else _) _ _ => destruct b eqn:K end; [by apply sspec_err|].
  destruct (wd_Peers g) as [|p [|]] eqn:Ep; [by apply sspec_err| |by apply sspec_err].
  match goal with |- sspec _ (if ?b then _ else _) _ _ => destruct b eqn:Kp end; [by apply sspec_err|].
  assert (In : in_kernel s0 plan).
  { apply orb_false_elim in K as [K1 K2]. exists (ln_Index l), d, p. bool_to_prop. rewrite Ed, Eg. split_and!; try done.
    intros N. apply andb_false_iff in K2 as [X|X]; by bool_to_prop. }
  destruct (Keepalive plan) as [k|]; [destruct (_ =? k); [|by apply sspec_err]|]; by apply sspec_ret.
Qed.
Lemma CanAdoptLink_shows plan local w : ∃ b w', CanAdoptLink plan local w = (Ok b, w') ∧ view w' = view w ∧
  (b = true → in_kernel (view w) plan).
Proof.
  assert (X : sspec (λ s, s = view w) (CanAdoptLink plan local) (λ b s, s = view w ∧ (b = true → in_kernel (view w) plan)) (λ _ _, False)).
  { unfold CanAdoptLink. apply answer_spec.
    apply (sspec_weaken _ (λ s, s = view w) _ _ (λ b s, s = view w ∧ (b = true → in_kernel (view w) plan)) _ (λ _ s, s = view w)); [|done|done|by intros e s ->].
    eapply (sspec_then (λ _, True)); [eapply sspec_reads; [apply ctx_Err_law|by intros s a ->|by intros s e ->]|]. intros _u _.
    destruct (WaitingPort plan) eqn:Wp; [by apply sspec_ret|]. cbn [orb]. destruct (Probing plan || ReceiveOnly plan); [by apply sspec_ret|].
    eapply (sspec_then (λ _, True)); [eapply sspec_reads; [apply wgctrl_New_law|by intros s a ->|by intros s e ->]|]. intros _v _.
    eapply (sspec_then (λ _, in_kernel (view w) plan)); [apply verifyBootstrapLink_shows; [done|apply view_wf]|]. intros _w K.
    assert (St : ∀ m : Netlink.sys W bool, steady (λ s, s = view w) m →
      sspec (λ s, s = view w) m (λ b s, s = view w ∧ (b = true → in_kernel (view w) plan)) (λ _ s, s = view w)).
    { intros m Sm. eapply sspec_post; [exact Sm|by intros b s ->|done]. }
    apply St. apply steady_bind; [eapply steady_reads, wg_Device_law|]. intros wg. steady. }
  specialize (X w eq_refl). destruct (CanAdoptLink plan local w) as [[b|e|] w']; [|done..]. destruct X as [E X]. by exists b, w'.
Qed.
End Kernel.

(** * Names *)

Lemma substring_all s : Stdlib.Strings.String.substring 0 (String.length s) s = s.
Proof. induction s as [|c s IH]; cbn; [done|]. by rewrite IH. Qed.
Lemma append_cons c a b : String c a +:+ b = String c (a +:+ b).
Proof. done. Qed.
Lemma HasPrefix_split s p : HasPrefix s p = true → s = p +:+ TrimPrefix s p.
Proof.
  intros P. unfold TrimPrefix. rewrite P. unfold HasPrefix in P. revert s P. induction p as [|c p IH]; intros [|b s]; try done.
  - intros _. change (""%string +:+ ?x) with x. cbn. by rewrite substring_all.
  - cbn [String.prefix]. destruct (Ascii.ascii_dec c b) as [->|]; [|done]. intros P. rewrite append_cons. f_equal. by apply IH.
Qed.
Lemma string_length_app a b : String.length (a +:+ b) = (String.length a + String.length b)%nat.
Proof. induction a as [|c a IH]; [done|]. rewrite append_cons. cbn. by rewrite IH. Qed.
Lemma string_app_inj a a' b b' : String.length a = String.length a' → a +:+ b = a' +:+ b' → a = a' ∧ b = b'.
Proof.
  revert a'. induction a as [|c a IH]; intros [|c' a']; try done. rewrite !append_cons. intros [= L] [= -> E]. by destruct (IH a' L E) as [-> ->].
Qed.
Lemma string_app_assoc (a b c : string) : a +:+ (b +:+ c) = (a +:+ b) +:+ c.
Proof. induction a as [|x a IH]; [done|]. by rewrite !append_cons, IH. Qed.

(** * What PrepareRuntime leaves *)

Section Cleanup.
Context {W : Type} `{AttemptsLaws W}.
Lemma PrepareRuntime_leaves desired s0 :
  sspec (λ s, s = s0) (PrepareRuntime desired) (λ _ s, (∀ i d, devices s !! i = Some d → devices s0 !! i = Some d) ∧
    named_in (desiredLinkNames desired) s ∧ ∀ i d, devices s0 !! i = Some d → ln_Name (d_link d) ∈ desiredLinkNames desired → devices s !! i = Some d) (λ _ _, True).
Proof.
  assert (HI : ∀ s s' : kstate, devices s = devices s0 → devices s' = devices s → devices s' = devices s0) by (intros; congruence).
  unfold PrepareRuntime. apply (sspec_bind _ _ (λ _ s, devices s = devices s0)).
  { eapply sspec_reads; [apply ctx_Err_law|by intros s a ->|done]. }
  intros _u. apply (sspec_bind _ _ (λ _ s, devices s = devices s0)).
  { apply sspec_when; [|done]. intros _. eapply sspec_post; [by apply cleanupDisabledBabelState_steady|done|done]. }
  intros _v. apply (sspec_bind _ _ (λ _ s, devices s = devices s0)).
  { eapply sspec_post; [by apply rejectForeignTableState_steady|done|done]. }
  intros _w. apply sspec_from. intros s1 E1.
  assert (Sub : steady (λ s, ∀ i d, devices s !! i = Some d → devices s0 !! i = Some d) (cleanupStaleLinks (desiredLinkNames desired))).
  { unfold cleanupStaleLinks. steady. eapply steady_acts; [apply LinkDel_law|]. intros s s' X [E _] i d. rewrite E. intros [_ Hd]%lookup_delete_Some. by apply X. }
  eapply sspec_weaken; [exact (sspec_and _ _ _ _ _ _ _ (cleanupStaleLinks_spec (desiredLinkNames desired) s1) Sub)| | |done].
  - intros s ->. split; [done|]. by rewrite E1.
  - intros [] s [[N K] X]. split_and!; [done..|]. intros i d Hd. apply K. by rewrite E1.
Qed.
End Cleanup.

(** * Preparing *)

Section Warm.
Context (uuid_text : list byte → string) (uuid_Parse : string → option (list byte)) (public_key : list byte → list byte)
  (hkdf32 : list byte → list byte → result (list byte)) (D : DesiredState) (peer_of : list byte → UID).
Notation warmPlan := (warmPlan uuid_text uuid_Parse public_key hkdf32 D).
Notation config := (config D).
Notation mine := (mine uuid_text (config 0)).
(** The printed form of a UUID is parsed back and has one length. *)
Context (parse_text : ∀ id, length id = 16%nat → uuid_Parse (uuid_text id) = Some id)
  (text_length : ∀ id, length id = 16%nat → String.length (uuid_text id) = 36%nat).

Lemma warmPlan_dated modified receipt : warmPlan (dated modified receipt) = warmPlan receipt.
Proof using. unfold dated. destruct (IsZero _); [|done]. by destruct modified. Qed.
Lemma dated_peer modified receipt : receipt_peer (dated modified receipt) = receipt_peer receipt.
Proof using. unfold dated. destruct (IsZero _); [|done]. by destruct modified. Qed.
Lemma dated_static modified receipt : wl_Static (dated modified receipt) = wl_Static receipt.
Proof using. unfold dated. destruct (IsZero _); [|done]. by destruct modified. Qed.

Lemma warmPlan_inv receipt plan : warmPlan receipt = Some plan →
  InterfaceName plan = wl_Interface receipt ∧ OwnerAlias plan = wl_Owner receipt ∧ ListenPort plan = wl_Port receipt ∧ 1 <= wl_Port receipt <= 65535 ∧
  (wl_Static receipt = true → ∃ p, p ∈ Links D ∧ plan = set_port_plan (wl_Port receipt) p) ∧
  (wl_Static receipt = false → ∃ id, OwnerAlias plan = OwnerAlias (generation uuid_text (config 0) (Engine.RemoteUID (wl_Result receipt)) id)).
Proof using.
  clear parse_text text_length. unfold WarmLinks.warmPlan. destruct (negb (receipt_valid _ _ _)) eqn:V; [done|]. apply negb_false_iff in V.
  assert (P : 1 <= wl_Port receipt <= 65535).
  { unfold receipt_valid in V. apply andb_true_iff in V as [V _]. apply andb_true_iff in V as [V _]. apply andb_true_iff in V as [_ V]. bool_to_prop. lia. }
  destruct (wl_Static receipt).
  - unfold static_plan. destruct (List.find _ _) as [p|] eqn:F; [|done]. cbn. intros [= <-]. apply find_some in F as [Hp M].
    unfold static_matches in M. bool_to_prop. split_and!; try done; [lia..|]. intros _. exists p. split; [by apply list_elem_of_In|done].
  - unfold automatic_plan. destruct (_ || _ || _); [done|]. set (base := BuildDynamicLink _ _ _).
    destruct (HasPrefix (wl_Owner receipt) (OwnerAlias base +:+ ":")) eqn:Hp; [|done]. cbn [negb]. apply HasPrefix_split in Hp.
    unfold canonicalUUID. set (gen := TrimPrefix _ _) in *.
    destruct (uuid_Parse gen) as [id|]; [|done]. destruct (_ || _) eqn:C; [done|]. intros [= <-]. bool_to_prop. split_and!; try done; [lia..|].
    intros _. exists id. cbn [OwnerAlias generation rename_plan]. fold base. rewrite Hp, H0. by rewrite <- string_app_assoc.
Qed.
(** The alias of a generation names the peer. *)
Lemma generation_peer a b i j : length (UUID a) = 16%nat → length (UUID b) = 16%nat → OwnerAlias (generation uuid_text (config 0) a i) = OwnerAlias (generation uuid_text (config 0) b j) → UUID a = UUID b.
Proof using parse_text text_length.
  intros La Lb. cbn [generation rename_plan BuildDynamicLink OwnerAlias]. intros E.
  rewrite <- !string_app_assoc in E. apply string_app_inj in E as [_ E]; [|done]. apply string_app_inj in E as [_ E]; [|done].
  apply string_app_inj in E as [_ E]; [|done]. apply string_app_inj in E as [E _]; [|by rewrite !text_length].
  apply (f_equal uuid_Parse) in E. rewrite !parse_text in E by done. by injection E.
Qed.

Section Prepare.
Context {W : Type} `{AttemptsLaws W} (modified : option Time) (now : warmLink → Time).
Notation prepare_one := (prepare_one uuid_text uuid_Parse public_key hkdf32 D modified now).
Notation prepareWarmLinks := (prepareWarmLinks uuid_text uuid_Parse public_key hkdf32 D modified now).

Definition automatic (x : warmAdoption) : Prop := wl_Static (wa_receipt x) = false.
#[global] Instance automatic_dec x : Decision (automatic x).
Proof. unfold automatic. apply _. Defined.
Definition peer_of_adoption (x : warmAdoption) : list byte := receipt_peer (wa_receipt x).
Record prepared (l : list warmLink) (s0 : kstate) (p : prep) : Prop := {
  pr_view : view (p_world p) = s0;
  pr_pool : pool_ok (p_ports p);
  pr_adopted : ∀ x, x ∈ p_adopted p → warmPlan (wa_receipt x) = Some (wa_plan x) ∧ in_kernel s0 (wa_plan x) ∧
    leases (p_ports p) !! ListenPort (wa_plan x) = Some (wa_lease x) ∧ ∃ r, r ∈ l ∧ wa_receipt x = dated modified r;
  pr_ports : NoDup (map (ListenPort ∘ wa_plan) (p_adopted p));
  pr_peers : NoDup (map peer_of_adoption (filter automatic (p_adopted p)));
  pr_seen : ∀ x, x ∈ p_adopted p → automatic x → peer_of_adoption x ∈ p_seen p;
  pr_retained : p_retained p = map wa_plan (p_adopted p);
  pr_resources : p_resources p = foldl (λ m x, <[OwnerAlias (wa_plan x) := mkResources (wa_plan x) (Some (wa_lease x)) false]> m) ∅ (p_adopted p);
  pr_links : p_links p = foldl (λ m x, <[OwnerAlias (wa_plan x) := wa_receipt x]> m) ∅ (p_adopted p) }.

Lemma bind_owned_ok plan (p : prep (W := W)) : pool_ok (p_ports p) → 1 <= ListenPort plan →
  ∃ o ports, bind_owned plan p = (Ok o, mkPrep (p_world p) ports (p_resources p) (p_seen p) (p_links p) (p_adopted p) (p_retained p)) ∧ pool_ok ports ∧
    match o with
    | Some lease => leases (p_ports p) !! ListenPort plan = None ∧ leases ports = <[ListenPort plan := lease]> (leases (p_ports p))
    | None => ports = p_ports p
    end.
Proof using.
  intros Po Pl. unfold bind_owned, portPool_bind, bind_candidates. cbn [Range pc_Port PortRange_zero].
  replace (ListenPort plan =? 0) with false by (symmetry; apply Z.eqb_neq; lia). cbn -[bind_loop].
  cbn [bind_loop]. replace (ListenPort plan =? 0) with false by (symmetry; apply Z.eqb_neq; lia). cbn [negb andb].
  destruct (ListenPort plan =? vfpPort (p_ports p)) eqn:V; [eexists None, _; by split_and!|].
  case_bool_decide as L; [eexists None, _; by split_and!|]. rewrite Z.eqb_refl. cbn [negb orb].
  destruct (_ || _) eqn:B; [eexists None, _; by split_and!|].
  eexists (Some _), _. split_and!; [done| |by apply eq_None_not_Some|done].
  bool_to_prop. intros port l. cbn. intros [[<- <-]|[N E]]%lookup_insert_Some; cbn; [lia|]. destruct (Po port l E) as (? & ? & ? & ?). lia.
Qed.
Lemma on_world_ok {A} (m : Netlink.sys W A) p a w : m (p_world p) = (Ok a, w) →
  on_world m p = (Ok a, mkPrep w (p_ports p) (p_resources p) (p_seen p) (p_links p) (p_adopted p) (p_retained p)).
Proof using. unfold on_world. by intros ->. Qed.
Lemma prepared_world l s0 p w : prepared l s0 p → view w = s0 →
  prepared l s0 (mkPrep w (p_ports p) (p_resources p) (p_seen p) (p_links p) (p_adopted p) (p_retained p)).
Proof using. intros [] V. by split. Qed.
Lemma filter_snoc {A} (P : A → Prop) `{!∀ x, Decision (P x)} l x : filter P (l ++ [x]) = filter P l ++ (if decide (P x) then [x] else []).
Proof using. by rewrite filter_app. Qed.
Lemma NoDup_snoc {A} (l : list A) x : NoDup l → x ∉ l → NoDup (l ++ [x]).
Proof using. intros N X. apply NoDup_app. split_and!; [done| |apply NoDup_singleton]. by intros y Hy ->%list_elem_of_singleton. Qed.

Lemma bind_run {X A B} (m : Netlink.sys X A) (f : A → Netlink.sys X B) x a x' : m x = (Ok a, x') → (m ≫= f) x = f a x'.
Proof using. unfold mbind, sys_bind. by intros ->. Qed.
Lemma prepare_one_ok l s0 receipt p : receipt ∈ l → prepared l s0 p → ∃ p', prepare_one receipt p = (Ok tt, p') ∧ prepared l s0 p'.
Proof using.
  intros Hl I. unfold WarmLinks.prepare_one. destruct (warmPlan receipt) as [plan|] eqn:Ep; [|by exists p].
  erewrite bind_run by done. destruct (negb (wl_Static receipt) && bool_decide (receipt_peer receipt ∈ p_seen p)) eqn:Sn; [by exists p|].
  destruct (CanAdoptLink_shows plan (receipt_local D receipt) (p_world p)) as (ok & w & Ec & Vw & Ad). rewrite (bind_run _ _ _ _ _ (on_world_ok _ _ _ _ Ec)).
  pose proof (prepared_world l s0 p w I (eq_trans Vw (pr_view _ _ _ I))) as I1. set (p1 := mkPrep w _ _ _ _ _ _) in *.
  destruct ok; cbn [negb]; [|by exists p1]. specialize (Ad eq_refl). rewrite (pr_view _ _ _ I) in Ad.
  destruct (IsZero _ || _); [by exists p1|].
  destruct (warmPlan_inv receipt plan Ep) as (_ & _ & Lp & Pb & _). rewrite <- Lp in Pb.
  destruct (bind_owned_ok plan p1 (pr_pool _ _ _ I1)) as (o & ports & Eb & Po & L); [lia|]. rewrite (bind_run _ _ _ _ _ Eb). clear Eb.
  destruct o as [lease|]; [|subst ports; by exists p1]. destruct L as [Free Ls]. unfold adopt. eexists. split; [done|].
  destruct I1 as [I1 I2 I3 I4 I5 I6 I7 I8 I9]. split; cbn [p_world p_ports p_resources p_seen p_links p_adopted p_retained] in *; try done.
  - intros x [Hx| ->%list_elem_of_singleton]%elem_of_app; cbn [wa_receipt wa_plan wa_lease].
    + destruct (I3 x Hx) as (A1 & A2 & A3 & A4). split_and!; [done|done| |done]. rewrite Ls, lookup_insert_ne; [done|]. intros E. rewrite E in Free. congruence.
    + split_and!; [by rewrite warmPlan_dated|done|by rewrite Ls, lookup_insert_eq|by exists receipt].
  - rewrite map_app. apply NoDup_snoc; [done|]. intros (x & E & Hx)%list_elem_of_fmap. cbn in E. destruct (I3 x Hx) as (_ & _ & A3 & _). congruence.
  - rewrite filter_snoc, map_app. destruct (decide _) as [Au|]; [|by rewrite app_nil_r]. apply NoDup_snoc; [done|].
    unfold automatic in Au. cbn in Au. rewrite dated_static in Au. rewrite Au in Sn. cbn in Sn. apply bool_decide_eq_false in Sn. unfold peer_of_adoption at 1. cbn.
    rewrite dated_peer. intros (x & E & [Ax Hx]%list_elem_of_filter)%list_elem_of_fmap. apply Sn. rewrite E. by apply I6.
  - intros x [Hx| ->%list_elem_of_singleton]%elem_of_app Ax; unfold automatic, peer_of_adoption in *; cbn in *; rewrite ?dated_static, ?dated_peer in *.
    + destruct (wl_Static receipt); [by apply I6|]. apply elem_of_union. right. by apply I6.
    + rewrite Ax. apply elem_of_union. left. by apply elem_of_singleton.
  - by rewrite I7, map_app.
  - by rewrite I8, foldl_app.
  - by rewrite I9, foldl_app.
Qed.
Lemma prepare_ok l l1 s0 p : l1 ⊆ l → prepared l s0 p → ∃ p', prepareWarmLinks l1 p = (Ok tt, p') ∧ prepared l s0 p'.
Proof using.
  unfold WarmLinks.prepareWarmLinks. revert p. induction l1 as [|r l1 IH]; intros p Sub I; cbn [each]; [by exists p|].
  destruct (prepare_one_ok l s0 r p) as (p1 & E & I1); [apply Sub; by left|done|]. rewrite (bind_run _ _ _ _ _ E).
  apply IH; [|done]. intros x Hx. apply Sub. by right.
Qed.
Definition start_prep (w : W) (ports : portPool) : prep := mkPrep w ports ∅ ∅ ∅ [] [].
Lemma start_prepared l w ports : pool_ok ports → prepared l (view w) (start_prep w ports).
Proof using. intros P. split; cbn; try done; [by intros x []%not_elem_of_nil|apply NoDup_nil_2|apply NoDup_nil_2|by intros x []%not_elem_of_nil]. Qed.
End Prepare.

(** * Adopting *)

Section Adopt.
Notation attempt_for x := (mkAttempt false (Some (wa_lease x)) None (receipt_peer (wa_receipt x)) (zeros 16) (active_mode D) (wa_plan x) AddrPort_zero None
  dynamicRecovering 1 false).
Record adopting (d0 : engine) (done : list warmAdoption) (d : engine) : Prop := {
  ag_attempt : ∀ r id, attempts d !! r = Some id → ∃ x, x ∈ done ∧ automatic x ∧ r = peer_of_adoption x ∧ heap d !! id = Some (attempt_for x);
  ag_done : ∀ x, x ∈ done → automatic x → ∃ id, attempts d !! peer_of_adoption x = Some id ∧ heap d !! id = Some (attempt_for x);
  ag_heap : ∀ id a, heap d !! id = Some a → (id < next_object d)%nat ∧ attempts d !! at_remote a = Some id;
  ag_states : ∀ name st, states d !! name = Some st → ∃ x, x ∈ done ∧ automatic x ∧ name = InterfaceName (wa_plan x) ∧ st = adopted_state D x;
  ag_size : size (attempts d) = length (filter automatic done);
  ag_pending : pendingCleanups d = pendingCleanups d0;
  ag_resources : resources d = resources d0;
  ag_sys : sys d = sys d0 }.
Lemma adopting_static d0 done d x : adopting d0 done d → ¬ automatic x → adopting d0 (done ++ [x]) d.
Proof using.
  intros [] N. split; try done.
  - intros r id E. destruct (ag_attempt0 r id E) as (y & Hy & X). exists y. split; [apply elem_of_app; by left|done].
  - intros y [Hy| ->%list_elem_of_singleton]%elem_of_app Ay; [by apply ag_done0|done].
  - intros n st E. destruct (ag_states0 n st E) as (y & Hy & X). exists y. split; [apply elem_of_app; by left|done].
  - rewrite filter_app, length_app, filter_cons_False by done. cbn. lia.
Qed.
Lemma adopting_automatic d0 done d x : adopting d0 done d → automatic x → (∀ y, y ∈ done → automatic y → peer_of_adoption y ≠ peer_of_adoption x) →
  adopting d0 (done ++ [x]) (adopt_attempt D x (set_states (<[InterfaceName (wa_plan x) := adopted_state D x]> (states d)) d)).
Proof using.
  intros [I1 I2 I3 I4 I5 I6 I7 I8] A Fr. pose proof (λ id a E, proj1 (I3 id a E)) as Lt.
  assert (Fresh : heap d !! next_object d = None).
  { destruct (heap d !! next_object d) as [a|] eqn:E; [|done]. apply Lt in E. lia. }
  assert (None' : attempts d !! peer_of_adoption x = None).
  { destruct (attempts d !! peer_of_adoption x) as [id|] eqn:E; [|done]. destruct (I1 _ _ E) as (y & Hy & Ay & Ey & _). by destruct (Fr y Hy Ay). }
  unfold adopt_attempt, put_attempt. split; cbn [attempts heap next_object states pendingCleanups resources sys set_heap set_attempts new_object set_states]; try done.
  - intros r id [[<- <-]|[N E]]%lookup_insert_Some.
    + exists x. split_and!; [apply elem_of_app; right; by left|done|done|by rewrite lookup_insert_eq].
    + destruct (I1 r id E) as (y & Hy & Ay & Er & Eh). exists y. split_and!; [apply elem_of_app; by left|done|done|].
      rewrite lookup_insert_ne; [done|]. intros <-. congruence.
  - intros y [Hy| ->%list_elem_of_singleton]%elem_of_app Ay.
    + destruct (I2 y Hy Ay) as (id & E & Eh). exists id. rewrite lookup_insert_ne by (by apply not_eq_sym, Fr). split; [done|].
      rewrite lookup_insert_ne; [done|]. intros <-. congruence.
    + exists (next_object d). by rewrite !lookup_insert_eq.
  - intros id a [[<- <-]|[N E]]%lookup_insert_Some; cbn [at_remote]; [split; [lia|by rewrite lookup_insert_eq]|].
    destruct (I3 id a E) as [L Ea]. split; [lia|]. rewrite lookup_insert_ne; [done|]. intros Er. unfold peer_of_adoption in None'. congruence.
  - intros n st [[<- <-]|[N E]]%lookup_insert_Some.
    + exists x. split_and!; [apply elem_of_app; right; by left|done..].
    + destruct (I4 n st E) as (y & Hy & X). exists y. split; [apply elem_of_app; by left|done].
  - rewrite map_size_insert_None by exact None'. rewrite filter_app, length_app, filter_cons_True by done. cbn. lia.
Qed.
Lemma adopt_all called items d0 done x0 x1 : NoDup (map peer_of_adoption (filter automatic (done ++ items))) →
  adopting d0 done (ad_engine x0) → adoptWarmLinks D called items x0 = (true, x1) → adopting d0 (done ++ items) (ad_engine x1).
Proof using.
  revert done x0. induction items as [|x items IH]; intros done x0 Nd I; cbn [adoptWarmLinks]; [intros [= <-]; by rewrite app_nil_r|].
  destruct (called x); [|done]. cbn [negb]. intros E. rewrite cons_middle, app_assoc in Nd |- *. revert E. apply IH; [done|].
  destruct (wl_Static (wa_receipt x)) eqn:S; cbn [ad_engine].
  - apply adopting_static; [done|]. unfold automatic. congruence.
  - apply adopting_automatic; [done|done|]. intros y Hy Ay E. rewrite <- app_assoc, filter_app, map_app, NoDup_app in Nd. destruct Nd as (_ & Nd & _).
    apply (Nd (peer_of_adoption y)).
    + apply list_elem_of_fmap. exists y. split; [done|]. by apply list_elem_of_filter.
    + rewrite E. apply list_elem_of_fmap. exists x. split; [done|]. apply list_elem_of_filter. split; [done|by left].
Qed.
End Adopt.

(** * The start of the engine *)

Lemma length_NoDup_map {A B} (f : A → B) (l : list A) (m : list B) : NoDup (map f l) → (∀ x, x ∈ l → f x ∈ m) → (length l <= length m)%nat.
Proof using.
  intros N S. rewrite <- (length_map f). apply submseteq_length, NoDup_submseteq; [done|]. by intros y (x & -> & Hx)%list_elem_of_fmap; apply S.
Qed.
Section Start.
Context {W : Type} `{AttemptsLaws W} (modified : option Time).
Notation inv := (inv (iface_of uuid_text peer_of) mine None).
(** What the theorem assumes of the receipts and the configuration: a peer keeps
    its name; at most 128 receipts are of automatic Links; and Velvet gives the
    aliases of automatic Links to no static one. *)
Record sound_receipts (l : list warmLink) : Prop := {
  sr_uuid : ∀ r, r ∈ l → length (receipt_peer r) = 16%nat;
  sr_names : ∀ r, r ∈ l → wl_Static r = false → wl_Interface r = iface_of uuid_text peer_of (receipt_peer r);
  sr_count : (length (filter (λ r, wl_Static r = false) l) <= 128)%nat;
  sr_apart : ∀ plan, plan ∈ Links D → ¬ mine (OwnerAlias plan) }.

Section Prepared.
Context (l : list warmLink) (s0 : kstate) (p : prep (W := W)) (I : prepared modified l s0 p) (Sr : sound_receipts l).
Lemma adopted_receipt x : x ∈ p_adopted p → automatic x → ∃ r, r ∈ l ∧ wl_Static r = false ∧ receipt_peer r = peer_of_adoption x ∧ wl_Interface r = InterfaceName (wa_plan x).
Proof using I.
  intros Hx A. destruct (pr_adopted _ _ _ _ I x Hx) as (Ep & _ & _ & r & Hr & Er). exists r. split; [done|].
  unfold automatic, peer_of_adoption in *. rewrite Er in Ep, A |- *. rewrite dated_static in A. rewrite dated_peer. split_and!; [done..|].
  rewrite warmPlan_dated in Ep. by destruct (warmPlan_inv _ _ Ep) as (-> & _).
Qed.
Lemma adopted_uuid x : x ∈ p_adopted p → length (peer_of_adoption x) = 16%nat.
Proof using I Sr.
  intros Hx. destruct (pr_adopted _ _ _ _ I x Hx) as (_ & _ & _ & r & Hr & Er). unfold peer_of_adoption. rewrite Er, dated_peer. by apply (sr_uuid l Sr).
Qed.
Lemma adopted_mine x : x ∈ p_adopted p → automatic x →
  ∃ id, OwnerAlias (wa_plan x) = OwnerAlias (generation uuid_text (config 0) (Engine.RemoteUID (wl_Result (wa_receipt x))) id).
Proof using I. intros Hx A. destruct (pr_adopted _ _ _ _ I x Hx) as (Ep & _). by apply (warmPlan_inv _ _ Ep). Qed.
Lemma adopted_alias x y : x ∈ p_adopted p → y ∈ p_adopted p → automatic x → OwnerAlias (wa_plan x) = OwnerAlias (wa_plan y) → x = y.
Proof using I Sr parse_text text_length.
  intros Hx Hy Ax E. assert (Ay : automatic y).
  { destruct (wl_Static (wa_receipt y)) eqn:S; [|done]. destruct (pr_adopted _ _ _ _ I y Hy) as (Ep & _). destruct (warmPlan_inv _ _ Ep) as (_ & _ & _ & _ & St & _).
    destruct (St S) as (q & Hq & Eq). destruct (sr_apart l Sr q Hq). destruct (adopted_mine x Hx Ax) as [id Ei]. rewrite Ei, Eq in E. cbn [set_port_plan OwnerAlias] in E. by eexists _, id. }
  destruct (adopted_mine x Hx Ax) as [i Ei], (adopted_mine y Hy Ay) as [j Ej]. rewrite Ei, Ej in E.
  apply generation_peer in E; [|by apply adopted_uuid..].
  pose proof (pr_peers _ _ _ _ I) as Nd. assert (Fx : x ∈ filter automatic (p_adopted p)) by by apply list_elem_of_filter.
  assert (Fy : y ∈ filter automatic (p_adopted p)) by by apply list_elem_of_filter. apply list_elem_of_lookup in Fx as [m Hm], Fy as [n Hn].
  assert (m = n) as ->; [|congruence]. eapply NoDup_lookup; [exact Nd|..]; rewrite list_lookup_fmap; [by rewrite Hm|rewrite Hn; cbn; by f_equal].
Qed.
Lemma resource_of alias res : p_resources p !! alias = Some res → ∃ x, x ∈ p_adopted p ∧ OwnerAlias (wa_plan x) = alias ∧ res = mkResources (wa_plan x) (Some (wa_lease x)) false.
Proof using I.
  rewrite (pr_resources _ _ _ _ I). clear. assert (X : ∀ m : gmap string linkResources, foldl (λ m x, <[OwnerAlias (wa_plan x) := mkResources (wa_plan x) (Some (wa_lease x)) false]> m) m (p_adopted p) !! alias = Some res →
    m !! alias = Some res ∨ ∃ x, x ∈ p_adopted p ∧ OwnerAlias (wa_plan x) = alias ∧ res = mkResources (wa_plan x) (Some (wa_lease x)) false).
  { induction (p_adopted p) as [|x xs IH]; intros m; cbn [foldl]; [by left|]. intros [E|(y & Hy & Y)]%IH.
    - apply lookup_insert_Some in E as [[<- <-]|[_ E]]; [right; exists x; split; [by left|done]|by left].
    - right. exists y. split; [by right|done]. }
  intros [E|?]%X; [by rewrite lookup_empty in E|done].
Qed.
Lemma has_resource x : x ∈ p_adopted p → is_Some (p_resources p !! OwnerAlias (wa_plan x)).
Proof using I.
  rewrite (pr_resources _ _ _ _ I). clear. assert (X : ∀ m : gmap string linkResources, x ∈ p_adopted p ∨ is_Some (m !! OwnerAlias (wa_plan x)) → is_Some (
    foldl (λ m x, <[OwnerAlias (wa_plan x) := mkResources (wa_plan x) (Some (wa_lease x)) false]> m) m (p_adopted p) !! OwnerAlias (wa_plan x))).
  { induction (p_adopted p) as [|y ys IH]; intros m [Hx|Hm]; cbn [foldl]; [by apply not_elem_of_nil in Hx|done|apply IH..].
    - apply elem_of_cons in Hx as [->|Hx]; [right; rewrite lookup_insert_eq; by eexists|by left].
    - right. destruct (decide (OwnerAlias (wa_plan y) = OwnerAlias (wa_plan x))) as [->|N]; [rewrite lookup_insert_eq; by eexists|by rewrite lookup_insert_ne]. }
  intros Hx. apply X. by left.
Qed.

(** The engine that starts: it has nothing but the resources of the adopted Links,
    and the kernel's interfaces. *)
Record starting (d0 : engine) : Prop := {
  st_heap : heap d0 = ∅; st_attempts : attempts d0 = ∅; st_pending : pendingCleanups d0 = ∅; st_states : states d0 = ∅;
  st_resources : resources d0 = p_resources p }.
Definition retained_kernel (d0 : engine) : Prop := ∀ name alias, mine alias →
  ifaces (sys d0) !! name = Some alias ↔ ∃ x, x ∈ p_adopted p ∧ automatic x ∧ InterfaceName (wa_plan x) = name ∧ OwnerAlias (wa_plan x) = alias.
Lemma warm_inv d0 x1 called : starting d0 → retained_kernel d0 →
  adoptWarmLinks D called (p_adopted p) (mkAdoptionState d0 ∅ []) = (true, x1) → inv (ad_engine x1).
Proof using I Sr parse_text text_length.
  intros [S1 S2 S3 S4 S5] K E.
  assert (A0 : adopting d0 [] d0).
  { split; try done; rewrite ?S1, ?S2, ?S4; try done; by intros x []%not_elem_of_nil. }
  pose proof (adopt_all called (p_adopted p) d0 [] (mkAdoptionState d0 ∅ []) x1 (pr_peers _ _ _ _ I) A0 E) as [G1 G2 G3 G4 G5 G6 G7 G8].
  set (d := ad_engine x1) in *. rewrite S3 in G6. rewrite S5 in G7. cbn [app] in *.
  assert (Hh : ∀ h n al, held None d h n al → ∃ r x, h = HA r ∧ x ∈ p_adopted p ∧ automatic x ∧ r = peer_of_adoption x ∧ InterfaceName (wa_plan x) = n ∧ OwnerAlias (wa_plan x) = al).
  { intros [r|r|y|] n al Hd; cbn in Hd; rewrite ?G6, ?G7 in Hd.
    - destruct Hd as (id & a & Ea & Eh & <- & <-). destruct (G1 r id Ea) as (x & Hx & Ax & Er & Eh'). rewrite Eh in Eh'. injection Eh' as ->. by exists r, x.
    - by destruct Hd as (? & ? & [=] & _).
    - destruct Hd as (-> & res & Er & Ec & _). destruct (resource_of _ _ Er) as (x & _ & _ & ->). done.
    - by destruct Hd as (? & [=] & _). }
  assert (Hx : ∀ x, x ∈ p_adopted p → automatic x → held None d (HA (peer_of_adoption x)) (InterfaceName (wa_plan x)) (OwnerAlias (wa_plan x))).
  { intros x Hx Ax. destruct (G2 x Hx Ax) as (id & Ea & Eh). cbn. eexists id, _. split_and!; [exact Ea|exact Eh|done|done]. }
  assert (Hm : ∀ x, x ∈ p_adopted p → automatic x → mine (OwnerAlias (wa_plan x))).
  { intros x Hin Ax. destruct (adopted_mine x Hin Ax) as [id Ei]. by eexists _, id. }
  assert (Hr : ∀ x res, x ∈ p_adopted p → automatic x → p_resources p !! OwnerAlias (wa_plan x) = Some res → InterfaceName (res_plan res) = InterfaceName (wa_plan x)).
  { intros x res Hin Ax Er. destruct (resource_of _ _ Er) as (y & Hy & Ea & ->). by rewrite (adopted_alias x y Hin Hy Ax (eq_sym Ea)). }
  split.
  - intros r id Ea. destruct (G1 r id Ea) as (x & _ & _ & -> & Eh). by eexists.
  - intros id a Eh. by apply (G3 id a).
  - intros id a Eh _. by apply (G3 id a).
  - rewrite G7. intros al res Er. by destruct (resource_of _ _ Er) as (x & _ & <- & ->).
  - intros h n al Hd _. destruct (Hh h n al Hd) as (r & x & -> & Hin & Ax & -> & <- & <-). split; [|rewrite G8; apply K; [by apply Hm|by exists x]].
    cbn. destruct (adopted_receipt x Hin Ax) as (rc & Hrc & St & <- & <-). by apply (sr_names l Sr).
  - intros h n al Hd. destruct (Hh h n al Hd) as (r & x & -> & Hin & Ax & -> & <- & <-). split; [by apply Hm|]. rewrite G7. intros res. by apply Hr.
  - intros h h' n n' al Hd Hd'. destruct (Hh h n al Hd) as (r & x & -> & Hin & Ax & -> & _ & Ex), (Hh h' n' al Hd') as (r' & y & -> & Hiny & Ay & -> & _ & Ey).
    by rewrite (adopted_alias x y Hin Hiny Ax (eq_trans Ex (eq_sym Ey))).
  - rewrite G8. intros n al Ei M. destruct (proj1 (K n al M) Ei) as (x & Hin & Ax & <- & <-). split; [|eexists; by apply Hx].
    rewrite G7. destruct (has_resource x Hin) as [res Er]. exists res. split; [done|]. by apply Hr.
  - intros n st Es. destruct (G4 n st Es) as (x & Hin & Ax & -> & ->). split; [unfold adopted_state; cbn; by rewrite Ax|].
    eexists. split; [by apply Hx|]. destruct (G2 x Hin Ax) as (id & Ea & Eh). eexists id, _. split_and!; [exact Ea|exact Eh|]. right. by right.
  - unfold in_use, resourceCountLocked. rewrite G5, G6, G7, map_size_empty.
    assert (F0 : flagged (p_resources p) = ∅).
    { apply map_empty. intros al. apply map_lookup_filter_None. right. intros res Er Fl. by destruct (resource_of _ _ Er) as (x & _ & _ & ->). }
    rewrite F0, map_size_empty. enough (length (filter automatic (p_adopted p)) <= 128)%nat by (unfold maxLinks; lia).
    etrans; [|exact (sr_count l Sr)]. rewrite <- (length_map receipt_peer (filter _ l)). apply (length_NoDup_map peer_of_adoption); [apply I|].
    intros x [Ax Hin]%list_elem_of_filter. destruct (adopted_receipt x Hin Ax) as (r & Hrl & St & <- & _).
    apply list_elem_of_fmap. exists r. split; [done|]. by apply list_elem_of_filter.
Qed.
End Prepared.

(** The interfaces of the namespace, as Interfaces.v has them. *)
Definition interfaces (s : kstate) (k : kernel) : Prop := ∀ name alias,
  ifaces k !! name = Some alias ↔ ∃ i d, devices s !! i = Some d ∧ ln_Name (d_link d) = name ∧
    alias = if bool_decide (ln_Type (d_link d) = "wireguard"%string) then ln_Alias (d_link d) else ""%string.
(** No interface of an automatic Link has the name of another of Velvet's. *)
Definition reserved_names (s : kstate) : Prop := ∀ i d, devices s !! i = Some d → mine (ln_Alias (d_link d)) →
  ln_Name (d_link d) ∉ LoopbackInterface :: map InterfaceName (Links D).
Lemma mine_owned alias : mine alias → HasPrefix alias ownerPrefix = true.
Proof using. intros (remote & id & ->). done. Qed.
Lemma runtime_retains l p w1 d0 : prepared modified l (view (p_world p)) p → reserved_names (view (p_world p)) →
  PrepareRuntime (with_retained D (p_retained p)) (p_world p) = (Ok tt, w1) → interfaces (view w1) (sys d0) →
  retained_kernel p d0 ∧ ∀ x, x ∈ p_adopted p → in_kernel (view w1) (wa_plan x).
Proof using.
  intros I R E K. set (s0 := view (p_world p)) in *. set (D' := with_retained D (p_retained p)) in *.
  destruct (sspec_run _ _ _ _ _ _ _ (PrepareRuntime_leaves D' s0) eq_refl E) as [(_u & _ & Sub & Nm & Keep)|(e & [=] & _)].
  assert (Names : ∀ x, x ∈ p_adopted p → InterfaceName (wa_plan x) ∈ desiredLinkNames D').
  { intros x Hx. unfold desiredLinkNames, D'. cbn [with_retained RetainedLinks]. rewrite (pr_retained _ _ _ _ I). apply elem_of_union. right.
    apply elem_of_list_to_set, list_elem_of_fmap. exists (wa_plan x). split; [done|]. by apply list_elem_of_fmap_2. }
  assert (Kx : ∀ x, x ∈ p_adopted p → in_kernel (view w1) (wa_plan x)).
  { intros x Hx. destruct (pr_adopted _ _ _ _ I x Hx) as (_ & (i & d & q & Hd & En & X) & _). exists i, d, q. split; [|done].
    apply Keep; [done|]. rewrite En. by apply Names. }
  split; [|done]. intros name alias M. rewrite (K name alias). split.
  - intros (i & d & Hd & En & Ea). destruct (bool_decide (ln_Type (d_link d) = "wireguard"%string)) eqn:Ty; [|subst alias; by apply mine_ne in M].
    subst alias. assert (O : owned (d_link d) = true) by by apply mine_owned. pose proof (Nm i d Hd O) as Hn. pose proof (Sub i d Hd) as Hd0.
    pose proof (R i d Hd0 M) as Nr. unfold desiredLinkNames in Hn. cbn [with_retained Links RetainedLinks D'] in Hn. rewrite (pr_retained _ _ _ _ I) in Hn.
    rewrite !elem_of_union, !elem_of_list_to_set, elem_of_singleton in Hn. destruct Hn as [[Hn|Hn]|Hn]; [destruct Nr; rewrite Hn; by left|destruct Nr; by right|].
    apply list_elem_of_fmap in Hn as (plan & Hn & (x & -> & Hx)%list_elem_of_fmap). exists x.
    destruct (pr_adopted _ _ _ _ I x Hx) as (Ep & (j & e & q & He & Ne & _ & Ae & _) & _).
    assert (j = i) as -> by (eapply (view_name (p_world p)); [exact He|exact Hd0|congruence]). assert (e = d) as -> by congruence.
    split_and!; [done| |congruence|done]. destruct (wl_Static (wa_receipt x)) eqn:St; [|done].
    destruct (warmPlan_inv _ _ Ep) as (_ & _ & _ & _ & S & _). destruct (S St) as (c & Hc & Ec). destruct Nr. rewrite Hn, Ec. right. exact (list_elem_of_fmap_2 InterfaceName (Links D) c Hc).
  - intros (x & Hx & Ax & <- & <-). destruct (Kx x Hx) as (i & d & q & Hd & En & Ty & Ea & _). exists i, d. split_and!; [done|done|].
    by rewrite bool_decide_eq_true_2.
Qed.

(** A warm start.  Whatever the receipts are, in whatever order they are
    visited, preparing does not fail and changes nothing in the kernel; once the
    other interfaces are removed and the receipts taken over, every Link that is
    adopted is in the kernel with its alias, keys and port, which no other one
    has; every adopted automatic Link is the current attempt of its peer; and
    in every state the engine reaches from there the account of no_interface_forgotten
    holds, whatever happens: no interface is forgotten, attempts have their
    interface, and together they are at most 128. *)
Theorem warm_start now revision l w ports : sound_receipts l → pool_ok ports → reserved_names (view w) →
  ∃ p, prepareWarmLinks uuid_text uuid_Parse public_key hkdf32 D modified now l (start_prep w ports) = (Ok tt, p) ∧ view (p_world p) = view w ∧
  ∀ w1 d0 x called, PrepareRuntime (with_retained D (p_retained p)) (p_world p) = (Ok tt, w1) →
    starting p d0 → interfaces (view w1) (sys d0) →
    adoptWarmLinks D called (p_adopted p) (mkAdoptionState d0 ∅ []) = (true, x) →
    (∀ a, a ∈ p_adopted p → in_kernel (view w1) (wa_plan a) ∧ leases (p_ports p) !! ListenPort (wa_plan a) = Some (wa_lease a)) ∧
    NoDup (map (ListenPort ∘ wa_plan) (p_adopted p)) ∧
    (∀ a, a ∈ p_adopted p → automatic a → ∃ id b, current (ad_engine x) (peer_of_adoption a) id b ∧ at_plan b = wa_plan a ∧ at_state b = dynamicRecovering) ∧
    ∀ d, rtc (step uuid_text public_key hkdf32 (config revision) peer_of) (ad_engine x) d → accounted uuid_text (config revision) d.
Proof using parse_text text_length.
  intros Sr Po R. destruct (prepare_ok modified now l l (view w) (start_prep w ports)) as (p & E & I); [done|by apply start_prepared|].
  exists p. split; [done|]. split; [apply I|]. assert (Vw : view w = view (p_world p)) by (symmetry; apply I).
  rewrite Vw in R, I. intros w1 d0 x called Ew S K Ea.
  destruct (runtime_retains l p w1 d0 I R Ew K) as [Rk Kx]. split_and!.
  - intros a Ha. split; [by apply Kx|]. by apply (pr_adopted _ _ _ _ I).
  - apply I.
  - assert (A0 : adopting d0 [] d0).
    { destruct S as [S1 S2 S3 S4 S5]. split; try done; rewrite ?S1, ?S2, ?S4; try done; by intros y []%not_elem_of_nil. }
    pose proof (adopt_all called (p_adopted p) d0 [] (mkAdoptionState d0 ∅ []) x (pr_peers _ _ _ _ I) A0 Ea) as G.
    intros a Ha Aa. destruct (ag_done _ _ _ G a Ha Aa) as (id & E1 & E2). by eexists id, _.
  - intros d St. apply (inv_accounted uuid_text (config revision) peer_of). eapply steps_inv; [|exact St].
    exact (warm_inv l _ p I Sr d0 x called S Rk Ea).
Qed.
End Start.

(** * A receipt is read as it was written *)

(** What a Link has negotiated, as the engine of the protocol checks it. *)
Record negotiated (result : Result_) (remote : Addr) (key : list byte) : Prop := {
  ng_peer : UUID (Engine.RemoteUID result) ≠ uuid_Nil ∧ UUID (Engine.RemoteUID result) ≠ Routes.UUID D;
  ng_key : key ≠ zeros 32 ∧ key ≠ public_key (Routes.ds_PrivateKey D);
  ng_remote : Is6 remote = true ∧ IsLinkLocalUnicast remote = true ∧ Zone remote = ""%string;
  ng_loopback : Contains (Routes.LoopbackPoolV6 D) (Engine.RemoteLoopbackV6 result) = true ∧ Engine.RemoteLoopbackV6 result ≠ Routes.LoopbackV6 D;
  ng_prefixes : receipt_prefix (V4 (Result_Proposal result), Routes.LinkPoolV4 D, 30) = true ∧
    receipt_prefix (V6 (Result_Proposal result), Routes.LinkPoolV6 D, 126) = true }.
(** The plan of an automatic Link, as the attempt made it, and of a static one. *)
Inductive plan_of_link (result : Result_) : bool → LinkPlan → LinkPlan → Prop :=
  | lp_static p port : p ∈ Links D → NoDup (map InterfaceName (Links D)) → admits (lk_Ports p) port →
      MatchesOverrides (Result_Proposal result) (Desired.LinkOverrides p) = true →
      plan_of_link result true (set_port_plan port p) (set_port_plan port p)
  | lp_automatic peer id port key psk endpoints dp : ds_DynamicLinks D = Some dp → dp_Mode dp ≠ DynamicLinksOff →
      UUID peer = UUID (Engine.RemoteUID result) → length id = 16%nat → id ≠ uuid_Nil → admits (Routes.Ports D) port →
      DeriveWGLinkPSK hkdf32 (Routes.FabricPSK D) (public_key (Routes.ds_PrivateKey D)) key = Ok psk →
      plan_of_link result false (peer_plan_of key psk endpoints (set_port_plan port (generation uuid_text (config 0) peer id)))
        (peer_plan_of key psk [] (set_port_plan port (generation uuid_text (config 0) peer id))).
Lemma admits_allowed c port : admits c port → warmPortAllowed c port = true ∨ First (Range c) ≠ 0 ∧ pc_Port c ≠ 0.
Proof using.
  clear. unfold admits, warmPortAllowed. destruct (First (Range c) =? 0) eqn:F; bool_to_prop.
  - intros [E|E]; left; rewrite E; by rewrite ?Z.eqb_refl, ?orb_true_r.
  - intros [A B]. destruct (pc_Port c =? 0) eqn:P; [left|right; by apply Z.eqb_neq in P]. cbn. by rewrite (proj2 (Z.leb_le _ _) A), (proj2 (Z.leb_le _ _) B).
Qed.
Lemma receipt_valid_of plan result remote st : negotiated result remote (PeerPublicKey plan) → 1 <= ListenPort plan <= 65535 →
  (String.length (InterfaceName plan) <= 15)%nat → receipt_valid public_key D (receipt_of plan result remote st) = true.
Proof using.
  clear. intros [[P1 P2] [K1 K2] (R1 & R2 & R3) [L1 L2] [F1 F2]] Po Le. unfold receipt_valid, receipt_of. cbn [wl_Result wl_PublicKey wl_Remote wl_Port wl_Interface forallb].
  rewrite (bool_decide_eq_true_2 _ R3), (bool_decide_eq_false_2 _ P1), (bool_decide_eq_false_2 _ P2), (bool_decide_eq_false_2 _ K1),
    (bool_decide_eq_false_2 _ K2), (bool_decide_eq_false_2 _ L2), R1, R2, L1, F1, F2. cbn [negb orb andb].
  rewrite (proj2 (Z.ltb_ge _ _)) by lia. rewrite (proj2 (Z.ltb_ge _ _)) by lia. by rewrite (proj2 (Nat.ltb_ge _ _)) by lia.
Qed.
Lemma TrimPrefix_app p s : HasPrefix (p +:+ s) p = true ∧ TrimPrefix (p +:+ s) p = s.
Proof using.
  clear. assert (Hp : HasPrefix (p +:+ s) p = true) by apply prefix_self. split; [done|].
  pose proof (HasPrefix_split _ _ Hp) as E. by apply string_app_inj in E as [_ E].
Qed.
Lemma plan_read_back result static plan plan' remote st : plan_of_link result static plan plan' → negotiated result remote (PeerPublicKey plan) →
  1 <= ListenPort plan <= 65535 → (String.length (InterfaceName plan) <= 15)%nat → wf_choice (lk_Ports plan) → dynamic st = negb static →
  warmPlan (receipt_of plan result remote st) = Some plan'.
Proof using parse_text.
  intros Lp Ng Po Le Wc Ds. unfold WarmLinks.warmPlan. rewrite receipt_valid_of by done. cbn [negb]. unfold receipt_of at 1. cbn [wl_Static]. rewrite Ds, negb_involutive.
  assert (Al : ∀ c port, wf_choice c → admits c port → warmPortAllowed c port = true).
  { intros c port W A. destruct (admits_allowed c port A) as [?|[F P]]; [done|]. destruct (wf_choice_inv c W) as [_ [E|[E _]]]; [|done]. rewrite E in F. done. }
  destruct Lp as [p port Hp Nd A Mo|peer id port key psk endpoints dp Ed Md Ep Li Ni A Ek].
  - unfold static_plan. assert (F : List.find (static_matches (receipt_of (set_port_plan port p) result remote st)) (Links D) = Some p); [|by rewrite F].
    assert (M : ∀ q, q ∈ Links D → static_matches (receipt_of (set_port_plan port p) result remote st) q = true → q = p).
    { intros q Hq M. unfold static_matches in M. rewrite !andb_true_iff in M. destruct M as [[[[M _] _] _] _]. apply bool_decide_eq_true in M. cbn in M. apply list_elem_of_lookup in Hp as [i Hi], Hq as [j Hj].
      assert (i = j) as ->; [|congruence]. eapply NoDup_lookup; [exact Nd|..]; rewrite list_lookup_fmap; [by rewrite Hi|rewrite Hj; cbn; by rewrite M]. }
    assert (Mp : static_matches (receipt_of (set_port_plan port p) result remote st) p = true).
    { unfold static_matches. cbn. rewrite !bool_decide_eq_true_2 by done. by rewrite Al, Mo. }
    clear -M Mp Hp. induction (Links D) as [|q l IH]; [by apply not_elem_of_nil in Hp|]. cbn [List.find].
    destruct (static_matches _ q) eqn:Eq; [f_equal; apply M; [by left|done]|]. apply elem_of_cons in Hp as [->|Hp]; [congruence|].
    apply IH; [done|]. intros x Hx. apply M. by right.
  - unfold automatic_plan. rewrite Ed. cbn [fmap option_fmap option_map default]. rewrite bool_decide_eq_false_2 by done.
    cbn [receipt_of wl_Port wl_Interface wl_Owner wl_Result wl_PublicKey peer_plan_of set_port_plan generation rename_plan ListenPort InterfaceName OwnerAlias PeerPublicKey orb].
    rewrite Al by done. cbn [negb orb]. assert (V : HasPrefix (InterfaceName (BuildDynamicLink uuid_text (config 0) peer)) "vdl-" = true).
    { cbn [BuildDynamicLink InterfaceName]. unfold DynamicInterfaceName. case_bool_decide; apply prefix_self. }
    rewrite V. cbn [negb].
    assert (Ea : OwnerAlias (BuildDynamicLink uuid_text (config 0) (Engine.RemoteUID result)) = OwnerAlias (BuildDynamicLink uuid_text (config 0) peer)).
    { cbn [BuildDynamicLink OwnerAlias]. by rewrite Ep. }
    rewrite Ea. rewrite string_app_assoc. destruct (TrimPrefix_app (OwnerAlias (BuildDynamicLink uuid_text (config 0) peer) +:+ ":") (uuid_text id)) as [-> ->].
    cbn [negb]. unfold canonicalUUID. rewrite parse_text, bool_decide_eq_false_2, bool_decide_eq_true_2 by done. cbn [orb negb]. apply (f_equal Some).
    unfold peer_plan_of, set_port_plan, generation, rename_plan, BuildDynamicLink. cbn [WaitingPort lk_Ports Probing ReceiveOnly lk_PeerName InterfaceName OwnerAlias lk_PrivateKey PeerPublicKey PresharedKey ListenPort lk_Endpoints Keepalive BootstrapAddress Desired.LinkOverrides ds_PrivateKey config].
    rewrite Ep, Ek, <- (string_app_assoc _ ":"%string (uuid_text id)). reflexivity.
Qed.

(** * The file *)

(** After a call that was not interrupted, the file holds what the process has, or
    is gone, or neither could be done. *)
Definition replaced (f : warmFile) (s s' : fs warmFile) : Prop :=
  content <$> entry s' = Some f ∨ entry s' = None ∨ ∃ e e' s1, save f s = (Failed e, s1) ∧ Remove s1 = (Failed e', s').
Lemma save_holds f s0 : holds (λ s, entry s = s0) (save f) (λ s, entry s = s0) (λ _ s, content <$> entry s = Some f).
Proof using.
  assert (F : plan_free (λ s : fs warmFile, entry s = s0)) by exact (plan_free_entry (λ e, e = s0)).
  set (written := λ s : fs warmFile, entry s = s0 ∧ content <$> temp s = Some f).
  assert (Fw : plan_free written) by by intros e o t p p'.
  apply (holds_bind _ _ _ (λ _ s, entry s = s0)); [by apply holds_touch|intros _].
  apply (holds_bind _ _ _ (λ _ s, entry s = s0)); [by apply holds_call|intros _].
  apply (holds_bind _ _ _ (λ _, written)); [|intros _].
  { apply holds_and_close; [done..|by intros s []|]. apply holds_call; [done|done|]. intros s E. by split. }
  apply holds_call; [done|by intros s []|]. by intros s [_ E].
Qed.
Lemma saveWarmLinks_replaced f s s' : saveWarmLinks f s = (Done tt, s') → replaced f s s'.
Proof using.
  unfold saveWarmLinks, replaced. pose proof (save_holds f (entry s) s eq_refl) as Sv. destruct (save f s) as [[[]|e|] s1]; [|cbn in Sv|done].
  - intros [= <-]. by left.
  - destruct (Remove s1) as [[[]|e'|] s2] eqn:Er; [| |done]; intros [= <-]; right.
    + left. revert Er. unfold Remove, call. destruct (plan s1) as [|[| |] ?]; by intros [= <-].
    + right. by exists e, e', s1.
Qed.
Lemma with_saved_done f w w' : with_saved f w = (Done tt, w') → w_file w' = Some f ∧ replaced f (w_disk w) (w_disk w').
Proof using.
  unfold with_saved. destruct (saveWarmLinks f (w_disk w)) as [r s] eqn:E. intros [= -> <-]. split; [done|]. by apply saveWarmLinks_replaced.
Qed.
Lemma with_saved_memory f w : w_file (with_saved f w).2 = Some f.
Proof using. unfold with_saved. by destruct (saveWarmLinks f (w_disk w)). Qed.

(** A receipt is read as the Link it was written for.  When an active Link is
    remembered, the receipt under its alias is one that a later process with the
    same configuration turns into the same plan (an automatic one without the
    endpoint, which that process does not dial), with what was negotiated and the
    time of the last PONG; when the Link is forgotten, no receipt of it is left;
    and after either call the file holds what the process has, or is gone, unless
    neither could be done. *)
Theorem warm_receipt_read_back states w f st result static plan plan' remote :
  w_file w = Some f → states !! InterfaceName plan = Some st → active st = true → OwnerAlias (ms_desired st) = OwnerAlias plan → dynamic st = negb static →
  plan_of_link result static plan plan' → negotiated result remote (PeerPublicKey plan) →
  1 <= ListenPort plan <= 65535 → (String.length (InterfaceName plan) <= 15)%nat → wf_choice (lk_Ports plan) →
  let (r1, w1) := rememberWarmLink states plan result remote w in
  let (r2, w2) := forgetWarmLink plan w1 in
  (∃ receipt, takeWarmLink (w_file w1) plan = Some receipt ∧ warmPlan receipt = Some plan' ∧
    wl_Result receipt = result ∧ wl_Remote receipt = remote ∧ wl_LastPong receipt = lastPong st ∧ wl_Static receipt = static) ∧
  takeWarmLink (w_file w2) plan = None ∧
  (r1 = Done tt → ∃ f1, w_file w1 = Some f1 ∧ replaced f1 (w_disk w) (w_disk w1)) ∧
  (r2 = Done tt → ∃ f2, w_file w2 = Some f2 ∧ replaced f2 (w_disk w1) (w_disk w2)).
Proof using parse_text.
  intros Ef Es Ac Al Dy Lp Ng Po Le Wc. pose proof (plan_read_back result static plan plan' remote st Lp Ng Po Le Wc Dy) as Rb.
  unfold rememberWarmLink. rewrite Ef, Es, Ac, bool_decide_eq_true_2 by done. cbn [negb orb].
  set (f1 := set_links _ f). pose proof (with_saved_memory f1 w) as E1. destruct (with_saved f1 w) as [r1 w1] eqn:S1. cbn in E1.
  assert (L1 : wf_Links f1 !! OwnerAlias plan = Some (receipt_of plan result remote st)) by by apply lookup_insert_eq.
  unfold forgetWarmLink. rewrite E1, bool_decide_eq_true_2 by by eexists.
  set (f2 := set_links _ f1). pose proof (with_saved_memory f2 w1) as E2. destruct (with_saved f2 w1) as [r2 w2] eqn:S2. cbn in E2.
  split_and!.
  - exists (receipt_of plan result remote st). cbn [takeWarmLink]. split_and!; [done..|]. cbn [receipt_of wl_Static]. by rewrite Dy, negb_involutive.
  - rewrite E2. by apply lookup_delete_eq.
  - intros ->. exists f1. split; [done|]. by apply with_saved_done in S1 as [_ ?].
  - intros ->. exists f2. split; [done|]. by apply with_saved_done in S2 as [_ ?].
Qed.
End Warm.
