(* ===== verification/WarmLinksRun.v ===== *)
(** A warm start on the kernel of RunKernel.v: the interface of an automatic Link
    and that of a static one are adopted, a stale one is removed. *)

From S2P Require Import Prelude Netlink RunKernel Routes RoutesProps Backend BackendProps Untouched Reconciled ReconciledRun SpecifiedRun LinkRoutes Validate.
From S2P Require Import NetipText GoText Netip Ports Spec Desired Link Field MessageData Engine Inference Recovery Interfaces DynamicPolicy Durable Attempts AttemptsProps AttemptsSafety AttemptsRun LinkSafety WarmFile WarmLinks AtomicFile WarmLinksProps.
From stdpp Require Import gmap strings.
Open Scope Z_scope.
Open Scope velvet_scope.

(** * The text of a UUID *)

Definition hex02_reads (c : byte) : bool :=
  match hex02 c with
  | String a (String b EmptyString) =>
    match hex_value (Ascii.byte_of_ascii a), hex_value (Ascii.byte_of_ascii b) with
    | Some x, Some y => bool_decide (z2b (x * 16 + y) = c)
    | _, _ => false
    end
  | _ => false
  end.
Lemma hex02_read c : ∃ a b x y, hex02 c = String a (String b "") ∧ hex_value (Ascii.byte_of_ascii a) = Some x ∧
  hex_value (Ascii.byte_of_ascii b) = Some y ∧ z2b (x * 16 + y) = c.
Proof.
  assert (R : hex02_reads c = true) by (destruct c; by vm_compute). unfold hex02_reads in R.
  destruct (hex02 c) as [|a [|b []]]; try done. destruct (hex_value (Ascii.byte_of_ascii a)) as [x|] eqn:Ex; [|done].
  destruct (hex_value (Ascii.byte_of_ascii b)) as [y|] eqn:Ey; [|done]. apply bool_decide_eq_true in R. by exists a, b, x, y.
Qed.
Lemma list_16 (id : list byte) : length id = 16%nat →
  ∃ b0 b1 b2 b3 b4 b5 b6 b7 b8 b9 ba bb bc bd be bf, id = [b0; b1; b2; b3; b4; b5; b6; b7; b8; b9; ba; bb; bc; bd; be; bf].
Proof. do 16 (destruct id as [|? id]; [done|]). destruct id; [|done]. intros _. by repeat eexists. Qed.
Ltac read_octet c :=
  let a := fresh "a" in let b := fresh "b" in let E := fresh "E" in
  destruct (hex02_read c) as (a & b & ? & ? & E & ? & ? & ?); rewrite E; clear E.
Lemma uuid_text_form id : length id = 16%nat → parse_uuid (uuid_text id) = Some id ∧ String.length (uuid_text id) = 36%nat.
Proof.
  intros (b0 & b1 & b2 & b3 & b4 & b5 & b6 & b7 & b8 & b9 & ba & bb & bc & bd & be & bf & ->)%list_16.
  unfold uuid_text. cbn [take drop slice foldr Nat.sub].
  read_octet b0. read_octet b1. read_octet b2. read_octet b3. read_octet b4. read_octet b5. read_octet b6. read_octet b7.
  read_octet b8. read_octet b9. read_octet ba. read_octet bb. read_octet bc. read_octet bd. read_octet be. read_octet bf.
  cbv [String.append]. split; [|reflexivity]. unfold parse_uuid. set (o := octets _). cbv -[Ascii.byte_of_ascii] in o. subst o. cbv zeta.
  match goal with |- context [if ?b then _ else _] => replace b with true by reflexivity end. cbn [take drop slice app Nat.sub hex_octets].
  repeat match goal with H : hex_value _ = Some _ |- _ => rewrite H; clear H end. by subst.
Qed.

(** * A node with an automatic and a static Link *)

Definition warm_id : list byte := repeat x01 16.
Definition warm_peer (r : list byte) : UID := mkUID r "n".
Definition warm_desired : DesiredState :=
  mkDesiredState [] PortChoice_zero (mkDurableSettings 2 1800) (mkNodeUID "a" "") warm_id [x05] (mkPrefix (Addr4 0x0aff0000) 16)
    (mkPrefix (Addr6 (0xfd000002 * 2 ^ 96) "") 64) (mkPrefix (Addr6 (0xfd000001 * 2 ^ 96) "") 64) (Addr6 (0xfd000001 * 2 ^ 96 + 1) "")
    58420 20000 "velvet:loopback:a" true [run_plan] [] [] None (Some (mkDynamicLinksPlan "active" [] 0)) (be_put 32 9).
Notation warm_plan_of := (warmPlan uuid_text parse_uuid run_public hkdf warm_desired).
Definition warm_loopback (n : Z) : Addr := Addr6 (0xfd000001 * 2 ^ 96 + n) "".
Definition warm_negotiated (r : list byte) (n : Z) : Result_ :=
  mkResult (warm_peer r) (warm_loopback n) (mkProposal Prefix_zero (mkPrefix (Addr6 (0xfd000002 * 2 ^ 96 + 4 * n) "") 126)).
Definition warm_remote : Addr := Addr6 (0xfe80 * 2 ^ 112 + 2) "".
(** The generation of the automatic Link, as an earlier process made it. *)
Definition warm_key : list byte := be_put 32 13.
Definition warm_psk : list byte := Eval vm_compute in
  match DeriveWGLinkPSK hkdf [x05] (run_public (be_put 32 9)) warm_key with Ok psk => psk | _ => [] end.
Notation warm_base := (set_port_plan 5000 (generation uuid_text (config warm_desired 0) (warm_peer node_b) (repeat x03 16))).
Definition warm_generation : LinkPlan := Eval vm_compute in peer_plan_of warm_key warm_psk ["192.0.2.9:7000"%string] warm_base.
Lemma warm_generation_plan : plan_of_link uuid_text run_public hkdf warm_desired (warm_negotiated node_b 2) false warm_generation
  (peer_plan_of warm_key warm_psk [] warm_base).
Proof.
  assert (E : warm_generation = peer_plan_of warm_key warm_psk ["192.0.2.9:7000"%string] warm_base) by by vm_compute.
  rewrite E. apply (lp_automatic _ _ _ _ _ _ _ _ _ _ _ (mkDynamicLinksPlan "active" [] 0)); [done|done|done|done|done|by left|by vm_compute].
Qed.
Definition warm_states : gmap string materializedState :=
  {[ InterfaceName warm_generation := mkMaterialized warm_generation [] [] node_b true true true 90;
     InterfaceName run_plan := mkMaterialized run_plan [] [] (repeat x04 16) false true true 95 ]}.
Definition warm_empty : warm := mkWarm (Some (mkWarmFile 2 [x01] "boot" "net" ∅)) (mkFs None [] None []).
Definition warm_written : warm :=
  (rememberWarmLink warm_states warm_generation (warm_negotiated node_b 2) warm_remote
    (rememberWarmLink warm_states run_plan (warm_negotiated (repeat x04 16) 3) warm_remote warm_empty).2).2.
Definition warm_receipts : list warmLink := Eval vm_compute in match w_file warm_written with Some f => map snd (map_to_list (wf_Links f)) | None => [] end.
(** The interfaces that the earlier process left; [run_world] has one of somebody
    else and a stale one. *)
Definition warm_local (plan : LinkPlan) (r : list byte) (n : Z) : list Prefix :=
  fst (EndpointAddresses (Result_Proposal (warm_negotiated r n)) warm_id r).
Definition warm_made : Netlink.sys rkernel unit :=
  Backend.applyBootstrapLink 1000 warm_generation;; Backend.applyBootstrapLink 1000 run_plan;;
  Backend.Materialize warm_desired warm_generation (warm_local warm_generation node_b 2) [warm_loopback 2];;
  Backend.Materialize warm_desired run_plan (warm_local run_plan (repeat x04 16) 3) [warm_loopback 3].
(** Evaluated once: the hashes take their time. *)
Definition warm_world : rkernel := Eval vm_compute in (warm_made (mkRKernel (k_devices (run_world [])) [] [] ∅ 0 [] ∅)).2.
Definition warm_ports : portPool := mkPool ∅ 58420 0.
Notation warm_preparing := (prepareWarmLinks uuid_text parse_uuid run_public hkdf warm_desired None (λ _, 100) warm_receipts (start_prep warm_world warm_ports)).
Definition warm_prep : prep (W := rkernel) := Eval vm_compute in warm_preparing.2.
Notation warm_preparation := (PrepareRuntime (with_retained warm_desired (p_retained warm_prep)) (p_world warm_prep)).
Definition warm_ready : rkernel := Eval vm_compute in warm_preparation.2.
Definition warm_ifaces (k : rkernel) : gmap string string :=
  (λ b, if bool_decide (b_Type b = "wireguard"%string) then b_Alias b else ""%string) <$> k_devices k.
Definition warm_engine : engine :=
  mkEngine false ∅ [] ∅ ∅ ∅ 0 (p_resources warm_prep) ∅ [] [] (mkKernel (warm_ifaces warm_ready) []).
Lemma warm_preparing_ok : warm_preparing = (Ok tt, warm_prep).
Proof. vm_compute. exact eq_refl. Qed.
Lemma warm_prepared_ok : warm_preparation = (Ok tt, warm_ready).
Proof. vm_compute. exact eq_refl. Qed.
Example warm_run : length (p_adopted warm_prep) = 2%nat ∧ dom (k_devices warm_world) ∖ dom (k_devices warm_ready) = {["wg-c"%string]}.
Proof. split; by vm_compute. Qed.

Lemma warm_apart : ¬ mine uuid_text (config warm_desired 0) (OwnerAlias run_plan).
Proof. intros (remote & id & E). apply (f_equal (Stdlib.Strings.String.substring 12 1)) in E. vm_compute in E. done. Qed.
Lemma warm_sound : sound_receipts uuid_text warm_desired warm_peer warm_receipts.
Proof.
  assert (X : Forall (λ r, length (receipt_peer r) = 16%nat ∧ (wl_Static r = false → wl_Interface r = iface_of uuid_text warm_peer (receipt_peer r))) warm_receipts).
  { apply (bool_decide_unpack _). by vm_compute. }
  rewrite Forall_forall in X. split; [by intros r Hr; apply X|by intros r Hr; apply X|by apply Nat.leb_le; vm_compute|].
  intros plan ->%list_elem_of_singleton. exact warm_apart.
Qed.
Lemma warm_interfaces k fs : interfaces (view k) (mkKernel (warm_ifaces k) fs).
Proof.
  intros name alias. unfold warm_ifaces. cbn [ifaces]. rewrite lookup_fmap, fmap_Some. split.
  - intros (b & Eb & ->). exists (index_of name), (device_of name b). split; [|done]. apply k_view_Some. by exists name, b.
  - intros (i & d & (n & b & -> & Eb & ->)%k_view_Some & <- & ->). by exists b.
Qed.
Lemma warm_reserved : reserved_names uuid_text warm_desired (view warm_world).
Proof.
  intros i d (name & b & -> & Eb & ->)%k_view_Some M.
  assert (X : map_Forall (λ name b, name ∈ LoopbackInterface :: map InterfaceName (Links warm_desired) → b_Alias b = OwnerAlias run_plan) (k_devices warm_world)).
  { apply (bool_decide_unpack _). by vm_compute. }
  intros Hn. apply (X name b Eb) in Hn. apply warm_apart. cbn in M. by rewrite <- Hn.
Qed.
Lemma warm_starting : starting warm_prep warm_engine.
Proof. split; reflexivity. Qed.
Lemma warm_start_witness : ∃ p, warm_preparing = (Ok tt, p) ∧
  length (p_adopted p) = 2%nat ∧ NoDup (map (ListenPort ∘ wa_plan) (p_adopted p)) ∧
  Z.of_nat (resourceCountLocked (ad_engine (adoptWarmLinks warm_desired (λ _, true) (p_adopted p) (mkAdoptionState warm_engine ∅ [])).2)) <= 128.
Proof.
  destruct (warm_start uuid_text parse_uuid run_public hkdf warm_desired warm_peer (λ id E, proj1 (uuid_text_form id E)) (λ id E, proj2 (uuid_text_form id E))
    None (λ _, 100) 0 warm_receipts warm_world warm_ports warm_sound) as (p & E & _ & R).
  - intros port lease. cbn. by rewrite lookup_empty.
  - exact warm_reserved.
  - exists p. assert (p = warm_prep) as -> by (rewrite warm_preparing_ok in E; by injection E). split; [done|]. split; [by vm_compute|].
    destruct (adoptWarmLinks _ _ _ _) as [b x] eqn:Ea. assert (b = true) as ->.
    { change b with (b, x).1. rewrite <- Ea. by vm_compute. }
    destruct (R warm_ready warm_engine x (λ _, true)) as (_ & Nd & _ & Acc); [exact warm_prepared_ok|exact warm_starting|apply warm_interfaces|exact Ea|].
    split; [exact Nd|]. apply (Acc (ad_engine x) (rtc_refl _ _)).
Defined.
Lemma warm_receipt_read_back_witness :
  ∃ receipt, takeWarmLink (w_file (rememberWarmLink warm_states warm_generation (warm_negotiated node_b 2) warm_remote warm_empty).2) warm_generation = Some receipt ∧
    warm_plan_of receipt = Some (peer_plan_of warm_key warm_psk [] warm_base) ∧ wl_LastPong receipt = 90.
Proof.
  pose proof (warm_receipt_read_back uuid_text parse_uuid run_public hkdf warm_desired (λ id E, proj1 (uuid_text_form id E)) warm_states warm_empty
    (mkWarmFile 2 [x01] "boot" "net" ∅) (mkMaterialized warm_generation [] [] node_b true true true 90) (warm_negotiated node_b 2) false warm_generation
    (peer_plan_of warm_key warm_psk [] warm_base) warm_remote eq_refl) as R.
  destruct (rememberWarmLink _ _ _ _ _) as [r w]. cbn [snd]. destruct (forgetWarmLink warm_generation w) as [r2 w2].
  destruct R as [(receipt & E1 & E2 & _ & _ & E3 & _) _]; [by vm_compute|done|done|done|exact warm_generation_plan| |by vm_compute|by apply Nat.leb_le; vm_compute|by vm_compute|].
  - split; [split; by vm_compute|split; by vm_compute|split_and!; by vm_compute|split; by vm_compute|split; by vm_compute].
  - by exists receipt.
Defined.
