(* ===== verification/Probe.v ===== *)
(** vfp/probe/socket.go: the probes that two nodes send to find a path.  A probe
    is one canonical frame of the codec whose value is sealed; its receiver opens
    each sequence number once.  AES-GCM (crypto/cipher) is a class; its laws hold
    for the keys and nonces of their fixed lengths, for which its constructors do
    not fail. *)

From S2P Require Import Prelude Netip Field MessageData Control Message.
From stdpp Require Import gmap.
Open Scope Z_scope.
Open Scope velvet_scope.

(** [Seal key nonce plain additional] and [Open key nonce sealed additional]. *)
Class AEAD := {
  gcm_Seal : list byte → list byte → list byte → list byte → list byte;
  gcm_Open : list byte → list byte → list byte → list byte → option (list byte) }.
Class AEADLaws `{AEAD} : Prop := {
  seal_length k n p a : length (gcm_Seal k n p a) = (length p + 16)%nat;
  open_seal k n p a : gcm_Open k n (gcm_Seal k n p a) a = Some p;
  open_only k n c a p : gcm_Open k n c a = Some p → c = gcm_Seal k n p a }.

Definition MaxPackets : Z := 12000.
Record Received := mkReceived { rc_Round : Z; rc_Sequence : Z; rc_Destination : AddrPort; rc_Seen : AddrPort }.
(** [rv_seen]: the sequence numbers that were opened. *)
Record Receiver := mkReceiver { rv_ID : list byte; rv_Key : list byte; rv_seen : gset Z; rv_until : Z }.

(** [random]: what crypto/rand reads, if it can. *)
Definition NewReceiver (id : list byte) (until : Z) (random : result (list byte)) : result Receiver :=
  key ← random; Ok (mkReceiver id key ∅ until).
Definition nonce_of (seq : Z) : list byte := zeros 4 ++ be_put 8 seq.
(** Go's [copy]. *)
Definition copy_to (dst src : list byte) : list byte := take (length dst) src ++ drop (length src) dst.

Section Probe.
Context `{AEAD}.
Definition Seal (id key : list byte) (seq round : Z) (dst : AddrPort) : result (list byte) :=
  if (seq =? 0) || (MaxPackets <? seq) || (16 <? round) then Err (errors_New "probe budget or round invalid")
  else
    ep ← EndpointValue dst;
    let plain := be_put 2 round ++ ep in
    let data := id ++ be_put 8 seq ++ zeros (length plain + 16) in
    frame ← EncodeDatagram (set_Data data (newMessage PublicProbe));
    let sealed := gcm_Seal key (nonce_of seq) plain (take 36 frame) in
    Ok (take 36 frame ++ copy_to (drop 36 frame) sealed).

(** The guard before the receiver's state is read: whether the packet is refused. *)
Definition refused_envelope (packet : list byte) : result bool :=
  Ok ((len packet <? 62) || (MaxDatagramLength <? len packet)) ||!
  (magic ← Slice packet 0 4 ≫= Uint32; Ok (negb (magic =? Magic))) ||!
  (version ← Octet packet 4; Ok (negb (version =? Version))) ||!
  (kind ← Index packet 5; Ok (negb (bool_decide (kind = type_byte PublicProbe)))) ||!
  (length_ ← Slice packet 6 8 ≫= Uint16; Ok (negb (length_ =? len packet))) ||!
  (tlv ← Slice packet 8 10 ≫= Uint16; Ok (negb (tlv =? SealedProbeTLV))) ||!
  (width ← Slice packet 10 12 ≫= Uint16; Ok (negb (width =? len packet - 12))).
(** What is delivered, if anything, and the receiver after the call. *)
Definition Receiver_Open (now : Z) (packet : list byte) (seen : AddrPort) (r : Receiver) : result (option Received * Receiver) :=
  bad ← refused_envelope packet;
  if bad : bool then Ok (None, r)
  else
    id ← Slice packet 12 28;
    let id := Copy 16 id in
    seq ← Slice packet 28 36 ≫= Uint64;
    if negb (bool_decide (id = rv_ID r)) || (seq =? 0) || (MaxPackets <? seq) then Ok (None, r)
    else if negb (now <? rv_until r) || bool_decide (seq ∈ rv_seen r) then Ok (None, r)
    else
      sealed ← SliceFrom packet 36;
      additional ← Slice packet 0 36;
      match gcm_Open (rv_Key r) (nonce_of seq) sealed additional with
      | Some plain =>
        if len plain <? 2 then Ok (None, r)
        else
          round ← Slice plain 0 2 ≫= Uint16;
          rest ← SliceFrom plain 2;
          match ParseEndpointValue rest with
          | Ok dst =>
            if (16 <? round) || negb (eqb (Is4 (AddrPort_Addr seen)) (Is4 (AddrPort_Addr dst))) then Ok (None, r)
            else Ok (Some (mkReceived round seq dst seen), mkReceiver (rv_ID r) (rv_Key r) ({[seq]} ∪ rv_seen r) (rv_until r))
          | Err _ => Ok (None, r)
          | Panic => Panic
          end
      | None => Ok (None, r)
      end.

(** The two by position; [refused_envelope_eq] and [Receiver_Open_eq] say that no
    read is out of range, so that they are the functions above. *)
Definition canonical (packet : list byte) : bool :=
  negb ((len packet <? 62) || (MaxDatagramLength <? len packet) || negb (be_get packet.[0:4] =? Magic) || negb (be_get packet.[4:5] =? Version) ||
    negb (bool_decide (packet.[5:6] = [type_byte PublicProbe])) || negb (be_get packet.[6:8] =? len packet) ||
    negb (be_get packet.[8:10] =? SealedProbeTLV) || negb (be_get packet.[10:12] =? len packet - 12)).
Definition opens (now : Z) (packet : list byte) (seen : AddrPort) (r : Receiver) : option Received * Receiver :=
  if negb (canonical packet) then (None, r)
  else
    let id := packet.[12:28] in
    let seq := be_get packet.[28:36] in
    if negb (bool_decide (id = rv_ID r)) || (seq =? 0) || (MaxPackets <? seq) then (None, r)
    else if negb (now <? rv_until r) || bool_decide (seq ∈ rv_seen r) then (None, r)
    else
      match gcm_Open (rv_Key r) (nonce_of seq) (drop 36 packet) (take 36 packet) with
      | Some plain =>
        if len plain <? 2 then (None, r)
        else
          let round := be_get plain.[0:2] in
          match ParseEndpointValue (drop 2 plain) with
          | Ok dst =>
            if (16 <? round) || negb (eqb (Is4 (AddrPort_Addr seen)) (Is4 (AddrPort_Addr dst))) then (None, r)
            else (Some (mkReceived round seq dst seen), mkReceiver (rv_ID r) (rv_Key r) ({[seq]} ∪ rv_seen r) (rv_until r))
          | _ => (None, r)
          end
      | None => (None, r)
      end.

Lemma or_else_both a b : Ok a ||! Ok b = Ok (a || b).
Proof using. by destruct a. Qed.
Lemma slice_head {A} (p : list A) n : p.[0:n] = take n p.
Proof using. unfold slice. by rewrite drop_0, Nat.sub_0_r. Qed.
Lemma Index_slice {A} (p : list A) i x : p !! i = Some x → p.[i:S i] = [x].
Proof using. intros L. unfold slice. replace (S i - i)%nat with 1%nat by lia. by rewrite (drop_S _ _ _ L). Qed.
Lemma refused_envelope_eq packet : refused_envelope packet = Ok (negb (canonical packet)).
Proof using.
  unfold refused_envelope, canonical. rewrite negb_involutive. destruct (len packet <? 62) eqn:L; [done|].
  apply Z.ltb_ge in L. unfold len in L. unfold Uint32, Uint16.
  destruct (lookup_lt_is_Some_2 packet 5) as [x Hx]; [lia|].
  rewrite (UintBE_slice 4), !(UintBE_slice 2), !bind_Ok by lia.
  rewrite Octet_ok, bind_Ok by lia. unfold Index. rewrite Hx, bind_Ok. rewrite (Index_slice _ _ _ Hx).
  rewrite (bool_decide_ext (x = type_byte PublicProbe) ([x] = [type_byte PublicProbe])) by (split; congruence).
  by rewrite !or_else_both.
Qed.
Lemma Receiver_Open_eq now packet seen r : Receiver_Open now packet seen r = Ok (opens now packet seen r).
Proof using.
  unfold Receiver_Open, opens. rewrite refused_envelope_eq, bind_Ok. destruct (canonical packet) eqn:C; [|done]. cbn [negb].
  assert (L : (62 <= length packet)%nat).
  { unfold canonical in C. destruct (len packet <? 62) eqn:L; [done|]. apply Z.ltb_ge in L. unfold len in L. lia. }
  unfold Uint64, Uint16. rewrite (Slice_ok packet 12 28), bind_Ok by lia. rewrite Copy_id by (rewrite length_slice; lia).
  rewrite (UintBE_slice 8), bind_Ok by lia. destruct (_ || _ || _); [done|]. destruct (_ || _); [done|].
  rewrite SliceFrom_ok, (Slice_ok packet 0 36), !bind_Ok, slice_head by lia.
  destruct (gcm_Open _ _ _ _) as [plain|]; [|done]. destruct (len plain <? 2) eqn:P; [done|]. apply Z.ltb_ge in P. unfold len in P.
  rewrite (UintBE_slice 2), bind_Ok, SliceFrom_ok, bind_Ok by lia.
  destruct (ParseEndpointValue _) eqn:E; [by destruct (_ || _)|done|by apply returns_parseEndpoint in E].
Qed.
End Probe.

(** [WithZone("")]. *)
Definition without_zone (a : Addr) : Addr := match a with Addr6 v _ => Addr6 v "" | a => a end.
(** The filter of [Listen]: a packet counts only on the address the socket is
    for; [destination] is what the kernel's control message says, if it can be
    read. *)
Definition on_path (local : Addr) (destination : option Addr) : bool :=
  match destination with Some ip => bool_decide (Unmap ip = without_zone (Unmap local)) | None => false end.
(** [Send]: the family is that of the socket. *)
Definition sendable (local dst : AddrPort) : bool := eqb (Is4 (AddrPort_Addr dst)) (Is4 (AddrPort_Addr local)).
