(* ===== verification/ProbeProps.v ===== *)
(** A receiver delivers exactly the frames that were sealed for it, each once. *)

From S2P Require Import Prelude Netip Field MessageData Tlv Control Message Probe.
From stdpp Require Import gmap.
Open Scope Z_scope.
Open Scope velvet_scope.

(** The first 36 octets of a probe with [n] octets in all. *)
Definition header (n : Z) (id : list byte) (seq : Z) : list byte :=
  be_put 4 Magic ++ [z2b Version; type_byte PublicProbe] ++ be_put 2 n ++ be_put 2 SealedProbeTLV ++ be_put 2 (n - 12) ++ id ++ be_put 8 seq.
Lemma length_header n id seq : length id = 16%nat → length (header n id seq) = 36%nat.
Proof. intros L. unfold header. rewrite !length_app, !length_be_put, L. done. Qed.

Section Probe.
Context `{AEADLaws}.

Lemma sealed_frame id seq (ep : list byte) : length id = 16%nat → length ep = 8%nat ∨ length ep = 20%nat →
  EncodeDatagram (set_Data (id ++ be_put 8 seq ++ zeros (length ep + 2 + 16)) (newMessage PublicProbe)) =
    Ok (header (54 + len ep) id seq ++ zeros (length ep + 2 + 16)).
Proof using.
  intros L V. set (data := id ++ be_put 8 seq ++ _).
  assert (Ld : len data = 42 + len ep).
  { unfold data, len, zeros. rewrite !length_app, length_be_put, L, length_replicate. lia. }
  unfold EncodeDatagram, Encode, encodeBody. cbn -[len Append frame_of data zeros]. rewrite Ld.
  replace (negb (42 + len ep =? 50) && negb (42 + len ep =? 62)) with false by (unfold len; destruct V as [-> | ->]; done).
  cbn -[len Append frame_of data zeros Z.add]. unfold Append at 1. cbn [app].
  assert (Lb : len (be_put 2 SealedProbeTLV ++ be_put 2 (len data) ++ data) = 46 + len ep).
  { unfold len in *. rewrite !length_app, !length_be_put. lia. }
  match goal with |- (if ?b then _ else _) = _ => change b with false end. cbv iota. rewrite Lb.
  replace (MaxFrameLength <? HeaderLength + (46 + len ep)) with false by (unfold len; destruct V as [-> | ->]; done).
  rewrite bind_Ok. unfold Append, frame_of. cbn [app]. rewrite Lb.
  assert (Lf : len (be_put 4 Magic ++ z2b Version :: type_byte PublicProbe :: be_put 2 (HeaderLength + (46 + len ep)) ++
    be_put 2 SealedProbeTLV ++ be_put 2 (len data) ++ data) = 54 + len ep).
  { unfold len in *. rewrite length_app. cbn [length]. rewrite !length_app, !length_be_put in *. lia. }
  rewrite Lf. replace (MaxDatagramLength <? 54 + len ep) with false by (unfold len; destruct V as [-> | ->]; done).
  f_equal. unfold header. rewrite Ld. unfold data. rewrite <- !app_assoc. cbn [app]. rewrite <- ?app_assoc. unfold HeaderLength.
  replace (54 + len ep - 12) with (42 + len ep) by lia. by replace (8 + (46 + len ep)) with (54 + len ep) by lia.
Qed.
Lemma take_header n id seq (v : list byte) : length id = 16%nat → take 36 (header n id seq ++ v) = header n id seq ∧ drop 36 (header n id seq ++ v) = v.
Proof using. intros L. by rewrite take_app_length', drop_app_length' by (symmetry; by apply length_header). Qed.

(** What is sealed, and the frame. *)
Definition plain_of (round : Z) (ep : list byte) : list byte := be_put 2 round ++ ep.
Definition probe_frame (id key : list byte) (seq round : Z) (ep : list byte) : list byte :=
  header (54 + len ep) id seq ++ gcm_Seal key (nonce_of seq) (plain_of round ep) (header (54 + len ep) id seq).
Lemma Seal_form id key seq round dst ep : length id = 16%nat → 1 <= seq <= MaxPackets → round <= 16 → EndpointValue dst = Ok ep →
  Seal id key seq round dst = Ok (probe_frame id key seq round ep).
Proof using H0.
  intros L Sq Rd Ep. unfold Seal. replace ((seq =? 0) || (MaxPackets <? seq) || (16 <? round)) with false.
  2: { symmetry. rewrite !orb_false_iff. split_and!; [by apply Z.eqb_neq; lia|by apply Z.ltb_ge; lia|by apply Z.ltb_ge; lia]. }
  rewrite Ep, bind_Ok. pose proof (encodeEndpoint_length dst ep Ep) as V.
  assert (Lp : (length (be_put 2 round ++ ep) + 16 = length ep + 2 + 16)%nat) by (rewrite length_app, length_be_put; lia).
  rewrite Lp, sealed_frame by done. rewrite bind_Ok.
  destruct (take_header (54 + len ep) id seq (zeros (length ep + 2 + 16)) L) as [-> ->].
  unfold probe_frame, plain_of. do 2 f_equal. unfold copy_to, zeros. rewrite length_replicate, seal_length, Lp.
  rewrite take_ge by (rewrite seal_length, Lp; lia). by rewrite drop_ge, app_nil_r by (rewrite length_replicate; lia).
Qed.
Lemma Seal_inv id key seq round dst f : length id = 16%nat → 0 <= seq → Seal id key seq round dst = Ok f →
  1 <= seq <= MaxPackets ∧ round <= 16 ∧ ∃ ep, EndpointValue dst = Ok ep ∧ f = probe_frame id key seq round ep.
Proof using H0.
  intros L S0 E. pose proof E as E'. unfold Seal in E. destruct (_ || _) eqn:B in E; [done|]. rewrite !orb_false_iff in B. destruct B as [[B1 B2] B3].
  apply Z.eqb_neq in B1. apply Z.ltb_ge in B2, B3. destruct (EndpointValue dst) as [ep|e|] eqn:Ep; [|done..].
  split_and!; try lia. exists ep. split; [done|]. rewrite (Seal_form id key seq round dst ep) in E' by (done || lia). by injection E'.
Qed.

(** * Reading a frame *)

Lemma header_fields n id seq v : length id = 16%nat → let b := header n id seq ++ v in
  b.[0:4] = be_put 4 Magic ∧ b.[4:5] = [z2b Version] ∧ b.[5:6] = [type_byte PublicProbe] ∧ b.[6:8] = be_put 2 n ∧ b.[8:10] = be_put 2 SealedProbeTLV ∧
  b.[10:12] = be_put 2 (n - 12) ∧ b.[12:28] = id ∧ b.[28:36] = be_put 8 seq.
Proof using. intros L. do 16 (destruct id as [|? id]; [done|]). destruct id; [|done]. by split_and!. Qed.
Lemma split_packet (p : list byte) : (36 <= length p)%nat →
  p = p.[0:4] ++ p.[4:5] ++ p.[5:6] ++ p.[6:8] ++ p.[8:10] ++ p.[10:12] ++ p.[12:28] ++ p.[28:36] ++ drop 36 p.
Proof using. intros L. do 36 (destruct p as [|? p]; [cbn in L; lia|]). reflexivity. Qed.
Lemma be_get_slice (p : list byte) i j n z : be_get p.[i:j] = z → (i + n = j)%nat → (j <= length p)%nat → p.[i:j] = be_put n z.
Proof using.
  intros <- E L. assert (Ln : length p.[i:j] = n) by (rewrite length_slice; lia). rewrite <- Ln at 1. by rewrite be_put_get.
Qed.
Lemma canonical_header p : canonical p = true → p = header (len p) p.[12:28] (be_get p.[28:36]) ++ drop 36 p ∧ 62 <= len p <= MaxDatagramLength.
Proof using.
  unfold canonical. rewrite negb_true_iff, !orb_false_iff, !negb_false_iff. intros (((((((A & B) & C) & D) & E) & F) & G) & K).
  apply Z.ltb_ge in A, B. apply Z.eqb_eq in C, D, F, G, K. apply bool_decide_eq_true in E. split; [|done].
  assert (L : (36 <= length p)%nat) by (unfold len in A; lia).
  rewrite (split_packet p L) at 1. unfold header. rewrite E.
  rewrite (be_get_slice p 0 4 4 _ C), (be_get_slice p 6 8 2 _ F), (be_get_slice p 8 10 2 _ G), (be_get_slice p 10 12 2 _ K) by (done || lia).
  assert (D' : p.[4:5] = [z2b Version]).
  { rewrite (be_get_slice p 4 5 1 _ D) by (done || lia). done. }
  rewrite D', (be_get_slice p 28 36 8 _ eq_refl) by (done || lia). rewrite <- !app_assoc. by rewrite (be_get_slice p 28 36 8 _ eq_refl) at 1 by (done || lia).
Qed.
Lemma frame_canonical id key seq round ep : length id = 16%nat → length ep = 8%nat ∨ length ep = 20%nat →
  let f := probe_frame id key seq round ep in len f = 54 + len ep ∧ canonical f = true.
Proof using H0.
  intros L V f. assert (Lf : len f = 54 + len ep).
  { unfold f, probe_frame, len, plain_of. rewrite length_app, length_header, seal_length, length_app, length_be_put by done. lia. }
  split; [done|]. unfold canonical.
  pose proof (header_fields (54 + len ep) id seq (gcm_Seal key (nonce_of seq) (plain_of round ep) (header (54 + len ep) id seq)) L) as Hf. cbv zeta in Hf.
  change (header (54 + len ep) id seq ++ _) with f in Hf. destruct Hf as (-> & -> & -> & -> & -> & -> & _).
  rewrite Lf, be_get_one, !be_get_put_small by first [done|unfold len; destruct V as [-> | ->]; done].
  rewrite !Z.eqb_refl. unfold len. by destruct V as [-> | ->].
Qed.

(** * What a receiver delivers *)

(** The packet is the frame of a probe that the receiver has not opened. *)
Record deliverable (now : Z) (packet : list byte) (seen : AddrPort) (r : Receiver) (v : Received) : Prop := {
  dl_sealed : Seal (rv_ID r) (rv_Key r) (rc_Sequence v) (rc_Round v) (rc_Destination v) = Ok packet;
  dl_width : 0 <= rc_Sequence v ∧ 0 <= rc_Round v ∧ wf_endpoint (rc_Destination v);
  dl_live : now < rv_until r;
  dl_fresh : rc_Sequence v ∉ rv_seen r;
  dl_from : rc_Seen v = seen ∧ Is4 (AddrPort_Addr seen) = Is4 (AddrPort_Addr (rc_Destination v)) }.
Definition mark (v : Received) (r : Receiver) : Receiver := mkReceiver (rv_ID r) (rv_Key r) ({[rc_Sequence v]} ∪ rv_seen r) (rv_until r).
Lemma Open_delivers now packet seen r v : length (rv_ID r) = 16%nat → deliverable now packet seen r v → opens now packet seen r = (Some v, mark v r).
Proof using H0.
  intros L [S (Sq & Rd & We) Lv Fr [Sn Fam]]. destruct (Seal_inv _ _ _ _ _ _ L Sq S) as (Sb & Rb & ep & Ep & ->).
  pose proof (encodeEndpoint_length _ _ Ep) as V. set (f := probe_frame _ _ _ _ _). pose proof (frame_canonical (rv_ID r) (rv_Key r) (rc_Sequence v) (rc_Round v) ep L V) as Cn.
  cbv zeta in Cn. change (probe_frame _ _ _ _ _) with f in Cn. destruct Cn as [_ Cn].
  unfold opens. rewrite Cn. cbn [negb].
  pose proof (header_fields (54 + len ep) (rv_ID r) (rc_Sequence v) (gcm_Seal (rv_Key r) (nonce_of (rc_Sequence v)) (plain_of (rc_Round v) ep) (header (54 + len ep) (rv_ID r) (rc_Sequence v))) L) as Hf.
  pose proof (take_header (54 + len ep) (rv_ID r) (rc_Sequence v) (gcm_Seal (rv_Key r) (nonce_of (rc_Sequence v)) (plain_of (rc_Round v) ep) (header (54 + len ep) (rv_ID r) (rc_Sequence v))) L) as Ht.
  cbv zeta in Hf. change (header (54 + len ep) _ _ ++ _) with f in Hf, Ht. destruct Hf as (_ & _ & _ & _ & _ & _ & Hi & Hs). destruct Ht as [Ht Hd].
  rewrite Hi, Hs, Ht, Hd, be_get_put_small by (unfold MaxPackets in Sb; lia).
  rewrite bool_decide_eq_true_2 by done. rewrite (proj2 (Z.eqb_neq _ _)), (proj2 (Z.ltb_ge _ _)), (proj2 (Z.ltb_lt _ _)) by lia.
  rewrite (bool_decide_eq_false_2 _ Fr), open_seal. cbn [negb orb].
  assert (Lp : len (plain_of (rc_Round v) ep) = 2 + len ep) by (unfold len, plain_of; rewrite length_app, length_be_put; lia).
  assert (Hr : be_get (plain_of (rc_Round v) ep).[0:2] = rc_Round v).
  { unfold plain_of. rewrite slice_app_l by by rewrite length_be_put. rewrite be_get_put_small by lia. done. }
  assert (He : drop 2 (plain_of (rc_Round v) ep) = ep) by (unfold plain_of; by rewrite drop_app_length' by by rewrite length_be_put).
  rewrite Lp, Hr, He, (proj2 (Z.ltb_ge _ _)) by (unfold len; lia).
  unfold ParseEndpointValue. rewrite (dec_enc _ _ We Ep). rewrite (proj2 (Z.ltb_ge _ _)) by lia. rewrite Fam, eqb_reflx.
  cbn [negb orb]. rewrite <- Sn. by destruct v.
Qed.
Lemma Open_delivered now packet seen r : length (rv_ID r) = 16%nat →
  match opens now packet seen r with
  | (Some v, r') => deliverable now packet seen r v ∧ r' = mark v r
  | (None, r') => r' = r
  end.
Proof using H0.
  intros L. unfold opens. destruct (canonical packet) eqn:Cn; cbn [negb]; [|done]. apply canonical_header in Cn as [Hp Lp].
  set (seq := be_get packet.[28:36]) in *. destruct (negb _ || _ || _) eqn:B1; [done|]. rewrite !orb_false_iff, negb_false_iff in B1. destruct B1 as [[B1 B2] B3].
  apply bool_decide_eq_true in B1. apply Z.eqb_neq in B2. apply Z.ltb_ge in B3. destruct (negb _ || _) eqn:B4; [done|].
  apply orb_false_iff in B4 as [B4 B5]. apply negb_false_iff, Z.ltb_lt in B4. apply bool_decide_eq_false in B5.
  destruct (gcm_Open _ _ _ _) as [plain|] eqn:G; [|done]. apply open_only in G.
  destruct (len plain <? 2) eqn:B6; [done|]. apply Z.ltb_ge in B6. destruct (ParseEndpointValue (drop 2 plain)) as [dst|e|] eqn:Pe; [|done..].
  destruct (_ || _) eqn:B7; [done|]. apply orb_false_iff in B7 as [B7 B8]. apply Z.ltb_ge in B7. apply negb_false_iff, eqb_prop in B8.
  split; [|done]. apply parseEndpoint_ok in Pe as [We Ep]. pose proof (be_get_range packet.[28:36]) as S0. fold seq in S0.
  pose proof (be_get_range plain.[0:2]) as R0. split; cbn [rc_Sequence rc_Round rc_Destination rc_Seen]; [|split_and!; [lia|lia|done]|done|done|done].
  pose proof (encodeEndpoint_length _ _ Ep) as V. rewrite B1 in Hp.
  assert (Pl : plain = plain_of (be_get plain.[0:2]) (drop 2 plain)).
  { unfold plain_of. rewrite <- (be_get_slice plain 0 2 2 _ eq_refl) by (done || (unfold len in B6; lia)). unfold slice. by rewrite drop_0, Nat.sub_0_r, take_drop. }
  assert (Sb : 1 <= seq <= MaxPackets) by lia. rewrite (Seal_form _ _ _ _ _ _ L Sb B7 Ep). f_equal. unfold probe_frame. rewrite <- Pl.
  destruct (take_header (len packet) (rv_ID r) seq (drop 36 packet) L) as [Ht _]. rewrite <- Hp in Ht. rewrite Ht in G.
  assert (Ln : len packet = 54 + len (drop 2 plain)).
  { apply (f_equal length) in G. rewrite seal_length, length_drop in G. unfold len in *. rewrite length_drop. lia. }
  rewrite <- Ln, <- G. by symmetry.
Qed.

(** A run of the socket: instants, packets and sources. *)
Fixpoint receive_all (l : list (Z * list byte * AddrPort)) (r : Receiver) : result (list Received) :=
  match l with
  | [] => Ok []
  | (now, packet, seen) :: l =>
    '(v, r) ← Receiver_Open now packet seen r;
    vs ← receive_all l r;
    Ok (match v with Some v => v :: vs | None => vs end)
  end.

(** By [opens]. *)
Fixpoint all_opened (l : list (Z * list byte * AddrPort)) (r : Receiver) : list Received :=
  match l with
  | [] => []
  | (now, packet, seen) :: l =>
    match opens now packet seen r with
    | (Some v, r) => v :: all_opened l r
    | (None, r) => all_opened l r
    end
  end.
Lemma receive_all_eq l r : receive_all l r = Ok (all_opened l r).
Proof using.
  revert r. induction l as [|[[now packet] seen] l IH]; intros r; cbn [receive_all all_opened]; [done|].
  rewrite Receiver_Open_eq, bind_Ok. destruct (opens _ _ _ _) as [[v|] r']; by rewrite IH, bind_Ok.
Qed.

Lemma all_opened_spec l r : length (rv_ID r) = 16%nat → let vs := all_opened l r in
  NoDup (map rc_Sequence vs) ∧
  (∀ v, v ∈ vs → rc_Sequence v ∉ rv_seen r ∧ ∃ now packet, (now, packet, rc_Seen v) ∈ l ∧ now < rv_until r ∧ 1 <= rc_Sequence v <= MaxPackets ∧
    Seal (rv_ID r) (rv_Key r) (rc_Sequence v) (rc_Round v) (rc_Destination v) = Ok packet) ∧
  ∀ now packet seen v, (now, packet, seen) ∈ l → deliverable now packet seen r v → rc_Sequence v ∈ map rc_Sequence vs.
Proof using H0.
  revert r. induction l as [|[[now packet] seen] l IH]; intros r L; cbn [all_opened].
  { split_and!; [apply NoDup_nil_2|by intros v []%not_elem_of_nil|by intros ???? []%not_elem_of_nil]. }
  pose proof (Open_delivered now packet seen r L) as Op. destruct (opens now packet seen r) as [[v|] r'] eqn:Eo.
  - destruct Op as [D ->]. destruct (IH (mark v r) L) as (Nd & Sound & Compl). cbn [rv_seen mark rv_ID rv_Key rv_until] in Sound. split_and!.
    + cbn [map]. apply NoDup_cons. split; [|done]. intros (x & Ex & Hx)%list_elem_of_fmap. destruct (Sound x Hx) as [N _].
      apply N. rewrite <- Ex. apply elem_of_union. left. by apply elem_of_singleton.
    + intros x [->|Hx]%elem_of_cons.
      * destruct D as [S (S0 & _) Lv Fr [Sn _]]. split; [done|]. exists now, packet. rewrite Sn. split_and!; [by left|done| | |done];
          apply (Seal_inv _ _ _ _ _ _ L S0 S).
      * destruct (Sound x Hx) as (N & now' & p' & Hin & X). split; [by apply not_elem_of_union in N as [_ ?]|]. exists now', p'. split; [by right|done].
    + intros now' p' seen' x [E|Hin]%elem_of_cons Dx; cbn [map].
      * injection E as -> -> ->. rewrite (Open_delivers _ _ _ _ _ L Dx) in Eo. injection Eo as ->. by left.
      * destruct (decide (rc_Sequence x = rc_Sequence v)) as [->|N]; [by left|right]. apply (Compl now' p' seen' x Hin).
        destruct Dx. split; try done. cbn. by apply not_elem_of_union, conj; [apply not_elem_of_singleton|].
  - subst r'. destruct (IH r L) as (Nd & Sound & Compl). split_and!; [done| |].
    + intros x Hx. destruct (Sound x Hx) as (N & now' & p' & Hin & X). split; [done|]. exists now', p'. split; [by right|done].
    + intros now' p' seen' x [E|Hin]%elem_of_cons Dx; [|by apply (Compl now' p' seen')].
      injection E as -> -> ->. rewrite (Open_delivers _ _ _ _ _ L Dx) in Eo. done.
Qed.

(** A receiver delivers the probes that were sealed for it, each once.  On any
    packets that reach a new receiver no read is out of range, and those that it delivers are frames of
    [Seal] with its identifier and key, carry the round and destination that were
    sealed and the source they came from, have distinct sequence numbers (so
    there are at most 12000), and came in time; and of every frame that was sealed
    for it and came in time, from a source of the destination's family, the
    sequence number is delivered, though it may have come several times. *)
Theorem probes_delivered_once id until key r l : length id = 16%nat → NewReceiver id until (Ok key) = Ok r →
  ∃ vs, receive_all l r = Ok vs ∧
  NoDup (map rc_Sequence vs) ∧ len vs <= MaxPackets ∧
  (∀ v, v ∈ vs → ∃ now packet, (now, packet, rc_Seen v) ∈ l ∧ now < until ∧ Seal id key (rc_Sequence v) (rc_Round v) (rc_Destination v) = Ok packet) ∧
  ∀ now packet seen seq round dst, (now, packet, seen) ∈ l → now < until → 0 <= seq → 0 <= round → wf_endpoint dst →
    Seal id key seq round dst = Ok packet → Is4 (AddrPort_Addr seen) = Is4 (AddrPort_Addr dst) → seq ∈ map rc_Sequence vs.
Proof using H0.
  intros L [= <-]. eexists. split; [apply receive_all_eq|]. destruct (all_opened_spec l (mkReceiver id key ∅ until) L) as (Nd & Sound & Compl). cbn [rv_ID rv_Key rv_until] in *. split_and!.
  - done.
  - unfold len. rewrite <- (length_map rc_Sequence). etrans; [apply Nat2Z.inj_le, submseteq_length, NoDup_submseteq|]; [done| |].
    + intros q (v & -> & Hv)%list_elem_of_fmap. destruct (Sound v Hv) as (_ & _ & _ & _ & _ & B & _). by apply (elem_of_seqZ 1 MaxPackets); lia.
    + by rewrite length_seqZ.
  - intros v Hv. destruct (Sound v Hv) as (_ & now & packet & ? & ? & _ & ?). by exists now, packet.
  - intros now packet seen seq round dst Hin Lv S0 R0 We S Fam. apply (Compl now packet seen (mkReceived round seq dst seen) Hin).
    by split.
Qed.
End Probe.

(** * A receiver *)

(** A cipher that satisfies the laws and hides nothing: the text, with a tag of the
    first octets of key, nonce and additional data. *)
Definition clear_tag (k n p a : list byte) : list byte := take 16 (k ++ n ++ a ++ p ++ zeros 16).
#[local] Instance clear_AEAD : AEAD := {
  gcm_Seal k n p a := p ++ clear_tag k n p a;
  gcm_Open k n c a := let p := take (length c - 16) c in if bool_decide (c = p ++ clear_tag k n p a) then Some p else None }.
#[local] Instance clear_laws : AEADLaws.
Proof.
  assert (L : ∀ k n p a, length (clear_tag k n p a) = 16%nat).
  { intros. unfold clear_tag, zeros. rewrite length_take, !length_app, length_replicate. lia. }
  split; cbn [gcm_Seal gcm_Open clear_AEAD].
  - intros. by rewrite length_app, L.
  - intros. rewrite length_app, L, Nat.add_sub, take_app_length. by rewrite bool_decide_eq_true_2.
  - intros k n c a p. case_bool_decide as E; [|done]. intros [= <-]. done.
Qed.
Definition probe_id : list byte := replicate 16 x07.
Definition probe_dst : AddrPort := AddrPortFrom (Addr4 0xcb007105) 7000.
Definition probe_from : AddrPort := AddrPortFrom (Addr4 0xcb007106) 9000.
Definition probe_packet : list byte := Eval vm_compute in match Seal probe_id [x01] 5 1 probe_dst with Ok f => f | _ => [] end.
Lemma probes_delivered_once_witness :
  ∃ vs, receive_all [(10, probe_packet, probe_from); (11, probe_packet, probe_from); (12, [x00], probe_from)] (mkReceiver probe_id [x01] ∅ 30) = Ok vs ∧
    5 ∈ map rc_Sequence vs.
Proof.
  destruct (probes_delivered_once probe_id 30 [x01] (mkReceiver probe_id [x01] ∅ 30)
    [(10, probe_packet, probe_from); (11, probe_packet, probe_from); (12, [x00], probe_from)] eq_refl eq_refl) as (vs & E & _ & _ & _ & C).
  exists vs. split; [exact E|].
  apply (C 10 probe_packet probe_from 5 1 probe_dst); [by left|lia|lia|lia|split; [split; cbn; lia|done]|by vm_compute|done].
Defined.
