(* ===== verification/Udp.v ===== *)
(** runtime/dynamic_probe.go, and the client of runtime/dynamic_observe.go: the
    UDP side of an attempt, which is the network of the search of PeerSearch.v.

    What the environment does is a list of actions in the order of their effect:
    a datagram that the goroutine of a socket reads, the branch that a select
    takes, the answer of a call.  An action that the code does not wait for is
    passed over; after the last one the deadline of the attempt has passed. *)

From S2P Require Import Prelude Netip Ports Desired Field MessageData Interfaces Durable Attempts Inference Search PeerSearch Control Probe.
From stdpp Require Import gmap strings.
Open Scope Z_scope.
Open Scope velvet_scope.

(** * The environment and the state *)

Inductive action :=
  | A_packet (primary : bool) (now : Z) (packet : list byte) (seen : AddrPort) (told : option error)
  | A_done | A_timer | A_arrival
  | A_inbox (data : list byte)          (* DISCOVERY_CONTROL of the operation *)
  | A_report (data : list byte)         (* of the observer that is measured or opened *)
  | A_closed | A_ready                  (* the observer's session *)
  | A_random (id : list byte)           (* newOperationID *)
  | A_call (failure : option error).

Record observerTarget := mkObserverTarget { loopback : Addr; bootstrap : bool }.
Record observerClient := mkObserverClient { oc_id : list byte; oc_key : list byte; oc_offer : Observer }.

(** What happened on the wire: a datagram that was sealed and sent; one that the
    primary socket delivered; control messages that were sent and taken. *)
Inductive wire :=
  | Sent (local : AddrPort) (id key : list byte) (seq round : Z) (dst : AddrPort)
  | Heard (packet : list byte) (v : Received)
  | Told (c : Control) | Got (c : Control) | Reported (c : Control).

(** The fields of [udpAttempt] that change, the channel [arrivals], and what
    happened. *)
Record probing := mkProbing {
  pb_receiver : Receiver; pb_arrivals : list Received; pb_cancelled : bool;
  pb_sequence : Z; pb_measurements : Z; pb_pending : option Control; pb_measured : gset Measurement;
  pb_sockets : gset AddrPort; pb_observers : list observerClient; pb_loaded : bool; pb_remaining : list observerTarget;
  pb_trace : list wire }.
Definition set_receiver v s := mkProbing v (pb_arrivals s) (pb_cancelled s) (pb_sequence s) (pb_measurements s) (pb_pending s) (pb_measured s)
  (pb_sockets s) (pb_observers s) (pb_loaded s) (pb_remaining s) (pb_trace s).
Definition set_arrivals v s := mkProbing (pb_receiver s) v (pb_cancelled s) (pb_sequence s) (pb_measurements s) (pb_pending s) (pb_measured s)
  (pb_sockets s) (pb_observers s) (pb_loaded s) (pb_remaining s) (pb_trace s).
Definition set_cancelled s := mkProbing (pb_receiver s) (pb_arrivals s) true (pb_sequence s) (pb_measurements s) (pb_pending s) (pb_measured s)
  (pb_sockets s) (pb_observers s) (pb_loaded s) (pb_remaining s) (pb_trace s).
Definition next_sequence s := mkProbing (pb_receiver s) (pb_arrivals s) (pb_cancelled s) (pb_sequence s + 1) (pb_measurements s) (pb_pending s)
  (pb_measured s) (pb_sockets s) (pb_observers s) (pb_loaded s) (pb_remaining s) (pb_trace s).
Definition set_pending_control v s := mkProbing (pb_receiver s) (pb_arrivals s) (pb_cancelled s) (pb_sequence s) (pb_measurements s) v (pb_measured s)
  (pb_sockets s) (pb_observers s) (pb_loaded s) (pb_remaining s) (pb_trace s).
Definition count_measurement step s := mkProbing (pb_receiver s) (pb_arrivals s) (pb_cancelled s) (pb_sequence s) (pb_measurements s + 1) (pb_pending s)
  ({[step]} ∪ pb_measured s) (pb_sockets s) (pb_observers s) (pb_loaded s) (pb_remaining s) (pb_trace s).
Definition add_socket v s := mkProbing (pb_receiver s) (pb_arrivals s) (pb_cancelled s) (pb_sequence s) (pb_measurements s) (pb_pending s)
  (pb_measured s) ({[v]} ∪ pb_sockets s) (pb_observers s) (pb_loaded s) (pb_remaining s) (pb_trace s).
Definition set_observers obs rest s := mkProbing (pb_receiver s) (pb_arrivals s) (pb_cancelled s) (pb_sequence s) (pb_measurements s) (pb_pending s)
  (pb_measured s) (pb_sockets s) obs true rest (pb_trace s).
Definition happened e s := mkProbing (pb_receiver s) (pb_arrivals s) (pb_cancelled s) (pb_sequence s) (pb_measurements s) (pb_pending s)
  (pb_measured s) (pb_sockets s) (pb_observers s) (pb_loaded s) (pb_remaining s) (pb_trace s ++ [e]).

(** Operations: a result or an error, the actions that are left, the state. *)
Definition env : Type := list action * probing.
Definition U (A : Type) : Type := env → (error + A) * env.
#[global] Instance U_ret : MRet U := λ A a x, (inr a, x).
#[global] Instance U_bind : MBind U := λ A B k m x, match m x with (inl e, x) => (inl e, x) | (inr a, x) => k a x end.
Definition throw_ {A} (e : error) : U A := λ x, (inl e, x).
Definition get_ : U probing := λ x, (inr x.2, x).
Definition modify_ (f : probing → probing) : U unit := λ x, (inr tt, (x.1, f x.2)).
Definition of_result {A} (r : result A) : U A := match r with Ok a => mret a | Err e => throw_ e | Panic => throw_ (errors_New "panic") end.
Definition ctx_error : error := errors_New "context deadline exceeded".

Section Attempt.
Context `{AEAD} (cfg : desired).
(** The operation, the keys, the endpoints, and what the runner knows: its
    loopback and that of the peer, the states of the Links, and the loopbacks it
    has routes to. *)
Context (opid remoteKey : list byte) (primary_ : AddrPort) (candidate_ : AddrPort)
  (own_loopback peer_loopback : Addr) (states_ : list materializedState) (reachable : list Addr).

(** ** The goroutine of a socket *)

(** The listener of [prepareUDP]; the other sockets' listeners ignore what
    arrives. *)
Definition on_probe (primary : bool) (packet : list byte) (told : option error) (v : Received) (s : probing) : probing :=
  if negb primary then s
  else if (1024 <=? len (pb_arrivals s)) then set_cancelled (happened (Heard packet v) s)
  else
    let s := set_arrivals (pb_arrivals s ++ [v]) (happened (Heard packet v) s) in
    let c := mkControl ProbeReport (rc_Round v) (rc_Sequence v) false (zeros 32) [rc_Seen v] in
    match Control_Encode c, told with
    | Ok _, None => happened (Told c) s
    | _, _ => set_cancelled s
    end.
Definition goroutine (a : action) (s : probing) : probing :=
  match a with
  | A_packet primary now packet seen told =>
    match Receiver_Open now packet seen (pb_receiver s) with
    | Ok (Some v, r) => on_probe primary packet told v (set_receiver r s)
    | Ok (None, r) => set_receiver r s
    | Err _ | Panic => s               (* never: [Receiver_Open_eq] *)
    end
  | _ => s
  end.
Fixpoint answered (l : list action) (s : probing) : option error * env :=
  match l with
  | [] => (None, ([], s))
  | A_call e :: l => (e, (l, s))
  | (A_packet _ _ _ _ _ as a) :: l => answered l (goroutine a s)
  | l => (None, (l, s))
  end.
Definition call_ : U unit := λ x, let '(e, x) := answered x.1 x.2 in (match e with Some e => inl e | None => inr tt end, x).

(** ** Control messages *)

Definition sendDiscovery (c : Control) : U unit := of_result (Control_Encode c);; call_;; modify_ (happened (Told c)).
Definition control_of (code : ControlCode) (round : Z) (changed : bool) (eps : list AddrPort) : Control := mkControl code round 0 changed (zeros 32) eps.

(** [wait]: the message that is taken, with the error. *)
Fixpoint wait_loop (code : ControlCode) (round : Z) (l : list action) (s : probing) : (Control * option error) * env :=
  let none := control_of DiscoveryEnd 0 false [] in
  match l with
  | [] => ((none, Some ctx_error), ([], s))
  | A_done :: l => ((none, Some ctx_error), (l, s))
  | A_inbox data :: l =>
    match DecodeControl data with
    | Ok c =>
      let s := happened (Got c) s in
      if bool_decide (Code c = DiscoveryEnd) then ((c, Some (errors_New "peer ended discovery")), (l, s))
      else if bool_decide (Code c = code) && (Round c =? round) then ((c, None), (l, s))
      else if bool_decide (Code c = ProbeReport) then wait_loop code round l s
      else ((c, Some (errors_New "unexpected discovery phase")), (l, s))
    | _ => wait_loop code round l s
    end
  | a :: l => wait_loop code round l (goroutine a s)
  end.
Definition wait (code : ControlCode) (round : Z) (x : env) : (Control * option error) * env :=
  match pb_pending x.2 with
  | Some c =>
    let x := (x.1, set_pending_control None x.2) in
    if bool_decide (Code c = code) && (Round c =? round) then ((c, None), x) else ((c, Some (errors_New "unexpected pending phase")), x)
  | None => wait_loop code round x.1 x.2
  end.
Definition refused (ep : AddrPort) : bool :=
  negb (candidateAllowed cfg ep) || negb (eqb (Is4 (AddrPort_Addr ep)) (Is4 (AddrPort_Addr primary_))).
Definition take_batch (round : Z) : U Batch := λ x,
  let '((c, err), x) := wait Candidates round x in
  if existsb refused (Control.Endpoints c) then (inl (errors_New "candidate policy or family rejected"), x)
  else match err with Some e => (inl e, x) | None => (inr (mkPeerBatch (Control.Endpoints c) (Control.Changed c)), x) end.
Definition udp_Exchange (round : Z) (b : Batch) : U Batch :=
  sendDiscovery (control_of Candidates round (PeerSearch.Changed b) (PeerSearch.Endpoints b));; take_batch round.
Definition take_path (round : Z) : U (list AddrPort) := λ x,
  let '((c, err), x) := wait RoundDone round x in
  match err with Some e => (inl e, x) | None => (inr (Control.Endpoints c), x) end.
Definition udp_Agree (round : Z) (path : list AddrPort) : U (list AddrPort) :=
  sendDiscovery (control_of RoundDone round false path);; take_path round.

(** ** Probing *)

(** Sealing and sending one packet from a socket; [Send] refuses another
    family. *)
Definition send_packet (local : AddrPort) (id key : list byte) (round : Z) (dst : AddrPort) : U Z :=
  modify_ next_sequence;;
  s ← get_;
  let seq := pb_sequence s in
  if MaxPackets <? seq then throw_ (errors_New "packet budget exhausted")
  else
    of_result (Seal id key seq round dst);;
    (if sendable local dst then call_ else throw_ (errors_New "probe destination family differs from local address"));;
    modify_ (happened (Sent local id key seq round dst));;
    mret seq.
Fixpoint send_round (round : Z) (eps : list AddrPort) (sent : gmap Z Measurement) : U (gmap Z Measurement) :=
  match eps with
  | [] => mret sent
  | ep :: eps =>
    seq ← send_packet primary_ opid remoteKey round ep;
    send_round round eps (<[seq := mkMeasurement primary_ ep]> sent)
  end.

(** A path: a probe that the peer saw from where one of its own arrived. *)
Definition ready (sent : gmap Z Measurement) (received : gmap Z AddrPort) (incoming : list Arrival) : bool :=
  existsb (λ x, match sent !! x.1 with
    | Some p => existsb (λ a, bool_decide (Destination a = x.2) && bool_decide (Source a = mRemote p)) incoming
    | None => false
    end) (map_to_list received).
(** A report has one endpoint ([DecodeControl]). *)
Definition reported (c : Control) : AddrPort := default AddrPort_zero (head (Control.Endpoints c)).
Definition window : Type := gmap Z AddrPort * list Arrival.
Fixpoint collect (round : Z) (sent : gmap Z Measurement) (stopOnPath : bool) (w : window) (l : list action) (s : probing) : (error + window) * env :=
  if stopOnPath && ready sent w.1 w.2 then (inr w, (l, s))
  else
    match l with
    | [] => (inl ctx_error, ([], s))
    | A_done :: l => (inl ctx_error, (l, s))
    | A_timer :: l => (inr w, (l, s))
    | A_arrival :: l =>
      match pb_arrivals s with
      | [] => collect round sent stopOnPath w l s
      | v :: rest =>
        let w := if rc_Round v =? round then (w.1, w.2 ++ [mkArrival (rc_Destination v) (rc_Seen v)]) else w in
        collect round sent stopOnPath w l (set_arrivals rest s)
      end
    | A_inbox data :: l =>
      match DecodeControl data with
      | Ok c =>
        let s := happened (Got c) s in
        if bool_decide (Code c = DiscoveryEnd) then (inl (errors_New "peer ended discovery"), (l, s))
        else if bool_decide (Code c = RoundDone) && (Round c =? round) then
          match pb_pending s with
          | Some _ => (inl (errors_New "duplicate round barrier"), (l, s))
          | None => collect round sent stopOnPath w l (set_pending_control (Some c) s)
          end
        else if negb (bool_decide (Code c = ProbeReport)) then (inl (errors_New "unexpected control during probes"), (l, s))
        else
          let w := if bool_decide (is_Some (sent !! Sequence c)) && (Round c =? round) then (<[Sequence c := reported c]> w.1, w.2) else w in
          collect round sent stopOnPath w l s
      | _ => collect round sent stopOnPath w l s
      end
    | a :: l => collect round sent stopOnPath w l (goroutine a s)
    end.
Definition collectRound (round : Z) (sent : gmap Z Measurement) (w : window) (stopOnPath : bool) : U window :=
  λ x, collect round sent stopOnPath w x.1 x.2.
Fixpoint try_loop (repeat : nat) (round : Z) (eps : list AddrPort) (sent : gmap Z Measurement) (w : window) : U (gmap Z Measurement * window) :=
  match repeat with
  | O => mret (sent, w)
  | S repeat =>
    sent ← send_round round eps sent;
    w ← collectRound round sent w false;
    try_loop repeat round eps sent w
  end.
Definition report_of (sent : gmap Z Measurement) (x : Z * AddrPort) : option Observation :=
  match sent !! x.1 with
  | Some p => let o := mkObservation (mLocal p) (mRemote p) x.2 in if Observation_Valid o then Some o else None
  | None => None
  end.
Definition normalizeReports (sent : gmap Z Measurement) (received : gmap Z AddrPort) : list Observation :=
  omap (report_of sent) (SortStableFunc (λ a b, a.1 - b.1) (map_to_list received)).
Definition udp_Try (round : Z) (eps : list AddrPort) : U (list Observation * list Arrival) :=
  '(sent, w) ← try_loop 5 round eps ∅ (∅, []);
  w ← (if bool_decide (sent = ∅) then mret w else collectRound round sent w true);
  mret (normalizeReports sent w.1, w.2).

(** ** Observers (dynamic_observe.go) *)

Definition add_target (bootstrap : bool) (acc : gset Addr * list observerTarget) (ip : Addr) : gset Addr * list observerTarget :=
  if bool_decide (ip ∈ acc.1) then acc else ({[ip]} ∪ acc.1, acc.2 ++ [mkObserverTarget ip bootstrap]).
Definition by_interface (a b : materializedState) : Z :=
  match string_compare (InterfaceName (ms_desired a)) (InterfaceName (ms_desired b)) with Lt => -1 | Eq => 0 | Gt => 1 end.
Definition observerTargets : list observerTarget :=
  let acc := foldl (λ acc st, if dynamic st then acc else foldl (add_target true) acc (ms_peers st))
    ({[own_loopback; peer_loopback]}, []) (SortStableFunc by_interface states_) in
  take 8 (foldl (add_target false) acc (SortStableFunc (λ a b, match Compare a b with Lt => -1 | Eq => 0 | Gt => 1 end) reachable)).2.

Fixpoint random_id (l : list action) (s : probing) : (error + list byte) * env :=
  match l with
  | [] => (inl ctx_error, ([], s))
  | A_random id :: l => (inr id, (l, s))
  | (A_packet _ _ _ _ _ as a) :: l => random_id l (goroutine a s)
  | l => (inl (errors_New "random"), (l, s))
  end.
Definition newOperationID : U (list byte) := λ x, random_id x.1 x.2.
Fixpoint await_session (l : list action) (s : probing) : (error + unit) * env :=
  match l with
  | [] => (inl ctx_error, ([], s))
  | A_ready :: l => (inr tt, (l, s))
  | A_timer :: l => (inl (errors_New "observer open timeout"), (l, s))
  | A_done :: l => (inl ctx_error, (l, s))
  | a :: l => await_session l (goroutine a s)
  end.
Fixpoint await_offer (l : list action) (s : probing) : (error + Control) * env :=
  match l with
  | [] => (inl ctx_error, ([], s))
  | A_report data :: l =>
    match DecodeControl data with
    | Ok c =>
      if negb (bool_decide (Code c = ObserveReady)) then (inl (errors_New "observer unavailable"), (l, s))
      else if existsb refused (Control.Endpoints c) then (inl (errors_New "observer candidate rejected"), (l, s))
      else (inr c, (l, s))
    | _ => await_offer l s
    end
  | A_timer :: l => (inl (errors_New "observer readiness timeout"), (l, s))
  | A_done :: l => (inl ctx_error, (l, s))
  | a :: l => await_offer l (goroutine a s)
  end.
Definition session_ready : U unit := λ x, await_session x.1 x.2.
Definition take_offer : U Control := λ x, await_offer x.1 x.2.
Definition openObserver (target : observerTarget) : U observerClient :=
  id ← newOperationID;
  call_;;                                                     (* dialTCP *)
  session_ready;;
  sendDiscovery (control_of ObserveOpen 0 false [candidate_]);;
  c ← take_offer;
  mret (mkObserverClient id (Control.Key c) (mkObserver (bootstrap target) (Control.Endpoints c))).

Definition localSocket (ep : AddrPort) : U AddrPort :=
  s ← get_;
  if bool_decide (ep ∈ pb_sockets s) then mret ep else call_;; modify_ (add_socket ep);; mret ep.

(** The two waits of [measure]: between packets, until the timer; and after the
    last, until a report. *)
Fixpoint measure_wait (last : bool) (sent : gset Z) (seen : gmap Z AddrPort) (l : list action) (s : probing) : (error + gmap Z AddrPort) * env :=
  if last && negb (bool_decide (seen = ∅)) then (inr seen, (l, s))
  else
    match l with
    | [] => (inl ctx_error, ([], s))
    | A_done :: l => (inl ctx_error, (l, s))
    | A_closed :: l => (inl (errors_New "observer closed"), (l, s))
    | A_timer :: l => (inr seen, (l, s))
    | A_report data :: l =>
      match DecodeControl data with
      | Ok c =>
        let s := happened (Reported c) s in
        if bool_decide (Code c = DiscoveryEnd) then (inl (errors_New "observer ended"), (l, s))
        else
          let seen := if bool_decide (Code c = ProbeReport) && (Round c =? 0) && bool_decide (Sequence c ∈ sent) then <[Sequence c := reported c]> seen else seen in
          measure_wait last sent seen l s
      | _ => measure_wait last sent seen l s
      end
    | a :: l => measure_wait last sent seen l (goroutine a s)
    end.
Definition measure_reports (last : bool) (sent : gset Z) (seen : gmap Z AddrPort) : U (gmap Z AddrPort) :=
  λ x, measure_wait last sent seen x.1 x.2.
Fixpoint measure_loop (repeat : nat) (o : observerClient) (socket : AddrPort) (step : Measurement) (sent : gset Z) (seen : gmap Z AddrPort) : U (gset Z * gmap Z AddrPort) :=
  match repeat with
  | O => mret (sent, seen)
  | S repeat =>
    seq ← send_packet socket (oc_id o) (oc_key o) 0 (mRemote step);
    seen ← measure_reports false ({[seq]} ∪ sent) seen;
    measure_loop repeat o socket step ({[seq]} ∪ sent) seen
  end.
Definition measure (o : observerClient) (socket : AddrPort) (step : Measurement) : U (list Observation) :=
  '(sent, seen) ← measure_loop 3 o socket step ∅ ∅;
  seen ← measure_reports true sent seen;
  mret (normalizeReports (set_to_map (λ seq, (seq, step)) sent) seen).

(** [if err != nil { if ctx.Err() != nil ... }]. *)
Definition attempted {A} (m : U A) : U (error + A) := λ x, let '(r, x) := m x in (inr r, x).
Definition ctx_ended (e : error) : U bool := λ x,
  if bool_decide (e = ctx_error) then (inr true, x)
  else match x.1 with A_done :: l => (inr true, (l, x.2)) | _ => (inr false, x) end.
Fixpoint measure_steps (o : observerClient) (steps : list Measurement) (found : list Observation) : U (list Observation) :=
  match steps with
  | [] => mret found
  | step :: steps =>
    s ← get_;
    if bool_decide (step ∈ pb_measured s) then measure_steps o steps found
    else
      modify_ (count_measurement step);;
      s ← get_;
      if 64 <? pb_measurements s then throw_ (errors_New "measurement budget exhausted")
      else
        socket ← attempted (localSocket (mLocal step));
        match socket with
        | inl _ => measure_steps o steps found                (* unavailable adjacent port *)
        | inr socket =>
          r ← attempted (measure o socket step);
          match r with
          | inl e => ended ← ctx_ended e; if ended : bool then throw_ ctx_error else measure_steps o steps found
          | inr more => measure_steps o steps (found ++ more)
          end
        end
  end.
Definition with_observer (o : observerClient) (input : SurveyInput) : SurveyInput :=
  mkSurvey (inLocal input) (inTarget input) (inPublicIPs input) [oc_offer o] (inBaseOnly input).
Definition measure_observer (input : SurveyInput) (samples : list Observation) (o : observerClient) : U (list Observation) :=
  measure_steps o (flat_map gSteps (Plan (Infer samples (with_observer o input)))) [].
(** The loop of [Observe]: the observers that are open, then the targets that
    are left. *)
Fixpoint observe_open (input : SurveyInput) (samples : list Observation) (os : list observerClient) : U (list Observation) :=
  match os with
  | [] => mret []
  | o :: os =>
    found ← measure_observer input samples o;
    match found with [] => observe_open input samples os | _ => mret found end
  end.
Fixpoint observe_rest (input : SurveyInput) (samples : list Observation) (rest : list observerTarget) : U (list Observation) :=
  match rest with
  | [] => mret []
  | target :: rest =>
    modify_ (λ s, set_observers (pb_observers s) rest s);;
    r ← attempted (openObserver target);
    match r with
    | inl e => ended ← ctx_ended e; if ended : bool then throw_ ctx_error else observe_rest input samples rest
    | inr o =>
      modify_ (λ s, set_observers (pb_observers s ++ [o]) (pb_remaining s) s);;
      found ← measure_observer input samples o;
      match found with [] => observe_rest input samples rest | _ => mret found end
    end
  end.
Definition udp_Observe (input : SurveyInput) (samples : list Observation) : U (list Observation) :=
  modify_ (λ s, if pb_loaded s then s else set_observers (pb_observers s) observerTargets s);;
  s ← get_;
  found ← observe_open input samples (pb_observers s);
  match found with [] => s ← get_; observe_rest input samples (pb_remaining s) | _ => mret found end.

(** ** The search of an attempt *)

Definition udp_network : PeerNetwork env := mkPeerNetwork _ udp_Exchange udp_Try udp_Agree udp_Observe.
Definition probe_limits : Limits :=
  mkLimits (30 * 1000000000) (Interval DefaultLimits) (lPackets DefaultLimits) (lMeasurements DefaultLimits) (lCandidates DefaultLimits)
    (lPairs DefaultLimits) (Repeats DefaultLimits) (MaxIterations DefaultLimits).
Context `{SortFunc} (remoteEndpoint_ : AddrPort).
Definition probe_peer : Peer := mkPeer primary_ remoteEndpoint_ [AddrPort_Addr candidate_] [] (Some 0%nat).
Definition runProbe (x : env) : (error + PeerResult) * env :=
  let '(out, err, _, x) := RunPeer udp_network probe_peer probe_limits [] x in
  match err with
  | Some e => (inl e, x)
  | None => if AddrPort_IsValid (pr_Endpoint out) then (inr out, x) else (inl (errors_New (pr_Reason out)), x)
  end.
End Attempt.

(** [prepareUDP]: the receiver, the source address towards the hint, and the
    primary socket, on the port of the plan. *)
Definition probing_zero (primary : AddrPort) (r : Receiver) : probing := mkProbing r [] false 0 0 None ∅ {[primary]} [] false [] [].
Definition prepareUDP (opid : list byte) (plan : LinkPlan) (hint : AddrPort) (now : Z) (random : result (list byte)) (probeSource : AddrPort → result Addr)
    (reserveProbe : AddrPort → result AddrPort) : result (AddrPort * probing) :=
  r ← NewReceiver opid (now + 30 * 1000000000) random;
  source ← probeSource hint;
  primary ← reserveProbe (AddrPortFrom source (ListenPort plan mod 65536));
  Ok (primary, probing_zero primary r).
