(* ===== verification/UdpProps.v ===== *)
(** What the search of an attempt owes to the wire: its packets have distinct
    numbers, and a path that it returns was allowed, probed and confirmed in both
    directions. *)

From S2P Require Import Prelude Netip Ports Desired Field MessageData Interfaces Durable Attempts Inference Search SearchProps PeerSearch Control Message Probe ProbeProps Udp.
From stdpp Require Import gmap strings.
Open Scope Z_scope.
Open Scope velvet_scope.

Definition sequences (t : list wire) : list Z := omap (λ e, match e with Sent _ _ _ seq _ _ => Some seq | _ => None end) t.
Definition heard (t : list wire) : list Received := omap (λ e, match e with Heard _ v => Some v | _ => None end) t.
Lemma sequences_app t u : sequences (t ++ u) = sequences t ++ sequences u.
Proof. apply omap_app. Qed.
Lemma heard_events_app t u : heard (t ++ u) = heard t ++ heard u.
Proof. apply omap_app. Qed.
Lemma heard_elem t v : v ∈ heard t → ∃ packet, Heard packet v ∈ t.
Proof. unfold heard. intros ([| packet x | | |] & He & [= <-])%list_elem_of_omap. by exists packet. Qed.

(** * A search over any network *)

Section Log.
Context `{SortFunc} {E : Type} (n : PeerNetwork E) (p : Peer) (limits : Limits).

(** Logging does not change what a search does. *)
Lemma round_logged round store count changed x log : let '(r, store', x') := RunPeer_round n p limits round store count changed x in
  ∃ log', RunPeer_round (peer_logged n) p limits round store count changed (x, log) = (r, store', (x', log')).
Proof using.
  unfold RunPeer_round. cbn [Exchange Try Agree Observe peer_logged]. unfold peer_record. cbn [fst snd].
  destruct (Exchange n _ _ x) as [[e|theirs] x1]; [by eexists|]. destruct (lCandidates limits <? _); [by eexists|]. destruct (_ && _); [by eexists|].
  cbn [fst snd]. destruct (Try n _ _ x1) as [[e|[obs arr]] x2]; [by eexists|]. destruct (add_all _ obs) as [store1 count1].
  cbn [fst snd]. destruct (Agree n _ _ x2) as [[e|other] x3]; [by eexists|]. destruct (agreed _ other); [destruct (reciprocal _ _ _) as [|a [|b [|]]]; by eexists|].
  destruct (len store1 =? len store); [|by eexists]. cbn [fst snd]. destruct (Observe n _ _ x3) as [[e|obs2] x4]; [by eexists|].
  destruct (add_all _ obs2) as [store2 count2]. by eexists.
Qed.
Lemma search_logged store x log : let '(out, err, store', x') := RunPeer n p limits store x in
  ∃ log', RunPeer (peer_logged n) p limits store (x, log) = (out, err, store', (x', log')).
Proof using.
  unfold RunPeer. destruct (negb _); [by eexists|]. generalize 1, 0, true. revert store x log. induction (Z.to_nat _) as [|fuel IH]; intros store x log round count changed;
    cbn [RunPeer_loop]; [by eexists|].
  pose proof (round_logged round store count changed x log) as R. destruct (RunPeer_round n p limits round store count changed x) as [[r store1] x1].
  destruct R as [log1 ->]. destruct r as [[out err]|[count1 changed1]]; [by eexists|]. apply IH.
Qed.

(** A search that does not connect has no endpoint. *)
Lemma round_undecided round store count changed x out err store' x' : RunPeer_round n p limits round store count changed x = (inl (out, err), store', x') →
  pr_Reason out = "connected"%string ∨ pr_Endpoint out = AddrPort_zero.
Proof using.
  unfold RunPeer_round. destruct (Exchange n _ _ x) as [[e|theirs] x1]; [intros [= <- _ _ _]; by right|]. destruct (lCandidates limits <? _); [intros [= <- _ _ _]; by right|].
  destruct (_ && _); [intros [= <- _ _ _]; by right|]. destruct (Try n _ _ x1) as [[e|[obs arr]] x2]; [intros [= <- _ _ _]; by right|].
  destruct (add_all _ obs) as [store1 count1]. destruct (Agree n _ _ x2) as [[e|other] x3]; [intros [= <- _ _ _]; by right|].
  destruct (agreed _ other); [destruct (reciprocal _ _ _) as [|a [|b [|]]]; intros [= <- _ _ _]; [by right|by right|by left|by right]|].
  destruct (len store1 =? len store); [|done]. destruct (Observe n _ _ x3) as [[e|obs2] x4]; [intros [= <- _ _ _]; by right|]. by destruct (add_all _ obs2).
Qed.
Lemma loop_undecided fuel round store count changed x out err store' x' : RunPeer_loop n p limits fuel round store count changed x = (out, err, store', x') →
  pr_Reason out = "connected"%string ∨ pr_Endpoint out = AddrPort_zero.
Proof using.
  revert round store count changed x. induction fuel as [|fuel IH]; intros round store count changed x; cbn [RunPeer_loop]; [intros [= <- _ _ _]; by right|].
  destruct (RunPeer_round n p limits round store count changed x) as [[r store1] x1] eqn:R. destruct r as [[o e]|[count1 changed1]]; [|by apply IH].
  intros [= <- _ _ _]. by eapply round_undecided.
Qed.
Lemma search_undecided store x out err store' x' : RunPeer n p limits store x = (out, err, store', x') →
  pr_Reason out = "connected"%string ∨ pr_Endpoint out = AddrPort_zero.
Proof using. unfold RunPeer. destruct (negb _); [intros [= <- _ _ _]; by right|]. apply loop_undecided. Qed.

(** What every call of the network keeps, a search keeps. *)
Context (I : E → list peer_event → Prop).
Record network_keeps : Prop := {
  nk_exchange r b x log : I x log → let '(res, x') := Exchange n r b x in I x' (log ++ [PExchange r b (ok res)]);
  nk_try r ours theirs x log : I x log → PExchange r ours (Some theirs) ∈ log →
    let '(res, x') := Try n r (PeerSearch.Endpoints theirs) x in I x' (log ++ [PTry r (PeerSearch.Endpoints theirs) (ok res)]);
  nk_agree r path x log : I x log → let '(res, x') := Agree n r path x in I x' (log ++ [PAgree r path (ok res)]);
  nk_observe i o x log : I x log → let '(res, x') := Observe n i o x in I x' (log ++ [PObserve (ok res)]) }.
Lemma round_keeps round store count changed x log r store' x' log' : network_keeps → I x log →
  RunPeer_round (peer_logged n) p limits round store count changed (x, log) = (r, store', (x', log')) → I x' log'.
Proof using.
  intros [KE KT KA KO] Hi. unfold RunPeer_round. cbn [Exchange Try Agree Observe peer_logged]. unfold peer_record. cbn [fst snd].
  set (ours := mkPeerBatch _ _). specialize (KE round ours x log Hi). destruct (Exchange n _ _ x) as [res x1]. cbv beta iota.
  destruct res as [e|theirs]; [by intros [= <- <- <- <-]|]. cbn [ok] in KE. set (log1 := log ++ _) in *.
  assert (Hin : PExchange round ours (Some theirs) ∈ log1) by (apply elem_of_app; right; by left).
  destruct (lCandidates limits <? _); [by intros [= <- <- <- <-]|]. destruct (_ && _); [by intros [= <- <- <- <-]|].
  cbn [fst snd]. specialize (KT round ours theirs x1 log1 KE Hin). destruct (Try n _ _ x1) as [tr x2]. cbv beta iota.
  destruct tr as [e|[obs arr]]; [by intros [= <- <- <- <-]|]. destruct (add_all _ obs) as [store1 count1].
  set (path := reciprocal _ _ _). cbn [fst snd]. specialize (KA round path x2 _ KT). destruct (Agree n _ _ x2) as [ag x3]. cbv beta iota.
  destruct ag as [e|other]; [by intros [= <- <- <- <-]|]. destruct (agreed _ other); [destruct path as [|a [|b [|]]]; by intros [= <- <- <- <-]|].
  destruct (len store1 =? len store); [|by intros [= <- <- <- <-]].
  cbn [fst snd]. specialize (KO (peer_input p) store1 x3 _ KA). destruct (Observe n _ _ x3) as [ob x4]. cbv beta iota.
  destruct ob as [e|obs2]; [by intros [= <- <- <- <-]|]. destruct (add_all _ obs2) as [store2 count2]. by intros [= <- <- <- <-].
Qed.
Lemma search_keeps store x log out err store' x' log' : network_keeps → I x log →
  RunPeer (peer_logged n) p limits store (x, log) = (out, err, store', (x', log')) → I x' log'.
Proof using.
  intros K. unfold RunPeer. destruct (negb _); [by intros Hi [= <- <- <- <- <-]|]. generalize 1, 0, true. revert store x log.
  induction (Z.to_nat _) as [|fuel IH]; intros store x log round count changed Hi; cbn [RunPeer_loop]; [by intros [= <- <- <- <- <-]|].
  destruct (RunPeer_round _ _ _ _ _ _ _ _) as [[r store1] [x1 log1]] eqn:R. pose proof (round_keeps _ _ _ _ _ _ _ _ _ _ K Hi R) as H1.
  destruct r as [[o e]|[count1 changed1]]; [by intros [= <- <- <- <- <-]|]. by apply IH.
Qed.
End Log.

Section Probing.
Context `{AEADLaws} (opid key : list byte) (Hid : length opid = 16%nat).

Record good (s : probing) : Prop := {
  g_receiver : rv_ID (pb_receiver s) = opid ∧ rv_Key (pb_receiver s) = key;
  g_heard : ∀ packet v, Heard packet v ∈ pb_trace s →
    Seal opid key (rc_Sequence v) (rc_Round v) (rc_Destination v) = Ok packet ∧ rc_Sequence v ∈ rv_seen (pb_receiver s);
  g_once : NoDup (map rc_Sequence (heard (pb_trace s)));
  g_arrivals : ∀ v, v ∈ pb_arrivals s → ∃ packet, Heard packet v ∈ pb_trace s;
  g_numbers : NoDup (sequences (pb_trace s)) ∧ 0 <= pb_sequence s ∧ ∀ q, q ∈ sequences (pb_trace s) → 1 <= q <= MaxPackets ∧ q <= pb_sequence s;
  g_pending : ∀ c, pb_pending s = Some c → Got c ∈ pb_trace s }.

(** A step that keeps the numbers, and one that may send. *)
Definition grows (s s' : probing) : Prop := good s' ∧ pb_trace s `prefix_of` pb_trace s'.
Definition listens (s s' : probing) : Prop :=
  grows s s' ∧ pb_sequence s' = pb_sequence s ∧ sequences (pb_trace s') = sequences (pb_trace s).
Lemma trace_grows_trans s1 s2 s3 : grows s1 s2 → grows s2 s3 → grows s1 s3.
Proof using. intros [_ P1] [G P2]. split; [done|by etrans]. Qed.
Lemma listens_trans s1 s2 s3 : listens s1 s2 → listens s2 s3 → listens s1 s3.
Proof using. intros (G1 & E1 & F1) (G2 & E2 & F2). split_and!; [by eapply trace_grows_trans|congruence|congruence]. Qed.
Lemma listens_refl s : good s → listens s s.
Proof using. intros G. by split_and!. Qed.

(** Events other than packets. *)
Definition quiet (e : wire) : Prop := match e with Sent _ _ _ _ _ _ | Heard _ _ => False | _ => True end.
Lemma elem_of_snoc {A} (x y : A) l : x ∈ l ++ [y] ↔ x ∈ l ∨ x = y.
Proof using. by rewrite elem_of_app, list_elem_of_singleton. Qed.
Lemma happened_listens e s : good s → quiet e → listens s (happened e s).
Proof using.
  intros [G1 G2 G3 G4 G5 G6] Q. assert (Hs : sequences (pb_trace (happened e s)) = sequences (pb_trace s)).
  { cbn [happened pb_trace]. rewrite sequences_app. destruct e; try done; by rewrite app_nil_r. }
  split_and!; [split; [split|by eexists]|done|done]; cbn [happened pb_receiver pb_trace pb_arrivals pb_sequence pb_pending] in *.
  - done.
  - intros packet v [Hv|Ev]%elem_of_snoc; [by apply G2|by subst e].
  - rewrite heard_events_app. destruct e; try done; by rewrite app_nil_r.
  - intros v Hv. destruct (G4 v Hv) as [packet Hp]. exists packet. apply elem_of_snoc. by left.
  - by rewrite Hs.
  - intros c Hc. apply elem_of_snoc. left. by apply G6.
Qed.
(** Changes of fields that the account does not read. *)
Lemma field_listens s s' : good s → pb_receiver s' = pb_receiver s → (∀ v, v ∈ pb_arrivals s' → v ∈ pb_arrivals s) → pb_sequence s' = pb_sequence s →
  (∀ c, pb_pending s' = Some c → Got c ∈ pb_trace s) → pb_trace s' = pb_trace s → listens s s'.
Proof using.
  intros [G1 G2 G3 G4 G5 G6] E1 E2 E3 E4 E5. split_and!; [split; [split|by rewrite E5]|done|by rewrite E5]; rewrite ?E1, ?E3, ?E5; try done.
  intros v Hv. apply G4. by apply E2.
Qed.
Lemma goroutine_listens a s : good s → listens s (goroutine a s).
Proof using Hid H0.
  intros G. destruct a as [primary now packet seen told| | | | | | | | |]; cbn [goroutine]; try by apply listens_refl.
  pose proof G as [[G1 G1'] G2 G3 G4 G5 G6].
  assert (L : length (rv_ID (pb_receiver s)) = 16%nat) by by rewrite G1.
  pose proof (Open_delivered now packet seen (pb_receiver s) L) as Op. rewrite Receiver_Open_eq. destruct (opens _ _ _ _) as [[v|] r].
  2: { subst r. apply field_listens; done || (intros c Hc; by apply G6). }
  destruct Op as [[Sl _ _ Fr _] ->]. rewrite G1, G1' in Sl.
  assert (K : good (set_receiver (mark v (pb_receiver s)) s)).
  { split; cbn [set_receiver pb_receiver mark rv_ID rv_Key rv_seen pb_trace pb_arrivals pb_sequence pb_pending]; try done.
    intros p x Hx. destruct (G2 p x Hx) as [? Hs]. split; [done|]. apply elem_of_union. by right. }
  assert (LK : listens s (set_receiver (mark v (pb_receiver s)) s)) by by split_and!.
  set (s1 := set_receiver _ s) in *. unfold on_probe. destruct primary; cbn [negb]; [|done].
  assert (K2 : good (happened (Heard packet v) s1)).
  { split; cbn [happened pb_receiver pb_trace pb_arrivals pb_sequence pb_pending s1 set_receiver mark rv_ID rv_Key rv_seen]; try done.
    - intros p x [Hx|[= -> ->]]%elem_of_snoc; [by apply K|]. split; [done|]. apply elem_of_union. left. by apply elem_of_singleton.
    - rewrite heard_events_app, map_app. apply NoDup_app. split_and!; [done| |apply NoDup_singleton]. intros q (x & -> & Hx)%list_elem_of_fmap Hq.
      apply list_elem_of_singleton in Hq. apply heard_elem in Hx as [p Hp]. apply Fr. rewrite <- Hq. by apply (G2 p x).
    - intros x Hx. destruct (G4 x Hx) as [p Hp]. exists p. apply elem_of_snoc. by left.
    - rewrite sequences_app, app_nil_r. done.
    - intros c Hc. apply elem_of_snoc. left. by apply G6. }
  assert (L2 : listens s (happened (Heard packet v) s1)).
  { split_and!; [split; [done|by eexists]|done|]. cbn. by rewrite sequences_app, app_nil_r. }
  destruct (1024 <=? len (pb_arrivals s1)).
  { eapply listens_trans; [exact L2|]. apply field_listens; try done. intros c Hc. by apply K2. }
  set (s2 := set_arrivals _ _).
  assert (K3 : good s2).
  { destruct K2. split; try done. cbn. intros x [Hx|Ex]%elem_of_snoc; [by apply g_arrivals0|]. subst x. exists packet. cbn. apply elem_of_snoc. by right. }
  assert (L3 : listens s s2) by (eapply listens_trans; [exact L2|]; by split_and!).
  destruct (Control_Encode _) as [b|e|]; [destruct told|..];
    try (eapply listens_trans; [exact L3|]; apply field_listens; try done; intros c Hc; by apply K3).
  eapply listens_trans; [exact L3|]. by apply happened_listens.
Qed.
Lemma answered_listens l s : good s → let '(_, (_, s')) := answered l s in listens s s'.
Proof using Hid H0.
  revert s. induction l as [|a l IH]; intros s G; cbn [answered]; [by apply listens_refl|].
  destruct a; try by apply listens_refl.
  pose proof (goroutine_listens (A_packet primary now packet seen told) s G) as L. specialize (IH _ (proj1 (proj1 L))).
  destruct (answered l _) as [e [l' s']]. by eapply listens_trans.
Qed.

(** ** Triples: [P] and [Q] speak of what happened *)

Definition does {A} (P : list wire → Prop) (m : U A) (Q : A → list wire → Prop) : Prop :=
  ∀ l s, good s → P (pb_trace s) → let '(r, (_, s')) := m (l, s) in grows s s' ∧ ∀ a, r = inr a → Q a (pb_trace s').
Definition anytime : list wire → Prop := λ _, True.
Definition lasting (F : list wire → Prop) : Prop := ∀ t u, F t → t `prefix_of` u → F u.
Lemma does_ret {A} (P : list wire → Prop) (a : A) (Q : A → list wire → Prop) : (∀ t, P t → Q a t) → does P (mret a) Q.
Proof using. intros X l s G Hp. cbn. split; [by split|]. intros b [= <-]. by apply X. Qed.
Lemma does_throw {A} P e (Q : A → list wire → Prop) : does P (throw_ e) Q.
Proof using. intros l s G _. cbn. by split. Qed.
Lemma does_bind {A B} P (m : U A) Q (k : A → U B) R : does P m Q → (∀ a, does (Q a) (k a) R) → does P (m ≫= k) R.
Proof using.
  intros Dm Dk l s G Hp. unfold mbind, U_bind. specialize (Dm l s G Hp). destruct (m (l, s)) as [[e|a] [l1 s1]]; destruct Dm as [Gr Qa].
  - split; [done|]. by intros b [= ].
  - specialize (Dk a l1 s1 (proj1 Gr) (Qa a eq_refl)). destruct (k a (l1, s1)) as [r [l2 s2]]. destruct Dk as [Gr2 R2].
    split; [by eapply trace_grows_trans|done].
Qed.
Lemma does_weaken {A} (P P' : list wire → Prop) (m : U A) (Q Q' : A → list wire → Prop) :
  does P' m Q' → (∀ t, P t → P' t) → (∀ a t, Q' a t → Q a t) → does P m Q.
Proof using. intros D X Y l s G Hp. specialize (D l s G (X _ Hp)). destruct (m (l, s)) as [r [l' s']]. destruct D as [? D]. split; [done|]. intros a E. by apply Y, D. Qed.
Lemma does_frame {A} P (m : U A) Q F : lasting F → does P m Q → does (λ t, P t ∧ F t) m (λ a t, Q a t ∧ F t).
Proof using.
  intros Lf D l s G [Hp Hf]. specialize (D l s G Hp). destruct (m (l, s)) as [r [l' s']]. destruct D as [Gr D].
  split; [done|]. intros a E. split; [by apply D|]. apply (Lf _ _ Hf). apply Gr.
Qed.
(** What comes next, with a fact that lasts. *)
Lemma does_then {A B} P (m : U A) Q (k : A → U B) R : lasting P → does anytime m Q → (∀ a, does (λ t, Q a t ∧ P t) (k a) R) → does P (m ≫= k) R.
Proof using.
  intros Lp Dm Dk. eapply does_bind; [|exact Dk]. eapply does_weaken; [exact (does_frame _ _ _ _ Lp Dm)|by intros|done].
Qed.
Lemma does_listens {A} (m : U A) : (∀ l s, good s → let '(_, (_, s')) := m (l, s) in listens s s') → does anytime m (λ _ _, True).
Proof using. intros X l s G _. specialize (X l s G). destruct (m (l, s)) as [r [l' s']]. split; [apply X|done]. Qed.
Lemma does_get P : does P get_ (λ _ _, True).
Proof using. intros l s G _. cbn. by split. Qed.
Lemma does_modify (f : probing → probing) : (∀ s, good s → listens s (f s)) → does anytime (modify_ f) (λ _ _, True).
Proof using. intros X. apply does_listens. intros l s G. by apply X. Qed.
Lemma does_of_result {A} P (r : result A) : does P (of_result r) (λ a _, r = Ok a).
Proof using. destruct r; [|apply does_throw..]. by apply does_ret. Qed.
Lemma does_call : does anytime call_ (λ _ _, True).
Proof using Hid H0.
  apply does_listens. intros l s G. unfold call_. cbn. pose proof (answered_listens l s G) as L. destruct (answered l s) as [e [l' s']]. done.
Qed.
Lemma lasting_any : lasting anytime.
Proof using. by intros t u. Qed.
Lemma lasting_in e : lasting (λ t, e ∈ t).
Proof using. intros t u Ht [v ->]. apply elem_of_app. by left. Qed.
Lemma lasting_and F G : lasting F → lasting G → lasting (λ t, F t ∧ G t).
Proof using. intros X Y t u [A B] P. split; [by eapply X|by eapply Y]. Qed.
Lemma lasting_all {X} (F : X → list wire → Prop) : (∀ x, lasting (F x)) → lasting (λ t, ∀ x, F x t).
Proof using. intros L t u Ht P x. by eapply L. Qed.
Lemma lasting_ex {X} (F : X → list wire → Prop) : (∀ x, lasting (F x)) → lasting (λ t, ∃ x, F x t).
Proof using. intros L t u [x Hx] P. exists x. by eapply L. Qed.
Lemma lasting_imp (P : Prop) F : lasting F → lasting (λ t, P → F t).
Proof using. intros L t u Ht Pr p. eapply L; [by apply Ht|done]. Qed.
Lemma lasting_pure (P : Prop) : lasting (λ _, P).
Proof using. by intros t u. Qed.
Lemma does_send c : does anytime (sendDiscovery c) (λ _ _, True).
Proof using Hid H0.
  unfold sendDiscovery. eapply does_bind; [apply does_of_result|]. intros b. apply (does_weaken _ anytime _ _ (λ _ _, True)); [|done|done].
  eapply does_bind; [apply does_call|]. intros _u. apply (does_modify (happened (Told c))). intros s G. by apply happened_listens.
Qed.

(** ** Control messages *)

Lemma pending_listens s : good s → listens s (set_pending_control None s).
Proof using. intros G. by apply field_listens. Qed.
Lemma wait_loop_ok code round l s : good s → let '((c, err), (_, s')) := wait_loop code round l s in
  listens s s' ∧ (err = None → Code c = code ∧ Round c = round ∧ Got c ∈ pb_trace s').
Proof using Hid H0.
  revert s. induction l as [|a l IH]; intros s G; cbn [wait_loop]; [split; [by apply listens_refl|done]|].
  assert (Go : let '((c, err), (_, s')) := wait_loop code round l (goroutine a s) in
    listens s s' ∧ (err = None → Code c = code ∧ Round c = round ∧ Got c ∈ pb_trace s')).
  { pose proof (goroutine_listens a s G) as L. specialize (IH _ (proj1 (proj1 L))). destruct (wait_loop code round l _) as [[c err] [l' s']].
    destruct IH as [L' W]. split; [by eapply listens_trans|done]. }
  destruct a; try exact Go; [split; [by apply listens_refl|done]|]. destruct (DecodeControl data) as [c|e|]; [|by apply IH..].
  pose proof (happened_listens (Got c) s G I) as L. assert (Hin : Got c ∈ pb_trace (happened (Got c) s)) by (cbn; apply elem_of_snoc; by right).
  case_bool_decide; [by split|]. destruct (_ && _) eqn:M; [split; [done|]; intros _; bool_to_prop; by split_and!|].
  destruct (bool_decide (Code c = ProbeReport)); [|by split]. specialize (IH _ (proj1 (proj1 L))). destruct (wait_loop code round l _) as [[c' err] [l' s']].
  destruct IH as [L' W]. split; [by eapply listens_trans|done].
Qed.
Lemma wait_ok code round l s : good s → let '((c, err), (_, s')) := wait code round (l, s) in
  listens s s' ∧ (err = None → Code c = code ∧ Round c = round ∧ Got c ∈ pb_trace s').
Proof using Hid H0.
  intros G. unfold wait. cbn [fst snd]. destruct (pb_pending s) as [c|] eqn:Pd; [|by apply wait_loop_ok].
  pose proof (pending_listens s G) as L. destruct (_ && _) eqn:M; (split; [done|]); [|done]. intros _. bool_to_prop.
  split_and!; [done|done|]. by apply (g_pending s G).
Qed.
Section Config.
Context (cfg : desired) (primary_ : AddrPort).
Notation refused := (refused cfg primary_).
Definition allowed (eps : list AddrPort) : Prop := ∀ ep, ep ∈ eps → refused ep = false.
Lemma refused_none eps : existsb refused eps = false → allowed eps.
Proof using.
  intros X ep Hep. destruct (refused ep) eqn:R; [|done]. rewrite <- X. symmetry. apply existsb_exists. exists ep. split; [by apply list_elem_of_In|done].
Qed.
Lemma take_batch_ok round : does anytime (take_batch cfg primary_ round) (λ b _, allowed (PeerSearch.Endpoints b)).
Proof using Hid H0.
  intros l s G _. unfold take_batch. pose proof (wait_ok Candidates round l s G) as W. destruct (wait _ _ _) as [[c err] [l' s']]. destruct W as [L W].
  destruct (existsb _ _) eqn:R; [split; [apply L|done]|]. destruct err as [e|]; (split; [apply L|]); [done|]. intros b [= <-]. by apply refused_none.
Qed.
Lemma Exchange_ok round b : does anytime (udp_Exchange cfg primary_ round b) (λ b _, allowed (PeerSearch.Endpoints b)).
Proof using Hid H0.
  unfold udp_Exchange. eapply does_bind; [apply does_send|]. intros _u. eapply does_weaken; [apply take_batch_ok|done|done].
Qed.
(** The other side's word in a round. *)
Definition agreed_on (round : Z) (path : list AddrPort) (t : list wire) : Prop :=
  ∃ c, Got c ∈ t ∧ Code c = RoundDone ∧ Round c = round ∧ Control.Endpoints c = path.
Lemma Agree_ok round path : does anytime (udp_Agree round path) (agreed_on round).
Proof using Hid H0.
  unfold udp_Agree. eapply does_bind; [apply does_send|]. intros _u l s G _. unfold take_path.
  pose proof (wait_ok RoundDone round l s G) as W. destruct (wait _ _ _) as [[c err] [l' s']]. destruct W as [L W].
  destruct err as [e|]; (split; [apply L|]); [done|]. intros p [= <-]. destruct (W eq_refl) as (? & ? & ?). by exists c.
Qed.
End Config.

(** ** Packets *)

Lemma send_packet_ok local id k round dst : does anytime (send_packet local id k round dst) (λ seq t, Sent local id k seq round dst ∈ t).
Proof using Hid H0.
  intros l s G _. unfold send_packet. unfold mbind at 1 2, U_bind. cbn [modify_ get_ fst snd]. set (s1 := next_sequence s).
  assert (G1 : good s1).
  { destruct G as [G1 G2 G3 G4 (N1 & N2 & N3) G6]. split; try done. split_and!; [done|cbn; lia|]. intros q Hq. cbn in *. destruct (N3 q Hq). lia. }
  assert (Gr : grows s s1) by by split.
  destruct (MaxPackets <? pb_sequence s1) eqn:B; [by split|]. apply Z.ltb_ge in B.
  destruct (Seal id k (pb_sequence s1) round dst) as [f|e|]; [|by split..]. unfold mbind at 1, U_bind. cbn [of_result mret U_ret].
  destruct (sendable local dst); [|by split]. unfold mbind at 1, U_bind, call_. cbn [fst snd].
  pose proof (answered_listens l s1 G1) as A. destruct (answered l s1) as [e [l2 s2]]. destruct A as ([G2 P2] & Sq & Ss).
  destruct e as [e|]; [split; [by eapply trace_grows_trans|done]|]. unfold mbind at 1, U_bind. cbn [modify_ fst snd mret U_ret].
  set (q := pb_sequence s1) in *. set (ev := Sent local id k q round dst).
  assert (G3 : good (happened ev s2)).
  { destruct G2 as [K1 K2 K3 K4 (N1 & N2 & N3) K6]. split; cbn [happened pb_receiver pb_trace pb_arrivals pb_sequence pb_pending].
    - done.
    - intros p v [Hv|Ev]%elem_of_snoc; [by apply K2|done].
    - by rewrite heard_events_app, app_nil_r.
    - intros v Hv. destruct (K4 v Hv) as [p Hp]. exists p. apply elem_of_snoc. by left.
    - rewrite sequences_app. change (sequences [ev]) with [q]. rewrite Ss. pose proof (g_numbers s G) as (M1 & M2 & M3). split_and!; [|done|].
      + apply NoDup_app. split_and!; [done| |apply NoDup_singleton]. intros x Hx Hq. apply list_elem_of_singleton in Hq as ->.
        destruct (M3 q Hx). unfold q, s1 in *. cbn in *. lia.
      + intros x [Hx| ->]%elem_of_snoc; [destruct (M3 x Hx); unfold q, s1 in *; cbn in *; lia|]. unfold q, s1 in *. cbn in *. lia.
    - intros c Hc. apply elem_of_snoc. left. by apply K6. }
  split.
  - split; [done|]. etrans; [apply Gr|]. etrans; [exact P2|]. by eexists.
  - intros a [= <-]. cbn. apply elem_of_snoc. by right.
Qed.

(** ** A round of probes *)

Lemma report_single data c : DecodeControl data = Ok c → Code c = ProbeReport → Control.Endpoints c = [reported c].
Proof using.
  clear. intros D E. rewrite DecodeControl_eq in D; cbv zeta in D. destruct (_ || _ || _) in D; [done|]. inv_ok. destruct x as [eps rest]. destruct (negb (len rest =? 0)); [done|].
  destruct (negb (validControl _)) eqn:V; [done|]. injection D as <-. apply negb_false_iff in V. unfold validControl in V. cbn [Code Control.Endpoints] in *.
  rewrite E in V. cbn in V. bool_to_prop. unfold reported. cbn. destruct eps as [|ep [|]]; unfold len in *; cbn in *; done || lia.
Qed.
Section Round.
Context (cfg : desired) (remoteKey : list byte) (primary_ : AddrPort) (round : Z).
Definition sent_ok (eps : list AddrPort) (sent : gmap Z Measurement) (t : list wire) : Prop := ∀ seq p, sent !! seq = Some p →
  mLocal p = primary_ ∧ mRemote p ∈ eps ∧ Sent primary_ opid remoteKey seq round (mRemote p) ∈ t.
Lemma lasting_sent eps sent : lasting (sent_ok eps sent).
Proof using. intros t u S P seq p Hp. destruct (S seq p Hp) as (? & ? & Hs). split_and!; [done|done|]. by eapply lasting_in. Qed.
Lemma send_round_ok eps all_ sent : eps ⊆ all_ → does (sent_ok all_ sent) (send_round opid remoteKey primary_ round eps sent) (λ sent t, sent_ok all_ sent t).
Proof using Hid H0.
  revert sent. induction eps as [|ep eps IH]; intros sent Sub; cbn [send_round]; [by apply does_ret|].
  apply (does_then _ _ (λ seq t, Sent primary_ opid remoteKey seq round ep ∈ t)); [apply lasting_sent|apply send_packet_ok|].
  intros seq. eapply does_weaken; [apply (IH (<[seq := mkMeasurement primary_ ep]> sent))|..]; [|intros t [Hs Ho]|done].
  - intros x Hx. apply Sub. by right.
  - intros q p [[<- <-]|[_ E]]%lookup_insert_Some; [split_and!; [done|apply Sub; by left|done]|by apply Ho].
Qed.
(** What the windows recorded. *)
Definition was_reported (seq : Z) (ep : AddrPort) (t : list wire) : Prop :=
  ∃ c, Got c ∈ t ∧ Code c = ProbeReport ∧ Round c = round ∧ Sequence c = seq ∧ Control.Endpoints c = [ep].
Definition was_heard (a : Arrival) (t : list wire) : Prop :=
  ∃ packet v, Heard packet v ∈ t ∧ rc_Round v = round ∧ Destination a = rc_Destination v ∧ Source a = rc_Seen v.
Definition window_ok (w : window) (t : list wire) : Prop :=
  (∀ seq ep, w.1 !! seq = Some ep → was_reported seq ep t) ∧ ∀ a, a ∈ w.2 → was_heard a t.
Lemma lasting_reported seq ep : lasting (was_reported seq ep).
Proof using. intros t u (c & Hc & X) P. exists c. split; [by eapply lasting_in|done]. Qed.
Lemma lasting_heard a : lasting (was_heard a).
Proof using. intros t u (p & v & Hv & X) P. exists p, v. split; [by eapply lasting_in|done]. Qed.
Lemma lasting_window w : lasting (window_ok w).
Proof using.
  intros t u [A B] P. split; [intros seq ep E; eapply lasting_reported; [by apply A|done]|intros a Ha; eapply lasting_heard; [by apply B|done]].
Qed.
Lemma collect_ok sent stop w l s : good s → window_ok w (pb_trace s) →
  let '(r, (_, s')) := collect round sent stop w l s in listens s s' ∧ ∀ w', r = inr w' → window_ok w' (pb_trace s').
Proof using Hid H0.
  revert w s. induction l as [|a l IH]; intros w s G W; cbn [collect]; (destruct (stop && _); [split; [by apply listens_refl|by intros w' [= <-]]|]).
  { split; [by apply listens_refl|done]. }
  assert (K : ∀ s1 w1, listens s s1 → window_ok w1 (pb_trace s1) → let '(r, (_, s')) := collect round sent stop w1 l s1 in
    listens s s' ∧ ∀ w', r = inr w' → window_ok w' (pb_trace s')).
  { intros s1 w1 L W1. specialize (IH w1 s1 (proj1 (proj1 L)) W1). destruct (collect round sent stop w1 l s1) as [r [l' s']].
    destruct IH as [L' X]. split; [by eapply listens_trans|done]. }
  assert (Go : let '(r, (_, s')) := collect round sent stop w l (goroutine a s) in listens s s' ∧ ∀ w', r = inr w' → window_ok w' (pb_trace s')).
  { pose proof (goroutine_listens a s G) as L. apply K; [done|]. eapply lasting_window; [exact W|apply L]. }
  destruct a; try exact Go.
  - split; [by apply listens_refl|done].
  - split; [by apply listens_refl|by intros w' [= <-]].
  - destruct (pb_arrivals s) as [|v rest] eqn:Ea; [by apply K; [apply listens_refl|]|]. destruct (g_arrivals s G v) as [packet Hp]; [rewrite Ea; by left|].
    apply K; [apply field_listens; try done|].
    + intros x Hx. rewrite Ea. by right.
    + intros c Hc. by apply (g_pending s G).
    + destruct (rc_Round v =? round) eqn:Er; [|done]. apply Z.eqb_eq in Er. split; [apply W|].
      intros x [Hx|Ex]%elem_of_snoc; [by apply W|]. subst x. exists packet, v. by split_and!.
  - destruct (DecodeControl data) as [c|e|] eqn:Dc; [|by apply K; [apply listens_refl|]..].
    pose proof (happened_listens (Got c) s G I) as L. assert (Hin : Got c ∈ pb_trace (happened (Got c) s)) by (cbn; apply elem_of_snoc; by right).
    assert (W1 : window_ok w (pb_trace (happened (Got c) s))) by (eapply lasting_window; [exact W|apply L]).
    destruct (bool_decide (Code c = DiscoveryEnd)); [by split|]. destruct (bool_decide (Code c = RoundDone) && _).
    { destruct (pb_pending (happened (Got c) s)); [by split|]. apply K; [|done].
      eapply listens_trans; [exact L|]. apply field_listens; try done; [apply L|]. by intros c' [= <-]. }
    destruct (bool_decide (Code c = ProbeReport)) eqn:Cr; cbn [negb]; [|by split]. apply bool_decide_eq_true in Cr.
    apply K; [done|]. destruct (bool_decide _ && _) eqn:M; [|done]. bool_to_prop. split; [|apply W1].
    cbn [fst]. intros seq ep [[<- <-]|[_ E]]%lookup_insert_Some; [|by apply W1]. exists c. split_and!; try done. by apply (report_single data).
Qed.
Lemma collectRound_ok sent w stop : does (window_ok w) (collectRound round sent w stop) window_ok.
Proof using Hid H0.
  intros l s G W. unfold collectRound. cbn [fst snd]. pose proof (collect_ok sent stop w l s G W) as C.
  destruct (collect round sent stop w l s) as [r [l' s']]. split; [apply C|]. intros a Ea. by apply C.
Qed.
Lemma try_loop_ok n eps sent w : does (λ t, sent_ok eps sent t ∧ window_ok w t) (try_loop opid remoteKey primary_ n round eps sent w)
  (λ x t, sent_ok eps x.1 t ∧ window_ok x.2 t).
Proof using Hid H0.
  revert sent w. induction n as [|n IH]; intros sent w; cbn [try_loop]; [by apply does_ret|].
  eapply does_bind; [exact (does_frame _ _ _ _ (lasting_window w) (send_round_ok eps eps sent (reflexivity _)))|]. intros sent1.
  eapply does_bind; [|intros w1; apply IH].
  eapply does_weaken; [exact (does_frame _ _ _ _ (lasting_sent eps sent1) (collectRound_ok sent1 w false))|by intros t [? ?]|by intros a t [? ?]].
Qed.

(** ** The observations and arrivals of [Try] *)

Lemma reports_member sent received o : o ∈ normalizeReports sent received →
  ∃ seq p, received !! seq = Some (oSeen o) ∧ sent !! seq = Some p ∧ oLocal o = mLocal p ∧ oRemote o = mRemote p ∧ Observation_Valid o = true.
Proof using.
  unfold normalizeReports. intros ([seq ep] & Hx & Ho)%list_elem_of_omap. rewrite SortStableFunc_perm in Hx. apply elem_of_map_to_list in Hx.
  unfold report_of in Ho. cbn in Ho. destruct (sent !! seq) as [p|] eqn:E; [|done]. destruct (Observation_Valid _) eqn:V; [|done].
  injection Ho as <-. by exists seq, p.
Qed.
Definition was_observed (eps : list AddrPort) (o : Observation) (t : list wire) : Prop :=
  oLocal o = primary_ ∧ oRemote o ∈ eps ∧ ∃ seq, Sent primary_ opid remoteKey seq round (oRemote o) ∈ t ∧ was_reported seq (oSeen o) t.
Lemma Try_ok eps : does anytime (udp_Try opid remoteKey primary_ round eps)
  (λ x t, (∀ o, o ∈ x.1 → was_observed eps o t) ∧ ∀ a, a ∈ x.2 → was_heard a t).
Proof using Hid H0.
  unfold udp_Try. eapply does_bind.
  { eapply does_weaken; [apply (try_loop_ok 5 eps ∅ (∅, []))| |done]. intros t _. split; [by intros q p Hp|split; [by intros q p Hp|by intros a []%not_elem_of_nil]]. }
  intros [sent w]. cbn [fst snd]. eapply does_bind.
  { instantiate (1 := λ w t, window_ok w t ∧ sent_ok eps sent t). case_bool_decide; [by apply does_ret; intros t [? ?]|].
    eapply does_weaken; [exact (does_frame _ _ _ _ (lasting_sent eps sent) (collectRound_ok sent w true))|by intros t [? ?]|done]. }
  intros [received incoming]. apply does_ret. intros t [[Wr Wi] Ws]. cbn [fst snd] in *. split; [|done].
  intros o (seq & p & Er & Es & E1 & E2 & _)%reports_member. destruct (Ws seq p Es) as (L & R & Hs). unfold was_observed. rewrite E1, E2.
  split_and!; [done|done|]. exists seq. split; [done|]. by apply Wr.
Qed.
End Round.

(** ** Observers: only the account matters *)

Definition keeps {A} (m : U A) : Prop := does anytime m (λ _ _, True).
Lemma account_bind {A B} (m : U A) (k : A → U B) : keeps m → (∀ a, keeps (k a)) → keeps (m ≫= k).
Proof using. intros Dm Dk. eapply does_bind; [exact Dm|]. intros a. eapply does_weaken; [apply Dk|done|done]. Qed.
Lemma account_ret {A} (a : A) : keeps (mret a).
Proof using. by apply does_ret. Qed.
Lemma keeps_throw {A} e : keeps (throw_ (A := A) e).
Proof using. apply does_throw. Qed.
Lemma keeps_get : keeps get_.
Proof using. apply does_get. Qed.
Lemma keeps_modify f : (∀ s, good s → listens s (f s)) → keeps (modify_ f).
Proof using. apply does_modify. Qed.
Lemma keeps_attempted {A} (m : U A) : keeps m → keeps (attempted m).
Proof using. intros D l s G P. unfold attempted. specialize (D l s G P). destruct (m (l, s)) as [r [l' s']]. by split; [apply D|]. Qed.
Lemma keeps_ended e : keeps (ctx_ended e).
Proof using. intros l s G _. unfold ctx_ended. cbn [fst snd]. case_bool_decide; [by split|]. by destruct l as [|[] l]. Qed.
Lemma keeps_listens {A} (f : list action → probing → (error + A) * env) :
  (∀ l s, good s → let '(_, (_, s')) := f l s in listens s s') → keeps (λ x, f x.1 x.2).
Proof using. intros X. apply does_listens. intros l s G. by apply X. Qed.
Lemma keeps_random : keeps newOperationID.
Proof using Hid H0.
  apply (keeps_listens random_id). induction l as [|a l IH]; intros s G; cbn [random_id]; [by apply listens_refl|].
  destruct a; try by apply listens_refl. pose proof (goroutine_listens (A_packet primary now packet seen told) s G) as L.
  specialize (IH _ (proj1 (proj1 L))). destruct (random_id l _) as [r [l' s']]. by eapply listens_trans.
Qed.
Lemma keeps_session : keeps session_ready.
Proof using Hid H0.
  apply (keeps_listens await_session). induction l as [|a l IH]; intros s G; cbn [await_session]; [by apply listens_refl|].
  assert (Go : let '(_, (_, s')) := await_session l (goroutine a s) in listens s s').
  { pose proof (goroutine_listens a s G) as L. specialize (IH _ (proj1 (proj1 L))). destruct (await_session l _) as [r [l' s']]. by eapply listens_trans. }
  destruct a; try exact Go; by apply listens_refl.
Qed.
Lemma keeps_offer cfg primary_ : keeps (take_offer cfg primary_).
Proof using Hid H0.
  apply (keeps_listens (await_offer cfg primary_)). induction l as [|a l IH]; intros s G; cbn [await_offer]; [by apply listens_refl|].
  assert (Go : let '(_, (_, s')) := await_offer cfg primary_ l (goroutine a s) in listens s s').
  { pose proof (goroutine_listens a s G) as L. specialize (IH _ (proj1 (proj1 L))). destruct (await_offer cfg primary_ l _) as [r [l' s']]. by eapply listens_trans. }
  destruct a; try exact Go; try by apply listens_refl. destruct (DecodeControl data) as [c|e|]; [|by apply IH..].
  destruct (negb _); [by apply listens_refl|]. destruct (existsb _ _); by apply listens_refl.
Qed.
Lemma keeps_reports last sent seen : keeps (measure_reports last sent seen).
Proof using Hid H0.
  apply (keeps_listens (measure_wait last sent seen)). intros l. revert seen. induction l as [|a l IH]; intros seen s G; cbn [measure_wait];
    (destruct (last && _); [by apply listens_refl|]); [by apply listens_refl|].
  assert (Go : let '(_, (_, s')) := measure_wait last sent seen l (goroutine a s) in listens s s').
  { pose proof (goroutine_listens a s G) as L. specialize (IH seen _ (proj1 (proj1 L))). destruct (measure_wait last sent seen l _) as [r [l' s']]. by eapply listens_trans. }
  destruct a; try exact Go; try by apply listens_refl. destruct (DecodeControl data) as [c|e|]; [|by apply IH..].
  pose proof (happened_listens (Reported c) s G I) as L. destruct (bool_decide (Code c = DiscoveryEnd)); [done|]. cbv zeta.
  match goal with |- context [measure_wait last sent ?x l _] => set (seen' := x) end. specialize (IH seen' _ (proj1 (proj1 L))). destruct (measure_wait last sent seen' l _) as [r [l' s']]. by eapply listens_trans.
Qed.
Lemma keeps_packet local id k round dst : keeps (send_packet local id k round dst).
Proof using Hid H0. eapply does_weaken; [apply send_packet_ok|done|done]. Qed.
Lemma keeps_call : keeps call_.
Proof using Hid H0. exact does_call. Qed.
Lemma keeps_send c : keeps (sendDiscovery c).
Proof using Hid H0. apply does_send. Qed.
Create HintDb keeps.
Hint Resolve account_bind account_ret keeps_throw keeps_get keeps_attempted keeps_ended keeps_random keeps_session keeps_offer keeps_reports keeps_packet
  keeps_call keeps_send : keeps.

Section Observers.
Context (cfg : desired) (primary_ candidate_ own_loopback peer_loopback : AddrPort).
Lemma keeps_open target : keeps (openObserver cfg primary_ candidate_ target).
Proof using Hid H0. unfold openObserver. auto 10 with keeps. Qed.
Lemma keeps_socket ep : keeps (localSocket ep).
Proof using Hid H0.
  unfold localSocket. apply account_bind; [apply keeps_get|]. intros s. case_bool_decide; [apply account_ret|].
  apply account_bind; [apply keeps_call|]. intros _u. apply account_bind; [|intros; apply account_ret]. apply keeps_modify.
  intros s1 G. apply field_listens; try done. intros c Hc. by apply (g_pending s1 G).
Qed.
Lemma keeps_measure o socket step : keeps (measure o socket step).
Proof using Hid H0.
  unfold measure. apply account_bind; [|intros [sent seen]; auto with keeps].
  generalize (∅ : gset Z), (∅ : gmap Z AddrPort). generalize 3%nat. intros n. induction n as [|n IH]; intros sent seen; cbn [measure_loop]; auto with keeps.
Qed.
Lemma keeps_steps o steps found : keeps (measure_steps o steps found).
Proof using Hid H0.
  revert found. induction steps as [|step steps IH]; intros found; cbn [measure_steps]; [apply account_ret|].
  apply account_bind; [apply keeps_get|]. intros s. case_bool_decide; [apply IH|]. apply account_bind.
  { apply keeps_modify. intros s1 G. apply field_listens; try done. intros c Hc. by apply (g_pending s1 G). }
  intros _u. apply account_bind; [apply keeps_get|]. intros s1. destruct (64 <? _); [apply keeps_throw|].
  apply account_bind; [apply keeps_attempted, keeps_socket|]. intros [e|socket]; [apply IH|].
  apply account_bind; [apply keeps_attempted, keeps_measure|]. intros [e|more]; [|apply IH].
  apply account_bind; [apply keeps_ended|]. intros []; [apply keeps_throw|apply IH].
Qed.
Lemma observers_listens os rest s : good s → listens s (set_observers os rest s).
Proof using. intros G. apply field_listens; try done. intros c Hc. by apply (g_pending s G). Qed.
End Observers.
Lemma keeps_observe_rest cfg primary_ candidate_ input samples rest : keeps (observe_rest cfg primary_ candidate_ input samples rest).
Proof using Hid H0.
  induction rest as [|target rest IH]; cbn [observe_rest]; [apply account_ret|].
  apply account_bind; [apply keeps_modify; intros; by apply observers_listens|]. intros _u.
  apply account_bind; [apply keeps_attempted, keeps_open|]. intros [e|o].
  - apply account_bind; [apply keeps_ended|]. intros []; [apply keeps_throw|apply IH].
  - apply account_bind; [apply keeps_modify; intros; by apply observers_listens|]. intros _v.
    apply account_bind; [apply keeps_steps|]. intros [|]; [apply IH|apply account_ret].
Qed.
Lemma keeps_observe_open input samples os : keeps (observe_open input samples os).
Proof using Hid H0.
  induction os as [|o os IH]; cbn [observe_open]; [apply account_ret|]. apply account_bind; [apply keeps_steps|]. intros [|]; [apply IH|apply account_ret].
Qed.
Lemma Observe_ok cfg primary_ candidate_ own peer st reach input samples : keeps (udp_Observe cfg primary_ candidate_ own peer st reach input samples).
Proof using Hid H0.
  unfold udp_Observe. apply account_bind.
  { apply keeps_modify. intros s G. destruct (pb_loaded s); [by apply listens_refl|by apply observers_listens]. }
  intros _u. apply account_bind; [apply keeps_get|]. intros s. apply account_bind; [apply keeps_observe_open|].
  intros [|]; [|apply account_ret]. apply account_bind; [apply keeps_get|]. intros s1. apply keeps_observe_rest.
Qed.

(** ** The search of an attempt *)

Section Search.
Context `{SortFunc} (cfg : desired) (remoteKey : list byte) (primary_ candidate_ : AddrPort) (own peer : Addr) (st : list materializedState) (reach : list Addr).
Notation network := (udp_network cfg opid remoteKey primary_ candidate_ own peer st reach).
(** What an event of the search says of the wire. *)
Definition event_ok (t : list wire) (ev : peer_event) : Prop :=
  match ev with
  | PExchange r _ (Some theirs) => allowed cfg primary_ (PeerSearch.Endpoints theirs)
  | PTry r eps (Some (obs, arr)) => allowed cfg primary_ eps ∧ (∀ o, o ∈ obs → was_observed remoteKey primary_ r eps o t) ∧ ∀ a, a ∈ arr → was_heard r a t
  | PAgree r _ (Some path) => agreed_on r path t
  | _ => True
  end.
Lemma lasting_event ev : lasting (λ t, event_ok t ev).
Proof using.
  intros t u Et P. destruct ev as [r b [theirs|]|r eps [[obs arr]|]|r b [path|]|o]; try done; cbn in *.
  - destruct Et as (A & O & R). split_and!; [done| |intros a Ha; eapply lasting_heard; [by apply R|done]].
    intros o Ho. destruct (O o Ho) as (L & M & seq & S & W). split_and!; [done|done|]. exists seq. split; [by eapply lasting_in|by eapply lasting_reported].
  - destruct Et as (c & Hc & X). exists c. split; [by eapply lasting_in|done].
Qed.
Definition accounts (x : env) (log : list peer_event) : Prop := good x.2 ∧ ∀ ev, ev ∈ log → event_ok (pb_trace x.2) ev.
Lemma accounts_call {A} (m : U A) Q x log ev : accounts x log → does anytime m Q →
  (∀ a t, Q a t → event_ok t (ev (Some a))) → (∀ t, event_ok t (ev None)) → let '(res, x') := m x in accounts x' (log ++ [ev (ok res)]).
Proof using.
  intros [G L] D X Y. destruct x as [l s]. specialize (D l s G I). cbn [snd] in *. destruct (m (l, s)) as [res [l' s']]. destruct D as [[G' P] D].
  split; [done|]. intros e [He|Ee]%elem_of_snoc; [by eapply lasting_event; [apply L|]|]. rewrite Ee. destruct res as [err|a]; cbn [ok snd]; [apply Y|].
  apply X. by apply D.
Qed.
Lemma udp_keeps : network_keeps network accounts.
Proof using Hid H0.
  split; cbn [Exchange Try Agree Observe udp_network].
  - intros r b x log A. eapply (accounts_call _ _ _ _ (PExchange r b) A); [apply Exchange_ok|by intros a t|done].
  - intros r ours theirs x log A Hin. eapply (accounts_call _ _ _ _ (PTry r _) A); [apply Try_ok| |done].
    intros [obs arr] t [O R]. split_and!; [|done|done]. exact (proj2 A _ Hin).
  - intros r path x log A. eapply (accounts_call _ _ _ _ (PAgree r path) A); [apply (Agree_ok r path)|by intros a t|done].
  - intros i o x log A. eapply (accounts_call _ _ _ _ PObserve A); [apply (Observe_ok cfg primary_ candidate_ own peer st reach i o)|done|done].
Qed.
End Search.
End Probing.

(** C36: the path of an attempt. Take an operation identifier of sixteen octets,
    a cipher that obeys [AEADLaws] and a preparation that succeeded. Whatever
    datagrams, control messages, failures and instants the search of the attempt
    meets: the packets it sends have distinct numbers between 1 and 12000, so
    that no nonce is used twice with a key; each packet that counts was sealed
    for this attempt, and counts once. If the search returns an endpoint, it is
    one that the policy of the node allows, of the family of the socket; in that
    round a probe was sent to it from the primary socket and the peer reported
    where it saw it; a probe of the peer to that very endpoint arrived from the
    returned one; and the peer named the same two endpoints. *)
Theorem probed_path `{AEADLaws} `{SortFunc} cfg opid remoteKey primary_ candidate_ own peer st reach remote_ plan hint now key source reserve s0 l :
  length opid = 16%nat → prepareUDP opid plan hint now (Ok key) source reserve = Ok (primary_, s0) →
  let '(res, (_, s)) := runProbe cfg opid remoteKey primary_ candidate_ own peer st reach remote_ (l, s0) in
  let t := pb_trace s in
  NoDup (sequences t) ∧ (∀ q, q ∈ sequences t → 1 <= q <= MaxPackets) ∧
  NoDup (map rc_Sequence (heard t)) ∧
  (∀ packet v, Heard packet v ∈ t → Seal opid key (rc_Sequence v) (rc_Round v) (rc_Destination v) = Ok packet) ∧
  ∀ out, res = inr out →
    1 <= Rounds out ∧ Rounds out <= 16 ∧ pr_Local out = primary_ ∧ refused cfg primary_ (pr_Endpoint out) = false ∧
    (∃ seq, Sent primary_ opid remoteKey seq (Rounds out) (pr_Endpoint out) ∈ t ∧ was_reported (Rounds out) seq (pr_Seen out) t) ∧
    (∃ packet v, Heard packet v ∈ t ∧ rc_Round v = Rounds out ∧ rc_Destination v = pr_Seen out ∧ rc_Seen v = pr_Endpoint out) ∧
    agreed_on (Rounds out) [pr_Endpoint out; pr_Seen out] t.
Proof.
  intros L Pu. unfold prepareUDP in Pu. inv_ok. unfold NewReceiver in *. inv_ok. simplify_eq. rename x2 into key. set (until := now + _). unfold runProbe. set (n := udp_network _ _ _ _ _ _ _ _ _). set (pr := probe_peer _ _ _).
  pose proof (search_logged n pr probe_limits [] (l, probing_zero primary_ (mkReceiver opid key ∅ until)) []) as R.
  destruct (RunPeer n pr probe_limits [] _) as [[[out err] store'] [l' s]] eqn:Rn. destruct R as [log R].
  assert (A : accounts opid key cfg remoteKey primary_ (l', s) log).
  { eapply (search_keeps n pr probe_limits _ _ _ _ _ _ _ _ _ (udp_keeps opid key L cfg remoteKey primary_ candidate_ own peer st reach)); [|exact R].
    split; [|by intros ev []%not_elem_of_nil]. split; cbn; try done; try (by intros ? []%not_elem_of_nil); [by intros ?? []%not_elem_of_nil|apply NoDup_nil_2|].
    split_and!; [apply NoDup_nil_2|done|by intros ? []%not_elem_of_nil]. }
  destruct A as [G Ev]. cbn [snd] in *.
  assert (Base : NoDup (sequences (pb_trace s)) ∧ (∀ q, q ∈ sequences (pb_trace s) → 1 <= q <= MaxPackets) ∧ NoDup (map rc_Sequence (heard (pb_trace s))) ∧
    ∀ packet v, Heard packet v ∈ pb_trace s → Seal opid key (rc_Sequence v) (rc_Round v) (rc_Destination v) = Ok packet).
  { destruct G as [_ G2 G3 _ (N1 & _ & N3) _]. split_and!; [done|intros q Hq; by apply N3|done|intros; by apply G2]. }
  destruct err as [e|]; [by split_and!; try apply Base|]. destruct (AddrPort_IsValid (pr_Endpoint out)) eqn:Vd; [|by split_and!; try apply Base].
  destruct Base as (B1 & B2 & B3 & B4). split_and!; [done..|]. intros o [= <-].
  destruct (valid_peer_config pr probe_limits) eqn:Vp; [|unfold RunPeer in R; rewrite Vp in R; done].
  destruct (RunPeer_ok n pr probe_limits _ _ _ _ _ _ _ Vp R) as (_ & R1 & R2 & _ & _ & _ & _ & V). change (MaxIterations probe_limits) with 16 in R2.
  destruct V as [[_ (E1 & E2 & eps & obs & arr & o & a & E3 & Ho & Ha & O1 & O2 & O3 & A1 & A2)]|V].
  - apply Ev in E2, E3. destruct E3 as (Al & Ob & Ar). destruct (Ob o Ho) as (_ & M & seq & Sn & Rp). destruct (Ar a Ha) as (packet & v & Hv & Rv & Dv & Sv).
    rewrite O3 in Sn, M. rewrite O2 in Rp. split_and!; [done|done|done|by apply Al|by exists seq| |done].
    exists packet, v. split_and!; [done|done|congruence|congruence].
  - exfalso. destruct (search_undecided _ _ _ _ _ _ _ _ _ Rn) as [C|Z]; [|by rewrite Z in Vd]. rewrite C in V. destruct V as [[? _]|[? _]]; done.
Qed.

(** * A run in which both sides see the path *)

#[local] Existing Instances clear_AEAD clear_laws.
Definition udp_cfg : desired := mkDesired (mkUID (replicate 16 x01) "a") PortChoice_zero [x09] [x05] true true [mkPrefix (Addr4 (203 * 2 ^ 24)) 8] 1.
Definition encoded (c : Control) : list byte := match Control_Encode c with Ok b => b | _ => [] end.
Definition udp_packet : list byte := match Seal probe_id [x01] 1 1 probe_dst with Ok f => f | _ => [] end.
(** The peer's candidate; five windows; its report of the first probe and a probe
    of its own; the path it names. *)
Definition udp_script : list action :=
  [A_inbox (encoded (control_of Candidates 1 true [probe_from]))] ++ replicate 5 A_timer ++
  [A_inbox (encoded (mkControl ProbeReport 1 1 false (zeros 32) [probe_dst])); A_packet true 10 udp_packet probe_from None; A_arrival;
   A_inbox (encoded (control_of RoundDone 1 false [probe_from; probe_dst]))].
Notation udp_run := (runProbe udp_cfg probe_id [x02] probe_dst probe_dst AddrInvalid AddrInvalid [] [] probe_from
  (udp_script, probing_zero probe_dst (mkReceiver probe_id [x01] ∅ 30000000005))).
Lemma probed_path_witness : ∃ out, udp_run.1 = inr out ∧ pr_Endpoint out = probe_from ∧ refused udp_cfg probe_dst (pr_Endpoint out) = false.
Proof.
  pose proof (probed_path udp_cfg probe_id [x02] probe_dst probe_dst AddrInvalid AddrInvalid [] [] probe_from LinkPlan_zero probe_from 5 [x01]
    (λ _, Ok (AddrPort_Addr probe_dst)) (λ _, Ok probe_dst) (probing_zero probe_dst (mkReceiver probe_id [x01] ∅ 30000000005)) udp_script eq_refl eq_refl) as R.
  assert (E : match udp_run.1 with inr out => bool_decide (pr_Endpoint out = probe_from) | _ => false end = true) by (vm_compute; exact eq_refl).
  destruct udp_run as [[e|out] [l s]]; [done|]. cbn [fst] in *. exists out. split; [done|]. split; [by apply bool_decide_eq_true in E|].
  destruct R as (_ & _ & _ & _ & R). by apply (R out).
Defined.
