(* ===== verification/Daemon.v ===== *)
(** cmd/velvetd/main.go: the process of a node, from the configuration to the exit
    status.  It runs one generation of the runtime (runtime.go) at a time, replaces
    it when the configuration is reloaded, and keeps the recovery record of
    Recovery.v.

    What the world does is a list of actions in the order of their effect: the
    branch that a [select] takes, the file that is read, the calls of an operation
    on the recovery record.  An action that nothing waits for is passed over; after
    the last one the process waits, or was killed. *)

From S2P Require Import Prelude AtomicFile Netip Ports Spec Desired Recovery Routes Validate.
From stdpp Require Import gmap strings.
Open Scope Z_scope.
Open Scope velvet_scope.

#[global] Instance PortRange_eq_dec : EqDecision PortRange.
Proof. solve_decision. Defined.
#[global] Instance PortChoice_eq_dec : EqDecision PortChoice.
Proof. solve_decision. Defined.
#[global] Instance DurableSettings_eq_dec : EqDecision DurableSettings.
Proof. solve_decision. Defined.
#[global] Instance NodeUID_eq_dec : EqDecision NodeUID.
Proof. solve_decision. Defined.
#[global] Instance LinkPlan_eq_dec : EqDecision LinkPlan.
Proof. solve_decision. Defined.
#[global] Instance BabelOrigin_eq_dec : EqDecision BabelOrigin.
Proof. solve_decision. Defined.
#[global] Instance BabelView_eq_dec : EqDecision BabelView.
Proof. solve_decision. Defined.
#[global] Instance BabelPlan_eq_dec : EqDecision BabelPlan.
Proof. solve_decision. Defined.
#[global] Instance DynamicLinksPlan_eq_dec : EqDecision DynamicLinksPlan.
Proof. solve_decision. Defined.
(** [reflect.DeepEqual] of desired states. *)
#[global] Instance DesiredState_eq_dec : EqDecision DesiredState.
Proof. solve_decision. Defined.

(** * The environment and the state *)

Inductive action :=
  | A_later (elapsed : N) | A_stop | A_maintained             (* between the waits *)
  | A_ready (e : option error) | A_done (e : option error) | A_timer | A_ctx
  | A_tick | A_hangup | A_request (caller : Z) | A_control (e : error)
  | A_spec (file : result NodeSpec)                            (* spec.Load *)
  | A_files (calls : list event).                              (* a tracker operation *)

(** A generation, named by the order in which they were started. *)
Record running := mkRunning { rn_id : nat; rn_desired : DesiredState }.
Record daemonStatus := mkDaemonStatus { Ready : bool; ConfigGeneration : Z; LastReloadError : option error }.

(** What is recorded of a run, for the theorems. *)
Inductive note :=
  | Started (id : nat) (d : DesiredState) (previous : option nat)
  | Ended (id : nat)
  | Reloaded (loaded : result DesiredState) (before after : running) (e : option error)
  | Replied (caller : Z) (e : option error)
  | Watchdog (id : nat) (now last : Time).

(** [dm_progress] is that of the last generation ([Runner.progress]); [dm_stopping]
    is the end of [rootCtx]; [dm_file] is the recovery record. *)
Record daemon := mkDaemon {
  dm_clock : Time; dm_stopping : bool; dm_started : nat; dm_progress : option Time;
  dm_status : daemonStatus; dm_file : fs (option State); dm_trace : list note }.
Definition set_clock v s := mkDaemon v (dm_stopping s) (dm_started s) (dm_progress s) (dm_status s) (dm_file s) (dm_trace s).
Definition set_stopping s := mkDaemon (dm_clock s) true (dm_started s) (dm_progress s) (dm_status s) (dm_file s) (dm_trace s).
Definition set_progress v s := mkDaemon (dm_clock s) (dm_stopping s) (dm_started s) v (dm_status s) (dm_file s) (dm_trace s).
Definition set_status v s := mkDaemon (dm_clock s) (dm_stopping s) (dm_started s) (dm_progress s) v (dm_file s) (dm_trace s).
Definition set_file v s := mkDaemon (dm_clock s) (dm_stopping s) (dm_started s) (dm_progress s) (dm_status s) v (dm_trace s).
Definition happened e s := mkDaemon (dm_clock s) (dm_stopping s) (dm_started s) (dm_progress s) (dm_status s) (dm_file s) (dm_trace s ++ [e]).
(** [go func() { done <- runner.Run(runCtx, once) }()]. *)
Definition started (d : DesiredState) (previous : option nat) s :=
  mkDaemon (dm_clock s) (dm_stopping s) (S (dm_started s)) None (dm_status s) (dm_file s) (dm_trace s ++ [Started (dm_started s) d previous]).

(** How a process ends, or does not go on. *)
Inductive stop := Blocked | Crash_ | Exit (status : Z).
#[global] Instance stop_eq_dec : EqDecision stop.
Proof. solve_decision. Defined.
Definition env : Type := list action * daemon.
Definition D (A : Type) : Type := env → (stop + A) * env.
#[global] Instance D_ret : MRet D := λ A a x, (inr a, x).
#[global] Instance D_bind : MBind D := λ A B k m x, match m x with (inl e, x) => (inl e, x) | (inr a, x) => k a x end.
Definition ends {A} (e : stop) : D A := λ x, (inl e, x).
Definition exit {A} (status : Z) : D A := ends (Exit status).
Definition gets {A} (f : daemon → A) : D A := λ x, (inr (f x.2), x).
Definition modify (f : daemon → daemon) : D unit := λ x, (inr tt, (x.1, f x.2)).
(** [log.Fatal]. *)
Definition Fatal {A} : D A := exit 1.
(** A panic ends the process with status 2. *)
Definition of_result {A} (r : result A) : D (error + A) :=
  match r with Ok a => mret (inr a) | Err e => mret (inl e) | Panic => exit 2 end.

Definition background (a : action) (s : daemon) : daemon :=
  match a with
  | A_later elapsed => set_clock (dm_clock s + Z.of_N elapsed) s
  | A_stop => set_stopping s                                   (* a signal, or Handlers.Shutdown *)
  | A_maintained => if bool_decide (is_Some (dm_progress s)) then set_progress (Some (dm_clock s)) s else s
  | _ => s
  end.
(** A wait: the first action that is one of its branches. *)
Fixpoint await {B} (branch : daemon → action → option B) (l : list action) (s : daemon) : (stop + B) * env :=
  match l with
  | [] => (inl Blocked, ([], s))
  | a :: l => match branch s a with Some b => (inr b, (l, s)) | None => await branch l (background a s) end
  end.
Definition select {B} (branch : daemon → action → option B) : D B := λ x, await branch x.1 x.2.

Section Daemon.
Context (uuid_Parse : string → option (list byte)) (uuid_String : list byte → string).
Context (wgtypes_ParseKey : string → option (list byte)) (public_key : list byte → list byte).
Context (hkdf32 : list byte → list byte → result (list byte)).
(** The flags, and the name of the network namespace. *)
Context (systemdBabel once : bool) (interval : Z) (tracker : Tracker) (ns : string).

(** ** Loading and the recovery record *)

Definition with_service (d : DesiredState) : DesiredState :=
  match ds_Babel d with
  | Some b =>
    if systemdBabel then
      let b := mkBabelPlan ("velvet-babel@" +:+ uuid_String (UUID d) +:+ ".service") (bp_Executable b) (ConfigPath b) (ControlPath b) (StatePath b)
        (Interfaces b) (Origins b) (Views b) (ImportPrefixes b) (ImportSources b) (Protocol b) (DeviceOnly b) (ManageRules b) in
      mkDesiredState (RetainedLinks d) (Ports d) (ds_Durable d) (ds_UID d) (UUID d) (FabricPSK d) (LinkPoolV4 d) (LinkPoolV6 d) (LoopbackPoolV6 d)
        (LoopbackV6 d) (ds_VFPPort d) (FabricTableID d) (LoopbackOwnerAlias d) (Forwarding d) (Links d) (ds_Routes d) (Rules d) (Some b)
        (ds_DynamicLinks d) (ds_PrivateKey d)
    else d
  | None => d
  end.
Definition load (file : result NodeSpec) : result DesiredState :=
  nodeSpec ← file;
  d ← BuildDesiredState uuid_Parse uuid_String wgtypes_ParseKey public_key hkdf32 nodeSpec;
  Ok (with_service d).
Definition loadDesired : D (result DesiredState) :=
  file ← select (λ _ a, match a with A_spec file => Some file | _ => None end);
  mret (load file).

Definition tables_of (d : DesiredState) : DesiredTables := mkDesiredTables (uuid_String (UUID d)) (FabricTableID d) (ds_Routes d) (Rules d).
(** A method of the tracker. *)
Definition track (o : op) : D (option error) :=
  calls ← select (λ _ a, match a with A_files calls => Some calls | _ => None end);
  now ← gets dm_clock;
  file ← gets dm_file;
  let '(r, file) := Recovery.update (Recovery.apply ns o now) (with_plan file calls) in
  modify (set_file file);;
  match r with Done _ => mret None | Failed e => mret (Some e) | Crashed => ends Crash_ end.

(** ** Starting and stopping a generation *)

(** [errors.Is(err, errRunnerDidNotStop)] tells the two apart. *)
Inductive failure := DidNotStop (e : error) | Failure_ (e : error).
Definition failure_error (f : failure) : error := match f with DidNotStop e => e | Failure_ e => e end.
Definition errRunnerDidNotStop : failure := DidNotStop (errors_New "runtime did not stop after cancellation").

(** Its branch [<-done] is the end of the generation. *)
Definition cancelAndWait (id : nat) : D (option failure) :=
  ended ← select (λ _ a, match a with A_done _ => Some true | A_timer => Some false | _ => None end);
  if ended : bool then modify (happened (Ended id));; mret None else mret (Some errRunnerDidNotStop).
Definition stopRunner (value : running) : D (option failure) := cancelAndWait (rn_id value).

Inductive startup := S_ready (e : option error) | S_done (e : option error) | S_timer | S_ctx.
Definition failed_after (id : nat) (e : error) : D (failure + running) :=
  stuck ← cancelAndWait id;
  mret (inl (default (Failure_ e) stuck)).
Definition startRunner (desired : DesiredState) (previous : option nat) : D (failure + running) :=
  id ← gets dm_started;
  modify (started desired previous);;
  branch ← select (λ s a, match a with
    | A_ready e => Some (S_ready e) | A_done e => Some (S_done e) | A_timer => Some S_timer
    | A_ctx => if dm_stopping s then Some S_ctx else None
    | _ => None
    end);
  match branch with
  | S_ready None => modify (λ s, set_progress (Some (dm_clock s)) s);; mret (inr (mkRunning id desired))   (* markProgress *)
  | S_ready (Some e) => failed_after id e
  | S_done e => modify (happened (Ended id));; mret (inl (Failure_ (default (errors_New "runtime stopped before readiness") e)))
  | S_timer => failed_after id (errors_New "runtime did not become ready within 30s")
  | S_ctx => failed_after id (errors_New "context canceled")
  end.

(** ** Reloading *)

Definition setStatus (f : daemonStatus → daemonStatus) : D unit := modify (λ s, set_status (f (dm_status s)) s).
Definition reload_error (e : option error) (v : daemonStatus) : daemonStatus := mkDaemonStatus (Ready v) (ConfigGeneration v) e.
(** Its error with the generation that is active then; none when both failed. *)
Definition reloadCandidate (candidate : DesiredState) (active : running) (start : DesiredState → D (failure + running)) (stop : running → D (option failure)) :
    D (option running * option error) :=
  if negb (bool_decide (UUID candidate = UUID (rn_desired active))) then
    let e := Some (errors_New "node.uid.uuid cannot change during reload") in
    setStatus (reload_error e);; mret (Some active, e)
  else if bool_decide (candidate = rn_desired active) then
    setStatus (reload_error None);; mret (Some active, None)
  else
    setStatus (λ v, mkDaemonStatus false (ConfigGeneration v) (LastReloadError v));;
    stuck ← stop active;
    match stuck with
    | Some f => setStatus (reload_error (Some (failure_error f)));; mret (None, Some (failure_error f))
    | None =>
      next ← start candidate;
      match next with
      | inr next => setStatus (λ v, mkDaemonStatus true ((ConfigGeneration v + 1) mod 2 ^ 64) None);; mret (Some next, None)
      | inl (DidNotStop e) => mret (None, Some e)
      | inl (Failure_ e) =>
        rollback ← start (rn_desired active);
        match rollback with
        | inl f => mret (None, Some (failure_error f))
        | inr rollback => setStatus (λ v, mkDaemonStatus true (ConfigGeneration v) (Some e));; mret (Some rollback, Some e)
        end
      end
    end.
Definition reload (active : running) : D (option running * option error) :=
  loaded ← loadDesired;
  candidate ← of_result loaded;
  match candidate with
  | inl e => setStatus (reload_error (Some e));; modify (happened (Reloaded loaded active active (Some e)));; mret (Some active, Some e)
  | inr candidate =>
    '(next, e) ← reloadCandidate candidate active (λ d, startRunner d (Some (rn_id active))) stopRunner;
    match next with Some next => modify (happened (Reloaded loaded active next e)) | None => mret tt end;;
    mret (next, e)
  end.

(** ** The loop *)

Definition Progressing (now : Time) (last : option Time) : bool :=
  match last with Some last => Sub now last <? Z.max (3 * interval) (15 * 1000000000) | None => false end.
Inductive branch := B_tick | B_ctx | B_done (e : option error) | B_control (e : error) | B_hangup | B_request (caller : Z).
Definition branch_of (s : daemon) (a : action) : option branch :=
  match a with
  | A_tick => Some B_tick | A_done e => Some (B_done e) | A_control e => Some (B_control e)
  | A_hangup => Some B_hangup | A_request caller => Some (B_request caller)
  | A_ctx => if dm_stopping s then Some B_ctx else None
  | _ => None
  end.
Definition reloaded (active : running) : D (running * option error) :=
  '(next, e) ← reload active;
  match next with
  | None => Fatal
  | Some next => failed ← track (OUpdateDesired (tables_of (rn_desired next))); match failed with Some _ => Fatal | None => mret (next, e) end
  end.
Definition clean_stop {A} : D A := failed ← track OStop; match failed with Some _ => Fatal | None => exit 0 end.
Definition stopped {A} (active : running) : D A := stuck ← stopRunner active; match stuck with Some _ => Fatal | None => clean_stop end.
Definition iteration (active : running) : D running :=
  b ← select branch_of;
  match b with
  | B_tick =>
    now ← gets dm_clock;
    last ← gets dm_progress;
    let healthy := Progressing now last in
    failed ← track (OProgress healthy);
    (if bool_decide (failed = None) && healthy then modify (happened (Watchdog (rn_id active) now (default 0 last))) else mret tt);;
    mret active
  | B_ctx => stopped active
  | B_done e =>
    modify (happened (Ended (rn_id active)));;
    stopping ← gets dm_stopping;
    if stopping : bool then clean_stop
    else if once && bool_decide (e = None) then track OStop;; exit 0
    else Fatal
  | B_control _ => stopping ← gets dm_stopping; if stopping : bool then stopped active else Fatal
  | B_hangup => '(next, _) ← reloaded active; mret next
  | B_request caller => '(next, e) ← reloaded active; modify (happened (Replied caller e));; mret next
  end.
Fixpoint iterate (n : nat) (active : running) : D running :=
  match n with O => mret active | S n => next ← iteration active; iterate n next end.

(** From [loadDesired] to the loop, and [n] rounds of it. *)
Definition start_up : D running :=
  loaded ← loadDesired;
  desired ← of_result loaded;
  match desired with
  | inl _ => Fatal
  | inr desired =>
    failed ← track (OBegin tracker (tables_of desired));
    match failed with
    | Some _ => Fatal
    | None =>
      active ← startRunner desired None;
      match active with
      | inl _ => Fatal
      | inr active => setStatus (λ v, mkDaemonStatus true (ConfigGeneration v) (LastReloadError v));; mret active
      end
    end
  end.
Definition main (n : nat) : D running := active ← start_up; iterate n active.
End Daemon.

(** The state in which [main] begins to load, over a recovery record. *)
Definition daemon_zero (clock : Time) (file : fs (option State)) : daemon :=
  mkDaemon clock false 0 None (mkDaemonStatus false 1 None) file [].
