(* ===== verification/DaemonProps.v ===== *)
(** The process of a node (Daemon.v): one generation of the runtime at a time, of
    one node; reloads that commit or leave the configuration as it was; and a
    recovery record that always covers the generation that runs. *)

From S2P Require Import Prelude AtomicFile Netip Ports Spec Desired Recovery Routes Validate Daemon.
From stdpp Require Import gmap strings.
Open Scope Z_scope.
Open Scope velvet_scope.

(** * Facts *)

(** A generation is started only after all that were started before have ended. *)
Definition one_at_a_time (t : list note) : Prop :=
  ∀ t1 id d p t2, t = t1 ++ Started id d p :: t2 → ∀ j d' p', Started j d' p' ∈ t1 → j ≠ id ∧ Ended j ∈ t1.
Definition all_ended_but (live : nat → Prop) (t : list note) : Prop := ∀ j d p, Started j d p ∈ t → live j ∨ Ended j ∈ t.
Definition committed (f : note) : bool := match f with Reloaded _ b a None => negb (bool_decide (rn_id a = rn_id b)) | _ => false end.
Fixpoint commits (t : list note) : Z := match t with [] => 0 | f :: t => (if committed f then 1 else 0) + commits t end.
Definition reload_result (acc : option error) (f : note) : option error := match f with Reloaded _ _ _ e => e | _ => acc end.
Definition last_error (t : list note) : option error := foldl reload_result None t.

Lemma commits_app t1 t2 : commits (t1 ++ t2) = commits t1 + commits t2.
Proof. induction t1 as [|f t1 IH]; [done|]. cbn [commits app]. lia. Qed.
Lemma one_snoc t f : one_at_a_time t → (∀ id d p, f = Started id d p → ∀ j d' p', Started j d' p' ∈ t → j ≠ id ∧ Ended j ∈ t) → one_at_a_time (t ++ [f]).
Proof.
  intros H N t1 id d p t2 E. destruct t2 as [|g t2 _] using rev_ind.
  - apply app_inj_tail in E as [<- ->]. by eapply N.
  - rewrite app_comm_cons, app_assoc in E. apply app_inj_tail in E as [E _]. by eapply H.
Qed.
Lemma ended_snoc live t f : all_ended_but live t → (∀ id d p, f = Started id d p → live id) → all_ended_but live (t ++ [f]).
Proof.
  intros H N j d p [Hj|Hj]%elem_of_app; [destruct (H j d p Hj); [by left|right; set_solver]|].
  apply list_elem_of_singleton in Hj as <-. left. by eapply N.
Qed.

(** * Reasoning about the process *)

(** From a state of [P], [m] returns in a state of [Q], or the process ends or
    waits in one of [X]. *)
Definition triple {A} (P : daemon → Prop) (m : D A) (X : stop → daemon → Prop) (Q : A → daemon → Prop) : Prop :=
  ∀ l s, P s → let '(r, (_, s')) := m (l, s) in match r with inr a => Q a s' | inl e => X e s' end.
Definition steady (P : daemon → Prop) : Prop := ∀ a s, P s → P (background a s).

Section Rules.
Context (X : stop → daemon → Prop).
Lemma triple_bind {A B} P (m : D A) Q (k : A → D B) R : triple P m X Q → (∀ a, triple (Q a) (k a) X R) → triple P (m ≫= k) X R.
Proof.
  intros Hm Hk l s Hs. unfold mbind, D_bind. specialize (Hm l s Hs). destruct (m (l, s)) as [[e|a] [l' s']]; [done|].
  by apply (Hk a l' s').
Qed.
Lemma triple_ret {A} (P : daemon → Prop) (a : A) (Q : A → daemon → Prop) : (∀ s, P s → Q a s) → triple P (mret a) X Q.
Proof. intros H l s Hs. by apply H. Qed.
Lemma triple_ends {A} (P : daemon → Prop) e (Q : A → daemon → Prop) : (∀ s, P s → X e s) → triple P (ends e) X Q.
Proof. intros H l s Hs. by apply H. Qed.
Lemma triple_gets {A} (P : daemon → Prop) (f : daemon → A) (Q : A → daemon → Prop) : (∀ s, P s → Q (f s) s) → triple P (gets f) X Q.
Proof. intros H l s Hs. by apply H. Qed.
Lemma triple_modify (P : daemon → Prop) f (Q : unit → daemon → Prop) : (∀ s, P s → Q tt (f s)) → triple P (modify f) X Q.
Proof. intros H l s Hs. by apply H. Qed.
Lemma triple_pre {A} (P P' : daemon → Prop) (m : D A) Q : triple P' m X Q → (∀ s, P s → P' s) → triple P m X Q.
Proof. intros H HP l s Hs. apply H, HP, Hs. Qed.
Lemma triple_post {A} P (m : D A) (Q Q' : A → daemon → Prop) : triple P m X Q' → (∀ a s, Q' a s → Q a s) → triple P m X Q.
Proof. intros H HQ l s Hs. specialize (H l s Hs). destruct (m (l, s)) as [[e|a] [l' s']]; [done|]. by apply HQ. Qed.
Lemma triple_pure {A} (P : daemon → Prop) (φ : Prop) (m : D A) Q : (φ → triple P m X Q) → triple (λ s, φ ∧ P s) m X Q.
Proof. intros H l s [Hφ Hs]. by apply H. Qed.
Lemma triple_select {B} (P : daemon → Prop) (br : daemon → action → option B) : steady P → (∀ s, P s → X Blocked s) →
  triple P (select br) X (λ _, P).
Proof.
  intros St Bl l. unfold select. cbn. induction l as [|a l IH]; intros s Hs; cbn; [by apply Bl|].
  destruct (br s a); [done|]. apply IH, St, Hs.
Qed.
End Rules.

(** * The recovery record *)

Section Record.
Context (ns : string).
(** The record watches the node with these tables. *)
Definition watches (node : string) (tabs : gset Z) (c : option (option State)) : Prop :=
  ∃ st, loaded c = Some st ∧ Node st = node ∧ watched ns st = true ∧ tabs ⊆ list_to_set (Tables st).
Definition not_running (c : option (option State)) : Prop := ∃ st, loaded c = Some st ∧ Running st = false.

Lemma all_files_current {P : option (option State) → Prop} f : all_files P f → P (content <$> entry f).
Proof. intros H. by apply (H (entry f)); left. Qed.
Lemma all_files_True {P : option (option State) → Prop} f : all_files P f → all_files (λ _, True) f.
Proof. intros H g Hg. by destruct (H g Hg). Qed.
Lemma episode_files r t ret seen f : episode r t ret seen f → all_files (λ _, True) f.
Proof. intros H. eapply all_files_True. apply (episode_inv _ _ _ _ _ H). Qed.

Lemma update_done o now f p f' : all_files (λ _, True) f → Recovery.update (Recovery.apply ns o now) (with_plan f p) = (Done tt, f') →
  ∃ st st', current f = Some st ∧ Recovery.apply ns o now st = Ok st' ∧ all_files (λ c, c = Some (Some st')) f'.
Proof.
  intros A E. pose proof (update_holds (λ _, True) (λ _, True) (λ c, ∃ st st', current f = Some st ∧ Recovery.apply ns o now st = Ok st' ∧ c = Some (Some st'))
    (content <$> entry f) (Recovery.apply ns o now)) as H.
  specialize (H ltac:(done) ltac:(intros st st' _ L Ho; split; [done|by exists st, st'])).
  specialize (H (with_plan f p)). rewrite E in H. cbn in H.
  assert (F : all_files (λ c, ∃ st st', current f = Some st ∧ Recovery.apply ns o now st = Ok st' ∧ c = Some (Some st')) f').
  { apply H. split; [exact A|done]. }
  destruct (all_files_current f' F) as (st & st' & C & Ho & _). exists st, st'. split_and!; [done|done|].
  intros g Hg. destruct (F g Hg) as [(st2 & st2' & C2 & Ho2 & ->) S]. split; [congruence|done].
Qed.
Lemma update_failed (P : option (option State) → Prop) o now f p e f' : all_files P f →
  (∀ c st st', P c → loaded c = Some st → Recovery.apply ns o now st = Ok st' → P (Some (Some st'))) →
  Recovery.update (Recovery.apply ns o now) (with_plan f p) = (Failed e, f') → all_files P f'.
Proof.
  intros A K E. pose proof (update_holds P P P (content <$> entry f) (Recovery.apply ns o now)) as H.
  specialize (H ltac:(done) ltac:(intros st st' Pc L Ho; split; by eapply K)).
  specialize (H (with_plan f p)). rewrite E in H. by apply H.
Qed.

Lemma begin_watches t d now st st' : Begin ns t d now st = Ok st' → watches (d_UUID d) (tables_in d) (Some (Some st')).
Proof.
  unfold Begin. intros [= <-]. eexists. split; [reflexivity|]. cbn [Node Tables]. split_and!; [done| |].
  - unfold watched. cbn [Running Retired Namespace]. rewrite bool_decide_eq_true_2 by done.
    destruct (Recovery.fresh ns d st) eqn:Fr; [done|]. unfold Recovery.fresh in Fr. bool_to_prop. destruct (Retired st); [done|done].
  - rewrite merge_tables_elem. set_solver.
Qed.
Lemma progress_watches node tabs h now c st st' : watches node tabs c → loaded c = Some st → Progress now h st = Ok st' →
  watches node tabs (Some (Some st')).
Proof.
  intros (st0 & L & N & W & T) L' E. rewrite L in L'. injection L' as <-. exists st'. split; [done|]. unfold watched in *.
  unfold Progress in E. destruct (_ || _); [by injection E as <-|]. by destruct (negb h); injection E as <-.
Qed.
Lemma desired_watches node tabs d c st st' : watches node tabs c → loaded c = Some st → UpdateDesired d st = Ok st' →
  watches node (tabs ∪ tables_in d) (Some (Some st')).
Proof.
  intros (st0 & L & N & W & T) L' E. rewrite L in L'. injection L' as <-. exists st'. split; [done|]. unfold watched in *.
  unfold UpdateDesired in E. destruct (negb (bool_decide (Node _ = _))); [done|]. injection E as <-. cbn [Node Running Retired Namespace Tables].
  rewrite merge_tables_elem. split; [done|split; [exact W|]]. clear -T. set_solver.
Qed.
Lemma watches_mono node tabs tabs' c : tabs' ⊆ tabs → watches node tabs c → watches node tabs' c.
Proof. intros S (st & L & N & W & T). exists st. split_and!; [done..|]. by transitivity tabs. Qed.
End Record.

(** * The invariant *)

Section Daemon.
Context (uuid_Parse : string → option (list byte)) (uuid_String : list byte → string).
Context (wgtypes_ParseKey : string → option (list byte)) (public_key : list byte → list byte).
Context (hkdf32 : list byte → list byte → result (list byte)).
Context (systemdBabel once : bool) (interval : Z) (tracker : Tracker) (ns : string).
Notation tables_of := (tables_of uuid_String).
Notation track := (track ns).

(** A reload that is answered without an error runs what was loaded; with one, the
    configuration is what it was.  The service manager hears of a generation only
    that made progress. *)
Definition truthful (f : note) : Prop :=
  match f with
  | Reloaded loaded b a e => match e with None => loaded = Ok (rn_desired a) | Some _ => rn_desired a = rn_desired b end
  | Watchdog _ now last => Sub now last < Z.max (3 * interval) (15 * 1000000000)
  | _ => True
  end.
(** Operations of the record so far. *)
Definition recorded (ret : bool) (tabs : gset Z) (s : daemon) : Prop :=
  ∃ r t ret' seen, episode r t ret' seen (dm_file s) ∧ t <= dm_clock s ∧ (ret = false → ret' = false) ∧ tabs ⊆ seen.
Record base (u : list byte) (s : daemon) : Prop := {
  bs_ids : ∀ id d p, Started id d p ∈ dm_trace s → (id < dm_started s)%nat;
  bs_one : one_at_a_time (dm_trace s);
  bs_node : ∀ id d p, Started id d p ∈ dm_trace s → UUID d = u;
  bs_facts : ∀ f, f ∈ dm_trace s → truthful f;
  bs_clock : 0 < dm_clock s }.
Definition sound (u : list byte) (s : daemon) : Prop := base u s ∧ recorded true ∅ s.
Definition ended_cleanly (s : daemon) : Prop :=
  all_ended_but (λ _, False) (dm_trace s) ∧
  (once = false → ∃ t ret seen, episode t t ret seen (dm_file s) ∧ t <= dm_clock s ∧ all_files not_running (dm_file s)).
Definition ends_well (u : list byte) (e : stop) (s : daemon) : Prop :=
  sound u s ∧ (e = Exit 0 → ended_cleanly s).

(** The record while a generation with these tables runs. *)
Definition covered (u : list byte) (tabs : gset Z) (s : daemon) : Prop :=
  recorded false tabs s ∧ all_files (watches ns (uuid_String u) tabs) (dm_file s).
Definition status_is (ready : bool) (s : daemon) : Prop :=
  Ready (dm_status s) = ready ∧ ConfigGeneration (dm_status s) = (1 + commits (dm_trace s)) mod 2 ^ 64.
Definition running_is (active : running) (s : daemon) : Prop :=
  all_ended_but (λ j, j = rn_id active) (dm_trace s) ∧ ∃ p, Started (rn_id active) (rn_desired active) p ∈ dm_trace s.
Record waiting (u : list byte) (active : running) (s : daemon) : Prop := {
  wt_base : base u s;
  wt_covered : covered u (tables_in (tables_of (rn_desired active))) s;
  wt_status : status_is true s;
  wt_error : LastReloadError (dm_status s) = last_error (dm_trace s);
  wt_running : running_is active s }.

Lemma recorded_mono ret ret' tabs tabs' s : recorded ret tabs s → tabs' ⊆ tabs → (ret' = false → ret = false) → recorded ret' tabs' s.
Proof. intros (r & t & b & seen & E & L & B & T) S R. exists r, t, b, seen. split_and!; [done|done|auto|by transitivity tabs]. Qed.
Lemma covered_recorded u tabs s : covered u tabs s → recorded true ∅ s.
Proof. intros [R _]. eapply recorded_mono; [exact R|set_solver|done]. Qed.

(** What passes between the waits. *)
Record later (s s' : daemon) : Prop := {
  lt_trace : dm_trace s' = dm_trace s; lt_file : dm_file s' = dm_file s; lt_status : dm_status s' = dm_status s;
  lt_started : dm_started s' = dm_started s; lt_clock : dm_clock s <= dm_clock s' }.
Lemma background_later a s : later s (background a s).
Proof. destruct a; cbn; [..|by split]; try (by split); [split; cbn; [done..|lia]|by case_bool_decide]. Qed.
Lemma base_later u s s' : later s s' → base u s → base u s'.
Proof. intros [T F S N C] [H1 H2 H3 H4 H5]. split; rewrite ?T, ?N; try done. lia. Qed.
Lemma recorded_later ret tabs s s' : later s s' → recorded ret tabs s → recorded ret tabs s'.
Proof. intros [T F S N C] (r & t & b & seen & E & L & R). exists r, t, b, seen. rewrite F. split_and!; [done|lia|apply R..]. Qed.
Lemma covered_later u tabs s s' : later s s' → covered u tabs s → covered u tabs s'.
Proof. intros L [R A]. split; [by eapply recorded_later|]. by rewrite (lt_file _ _ L). Qed.
Lemma status_later b s s' : later s s' → status_is b s → status_is b s'.
Proof. intros L H. unfold status_is. by rewrite (lt_status _ _ L), (lt_trace _ _ L). Qed.
Lemma waiting_later u active s s' : later s s' → waiting u active s → waiting u active s'.
Proof.
  intros L [B C S E R]. split; [by eapply base_later|by eapply covered_later|by eapply status_later| |].
  - by rewrite (lt_status _ _ L), (lt_trace _ _ L).
  - unfold running_is. by rewrite (lt_trace _ _ L).
Qed.
Lemma steady_later (P : daemon → Prop) : (∀ s s', later s s' → P s → P s') → steady P.
Proof. intros H a s. apply H, background_later. Qed.

(** ** Notes *)

Lemma note_base u f s : base u s → truthful f → (∀ id d p, f ≠ Started id d p) → base u (happened f s).
Proof.
  intros [H1 H2 H3 H4 H5] T N. split; cbn; [| | | |done].
  - intros id d p [Hi|Hi]%elem_of_app; [by eapply H1|]. apply list_elem_of_singleton in Hi. by destruct (N id d p).
  - apply one_snoc; [done|]. intros id d p E. by destruct (N id d p).
  - intros id d p [Hi|Hi]%elem_of_app; [by eapply H3|]. apply list_elem_of_singleton in Hi. by destruct (N id d p).
  - intros g [Hg|Hg]%elem_of_app; [by apply H4|]. by apply list_elem_of_singleton in Hg as ->.
Qed.
Lemma started_base u d p s : base u s → all_ended_but (λ _, False) (dm_trace s) → UUID d = u → base u (started d p s).
Proof.
  intros [H1 H2 H3 H4 H5] A U. split; cbn; [| | | |done].
  - intros id d' p' [Hi|Hi]%elem_of_app; [apply H1 in Hi; lia|]. apply list_elem_of_singleton in Hi. injection Hi as -> -> ->. lia.
  - apply one_snoc; [done|]. intros id d' p' [= <- <- <-] j e q Hj. split; [apply H1 in Hj; lia|]. by destruct (A j e q Hj).
  - intros id d' p' [Hi|Hi]%elem_of_app; [by eapply H3|]. apply list_elem_of_singleton in Hi. by injection Hi as -> -> ->.
  - intros g [Hg|Hg]%elem_of_app; [by apply H4|]. by apply list_elem_of_singleton in Hg as ->.
Qed.
Lemma note_last t f : (∀ l b a e, f ≠ Reloaded l b a e) → commits (t ++ [f]) = commits t ∧ last_error (t ++ [f]) = last_error t.
Proof.
  intros N. unfold last_error. rewrite commits_app, foldl_app. destruct f; cbn; try (split; [lia|done]). by destruct (N loaded before after e).
Qed.
Lemma note_waiting u active f s : waiting u active s → truthful f → (∀ id d p, f ≠ Started id d p) → (∀ l b a e, f ≠ Reloaded l b a e) →
  waiting u active (happened f s).
Proof.
  intros [B C [S1 S2] E [R [p Hp]]] T N1 N2. destruct (note_last (dm_trace s) f N2) as [N3 N4]. split; [by apply note_base|done|split; cbn; [done|by rewrite N3]|cbn [dm_status dm_trace happened]; by rewrite N4|].
  split; [apply ended_snoc; [done|]|exists p; cbn; set_solver]. intros id d q E'. by destruct (N1 id d q).
Qed.

(** ** The record *)

Definition op_tables (o : op) : gset Z := match o with OBegin _ d | OUpdateDesired d => tables_in d | _ => ∅ end.
Definition plain_op (o : op) : bool := match o with OBegin _ _ | OCheck _ => false | _ => true end.
Lemma recorded_step o ret tabs s calls res file : 0 < dm_clock s → recorded ret tabs s → plain_op o = true →
  Recovery.update (Recovery.apply ns o (dm_clock s)) (with_plan (dm_file s) calls) = (res, file) →
  recorded ret (match res with Done _ => tabs ∪ op_tables o | _ => tabs end) (set_file file s).
Proof.
  intros Hc (r & t & b & seen & E & L & B & T) Ho U. unfold recorded. cbn [dm_file dm_clock set_file]. destruct res as [[]|e|].
  - eexists _, _, _, _. split_and!; [eapply episode_op; [exact E|done|done|exact U]|done| |].
    + intros R. destruct o; cbn in *; auto; done.
    + destruct o; cbn in *; set_solver.
  - eexists _, _, _, _. split_and!; [eapply episode_failed; [exact E|done|done|exact U]|done| |]; destruct o; cbn in *; auto; done.
  - eexists _, _, _, _. split_and!; [eapply episode_crashed; [exact E|done|done|exact U]|done| |]; destruct o; cbn in *; auto; done.
Qed.
Lemma recorded_begin t d s calls res file : 0 < dm_clock s → recorded true ∅ s →
  Recovery.update (Recovery.apply ns (OBegin t d) (dm_clock s)) (with_plan (dm_file s) calls) = (res, file) →
  match res with Done _ => recorded false (tables_in d) (set_file file s) | _ => recorded true ∅ (set_file file s) end.
Proof.
  intros Hc (r & t0 & b & seen & E & L & B & T) U. unfold recorded. cbn [dm_file dm_clock set_file]. destruct res as [[]|e|].
  - eexists _, _, _, _. split_and!; [eapply episode_op; [exact E|done|done|exact U]|done|done|]. cbn. set_solver.
  - eexists _, _, _, _. split_and!; [eapply episode_failed; [exact E|done|done|exact U]|done|done|]. set_solver.
  - eexists _, _, _, _. split_and!; [eapply episode_crashed; [exact E|done|done|exact U]|done|done|]. set_solver.
Qed.
Lemma triple_track X P o Q : steady P → (∀ s, P s → X Blocked s) →
  (∀ s calls r file, P s → Recovery.update (Recovery.apply ns o (dm_clock s)) (with_plan (dm_file s) calls) = (r, file) →
    match r with Done _ => Q None (set_file file s) | Failed e => Q (Some e) (set_file file s) | Crashed => X Crash_ (set_file file s) end) →
  triple P (track o) X Q.
Proof.
  intros St Bl H. unfold Daemon.track. eapply triple_bind; [by apply (triple_select X P)|]. intros calls l s Hs.
  unfold mbind, D_bind, gets. cbn [snd fst]. specialize (H s calls). destruct (Recovery.update _ _) as [r file]. specialize (H r file Hs eq_refl).
  by destruct r.
Qed.

(** ** Starting and stopping *)

(** A generation that was started, and none. *)
Record live (u : list byte) (tabs : gset Z) (b : bool) (old : nat → Prop) (id : nat) (d : DesiredState) (s : daemon) : Prop := {
  lv_base : base u s; lv_covered : covered u tabs s; lv_status : status_is b s;
  lv_error : LastReloadError (dm_status s) = last_error (dm_trace s);
  lv_running : running_is (mkRunning id d) s; lv_old : ∀ j, old j → (j < id)%nat }.
Record idle (u : list byte) (tabs : gset Z) (b : bool) (old : nat → Prop) (s : daemon) : Prop := {
  id_base : base u s; id_covered : covered u tabs s; id_status : status_is b s;
  id_error : LastReloadError (dm_status s) = last_error (dm_trace s);
  id_ended : all_ended_but (λ _, False) (dm_trace s); id_old : ∀ j, old j → (j < dm_started s)%nat }.
Lemma live_later u tabs b old id d s s' : later s s' → live u tabs b old id d s → live u tabs b old id d s'.
Proof.
  intros L [B C S E R O]. split; [by eapply base_later|by eapply covered_later|by eapply status_later| | |done].
  - by rewrite (lt_status _ _ L), (lt_trace _ _ L).
  - unfold running_is. by rewrite (lt_trace _ _ L).
Qed.
Lemma live_sound u tabs b old id d s : live u tabs b old id d s → sound u s.
Proof. intros H. split; [apply H|]. eapply covered_recorded, H. Qed.
Lemma idle_sound u tabs b old s : idle u tabs b old s → sound u s.
Proof. intros H. split; [apply H|]. eapply covered_recorded, H. Qed.
Lemma waiting_sound u active s : waiting u active s → sound u s.
Proof. intros H. split; [apply H|]. eapply covered_recorded, H. Qed.
Lemma idle_mono u tabs b old old' s : idle u tabs b old s → (∀ j, old' j → old j) → idle u tabs b old' s.
Proof. intros [H1 H2 H3 H4 H5 H6] S. split; auto. Qed.
Lemma sound_ends u e s : sound u s → e ≠ Exit 0 → ends_well u e s.
Proof. intros S N. by split. Qed.
Lemma live_ended u tabs b old id d s : live u tabs b old id d s → idle u tabs b (λ j, old j ∨ j = id) (happened (Ended id) s).
Proof.
  intros [B C S E [R [p Hp]] O]. destruct (note_last (dm_trace s) (Ended id)) as [N1 N2]; [done|]. split; [by apply note_base|done| | | |].
  - destruct S as [S1 S2]. split; [done|]. cbn [dm_status dm_trace happened]. by rewrite N1.
  - cbn [dm_status dm_trace happened]. by rewrite N2.
  - intros j d' p' [Hj|Hj]%elem_of_app; [|by apply list_elem_of_singleton in Hj]. right. cbn.
    destruct (R j d' p' Hj) as [->|Hj']; set_solver.
  - intros j Hj. assert (id < dm_started s)%nat by (by eapply (bs_ids u s)). cbn. destruct Hj as [Hj| ->]; [apply O in Hj; lia|done].
Qed.
Lemma idle_started u tabs b old d p s : idle u tabs b old s → UUID d = u → live u tabs b old (dm_started s) d (started d p s).
Proof.
  intros [B C S E R O] U. destruct (note_last (dm_trace s) (Started (dm_started s) d p)) as [N1 N2]; [done|]. split; [by apply started_base| | | | |done].
  - done.
  - destruct S as [S1 S2]. split; [done|]. cbn [dm_status dm_trace started]. by rewrite N1.
  - cbn [dm_status dm_trace started]. by rewrite N2.
  - split; [|exists p; cbn; set_solver]. cbn. apply ended_snoc; [|by intros ??? [= <- <- <-]].
    intros j d' p' Hj. right. by destruct (R j d' p' Hj).
Qed.

Lemma end_ok X u tabs b old id d :
  triple (live u tabs b old id d) (modify (happened (Ended id))) X (λ _, idle u tabs b (λ j, old j ∨ j = id)).
Proof. apply triple_modify. intros s. apply live_ended. Qed.
Lemma cancelAndWait_ok u tabs b old id d :
  triple (live u tabs b old id d) (cancelAndWait id) (ends_well u)
    (λ r s, match r with None => idle u tabs b (λ j, old j ∨ j = id) s | Some f => live u tabs b old id d s ∧ f = errRunnerDidNotStop end).
Proof.
  unfold cancelAndWait. eapply triple_bind; [apply triple_select|].
  - apply steady_later. apply live_later.
  - intros s H. apply sound_ends; [by eapply live_sound|done].
  - intros [|]; [|by apply triple_ret]. eapply triple_bind; [apply end_ok|].
    intros []. by apply triple_ret.
Qed.
(** A start that does not yield a generation. *)
Definition not_started u tabs b old (f : failure) : daemon → Prop := match f with Failure_ _ => idle u tabs b old | DidNotStop _ => sound u end.
Lemma failed_after_ok u tabs b old id d e :
  triple (live u tabs b old id d) (failed_after id e) (ends_well u) (λ r s, match r with inl f => not_started u tabs b old f s | inr _ => False end).
Proof.
  eapply triple_bind; [apply cancelAndWait_ok|]. intros [f|]; apply triple_ret; cbn.
  - intros s [H ->]. by eapply live_sound.
  - intros s H. eapply idle_mono; [exact H|by left].
Qed.
Lemma startRunner_ok u tabs b old d p : UUID d = u →
  triple (idle u tabs b old) (startRunner d p) (ends_well u)
    (λ r s, match r with inl f => not_started u tabs b old f s | inr a => live u tabs b old (rn_id a) d s ∧ rn_desired a = d end).
Proof.
  intros U. unfold startRunner. apply triple_bind with (Q := λ id s, idle u tabs b old s ∧ id = dm_started s); [by apply triple_gets|]. intros id.
  eapply triple_bind; [apply triple_modify with (Q := λ _, live u tabs b old id d); by intros s [H E]; pose proof (idle_started _ _ _ _ d p s H U) as L; rewrite <- E in L|]. intros [].  
  eapply triple_bind; [apply triple_select|].
  - apply steady_later, live_later.
  - intros s H. apply sound_ends; [by eapply live_sound|done].
  - assert (Fl : ∀ e, triple (live u tabs b old id d) (failed_after id e) (ends_well u)
      (λ r s, match r with inl f => not_started u tabs b old f s | inr a => live u tabs b old (rn_id a) d s ∧ rn_desired a = d end)).
    { intros e. eapply triple_post; [apply failed_after_ok|]. by intros [f|a] s. }
    intros [[e|]|e| |]; [apply Fl| | |apply Fl..].
    + eapply triple_bind; [apply triple_modify with (Q := λ _, live u tabs b old id d); intros s H; eapply live_later; [|exact H]; by split; cbn|].
      intros []. apply triple_ret. by cbn.
    + eapply triple_bind; [apply end_ok|].
      intros []. apply triple_ret. intros s H. eapply idle_mono; [exact H|by left].
Qed.

(** ** Reloading *)

(** What a reload leaves: a generation, before its note is written. *)
Definition answer (before : running) (loaded : result DesiredState) (a : running) (e : option error) (s : daemon) : Prop :=
  running_is a s ∧ truthful (Reloaded loaded before a e) ∧
  dm_status s = mkDaemonStatus true ((1 + commits (dm_trace s ++ [Reloaded loaded before a e])) mod 2 ^ 64) e.
Record answered (u : list byte) (before : running) (loaded : result DesiredState) (a : running) (e : option error) (s : daemon) : Prop := {
  an_base : base u s; an_covered : covered u (tables_in (tables_of (rn_desired before))) s; an_answer : answer before loaded a e s }.

Lemma waiting_live u active s : waiting u active s →
  live u (tables_in (tables_of (rn_desired active))) true (λ _, False) (rn_id active) (rn_desired active) s.
Proof. intros [B C S E R]. by split. Qed.
Lemma same_status u active s loaded (e : option error) : waiting u active s → (e = None → loaded = Ok (rn_desired active)) →
  answered u active loaded active e (set_status (reload_error e (dm_status s)) s).
Proof.
  intros [B C [S1 S2] E R] He. split; [by destruct B|by destruct C|]. split_and!; [done|by destruct e; [|apply He]|].
  cbn. rewrite commits_app. unfold reload_error. rewrite S1, S2. do 2 f_equal. cbn. rewrite bool_decide_eq_true_2 by done. destruct e; cbn; f_equal; lia.
Qed.
Lemma new_status u tabs b a before loaded e s : live u tabs b (λ j, j = rn_id before) (rn_id a) (rn_desired a) s →
  tabs = tables_in (tables_of (rn_desired before)) → truthful (Reloaded loaded before a e) →
  answered u before loaded a e (set_status (mkDaemonStatus true
    (match e with None => (ConfigGeneration (dm_status s) + 1) mod 2 ^ 64 | Some _ => ConfigGeneration (dm_status s) end) e) s).
Proof.
  intros [B C [S1 S2] E R O] -> T. split; [by destruct B|by destruct C|]. split_and!; [by destruct a|done|].
  cbn. rewrite commits_app. f_equal. rewrite S2. cbn. assert (rn_id before < rn_id a)%nat by (by apply O).
  rewrite bool_decide_eq_false_2 by lia. destruct e; cbn.
  - f_equal. lia.
  - rewrite Z.add_mod_idemp_l by done. f_equal. lia.
Qed.
Definition outcome_ok u before loaded (r : option running * option error) : daemon → Prop :=
  match r.1 with Some a => answered u before loaded a r.2 | None => sound u end.

Lemma reloadCandidate_ok u active candidate p :
  triple (waiting u active) (reloadCandidate candidate active (λ d, startRunner d p) stopRunner) (ends_well u) (outcome_ok u active (Ok candidate)).
Proof.
  unfold reloadCandidate. case_bool_decide as Hu; cbn [negb].
  2: { eapply triple_bind; [apply triple_modify with (Q := λ _, answered u active (Ok candidate) active (Some (errors_New "node.uid.uuid cannot change during reload")))|].
       - intros s H. by apply same_status.
       - intros []. by apply triple_ret. }
  case_bool_decide as Hc.
  { eapply triple_bind; [apply triple_modify with (Q := λ _, answered u active (Ok candidate) active None)|].
    - intros s H. apply same_status; [done|by rewrite Hc].
    - intros []. by apply triple_ret. }
  set (tabs := tables_in (tables_of (rn_desired active))).
  set (old := λ j, j = rn_id active).
  assert (Ua : ∀ s, waiting u active s → UUID (rn_desired active) = u).
  { intros s [B _ _ _ [_ [q Hq]]]. by eapply (bs_node u s B). }
  apply triple_pre with (P' := λ s, UUID (rn_desired active) = u ∧ waiting u active s); [|intros s H; split; [by eapply Ua|done]].
  apply triple_pure. intros U. rewrite U in Hu.
  eapply triple_bind; [apply triple_modify with (Q := λ _, live u tabs false (λ _, False) (rn_id active) (rn_desired active))|intros []].
  { intros s [B C [S1 S2] E R]%waiting_live. split; [by destruct B|by destruct C|by split|done|done|done]. }
  eapply triple_bind; [apply cancelAndWait_ok|]. intros [f|].
  { eapply triple_bind; [apply triple_modify with (Q := λ _, sound u)|intros []; by apply triple_ret].
    intros s [[B C]%live_sound _]. split; [by destruct B|done]. }
  eapply triple_pre; [|intros s H; eapply idle_mono with (old' := old); [exact H|by right]].
  eapply triple_bind; [by apply startRunner_ok|]. intros [[e|e]|next]; cbn [not_started].
  - by apply triple_ret.
  - eapply triple_bind; [by apply startRunner_ok|]. intros [f|rollback].
    + apply triple_ret. intros s H. destruct f; [exact H|by eapply idle_sound].
    + eapply triple_bind; [apply triple_modify with (Q := λ _, answered u active (Ok candidate) rollback (Some e))|intros []; by apply triple_ret].
      intros s [H E]. rewrite <- E in H. apply (new_status u tabs false rollback active (Ok candidate) (Some e)); [exact H|done|exact E].
  - eapply triple_bind; [apply triple_modify with (Q := λ _, answered u active (Ok candidate) next None)|intros []; by apply triple_ret].
    intros s [H E]. pose proof (new_status u tabs false next active (Ok candidate) None s) as N. apply N; [by rewrite E|done|cbn; by rewrite E].
Qed.

Notation load := (load uuid_Parse uuid_String wgtypes_ParseKey public_key hkdf32 systemdBabel).
Notation loadDesired := (loadDesired uuid_Parse uuid_String wgtypes_ParseKey public_key hkdf32 systemdBabel).
Notation reload := (reload uuid_Parse uuid_String wgtypes_ParseKey public_key hkdf32 systemdBabel).
Notation reloaded := (reloaded uuid_Parse uuid_String wgtypes_ParseKey public_key hkdf32 systemdBabel ns).
Notation iteration := (iteration uuid_Parse uuid_String wgtypes_ParseKey public_key hkdf32 systemdBabel once interval ns).
Notation iterate := (iterate uuid_Parse uuid_String wgtypes_ParseKey public_key hkdf32 systemdBabel once interval ns).
Notation start_up := (start_up uuid_Parse uuid_String wgtypes_ParseKey public_key hkdf32 systemdBabel tracker ns).
Notation main := (main uuid_Parse uuid_String wgtypes_ParseKey public_key hkdf32 systemdBabel once interval tracker ns).

Lemma loadDesired_ok X P : steady P → (∀ s, P s → X Blocked s) → triple P loadDesired X (λ _, P).
Proof. intros St Bl. eapply triple_bind; [by apply triple_select|]. intros file. by apply triple_ret. Qed.

(** A generation that a reload left, with its note, before its tables are recorded. *)
Definition noted (u : list byte) (tabs : gset Z) (a : running) (s : daemon) : Prop :=
  base u s ∧ covered u tabs s ∧ status_is true s ∧ LastReloadError (dm_status s) = last_error (dm_trace s) ∧ running_is a s.
Lemma answered_noted u before loaded a e s : answered u before loaded a e s →
  noted u (tables_in (tables_of (rn_desired before))) a (happened (Reloaded loaded before a e) s).
Proof.
  intros [B C ([R [p Hp]] & T & S)]. split_and!; [by apply note_base|done| | |].
  - split; cbn [dm_status dm_trace happened]; by rewrite S.
  - cbn [dm_status dm_trace happened]. rewrite S. unfold last_error. by rewrite foldl_app.
  - split; [by apply ended_snoc|]. exists p. cbn. set_solver.
Qed.
Lemma noted_later u tabs a s s' : later s s' → noted u tabs a s → noted u tabs a s'.
Proof.
  intros L (B & C & S & E & R). split_and!; [by eapply base_later|by eapply covered_later|by eapply status_later| |].
  - by rewrite (lt_status _ _ L), (lt_trace _ _ L).
  - unfold running_is. by rewrite (lt_trace _ _ L).
Qed.
Lemma noted_sound u tabs a s : noted u tabs a s → sound u s.
Proof. intros (B & C & _). split; [done|by eapply covered_recorded]. Qed.

Lemma reload_ok u active :
  triple (waiting u active) (reload active) (ends_well u)
    (λ r s, match r.1 with Some a => noted u (tables_in (tables_of (rn_desired active))) a s | None => sound u s end).
Proof.
  unfold Daemon.reload. eapply triple_bind; [apply loadDesired_ok|].
  - apply steady_later, waiting_later.
  - intros s H. apply sound_ends; [by eapply waiting_sound|done].
  - intros [d|e|]; cbn [of_result].
    + eapply triple_bind; [by apply triple_ret with (Q := λ r s, r = inr d ∧ waiting u active s)|]. intros r. apply triple_pure. intros ->.
      eapply triple_bind; [apply reloadCandidate_ok|]. intros [[a|] e]; unfold outcome_ok; cbn [fst snd].
      * eapply triple_bind; [apply triple_modify with (Q := λ _, noted u (tables_in (tables_of (rn_desired active))) a); intros s; apply answered_noted|].
        intros []. by apply triple_ret.
      * eapply triple_bind; [by apply triple_ret with (Q := λ _, sound u)|]. intros []. by apply triple_ret.
    + eapply triple_bind; [by apply triple_ret with (Q := λ r s, r = inl e ∧ waiting u active s)|]. intros r. apply triple_pure. intros ->.
      eapply triple_bind; [apply triple_modify with (Q := λ _, answered u active (Err e) active (Some e)); intros s H; by apply same_status|]. intros [].
      eapply triple_bind; [apply triple_modify with (Q := λ _, noted u (tables_in (tables_of (rn_desired active))) active); intros s; apply answered_noted|].
      intros []. by apply triple_ret.
    + eapply triple_bind; [apply triple_ends with (Q := λ _ _, False); intros s H; apply sound_ends; [by eapply waiting_sound|done]|]. by intros r l s.
Qed.
Lemma reloaded_ok u active : triple (waiting u active) (reloaded active) (ends_well u) (λ r, waiting u r.1).
Proof.
  eapply triple_bind; [apply reload_ok|]. intros [[a|] e]; cbn [fst]; [|apply triple_ends; intros s H; by apply sound_ends].
  apply triple_bind with (Q := λ r s, match r with None => waiting u a s | Some _ => sound u s end).
  - apply triple_track.
    + apply steady_later, noted_later.
    + intros s H. apply sound_ends; [by eapply noted_sound|done].
    + intros s calls r file (B & [Rc A] & S & E & R) U.
      assert (Rc' := recorded_step (OUpdateDesired _) _ _ s calls r file (bs_clock _ _ B) Rc eq_refl U).
      assert (B' : base u (set_file file s)) by by destruct B.
      destruct r as [[]|e'|].
      * destruct (update_done _ _ _ _ _ _ (all_files_True _ A) U) as (st & st' & Cu & Ap & F).
        split; [done| |done|done|done]. split.
        -- eapply recorded_mono; [exact Rc'| |done]. cbn. set_solver.
        -- intros f Hf. destruct (F f Hf) as [-> Sy]. split; [|done].
           eapply watches_mono; [|eapply desired_watches; [apply (all_files_current _ A)|exact Cu|exact Ap]]. set_solver.
      * split; [done|]. eapply recorded_mono; [exact Rc'|set_solver|done].
      * apply sound_ends; [|done]. split; [done|]. eapply recorded_mono; [exact Rc'|set_solver|done].
  - intros [e'|]; [apply triple_ends; intros s H; by apply sound_ends|by apply triple_ret].
Qed.

(** ** The loop *)

Lemma later_ended live s s' : later s s' → all_ended_but live (dm_trace s) → all_ended_but live (dm_trace s').
Proof. intros L. by rewrite (lt_trace _ _ L). Qed.
Definition over u s := sound u s ∧ all_ended_but (λ _, False) (dm_trace s).
Lemma over_later u s s' : later s s' → over u s → over u s'.
Proof. intros L [[B R] A]. split; [split; [by eapply base_later|by eapply recorded_later]|by eapply later_ended]. Qed.
Lemma clean_stop_ok {A} u (Q : A → daemon → Prop) : triple (over u) (clean_stop ns) (ends_well u) Q.
Proof.
  apply triple_bind with (Q := λ r s, match r with None => sound u s ∧ ended_cleanly s | Some _ => sound u s end).
  - apply triple_track; [apply steady_later, over_later|intros s [H _]; by apply sound_ends|].
    intros s calls r file [[B R] En] U. assert (R' := recorded_step OStop _ _ s calls r file (bs_clock _ _ B) R eq_refl U).
    assert (S : sound u (set_file file s)).
    { split; [by destruct B|]. eapply recorded_mono; [exact R'|set_solver|done]. }
    destruct r as [[]|e|]; [|done|by apply sound_ends]. split; [done|]. split; [done|]. intros _.
    destruct R as (r & t & b & seen & Ep & L & _). destruct (update_done _ _ _ _ _ _ (episode_files _ _ _ _ _ Ep) U) as (st & st' & Cu & Ap & F).
    exists (dm_clock s). eexists _, _. split_and!; [|done|].
    + assert (E2 := episode_op _ _ _ _ _ _ _ _ _ _ Ep L (bs_clock _ _ B) U). unfold reset_by in E2. rewrite Cu in E2. exact E2.
    + intros f Hf. destruct (F f Hf) as [-> Sy]. split; [|done]. exists st'. split; [done|]. by injection Ap as <-.
  - intros [e|]; apply triple_ends; intros s H; [by apply sound_ends|]. by destruct H.
Qed.
Lemma stopped_ok {A} u active (Q : A → daemon → Prop) : triple (waiting u active) (stopped ns active) (ends_well u) Q.
Proof.
  eapply triple_pre; [|intros s; apply waiting_live]. eapply triple_bind; [apply cancelAndWait_ok|]. intros [f|].
  - apply triple_ends. intros s [H _]. apply sound_ends; [by eapply live_sound|done].
  - eapply triple_pre; [apply clean_stop_ok|]. intros s H. split; [by eapply idle_sound|apply H].
Qed.
Lemma tick_ok u active h : triple (waiting u active) (track (OProgress h)) (ends_well u) (λ _, waiting u active).
Proof.
  apply triple_track; [apply steady_later, waiting_later|intros s H; apply sound_ends; [by eapply waiting_sound|done]|].
  intros s calls r file [B [Rc A] S E R] U. assert (R' := recorded_step (OProgress h) _ _ s calls r file (bs_clock _ _ B) Rc eq_refl U).
  assert (B' : base u (set_file file s)) by by destruct B.
  destruct r as [[]|e|].
  - split; [done| |done..]. destruct (update_done _ _ _ _ _ _ (all_files_True _ A) U) as (st & st' & Cu & Ap & F). split.
    + eapply recorded_mono; [exact R'|set_solver|done].
    + intros f Hf. destruct (F f Hf) as [-> Sy]. split; [|done]. eapply progress_watches; [apply (all_files_current _ A)|exact Cu|exact Ap].
  - split; [done| |done..]. split; [done|]. eapply update_failed; [exact A| |exact U]. intros c st st' W L. by eapply progress_watches.
  - apply sound_ends; [|done]. split; [done|]. eapply recorded_mono; [exact R'|set_solver|done].
Qed.
Lemma iteration_ok u active : triple (waiting u active) (iteration active) (ends_well u) (waiting u).
Proof.
  unfold Daemon.iteration. eapply triple_bind; [apply triple_select|].
  - apply steady_later, waiting_later.
  - intros s H. apply sound_ends; [by eapply waiting_sound|done].
  - intros [| |e|e| |caller].
    + eapply triple_bind; [by apply triple_gets with (Q := λ _, waiting u active)|]. intros now.
      eapply triple_bind; [by apply triple_gets with (Q := λ _, waiting u active)|]. intros last.
      eapply triple_bind; [apply tick_ok|]. intros failed.
      apply triple_bind with (Q := λ _, waiting u active); [|intros []; by apply triple_ret].
      destruct (bool_decide (failed = None) && _) eqn:Hp; [|by apply triple_ret]. apply triple_modify. intros s H.
      apply note_waiting; [done| |done|done]. apply andb_prop in Hp as [_ Hp]. unfold Progressing in Hp. destruct last as [last|]; [|done].
      cbn. by apply Z.ltb_lt.
    + apply stopped_ok.
    + eapply triple_pre; [|intros s; apply waiting_live]. eapply triple_bind; [apply end_ok|]. intros [].
      eapply triple_pre with (P' := over u); [|intros s H; split; [by eapply idle_sound|apply H]].
      eapply triple_bind; [by apply triple_gets with (Q := λ _, over u)|]. intros [|]; [apply clean_stop_ok|].
      destruct (once && _) eqn:Ho; [|apply triple_ends; intros s [H _]; by apply sound_ends].
      apply andb_prop in Ho as [Ho _].
      apply triple_bind with (Q := λ _, over u).
      * apply triple_track; [apply steady_later, over_later|intros s [H _]; by apply sound_ends|].
        intros s calls r file [[B R] En] U. assert (R' := recorded_step OStop _ _ s calls r file (bs_clock _ _ B) R eq_refl U).
        assert (S : over u (set_file file s)).
        { split; [split; [by destruct B|]|done]. eapply recorded_mono; [exact R'|set_solver|done]. }
        destruct r as [[]|e'|]; [done..|]. apply sound_ends; [apply S|done].
      * intros r. apply triple_ends. intros s [H En]. split; [done|]. intros _. split; [done|]. by rewrite Ho.
    + eapply triple_bind; [by apply triple_gets with (Q := λ _, waiting u active)|]. intros [|]; [apply stopped_ok|].
      apply triple_ends. intros s H. apply sound_ends; [by eapply waiting_sound|done].
    + eapply triple_bind; [apply reloaded_ok|]. intros [next e']. by apply triple_ret.
    + eapply triple_bind; [apply reloaded_ok|]. intros [next e']. cbn [fst].
      eapply triple_bind; [apply triple_modify with (Q := λ _, waiting u next)|intros []; by apply triple_ret].
      intros s H. by apply note_waiting.
Qed.
Lemma iterate_ok u n active : triple (waiting u active) (iterate n active) (ends_well u) (waiting u).
Proof.
  revert active. induction n as [|n IH]; intros active; cbn; [by apply triple_ret|].
  eapply triple_bind; [apply iteration_ok|]. intros next. apply IH.
Qed.

(** ** The whole run *)

Lemma triple_weaken {A} (X X' : stop → daemon → Prop) P (m : D A) Q : (∀ e s, X' e s → X e s) → triple P m X' Q → triple P m X Q.
Proof. intros H T l s Hs. specialize (T l s Hs). destruct (m (l, s)) as [[e|a] [l' s']]; [by apply H|done]. Qed.
Definition new_process (s : daemon) : Prop :=
  dm_trace s = [] ∧ dm_status s = mkDaemonStatus false 1 None ∧ 0 < dm_clock s ∧ recorded true ∅ s.
Lemma new_process_later s s' : later s s' → new_process s → new_process s'.
Proof.
  intros L (T & S & C & R). split_and!; [by rewrite (lt_trace _ _ L)|by rewrite (lt_status _ _ L)|destruct L; lia|by eapply recorded_later].
Qed.
Lemma new_process_base u s : new_process s → base u s.
Proof. intros (T & S & C & R). split; rewrite ?T; try done; [..|set_solver]; [set_solver|by intros [] ????|set_solver]. Qed.
Lemma new_process_sound u s : new_process s → sound u s.
Proof. intros H. split; [by apply new_process_base|apply H]. Qed.

Definition ends_some (e : stop) (s : daemon) : Prop := ∃ u, ends_well u e s.
Lemma begun_ok d : triple new_process (track (OBegin tracker (tables_of d))) (ends_well (UUID d))
  (λ r s, match r with None => idle (UUID d) (tables_in (tables_of d)) false (λ _, False) s | Some _ => sound (UUID d) s end).
Proof.
  apply triple_track; [apply steady_later, new_process_later|intros s H; apply sound_ends; [by apply new_process_sound|done]|].
  intros s calls r file H U. assert (B : base (UUID d) (set_file file s)) by by destruct (new_process_base (UUID d) s H).
  destruct H as (T & S & C & R). assert (R' := recorded_begin _ _ s calls r file C R U). destruct r as [[]|e|]; [|by split|by apply sound_ends].
  split; [done| | | | |done].
  - split; [exact R'|]. destruct R as (r & t & b & seen & Ep & _).
    destruct (update_done _ _ _ _ _ _ (episode_files _ _ _ _ _ Ep) U) as (st & st' & Cu & Ap & F).
    intros f Hf. destruct (F f Hf) as [-> Sy]. split; [|done]. by apply (begin_watches ns tracker (tables_of d) (dm_clock s) st).
  - split; cbn; by rewrite S, ?T.
  - cbn. by rewrite S, T.
  - cbn. rewrite T. intros j d' p' []%not_elem_of_nil.
Qed.
Lemma start_up_ok : triple new_process start_up ends_some (λ a s, ∃ u, waiting u a s).
Proof.
  unfold Daemon.start_up. eapply triple_bind; [apply loadDesired_ok|].
  - apply steady_later, new_process_later.
  - intros s H. exists []. apply sound_ends; [by apply new_process_sound|done].
  - assert (Fa : ∀ z, z ≠ 0 → triple new_process (exit z) ends_some (λ a s, ∃ u, waiting u a s)).
    { intros z Hz. apply triple_ends. intros s H. exists []. apply sound_ends; [by apply new_process_sound|congruence]. }
    intros [d|e|]; cbn [of_result].
    + eapply triple_bind; [by apply triple_ret with (Q := λ r s, r = inr d ∧ new_process s)|]. intros r. apply triple_pure. intros ->.
      apply triple_weaken with (X' := ends_well (UUID d)); [intros e s H; by exists (UUID d)|].
      eapply triple_bind; [apply begun_ok|]. intros [e|]; [apply triple_ends; intros s H; by apply sound_ends|].
      eapply triple_bind; [by apply startRunner_ok|]. intros [f|a].
      * apply triple_ends. intros s H. apply sound_ends; [|done]. destruct f; [exact H|by eapply idle_sound].
      * eapply triple_bind; [apply triple_modify with (Q := λ _, waiting (UUID d) a)|intros []; apply triple_ret; intros s H; by exists (UUID d)].
        intros s [[B C [S1 S2] E R O] Ea]. destruct a as [id d']. cbn in Ea. subst d'.
        split; [by destruct B|by destruct C|by split|done|done].
    + eapply triple_bind; [by apply triple_ret with (Q := λ r s, r = inl e ∧ new_process s)|]. intros r. apply triple_pure. intros ->. by apply Fa.
    + eapply triple_bind; [apply triple_ends with (Q := λ _ _, False)|by intros r l s].
      intros s H. exists []. apply sound_ends; [by apply new_process_sound|done].
Qed.
Lemma main_ok n : triple new_process (main n) ends_some (λ a s, ∃ u, waiting u a s).
Proof.
  eapply triple_bind; [apply start_up_ok|]. intros a l s [u H].
  pose proof (iterate_ok u n a l s H) as I. destruct (iterate n a (l, s)) as [[e|b] [l' s']]; by exists u.
Qed.
Lemma one_node u s : base u s → ∀ id d p id' d' p', Started id d p ∈ dm_trace s → Started id' d' p' ∈ dm_trace s → UUID d = UUID d'.
Proof. intros B id d p id' d' p' H H'. by rewrite (bs_node _ _ B _ _ _ H), (bs_node _ _ B _ _ _ H'). Qed.
Lemma zero_process clock r t ret seen file : 0 < clock → t <= clock → episode r t ret seen file → new_process (daemon_zero clock file).
Proof. intros C L E. split_and!; [done..|]. exists r, t, ret, seen. split_and!; [done..|set_solver]. Qed.

(** C34: one generation at a time. Take a recovery file that earlier operations
    left ([episode]) and a clock that is past zero and not before the last of
    them. Whatever the process meets (signals, reloads, files that cannot be
    read, generations that fail, end or do not stop) and whenever it is
    observed: a generation is started only after all others have ended, and all
    are of one node; a reload that is answered without an error runs what was
    loaded, one with an error what ran before; the service manager hears only of
    maintenance in the last three intervals or fifteen seconds. Where the
    process waits in its loop exactly its generation may be alive, it is ready,
    the generation of the configuration is one more than the reloads that
    replaced it, and the error in its status is that of the last reload; when it
    ends with status 0, no generation is left. *)
Theorem one_generation n l clock r t ret seen file : 0 < clock → t <= clock → episode r t ret seen file →
  let '(out, (_, s)) := main n (l, daemon_zero clock file) in
  one_at_a_time (dm_trace s) ∧
  (∀ id d p id' d' p', Started id d p ∈ dm_trace s → Started id' d' p' ∈ dm_trace s → UUID d = UUID d') ∧
  (∀ f, f ∈ dm_trace s → truthful f) ∧
  match out with
  | inr active =>
    all_ended_but (λ j, j = rn_id active) (dm_trace s) ∧ (∃ p, Started (rn_id active) (rn_desired active) p ∈ dm_trace s) ∧
    dm_status s = mkDaemonStatus true ((1 + commits (dm_trace s)) mod 2 ^ 64) (last_error (dm_trace s))
  | inl e => e = Exit 0 → all_ended_but (λ _, False) (dm_trace s)
  end.
Proof.
  intros C L E. pose proof (main_ok n l _ (zero_process _ _ _ _ _ _ C L E)) as M. destruct (main n _) as [[e|a] [l' s]].
  - destruct M as (u & [[B _] F]). split_and!; [apply B|by apply (one_node u)|apply B|].
    intros ->. by apply F.
  - destruct M as (u & [B _ [S1 S2] S3 [R1 R2]]). split_and!; [apply B|by apply (one_node u)|apply B|done|done|].
    destruct (dm_status s). cbn in *. congruence.
Qed.

(** The recovery record covers what runs.  The life of the process is a part of a
    history of the record ([episode]), from which its retirement is judged.  Where the
    process waits in its loop, and so when it is killed there, the record watches the
    node in this namespace, the node was not retired since the process began, and the
    tables of the generation that runs are in the record and in its history.  When it
    ends with status 0, unless it ran once, the record stopped watching and its
    history begins anew. *)
Theorem record_covers n l clock r t ret seen file : 0 < clock → t <= clock → episode r t ret seen file →
  let '(out, (_, s)) := main n (l, daemon_zero clock file) in
  ∃ r' t' ret' seen', episode r' t' ret' seen' (dm_file s) ∧ t' <= dm_clock s ∧
  match out with
  | inr active => ret' = false ∧ tables_in (tables_of (rn_desired active)) ⊆ seen' ∧
      ∃ st, current (dm_file s) = Some st ∧ watched ns st = true ∧ Node st = uuid_String (UUID (rn_desired active)) ∧
        tables_in (tables_of (rn_desired active)) ⊆ list_to_set (Tables st)
  | inl e => e = Exit 0 → once = false → r' = t' ∧ ∃ st, current (dm_file s) = Some st ∧ Running st = false
  end.
Proof.
  intros C L E. pose proof (main_ok n l _ (zero_process _ _ _ _ _ _ C L E)) as M. destruct (main n _) as [[e|a] [l' s]].
  - destruct M as (u & [[B (r1 & t1 & b1 & s1 & E1 & L1 & _)] F]). destruct (decide (e = Exit 0 ∧ once = false)) as [[-> Ho]|N].
    + destruct (F eq_refl) as [_ G]. destruct (G Ho) as (t2 & b2 & s2 & E2 & L2 & A2). exists t2, t2, b2, s2. split_and!; [done|done|].
      intros _ _. split; [done|]. apply (all_files_current _ A2).
    + exists r1, t1, b1, s1. split_and!; [done|done|]. intros He Ho. destruct N. by split.
  - destruct M as (u & [B [(r1 & t1 & b1 & s1 & E1 & L1 & B1 & T1) A] _ _ [_ [p R2]]]). exists r1, t1, b1, s1.
    split_and!; [done|done|by apply B1|done|]. destruct (all_files_current _ A) as (st & Cu & Nd & W & T).
    exists st. split_and!; [done|done| |done]. by rewrite (bs_node _ _ B _ _ _ R2).
Qed.
End Daemon.
