(* ===== verification/DaemonRun.v ===== *)
(** Runs of the process of Daemon.v: a reload that commits, one that is refused, a
    clean stop; and three that end otherwise than they mean to. *)

From S2P Require Import Prelude AtomicFile Netip Ports Spec Desired Recovery Routes Validate Daemon DaemonProps Netlink RunKernel SpecifiedRun.
From stdpp Require Import gmap strings.
Open Scope Z_scope.
Open Scope velvet_scope.

(** * A process *)

(** A specification with one peer, in a table. *)
Definition node_spec (table : Z) : NodeSpec :=
  mkNodeSpec "velvet.io/v1alpha2" "NodeSpec"
    (mkFabricSpec "AQIDBAAAAAAAAAAAAAAAAAAAAAAAAAAAAAAAAAAAAAA=" "10.255.0.0/16" "fd00:2::/64" "fd00:1::/64" None (Some table) ∅)
    (mkNode (mkNodeUID "a" "6ba7b810-9dad-11d1-80b4-00c04fd430c8") "CQAAAAAAAAAAAAAAAAAAAAAAAAAAAAAAAAAAAAAAAAA=" "fd00:1::9") [run_peer ""] None None ∅.
Definition plain_hkdf (secret info : list byte) : result (list byte) := Ok (replicate 32 x01).
Definition run_tracker : Tracker := mkTracker 1800000000000 60000000000.
Definition run_main (once : bool) (n : nat) (l : list action) : (stop + running) * env :=
  main parse_uuid uuid_text parse_key run_public plain_hkdf false once (15 * 1000000000) run_tracker "net:1" n (l, daemon_zero 1000 (mkFs None [] None [])).
Definition final (n : nat) (l : list action) : daemon := (run_main false n l).2.2.
Definition record_of (s : daemon) : State := default State_zero (current (dm_file s)).
Definition tables_started (t : list note) : list Z := omap (λ f, match f with Started _ d _ => Some (FabricTableID d) | _ => None end) t.
Lemma no_record : episode 0 0 false ∅ (mkFs None [] None []).
Proof.
  constructor. intros f Hf. apply list_elem_of_singleton in Hf as ->. split; [|done]. intros st [= <-]. split_and!; cbn; lia.
Qed.

(** It starts with table 100; a reload commits table 200; a request fails because
    the file cannot be read; the ticker finds progress; SIGTERM. *)
Definition good_life : list action :=
  [A_spec (Ok (node_spec 100)); A_files []; A_ready None;
   A_hangup; A_spec (Ok (node_spec 200)); A_done None; A_ready None; A_files [];
   A_request 7; A_spec (Err (errors_New "no such file")); A_files [];
   A_later 5000000000; A_tick; A_files [];
   A_stop; A_ctx; A_done None; A_files []].
Lemma one_generation_witness : episode 0 0 false ∅ (mkFs None [] None []) ∧ (run_main false 9 good_life).1 = inl (Exit 0) ∧
  one_at_a_time (dm_trace (final 9 good_life)) ∧ all_ended_but (λ _, False) (dm_trace (final 9 good_life)).
Proof.
  assert (E : (run_main false 9 good_life).1 = inl (Exit 0)) by by vm_compute.
  pose proof (one_generation parse_uuid uuid_text parse_key run_public plain_hkdf false false (15 * 1000000000) run_tracker "net:1" 9 good_life
    1000 0 0 false ∅ _ ltac:(lia) ltac:(lia) no_record) as W.
  split; [exact no_record|]. split; [exact E|]. unfold final. unfold run_main in *. destruct (main _ _ _ _ _ _ _ _ _ _ 9 _) as [out [l s]].
  cbn [fst snd] in *. subst out. destruct W as (W1 & _ & _ & W2). split; [exact W1|exact (W2 eq_refl)].
Defined.
Lemma record_covers_witness : episode 0 0 false ∅ (mkFs None [] None []) ∧ ∃ active s l, run_main false 3 good_life = (inr active, (l, s)) ∧
  (FabricTableID (rn_desired active), dm_status s) = (200, mkDaemonStatus true 2 (Some (errors_New "no such file"))) ∧
  ∃ st, current (dm_file s) = Some st ∧ watched "net:1" st = true ∧ 200 ∈ Tables st.
Proof.
  assert (E : match run_main false 3 good_life with
    | (inr a, (_, s)) => (FabricTableID (rn_desired a), dm_status s) = (200, mkDaemonStatus true 2 (Some (errors_New "no such file"))) | _ => False end) by by vm_compute.
  pose proof (record_covers parse_uuid uuid_text parse_key run_public plain_hkdf false false (15 * 1000000000) run_tracker "net:1" 3 good_life
    1000 0 0 false ∅ _ ltac:(lia) ltac:(lia) no_record) as W.
  split; [exact no_record|]. unfold run_main in *. destruct (main _ _ _ _ _ _ _ _ _ _ 3 _) as [[e|a] [l s]]; [destruct E|].
  exists a, s, l. split; [done|]. split; [exact E|]. destruct W as (r & t & b & seen & _ & _ & _ & _ & st & Cu & Wt & _ & T). exists st.
  split; [exact Cu|split; [exact Wt|]]. apply (elem_of_list_to_set (C:=gset Z)), T. unfold tables_in, tables_of. cbn [Recovery.FabricTableID].
  injection E as -> _. set_solver.
Defined.

(** * What the exits leave behind *)

(** SIGTERM while a configuration is being replaced: the candidate is cancelled, the
    rollback is cancelled as well, and the process ends with status 1 without ending
    the episode, as if it had failed.  The service manager records the failure
    ([ExecStopPost]), and the node is due for retirement half an hour after an
    operator stopped it. *)
Definition stopped_in_reload : list action :=
  [A_spec (Ok (node_spec 100)); A_files []; A_ready None; A_later 60000000000; A_maintained; A_tick; A_files [];
   A_hangup; A_spec (Ok (node_spec 200)); A_done None; A_stop; A_ctx; A_done None; A_ctx; A_done None].
Definition due_after_failure (s : daemon) : bool :=
  match Failure (dm_clock s) (record_of s) with
  | Ok st => bool_decide (is_Some (Check_due "net:1" (dm_clock s + 1800000000000) st))
  | _ => false
  end.
Lemma stop_during_reload_retires :
  match run_main false 5 stopped_in_reload with
  | (inl e, (_, s)) => e = Exit 1 ∧ dm_stopping s = true ∧ due_after_failure s = true
  | _ => False
  end.
Proof. by vm_compute. Qed.

(** A candidate that fails may have installed what it wants in its tables.  When the
    rollback fails as well, the process ends, and these tables were never recorded. *)
Definition failed_reload : list action :=
  [A_spec (Ok (node_spec 100)); A_files []; A_ready None;
   A_hangup; A_spec (Ok (node_spec 200)); A_done None; A_ready (Some (errors_New "reconcile")); A_done None; A_timer; A_done None].
Lemma candidate_unrecorded :
  match run_main false 5 failed_reload with
  | (inl e, (_, s)) => e = Exit 1 ∧ tables_started (dm_trace s) = [100; 200; 100] ∧ Tables (record_of s) = [100]
  | _ => False
  end.
Proof. by vm_compute. Qed.
