(* ===== verification/StaticPorts.v ===== *)
(** The ports of configured Links: [reserveStaticPorts] and [reserveStaticPort] of
    runtime/ports.go, [liveDesired] and [retryStaticPort] of
    runtime/link_manager.go, and the wait for a port in [runLink]
    (runtime/link_discovery.go). *)

From S2P Require Import Prelude Netip Ports Desired Interfaces DynamicPolicy Attempts Routes.
From stdpp Require Import gmap strings.
Open Scope Z_scope.
Open Scope velvet_scope.

Definition set_WaitingPort (v : bool) (p : LinkPlan) : LinkPlan :=
  mkLinkPlan v (lk_Ports p) (Probing p) (ReceiveOnly p) (lk_PeerName p) (InterfaceName p) (OwnerAlias p)
    (lk_PrivateKey p) (PeerPublicKey p) (PresharedKey p) (ListenPort p) (lk_Endpoints p) (Keepalive p) (BootstrapAddress p) (LinkOverrides p).

Section Static.
(** [net.ListenUDP] on a port, with the port that the socket has, and [Close]. *)
Context {E : Type} (listen : Z → E → (error + Z) * E) (close : E → E).

(** The pool, the resources of [linkManager], and the rest of the machine. *)
Record statics := mkStatics { sp_ports : portPool; sp_resources : gmap string linkResources; sp_env : E }.
Definition own_port (plan : LinkPlan) (lease : portLease) (st : statics) : statics :=
  mkStatics (sp_ports st) (<[OwnerAlias plan := mkResources plan (Some lease) false]> (sp_resources st)) (sp_env st).
(** [linkManager.removed]. *)
Definition removed_port (plan : LinkPlan) (err : result unit) (st : statics) : statics :=
  match sp_resources st !! OwnerAlias plan with
  | None => st
  | Some r =>
    match err with
    | Ok _ => mkStatics (lease_release (res_port r) (sp_ports st)) (delete (OwnerAlias plan) (sp_resources st)) (sp_env st)
    | _ => mkStatics (sp_ports st) (<[OwnerAlias plan := mkResources (res_plan r) (res_port r) true]> (sp_resources st)) (sp_env st)
    end
  end.
(** A Link that owns its resources, [owned != nil && !owned.cleanup]. *)
Definition owned_plan (plan : LinkPlan) (rs : gmap string linkResources) : option LinkPlan :=
  r ← rs !! OwnerAlias plan; if cleanup r then None else Some (res_plan r).

(** ** Reserving *)

(** The function it binds with; [x.1] says whether its [socket] is open. *)
Definition static_bind (sticky port : Z) (x : bool * E) : (error + Z) * (bool * E) :=
  let x := if x.1 then (false, close x.2) else x in
  if negb (port =? 0) && (port =? sticky) then (inr port, x)
  else match listen port x.2 with (inl e, y) => (inl e, (false, y)) | (inr actual, y) => (inr actual, (true, y)) end.
Definition reserveStaticPort (sticky start : Z) (plan : LinkPlan) (st : statics) : bind_result * statics :=
  let '(r, ports, (socket, x)) := portPool_bind (static_bind sticky) (lk_Ports plan) sticky start (sp_ports st) (false, sp_env st) in
  (r, mkStatics ports (sp_resources st) (if socket : bool then close x else x)).

(** The port that an interface has now, and [rand.IntN]. *)
Context (sticky start : LinkPlan → Z).
Definition fixed_port (plan : LinkPlan) : bool := negb (pc_Port (lk_Ports plan) =? 0).
Definition reserve_link (fixed : bool) (plan : LinkPlan) (st : statics) : result (LinkPlan * statics) :=
  if negb (eqb (fixed_port plan) fixed) then Ok (plan, st)
  else
    match owned_plan plan (sp_resources st) with
    | Some owned => Ok (set_port_plan (ListenPort owned) plan, st)
    | None =>
      match reserveStaticPort (sticky plan) (start plan) plan st with
      | (BindPanic, _) => Panic
      | (Bound lease, st) => let plan := set_port_plan (lease_port lease) plan in Ok (plan, own_port plan lease st)
      | (_, st) => Ok (set_WaitingPort true plan, st)
      end
    end.
Fixpoint reserve_pass (fixed : bool) (plans : list LinkPlan) (st : statics) : result (list LinkPlan * statics) :=
  match plans with
  | [] => Ok ([], st)
  | plan :: plans =>
    '(plan, st) ← reserve_link fixed plan st;
    '(plans, st) ← reserve_pass fixed plans st;
    Ok (plan :: plans, st)
  end.
(** Fixed reservations go first. *)
Definition reserveStaticPorts (plans : list LinkPlan) (st : statics) : result (list LinkPlan * statics) :=
  '(plans, st) ← reserve_pass true plans st; reserve_pass false plans st.

(** ** What maintenance works on *)

Definition live_links (rs : gmap string linkResources) (plans : list LinkPlan) : list LinkPlan :=
  map (λ plan, default plan (owned_plan plan rs)) plans.
Definition liveDesired (rs : gmap string linkResources) (d : DesiredState) : DesiredState :=
  mkDesiredState (RetainedLinks d) (Ports d) (ds_Durable d) (ds_UID d) (UUID d) (FabricPSK d) (LinkPoolV4 d) (LinkPoolV6 d) (LoopbackPoolV6 d)
    (LoopbackV6 d) (ds_VFPPort d) (FabricTableID d) (LoopbackOwnerAlias d) (Forwarding d) (live_links rs (Links d)) (ds_Routes d) (Rules d) (ds_Babel d)
    (ds_DynamicLinks d) (ds_PrivateKey d).

(** ** Waiting for a port *)

(** What a retry meets: the random start, the port that the device reports when it
    is prepared and configured, whether an endpoint is chosen, and the jitter of the
    next delay. *)
Record retry := mkRetry { rt_sticky : Z; rt_start : Z; rt_configured : Z; rt_actual : Z; rt_change : bool; rt_draw : Z }.
Definition PrepareConfigure (c : retry) (next : LinkPlan) : K LinkPlan :=
  K_bind _ _ (λ next, K_bind _ _ (λ _, K_ret _ next) (ConfigureDynamic (rt_actual c) (rt_change c) next)) (PrepareDynamic (rt_configured c) next).
(** The plan in the result is that of the first return value, with or without an
    error. *)
Definition retryStaticPort (c : retry) (plan : LinkPlan) (st : statics) (k : kernel) : (LinkPlan * option error) * (statics * kernel) :=
  match reserveStaticPort (rt_sticky c) (rt_start c) plan st with
  | (Bound lease, st) =>
    let next := set_WaitingPort false (set_port_plan (lease_port lease) plan) in
    let st := own_port next lease st in
    let '(r, k) := PrepareConfigure c next k in
    match r with
    | Ok next => ((next, None), (own_port next lease st, k))
    | _ =>
      let '(cleanupErr, k) := RemoveDynamic plan k in
      ((plan, Some (errors_New "prepare")), (removed_port plan cleanupErr st, k))
    end
  | (_, st) => ((plan, Some (errors_New "Link UDP ports unavailable")), (st, k))
  end.
(** The loop of [runLink]: the retries until one succeeds, and the delays before
    the next. *)
Fixpoint await_port (l : list retry) (failures : Z) (plan : LinkPlan) (st : statics) (k : kernel) : option LinkPlan * list Z * (statics * kernel) :=
  match l with
  | [] => (None, [], (st, k))
  | c :: l =>
    let '((plan, err), (st, k)) := retryStaticPort c plan st k in
    match err with
    | None => (Some plan, [], (st, k))
    | Some _ =>
      let '(r, delays, w) := await_port l (Z.min (failures + 1) 7) plan st k in
      (r, DynamicPolicy.retryDelay failures (rt_draw c) :: delays, w)
    end
  end.
End Static.
Arguments mkStatics {E} _ _ _. Arguments sp_ports {E} _. Arguments sp_resources {E} _. Arguments sp_env {E} _.
