(* ===== verification/StaticPortsProps.v ===== *)
(** The ports of configured Links (StaticPorts.v): what is reserved at the start, and
    what a retry leaves. *)

From S2P Require Import Prelude Netip Ports Desired Interfaces DynamicPolicy Attempts Routes StaticPorts.
From stdpp Require Import gmap strings.
Open Scope Z_scope.
Open Scope velvet_scope.

Section Static.
Context {E : Type} (listen : Z → E → (error + Z) * E) (close : E → E).
Notation statics := (@statics E).
Notation static_bind := (static_bind listen close).
Notation reserveStaticPort := (reserveStaticPort listen close).
Notation retryStaticPort := (retryStaticPort listen close).

(** * Leases and resources *)

(** Every Link holds its own lease, and every lease is held by a Link. *)
Record coherent (st : statics) : Prop := {
  co_pool : pool_ok (sp_ports st);
  co_held : ∀ a r, sp_resources st !! a = Some r → ∃ l, res_port r = Some l ∧ leases (sp_ports st) !! lease_port l = Some l ∧
    (cleanup r = false → ListenPort (res_plan r) = lease_port l);
  co_apart : ∀ a b r s l, sp_resources st !! a = Some r → sp_resources st !! b = Some s → res_port r = Some l → res_port s = Some l → a = b;
  co_accounted : ∀ q l, leases (sp_ports st) !! q = Some l → ∃ a r, sp_resources st !! a = Some r ∧ res_port r = Some l }.
Definition none_flagged (st : statics) : Prop := ∀ a r, sp_resources st !! a = Some r → cleanup r = false.
(** What [rand.IntN] and the validation of the specification promise. *)
Definition choice_ok (plan : LinkPlan) (start : Z) : Prop :=
  wf_choice (lk_Ports plan) ∧ (First (Range (lk_Ports plan)) ≠ 0 → 0 <= start < Last (Range (lk_Ports plan)) - First (Range (lk_Ports plan)) + 1).

(** A lease that was just bound. *)
Definition fresh_lease (plan : LinkPlan) (l : portLease) (p p' : portPool) : Prop :=
  leases p' = <[lease_port l := l]> (leases p) ∧ vfpPort p' = vfpPort p ∧ lease_id l = next_lease p ∧ free p (lease_port l) ∧
  admits (lk_Ports plan) (lease_port l) ∧ 1 <= lease_port l <= 65535 ∧ pool_ok p'.
(** Why a fixed port is not had. *)
Definition unavailable (p : portPool) (port : Z) : Prop :=
  port = vfpPort p ∨ is_Some (leases p !! port) ∨ ∃ sticky x, (static_bind sticky port x).1 ≠ inr port.

Lemma fixed_refused sticky port p x r p' x' last : 1 <= port <= 65535 → bind_loop (static_bind sticky) [port] last p x = (r, p', x') →
  match r with Bound _ => True | _ => unavailable p port end.
Proof.
  intros P. cbn [bind_loop]. replace (port =? 0) with false by (symmetry; apply Z.eqb_neq; lia). cbn [negb andb].
  destruct (port =? vfpPort p) eqn:Ev; [intros [= <- _ _]; bool_to_prop; by left|].
  case_bool_decide as L; [intros [= <- _ _]; by right; left|].
  destruct (static_bind sticky port x) as [[e|actual] y] eqn:B.
  { intros [= <- _ _]. right. right. exists sticky, x. by rewrite B. }
  destruct (decide (actual = port)) as [->|N].
  2: { replace (actual =? port) with false by (symmetry; by apply Z.eqb_neq). intros [= <- _ _]. right. right. exists sticky, x. rewrite B. cbn. congruence. }
  rewrite Z.eqb_refl. replace (port <? 1) with false by (symmetry; apply Z.ltb_ge; lia). replace (65535 <? port) with false by (symmetry; apply Z.ltb_ge; lia).
  cbn [negb orb]. rewrite Ev. rewrite bool_decide_eq_false_2 by done. by intros [= <- _ _].
Qed.
Lemma reserveStaticPort_ok sticky start plan st : choice_ok plan start → pool_ok (sp_ports st) →
  let '(r, st') := reserveStaticPort sticky start plan st in
  sp_resources st' = sp_resources st ∧
  match r with
  | Bound l => fresh_lease plan l (sp_ports st) (sp_ports st')
  | BindPanic => False
  | _ => sp_ports st' = sp_ports st ∧ (fixed_port plan = true → unavailable (sp_ports st) (pc_Port (lk_Ports plan)))
  end.
Proof.
  intros [W St] P. unfold StaticPorts.reserveStaticPort, portPool_bind.
  destruct (bind_candidates_ok (lk_Ports plan) sticky start W St) as (cs & Ec & A). rewrite Ec.
  destruct (bind_loop (static_bind sticky) cs None (sp_ports st) (false, sp_env st)) as [[r p'] [so x']] eqn:B.
  assert (F : fixed_port plan = true → match r with Bound _ => True | _ => unavailable (sp_ports st) (pc_Port (lk_Ports plan)) end).
  { unfold fixed_port. intros Hf. bool_to_prop. apply wf_choice_inv in W as [Wp [Wr|(Wz & _)]]; [|done].
    unfold bind_candidates in Ec. rewrite Wr in Ec. cbn in Ec. replace (pc_Port (lk_Ports plan) =? 0) with false in Ec by (symmetry; by apply Z.eqb_neq).
    injection Ec as <-. eapply fixed_refused; [|exact B]. lia. }
  apply bind_loop_ok in B. pose proof (bound_pool_ok _ _ _ _ _ _ P B) as P'. split; [done|].
  destruct r as [l| | |]; cbn in B; [|by split; auto..|done].
  destruct B as (El & Ev & Ei & _ & Fr & R & asked & y & Ha & _ & D). split_and!; try done; [by eapply A|apply R..].
Qed.

Lemma own_coherent plan plan' l st ports x : coherent st → fresh_lease plan l (sp_ports st) ports → sp_resources st !! OwnerAlias plan' = None →
  ListenPort plan' = lease_port l → coherent (own_port plan' l (mkStatics ports (sp_resources st) x)).
Proof.
  intros [P H A C] (El & Ev & Ei & [Fr Nv] & Ad & Rg & P') N Lp. split; cbn; [done| | |]; rewrite ?El.
  - intros a r [[<- <-]|[Na Hr]]%lookup_insert_Some.
    + exists l. split_and!; [done|by rewrite lookup_insert_eq|done].
    + destruct (H a r Hr) as (l' & E1 & E2 & E3). exists l'. split_and!; [done| |done]. rewrite lookup_insert_ne; [done|]. congruence.
  - assert (New : ∀ a r, sp_resources st !! a = Some r → res_port r = Some l → False).
    { intros a r Hr Hl. destruct (H a r Hr) as (l' & E1 & E2 & _). congruence. }
    intros a b r s l0 [[<- <-]|[Na Hr]]%lookup_insert_Some [[<- <-]|[Nb Hs]]%lookup_insert_Some E1 E2; cbn in *; [done| | |by eapply A].
    + exfalso. eapply New; [exact Hs|congruence].
    + exfalso. eapply New; [exact Hr|congruence].
  - intros q l0 [[<- <-]|[Nq Hq]]%lookup_insert_Some.
    + exists (OwnerAlias plan'). eexists. by rewrite lookup_insert_eq.
    + destruct (C q l0 Hq) as (a & r & Ha & Hl). exists a, r. rewrite lookup_insert_ne; [done|]. congruence.
Qed.

(** * The start *)

Section Start.
Context (sticky start : LinkPlan → Z).
Notation reserve_link := (reserve_link listen close sticky start).
Notation reserve_pass := (reserve_pass listen close sticky start).
Notation reserveStaticPorts := (reserveStaticPorts listen close sticky start).

(** A plan after its reservation: its Link owns a lease of the port that the plan
    names, an adopted one or one that its choice admits; or it waits. *)
Definition settled (st st' : statics) (plan plan' : LinkPlan) : Prop :=
  (∃ r l, sp_resources st' !! OwnerAlias plan = Some r ∧ cleanup r = false ∧ res_port r = Some l ∧ plan' = set_port_plan (lease_port l) plan ∧
    (sp_resources st !! OwnerAlias plan = Some r ∨ admits (lk_Ports plan) (lease_port l))) ∨
  plan' = set_WaitingPort true plan.
Record grown (st st' : statics) : Prop := {
  gr_resources : sp_resources st ⊆ sp_resources st'; gr_leases : leases (sp_ports st) ⊆ leases (sp_ports st'); gr_vfp : vfpPort (sp_ports st') = vfpPort (sp_ports st) }.
Lemma grown_refl st : grown st st.
Proof. by split. Qed.
Lemma grown_trans st1 st2 st3 : grown st1 st2 → grown st2 st3 → grown st1 st3.
Proof. intros [A B C] [A' B' C']. split; [by etrans|by etrans|congruence]. Qed.
Lemma settled_grown st st1 st2 plan plan' : settled st st1 plan plan' → grown st1 st2 → settled st st2 plan plan'.
Proof. intros [(r & l & H & R)|W] G; [left|by right]. exists r, l. split; [|done]. by eapply lookup_weaken, gr_resources. Qed.
Lemma settled_later st0 st1 st2 plan plan' : grown st0 st1 → (∀ r, sp_resources st1 !! OwnerAlias plan = Some r → sp_resources st0 !! OwnerAlias plan = Some r) →
  settled st1 st2 plan plan' → settled st0 st2 plan plan'.
Proof. intros G N [(r & l & H & C & L & Ep & [B|B])|W]; [left; exists r, l; auto 10|left; exists r, l; auto 10|by right]. Qed.

(** The ports that a pass over fixed or other plans may take. *)
Definition taken_by (fixed : bool) (plans : list LinkPlan) (st st' : statics) : Prop :=
  ∀ q, is_Some (leases (sp_ports st') !! q) → is_Some (leases (sp_ports st) !! q) ∨ fixed = false ∨ ∃ other, other ∈ plans ∧ fixed_port other = true ∧ pc_Port (lk_Ports other) = q.
Definition owners (fixed : bool) (plans : list LinkPlan) (st st' : statics) : Prop :=
  ∀ a r, sp_resources st' !! a = Some r → sp_resources st !! a = Some r ∨ ∃ plan, plan ∈ plans ∧ fixed_port plan = fixed ∧ OwnerAlias plan = a.
Definition good (st : statics) : Prop := coherent st ∧ none_flagged st.

Definition plan_ok (plan : LinkPlan) : Prop := WaitingPort plan = false ∧ choice_ok plan (start plan).
Lemma waits_not plan p : WaitingPort plan = false → set_port_plan p plan ≠ set_WaitingPort true plan.
Proof. intros W [=]. congruence. Qed.
Lemma same_state (plan plan' : LinkPlan) fixed (st : statics) (Q : Prop) : good st → Q →
  Ok (plan', st) = Ok (plan', st) ∧ good st ∧ grown st st ∧ taken_by fixed [plan] st st ∧ owners fixed [plan] st st ∧ Q.
Proof. intros G HQ. split; [done|]. split; [done|]. split; [apply grown_refl|]. split; [by intros q; left|]. split; [by intros a r; left|done]. Qed.
Lemma reserve_link_ok fixed plan st : good st → (fixed_port plan = fixed → plan_ok plan) →
  ∃ plan' st', reserve_link fixed plan st = Ok (plan', st') ∧ good st' ∧ grown st st' ∧ taken_by fixed [plan] st st' ∧ owners fixed [plan] st st' ∧
    (if eqb (fixed_port plan) fixed then settled st st' plan plan' ∧ (fixed = true → plan' = set_WaitingPort true plan → unavailable (sp_ports st) (pc_Port (lk_Ports plan)))
     else plan' = plan).
Proof.
  intros [Co Nf] Pl. unfold StaticPorts.reserve_link. destruct (eqb (fixed_port plan) fixed) eqn:Ef; cbn [negb].
  2: { exists plan, st. by apply same_state. }
  apply eqb_prop in Ef. destruct (Pl Ef) as [Wt Ch]. unfold owned_plan. destruct (sp_resources st !! OwnerAlias plan) as [r|] eqn:Er; cbn.
  - rewrite (Nf _ _ Er). destruct (co_held _ Co _ _ Er) as (l & Hl & Le & Lp). exists (set_port_plan (lease_port l) plan), st.
    rewrite Lp by (by eapply Nf). apply same_state; [done|]. split.
    + left. exists r, l. split_and!; try done; [by eapply Nf|by left].
    + intros _ Ew. by destruct (waits_not plan (lease_port l) Wt).
  - pose proof (reserveStaticPort_ok (sticky plan) (start plan) plan st Ch (co_pool _ Co)) as R.
    destruct (reserveStaticPort (sticky plan) (start plan) plan st) as [res st1]. destruct R as [Rs R].
    assert (Waits : sp_ports st1 = sp_ports st → (fixed_port plan = true → unavailable (sp_ports st) (pc_Port (lk_Ports plan))) → ∃ plan' st',
      Ok (set_WaitingPort true plan, st1) = Ok (plan', st') ∧ good st' ∧ grown st st' ∧ taken_by fixed [plan] st st' ∧ owners fixed [plan] st st' ∧
      (settled st st' plan plan' ∧ (fixed = true → plan' = set_WaitingPort true plan → unavailable (sp_ports st) (pc_Port (lk_Ports plan))))).
    { intros Ep Un. exists (set_WaitingPort true plan), st1. split; [done|].
      split; [split; [destruct Co; split; by rewrite ?Rs, ?Ep|intros a r; rewrite Rs; apply Nf]|].
      split; [split; by rewrite ?Rs, ?Ep|]. split; [intros q Hq; left; by rewrite <- Ep|]. split; [intros a r Ha; left; by rewrite <- Rs|].
      split; [by right|]. intros ? _. apply Un. congruence. }
    destruct res as [l| | |]; [clear Waits|by destruct R; apply Waits..|done].
    destruct st1 as [ports rs x]. cbn in Rs, R. subst rs. pose proof R as (El & Ev & Ei & [Fr Nv] & Ad & Rg & P').
    eexists _, _. split; [done|]. split; [split|].
    + by eapply own_coherent.
    + intros a r. cbn. intros [[<- <-]|[Na Hr]]%lookup_insert_Some; [done|by eapply Nf].
    + split; [split; cbn; [by apply insert_subseteq|rewrite El; by apply insert_subseteq|done]|].
      split; [|split; [|split]].
      * intros q. cbn. rewrite El. intros [l' [[<- <-]|[Nq Hq]]%lookup_insert_Some]; [|by left; eexists].
        right. destruct fixed; [right|by left]. exists plan. split_and!; [by left|done|].
        unfold admits in Ad. unfold fixed_port in Ef. bool_to_prop. destruct Ch as [[Wp [Wr|(Wz & _)]]%wf_choice_inv _]; [|done].
        rewrite Wr in Ad. cbn in Ad. by destruct Ad.
      * intros a r. cbn. intros [[<- <-]|[Na Hr]]%lookup_insert_Some; [right; exists plan; split_and!; [by left|done..]|by left].
      * left. exists (mkResources (set_port_plan (lease_port l) plan) (Some l) false), l. cbn. rewrite lookup_insert_eq. split_and!; try done. by right.
      * intros _ Ew. by destruct (waits_not plan (lease_port l) Wt).
Qed.


(** Why a fixed port is not had at the start: it is the VFP port, an adopted Link
    has it, another Link is configured with it, or the kernel refuses it. *)
Definition starved (st : statics) (plans : list LinkPlan) (plan : LinkPlan) : Prop :=
  let port := pc_Port (lk_Ports plan) in
  port = vfpPort (sp_ports st) ∨ is_Some (leases (sp_ports st) !! port) ∨
  (∃ other, other ∈ plans ∧ OwnerAlias other ≠ OwnerAlias plan ∧ pc_Port (lk_Ports other) = port) ∨
  ∃ sticky x, (static_bind sticky port x).1 ≠ inr port.
Definition passed (fixed : bool) (st st' : statics) (plans : list LinkPlan) (plan plan' : LinkPlan) : Prop :=
  if eqb (fixed_port plan) fixed then settled st st' plan plan' ∧ (fixed = true → plan' = set_WaitingPort true plan → starved st plans plan)
  else plan' = plan.
Lemma passed_grown fixed st st1 st2 plans plan plan' : passed fixed st st1 plans plan plan' → grown st1 st2 → passed fixed st st2 plans plan plan'.
Proof. unfold passed. destruct (eqb _ _); [|done]. intros [S W] G. split; [by eapply settled_grown|done]. Qed.
Lemma taken_trans fixed l1 l2 st1 st2 st3 : taken_by fixed l1 st1 st2 → taken_by fixed l2 st2 st3 → taken_by fixed (l1 ++ l2) st1 st3.
Proof.
  intros A B q Hq. destruct (B q Hq) as [H|[H|(o & Ho & H)]]; [|by right; left|right; right; exists o; split; [set_solver|done]].
  destruct (A q H) as [H'|[H'|(o & Ho & H')]]; [by left|by right; left|right; right; exists o; split; [set_solver|done]].
Qed.
Lemma owners_trans fixed l1 l2 st1 st2 st3 : owners fixed l1 st1 st2 → owners fixed l2 st2 st3 → owners fixed (l1 ++ l2) st1 st3.
Proof.
  intros A B a r Hr. destruct (B a r Hr) as [H|(o & Ho & H)]; [|right; exists o; split; [set_solver|done]].
  destruct (A a r H) as [H'|(o & Ho & H')]; [by left|right; exists o; split; [set_solver|done]].
Qed.
Lemma reserve_pass_ok fixed st0 seen plans st : good st → grown st0 st → taken_by fixed seen st0 st → owners fixed seen st0 st →
  NoDup (map OwnerAlias (seen ++ plans)) → (∀ plan, plan ∈ plans → fixed_port plan = fixed → plan_ok plan) →
  ∃ plans' st', reserve_pass fixed plans st = Ok (plans', st') ∧ good st' ∧ grown st st' ∧ taken_by fixed (seen ++ plans) st0 st' ∧
    owners fixed (seen ++ plans) st0 st' ∧ Forall2 (passed fixed st0 st' (seen ++ plans)) plans plans'.
Proof.
  revert seen st. induction plans as [|plan plans IH]; intros seen st G Gr T O Nd Pl; cbn.
  { exists [], st. rewrite app_nil_r. by split_and!. }
  destruct (reserve_link_ok fixed plan st G (Pl plan ltac:(by left))) as (plan' & st1 & E1 & G1 & Gr1 & T1 & O1 & S1). rewrite E1. cbn.
  assert (Fresh : ∀ o, o ∈ seen → OwnerAlias o ≠ OwnerAlias plan).
  { rewrite map_app in Nd. apply NoDup_app in Nd as (_ & Nd & _). intros o Ho Eo. apply (Nd (OwnerAlias o)).
    - by apply list_elem_of_fmap_2.
    - rewrite Eo. by left. }
  destruct (IH (seen ++ [plan]) st1) as (plans' & st2 & E2 & G2 & Gr2 & T2 & O2 & F2); try done.
  - by eapply grown_trans.
  - by eapply taken_trans.
  - by eapply owners_trans.
  - by rewrite <- app_assoc.
  - intros p Hp. apply Pl. by right.
  - rewrite E2. cbn. rewrite <- app_assoc in *. cbn in *. exists (plan' :: plans'), st2. split; [done|]. split; [done|].
    split; [by eapply grown_trans|]. split; [done|]. split; [done|]. constructor; [|done].
    unfold passed. destruct (eqb (fixed_port plan) fixed) eqn:Ef; [|done]. destruct S1 as [S1 W1].
    split.
    + eapply settled_grown; [|exact Gr2]. eapply settled_later; [exact Gr| |exact S1].
      intros r Hr. destruct (O _ _ Hr) as [H|(o & Ho & _ & Eo)]; [done|by destruct (Fresh o Ho)].
    + intros Hf Hw. subst fixed. destruct (W1 eq_refl Hw) as [V|[L|R]]; [left; by rewrite V, (gr_vfp _ _ Gr)| |by right; right; right].
      right. destruct (T _ L) as [H|[H|(o & Ho & Fo & Po)]]; [by left|done|]. right. left. exists o. split_and!; [set_solver|by apply Fresh|done].
Qed.

Lemma Forall2_in {A B} (P : A → B → Prop) l k : Forall2 P l k → Forall2 (λ x y, x ∈ l ∧ P x y) l k.
Proof.
  intros F. assert (G : ∀ L, l ⊆ L → Forall2 (λ x y, x ∈ L ∧ P x y) l k); [|by apply G].
  induction F as [|x y l k H F IH]; intros L S; constructor; [split; [apply S; by left|done]|]. apply IH. set_solver.
Qed.
Lemma same_owner plans p q : NoDup (map OwnerAlias plans) → p ∈ plans → q ∈ plans → OwnerAlias p = OwnerAlias q → p = q.
Proof.
  intros Nd [i Hi]%list_elem_of_lookup [j Hj]%list_elem_of_lookup Eo.
  assert (i = j); [|congruence]. eapply NoDup_lookup; [exact Nd|rewrite list_lookup_fmap, Hi; reflexivity|by rewrite list_lookup_fmap, Hj, Eo].
Qed.
Lemma passed_shape fixed st st' plans plan plan' : passed fixed st st' plans plan plan' →
  lk_Ports plan' = lk_Ports plan ∧ OwnerAlias plan' = OwnerAlias plan.
Proof.
  unfold passed. destruct (eqb _ _); [|by intros ->]. by intros [[(r & l & _ & _ & _ & -> & _)| ->] _].
Qed.

(** The ports of configured Links at the start.  From adopted Links that hold their
    ports, and whatever the kernel does: every Link ends with a port that its plan
    names, leased to it in the pool and admitted by its choice (or adopted with its
    interface), or it waits; no two Links have one port, no lease is lost, and
    nothing that was held changes.  A Link with a fixed port waits only if the port
    is that of VFP, an adopted Link has it, another Link is configured with it too,
    or the kernel refuses it: a Link without a fixed port never takes it. *)
Theorem static_ports plans st : coherent st → none_flagged st → NoDup (map OwnerAlias plans) → (∀ plan, plan ∈ plans → plan_ok plan) →
  ∃ plans' st', reserveStaticPorts plans st = Ok (plans', st') ∧ coherent st' ∧ none_flagged st' ∧ grown st st' ∧
    Forall2 (λ plan plan', settled st st' plan plan' ∧ (fixed_port plan = true → plan' = set_WaitingPort true plan → starved st plans plan)) plans plans' ∧
    ∀ i j a b, plans' !! i = Some a → plans' !! j = Some b → WaitingPort a = false → WaitingPort b = false → ListenPort a = ListenPort b → i = j.
Proof.
  intros Co Nf Nd Pl. unfold StaticPorts.reserveStaticPorts.
  destruct (reserve_pass_ok true st [] plans st) as (plans1 & st1 & E1 & G1 & Gr1 & T1 & O1 & F1); [done|apply grown_refl|by intros q; left|by intros a r; left|done|by intros p Hp _; apply Pl|].
  rewrite E1, bind_Ok. cbn [app] in *.
  assert (Al : map OwnerAlias plans1 = map OwnerAlias plans).
  { clear -F1. induction F1 as [|p p' l l' H F IH]; [done|]. apply passed_shape in H as [_ H]. cbn. by rewrite H, IH. }
  destruct (reserve_pass_ok false st1 [] plans1 st1) as (plans2 & st2 & E2 & G2 & Gr2 & _ & _ & F2);
    [done|apply grown_refl|by intros q; left|by intros a r; left|by cbn [app]; rewrite Al| |].
  { intros p' Hp' Fp. apply list_elem_of_lookup in Hp' as [i Hi]. destruct (Forall2_lookup_r _ _ _ _ _ F1 Hi) as (p & Hp & H).
    pose proof (passed_shape _ _ _ _ _ _ H) as [Sp _]. unfold fixed_port in Fp. rewrite Sp in Fp. unfold passed, fixed_port in H. rewrite Fp in H. cbn in H. subst p'.
    apply Pl. by eapply list_elem_of_lookup_2. }
  rewrite E2. cbn [app] in *. exists plans2, st2. split; [done|]. destruct G2 as [Co2 Nf2]. split; [done|]. split; [done|].
  split; [by eapply grown_trans|].
  assert (F : Forall2 (λ plan plan', settled st st2 plan plan' ∧ (fixed_port plan = true → plan' = set_WaitingPort true plan → starved st plans plan)) plans plans2).
  { eapply Forall2_trans; [|apply Forall2_in, F1|exact F2]. intros p p' p'' [Hp H] H'. pose proof (passed_shape _ _ _ _ _ _ H) as [Sp Sa].
    unfold passed in H, H'. assert (Fp : fixed_port p' = fixed_port p) by (unfold fixed_port; by rewrite Sp). rewrite Fp in H'.
    destruct (fixed_port p) eqn:Ep; cbn in H, H'.
    - subst p''. destruct H as [S W]. split; [by eapply settled_grown|done].
    - subst p'. destruct H' as [S _]. split; [|done]. eapply settled_later; [exact Gr1| |exact S].
      intros r Hr. destruct (O1 _ _ Hr) as [H|(o & Ho & Fo & Eo)]; [done|].
      rewrite (same_owner plans o p Nd Ho Hp Eo) in Fo. congruence. }
  split; [exact F|]. intros i j a b Ha Hb Wa Wb Pab.
  assert (L : ∀ i a, plans2 !! i = Some a → WaitingPort a = false → ∃ p r l, plans !! i = Some p ∧ sp_resources st2 !! OwnerAlias p = Some r ∧
    res_port r = Some l ∧ ListenPort a = lease_port l).
  { clear -F. intros i a Ha Wa. destruct (Forall2_lookup_r _ _ _ _ _ F Ha) as (p & Hp & [(r & l & Hr & _ & Hl & -> & _)| ->] & _); [|done]. by exists p, r, l. }
  destruct (L i a Ha Wa) as (p & r & l & Hp & Hr & Hl & El), (L j b Hb Wb) as (q & s & m & Hq & Hs & Hm & Em).
  destruct (co_held _ Co2 _ _ Hr) as (l' & E3 & E4 & _), (co_held _ Co2 _ _ Hs) as (m' & E5 & E6 & _).
  assert (l = m) as -> by congruence. pose proof (co_apart _ Co2 _ _ _ _ _ Hr Hs Hl Hm) as Eo.
  eapply NoDup_lookup; [exact Nd|rewrite list_lookup_fmap, Hp; reflexivity|by rewrite list_lookup_fmap, Hq, Eo].
Qed.
End Start.

(** * A retry *)

(** A preparation keeps the port that was reserved. *)
Lemma PrepareDynamic_port configured plan k next k' : ListenPort plan ≠ 0 → PrepareDynamic configured plan k = (Ok next, k') → ListenPort next = ListenPort plan.
Proof.
  intros N. unfold PrepareDynamic, mbind, K_bind. destruct (ktouch k) as [[[]|e|] k1]; [|done..].
  destruct (ensureExactlyOwnedWireGuardInterface _ _ k1) as [[[]|e|] k2]; [|done..]. unfold on_error.
  destruct (ktouch k2) as [[[]|e|] k3]; [|done..]. destruct (Probing plan); [destruct (ktouch k3) as [[[]|e|] k4]; [|done..]; by intros [= <- _]|].
  do 4 (match goal with |- context [ktouch ?k] => destruct (ktouch k) as [[[]|e|] ?k]; [|done..] end).
  replace (ListenPort plan =? 0) with false by (symmetry; by apply Z.eqb_neq). cbn [negb andb].
  destruct (configured =? ListenPort plan) eqn:C; [|done]. cbn. apply Z.eqb_eq in C. destruct (_ || _); [done|]. intros [= <- _]. exact C.
Qed.
Lemma release_fresh plan l p p' : pool_ok p → fresh_lease plan l p p' → leases (lease_release (Some l) p') = leases p ∧ vfpPort (lease_release (Some l) p') = vfpPort p ∧
  pool_ok (lease_release (Some l) p').
Proof.
  intros P (El & Ev & Ei & [Fr Nv] & _ & _ & P'). unfold lease_release. rewrite El, lookup_insert_eq, bool_decide_eq_true_2 by done. cbn.
  rewrite delete_insert_id by done. split_and!; [done|done|]. intros q l'. cbn. intros H. rewrite Ev.
  destruct (P' q l') as (? & ? & ? & ?); [|by rewrite <- Ev]. rewrite El. rewrite lookup_insert_ne; [done|]. congruence.
Qed.

(** Preparing and configuring. *)
Lemma prepare_retry c next k : ListenPort next ≠ 0 →
  let '(r, k') := PrepareConfigure c next k in
  match r with
  | Ok p => (p = next ∨ p = set_port_plan (rt_configured c) next) ∧ ListenPort p = ListenPort next ∧ ifaces k' = <[InterfaceName next := OwnerAlias next]> (ifaces k)
  | _ => True
  end.
Proof.
  intros N. unfold PrepareConfigure, K_bind. pose proof (PrepareDynamic_spec next (rt_configured c) (ifaces k) k eq_refl) as P.
  destruct (PrepareDynamic (rt_configured c) next k) as [[p|e|] k1] eqn:Ep; [|done..]. destruct P as (Hp & _ & Ei).
  pose proof (ConfigureDynamic_spec p (rt_actual c) (rt_change c) (ifaces k1) k1 eq_refl) as C.
  destruct (ConfigureDynamic (rt_actual c) (rt_change c) p k1) as [[[]|e|] k2]; [|done..]. destruct C as [Ek _]. cbn.
  split_and!; [done|by eapply PrepareDynamic_port|congruence].
Qed.

Lemma flag_coherent plan l rs ports x next : coherent (mkStatics ports (<[OwnerAlias plan := mkResources next (Some l) false]> rs) x) →
  coherent (mkStatics ports (<[OwnerAlias plan := mkResources next (Some l) true]> rs) x).
Proof.
  intros [P H A C]. cbn in *.
  assert (Fl : ∀ a r, <[OwnerAlias plan := mkResources next (Some l) true]> rs !! a = Some r →
    ∃ r', <[OwnerAlias plan := mkResources next (Some l) false]> rs !! a = Some r' ∧ res_port r' = res_port r ∧ (cleanup r = false → r' = r)).
  { intros a r [[<- <-]|[Na Hr]]%lookup_insert_Some; [|by exists r; rewrite lookup_insert_ne].
    exists (mkResources next (Some l) false). by rewrite lookup_insert_eq. }
  split; cbn; [done| | |].
  - intros a r Hr. destruct (Fl a r Hr) as (r' & Hr' & Ep & Ec). destruct (H a r' Hr') as (l' & E1 & E2 & E3).
    exists l'. split_and!; [by rewrite <- Ep|done|]. intros Hc. rewrite (Ec Hc) in E3. auto.
  - intros a b r s l0 Hr Hs E1 E2. destruct (Fl a r Hr) as (r' & Hr' & Ep & _), (Fl b s Hs) as (s' & Hs' & Eq & _).
    eapply A; [exact Hr'|exact Hs'|by rewrite Ep|by rewrite Eq].
  - intros q l0 Hq. destruct (C q l0 Hq) as (a & r & Ha & Hl). apply lookup_insert_Some in Ha as [[<- <-]|[Na Ha]].
    + exists (OwnerAlias plan). eexists. by rewrite lookup_insert_eq.
    + exists a, r. by rewrite lookup_insert_ne.
Qed.

(** A retry of a Link that waits.  If it succeeds, the Link owns a lease of the port
    its plan now names, which was free and which its choice admits, its interface is
    there with its alias, and it no longer waits.  If it fails, the plan is as it was,
    and either the leases and the resources are as they were and, unless nothing was
    tried, no interface of the plan is left, or the interface may be left and the Link
    keeps the lease, marked for cleanup.  In every case each Link holds its own lease
    and each lease is held. *)
Theorem static_retry c plan st k : coherent st → sp_resources st !! OwnerAlias plan = None → choice_ok plan (rt_start c) →
  let '((plan', err), (st', k')) := retryStaticPort c plan st k in
  coherent st' ∧
  match err with
  | None => ∃ l, sp_resources st' = <[OwnerAlias plan := mkResources plan' (Some l) false]> (sp_resources st) ∧
      leases (sp_ports st') = <[lease_port l := l]> (leases (sp_ports st)) ∧ free (sp_ports st) (lease_port l) ∧ admits (lk_Ports plan) (lease_port l) ∧
      ListenPort plan' = lease_port l ∧ WaitingPort plan' = false ∧ OwnerAlias plan' = OwnerAlias plan ∧
      ifaces k' = <[InterfaceName plan := OwnerAlias plan]> (ifaces k)
  | Some _ => plan' = plan ∧
      (sp_resources st' = sp_resources st ∧ leases (sp_ports st') = leases (sp_ports st) ∧
        (ifaces k' = ifaces k ∨ ifaces k' !! InterfaceName plan = None) ∨
       ∃ r, sp_resources st' = <[OwnerAlias plan := r]> (sp_resources st) ∧ cleanup r = true)
  end.
Proof.
  intros Co N Ch. unfold StaticPorts.retryStaticPort. pose proof (reserveStaticPort_ok (rt_sticky c) (rt_start c) plan st Ch (co_pool _ Co)) as R.
  destruct (reserveStaticPort (rt_sticky c) (rt_start c) plan st) as [res st1]. destruct R as [Rs R].
  assert (Same : sp_ports st1 = sp_ports st → coherent st1) by (intros Ep; destruct Co; split; by rewrite ?Rs, ?Ep).
  destruct res as [l|e| |]; [|destruct R as [Ep _]; rewrite Ep, Rs; auto 10..|done].
  destruct st1 as [ports rs x]. cbn in Rs, R. subst rs. clear Same.
  set (next := set_WaitingPort false (set_port_plan (lease_port l) plan)).
  set (st2 := own_port next l (mkStatics ports (sp_resources st) x)).
  assert (C2 : coherent st2) by (by apply (own_coherent plan)).
  pose proof R as (El & Ev & Ei & Fr & Ad & Rg & P').
  pose proof (prepare_retry c next k) as Pr. fold next in Pr |- *. destruct (PrepareConfigure c next k) as [r k1]. specialize (Pr ltac:(cbn; lia)).
  assert (Fail : let '(cleanupErr, k2) := RemoveDynamic plan k1 in coherent (removed_port plan cleanupErr st2) ∧
    (sp_resources (removed_port plan cleanupErr st2) = sp_resources st ∧ leases (sp_ports (removed_port plan cleanupErr st2)) = leases (sp_ports st) ∧
       (ifaces k2 = ifaces k ∨ ifaces k2 !! InterfaceName plan = None) ∨
     ∃ r, sp_resources (removed_port plan cleanupErr st2) = <[OwnerAlias plan := r]> (sp_resources st) ∧ cleanup r = true)).
  { pose proof (RemoveDynamic_spec plan (ifaces k1) k1 eq_refl) as Rm. unfold removed_port. cbn [sp_resources st2 own_port]. rewrite lookup_insert_eq. cbn [res_port res_plan].
    assert (Keep : coherent (mkStatics ports (<[OwnerAlias plan := mkResources next (Some l) true]> (sp_resources st)) x)) by by apply flag_coherent.
    destruct (RemoveDynamic plan k1) as [[[]|e|] k2]; cbn [sp_ports st2 own_port sp_env].
    - destruct (release_fresh plan l (sp_ports st) ports) as (Lr & Vr & Pr'); [apply Co|exact R|]. destruct Rm as [_ Rm].
      rewrite delete_insert_id by done. split.
      + destruct Co as [H1 H2 H3 H4]. split; cbn [sp_ports sp_resources]; rewrite ?Lr; done.
      + left. split_and!; [done|exact Lr|]. right. by rewrite Rm, lookup_delete_eq.
    - split; [by rewrite insert_insert_eq|]. right. eexists. rewrite insert_insert_eq. by split.
    - split; [by rewrite insert_insert_eq|]. right. eexists. rewrite insert_insert_eq. by split. }
  destruct r as [p|e|]; [|destruct (RemoveDynamic plan k1) as [ce k2]; by destruct Fail..].
  destruct Pr as (Hp & Lp & Ik). assert (Eo : OwnerAlias p = OwnerAlias plan ∧ WaitingPort p = false) by (destruct Hp as [->| ->]; done). destruct Eo as [Eo Ew].
  assert (Es : own_port p l st2 = own_port p l (mkStatics ports (sp_resources st) x)) by (unfold own_port; cbn; by rewrite Eo, insert_insert_eq).
  rewrite Es. split.
  - apply (own_coherent plan); [done|exact R|by rewrite Eo|by rewrite Lp].
  - exists l. cbn. rewrite Eo. split_and!; done.
Qed.
End Static.

(** * Two Links *)

Definition ex_plan (name : string) (port : Z) : LinkPlan :=
  mkLinkPlan false (mkPortChoice port PortRange_zero) false false name ("vv-" +:+ name) ("velvet:link:" +:+ name) [] [] [] 0 [] None Prefix_zero [].
(** A kernel that counts its free ports up from 40000. *)
Definition ex_listen (port next : Z) : (error + Z) * Z := if port =? 0 then (inr next, next + 1) else (inr port, next).
Definition ex_statics : @statics Z := mkStatics (mkPool ∅ 58420 0) ∅ 40000.
Lemma ex_coherent : coherent ex_statics.
Proof. split; try done; by intros ???; rewrite lookup_empty. Qed.
Definition ex_plans : list LinkPlan := [ex_plan "a" 0; ex_plan "b" 40000].
Lemma ex_choice name port start : 0 <= port <= 65535 → choice_ok (ex_plan name port) start.
Proof.
  intros P. split; [|done]. unfold wf_choice, ListenPorts_Validate. cbn [ex_plan lk_Ports Choice default id pc_Port Range].
  replace (port <? 0) with false by (symmetry; apply Z.ltb_ge; lia). replace (65535 <? port) with false by (symmetry; apply Z.ltb_ge; lia). done.
Qed.
Lemma static_ports_witness : NoDup (map OwnerAlias ex_plans) ∧ ∃ plans' st', reserveStaticPorts ex_listen id (λ _, 0) (λ _, 0) ex_plans ex_statics = Ok (plans', st') ∧
  map ListenPort plans' = [40001; 40000] ∧ coherent st'.
Proof.
  assert (Nd : NoDup (map OwnerAlias ex_plans)) by (apply (bool_decide_unpack _); by vm_compute).
  split; [exact Nd|]. destruct (static_ports ex_listen id (λ _, 0) (λ _, 0) ex_plans ex_statics ex_coherent ltac:(by intros ?? H; cbn in H; rewrite lookup_empty in H) Nd)
    as (plans' & st' & E & Co & _).
  { intros plan [->|[->|[]%not_elem_of_nil]%elem_of_cons]%elem_of_cons; (split; [done|by apply ex_choice]). }
  exists plans', st'. split; [exact E|]. split; [|exact Co].
  assert (M : match reserveStaticPorts ex_listen id (λ _, 0) (λ _, 0) ex_plans ex_statics with Ok (p, _) => map ListenPort p = [40001; 40000] | _ => False end) by by vm_compute.
  rewrite E in M. exact M.
Defined.
Definition ex_retry (port : Z) : retry := mkRetry 0 0 port port false 0.
Lemma static_retry_witness : coherent ex_statics ∧
  let '((plan', err), (st', k')) := retryStaticPort ex_listen id (ex_retry 40000) (ex_plan "a" 0) ex_statics (mkKernel ∅ []) in
  err = None ∧ ListenPort plan' = 40000 ∧ coherent st' ∧ ifaces k' !! "vv-a"%string = Some "velvet:link:a"%string.
Proof.
  split; [exact ex_coherent|].
  pose proof (static_retry ex_listen id (ex_retry 40000) (ex_plan "a" 0) ex_statics (mkKernel ∅ []) ex_coherent ltac:(by vm_compute) ltac:(by apply ex_choice)) as R.
  assert (M : let '((plan', err), (st', k')) := retryStaticPort ex_listen id (ex_retry 40000) (ex_plan "a" 0) ex_statics (mkKernel ∅ []) in
    err = None ∧ ListenPort plan' = 40000 ∧ ifaces k' !! "vv-a"%string = Some "velvet:link:a"%string) by by vm_compute.
  destruct (retryStaticPort _ _ _ _ _ _) as [[plan' err] [st' k']]. destruct M as (M1 & M2 & M3), R as [R _]. split; [exact M1|split; [exact M2|split; [exact R|exact M3]]].
Defined.

(** The hypothesis that the Link has no resources cannot be dropped: a retry that could
    not remove its interface leaves the Link with its lease, marked for cleanup, and
    the next one replaces these resources without releasing the lease.  The port
    stays reserved as long as the process runs, though no Link holds it. *)
Lemma retry_leaks_lease :
  let '((plan1, err1), (st1, k1)) := retryStaticPort ex_listen id (ex_retry 40000) (ex_plan "a" 0) ex_statics (mkKernel ∅ [true; true]) in
  let '((plan2, err2), (st2, k2)) := retryStaticPort ex_listen id (ex_retry 40001) plan1 st1 k1 in
  is_Some err1 ∧ err2 = None ∧ (lease_port <$> leases (sp_ports st2) !! 40000) = Some 40000 ∧
  map (λ x, lease_port <$> res_port x.2) (map_to_list (sp_resources st2)) = [Some 40001].
Proof. vm_compute. split_and!; [by eexists|done..]. Qed.
