(* ===== verification/Datagrams.v ===== *)
(** What the sockets of vfp/discovery/discovery.go and vfp/policy/socket.go share:
    a datagram with its metadata on the way from and to the kernel, and the loop
    that reads until a datagram passes the filter.  The kernel is the list of what
    [ReadFrom] answers and the datagrams handed to it.  Both sockets read into a
    buffer of one octet more than the limit, so that a longer packet is cut but not
    admitted. *)

From S2P Require Import Prelude Netip MessageData Message.
From stdpp Require Import strings.
Open Scope Z_scope.
Open Scope velvet_scope.

(** The fields of an [ipv6.ControlMessage] and of a [net.UDPAddr] in use. *)
Record ControlMessage := mkControl { cm_Dst : list byte; cm_IfIndex : Z }.
Record UDPAddr := mkUDPAddr { ua_IP : list byte; ua_Port : Z; ua_Zone : string }.
(** What [ReadFrom] answers: the octets that came, of which the buffer holds
    [received]; the metadata, if any; and the source, [None] when it is not a
    [*net.UDPAddr]. *)
Record arrival := mkArrival { ar_packet : list byte; ar_control : option ControlMessage; ar_source : option UDPAddr }.
Definition received (a : arrival) : list byte := take (Z.to_nat (MaxDatagramLength + 1)) (ar_packet a).
(** A datagram handed to the kernel, with the source, interface and hop limit that
    the control message pins, if there is one. *)
Record pinned := mkPinned { pn_Src : list byte; pn_IfIndex : Z; pn_HopLimit : Z }.
Record datagram := mkDatagram { dg_packet : list byte; dg_pinned : option pinned; dg_to : UDPAddr }.

(** A loop that reads until [accept] takes a packet; [None] when it still waits. *)
Fixpoint read_until {A} (accept : arrival → option A) (answers : list (result arrival)) :
    option (result A * list (result arrival)) :=
  match answers with
  | [] => None
  | Ok a :: rest => match accept a with Some v => Some (Ok v, rest) | None => read_until accept rest end
  | Err e :: rest => Some (Err e, rest)
  | Panic :: rest => Some (Panic, rest)
  end.
