(* ===== verification/Discovery.v ===== *)
(** vfp/discovery/discovery.go: the socket on the device of one Link.  It announces
    the node by multicast, answers and pings by unicast, and admits what comes from
    a link-local address on its interface. *)

From S2P Require Import Prelude Netip MessageData Message Datagrams.
From stdpp Require Import strings.
Open Scope Z_scope.
Open Scope velvet_scope.

Definition ErrInvalidHello : error := errors_New "invalid VFP discovery message".
Definition MulticastAddress : Addr := Addr6 (0xff02 * 2 ^ 112 + 1) "".
Record Observation := mkObservation { ob_Source : Addr; ob_Type : MsgType; ob_Message : Message }.

Definition Encode (t : MsgType) : result (list byte) :=
  if negb (IsDiscovery t) then Err ErrInvalidHello
  else map_err (λ _, ErrInvalidHello) (EncodeDatagram (newMessage t)).
Definition Parse (packet : list byte) : result MsgType :=
  match DecodeDatagram packet with
  | Ok m => if IsDiscovery (Type_ m) then Ok (Type_ m) else Err ErrInvalidHello
  | Err _ => Err ErrInvalidHello
  | Panic => Panic
  end.

Record Socket := mkSocket { interfaceIndex : Z; sk_local : list byte; destination : UDPAddr }.
(** [opened]: the index of the device with its socket open and configured, or the
    error of the first of these calls that failed, after which nothing is open. *)
Definition Listen (opened : result Z) (local : Addr) (port : Z) : result Socket :=
  if negb (Is6 local) || negb (IsLinkLocalUnicast local)
  then Err (errors_New "discovery local address is not IPv6 link-local")
  else
    index ← opened;
    Ok (mkSocket index (AsSlice local) (mkUDPAddr (AsSlice MulticastAddress) port (dec index))).

Definition write (s : Socket) (packet : list byte) (to : UDPAddr) : datagram :=
  mkDatagram packet (Some (mkPinned (sk_local s) (interfaceIndex s) 1)) to.
Definition unicast (s : Socket) (remote : Addr) : UDPAddr :=
  mkUDPAddr (AsSlice remote) (ua_Port (destination s)) (dec (interfaceIndex s)).
(** [packet, _ := Encode(...)]: the packet is nil on an error. *)
Definition or_nil (r : result (list byte)) : list byte := match r with Ok p => p | _ => [] end.
Definition SendHello (s : Socket) : datagram := write s (or_nil (Encode DiscoveryHello)) (destination s).
Definition SendAck (s : Socket) (remote : Addr) : datagram :=
  write s (or_nil (Encode DiscoveryHelloAck)) (unicast s remote).
Definition Send (s : Socket) (remote : Addr) (m : Message) : result datagram :=
  packet ← EncodeDatagram m; Ok (write s packet (unicast s remote)).

(** The filter of [Read]; the decoder does not panic ([Message.returns_Decode]). *)
Definition accept (s : Socket) (a : arrival) : option Observation :=
  match DecodeDatagram (received a), ar_control a with
  | Ok m, Some control =>
    if (negb (IsDiscovery (Type_ m)) && negb (IsLinkProbe (Type_ m))) || negb (cm_IfIndex control =? interfaceIndex s) then None
    else
      match AddrFromSlice (cm_Dst control) with
      | Some dst =>
        if IsLinkProbe (Type_ m) && negb (IsLinkLocalUnicast dst) then None
        else
          udp ← ar_source a;
          address ← AddrFromSlice (ua_IP udp);
          if negb (Is6 address) || negb (IsLinkLocalUnicast address) then None
          else Some (mkObservation (Unmap address) (Type_ m) m)
      | None => None
      end
  | _, _ => None
  end.
Definition Read (s : Socket) : list (result arrival) → option (result Observation * list (result arrival)) :=
  read_until (accept s).
Definition ReadHello (s : Socket) : list (result arrival) → option (result Observation * list (result arrival)) :=
  read_until (λ a, o ← accept s a; if IsDiscovery (ob_Type o) then Some o else None).

(** ** The announcement *)

Definition Millisecond : Z := 10 ^ 6.
Definition Second : Z := 10 ^ 9.
(** [random]: the eight octets that crypto/rand read, if it could. *)
Definition withJitter (base : Z) (random : option (list byte)) : Z :=
  match random with
  | None => base
  | Some raw =>
    let span := Z.quot base 4 in
    if span <=? 0 then base else base - Z.quot base 8 + be_get raw mod span
  end.
Definition next_delay (delay : Z) : Z :=
  if delay <? 2 * Second then (if 2 * Second <? delay * 2 then 2 * Second else delay * 2) else delay.
(** One turn: the error of the send, if any, what crypto/rand reads, and whether the timer
    fired before the context ended. *)
Record turn := mkTurn { tn_sent : option error; tn_random : option (list byte); tn_fired : bool }.
Definition Canceled : error := errors_New "context canceled".
(** The waits that were begun, in order, and the error it returned, if it did. *)
Fixpoint announce (turns : list turn) (delay : Z) (waits : list Z) : list Z * option error :=
  match turns with
  | [] => (waits, None)
  | mkTurn (Some e) _ _ :: _ => (waits, Some e)
  | mkTurn None random fired :: rest =>
    let waits := waits ++ [withJitter delay random] in
    if fired then announce rest (next_delay delay) waits else (waits, Some Canceled)
  end.
Definition Announce (turns : list turn) : list Z * option error := announce turns (250 * Millisecond) [].
