(* ===== verification/PolicySocket.v ===== *)
(** vfp/policy/socket.go: the socket on the loopback of the node, for policy messages
    that are routed over the fabric. *)

From S2P Require Import Prelude Netip MessageData Message Datagrams.
From stdpp Require Import strings.
Open Scope Z_scope.
Open Scope velvet_scope.

Record Socket := mkSocket { sk_local : Addr; sk_pool : Prefix; sk_port : Z; ingress : Z → bool }.
(** [Listen]; a nil function is [None].  [opened]: the port of the socket that was
    opened and configured, or the error of the call that failed, after which none is
    open. *)
Definition Listen (opened : result Z) (local : Addr) (pool : Prefix) (ingress : option (Z → bool)) : result Socket :=
  match ingress with
  | Some f =>
    if negb (Is6 local) || Is4In6 local || IsLinkLocalUnicast local || IsMulticast local || negb (Contains pool local)
    then Err (errors_New "invalid routed policy binding")
    else port ← opened; Ok (mkSocket local pool port f)
  | None => Err (errors_New "invalid routed policy binding")
  end.

Definition Send (s : Socket) (remote : Addr) (m : Message) : result datagram :=
  if negb (IsPolicy (Type_ m)) || negb (Contains (sk_pool s) remote) || bool_decide (remote = sk_local s)
  then Err (errors_New "invalid policy destination or message")
  else b ← EncodeDatagram m; Ok (mkDatagram b None (mkUDPAddr (AsSlice remote) (sk_port s) "")).

Definition decode (s : Socket) (packet : list byte) (control : option ControlMessage) (source : option UDPAddr) :
    option (Addr * Message) :=
  match source, control with
  | Some udp, Some control =>
    if negb (ua_Port udp =? sk_port s) then None
    else
      match AddrFromSlice (ua_IP udp), AddrFromSlice (cm_Dst control) with
      | Some src, Some dst =>
        if negb (bool_decide (dst = sk_local s)) || bool_decide (src = sk_local s) || negb (Is6 src) || Is4In6 src ||
           IsLinkLocalUnicast src || IsMulticast src || negb (Contains (sk_pool s) src) || negb (ingress s (cm_IfIndex control))
        then None
        else
          match DecodeDatagram packet with
          | Ok m => if negb (IsPolicy (Type_ m)) then None else Some (src, m)
          | _ => None
          end
      | _, _ => None
      end
  | _, _ => None
  end.
Definition Read (s : Socket) : list (result arrival) → option (result (Addr * Message) * list (result arrival)) :=
  read_until (λ a, decode s (received a) (ar_control a) (ar_source a)).
