(* ===== verification/DatagramsProps.v ===== *)
(** What the two datagram sockets accept: exactly what their filters are to let
    through, everything their peer sends to them, and nothing of another class. *)

From S2P Require Import Prelude Discovery PolicySocket Netip Tlv MessageData Field Probe Message MessageProps Datagrams.
From stdpp Require Import strings.
Open Scope Z_scope.
Open Scope velvet_scope.

(** * Datagrams *)

Lemma AddrFromSlice_valid a :
  wf_addr a → Addr_IsValid a = true → AddrFromSlice (AsSlice a) = Some (WithoutZone a).
Proof.
  destruct a as [|v|v z]; intros W V; [done| |]; unfold AddrFromSlice; cbn [AsSlice];
    rewrite length_be_put; cbn -[be_put Z.pow]; unfold AddrFrom4, AddrFrom16;
    by rewrite be_get_put_small.
Qed.

Lemma carried_type m : Type_ (carried m) = Type_ m.
Proof. unfold carried. by destruct (Type_ m). Qed.

Lemma udp_sendable m : udp_type (Type_ m) = true → sendable m.
Proof. unfold sendable. by destruct (Type_ m). Qed.

(** What [EncodeDatagram] builds fits the buffer, and is read back. *)
Lemma datagram_read_back m f :
  wf_message m → EncodeDatagram m = Ok f →
  len f <= MaxDatagramLength ∧ DecodeDatagram f = Ok (carried m) ∧ udp_type (Type_ m) = true.
Proof.
  intros W E. unfold EncodeDatagram in E. rewrite udp_type_negb in E.
  destruct (udp_type (Type_ m)) eqn:U; [|done]. cbn [negb] in E. inv_ok. bool_to_prop.
  match goal with H : Encode m = Ok _ |- _ => rename H into F end. subst f.
  pose proof (bindings_disjoint m _ W (udp_sendable m U) F) as B.
  rewrite U in B. destruct B as (_ & B & _). destruct (B Heqb). done.
Qed.

(** The classes of the two sockets and of the probes. *)
Lemma datagram_classes t :
  (IsDiscovery t || IsLinkProbe t = true → IsPolicy t = false ∧ is_type t PublicProbe = false) ∧
  (IsPolicy t = true → IsDiscovery t || IsLinkProbe t = false ∧ is_type t PublicProbe = false).
Proof. by destruct t. Qed.

Lemma received_short a : len (ar_packet a) <= MaxDatagramLength → received a = ar_packet a.
Proof. intros L. unfold received, len, MaxDatagramLength in *. apply take_ge. lia. Qed.

Lemma decode_received a m :
  DecodeDatagram (received a) = Ok m ↔ len (ar_packet a) <= MaxDatagramLength ∧ DecodeDatagram (ar_packet a) = Ok m.
Proof.
  destruct (Z.le_gt_cases (len (ar_packet a)) MaxDatagramLength) as [L|L].
  - rewrite received_short by done. naive_solver.
  - split; [|lia]. unfold DecodeDatagram at 1.
    rewrite (proj2 (Z.ltb_lt _ _)); [done|]. unfold received, len, MaxDatagramLength in *. rewrite length_take. lia.
Qed.

Lemma read_until_Ok {A} (accept : arrival → option A) answers v rest :
  read_until accept answers = Some (Ok v, rest) ↔
  ∃ skipped a, answers = map Ok skipped ++ Ok a :: rest ∧ Forall (λ x, accept x = None) skipped ∧ accept a = Some v.
Proof.
  split.
  - induction answers as [|[a| |] answers IH]; cbn; [done| |done..].
    destruct (accept a) eqn:E.
    + intros [= -> ->]. exists [], a. naive_solver.
    + intros (sk & b & -> & F & B)%IH. exists (a :: sk), b. naive_solver.
  - intros (sk & a & -> & F & B). induction F; cbn; [by rewrite B|]. by rewrite H.
Qed.

(** * The socket of a Link *)

(** The datagrams that the socket is for: whole, of the kinds of a Link, on its
    interface, from a link-local address, and a ping or pong only to one. *)
Record link_datagram (s : Discovery.Socket) (a : arrival) (m : Message) (src : Addr) : Prop := {
  ld_whole : len (ar_packet a) <= MaxDatagramLength;
  ld_message : Decode (ar_packet a) = Ok m;
  ld_kind : IsDiscovery (Type_ m) || IsLinkProbe (Type_ m) = true;
  ld_here : ∃ control dst, ar_control a = Some control ∧ cm_IfIndex control = Discovery.interfaceIndex s ∧
    AddrFromSlice (cm_Dst control) = Some dst ∧ (IsLinkProbe (Type_ m) = true → IsLinkLocalUnicast dst = true);
  ld_from : ∃ udp, ar_source a = Some udp ∧ AddrFromSlice (ua_IP udp) = Some src;
  ld_local : Is6 src = true ∧ IsLinkLocalUnicast src = true }.

Lemma decode_udp p m :
  DecodeDatagram p = Ok m ↔ len p <= MaxDatagramLength ∧ Decode p = Ok m ∧ udp_type (Type_ m) = true.
Proof.
  unfold DecodeDatagram. destruct (Z.ltb_spec MaxDatagramLength (len p)); [split; [done|lia]|].
  destruct (Decode p) as [m'| |]; [|by split; [|intros (? & ? & ?)]..].
  rewrite bind_Ok, udp_type_negb. destruct (udp_type (Type_ m')) eqn:U; cbn [negb].
  - split; [intros [= ->]|intros (_ & [= ->] & _)]; done.
  - split; [done|]. intros (_ & [= ->] & U'). congruence.
Qed.

Lemma link_udp t : IsDiscovery t || IsLinkProbe t = true → udp_type t = true.
Proof. unfold udp_type. intros ->. done. Qed.

Lemma accept_iff s a o :
  Discovery.accept s a = Some o ↔
  ∃ m src, link_datagram s a m src ∧ o = Discovery.mkObservation (Unmap src) (Type_ m) m.
Proof.
  unfold Discovery.accept. split.
  - destruct (DecodeDatagram (received a)) as [m| |] eqn:D; [|done..].
    apply decode_received in D as [L D]. apply decode_udp in D as (_ & D & U).
    destruct (ar_control a) as [c|] eqn:C; [|done]. rewrite <-negb_orb.
    destruct (IsDiscovery (Type_ m) || IsLinkProbe (Type_ m)) eqn:K; [|done]. cbn [negb orb].
    destruct (Z.eqb_spec (cm_IfIndex c) (Discovery.interfaceIndex s)); [|done]. cbn [negb].
    destruct (AddrFromSlice (cm_Dst c)) as [dst|] eqn:Dst; [|done].
    destruct (IsLinkProbe (Type_ m) && negb (IsLinkLocalUnicast dst)) eqn:P; [done|].
    destruct (ar_source a) as [udp|] eqn:S; [|done]. cbn.
    destruct (AddrFromSlice (ua_IP udp)) as [src|] eqn:Src; [|done]. cbn. rewrite <-negb_andb.
    destruct (Is6 src && IsLinkLocalUnicast src) eqn:I; [|done]. apply andb_true_iff in I as [I1 I2]. intros [= <-].
    exists m, src. split; [|done]. split; try done; [|by eauto].
    exists c, dst. split_and!; [done..|]. intros P'. rewrite P' in P. by destruct (IsLinkLocalUnicast dst).
  - intros (m & src & [L D K (c & dst & -> & I & Dst & P) (udp & -> & Src) [I6 Il]] & ->).
    rewrite (proj2 (decode_received a m)) by (split; [done|]; apply decode_udp; auto using link_udp).
    rewrite <-negb_orb, K, I, Z.eqb_refl, Dst. cbn.
    destruct (IsLinkProbe (Type_ m)); [rewrite P by done|]; cbn; by rewrite Src; cbn; rewrite I6, Il.
Qed.

(** * Classes *)

(** An address that [Listen] binds, which is what [decode] takes as a source. *)
Definition routed (pool : Prefix) (a : Addr) : Prop :=
  Is6 a = true ∧ Is4In6 a = false ∧ IsLinkLocalUnicast a = false ∧ IsMulticast a = false ∧ Contains pool a = true.

(** The datagrams that the policy socket is for. *)
Record policy_datagram (s : PolicySocket.Socket) (a : arrival) (m : Message) (src : Addr) : Prop := {
  pd_whole : len (ar_packet a) <= MaxDatagramLength;
  pd_message : Decode (ar_packet a) = Ok m;
  pd_kind : IsPolicy (Type_ m) = true;
  pd_here : ∃ control, ar_control a = Some control ∧ AddrFromSlice (cm_Dst control) = Some (PolicySocket.sk_local s) ∧
    PolicySocket.ingress s (cm_IfIndex control) = true;
  pd_from : ∃ udp, ar_source a = Some udp ∧ AddrFromSlice (ua_IP udp) = Some src ∧ ua_Port udp = PolicySocket.sk_port s;
  pd_routed : routed (PolicySocket.sk_pool s) src ∧ src ≠ PolicySocket.sk_local s }.

Lemma probe_type p m : canonical p = true → Decode p = Ok m → Type_ m = PublicProbe.
Proof.
  intros C (t & fs & -> & B & F & L & U & D)%Decode_inv.
  assert (E : type_byte PublicProbe = type_byte t).
  { unfold canonical in C. rewrite negb_true_iff, !orb_false_iff, !negb_false_iff in C.
    destruct C as ((((_ & E) & _) & _) & _). apply bool_decide_eq_true in E.
    destruct (frame_of_fields t (fields_bytes fs)) as (_ & _ & _ & G & _).
    - unfold HeaderLength, MaxFrameLength in *. pose proof (len_nonneg (fields_bytes fs)). lia.
    - rewrite E, be_get_one in G. by apply b2z_inj. }
  rewrite <-E in B. subst t. by destruct (decodeSelected_decoded _ _ _ eq_refl U eq_refl D).
Qed.

(** Whatever the metadata, a packet that the socket of a Link is for is none that a
    policy socket is for, nor one that a probe receiver opens. *)
Lemma link_only s a m src :
  link_datagram s a m src →
  canonical (ar_packet a) = false ∧ ∀ p b n src', ar_packet b = ar_packet a → ¬ policy_datagram p b n src'.
Proof.
  intros [_ D K _ _ _]. split.
  - destruct (canonical _) eqn:C; [|done]. by rewrite (probe_type _ _ C D) in K.
  - intros p b n src' E [_ D' K' _ _ _]. rewrite E, D in D'. injection D' as <-.
    apply datagram_classes in K' as [K' _]. by rewrite K in K'.
Qed.

(** What the kernel makes of a datagram: it comes with the destination it was sent
    to, on the interface [index], from [src]. *)
Definition delivered (index : Z) (src : UDPAddr) (d : datagram) : arrival :=
  mkArrival (dg_packet d) (Some (mkControl (ua_IP (dg_to d)) index)) (Some src).
(** The source that the datagram is pinned to; port and zone are the kernel's. *)
Definition pinned_source (d : datagram) (port : Z) (zone : string) : UDPAddr :=
  mkUDPAddr (match dg_pinned d with Some p => pn_Src p | None => [] end) port zone.

Lemma Listen_link index local port s :
  Discovery.Listen (Ok index) local port = Ok s →
  Is6 local = true ∧ IsLinkLocalUnicast local = true ∧
  s = Discovery.mkSocket index (AsSlice local) (mkUDPAddr (AsSlice Discovery.MulticastAddress) port (dec index)).
Proof.
  unfold Discovery.Listen. destruct (Is6 local), (IsLinkLocalUnicast local); cbn; try done. naive_solver.
Qed.

Lemma WithoutZone_class a :
  Is6 (WithoutZone a) = Is6 a ∧ IsLinkLocalUnicast (WithoutZone a) = IsLinkLocalUnicast a.
Proof. destruct a; [done..|]. split; [done|]. unfold IsLinkLocalUnicast, Unmap. cbn [WithoutZone].
  change (Is4In6 (Addr6 v zone)) with (Is4In6 (Addr6 v "")). by destruct (Is4In6 _). Qed.

Lemma Is6_valid a : Is6 a = true → Addr_IsValid a = true.
Proof. by destruct a. Qed.

Section Link.
Context (index1 index2 port : Z) (local1 local2 : Addr) (s t : Discovery.Socket).
Context (W1 : wf_addr local1) (W2 : wf_addr local2).
Context (S : Discovery.Listen (Ok index1) local1 port = Ok s) (T : Discovery.Listen (Ok index2) local2 port = Ok t).

(** A datagram of [s] to an address that is link-local, or any for a Hello. *)
Lemma sent_is_link m f to port' zone ip dst :
  wf_message m → EncodeDatagram m = Ok f → IsDiscovery (Type_ m) || IsLinkProbe (Type_ m) = true →
  AddrFromSlice ip = Some dst → (IsLinkProbe (Type_ m) = true → IsLinkLocalUnicast dst = true) →
  ua_IP to = ip →
  let d := Discovery.write s f to in
  link_datagram t (delivered index2 (pinned_source d port' zone) d) (carried m) (WithoutZone local1).
Proof using W1 S T.
  intros W E K A L <- d. apply Listen_link in S as (S1 & S2 & ->). apply Listen_link in T as (T1 & T2 & ->).
  destruct (datagram_read_back m f W E) as (B1 & B2 & _). apply decode_udp in B2 as (_ & B2 & _).
  destruct (WithoutZone_class local1) as [C1 C2].
  split; cbn; rewrite ?carried_type, ?C1, ?C2; try done.
  - eexists _, dst. split_and!; done.
  - eexists. split; [done|]. cbn. by apply AddrFromSlice_valid; auto using Is6_valid.
Qed.

Lemma announced ty f :
  IsDiscovery ty = true → Discovery.Encode ty = Ok f →
  EncodeDatagram (newMessage ty) = Ok f ∧ wf_message (newMessage ty) ∧ Type_ (newMessage ty) = ty ∧
  carried (newMessage ty) = newMessage ty.
Proof using Type.
  intros D E. unfold Discovery.Encode in E. rewrite D in E. cbn [negb] in E.
  destruct (EncodeDatagram _) eqn:F; [injection E as <-|done..]. destruct ty; try done; (split; [done|]);
    (split; [eauto with velvet|done]).
Qed.
Lemma hello_is_link port' zone :
  link_datagram t (delivered index2 (pinned_source (Discovery.SendHello s) port' zone) (Discovery.SendHello s))
    (newMessage DiscoveryHello) (WithoutZone local1).
Proof using W1 S T.
  destruct (Discovery.Encode DiscoveryHello) as [f| |] eqn:E; [|by vm_compute in E..].
  destruct (announced DiscoveryHello f eq_refl E) as (F & W & _ & C). rewrite <-C. unfold Discovery.SendHello. rewrite E.
  pose proof (Listen_link _ _ _ _ S) as (_ & _ & Es).
  apply sent_is_link with (ip := AsSlice Discovery.MulticastAddress) (dst := Discovery.MulticastAddress); try done.
  by rewrite Es.
Qed.
Lemma ack_is_link port' zone :
  let d := Discovery.SendAck s local2 in
  link_datagram t (delivered index2 (pinned_source d port' zone) d) (newMessage DiscoveryHelloAck) (WithoutZone local1).
Proof using Type*.
  destruct (Discovery.Encode DiscoveryHelloAck) as [f| |] eqn:E; [|by vm_compute in E..].
  destruct (announced DiscoveryHelloAck f eq_refl E) as (F & W & _ & C). rewrite <-C. unfold Discovery.SendAck. rewrite E.
  pose proof (Listen_link _ _ _ _ T) as (I & _ & _).
  eapply sent_is_link; [done..| |done|done]. cbn. apply AddrFromSlice_valid; auto using Is6_valid.
Qed.
Lemma unicast_is_link m d port' zone :
  wf_message m → IsDiscovery (Type_ m) || IsLinkProbe (Type_ m) = true → Discovery.Send s local2 m = Ok d →
  link_datagram t (delivered index2 (pinned_source d port' zone) d) (carried m) (WithoutZone local1).
Proof using Type*.
  unfold Discovery.Send. intros W K E. inv_ok. subst d.
  pose proof (Listen_link _ _ _ _ T) as (I & L & _). destruct (WithoutZone_class local2) as [_ C].
  eapply sent_is_link; [done..| | |done]; cbn.
  - apply AddrFromSlice_valid; auto using Is6_valid.
  - by rewrite C.
Qed.
End Link.

(** The socket of a Link.  [Read] returns exactly the first datagram that the
    socket is for ([link_datagram]: whole, of a kind used on a Link, on its
    interface, from a link-local address, a ping or pong only to one) and passes
    over the others; a datagram longer than the buffer is among these.  And it is
    for everything that the other end of the Link sends: a Hello to the multicast
    address, an acknowledgement, and every message of [Send], which arrive with the
    source address of the sender and the fields that their type carries; but for
    no packet that a policy socket is for or a probe receiver opens. *)
Theorem link_socket index1 index2 port local1 local2 s t :
  wf_addr local1 → wf_addr local2 →
  Discovery.Listen (Ok index1) local1 port = Ok s → Discovery.Listen (Ok index2) local2 port = Ok t →
  (∀ answers o rest, Discovery.Read t answers = Some (Ok o, rest) ↔
     ∃ skipped a m src, answers = map Ok skipped ++ Ok a :: rest ∧
       Forall (λ x, ∀ m src, ¬ link_datagram t x m src) skipped ∧
       link_datagram t a m src ∧ o = Discovery.mkObservation (Unmap src) (Type_ m) m) ∧
  (∀ port' zone m d,
     (m = newMessage DiscoveryHello ∧ d = Discovery.SendHello s) ∨
     (m = newMessage DiscoveryHelloAck ∧ d = Discovery.SendAck s local2) ∨
     (wf_message m ∧ IsDiscovery (Type_ m) || IsLinkProbe (Type_ m) = true ∧ Discovery.Send s local2 m = Ok d) →
     link_datagram t (delivered index2 (pinned_source d port' zone) d) (carried m) (WithoutZone local1)) ∧
  (∀ a m src, link_datagram t a m src →
     canonical (ar_packet a) = false ∧ ∀ p b n src', ar_packet b = ar_packet a → ¬ policy_datagram p b n src').
Proof.
  intros W1 W2 S T. split_and!; [| |by apply link_only].
  - intros answers o rest. unfold Discovery.Read. rewrite read_until_Ok. split.
    + intros (sk & a & -> & F & (m & src & L & ->)%accept_iff). exists sk, a, m, src. split_and!; [done| |done..].
      eapply Forall_impl; [exact F|]. cbn beta. intros x N m' src' L'.
      by rewrite (proj2 (accept_iff t x _) (ex_intro _ m' (ex_intro _ src' (conj L' eq_refl)))) in N.
    + intros (sk & a & m & src & -> & F & L & ->). exists sk, a. split; [done|]. split; [|apply accept_iff; eauto].
      eapply Forall_impl; [exact F|]. cbn beta. intros x N. destruct (Discovery.accept t x) eqn:E; [|done].
      apply accept_iff in E as (? & ? & ? & _). naive_solver.
  - intros port' zone m d [(-> & ->)|[(-> & ->)|(W & K & E)]].
    + by eapply hello_is_link.
    + by eapply ack_is_link.
    + by eapply unicast_is_link.
Qed.

(** A ping that an end of a Link sends, behind a datagram of another interface. *)
Definition exLocal1 : Addr := Addr6 (0xfe80 * 2 ^ 112 + 1) "".
Definition exLocal2 : Addr := Addr6 (0xfe80 * 2 ^ 112 + 2) "".
Lemma wf_example_link : wf_addr exLocal1 ∧ wf_addr exLocal2.
Proof. by vm_compute. Qed.
Lemma link_socket_witness :
  ∃ s t d, Discovery.Send s exLocal2 examplePing = Ok d ∧
    let a := delivered 9 (pinned_source d 4790 "9") d in
    Discovery.Read t [Ok (mkArrival (dg_packet d) (Some (mkControl (AsSlice exLocal2) 8)) (ar_source a)); Ok a] =
      Some (Ok (Discovery.mkObservation exLocal1 LinkPing examplePing), []).
Proof.
  destruct (Discovery.Listen (Ok 7) exLocal1 4790) as [s| |] eqn:S; [|by vm_compute in S..].
  destruct (Discovery.Listen (Ok 9) exLocal2 4790) as [t| |] eqn:T; [|by vm_compute in T..].
  destruct (Discovery.Send s exLocal2 examplePing) as [d| |] eqn:D.
  2, 3: vm_compute in S; injection S as <-; by vm_compute in D.
  exists s, t, d. split; [done|]. cbn zeta.
  destruct (link_socket 7 9 4790 exLocal1 exLocal2 s t (proj1 wf_example_link) (proj2 wf_example_link) S T) as (R & L & _).
  apply R. eexists [_], _, examplePing, exLocal1. split; [reflexivity|]. split; [|split; [|done]].
  - constructor; [|done]. intros m src [_ _ _ (c & dst & C & I & _) _ _]. cbn in C. injection C as <-.
    apply Listen_link in T as (_ & _ & ->). done.
  - apply (L 4790 "9"%string examplePing d). right. right. split; [apply wf_examplePing|split; [reflexivity|exact D]].
Defined.

(** [Listen] means to refuse all but IPv6 link-local addresses; the IPv4-mapped form
    of an IPv4 link-local one passes both checks, and [Read] reports such a source
    as an IPv4 address. *)
Definition mapped_local : Addr := Addr6 (0xffff * 2 ^ 32 + 0xa9fe0001) "".
Lemma mapped_local_accepted :
  is_ok (Discovery.Listen (Ok 7) mapped_local 4790) = true ∧
  Discovery.accept (Discovery.mkSocket 7 [] (mkUDPAddr [] 4790 "7"))
    (mkArrival (Discovery.or_nil (Discovery.Encode DiscoveryHello))
       (Some (mkControl (AsSlice exLocal1) 7)) (Some (mkUDPAddr (AsSlice mapped_local) 4790 ""))) =
    Some (Discovery.mkObservation (Addr4 0xa9fe0001) DiscoveryHello (newMessage DiscoveryHello)).
Proof. by vm_compute. Qed.

(** * The policy socket *)

Lemma Listen_policy local pool port f s :
  PolicySocket.Listen (Ok port) local pool f = Ok s ↔
  routed pool local ∧ ∃ g, f = Some g ∧ s = PolicySocket.mkSocket local pool port g.
Proof.
  unfold PolicySocket.Listen, routed.
  destruct (Is6 local), (Is4In6 local), (IsLinkLocalUnicast local), (IsMulticast local), (Contains pool local), f as [g|];
    cbn; split; try done; try (by intros ((? & ? & ? & ? & ?) & ? & ? & ?)).
  - intros [= <-]. split; [done|]. by exists g.
  - by intros (_ & ? & [= <-] & ->).
Qed.

Lemma policy_udp t : IsPolicy t = true → udp_type t = true.
Proof. unfold udp_type. intros ->. by rewrite !orb_true_r. Qed.

Lemma decode_iff s a m src :
  PolicySocket.decode s (received a) (ar_control a) (ar_source a) = Some (src, m) ↔ policy_datagram s a m src.
Proof.
  unfold PolicySocket.decode. split.
  - destruct (ar_source a) as [u|] eqn:U; [|done]. destruct (ar_control a) as [c|] eqn:C; [|done].
    destruct (Z.eqb_spec (ua_Port u) (PolicySocket.sk_port s)) as [P|]; [|done]. cbn [negb].
    destruct (AddrFromSlice (ua_IP u)) as [src'|] eqn:Src; [|done].
    destruct (AddrFromSlice (cm_Dst c)) as [dst|] eqn:Dst; [|done].
    destruct (_ || negb (PolicySocket.ingress _ _)) eqn:G; [done|]. rewrite !orb_false_iff, !negb_false_iff in G.
    destruct G as [[[[[[[G1%bool_decide_eq_true G2%bool_decide_eq_false] G3] G4] G5] G6] G7] G8].
    destruct (DecodeDatagram (received a)) as [m'| |] eqn:D; [|done..].
    destruct (IsPolicy (Type_ m')) eqn:K; [|done]. intros [= -> ->].
    apply decode_received in D as [L D]. apply decode_udp in D as (_ & D & _).
    split; [done..| | |]; [exists c|exists u|]; unfold routed; subst; done.
  - intros [L D K (c & -> & Dst & I) (u & -> & Src & P) ((R1 & R2 & R3 & R4 & R5) & N)].
    rewrite P, Z.eqb_refl, Src, Dst, I, R1, R2, R3, R4, R5, bool_decide_true, (bool_decide_false _ N) by done. cbn.
    rewrite (proj2 (decode_received a m)) by (split; [done|]; apply decode_udp; auto using policy_udp). by rewrite K.
Qed.

(** The policy socket, between two nodes whose loopbacks are in one pool.
    [Read] returns exactly the first datagram that the socket is for
    ([policy_datagram]: whole, a policy message, to this loopback, on an accepted
    interface, from the same port of another routed address of the pool).  What
    [Send] takes is a policy message for another address of the pool, and the
    socket of that address is for it, wherever it was routed in from: [decode]
    there yields the loopback of the sender and the fields the type carries. *)
Theorem policy_socket pool port local1 local2 g1 g2 s t :
  wf_addr local1 → wf_addr local2 →
  PolicySocket.Listen (Ok port) local1 pool g1 = Ok s → PolicySocket.Listen (Ok port) local2 pool g2 = Ok t →
  (∀ answers src m rest, PolicySocket.Read t answers = Some (Ok (src, m), rest) ↔
     ∃ skipped a, answers = map Ok skipped ++ Ok a :: rest ∧
       Forall (λ x, ∀ m src, ¬ policy_datagram t x m src) skipped ∧ policy_datagram t a m src) ∧
  (∀ m d, wf_message m → PolicySocket.Send s local2 m = Ok d →
     local1 ≠ local2 ∧ IsPolicy (Type_ m) = true ∧
     ∀ index, PolicySocket.ingress t index = true →
       policy_datagram t (delivered index (mkUDPAddr (AsSlice local1) port "") d) (carried m) local1).
Proof.
  intros W1 W2 (R1 & f1 & _ & ->)%Listen_policy (R2 & f2 & _ & ->)%Listen_policy. split.
  - intros answers src m rest. unfold PolicySocket.Read. rewrite read_until_Ok. split.
    + intros (sk & a & -> & F & L%decode_iff). exists sk, a. split_and!; [done| |done].
      eapply Forall_impl; [exact F|]. cbn beta. intros x N m' src' L'%decode_iff. by rewrite L' in N.
    + intros (sk & a & -> & F & L). exists sk, a. split; [done|]. split; [|by apply decode_iff].
      eapply Forall_impl; [exact F|]. cbn beta. intros x N.
      destruct (PolicySocket.decode _ _ _ _) as [[src' m']|] eqn:E; [|done]. apply decode_iff in E. by destruct (N m' src').
  - intros m d W E. unfold PolicySocket.Send in E. cbn in E.
    destruct (IsPolicy (Type_ m)) eqn:K; [|done]. cbn [negb orb] in E.
    case_bool_decide as N; [by rewrite orb_true_r in E|].
    destruct (Contains pool local2); [|done]. cbn [negb orb] in E. inv_ok. subst d.
    split; [done|]. split; [done|]. intros index I.
    match goal with H : EncodeDatagram m = Ok _ |- _ => destruct (datagram_read_back m _ W H) as (B1 & B2 & _) end.
    apply decode_udp in B2 as (_ & B2 & _).
    assert (A : ∀ a, wf_addr a → routed pool a → AddrFromSlice (AsSlice a) = Some a).
    { intros a Wa (A6 & _ & _ & _ & C). rewrite AddrFromSlice_valid by auto using Is6_valid.
      unfold Contains in C. destruct a as [| |v z]; try done. cbn in *.
      case_bool_decide; [by subst|]. by rewrite orb_true_r in C. }
    split; cbn; rewrite ?carried_type; try done.
    + eexists. split; [done|]. cbn. auto.
    + eexists. split; [done|]. cbn. auto.
Qed.

(** Two nodes of a pool, and the question of one of them. *)
Definition exPool : Prefix := PrefixFrom (Addr6 (0xfd00 * 2 ^ 112) "") 64.
Definition exLoopback1 : Addr := Addr6 (0xfd00 * 2 ^ 112 + 1) "".
Definition exLoopback2 : Addr := Addr6 (0xfd00 * 2 ^ 112 + 2) "".
Definition exQuery : Message := set_UID (Some (mkUID (replicate 16 x01) "")) None (newMessage PolicyQuery).
Lemma wf_example_pool : wf_addr exLoopback1 ∧ wf_addr exLoopback2.
Proof. by vm_compute. Qed.
Lemma policy_socket_witness :
  ∃ s t d, PolicySocket.Send s exLoopback2 exQuery = Ok d ∧
    PolicySocket.Read t [Ok (delivered 3 (mkUDPAddr (AsSlice exLoopback1) 4790 "") d)] = Some (Ok (exLoopback1, exQuery), []).
Proof.
  destruct (PolicySocket.Listen (Ok 4790) exLoopback1 exPool (Some (λ _, true))) as [s| |] eqn:S; [|by vm_compute in S..].
  destruct (PolicySocket.Listen (Ok 4790) exLoopback2 exPool (Some (λ i, i =? 3))) as [t| |] eqn:T; [|by vm_compute in T..].
  destruct (PolicySocket.Send s exLoopback2 exQuery) as [d| |] eqn:D.
  2, 3: vm_compute in S; injection S as <-; by vm_compute in D.
  exists s, t, d. split; [done|].
  assert (W : wf_message exQuery) by (apply wf_set_UID; [by intros ? [= <-]|done|eauto with velvet]).
  destruct (policy_socket exPool 4790 exLoopback1 exLoopback2 _ _ s t (proj1 wf_example_pool) (proj2 wf_example_pool) S T) as [R L].
  apply R. eexists [], _. split; [reflexivity|]. split; [done|].
  destruct (L exQuery d W D) as (_ & _ & L'). apply (L' 3). apply Listen_policy in T as (_ & g & [= <-] & ->). done.
Defined.

(** * The announcement *)

(** The wait before the [i]-th repetition, without its jitter. *)
Definition nominal (i : nat) : Z := Z.min (250 * Discovery.Millisecond * 2 ^ Z.of_nat i) (2 * Discovery.Second).

Lemma nominal_next i : Discovery.next_delay (nominal i) = nominal (S i).
Proof.
  unfold Discovery.next_delay, nominal. rewrite Nat2Z.inj_succ, Z.pow_succ_r by lia.
  set (p := 2 ^ Z.of_nat i). assert (0 < p) by (apply Z.pow_pos_nonneg; lia).
  unfold Discovery.Second, Discovery.Millisecond. repeat case_match; bool_to_prop; lia.
Qed.

Lemma nominal_range i : 250 * Discovery.Millisecond <= nominal i <= 2 * Discovery.Second.
Proof.
  unfold nominal. set (p := 2 ^ Z.of_nat i). assert (1 <= p) by (pose proof (Z.pow_pos_nonneg 2 (Z.of_nat i)); lia).
  unfold Discovery.Second, Discovery.Millisecond. lia.
Qed.

(** From 87.5% of the base to less than 112.5%. *)
Lemma withJitter_bounds base random :
  0 < base → let w := Discovery.withJitter base random in 7 * base <= 8 * w < 9 * base.
Proof.
  intros B w. subst w. unfold Discovery.withJitter. destruct random as [raw|]; [|lia].
  rewrite !Z.quot_div_nonneg by lia. destruct (Z.leb_spec (base / 4) 0); [lia|].
  pose proof (Z.mod_pos_bound (be_get raw) (base / 4) ltac:(lia)).
  pose proof (Z.div_mod base 4). pose proof (Z.mod_pos_bound base 4).
  pose proof (Z.div_mod base 8). pose proof (Z.mod_pos_bound base 8). lia.
Qed.

(** A turn after which the next Hello is sent. *)
Definition goes_on (t : Discovery.turn) : Prop := Discovery.tn_sent t = None ∧ Discovery.tn_fired t = true.

Lemma announce_run turns : ∀ waits,
  (∀ i w, waits !! i = Some w → 7 * nominal i <= 8 * w < 9 * nominal i) →
  let r := Discovery.announce turns (nominal (length waits)) waits in
  (∀ i w, r.1 !! i = Some w → 7 * nominal i <= 8 * w < 9 * nominal i) ∧
  match r.2 with
  | None => Forall goes_on turns ∧ length r.1 = (length waits + length turns)%nat
  | Some e => ∃ before t after, turns = before ++ t :: after ∧ Forall goes_on before ∧
      if Discovery.tn_sent t is Some e' then e = e' ∧ length r.1 = (length waits + length before)%nat
      else Discovery.tn_fired t = false ∧ e = Discovery.Canceled ∧ length r.1 = (length waits + S (length before))%nat
  end.
Proof.
  induction turns as [|[sent random fired] turns IH]; intros waits F; cbn [Discovery.announce].
  - cbn. auto.
  - destruct sent as [e|]. { split; [done|]. by exists [], (Discovery.mkTurn (Some e) random fired), turns. }
    set (w := Discovery.withJitter (nominal (length waits)) random).
    assert (F' : ∀ i v, (waits ++ [w]) !! i = Some v → 7 * nominal i <= 8 * v < 9 * nominal i).
    { intros i v [H|[L H]]%lookup_app_Some; [by apply F|].
      apply list_lookup_singleton_Some in H as [Z <-]. replace i with (length waits) by lia.
      apply withJitter_bounds. pose proof (nominal_range (length waits)). unfold Discovery.Millisecond in *. lia. }
    destruct fired.
    + rewrite nominal_next. specialize (IH _ F'). rewrite length_app, Nat.add_1_r in IH.
      destruct IH as [A B]. split; [done|]. destruct (_.2) as [e|].
      * destruct B as (b & t & af & -> & G & R). eexists (_ :: b), t, af. split; [done|]. split; [by constructor|].
        cbn [length]. destruct (Discovery.tn_sent t); destruct_and!; split_and?; try done; lia.
      * destruct B as [G R]. split; [by constructor|]. cbn [length]. lia.
    + split; [done|]. exists [], (Discovery.mkTurn None random false), turns. cbn. rewrite length_app. cbn. auto.
Qed.

(** The announcement of a Link.  The wait before the [i]-th repetition of the
    Hello lies between 87.5% and 112.5% of 250 ms doubled [i] times, or of two
    seconds once that is less, whatever crypto/rand yields or if it fails; so the
    Hellos never stop and never come faster.  It returns only after a Hello that
    could not be sent, with that error, or when the context ends during a wait. *)
Theorem announce_paced turns :
  let r := Discovery.Announce turns in
  (∀ i w, r.1 !! i = Some w → 7 * nominal i <= 8 * w < 9 * nominal i) ∧
  match r.2 with
  | None => Forall goes_on turns ∧ length r.1 = length turns
  | Some e => ∃ before t after, turns = before ++ t :: after ∧ Forall goes_on before ∧
      if Discovery.tn_sent t is Some e' then e = e' ∧ length r.1 = length before
      else Discovery.tn_fired t = false ∧ e = Discovery.Canceled ∧ length r.1 = S (length before)
  end.
Proof. apply (announce_run turns []). intros i w H. by rewrite lookup_nil in H. Qed.
