(* ===== verification/Observe.v ===== *)
(** The side of runtime/dynamic_observe.go that serves observers: what a
    DISCOVERY_CONTROL does ([handleDiscoveryControl]), and the worker that
    [startObserver] starts, which lends two probe sockets to the session for at
    most thirty seconds and reports what they receive.

    The handler holds the mutex of the engine and is one step.  A worker is its
    program point with what it holds; between any two of its steps others run, and
    packets reach its sockets.  [failed] is the error of a send on a session, if it
    has one; the other answers of calls are arguments too.  The pool of ports is
    shared with the rest of the engine ([others]). *)

From S2P Require Import Prelude Netip Ports Inference Search Control Probe.
From stdpp Require Import gmap strings.
Open Scope Z_scope.
Open Scope velvet_scope.

Definition maxRoutedSessions : nat := 128.
Definition inbox_size : nat := 256.
Definition observer_time : Z := 30 * 10 ^ 9.

(** Where a worker is: before [probe.Source]; in [for range 2], with the source
    address and the turns left; at [<-ctx.Done()]; in its deferred calls. *)
Inductive phase := Starting | Reserving (local : Addr) (turns : nat) | Serving | Unwinding.
(** A worker, by its variables; [ob_ended] says that its context is done. *)
Record observer := mkObserver {
  ob_session : nat; ob_id : list byte; ob_target : AddrPort; ob_public : Addr; ob_phase : phase; ob_ended : bool;
  ob_receiver : option Receiver; ob_sockets : list (AddrPort * leasedProbe); ob_endpoints : list AddrPort }.
Definition set_phase v w := mkObserver (ob_session w) (ob_id w) (ob_target w) (ob_public w) v (ob_ended w) (ob_receiver w) (ob_sockets w) (ob_endpoints w).
Definition set_ended w := mkObserver (ob_session w) (ob_id w) (ob_target w) (ob_public w) (ob_phase w) true (ob_receiver w) (ob_sockets w) (ob_endpoints w).
Definition set_sockets v eps w := mkObserver (ob_session w) (ob_id w) (ob_target w) (ob_public w) (ob_phase w) (ob_ended w) (ob_receiver w) v eps.
Definition set_source ip w := mkObserver (ob_session w) (ob_id w) (ob_target w) ip (ob_phase w) (ob_ended w) (ob_receiver w) (ob_sockets w) (ob_endpoints w).
Definition set_opened r w := mkObserver (ob_session w) (ob_id w) (ob_target w) (ob_public w) (ob_phase w) (ob_ended w) (Some r) (ob_sockets w) (ob_endpoints w).

(** [cancel] of a lease ends the context of its worker. *)
Record observerLease := mkObserverLease { ol_id : list byte; ol_worker : nat }.
(** The fields of an attempt that the handler reads; [a.udp] is nil ([None]) or has
    an inbox and a context. *)
Record udpInbox := mkInbox { inbox : list Control; in_cancelled : bool }.
Record probed := mkProbed { pa_session : nat; pa_operation : list byte; pa_udp : option udpInbox; pa_probing : bool }.

(** What happened, for the theorems: a worker was started, a packet was opened on a
    socket of a worker, and calls of [sendDiscovery]. *)
Inductive event :=
  | Started (n s : nat) (id : list byte) (target : AddrPort)
  | Opened (n : nat) (packet : list byte) (v : Received)
  | Refused (s : nat) (id : list byte)
  | Answered (n s : nat) (id : list byte) (c : Control).

Record server {E : Type} := mkServer {
  sv_stopped : bool; sv_evidence : list Evidence; sv_attempts : gmap (list byte) probed; observerLeases : gmap nat observerLease;
  workers : gmap nat observer; next_worker : nat; sv_ports : portPool; others : list portLease; sv_env : E; sv_trace : list event }.
Arguments server : clear implicits.
Arguments mkServer {E} _ _ _ _ _ _ _ _ _ _.

Section Server.
Context {E : Type}.
Implicit Types (sv : server E).
Definition set_udp_attempts v sv : server E := mkServer (sv_stopped sv) (sv_evidence sv) v (observerLeases sv) (workers sv) (next_worker sv) (sv_ports sv) (others sv) (sv_env sv) (sv_trace sv).
Definition set_leases v sv : server E := mkServer (sv_stopped sv) (sv_evidence sv) (sv_attempts sv) v (workers sv) (next_worker sv) (sv_ports sv) (others sv) (sv_env sv) (sv_trace sv).
Definition set_workers v sv : server E := mkServer (sv_stopped sv) (sv_evidence sv) (sv_attempts sv) (observerLeases sv) v (next_worker sv) (sv_ports sv) (others sv) (sv_env sv) (sv_trace sv).
Definition set_pool p l (x : E) sv : server E := mkServer (sv_stopped sv) (sv_evidence sv) (sv_attempts sv) (observerLeases sv) (workers sv) (next_worker sv) p l x (sv_trace sv).
Definition record_ e sv : server E := mkServer (sv_stopped sv) (sv_evidence sv) (sv_attempts sv) (observerLeases sv) (workers sv) (next_worker sv) (sv_ports sv) (others sv) (sv_env sv) (sv_trace sv ++ [e]).
Definition set_worker n w sv : server E := set_workers (<[n := w]> (workers sv)) sv.
Definition cancel_worker n sv : server E := set_workers (alter set_ended n (workers sv)) sv.
End Server.

Definition control (code : ControlCode) : Control := mkControl code 0 0 false (zeros 32) [].
(** [sendDiscovery]. *)
Definition sendDiscovery (c : Control) (failed : option error) : result unit :=
  _ ← Control_Encode c; match failed with Some e => Err e | None => Ok tt end.

Section Observe.
Context `{AEAD} {E : Type} (listenProbe : AddrPort → E → (error + AddrPort) * E) (closeSocket : AddrPort → E → E).
Context (ports : PortChoice).
Implicit Types (sv : server E).

(** ** The handler *)

(** The passive evidence of the target's family. *)
Definition public_of (evidence : list Evidence) (target : AddrPort) : Addr :=
  match filter (λ e, Is4 (AddrPort_Addr (eObservedEndpoint e)) = Is4 (AddrPort_Addr target)) evidence with
  | e :: _ => AddrPort_Addr (eObservedEndpoint e)
  | [] => AddrInvalid
  end.
(** [done]: the engine's context is done. *)
Definition startObserver (s : nat) (id : list byte) (target : AddrPort) (done : bool) (failed : option error) sv : result unit * server E :=
  if sv_stopped sv || done then (Err (errors_New "context canceled"), sv)
  else if bool_decide (is_Some (observerLeases sv !! s)) || (maxRoutedSessions <=? size (observerLeases sv))%nat
  then (sendDiscovery (control DiscoveryEnd) failed, record_ (Refused s id) sv)
  else
    let n := next_worker sv in
    let w := mkObserver s id target (public_of (sv_evidence sv) target) Starting false None [] [] in
    (Ok tt,
     mkServer (sv_stopped sv) (sv_evidence sv) (sv_attempts sv) (<[s := mkObserverLease id n]> (observerLeases sv))
       (<[n := w]> (workers sv)) (S n) (sv_ports sv) (others sv) (sv_env sv) (sv_trace sv ++ [Started n s id target])).

(** The select: a full inbox ends the search of the attempt. *)
Definition deliver (c : Control) (a : probed) : probed :=
  match pa_udp a with
  | Some u =>
    let u := if (length (inbox u) <? inbox_size)%nat then mkInbox (inbox u ++ [c]) (in_cancelled u) else mkInbox (inbox u) true in
    mkProbed (pa_session a) (pa_operation a) (Some u) (pa_probing a)
  | None => a
  end.
Definition for_attempt (s : nat) (id : list byte) (a : probed) : bool :=
  bool_decide (pa_session a = s) && bool_decide (pa_operation a = id) && bool_decide (is_Some (pa_udp a)) && pa_probing a.
Definition to_attempt (s : nat) (remote id : list byte) (c : Control) sv : server E :=
  match sv_attempts sv !! remote with
  | Some a => if for_attempt s id a then set_udp_attempts (<[remote := deliver c a]> (sv_attempts sv)) sv else sv
  | None => sv
  end.
Definition lease_of (s : nat) (id : list byte) sv : option observerLease :=
  match observerLeases sv !! s with
  | Some lease => if bool_decide (ol_id lease = id) then Some lease else None
  | None => None
  end.
Definition handleDiscoveryControl (s : nat) (remote id data : list byte) (done : bool) (failed : option error) sv : result unit * server E :=
  match DecodeControl data with
  | Err e => (Err e, sv)
  | Panic => (Panic, sv)
  | Ok c =>
    if bool_decide (Code c = ObserveOpen) then
      match Endpoints c with
      | target :: _ => startObserver s id target done failed sv
      | [] => (Panic, sv)                                  (* c.Endpoints[0] *)
      end
    else
      match lease_of s id sv with
      | Some lease => (Ok tt, if bool_decide (Code c = DiscoveryEnd) then cancel_worker (ol_worker lease) sv else sv)
      | None => (Ok tt, to_attempt s remote id c sv)
      end
  end.

(** ** The worker *)

(** [sendDiscovery] by the worker [n]; it says whether that succeeded. *)
Definition answer (n : nat) (w : observer) (c : Control) (failed : option error) sv : bool * server E :=
  (is_ok (sendDiscovery c failed), record_ (Answered n (ob_session w) (ob_id w) c) sv).
(** [fail(); return]. *)
Definition renounce (n : nat) (w : observer) (failed : option error) sv : server E :=
  set_worker n (set_phase Unwinding w) (answer n w (control DiscoveryEnd) failed sv).2.

(** [probe.Source] and [probe.NewReceiver]. *)
Definition begin_ (n : nat) (w : observer) (source : result Addr) (now : Z) (random : result (list byte)) (failed : option error) sv : server E :=
  match source with
  | Ok local =>
    let w := set_source (if Addr_IsValid (ob_public w) then ob_public w else local) w in
    match NewReceiver (ob_id w) (now + observer_time) random with
    | Ok r => set_worker n (set_phase (Reserving local 2) (set_opened r w)) sv
    | _ => renounce n w failed sv
    end
  | _ => renounce n w failed sv
  end.
(** A turn of [for range 2]; [start] is [rand.IntN]. *)
Definition offered (w : observer) (local : AddrPort) : list AddrPort :=
  CandidatesFor (Infer [] (mkSurvey local (ob_target w) [ob_public w] [] true)) 1.
Definition reserve_turn (n : nat) (w : observer) (local : Addr) (turns : nat) (start : Z) (failed : option error) sv : result (server E) :=
  let '(r, p, x) := reserveProbe listenProbe closeSocket Port (AddrPortFrom local 0) ports start (sv_ports sv) (sv_env sv) in
  let sv := set_pool p (others sv) x sv in
  match r with
  | Ok socket =>
    Ok (set_worker n (set_phase (Reserving local turns)
      (set_sockets (ob_sockets w ++ [socket]) (ob_endpoints w ++ offered w socket.1) w)) sv)
  | Err _ => Ok (renounce n w failed sv)
  | Panic => Panic
  end.
(** The answer, after the loop. *)
Definition ready_of (w : observer) : Control :=
  mkControl ObserveReady 0 0 false (match ob_receiver w with Some r => rv_Key r | None => zeros 32 end) (ob_endpoints w).
Definition ready (n : nat) (w : observer) (failed : option error) sv : server E :=
  let '(sent, sv) := answer n w (ready_of w) failed sv in
  set_worker n (set_phase (if sent then Serving else Unwinding) w) sv.

(** The deferred calls, in their order: the sockets are closed one by one; the lease
    is taken out of the map if it is still the worker's; the context is ended. *)
Definition close_socket (n : nat) (w : observer) (socket : AddrPort * leasedProbe) (rest : list (AddrPort * leasedProbe)) sv : server E :=
  set_worker n (set_sockets rest (ob_endpoints w) w)
    (set_pool (leasedProbe_Close socket.2 (sv_ports sv)) (others sv) (closeSocket socket.1 (sv_env sv)) sv).
Definition leave (n : nat) (w : observer) sv : server E :=
  let leases := match observerLeases sv !! ob_session w with
                | Some lease => if bool_decide (ol_worker lease = n) then delete (ob_session w) (observerLeases sv) else observerLeases sv
                | None => observerLeases sv
                end in
  set_workers (delete n (workers sv)) (set_leases leases sv).

(** Where a worker can go on, and with what the calls answer. *)
Record answers := mkAnswers { an_source : result Addr; an_now : Z; an_random : result (list byte); an_start : Z; an_failed : option error }.
Definition work (n : nat) (x : answers) sv : result (server E) :=
  match workers sv !! n with
  | None => Ok sv
  | Some w =>
    match ob_phase w with
    | Starting => Ok (begin_ n w (an_source x) (an_now x) (an_random x) (an_failed x) sv)
    | Reserving local (S turns) => reserve_turn n w local turns (an_start x) (an_failed x) sv
    | Reserving _ O => Ok (ready n w (an_failed x) sv)
    | Serving => Ok (if ob_ended w then set_worker n (set_phase Unwinding w) sv else sv)
    | Unwinding =>
      match ob_sockets w with
      | socket :: rest => Ok (close_socket n w socket rest sv)
      | [] => Ok (leave n w sv)
      end
    end
  end.

(** The function that [startObserver] gives to the receiver of a worker, on what
    [Open] returns. *)
Definition opened_packet (n : nat) w (packet : list byte) (failed : option error) (o : option Received * Receiver) sv : server E :=
  match o with
  | (Some v, r) =>
    let w := set_opened r w in
    let sv := record_ (Opened n packet v) (set_worker n w sv) in
    if negb (rc_Round v =? 0) then sv
    else
      let '(sent, sv) := answer n w (mkControl ProbeReport (rc_Round v) (rc_Sequence v) false (zeros 32) [rc_Seen v]) failed sv in
      if sent then sv else cancel_worker n sv
  | (None, r) => set_worker n (set_opened r w) sv
  end.
(** A packet on the socket number [i] of a worker: the filter of [probe.Listen], the
    receiver, and that function. *)
Definition packet_arrives (n i : nat) (now : Z) (packet : list byte) (from : AddrPort) (destination : option Addr) (failed : option error) sv : result (server E) :=
  match workers sv !! n with
  | Some w =>
    match ob_receiver w, ob_sockets w !! i with
    | Some r, Some (local, _) =>
      if on_path (AddrPort_Addr local) destination then
        o ← Receiver_Open now packet (AddrPortFrom (Unmap (AddrPort_Addr from)) (Port from)) r;
        Ok (opened_packet n w packet failed o sv)
      else Ok sv
    | _, _ => Ok sv
    end
  | None => Ok sv
  end.

(** ** The runs *)

(** What happens: a message, a step of a worker, a packet, the end of a context (its
    thirty seconds, its session, the engine), the stop of the engine; and what the
    rest of the engine does to the pool, the evidence and the attempts. *)
Inductive happening :=
  | H_message (s : nat) (remote id data : list byte) (done : bool) (failed : option error)
  | H_work (n : nat) (x : answers)
  | H_packet (n i : nat) (now : Z) (packet : list byte) (from : AddrPort) (destination : option Addr) (failed : option error)
  | H_ended (n : nat)
  | H_stop
  | H_bind (bind : Z → E → (error + Z) * E) (choice : PortChoice) (sticky start : Z)
  | H_release (l : portLease)
  | H_engine (evidence : list Evidence) (attempts : gmap (list byte) probed).
Definition happen (h : happening) sv : result (server E) :=
  match h with
  | H_message s remote id data done failed =>
    match handleDiscoveryControl s remote id data done failed sv with (Panic, _) => Panic | (_, sv) => Ok sv end
  | H_work n x => work n x sv
  | H_packet n i now packet from destination failed => packet_arrives n i now packet from destination failed sv
  | H_ended n => Ok (cancel_worker n sv)
  | H_stop => Ok (mkServer true (sv_evidence sv) (sv_attempts sv) (observerLeases sv) (workers sv) (next_worker sv) (sv_ports sv) (others sv) (sv_env sv) (sv_trace sv))
  | H_bind bind choice sticky start =>
    match portPool_bind bind choice sticky start (sv_ports sv) (sv_env sv) with
    | (Bound l, p, x) => Ok (set_pool p (l :: others sv) x sv)
    | (BindPanic, _, _) => Panic
    | (_, p, x) => Ok (set_pool p (others sv) x sv)
    end
  | H_release l =>
    if bool_decide (l ∈ others sv)
    then Ok (set_pool (lease_release (Some l) (sv_ports sv)) (filter (λ k, k ≠ l) (others sv)) (sv_env sv) sv) else Ok sv
  | H_engine evidence attempts =>
    Ok (mkServer (sv_stopped sv) evidence attempts (observerLeases sv) (workers sv) (next_worker sv) (sv_ports sv) (others sv) (sv_env sv) (sv_trace sv))
  end.
Fixpoint run (hs : list happening) sv : result (server E) :=
  match hs with
  | [] => Ok sv
  | h :: hs => sv ← happen h sv; run hs sv
  end.
(** The engine before any observer. *)
Definition idle (p : portPool) (l : list portLease) (x : E) : server E := mkServer false [] ∅ ∅ ∅ 0 p l x [].
End Observe.
