(* ===== verification/ObserveProps.v ===== *)
(** What the observers of a node hold and say, in every run: the account of their
    leases and ports, what they report, and that they end. *)

From S2P Require Import Prelude Netip Ports Inference Search MessageData Control Probe ProbeProps Observe.
From stdpp Require Import gmap strings.
Open Scope Z_scope.
Open Scope velvet_scope.

(** * Accounts *)

(** [L] lists the leases of the pool, each once. *)
Definition accounts (p : portPool) (L : list portLease) : Prop :=
  NoDup L ∧ ∀ port l, leases p !! port = Some l ↔ l ∈ L ∧ lease_port l = port.

#[global] Instance accounts_Permutation p : Proper ((≡ₚ) ==> iff) (accounts p).
Proof. intros L K E. unfold accounts. rewrite E. by setoid_rewrite E. Qed.

Lemma accounts_bind p p' L l :
  accounts p L → leases p' = <[lease_port l := l]> (leases p) → free p (lease_port l) → accounts p' (l :: L).
Proof.
  intros [N A] E [F _]. split.
  - constructor; [|done]. intros I. assert (leases p !! lease_port l = Some l) by (by apply A). congruence.
  - intros port k. rewrite E, elem_of_cons. destruct (decide (port = lease_port l)) as [->|D].
    + rewrite lookup_insert_eq. split; [intros [= ->]; auto|]. intros [[->|I] P]; [done|].
      assert (leases p !! lease_port l = Some k) by (by apply A). congruence.
    + rewrite lookup_insert_ne, A by done. split; [intros [? ?]; auto|]. intros [[->|I] P]; [done|auto].
Qed.

Lemma accounts_release p L l : accounts p (l :: L) → accounts (lease_release (Some l) p) L.
Proof.
  intros [[NI N]%NoDup_cons A]. split; [done|].
  assert (Hl : leases p !! lease_port l = Some l) by (apply A; split; [by left|done]).
  unfold lease_release. rewrite bool_decide_true by done. cbn. intros port k.
  destruct (decide (port = lease_port l)) as [->|D].
  - rewrite lookup_delete_eq. split; [done|]. intros [I P].
    assert (leases p !! lease_port l = Some k) as Hk by (apply A; split; [by right|done]). congruence.
  - rewrite lookup_delete_ne, A, elem_of_cons by done. naive_solver.
Qed.

Lemma accounts_same p p' L : accounts p L → leases p' = leases p → accounts p' L.
Proof. intros [N A] E. split; [done|]. by rewrite E. Qed.

Lemma accounts_release_one p K L l :
  accounts p (K ++ L) → l ∈ K → accounts (lease_release (Some l) p) (filter (λ k, k ≠ l) K ++ L).
Proof.
  intros A (K1 & K2 & ->)%list_elem_of_split. apply accounts_release.
  assert (F : ∀ M : list portLease, l ∉ M → filter (λ k, k ≠ l) M = M).
  { intros M. induction M as [|m M IH]; intros H; [done|]. apply not_elem_of_cons in H as [D H].
    rewrite filter_cons, decide_True by congruence. by rewrite IH. }
  assert (N : NoDup ((K1 ++ l :: K2) ++ L)) by apply A.
  apply NoDup_app in N as (N & _ & _). apply NoDup_app in N as (_ & D & [NI _]%NoDup_cons).
  rewrite filter_app, filter_cons, decide_False by naive_solver. rewrite !F; [|done|].
  2: { intros H. apply (D l H). by left. }
  revert A. apply accounts_Permutation. by rewrite <-!app_assoc, <-app_comm_cons, <-Permutation_middle.
Qed.

(** The leases of a worker, and all that are held. *)
Definition leases_of (w : observer) : list portLease := map (λ x, lp_lease x.2) (ob_sockets w).
Definition leases_in (m : gmap nat observer) : list portLease := flat_map (λ x, leases_of x.2) (map_to_list m).
Definition held {E} (sv : server E) : list portLease := others sv ++ leases_in (workers sv).

Lemma leases_in_insert m n w : m !! n = None → leases_in (<[n := w]> m) ≡ₚ leases_of w ++ leases_in m.
Proof. intros N. unfold leases_in. by rewrite map_to_list_insert. Qed.
Lemma leases_in_split m n w : m !! n = Some w → leases_in m ≡ₚ leases_of w ++ leases_in (delete n m).
Proof. intros N. rewrite <-(insert_delete_id m n w) at 1 by done. apply leases_in_insert, lookup_delete_eq. Qed.
Lemma leases_in_replace m n w : leases_in (<[n := w]> m) ≡ₚ leases_of w ++ leases_in (delete n m).
Proof. rewrite <-insert_delete_eq. apply leases_in_insert, lookup_delete_eq. Qed.

(** Reserving a port that the system chooses, with the pool in view. *)
Section Reserve.
Context {E : Type} (listenProbe : AddrPort → E → (error + AddrPort) * E) (closeSocket : AddrPort → E → E).

Lemma probe_bind_socket addr cs last p y r p' y' :
  bind_loop (probe_bind listenProbe closeSocket Port addr) cs last p y = (r, p', y') →
  match r with Bound _ => is_Some y'.1 | _ => True end.
Proof.
  revert last y. induction cs as [|port cs IH]; intros last y; cbn [bind_loop]; [by intros [= <- <- <-]|].
  destruct (_ && _); [by apply IH|]. case_bool_decide; [by apply IH|].
  destruct (probe_bind _ _ _ addr port y) as [res z] eqn:B. destruct res as [e|actual]; [by apply IH|].
  destruct (_ || (65535 <? actual)); [by intros [= <- <- <-]|]. destruct (_ =? _); [by apply IH|].
  case_bool_decide; [by apply IH|]. intros [= <- <- <-].
  unfold probe_bind in B. destruct y as [sk y]. destruct (listenProbe _ _) as [[?|?] ?]; by simplify_eq.
Qed.

Lemma reserveProbe_account local ports start p x :
  wf_choice ports → pool_ok p →
  (First (Range ports) ≠ 0 → 0 <= start < Last (Range ports) - First (Range ports) + 1) →
  let '(r, p', _) := reserveProbe listenProbe closeSocket Port (AddrPortFrom local 0) ports start p x in
  pool_ok p' ∧
  match r with
  | Ok (_, probe) => handed probe = false ∧ free p (lease_port (lp_lease probe)) ∧
      leases p' = <[lease_port (lp_lease probe) := lp_lease probe]> (leases p)
  | Err _ => p' = p
  | Panic => False
  end.
Proof.
  intros W P St. unfold reserveProbe, narrow. cbn [Port AddrPort_Addr]. rewrite Z.eqb_refl.
  pose proof (bind_sound (probe_bind listenProbe closeSocket Port local) ports 0 start p (None, x) W P St) as B.
  destruct (portPool_bind _ ports 0 start p (None, x)) as [[r p'] [socket x']] eqn:Pb.
  assert (So : match r with Bound _ => is_Some socket | _ => True end).
  { unfold portPool_bind in Pb. destruct (bind_candidates ports 0 start) as [cs|]; [|by simplify_eq].
    exact (probe_bind_socket _ _ _ _ _ _ _ _ Pb). }
  destruct B as [P' B]. destruct r as [l| | |]; try done.
  destruct So as [s ->]. cbn. destruct B as (_ & F & _ & L & _). done.
Qed.
End Reserve.

(** * The invariant *)

(** What a worker holds at each of its program points. *)
Definition phase_ok (w : observer) : Prop :=
  Forall (λ x, handed x.2 = false) (ob_sockets w) ∧ (length (ob_sockets w) <= 2)%nat ∧
  match ob_phase w with
  | Starting => ob_sockets w = [] ∧ ob_endpoints w = [] ∧ ob_receiver w = None
  | Reserving _ turns => (length (ob_sockets w) + turns = 2)%nat ∧ is_Some (ob_receiver w) ∧
      ob_endpoints w = flat_map (λ x, offered w x.1) (ob_sockets w)
  | Serving => length (ob_sockets w) = 2%nat ∧ is_Some (ob_receiver w)
  | Unwinding => True
  end.

Record books {E} (sv : server E) : Prop := {
  bk_pool : pool_ok (sv_ports sv);
  bk_account : accounts (sv_ports sv) (held sv);
  bk_phase : map_Forall (λ _, phase_ok) (workers sv);
  bk_lease : map_Forall (λ s lease, ∃ w, workers sv !! ol_worker lease = Some w ∧ ob_session w = s ∧ ob_id w = ol_id lease) (observerLeases sv);
  bk_worker : map_Forall (λ n w, (n < next_worker sv)%nat ∧ observerLeases sv !! ob_session w = Some (mkObserverLease (ob_id w) n)) (workers sv);
  bk_few : (size (observerLeases sv) <= maxRoutedSessions)%nat }.

(** A worker's new state, where its session and operation stay. *)
Lemma books_worker {E} (sv sv' : server E) n w w' :
  books sv → workers sv !! n = Some w → workers sv' = <[n := w']> (workers sv) →
  ob_session w' = ob_session w → ob_id w' = ob_id w → phase_ok w' →
  observerLeases sv' = observerLeases sv → next_worker sv' = next_worker sv →
  pool_ok (sv_ports sv') →
  accounts (sv_ports sv') (others sv' ++ leases_of w' ++ leases_in (delete n (workers sv))) →
  books sv'.
Proof.
  intros [B1 B2 B3 B4 B5 B6] W Ew Es Ei P El En Pk A. split; rewrite ?El, ?En, ?Ew; try done.
  - unfold held. by rewrite Ew, leases_in_replace.
  - by apply map_Forall_insert_2.
  - eapply map_Forall_impl; [exact B4|]. intros s l (v & V & Vs & Vi). cbn beta.
    destruct (decide (ol_worker l = n)) as [<-|D].
    + rewrite lookup_insert_eq. exists w'. assert (v = w) as -> by congruence. by rewrite Es, Ei.
    + rewrite lookup_insert_ne by done. by exists v.
  - apply map_Forall_insert_2; [|done]. rewrite Es, Ei. by apply B5.
Qed.

(** One whose sockets stay too. *)
Lemma books_same {E} (sv sv' : server E) n w w' :
  books sv → workers sv !! n = Some w → workers sv' = <[n := w']> (workers sv) →
  ob_session w' = ob_session w → ob_id w' = ob_id w → ob_sockets w' = ob_sockets w → phase_ok w' →
  observerLeases sv' = observerLeases sv → next_worker sv' = next_worker sv →
  sv_ports sv' = sv_ports sv → others sv' = others sv → books sv'.
Proof.
  intros B W Ew Es Ei Ek P El En Ep Eo. eapply books_worker; try done; rewrite Ep; [apply B|].
  rewrite Eo. pose proof (bk_account _ B) as A. unfold held in A. rewrite (leases_in_split _ _ _ W) in A.
  unfold leases_of. by rewrite Ek.
Qed.

Lemma open_has_target data c :
  DecodeControl data = Ok c → Code c = ObserveOpen → ∃ target, Endpoints c = [target].
Proof.
  intros (_ & V & _)%DecodeControl_ok C. unfold validControl in V. rewrite C in V.
  rewrite !andb_true_iff in V. destruct V as [[[_ V] _] _]. apply Z.eqb_eq in V. unfold len in V.
  destruct (Endpoints c) as [|t [|]]; [done|by exists t|]. cbn in V. lia.
Qed.

Section Books.
Context `{AEAD} {E : Type} (listenProbe : AddrPort → E → (error + AddrPort) * E) (closeSocket : AddrPort → E → E).
Context (ports : PortChoice) (Wp : wf_choice ports).
Implicit Types (sv : server E).
Notation happen := (Observe.happen listenProbe closeSocket ports).

(** The arguments that the calls of the standard library can have. *)
Definition in_range (choice : PortChoice) (start : Z) : Prop :=
  First (Range choice) ≠ 0 → 0 <= start < Last (Range choice) - First (Range choice) + 1.
Definition possible (h : @happening E) : Prop :=
  match h with
  | H_work n x => in_range ports (an_start x)
  | H_bind _ choice _ start => wf_choice choice ∧ in_range choice start
  | H_message s remote id data _ _ => length id = 16%nat
  | _ => True
  end.

Lemma books_record e sv : books sv → books (record_ e sv).
Proof using. by intros []. Qed.

Lemma books_cancel n sv : books sv → books (cancel_worker n sv).
Proof using.
  intros B. unfold cancel_worker. destruct (workers sv !! n) as [w|] eqn:W.
  - eapply (books_same sv _ n w (set_ended w)); try done.
    + cbn. apply map_eq. intros m. destruct (decide (m = n)) as [->|D].
      * by rewrite lookup_alter_eq, lookup_insert_eq, W.
      * by rewrite lookup_alter_ne, lookup_insert_ne.
    + exact (bk_phase _ B n w W).
  - assert (Ea : alter set_ended n (workers sv) = workers sv) by (by apply alter_id; congruence).
    rewrite Ea. by destruct B.
Qed.

Lemma books_start s id target done failed sv :
  books sv → books (startObserver s id target done failed sv).2.
Proof using.
  intros B. unfold startObserver. destruct (_ || done); [done|].
  destruct (bool_decide _ || _) eqn:G; [by apply books_record|].
  apply orb_false_iff in G as [G1%bool_decide_eq_false G2%Nat.leb_gt]. apply eq_None_not_Some in G1.
  destruct B as [B1 B2 B3 B4 B5 B6]. set (n := next_worker sv).
  assert (Fr : workers sv !! n = None).
  { destruct (workers sv !! n) eqn:W; [|done]. apply B5 in W as [? _]. lia. }
  split; cbn; try done.
  - unfold held. cbn. by rewrite leases_in_insert.
  - apply map_Forall_insert_2; [|done]. split; [constructor|]. cbn. split; [lia|done].
  - apply map_Forall_insert_2.
    + eexists. by rewrite lookup_insert_eq.
    + eapply map_Forall_impl; [exact B4|]. intros s' l (v & V & ?). exists v.
      rewrite lookup_insert_ne; [done|]. intros Eq. rewrite <-Eq, Fr in V. done.
  - apply map_Forall_insert_2.
    + rewrite lookup_insert_eq. split; [lia|done].
    + eapply map_Forall_impl; [exact B5|]. intros m w [L V]. split; [lia|].
      rewrite lookup_insert_ne; [done|]. intros Es. congruence.
  - rewrite map_size_insert_None by done. lia.
Qed.

(** A worker whose variables changed, and may have answered. *)
Lemma books_update n w0 w e sv :
  books sv → workers sv !! n = Some w0 →
  ob_session w = ob_session w0 → ob_id w = ob_id w0 → ob_sockets w = ob_sockets w0 → phase_ok w →
  books (set_worker n w (match e with Some e => record_ e sv | None => sv end)).
Proof using. intros B W ????. eapply (books_same sv _ n w0 w); by destruct e. Qed.

Lemma unwinding_ok w : phase_ok w → phase_ok (set_phase Unwinding w).
Proof using. intros (O1 & O2 & _). by split_and!. Qed.

Lemma books_begin n w source now random failed sv :
  books sv → workers sv !! n = Some w → ob_phase w = Starting → books (begin_ n w source now random failed sv).
Proof using.
  intros B W P. pose proof (bk_phase _ B n w W) as O. unfold begin_, renounce, answer.
  destruct source as [local| |]; [|apply (books_update n w _ (Some _)); try done; by apply unwinding_ok..].
  set (w1 := set_source _ w). assert (O1 : phase_ok w1) by (subst w1; unfold phase_ok in *; cbn; rewrite P in *; exact O).
  destruct (NewReceiver _ _ _) as [r| |]; [|apply (books_update n w _ (Some _)); try done; by apply unwinding_ok..].
  apply (books_update n w _ None); try done.
  unfold phase_ok in *. cbn in *. rewrite P in O. destruct O as (O2 & O3 & S & En & _). rewrite S, En. cbn. split_and!; by first [apply List.Forall_nil|lia|eauto].
Qed.

Lemma books_reserve n w local turns start failed sv :
  books sv → workers sv !! n = Some w → ob_phase w = Reserving local (S turns) → in_range ports start →
  ∃ sv', reserve_turn listenProbe closeSocket ports n w local turns start failed sv = Ok sv' ∧ books sv'.
Proof using Wp.
  intros B W P St. pose proof (bk_phase _ B n w W) as (O1 & O2 & O3). rewrite P in O3. destruct O3 as (O3 & O4 & O5).
  unfold reserve_turn. pose proof (reserveProbe_account listenProbe closeSocket local ports start (sv_ports sv) (sv_env sv) Wp (bk_pool _ B) St) as R.
  destruct (reserveProbe _ _ _ _ _ _ _ _) as [[[[socket probe]|e|] p] x]; destruct R as [Pk R]; [| |done].
  - eexists. split; [done|]. destruct R as (Rh & Rf & Rl).
    eapply (books_worker sv _ n w); try done; cbn.
    + unfold phase_ok; cbn; split_and!; rewrite ?length_app, ?Nat.add_1_r; [|lia|lia|done|].
      * apply Forall_app. split; [done|]. by constructor.
      * rewrite flat_map_app, O5. cbn. by rewrite app_nil_r.
    + unfold leases_of. cbn. rewrite map_app. cbn.
      pose proof (accounts_bind _ p _ _ (bk_account _ B) Rl Rf) as A. revert A. apply accounts_Permutation.
      unfold held. rewrite (leases_in_split _ _ _ W). unfold leases_of. by solve_Permutation.
  - eexists. split; [done|]. subst p. unfold renounce, answer.
    apply (books_update n w _ (Some _) (set_pool _ _ x sv)); try done. by destruct B.
Qed.

Lemma books_close n w socket rest sv :
  books sv → workers sv !! n = Some w → ob_phase w = Unwinding → ob_sockets w = socket :: rest →
  books (close_socket closeSocket n w socket rest sv).
Proof using.
  intros B W P S. destruct (bk_phase _ B n w W) as (O1 & O2 & _). rewrite S in O1, O2. cbn in O2.
  apply Forall_cons in O1 as [Oh O1].
  assert (A : accounts (sv_ports sv) (lp_lease socket.2 :: others sv ++ map (λ x, lp_lease x.2) rest ++ leases_in (delete n (workers sv)))).
  { generalize (bk_account _ B). apply accounts_Permutation. unfold held. rewrite (leases_in_split _ _ _ W).
    unfold leases_of. rewrite S. cbn. by solve_Permutation. }
  assert (R : leasedProbe_Close socket.2 (sv_ports sv) = lease_release (Some (lp_lease socket.2)) (sv_ports sv))
    by (unfold leasedProbe_Close; by rewrite Oh).
  eapply (books_worker sv _ n w); try done; cbn; rewrite ?R.
  - unfold phase_ok. cbn. rewrite P. split_and!; [done|lia|done].
  - apply (release_identity (sv_ports sv) (lp_lease socket.2) (bk_pool _ B)).
    apply A. split; [by left|done].
  - by apply accounts_release.
Qed.

Lemma books_leave n w sv :
  books sv → workers sv !! n = Some w → ob_sockets w = [] →
  books (leave n w sv) ∧ observerLeases (leave n w sv) = delete (ob_session w) (observerLeases sv).
Proof using.
  intros B W S. destruct (bk_worker _ B n w W) as [Wn Wl]. unfold leave. rewrite Wl. cbn [ol_worker].
  rewrite bool_decide_true by done. split; [|done]. destruct B as [B1 B2 B3 B4 B5 B6]. split; cbn; try done.
  - revert B2. apply accounts_Permutation. unfold held. cbn. rewrite (leases_in_split _ _ _ W).
    unfold leases_of. by rewrite S.
  - by apply map_Forall_delete.
  - intros s l [D V]%lookup_delete_Some. destruct (B4 s l V) as (v & Vv & Vs & Vi). exists v.
    rewrite lookup_delete_ne; [done|]. intros ->. congruence.
  - intros m v [D V]%lookup_delete_Some. destruct (B5 m v V) as [Lv Hv]. split; [done|].
    rewrite lookup_delete_ne; [done|]. intros Es. rewrite <-Es, Wl in Hv. congruence.
  - pose proof (map_size_delete_Some (ob_session w) (observerLeases sv)) as Sz. rewrite Wl in Sz.
    specialize (Sz ltac:(by eexists)). lia.
Qed.

Lemma books_work n x sv :
  books sv → in_range ports (an_start x) → ∃ sv', work listenProbe closeSocket ports n x sv = Ok sv' ∧ books sv'.
Proof using Wp.
  intros B St. unfold work. destruct (workers sv !! n) as [w|] eqn:W; [|by eexists].
  pose proof (bk_phase _ B n w W) as O. destruct (ob_phase w) as [|local [|turns]| |] eqn:P.
  - eexists. split; [done|]. by apply books_begin.
  - eexists. split; [done|]. unfold ready, answer. apply (books_update n w _ (Some _)); try done.
    unfold phase_ok in *. rewrite P in O. destruct O as (O1 & O2 & O3 & O4 & _). destruct (is_ok _); cbn; split_and!; try done. lia.
  - by apply books_reserve.
  - eexists. split; [done|]. destruct (ob_ended w); [|done]. apply (books_update n w _ None); try done. by apply unwinding_ok.
  - destruct (ob_sockets w) as [|socket rest] eqn:S; eexists; (split; [done|]); [by apply books_leave|by apply books_close].
Qed.

Lemma opened_ok r r' w : ob_receiver w = Some r → phase_ok w → phase_ok (set_opened r' w).
Proof using. unfold phase_ok. cbn. intros R (O1 & O2 & O3). destruct (ob_phase w); rewrite ?R in *; naive_solver. Qed.

(** [packet_arrives] by [opens]: no read of the packet is out of range. *)
Definition packet_arrived n i now packet from destination failed sv : server E :=
  match workers sv !! n with
  | Some w =>
    match ob_receiver w, ob_sockets w !! i with
    | Some r, Some (local, _) =>
      if on_path (AddrPort_Addr local) destination
      then opened_packet n w packet failed (opens now packet (AddrPortFrom (Unmap (AddrPort_Addr from)) (Port from)) r) sv else sv
    | _, _ => sv
    end
  | None => sv
  end.
Lemma packet_arrives_eq n i now packet from destination failed sv :
  packet_arrives n i now packet from destination failed sv = Ok (packet_arrived n i now packet from destination failed sv).
Proof using.
  unfold packet_arrives, packet_arrived. destruct (workers sv !! n) as [w|]; [|done]. destruct (ob_receiver w); [|done].
  destruct (_ !! i) as [[local lp]|]; [|done]. destruct (on_path _ _); [|done]. by rewrite Receiver_Open_eq, bind_Ok.
Qed.
Lemma books_packet n i now packet from destination failed sv :
  books sv → books (packet_arrived n i now packet from destination failed sv).
Proof using.
  intros B. unfold packet_arrived. destruct (workers sv !! n) as [w|] eqn:W; [|done].
  destruct (ob_receiver w) as [r|] eqn:R; [|done]. destruct (ob_sockets w !! i) as [[local lp]|]; [|done].
  destruct (on_path _ _); [|done]. pose proof (bk_phase _ B n w W) as O.
  unfold opened_packet. destruct (opens _ _ _ r) as [[v|] r'].
  - assert (B' : books (record_ (Opened n packet v) (set_worker n (set_opened r' w) sv))).
    { apply books_record. apply (books_update n w _ None); try done. by eapply opened_ok. }
    destruct (negb _); [done|]. unfold answer. destruct (is_ok _); [|apply books_cancel]; by apply books_record.
  - apply (books_update n w _ None); try done. by eapply opened_ok.
Qed.

(** Every happening that is possible goes on, and keeps the account. *)
Lemma books_happen h sv : books sv → possible h → ∃ sv', happen h sv = Ok sv' ∧ books sv'.
Proof using Wp.
  intros B Ps. destruct h as [s remote id data dn failed|n x|n i now packet from destination failed|n| |bind choice sticky start|l|ev at_]; cbn in *.
  - unfold handleDiscoveryControl. pose proof (returns_DecodeControl data) as Rt.
    destruct (DecodeControl data) as [c|e|] eqn:D; [|by eexists|done].
    case_bool_decide as C.
    + destruct (open_has_target _ _ D C) as [target ->].
      pose proof (books_start s id target dn failed sv B) as Bs. unfold startObserver in *.
      destruct (_ || dn); [by eexists|]. destruct (_ || (_ <=? _)%nat); [|by eexists].
      destruct (sendDiscovery _ _) eqn:Sd; [by eexists..|]. exfalso. revert Sd. unfold sendDiscovery. vm_compute Control_Encode. by destruct failed.
    + destruct (lease_of s id sv); [case_bool_decide|]; eexists; (split; [done|]); [by apply books_cancel|done|].
      unfold to_attempt. destruct (sv_attempts sv !! remote) as [a|]; [|done]. destruct (for_attempt _ _ _); [by destruct B|done].
  - by apply books_work.
  - rewrite packet_arrives_eq. eexists. split; [done|]. by apply books_packet.
  - eexists. split; [done|]. by apply books_cancel.
  - eexists. split; [done|]. by destruct B.
  - destruct Ps as [Wc St]. pose proof (bind_sound bind choice sticky start (sv_ports sv) (sv_env sv) Wc (bk_pool _ B) St) as Bd.
    destruct (portPool_bind _ _ _ _ _ _) as [[[l| | |] p] x]; destruct Bd as [Pk Bd]; [|..|done].
    + destruct Bd as (_ & F & _ & L & _). eexists. split; [done|]. pose proof (bk_account _ B). destruct B. split; try done.
      cbn. by eapply accounts_bind.
    + subst p. eexists. split; [done|]. by destruct B.
    + subst p. eexists. split; [done|]. by destruct B.
  - case_bool_decide as I; eexists; (split; [done|]); [|done]. pose proof (bk_account _ B) as A.
    pose proof (bk_pool _ B) as Pk. destruct B. split; try done.
    + cbn. apply (release_identity (sv_ports sv) l Pk). apply A. split; [|done]. apply elem_of_app. by left.
    + cbn. by apply accounts_release_one.
  - eexists. split; [done|]. by destruct B.
Qed.

Lemma books_run hs sv : books sv → Forall possible hs → ∃ sv', run listenProbe closeSocket ports hs sv = Ok sv' ∧ books sv'.
Proof using Wp.
  revert sv. induction hs as [|h hs IH]; intros sv B F; cbn [run]; [by eexists|].
  apply Forall_cons in F as [Ph F]. destruct (books_happen h sv B Ph) as (sv1 & -> & B1). rewrite bind_Ok. by apply IH.
Qed.

Lemma books_idle p l x : pool_ok p → accounts p l → books (idle p l x : server E).
Proof using.
  intros P A. split; try done.
  - cbn. unfold held, leases_in. cbn. by rewrite map_to_list_empty, app_nil_r.
  - cbn. rewrite map_size_empty. unfold maxRoutedSessions. lia.
Qed.
End Books.

(** * Workers end *)

(** The steps of its own that an ended worker has left at most. *)
Definition left_of (w : observer) : nat :=
  match ob_phase w with
  | Starting => 8
  | Reserving _ turns => 5 + turns
  | Serving => 4
  | Unwinding => 1 + length (ob_sockets w)
  end.
Definition steps_left {E} (n : nat) (sv : server E) : nat := match workers sv !! n with Some w => left_of w | None => 0 end.
Definition ended {E} (n : nat) (sv : server E) : Prop :=
  (n < next_worker sv)%nat ∧ match workers sv !! n with Some w => ob_ended w = true | None => True end.
Definition own {E} (n : nat) (h : @happening E) : nat := match h with H_work m _ => if decide (m = n) then 1 else 0 | _ => 0 end.

Section Ending.
Context `{AEAD} {E : Type} (listenProbe : AddrPort → E → (error + AddrPort) * E) (closeSocket : AddrPort → E → E).
Context (ports : PortChoice).
Implicit Types (sv : server E).

(** A step after which the worker [n], if there is one, is where it was. *)
Definition stays n sv sv' : Prop :=
  (next_worker sv <= next_worker sv')%nat ∧
  match workers sv !! n with
  | Some w => ∃ w', workers sv' !! n = Some w' ∧ ob_phase w' = ob_phase w ∧ ob_sockets w' = ob_sockets w ∧ (ob_ended w = true → ob_ended w' = true)
  | None => (n < next_worker sv)%nat → workers sv' !! n = None
  end.
Lemma stays_left n sv sv' : stays n sv sv' → ended n sv → ended n sv' ∧ steps_left n sv' = steps_left n sv.
Proof using.
  unfold stays, ended, steps_left. intros [L St] [Ln En]. destruct (workers sv !! n) as [w|].
  - destruct St as (w' & -> & P & S & I). unfold left_of. rewrite P, S. split; [|done]. split; [lia|auto].
  - rewrite St by done. split; [|done]. split; [lia|done].
Qed.
Lemma stays_same n sv sv' : next_worker sv' = next_worker sv → workers sv' = workers sv → stays n sv sv'.
Proof using. intros E1 E2. unfold stays. rewrite E1, E2. split; [done|]. destruct (workers sv !! n) as [w|]; [by exists w|done]. Qed.
Lemma stays_cancel n m sv : stays n sv (cancel_worker m sv).
Proof using.
  split; [done|]. cbn. destruct (decide (n = m)) as [->|D].
  - rewrite lookup_alter_eq. destruct (workers sv !! m) as [w|]; [by exists (set_ended w)|done].
  - rewrite lookup_alter_ne by done. destruct (workers sv !! n) as [w|]; [by exists w|done].
Qed.
Lemma stays_trans n sv1 sv2 sv3 : stays n sv1 sv2 → stays n sv2 sv3 → stays n sv1 sv3.
Proof using.
  intros [L1 S1] [L2 S2]. split; [lia|]. destruct (workers sv1 !! n) as [w|].
  - destruct S1 as (w1 & W1 & P1 & K1 & E1). rewrite W1 in S2. destruct S2 as (w2 & W2 & P2 & K2 & E2).
    exists w2. split_and!; [done|congruence|congruence|auto].
  - intros L. rewrite (S1 L) in S2. apply S2. lia.
Qed.
Lemma stays_other n m sv sv' w :
  workers sv' = <[m := w]> (workers sv) → n ≠ m → next_worker sv' = next_worker sv → stays n sv sv'.
Proof using.
  intros Ew D En. unfold stays. rewrite En, Ew, lookup_insert_ne by done. split; [done|]. destruct (workers sv !! n) as [v|]; [by exists v|done].
Qed.

Lemma stays_packet k n i now packet from destination failed sv :
  stays k sv (packet_arrived n i now packet from destination failed sv).
Proof using.
  unfold packet_arrived. destruct (workers sv !! n) as [w|] eqn:W; [|by apply stays_same].
  destruct (ob_receiver w) as [r|]; [|by apply stays_same]. destruct (ob_sockets w !! i) as [[local lp]|]; [|by apply stays_same].
  destruct (on_path _ _); [|by apply stays_same].
  assert (St : ∀ r' sv', workers sv' = <[n := set_opened r' w]> (workers sv) → next_worker sv' = next_worker sv → stays k sv sv').
  { intros r' sv' Ew En. destruct (decide (k = n)) as [->|D]; [|by eapply stays_other].
    unfold stays. rewrite En, Ew, lookup_insert_eq, W. split; [done|]. by exists (set_opened r' w). }
  unfold opened_packet. destruct (opens _ _ _ r) as [[v|] r']; [|by apply (St r')].
  destruct (negb _); [by apply (St r')|]. unfold answer. destruct (is_ok _); [by apply (St r')|].
  eapply stays_trans; [|apply stays_cancel]. by apply (St r').
Qed.

Lemma stays_start k s id target dn failed sv : books sv → stays k sv (startObserver s id target dn failed sv).2.
Proof using.
  intros B. unfold startObserver. destruct (_ || dn); [by apply stays_same|]. destruct (_ || _); [by apply stays_same|].
  split; cbn; [lia|]. destruct (decide (k = next_worker sv)) as [->|D].
  - rewrite lookup_insert_eq. destruct (workers sv !! next_worker sv) as [w|] eqn:W; [|lia].
    destruct (bk_worker _ B _ _ W). lia.
  - rewrite lookup_insert_ne by done. destruct (workers sv !! k) as [v|]; [by exists v|done].
Qed.

Lemma happen_stays k h sv sv' :
  books sv → possible ports h → happen listenProbe closeSocket ports h sv = Ok sv' →
  match h with H_work _ _ => True | _ => stays k sv sv' end.
Proof using.
  intros B Ps. destruct h as [s remote id data dn failed|n x|n i now packet from destination failed|n| |bind choice sticky start|l|ev at_];
    cbn -[startObserver] in *; try done.
  - unfold handleDiscoveryControl. destruct (DecodeControl data) as [c|e|]; [|by intros [= <-]; apply stays_same|done].
    case_bool_decide.
    + destruct (Endpoints c) as [|target rest]; [done|]. pose proof (stays_start k s id target dn failed sv B) as Ss.
      destruct (startObserver _ _ _ _ _ _) as [[?|?|] sv1]; [intros [= <-]..|done]; exact Ss.
    + destruct (lease_of s id sv) as [lease|]; intros [= <-]; [case_bool_decide; [apply stays_cancel|by apply stays_same]|].
      unfold to_attempt. destruct (sv_attempts sv !! remote) as [a|]; [destruct (for_attempt _ _ _)|]; by apply stays_same.
  - rewrite packet_arrives_eq. intros [= <-]. apply stays_packet.
  - intros [= <-]. apply stays_cancel.
  - intros [= <-]. by apply stays_same.
  - destruct (portPool_bind _ _ _ _ _ _) as [[[l| | |] p] x]; [..|done]; intros [= <-]; by apply stays_same.
  - case_bool_decide; intros [= <-]; by apply stays_same.
  - intros [= <-]. by apply stays_same.
Qed.

(** A step of a worker leaves the others where they are. *)
Lemma work_others k n x sv sv' : work listenProbe closeSocket ports n x sv = Ok sv' → k ≠ n → stays k sv sv'.
Proof using.
  unfold work. intros Wk D. destruct (workers sv !! n) as [w|] eqn:W; [|injection Wk as <-; by apply stays_same].
  assert (Sg : ∀ w v failed, w = v → stays k sv (renounce n w failed sv)) by (intros; by eapply stays_other).
  destruct (ob_phase w) as [|local [|turns]| |].
  - injection Wk as <-. unfold begin_. destruct (an_source x); [destruct (NewReceiver _ _ _)|..]; by eapply stays_other.
  - injection Wk as <-. by eapply stays_other.
  - unfold reserve_turn in Wk. destruct (reserveProbe _ _ _ _ _ _ _ _) as [[[socket|e|] p] y]; [..|done]; injection Wk as <-; by eapply stays_other.
  - injection Wk as <-. destruct (ob_ended w); [by eapply stays_other|by apply stays_same].
  - destruct (ob_sockets w); injection Wk as <-; [|by eapply stays_other].
    unfold stays, leave. cbn. rewrite lookup_delete_ne by done. split; [done|]. destruct (workers sv !! k) as [v|]; [by exists v|done].
Qed.

(** A step of an ended worker brings it nearer to its end. *)
Lemma work_left n x sv sv' :
  books sv → ended n sv → work listenProbe closeSocket ports n x sv = Ok sv' → ended n sv' ∧ (steps_left n sv' <= steps_left n sv - 1)%nat.
Proof using.
  intros B [Ln En]. unfold work, steps_left. destruct (workers sv !! n) as [w|] eqn:W.
  2: { intros [= <-]. unfold ended. by rewrite W. }
  pose proof (bk_phase _ B n w W) as (_ & O2 & O3).
  assert (G : ∀ sv' w', workers sv' = <[n := w']> (workers sv) → next_worker sv' = next_worker sv → ob_ended w' = true →
    (left_of w' <= left_of w - 1)%nat → ended n sv' ∧ (match workers sv' !! n with Some w => left_of w | None => 0 end <= left_of w - 1)%nat).
  { intros sv1 w' Ew Nw Ed Le. unfold ended. by rewrite Nw, Ew, lookup_insert_eq. }
  destruct (ob_phase w) as [|local [|turns]| |] eqn:P.
  - destruct O3 as (S & _). intros [= <-]. unfold begin_, renounce, answer.
    destruct (an_source x); [destruct (NewReceiver _ _ _)|..]; (eapply G; [done..|]); unfold left_of; cbn; rewrite ?P, ?S; cbn; lia.
  - intros [= <-]. destruct O3 as (O3 & _). eapply G; [done..|]. unfold left_of. cbn. rewrite P. destruct (is_ok _); cbn; lia.
  - unfold reserve_turn. destruct O3 as (O3 & _).
    destruct (reserveProbe _ _ _ _ _ _ _ _) as [[[socket|e|] p] y]; [..|done]; intros [= <-]; (eapply G; [done..|]);
      unfold left_of; cbn; rewrite P; cbn; lia.
  - rewrite En. intros [= <-]. destruct O3 as (O3 & _). eapply G; [done..|]. unfold left_of. cbn. rewrite P. lia.
  - destruct (ob_sockets w) as [|socket rest] eqn:S; intros [= <-].
    + unfold ended, leave, left_of. cbn. rewrite lookup_delete_eq. split; [done|lia].
    + eapply G; [done..|]. unfold left_of. cbn. rewrite P, S. cbn. lia.
Qed.

Lemma happen_left n h sv sv' :
  books sv → possible ports h → happen listenProbe closeSocket ports h sv = Ok sv' → ended n sv →
  ended n sv' ∧ (steps_left n sv' <= steps_left n sv - own n h)%nat.
Proof using.
  intros B Ps Hp En. pose proof (happen_stays n h sv sv' B Ps Hp) as St.
  assert (Sl : stays n sv sv' → own n h = 0%nat → ended n sv' ∧ (steps_left n sv' <= steps_left n sv - own n h)%nat).
  { intros St' ->. destruct (stays_left n sv sv' St' En) as [E1 E2]. split; [done|lia]. }
  destruct h as [| m x| | | | | |]; try (by apply Sl). cbn in *. destruct (decide (m = n)) as [->|D].
  - by eapply work_left.
  - apply Sl; [|done]. eapply work_others; [done|congruence].
Qed.
End Ending.

Lemma run_left `{AEAD} {E} listenProbe closeSocket ports n hs : ∀ sv sv' : server E,
  wf_choice ports → books sv → Forall (possible ports) hs → run listenProbe closeSocket ports hs sv = Ok sv' → ended n sv →
  books sv' ∧ ended n sv' ∧ (steps_left n sv' <= steps_left n sv - sum_list_with (own n) hs)%nat.
Proof.
  induction hs as [|h hs IH]; intros sv sv' Wp B F R En; cbn [run] in R.
  - injection R as <-. split_and!; [done..|]. cbn. lia.
  - apply Forall_cons in F as [Ph F]. destruct (books_happen listenProbe closeSocket ports Wp h sv B Ph) as (sv1 & H1 & B1).
    rewrite H1, bind_Ok in R. destruct (happen_left listenProbe closeSocket ports n h sv sv1 B Ph H1 En) as [E1 L1].
    destruct (IH sv1 sv' Wp B1 F R E1) as (B' & E' & L'). split_and!; [done..|]. cbn. lia.
Qed.

Lemma left_bound `{AEAD} {E} (sv : server E) n : books sv → (steps_left n sv <= 8)%nat.
Proof.
  intros B. unfold steps_left. destruct (workers sv !! n) as [w|] eqn:W; [|lia].
  destruct (bk_phase _ B n w W) as (_ & O2 & O3). unfold left_of. destruct (ob_phase w); lia.
Qed.

(** C39: the account of the observers a node serves. The pool is consistent and
    its leases are accounted for, the port choice is well formed, random starts
    are in range and identifiers have sixteen octets. Whatever messages,
    packets, failures and interleavings there are, no step panics, neither at
    the first endpoint of a message nor at an octet of a packet; at most 128
    sessions have an observer, each one, and a lease exactly as long as its
    worker; a worker has two sockets at most; every lease of the pool belongs to
    exactly one socket or to the rest of the engine, and there is no other, so
    none is lost or used twice. Once the context of a worker ends, eight steps
    of its own are enough for it to be gone, with its lease, its sockets and
    their ports. *)
Theorem observers_account `{AEAD} {E} (listenProbe : AddrPort → E → (error + AddrPort) * E) closeSocket ports p l (x : E) hs :
  wf_choice ports → pool_ok p → accounts p l → Forall (possible ports) hs →
  ∃ sv, run listenProbe closeSocket ports hs (idle p l x) = Ok sv ∧
    (size (observerLeases sv) <= 128)%nat ∧
    (∀ n m w v, workers sv !! n = Some w → workers sv !! m = Some v → ob_session w = ob_session v → n = m) ∧
    (∀ s, is_Some (observerLeases sv !! s) ↔ ∃ n w, workers sv !! n = Some w ∧ ob_session w = s) ∧
    (∀ n w, workers sv !! n = Some w → (length (ob_sockets w) <= 2)%nat) ∧
    NoDup (held sv) ∧
    (∀ port k, leases (sv_ports sv) !! port = Some k ↔ k ∈ held sv ∧ lease_port k = port) ∧
    ∀ n hs', (n < next_worker sv)%nat → Forall (possible ports) hs' → (8 <= sum_list_with (own n) hs')%nat →
      ∃ sv', run listenProbe closeSocket ports (H_ended n :: hs') sv = Ok sv' ∧ workers sv' !! n = None ∧
        ∀ s lease, observerLeases sv' !! s = Some lease → ol_worker lease ≠ n.
Proof.
  intros Wp P A F. destruct (books_run listenProbe closeSocket ports Wp hs _ (books_idle p l x P A) F) as (sv & R & B).
  exists sv. split; [done|]. split; [apply B|]. split_and!.
  - intros n m w v W V S. destruct (bk_worker _ B n w W) as [_ Lw]. destruct (bk_worker _ B m v V) as [_ Lv].
    rewrite S, Lv in Lw. by injection Lw.
  - intros s. split.
    + intros [lease Ls]. destruct (bk_lease _ B s lease Ls) as (w & W & S & _). by exists (ol_worker lease), w.
    + intros (n & w & W & <-). destruct (bk_worker _ B n w W) as [_ Lw]. by eexists.
  - intros n w W. apply (bk_phase _ B n w W).
  - apply (bk_account _ B).
  - apply (bk_account _ B).
  - intros n hs' L F' Le. pose proof (books_cancel n sv B) as B1.
    destruct (books_run listenProbe closeSocket ports Wp hs' _ B1 F') as (sv' & R' & B').
    exists sv'. split; [done|].
    assert (En : ended n (cancel_worker n sv)).
    { split; [done|]. cbn. rewrite lookup_alter_eq. by destruct (workers sv !! n). }
    destruct (run_left listenProbe closeSocket ports n hs' _ sv' Wp B1 F' R' En) as (_ & _ & Lf).
    assert (Wn : workers sv' !! n = None).
    { pose proof (left_bound _ n B1). assert (Z : steps_left n sv' = 0%nat) by lia. unfold steps_left in Z.
      destruct (workers sv' !! n) as [w|]; [|done]. unfold left_of in Z. destruct (ob_phase w); lia. }
    split; [done|]. intros s lease Ls. destruct (bk_lease _ B' s lease Ls) as (w & W & _). congruence.
Qed.

(** * What is said *)

(** The worker that an event is of, and the events of one worker. *)
Definition about (e : event) : option nat :=
  match e with Started n _ _ _ | Opened n _ _ | Answered n _ _ _ => Some n | Refused _ _ => None end.
Definition of_worker (n : nat) (tr : list event) : list event := filter (λ e, about e = Some n) tr.
(** What it opened, and what it sent: reports and other answers. *)
Definition opened (l : list event) : list (list byte * Received) :=
  omap (λ e, match e with Opened _ packet v => Some (packet, v) | _ => None end) l.
Definition told (l : list event) : list Control := omap (λ e, match e with Answered _ _ _ c => Some c | _ => None end) l.
Definition reports (l : list event) : list Control := filter (λ c, Code c = ProbeReport) (told l).
Definition replies (l : list event) : list Control := filter (λ c, Code c ≠ ProbeReport) (told l).
Definition report_of (v : Received) : Control := mkControl ProbeReport (rc_Round v) (rc_Sequence v) false (zeros 32) [rc_Seen v].

#[local] Arguments of_worker : simpl never.
#[local] Arguments opened : simpl never.
#[local] Arguments told : simpl never.
#[local] Arguments reports : simpl never.
#[local] Arguments replies : simpl never.

Lemma of_worker_app n tr evs : Forall (λ e, about e = Some n) evs → of_worker n (tr ++ evs) = of_worker n tr ++ evs.
Proof.
  intros F. unfold of_worker. rewrite filter_app. f_equal.
  induction F as [|e evs A F IH]; [done|]. by rewrite filter_cons, decide_True, IH.
Qed.
Lemma of_worker_other m tr evs : Forall (λ e, about e ≠ Some m) evs → of_worker m (tr ++ evs) = of_worker m tr.
Proof.
  intros F. unfold of_worker. rewrite filter_app. transitivity (filter (λ e, about e = Some m) tr ++ []); [f_equal|apply app_nil_r].
  induction F as [|e evs A F IH]; [done|]. by rewrite filter_cons, decide_False, IH.
Qed.

Section Said.
Context `{AEADLaws} {E : Type}.
Implicit Types (sv : server E).

(** The one reply of a worker: that it cannot, or the key with a candidate for
    each of two sockets. *)
Definition replied (key : list byte) (target : AddrPort) (c : Control) : Prop :=
  c = control DiscoveryEnd ∨
  ∃ public a b, c = mkControl ObserveReady 0 0 false key
    (flat_map (λ local, CandidatesFor (Infer [] (mkSurvey local target [public] [] true)) 1) [a; b]).
Definition event_of (n s : nat) (id : list byte) (e : event) : Prop :=
  match e with Answered m s' id' _ => m = n ∧ s' = s ∧ id' = id | Opened m _ _ => m = n | _ => False end.
(** What the worker is at, given its key and its replies. *)
Definition at_point (s : nat) (id : list byte) (target : AddrPort) (key : list byte) (l : list event) (w : observer) : Prop :=
  ob_session w = s ∧ ob_id w = id ∧ ob_target w = target ∧
  match ob_receiver w with
  | Some r => rv_ID r = id ∧ rv_Key r = key ∧ ∀ x, x ∈ opened l → rc_Sequence x.2 ∈ rv_seen r
  | None => opened l = []
  end ∧
  match ob_phase w with
  | Starting | Reserving _ _ => replies l = []
  | Serving | Unwinding => ∃ c, replies l = [c] ∧ replied key target c
  end.
Record history (n s : nat) (id : list byte) (target : AddrPort) (l : list event) (ow : option observer) : Prop := {
  hs_width : length id = 16%nat;
  hs_events : ∃ rest, l = Started n s id target :: rest ∧ Forall (event_of n s id) rest;
  hs_once : NoDup (map (λ x, rc_Sequence x.2) (opened l));
  hs_reports : reports l = map report_of (filter (λ v, rc_Round v = 0) (map snd (opened l)));
  hs_key : ∃ key, (∀ packet v, (packet, v) ∈ opened l → Seal id key (rc_Sequence v) (rc_Round v) (rc_Destination v) = Ok packet) ∧
    match ow with
    | Some w => at_point s id target key l w
    | None => ∃ c, replies l = [c] ∧ replied key target c
    end }.
Definition said sv : Prop :=
  ∀ n, if decide (n < next_worker sv)%nat
       then ∃ s id target, history n s id target (of_worker n (sv_trace sv)) (workers sv !! n)
       else of_worker n (sv_trace sv) = [].

(** A change of one worker and of its part of the trace. *)
Lemma said_step sv sv' n evs :
  said sv → (n < next_worker sv)%nat → next_worker sv' = next_worker sv →
  sv_trace sv' = sv_trace sv ++ evs → Forall (λ e, about e = Some n) evs →
  (∀ m, m ≠ n → workers sv' !! m = workers sv !! m) →
  (∀ s id target, history n s id target (of_worker n (sv_trace sv)) (workers sv !! n) →
    history n s id target (of_worker n (sv_trace sv) ++ evs) (workers sv' !! n)) →
  said sv'.
Proof using.
  intros S L En Et F Wo Hn m. rewrite En, Et. specialize (S m). destruct (decide (m = n)) as [->|D].
  - rewrite decide_True in S |- * by done. rewrite of_worker_app by done. naive_solver.
  - rewrite of_worker_other by (eapply Forall_impl; [exact F|naive_solver]). by rewrite Wo.
Qed.
Lemma said_same sv sv' :
  said sv → next_worker sv' = next_worker sv → sv_trace sv' = sv_trace sv → workers sv' = workers sv → said sv'.
Proof using. intros S E1 E2 E3 n. specialize (S n). by rewrite E1, E2, E3. Qed.

Lemma opened_app l k : opened (l ++ k) = opened l ++ opened k.
Proof using. apply omap_app. Qed.
Lemma replies_app l k : replies (l ++ k) = replies l ++ replies k.
Proof using. unfold replies, told. by rewrite omap_app, filter_app. Qed.
Lemma reports_app l k : reports (l ++ k) = reports l ++ reports k.
Proof using. unfold reports, told. by rewrite omap_app, filter_app. Qed.
Lemma reply_only n s id c : Code c ≠ ProbeReport →
  let l := [Answered n s id c] in opened l = [] ∧ replies l = [c] ∧ reports l = [].
Proof using.
  intros N l. split; [done|]. unfold replies, reports. change (told l) with [c].
  rewrite !filter_cons, decide_True, decide_False by done. done.
Qed.

(** The replies of a worker, of the kind that its program point says. *)
Definition silent (w : observer) : Prop := match ob_phase w with Starting | Reserving _ _ => True | _ => False end.

(** A worker that goes on without an event. *)
Lemma history_quiet n s id target l w w' :
  history n s id target l (Some w) →
  ob_session w' = ob_session w → ob_id w' = ob_id w → ob_target w' = ob_target w → ob_receiver w' = ob_receiver w →
  (silent w ↔ silent w') → history n s id target l (Some w').
Proof using.
  intros [H1 H2 H3 H4 (key & K & A1 & A2 & A3 & A4 & A5)] E1 E2 E3 E4 E5. split; [done..|]. exists key. split; [done|].
  unfold at_point. rewrite E1, E2, E3, E4. do 4 (split; [done|]). unfold silent in E5.
  destruct (ob_phase w), (ob_phase w'); tauto.
Qed.
(** One that replies. *)
Lemma history_reply n s id target l w w' c :
  history n s id target l (Some w) → silent w → Code c ≠ ProbeReport →
  (∀ key, at_point s id target key l w → replied key target c) →
  ob_session w' = ob_session w → ob_id w' = ob_id w → ob_target w' = ob_target w → ob_receiver w' = ob_receiver w → ¬ silent w' →
  history n s id target (l ++ [Answered n (ob_session w) (ob_id w) c]) (Some w').
Proof using.
  intros [H1 (rest & H2 & H2') H3 H4 (key & K & A)] Si Nc Rp E1 E2 E3 E4 E5. specialize (Rp key A).
  destruct A as (A1 & A2 & A3 & A4 & A5). rewrite A1, A2. destruct (reply_only n s id c Nc) as (O1 & O2 & O3).
  split; rewrite ?opened_app, ?reports_app, ?O1, ?O3, ?app_nil_r; try done.
  - exists (rest ++ [Answered n s id c]). rewrite H2. split; [done|]. apply Forall_app. split; [done|]. by constructor.
  - exists key. split; [done|]. unfold at_point. rewrite E1, E2, E3, E4, opened_app, replies_app, O1, O2, !app_nil_r.
    do 4 (split; [done|]). unfold silent in *.
    assert (Rn : replies l = []) by (by destruct (ob_phase w)). rewrite Rn.
    destruct (ob_phase w'); try (by destruct (E5 I)); by exists c.
Qed.
(** One that opens a packet, and reports it if its round is 0. *)
Lemma history_open n s id target l w r now packet seen v r' :
  history n s id target l (Some w) → ob_receiver w = Some r → opens now packet seen r = (Some v, r') →
  history n s id target
    (l ++ [Opened n packet v] ++ (if rc_Round v =? 0 then [Answered n (ob_session w) (ob_id w) (report_of v)] else []))
    (Some (set_opened r' w)).
Proof using H0.
  intros [H1 (rest & H2 & H2') H3 H4 (key & K & A1 & A2 & A3 & A4 & A5)] R Op. rewrite R in A4. destruct A4 as (R1 & R2 & R3).
  pose proof (Open_delivered now packet seen r ltac:(congruence)) as D. rewrite Op in D. destruct D as [[D1 D2 D3 D4 D5] ->].
  rewrite A1, A2. set (evs := [Opened n packet v] ++ _).
  assert (O : opened evs = [(packet, v)]) by (subst evs; by destruct (_ =? _)).
  assert (Rp : reports evs = if rc_Round v =? 0 then [report_of v] else []).
  { subst evs. unfold reports. destruct (_ =? _); [|done]. change (told _) with [report_of v]. by rewrite filter_cons, decide_True. }
  assert (Re : replies evs = []).
  { subst evs. unfold replies. destruct (_ =? _); [|done]. change (told _) with [report_of v].
    rewrite filter_cons, decide_False; [done|]. intros Y. by apply Y. }
  split; rewrite ?opened_app, ?reports_app, ?O, ?Rp; try done.
  - exists (rest ++ evs). rewrite H2. split; [done|]. apply Forall_app. split; [done|]. subst evs. destruct (_ =? _); by repeat constructor.
  - rewrite map_app. apply NoDup_app. split; [done|]. split; [|apply NoDup_singleton].
    intros q (x & -> & Hx)%list_elem_of_fmap [= Eq]%list_elem_of_singleton. cbn in Eq. apply D4. rewrite <-Eq. by apply R3.
  - rewrite H4, !map_app, filter_app, map_app. f_equal. change (map snd [(packet, v)]) with [v].
    rewrite filter_cons. destruct (Z.eqb_spec (rc_Round v) 0); [by rewrite decide_True|by rewrite decide_False].
  - exists key. split.
    + intros p q [I|[= -> ->]%list_elem_of_singleton]%elem_of_app; [by apply K|]. congruence.
    + clearbody evs. unfold at_point. cbn. do 3 (split; [done|]).
      rewrite opened_app, replies_app, O, Re, app_nil_r. split; [|done].
      do 2 (split; [done|]). intros x [I| ->%list_elem_of_singleton]%elem_of_app; [|set_solver].
      apply elem_of_union. right. by apply R3.
Qed.
End Said.

Section Saying.
Context `{AEADLaws} {E : Type}.
Implicit Types (sv : server E).

Lemma said_worker sv sv' n w w' evs :
  books sv → said sv → workers sv !! n = Some w → workers sv' = <[n := w']> (workers sv) →
  next_worker sv' = next_worker sv → sv_trace sv' = sv_trace sv ++ evs → Forall (λ e, about e = Some n) evs →
  (∀ s id target l, history n s id target l (Some w) → history n s id target (l ++ evs) (Some w')) → said sv'.
Proof using.
  intros B S W Ew En Et F Hn. eapply (said_step sv sv' n evs); try done.
  - by destruct (bk_worker _ B n w W).
  - intros m D. by rewrite Ew, lookup_insert_ne.
  - intros s id target. rewrite W, Ew, lookup_insert_eq. apply Hn.
Qed.
Lemma said_quiet sv n w w' :
  books sv → said sv → workers sv !! n = Some w →
  ob_session w' = ob_session w → ob_id w' = ob_id w → ob_target w' = ob_target w → ob_receiver w' = ob_receiver w →
  (silent w ↔ silent w') → ∀ sv', workers sv' = <[n := w']> (workers sv) → next_worker sv' = next_worker sv → sv_trace sv' = sv_trace sv → said sv'.
Proof using.
  intros B S W E1 E2 E3 E4 E5 sv' Ew En Et. eapply (said_worker sv sv' n w w' []); try done; [by rewrite app_nil_r|].
  intros s id target l Hs. rewrite app_nil_r. by eapply history_quiet.
Qed.
Lemma said_reply sv n w w' c :
  books sv → said sv → workers sv !! n = Some w → silent w → Code c ≠ ProbeReport →
  (∀ s id target key l, at_point s id target key l w → replied key target c) →
  ob_session w' = ob_session w → ob_id w' = ob_id w → ob_target w' = ob_target w → ob_receiver w' = ob_receiver w → ¬ silent w' →
  ∀ sv', workers sv' = <[n := w']> (workers sv) → next_worker sv' = next_worker sv →
    sv_trace sv' = sv_trace sv ++ [Answered n (ob_session w) (ob_id w) c] → said sv'.
Proof using.
  intros B S W Si Nc Rp E1 E2 E3 E4 E5 sv' Ew En Et.
  eapply (said_worker sv sv' n w w'); try done; [by constructor|].
  intros s id target l Hs. eapply history_reply; naive_solver.
Qed.

Lemma said_renounce n w0 w failed sv sv0 :
  books sv0 → said sv0 → workers sv0 !! n = Some w0 → workers sv = workers sv0 → next_worker sv = next_worker sv0 → sv_trace sv = sv_trace sv0 →
  silent w0 → ob_session w = ob_session w0 → ob_id w = ob_id w0 → ob_target w = ob_target w0 → ob_receiver w = ob_receiver w0 →
  said (renounce n w failed sv).
Proof using.
  intros B S W Ew En Et Si E1 E2 E3 E4.
  eapply (said_reply sv0 n w0 (set_phase Unwinding w) (control DiscoveryEnd)); try done; cbn; rewrite ?Ew, ?Et, ?E1, ?E2; try done.
  - by left.
  - intros Y. exact Y.
Qed.

Lemma said_begin n w source now random failed sv :
  books sv → said sv → workers sv !! n = Some w → ob_phase w = Starting → said (begin_ n w source now random failed sv).
Proof using.
  intros B S W P. assert (Si : silent w) by (unfold silent; by rewrite P).
  unfold begin_. destruct source as [local| |]; [|by eapply said_renounce..].
  set (w1 := set_source _ w). unfold NewReceiver. destruct random as [rkey| |]; [|by eapply said_renounce..]. cbn [mbind result_bind].
  eapply (said_worker sv _ n w _ []); try done; [by rewrite app_nil_r|].
  intros s id target l [H1 H2 H3 H4 (key & K & A1 & A2 & A3 & A4 & A5)]. rewrite app_nil_r.
  pose proof (bk_phase _ B n w W) as (_ & _ & O). rewrite P in O. destruct O as (_ & _ & O). rewrite O in A4.
  split; [done..|]. exists rkey. split; [rewrite A4; by intros ? ? ?%elem_of_nil|]. rewrite P in A5.
  unfold at_point. cbn. rewrite A4. split_and!; try done. by intros ? ?%elem_of_nil.
Qed.

Lemma said_ready n w local failed sv :
  books sv → said sv → workers sv !! n = Some w → ob_phase w = Reserving local 0 → said (ready n w failed sv).
Proof using.
  intros B S W P. pose proof (bk_phase _ B n w W) as (_ & O2 & O3). rewrite P in O3. destruct O3 as (O3 & [r O4] & O5).
  unfold ready, answer. eapply (said_reply sv n w
    (set_phase (if is_ok (sendDiscovery (ready_of w) failed) then Serving else Unwinding) w) (ready_of w)); try done.
  - unfold silent. by rewrite P.
  - intros s id target key l (A1 & A2 & A3 & A4 & _). right. rewrite O4 in A4. destruct A4 as (_ & <- & _).
    destruct (ob_sockets w) as [|a [|b [|]]] eqn:So; cbn in O3; try lia.
    exists (ob_public w), a.1, b.1. unfold ready_of. rewrite O4, O5, <-A3. done.
  - unfold silent. cbn [ob_phase set_phase]. destruct (is_ok (sendDiscovery (ready_of w) failed)); by intros Y.
Qed.

Context (listenProbe : AddrPort → E → (error + AddrPort) * E) (closeSocket : AddrPort → E → E).
Context (ports : PortChoice) (Wp : wf_choice ports).

Lemma said_reserve n w local turns start failed sv sv' :
  books sv → said sv → workers sv !! n = Some w → ob_phase w = Reserving local (S turns) →
  reserve_turn listenProbe closeSocket ports n w local turns start failed sv = Ok sv' → said sv'.
Proof using.
  intros B S W P. assert (Si : silent w) by (unfold silent; by rewrite P).
  unfold reserve_turn. destruct (reserveProbe _ _ _ _ _ _ _ _) as [[[socket|e|] p] x]; intros [= <-]; [|by eapply said_renounce].
  by eapply (said_quiet sv n w (set_phase (Reserving local turns) (set_sockets _ _ w))).
Qed.

Lemma said_cancel n sv : books sv → said sv → said (cancel_worker n sv).
Proof using.
  intros B S. unfold cancel_worker. destruct (workers sv !! n) as [w|] eqn:W.
  - eapply (said_quiet sv n w (set_ended w)); try done. cbn. apply map_eq. intros m. destruct (decide (m = n)) as [->|D].
    + by rewrite lookup_alter_eq, lookup_insert_eq, W.
    + by rewrite lookup_alter_ne, lookup_insert_ne.
  - eapply said_same; try done. cbn. apply alter_id. congruence.
Qed.

Lemma said_start s id target dn failed sv :
  length id = 16%nat → books sv → said sv → said (startObserver s id target dn failed sv).2.
Proof using.
  intros L B S. unfold startObserver. destruct (_ || dn); [done|]. destruct (bool_decide _ || _).
  - intros m. specialize (S m). cbn. by rewrite of_worker_other by (by constructor).
  - intros m. specialize (S m). cbn. set (n := next_worker sv) in *. destruct (decide (m = n)) as [->|D].
    + rewrite decide_False in S by lia. rewrite decide_True by lia. rewrite of_worker_app by (by constructor).
      rewrite S, lookup_insert_eq. exists s, id, target. split; try done.
      * exists []. by split.
      * constructor.
      * exists []. split; [by intros ? ? ?%elem_of_nil|]. by split_and!.
    + rewrite of_worker_other by (constructor; [|done]; cbn; congruence). rewrite lookup_insert_ne by done.
      destruct (decide (m < n)%nat), (decide (m < Datatypes.S n)%nat); try done; lia.
Qed.

Lemma unopened_same now packet seen r r' : opens now packet seen r = (None, r') → r' = r.
Proof using. unfold opens. intros Op. by repeat (case_match; simplify_eq). Qed.

Lemma said_packet n i now packet from destination failed sv :
  books sv → said sv → said (packet_arrived n i now packet from destination failed sv).
Proof using H0.
  intros B S. unfold packet_arrived. destruct (workers sv !! n) as [w|] eqn:W; [|done].
  destruct (ob_receiver w) as [r|] eqn:R; [|done]. destruct (ob_sockets w !! i) as [[local lp]|]; [|done].
  destruct (on_path _ _); [|done]. set (seen := AddrPortFrom _ _).
  unfold opened_packet. destruct (opens now packet seen r) as [[v|] r'] eqn:Op.
  - set (w' := set_opened r' w). set (s1 := record_ (Opened n packet v) (set_worker n w' sv)).
    set (s2 := record_ (Answered n (ob_session w) (ob_id w) (report_of v)) s1).
    assert (B1 : books s1).
    { apply books_record, (books_update n w w' None); try done. by eapply opened_ok, (bk_phase _ B n w W). }
    assert (Go : ∀ sv', workers sv' = <[n := w']> (workers sv) → next_worker sv' = next_worker sv →
      sv_trace sv' = sv_trace sv ++ [Opened n packet v] ++ (if rc_Round v =? 0 then [Answered n (ob_session w) (ob_id w) (report_of v)] else []) →
      said sv').
    { intros sv' Ew En Et. eapply (said_worker sv sv' n w w'); try done; [destruct (_ =? _); by repeat constructor|].
      intros s id target l Hs. by eapply history_open. }
    destruct (rc_Round v =? 0) eqn:Z0; cbn [negb]; [|by apply Go].
    assert (S2 : said s2) by (apply Go; try done; cbn; by rewrite <-app_assoc).
    unfold answer. fold (report_of v). change (record_ _ s1) with s2.
    destruct (is_ok (sendDiscovery (report_of v) failed)); [done|]. apply said_cancel; [by apply books_record|done].
  - apply unopened_same in Op as ->.
    eapply (said_quiet sv n w (set_opened r w)); try done.
Qed.

Lemma said_happen h sv sv' :
  books sv → said sv → possible ports h → happen listenProbe closeSocket ports h sv = Ok sv' → said sv'.
Proof using H0.
  intros B S Ps. destruct h as [s remote id data dn failed|n x|n i now packet from destination failed|n| |bind choice sticky start|l|ev at_]; cbn in *.
  - unfold handleDiscoveryControl. destruct (DecodeControl data) as [c|e|]; [|by intros [= <-]|done].
    case_bool_decide.
    + destruct (Endpoints c) as [|target rest]; [done|]. pose proof (said_start s id target dn failed sv Ps B S) as Ss.
      destruct (startObserver _ _ _ _ _ _) as [[?|?|] sv1]; [intros [= <-]..|done]; exact Ss.
    + destruct (lease_of s id sv) as [lease|]; intros [= <-]; [case_bool_decide; [by apply said_cancel|done]|].
      unfold to_attempt. destruct (sv_attempts sv !! remote) as [a|]; [|done]. by destruct (for_attempt _ _ _).
  - unfold work. destruct (workers sv !! n) as [w|] eqn:W; [|by intros [= <-]].
    destruct (ob_phase w) as [|local [|turns]| |] eqn:P.
    + intros [= <-]. by apply said_begin.
    + intros [= <-]. by eapply said_ready.
    + by apply said_reserve.
    + intros [= <-]. destruct (ob_ended w); [|done]. eapply (said_quiet sv n w (set_phase Unwinding w)); try done.
      unfold silent. cbn. by rewrite P.
    + destruct (ob_sockets w) as [|socket rest] eqn:So; intros [= <-].
      * destruct (bk_worker _ B n w W) as [Wn _]. eapply (said_step sv _ n []); try done; [by rewrite app_nil_r|..].
        -- intros m D. cbn. by rewrite lookup_delete_ne.
        -- intros s id target. rewrite W. cbn. rewrite lookup_delete_eq, app_nil_r.
           intros [H1 H2 H3 H4 (key & K & A1 & A2 & A3 & A4 & A5)]. split; try done. exists key. split; [done|]. by rewrite P in A5.
      * by eapply (said_quiet sv n w (set_sockets rest (ob_endpoints w) w)).
  - rewrite packet_arrives_eq. intros [= <-]. by apply said_packet.
  - intros [= <-]. by apply said_cancel.
  - by intros [= <-].
  - destruct (portPool_bind _ _ _ _ _ _) as [[[l| | |] p] x]; [..|done]; by intros [= <-].
  - case_bool_decide; by intros [= <-].
  - by intros [= <-].
Qed.
End Saying.

(** What an observer says.  Every worker sends on the session and for the
    operation it was started for, and replies at most once, and exactly once if it
    has ended: with END, or with its key and a candidate for each of two sockets
    towards the target.  Beside that it reports exactly the packets of round 0 that
    were sealed with that key for that operation and came to its sockets, each
    sequence number once, with the endpoint that it saw. *)
Theorem observers_report `{AEADLaws} {E} (listenProbe : AddrPort → E → (error + AddrPort) * E) closeSocket ports p l (x : E) hs :
  wf_choice ports → pool_ok p → accounts p l → Forall (possible ports) hs →
  ∃ sv, run listenProbe closeSocket ports hs (idle p l x) = Ok sv ∧
    ∀ n, (n < next_worker sv)%nat → ∃ s id target key,
      let evs := of_worker n (sv_trace sv) in
      (∃ rest, evs = Started n s id target :: rest ∧ Forall (event_of n s id) rest) ∧
      (replies evs = [] ∧ is_Some (workers sv !! n) ∨ ∃ c, replies evs = [c] ∧ replied key target c) ∧
      reports evs = map report_of (filter (λ v, rc_Round v = 0) (map snd (opened evs))) ∧
      NoDup (map (λ y, rc_Sequence y.2) (opened evs)) ∧
      ∀ packet v, (packet, v) ∈ opened evs → Seal id key (rc_Sequence v) (rc_Round v) (rc_Destination v) = Ok packet.
Proof.
  intros Wp P A F. pose proof (books_idle p l x P A) as B.
  assert (S : said (idle p l x)) by (intros n; rewrite decide_False; [done|cbn; lia]).
  assert (G : ∀ hs (sv : server E), books sv → said sv → Forall (possible ports) hs →
    ∃ sv', run listenProbe closeSocket ports hs sv = Ok sv' ∧ said sv').
  { clear -Wp H0. intros hs. induction hs as [|h hs IH]; intros sv B S F; cbn [run]; [by eexists|].
    apply Forall_cons in F as [Ph F]. destruct (books_happen listenProbe closeSocket ports Wp h sv B Ph) as (sv1 & H1 & B1).
    rewrite H1, bind_Ok. apply IH; [exact B1| |exact F]. exact (said_happen listenProbe closeSocket ports h sv sv1 B S Ph H1). }
  destruct (G hs _ B S F) as (sv & R & Sv). exists sv. split; [done|]. intros n Ln. specialize (Sv n).
  rewrite decide_True in Sv by done. destruct Sv as (s & id & target & [H1 H2 H3 H4 (key & K & D)]).
  exists s, id, target, key. split_and!; try done. destruct (workers sv !! n) as [w|]; [|by right].
  destruct D as (_ & _ & _ & _ & D). destruct (ob_phase w); [left; by eauto..|by right|by right].
Qed.

(** A node that serves one session: the message, the two sockets, a probe that
    arrives on the first of them, and the end. *)
#[local] Existing Instances clear_AEAD clear_laws.
Definition lend (ep : AddrPort) (x : Z) : (error + AddrPort) * Z :=
  (inr (AddrPortFrom (AddrPort_Addr ep) (if Port ep =? 0 then x else Port ep)), x + 1).
Definition exTarget : AddrPort := AddrPortFrom (Addr4 0xc6336401) 40000.
Definition exLocal : Addr := Addr4 0xcb007101.
Definition exOperation : list byte := replicate 16 x07.
Definition exKey : list byte := replicate 32 x09.
Definition exAnswers : answers := mkAnswers (Ok exLocal) 0 (Ok exKey) 0 None.
Definition ok_or {A} (d : A) (r : result A) : A := match r with Ok a => a | _ => d end.
Definition exOpen : list byte := ok_or [] (Control_Encode (mkControl ObserveOpen 0 0 false (zeros 32) [exTarget])).
Definition exProbe : list byte := ok_or [] (Seal exOperation exKey 1 0 (AddrPortFrom exLocal 50000)).
Definition exRun : list (@happening Z) :=
  [H_message 5 [] exOperation exOpen false None; H_work 0 exAnswers; H_work 0 exAnswers; H_work 0 exAnswers; H_work 0 exAnswers;
   H_packet 0 0 1 exProbe exTarget (Some exLocal) None; H_packet 0 1 2 exProbe exTarget (Some exLocal) None].
Notation exServer := (run lend (λ _ x, x) PortChoice_zero exRun (idle (mkPool ∅ 4790 0) [] 50000)).
Lemma exRun_possible : Forall (possible PortChoice_zero) exRun.
Proof. by repeat constructor. Qed.
Lemma exPool_account : pool_ok (mkPool ∅ 4790 0) ∧ accounts (mkPool ∅ 4790 0) [].
Proof.
  split; [intros port k; cbn; by rewrite lookup_empty|]. split; [constructor|]. intros port k. cbn. rewrite lookup_empty.
  split; [done|]. by intros [?%elem_of_nil ?].
Qed.

(** Its trace: the reply offers both sockets, the probe is reported once though it
    came on both. *)
Lemma exServer_says :
  match exServer with
  | Ok sv => told (of_worker 0 (sv_trace sv)) =
      [mkControl ObserveReady 0 0 false exKey [AddrPortFrom exLocal 50000; AddrPortFrom exLocal 50001];
       report_of (mkReceived 0 1 (AddrPortFrom exLocal 50000) exTarget)]
  | _ => False
  end.
Proof. by vm_compute. Qed.

Lemma observers_report_witness :
  ∃ sv, exServer = Ok sv ∧ ∃ key c, replies (of_worker 0 (sv_trace sv)) = [c] ∧ replied key exTarget c.
Proof.
  destruct (observers_report lend (λ _ x, x) PortChoice_zero (mkPool ∅ 4790 0) [] 50000 exRun
    eq_refl (proj1 exPool_account) (proj2 exPool_account) exRun_possible) as (sv & R & Sp).
  exists sv. split; [exact R|]. pose proof exServer_says as Sa. rewrite R in Sa.
  destruct (Sp 0%nat) as (s & id & target & key & (rest & Ev & _) & Rp & _).
  { vm_compute in R. injection R as <-. cbn. lia. }
  assert (target = exTarget) as ->.
  { clear -Ev R. vm_compute in R. injection R as <-. vm_compute in Ev. by injection Ev. }
  exists key. destruct Rp as [[Rn _]|Rp]; [|exact Rp].
  unfold replies in Rn. rewrite Sa in Rn. by vm_compute in Rn.
Defined.
Lemma observers_account_witness :
  ∃ sv sv', exServer = Ok sv ∧
    run lend (λ _ x, x) PortChoice_zero (H_ended 0 :: replicate 8 (H_work 0 exAnswers)) sv = Ok sv' ∧ workers sv' !! 0%nat = None.
Proof.
  destruct (observers_account lend (λ _ x, x) PortChoice_zero (mkPool ∅ 4790 0) [] 50000 exRun
    eq_refl (proj1 exPool_account) (proj2 exPool_account) exRun_possible) as (sv & R & _ & _ & _ & _ & _ & _ & En).
  destruct (En 0%nat (replicate 8 (H_work 0 exAnswers))) as (sv' & R' & W & _).
  - vm_compute in R. injection R as <-. cbn. lia.
  - by repeat constructor.
  - vm_compute. lia.
  - exists sv, sv'. split; [exact R|]. split; [exact R'|exact W].
Defined.
